(* ===== verification/_CoqProject ===== *)
-Q . S2P
Prelude.v
AesSpec.v
Ctaes.v
CtaesProofs.v
CtaesKeySchedule.v
AesCbc.v
Bytes.v
Streams.v
Serialize.v
SerializeLaws.v
SerializeCodecs.v
BitSets.v
BitStream.v
Files.v
ArithUint256.v
ArithLaws.v
Uint256.v
StdContainers.v
CacheMap.v
CacheMultiMap.v
LruCache.v
Chain.v
ChainLaws.v
BlockIndex.v
Pow.v
Script.v
ScriptLaws.v
ShaSpec.v
BlockHash.v
Sha256.v
Sha256Laws.v
Ripemd160.v
Sha1.v
Sha512.v
Hash.v
SipHash.v
Merkle.v
MerkleLaws.v
Transaction.v
Compressor.v
CompressorLaws.v
Coins.v
CoinsLaws.v
CoinsDB.v
SpentIndex.v
Undo.v
UndoLaws.v
Interpreter.v
InterpreterLaws.v
SigHash.v
SigHashLaws.v
Standard.v
StandardLaws.v
TxVerify.v
TxVerifyLaws.v
VersionBits.v
VersionBitsLaws.v
Deployments.v
Base58.v
Base58Laws.v
KeyIO.v
KeyIOLaws.v
Strings.v
StringsLaws.v
NetAddress.v
NetAddressLaws.v
Bls.v
ProviderTx.v
ProviderTxLaws.v
MNState.v
MNList.v
MNListLaws.v
MNListProps.v
MNPoSe.v
MNDiff.v
