(* ===== verification/Prelude.v ===== *)
(** * Babacoin Core: verification library

    Babacoin Core is a full node and wallet for a proof-of-work currency with smartnodes.  This library models parts
    of its C and C++ code as Rocq functions and proves that they do what the rest of the node relies on.  Paths below
    are relative to [src/] of the repository.

    ** Parts and files

    The modelled parts, in the order in which they build on each other.  A file named [...Laws], [...Proofs] or [...Props]
    holds the theorems about the definitions of the file before it.

    - Foundations.  [Prelude.v]: integers of a width, lists, options, the monads [option], [result] and [action].
      [Bytes.v]: crypto/common.h.  [StdContainers.v]: [std::list] with the identity of nodes, ordered [std::map].
    - Cryptography.  [AesSpec.v] states FIPS-197; [Ctaes.v], [CtaesProofs.v], [CtaesKeySchedule.v]: crypto/ctaes/ctaes.c;
      [AesCbc.v]: crypto/aes.cpp and the wallet's crypter.  [ShaSpec.v] states FIPS 180-4; [BlockHash.v] is the buffer
      that the hashers share; [Sha256.v], [Sha1.v], [Sha512.v], [Ripemd160.v]: crypto/; [Hash.v]: hash.h and the HMACs;
      [SipHash.v]: hash.cpp.  [Merkle.v]: consensus/merkle.cpp, merkleblock.cpp.
    - Serialization.  [Streams.v] has the interfaces [IStream], [OStream] and the streams in memory of streams.h, [Files.v]
      the file streams, [BitStream.v] the bit streams.  [Serialize.v] is serialize.h as codecs over any stream; a format
      with its laws is an instance of [CodecLaws] ([SerializeLaws.v], [SerializeCodecs.v], [BitSets.v]), and every later
      format is one.
    - Numbers and text.  [ArithUint256.v], [ArithLaws.v], [Uint256.v]: arith_uint256, uint256.  [Strings.v]:
      utilstrencodings, utilmoneystr.  [Base58.v], [KeyIO.v]: base58, key_io and the prefixes of chainparams.cpp.
    - Caches.  [CacheMap.v], [CacheMultiMap.v], [LruCache.v]: cachemap.h, cachemultimap.h, unordered_lru_cache.h, limitedmap.h.
    - Block chain.  [Chain.v]: chain.h, chain.cpp; [BlockIndex.v]: [AddToBlockIndex] of validation.cpp; [Pow.v]: pow.cpp;
      [VersionBits.v], [Deployments.v]: versionbits and its users in validation.cpp.
    - Scripts.  [Script.v]: script/script; [Interpreter.v], [SigHash.v]: script/interpreter and the verification of
      pubkey.cpp; [Standard.v]: script/standard.
    - Transactions and coins.  [Transaction.v]: primitives/; [Compressor.v]: compressor; [Coins.v]: coins; [CoinsDB.v]:
      the coins part of txdb; [SpentIndex.v]: spentindex.h; [Undo.v]: undo.h and the parts of [ConnectBlock] and
      [DisconnectBlock] that change coins and indexes; [TxVerify.v]: consensus/tx_verify.cpp, the subsidy, founder_payment.
    - Network addresses.  [NetAddress.v]: netaddress.
    - Smartnodes.  [Bls.v]: bls/bls.h; [ProviderTx.v]: evo/providertx.h, evo/specialtx, llmq/quorums_commitment.h;
      [MNState.v]: the state of a node and its differences (evo/deterministicmns.h), smartnode/smartnode-collaterals;
      [MNList.v]: [CDeterministicMNList] and the penalties of its manager (evo/deterministicmns); [MNPoSe.v]: what penalties
      come to over blocks; [MNDiff.v]: what differences of lists guarantee.

    ** How code is modelled

    A [w]-bit integer is a [Z]; [u8] ... [u64], [i32], [i64] are the conversions C performs, written where the source can
    wrap; the arithmetic on script numbers is checked, as overflow is undefined there.  Bytes are [Z] in [0, 256).  A C++ object is a record and a method a function of it; exceptions are [Throw] in
    the [result] type, code that throws while it changes an object or a stream is an [action], which returns the object
    also when it throws.  A failed assertion, a dangling iterator or another undefined step is [None] (or
    [Throw "assertion failed"]), and theorems state that it does not happen, or when it does.  Pointers to objects that
    are changed through them are addresses in a store; pointers to objects that never change are their values.

    Loops that are not structural carry fuel, and the theorems prove that it is enough: the result is [Ok] or [Some], not
    only right when there is one.  The fuel is [k + 1] rounds for a [k]-bit variable-length integer, one round per block
    of height for walks along the chain, one per byte for the ring buffer and for a script, one per period of
    blocks for deployments, one per level for merkle trees.

    Code outside of the repository, and what the program leaves to the implementation of a library, is an argument with its
    documented promises as the laws of a class: the key derivation of OpenSSL ([AesCbc.v]), the vector back ends of SHA-256
    ([dispatch], [GoodDispatch]), libsecp256k1 ([Secp256k1], [Ecdsa], [LowS], [SecKey]), the BLS library ([BlsImpl]), the
    order of hash maps and of [immer::map] ([IterationOrder], [HashIteration], [MnIteration]), [std::sort] ([StdSort],
    [ScoreSort]), the memory of scripts ([ScriptUsage]), the size of database batches ([BatchLimit]).  What a part asks of a
    part of the node that is not modelled is an argument as well: the block hash, [NodeServices] and [IndexOptions] for
    blocks, [TxServices] for transactions, [NodeView] for smartnodes.  Each class has an instance with which the
    witnesses apply the theorems to concrete inputs.

    ** What is shown

    - The coins (C1, C2, C10, C26, C37): a stack of caches over the database refines a map of unspent outputs; connecting
      a block and taking it back restores it; a stop between two batches of a write is repaired; undo data and compressed
      outputs are read back.
    - Transactions (C3, C19, C22, C23): accepted transactions create no money; the rules of [CheckTransaction]; an identifier
      names one transaction; sequence locks.
    - Scripts (C4, C8, C9, C15, C20, C21): every script ends within the limits; flags only restrict; the signature hash is
      that of the original implementation and binds what it should; key-hash and script-hash outputs.
    - Smartnodes (C6, C7, C11, C12, C24, C25, C33, C39): the maps of a list stay in step under every operation; operations succeed
      exactly when they should; differences of lists lead from one to the other; payees and quorums do not depend on the
      order of a map; penalties, and the ban of nodes that fail repeatedly; lazy keys behave as their bytes.
    - Block chain (C5, C27, C34, C35, C36): deployments refine the BIP9 state machine and are decided; the index and the
      skip list; retargeting.
    - Cryptography (C13, C14, C16, C17, C18): AES and SHA-256 are the published functions; merkle trees prove membership.
    - Text and addresses (C28 to C32, C40), caches (C38).

    Theorems that are not numbered are about the same parts: the other hash functions, streams and codecs, big integers,
    the other caches, deployments that other branches disturb, lock times, subsidy and founder payments, payloads,
    differences of states.  A property theorem
    with hypotheses is followed, in its file or in a later one, by a witness that applies it to a concrete input.

    ** Not modelled

    - Acceptance of blocks ([CheckBlock], [ContextualCheckBlock], the checks of [ConnectBlock], [ActivateBestChain]), the memory
      pool and mining: they thread the global state of the node through locks, files and a multi-index container.
    - The rest of the manager of smartnode lists, the checks of provider transactions, distributed key generation and
      threshold signing, InstantSend and ChainLocks, governance and CoinJoin: message handlers over the BLS library and the
      network; the list and the payloads they work on are modelled.
    - Peer-to-peer networking, wallet, RPC, graphical interface: input and output, threads and databases.
    - Bloom filters choose their size with floating-point logarithms; [KimotoGravityWell] and [getdouble] are floating
      point as well.
    - The proof-of-work hash functions are large third-party kernels; leveldb, secp256k1, univalue and immer are third-party
      code. *)

From stdpp Require Export base tactics numbers list gmap strings.
From Stdlib Require Export ZArith Lia ZifyNat ZifyN Btauto.

#[export] Set Default Goal Selector "!".
Open Scope Z_scope.

(** Lengths and counters are [nat], machine integers [Z]. *)
Coercion Z.of_nat : nat >-> Z.

(** ** Notations for C's bit operators on (unbounded) integers. *)

Declare Scope c_scope.
Delimit Scope c_scope with c.
Notation "a ^^ b" := (Z.lxor a b) (at level 48, left associativity) : c_scope.
Notation "a &&& b" := (Z.land a b) (at level 40, left associativity) : c_scope.
Notation "a ||| b" := (Z.lor a b) (at level 50, left associativity) : c_scope.
Notation "a << b" := (Z.shiftl a b) (at level 38, left associativity) : c_scope.
Notation "a >> b" := (Z.shiftr a b) (at level 38, left associativity) : c_scope.
Open Scope c_scope.

(** ** Machine integers

    A [w]-bit unsigned integer is a [Z] in [[0, 2^w)]; [uint w] is the
    conversion C performs when a value is stored into such a type, and [sint w]
    the (two's complement) conversion to the signed type of the same width. *)

Definition uint (w x : Z) : Z := x `mod` 2 ^ w.
Definition sint (w x : Z) : Z := (x + 2 ^ (w - 1)) `mod` 2 ^ w - 2 ^ (w - 1).

Abbreviation u8 := (uint 8).
Abbreviation u16 := (uint 16).
Abbreviation u32 := (uint 32).
Abbreviation u64 := (uint 64).
Abbreviation i32 := (sint 32).
Abbreviation i64 := (sint 64).

Definition in_uint (w x : Z) : Prop := 0 <= x < 2 ^ w.
Definition in_sint (w x : Z) : Prop := - 2 ^ (w - 1) <= x < 2 ^ (w - 1).
Abbreviation is_byte := (in_uint 8).

Section machine_integers.
Implicit Types w x y i : Z.

Lemma uint_range w x : 0 <= w -> in_uint w (uint w x).
Proof. intros. apply Z.mod_pos_bound. lia. Qed.

Lemma uint_small w x : in_uint w x -> uint w x = x.
Proof. apply Z.mod_small. Qed.

Lemma uint_idemp w x : 0 <= w -> uint w (uint w x) = uint w x.
Proof. intros. apply uint_small, uint_range. done. Qed.

Lemma uint_land w x : 0 <= w -> uint w x = x &&& Z.ones w.
Proof. intros. symmetry. by apply Z.land_ones. Qed.

Lemma sint_range w x : 0 < w -> in_sint w (sint w x).
Proof.
  intros. unfold in_sint, sint.
  pose proof (Z.mod_pos_bound (x + 2 ^ (w - 1)) (2 ^ w)) as Hb.
  replace (2 ^ w) with (2 * 2 ^ (w - 1)) in *
    by (rewrite <- Z.pow_succ_r by lia; f_equal; lia).
  lia.
Qed.

Lemma sint_small w x : 0 < w -> in_sint w x -> sint w x = x.
Proof.
  unfold in_sint, sint; intros.
  rewrite Z.mod_small; [lia|].
  replace (2 ^ w) with (2 * 2 ^ (w - 1))
    by (rewrite <- Z.pow_succ_r by lia; f_equal; lia).
  lia.
Qed.

Lemma testbit_uint w x i :
  0 <= w -> Z.testbit (uint w x) i = (i <? w) && Z.testbit x i.
Proof.
  intros. unfold uint. destruct (Z.ltb_spec i w); simpl.
  - by apply Z.mod_pow2_bits_low.
  - apply Z.mod_pow2_bits_high; lia.
Qed.

Lemma testbit_in_uint w x i : in_uint w x -> 0 <= w -> w <= i -> Z.testbit x i = false.
Proof.
  intros Hx Hw Hi. rewrite <- (uint_small w x Hx), testbit_uint by done.
  destruct (Z.ltb_spec i w); [lia|done].
Qed.

(** Two [w]-bit integers with the same low [w] bits are equal. *)
Lemma uint_bits_inj w x y :
  0 <= w -> in_uint w x -> in_uint w y ->
  (forall i, 0 <= i < w -> Z.testbit x i = Z.testbit y i) -> x = y.
Proof.
  intros Hw Hx Hy H. apply Z.bits_inj'. intros i Hi.
  destruct (decide (i < w)); [auto with lia|].
  by rewrite !(testbit_in_uint w) by (done || lia).
Qed.

Lemma in_uint_bits w x :
  0 <= w -> 0 <= x -> (forall i, w <= i -> Z.testbit x i = false) -> in_uint w x.
Proof.
  intros Hw Hx H. rewrite <- (Z.mod_small x (2 ^ w)); [by apply uint_range|].
  split; [done|]. destruct (decide (x < 2 ^ w)) as [|Hge]; [done|exfalso].
  assert (w <= Z.log2 x) by (apply Z.log2_le_pow2; lia).
  assert (0 < x) by (pose proof (Z.pow_pos_nonneg 2 w); lia).
  specialize (H (Z.log2 x)). rewrite Z.bit_log2 in H by lia.
  by discriminate H.
Qed.

Lemma in_uint_land w x y : 0 <= w -> in_uint w x -> 0 <= y -> in_uint w (x &&& y).
Proof.
  intros Hw Hx Hy. apply in_uint_bits; [done|apply Z.land_nonneg; destruct Hx; lia|].
  intros i Hi. by rewrite Z.land_spec, (testbit_in_uint w x) by done.
Qed.

Lemma in_uint_lor w x y : 0 <= w -> in_uint w x -> in_uint w y -> in_uint w (x ||| y).
Proof.
  intros Hw Hx Hy. apply in_uint_bits; [done|apply Z.lor_nonneg; destruct Hx, Hy; lia|].
  intros i Hi. by rewrite Z.lor_spec, !(testbit_in_uint w) by done.
Qed.

Lemma in_uint_lxor w x y : 0 <= w -> in_uint w x -> in_uint w y -> in_uint w (x ^^ y).
Proof.
  intros Hw Hx Hy. apply in_uint_bits; [done|apply Z.lxor_nonneg; destruct Hx, Hy; lia|].
  intros i Hi. by rewrite Z.lxor_spec, !(testbit_in_uint w) by done.
Qed.

Lemma in_uint_shiftr w x n : 0 <= n -> in_uint w x -> in_uint w (x >> n).
Proof.
  intros Hn Hx. unfold in_uint in *. rewrite Z.shiftr_div_pow2 by done.
  pose proof (Z.pow_pos_nonneg 2 n). split; [apply Z.div_pos; lia|].
  apply Z.le_lt_trans with x; [|lia]. apply Z.div_le_upper_bound; nia.
Qed.
End machine_integers.

(** ** Hint databases

    [uints] proves that machine-integer expressions stay in range; [bits] pushes
    [Z.testbit] through C's bit operators. *)

Create HintDb uints.
#[export] Hint Resolve uint_range in_uint_land in_uint_lor in_uint_lxor in_uint_shiftr : uints.
#[export] Hint Extern 1 (0 <= _) => lia : uints.
#[export] Hint Extern 2 (in_uint _ _) => (unfold in_uint; lia) : uints.

Create Rewrite HintDb bits.
#[export] Hint Rewrite Z.lxor_spec Z.land_spec Z.lor_spec : bits.
#[export] Hint Rewrite Z.shiftl_spec Z.shiftr_spec Z.lnot_spec testbit_uint using lia : bits.

(** ** Bytes *)

Definition bytes (l : list Z) : Prop := Forall is_byte l.

(** A decidable statement about bytes is settled by evaluating it 256 times. *)
Lemma byte_forall (P : Z -> bool) :
  forallb P (seqZ 0 256) = true -> forall x, is_byte x -> P x = true.
Proof.
  intros H x Hx. rewrite forallb_forall in H. apply H, list_elem_of_In, elem_of_seqZ.
  unfold in_uint in Hx. lia.
Qed.

Lemma byte_forall_eq (f g : Z -> Z) :
  forallb (λ x, f x =? g x) (seqZ 0 256) = true -> forall x, is_byte x -> f x = g x.
Proof. intros H x Hx. apply Z.eqb_eq. exact (byte_forall _ H x Hx). Qed.

Lemma byte_forall_byte (f : Z -> Z) :
  forallb (λ x, (0 <=? f x) && (f x <? 256)) (seqZ 0 256) = true ->
  forall x, is_byte x -> is_byte (f x).
Proof.
  intros H x Hx. pose proof (byte_forall _ H x Hx) as Hf. simpl in Hf.
  change (0 <= f x < 256). lia.
Qed.

(** A list of known length is the list of its elements. *)
Ltac destruct_list_length :=
  repeat (match goal with
  | H : length ?l' = S _ |- _ => destruct l'; [discriminate H|simpl in H; apply Nat.succ_inj in H]
  | H : length ?l' = O |- _ => apply nil_length_inv in H; subst l'
  end).

(** [Forall] over a literal list, one goal per element. *)
Ltac split_Forall := repeat first [apply List.Forall_nil | apply List.Forall_cons].

(** Case analysis on an integer variable known to lie in [[lo, hi)], two literals. *)
Ltac enum_Z i lo hi :=
  let done := eval vm_compute in (Z.leb hi lo) in
  lazymatch done with
  | true => exfalso; lia
  | false =>
      let lo' := eval vm_compute in (Z.succ lo) in
      destruct (Z.eq_dec i lo) as [->|?]; [|enum_Z i lo' hi]
  end.

(** [lia] with division and modulo. *)
Ltac lia_mod := zify; Z.to_euclidean_division_equations; lia.

(** ** Exceptions and state

    Code that throws returns a [result]; code that also reads or writes a stream
    is an [action] on the stream's state.  The state at the point of the throw is
    kept, as the C++ object is. *)

Inductive result (A : Type) : Type := Ok (a : A) | Throw (msg : string).
Arguments Ok {A} a.
Arguments Throw {A} msg%_string.

Definition action (S A : Type) : Type := S -> result A * S.

#[export] Instance action_ret S : MRet (action S) := λ A a s, (Ok a, s).
#[export] Instance action_bind S : MBind (action S) := λ A B f m s,
  match m s with
  | (Ok a, s') => f a s'
  | (Throw msg, s') => (Throw msg, s')
  end.
Definition throw {S A} (msg : string) : action S A := λ s, (Throw msg, s).
Arguments throw {S A} msg%_string.
Definition assert {S} (b : bool) : action S unit :=
  if b then mret tt else throw "assertion failed".

Lemma action_bind_assoc {S A B C} (m : action S A) (f : A -> action S B) (g : B -> action S C) s :
  ((m ≫= f) ≫= g) s = (m ≫= λ a, f a ≫= g) s.
Proof. unfold mbind, action_bind. by destruct (m s) as [[?|?] ?]. Qed.

(** ** Arithmetic shared by the components *)

Lemma succ_mod i nk :
  (0 < nk)%nat ->
  (S i `mod` nk = if decide (S (i `mod` nk) = nk) then 0 else S (i `mod` nk))%nat.
Proof.
  intros Hnk. pose proof (Nat.div_mod_eq i nk). pose proof (Nat.mod_upper_bound i nk).
  case_decide; symmetry; [apply Nat.mod_unique with (S (i / nk))|apply Nat.mod_unique with (i / nk)%nat]; nia.
Qed.

Lemma u32_small x : 0 <= x < 2 ^ 32 -> u32 x = x.
Proof. apply uint_small. Qed.

Lemma u64_small x : 0 <= x < 2 ^ 64 -> u64 x = x.
Proof. apply uint_small. Qed.

(** A shifted value and the bits below it do not overlap. *)
Lemma lor_shiftl_add n k x : 0 <= k -> 0 <= x < 2 ^ k -> (n << k) ||| x = n * 2 ^ k + x.
Proof.
  intros Hk Hx. rewrite <- Z.shiftl_mul_pow2 by done.
  assert (Z.land (n << k) x = 0) as Hl.
  { apply Z.bits_inj'. intros i Hi. rewrite Z.land_spec, Z.bits_0, Z.shiftl_spec by done.
    destruct (decide (i < k)); [by rewrite Z.testbit_neg_r by lia|].
    rewrite (testbit_in_uint k x) by (done || lia). apply andb_false_r. }
  rewrite Z.add_nocarry_lxor by done. symmetry. by apply Z.lxor_lor.
Qed.

Lemma land_ones_mod x k : 0 <= k -> x &&& Z.ones k = x `mod` 2 ^ k.
Proof. apply Z.land_ones. Qed.

(** Testing one bit with a mask. *)
Lemma land_bit_zero x i : 0 <= i -> ((x &&& (1 << i)) =? 0) = negb (Z.testbit x i).
Proof.
  intros Hi. rewrite Z.shiftl_1_l.
  assert (Z.testbit (x &&& 2 ^ i) i = Z.testbit x i) as Hb.
  { by rewrite Z.land_spec, Z.pow2_bits_true, andb_true_r. }
  destruct (Z.testbit x i) eqn:E; simpl.
  - apply Z.eqb_neq. intros H0. by rewrite H0, Z.bits_0 in Hb.
  - apply Z.eqb_eq, Z.bits_inj'. intros j Hj. rewrite Z.land_spec, Z.bits_0.
    destruct (decide (j = i)) as [->|Hne]; [by rewrite E|].
    by rewrite Z.pow2_bits_false, andb_false_r.
Qed.
