(* ===== verification/AesSpec.v ===== *)
(** * FIPS-197 (AES), on plain byte lists

    The reference the constant-time implementation is measured against: the
    S-box as inversion in GF(2^8) followed by an affine map, the round
    transformations on the 16-byte state in input order (byte [4c + r] is row
    [r], column [c]), the key expansion on 4-byte words, and the cipher and its
    inverse.  Nothing in this file looks at src/. *)

From S2P Require Import Prelude.

(** ** GF(2^8) with the polynomial x^8 + x^4 + x^3 + x + 1 *)

Definition xtime (a : Z) : Z := u8 (a << 1) ^^ (if Z.testbit a 7 then 0x1b else 0).

Fixpoint gmul_bits (n : nat) (a b : Z) : Z :=
  match n with
  | O => 0
  | S n => (if Z.odd b then a else 0) ^^ gmul_bits n (xtime a) (Z.div2 b)
  end.
Definition gmul (a b : Z) : Z := gmul_bits 8 a b.

(** [a^254], the multiplicative inverse (and 0 for 0). *)
Definition ginv (a : Z) : Z :=
  let a2 := gmul a a in let a4 := gmul a2 a2 in let a8 := gmul a4 a4 in
  let a16 := gmul a8 a8 in let a32 := gmul a16 a16 in let a64 := gmul a32 a32 in
  let a128 := gmul a64 a64 in
  gmul a2 (gmul a4 (gmul a8 (gmul a16 (gmul a32 (gmul a64 a128))))).

Definition rotl8 (a n : Z) : Z := u8 (a << n) ||| (a >> (8 - n)).

Definition sbox (a : Z) : Z :=
  let b := ginv a in
  b ^^ rotl8 b 1 ^^ rotl8 b 2 ^^ rotl8 b 3 ^^ rotl8 b 4 ^^ 0x63.

Definition inv_sbox (a : Z) : Z :=
  ginv (rotl8 a 1 ^^ rotl8 a 3 ^^ rotl8 a 6 ^^ 0x05).

(** ** The round transformations *)

Definition spec_sub_bytes (s : list Z) : list Z := map sbox s.
Definition spec_inv_sub_bytes (s : list Z) : list Z := map inv_sbox s.

Definition spec_shift_rows (s : list Z) : list Z :=
  map (λ i, let r := (i `mod` 4)%nat in let c := (i / 4)%nat in
            s !!! (4 * ((c + r) `mod` 4) + r)%nat) (seq 0 16).

Definition spec_inv_shift_rows (s : list Z) : list Z :=
  map (λ i, let r := (i `mod` 4)%nat in let c := (i / 4)%nat in
            s !!! (4 * ((c + 4 - r) `mod` 4) + r)%nat) (seq 0 16).

Definition mul2 := xtime.
Definition mul3 (a : Z) : Z := xtime a ^^ a.
Definition mul9 (a : Z) : Z := xtime (xtime (xtime a)) ^^ a.
Definition mulb (a : Z) : Z := xtime (xtime (xtime a)) ^^ xtime a ^^ a.
Definition muld (a : Z) : Z := xtime (xtime (xtime a)) ^^ xtime (xtime a) ^^ a.
Definition mule (a : Z) : Z := xtime (xtime (xtime a)) ^^ xtime (xtime a) ^^ xtime a.

Definition mix_column (a0 a1 a2 a3 : Z) : list Z :=
  [mul2 a0 ^^ mul3 a1 ^^ a2 ^^ a3; a0 ^^ mul2 a1 ^^ mul3 a2 ^^ a3;
   a0 ^^ a1 ^^ mul2 a2 ^^ mul3 a3; mul3 a0 ^^ a1 ^^ a2 ^^ mul2 a3].

Definition inv_mix_column (a0 a1 a2 a3 : Z) : list Z :=
  [mule a0 ^^ mulb a1 ^^ muld a2 ^^ mul9 a3; mul9 a0 ^^ mule a1 ^^ mulb a2 ^^ muld a3;
   muld a0 ^^ mul9 a1 ^^ mule a2 ^^ mulb a3; mulb a0 ^^ muld a1 ^^ mul9 a2 ^^ mule a3].

Fixpoint on_columns (f : Z -> Z -> Z -> Z -> list Z) (s : list Z) : list Z :=
  match s with
  | a0 :: a1 :: a2 :: a3 :: s => f a0 a1 a2 a3 ++ on_columns f s
  | _ => []
  end.

Definition spec_mix_columns : list Z -> list Z := on_columns mix_column.
Definition spec_inv_mix_columns : list Z -> list Z := on_columns inv_mix_column.

Definition xor_bytes (a b : list Z) : list Z := zip_with Z.lxor a b.

(** ** Key expansion (FIPS-197, 5.2) *)

Definition rot_word (w : list Z) : list Z :=
  match w with a :: w => w ++ [a] | [] => [] end.
Definition sub_word (w : list Z) : list Z := map sbox w.

Fixpoint rcon (i : nat) : Z :=
  match i with O => 1 | S i => xtime (rcon i) end.
(** [Rcon[i]] for i >= 1: (x^(i-1), 0, 0, 0). *)
Definition rcon_word (i : nat) : list Z := [rcon (i - 1); 0; 0; 0].

Definition key_expansion_temp (nk : nat) (w : list (list Z)) (i : nat) : list Z :=
  let temp := w !!! (i - 1)%nat in
  if decide (i `mod` nk = 0)%nat then xor_bytes (sub_word (rot_word temp)) (rcon_word (i / nk))
  else if decide (6 < nk ∧ i `mod` nk = 4)%nat then sub_word temp
  else temp.

Definition key_expansion_step (nk : nat) (w : list (list Z)) (i : nat) : list (list Z) :=
  w ++ [xor_bytes (w !!! (i - nk)%nat) (key_expansion_temp nk w i)].

Definition key_word (key : list Z) (i : nat) : list Z := take 4 (drop (4 * i) key).

Definition key_expansion (key : list Z) (nk nr : nat) : list (list Z) :=
  foldl (key_expansion_step nk) (map (key_word key) (seq 0 nk)) (seq nk (4 * (nr + 1) - nk)).

(** The 16 bytes of round key [k]. *)
Definition round_key (w : list (list Z)) (k : nat) : list Z :=
  concat (take 4 (drop (4 * k) w)).

(** ** The cipher and its inverse (FIPS-197, 5.1 and 5.3) *)

Section cipher.
Context (rk : nat -> list Z) (nr : nat).

Definition spec_round (s : list Z) (k : nat) : list Z :=
  xor_bytes (spec_mix_columns (spec_shift_rows (spec_sub_bytes s))) (rk k).

Definition cipher (input : list Z) : list Z :=
  let s := xor_bytes input (rk 0%nat) in
  let s := foldl spec_round s (seq 1 (nr - 1)) in
  xor_bytes (spec_shift_rows (spec_sub_bytes s)) (rk nr).

Definition spec_inv_round (s : list Z) (k : nat) : list Z :=
  spec_inv_mix_columns
    (xor_bytes (spec_inv_sub_bytes (spec_inv_shift_rows s)) (rk (nr - k)%nat)).

Definition inv_cipher (input : list Z) : list Z :=
  let s := xor_bytes input (rk nr) in
  let s := foldl spec_inv_round s (seq 1 (nr - 1)) in
  xor_bytes (spec_inv_sub_bytes (spec_inv_shift_rows s)) (rk 0%nat).
End cipher.

(** The FIPS-197 appendix C vectors pin the reference itself. *)
Example cipher_fips197_c1 :
  cipher (round_key (key_expansion (seqZ 0 16) 4 10)) 10 (map (λ i, i * 17) (seqZ 0 16)) =
  [0x69;0xc4;0xe0;0xd8;0x6a;0x7b;0x04;0x30;0xd8;0xcd;0xb7;0x80;0x70;0xb4;0xc5;0x5a].
Proof. vm_compute. reflexivity. Qed.

Example cipher_fips197_c3 :
  cipher (round_key (key_expansion (seqZ 0 32) 8 14)) 14 (map (λ i, i * 17) (seqZ 0 16)) =
  [0x8e;0xa2;0xb7;0xca;0x51;0x67;0x45;0xbf;0xea;0xfc;0x49;0x90;0x4b;0x49;0x60;0x89].
Proof. vm_compute. reflexivity. Qed.

(** ** The inverse cipher inverts the cipher *)

Definition is_block (s : list Z) : Prop := length s = 16%nat ∧ bytes s.

Lemma sbox_byte x : is_byte x -> is_byte (sbox x).
Proof. apply byte_forall_byte. vm_compute. reflexivity. Qed.

Lemma inv_sbox_sbox x : is_byte x -> inv_sbox (sbox x) = x.
Proof. apply (byte_forall_eq (λ x, inv_sbox (sbox x)) (λ x, x)). vm_compute. reflexivity. Qed.

Lemma xtime_byte x : is_byte x -> is_byte (xtime x).
Proof. apply byte_forall_byte. vm_compute. reflexivity. Qed.

Lemma xtime_lxor a b : xtime (a ^^ b) = xtime a ^^ xtime b.
Proof.
  apply Z.bits_inj'. intros i Hi. unfold xtime. autorewrite with bits.
  destruct (Z.testbit a 7), (Z.testbit b 7); simpl; rewrite ?Z.testbit_0_l;
    destruct (i <? 8), (Z.testbit a (i - 1)), (Z.testbit b (i - 1)); simpl; btauto.
Qed.

Lemma is_block_map f s : (forall x, is_byte x -> is_byte (f x)) -> is_block s -> is_block (map f s).
Proof. intros Hf [Hl Hs]. split; [by rewrite length_map|]. by apply Forall_fmap, (Forall_impl _ _ _ Hs). Qed.

Lemma is_block_sub_bytes s : is_block s -> is_block (spec_sub_bytes s).
Proof. apply is_block_map, sbox_byte. Qed.

Lemma is_block_shift_rows s : is_block s -> is_block (spec_shift_rows s).
Proof.
  intros [Hl Hs]. split; [done|]. destruct_list_length. unfold bytes in *.
  decompose_Forall_hyps. cbn; split_Forall; done.
Qed.

Lemma mix_column_bytes a0 a1 a2 a3 :
  is_byte a0 -> is_byte a1 -> is_byte a2 -> is_byte a3 -> bytes (mix_column a0 a1 a2 a3).
Proof.
  intros. unfold mix_column, mul2, mul3. split_Forall; auto 10 using xtime_byte with uints.
Qed.

Lemma is_block_mix_columns s : is_block s -> is_block (spec_mix_columns s).
Proof.
  intros [Hl Hs]. destruct_list_length. unfold bytes in *.
  decompose_Forall_hyps. split; [done|].
  change (bytes (mix_column z z0 z1 z2 ++ mix_column z3 z4 z5 z6 ++
                 mix_column z7 z8 z9 z10 ++ mix_column z11 z12 z13 z14 ++ [])).
  unfold bytes. rewrite !Forall_app, Forall_nil. repeat split; by apply mix_column_bytes.
Qed.

Lemma is_block_xor s k : is_block s -> is_block k -> is_block (xor_bytes s k).
Proof.
  intros [Hl Hs] [Hl' Hk]. split; [unfold xor_bytes; rewrite length_zip_with; lia|].
  clear Hl Hl'. revert k Hk. unfold bytes, xor_bytes.
  induction Hs; intros [|y k] Hk; simpl; decompose_Forall_hyps; split_Forall; auto with uints.
Qed.

Lemma shift_rows_inv s : is_block s -> spec_inv_shift_rows (spec_shift_rows s) = s.
Proof. intros [Hl _]. destruct_list_length. reflexivity. Qed.

Lemma sub_bytes_inv s : is_block s -> spec_inv_sub_bytes (spec_sub_bytes s) = s.
Proof.
  intros [_ Hs]. unfold spec_inv_sub_bytes, spec_sub_bytes. rewrite map_map.
  induction Hs as [|x s Hx _ IH]; simpl; [done|]. by rewrite inv_sbox_sbox, IH.
Qed.

(** a^-1(x) a(x) = 1 in GF(2^8)[x]/(x^4 + 1); no reduction is needed, only that
    multiplication by x is additive. *)
Lemma mix_column_inv a0 a1 a2 a3 :
  on_columns inv_mix_column (mix_column a0 a1 a2 a3) = [a0; a1; a2; a3].
Proof.
  unfold mix_column, mul2, mul3; simpl. unfold inv_mix_column, mul9, mulb, muld, mule; simpl.
  rewrite !xtime_lxor.
  f_equal; [|f_equal; [|f_equal; [|f_equal]]];
    apply Z.bits_inj'; intros i _; rewrite !Z.lxor_spec; btauto.
Qed.

Lemma mix_columns_inv s : is_block s -> spec_inv_mix_columns (spec_mix_columns s) = s.
Proof.
  intros [Hl _]. destruct_list_length.
  unfold spec_mix_columns, spec_inv_mix_columns. cbn [on_columns].
  pose proof (mix_column_inv z z0 z1 z2) as E0. pose proof (mix_column_inv z3 z4 z5 z6) as E1.
  pose proof (mix_column_inv z7 z8 z9 z10) as E2. pose proof (mix_column_inv z11 z12 z13 z14) as E3.
  unfold mix_column in *. cbn [on_columns app] in *. rewrite !app_nil_r in *.
  by rewrite E0, E1, E2, E3.
Qed.

Lemma xor_bytes_inv s k : (length s <= length k)%nat -> xor_bytes (xor_bytes s k) k = s.
Proof.
  unfold xor_bytes. revert k. induction s as [|x s IH]; intros [|y k] H; simpl in *; try lia; [done..|].
  rewrite IH by lia. f_equal. by rewrite Z.lxor_assoc, Z.lxor_nilpotent, Z.lxor_0_r.
Qed.

Section cipher_inverse.
Context (rk : nat -> list Z) (nr : nat) (Hrk : forall k, (k <= nr)%nat -> is_block (rk k)).

Lemma is_block_rounds s m :
  (m < nr)%nat -> is_block s -> is_block (foldl (spec_round rk) s (seq 1 m)).
Proof.
  intros Hm Hs. induction m as [|m IH]; [done|].
  rewrite seq_S, foldl_app. simpl. unfold spec_round.
  apply is_block_xor; [|apply Hrk; lia].
  apply is_block_mix_columns, is_block_shift_rows, is_block_sub_bytes, IH. lia.
Qed.

Lemma is_block_cipher s : (0 < nr)%nat -> is_block s -> is_block (cipher rk nr s).
Proof.
  intros. unfold cipher. apply is_block_xor; [|by apply Hrk].
  apply is_block_shift_rows, is_block_sub_bytes, is_block_rounds; [lia|].
  apply is_block_xor; [done|apply Hrk; lia].
Qed.

(** [m] inverse rounds undo the last [m] rounds, up to the leading SubBytes and
    ShiftRows. *)
Lemma rounds_inv s m :
  (m < nr)%nat -> is_block s ->
  foldl (spec_inv_round rk nr)
        (spec_shift_rows (spec_sub_bytes (foldl (spec_round rk) s (seq 1 m)))) (seq (nr - m) m)
  = spec_shift_rows (spec_sub_bytes s).
Proof.
  intros Hm Hs. induction m as [|m IH]; [done|].
  rewrite seq_S, foldl_app. cbn [foldl Nat.add].
  replace (seq (nr - S m) (S m)) with ((nr - S m)%nat :: seq (nr - m) m)
    by (simpl; do 2 f_equal; lia).
  cbn [foldl]. rewrite <- IH by lia. f_equal.
  pose proof (is_block_rounds s m ltac:(lia) Hs) as Hb.
  set (t := foldl _ s _) in *. unfold spec_inv_round.
  assert (is_block (rk (S m))) as Hk by (apply Hrk; lia).
  assert (is_block (spec_round rk t (S m))) as Hr.
  { unfold spec_round. apply is_block_xor; [|done].
    by apply is_block_mix_columns, is_block_shift_rows, is_block_sub_bytes. }
  rewrite shift_rows_inv, sub_bytes_inv by auto using is_block_sub_bytes.
  replace (nr - (nr - S m))%nat with (S m) by lia. unfold spec_round.
  assert (is_block (spec_shift_rows (spec_sub_bytes t)))
    by auto using is_block_shift_rows, is_block_sub_bytes.
  rewrite xor_bytes_inv; [by apply mix_columns_inv|].
  destruct Hk as [-> _]. by destruct (is_block_mix_columns _ H) as [-> _].
Qed.

Lemma inv_cipher_cipher s : (0 < nr)%nat -> is_block s -> inv_cipher rk nr (cipher rk nr s) = s.
Proof.
  intros Hnr Hs. unfold cipher, inv_cipher.
  assert (is_block (xor_bytes s (rk 0%nat))) as H0 by (apply is_block_xor; [done|apply Hrk; lia]).
  pose proof (is_block_rounds _ (nr - 1) ltac:(lia) H0) as Hb.
  assert (is_block (spec_shift_rows (spec_sub_bytes
            (foldl (spec_round rk) (xor_bytes s (rk 0%nat)) (seq 1 (nr - 1)))))) as [Hl _]
    by auto using is_block_shift_rows, is_block_sub_bytes.
  rewrite xor_bytes_inv by (destruct (Hrk nr); lia).
  pose proof (rounds_inv _ (nr - 1) ltac:(lia) H0) as E.
  replace (nr - (nr - 1))%nat with 1%nat in E by lia. rewrite E.
  rewrite shift_rows_inv, sub_bytes_inv by auto using is_block_sub_bytes.
  apply xor_bytes_inv. destruct Hs as [-> _]. destruct (Hrk 0%nat); lia.
Qed.
End cipher_inverse.

(** The cipher looks at round keys 0 .. nr only. *)
Lemma foldl_ext_in {A B} (f g : A -> B -> A) l a :
  (forall x b, b ∈ l -> f x b = g x b) -> foldl f a l = foldl g a l.
Proof.
  revert a. induction l as [|b l IH]; intros a H; [done|]. simpl.
  rewrite (H a b) by set_solver. apply IH. set_solver.
Qed.

Lemma cipher_ext rk rk' nr s :
  (forall k, (k <= nr)%nat -> rk k = rk' k) -> (0 < nr)%nat -> cipher rk nr s = cipher rk' nr s.
Proof.
  intros E Hnr. unfold cipher. rewrite (E 0%nat), (E nr) by lia. do 3 f_equal.
  apply foldl_ext_in. intros t k Hk%elem_of_seq. unfold spec_round. by rewrite E by lia.
Qed.

Lemma inv_cipher_ext rk rk' nr s :
  (forall k, (k <= nr)%nat -> rk k = rk' k) -> inv_cipher rk nr s = inv_cipher rk' nr s.
Proof.
  intros E. unfold inv_cipher. rewrite (E 0%nat), (E nr) by lia. do 3 f_equal.
  apply foldl_ext_in. intros t k _. unfold spec_inv_round. by rewrite E by lia.
Qed.
