(* ===== verification/Ctaes.v ===== *)
(** * Constant-time AES: src/crypto/ctaes/ctaes.c

    The AES state is kept as eight 16-bit "slices": bit [4r + c] of slice [b] is
    bit [b] of the state byte at row [r] and column [c].  This file translates
    the C code function by function; [AesSpec] states FIPS-197 on plain byte
    lists, and [CtaesProofs] proves that the two agree. *)

From S2P Require Import Prelude.

(** ** Bit algebras

    The S-box is a straight-line circuit of [^], [&], [|] and [~] on [uint16_t]
    variables.  It is written once, for any carrier with these operations, and
    used at two carriers: [Z] (16-bit words, the C code) and [bool] (a single
    lane of the circuit, where it can be evaluated exhaustively). *)

Class BitOps (A : Type) := {
  bxor : A -> A -> A;
  band : A -> A -> A;
  bor : A -> A -> A;
  bnot : A -> A;
}.

Declare Scope bitops_scope.
Delimit Scope bitops_scope with bitops.
Notation "a ⊕ b" := (bxor a b) (at level 48, left associativity) : bitops_scope.
Notation "a ⊗ b" := (band a b) (at level 40, left associativity) : bitops_scope.
Notation "a ⊞ b" := (bor a b) (at level 50, left associativity) : bitops_scope.
Notation "∼ a" := (bnot a) (at level 30, right associativity) : bitops_scope.

(** [~x] is computed in [int] and truncated when stored into a [uint16_t]. *)
#[export] Instance uint16_bitops : BitOps Z := {|
  bxor := Z.lxor;
  band := Z.land;
  bor := Z.lor;
  bnot x := u16 (Z.lnot x);
|}.

#[export] Instance bool_bitops : BitOps bool := {|
  bxor := xorb;
  band := andb;
  bor := orb;
  bnot := negb;
|}.

(** ** The S-box circuit (SubBytes) *)

Section SubBytes_circuit.
Context {A : Type} `{BitOps A}.
Local Open Scope bitops_scope.

(** The values the linear layer hands to the non-linear one. *)
Record sbox_linear := SboxLinear {
  lin_T1 : A;
  lin_T2 : A;
  lin_T3 : A;
  lin_T4 : A;
  lin_T6 : A;
  lin_T8 : A;
  lin_T9 : A;
  lin_T10 : A;
  lin_T13 : A;
  lin_T14 : A;
  lin_T15 : A;
  lin_T16 : A;
  lin_T17 : A;
  lin_T19 : A;
  lin_T20 : A;
  lin_T22 : A;
  lin_T23 : A;
  lin_T24 : A;
  lin_T25 : A;
  lin_T26 : A;
  lin_T27 : A;
  lin_D : A;
}.

(** The products the non-linear layer hands to the output layer. *)
Record sbox_products := SboxProducts {
  prod_M46 : A;
  prod_M47 : A;
  prod_M48 : A;
  prod_M49 : A;
  prod_M50 : A;
  prod_M51 : A;
  prod_M52 : A;
  prod_M53 : A;
  prod_M54 : A;
  prod_M55 : A;
  prod_M56 : A;
  prod_M57 : A;
  prod_M58 : A;
  prod_M59 : A;
  prod_M60 : A;
  prod_M61 : A;
  prod_M62 : A;
  prod_M63 : A;
}.

(** The eight slices, least significant first. *)
Record slices := Slices {
  slice_0 : A; slice_1 : A; slice_2 : A; slice_3 : A;
  slice_4 : A; slice_5 : A; slice_6 : A; slice_7 : A;
}.

(** Decryption: undo the linear postprocessing. *)
Definition SubBytes_linear_inv (s : slices) : sbox_linear :=
  let '(Slices U7 U6 U5 U4 U3 U2 U1 U0) := s in
  let T23 := U0 ⊕ U3 in
  let T22 := ∼(U1 ⊕ U3) in
  let T2 := ∼(U0 ⊕ U1) in
  let T1 := U3 ⊕ U4 in
  let T24 := ∼(U4 ⊕ U7) in
  let R5 := U6 ⊕ U7 in
  let T8 := ∼(U1 ⊕ T23) in
  let T19 := T22 ⊕ R5 in
  let T9 := ∼(U7 ⊕ T1) in
  let T10 := T2 ⊕ T24 in
  let T13 := T2 ⊕ R5 in
  let T3 := T1 ⊕ R5 in
  let T25 := ∼(U2 ⊕ T1) in
  let R13 := U1 ⊕ U6 in
  let T17 := ∼(U2 ⊕ T19) in
  let T20 := T24 ⊕ R13 in
  let T4 := U4 ⊕ T8 in
  let R17 := ∼(U2 ⊕ U5) in
  let R18 := ∼(U5 ⊕ U6) in
  let R19 := ∼(U2 ⊕ U4) in
  let D := U0 ⊕ R17 in
  let T6 := T22 ⊕ R17 in
  let T16 := R13 ⊕ R19 in
  let T27 := T1 ⊕ R18 in
  let T15 := T10 ⊕ T27 in
  let T14 := T10 ⊕ R18 in
  let T26 := T3 ⊕ T16 in
  SboxLinear T1 T2 T3 T4 T6 T8 T9 T10 T13 T14 T15 T16 T17 T19 T20 T22 T23 T24 T25 T26 T27 D.

(** Encryption: linear preprocessing. *)
Definition SubBytes_linear_fwd (s : slices) : sbox_linear :=
  let '(Slices U7 U6 U5 U4 U3 U2 U1 U0) := s in
  let T1 := U0 ⊕ U3 in
  let T2 := U0 ⊕ U5 in
  let T3 := U0 ⊕ U6 in
  let T4 := U3 ⊕ U5 in
  let T5 := U4 ⊕ U6 in
  let T6 := T1 ⊕ T5 in
  let T7 := U1 ⊕ U2 in
  let T8 := U7 ⊕ T6 in
  let T9 := U7 ⊕ T7 in
  let T10 := T6 ⊕ T7 in
  let T11 := U1 ⊕ U5 in
  let T12 := U2 ⊕ U5 in
  let T13 := T3 ⊕ T4 in
  let T14 := T6 ⊕ T11 in
  let T15 := T5 ⊕ T11 in
  let T16 := T5 ⊕ T12 in
  let T17 := T9 ⊕ T16 in
  let T18 := U3 ⊕ U7 in
  let T19 := T7 ⊕ T18 in
  let T20 := T1 ⊕ T19 in
  let T21 := U6 ⊕ U7 in
  let T22 := T7 ⊕ T21 in
  let T23 := T2 ⊕ T22 in
  let T24 := T2 ⊕ T10 in
  let T25 := T20 ⊕ T17 in
  let T26 := T3 ⊕ T16 in
  let T27 := T1 ⊕ T12 in
  let D := U7 in
  SboxLinear T1 T2 T3 T4 T6 T8 T9 T10 T13 T14 T15 T16 T17 T19 T20 T22 T23 T24 T25 T26 T27 D.

(** The non-linear transformation, shared by both directions. *)
Definition SubBytes_nonlinear (l : sbox_linear) : sbox_products :=
  let '(SboxLinear T1 T2 T3 T4 T6 T8 T9 T10 T13 T14 T15 T16 T17 T19 T20 T22 T23 T24 T25 T26 T27 D) := l in
  let M1 := T13 ⊗ T6 in
  let M6 := T3 ⊗ T16 in
  let M11 := T1 ⊗ T15 in
  let M13 := T4 ⊗ T27 ⊕ M11 in
  let M15 := T2 ⊗ T10 ⊕ M11 in
  let M20 := T14 ⊕ M1 ⊕ T23 ⊗ T8 ⊕ M13 in
  let M21 := T19 ⊗ D ⊕ M1 ⊕ T24 ⊕ M15 in
  let M22 := T26 ⊕ M6 ⊕ T22 ⊗ T9 ⊕ M13 in
  let M23 := T20 ⊗ T17 ⊕ M6 ⊕ M15 ⊕ T25 in
  let M25 := M22 ⊗ M20 in
  let M37 := M21 ⊕ (M20 ⊕ M21) ⊗ (M23 ⊕ M25) in
  let M38 := M20 ⊕ M25 ⊕ (M21 ⊞ M20 ⊗ M23) in
  let M39 := M23 ⊕ (M22 ⊕ M23) ⊗ (M21 ⊕ M25) in
  let M40 := M22 ⊕ M25 ⊕ (M23 ⊞ M21 ⊗ M22) in
  let M41 := M38 ⊕ M40 in
  let M42 := M37 ⊕ M39 in
  let M43 := M37 ⊕ M38 in
  let M44 := M39 ⊕ M40 in
  let M45 := M42 ⊕ M41 in
  let M46 := M44 ⊗ T6 in
  let M47 := M40 ⊗ T8 in
  let M48 := M39 ⊗ D in
  let M49 := M43 ⊗ T16 in
  let M50 := M38 ⊗ T9 in
  let M51 := M37 ⊗ T17 in
  let M52 := M42 ⊗ T15 in
  let M53 := M45 ⊗ T27 in
  let M54 := M41 ⊗ T10 in
  let M55 := M44 ⊗ T13 in
  let M56 := M40 ⊗ T23 in
  let M57 := M39 ⊗ T19 in
  let M58 := M43 ⊗ T3 in
  let M59 := M38 ⊗ T22 in
  let M60 := M37 ⊗ T20 in
  let M61 := M42 ⊗ T1 in
  let M62 := M45 ⊗ T4 in
  let M63 := M41 ⊗ T2 in
  SboxProducts M46 M47 M48 M49 M50 M51 M52 M53 M54 M55 M56 M57 M58 M59 M60 M61 M62 M63.

(** Decryption: undo the linear preprocessing. *)
Definition SubBytes_output_inv (m : sbox_products) : slices :=
  let '(SboxProducts M46 M47 M48 M49 M50 M51 M52 M53 M54 M55 M56 M57 M58 M59 M60 M61 M62 M63) := m in
  let P0 := M52 ⊕ M61 in
  let P1 := M58 ⊕ M59 in
  let P2 := M54 ⊕ M62 in
  let P3 := M47 ⊕ M50 in
  let P4 := M48 ⊕ M56 in
  let P5 := M46 ⊕ M51 in
  let P6 := M49 ⊕ M60 in
  let P7 := P0 ⊕ P1 in
  let P8 := M50 ⊕ M53 in
  let P9 := M55 ⊕ M63 in
  let P10 := M57 ⊕ P4 in
  let P11 := P0 ⊕ P3 in
  let P12 := M46 ⊕ M48 in
  let P13 := M49 ⊕ M51 in
  let P14 := M49 ⊕ M62 in
  let P15 := M54 ⊕ M59 in
  let P16 := M57 ⊕ M61 in
  let P17 := M58 ⊕ P2 in
  let P18 := M63 ⊕ P5 in
  let P19 := P2 ⊕ P3 in
  let P20 := P4 ⊕ P6 in
  let P22 := P2 ⊕ P7 in
  let P23 := P7 ⊕ P8 in
  let P24 := P5 ⊕ P7 in
  let P25 := P6 ⊕ P10 in
  let P26 := P9 ⊕ P11 in
  let P27 := P10 ⊕ P18 in
  let P28 := P11 ⊕ P25 in
  let P29 := P15 ⊕ P20 in
  let slice7 := P13 ⊕ P22 in
  let slice6 := P26 ⊕ P29 in
  let slice5 := P17 ⊕ P28 in
  let slice4 := P12 ⊕ P22 in
  let slice3 := P23 ⊕ P27 in
  let slice2 := P19 ⊕ P24 in
  let slice1 := P14 ⊕ P23 in
  let slice0 := P9 ⊕ P16 in
  Slices slice0 slice1 slice2 slice3 slice4 slice5 slice6 slice7.

(** Encryption: linear postprocessing. *)
Definition SubBytes_output_fwd (m : sbox_products) : slices :=
  let '(SboxProducts M46 M47 M48 M49 M50 M51 M52 M53 M54 M55 M56 M57 M58 M59 M60 M61 M62 M63) := m in
  let L0 := M61 ⊕ M62 in
  let L1 := M50 ⊕ M56 in
  let L2 := M46 ⊕ M48 in
  let L3 := M47 ⊕ M55 in
  let L4 := M54 ⊕ M58 in
  let L5 := M49 ⊕ M61 in
  let L6 := M62 ⊕ L5 in
  let L7 := M46 ⊕ L3 in
  let L8 := M51 ⊕ M59 in
  let L9 := M52 ⊕ M53 in
  let L10 := M53 ⊕ L4 in
  let L11 := M60 ⊕ L2 in
  let L12 := M48 ⊕ M51 in
  let L13 := M50 ⊕ L0 in
  let L14 := M52 ⊕ M61 in
  let L15 := M55 ⊕ L1 in
  let L16 := M56 ⊕ L0 in
  let L17 := M57 ⊕ L1 in
  let L18 := M58 ⊕ L8 in
  let L19 := M63 ⊕ L4 in
  let L20 := L0 ⊕ L1 in
  let L21 := L1 ⊕ L7 in
  let L22 := L3 ⊕ L12 in
  let L23 := L18 ⊕ L2 in
  let L24 := L15 ⊕ L9 in
  let L25 := L6 ⊕ L10 in
  let L26 := L7 ⊕ L9 in
  let L27 := L8 ⊕ L10 in
  let L28 := L11 ⊕ L14 in
  let L29 := L11 ⊕ L17 in
  let slice7 := L6 ⊕ L24 in
  let slice6 := ∼(L16 ⊕ L26) in
  let slice5 := ∼(L19 ⊕ L28) in
  let slice4 := L6 ⊕ L21 in
  let slice3 := L20 ⊕ L22 in
  let slice2 := L25 ⊕ L29 in
  let slice1 := ∼(L13 ⊕ L27) in
  let slice0 := ∼(L6 ⊕ L23) in
  Slices slice0 slice1 slice2 slice3 slice4 slice5 slice6 slice7.

Definition SubBytes_circuit (inv : bool) (s : slices) : slices :=
  let l := if inv then SubBytes_linear_inv s else SubBytes_linear_fwd s in
  let m := SubBytes_nonlinear l in
  if inv then SubBytes_output_inv m else SubBytes_output_fwd m.

End SubBytes_circuit.

Arguments sbox_linear : clear implicits.
Arguments sbox_products : clear implicits.
Arguments slices : clear implicits.

Section slices_loops.
Context {A B C : Type}.

(** [for (b = 0; b < 8; b++) s->slice[b] = f(b, s->slice[b])]. *)
Definition slices_imap (f : Z -> A -> B) (s : slices A) : slices B :=
  let '(Slices x0 x1 x2 x3 x4 x5 x6 x7) := s in
  Slices (f 0 x0) (f 1 x1) (f 2 x2) (f 3 x3) (f 4 x4) (f 5 x5) (f 6 x6) (f 7 x7).

Definition slices_map (f : A -> B) : slices A -> slices B := slices_imap (λ _, f).

Definition slices_zip (f : A -> B -> C) (s : slices A) (t : slices B) : slices C :=
  let '(Slices x0 x1 x2 x3 x4 x5 x6 x7) := s in
  let '(Slices y0 y1 y2 y3 y4 y5 y6 y7) := t in
  Slices (f x0 y0) (f x1 y1) (f x2 y2) (f x3 y3) (f x4 y4) (f x5 y5) (f x6 y6) (f x7 y7).

Definition slices_list (s : slices A) : list A :=
  let '(Slices x0 x1 x2 x3 x4 x5 x6 x7) := s in [x0; x1; x2; x3; x4; x5; x6; x7].
End slices_loops.

(** ** The AES state *)

(** [typedef struct { uint16_t slice[8]; } AES_state]. *)
Abbreviation AES_state := (slices Z).

Definition AES_state_zero : AES_state := Slices 0 0 0 0 0 0 0 0.

(** The byte is consumed bit by bit: iteration [i] of the loop sees the byte
    already shifted right [i] times. *)
Definition LoadByte (s : AES_state) (byte r c : Z) : AES_state :=
  slices_imap (λ i v, u16 (v ||| (((byte >> i) &&& 1) << (r * 4 + c)))) s.

(** The (row, column) pairs in the order the loops over [c] and [r] visit them. *)
Definition cells : list (Z * Z) :=
  [(0,0); (1,0); (2,0); (3,0); (0,1); (1,1); (2,1); (3,1);
   (0,2); (1,2); (2,2); (3,2); (0,3); (1,3); (2,3); (3,3)].

Definition LoadBytes (s : AES_state) (data16 : list Z) : AES_state :=
  foldl (λ s '((r, c), byte), LoadByte s byte r c) s (zip cells data16).

Definition SaveByte (s : AES_state) (r c : Z) : Z :=
  foldl (λ v '(b, x), u8 (v ||| (((x >> (r * 4 + c)) &&& 1) << b))) 0
        (zip (seqZ 0 8) (slices_list s)).

Definition SaveBytes (s : AES_state) : list Z :=
  map (λ '(r, c), SaveByte s r c) cells.

Definition SubBytes (s : AES_state) (inv : bool) : AES_state := SubBytes_circuit inv s.

(** ** Row and column operations *)

Definition BIT_RANGE (from to : Z) : Z := ((1 << (to - from)) - 1) << from.
Definition BIT_RANGE_LEFT (x from to shift : Z) : Z := (x &&& BIT_RANGE from to) << shift.
Definition BIT_RANGE_RIGHT (x from to shift : Z) : Z := (x &&& BIT_RANGE from to) >> shift.

Definition ShiftRows (s : AES_state) : AES_state :=
  slices_map (λ v, u16 (
    (v &&& BIT_RANGE 0 4) |||
    BIT_RANGE_LEFT v 4 5 3 ||| BIT_RANGE_RIGHT v 5 8 1 |||
    BIT_RANGE_LEFT v 8 10 2 ||| BIT_RANGE_RIGHT v 10 12 2 |||
    BIT_RANGE_LEFT v 12 15 1 ||| BIT_RANGE_RIGHT v 15 16 3)) s.

Definition InvShiftRows (s : AES_state) : AES_state :=
  slices_map (λ v, u16 (
    (v &&& BIT_RANGE 0 4) |||
    BIT_RANGE_LEFT v 4 7 1 ||| BIT_RANGE_RIGHT v 7 8 3 |||
    BIT_RANGE_LEFT v 8 10 2 ||| BIT_RANGE_RIGHT v 10 12 2 |||
    BIT_RANGE_LEFT v 12 13 3 ||| BIT_RANGE_RIGHT v 13 16 1)) s.

Definition ROT (x b : Z) : Z := (x >> (b * 4)) ||| (x << ((4 - b) * 4)).

(** The part of MixColumns both directions share: multiplication by a(x). *)
Definition MixColumns_fwd (s : AES_state) : AES_state :=
  let '(Slices s0 s1 s2 s3 s4 s5 s6 s7) := s in
  let s0_01 := u16 (s0 ^^ ROT s0 1) in let s0_123 := u16 (ROT s0_01 1 ^^ ROT s0 3) in
  let s1_01 := u16 (s1 ^^ ROT s1 1) in let s1_123 := u16 (ROT s1_01 1 ^^ ROT s1 3) in
  let s2_01 := u16 (s2 ^^ ROT s2 1) in let s2_123 := u16 (ROT s2_01 1 ^^ ROT s2 3) in
  let s3_01 := u16 (s3 ^^ ROT s3 1) in let s3_123 := u16 (ROT s3_01 1 ^^ ROT s3 3) in
  let s4_01 := u16 (s4 ^^ ROT s4 1) in let s4_123 := u16 (ROT s4_01 1 ^^ ROT s4 3) in
  let s5_01 := u16 (s5 ^^ ROT s5 1) in let s5_123 := u16 (ROT s5_01 1 ^^ ROT s5 3) in
  let s6_01 := u16 (s6 ^^ ROT s6 1) in let s6_123 := u16 (ROT s6_01 1 ^^ ROT s6 3) in
  let s7_01 := u16 (s7 ^^ ROT s7 1) in let s7_123 := u16 (ROT s7_01 1 ^^ ROT s7 3) in
  Slices (s7_01 ^^ s0_123)
         (s7_01 ^^ s0_01 ^^ s1_123)
         (s1_01 ^^ s2_123)
         (s7_01 ^^ s2_01 ^^ s3_123)
         (s7_01 ^^ s3_01 ^^ s4_123)
         (s4_01 ^^ s5_123)
         (s5_01 ^^ s6_123)
         (s6_01 ^^ s7_123).

(** The extra multiplication by {04}x^2 + {05} of the inverse direction. *)
Definition MixColumns_inv_step (s : AES_state) : AES_state :=
  let '(Slices x0 x1 x2 x3 x4 x5 x6 x7) := s in
  let t0_02 := u16 (x0 ^^ ROT x0 2) in
  let t1_02 := u16 (x1 ^^ ROT x1 2) in
  let t2_02 := u16 (x2 ^^ ROT x2 2) in
  let t3_02 := u16 (x3 ^^ ROT x3 2) in
  let t4_02 := u16 (x4 ^^ ROT x4 2) in
  let t5_02 := u16 (x5 ^^ ROT x5 2) in
  let t6_02 := u16 (x6 ^^ ROT x6 2) in
  let t7_02 := u16 (x7 ^^ ROT x7 2) in
  Slices (x0 ^^ t6_02)
         (x1 ^^ (t6_02 ^^ t7_02))
         (x2 ^^ (t0_02 ^^ t7_02))
         (x3 ^^ (t1_02 ^^ t6_02))
         (x4 ^^ (t2_02 ^^ t6_02 ^^ t7_02))
         (x5 ^^ (t3_02 ^^ t7_02))
         (x6 ^^ t4_02)
         (x7 ^^ t5_02).

Definition MixColumns (s : AES_state) (inv : bool) : AES_state :=
  let s := MixColumns_fwd s in
  if inv then MixColumns_inv_step s else s.

Definition AddRoundKey (s round : AES_state) : AES_state := slices_zip Z.lxor s round.

(** ** Key schedule *)

#[export] Instance AES_state_inhabited : Inhabited (slices Z) := populate AES_state_zero.

(** column_0(s) = column_c(a) *)
Definition GetOneColumn (a : AES_state) (c : Z) : AES_state :=
  slices_map (λ x, (x >> c) &&& 0x1111) a.

(** column_c1(r) |= (column_0(s) ^= column_c2(a)); both [s] and [r] are updated. *)
Definition KeySetupColumnMix (s r a : AES_state) (c1 c2 : Z) : AES_state * AES_state :=
  let s := slices_zip (λ x y, u16 (x ^^ ((y >> c2) &&& 0x1111))) s a in
  (s, slices_zip (λ x y, u16 (x ||| ((y &&& 0x1111) << c1))) r s).

(** Rotate the rows in s one position upwards, and xor in r *)
Definition KeySetupTransform (s r : AES_state) : AES_state :=
  slices_zip (λ x y, u16 (((x >> 4) ||| (x << 12)) ^^ y)) s r.

(** Multiply the cells in s by x, modulo x^8 + x^4 + x^3 + x + 1 *)
Definition MultX (s : AES_state) : AES_state :=
  let '(Slices x0 x1 x2 x3 x4 x5 x6 top) := s in
  Slices top (x0 ^^ top) x1 (x2 ^^ top) (x3 ^^ top) x4 x5 x6.

(** The variables of the key expansion loop. *)
Record setup_vars := SetupVars {
  sv_rounds : list AES_state;
  sv_column : AES_state;
  sv_rcon : AES_state;
  sv_pos : nat;
}.

(** The first [nkeywords] columns are copied from the key. *)
Definition AES_setup_load (rounds : list AES_state) (key : list Z) (nkeywords : nat)
  : list AES_state :=
  foldl (λ rounds '(i, r),
           alter (λ s, LoadByte s (key !!! (4 * i + r)%nat) (Z.of_nat r) (Z.of_nat (i `mod` 4)))
                 (i / 4)%nat rounds)
        rounds (i ← seq 0 nkeywords; r ← seq 0 4; [(i, r)]).

(** The "Transform column" part of an iteration: the new column and round constant. *)
Definition AES_setup_transform (nkeywords : nat) (column rcon : AES_state) (pos : nat)
  : AES_state * AES_state :=
  if decide (pos = 0)%nat then
    (KeySetupTransform (SubBytes column false) rcon, MultX rcon)
  else if decide (6 < nkeywords ∧ pos = 4)%nat then
    (SubBytes column false, rcon)
  else (column, rcon).

(** One iteration of [for (i = nkeywords; i < 4 * (nrounds + 1); i++)]. *)
Definition AES_setup_step (nkeywords : nat) (v : setup_vars) (i : nat) : setup_vars :=
  let '(SetupVars rounds column rcon pos) := v in
  let '(column, rcon) := AES_setup_transform nkeywords column rcon pos in
  let pos := (if decide (S pos = nkeywords) then 0 else S pos)%nat in
  let '(column, r) :=
    KeySetupColumnMix column (rounds !!! (i / 4)%nat) (rounds !!! ((i - nkeywords) / 4)%nat)
      (Z.of_nat (i `mod` 4)) (Z.of_nat ((i - nkeywords) `mod` 4)) in
  SetupVars (<[(i / 4)%nat := r]> rounds) column rcon pos.

Definition AES_setup (key : list Z) (nkeywords nrounds : nat) : list AES_state :=
  let rounds := AES_setup_load (replicate (nrounds + 1) AES_state_zero) key nkeywords in
  let column := GetOneColumn (rounds !!! ((nkeywords - 1) / 4)%nat)
                             (Z.of_nat ((nkeywords - 1) `mod` 4)) in
  let v := SetupVars rounds column (Slices 1 0 0 0 0 0 0 0) 0 in
  sv_rounds (foldl (AES_setup_step nkeywords) v
                   (seq nkeywords (4 * (nrounds + 1) - nkeywords))).

(** ** Encryption and decryption of one block *)

Definition AES_encrypt (rounds : list AES_state) (nrounds : nat) (plain16 : list Z) : list Z :=
  let s := LoadBytes AES_state_zero plain16 in
  let s := AddRoundKey s (rounds !!! 0%nat) in
  let s := foldl (λ s round,
             let s := SubBytes s false in
             let s := ShiftRows s in
             let s := MixColumns s false in
             AddRoundKey s (rounds !!! round)) s (seq 1 (nrounds - 1)) in
  let s := SubBytes s false in
  let s := ShiftRows s in
  let s := AddRoundKey s (rounds !!! nrounds) in
  SaveBytes s.

(** [rounds] walks backwards from [rounds + nrounds]. *)
Definition AES_decrypt (rounds : list AES_state) (nrounds : nat) (cipher16 : list Z) : list Z :=
  let s := LoadBytes AES_state_zero cipher16 in
  let s := AddRoundKey s (rounds !!! nrounds) in
  let s := foldl (λ s round,
             let s := InvShiftRows s in
             let s := SubBytes s true in
             let s := AddRoundKey s (rounds !!! (nrounds - round)%nat) in
             MixColumns s true) s (seq 1 (nrounds - 1)) in
  let s := InvShiftRows s in
  let s := SubBytes s true in
  let s := AddRoundKey s (rounds !!! 0%nat) in
  SaveBytes s.

(** [while (blocks--)]: the pointers advance by 16 bytes per block. *)
Fixpoint AES_blocks (f : list Z -> list Z) (blocks : nat) (data : list Z) : list Z :=
  match blocks with
  | O => []
  | S blocks => f (take 16 data) ++ AES_blocks f blocks (drop 16 data)
  end.

Definition AES128_init (key16 : list Z) : list AES_state := AES_setup key16 4 10.
Definition AES128_encrypt (ctx : list AES_state) (blocks : nat) (plain : list Z) : list Z :=
  AES_blocks (AES_encrypt ctx 10) blocks plain.
Definition AES128_decrypt (ctx : list AES_state) (blocks : nat) (cipher : list Z) : list Z :=
  AES_blocks (AES_decrypt ctx 10) blocks cipher.

Definition AES192_init (key24 : list Z) : list AES_state := AES_setup key24 6 12.
Definition AES192_encrypt (ctx : list AES_state) (blocks : nat) (plain : list Z) : list Z :=
  AES_blocks (AES_encrypt ctx 12) blocks plain.
Definition AES192_decrypt (ctx : list AES_state) (blocks : nat) (cipher : list Z) : list Z :=
  AES_blocks (AES_decrypt ctx 12) blocks cipher.

Definition AES256_init (key32 : list Z) : list AES_state := AES_setup key32 8 14.
Definition AES256_encrypt (ctx : list AES_state) (blocks : nat) (plain : list Z) : list Z :=
  AES_blocks (AES_encrypt ctx 14) blocks plain.
Definition AES256_decrypt (ctx : list AES_state) (blocks : nat) (cipher : list Z) : list Z :=
  AES_blocks (AES_decrypt ctx 14) blocks cipher.
