(* ===== verification/CtaesProofs.v ===== *)
(** * The constant-time AES implements FIPS-197

    Lane [j] of a state is the byte spread over bit [j] of the eight slices.
    Every operation of [Ctaes] is described by what it does to the lanes, and
    from there by what it does to the 16 bytes [SaveBytes] extracts. *)

From S2P Require Import Prelude AesSpec Ctaes.

(** ** Lanes *)

Definition lane (s : AES_state) (j : Z) : slices bool := slices_map (λ x, Z.testbit x j) s.

Definition byte_of (l : slices bool) : Z :=
  let '(Slices b0 b1 b2 b3 b4 b5 b6 b7) := l in
  2 * (2 * (2 * (2 * (2 * (2 * (2 * (2 * 0 + Z.b2z b7) + Z.b2z b6) + Z.b2z b5) + Z.b2z b4)
    + Z.b2z b3) + Z.b2z b2) + Z.b2z b1) + Z.b2z b0.

Definition bits_of (x : Z) : slices bool :=
  Slices (Z.testbit x 0) (Z.testbit x 1) (Z.testbit x 2) (Z.testbit x 3)
         (Z.testbit x 4) (Z.testbit x 5) (Z.testbit x 6) (Z.testbit x 7).

(** All eight slices are 16-bit values. *)
Definition wf_state (s : AES_state) : Prop := Forall (in_uint 16) (slices_list s).

Definition cell_lanes : list Z := [0;4;8;12;1;5;9;13;2;6;10;14;3;7;11;15].

Lemma forall_lanes (P : Z -> Prop) :
  P 0 -> P 1 -> P 2 -> P 3 -> P 4 -> P 5 -> P 6 -> P 7 ->
  P 8 -> P 9 -> P 10 -> P 11 -> P 12 -> P 13 -> P 14 -> P 15 ->
  forall j, 0 <= j < 16 -> P j.
Proof.
  intros. enum_Z j 0 16; done.
Qed.

(** The 256 values of a lane. *)
Definition all_lanes : list (slices bool) := map bits_of (seqZ 0 256).

Lemma byte_of_range l : is_byte (byte_of l).
Proof. destruct l as [[] [] [] [] [] [] [] []]; vm_compute; done. Qed.

Lemma bits_of_byte_of l : bits_of (byte_of l) = l.
Proof. destruct l as [[] [] [] [] [] [] [] []]; reflexivity. Qed.

Lemma byte_of_bits_of x : is_byte x -> byte_of (bits_of x) = x.
Proof. apply (byte_forall_eq (λ x, byte_of (bits_of x)) (λ x, x)). vm_compute. reflexivity. Qed.

Lemma forall_lane_values (P : slices bool -> bool) :
  forallb P all_lanes = true -> forall l, P l = true.
Proof.
  intros H l. rewrite <- (bits_of_byte_of l). rewrite forallb_forall in H. apply H.
  apply in_map, list_elem_of_In, elem_of_seqZ.
  pose proof (byte_of_range l) as Hl. unfold in_uint in Hl. lia.
Qed.

Lemma testbit_byte_of l i :
  0 <= i < 8 -> Z.testbit (byte_of l) i = slices_list l !!! Z.to_nat i.
Proof.
  intros Hi. enum_Z i 0 8; destruct l as [[] [] [] [] [] [] [] []]; reflexivity.
Qed.

Lemma byte_of_xor a b : byte_of (slices_zip xorb a b) = byte_of a ^^ byte_of b.
Proof.
  apply (uint_bits_inj 8); auto using byte_of_range with uints.
  intros i Hi. rewrite Z.lxor_spec, !testbit_byte_of by done.
  destruct a, b. enum_Z i 0 8; reflexivity.
Qed.

Lemma SaveByte_lane s r c : 0 <= r * 4 + c -> SaveByte s r c = byte_of (lane s (r * 4 + c)).
Proof.
  intros Hj. destruct s as [x0 x1 x2 x3 x4 x5 x6 x7].
  assert (forall x, (x >> (r * 4 + c)) &&& 1 = Z.b2z (Z.testbit x (r * 4 + c))) as E.
  { intros x. change 1 with (Z.ones 1). rewrite Z.land_ones by lia. change (2 ^ 1) with 2.
    rewrite Z.shiftr_div_pow2 by done. by rewrite Z.testbit_spec'. }
  unfold SaveByte. change (seqZ 0 8) with [0;1;2;3;4;5;6;7].
  cbn [slices_list zip zip_with foldl]. rewrite !E. unfold lane, slices_map. cbn [slices_imap].
  destruct (Z.testbit x0 _), (Z.testbit x1 _), (Z.testbit x2 _), (Z.testbit x3 _),
    (Z.testbit x4 _), (Z.testbit x5 _), (Z.testbit x6 _), (Z.testbit x7 _); reflexivity.
Qed.

Lemma SaveBytes_lanes s : SaveBytes s = map (λ j, byte_of (lane s j)) cell_lanes.
Proof. unfold SaveBytes, cells, cell_lanes. cbn [map]. by rewrite !SaveByte_lane. Qed.

Lemma is_block_SaveBytes s : is_block (SaveBytes s).
Proof.
  rewrite SaveBytes_lanes. split; [done|]. unfold bytes, cell_lanes. cbn [map].
  split_Forall; apply byte_of_range.
Qed.

(** ** SubBytes

    The circuit is parametric in its bit algebra: a relation between two algebras
    that is closed under the four operations is preserved from the inputs to the
    outputs.  The proofs walk down the [let]s of the two copies in lock step. *)

Section circuit_parametricity.
Context {A B : Type} `{BitOps A} `{BitOps B} (R : A -> B -> Prop).
Context (R_xor : forall x y a b, R x a -> R y b -> R (bxor x y) (bxor a b)).
Context (R_and : forall x y a b, R x a -> R y b -> R (band x y) (band a b)).
Context (R_or : forall x y a b, R x a -> R y b -> R (bor x y) (bor a b)).
Context (R_not : forall x a, R x a -> R (bnot x) (bnot a)).

Definition slices_rel (s : slices A) (t : slices B) : Prop :=
  Forall2 R (slices_list s) (slices_list t).

Definition linear_list {A} (l : sbox_linear A) : list A :=
  let '(SboxLinear a b c d e f g h i k m n o p q r s t u v w x) := l in
  [a; b; c; d; e; f; g; h; i; k; m; n; o; p; q; r; s; t; u; v; w; x].
Definition linear_rel (s : sbox_linear A) (t : sbox_linear B) : Prop :=
  Forall2 R (linear_list s) (linear_list t).

Definition products_list {A} (l : sbox_products A) : list A :=
  let '(SboxProducts a b c d e f g h i k m n o p q r s t) := l in
  [a; b; c; d; e; f; g; h; i; k; m; n; o; p; q; r; s; t].
Definition products_rel (s : sbox_products A) (t : sbox_products B) : Prop :=
  Forall2 R (products_list s) (products_list t).

Lemma let_rel {C D} (Q : C -> D -> Prop) a b f g :
  R a b -> (forall x y, R x y -> Q (f x) (g y)) ->
  Q (let x := a in f x) (let y := b in g y).
Proof using Type. simpl. auto. Qed.

Ltac solve_rel := repeat first [assumption | apply R_xor | apply R_and | apply R_or | apply R_not].

Ltac circuit_step :=
  lazymatch goal with
  | |- ?Q (let x := ?a in @?f x) (let y := ?b in @?g y) =>
      apply (let_rel Q a b f g); [solve_rel|intros ? ? ?; cbv beta]
  end.

Ltac circuit_rel :=
  repeat circuit_step; repeat (apply List.Forall2_cons || apply List.Forall2_nil); solve_rel.

Lemma linear_inv_rel s t :
  slices_rel s t -> linear_rel (SubBytes_linear_inv s) (SubBytes_linear_inv t).
Proof.
  destruct s, t. unfold slices_rel; simpl. intros Hst. decompose_Forall_hyps.
  unfold SubBytes_linear_inv. circuit_rel.
Qed.

Lemma linear_fwd_rel s t :
  slices_rel s t -> linear_rel (SubBytes_linear_fwd s) (SubBytes_linear_fwd t).
Proof.
  destruct s, t. unfold slices_rel; simpl. intros Hst. decompose_Forall_hyps.
  unfold SubBytes_linear_fwd. circuit_rel.
Qed.

Lemma nonlinear_rel s t :
  linear_rel s t -> products_rel (SubBytes_nonlinear s) (SubBytes_nonlinear t).
Proof.
  destruct s, t. unfold linear_rel; simpl. intros Hst. decompose_Forall_hyps.
  unfold SubBytes_nonlinear. circuit_rel.
Qed.

Lemma output_inv_rel s t :
  products_rel s t -> slices_rel (SubBytes_output_inv s) (SubBytes_output_inv t).
Proof.
  destruct s, t. unfold products_rel; simpl. intros Hst. decompose_Forall_hyps.
  unfold SubBytes_output_inv. circuit_rel.
Qed.

Lemma output_fwd_rel s t :
  products_rel s t -> slices_rel (SubBytes_output_fwd s) (SubBytes_output_fwd t).
Proof.
  destruct s, t. unfold products_rel; simpl. intros Hst. decompose_Forall_hyps.
  unfold SubBytes_output_fwd. circuit_rel.
Qed.

Lemma circuit_parametric inv s t :
  slices_rel s t -> slices_rel (SubBytes_circuit inv s) (SubBytes_circuit inv t).
Proof.
  intros Hst. unfold SubBytes_circuit. destruct inv.
  - by apply output_inv_rel, nonlinear_rel, linear_inv_rel.
  - by apply output_fwd_rel, nonlinear_rel, linear_fwd_rel.
Qed.
End circuit_parametricity.

(** [Z.testbit _ j] preserves the four operations, so lane [j] of the output is
    the circuit applied to lane [j] of the input. *)
Lemma lane_SubBytes s inv j :
  0 <= j < 16 -> lane (SubBytes s inv) j = SubBytes_circuit inv (lane s j).
Proof.
  intros Hj. assert (slices_rel (λ x b, Z.testbit x j = b) s (lane s j)) as Hs
    by (destruct s; repeat constructor).
  apply (circuit_parametric (λ x b, Z.testbit x j = b)) with (inv := inv) in Hs.
  - unfold SubBytes. destruct (SubBytes_circuit inv s), (SubBytes_circuit inv (lane s j)).
    unfold slices_rel in Hs. simpl in Hs. decompose_Forall_hyps. done.
  - intros ? ? ? ? <- <-. apply Z.lxor_spec.
  - intros ? ? ? ? <- <-. apply Z.land_spec.
  - intros ? ? ? ? <- <-. apply Z.lor_spec.
  - intros ? ? <-. simpl. rewrite testbit_uint, Z.lnot_spec by lia.
    by replace (j <? 16) with true by lia.
Qed.

(** The one-element algebra: parametricity then says that ranges are preserved. *)
Definition unit_bitops : BitOps unit :=
  {| bxor _ _ := tt; band _ _ := tt; bor _ _ := tt; bnot _ := tt |}.

Lemma wf_SubBytes s inv : wf_state s -> wf_state (SubBytes s inv).
Proof.
  intros Hs. set (t := Slices tt tt tt tt tt tt tt tt).
  assert (slices_rel (λ x _, in_uint 16 x) s t) as Hst.
  { destruct s. unfold wf_state in Hs. simpl in Hs. decompose_Forall_hyps.
    unfold slices_rel. simpl. auto 10. }
  apply (circuit_parametric (H0 := unit_bitops) (λ x _, in_uint 16 x)) with (inv := inv) in Hst.
  - unfold wf_state, SubBytes, slices_rel in *. by eapply Forall2_Forall_l; [exact Hst|]; apply Forall_true.
  - intros; simpl; auto with uints.
  - intros ? ? ? ? Hx [Hy _]; simpl; auto with uints.
  - intros; simpl; auto with uints.
  - intros; simpl; auto with uints.
Qed.

(** One lane of the circuit is the S-box: all 256 inputs are evaluated. *)
Lemma circuit_sbox l : byte_of (SubBytes_circuit false l) = sbox (byte_of l).
Proof.
  apply Z.eqb_eq. revert l.
  apply (forall_lane_values (λ l, byte_of (SubBytes_circuit false l) =? sbox (byte_of l))).
  vm_compute. reflexivity.
Qed.

Lemma circuit_inv_sbox l : byte_of (SubBytes_circuit true l) = inv_sbox (byte_of l).
Proof.
  apply Z.eqb_eq. revert l.
  apply (forall_lane_values (λ l, byte_of (SubBytes_circuit true l) =? inv_sbox (byte_of l))).
  vm_compute. reflexivity.
Qed.

Lemma SaveBytes_SubBytes s : SaveBytes (SubBytes s false) = spec_sub_bytes (SaveBytes s).
Proof.
  rewrite !SaveBytes_lanes. unfold spec_sub_bytes, cell_lanes. cbn [map].
  by rewrite !lane_SubBytes, !circuit_sbox by lia.
Qed.

Lemma SaveBytes_InvSubBytes s : SaveBytes (SubBytes s true) = spec_inv_sub_bytes (SaveBytes s).
Proof.
  rewrite !SaveBytes_lanes. unfold spec_inv_sub_bytes, cell_lanes. cbn [map].
  by rewrite !lane_SubBytes, !circuit_inv_sbox by lia.
Qed.

(** ** The linear round operations *)

Lemma lane_AddRoundKey s k j : lane (AddRoundKey s k) j = slices_zip xorb (lane s j) (lane k j).
Proof. destruct s, k. cbn. by rewrite !Z.lxor_spec. Qed.

Lemma SaveBytes_AddRoundKey s k :
  SaveBytes (AddRoundKey s k) = xor_bytes (SaveBytes s) (SaveBytes k).
Proof.
  rewrite !SaveBytes_lanes. unfold xor_bytes, cell_lanes. cbn [map zip_with].
  by rewrite !lane_AddRoundKey, !byte_of_xor.
Qed.

(** Evaluate what [Z.testbit] sees at a literal position. *)
Ltac eval_bits :=
  autorewrite with bits;
  repeat match goal with
  | |- context [Z.testbit ?x ?i] =>
      lazymatch i with
      | Z0 => fail | Zpos _ => fail | Zneg _ => fail
      | _ => let i' := eval vm_compute in i in change i with i'
      end
  | |- context [Z.testbit (BIT_RANGE ?a ?b) ?i] =>
      let v := eval vm_compute in (Z.testbit (BIT_RANGE a b) i) in
      change (Z.testbit (BIT_RANGE a b) i) with v
  | |- context [?i <? ?n] =>
      let v := eval vm_compute in (i <? n) in change (i <? n) with v
  end.

Definition shift_lane (j : Z) : Z := 4 * (j / 4) + (j + j / 4) `mod` 4.
Definition inv_shift_lane (j : Z) : Z := 4 * (j / 4) + (j - j / 4) `mod` 4.

Lemma lane_ShiftRows s j : 0 <= j < 16 -> lane (ShiftRows s) j = lane s (shift_lane j).
Proof.
  intros Hj. destruct s as [x0 x1 x2 x3 x4 x5 x6 x7]. unfold ShiftRows, lane, slices_map.
  cbn [slices_imap].
  assert (forall v, Z.testbit (u16 (
    (v &&& BIT_RANGE 0 4) |||
    BIT_RANGE_LEFT v 4 5 3 ||| BIT_RANGE_RIGHT v 5 8 1 |||
    BIT_RANGE_LEFT v 8 10 2 ||| BIT_RANGE_RIGHT v 10 12 2 |||
    BIT_RANGE_LEFT v 12 15 1 ||| BIT_RANGE_RIGHT v 15 16 3)) j = Z.testbit v (shift_lane j)) as E;
    [|by rewrite !E].
  intros v. unfold BIT_RANGE_LEFT, BIT_RANGE_RIGHT. revert j Hj.
  apply forall_lanes; eval_bits; rewrite ?Z.testbit_neg_r by lia; btauto.
Qed.

Lemma lane_InvShiftRows s j : 0 <= j < 16 -> lane (InvShiftRows s) j = lane s (inv_shift_lane j).
Proof.
  intros Hj. destruct s as [x0 x1 x2 x3 x4 x5 x6 x7]. unfold InvShiftRows, lane, slices_map.
  cbn [slices_imap].
  assert (forall v, Z.testbit (u16 (
    (v &&& BIT_RANGE 0 4) |||
    BIT_RANGE_LEFT v 4 7 1 ||| BIT_RANGE_RIGHT v 7 8 3 |||
    BIT_RANGE_LEFT v 8 10 2 ||| BIT_RANGE_RIGHT v 10 12 2 |||
    BIT_RANGE_LEFT v 12 13 3 ||| BIT_RANGE_RIGHT v 13 16 1)) j = Z.testbit v (inv_shift_lane j)) as E;
    [|by rewrite !E].
  intros v. unfold BIT_RANGE_LEFT, BIT_RANGE_RIGHT. revert j Hj.
  apply forall_lanes; eval_bits; rewrite ?Z.testbit_neg_r by lia; btauto.
Qed.

Lemma SaveBytes_ShiftRows s : SaveBytes (ShiftRows s) = spec_shift_rows (SaveBytes s).
Proof.
  rewrite !SaveBytes_lanes. unfold cell_lanes. cbn [map].
  rewrite !lane_ShiftRows by lia. reflexivity.
Qed.

Lemma SaveBytes_InvShiftRows s : SaveBytes (InvShiftRows s) = spec_inv_shift_rows (SaveBytes s).
Proof.
  rewrite !SaveBytes_lanes. unfold cell_lanes. cbn [map].
  rewrite !lane_InvShiftRows by lia. reflexivity.
Qed.

(** A row rotation of the slices moves every lane to the next row. *)
Lemma testbit_ROT x b j :
  in_uint 16 x -> 0 <= j < 16 -> 1 <= b <= 3 ->
  Z.testbit (ROT x b) j = Z.testbit x ((j + 4 * b) `mod` 16).
Proof.
  intros Hx Hj Hb. unfold ROT. autorewrite with bits.
  destruct (decide (j + 4 * b < 16)).
  - rewrite (Z.testbit_neg_r x (j - _)) by lia. rewrite orb_false_r.
    f_equal. rewrite Z.mod_small by lia. lia.
  - rewrite (testbit_in_uint 16 x (j + _)) by (done || lia). simpl. f_equal.
    rewrite <- (Z.mod_small (j - (4 - b) * 4) 16) by lia.
    replace (j + 4 * b) with (j - (4 - b) * 4 + 1 * 16) by lia. by rewrite Z.mod_add.
Qed.

Lemma testbit_s01 x j :
  in_uint 16 x -> 0 <= j < 16 ->
  Z.testbit (u16 (x ^^ ROT x 1)) j = xorb (Z.testbit x j) (Z.testbit x ((j + 4) `mod` 16)).
Proof.
  intros. rewrite testbit_uint, Z.lxor_spec, testbit_ROT by (done || lia).
  by replace (j <? 16) with true by lia.
Qed.

Lemma testbit_s123 x j :
  in_uint 16 x -> 0 <= j < 16 ->
  Z.testbit (u16 (ROT (u16 (x ^^ ROT x 1)) 1 ^^ ROT x 3)) j =
  xorb (xorb (Z.testbit x ((j + 4) `mod` 16)) (Z.testbit x ((j + 8) `mod` 16)))
       (Z.testbit x ((j + 12) `mod` 16)).
Proof.
  intros. rewrite testbit_uint, Z.lxor_spec, !testbit_ROT by (auto with uints || lia).
  rewrite testbit_s01 by (done || apply Z.mod_pos_bound; lia).
  replace (j <? 16) with true by lia. rewrite Zplus_mod_idemp_l, <- Z.add_assoc. done.
Qed.

Lemma testbit_t02 x j :
  in_uint 16 x -> 0 <= j < 16 ->
  Z.testbit (u16 (x ^^ ROT x 2)) j = xorb (Z.testbit x j) (Z.testbit x ((j + 8) `mod` 16)).
Proof.
  intros. rewrite testbit_uint, Z.lxor_spec, testbit_ROT by (done || lia).
  by replace (j <? 16) with true by lia.
Qed.

(** Multiplication by x on a lane, and on the byte it stands for. *)
Definition lane_xtime (l : slices bool) : slices bool :=
  let '(Slices b0 b1 b2 b3 b4 b5 b6 top) := l in
  Slices top (xorb b0 top) b1 (xorb b2 top) (xorb b3 top) b4 b5 b6.

Lemma byte_of_xtime l : byte_of (lane_xtime l) = xtime (byte_of l).
Proof.
  apply Z.eqb_eq. revert l.
  apply (forall_lane_values (λ l, byte_of (lane_xtime l) =? xtime (byte_of l))).
  vm_compute. reflexivity.
Qed.

Definition lane_mix (a b c d : slices bool) : slices bool :=
  slices_zip xorb (slices_zip xorb (lane_xtime a) (slices_zip xorb (lane_xtime b) b))
                  (slices_zip xorb c d).

Lemma lane_MixColumns_fwd s j :
  wf_state s -> 0 <= j < 16 ->
  lane (MixColumns_fwd s) j =
  lane_mix (lane s j) (lane s ((j + 4) `mod` 16)) (lane s ((j + 8) `mod` 16))
           (lane s ((j + 12) `mod` 16)).
Proof.
  intros Hs Hj. destruct s as [x0 x1 x2 x3 x4 x5 x6 x7].
  unfold wf_state in Hs. cbn in Hs. decompose_Forall_hyps.
  unfold lane, slices_map, MixColumns_fwd, lane_mix. cbn [slices_imap slices_zip lane_xtime].
  f_equal; rewrite !Z.lxor_spec, ?testbit_s01, ?testbit_s123 by done; btauto.
Qed.

Lemma wf_MixColumns_fwd s : wf_state s -> wf_state (MixColumns_fwd s).
Proof. destruct s. intros _. unfold wf_state, MixColumns_fwd. cbn. split_Forall; auto with uints. Qed.

Lemma lane_MixColumns_inv_step s j :
  wf_state s -> 0 <= j < 16 ->
  lane (MixColumns_inv_step s) j =
  slices_zip xorb (lane s j)
    (lane_xtime (lane_xtime (slices_zip xorb (lane s j) (lane s ((j + 8) `mod` 16))))).
Proof.
  intros Hs Hj. destruct s as [x0 x1 x2 x3 x4 x5 x6 x7].
  unfold wf_state in Hs. cbn in Hs. decompose_Forall_hyps.
  unfold lane, slices_map, MixColumns_inv_step. cbn [slices_imap slices_zip lane_xtime].
  f_equal; rewrite !Z.lxor_spec, ?testbit_t02 by done; btauto.
Qed.

Ltac eval_lanes :=
  repeat match goal with
  | |- context [(?a + ?b) `mod` 16] =>
      let v := eval vm_compute in ((a + b) `mod` 16) in change ((a + b) `mod` 16) with v
  end.

Ltac lxor_bits :=
  apply Z.bits_inj'; intros ? _; rewrite !Z.lxor_spec; btauto.

Lemma SaveBytes_MixColumns s :
  wf_state s -> SaveBytes (MixColumns s false) = spec_mix_columns (SaveBytes s).
Proof.
  intros Hs. rewrite !SaveBytes_lanes. unfold cell_lanes, MixColumns. cbn [map].
  rewrite !lane_MixColumns_fwd by (done || lia). eval_lanes. unfold lane_mix.
  rewrite !byte_of_xor, !byte_of_xtime.
  unfold spec_mix_columns. cbn [on_columns]. unfold mix_column, mul2, mul3. cbn [app].
  repeat (apply (f_equal2 cons); [lxor_bits|]); reflexivity.
Qed.

Lemma SaveBytes_InvMixColumns s :
  wf_state s -> SaveBytes (MixColumns s true) = spec_inv_mix_columns (SaveBytes s).
Proof.
  intros Hs. rewrite !SaveBytes_lanes. unfold cell_lanes, MixColumns. cbn [map].
  rewrite !lane_MixColumns_inv_step by (by apply wf_MixColumns_fwd || lia).
  eval_lanes. rewrite !lane_MixColumns_fwd by (done || lia). eval_lanes. unfold lane_mix.
  repeat rewrite ?byte_of_xor, ?byte_of_xtime.
  rewrite !xtime_lxor.
  unfold spec_inv_mix_columns. cbn [on_columns].
  unfold inv_mix_column, mul9, mulb, muld, mule. cbn [app].
  repeat (apply (f_equal2 cons); [lxor_bits|]); reflexivity.
Qed.

(** ** Loading *)

Lemma testbit_load v b i k j :
  0 <= i -> 0 <= k -> 0 <= j < 16 ->
  Z.testbit (u16 (v ||| (((b >> i) &&& 1) << k))) j =
  Z.testbit v j || ((j =? k) && Z.testbit b i).
Proof.
  intros Hi Hk Hj. rewrite testbit_uint, Z.lor_spec, Z.shiftl_spec, Z.land_spec by lia.
  replace (j <? 16) with true by lia. rewrite andb_true_l. f_equal.
  destruct (Z.eqb_spec j k) as [->|Hne].
  - rewrite Z.sub_diag, Z.shiftr_spec by lia. by rewrite andb_true_r.
  - change 1 with (Z.ones 1). destruct (decide (j < k)).
    + by rewrite (Z.testbit_neg_r (Z.ones 1)), andb_false_r by lia.
    + by rewrite Z.ones_spec_high, andb_false_r by lia.
Qed.

Definition lane_set (l : slices bool) (c : bool) (b : Z) : slices bool :=
  slices_zip (λ x y, x || (c && y)) l (bits_of b).

Lemma lane_LoadByte s b r c j :
  0 <= r * 4 + c -> 0 <= j < 16 -> lane (LoadByte s b r c) j = lane_set (lane s j) (j =? r * 4 + c) b.
Proof.
  intros. destruct s. unfold LoadByte, lane, lane_set, bits_of, slices_map.
  cbn [slices_imap slices_zip]. by rewrite !testbit_load by lia.
Qed.

Lemma lane_set_false l b : lane_set l false b = l.
Proof. destruct l. unfold lane_set, bits_of. cbn. by rewrite !orb_false_r. Qed.

Lemma wf_LoadByte s b r c : wf_state (LoadByte s b r c).
Proof. destruct s. unfold wf_state, LoadByte. cbn. split_Forall; auto with uints. Qed.

Lemma lane_set_zero j b : lane_set (lane AES_state_zero j) true b = bits_of b.
Proof. unfold lane, AES_state_zero, lane_set, bits_of. cbn. by rewrite !Z.testbit_0_l. Qed.

Ltac eval_eqb :=
  repeat match goal with
  | |- context [?a =? ?b] => let v := eval vm_compute in (a =? b) in change (a =? b) with v
  end.

Lemma SaveBytes_LoadBytes data : is_block data -> SaveBytes (LoadBytes AES_state_zero data) = data.
Proof.
  intros [Hl Hb]. rewrite SaveBytes_lanes. destruct_list_length.
  unfold bytes in Hb. rewrite !List.Forall_cons_iff in Hb. destruct_and? Hb.
  unfold LoadBytes, cells, cell_lanes. cbn [zip zip_with foldl map].
  repeat (apply (f_equal2 cons); [
    rewrite !lane_LoadByte by lia; eval_eqb;
    rewrite ?lane_set_false, lane_set_zero; by apply byte_of_bits_of|]).
  reflexivity.
Qed.

Lemma wf_state_zero : wf_state AES_state_zero.
Proof. unfold wf_state. cbn. split_Forall; done. Qed.

Lemma wf_foldl_load s l : wf_state s ->
  wf_state (foldl (λ s '((r, c), byte), LoadByte s byte r c) s l).
Proof.
  revert s. induction l as [|[[r c] b] l IH]; intros s Hs; [done|]. apply IH, wf_LoadByte.
Qed.

Lemma wf_LoadBytes s data : wf_state s -> wf_state (LoadBytes s data).
Proof. apply wf_foldl_load. Qed.

Lemma wf_AddRoundKey s k : wf_state s -> wf_state k -> wf_state (AddRoundKey s k).
Proof.
  destruct s, k. unfold wf_state. cbn. intros. decompose_Forall_hyps. split_Forall; auto with uints.
Qed.

Lemma wf_ShiftRows s : wf_state (ShiftRows s).
Proof. destruct s. unfold wf_state. cbn. split_Forall; auto with uints. Qed.

Lemma wf_InvShiftRows s : wf_state (InvShiftRows s).
Proof. destruct s. unfold wf_state. cbn. split_Forall; auto with uints. Qed.

Lemma wf_MixColumns_inv_step s : wf_state s -> wf_state (MixColumns_inv_step s).
Proof.
  destruct s. unfold wf_state, MixColumns_inv_step. cbn. intros. decompose_Forall_hyps.
  split_Forall; auto with uints.
Qed.

Lemma wf_MixColumns s inv : wf_state s -> wf_state (MixColumns s inv).
Proof.
  intros. unfold MixColumns. destruct inv; auto using wf_MixColumns_fwd, wf_MixColumns_inv_step.
Qed.

(** ** One block *)

Section one_block.
Context (rounds : list AES_state) (Hrounds : Forall wf_state rounds).

Definition round_bytes (k : nat) : list Z := SaveBytes (rounds !!! k).

Lemma wf_rounds k : wf_state (rounds !!! k).
Proof.
  rewrite list_lookup_total_alt. destruct (rounds !! k) as [s|] eqn:E; simpl; [|apply wf_state_zero].
  by apply (Forall_lookup_1 _ _ _ _ Hrounds E).
Qed.

Lemma is_block_round_bytes k : is_block (round_bytes k).
Proof. apply is_block_SaveBytes. Qed.

Lemma SaveBytes_enc_rounds s ks :
  wf_state s ->
  let step s round :=
    AddRoundKey (MixColumns (ShiftRows (SubBytes s false)) false) (rounds !!! round) in
  wf_state (foldl step s ks) ∧
  SaveBytes (foldl step s ks) = foldl (spec_round round_bytes) (SaveBytes s) ks.
Proof.
  intros Hs step. revert s Hs. induction ks as [|k ks IH]; intros s Hs; [done|]. simpl.
  assert (wf_state (step s k)) as Hk.
  { apply wf_AddRoundKey; [|apply wf_rounds]. apply wf_MixColumns, wf_ShiftRows. }
  destruct (IH _ Hk) as [Hwf ->]. split; [done|]. f_equal. unfold step, spec_round.
  by rewrite SaveBytes_AddRoundKey, SaveBytes_MixColumns, SaveBytes_ShiftRows, SaveBytes_SubBytes
    by apply wf_ShiftRows.
Qed.

Lemma AES_encrypt_cipher nr plain :
  is_block plain -> AES_encrypt rounds nr plain = cipher round_bytes nr plain.
Proof.
  intros Hp. unfold AES_encrypt, cipher.
  assert (wf_state (AddRoundKey (LoadBytes AES_state_zero plain) (rounds !!! 0%nat))) as H0
    by auto using wf_AddRoundKey, wf_LoadBytes, wf_state_zero, wf_rounds.
  destruct (SaveBytes_enc_rounds _ (seq 1 (nr - 1)) H0) as [_ E].
  rewrite SaveBytes_AddRoundKey, SaveBytes_ShiftRows, SaveBytes_SubBytes, E.
  by rewrite SaveBytes_AddRoundKey, SaveBytes_LoadBytes.
Qed.

Lemma SaveBytes_dec_rounds nr s ks :
  wf_state s ->
  let step s round :=
    MixColumns (AddRoundKey (SubBytes (InvShiftRows s) true) (rounds !!! (nr - round)%nat)) true in
  wf_state (foldl step s ks) ∧
  SaveBytes (foldl step s ks) = foldl (spec_inv_round round_bytes nr) (SaveBytes s) ks.
Proof.
  intros Hs step. revert s Hs. induction ks as [|k ks IH]; intros s Hs; [done|]. simpl.
  assert (wf_state (AddRoundKey (SubBytes (InvShiftRows s) true) (rounds !!! (nr - k)%nat))) as Ha
    by auto using wf_AddRoundKey, wf_SubBytes, wf_InvShiftRows, wf_rounds.
  destruct (IH (step s k) (wf_MixColumns _ _ Ha)) as [Hwf ->]. split; [done|]. f_equal.
  unfold step, spec_inv_round.
  by rewrite SaveBytes_InvMixColumns, SaveBytes_AddRoundKey, SaveBytes_InvSubBytes,
    SaveBytes_InvShiftRows.
Qed.

Lemma AES_decrypt_inv_cipher nr cipher16 :
  is_block cipher16 -> AES_decrypt rounds nr cipher16 = inv_cipher round_bytes nr cipher16.
Proof.
  intros Hp. unfold AES_decrypt, inv_cipher.
  assert (wf_state (AddRoundKey (LoadBytes AES_state_zero cipher16) (rounds !!! nr))) as H0
    by auto using wf_AddRoundKey, wf_LoadBytes, wf_state_zero, wf_rounds.
  destruct (SaveBytes_dec_rounds nr _ (seq 1 (nr - 1)) H0) as [_ E].
  rewrite SaveBytes_AddRoundKey, SaveBytes_InvSubBytes, SaveBytes_InvShiftRows, E.
  by rewrite SaveBytes_AddRoundKey, SaveBytes_LoadBytes.
Qed.

Lemma is_block_AES_encrypt nr plain : is_block (AES_encrypt rounds nr plain).
Proof. apply is_block_SaveBytes. Qed.

Lemma AES_decrypt_encrypt nr plain :
  (0 < nr)%nat -> is_block plain -> AES_decrypt rounds nr (AES_encrypt rounds nr plain) = plain.
Proof.
  intros Hnr Hp. rewrite AES_decrypt_inv_cipher by apply is_block_AES_encrypt.
  rewrite AES_encrypt_cipher by done. apply inv_cipher_cipher; auto using is_block_round_bytes.
Qed.
End one_block.
