(* ===== verification/CtaesKeySchedule.v ===== *)
(** * The key schedule of the constant-time AES

    [AES_setup] keeps the expanded key bit-sliced, one AES state per round key;
    it is shown to hold the words of the FIPS-197 key expansion. *)

From S2P Require Import Prelude AesSpec Ctaes CtaesProofs.

(** Column [c] of a state, as the four bytes of a word. *)
Definition col_word (s : AES_state) (c : Z) : list Z :=
  [byte_of (lane s c); byte_of (lane s (4 + c)); byte_of (lane s (8 + c)); byte_of (lane s (12 + c))].

(** Word [i] of the bit-sliced key schedule. *)
Definition word_at (rounds : list AES_state) (i : nat) : list Z :=
  col_word (rounds !!! (i / 4)%nat) (Z.of_nat (i `mod` 4)).

Definition zero_word : list Z := [0; 0; 0; 0].

Lemma byte_of_zero l : byte_of l = 0 -> l = lane AES_state_zero 0.
Proof. intros E. rewrite <- (bits_of_byte_of l), E. reflexivity. Qed.

Lemma col_word_SubBytes s : col_word (SubBytes s false) 0 = sub_word (col_word s 0).
Proof. unfold col_word, sub_word. cbn [map]. by rewrite !lane_SubBytes, !circuit_sbox by lia. Qed.

Lemma lane_KeySetupTransform s r j :
  wf_state s -> 0 <= j < 16 ->
  lane (KeySetupTransform s r) j = slices_zip xorb (lane s ((j + 4) `mod` 16)) (lane r j).
Proof.
  intros Hs Hj. destruct s as [x0 x1 x2 x3 x4 x5 x6 x7], r.
  unfold wf_state in Hs. cbn in Hs. decompose_Forall_hyps.
  unfold lane, slices_map, KeySetupTransform. cbn [slices_imap slices_zip].
  assert (forall x y, in_uint 16 x -> Z.testbit (u16 (((x >> 4) ||| (x << 12)) ^^ y)) j =
    xorb (Z.testbit x ((j + 4) `mod` 16)) (Z.testbit y j)) as E.
  { intros x y Hx. rewrite testbit_uint, Z.lxor_spec by lia.
    change ((x >> 4) ||| (x << 12)) with (ROT x 1). rewrite testbit_ROT by (done || lia).
    by replace (j <? 16) with true by lia. }
  by rewrite !E.
Qed.

Lemma col_word_KeySetupTransform s r :
  wf_state s ->
  col_word (KeySetupTransform s r) 0 = xor_bytes (rot_word (col_word s 0)) (col_word r 0).
Proof.
  intros. unfold col_word, xor_bytes. cbn [rot_word app zip_with].
  by rewrite !lane_KeySetupTransform, !byte_of_xor by (done || lia).
Qed.

(** The mask 0x1111 selects column 0. *)
Lemma testbit_mask x j : 0 <= j < 16 -> Z.testbit (x &&& 0x1111) j = Z.testbit x j && (j `mod` 4 =? 0).
Proof.
  intros Hj. rewrite Z.land_spec. f_equal. revert j Hj. apply forall_lanes; reflexivity.
Qed.

Lemma lane_GetOneColumn a c j :
  0 <= c < 4 -> (j = 0 ∨ j = 4 ∨ j = 8 ∨ j = 12) -> lane (GetOneColumn a c) j = lane a (j + c).
Proof.
  intros Hc Hj. destruct a. unfold GetOneColumn, lane, slices_map. cbn [slices_imap].
  assert (forall x, Z.testbit ((x >> c) &&& 0x1111) j = Z.testbit x (j + c)) as E; [|by rewrite !E].
  intros x. rewrite testbit_mask, Z.shiftr_spec by lia.
  destruct Hj as [-> | [-> | [-> | ->]]]; apply andb_true_r.
Qed.

Lemma col_word_GetOneColumn a c : 0 <= c < 4 -> col_word (GetOneColumn a c) 0 = col_word a c.
Proof. intros. unfold col_word. by rewrite !lane_GetOneColumn by naive_solver lia. Qed.

Lemma wf_GetOneColumn a c : 0 <= c -> wf_state a -> wf_state (GetOneColumn a c).
Proof.
  destruct a. unfold wf_state. cbn. intros Hc Ha. decompose_Forall_hyps.
  split_Forall; auto with uints.
Qed.

Section column_mix.
Context (s r a s' r' : AES_state) (c1 c2 : Z) (Hc1 : 0 <= c1 < 4) (Hc2 : 0 <= c2 < 4).
Context (Hmix : KeySetupColumnMix s r a c1 c2 = (s', r')).

Lemma wf_ColumnMix : wf_state s' ∧ wf_state r'.
Proof.
  clear Hc1 Hc2. destruct s, r, a. unfold KeySetupColumnMix in Hmix. injection Hmix as <- <-. unfold wf_state. cbn.
  split; split_Forall; auto with uints.
Qed.

Lemma lane_ColumnMix_s j :
  (j = 0 ∨ j = 4 ∨ j = 8 ∨ j = 12) -> lane s' j = slices_zip xorb (lane s j) (lane a (j + c2)).
Proof.
  intros Hj. assert (forall x y, Z.testbit (u16 (x ^^ ((y >> c2) &&& 0x1111))) j =
                     xorb (Z.testbit x j) (Z.testbit y (j + c2))) as E.
  { intros x y. rewrite testbit_uint, Z.lxor_spec, testbit_mask, Z.shiftr_spec by lia.
    replace (j <? 16) with true by lia.
    destruct Hj as [-> | [-> | [-> | ->]]]; by rewrite andb_true_r. }
  destruct s, r, a. unfold KeySetupColumnMix in Hmix. injection Hmix as <- <-. unfold lane, slices_map. cbn [slices_imap slices_zip].
  by rewrite !E.
Qed.

Lemma lane_ColumnMix_r j :
  0 <= j < 16 ->
  lane r' j = slices_zip orb (lane r j)
    (if j `mod` 4 =? c1 then lane s' (j - c1) else lane AES_state_zero 0).
Proof.
  intros Hj.
  assert (forall x y, Z.testbit (u16 (x ||| ((y &&& 0x1111) << c1))) j =
    Z.testbit x j || (if j `mod` 4 =? c1 then Z.testbit y (j - c1) else false)) as E.
  { intros x y. rewrite testbit_uint, Z.lor_spec, Z.shiftl_spec by lia.
    replace (j <? 16) with true by lia. rewrite andb_true_l. f_equal.
    destruct (decide (j < c1)) as [Hlt|Hge].
    - rewrite Z.testbit_neg_r by lia. rewrite Z.mod_small by lia.
      by replace (j =? c1) with false by lia.
    - rewrite testbit_mask by lia. replace (((j - c1) `mod` 4) =? 0) with (j `mod` 4 =? c1) by lia_mod.
      destruct (_ =? _); [apply andb_true_r|apply andb_false_r]. }
  destruct s, r, a. unfold KeySetupColumnMix in Hmix. injection Hmix as <- <-. unfold lane, slices_map. cbn [slices_imap slices_zip].
  rewrite !E. by destruct (_ =? _).
Qed.

Lemma col_word_ColumnMix_s : col_word s' 0 = xor_bytes (col_word s 0) (col_word a c2).
Proof.
  unfold col_word, xor_bytes. cbn [zip_with].
  by rewrite !lane_ColumnMix_s, !byte_of_xor by naive_solver lia.
Qed.

Lemma slices_orb_false_r (l : slices bool) : slices_zip orb l (lane AES_state_zero 0) = l.
Proof using Type. destruct l. cbn. by rewrite !orb_false_r. Qed.

(** Column [c1] of [r], still zero, receives the word; the others are kept. *)
Lemma col_word_ColumnMix_r : col_word r c1 = zero_word -> col_word r' c1 = col_word s' 0.
Proof.
  intros Hz. unfold col_word, zero_word in *. injection Hz as E0 E1 E2 E3.
  apply byte_of_zero in E0, E1, E2, E3.
  rewrite !lane_ColumnMix_r by lia. rewrite E0, E1, E2, E3.
  replace (c1 `mod` 4 =? c1) with true by lia_mod. replace ((4 + c1) `mod` 4 =? c1) with true by lia_mod.
  replace ((8 + c1) `mod` 4 =? c1) with true by lia_mod.
  replace ((12 + c1) `mod` 4 =? c1) with true by lia_mod.
  replace (c1 - c1) with 0 by lia. replace (4 + c1 - c1) with (4 + 0) by lia.
  replace (8 + c1 - c1) with (8 + 0) by lia. replace (12 + c1 - c1) with (12 + 0) by lia.
  by destruct (lane s' 0), (lane s' (4 + 0)), (lane s' (8 + 0)), (lane s' (12 + 0)).
Qed.

Lemma col_word_ColumnMix_r_ne c : 0 <= c < 4 -> c ≠ c1 -> col_word r' c = col_word r c.
Proof.
  intros Hc Hne. unfold col_word. rewrite !lane_ColumnMix_r by lia.
  replace (c `mod` 4 =? c1) with false by lia_mod. replace ((4 + c) `mod` 4 =? c1) with false by lia_mod.
  replace ((8 + c) `mod` 4 =? c1) with false by lia_mod.
  replace ((12 + c) `mod` 4 =? c1) with false by lia_mod.
  by rewrite !slices_orb_false_r.
Qed.
End column_mix.

Lemma lane_MultX s j : lane (MultX s) j = lane_xtime (lane s j).
Proof. destruct s. cbn. by rewrite !Z.lxor_spec. Qed.

Lemma col_word_MultX s : col_word (MultX s) 0 = map xtime (col_word s 0).
Proof. unfold col_word. cbn [map]. by rewrite !lane_MultX, !byte_of_xtime. Qed.

Lemma wf_MultX s : wf_state s -> wf_state (MultX s).
Proof.
  destruct s. unfold wf_state. cbn. intros. decompose_Forall_hyps. split_Forall; auto with uints.
Qed.

(** ** Words filled so far

    Both phases of [AES_setup] fill the schedule one word at a time: words
    [0 .. length w - 1] hold [w], the remaining ones are still zero. *)

Definition words_ok (nr : nat) (rounds : list AES_state) (w : list (list Z)) : Prop :=
  length rounds = (nr + 1)%nat ∧ Forall wf_state rounds ∧
  (forall k, (k < length w)%nat -> word_at rounds k = w !!! k) ∧
  (forall k, (length w <= k < 4 * (nr + 1))%nat -> word_at rounds k = zero_word).

Lemma words_ok_extend nr rounds w i r x :
  words_ok nr rounds w -> i = length w -> (i < 4 * (nr + 1))%nat -> wf_state r ->
  col_word r (Z.of_nat (i `mod` 4)) = x ->
  (forall c, 0 <= c < 4 -> c ≠ Z.of_nat (i `mod` 4) ->
     col_word r c = col_word (rounds !!! (i / 4)%nat) c) ->
  words_ok nr (<[(i / 4)%nat := r]> rounds) (w ++ [x]).
Proof.
  intros (Hl & Hwf & Hw & Hz) Hi Hlt Hr Hx Hother.
  assert (i / 4 < length rounds)%nat as Hidx by (rewrite Hl; apply Nat.Div0.div_lt_upper_bound; lia).
  assert (forall k, k ≠ i -> word_at (<[(i / 4)%nat := r]> rounds) k = word_at rounds k) as Hne.
  { intros k Hk. unfold word_at. destruct (decide (i / 4 = k / 4)%nat) as [E|E].
    - rewrite <- E, list_lookup_total_insert_eq by done. rewrite E in Hother |- *. rewrite Hother; [done|lia_mod|].
      intros C. apply Hk. lia_mod.
    - by rewrite list_lookup_total_insert_ne. }
  split_and!.
  - by rewrite length_insert.
  - by apply Forall_insert.
  - intros k. rewrite length_app. simpl. intros Hk. destruct (decide (k = i)) as [->|Hki].
    + rewrite lookup_total_app_r by lia. rewrite Hi, Nat.sub_diag. simpl. rewrite <- Hi.
      unfold word_at. by rewrite list_lookup_total_insert_eq.
    + rewrite Hne, Hw by lia. by rewrite lookup_total_app_l by lia.
  - intros k. rewrite length_app. simpl. intros Hk. rewrite Hne by lia. apply Hz. lia.
Qed.

Lemma words_ok_lookup nr rounds w i :
  words_ok nr rounds w -> (i < length w)%nat -> word_at rounds i = w !!! i.
Proof. intros (_ & _ & Hw & _). apply Hw. Qed.

Lemma words_ok_zero nr rounds w i :
  words_ok nr rounds w -> i = length w -> (i < 4 * (nr + 1))%nat ->
  col_word (rounds !!! (i / 4)%nat) (Z.of_nat (i `mod` 4)) = zero_word.
Proof. intros (_ & _ & _ & Hz) -> Hi. apply Hz. lia. Qed.

(** ** Loading the key *)

Definition load_word (s : AES_state) (b0 b1 b2 b3 c : Z) : AES_state :=
  LoadByte (LoadByte (LoadByte (LoadByte s b0 0 c) b1 1 c) b2 2 c) b3 3 c.

Lemma col_word_load_word s b0 b1 b2 b3 c :
  0 <= c < 4 -> is_byte b0 -> is_byte b1 -> is_byte b2 -> is_byte b3 ->
  col_word s c = zero_word -> col_word (load_word s b0 b1 b2 b3 c) c = [b0; b1; b2; b3].
Proof.
  intros Hc H0 H1 H2 H3 Hz. unfold col_word, zero_word in *. injection Hz as E0 E1 E2 E3.
  apply byte_of_zero in E0, E1, E2, E3. unfold load_word. rewrite !lane_LoadByte by lia.
  rewrite E0, E1, E2, E3.
  enum_Z c 0 4; eval_eqb; by rewrite !lane_set_false, !lane_set_zero, !byte_of_bits_of.
Qed.

Lemma col_word_load_word_ne s b0 b1 b2 b3 c c' :
  0 <= c < 4 -> 0 <= c' < 4 -> c' ≠ c ->
  col_word (load_word s b0 b1 b2 b3 c) c' = col_word s c'.
Proof.
  intros Hc Hc' Hne. unfold col_word, load_word. rewrite !lane_LoadByte by lia.
  enum_Z c 0 4; enum_Z c' 0 4; try done; eval_eqb; by rewrite !lane_set_false.
Qed.

Definition load_word_at (rounds : list AES_state) (key : list Z) (i : nat) : list AES_state :=
  <[(i / 4)%nat := load_word (rounds !!! (i / 4)%nat)
      (key !!! (4 * i)%nat) (key !!! (4 * i + 1)%nat) (key !!! (4 * i + 2)%nat)
      (key !!! (4 * i + 3)%nat) (Z.of_nat (i `mod` 4))]> rounds.

Lemma alter_insert_total {A} `{Inhabited A} (f : A -> A) i (l : list A) :
  alter f i l = <[i := f (l !!! i)]> l.
Proof. revert i. induction l as [|x l IH]; intros [|i]; simpl; try done. f_equal. apply IH. Qed.

Lemma AES_setup_load_words rounds key nk :
  AES_setup_load rounds key nk = foldl (λ rounds i, load_word_at rounds key i) rounds (seq 0 nk).
Proof.
  unfold AES_setup_load. generalize (seq 0 nk) as l. intros l. revert rounds.
  induction l as [|i l IH]; intros rounds; [done|]. simpl. rewrite IH. f_equal.
  rewrite !list_alter_alter_eq, alter_insert_total. unfold load_word_at, load_word. simpl.
  by rewrite Nat.add_0_r.
Qed.

Lemma key_word_bytes key i :
  (4 * i + 4 <= length key)%nat ->
  key_word key i = [key !!! (4 * i)%nat; key !!! (4 * i + 1)%nat; key !!! (4 * i + 2)%nat;
                    key !!! (4 * i + 3)%nat].
Proof.
  intros Hi. unfold key_word. apply list_eq_same_length with 4%nat.
  - done.
  - rewrite length_take, length_drop. lia.
  - intros k x y Hk Hx Hy. rewrite lookup_take_lt, lookup_drop in Hx by lia.
    apply list_lookup_total_correct in Hx. subst x.
    destruct k as [|[|[|[|k]]]]; simplify_eq/=; [by rewrite Nat.add_0_r|done..].
Qed.

Lemma bytes_lookup_total l i : bytes l -> is_byte (l !!! i).
Proof.
  intros Hl. rewrite list_lookup_total_alt. destruct (l !! i) as [x|] eqn:E; simpl; [|done].
  by apply (Forall_lookup_1 _ _ _ _ Hl E).
Qed.

Lemma words_ok_init nr : words_ok nr (replicate (nr + 1) AES_state_zero) [].
Proof.
  split_and!.
  - by rewrite length_replicate.
  - apply Forall_replicate, wf_state_zero.
  - simpl. lia.
  - intros k _. unfold word_at. replace (replicate (nr + 1) AES_state_zero !!! (k / 4)%nat)
      with AES_state_zero.
    + unfold col_word, zero_word. cbn. by rewrite !Z.testbit_0_l.
    + symmetry. rewrite list_lookup_total_alt.
      destruct (replicate _ _ !! _) as [x|] eqn:E; [|done]. by apply lookup_replicate in E as [-> _].
Qed.

Lemma load_words_ok nr nk key rounds :
  bytes key -> (4 * nk <= length key)%nat -> (nk <= 4 * (nr + 1))%nat ->
  words_ok nr rounds [] ->
  words_ok nr (foldl (λ rounds i, load_word_at rounds key i) rounds (seq 0 nk))
           (map (key_word key) (seq 0 nk)).
Proof.
  intros Hkey Hlen Hnk Hok. induction nk as [|nk IH]; [done|].
  rewrite seq_S, foldl_app, map_app. simpl.
  specialize (IH ltac:(lia) ltac:(lia)). revert IH.
  set (rs := foldl _ _ _). intros IH. unfold load_word_at.
  assert (nk = length (map (key_word key) (seq 0 nk))) as Hi
    by (rewrite length_map, length_seq; lia).
  apply words_ok_extend; [exact IH|exact Hi|lia|apply wf_LoadByte| |].
  - rewrite key_word_bytes by lia.
    apply col_word_load_word; auto using bytes_lookup_total; [lia_mod|].
    by apply (words_ok_zero nr _ _ nk) in IH; [|done|lia].
  - intros c Hc Hne. apply col_word_load_word_ne; [lia_mod|done..].
Qed.

(** ** The expansion loop *)

Lemma xor_bytes_comm a b : xor_bytes a b = xor_bytes b a.
Proof.
  unfold xor_bytes. revert b. induction a as [|x a IH]; intros [|y b]; simpl; auto.
  by rewrite IH, Z.lxor_comm.
Qed.

Lemma div_pred_mod_0 i nk :
  (0 < nk <= i)%nat -> (i `mod` nk = 0)%nat -> S ((i - 1) / nk) = (i / nk)%nat.
Proof.
  intros Hnk Hm. pose proof (Nat.div_mod_eq i nk) as E. rewrite Hm, Nat.add_0_r in E.
  set (q := (i / nk)%nat) in *. destruct q as [|q]; [lia|]. f_equal. symmetry.
  apply Nat.div_unique with (nk - 1)%nat; nia.
Qed.

Lemma div_pred_mod_ne i nk :
  (0 < nk <= i)%nat -> (i `mod` nk ≠ 0)%nat -> ((i - 1) / nk = i / nk)%nat.
Proof.
  intros Hnk Hm. pose proof (Nat.div_mod_eq i nk). pose proof (Nat.mod_upper_bound i nk).
  symmetry. apply Nat.div_unique with (i `mod` nk - 1)%nat; lia.
Qed.

(** What the loop maintains at its head, for the words [w] produced so far. *)
Record setup_inv (nk nr : nat) (v : setup_vars) (w : list (list Z)) : Prop := {
  si_words : words_ok nr (sv_rounds v) w;
  si_len : (nk <= length w)%nat;
  si_col_wf : wf_state (sv_column v);
  si_col : col_word (sv_column v) 0 = w !!! (length w - 1)%nat;
  si_rcon_wf : wf_state (sv_rcon v);
  si_rcon : col_word (sv_rcon v) 0 = [rcon ((length w - 1) / nk); 0; 0; 0];
  si_pos : sv_pos v = (length w `mod` nk)%nat;
}.

Lemma xtime_rcon_word k : map xtime [rcon k; 0; 0; 0] = [rcon (S k); 0; 0; 0].
Proof. reflexivity. Qed.

Lemma setup_transform_ok nk column rc i w :
  (0 < nk <= i)%nat -> i = length w -> wf_state column -> wf_state rc ->
  col_word column 0 = w !!! (i - 1)%nat ->
  col_word rc 0 = [rcon ((i - 1) / nk); 0; 0; 0] ->
  let '(column', rc') := AES_setup_transform nk column rc (i `mod` nk) in
  col_word column' 0 = key_expansion_temp nk w i ∧ wf_state rc' ∧
  col_word rc' 0 = [rcon (i / nk); 0; 0; 0].
Proof.
  intros Hnk Hi Hcwf Hrwf Hcol Hrcon. unfold AES_setup_transform, key_expansion_temp.
  destruct (decide (i `mod` nk = 0)%nat) as [Hm|Hm];
    [|rewrite (div_pred_mod_ne i nk) in Hrcon by done; case_decide].
  - rewrite <- (div_pred_mod_0 i nk) by done. split_and!.
    + rewrite col_word_KeySetupTransform, col_word_SubBytes, Hrcon by by apply wf_SubBytes.
      rewrite <- Hcol. unfold rcon_word. simpl. by rewrite Nat.sub_0_r.
    + by apply wf_MultX.
    + by rewrite col_word_MultX, Hrcon, xtime_rcon_word.
  - by rewrite col_word_SubBytes, Hcol.
  - done.
Qed.

Lemma setup_step_inv nk nr v w :
  (0 < nk)%nat -> (length w < 4 * (nr + 1))%nat -> setup_inv nk nr v w ->
  setup_inv nk nr (AES_setup_step nk v (length w)) (key_expansion_step nk w (length w)).
Proof.
  intros Hnk Hlt [Hw Hlen Hcwf Hcol Hrwf Hrcon Hpos]. destruct v as [rounds column rc pos].
  cbn [sv_rounds sv_column sv_rcon sv_pos] in *. subst pos. remember (length w) as i eqn:Hi.
  pose proof (setup_transform_ok nk column rc i w ltac:(lia) Hi Hcwf Hrwf Hcol Hrcon) as Ht.
  unfold AES_setup_step. destruct (AES_setup_transform _ _ _ _) as [column' rc'].
  destruct Ht as (Hc' & Hrwf' & Hr').
  match goal with |- context [KeySetupColumnMix ?a ?b ?c ?d ?e] =>
    destruct (KeySetupColumnMix a b c d e) as [s' r'] eqn:Hmix end.
  assert (0 <= Z.of_nat (i `mod` 4) < 4) as Hc1 by lia_mod.
  assert (0 <= Z.of_nat ((i - nk) `mod` 4) < 4) as Hc2 by lia_mod.
  pose proof (col_word_ColumnMix_s _ _ _ _ _ _ _ Hc1 Hc2 Hmix) as Hs. rewrite Hc' in Hs.
  change (col_word _ (Z.of_nat ((i - nk) `mod` 4))) with (word_at rounds (i - nk)) in Hs.
  rewrite (words_ok_lookup nr rounds w), xor_bytes_comm in Hs by (done || lia).
  destruct (wf_ColumnMix _ _ _ _ _ _ _ Hmix) as [Hwfs Hwfr].
  unfold key_expansion_step. constructor; rewrite ?length_app; simpl; rewrite <- ?Hi, ?Nat.add_1_r.
  - apply words_ok_extend; try done.
    + rewrite (col_word_ColumnMix_r _ _ _ _ _ _ _ Hc1 Hc2 Hmix); [done|].
      by apply (words_ok_zero nr rounds w).
    + intros c Hc Hne. apply (col_word_ColumnMix_r_ne _ _ _ _ _ _ _ Hc1 Hc2 Hmix); done.
  - lia.
  - done.
  - rewrite lookup_total_app_r by lia. rewrite <- Hi. simpl.
    by rewrite Nat.sub_0_r, Nat.sub_diag.
  - done.
  - simpl. by rewrite Nat.sub_0_r.
  - by rewrite succ_mod.
Qed.

Lemma length_key_expansion_step nk w i : length (key_expansion_step nk w i) = S (length w).
Proof. unfold key_expansion_step. rewrite length_app. simpl. lia. Qed.

Lemma setup_loop_inv nk nr n v w :
  (0 < nk)%nat -> (length w + n <= 4 * (nr + 1))%nat -> setup_inv nk nr v w ->
  let w' := foldl (key_expansion_step nk) w (seq (length w) n) in
  setup_inv nk nr (foldl (AES_setup_step nk) v (seq (length w) n)) w' ∧
  length w' = (length w + n)%nat.
Proof.
  intros Hnk. revert v w. induction n as [|n IH]; intros v w Hle Hinv; simpl; [auto with lia|].
  assert (length w < 4 * (nr + 1))%nat as Hlt by lia.
  pose proof (setup_step_inv nk nr v w Hnk Hlt Hinv) as Hinv'.
  specialize (IH (AES_setup_step nk v (length w)) (key_expansion_step nk w (length w))).
  rewrite length_key_expansion_step in IH.
  destruct (IH ltac:(lia) Hinv') as [H1 H2]. split; [done|]. rewrite H2. lia.
Qed.

Lemma AES_setup_words_ok key nk nr :
  bytes key -> length key = (4 * nk)%nat -> (0 < nk <= 4 * (nr + 1))%nat ->
  words_ok nr (AES_setup key nk nr) (key_expansion key nk nr) ∧
  length (key_expansion key nk nr) = (4 * (nr + 1))%nat.
Proof.
  intros Hkey Hlen Hnk. unfold AES_setup, key_expansion. rewrite AES_setup_load_words.
  pose proof (load_words_ok nr nk key _ Hkey ltac:(lia) ltac:(lia) (words_ok_init nr)) as Hw.
  set (rs := foldl _ _ _) in *. set (w := map (key_word key) _) in *.
  assert (length w = nk) as Hlw by (unfold w; by rewrite length_map, length_seq).
  assert (0 <= Z.of_nat ((nk - 1) `mod` 4) < 4) as Hc by lia_mod.
  assert (setup_inv nk nr (SetupVars rs (GetOneColumn (rs !!! ((nk - 1) / 4)%nat)
            (Z.of_nat ((nk - 1) `mod` 4))) (Slices 1 0 0 0 0 0 0 0) 0) w) as Hinv.
  { constructor; simpl; rewrite ?Hlw.
    - done.
    - lia.
    - apply wf_GetOneColumn; [lia|]. apply wf_rounds. by destruct Hw as (_ & ? & _).
    - rewrite col_word_GetOneColumn by done. apply (words_ok_lookup nr rs w); [done|lia].
    - unfold wf_state. cbn. split_Forall; done.
    - rewrite Nat.div_small by lia. reflexivity.
    - by rewrite Nat.Div0.mod_same. }
  destruct (setup_loop_inv nk nr (4 * (nr + 1) - nk) _ w ltac:(lia) ltac:(lia) Hinv) as [H1 H2].
  rewrite Hlw in H1, H2. split; [by destruct H1|]. rewrite H2. lia.
Qed.

(** Sixteen bytes of a round key: the four words, in order. *)
Lemma SaveBytes_words rounds k :
  SaveBytes (rounds !!! k) =
  word_at rounds (4 * k) ++ word_at rounds (4 * k + 1) ++
  word_at rounds (4 * k + 2) ++ word_at rounds (4 * k + 3).
Proof.
  rewrite SaveBytes_lanes. unfold word_at.
  assert (forall r, (r < 4)%nat -> ((4 * k + r) / 4 = k ∧ (4 * k + r) `mod` 4 = r)%nat) as E.
  { intros r Hr. split.
    - symmetry. apply Nat.div_unique with r; lia.
    - symmetry. apply Nat.mod_unique with k; lia. }
  destruct (E 0%nat ltac:(lia)) as [E0 E0']. destruct (E 1%nat ltac:(lia)) as [-> ->].
  destruct (E 2%nat ltac:(lia)) as [-> ->]. destruct (E 3%nat ltac:(lia)) as [-> ->].
  rewrite Nat.add_0_r in E0, E0'. rewrite E0, E0'. reflexivity.
Qed.

Lemma round_key_words (w : list (list Z)) k :
  (4 * k + 4 <= length w)%nat ->
  round_key w k = w !!! (4 * k)%nat ++ w !!! (4 * k + 1)%nat ++ w !!! (4 * k + 2)%nat ++
                  w !!! (4 * k + 3)%nat.
Proof.
  intros Hk. unfold round_key.
  assert (take 4 (drop (4 * k) w) = [w !!! (4 * k)%nat; w !!! (4 * k + 1)%nat;
            w !!! (4 * k + 2)%nat; w !!! (4 * k + 3)%nat]) as ->.
  { apply list_eq_same_length with 4%nat; [done|rewrite length_take, length_drop; lia|].
    intros i x y Hi Hx Hy. rewrite lookup_take_lt, lookup_drop in Hx by lia.
    apply list_lookup_total_correct in Hx. subst x.
    destruct i as [|[|[|[|i]]]]; simplify_eq/=; [by rewrite Nat.add_0_r|done..]. }
  simpl. by rewrite app_nil_r.
Qed.

Lemma AES_setup_round_key key nk nr k :
  bytes key -> length key = (4 * nk)%nat -> (0 < nk <= 4 * (nr + 1))%nat -> (k <= nr)%nat ->
  SaveBytes (AES_setup key nk nr !!! k) = round_key (key_expansion key nk nr) k.
Proof.
  intros Hkey Hlen Hnk Hk. destruct (AES_setup_words_ok key nk nr Hkey Hlen Hnk) as [Hw Hl].
  rewrite SaveBytes_words, round_key_words by lia.
  by rewrite !(words_ok_lookup nr _ _ _ Hw) by lia.
Qed.

(** ** Functional correctness *)

(** C13: For every key of [4 nk] bytes, [AES_setup] followed by [AES_encrypt]
    computes the FIPS-197 cipher under the FIPS-197 key expansion of that key, and
    followed by [AES_decrypt] the FIPS-197 inverse cipher. *)
Theorem ctaes_implements_fips197 key nk nr block :
  bytes key -> length key = (4 * nk)%nat -> (0 < nk <= 4 * (nr + 1))%nat -> (0 < nr)%nat ->
  is_block block ->
  AES_encrypt (AES_setup key nk nr) nr block =
    cipher (round_key (key_expansion key nk nr)) nr block ∧
  AES_decrypt (AES_setup key nk nr) nr block =
    inv_cipher (round_key (key_expansion key nk nr)) nr block.
Proof.
  intros Hk Hl Hnk Hnr Hb.
  assert (Forall wf_state (AES_setup key nk nr)) as Hwf
    by by destruct (AES_setup_words_ok key nk nr Hk Hl Hnk) as [(_ & ? & _) _].
  assert (forall k, (k <= nr)%nat ->
    round_bytes (AES_setup key nk nr) k = round_key (key_expansion key nk nr) k) as Erk
    by (intros; by apply AES_setup_round_key).
  rewrite AES_encrypt_cipher, AES_decrypt_inv_cipher by done.
  split; [by apply cipher_ext|by apply inv_cipher_ext].
Qed.

Lemma ctaes_implements_fips197_witness :
  AES_encrypt (AES_setup (seqZ 0 32) 8 14) 14 (seqZ 16 16) =
    cipher (round_key (key_expansion (seqZ 0 32) 8 14)) 14 (seqZ 16 16) ∧
  AES_decrypt (AES_setup (seqZ 0 32) 8 14) 14 (seqZ 16 16) =
    inv_cipher (round_key (key_expansion (seqZ 0 32) 8 14)) 14 (seqZ 16 16).
Proof.
  apply (ctaes_implements_fips197 (seqZ 0 32) 8 14 (seqZ 16 16)).
  - apply Forall_seqZ. unfold in_uint. lia.
  - reflexivity.
  - lia.
  - lia.
  - split; [reflexivity|]. apply Forall_seqZ. unfold in_uint. lia.
Defined.

(** The bit-sliced S-box circuit computes, on all 16 state bytes at once, the
    FIPS-197 S-box (GF(2^8) inversion and affine map) and its inverse. *)
Theorem SubBytes_is_sbox s :
  SaveBytes (SubBytes s false) = map sbox (SaveBytes s) ∧
  SaveBytes (SubBytes s true) = map inv_sbox (SaveBytes s).
Proof. split; [apply SaveBytes_SubBytes|apply SaveBytes_InvSubBytes]. Qed.

Lemma AES_blocks_roundtrip f g n data :
  (forall b, is_block b -> is_block (f b) ∧ g (f b) = b) ->
  bytes data -> length data = (16 * n)%nat -> AES_blocks g n (AES_blocks f n data) = data.
Proof.
  intros Hfg. revert data. induction n as [|n IH]; intros data Hd Hl; simpl.
  { by apply nil_length_inv in Hl. }
  assert (is_block (take 16 data)) as Hb by (split; [rewrite length_take; lia|by apply Forall_take]).
  destruct (Hfg _ Hb) as [[Hfl _] Hg].
  rewrite take_app_length', drop_app_length', Hg, IH by
    (done || by apply Forall_drop || (rewrite length_drop; lia)).
  apply take_drop.
Qed.

(** With any key of the right size, the multi-block decryption entry points
    undo the encryption ones on every sequence of whole blocks. *)
Theorem AES_decrypt_encrypt_blocks key n data :
  bytes key -> bytes data -> length data = (16 * n)%nat ->
  (length key = 16%nat ->
   AES128_decrypt (AES128_init key) n (AES128_encrypt (AES128_init key) n data) = data) ∧
  (length key = 24%nat ->
   AES192_decrypt (AES192_init key) n (AES192_encrypt (AES192_init key) n data) = data) ∧
  (length key = 32%nat ->
   AES256_decrypt (AES256_init key) n (AES256_encrypt (AES256_init key) n data) = data).
Proof.
  intros Hk Hd Hl.
  assert (forall nk nr, length key = (4 * nk)%nat -> (0 < nk <= 4 * (nr + 1))%nat -> (0 < nr)%nat ->
    AES_blocks (AES_decrypt (AES_setup key nk nr) nr) n
      (AES_blocks (AES_encrypt (AES_setup key nk nr) nr) n data) = data) as E.
  { intros nk nr Hlk Hnk Hnr. apply AES_blocks_roundtrip; [|done..]. intros b Hb.
    assert (Forall wf_state (AES_setup key nk nr)) as Hwf
      by by destruct (AES_setup_words_ok key nk nr Hk Hlk Hnk) as [(_ & ? & _) _].
    split; [apply is_block_AES_encrypt|by apply AES_decrypt_encrypt]. }
  split_and!; intros; [apply (E 4%nat 10%nat)|apply (E 6%nat 12%nat)|apply (E 8%nat 14%nat)]; lia.
Qed.

Lemma AES_decrypt_encrypt_blocks_witness :
  AES256_decrypt (AES256_init (seqZ 0 32)) 2 (AES256_encrypt (AES256_init (seqZ 0 32)) 2 (seqZ 7 32))
  = seqZ 7 32.
Proof.
  apply (AES_decrypt_encrypt_blocks (seqZ 0 32) 2 (seqZ 7 32)).
  - apply Forall_seqZ. unfold in_uint. lia.
  - apply Forall_seqZ. unfold in_uint. lia.
  - reflexivity.
  - reflexivity.
Defined.
