(* ===== verification/AesCbc.v ===== *)
(** * CBC mode and the wallet's crypter

    src/crypto/aes.cpp wraps the block cipher of ctaes into CBC mode with
    PKCS#7-style padding, and src/wallet/crypter.cpp encrypts wallet secrets with
    it.  CBC is verified against the interface [BlockCipher]; AES-256 and AES-128
    are instances of it. *)

From S2P Require Import Prelude AesSpec Ctaes CtaesProofs CtaesKeySchedule.

(** ** What CBC needs from a block cipher *)

Class BlockCipher (Encrypt Decrypt : list Z -> list Z) : Prop := {
  bc_block : forall b, is_block b -> is_block (Encrypt b);
  bc_dec_block : forall b, is_block b -> is_block (Decrypt b);
  bc_inverse : forall b, is_block b -> Decrypt (Encrypt b) = b;
}.

(** ** CBC mode (aes.cpp) *)

Definition AES_BLOCKSIZE : nat := 16.

Section CBC.
Context (cipher : list Z -> list Z).

(** [while (written + AES_BLOCKSIZE <= size)]: [n] whole blocks remain in [data].
    Returns the bytes written and the final value of [mixed]. *)
Fixpoint CBCEncrypt_loop (n : nat) (mixed data : list Z) : list Z * list Z :=
  match n with
  | O => ([], mixed)
  | S n =>
      let mixed := xor_bytes mixed (take AES_BLOCKSIZE data) in
      let out := cipher mixed in
      let '(rest, mixed) := CBCEncrypt_loop n out (drop AES_BLOCKSIZE data) in
      (out ++ rest, mixed)
  end.

(** The two [mixed[i] ^= ...] loops of the padding branch, and its last block. *)
Definition CBCEncrypt_pad (mixed tail : list Z) : list Z :=
  let padsize := length tail in
  let fill := (AES_BLOCKSIZE - padsize)%nat in
  cipher (xor_bytes mixed (tail ++ replicate fill (Z.of_nat fill))).

(** [data] is [None] for a null pointer, otherwise the [size] bytes it points to;
    [out_null] says whether [out] is null.  The result is the bytes written to
    [out]; the return value is their number. *)
Definition CBCEncrypt (iv : list Z) (data : option (list Z)) (pad out_null : bool) : list Z :=
  match data with
  | None => []
  | Some data =>
      let size := length data in
      let padsize := (size `mod` AES_BLOCKSIZE)%nat in
      if bool_decide (size = 0)%nat || out_null then []
      else if negb pad && negb (bool_decide (padsize = 0)%nat) then []
      else
        let n := (size / AES_BLOCKSIZE)%nat in
        let '(out, mixed) := CBCEncrypt_loop n iv data in
        if pad then out ++ CBCEncrypt_pad mixed (drop (n * AES_BLOCKSIZE) data) else out
  end.

(** [while (written != size)]: decrypt block by block. *)
Fixpoint CBCDecrypt_loop (n : nat) (prev data : list Z) : list Z :=
  match n with
  | O => []
  | S n =>
      let block := take AES_BLOCKSIZE data in
      xor_bytes (cipher block) prev ++ CBCDecrypt_loop n block (drop AES_BLOCKSIZE data)
  end.

(** [for (i = AES_BLOCKSIZE; i != 0; i--) fail |= (i > 16 - padsize) & ( *out-- != padsize)]:
    [out] starts at the last byte, so iteration [i] looks at the [16 - i]-th byte
    from the end. *)
Definition CBCDecrypt_padding_fails (out : list Z) (padsize : Z) : bool :=
  existsb (λ i, bool_decide (Z.of_nat i > 16 - padsize) &&
                negb (Z.eqb (out !!! (length out - 1 - (AES_BLOCKSIZE - i))%nat) padsize))
          (rev (seq 1 16)).

(** The bytes written to [out] and the return value. *)
Definition CBCDecrypt (iv : list Z) (data : option (list Z)) (pad out_null : bool) : list Z * Z :=
  match data with
  | None => ([], 0)
  | Some data =>
      let size := length data in
      if bool_decide (size = 0)%nat || out_null then ([], 0)
      else if negb (bool_decide (size `mod` AES_BLOCKSIZE = 0)%nat) then ([], 0)
      else
        let out := CBCDecrypt_loop (size / AES_BLOCKSIZE) iv data in
        let written := Z.of_nat size in
        if pad then
          let padsize := out !!! (length out - 1)%nat in
          let fail := Z.eqb padsize 0 || (16 <? padsize) in
          let padsize := if fail then 0 else padsize in
          let fail := fail || CBCDecrypt_padding_fails out padsize in
          (out, if fail then 0 else written - padsize)
        else (out, written)
  end.
End CBC.

(** ** The cipher classes (aes.cpp) *)

Definition AES128Encrypt (key : list Z) : list Z -> list Z := AES128_encrypt (AES128_init key) 1.
Definition AES128Decrypt (key : list Z) : list Z -> list Z := AES128_decrypt (AES128_init key) 1.
Definition AES256Encrypt (key : list Z) : list Z -> list Z := AES256_encrypt (AES256_init key) 1.
Definition AES256Decrypt (key : list Z) : list Z -> list Z := AES256_decrypt (AES256_init key) 1.

Definition AES128CBCEncrypt (key iv : list Z) (pad : bool) (data : option (list Z)) (out_null : bool) :=
  CBCEncrypt (AES128Encrypt key) iv data pad out_null.
Definition AES128CBCDecrypt (key iv : list Z) (pad : bool) (data : option (list Z)) (out_null : bool) :=
  CBCDecrypt (AES128Decrypt key) iv data pad out_null.
Definition AES256CBCEncrypt (key iv : list Z) (pad : bool) (data : option (list Z)) (out_null : bool) :=
  CBCEncrypt (AES256Encrypt key) iv data pad out_null.
Definition AES256CBCDecrypt (key iv : list Z) (pad : bool) (data : option (list Z)) (out_null : bool) :=
  CBCDecrypt (AES256Decrypt key) iv data pad out_null.

(** ** Lemmas on CBC *)

Lemma is_block_take data : (16 <= length data)%nat -> bytes data -> is_block (take AES_BLOCKSIZE data).
Proof.
  intros Hl Hd. split; [rewrite length_take; unfold AES_BLOCKSIZE; lia|by apply Forall_take].
Qed.

Lemma take_block_app (c r : list Z) : is_block c -> take AES_BLOCKSIZE (c ++ r) = c.
Proof. intros [Hl _]. by rewrite take_app_length' by done. Qed.

Lemma drop_block_app (c r : list Z) : is_block c -> drop AES_BLOCKSIZE (c ++ r) = r.
Proof. intros [Hl _]. by rewrite drop_app_length' by done. Qed.

Lemma xor_bytes_cancel_l m b : is_block m -> is_block b -> xor_bytes (xor_bytes m b) m = b.
Proof.
  intros [Hm _] [Hb _]. rewrite (xor_bytes_comm m b). apply xor_bytes_inv. lia.
Qed.

Section cbc_proofs.
Context (enc dec : list Z -> list Z) `{HBC : !BlockCipher enc dec}.

(** Decrypting what [n] iterations produced gives the first [16 n] bytes back,
    and leaves the chaining value where encryption left it. *)
Lemma CBC_loop_roundtrip n mixed data k rest :
  is_block mixed -> bytes data -> (16 * n <= length data)%nat ->
  let '(out, mixed') := CBCEncrypt_loop enc n mixed data in
  length out = (16 * n)%nat ∧ is_block mixed' ∧
  CBCDecrypt_loop dec (n + k) mixed (out ++ rest) =
  take (16 * n) data ++ CBCDecrypt_loop dec k mixed' rest.
Proof.
  revert mixed data. induction n as [|n IH]; intros mixed data Hm Hd Hl; [done|].
  cbn [CBCEncrypt_loop Nat.add CBCDecrypt_loop].
  assert (is_block (take AES_BLOCKSIZE data)) as Hb by (apply is_block_take; [lia|done]).
  assert (is_block (xor_bytes mixed (take AES_BLOCKSIZE data))) as Hx by by apply is_block_xor.
  set (c := enc _). assert (is_block c) as Hc by by apply (bc_block (Decrypt := dec)).
  specialize (IH c (drop AES_BLOCKSIZE data) Hc). destruct (CBCEncrypt_loop enc n c _) as [out mixed'].
  destruct IH as (Hlen & Hm' & E); [by apply Forall_drop|rewrite length_drop; unfold AES_BLOCKSIZE; lia|].
  rewrite <- app_assoc, take_block_app, drop_block_app, E by done.
  unfold c at 2. rewrite (bc_inverse (Encrypt := enc)), xor_bytes_cancel_l by done.
  split_and!; [rewrite length_app, Hlen; destruct Hc; lia|done|].
  rewrite app_assoc. f_equal. replace (16 * S n)%nat with (AES_BLOCKSIZE + 16 * n)%nat by (unfold AES_BLOCKSIZE; lia).
  by rewrite take_take_drop.
Qed.

Lemma CBCDecrypt_loop_bytes n prev data :
  is_block prev -> bytes data -> (16 * n <= length data)%nat ->
  length (CBCDecrypt_loop dec n prev data) = (16 * n)%nat ∧ bytes (CBCDecrypt_loop dec n prev data).
Proof.
  revert prev data. induction n as [|n IH]; intros prev data Hp Hd Hl; [by split; [|apply Forall_nil]|].
  cbn [CBCDecrypt_loop].
  assert (is_block (take AES_BLOCKSIZE data)) as Hb by (apply is_block_take; [lia|done]).
  assert (is_block (xor_bytes (dec (take AES_BLOCKSIZE data)) prev)) as [Hxl Hxb].
  { apply is_block_xor; [|done]. by apply (bc_dec_block (Encrypt := enc)). }
  destruct (IH (take AES_BLOCKSIZE data) (drop AES_BLOCKSIZE data)) as [IHl IHb].
  - done.
  - by apply Forall_drop.
  - rewrite length_drop. unfold AES_BLOCKSIZE. lia.
  - split; [rewrite length_app, Hxl, IHl; lia|by apply Forall_app].
Qed.

Lemma length_CBCEncrypt_pad mixed tail :
  is_block mixed -> bytes tail -> (length tail < 16)%nat ->
  is_block (CBCEncrypt_pad enc mixed tail) ∧
  dec (CBCEncrypt_pad enc mixed tail) =
  xor_bytes mixed (tail ++ replicate (16 - length tail) (Z.of_nat (16 - length tail))).
Proof.
  intros Hm Ht Hl. unfold CBCEncrypt_pad. set (b := xor_bytes _ _).
  assert (is_block b) as Hb.
  { apply is_block_xor; [done|]. split.
    - rewrite length_app, length_replicate. unfold AES_BLOCKSIZE. lia.
    - apply Forall_app. split; [done|]. apply Forall_replicate. unfold in_uint, AES_BLOCKSIZE. lia. }
  split; [by apply (bc_block (Decrypt := dec))|by apply bc_inverse].
Qed.
End cbc_proofs.

Section cbc_bytes.
Context (enc dec : list Z -> list Z) `{HBC : !BlockCipher enc dec}.

Lemma CBCEncrypt_loop_bytes n mixed data :
  is_block mixed -> bytes data -> (16 * n <= length data)%nat ->
  bytes (CBCEncrypt_loop enc n mixed data).1 ∧ is_block (CBCEncrypt_loop enc n mixed data).2.
Proof.
  revert mixed data. induction n as [|n IH]; intros mixed data Hm Hd Hl.
  { split; [apply Forall_nil; done|done]. }
  cbn [CBCEncrypt_loop]. set (c := enc _).
  assert (is_block c) as Hc.
  { apply (bc_block (Decrypt := dec)), is_block_xor; [done|]. apply is_block_take; [lia|done]. }
  destruct (IH c (drop AES_BLOCKSIZE data)) as [IHb IHm]; [done|by apply Forall_drop| |].
  { rewrite length_drop. unfold AES_BLOCKSIZE. lia. }
  destruct (CBCEncrypt_loop enc n c _) as [out m]. cbn [fst snd] in *.
  split; [|done]. apply Forall_app. split; [by destruct Hc|done].
Qed.

Lemma CBCEncrypt_bytes iv data pad :
  is_block iv -> bytes data -> bytes (CBCEncrypt enc iv (Some data) pad false).
Proof.
  intros Hiv Hd. unfold CBCEncrypt. change AES_BLOCKSIZE with 16%nat.
  pose proof (Nat.div_mod_eq (length data) 16) as Hdm.
  pose proof (Nat.mod_upper_bound (length data) 16) as Hub.
  destruct (bool_decide _ || false); [by apply Forall_nil|].
  destruct (negb pad && _); [by apply Forall_nil|].
  destruct (CBCEncrypt_loop_bytes (length data / 16) iv data) as [Hb Hm]; [done|done|lia|].
  destruct (CBCEncrypt_loop enc _ iv data) as [out mixed]. cbn [fst snd] in *.
  destruct pad; [|done]. apply Forall_app. split; [done|].
  destruct (length_CBCEncrypt_pad enc dec mixed (drop (length data / 16 * 16) data)) as [[_ ?] _].
  - done.
  - by apply Forall_drop.
  - rewrite length_drop. lia.
  - done.
Qed.
End cbc_bytes.

(** ** Padding *)

(** [p] bytes of value [p], 1 <= p <= 16. *)
Definition padding (p : nat) : list Z := replicate p (Z.of_nat p).

Lemma padding_ok_iff out (p : nat) :
  (p <= 16 <= length out)%nat ->
  CBCDecrypt_padding_fails out (Z.of_nat p) = false <->
  drop (length out - p) out = padding p.
Proof.
  intros Hp. unfold CBCDecrypt_padding_fails, padding. split.
  - intros Hf. apply list_eq_same_length with p.
    + by rewrite length_replicate.
    + rewrite length_drop. lia.
    + intros i x y Hi Hx Hy. rewrite lookup_drop in Hx. apply lookup_replicate in Hy as [-> _].
      apply list_lookup_total_correct in Hx. subst x.
      destruct (Z.eqb_spec (out !!! (length out - p + i)%nat) (Z.of_nat p)) as [|Hne]; [done|].
      assert (existsb (λ i, bool_decide (Z.of_nat i > 16 - Z.of_nat p) &&
        negb (Z.eqb (out !!! (length out - 1 - (AES_BLOCKSIZE - i))%nat) (Z.of_nat p))) (rev (seq 1 16)) = true)
        as C; [|congruence].
      apply existsb_exists. exists (16 - p + i + 1)%nat. split.
      { apply in_rev. rewrite rev_involutive. apply in_seq. lia. }
      rewrite bool_decide_eq_true_2 by lia. unfold AES_BLOCKSIZE.
      replace (length out - 1 - (16 - (16 - p + i + 1)))%nat with (length out - p + i)%nat by lia.
      by destruct (Z.eqb_spec (out !!! (length out - p + i)%nat) (Z.of_nat p)).
  - intros Hd. apply not_true_iff_false. intros Hf. apply existsb_exists in Hf as (i & Hi & Hf).
    apply in_rev in Hi. apply in_seq in Hi. apply andb_true_iff in Hf as [Hgt Hne].
    apply bool_decide_eq_true in Hgt. apply negb_true_iff, Z.eqb_neq in Hne. apply Hne.
    assert (drop (length out - p) out !! (p - 1 - (16 - i))%nat = Some (Z.of_nat p)) as E.
    { rewrite Hd. apply lookup_replicate. lia. }
    rewrite lookup_drop in E. unfold AES_BLOCKSIZE. rewrite <- (list_lookup_total_correct _ _ _ E).
    f_equal. lia.
Qed.

Lemma last_byte_padding (msg : list Z) (p : nat) :
  (0 < p)%nat -> (msg ++ padding p) !!! (length (msg ++ padding p) - 1)%nat = Z.of_nat p.
Proof.
  intros Hp. unfold padding. rewrite length_app, length_replicate.
  rewrite lookup_total_app_r by lia. apply list_lookup_total_correct, lookup_replicate. lia.
Qed.

Section cbc_theorems.
Context (enc dec : list Z -> list Z) `{HBC : !BlockCipher enc dec}.

(** The ciphertext and its raw decryption (before the padding check). *)
Lemma CBCEncrypt_decrypts iv data pad :
  is_block iv -> bytes data -> data ≠ [] ->
  pad = true ∨ (length data `mod` 16 = 0)%nat ->
  let p := (16 - length data `mod` 16)%nat in
  let ct := CBCEncrypt enc iv (Some data) pad false in
  length ct = (if pad then length data + p else length data)%nat ∧
  CBCDecrypt_loop dec (length ct / 16) iv ct = if pad then data ++ padding p else data.
Proof.
  intros Hiv Hd Hne Hpad p ct.
  set (n := (length data / 16)%nat). pose proof (Nat.div_mod_eq (length data) 16) as Hdm.
  pose proof (Nat.mod_upper_bound (length data) 16) as Hub. fold n in Hdm.
  assert (length data ≠ 0)%nat as Hl0 by (by intros ?%nil_length_inv).
  assert (16 * n <= length data)%nat as Hn by lia.
  unfold ct, CBCEncrypt. rewrite (bool_decide_eq_false_2 (length data = 0)%nat) by done.
  cbn [orb]. change AES_BLOCKSIZE with 16%nat.
  replace (negb pad && negb (bool_decide (length data `mod` 16 = 0)%nat)) with false
    by (destruct Hpad as [->| ->]; [done|by destruct pad]).
  fold n. destruct pad.
  - pose proof (CBC_loop_roundtrip enc dec n iv data 1
      (CBCEncrypt_pad enc (CBCEncrypt_loop enc n iv data).2 (drop (n * 16) data)) Hiv Hd Hn) as Hlp.
    destruct (CBCEncrypt_loop enc n iv data) as [out mixed]. destruct Hlp as (Hol & Hm & E).
    assert (length (drop (n * 16) data) = length data `mod` 16)%nat as Htl by (rewrite length_drop; lia).
    destruct (length_CBCEncrypt_pad enc dec mixed (drop (n * 16) data)) as [[Hcl _] Hcd];
      [done|by apply Forall_drop|lia|]. cbn [snd] in *.
    split; [rewrite length_app, Hol, Hcl; lia|].
    replace (length _ / 16)%nat with (n + 1)%nat
      by (rewrite length_app, Hol, Hcl; apply Nat.div_unique with 0%nat; lia).
    rewrite E. cbn [CBCDecrypt_loop]. unfold AES_BLOCKSIZE. rewrite (take_ge (CBCEncrypt_pad _ _ _)) by lia.
    rewrite Hcd, Htl. rewrite xor_bytes_cancel_l, app_nil_r, app_assoc.
    + rewrite (Nat.mul_comm n 16), take_drop. done.
    + done.
    + split; [rewrite length_app, length_replicate; lia|]. apply Forall_app. split; [by apply Forall_drop|].
      apply Forall_replicate. unfold in_uint. lia.
  - destruct Hpad as [|Hz]; [done|].
    pose proof (CBC_loop_roundtrip enc dec n iv data 0 [] Hiv Hd Hn) as Hlp.
    destruct (CBCEncrypt_loop enc n iv data) as [out mixed]. destruct Hlp as (Hol & Hm & E).
    split; [lia|]. rewrite Hol, (Nat.mul_comm 16), Nat.div_mul by lia.
    rewrite Nat.add_0_r, !app_nil_r in E. rewrite E. apply take_ge. lia.
Qed.

(** The exact behaviour of the padding check on the decrypted bytes [P]. *)
Lemma CBCDecrypt_valid iv data msg p :
  is_block iv -> bytes data -> data ≠ [] -> (length data `mod` 16 = 0)%nat ->
  (1 <= p <= 16)%nat ->
  CBCDecrypt_loop dec (length data / 16) iv data = msg ++ padding p ->
  CBCDecrypt dec iv (Some data) true false = (msg ++ padding p, Z.of_nat (length msg)).
Proof.
  intros Hiv Hd Hne Hmod Hp HP.
  assert (length data ≠ 0)%nat as Hl0 by (by intros ?%nil_length_inv).
  pose proof (Nat.div_mod_eq (length data) 16) as Hdm.
  destruct (CBCDecrypt_loop_bytes enc dec (length data / 16) iv data) as [HPl HPb]; [done|done|lia|].
  unfold CBCDecrypt. change AES_BLOCKSIZE with 16%nat. rewrite (bool_decide_eq_false_2 (length data = 0)%nat) by done.
  rewrite bool_decide_eq_true_2 by done. cbn [orb negb]. rewrite HP in *.
  rewrite last_byte_padding by lia.
  replace (Z.of_nat p =? 0) with false by lia. replace (16 <? Z.of_nat p) with false by lia.
  cbn [orb]. rewrite length_app in HPl. unfold padding in HPl. rewrite length_replicate in HPl.
  replace (CBCDecrypt_padding_fails _ _) with false.
  { f_equal. lia. }
  symmetry. apply padding_ok_iff; [unfold padding; rewrite length_app, length_replicate; lia|].
  unfold padding. rewrite length_app, length_replicate. by rewrite drop_app_length' by lia.
Qed.

Lemma CBCDecrypt_invalid iv data :
  is_block iv -> bytes data -> data ≠ [] -> (length data `mod` 16 = 0)%nat ->
  let P := CBCDecrypt_loop dec (length data / 16) iv data in
  (forall msg p, (1 <= p <= 16)%nat -> P ≠ msg ++ padding p) ->
  CBCDecrypt dec iv (Some data) true false = (P, 0).
Proof.
  intros Hiv Hd Hne Hmod P Hbad.
  assert (length data ≠ 0)%nat as Hl0 by (by intros ?%nil_length_inv).
  pose proof (Nat.div_mod_eq (length data) 16) as Hdm.
  destruct (CBCDecrypt_loop_bytes enc dec (length data / 16) iv data) as [HPl HPb]; [done|done|lia|].
  unfold CBCDecrypt. change AES_BLOCKSIZE with 16%nat. rewrite (bool_decide_eq_false_2 (length data = 0)%nat) by done.
  rewrite bool_decide_eq_true_2 by done. cbn [orb negb]. fold P. fold P in HPl, HPb. f_equal.
  pose proof (bytes_lookup_total P (length P - 1) HPb) as Hlast.
  set (q := P !!! (length P - 1)%nat) in *. unfold in_uint in Hlast.
  destruct (Z.eqb_spec q 0); [done|]. destruct (Z.ltb_spec 16 q); [done|]. cbn [orb].
  destruct (CBCDecrypt_padding_fails P q) eqn:Hf; [done|exfalso].
  replace q with (Z.of_nat (Z.to_nat q)) in Hf by lia.
  apply padding_ok_iff in Hf; [|lia].
  apply (Hbad (take (length P - Z.to_nat q) P) (Z.to_nat q)); [lia|].
  by rewrite <- Hf, take_drop.
Qed.
End cbc_theorems.

(** ** AES as a block cipher *)

Lemma wf_AES_setup key nk nr :
  bytes key -> length key = (4 * nk)%nat -> (0 < nk <= 4 * (nr + 1))%nat ->
  Forall wf_state (AES_setup key nk nr).
Proof. intros. by destruct (AES_setup_words_ok key nk nr) as [(_ & ? & _) _]. Qed.

Lemma AES_block_cipher key nk nr :
  bytes key -> length key = (4 * nk)%nat -> (0 < nk <= 4 * (nr + 1))%nat -> (0 < nr)%nat ->
  BlockCipher (AES_blocks (AES_encrypt (AES_setup key nk nr) nr) 1)
              (AES_blocks (AES_decrypt (AES_setup key nk nr) nr) 1).
Proof.
  intros Hk Hl Hnk Hnr. pose proof (wf_AES_setup key nk nr Hk Hl Hnk) as Hwf.
  assert (forall f b, is_block b -> AES_blocks f 1 b = f b) as E.
  { intros f b [Hb _]. simpl. by rewrite app_nil_r, take_ge by lia. }
  split.
  - intros b Hb. rewrite E by done. apply is_block_AES_encrypt.
  - intros b Hb. rewrite E by done. apply is_block_SaveBytes.
  - intros b Hb. rewrite (E _ b), E by (done || apply is_block_AES_encrypt).
    by apply AES_decrypt_encrypt.
Qed.

(** Instance search compares the two ciphers by name only. *)
#[export] Typeclasses Opaque AES128Encrypt AES128Decrypt AES256Encrypt AES256Decrypt.
#[local] Opaque AES_setup AES_encrypt AES_decrypt.

(** A key of the right size, as an instance argument of the ciphers. *)
Class AesKey (size : nat) (key : list Z) : Prop := {
  aes_key_length : length key = size;
  aes_key_bytes : bytes key;
}.

#[export] Instance AES256_block_cipher key :
  AesKey 32 key -> BlockCipher (AES256Encrypt key) (AES256Decrypt key).
Proof.
  intros [Hl Hk]. unfold AES256Encrypt, AES256Decrypt, AES256_encrypt, AES256_decrypt, AES256_init.
  apply (AES_block_cipher key 8 14); [exact Hk|exact Hl|lia..].
Qed.

#[export] Instance AES128_block_cipher key :
  AesKey 16 key -> BlockCipher (AES128Encrypt key) (AES128Decrypt key).
Proof.
  intros [Hl Hk]. unfold AES128Encrypt, AES128Decrypt, AES128_encrypt, AES128_decrypt, AES128_init.
  apply (AES_block_cipher key 4 10); [exact Hk|exact Hl|lia..].
Qed.

(** ** Properties of CBC mode *)

(** CBC decryption of a CBC encryption returns the message, with padding for
    every non-empty message and without padding for every message of whole
    blocks; the ciphertext is the message plus 1 to 16 bytes (so it fits the
    buffer of [size + AES_BLOCKSIZE] bytes callers allocate). *)
Theorem CBC_roundtrip enc dec iv data pad :
  BlockCipher enc dec -> is_block iv -> bytes data -> data ≠ [] ->
  pad = true ∨ (length data `mod` 16 = 0)%nat ->
  let ct := CBCEncrypt enc iv (Some data) pad false in
  let '(out, written) := CBCDecrypt dec iv (Some ct) pad false in
  written = Z.of_nat (length data) ∧ take (length data) out = data ∧
  (length data <= length ct <= length data + 16)%nat ∧ (length ct `mod` 16 = 0)%nat.
Proof.
  intros HBC Hiv Hd Hne Hpad ct.
  destruct (CBCEncrypt_decrypts enc dec iv data pad Hiv Hd Hne Hpad) as [Hlen Hdec].
  fold ct in Hlen, Hdec.
  pose proof (Nat.div_mod_eq (length data) 16) as Hdm.
  pose proof (Nat.mod_upper_bound (length data) 16) as Hub.
  assert (length data ≠ 0)%nat as Hl0 by (by intros ?%nil_length_inv).
  assert (length ct `mod` 16 = 0)%nat as Hmod.
  { rewrite Hlen. destruct pad; [|by destruct Hpad].
    symmetry. apply Nat.mod_unique with (length data / 16 + 1)%nat; lia. }
  assert (ct ≠ []) as Hct by (intros E; rewrite E in Hlen; destruct pad; simpl in Hlen; lia).
  destruct pad.
  - rewrite (CBCDecrypt_valid enc dec iv ct data (16 - length data `mod` 16)%nat);
      [|done|by apply (CBCEncrypt_bytes enc dec)|done|done|lia|done].
    split_and!; [done|by rewrite take_app_length|lia..|done].
  - unfold CBCDecrypt. change AES_BLOCKSIZE with 16%nat.
    rewrite (bool_decide_eq_false_2 (length ct = 0)%nat) by lia.
    rewrite bool_decide_eq_true_2 by done. cbn [orb negb]. rewrite Hdec.
    split_and!; [lia|by rewrite take_ge by lia|lia..|done].
Qed.

Lemma CBC_roundtrip_witness :
  let '(out, written) :=
    AES256CBCDecrypt (seqZ 0 32) (seqZ 0 16) true
      (Some (AES256CBCEncrypt (seqZ 0 32) (seqZ 0 16) true (Some (seqZ 5 20)) false)) false in
  written = 20 ∧ take 20 out = seqZ 5 20.
Proof.
  assert (forall i n, 0 <= i -> i + n <= 256 -> bytes (seqZ i n)) as Hb
    by (intros; apply Forall_seqZ; unfold in_uint; lia).
  pose proof (CBC_roundtrip (AES256Encrypt (seqZ 0 32)) (AES256Decrypt (seqZ 0 32)) (seqZ 0 16)
    (seqZ 5 20) true) as H.
  unfold AES256CBCDecrypt, AES256CBCEncrypt. cbv zeta in H.
  destruct (CBCDecrypt _ _ _ _ _) as [out written].
  destruct H as (H1 & H2 & _).
  - apply AES256_block_cipher. split; [reflexivity|by apply Hb].
  - split; [reflexivity|by apply Hb].
  - by apply Hb.
  - discriminate.
  - by left.
  - exact (conj H1 H2).
Defined.

(** The padding check of [CBCDecrypt] is exact.  It returns the length of the
    message when the decrypted bytes are a message followed by p bytes of value p
    with 1 <= p <= 16, and 0 when they are not of this form. *)
Theorem CBCDecrypt_padding_exact enc dec iv data :
  BlockCipher enc dec -> is_block iv -> bytes data -> data ≠ [] -> (length data `mod` 16 = 0)%nat ->
  let P := CBCDecrypt_loop dec (length data / 16) iv data in
  (forall msg p, (1 <= p <= 16)%nat -> P = msg ++ padding p ->
     CBCDecrypt dec iv (Some data) true false = (P, Z.of_nat (length msg))) ∧
  ((forall msg p, (1 <= p <= 16)%nat -> P ≠ msg ++ padding p) ->
     CBCDecrypt dec iv (Some data) true false = (P, 0)).
Proof.
  intros HBC Hiv Hd Hne Hmod P. split.
  - intros msg p Hp E. rewrite E. by apply (CBCDecrypt_valid enc dec).
  - by apply (CBCDecrypt_invalid enc dec).
Qed.

Lemma CBCDecrypt_padding_exact_witness :
  CBCDecrypt (AES256Decrypt (seqZ 0 32)) (seqZ 0 16) (Some (seqZ 0 16)) true false =
  (CBCDecrypt_loop (AES256Decrypt (seqZ 0 32)) 1 (seqZ 0 16) (seqZ 0 16), 0).
Proof.
  assert (forall i n, 0 <= i -> i + n <= 256 -> bytes (seqZ i n)) as Hb
    by (intros; apply Forall_seqZ; unfold in_uint; lia).
  apply (CBCDecrypt_padding_exact (AES256Encrypt (seqZ 0 32)) (AES256Decrypt (seqZ 0 32))
           (seqZ 0 16) (seqZ 0 16)).
  - apply AES256_block_cipher. split; [reflexivity|by apply Hb].
  - split; [reflexivity|by apply Hb].
  - by apply Hb.
  - discriminate.
  - reflexivity.
  - intros msg p Hp E. apply (f_equal (λ l, l !!! (length l - 1)%nat)) in E.
    rewrite last_byte_padding in E by lia.
    match type of E with ?a = _ =>
      let v := eval vm_compute in a in replace a with v in E by (vm_compute; reflexivity) end. lia.
Defined.

(** ** The wallet crypter (src/wallet/crypter.cpp) *)

Module Crypter.

Definition WALLET_CRYPTO_KEY_SIZE : nat := 32.
Definition WALLET_CRYPTO_IV_SIZE : nat := 16.

Record CCrypter := mkCCrypter {
  vchKey : list Z;
  vchIV : list Z;
  fKeySet : bool;
}.

(** The default constructor: zero-filled buffers, no key. *)
Definition CCrypter_new : CCrypter :=
  mkCCrypter (replicate WALLET_CRYPTO_KEY_SIZE 0) (replicate WALLET_CRYPTO_IV_SIZE 0) false.

(** [memory_cleanse] zeroes the buffers. *)
Definition CleanKey (c : CCrypter) : CCrypter :=
  mkCCrypter (replicate (length (vchKey c)) 0) (replicate (length (vchIV c)) 0) false.

Definition SetKey (c : CCrypter) (chNewKey chNewIV : list Z) : bool * CCrypter :=
  if negb (bool_decide (length chNewKey = WALLET_CRYPTO_KEY_SIZE)) ||
     negb (bool_decide (length chNewIV = WALLET_CRYPTO_IV_SIZE))
  then (false, c)
  else (true, mkCCrypter chNewKey chNewIV true).

(** Writing [w] to the start of a buffer. *)
Definition blit (w buf : list Z) : list Z := w ++ drop (length w) buf.

(** [vchCiphertext] is the caller's vector; the result carries its new value. *)
Definition Encrypt (c : CCrypter) (vchPlaintext vchCiphertext : list Z) : bool * list Z :=
  if negb (fKeySet c) then (false, vchCiphertext)
  else
    let buf := resize (length vchPlaintext + AES_BLOCKSIZE) 0 vchCiphertext in
    let w := AES256CBCEncrypt (vchKey c) (vchIV c) true (Some vchPlaintext) false in
    let nLen := length w in
    let buf := blit w buf in
    if bool_decide (nLen < length vchPlaintext)%nat then (false, buf)
    else (true, resize nLen 0 buf).

Definition Decrypt (c : CCrypter) (vchCiphertext vchPlaintext : list Z) : bool * list Z :=
  if negb (fKeySet c) then (false, vchPlaintext)
  else
    let buf := resize (length vchCiphertext) 0 vchPlaintext in
    let '(w, nLen) := AES256CBCDecrypt (vchKey c) (vchIV c) true (Some vchCiphertext) false in
    let buf := blit w buf in
    if Z.eqb nLen 0 then (false, buf)
    else (true, resize (Z.to_nat nLen) 0 buf).

(** [nIV] is a uint256: its first 16 bytes are the IV. *)
Definition EncryptSecret (vMasterKey vchPlaintext nIV vchCiphertext : list Z) : bool * list Z :=
  let '(ok, c) := SetKey CCrypter_new vMasterKey (take WALLET_CRYPTO_IV_SIZE nIV) in
  if negb ok then (false, vchCiphertext) else Encrypt c vchPlaintext vchCiphertext.

Definition DecryptSecret (vMasterKey vchCiphertext nIV vchPlaintext : list Z) : bool * list Z :=
  let '(ok, c) := SetKey CCrypter_new vMasterKey (take WALLET_CRYPTO_IV_SIZE nIV) in
  if negb ok then (false, vchPlaintext) else Decrypt c vchCiphertext vchPlaintext.

(** The stand-alone routines on strings. *)
Definition EncryptAES256 (sKey sPlaintext sIV sCiphertext : list Z) : bool * list Z :=
  if negb (bool_decide (length sKey = 32)%nat) || negb (bool_decide (length sIV = AES_BLOCKSIZE))
  then (false, sCiphertext)
  else
    let buf := resize (length sPlaintext + AES_BLOCKSIZE) 0 sCiphertext in
    let w := AES256CBCEncrypt sKey sIV true (Some sPlaintext) false in
    let nLen := length w in
    let buf := blit w buf in
    if bool_decide (nLen < length sPlaintext)%nat then (false, buf)
    else (true, resize nLen 0 buf).

Definition DecryptAES256 (sKey sCiphertext sIV sPlaintext : list Z) : bool * list Z :=
  if negb (bool_decide (length sKey = 32)%nat) || negb (bool_decide (length sIV = AES_BLOCKSIZE))
  then (false, sPlaintext)
  else
    let buf := resize (length sCiphertext) 0 sPlaintext in
    let '(w, nLen) := AES256CBCDecrypt sKey sIV true (Some sCiphertext) false in
    let buf := blit w buf in
    if Z.eqb nLen 0 then (false, buf)
    else (true, resize (Z.to_nat nLen) 0 buf).

Lemma resize_blit (w buf : list Z) n : (n <= length w)%nat -> resize n 0 (blit w buf) = take n w.
Proof. intros. unfold blit. rewrite resize_le by (rewrite length_app; lia). by rewrite take_app_le. Qed.

Lemma Encrypt_Decrypt_keyed key iv plain buf1 buf2 :
  AesKey 32 key -> is_block iv -> bytes plain -> plain ≠ [] ->
  exists ct, Encrypt (mkCCrypter key iv true) plain buf1 = (true, ct) ∧
             Decrypt (mkCCrypter key iv true) ct buf2 = (true, plain) ∧
             (length plain < length ct <= length plain + 16)%nat.
Proof.
  intros Hk Hiv Hp Hne.
  destruct (CBCEncrypt_decrypts (AES256Encrypt key) (AES256Decrypt key) iv plain true) as [Hlen Hdec];
    [done|done|done|by left|].
  pose proof (Nat.div_mod_eq (length plain) 16) as Hdm.
  pose proof (Nat.mod_upper_bound (length plain) 16) as Hub.
  set (ct := CBCEncrypt _ _ _ _ _) in *. exists ct.
  assert (length plain ≠ 0)%nat as Hl0 by (by intros ?%nil_length_inv).
  split_and!; [| |lia..].
  - unfold Encrypt, AES256CBCEncrypt. cbn [fKeySet vchKey vchIV negb]. fold ct.
    rewrite bool_decide_eq_false_2 by lia. by rewrite resize_blit, take_ge.
  - unfold Decrypt, AES256CBCDecrypt. cbn [fKeySet vchKey vchIV negb].
    rewrite (CBCDecrypt_valid (AES256Encrypt key) (AES256Decrypt key) iv ct plain
               (16 - length plain `mod` 16)%nat);
      [|done|by apply (CBCEncrypt_bytes (AES256Encrypt key) (AES256Decrypt key))
       |intros E; rewrite E in Hlen; simpl in Hlen; lia
       |rewrite Hlen; symmetry; apply Nat.mod_unique with (length plain / 16 + 1)%nat; lia|lia|done].
    replace (Z.of_nat (length plain) =? 0) with false by lia.
    rewrite Nat2Z.id, resize_blit by (rewrite length_app; lia). by rewrite take_app_length.
Qed.

(** A non-empty secret encrypted by the wallet under a 32-byte master key is
    recovered by [DecryptSecret] (and by the stand-alone AES-256 routines),
    whatever the output vectors held before; the ciphertext stays within the
    [size + AES_BLOCKSIZE] bytes allocated for it. *)
Theorem secret_roundtrip key nIV plain buf1 buf2 :
  AesKey 32 key -> bytes nIV -> length nIV = 32%nat -> bytes plain -> plain ≠ [] ->
  (exists ct, EncryptSecret key plain nIV buf1 = (true, ct) ∧
              DecryptSecret key ct nIV buf2 = (true, plain) ∧
              (length plain < length ct <= length plain + 16)%nat) ∧
  (exists ct, EncryptAES256 key plain (take 16 nIV) buf1 = (true, ct) ∧
              DecryptAES256 key ct (take 16 nIV) buf2 = (true, plain)).
Proof.
  intros Hk HIV HIVl Hp Hne.
  assert (is_block (take 16 nIV)) as Hiv by (split; [rewrite length_take; lia|by apply Forall_take]).
  destruct (Encrypt_Decrypt_keyed key (take 16 nIV) plain buf1 buf2) as (ct & E & D & Hl); [done..|].
  pose proof Hk as [Hkl _]. pose proof Hiv as [Hivl _]. split; exists ct.
  - unfold EncryptSecret, DecryptSecret, SetKey, WALLET_CRYPTO_KEY_SIZE, WALLET_CRYPTO_IV_SIZE.
    rewrite !bool_decide_eq_true_2 by done. done.
  - unfold EncryptAES256, DecryptAES256. change AES_BLOCKSIZE with 16%nat.
    rewrite !bool_decide_eq_true_2 by done. done.
Qed.

Lemma secret_roundtrip_witness :
  exists ct, EncryptSecret (seqZ 0 32) (seqZ 9 32) (seqZ 64 32) [] = (true, ct) ∧
             DecryptSecret (seqZ 0 32) ct (seqZ 64 32) [1; 2] = (true, seqZ 9 32) ∧
             (length (seqZ 9 32) < length ct <= length (seqZ 9 32) + 16)%nat.
Proof.
  assert (forall i n, 0 <= i -> i + n <= 256 -> bytes (seqZ i n)) as Hb
    by (intros; apply Forall_seqZ; unfold in_uint; lia).
  apply (secret_roundtrip (seqZ 0 32) (seqZ 64 32) (seqZ 9 32) [] [1; 2]).
  - split; [reflexivity|by apply Hb].
  - by apply Hb.
  - reflexivity.
  - by apply Hb.
  - discriminate.
Defined.
End Crypter.
