(* ===== verification/Bytes.v ===== *)
(** * Byte order: crypto/common.h

    The little- and big-endian loads and stores of [src/src/crypto/common.h],
    their round trips, and [CountBits]. *)

From S2P Require Import Prelude.

(** The [n] bytes of [x], least significant first, and the integer they denote. *)
Fixpoint le_bytes (n : nat) (x : Z) : list Z :=
  match n with
  | O => []
  | S n => u8 x :: le_bytes n (x >> 8)
  end.

Fixpoint le_value (b : list Z) : Z :=
  match b with
  | [] => 0
  | x :: b => x + 256 * le_value b
  end.

(** memcpy from an object of a standard width to a buffer and back, with the
    byte order fixed by htole/htobe and le/be-toh. *)
Definition WriteLE16 (x : Z) : list Z := le_bytes 2 x.
Definition WriteLE32 (x : Z) : list Z := le_bytes 4 x.
Definition WriteLE64 (x : Z) : list Z := le_bytes 8 x.
Definition WriteBE16 (x : Z) : list Z := rev (le_bytes 2 x).
Definition WriteBE32 (x : Z) : list Z := rev (le_bytes 4 x).
Definition WriteBE64 (x : Z) : list Z := rev (le_bytes 8 x).
Definition ReadLE16 (ptr : list Z) : Z := le_value (take 2 ptr).
Definition ReadLE32 (ptr : list Z) : Z := le_value (take 4 ptr).
Definition ReadLE64 (ptr : list Z) : Z := le_value (take 8 ptr).
Definition ReadBE16 (ptr : list Z) : Z := le_value (rev (take 2 ptr)).
Definition ReadBE32 (ptr : list Z) : Z := le_value (rev (take 4 ptr)).
Definition ReadBE64 (ptr : list Z) : Z := le_value (rev (take 8 ptr)).

(** [CountBits], the portable loop; 64 rounds empty any 64-bit word. *)
Fixpoint CountBits_loop (fuel : nat) (x ret : Z) : Z :=
  match fuel with
  | O => ret
  | S fuel => if x =? 0 then ret else CountBits_loop fuel (x >> 1) (ret + 1)
  end.
Definition CountBits (x : Z) : Z := CountBits_loop 64 x 0.

(** ** Round trips *)

Lemma length_le_bytes n x : length (le_bytes n x) = n.
Proof. revert x. induction n; naive_solver. Qed.

Lemma le_bytes_app (n m : nat) x : le_bytes (n + m) x = le_bytes n x ++ le_bytes m (x >> (8 * n)).
Proof.
  revert x. induction n as [|n IH]; intros x; [by rewrite Z.shiftr_0_r|]. cbn [le_bytes Nat.add app].
  rewrite IH, Z.shiftr_shiftr by lia. replace (8 + 8 * n) with (8 * S n) by lia. done.
Qed.

Lemma le_bytes_bytes n x : Forall is_byte (le_bytes n x).
Proof. revert x. induction n; simpl; constructor; auto with uints. Qed.

Lemma le_value_le_bytes n x : le_value (le_bytes n x) = uint (8 * n) x.
Proof.
  revert x. induction n as [|n IH]; intros x; simpl.
  - unfold uint. by rewrite Z.mod_1_r.
  - rewrite IH. unfold uint. rewrite Z.shiftr_div_pow2 by lia.
    replace (2 ^ (8 * S n)) with (2 ^ 8 * 2 ^ (8 * n))
      by (rewrite <- Z.pow_add_r by lia; f_equal; lia).
    rewrite Z.rem_mul_r by lia. lia.
Qed.

Lemma le_value_range b : Forall is_byte b -> in_uint (8 * length b) (le_value b).
Proof.
  induction 1 as [|x b Hx Hb IH]; simpl; [unfold in_uint; simpl; lia|].
  unfold in_uint in *.
  replace (2 ^ (8 * S (length b))) with (2 ^ 8 * 2 ^ (8 * length b))
    by (rewrite <- Z.pow_add_r by lia; f_equal; lia).
  lia.
Qed.

Lemma le_bytes_le_value b : Forall is_byte b -> le_bytes (length b) (le_value b) = b.
Proof.
  induction 1 as [|x b Hx Hb IH]; simpl; [done|].
  unfold in_uint in Hx. f_equal.
  - unfold uint. lia_mod.
  - etransitivity; [|exact IH]. f_equal. rewrite Z.shiftr_div_pow2 by lia. lia_mod.
Qed.

Lemma le_value_le_bytes_small (n : nat) x : in_uint (8 * n) x -> le_value (le_bytes n x) = x.
Proof. intros. by rewrite le_value_le_bytes, uint_small. Qed.

#[export] Hint Resolve le_bytes_bytes : uints.
#[export] Hint Rewrite length_le_bytes : bits.

Lemma CountBits_loop_spec (fuel : nat) x ret :
  0 <= x < 2 ^ fuel ->
  CountBits_loop fuel x ret = ret + (if x =? 0 then 0 else Z.log2 x + 1).
Proof.
  revert x ret. induction fuel as [|fuel IH]; intros x ret Hx.
  - assert (x = 0) as -> by (simpl in Hx; lia). simpl. lia.
  - simpl. destruct (Z.eqb_spec x 0); [lia|].
    replace (2 ^ S fuel) with (2 * 2 ^ fuel) in Hx
      by (rewrite <- Z.pow_succ_r by lia; f_equal; lia).
    rewrite IH by (rewrite Z.shiftr_div_pow2 by lia; lia_mod).
    destruct (Z.eqb_spec (x >> 1) 0) as [H1|H1].
    + rewrite Z.shiftr_div_pow2 in H1 by lia. assert (x = 1) as -> by lia_mod. simpl. lia.
    + rewrite Z.log2_shiftr by lia.
      assert (1 <= Z.log2 x); [|lia].
      apply Z.log2_le_pow2; [lia|]. rewrite Z.shiftr_div_pow2 in H1 by lia. lia_mod.
Qed.
