(* ===== verification/Streams.v ===== *)
(** * In-memory streams: streams.h

    The interfaces [IStream] and [OStream] state what the serialization templates
    of [serialize.h] need from a stream: [read] hands out the next pending bytes or
    throws, [write] appends bytes.  [CDataStream], [VectorReader],
    [CVectorWriter] and [CSizeComputer] are modelled from the code and shown to
    implement the interfaces.  [BitStreamReader] and [BitStreamWriter] are in
    [BitStream.v]. *)

From S2P Require Import Prelude.

Definition MAX_SIZE : Z := 0x02000000.

(** ** Interfaces *)

Class IStream (S : Type) := {
  is_read : Z -> action S (list Z);
  (** the bytes not yet read, and the well-formedness of the stream object *)
  is_pending : S -> list Z;
  is_ok : S -> Prop;
}.

Class IStreamLaws (S : Type) `{IStream S} : Prop := {
  is_read_ok (n : Z) (s : S) :
    is_ok s -> 0 <= n <= MAX_SIZE -> n <= length (is_pending s) ->
    exists s', is_read n s = (Ok (take (Z.to_nat n) (is_pending s)), s') /\
      is_ok s' /\ is_pending s' = drop (Z.to_nat n) (is_pending s);
  is_read_end (n : Z) (s : S) :
    is_ok s -> 0 <= n <= MAX_SIZE -> length (is_pending s) < n ->
    exists msg s', is_read n s = (Throw msg, s');
  is_ok_bytes (s : S) : is_ok s -> Forall is_byte (is_pending s);
}.

Class OStream (S : Type) := {
  os_write : list Z -> action S unit;
  (** the second stream is the first with the bytes appended, and whether they fit *)
  os_appends : list Z -> S -> S -> Prop;
  os_room : list Z -> S -> Prop;
}.

Class OStreamLaws (S : Type) `{OStream S} : Prop := {
  os_write_ok (b : list Z) (s : S) :
    os_room b s -> exists s', os_write b s = (Ok tt, s') /\ os_appends b s s';
  os_room_app (b c : list Z) (s : S) :
    os_room (b ++ c) s -> os_room b s /\ forall s', os_appends b s s' -> os_room c s';
  os_appends_nil (s : S) : os_room [] s -> os_appends [] s s;
  os_appends_app (b c : list Z) (s s1 s2 : S) :
    os_room (b ++ c) s -> os_appends b s s1 -> os_appends c s1 s2 -> os_appends (b ++ c) s s2;
}.

(** ** What a piece of code reads or writes, for any stream *)

(** [m] applied to a stream that starts with [b] returns [a] and consumes [b]. *)
Definition parses {S} `{IStream S} {A} (m : action S A) (b : list Z) (a : A) : Prop :=
  forall s rest, is_ok s -> is_pending s = b ++ rest ->
    exists s', m s = (Ok a, s') /\ is_ok s' /\ is_pending s' = rest.

(** Whenever [m] returns, it has consumed bytes related to the result by [Q]. *)
Definition consumes {S} `{IStream S} {A} (m : action S A) (Q : A -> list Z -> Prop) : Prop :=
  forall s a s', is_ok s -> m s = (Ok a, s') ->
    is_ok s' /\ exists b, is_pending s = b ++ is_pending s' /\ Q a b.

(** [m] throws nothing but the exceptions in [P]. *)
Definition throws_only {S A} (m : action S A) (P : string -> Prop) : Prop :=
  forall s msg s', m s = (Throw msg, s') -> P msg.

Lemma throws_only_bind {S A B} (m : action S A) (f : A -> action S B) P :
  throws_only m P -> (forall a, throws_only (f a) P) -> throws_only (m ≫= f) P.
Proof.
  intros Hm Hf s msg s' E. unfold mbind, action_bind in E.
  destruct (m s) as [[a|e] s1] eqn:E1; [by eapply Hf|]. simplify_eq. by eapply Hm.
Qed.

Lemma throws_only_throw {S A} msg (P : string -> Prop) : P msg -> throws_only (throw (S:=S) (A:=A) msg) P.
Proof. intros HP s m s' [= <- <-]. done. Qed.

Lemma throws_only_ret {S A} (a : A) P : throws_only (S:=S) (mret a) P.
Proof. intros s msg s' [=]. Qed.

(** [m] writes exactly [b]. *)
Definition emits {S} `{OStream S} (m : action S unit) (b : list Z) : Prop :=
  forall s, os_room b s -> exists s', m s = (Ok tt, s') /\ os_appends b s s'.

Section reading.
Context {S : Type} `{HS : IStream S} {HL : IStreamLaws S}.

Lemma parses_ret {A} (a : A) : parses (S:=S) (mret a) [] a.
Proof. intros s rest Hs Hp. eauto. Qed.

Lemma parses_bind {A B} (m : action S A) (f : A -> action S B) b c a x :
  parses m b a -> parses (f a) c x -> parses (m ≫= f) (b ++ c) x.
Proof.
  intros Hm Hf s rest Hs Hp. rewrite <- app_assoc in Hp.
  destruct (Hm s _ Hs Hp) as (s1 & E1 & Hs1 & Hp1).
  destruct (Hf s1 _ Hs1 Hp1) as (s2 & E2 & Hs2 & Hp2).
  exists s2. unfold mbind, action_bind. by rewrite E1.
Qed.

Lemma parses_bind_eq {A B} b c (m : action S A) (f : A -> action S B) d a x :
  d = b ++ c -> parses m b a -> parses (f a) c x -> parses (m ≫= f) d x.
Proof. intros ->. apply parses_bind. Qed.

(** A step that consumes nothing, or everything. *)
Lemma parses_bind_all {A B} (m : action S A) (f : A -> action S B) b a x :
  parses m b a -> parses (f a) [] x -> parses (m ≫= f) b x.
Proof. intros. rewrite <- (app_nil_r b). by eapply parses_bind. Qed.

Lemma parses_read (n : Z) (b : list Z) :
  length b = Z.to_nat n -> 0 <= n <= MAX_SIZE -> parses (S:=S) (is_read n) b b.
Proof.
  intros Hl Hn s rest Hs Hp.
  destruct (is_read_ok n s Hs Hn) as (s' & E & Hs' & Hp').
  { rewrite Hp, length_app. lia. }
  exists s'. rewrite E, Hp', Hp, take_app_length', drop_app_length' by lia. done.
Qed.

Lemma consumes_ret {A} (a : A) (Q : A -> list Z -> Prop) :
  Q a [] -> consumes (S:=S) (mret a) Q.
Proof. intros HQ s x s' Hs [= <- <-]. split; [done|]. by exists []. Qed.

Lemma consumes_throw {A} msg (Q : A -> list Z -> Prop) : consumes (S:=S) (throw msg) Q.
Proof. intros s x s' Hs [=]. Qed.

Lemma consumes_bind {A B} (m : action S A) (f : A -> action S B) Q R :
  consumes m Q ->
  (forall a b, Q a b -> consumes (f a) (λ x c, R x (b ++ c))) ->
  consumes (m ≫= f) R.
Proof.
  intros Hm Hf s x s' Hs E. unfold mbind, action_bind in E.
  destruct (m s) as [[a|msg] s1] eqn:E1; [|done].
  destruct (Hm s a s1 Hs E1) as (Hs1 & b & Hb & HQ).
  destruct (Hf a b HQ s1 x s' Hs1 E) as (Hs' & c & Hc & HR).
  split; [done|]. exists (b ++ c). by rewrite Hb, Hc, app_assoc.
Qed.

Lemma consumes_weaken {A} (m : action S A) (Q R : A -> list Z -> Prop) :
  consumes m Q -> (forall a b, Q a b -> R a b) -> consumes m R.
Proof. intros Hm HQR s a s' Hs E. destruct (Hm s a s' Hs E) as (? & b & ? & ?). eauto. Qed.

Lemma consumes_read (n : Z) :
  0 <= n <= MAX_SIZE ->
  consumes (S:=S) (is_read n) (λ a b, a = b /\ length b = Z.to_nat n /\ Forall is_byte b).
Proof.
  intros Hn s a s' Hs E.
  destruct (decide (n <= length (is_pending s))) as [Hl|Hl].
  - destruct (is_read_ok n s Hs Hn Hl) as (s1 & E1 & Hs1 & Hp1).
    rewrite E1 in E. injection E as <- <-. split; [done|].
    exists (take (Z.to_nat n) (is_pending s)). rewrite Hp1, take_drop.
    split_and!; [done..| |by apply Forall_take, is_ok_bytes]. rewrite length_take. lia.
  - destruct (is_read_end n s Hs Hn) as (msg & s1 & E1); [lia|]. by rewrite E1 in E.
Qed.
End reading.

Section writing.
Context {S : Type} `{HS : OStream S} {HL : OStreamLaws S}.

Lemma emits_ret : emits (S:=S) (mret tt) [].
Proof. intros s Hs. exists s. split; [done|]. by apply os_appends_nil. Qed.

Lemma emits_write b : emits (S:=S) (os_write b) b.
Proof. intros s Hs. by apply os_write_ok. Qed.

Lemma emits_bind (m1 m2 : action S unit) b c :
  emits m1 b -> emits m2 c -> emits (m1 ≫= λ _, m2) (b ++ c).
Proof.
  intros H1 H2 s Hs. destruct (os_room_app b c s Hs) as [Hb Hc].
  destruct (H1 s Hb) as (s1 & E1 & A1). destruct (H2 s1 (Hc s1 A1)) as (s2 & E2 & A2).
  exists s2. unfold mbind, action_bind. rewrite E1. split; [done|]. by apply (os_appends_app b c s s1 s2).
Qed.
End writing.

#[export] Hint Resolve parses_ret parses_bind emits_ret emits_write emits_bind : streams.

(** ** CDataStream *)

Record CDataStream := mkCDataStream {
  vch : list Z;
  nReadPos : Z; (* unsigned int *)
  nType : Z;
  nVersion : Z;
}.

Module DataStream.

Definition new (vchIn : list Z) (nTypeIn nVersionIn : Z) : CDataStream :=
  mkCDataStream vchIn 0 nTypeIn nVersionIn.

(** The bytes in [[begin(), end())]. *)
Definition contents (s : CDataStream) : list Z := drop (Z.to_nat (nReadPos s)) (vch s).
Definition size (s : CDataStream) : Z := length (vch s) - nReadPos s.
Definition empty (s : CDataStream) : bool := length (vch s) =? nReadPos s.
Definition set_buf (s : CDataStream) (v : list Z) (pos : Z) : CDataStream :=
  mkCDataStream v pos (nType s) (nVersion s).

Definition resize (s : CDataStream) (n c : Z) : CDataStream :=
  set_buf s (list.resize (Z.to_nat (n + nReadPos s)) c (vch s)) (nReadPos s).
Definition get (s : CDataStream) (pos : Z) : option Z := vch s !! Z.to_nat (pos + nReadPos s).
Definition clear (s : CDataStream) : CDataStream := set_buf s [] 0.

(** Iterators are indices into [vch]. *)
Definition vector_insert (it : Z) (b v : list Z) : list Z :=
  take (Z.to_nat it) v ++ b ++ drop (Z.to_nat it) v.
Definition vector_erase (first last : Z) (v : list Z) : list Z :=
  take (Z.to_nat first) v ++ drop (Z.to_nat last) v.
Definition memcpy_at (pos : Z) (b v : list Z) : list Z :=
  take (Z.to_nat pos) v ++ b ++ drop (Z.to_nat pos + length b) v.

Definition insert (s : CDataStream) (it : Z) (b : list Z) : CDataStream :=
  if (length b =? 0)%nat then s
  else if (it =? nReadPos s) && (u32 (length b) <=? nReadPos s) then
    (* special case for inserting at the front when there's room *)
    let pos := u32 (nReadPos s - length b) in
    set_buf s (memcpy_at pos b (vch s)) pos
  else set_buf s (vector_insert it b (vch s)) (nReadPos s).

(** The overloads that insert one character, or [n] copies of one. *)
Definition insert_char (s : CDataStream) (it x : Z) : CDataStream :=
  set_buf s (vector_insert it [x] (vch s)) (nReadPos s).
Definition insert_copies (s : CDataStream) (it n x : Z) : CDataStream :=
  set_buf s (vector_insert it (replicate (Z.to_nat n) x) (vch s)) (nReadPos s).

Definition erase1 (s : CDataStream) (it : Z) : CDataStream :=
  if it =? nReadPos s then
    let pos := u32 (nReadPos s + 1) in
    if length (vch s) <=? pos then set_buf s [] 0 else set_buf s (vch s) pos
  else set_buf s (vector_erase it (it + 1) (vch s)) (nReadPos s).

Definition erase (s : CDataStream) (first last : Z) : CDataStream :=
  if first =? nReadPos s then
    if last =? length (vch s) then set_buf s [] 0 else set_buf s (vch s) (u32 last)
  else set_buf s (vector_erase first last (vch s)) (nReadPos s).

Definition Compact (s : CDataStream) : CDataStream :=
  set_buf s (vector_erase 0 (nReadPos s) (vch s)) 0.

Definition Rewind (n : Z) (s : CDataStream) : bool * CDataStream :=
  if nReadPos s <? n then (false, s)
  else (true, set_buf s (vch s) (u32 (nReadPos s - n))).

Definition read (nSize : Z) : action CDataStream (list Z) := λ s,
  if nSize =? 0 then (Ok [], s)
  else
    let nReadPosNext := u32 (nReadPos s + nSize) in
    if length (vch s) <? nReadPosNext then (Throw "CDataStream::read(): end of data", s)
    else
      let pch := take (Z.to_nat nSize) (drop (Z.to_nat (nReadPos s)) (vch s)) in
      if nReadPosNext =? length (vch s) then (Ok pch, set_buf s [] 0)
      else (Ok pch, set_buf s (vch s) nReadPosNext).

Definition ignore (nSize : Z) : action CDataStream unit := λ s,
  if nSize <? 0 then (Throw "CDataStream::ignore(): nSize negative", s)
  else
    let nReadPosNext := u32 (nReadPos s + nSize) in
    if length (vch s) <=? nReadPosNext then
      if length (vch s) <? nReadPosNext then (Throw "CDataStream::ignore(): end of data", s)
      else (Ok tt, set_buf s [] 0)
    else (Ok tt, set_buf s (vch s) nReadPosNext).

Definition write (b : list Z) (s : CDataStream) : CDataStream :=
  set_buf s (vch s ++ b) (nReadPos s).

(** [operator+=] appends the unread bytes of [b]. *)
Definition append (s b : CDataStream) : CDataStream :=
  set_buf s (vch s ++ contents b) (nReadPos s).

(** [stream << stream]: the whole buffer, the bytes already read included. *)
Definition Serialize {S} `{OStream S} (s : CDataStream) : action S unit :=
  if (length (vch s) =? 0)%nat then mret tt else os_write (vch s).

Definition GetAndClear (s : CDataStream) (d : list Z) : list Z * CDataStream :=
  (d ++ contents s, clear s).

Fixpoint Xor_loop (n : nat) (v key : list Z) (i j : nat) : list Z :=
  match n with
  | O => v
  | S n =>
      let v := alter (λ x, x ^^ (key !!! j)) i v in
      let j := S j in
      Xor_loop n v key (S i) (if (j =? length key)%nat then O else j)
  end.

Definition Xor (key : list Z) (s : CDataStream) : CDataStream :=
  if (length key =? 0)%nat then s
  else set_buf s (Xor_loop (Z.to_nat (size s)) (vch s) key 0 0) (nReadPos s).

End DataStream.

(** ** VectorReader *)

Record VectorReader := mkVectorReader { m_data : list Z; m_pos : Z (* size_t *) }.

Module Reader.
Definition size (s : VectorReader) : Z := u64 (length (m_data s) - m_pos s).
Definition empty (s : VectorReader) : bool := length (m_data s) =? m_pos s.

Definition read (n : Z) : action VectorReader (list Z) := λ s,
  if n =? 0 then (Ok [], s)
  else
    let pos_next := u64 (m_pos s + n) in
    if length (m_data s) <? pos_next then (Throw "VectorReader::read(): end of data", s)
    else (Ok (take (Z.to_nat n) (drop (Z.to_nat (m_pos s)) (m_data s))),
          mkVectorReader (m_data s) pos_next).

Definition seek (n : Z) : action VectorReader unit := λ s,
  let s := mkVectorReader (m_data s) (u64 (m_pos s + n)) in
  if length (m_data s) <? m_pos s then (Throw "VectorReader::seek(): end of data", s)
  else (Ok tt, s).

(** The constructor: it throws when [pos] is past the end. *)
Definition new (data : list Z) (pos : Z) : result unit * VectorReader :=
  seek pos (mkVectorReader data 0).
End Reader.

(** ** CVectorWriter *)

Record CVectorWriter := mkCVectorWriter { vchData : list Z; nPos : Z (* size_t *) }.

Module Writer.
Definition new (data : list Z) (nPosIn : Z) : CVectorWriter :=
  mkCVectorWriter
    (if length data <? nPosIn then resize (Z.to_nat nPosIn) 0 data else data) nPosIn.

Definition write (pch : list Z) : action CVectorWriter unit := λ s,
  if nPos s <=? length (vchData s) then
    let nSize := Z.of_nat (length pch) in
    let nOverwrite := Z.min nSize (length (vchData s) - nPos s) in
    let v := if nOverwrite =? 0 then vchData s
             else take (Z.to_nat (nPos s)) (vchData s) ++ take (Z.to_nat nOverwrite) pch ++
                  drop (Z.to_nat (nPos s + nOverwrite)) (vchData s) in
    let v := if nOverwrite <? nSize then v ++ drop (Z.to_nat nOverwrite) pch else v in
    (Ok tt, mkCVectorWriter v (u64 (nPos s + nSize)))
  else (Throw "assertion failed", s).

Definition seek (nSize : Z) (s : CVectorWriter) : CVectorWriter :=
  let pos := u64 (nPos s + nSize) in
  mkCVectorWriter
    (if length (vchData s) <? pos then resize (Z.to_nat pos) 0 (vchData s) else vchData s) pos.

Definition size (s : CVectorWriter) : Z := u64 (length (vchData s) - nPos s).
End Writer.

(** ** CSizeComputer *)

Record CSizeComputer := mkCSizeComputer { nSize : Z (* size_t *) }.

Module SizeComputer.
Definition new : CSizeComputer := mkCSizeComputer 0.
Definition write (psz : list Z) (s : CSizeComputer) : CSizeComputer :=
  mkCSizeComputer (u64 (nSize s + length psz)).
Definition seek (n : Z) (s : CSizeComputer) : CSizeComputer :=
  mkCSizeComputer (u64 (nSize s + n)).
Definition size (s : CSizeComputer) : Z := nSize s.
End SizeComputer.

(** ** The streams implement the interfaces *)

#[export] Instance CDataStream_istream : IStream CDataStream := {|
  is_read := DataStream.read;
  is_pending := DataStream.contents;
  is_ok s := 0 <= nReadPos s <= length (vch s) /\ length (vch s) <= 2 ^ 31 /\ bytes (vch s);
|}.

#[export] Instance VectorReader_istream : IStream VectorReader := {|
  is_read := Reader.read;
  is_pending s := drop (Z.to_nat (m_pos s)) (m_data s);
  is_ok s := 0 <= m_pos s <= length (m_data s) /\ length (m_data s) < 2 ^ 63 /\ bytes (m_data s);
|}.

#[export] Instance CDataStream_ostream : OStream CDataStream := {|
  os_write b s := (Ok tt, DataStream.write b s);
  os_appends b s s' := s' = DataStream.write b s;
  os_room _ _ := True;
|}.

#[export] Instance CVectorWriter_ostream : OStream CVectorWriter := {|
  os_write := Writer.write;
  os_appends b s s' := s' = mkCVectorWriter
    (take (Z.to_nat (nPos s)) (vchData s) ++ b ++ drop (Z.to_nat (nPos s) + length b) (vchData s))
    (nPos s + length b);
  os_room b s := 0 <= nPos s <= length (vchData s) /\ nPos s + length b < 2 ^ 64;
|}.

#[export] Instance CSizeComputer_ostream : OStream CSizeComputer := {|
  os_write b s := (Ok tt, SizeComputer.write b s);
  os_appends b s s' := s' = SizeComputer.write b s;
  os_room _ s := in_uint 64 (nSize s);
|}.

(** [CDataStream::read] within the documented sizes. *)
Lemma DataStream_read_spec n s :
  is_ok s -> 0 <= n < 2 ^ 31 ->
  if n <=? length (DataStream.contents s) then
    exists s', DataStream.read n s = (Ok (take (Z.to_nat n) (DataStream.contents s)), s') /\
      is_ok s' /\ DataStream.contents s' = drop (Z.to_nat n) (DataStream.contents s)
  else DataStream.read n s = (Throw "CDataStream::read(): end of data", s).
Proof.
  intros (Hp & Hl & Hb) Hn. unfold DataStream.read, DataStream.contents.
  rewrite length_drop. destruct (Z.eqb_spec n 0) as [->|Hn0].
  { rewrite (proj2 (Z.leb_le _ _)) by lia. exists s. simpl. done. }
  rewrite u32_small by lia. destruct (Z.leb_spec n (length (vch s) - Z.to_nat (nReadPos s))%nat).
  - rewrite (proj2 (Z.ltb_ge _ _)) by lia.
    destruct (Z.eqb_spec (nReadPos s + n) (length (vch s))); eexists; (split; [done|]); simpl.
    + split; [by repeat split; try lia; constructor|].
      rewrite drop_drop, drop_ge by lia. done.
    + split; [by repeat split; try lia|]. rewrite drop_drop. f_equal. lia.
  - rewrite (proj2 (Z.ltb_lt _ _)) by lia. done.
Qed.

#[export] Instance CDataStream_ilaws : IStreamLaws CDataStream.
Proof.
  split; unfold MAX_SIZE; simpl.
  - intros n s Hs Hn Hl. pose proof (DataStream_read_spec n s Hs) as H.
    rewrite (proj2 (Z.leb_le _ _)) in H by done. apply H. lia.
  - intros n s Hs Hn Hl. pose proof (DataStream_read_spec n s Hs) as H.
    rewrite (proj2 (Z.leb_gt _ _)) in H by done. do 2 eexists. apply H. lia.
  - intros s (_ & _ & Hb). by apply Forall_drop.
Qed.

#[export] Instance VectorReader_ilaws : IStreamLaws VectorReader.
Proof.
  split; unfold MAX_SIZE; simpl.
  - intros n s (Hp & Hl & Hb) Hn Hlen. rewrite length_drop in Hlen. unfold Reader.read.
    destruct (Z.eqb_spec n 0) as [->|Hn0]; [by exists s|].
    rewrite u64_small, (proj2 (Z.ltb_ge _ _)) by lia.
    eexists; split; [done|]. simpl. split; [split_and!; done || lia|].
    rewrite drop_drop. f_equal. lia.
  - intros n s (Hp & Hl & Hb) Hn Hlen. rewrite length_drop in Hlen. unfold Reader.read.
    rewrite (proj2 (Z.eqb_neq n 0)), u64_small, (proj2 (Z.ltb_lt _ _)) by lia. eauto.
  - intros s (_ & _ & Hb). by apply Forall_drop.
Qed.

#[export] Instance CDataStream_olaws : OStreamLaws CDataStream.
Proof.
  split; simpl; [by eauto|done|..]; unfold DataStream.write, DataStream.set_buf; simpl.
  - intros []. by rewrite app_nil_r.
  - intros b c s s1 s2 _ -> ->. simpl. by rewrite app_assoc.
Qed.

#[export] Instance CSizeComputer_olaws : OStreamLaws CSizeComputer.
Proof.
  split; simpl; [by eauto|..]; unfold SizeComputer.write; simpl.
  - intros b c s Hs. split; [done|]. intros ? ->. simpl. auto with uints.
  - intros [n] Hs. simpl in *. f_equal. rewrite Z.add_0_r. symmetry. by apply uint_small.
  - intros b c s s1 s2 Hs -> ->. simpl. f_equal. rewrite length_app. unfold uint.
    rewrite Zplus_mod_idemp_l. f_equal. lia.
Qed.

Lemma Writer_write_spec pch s :
  os_room pch s -> exists s', Writer.write pch s = (Ok tt, s') /\ os_appends pch s s'.
Proof.
  intros [Hp Hr]. eexists. split; [|reflexivity]. unfold Writer.write. simpl.
  rewrite (proj2 (Z.leb_le _ _)), u64_small by lia. do 2 f_equal.
  destruct (Z.min_spec (length pch) (length (vchData s) - nPos s)) as [[Hlt ->]|[Hge ->]].
  - rewrite Z.ltb_irrefl. destruct (Z.eqb_spec (length pch) 0) as [H0|H0].
    + assert (pch = []) as -> by (apply nil_length_inv; lia).
      simpl. rewrite Nat.add_0_r, take_drop. done.
    + rewrite (take_ge pch) by lia. do 3 f_equal. lia.
  - rewrite (drop_ge _ (Z.to_nat (nPos s) + length pch)), app_nil_r by lia.
    destruct (Z.eqb_spec (length (vchData s) - nPos s) 0) as [H0|H0].
    + rewrite H0, drop_0. rewrite (take_ge (vchData s)) by lia.
      destruct (Z.ltb_spec 0 (length pch)); [done|].
      assert (pch = []) as -> by (apply nil_length_inv; lia). by rewrite app_nil_r.
    + rewrite (drop_ge (vchData s)), app_nil_r by lia.
      destruct (Z.ltb_spec (length (vchData s) - nPos s) (length pch)).
      * by rewrite <- app_assoc, take_drop.
      * by rewrite (take_ge pch) by lia.
Qed.

#[export] Instance CVectorWriter_olaws : OStreamLaws CVectorWriter.
Proof.
  split; [apply Writer_write_spec|..]; simpl.
  - intros b c s [Hp Hr]. rewrite length_app in Hr. split; [lia|]. intros ? ->. simpl.
    rewrite !length_app, length_take. lia.
  - intros [v n] [Hp Hr]. simpl in *. rewrite Nat.add_0_r, take_drop. f_equal. lia.
  - intros b c s s1 s2 [Hp Hr] -> ->. simpl. rewrite length_app in *. f_equal; [|lia].
    rewrite !(app_assoc _ b (drop (Z.to_nat (nPos s) + length b) _)).
    rewrite (take_app_length' (_ ++ b)) by (rewrite length_app, length_take; lia).
    rewrite drop_app_ge by (rewrite length_app, length_take; lia).
    rewrite <- !app_assoc. do 3 f_equal.
    rewrite drop_drop, length_app, length_take. f_equal. lia.
Qed.

(** ** CDataStream is a queue of bytes

    The abstract specification: a list of bytes, written at the back, read,
    inserted and erased at the front. *)

Inductive ds_op :=
  | OpWrite (b : list Z)
  | OpRead (n : Z)
  | OpIgnore (n : Z)
  | OpInsertFront (b : list Z)
  | OpEraseFront (n : Z)
  | OpCompact.

Definition ds_step (op : ds_op) : action CDataStream (list Z) := λ s,
  match op with
  | OpWrite b => (Ok [], DataStream.write b s)
  | OpRead n => DataStream.read n s
  | OpIgnore n => (DataStream.ignore n ≫= λ _, mret []) s
  | OpInsertFront b => (Ok [], DataStream.insert s (nReadPos s) b)
  | OpEraseFront n => (Ok [], DataStream.erase s (nReadPos s) (nReadPos s + n))
  | OpCompact => (Ok [], DataStream.Compact s)
  end.

Definition queue_step (op : ds_op) : action (list Z) (list Z) := λ q,
  match op with
  | OpWrite b => (Ok [], q ++ b)
  | OpRead n =>
      if n <=? length q then (Ok (take (Z.to_nat n) q), drop (Z.to_nat n) q)
      else (Throw "CDataStream::read(): end of data", q)
  | OpIgnore n =>
      if n <? 0 then (Throw "CDataStream::ignore(): nSize negative", q)
      else if n <=? length q then (Ok [], drop (Z.to_nat n) q)
      else (Throw "CDataStream::ignore(): end of data", q)
  | OpInsertFront b => (Ok [], b ++ q)
  | OpEraseFront n => (Ok [], drop (Z.to_nat n) q)
  | OpCompact => (Ok [], q)
  end.

(** What the caller must respect: bytes are bytes, sizes fit an [int], and an
    erased range lies within the stream. *)
Definition op_pre (op : ds_op) (q : list Z) : Prop :=
  match op with
  | OpWrite b | OpInsertFront b => bytes b
  | OpRead n => 0 <= n < 2 ^ 31
  | OpIgnore n => in_sint 32 n
  | OpEraseFront n => 0 <= n <= length q
  | OpCompact => True
  end.

Definition op_bytes (op : ds_op) : nat :=
  match op with OpWrite b | OpInsertFront b => length b | _ => 0 end.

Fixpoint run {A S O} (step : O -> action S A) (ops : list O) (s : S) : list (result A) * S :=
  match ops with
  | [] => ([], s)
  | op :: ops =>
      let '(r, s1) := step op s in
      let '(rs, s2) := run step ops s1 in (r :: rs, s2)
  end.

Fixpoint ops_pre (ops : list ds_op) (q : list Z) : Prop :=
  match ops with
  | [] => True
  | op :: ops => op_pre op q /\ ops_pre ops (queue_step op q).2
  end.

Lemma DataStream_insert_front b s :
  is_ok s -> bytes b -> length (vch s) + length b <= 2 ^ 31 ->
  let s' := DataStream.insert s (nReadPos s) b in
  is_ok s' /\ length (vch s') <= length (vch s) + length b /\
  DataStream.contents s' = b ++ DataStream.contents s.
Proof.
  intros (Hp & Hl & Hv) Hb Hlen. unfold DataStream.insert, DataStream.contents.
  destruct (Nat.eqb_spec (length b) 0) as [H0|H0].
  { apply nil_length_inv in H0 as ->. simpl. repeat split; done || lia. }
  rewrite Z.eqb_refl, u32_small by lia. simpl.
  destruct (Z.leb_spec (length b) (nReadPos s)); simpl.
  - rewrite u32_small by lia. unfold DataStream.memcpy_at.
    rewrite !length_app, length_take, length_drop.
    split; [|split; [lia|]].
    + repeat split; try lia. by repeat apply Forall_app_2; auto using Forall_take, Forall_drop.
    + rewrite drop_app_length' by (rewrite length_take; lia). do 2 f_equal. lia.
  - unfold DataStream.vector_insert. rewrite !length_app, length_take, length_drop.
    split; [|split; [lia|]].
    + repeat split; try lia. by repeat apply Forall_app_2; auto using Forall_take, Forall_drop.
    + by rewrite drop_app_length' by (rewrite length_take; lia).
Qed.

Lemma DataStream_erase_front n s :
  is_ok s -> 0 <= n <= length (DataStream.contents s) ->
  let s' := DataStream.erase s (nReadPos s) (nReadPos s + n) in
  is_ok s' /\ length (vch s') <= length (vch s) /\
  DataStream.contents s' = drop (Z.to_nat n) (DataStream.contents s).
Proof.
  intros (Hp & Hl & Hv) Hn. unfold DataStream.erase, DataStream.contents in *.
  rewrite length_drop in Hn. rewrite Z.eqb_refl.
  destruct (Z.eqb_spec (nReadPos s + n) (length (vch s))); simpl.
  - split; [by repeat split; try lia; constructor|]. split; [lia|].
    by rewrite drop_drop, drop_ge by lia.
  - rewrite u32_small by lia. split; [by repeat split; try lia|]. split; [lia|].
    rewrite drop_drop. f_equal. lia.
Qed.

Lemma DataStream_ignore_spec n s :
  is_ok s -> in_sint 32 n ->
  if n <? 0 then DataStream.ignore n s = (Throw "CDataStream::ignore(): nSize negative", s)
  else if n <=? length (DataStream.contents s) then
    exists s', DataStream.ignore n s = (Ok tt, s') /\ is_ok s' /\ length (vch s') <= length (vch s) /\
      DataStream.contents s' = drop (Z.to_nat n) (DataStream.contents s)
  else DataStream.ignore n s = (Throw "CDataStream::ignore(): end of data", s).
Proof.
  intros (Hp & Hl & Hv) Hn. unfold in_sint in Hn. simpl in Hn.
  unfold DataStream.ignore, DataStream.contents.
  destruct (Z.ltb_spec n 0) as [|Hn0]; [done|].
  rewrite u32_small, length_drop by lia.
  destruct (Z.leb_spec n (length (vch s) - Z.to_nat (nReadPos s))%nat).
  - destruct (Z.leb_spec (length (vch s)) (nReadPos s + n)).
    + rewrite (proj2 (Z.ltb_ge _ _)) by lia. eexists; split; [done|]. simpl.
      split; [by repeat split; try lia; constructor|]. split; [lia|].
      by rewrite drop_drop, drop_ge by lia.
    + eexists; split; [done|]. simpl. split; [by repeat split; try lia|]. split; [lia|].
      rewrite drop_drop. f_equal. lia.
  - rewrite (proj2 (Z.leb_le _ _)), (proj2 (Z.ltb_lt _ _)) by lia. done.
Qed.

Lemma DataStream_read_buf n s : length (vch (DataStream.read n s).2) <= length (vch s).
Proof.
  unfold DataStream.read. repeat case_match; simplify_eq/=; lia.
Qed.

(** One step of the stream simulates one step of the queue. *)
Lemma ds_step_simulates op s :
  is_ok s -> length (vch s) + op_bytes op <= 2 ^ 31 -> op_pre op (DataStream.contents s) ->
  exists r s', ds_step op s = (r, s') /\
    queue_step op (DataStream.contents s) = (r, DataStream.contents s') /\
    is_ok s' /\ length (vch s') <= length (vch s) + op_bytes op.
Proof.
  intros Hs Hlen Hpre. destruct op as [b|n|n|b|n|]; simpl in *.
  - do 2 eexists; split; [done|]. destruct Hs as (Hp & Hl & Hv). simpl.
    unfold DataStream.contents. simpl. rewrite drop_app_le, length_app by lia.
    repeat split; try lia. by apply Forall_app_2.
  - pose proof (DataStream_read_spec n s Hs Hpre) as H. pose proof (DataStream_read_buf n s) as Hb.
    destruct (n <=? _); [destruct H as (s' & E & Hs' & Hc)|rename H into E];
      rewrite E in *; simpl in Hb; do 2 eexists; (split; [done|]); [rewrite Hc|];
      (split; [done|]); (split; [done|lia]).
  - pose proof (DataStream_ignore_spec n s Hs Hpre) as H.
    unfold mbind, action_bind.
    destruct (n <? 0); [|destruct (n <=? _); [destruct H as (s' & E & Hs' & Hb & Hc)|]];
      [rewrite H|rewrite E, <- Hc|rewrite H]; do 2 eexists;
      (split; [done|]); (split; [done|]); (split; [done|lia]).
  - destruct (DataStream_insert_front b s) as (Hs' & Hb & Hc); [done..|].
    do 2 eexists; split; [done|]. rewrite Hc. split; [done|]. split; [done|lia].
  - destruct (DataStream_erase_front n s) as (Hs' & Hb & Hc); [done..|].
    do 2 eexists; split; [done|]. rewrite Hc. split; [done|]. split; [done|lia].
  - destruct Hs as (Hp & Hl & Hv).
    do 2 eexists; split; [done|]. unfold DataStream.Compact, DataStream.vector_erase,
      DataStream.contents. simpl. rewrite drop_0, length_drop.
    repeat split; try lia. by apply Forall_drop.
Qed.

(** A [CDataStream] behaves as a queue of bytes: whatever sequence of writes,
    reads, ignores, insertions and erasures at the front and compactions is run on it,
    every operation returns (or throws) what the queue does and the unread bytes are
    the queue, even though reads only move [nReadPos], the buffer is cleared whenever
    the end is reached and insertions at the front may reuse the space already read. *)
Theorem CDataStream_refines_queue (ops : list ds_op) (s : CDataStream) :
  is_ok s -> length (vch s) + sum_list (op_bytes <$> ops) <= 2 ^ 31 ->
  ops_pre ops (DataStream.contents s) ->
  exists rs s', run ds_step ops s = (rs, s') /\
    run queue_step ops (DataStream.contents s) = (rs, DataStream.contents s') /\ is_ok s'.
Proof.
  revert s. induction ops as [|op ops IH]; intros s Hs Hlen Hpre; cbn [run ops_pre] in *.
  { by do 2 eexists. }
  change (sum_list (op_bytes <$> op :: ops))
    with (op_bytes op + sum_list (op_bytes <$> ops))%nat in Hlen.
  destruct Hpre as [Hpre Hrest].
  destruct (ds_step_simulates op s) as (r & s1 & E1 & Q1 & Hs1 & Hl1); [done|lia|done|].
  rewrite Q1 in Hrest. destruct (IH s1 Hs1) as (rs & s2 & E2 & Q2 & Hs2); [lia|done|].
  rewrite E1, E2, Q1, Q2. eauto.
Qed.

Lemma CDataStream_refines_queue_witness :
  exists rs s',
    run ds_step [OpWrite [1; 2; 3]; OpRead 2; OpInsertFront [9]; OpRead 3; OpRead 1; OpIgnore 2]
      (DataStream.new [] 1 70219) = (rs, s') /\
    run queue_step [OpWrite [1; 2; 3]; OpRead 2; OpInsertFront [9]; OpRead 3; OpRead 1; OpIgnore 2]
      [] = (rs, DataStream.contents s') /\ is_ok s'.
Proof.
  apply (CDataStream_refines_queue
    [OpWrite [1; 2; 3]; OpRead 2; OpInsertFront [9]; OpRead 3; OpRead 1; OpIgnore 2]
    (DataStream.new [] 1 70219)).
  - repeat split; simpl; try lia. constructor.
  - vm_compute. discriminate.
  - simpl. unfold in_sint, bytes, in_uint. repeat split; try lia;
      repeat constructor; simpl; lia.
Defined.

(** ** CDataStream::Xor *)

Lemma Xor_loop_lookup n v key i j k :
  (0 < length key)%nat -> j = (i `mod` length key)%nat ->
  DataStream.Xor_loop n v key i j !! k =
    (λ x, if bool_decide (i <= k < i + n)%nat then x ^^ (key !!! (k `mod` length key)%nat) else x)
      <$> v !! k.
Proof.
  intros Hk. revert v i j. induction n as [|n IH]; intros v i j ->; cbn [DataStream.Xor_loop].
  { rewrite bool_decide_false by lia. by destruct (v !! k). }
  rewrite IH.
  - destruct (decide (k = i)) as [->|Hki].
    + rewrite list_lookup_alter_eq. destruct (v !! i); simpl; [|done].
      by rewrite bool_decide_false, bool_decide_true by lia.
    + rewrite list_lookup_alter_ne by done. destruct (v !! k); simpl; [|done].
      f_equal. repeat case_bool_decide; done || lia.
  - rewrite succ_mod by done. by destruct (Nat.eqb_spec (S (i `mod` length key)) (length key)), (decide _).
Qed.

(** [CDataStream::Xor] XORs byte [k] of the underlying buffer with byte
    [k mod |key|] of the key for every [k] below [size()], and nothing else.  On a
    stream that has not been read from this is the whole content; on a partly read one
    the positions are those of the buffer, not of the stream, so the last [nReadPos]
    unread bytes stay as they were.  Applying it twice restores the stream. *)
Theorem CDataStream_Xor_spec (key : list Z) (s : CDataStream) :
  is_ok s -> (0 < length key)%nat ->
  (forall k : nat, vch (DataStream.Xor key s) !! k =
    (λ x, if bool_decide (k < DataStream.size s) then x ^^ (key !!! (k `mod` length key)%nat) else x)
      <$> vch s !! k) /\
  (forall k : nat, DataStream.size s - nReadPos s <= k ->
    DataStream.contents (DataStream.Xor key s) !! k = DataStream.contents s !! k) /\
  DataStream.Xor key (DataStream.Xor key s) = s.
Proof.
  intros (Hp & Hl & Hv) Hk.
  assert (forall s, vch (DataStream.Xor key s) =
    DataStream.Xor_loop (Z.to_nat (DataStream.size s)) (vch s) key 0 0) as HX.
  { intros t. unfold DataStream.Xor. by destruct (Nat.eqb_spec (length key) 0); [lia|]. }
  assert (forall k : nat, vch (DataStream.Xor key s) !! k =
    (λ x, if bool_decide (k < DataStream.size s) then x ^^ (key !!! (k `mod` length key)%nat) else x)
      <$> vch s !! k) as HK.
  { intros k. rewrite HX, Xor_loop_lookup by (done || by rewrite Nat.Div0.mod_0_l).
    destruct (vch s !! k); simpl; [|done]. f_equal. repeat case_bool_decide; done || lia. }
  assert (nReadPos (DataStream.Xor key s) = nReadPos s) as HR.
  { unfold DataStream.Xor. by destruct (_ =? _)%nat. }
  split; [done|]. split.
  - intros k Hs. unfold DataStream.contents. rewrite HR, !lookup_drop, HK.
    rewrite bool_decide_false by lia. by destruct (vch s !! _).
  - assert (length (vch (DataStream.Xor key s)) = length (vch s)) as HL.
    { apply Nat.le_antisymm; apply Nat.nlt_ge; intros Hlt;
        apply lookup_lt_is_Some_2 in Hlt as [x Hx];
        [specialize (HK (length (vch s))); rewrite Hx, (lookup_ge_None_2 (vch s)) in HK by lia
        |specialize (HK (length (vch (DataStream.Xor key s))));
         rewrite Hx, lookup_ge_None_2 in HK by lia]; done. }
    assert (vch (DataStream.Xor key (DataStream.Xor key s)) = vch s) as HV.
    { apply list_eq. intros k. rewrite HX, Xor_loop_lookup by (done || by rewrite Nat.Div0.mod_0_l).
      rewrite HK. unfold DataStream.size. rewrite HL, HR.
      destruct (vch s !! k); simpl; [|done]. f_equal.
      repeat case_bool_decide; lia || done ||
        (rewrite Z.lxor_assoc, Z.lxor_nilpotent; apply Z.lxor_0_r). }
    unfold DataStream.Xor in *. destruct (_ =? _)%nat; [done|].
    destruct s. unfold DataStream.set_buf in *. simpl in *. by rewrite HV.
Qed.

Lemma CDataStream_Xor_spec_witness :
  let s := mkCDataStream [1; 2; 3; 4] 1 1 70219 in
  (forall k : nat, 2 <= k ->
    DataStream.contents (DataStream.Xor [255] s) !! k = DataStream.contents s !! k) /\
  DataStream.contents (DataStream.Xor [255] s) = [253; 252; 4].
Proof.
  split; [|vm_compute; reflexivity].
  intros k Hk.
  destruct (CDataStream_Xor_spec [255] (mkCDataStream [1; 2; 3; 4] 1 1 70219)) as (_ & H & _).
  - unfold is_ok, CDataStream_istream, bytes, in_uint. simpl.
    repeat split; try lia; repeat constructor; lia.
  - simpl. lia.
  - apply H. unfold DataStream.size. simpl. lia.
Defined.
