(* ===== verification/Serialize.v ===== *)
(** * Serialization templates: serialize.h

    Every template is modelled over an arbitrary stream, as in the source: writing
    code is an action on an [OStream], reading code on an [IStream].  [codec] is the
    pair of overloads [Serialize]/[Unserialize] of one C++ type, [CodecLaws] what the
    rest of the program relies on: the bytes written do not depend on the stream, and
    reading them back gives the value and consumes exactly those bytes. *)

From S2P Require Import Prelude Bytes Streams.

(** ** Lowest-level serialization and conversion *)

Section lowest_level.
Context {S : Type} `{OStream S}.

Definition ser_writedata8 (obj : Z) : action S unit := os_write [u8 obj].
Definition ser_writedata16 (obj : Z) : action S unit := os_write (WriteLE16 (u16 obj)).
Definition ser_writedata16be (obj : Z) : action S unit := os_write (WriteBE16 (u16 obj)).
Definition ser_writedata32 (obj : Z) : action S unit := os_write (WriteLE32 (u32 obj)).
Definition ser_writedata32be (obj : Z) : action S unit := os_write (WriteBE32 (u32 obj)).
Definition ser_writedata64 (obj : Z) : action S unit := os_write (WriteLE64 (u64 obj)).
End lowest_level.

Section lowest_level_read.
Context {S : Type} `{IStream S}.

Definition ser_readdata8 : action S Z := b ← is_read 1; mret (le_value b).
Definition ser_readdata16 : action S Z := b ← is_read 2; mret (ReadLE16 b).
Definition ser_readdata16be : action S Z := b ← is_read 2; mret (ReadBE16 b).
Definition ser_readdata32 : action S Z := b ← is_read 4; mret (ReadLE32 b).
Definition ser_readdata32be : action S Z := b ← is_read 4; mret (ReadBE32 b).
Definition ser_readdata64 : action S Z := b ← is_read 8; mret (ReadLE64 b).
End lowest_level_read.

(** ** Compact sizes *)

Definition GetSizeOfCompactSize (nSize : Z) : Z :=
  if nSize <? 253 then 1
  else if nSize <=? 0xffff then 1 + 2
  else if nSize <=? 0xffffffff then 1 + 4
  else 1 + 8.

Definition WriteCompactSize {S} `{OStream S} (nSize : Z) : action S unit :=
  if nSize <? 253 then ser_writedata8 nSize
  else if nSize <=? 0xffff then ser_writedata8 253 ≫= λ _, ser_writedata16 nSize
  else if nSize <=? 0xffffffff then ser_writedata8 254 ≫= λ _, ser_writedata32 nSize
  else ser_writedata8 255 ≫= λ _, ser_writedata64 nSize.

Definition ReadCompactSize {S} `{IStream S} : action S Z :=
  chSize ← ser_readdata8;
  nSizeRet ←
    (if chSize <? 253 then mret chSize
     else if chSize =? 253 then
       nSizeRet ← ser_readdata16;
       if nSizeRet <? 253 then throw "non-canonical ReadCompactSize()" else mret nSizeRet
     else if chSize =? 254 then
       nSizeRet ← ser_readdata32;
       if nSizeRet <? 0x10000 then throw "non-canonical ReadCompactSize()" else mret nSizeRet
     else
       nSizeRet ← ser_readdata64;
       if nSizeRet <? 0x100000000 then throw "non-canonical ReadCompactSize()" else mret nSizeRet);
  if MAX_SIZE <? nSizeRet then throw "ReadCompactSize(): size too large" else mret nSizeRet.

(** The overload for [CSizeComputer] adds the size without writing. *)
Definition WriteCompactSize_SizeComputer (nSize : Z) (s : CSizeComputer) : CSizeComputer :=
  SizeComputer.seek (GetSizeOfCompactSize nSize) s.

(** ** Variable-length integers

    The integer type [I] is given by the number [k] of its value bits
    ([std::numeric_limits<I>::digits]: 32 for [uint32_t], 31 for [int]), so its
    maximum is [2^k - 1]. *)

Definition imax (k : Z) : Z := 2 ^ k - 1.

Fixpoint GetSizeOfVarInt_loop (fuel : nat) (n nRet : Z) : Z :=
  match fuel with
  | O => nRet
  | S fuel =>
      let nRet := nRet + 1 in
      if n <=? 0x7F then nRet else GetSizeOfVarInt_loop fuel ((n >> 7) - 1) nRet
  end.
Definition GetSizeOfVarInt (k n : Z) : Z := GetSizeOfVarInt_loop (Z.to_nat k + 1) n 0.

(** The loop of [WriteVarInt] that fills [tmp]; [tmp] is the array so far. *)
Fixpoint WriteVarInt_digits (fuel : nat) (n : Z) (tmp : list Z) : list Z :=
  let tmp := tmp ++ [(n &&& 0x7F) ||| (if (length tmp =? 0)%nat then 0x00 else 0x80)] in
  match fuel with
  | O => tmp
  | S fuel => if n <=? 0x7F then tmp else WriteVarInt_digits fuel ((n >> 7) - 1) tmp
  end.

(** The [do ... while(len--)] loop writes [tmp] backwards. *)
Fixpoint ser_writedata8_each {S} `{OStream S} (l : list Z) : action S unit :=
  match l with
  | [] => mret tt
  | x :: l => ser_writedata8 x ≫= λ _, ser_writedata8_each l
  end.

Definition WriteVarInt {S} `{OStream S} (k n : Z) : action S unit :=
  ser_writedata8_each (rev (WriteVarInt_digits (Z.to_nat k) n [])).

Fixpoint ReadVarInt_loop {S} `{IStream S} (fuel : nat) (k n : Z) : action S Z :=
  match fuel with
  | O => throw "out of fuel"
  | S fuel =>
      chData ← ser_readdata8;
      if imax k >> 7 <? n then throw "ReadVarInt(): size too large"
      else
        let n := (n << 7) ||| (chData &&& 0x7F) in
        if (chData &&& 0x80) =? 0 then mret n
        else if n =? imax k then throw "ReadVarInt(): size too large"
        else ReadVarInt_loop fuel k (n + 1)
  end.

(** A type of [k] bits overflows after [k/7 + 1] continued digits. *)
Definition ReadVarInt {S} `{IStream S} (k : Z) : action S Z :=
  ReadVarInt_loop (Z.to_nat (k / 7) + 2) k 0.

(** ** Codecs *)

Record codec (T : Type) := Codec {
  Serialize : forall {S} `{OStream S}, T -> action S unit;
  Unserialize : forall {S} `{IStream S}, action S T;
}.
Arguments Codec {T} _ _.
Arguments Serialize {T} _ {S _} _.
Arguments Unserialize {T} _ {S _}.

Class CodecLaws {T} (c : codec T) := {
  (** the bytes [Serialize] writes, and the values it can represent *)
  encoding : T -> list Z;
  representable : T -> Prop;
  Serialize_emits {S} `{OStreamLaws S} (x : T) :
    representable x -> emits (Serialize c (S:=S) x) (encoding x);
  Unserialize_parses {S} `{IStreamLaws S} (x : T) :
    representable x -> parses (Unserialize c (S:=S)) (encoding x) x;
  encoding_bytes (x : T) : representable x -> Forall is_byte (encoding x);
}.
Arguments encoding {T} c {_} x.
Arguments representable {T} c {_} x.

Definition codec_uint8 : codec Z := Codec (λ _ _, ser_writedata8) (λ (S : Type) (_ : IStream S), ser_readdata8).
Definition codec_int8 : codec Z :=
  Codec (λ _ _, ser_writedata8) (λ (S : Type) (_ : IStream S), a ← ser_readdata8; mret (sint 8 a)).
Definition codec_uint16 : codec Z := Codec (λ _ _, ser_writedata16) (λ (S : Type) (_ : IStream S), ser_readdata16).
Definition codec_int16 : codec Z :=
  Codec (λ _ _, ser_writedata16) (λ (S : Type) (_ : IStream S), a ← ser_readdata16; mret (sint 16 a)).
Definition codec_uint32 : codec Z := Codec (λ _ _, ser_writedata32) (λ (S : Type) (_ : IStream S), ser_readdata32).
Definition codec_int32 : codec Z :=
  Codec (λ _ _, ser_writedata32) (λ (S : Type) (_ : IStream S), a ← ser_readdata32; mret (i32 a)).
Definition codec_uint64 : codec Z := Codec (λ _ _, ser_writedata64) (λ (S : Type) (_ : IStream S), ser_readdata64).
Definition codec_int64 : codec Z :=
  Codec (λ _ _, ser_writedata64) (λ (S : Type) (_ : IStream S), a ← ser_readdata64; mret (i64 a)).
Definition codec_bool : codec bool :=
  Codec (λ (S : Type) (_ : OStream S) (a : bool), ser_writedata8 (if a then 1 else 0))
        (λ (S : Type) (_ : IStream S), f ← ser_readdata8; mret (negb (f =? 0))).
(** Fixed-size arrays and spans of bytes. *)
Definition codec_array (N : Z) : codec (list Z) := Codec (λ (S : Type) (_ : OStream S) (a : list Z), os_write a) (λ (S : Type) (_ : IStream S), is_read N).

Definition CVarInt (k : Z) : codec Z := Codec (λ _ _, WriteVarInt k) (λ (S : Type) (_ : IStream S), ReadVarInt k).
Definition BigEndian : codec Z := Codec (λ _ _, ser_writedata16be) (λ (S : Type) (_ : IStream S), ser_readdata16be).
Definition CCompactSize : codec Z := Codec (λ _ _, WriteCompactSize) (λ (S : Type) (_ : IStream S), ReadCompactSize).

Definition LimitedString (Limit : Z) : codec (list Z) :=
  Codec
    (λ (S : Type) (_ : OStream S) (str : list Z),
      WriteCompactSize (length str) ≫= λ _,
      if (length str =? 0)%nat then mret tt else os_write str)
    (λ (S : Type) (_ : IStream S),
      size ← ReadCompactSize;
      if Limit <? size then throw "String length limit exceeded"
      else if size =? 0 then mret [] else is_read size).

(** [std::basic_string<C>] with [sizeof(C) = 1]. *)
Definition codec_string : codec (list Z) :=
  Codec
    (λ (S : Type) (_ : OStream S) (str : list Z),
      WriteCompactSize (length str) ≫= λ _,
      if (length str =? 0)%nat then mret tt else os_write str)
    (λ (S : Type) (_ : IStream S),
      size ← ReadCompactSize;
      let nSize := u32 size in
      if nSize =? 0 then mret [] else is_read nSize).

(** Vectors and prevectors of bytes are read in blocks of at most 5000000. *)
Fixpoint Unserialize_bytes_loop {S} `{IStream S} (fuel : nat) (nSize : Z) (v : list Z) :
    action S (list Z) :=
  let i := Z.of_nat (length v) in
  if i <? nSize then
    match fuel with
    | O => throw "out of fuel"
    | S fuel =>
        let blk := Z.min (u32 (nSize - i)) (1 + 4999999 / 1) in
        b ← is_read blk; Unserialize_bytes_loop fuel nSize (v ++ b)
    end
  else mret v.

Definition codec_byte_vector : codec (list Z) :=
  Codec
    (λ (S : Type) (_ : OStream S) (v : list Z),
      WriteCompactSize (length v) ≫= λ _,
      if (length v =? 0)%nat then mret tt else os_write v)
    (λ (S : Type) (_ : IStream S),
      size ← ReadCompactSize;
      let nSize := u32 size in
      Unserialize_bytes_loop (Z.to_nat (nSize / 5000000) + 1) nSize []).

(** Elements one after the other. *)
Fixpoint Serialize_each {S} `{OStream S} {T} (c : codec T) (v : list T) : action S unit :=
  match v with
  | [] => mret tt
  | x :: v => Serialize c x ≫= λ _, Serialize_each c v
  end.

Fixpoint Unserialize_each {S} `{IStream S} {T} (c : codec T) (n : nat) : action S (list T) :=
  match n with
  | O => mret []
  | S n => x ← Unserialize c; v ← Unserialize_each c n; mret (x :: v)
  end.

(** Vectors and prevectors of any other type grow by [5000000 / sizeof(T)] elements
    at a time. *)
Fixpoint Unserialize_vector_loop {S} `{IStream S} {T} (c : codec T) (sizeof_T : Z) (fuel : nat)
    (nSize nMid : Z) (v : list T) : action S (list T) :=
  if nMid <? nSize then
    match fuel with
    | O => throw "out of fuel"
    | S fuel =>
        let nMid := u32 (nMid + 5000000 / sizeof_T) in
        let nMid := if nSize <? nMid then nSize else nMid in
        w ← Unserialize_each c (Z.to_nat nMid - length v);
        Unserialize_vector_loop c sizeof_T fuel nSize nMid (v ++ w)
    end
  else mret v.

Definition codec_vector {T} (c : codec T) (sizeof_T : Z) : codec (list T) :=
  Codec
    (λ (S : Type) (_ : OStream S) (v : list T), WriteCompactSize (length v) ≫= λ _, Serialize_each c v)
    (λ (S : Type) (_ : IStream S),
      size ← ReadCompactSize;
      let nSize := u32 size in
      Unserialize_vector_loop c sizeof_T (Z.to_nat nSize) nSize 0 []).

(** [prevector<N, T>] has overloads with the same bodies. *)
Definition codec_byte_prevector : codec (list Z) := codec_byte_vector.
Definition codec_prevector {T} (c : codec T) (sizeof_T : Z) : codec (list T) := codec_vector c sizeof_T.

(** [std::list] is read element by element. *)
Definition codec_list {T} (c : codec T) : codec (list T) :=
  Codec
    (λ (S : Type) (_ : OStream S) (l : list T), WriteCompactSize (length l) ≫= λ _, Serialize_each c l)
    (λ (S : Type) (_ : IStream S), size ← ReadCompactSize; Unserialize_each c (Z.to_nat (u32 size))).

Definition codec_pair {K T} (ck : codec K) (ct : codec T) : codec (K * T) :=
  Codec
    (λ (S : Type) (_ : OStream S) (item : K * T), Serialize ck item.1 ≫= λ _, Serialize ct item.2)
    (λ (S : Type) (_ : IStream S), k ← Unserialize ck; t ← Unserialize ct; mret (k, t)).

(** [std::tuple]: the elements before the last one, then the last one. *)
Definition codec_tuple {P T} (prefix : codec P) (c : codec T) : codec (P * T) :=
  Codec
    (λ (S : Type) (_ : OStream S) (t : P * T), Serialize prefix t.1 ≫= λ _, Serialize c t.2)
    (λ (S : Type) (_ : IStream S), p ← Unserialize prefix; x ← Unserialize c; mret (p, x)).

(** Enumerations are converted to their underlying type. *)
Definition codec_enum {E} (underlying : codec Z) (to_Z : E -> Z) (of_Z : Z -> E) : codec E :=
  Codec (λ (S : Type) (_ : OStream S) (a : E), Serialize underlying (to_Z a))
        (λ (S : Type) (_ : IStream S), b ← Unserialize underlying; mret (of_Z b)).

(** [unique_ptr] and [shared_ptr] serialize what they point to. *)
Definition codec_ptr {T} (c : codec T) : codec T :=
  Codec (λ (S : Type) (_ : OStream S) (p : T), Serialize c p) (λ (S : Type) (_ : IStream S), Unserialize c).

(** [SerializeMany]/[UnserializeMany] and the [READWRITE] macro: the fields in order. *)
Definition codec_many_nil : codec unit := Codec (λ (S : Type) (_ : OStream S) (_ : unit), mret tt) (λ (S : Type) (_ : IStream S), mret tt).
Definition codec_many_cons {A B} (arg : codec A) (args : codec B) : codec (A * B) :=
  Codec
    (λ (S : Type) (_ : OStream S) (x : A * B), Serialize arg x.1 ≫= λ _, Serialize args x.2)
    (λ (S : Type) (_ : IStream S), a ← Unserialize arg; b ← Unserialize args; mret (a, b)).

(** Maps and sets, over what the templates use of a container: its elements in
    iteration order, and insertion, which keeps an element already present. *)
Class Container (E M : Type) := {
  c_empty : M;
  c_insert : E -> M -> M;
  c_elements : M -> list E;
}.

Fixpoint UnserializeMap_loop {S} `{IStream S} {E M} `{Container E M} (c : codec E) (n : nat) (m : M) :
    action S M :=
  match n with
  | O => mret m
  | S n => item ← Unserialize c; UnserializeMap_loop c n (c_insert item m)
  end.

Definition codec_map {E M} `{Container E M} (c : codec E) : codec M :=
  Codec
    (λ (S : Type) (_ : OStream S) (m : M), WriteCompactSize (length (c_elements m)) ≫= λ _, Serialize_each c (c_elements m))
    (λ (S : Type) (_ : IStream S), size ← ReadCompactSize; UnserializeMap_loop c (Z.to_nat (u32 size)) c_empty).

(** [SerializeSet]/[UnserializeSet] have the same bodies, with keys for entries. *)
Definition codec_set {E M} `{Container E M} (c : codec E) : codec M := codec_map c.

(** [::GetSerializeSize]: serialize to a stream that only counts. *)
Definition GetSerializeSize {T} (c : codec T) (t : T) : Z :=
  SizeComputer.size (Serialize c t SizeComputer.new).2.
