(* ===== verification/SerializeLaws.v ===== *)
(** * Round trips and canonicity of the serialization format

    The laws of the codecs of [Serialize.v]: compact sizes and variable-length
    integers are read back, have exactly one encoding each and stay within their
    buffers; the containers inherit the laws of their elements. *)

From S2P Require Import Prelude Bytes Streams Serialize.

(** ** Fixed-width integers *)

Section fixed_width.
Context {S : Type} `{HS : IStream S} {HL : IStreamLaws S}.

Lemma parses_le (n : nat) (f : list Z -> Z) x :
  n <= 8 -> in_uint (8 * n) x -> (forall b, length b = n -> f b = le_value b) ->
  parses (S:=S) (is_read n ≫= λ b, mret (f b)) (le_bytes n x) x.
Proof.
  intros Hn Hx Hf. eapply parses_bind_all.
  { apply parses_read; [by rewrite length_le_bytes, Nat2Z.id|unfold MAX_SIZE; lia]. }
  rewrite Hf, le_value_le_bytes_small by (done || apply length_le_bytes). apply parses_ret.
Qed.

Lemma parses_be (n : nat) (f : list Z -> Z) x :
  n <= 8 -> in_uint (8 * n) x -> (forall b, length b = n -> f b = le_value (rev b)) ->
  parses (S:=S) (is_read n ≫= λ b, mret (f b)) (rev (le_bytes n x)) x.
Proof.
  intros Hn Hx Hf. eapply parses_bind_all.
  { apply parses_read; [by rewrite length_rev, length_le_bytes, Nat2Z.id|unfold MAX_SIZE; lia]. }
  rewrite Hf, rev_involutive, le_value_le_bytes_small
    by (done || by rewrite length_rev, length_le_bytes). apply parses_ret.
Qed.

Lemma consumes_le (n : nat) (f : list Z -> Z) :
  n <= 8 -> (forall b, length b = n -> f b = le_value b) ->
  consumes (S:=S) (is_read n ≫= λ b, mret (f b)) (λ x b, in_uint (8 * n) x /\ b = le_bytes n x).
Proof.
  intros Hn Hf. eapply consumes_bind; [apply consumes_read; unfold MAX_SIZE; lia|].
  intros a b (-> & Hl & Hb). rewrite Nat2Z.id in Hl. apply consumes_ret.
  rewrite app_nil_r, Hf by done. subst n. split; [by apply le_value_range|].
  by rewrite le_bytes_le_value.
Qed.

Lemma parses_readdata8 x : is_byte x -> parses (S:=S) ser_readdata8 [x] x.
Proof.
  intros Hx. replace [x] with (le_bytes 1 x) by (simpl; by rewrite uint_small).
  by apply (parses_le 1).
Qed.

Lemma parses_readdata16 x : in_uint 16 x -> parses (S:=S) ser_readdata16 (WriteLE16 x) x.
Proof. intros. apply (parses_le 2); [done..|]. intros. unfold ReadLE16. by rewrite take_ge by lia. Qed.

Lemma parses_readdata32 x : in_uint 32 x -> parses (S:=S) ser_readdata32 (WriteLE32 x) x.
Proof. intros. apply (parses_le 4); [done..|]. intros. unfold ReadLE32. by rewrite take_ge by lia. Qed.

Lemma parses_readdata64 x : in_uint 64 x -> parses (S:=S) ser_readdata64 (WriteLE64 x) x.
Proof. intros. apply (parses_le 8); [done..|]. intros. unfold ReadLE64. by rewrite take_ge by lia. Qed.

Lemma parses_readdata16be x : in_uint 16 x -> parses (S:=S) ser_readdata16be (WriteBE16 x) x.
Proof. intros. apply (parses_be 2); [done..|]. intros. unfold ReadBE16. by rewrite take_ge by lia. Qed.

Lemma parses_readdata32be x : in_uint 32 x -> parses (S:=S) ser_readdata32be (WriteBE32 x) x.
Proof. intros. apply (parses_be 4); [done..|]. intros. unfold ReadBE32. by rewrite take_ge by lia. Qed.

Lemma consumes_readdata8 :
  consumes (S:=S) ser_readdata8 (λ x b, is_byte x /\ b = [x]).
Proof.
  eapply consumes_weaken; [by apply (consumes_le 1)|].
  intros x b [Hx ->]. split; [done|]. simpl. by rewrite uint_small.
Qed.

Lemma consumes_readdata16 :
  consumes (S:=S) ser_readdata16 (λ x b, in_uint 16 x /\ b = WriteLE16 x).
Proof. apply (consumes_le 2); [done|]. intros. unfold ReadLE16. by rewrite take_ge by lia. Qed.

Lemma consumes_readdata32 :
  consumes (S:=S) ser_readdata32 (λ x b, in_uint 32 x /\ b = WriteLE32 x).
Proof. apply (consumes_le 4); [done|]. intros. unfold ReadLE32. by rewrite take_ge by lia. Qed.

Lemma consumes_readdata64 :
  consumes (S:=S) ser_readdata64 (λ x b, in_uint 64 x /\ b = WriteLE64 x).
Proof. apply (consumes_le 8); [done|]. intros. unfold ReadLE64. by rewrite take_ge by lia. Qed.
End fixed_width.

#[export] Hint Resolve parses_readdata8 parses_readdata16 parses_readdata32 parses_readdata64
  parses_readdata16be parses_readdata32be : streams.

(** ** Compact sizes *)

Definition compact_size_bytes (n : Z) : list Z :=
  if n <? 253 then [n]
  else if n <=? 0xffff then 253 :: WriteLE16 n
  else if n <=? 0xffffffff then 254 :: WriteLE32 n
  else 255 :: WriteLE64 n.

Lemma emits_compact_size {S} `{OStreamLaws S} n :
  in_uint 64 n -> emits (S:=S) (WriteCompactSize n) (compact_size_bytes n).
Proof.
  unfold in_uint. intros Hn. unfold WriteCompactSize, compact_size_bytes.
  destruct (Z.ltb_spec n 253); [|destruct (Z.leb_spec n 0xffff); [|destruct (Z.leb_spec n 0xffffffff)]].
  - unfold ser_writedata8. rewrite uint_small by (unfold in_uint; lia). apply emits_write.
  - apply (emits_bind _ _ [253]); [apply emits_write|]. unfold ser_writedata16.
    rewrite uint_small by (unfold in_uint; lia). apply emits_write.
  - apply (emits_bind _ _ [254]); [apply emits_write|]. unfold ser_writedata32.
    rewrite uint_small by (unfold in_uint; lia). apply emits_write.
  - apply (emits_bind _ _ [255]); [apply emits_write|]. unfold ser_writedata64.
    rewrite uint_small by (unfold in_uint; lia). apply emits_write.
Qed.

(** A test that is decided leaves one branch. *)
Ltac decide_if :=
  match goal with
  | |- context [if ?a <? ?b then _ else _] => destruct (Z.ltb_spec a b); [try lia|try lia]
  | |- context [if ?a <=? ?b then _ else _] => destruct (Z.leb_spec a b); [try lia|try lia]
  | |- context [if ?a =? ?b then _ else _] => destruct (Z.eqb_spec a b) ; [try lia|try lia]
  end.

Lemma parses_compact_size {S} `{IStreamLaws S} n :
  0 <= n <= MAX_SIZE -> parses (S:=S) ReadCompactSize (compact_size_bytes n) n.
Proof.
  intros Hn. unfold compact_size_bytes, ReadCompactSize.
  assert (parses (S:=S) (if MAX_SIZE <? n then throw "ReadCompactSize(): size too large" else mret n) [] n)
    as Hlast by (decide_if; apply parses_ret).
  unfold MAX_SIZE in Hn.
  destruct (Z.ltb_spec n 253); [|destruct (Z.leb_spec n 0xffff); [|destruct (Z.leb_spec n 0xffffffff); [|lia]]].
  - eapply parses_bind_all; [apply parses_readdata8; unfold in_uint; lia|].
    rewrite (proj2 (Z.ltb_lt n 253)) by done.
    eapply parses_bind_all; [apply parses_ret|exact Hlast].
  - eapply (parses_bind _ _ [253]); [by apply parses_readdata8|].
    eapply parses_bind_all; [|exact Hlast]. simpl.
    eapply parses_bind_all; [apply parses_readdata16; unfold in_uint; lia|].
    decide_if. apply parses_ret.
  - eapply (parses_bind _ _ [254]); [by apply parses_readdata8|].
    eapply parses_bind_all; [|exact Hlast]. simpl.
    eapply parses_bind_all; [apply parses_readdata32; unfold in_uint; lia|].
    decide_if. apply parses_ret.
Qed.

Lemma consumes_compact_size {S} `{IStreamLaws S} :
  consumes (S:=S) ReadCompactSize (λ n b, 0 <= n <= MAX_SIZE /\ b = compact_size_bytes n).
Proof.
  eapply consumes_bind; [apply consumes_readdata8|]. intros ch b [Hch ->].
  eapply (consumes_bind _ _ (λ n c, 0 <= n /\ [ch] ++ c = compact_size_bytes n)).
  - decide_if.
    { apply consumes_ret. unfold compact_size_bytes. decide_if. unfold in_uint in Hch. split; [lia|done]. }
    decide_if; [|decide_if].
    + subst ch. eapply consumes_bind; [apply consumes_readdata16|]. intros m c [Hm ->].
      unfold in_uint in Hm. decide_if; [apply consumes_throw|]. apply consumes_ret.
      rewrite app_nil_r. unfold compact_size_bytes. repeat decide_if. split; [lia|done].
    + subst ch. eapply consumes_bind; [apply consumes_readdata32|]. intros m c [Hm ->].
      unfold in_uint in Hm. decide_if; [apply consumes_throw|]. apply consumes_ret.
      rewrite app_nil_r. unfold compact_size_bytes. repeat decide_if. split; [lia|done].
    + assert (ch = 255) as -> by (unfold in_uint in Hch; lia).
      eapply consumes_bind; [apply consumes_readdata64|]. intros m c [Hm ->].
      unfold in_uint in Hm. decide_if; [apply consumes_throw|]. apply consumes_ret.
      rewrite app_nil_r. unfold compact_size_bytes. repeat decide_if. split; [lia|done].
  - intros n c [Hn Hc]. decide_if; [apply consumes_throw|]. apply consumes_ret.
    rewrite app_nil_r. split; [lia|done].
Qed.

Lemma compact_size_bytes_bytes n : in_uint 64 n -> Forall is_byte (compact_size_bytes n).
Proof.
  unfold in_uint, compact_size_bytes. intros Hn.
  repeat decide_if; (constructor; [lia|]); apply List.Forall_nil || apply le_bytes_bytes.
Qed.

Lemma length_compact_size_bytes n : Z.of_nat (length (compact_size_bytes n)) = GetSizeOfCompactSize n.
Proof. unfold compact_size_bytes, GetSizeOfCompactSize. by repeat case_match. Qed.

(** ** Variable-length integers

    [varint_prefix n] are the continued digits after which [ReadVarInt]'s
    accumulator is [n]. *)

Fixpoint varint_prefix_fuel (fuel : nat) (n : Z) : list Z :=
  match fuel with
  | O => []
  | S fuel =>
      if n =? 0 then []
      else varint_prefix_fuel fuel ((n - 1) / 128) ++ [(n - 1) `mod` 128 + 128]
  end.
Definition varint_prefix (n : Z) : list Z := varint_prefix_fuel (Z.to_nat n) n.

(** The encoding of [n], as the comment above [VarIntMode] describes it. *)
Definition varint_bytes (n : Z) : list Z := varint_prefix (n / 128) ++ [n `mod` 128].

Lemma varint_prefix_fuel_enough (f g : nat) n :
  0 <= n -> n <= f -> n <= g -> varint_prefix_fuel f n = varint_prefix_fuel g n.
Proof.
  revert g n. induction f as [|f IH]; intros g n Hn Hf Hg; simpl.
  { assert (n = 0) as -> by lia. by destruct g. }
  destruct g as [|g]; simpl; [assert (n = 0) as -> by lia; done|].
  destruct (Z.eqb_spec n 0) as [->|H0]; [done|].
  by rewrite (IH g) by lia_mod.
Qed.

Lemma varint_prefix_0 : varint_prefix 0 = [].
Proof. done. Qed.

Lemma varint_prefix_pos n :
  0 < n -> varint_prefix n = varint_prefix ((n - 1) / 128) ++ [(n - 1) `mod` 128 + 128].
Proof.
  intros Hn. unfold varint_prefix at 1. destruct (Z.to_nat n) as [|f] eqn:Ef; [lia|]. simpl.
  rewrite (proj2 (Z.eqb_neq n 0)) by lia. f_equal.
  apply varint_prefix_fuel_enough; lia_mod.
Qed.

(** Strong induction along the digits. *)
Lemma varint_ind (P : Z -> Prop) :
  P 0 -> (forall n, 0 < n -> P ((n - 1) / 128) -> P n) -> forall n, 0 <= n -> P n.
Proof.
  intros H0 HS. apply Zlt_0_ind. intros n IH Hn.
  destruct (decide (n = 0)) as [->|]; [done|]. apply HS; [lia|]. apply IH. lia_mod.
Qed.

Lemma land_7F n : n &&& 0x7F = n `mod` 128.
Proof. exact (Z.land_ones n 7 ltac:(lia)). Qed.

Lemma digit_continued x : 0 <= x < 128 -> x ||| 0x80 = x + 128.
Proof.
  intros Hx. rewrite Z.lor_comm, Z.add_comm. apply (lor_shiftl_add 1 7 x); [lia|exact Hx].
Qed.

Lemma digit_flag x : is_byte x -> ((x &&& 0x80) =? 0) = (x <? 128).
Proof.
  intros Hx. revert x Hx.
  assert (forall x, is_byte x -> eqb ((x &&& 0x80) =? 0) (x <? 128) = true) as H
    by (apply byte_forall; vm_compute; reflexivity).
  intros x Hx. by apply eqb_prop, H.
Qed.

(** The digits [WriteVarInt] puts into [tmp], least significant first. *)
Lemma WriteVarInt_digits_prefix (fuel : nat) n tmp :
  0 <= n < 2 ^ fuel -> tmp <> [] ->
  rev (WriteVarInt_digits fuel n tmp) = varint_prefix (n + 1) ++ rev tmp.
Proof.
  revert n tmp. induction fuel as [|fuel IH]; intros n tmp Hn Htmp; cbn [WriteVarInt_digits].
  - assert (n = 0) as -> by (simpl in Hn; lia).
    destruct tmp; [done|]. rewrite rev_app_distr. done.
  - replace (2 ^ S fuel) with (2 * 2 ^ fuel) in Hn
      by (rewrite <- Z.pow_succ_r by lia; f_equal; lia).
    assert ((if (length tmp =? 0)%nat then 0 else 128) = 128) as -> by (by destruct tmp).
    rewrite land_7F, digit_continued by lia_mod.
    rewrite varint_prefix_pos by lia. replace (n + 1 - 1) with n by lia.
    destruct (Z.leb_spec n 0x7F).
    + rewrite rev_app_distr. replace (n / 128) with 0 by lia_mod. done.
    + rewrite IH; [|rewrite Z.shiftr_div_pow2 by lia; lia_mod|by destruct tmp].
      rewrite rev_app_distr, Z.shiftr_div_pow2 by lia. change (2 ^ 7) with 128.
      rewrite Z.sub_add, <- app_assoc. done.
Qed.

Lemma WriteVarInt_digits_bytes (fuel : nat) n :
  0 <= n < 2 ^ fuel -> rev (WriteVarInt_digits fuel n []) = varint_bytes n.
Proof.
  intros Hn. unfold varint_bytes. destruct fuel as [|fuel]; cbn [WriteVarInt_digits].
  - by assert (n = 0) as -> by (simpl in Hn; lia).
  - replace (2 ^ S fuel) with (2 * 2 ^ fuel) in Hn
      by (rewrite <- Z.pow_succ_r by lia; f_equal; lia).
    simpl app. rewrite land_7F, Z.lor_0_r. destruct (Z.leb_spec n 0x7F).
    + by replace (n / 128) with 0 by lia_mod.
    + rewrite WriteVarInt_digits_prefix; [|rewrite Z.shiftr_div_pow2 by lia; lia_mod|done].
      rewrite Z.shiftr_div_pow2 by lia. change (2 ^ 7) with 128. by rewrite Z.sub_add.
Qed.

Lemma varint_prefix_bytes n : 0 <= n -> Forall is_byte (varint_prefix n).
Proof.
  revert n. apply varint_ind; [constructor|]. intros n Hn IH. rewrite varint_prefix_pos by done.
  apply Forall_app_2; [done|]. constructor; [|constructor]. unfold in_uint. lia_mod.
Qed.

Lemma varint_bytes_bytes n : 0 <= n -> Forall is_byte (varint_bytes n).
Proof.
  intros Hn. apply Forall_app_2; [apply varint_prefix_bytes; lia_mod|].
  constructor; [|constructor]. unfold in_uint. lia_mod.
Qed.

Lemma length_varint_prefix (j : nat) n : 0 <= n < 2 ^ (7 * j) -> (length (varint_prefix n) <= j)%nat.
Proof.
  revert n. induction j as [|j IH]; intros n Hn.
  { by assert (n = 0) as -> by (simpl in Hn; lia). }
  destruct (decide (n = 0)) as [->|]; [rewrite varint_prefix_0; simpl; lia|].
  rewrite varint_prefix_pos, length_app by lia. simpl.
  replace (2 ^ (7 * S j)) with (128 * 2 ^ (7 * j)) in Hn
    by (change 128 with (2 ^ 7); rewrite <- Z.pow_add_r by lia; f_equal; lia).
  specialize (IH ((n - 1) / 128)). lia_mod.
Qed.

Lemma length_varint_bytes k n :
  0 < k -> 0 <= n < 2 ^ k -> length (varint_bytes n) <= (k + 6) / 7.
Proof.
  intros Hk Hn. unfold varint_bytes. rewrite length_app. simpl.
  assert (length (varint_prefix (n / 128)) <= Z.to_nat ((k - 1) / 7))%nat; [|lia_mod].
  apply length_varint_prefix. split; [lia_mod|].
  apply Z.div_lt_upper_bound; [lia|].
  change 128 with (2 ^ 7). rewrite <- Z.pow_add_r by lia_mod.
  eapply Z.lt_le_trans; [apply Hn|]. apply Z.pow_le_mono_r; lia_mod.
Qed.

Lemma GetSizeOfVarInt_loop_prefix (fuel : nat) n r :
  0 <= n < 2 ^ fuel ->
  GetSizeOfVarInt_loop (fuel + 1) n r = r + length (varint_prefix (n + 1)).
Proof.
  revert n r. induction fuel as [|fuel IH]; intros n r Hn.
  - assert (n = 0) as -> by (simpl in Hn; lia). simpl. lia.
  - replace (2 ^ S fuel) with (2 * 2 ^ fuel) in Hn
      by (rewrite <- Z.pow_succ_r by lia; f_equal; lia).
    cbn [Nat.add GetSizeOfVarInt_loop]. rewrite varint_prefix_pos, length_app by lia.
    replace (n + 1 - 1) with n by lia. cbn [length].
    destruct (Z.leb_spec n 0x7F).
    + replace (n / 128) with 0 by lia_mod. simpl. lia.
    + rewrite Z.shiftr_div_pow2 by lia. change (2 ^ 7) with 128.
      rewrite IH by lia_mod. rewrite Z.sub_add. lia.
Qed.

Lemma length_varint_bytes_prefix n :
  0 <= n -> length (varint_bytes n) = length (varint_prefix (n + 1)).
Proof.
  intros Hn. rewrite varint_prefix_pos by lia. unfold varint_bytes.
  rewrite !length_app. replace (n + 1 - 1) with n by lia. done.
Qed.

Section varint.
Context (k : Z) (Hk : 7 <= k).

Lemma imax_shift : imax k >> 7 = 2 ^ (k - 7) - 1.
Proof.
  unfold imax. rewrite Z.shiftr_div_pow2 by lia.
  replace (2 ^ k) with (2 ^ (k - 7) * 2 ^ 7) by (rewrite <- Z.pow_add_r by lia; f_equal; lia).
  pose proof (Z.pow_pos_nonneg 2 (k - 7)). change (2 ^ 7) with 128. lia_mod.
Qed.

Lemma imax_digits : imax k = (imax k >> 7) * 128 + 127.
Proof.
  rewrite imax_shift. unfold imax.
  replace (2 ^ k) with (2 ^ (k - 7) * 2 ^ 7) by (rewrite <- Z.pow_add_r by lia; f_equal; lia).
  change (2 ^ 7) with 128. lia.
Qed.

Lemma varint_accumulate n d : 0 <= n -> (n << 7) ||| (d &&& 0x7F) = n * 128 + d `mod` 128.
Proof. intros Hn. rewrite land_7F. apply lor_shiftl_add; lia_mod. Qed.

Section read.
Context {S : Type} `{HS : IStream S} {HL : IStreamLaws S}.

(** Reading one more digit. *)
Lemma parses_varint_step (f : nat) n d rest x :
  0 <= n <= imax k >> 7 -> is_byte d ->
  (d < 128 -> rest = [] /\ x = n * 128 + d) ->
  (128 <= d -> n * 128 + (d - 128) < imax k /\
    parses (S:=S) (ReadVarInt_loop f k (n * 128 + (d - 128) + 1)) rest x) ->
  parses (S:=S) (ReadVarInt_loop (Datatypes.S f) k n) (d :: rest) x.
Proof.
  intros Hn Hd Hlast Hcont. eapply (parses_bind _ _ [d]); [by apply parses_readdata8|].
  unfold in_uint in Hd.
  destruct (Z.ltb_spec (imax k >> 7) n); [lia|]. cbv zeta.
  rewrite varint_accumulate, digit_flag by (done || lia).
  destruct (Z.ltb_spec d 128) as [Hd'|Hd'].
  - destruct (Hlast Hd') as [-> ->]. replace (d `mod` 128) with d by lia_mod. apply parses_ret.
  - destruct (Hcont Hd') as [Hlt Hp]. replace (d `mod` 128) with (d - 128) by lia_mod.
    destruct (Z.eqb_spec (n * 128 + (d - 128)) (imax k)); [lia|done].
Qed.

Lemma parses_varint_prefix n : 0 <= n -> forall (f : nat) rest x,
  n <= imax k -> parses (S:=S) (ReadVarInt_loop f k n) rest x ->
  parses (S:=S) (ReadVarInt_loop (f + length (varint_prefix n)) k 0) (varint_prefix n ++ rest) x.
Proof.
  revert n. refine (varint_ind _ _ _).
  { intros f rest x _ Hp. by rewrite Nat.add_0_r. }
  intros n Hn IH f rest x Hm Hp. rewrite varint_prefix_pos, length_app, <- app_assoc by done.
  cbn [length]. rewrite (Nat.add_comm _ 1), Nat.add_assoc, Nat.add_1_r.
  pose proof imax_digits. apply IH; [lia_mod|]. apply parses_varint_step.
  - lia_mod.
  - unfold in_uint. lia_mod.
  - lia_mod.
  - intros _. replace ((n - 1) / 128 * 128 + ((n - 1) `mod` 128 + 128 - 128)) with (n - 1) by lia_mod.
    split; [lia|]. by rewrite Z.sub_add.
Qed.

Lemma parses_varint x : 0 <= x <= imax k -> parses (S:=S) (ReadVarInt k) (varint_bytes x) x.
Proof.
  intros Hx. pose proof imax_digits.
  pose proof (length_varint_bytes k x ltac:(lia)) as Hlen. unfold imax in Hx.
  unfold varint_bytes, ReadVarInt in *. rewrite length_app in Hlen. simpl in Hlen.
  set (p := length (varint_prefix (x / 128))) in *.
  replace (Z.to_nat (k / 7) + 2)%nat with (Datatypes.S (Z.to_nat (k / 7) + 1 - p) + p)%nat by lia_mod.
  apply parses_varint_prefix; [lia_mod|unfold imax in *; lia_mod|].
  apply parses_varint_step; unfold in_uint, imax in *; [lia_mod..| |lia_mod].
  intros _. split; [done|lia_mod].
Qed.

Lemma consumes_varint_loop (f : nat) n :
  0 <= n -> consumes (S:=S) (ReadVarInt_loop f k n)
    (λ x b, 0 <= x <= imax k /\ varint_prefix n ++ b = varint_bytes x).
Proof.
  pose proof imax_digits. revert n. induction f as [|f IH]; intros n Hn; [apply consumes_throw|].
  eapply consumes_bind; [apply consumes_readdata8|]. intros d b [Hd ->]. cbv beta zeta.
  destruct (Z.ltb_spec (imax k >> 7) n); [apply consumes_throw|].
  rewrite varint_accumulate, digit_flag by done. unfold in_uint in Hd.
  destruct (Z.ltb_spec d 128).
  - apply consumes_ret. split; [lia_mod|]. unfold varint_bytes.
    by replace ((n * 128 + d `mod` 128) / 128) with n by lia_mod;
      replace ((n * 128 + d `mod` 128) `mod` 128) with d by lia_mod.
  - destruct (Z.eqb_spec (n * 128 + d `mod` 128) (imax k)); [apply consumes_throw|].
    eapply consumes_weaken; [apply IH; lia_mod|]. intros x c [Hx Hc]. split; [done|].
    rewrite <- Hc, (varint_prefix_pos (_ + 1)), <- app_assoc by lia_mod. f_equal.
    + f_equal. lia_mod.
    + simpl. f_equal. lia_mod.
Qed.

(** Enough rounds for the accumulator to outgrow the type. *)
Lemma ReadVarInt_loop_fuel (f g : nat) n (s : S) :
  0 < n -> 2 ^ (k - 7) <= n * 2 ^ (7 * f) -> (f <= g)%nat ->
  ReadVarInt_loop (g + 1) k n s = ReadVarInt_loop (f + 1) k n s.
Proof.
  revert g n s. induction f as [|f IH]; intros g n s Hn Hf Hg.
  - rewrite Nat.add_1_r. simpl. unfold mbind, action_bind.
    destruct (ser_readdata8 s) as [[d|msg] s']; [|done].
    destruct (Z.ltb_spec (imax k >> 7) n) as [|Hle]; [done|].
    rewrite imax_shift in Hle. simpl in Hf. lia.
  - destruct g as [|g]; [lia|]. cbn [Nat.add ReadVarInt_loop]. unfold mbind, action_bind.
    destruct (ser_readdata8 s) as [[d|msg] s']; [|done].
    destruct (_ <? _); [done|]. destruct (_ =? 0); [done|]. destruct (_ =? _); [done|].
    rewrite varint_accumulate by lia. apply IH; [lia_mod| |lia].
    replace (2 ^ (7 * Datatypes.S f)) with (128 * 2 ^ (7 * f)) in Hf
      by (change 128 with (2 ^ 7); rewrite <- Z.pow_add_r by lia; f_equal; lia).
    pose proof (Z.pow_pos_nonneg 2 (7 * f)). pose proof (Z.mod_pos_bound d 128). nia.
Qed.

Lemma ReadVarInt_enough_fuel (g : nat) (s : S) :
  Z.to_nat (k / 7) + 2 <= g -> ReadVarInt_loop g k 0 s = ReadVarInt k s.
Proof.
  intros Hg. unfold ReadVarInt. destruct g as [|[|g]]; [lia..|].
  replace (Z.to_nat (k / 7) + 2)%nat with (Datatypes.S (Z.to_nat (k / 7) + 1)) by lia.
  rewrite <- (Nat.add_1_r g). cbn [ReadVarInt_loop]. unfold mbind, action_bind.
  destruct (ser_readdata8 s) as [[d|msg] s']; [|done].
  destruct (_ <? 0); [done|]. destruct (_ =? 0); [done|]. destruct (_ =? imax k); [done|].
  rewrite varint_accumulate by lia. apply ReadVarInt_loop_fuel; [lia_mod| |lia].
  rewrite <- (Z.mul_1_l (2 ^ (k - 7))). apply Z.mul_le_mono_nonneg; [lia|lia_mod|lia|].
  apply Z.pow_le_mono_r; lia_mod.
Qed.

(** The exceptions of the reader are its own and those of the stream. *)
Lemma ReadVarInt_loop_throws (P : string -> Prop) (f : nat) n :
  throws_only (S:=S) ser_readdata8 P -> P "ReadVarInt(): size too large"%string ->
  0 < n -> 2 ^ (k - 7) <= n * 2 ^ (7 * f) ->
  throws_only (S:=S) (ReadVarInt_loop (f + 1) k n) P.
Proof.
  intros H8 HP. revert n. induction f as [|f IH]; intros n Hn Hf;
    cbn [Nat.add ReadVarInt_loop]; (apply throws_only_bind; [done|]); intros d;
    (destruct (Z.ltb_spec (imax k >> 7) n) as [|Hle]; [by apply throws_only_throw|]).
  - rewrite imax_shift in Hle. simpl in Hf. lia.
  - cbv zeta. destruct (_ =? 0); [apply throws_only_ret|].
    destruct (_ =? _); [by apply throws_only_throw|].
    rewrite varint_accumulate by lia. apply IH; [lia_mod|].
    replace (2 ^ (7 * Datatypes.S f)) with (128 * 2 ^ (7 * f)) in Hf
      by (change 128 with (2 ^ 7); rewrite <- Z.pow_add_r by lia; f_equal; lia).
    pose proof (Z.pow_pos_nonneg 2 (7 * f)). pose proof (Z.mod_pos_bound d 128). nia.
Qed.

Lemma ReadVarInt_throws (P : string -> Prop) :
  throws_only (S:=S) ser_readdata8 P -> P "ReadVarInt(): size too large"%string ->
  throws_only (S:=S) (ReadVarInt k) P.
Proof.
  intros H8 HP. unfold ReadVarInt.
  replace (Z.to_nat (k / 7) + 2)%nat with (Datatypes.S (Z.to_nat (k / 7) + 1)) by lia.
  cbn [ReadVarInt_loop]. apply throws_only_bind; [done|]. intros d.
  destruct (_ <? 0); [by apply throws_only_throw|]. cbv zeta.
  destruct (_ =? 0); [apply throws_only_ret|]. destruct (_ =? imax k); [by apply throws_only_throw|].
  rewrite varint_accumulate by lia. apply ReadVarInt_loop_throws; [done..|lia_mod|].
  rewrite <- (Z.mul_1_l (2 ^ (k - 7))). apply Z.mul_le_mono_nonneg; [lia|lia_mod|lia|].
  apply Z.pow_le_mono_r; lia_mod.
Qed.
End read.

Lemma emits_each8 {S} `{OStreamLaws S} l :
  Forall is_byte l -> emits (S:=S) (ser_writedata8_each l) l.
Proof.
  induction 1 as [|x l Hx Hl IH]; [apply emits_ret|].
  apply (emits_bind _ _ [x]); [|done]. unfold ser_writedata8.
  rewrite uint_small by done. apply emits_write.
Qed.

Lemma emits_varint {S} `{OStreamLaws S} n :
  0 <= n <= imax k -> emits (S:=S) (WriteVarInt k n) (varint_bytes n).
Proof.
  intros Hn. unfold WriteVarInt. unfold imax in Hn.
  rewrite WriteVarInt_digits_bytes by (rewrite Z2Nat.id by lia; lia).
  apply emits_each8, varint_bytes_bytes. lia.
Qed.
End varint.

(** ** The integer formats are canonical *)

(** The bytes an action writes to an empty [CDataStream]. *)
Definition written (m : action CDataStream unit) : list Z := vch (m (DataStream.new [] 0 0)).2.

Lemma emits_written m b : emits m b -> written m = b.
Proof. intros Hm. unfold written. destruct (Hm (DataStream.new [] 0 0) I) as (s' & -> & ->). done. Qed.

(** On any input stream [ReadCompactSize] returns [n] exactly when [n] is at most
    [MAX_SIZE] and the stream starts with the bytes [WriteCompactSize] writes for [n],
    which it consumes: the encoding round-trips and no other encoding of [n] is accepted. *)
Theorem compact_size_canonical {S} `{IStreamLaws S} (s : S) (n : Z) (rest : list Z) :
  is_ok s ->
  (exists s', ReadCompactSize s = (Ok n, s') /\ is_pending s' = rest) <->
  (0 <= n <= MAX_SIZE /\ is_pending s = written (WriteCompactSize n) ++ rest).
Proof.
  intros Hs.
  assert (0 <= n <= MAX_SIZE -> written (WriteCompactSize n) = compact_size_bytes n) as HW.
  { unfold MAX_SIZE. intros. apply emits_written, emits_compact_size. unfold in_uint. lia. }
  split.
  - intros (s' & E & <-). destruct (consumes_compact_size s n s' Hs E) as (_ & b & Hp & Hn & ->).
    by rewrite HW.
  - intros [Hn Hp]. rewrite HW in Hp by done.
    destruct (parses_compact_size n Hn s rest Hs Hp) as (s' & E & _ & ?). eauto.
Qed.

Lemma compact_size_canonical_witness :
  (exists s', ReadCompactSize (DataStream.new [253; 0; 1; 7] 1 0) = (Ok 256, s') /\
    is_pending s' = [7]) /\
  (ReadCompactSize (DataStream.new [253; 252; 0] 1 0)).1 = Throw "non-canonical ReadCompactSize()".
Proof.
  split; [|vm_compute; reflexivity].
  apply (compact_size_canonical (DataStream.new [253; 0; 1; 7] 1 0) 256 [7]).
  - repeat split; simpl; try lia. unfold bytes, in_uint. repeat constructor; lia.
  - split; [unfold MAX_SIZE; lia|vm_compute; reflexivity].
Defined.

(** For every integer type of at least 7 value bits and any input stream,
    [ReadVarInt] returns [n] exactly when [n] is a value of the type and the stream
    starts with the bytes [WriteVarInt] writes for [n], which it consumes: "every integer
    has exactly one encoding".  The reading loop ends by itself: running it longer than
    the bound used in the definition never changes what it does. *)
Theorem varint_canonical {S} `{IStreamLaws S} (k : Z) (s : S) (n : Z) (rest : list Z) :
  7 <= k -> is_ok s ->
  ((exists s', ReadVarInt k s = (Ok n, s') /\ is_pending s' = rest) <->
   (0 <= n <= imax k /\ is_pending s = written (WriteVarInt k n) ++ rest)) /\
  (forall fuel : nat, Z.to_nat (k / 7) + 2 <= fuel -> ReadVarInt_loop fuel k 0 s = ReadVarInt k s).
Proof.
  intros Hk Hs. split; [|intros; by apply ReadVarInt_enough_fuel].
  assert (0 <= n <= imax k -> written (WriteVarInt k n) = varint_bytes n) as HW.
  { intros. apply emits_written, emits_varint; lia || apply _. }
  split.
  - intros (s' & E & <-).
    destruct (consumes_varint_loop k Hk _ 0 ltac:(lia) s n s' Hs E) as (_ & b & Hp & Hn & Hb).
    rewrite varint_prefix_0 in Hb. simpl in Hb. subst b. by rewrite HW.
  - intros [Hn Hp]. rewrite HW in Hp by done.
    destruct (parses_varint k Hk n Hn s rest Hs Hp) as (s' & E & _ & ?). eauto.
Qed.

Lemma varint_canonical_witness :
  exists s', ReadVarInt 32 (DataStream.new [0x8E; 0xFE; 0xFE; 0xFE; 0x7F; 1] 1 0) = (Ok 4294967295, s') /\
    is_pending s' = [1].
Proof.
  apply (varint_canonical 32 (DataStream.new [0x8E; 0xFE; 0xFE; 0xFE; 0x7F; 1] 1 0) 4294967295 [1]).
  - lia.
  - repeat split; simpl; try lia. unfold bytes, in_uint. repeat constructor; lia.
  - split; [vm_compute; split; discriminate|vm_compute; reflexivity].
Defined.

(** The digit loop of [WriteVarInt] never writes past [tmp], an array of
    [(sizeof(n)*8+6)/7] bytes, and [GetSizeOfVarInt] is the number of bytes written. *)
Theorem WriteVarInt_in_bounds (k bits n : Z) :
  7 <= k <= bits -> 0 <= n <= imax k ->
  length (WriteVarInt_digits (Z.to_nat k) n []) <= (bits + 6) / 7 /\
  GetSizeOfVarInt k n = length (written (WriteVarInt k n)).
Proof.
  intros Hk Hn. unfold imax in Hn.
  assert (0 <= n < 2 ^ (Z.to_nat k)) as Hn' by (rewrite Z2Nat.id by lia; lia).
  split.
  - rewrite <- length_rev, WriteVarInt_digits_bytes by done.
    etransitivity; [apply (length_varint_bytes k); lia|]. apply Z.div_le_mono; lia.
  - erewrite emits_written by (apply emits_varint; unfold imax; lia || apply _).
    rewrite length_varint_bytes_prefix by lia. unfold GetSizeOfVarInt.
    by rewrite GetSizeOfVarInt_loop_prefix by done.
Qed.

Lemma WriteVarInt_in_bounds_witness :
  length (WriteVarInt_digits 64 (2 ^ 64 - 1) []) <= (64 + 6) / 7 /\
  GetSizeOfVarInt 64 (2 ^ 64 - 1) = length (written (WriteVarInt 64 (2 ^ 64 - 1))).
Proof.
  apply (WriteVarInt_in_bounds 64 64 (2 ^ 64 - 1)); [lia|]. vm_compute. split; discriminate.
Defined.
