(* ===== verification/SerializeCodecs.v ===== *)
(** * The codecs satisfy their laws

    Instances of [CodecLaws] for the types of [serialize.h], and the properties of
    sizes and containers that follow for every lawful codec. *)

From Stdlib Require Import Sorted.
From S2P Require Import Prelude Bytes Streams Serialize SerializeLaws.

(** ** Scalars *)

#[export, refine] Instance codec_uint8_laws : CodecLaws codec_uint8 := {|
  encoding x := [x]; representable := in_uint 8 |}.
Proof.
  - intros S ?? x Hx. simpl. unfold ser_writedata8. rewrite uint_small by done. apply emits_write.
  - intros S ?? x Hx. by apply parses_readdata8.
  - auto.
Defined.

#[export, refine] Instance codec_uint16_laws : CodecLaws codec_uint16 := {|
  encoding := WriteLE16; representable := in_uint 16 |}.
Proof.
  - intros S ?? x Hx. simpl. unfold ser_writedata16. rewrite uint_small by done. apply emits_write.
  - intros S ?? x Hx. by apply parses_readdata16.
  - intros. apply le_bytes_bytes.
Defined.

#[export, refine] Instance codec_uint32_laws : CodecLaws codec_uint32 := {|
  encoding := WriteLE32; representable := in_uint 32 |}.
Proof.
  - intros S ?? x Hx. simpl. unfold ser_writedata32. rewrite uint_small by done. apply emits_write.
  - intros S ?? x Hx. by apply parses_readdata32.
  - intros. apply le_bytes_bytes.
Defined.

#[export, refine] Instance codec_uint64_laws : CodecLaws codec_uint64 := {|
  encoding := WriteLE64; representable := in_uint 64 |}.
Proof.
  - intros S ?? x Hx. simpl. unfold ser_writedata64. rewrite uint_small by done. apply emits_write.
  - intros S ?? x Hx. by apply parses_readdata64.
  - intros. apply le_bytes_bytes.
Defined.

(** Two's complement through the unsigned type of the same width. *)
Lemma sint_uint w x : 0 < w -> in_sint w x -> sint w (uint w x) = x.
Proof.
  intros Hw Hx. unfold sint, uint. rewrite Zplus_mod_idemp_l. by apply sint_small.
Qed.

#[export, refine] Instance codec_int8_laws : CodecLaws codec_int8 := {|
  encoding x := [u8 x]; representable := in_sint 8 |}.
Proof.
  - intros S ?? x Hx. apply emits_write.
  - intros S ?? x Hx. eapply parses_bind_all; [by apply parses_readdata8, uint_range|].
    rewrite sint_uint by done. apply parses_ret.
  - intros. constructor; [by apply uint_range|constructor].
Defined.

#[export, refine] Instance codec_int16_laws : CodecLaws codec_int16 := {|
  encoding x := WriteLE16 (u16 x); representable := in_sint 16 |}.
Proof.
  - intros S ?? x Hx. apply emits_write.
  - intros S ?? x Hx. eapply parses_bind_all; [by apply parses_readdata16, uint_range|].
    rewrite sint_uint by done. apply parses_ret.
  - intros. apply le_bytes_bytes.
Defined.

#[export, refine] Instance codec_int32_laws : CodecLaws codec_int32 := {|
  encoding x := WriteLE32 (u32 x); representable := in_sint 32 |}.
Proof.
  - intros S ?? x Hx. apply emits_write.
  - intros S ?? x Hx. eapply parses_bind_all; [by apply parses_readdata32, uint_range|].
    rewrite sint_uint by done. apply parses_ret.
  - intros. apply le_bytes_bytes.
Defined.

#[export, refine] Instance codec_int64_laws : CodecLaws codec_int64 := {|
  encoding x := WriteLE64 (u64 x); representable := in_sint 64 |}.
Proof.
  - intros S ?? x Hx. apply emits_write.
  - intros S ?? x Hx. eapply parses_bind_all; [by apply parses_readdata64, uint_range|].
    rewrite sint_uint by done. apply parses_ret.
  - intros. apply le_bytes_bytes.
Defined.

#[export, refine] Instance codec_bool_laws : CodecLaws codec_bool := {|
  encoding := λ x : bool, [if x then 1 else 0]; representable _ := True |}.
Proof.
  - intros S ?? [] _; apply emits_write.
  - intros S ?? [] _; (eapply parses_bind_all; [by apply parses_readdata8|apply parses_ret]).
  - intros [] _; repeat constructor; unfold in_uint; lia.
Defined.

#[export, refine] Instance codec_array_laws N : CodecLaws (codec_array N) := {|
  encoding x := x; representable x := Z.of_nat (length x) = N /\ N <= MAX_SIZE /\ bytes x |}.
Proof.
  - intros S ?? x _. apply emits_write.
  - intros S ?? x (<- & Hm & Hb). apply parses_read; [by rewrite Nat2Z.id|lia].
  - by intros x (_ & _ & ?).
Defined.

#[export, refine] Instance CVarInt_laws k : CodecLaws (CVarInt k) := {|
  encoding := varint_bytes; representable n := 7 <= k /\ 0 <= n <= imax k |}.
Proof.
  - intros S ?? n [Hk Hn]. by apply emits_varint.
  - intros S ?? n [Hk Hn]. by apply parses_varint.
  - intros n [Hk Hn]. apply varint_bytes_bytes. lia.
Defined.

#[export, refine] Instance BigEndian_laws : CodecLaws BigEndian := {|
  encoding := WriteBE16; representable := in_uint 16 |}.
Proof.
  - intros S ?? x Hx. simpl. unfold ser_writedata16be. rewrite uint_small by done. apply emits_write.
  - intros S ?? x Hx. by apply parses_readdata16be.
  - intros. apply Forall_rev, le_bytes_bytes.
Defined.

Lemma max_size_uint64 n : 0 <= n <= MAX_SIZE -> in_uint 64 n.
Proof. unfold MAX_SIZE, in_uint. lia. Qed.

Lemma u32_max_size n : 0 <= n <= MAX_SIZE -> u32 n = n.
Proof. unfold MAX_SIZE. intros. apply u32_small. lia. Qed.

#[export, refine] Instance CCompactSize_laws : CodecLaws CCompactSize := {|
  encoding := compact_size_bytes; representable n := 0 <= n <= MAX_SIZE |}.
Proof.
  - intros S ?? n Hn. by apply emits_compact_size, max_size_uint64.
  - intros S ?? n Hn. by apply parses_compact_size.
  - intros n Hn. by apply compact_size_bytes_bytes, max_size_uint64.
Defined.

(** ** Strings and byte vectors: a size and a block *)

Definition sized_block (str : list Z) : list Z := compact_size_bytes (length str) ++ str.
Definition small_block (str : list Z) : Prop := length str <= MAX_SIZE /\ bytes str.

Lemma emits_sized_block {S} `{OStreamLaws S} str :
  small_block str ->
  emits (S:=S) (WriteCompactSize (length str) ≫= λ _,
    if (length str =? 0)%nat then mret tt else os_write str) (sized_block str).
Proof.
  intros [Hl _]. apply emits_bind; [apply emits_compact_size, max_size_uint64; lia|].
  destruct (Nat.eqb_spec (length str) 0) as [E|E]; [|apply emits_write].
  apply nil_length_inv in E as ->. apply emits_ret.
Qed.

Lemma parses_block {S} `{IStreamLaws S} str :
  small_block str ->
  parses (S:=S) (if Z.of_nat (length str) =? 0 then mret [] else is_read (length str)) str str.
Proof.
  intros [Hl _]. destruct (Z.eqb_spec (length str) 0) as [E|E].
  - assert (str = []) as -> by (apply nil_length_inv; lia). apply parses_ret.
  - apply parses_read; [by rewrite Nat2Z.id|lia].
Qed.

Lemma sized_block_bytes str : small_block str -> bytes (sized_block str).
Proof.
  intros [Hl Hb]. apply Forall_app_2; [|done].
  apply compact_size_bytes_bytes, max_size_uint64. lia.
Qed.

#[export, refine] Instance LimitedString_laws Limit : CodecLaws (LimitedString Limit) := {|
  encoding := sized_block; representable str := small_block str /\ length str <= Limit |}.
Proof.
  - intros S ?? str [Hs _]. by apply emits_sized_block.
  - intros S ?? str [Hs Hl]. eapply parses_bind.
    + apply parses_compact_size. destruct Hs. lia.
    + destruct (Z.ltb_spec Limit (length str)); [lia|]. by apply parses_block.
  - intros str [Hs _]. by apply sized_block_bytes.
Defined.

#[export, refine] Instance codec_string_laws : CodecLaws codec_string := {|
  encoding := sized_block; representable := small_block |}.
Proof.
  - intros S ?? str Hs. by apply emits_sized_block.
  - intros S ?? str Hs. eapply parses_bind; [apply parses_compact_size; destruct Hs; lia|].
    cbv zeta. rewrite u32_max_size by (destruct Hs; lia). by apply parses_block.
  - intros str Hs. by apply sized_block_bytes.
Defined.

(** The blocks of 5000000 bytes reassemble the vector. *)
Lemma parses_bytes_loop {S} `{IStreamLaws S} (fuel : nat) (v b : list Z) :
  length v + length b <= MAX_SIZE -> length b <= 5000000 * fuel ->
  parses (S:=S) (Unserialize_bytes_loop fuel (length v + length b) v) b (v ++ b).
Proof.
  unfold MAX_SIZE. revert v b. induction fuel as [|fuel IH]; intros v b Hm Hf;
    cbn [Unserialize_bytes_loop]; cbv zeta.
  - assert (b = []) as -> by (apply nil_length_inv; lia). simpl.
    rewrite Z.add_0_r, Z.ltb_irrefl, app_nil_r. apply parses_ret.
  - destruct (Z.ltb_spec (length v) (length v + length b)).
    + replace (length v + length b - length v) with (Z.of_nat (length b)) by lia.
      rewrite u32_small by lia. change (1 + 4999999 / 1) with 5000000.
      set (blk := Z.min (length b) 5000000).
      eapply (parses_bind_eq (take (Z.to_nat blk) b) (drop (Z.to_nat blk) b)).
      { by rewrite take_drop. }
      { apply parses_read; [rewrite length_take; lia|unfold MAX_SIZE; lia]. }
      replace (v ++ b) with ((v ++ take (Z.to_nat blk) b) ++ drop (Z.to_nat blk) b)
        by (by rewrite <- app_assoc, take_drop).
      replace (length v + length b)
        with (length (v ++ take (Z.to_nat blk) b) + length (drop (Z.to_nat blk) b))
        by (rewrite length_app, length_take, length_drop; lia).
      apply IH; rewrite ?length_app, ?length_take, length_drop; lia.
    + assert (b = []) as -> by (apply nil_length_inv; lia). rewrite app_nil_r. apply parses_ret.
Qed.

#[export, refine] Instance codec_byte_vector_laws : CodecLaws codec_byte_vector := {|
  encoding := sized_block; representable := small_block |}.
Proof.
  - intros S ?? str Hs. by apply emits_sized_block.
  - intros S ?? str Hs. eapply parses_bind; [apply parses_compact_size; destruct Hs; lia|].
    cbv zeta. rewrite u32_max_size by (destruct Hs; lia).
    apply (parses_bytes_loop _ [] str); [by destruct Hs|]. lia_mod.
  - intros str Hs. by apply sized_block_bytes.
Defined.

(** ** Sequences of elements *)

Section elements.
Context {T : Type} (c : codec T) `{HC : !CodecLaws c}.

Definition encode_each (v : list T) : list Z := concat (encoding c <$> v).

Lemma emits_each {S} `{OStreamLaws S} v :
  Forall (representable c) v -> emits (S:=S) (Serialize_each c v) (encode_each v).
Proof.
  induction 1 as [|x v Hx Hv IH]; [apply emits_ret|].
  apply emits_bind; [by apply Serialize_emits|done].
Qed.

Lemma parses_each {S} `{IStreamLaws S} v :
  Forall (representable c) v -> parses (S:=S) (Unserialize_each c (length v)) (encode_each v) v.
Proof.
  induction 1 as [|x v Hx Hv IH]; [apply parses_ret|].
  eapply parses_bind; [by apply Unserialize_parses|].
  eapply parses_bind_all; [exact IH|apply parses_ret].
Qed.

Lemma encode_each_bytes v : Forall (representable c) v -> bytes (encode_each v).
Proof.
  induction 1 as [|x v Hx Hv IH]; [constructor|].
  apply Forall_app_2; [by apply encoding_bytes|done].
Qed.

Lemma encode_each_app v w : encode_each (v ++ w) = encode_each v ++ encode_each w.
Proof. unfold encode_each. by rewrite fmap_app, concat_app. Qed.

(** The rounds of [5000000 / sizeof(T)] elements reassemble the vector. *)
Lemma parses_vector_loop {S} `{IStreamLaws S} (sizeof_T : Z) (fuel : nat) (v w : list T) :
  0 < sizeof_T <= 5000000 -> length v + length w <= MAX_SIZE -> (length w <= fuel)%nat ->
  Forall (representable c) w ->
  parses (S:=S) (Unserialize_vector_loop c sizeof_T fuel (length v + length w) (length v) v)
    (encode_each w) (v ++ w).
Proof.
  unfold MAX_SIZE. intros Hs.
  assert (1 <= 5000000 / sizeof_T <= 5000000) as Hchunk.
  { split; [apply Z.div_le_lower_bound; lia|apply Z.div_le_upper_bound; nia]. }
  revert v w. induction fuel as [|fuel IH]; intros v w Hm Hf Hw;
    cbn [Unserialize_vector_loop]; cbv zeta.
  - assert (w = []) as -> by (apply nil_length_inv; lia). simpl.
    rewrite Z.add_0_r, Z.ltb_irrefl, app_nil_r. apply parses_ret.
  - destruct (Z.ltb_spec (length v) (length v + length w)).
    + rewrite u32_small by lia.
      set (d := Z.min (length w) (5000000 / sizeof_T)).
      replace (if _ <? _ then _ else _) with (length v + d) by (destruct (Z.ltb_spec
        (length v + length w) (length v + 5000000 / sizeof_T)); lia).
      replace (Z.to_nat (length v + d) - length v)%nat with (length (take (Z.to_nat d) w))
        by (rewrite length_take; lia).
      eapply (parses_bind_eq (encode_each (take (Z.to_nat d) w)) (encode_each (drop (Z.to_nat d) w))).
      { by rewrite <- encode_each_app, take_drop. }
      { by apply parses_each, Forall_take. }
      replace (v ++ w) with ((v ++ take (Z.to_nat d) w) ++ drop (Z.to_nat d) w)
        by (by rewrite <- app_assoc, take_drop).
      replace (length v + length w)
        with (length (v ++ take (Z.to_nat d) w) + length (drop (Z.to_nat d) w))
        by (rewrite length_app, length_take, length_drop; lia).
      replace (length v + d) with (Z.of_nat (length (v ++ take (Z.to_nat d) w)))
        by (rewrite length_app, length_take; lia).
      apply IH; rewrite ?length_app, ?length_take, ?length_drop; try lia. by apply Forall_drop.
    + assert (w = []) as -> by (apply nil_length_inv; lia). rewrite app_nil_r. apply parses_ret.
Qed.

Definition encode_sequence (v : list T) : list Z := compact_size_bytes (length v) ++ encode_each v.
Definition small_sequence (v : list T) : Prop := length v <= MAX_SIZE /\ Forall (representable c) v.

Lemma emits_sequence {S} `{OStreamLaws S} v :
  small_sequence v ->
  emits (S:=S) (WriteCompactSize (length v) ≫= λ _, Serialize_each c v) (encode_sequence v).
Proof.
  intros [Hl Hv]. apply emits_bind; [apply emits_compact_size, max_size_uint64; lia|by apply emits_each].
Qed.

Lemma encode_sequence_bytes v : small_sequence v -> bytes (encode_sequence v).
Proof.
  intros [Hl Hv]. apply Forall_app_2; [|by apply encode_each_bytes].
  apply compact_size_bytes_bytes, max_size_uint64. lia.
Qed.

#[export, refine] Instance codec_vector_laws sizeof_T : CodecLaws (codec_vector c sizeof_T) := {|
  encoding := encode_sequence;
  representable v := small_sequence v /\ 0 < sizeof_T <= 5000000 |}.
Proof.
  - intros S ?? v [Hv _]. by apply emits_sequence.
  - intros S ?? v [[Hl Hv] Hs]. eapply parses_bind; [apply parses_compact_size; lia|].
    cbv zeta. rewrite u32_max_size by lia.
    apply (parses_vector_loop sizeof_T _ [] v); [done..|lia|done].
  - intros v [Hv _]. by apply encode_sequence_bytes.
Defined.

#[export, refine] Instance codec_list_laws : CodecLaws (codec_list c) := {|
  encoding := encode_sequence; representable := small_sequence |}.
Proof.
  - intros S ?? v Hv. by apply emits_sequence.
  - intros S ?? v [Hl Hv]. eapply parses_bind; [apply parses_compact_size; lia|].
    rewrite u32_max_size, Nat2Z.id by lia. by apply parses_each.
  - intros v Hv. by apply encode_sequence_bytes.
Defined.

#[export, refine] Instance codec_ptr_laws : CodecLaws (codec_ptr c) := {|
  encoding := encoding c; representable := representable c |}.
Proof.
  - intros S ?? x Hx. by apply (Serialize_emits (c:=c)).
  - intros S ?? x Hx. by apply (Unserialize_parses (c:=c)).
  - intros x Hx. by apply (encoding_bytes (c:=c)).
Defined.

End elements.

#[export, refine] Instance codec_enum_laws {E} (c : codec Z) `{!CodecLaws c} (to_Z : E -> Z) of_Z :
    CodecLaws (codec_enum c to_Z of_Z) := {|
  encoding a := encoding c (to_Z a);
  representable a := representable c (to_Z a) /\ of_Z (to_Z a) = a |}.
Proof.
  - intros S ?? a [Ha _]. by apply (Serialize_emits (c:=c)).
  - intros S ?? a [Ha E1]. eapply parses_bind_all; [by apply Unserialize_parses|].
    rewrite E1. apply parses_ret.
  - intros a [Ha _]. by apply (encoding_bytes (c:=c)).
Defined.

(** ** Products *)

Section products.
Context {A B : Type} (ca : codec A) (cb : codec B) `{!CodecLaws ca, !CodecLaws cb}.

Definition encode_both (x : A * B) : list Z := encoding ca x.1 ++ encoding cb x.2.
Definition representable_both (x : A * B) : Prop := representable ca x.1 /\ representable cb x.2.

Lemma emits_both {S} `{OStreamLaws S} x :
  representable_both x ->
  emits (S:=S) (Serialize ca x.1 ≫= λ _, Serialize cb x.2) (encode_both x).
Proof. intros []. apply emits_bind; by apply Serialize_emits. Qed.

Lemma parses_both {S} `{IStreamLaws S} x :
  representable_both x ->
  parses (S:=S) (a ← Unserialize ca; b ← Unserialize cb; mret (a, b)) (encode_both x) x.
Proof.
  intros []. eapply parses_bind; [by apply Unserialize_parses|].
  eapply parses_bind_all; [by apply Unserialize_parses|]. destruct x. apply parses_ret.
Qed.

Lemma encode_both_bytes x : representable_both x -> bytes (encode_both x).
Proof. intros []. apply Forall_app_2; by apply encoding_bytes. Qed.

#[export, refine] Instance codec_pair_laws : CodecLaws (codec_pair ca cb) := {|
  encoding := encode_both; representable := representable_both |}.
Proof.
  - intros S ?? x Hx. by apply emits_both.
  - intros S ?? x Hx. by apply parses_both.
  - apply encode_both_bytes.
Defined.

#[export, refine] Instance codec_tuple_laws : CodecLaws (codec_tuple ca cb) := {|
  encoding := encode_both; representable := representable_both |}.
Proof.
  - intros S ?? x Hx. by apply emits_both.
  - intros S ?? x Hx. by apply parses_both.
  - apply encode_both_bytes.
Defined.

#[export, refine] Instance codec_many_cons_laws : CodecLaws (codec_many_cons ca cb) := {|
  encoding := encode_both; representable := representable_both |}.
Proof.
  - intros S ?? x Hx. by apply emits_both.
  - intros S ?? x Hx. by apply parses_both.
  - apply encode_both_bytes.
Defined.
End products.

#[export, refine] Instance codec_many_nil_laws : CodecLaws codec_many_nil := {|
  encoding _ := []; representable _ := True |}.
Proof.
  - intros. apply emits_ret.
  - intros S ?? [] _. apply parses_ret.
  - constructor.
Defined.

(** ** Maps and sets *)

(** Rebuilding a container from its elements gives it back. *)
Class ContainerLaws (E M : Type) `{Container E M} := {
  c_wf : M -> Prop;
  c_rebuild (m : M) : c_wf m -> foldl (λ m e, c_insert e m) c_empty (c_elements m) = m;
}.

Section containers.
Context {E M : Type} `{HC : Container E M} {HL : ContainerLaws E M} (c : codec E) `{!CodecLaws c}.

Lemma parses_map_loop {S} `{IStreamLaws S} (l : list E) (m : M) :
  Forall (representable c) l ->
  parses (S:=S) (UnserializeMap_loop c (length l) m) (encode_each c l)
    (foldl (λ m e, c_insert e m) m l).
Proof.
  intros Hl. revert m. induction Hl as [|x l Hx Hl IH]; intros m; [apply parses_ret|].
  eapply parses_bind; [by apply Unserialize_parses|apply IH].
Qed.

#[export, refine] Instance codec_map_laws : CodecLaws (codec_map (M:=M) c) := {|
  encoding m := encode_sequence c (c_elements m);
  representable m := c_wf m /\ small_sequence c (c_elements m) |}.
Proof.
  - intros S ?? m [_ Hm]. by apply emits_sequence.
  - intros S ?? m [Hw [Hl Hm]]. eapply parses_bind; [apply parses_compact_size; lia|].
    rewrite u32_max_size, Nat2Z.id by lia.
    pose proof (parses_map_loop (S:=S) _ c_empty Hm) as Hp. by rewrite c_rebuild in Hp.
  - intros m [_ Hm]. by apply encode_sequence_bytes.
Defined.
End containers.

(** [std::map] and [std::set]: the elements in the order of their keys; insertion
    keeps the element already there. *)
Definition ordered {K E : Type} (key : E -> K) (lt : K -> K -> bool) : Type := list E.

Fixpoint ordered_insert {K E} (key : E -> K) (lt : K -> K -> bool) (e : E) (m : list E) : list E :=
  match m with
  | [] => [e]
  | e' :: m' =>
      if lt (key e) (key e') then e :: m
      else if lt (key e') (key e) then e' :: ordered_insert key lt e m'
      else m
  end.

#[export] Instance ordered_container {K E} (key : E -> K) lt : Container E (ordered key lt) := {|
  c_empty := []; c_insert := ordered_insert key lt; c_elements := λ m, m |}.

Lemma ordered_insert_last {K E} (key : E -> K) lt e m :
  Forall (λ e', lt (key e') (key e) = true /\ lt (key e) (key e') = false) m ->
  ordered_insert key lt e m = m ++ [e].
Proof. induction 1 as [|e' m [H1 H2] Hm IH]; simpl; [done|]. by rewrite H1, H2, IH. Qed.

Definition key_lt {K E} (key : E -> K) (lt : K -> K -> bool) (e e' : E) : Prop :=
  lt (key e) (key e') = true /\ lt (key e') (key e) = false.

Lemma ordered_rebuild {K E} (key : E -> K) lt (m m' : list E) :
  StronglySorted (key_lt key lt) (m' ++ m) ->
  foldl (λ m e, ordered_insert key lt e m) m' m = m' ++ m.
Proof.
  revert m'. induction m as [|e m IH]; intros m' Hs; simpl; [by rewrite app_nil_r|].
  rewrite ordered_insert_last.
  - rewrite IH; by rewrite <- app_assoc.
  - clear IH. induction m' as [|e' m' IH]; [constructor|].
    simpl in Hs. apply StronglySorted_inv in Hs as [Hs Hf].
    apply Forall_app in Hf as [_ Hf]. apply Forall_cons in Hf as [Hf _].
    constructor; [exact Hf|by apply IH].
Qed.

#[export, refine] Instance ordered_laws {K E} (key : E -> K) lt : ContainerLaws E (ordered key lt) := {|
  c_wf := StronglySorted (key_lt key lt) |}.
Proof. intros m Hm. by apply (ordered_rebuild key lt m []). Defined.

(** [std::unordered_map], in some iteration order. *)
#[export] Instance gmap_container {K T} `{Countable K} : Container (K * T) (gmap K T) := {|
  c_empty := ∅;
  c_insert e m := match m !! e.1 with Some _ => m | None => <[e.1 := e.2]> m end;
  c_elements := map_to_list |}.

Lemma gmap_rebuild {K T} `{Countable K} (l : list (K * T)) (m : gmap K T) :
  NoDup l.*1 -> Forall (λ e, m !! e.1 = None) l ->
  foldl (λ m e, c_insert e m) m l = list_to_map l ∪ m.
Proof.
  revert m. induction l as [|[k t] l IH]; intros m Hd Hn; simpl.
  { by rewrite map_empty_union. }
  inversion Hd as [|?? Hk Hd']; subst. inversion Hn as [|?? Hn1 Hn2]; subst. simpl in *.
  rewrite Hn1, IH.
  - rewrite <- insert_union_r, insert_union_l; [done|].
    apply not_elem_of_list_to_map_1. done.
  - done.
  - eapply Forall_impl; [|intros e H1; exact H1]. apply Forall_forall. intros e He.
    rewrite Forall_forall in Hn2. rewrite lookup_insert_ne; [by apply Hn2|].
    intros ->. apply Hk. by apply list_elem_of_fmap_2.
Qed.

#[export, refine] Instance gmap_laws {K T} `{Countable K} : ContainerLaws (K * T) (gmap K T) := {|
  c_wf _ := True |}.
Proof.
  intros m _. simpl c_empty. simpl c_elements. rewrite gmap_rebuild.
  - by rewrite map_union_empty, list_to_map_to_list.
  - apply NoDup_fst_map_to_list.
  - apply Forall_forall. intros. apply lookup_empty.
Defined.

(** ** Properties of every codec *)

(** Whatever lawful type a vector holds, the bytes [Serialize] writes to any output
    stream are read back by [Unserialize] from any input stream that starts with them:
    the loop that grows the vector by [5000000 / sizeof(T)] elements per round returns
    the same elements in the same order, never runs out of rounds and consumes exactly
    those bytes. *)
Theorem vector_roundtrip {T} (c : codec T) `{!CodecLaws c} (sizeof_T : Z) (v : list T)
    {O} `{OStreamLaws O} (o : O) {S} `{IStreamLaws S} (s : S) (rest : list Z) :
  0 < sizeof_T <= 5000000 -> length v <= MAX_SIZE -> Forall (representable c) v ->
  let b := written (Serialize (codec_vector c sizeof_T) v) in
  os_room b o -> is_ok s -> is_pending s = b ++ rest ->
  (exists o', Serialize (codec_vector c sizeof_T) v o = (Ok tt, o') /\ os_appends b o o') /\
  exists s', Unserialize (codec_vector c sizeof_T) s = (Ok v, s') /\ is_pending s' = rest.
Proof.
  intros Hz Hl Hv b. unfold b.
  assert (representable (codec_vector c sizeof_T) v) as Hr by done.
  rewrite (emits_written _ _ (Serialize_emits (c:=codec_vector c sizeof_T) v Hr)).
  intros Ho Hs Hp. split; [by apply Serialize_emits|].
  destruct (Unserialize_parses (c:=codec_vector c sizeof_T) v Hr s rest Hs Hp) as (s' & E & _ & ?).
  eauto.
Qed.

Lemma vector_roundtrip_witness :
  exists s', Unserialize (codec_vector (codec_pair codec_uint16 codec_string) 40)
    (DataStream.new ([2; 1; 2; 1; 65; 3; 4; 0] ++ [9]) 1 70219)
    = (Ok [(513, [65]); (1027, [])], s') /\ is_pending s' = [9].
Proof.
  apply (vector_roundtrip (codec_pair codec_uint16 codec_string) 40 [(513, [65]); (1027, [])]
    (DataStream.new [] 1 70219) (DataStream.new ([2; 1; 2; 1; 65; 3; 4; 0] ++ [9]) 1 70219) [9]).
  - lia.
  - vm_compute. discriminate.
  - repeat constructor; simpl; unfold in_uint, MAX_SIZE; simpl; lia || (repeat constructor; lia).
  - done.
  - repeat split; simpl; try lia. unfold bytes, in_uint. repeat constructor; lia.
  - vm_compute. reflexivity.
Defined.

(** Maps and sets round-trip as well: reading inserts the elements one by one into
    an empty container, and gives back the map that was written, for [std::map] and
    [std::set] (sorted by key, where insertion keeps the element already present) and for
    [std::unordered_map] alike. *)
Theorem map_roundtrip {E M} `{ContainerLaws E M} (c : codec E) `{!CodecLaws c} (m : M)
    {S} `{IStreamLaws S} (s : S) (rest : list Z) :
  c_wf m -> length (c_elements m) <= MAX_SIZE -> Forall (representable c) (c_elements m) ->
  is_ok s -> is_pending s = written (Serialize (codec_map c) m) ++ rest ->
  exists s', Unserialize (codec_map c) s = (Ok m, s') /\ is_pending s' = rest.
Proof.
  intros Hw Hl Hv Hs.
  assert (representable (codec_map (M:=M) c) m) as Hr by done.
  rewrite (emits_written _ _ (Serialize_emits (c:=codec_map (M:=M) c) m Hr)). intros Hp.
  destruct (Unserialize_parses (c:=codec_map (M:=M) c) m Hr s rest Hs Hp) as (s' & E1 & _ & ?).
  eauto.
Qed.

Lemma map_roundtrip_witness :
  exists s', Unserialize (codec_map (M:=ordered fst Z.ltb) (codec_pair codec_uint8 codec_bool))
    (DataStream.new [2; 5; 1; 7; 0] 1 70219) = (Ok [(5, true); (7, false)], s') /\
    is_pending s' = [].
Proof.
  apply (map_roundtrip (codec_pair codec_uint8 codec_bool)
    ([(5, true); (7, false)] : ordered fst Z.ltb) (DataStream.new [2; 5; 1; 7; 0] 1 70219) []).
  - repeat constructor.
  - vm_compute. discriminate.
  - repeat constructor; simpl; unfold in_uint; lia.
  - repeat split; simpl; try lia. unfold bytes, in_uint. repeat constructor; lia.
  - vm_compute. reflexivity.
Defined.

(** [GetSerializeSize], which serializes to a stream that only counts, is the
    number of bytes written (modulo the width of [size_t]) for every lawful type, and the
    shortcut overload of [WriteCompactSize] for [CSizeComputer] agrees with the generic
    template. *)
Theorem GetSerializeSize_spec {T} (c : codec T) `{!CodecLaws c} (x : T) (n : Z) (sc : CSizeComputer) :
  representable c x -> in_uint 64 n -> in_uint 64 (nSize sc) ->
  GetSerializeSize c x = u64 (length (written (Serialize c x))) /\
  WriteCompactSize n sc = (Ok tt, WriteCompactSize_SizeComputer n sc).
Proof.
  intros Hx Hn Hsc. split.
  - rewrite (emits_written _ _ (Serialize_emits (c:=c) x Hx)). unfold GetSerializeSize.
    destruct (Serialize_emits (c:=c) x Hx SizeComputer.new) as (s' & -> & ->); [by apply (uint_range 64 0)|done].
  - destruct (emits_compact_size n Hn sc) as (s' & -> & ->); [done|].
    unfold WriteCompactSize_SizeComputer, SizeComputer.seek. simpl.
    unfold SizeComputer.write. by rewrite length_compact_size_bytes.
Qed.

Lemma GetSerializeSize_spec_witness :
  GetSerializeSize codec_string [1; 2; 3] = 4 /\
  WriteCompactSize 70000 (mkCSizeComputer 7) = (Ok tt, mkCSizeComputer 12).
Proof.
  apply (GetSerializeSize_spec codec_string [1; 2; 3] 70000 (mkCSizeComputer 7)).
  - split; [vm_compute; discriminate|]. unfold bytes, in_uint. repeat constructor; lia.
  - unfold in_uint. lia.
  - unfold in_uint. simpl. lia.
Defined.
