(* ===== verification/BitSets.v ===== *)
(** * Bit sets: the CFixedBitSet family of serialize.h

    [CFixedBitSet], [CDynamicBitSet], [CFixedVarIntsBitSet] and [CAutoBitSet]: how the
    quorum code puts vectors of bits on the wire.  Each is a codec of [list bool]; the
    laws give round trips, and the reader of the offset format is shown never to index
    its vector out of range whatever bytes it is fed. *)

From S2P Require Import Prelude Bytes Streams Serialize SerializeLaws SerializeCodecs.

#[local] Arguments Nat.modulo : simpl never.
#[local] Arguments Nat.div : simpl never.

(** ** CFixedBitSet *)

(** Bit [p] goes to bit [p % 8] of byte [p / 8]. *)
Definition set_bit (vec : list bool) (vBytes : list Z) (p : nat) : list Z :=
  alter (λ x, u8 (x ||| ((if (vec !!! p : bool) then 1 else 0) << (p mod 8)%nat))) (p / 8)%nat vBytes.

Definition CFixedBitSet_bytes (size : Z) (vec : list bool) : list Z :=
  let vBytes := replicate (Z.to_nat (u64 (size + 7) / 8)) 0 in
  let ms := Z.min size (length vec) in
  foldl (set_bit vec) vBytes (seq 0 (Z.to_nat ms)).

Definition get_bit (vBytes : list Z) (p : nat) : bool :=
  negb (((vBytes !!! (p / 8)%nat) &&& (1 << (p mod 8)%nat)) =? 0).

Definition CFixedBitSet_rest_set (size : Z) (vBytes : list Z) : bool :=
  if Z.of_nat (length vBytes) * 8 =? size then false
  else
    let rem := length vBytes * 8 - size in
    let m := u8 (Z.lnot (u8 (0xff >> rem))) in
    negb (((vBytes !!! (length vBytes - 1)%nat) &&& m) =? 0).

Definition CFixedBitSet (size : Z) : codec (list bool) :=
  Codec
    (λ (S : Type) (_ : OStream S) (vec : list bool), os_write (CFixedBitSet_bytes size vec))
    (λ (S : Type) (_ : IStream S),
      vBytes ← is_read (u64 (size + 7) / 8);
      let vec := get_bit vBytes <$> seq 0 (Z.to_nat size) in
      if CFixedBitSet_rest_set size vBytes then throw "Out-of-range bits set" else mret vec).

(** ** CDynamicBitSet *)

Definition CDynamicBitSet : codec (list bool) :=
  Codec
    (λ (S : Type) (_ : OStream S) (vec : list bool),
      WriteCompactSize (length vec) ≫= λ _, Serialize (CFixedBitSet (length vec)) vec)
    (λ (S : Type) (_ : IStream S), size ← ReadCompactSize; Unserialize (CFixedBitSet size)).

(** ** CFixedVarIntsBitSet *)

Fixpoint CFixedVarIntsBitSet_write {S} `{OStream S} (i last : Z) (vec : list bool) : action S unit :=
  match vec with
  | [] => WriteVarInt 32 0 (* stopper *)
  | true :: vec =>
      WriteVarInt 32 (u32 (i - last)) ≫= λ _, CFixedVarIntsBitSet_write (i + 1) i vec
  | false :: vec => CFixedVarIntsBitSet_write (i + 1) last vec
  end.

(** [vec[idx] = true]; an index out of range is undefined behaviour. *)
Definition vector_set (vec : list bool) (idx : Z) : option (list bool) :=
  if (0 <=? idx) && (idx <? length vec) then Some (<[Z.to_nat idx := true]> vec) else None.

Fixpoint CFixedVarIntsBitSet_read {S} `{IStream S} (fuel : nat) (size last : Z) (vec : list bool) :
    action S (list bool) :=
  match fuel with
  | O => throw "out of fuel"
  | S fuel =>
      offset ← ReadVarInt 32;
      if offset =? 0 then mret vec
      else
        let idx := i32 (last + offset) in
        (* idx is converted to size_t for the comparison *)
        if size <=? u64 idx then throw "out of bounds index"
        else if negb (last =? -1) && (idx <=? last) then throw "offset overflow"
        else match vector_set vec idx with
             | Some vec => CFixedVarIntsBitSet_read fuel size idx vec
             | None => throw "undefined behaviour"
             end
  end.

(** The index grows with every round and stays below [size]. *)
Definition CFixedVarIntsBitSet (size : Z) : codec (list bool) :=
  Codec
    (λ (S : Type) (_ : OStream S) (vec : list bool), CFixedVarIntsBitSet_write 0 (-1) vec)
    (λ (S : Type) (_ : IStream S),
      CFixedVarIntsBitSet_read (Z.to_nat size + 1) size (-1) (replicate (Z.to_nat size) false)).

(** ** CAutoBitSet *)

Definition CAutoBitSet (size : Z) : codec (list bool) :=
  Codec
    (λ (S : Type) (_ : OStream S) (vec : list bool),
      assert (Z.of_nat (length vec) =? size) ≫= λ _,
      let size1 := GetSerializeSize (CFixedBitSet size) vec in
      let size2 := GetSerializeSize (CFixedVarIntsBitSet size) vec in
      if size1 <? size2 then
        ser_writedata8 0 ≫= λ _, Serialize (CFixedBitSet (length vec)) vec
      else
        ser_writedata8 1 ≫= λ _, Serialize (CFixedVarIntsBitSet (length vec)) vec)
    (λ (S : Type) (_ : IStream S),
      isVarInts ← ser_readdata8;
      if negb (isVarInts =? 0) && negb (isVarInts =? 1) then
        throw "invalid value for isVarInts byte"
      else if isVarInts =? 0 then Unserialize (CFixedBitSet size)
      else Unserialize (CFixedVarIntsBitSet size)).

(** ** Bits and bytes *)

Section fixed.
Context (size : Z) (Hsize : 0 <= size <= MAX_SIZE).
Local Abbreviation nb := (Z.to_nat (u64 (size + 7) / 8)).

Lemma fixed_nb : Z.of_nat nb = (size + 7) / 8.
Proof. unfold MAX_SIZE in Hsize. rewrite u64_small by lia. lia_mod. Qed.

Lemma length_set_bits vec l v : length (foldl (set_bit vec) v l) = length v.
Proof. revert v. induction l; intros v; simpl; [done|]. rewrite IHl. apply length_alter. Qed.

Lemma testbit_bool_shift (b : bool) (p j : nat) :
  (j < 8)%nat ->
  Z.testbit ((if b then 1 else 0) << (p mod 8)%nat) j = b && bool_decide (j = p mod 8)%nat.
Proof.
  intros Hj. rewrite Z.shiftl_spec by lia. destruct b; [|by rewrite Z.bits_0].
  case_bool_decide as Hd; simpl.
  - subst j. by rewrite Z.sub_diag.
  - destruct (decide (j < p mod 8)%nat); [by rewrite Z.testbit_neg_r by lia|].
    change 1 with (2 ^ 0). apply Z.pow2_bits_false. lia.
Qed.

(** The bytes after the first [n] bits were stored. *)
Lemma testbit_set_bits vec (n q j : nat) :
  (n <= length vec)%nat -> (n <= 8 * nb)%nat -> (q < nb)%nat -> (j < 8)%nat ->
  let v := foldl (set_bit vec) (replicate nb 0) (seq 0 n) in
  Z.testbit (v !!! q) j = bool_decide (8 * q + j < n)%nat && (vec !!! (8 * q + j)%nat).
Proof.
  intros Hn Hb Hq Hj. induction n as [|n IH]; cbv zeta in *.
  { cbn [seq foldl]. rewrite lookup_total_replicate_2 by done. by rewrite Z.bits_0, bool_decide_false by lia. }
  rewrite seq_S, foldl_snoc. specialize (IH ltac:(lia) ltac:(lia)). rewrite Nat.add_0_l.
  unfold set_bit at 1. destruct (decide (q = (n / 8)%nat)) as [->|Hne].
  - rewrite list_lookup_total_alter_eq
      by (rewrite length_set_bits, length_replicate; done).
    rewrite testbit_uint, (proj2 (Z.ltb_lt j 8)), Z.lor_spec, IH, testbit_bool_shift by lia.
    rewrite andb_true_l. destruct (decide (j = n mod 8)%nat) as [->|Hjn].
    + rewrite <- (Nat.div_mod_eq n 8). rewrite (bool_decide_false (n < n)%nat), !bool_decide_true by lia.
      by destruct (vec !!! n).
    + rewrite (bool_decide_false (j = _)), andb_false_r, orb_false_r by done.
      f_equal. apply bool_decide_ext. pose proof (Nat.div_mod_eq n 8). lia.
  - rewrite list_lookup_total_alter_ne by done. rewrite IH. f_equal. apply bool_decide_ext.
    pose proof (Nat.div_mod_eq n 8). pose proof (Nat.mod_upper_bound n 8). lia.
Qed.

Lemma set_bits_bytes vec l v : bytes v -> bytes (foldl (set_bit vec) v l).
Proof.
  revert v. induction l as [|p l IH]; intros v Hv; simpl; [done|]. apply IH.
  apply Forall_alter; [done|]. intros. by apply uint_range.
Qed.

Lemma get_bit_testbit v (p : nat) : get_bit v p = Z.testbit (v !!! (p / 8)%nat) (p mod 8)%nat.
Proof. unfold get_bit. by rewrite land_bit_zero, negb_involutive by lia. Qed.

(** Every byte of the encoding, bit by bit. *)
Lemma testbit_fixed_bytes vec (q j : nat) :
  Z.of_nat (length vec) = size -> (q < nb)%nat -> (j < 8)%nat ->
  Z.testbit (CFixedBitSet_bytes size vec !!! q) j =
    bool_decide (8 * q + j < length vec)%nat && (vec !!! (8 * q + j)%nat).
Proof.
  intros Hv Hq Hj. pose proof fixed_nb. unfold CFixedBitSet_bytes. cbv zeta.
  replace (Z.to_nat (Z.min size (length vec))) with (length vec) by lia.
  apply testbit_set_bits; lia_mod.
Qed.

Lemma length_fixed_bytes vec : length (CFixedBitSet_bytes size vec) = nb.
Proof. unfold CFixedBitSet_bytes. by rewrite length_set_bits, length_replicate. Qed.

Lemma fixed_bytes_bytes vec : bytes (CFixedBitSet_bytes size vec).
Proof. apply set_bits_bytes, Forall_replicate. by split. Qed.

(** The mask of the unused bits of the last byte. *)
Lemma testbit_rest_mask rem (j : nat) :
  0 <= rem -> (j < 8)%nat ->
  Z.testbit (u8 (Z.lnot (u8 (0xff >> rem)))) j = (8 <=? j + rem).
Proof.
  intros Hr Hj. rewrite testbit_uint, Z.lnot_spec, testbit_uint, Z.shiftr_spec by lia.
  change 0xff with (Z.ones 8). rewrite Z.testbit_ones_nonneg by lia.
  destruct (Z.ltb_spec j 8), (Z.ltb_spec (j + rem) 8), (Z.leb_spec 8 (j + rem)); done || lia.
Qed.

(** The check for unused bits passes exactly when they are all zero. *)
Lemma rest_set_false v :
  length v = nb -> bytes v ->
  CFixedBitSet_rest_set size v = false <->
  forall q j : nat, (q < nb)%nat -> (j < 8)%nat -> size <= 8 * q + j -> Z.testbit (v !!! q) j = false.
Proof.
  intros Hl Hb. pose proof fixed_nb as Hnb. unfold CFixedBitSet_rest_set. rewrite Hl.
  destruct (Z.eqb_spec (Z.of_nat nb * 8) size) as [E|E].
  { split; [|done]. intros _ q j Hq Hj Hs. lia. }
  set (rem := nb * 8 - size).
  assert (0 < rem < 8) as Hrem by (unfold rem; lia_mod).
  rewrite negb_false_iff, Z.eqb_eq. split.
  - intros H0 q j Hq Hj Hs. assert (q = (nb - 1)%nat) as -> by lia.
    apply (f_equal (λ z, Z.testbit z j)) in H0.
    rewrite Z.land_spec, testbit_rest_mask, Z.bits_0 in H0 by lia.
    rewrite (proj2 (Z.leb_le _ _)), andb_true_r in H0 by lia. done.
  - intros Hz. apply (uint_bits_inj 8); [lia| |by split|].
    + apply in_uint_land; [lia| |apply uint_range; lia].
      apply (Forall_lookup_total_1 _ _ (nb - 1)%nat); [done|]. lia.
    + intros i Hi. rewrite <- (Z2Nat.id i) by lia.
      rewrite Z.land_spec, testbit_rest_mask, Z.bits_0 by lia.
      destruct (Z.leb_spec 8 (Z.to_nat i + rem)); [|apply andb_false_r].
      rewrite (Hz (nb - 1)%nat) by lia. done.
Qed.

Lemma rest_set_fixed_bytes vec :
  Z.of_nat (length vec) = size -> CFixedBitSet_rest_set size (CFixedBitSet_bytes size vec) = false.
Proof.
  intros Hv. apply rest_set_false; [apply length_fixed_bytes|apply fixed_bytes_bytes|].
  intros q j Hq Hj Hs. rewrite testbit_fixed_bytes by done. by rewrite bool_decide_false by lia.
Qed.

Lemma get_bits_fixed_bytes vec :
  Z.of_nat (length vec) = size ->
  get_bit (CFixedBitSet_bytes size vec) <$> seq 0 (Z.to_nat size) = vec.
Proof.
  intros Hv. apply list_eq_same_length with (Z.to_nat size);
    [lia|by rewrite length_fmap, length_seq|].
  intros i x y Hi Hx Hy. rewrite list_lookup_fmap, lookup_seq_lt in Hx by lia.
  simpl in Hx. injection Hx as <-. pose proof fixed_nb.
  rewrite get_bit_testbit, testbit_fixed_bytes by (done || lia_mod).
  rewrite <- (Nat.div_mod_eq i 8), bool_decide_true by lia.
  by apply list_lookup_total_correct in Hy.
Qed.

(** Conversely, accepted bytes are the encoding of the bits read from them. *)
Lemma fixed_bytes_get_bits v :
  length v = nb -> bytes v -> CFixedBitSet_rest_set size v = false ->
  CFixedBitSet_bytes size (get_bit v <$> seq 0 (Z.to_nat size)) = v.
Proof.
  intros Hl Hb Hr. set (vec := get_bit v <$> seq 0 (Z.to_nat size)).
  assert (Z.of_nat (length vec) = size) as Hv by (unfold vec; rewrite length_fmap, length_seq; lia).
  pose proof (proj1 (rest_set_false v Hl Hb) Hr) as Hz.
  apply list_eq_same_length with nb; [done|by rewrite length_fixed_bytes|].
  intros q x y Hq Hx Hy.
  assert (is_byte x) by (by eapply Forall_lookup_1; [apply fixed_bytes_bytes|]).
  assert (is_byte y) by (by eapply Forall_lookup_1).
  apply list_lookup_total_correct in Hx as <-, Hy as <-.
  apply (uint_bits_inj 8); [done..|]. intros i Hi. rewrite <- (Z2Nat.id i) by lia.
  rewrite testbit_fixed_bytes by (done || lia).
  case_bool_decide as Hlt; rewrite ?andb_true_l, ?andb_false_l.
  - unfold vec. rewrite list_lookup_total_alt, list_lookup_fmap, lookup_seq_lt by lia.
    cbn [fmap option_fmap option_map default from_option]. unfold id. rewrite get_bit_testbit, Nat.add_0_l.
    f_equal; [f_equal; lia_mod|]. lia_mod.
  - symmetry. apply Hz; lia.
Qed.
End fixed.

#[export, refine] Instance CFixedBitSet_laws size : CodecLaws (CFixedBitSet size) := {|
  encoding := CFixedBitSet_bytes size;
  representable vec := Z.of_nat (length vec) = size /\ size <= MAX_SIZE |}.
Proof.
  - intros S ?? vec _. apply emits_write.
  - intros S ?? vec [Hv Hm]. assert (0 <= size <= MAX_SIZE) as Hs by lia.
    pose proof (fixed_nb size Hs). unfold MAX_SIZE in *. eapply parses_bind_all.
    { apply parses_read; [by rewrite length_fixed_bytes|]. unfold MAX_SIZE.
      rewrite u64_small by lia. lia_mod. }
    cbv zeta. rewrite rest_set_fixed_bytes, get_bits_fixed_bytes by done. apply parses_ret.
  - intros vec [Hv Hm]. by apply fixed_bytes_bytes.
Defined.

#[export, refine] Instance CDynamicBitSet_laws : CodecLaws CDynamicBitSet := {|
  encoding vec := compact_size_bytes (length vec) ++ CFixedBitSet_bytes (length vec) vec;
  representable vec := length vec <= MAX_SIZE |}.
Proof.
  - intros S ?? vec Hm. apply emits_bind; [apply emits_compact_size, max_size_uint64; lia|].
    by apply (@Serialize_emits _ _ (CFixedBitSet_laws (length vec))).
  - intros S ?? vec Hm. eapply parses_bind; [apply parses_compact_size; lia|].
    by apply (@Unserialize_parses _ _ (CFixedBitSet_laws (length vec))).
  - intros vec Hm. apply Forall_app_2; [apply compact_size_bytes_bytes, max_size_uint64; lia|].
    apply fixed_bytes_bytes.
Defined.

(** ** The offset format *)

Fixpoint offsets_bytes (i last : Z) (vec : list bool) : list Z :=
  match vec with
  | [] => varint_bytes 0
  | true :: vec => varint_bytes (i - last) ++ offsets_bytes (i + 1) i vec
  | false :: vec => offsets_bytes (i + 1) last vec
  end.

Lemma emits_offsets {S} `{OStreamLaws S} i last vec :
  -1 <= last < i -> i + length vec <= MAX_SIZE ->
  emits (S:=S) (CFixedVarIntsBitSet_write i last vec) (offsets_bytes i last vec).
Proof.
  unfold MAX_SIZE. revert i last. induction vec as [|[] vec IH]; intros i last Hi Hm; simpl in *.
  - by apply emits_varint.
  - rewrite u32_small by lia.
    apply emits_bind; [apply emits_varint; apply _ || (unfold imax; lia)|apply IH; lia].
  - apply IH; lia.
Qed.

Lemma offsets_bytes_bytes i last vec : last < i -> bytes (offsets_bytes i last vec).
Proof.
  revert i last. induction vec as [|[] vec IH]; intros i last Hi; simpl.
  - by apply varint_bytes_bytes.
  - apply Forall_app_2; [apply varint_bytes_bytes; lia|apply IH; lia].
  - apply IH. lia.
Qed.

(** Reading with the bits before [i] already placed. *)
Lemma parses_offsets {S} `{IStreamLaws S} (fuel : nat) last (done rest : list bool) :
  -1 <= last < length done -> length done + length rest <= MAX_SIZE -> (length rest < fuel)%nat ->
  parses (S:=S)
    (CFixedVarIntsBitSet_read fuel (length done + length rest) last
       (done ++ replicate (length rest) false))
    (offsets_bytes (length done) last rest) (done ++ rest).
Proof.
  unfold MAX_SIZE. revert fuel last done.
  induction rest as [|b rest IH]; intros fuel last done Hlast Hm Hf.
  - destruct fuel as [|fuel]; [lia|]. eapply parses_bind_all; [by apply parses_varint|].
    apply parses_ret.
  - assert (forall b : bool, length (done ++ [b]) = (length done + 1)%nat) as Hlen
      by (intros; rewrite length_app; simpl; lia).
    assert (forall b : bool, length done + length (b :: rest) = length (done ++ [b]) + length rest)
      as Hsize by (intros; rewrite Hlen; simpl; lia).
    replace (done ++ b :: rest) with ((done ++ [b]) ++ rest) by (by rewrite <- app_assoc).
    simpl in Hf. destruct b; cbn [offsets_bytes].
    + destruct fuel as [|fuel]; [lia|]. simpl in Hm.
      eapply parses_bind; [apply parses_varint; apply _ || (unfold imax; lia)|].
      rewrite (proj2 (Z.eqb_neq _ 0)) by lia. cbv zeta.
      replace (last + (length done - last)) with (Z.of_nat (length done)) by lia.
      rewrite sint_small by (done || unfold in_sint; lia). rewrite u64_small by lia.
      rewrite (proj2 (Z.leb_gt _ _)) by (simpl; lia).
      rewrite (proj2 (Z.leb_gt (length done) last)), andb_false_r by lia.
      unfold vector_set. rewrite length_app, length_replicate.
      rewrite (proj2 (Z.leb_le 0 _)), (proj2 (Z.ltb_lt _ _)) by (simpl; lia). cbn [andb].
      rewrite Nat2Z.id, Hsize. cbn [length replicate].
      rewrite insert_app_r_alt, Nat.sub_diag by lia. cbn [insert list_insert].
      replace (done ++ true :: replicate (length rest) false)
        with ((done ++ [true]) ++ replicate (length rest) false) by (by rewrite <- app_assoc).
      replace (length done + 1) with (Z.of_nat (length (done ++ [true]))) by (rewrite Hlen; lia).
      apply IH; rewrite ?Hlen; lia.
    + rewrite Hsize. cbn [length replicate].
      replace (done ++ false :: replicate (length rest) false)
        with ((done ++ [false]) ++ replicate (length rest) false) by (by rewrite <- app_assoc).
      replace (length done + 1) with (Z.of_nat (length (done ++ [false]))) by (rewrite Hlen; lia).
      simpl in Hm. apply IH; rewrite ?Hlen; lia.
Qed.

#[export, refine] Instance CFixedVarIntsBitSet_laws size : CodecLaws (CFixedVarIntsBitSet size) := {|
  encoding := offsets_bytes 0 (-1);
  representable vec := Z.of_nat (length vec) = size /\ size <= MAX_SIZE |}.
Proof.
  - intros S ?? vec [Hv Hm]. apply emits_offsets; lia.
  - intros S ?? vec [Hv Hm]. simpl. rewrite <- Hv, Nat2Z.id.
    apply (parses_offsets _ (-1) [] vec); simpl; lia.
  - intros vec _. by apply offsets_bytes_bytes.
Defined.

Lemma auto_laws_write {S} `{OStreamLaws S} (t : Z) (c : codec (list bool)) `{!CodecLaws c} vec :
  is_byte t -> representable c vec ->
  emits (S:=S) (ser_writedata8 t ≫= λ _, Serialize c vec) (t :: encoding c vec).
Proof.
  intros Ht Hv. apply (emits_bind _ _ [t]); [|by apply Serialize_emits].
  unfold ser_writedata8. rewrite uint_small by done. apply emits_write.
Qed.

Definition auto_picks_fixed (size : Z) (vec : list bool) : bool :=
  GetSerializeSize (CFixedBitSet size) vec <? GetSerializeSize (CFixedVarIntsBitSet size) vec.

#[export, refine] Instance CAutoBitSet_laws size : CodecLaws (CAutoBitSet size) := {|
  encoding vec :=
    if auto_picks_fixed size vec then 0 :: CFixedBitSet_bytes size vec
    else 1 :: offsets_bytes 0 (-1) vec;
  representable vec := Z.of_nat (length vec) = size /\ size <= MAX_SIZE |}.
Proof.
  - intros S ?? vec [Hv Hm]. cbn [CAutoBitSet Serialize]. rewrite Hv, Z.eqb_refl.
    apply (emits_bind _ _ []); [apply emits_ret|]. cbv zeta. fold (auto_picks_fixed size vec).
    destruct (auto_picks_fixed size vec).
    + by apply (auto_laws_write 0 (CFixedBitSet size) (CodecLaws0:=CFixedBitSet_laws size) vec).
    + by apply (auto_laws_write 1 (CFixedVarIntsBitSet size) (CodecLaws0:=CFixedVarIntsBitSet_laws size) vec).
  - intros S ?? vec [Hv Hm]. destruct (auto_picks_fixed size vec).
    + eapply (parses_bind _ _ [0]); [by apply parses_readdata8|].
      by apply (@Unserialize_parses _ _ (CFixedBitSet_laws size)).
    + eapply (parses_bind _ _ [1]); [by apply parses_readdata8|].
      by apply (@Unserialize_parses _ _ (CFixedVarIntsBitSet_laws size)).
  - intros vec [Hv Hm]. destruct (auto_picks_fixed size vec); (constructor; [by split|]).
    + by apply fixed_bytes_bytes.
    + by apply offsets_bytes_bytes.
Defined.

(** ** The reader of the offset format is safe *)

Definition varints_exceptions : list string :=
  ["CDataStream::read(): end of data"; "ReadVarInt(): size too large";
   "out of bounds index"; "offset overflow"]%string.

Lemma DataStream_readdata8_throws :
  throws_only (S:=CDataStream) ser_readdata8 (λ msg, msg ∈ varints_exceptions).
Proof.
  apply throws_only_bind; [|intros; apply throws_only_ret].
  intros s msg s' E. simpl in E. unfold DataStream.read in E.
  repeat case_match; simplify_eq. left.
Qed.

Lemma offsets_read_safe (fuel : nat) size last vec (s : CDataStream) :
  Z.of_nat (length vec) = size -> size < 2 ^ 63 -> -1 <= last < size \/ size = 0 /\ last = -1 ->
  size - last <= fuel -> is_ok s ->
  match (CFixedVarIntsBitSet_read fuel size last vec s).1 with
  | Ok v => Z.of_nat (length v) = size
  | Throw msg => msg ∈ varints_exceptions
  end.
Proof.
  intros Hv Hz. revert last vec s Hv. induction fuel as [|fuel IH]; intros last vec s Hv Hl Hf Hs; [lia|].
  cbn [CFixedVarIntsBitSet_read]. unfold mbind, action_bind at 1.
  destruct (ReadVarInt 32 s) as [[o|msg] s1] eqn:E1; simpl.
  2:{ eapply (ReadVarInt_throws (S:=CDataStream) 32 ltac:(lia) (λ msg, msg ∈ varints_exceptions)); [apply DataStream_readdata8_throws| |exact E1].
      right. left. }
  destruct (consumes_varint_loop 32 ltac:(lia) _ 0 ltac:(lia) s o s1 Hs E1) as (Hs1 & _ & _ & Ho & _).
  unfold imax in Ho.
  destruct (Z.eqb_spec o 0) as [|Ho0]; [done|].
  pose proof (sint_range 32 (last + o) ltac:(lia)) as Hidx. unfold in_sint in Hidx.
  set (idx := i32 (last + o)) in *.
  destruct (Z.leb_spec size (u64 idx)) as [|Hlt]; [simpl; set_solver|].
  assert (0 <= idx < size) as Hin.
  { unfold uint in Hlt. destruct (decide (0 <= idx)); [rewrite Z.mod_small in Hlt by lia; lia|].
    assert (idx `mod` 2 ^ 64 = idx + 2 ^ 64) as E2.
    { symmetry. apply (Z.mod_unique _ _ (-1)); lia. }
    lia. }
  destruct (negb (last =? -1) && (idx <=? last)) eqn:Ec; [simpl; set_solver|].
  assert (last < idx).
  { destruct (Z.eqb_spec last (-1)); [lia|]. simpl in Ec. apply Z.leb_gt in Ec. lia. }
  unfold vector_set. rewrite (proj2 (Z.leb_le 0 idx)), (proj2 (Z.ltb_lt _ _)) by lia. simpl.
  apply IH; [by rewrite length_insert|lia|lia|done].
Qed.

(** The codec that stores a bit set either as bits or as offsets, whichever is
    shorter, reads back the bits it wrote, on any streams, and so does the
    self-describing dynamic one. *)
Theorem bitset_roundtrip (vec : list bool) {S} `{IStreamLaws S} (s1 s2 : S) (rest : list Z) :
  length vec <= MAX_SIZE -> is_ok s1 -> is_ok s2 ->
  is_pending s1 = written (Serialize (CAutoBitSet (length vec)) vec) ++ rest ->
  is_pending s2 = written (Serialize CDynamicBitSet vec) ++ rest ->
  (exists s', Unserialize (CAutoBitSet (length vec)) s1 = (Ok vec, s') /\ is_pending s' = rest) /\
  (exists s', Unserialize CDynamicBitSet s2 = (Ok vec, s') /\ is_pending s' = rest).
Proof.
  intros Hm Hs1 Hs2.
  assert (representable (CAutoBitSet (length vec)) vec) as Ha by done.
  assert (representable CDynamicBitSet vec) as Hd by done.
  rewrite (emits_written _ _ (Serialize_emits (c:=CAutoBitSet (length vec)) vec Ha)).
  rewrite (emits_written _ _ (Serialize_emits (c:=CDynamicBitSet) vec Hd)). intros Hp1 Hp2.
  destruct (Unserialize_parses (c:=CAutoBitSet (length vec)) vec Ha s1 rest Hs1 Hp1) as (? & ? & _ & ?).
  destruct (Unserialize_parses (c:=CDynamicBitSet) vec Hd s2 rest Hs2 Hp2) as (? & ? & _ & ?).
  split; eauto.
Qed.

Lemma bitset_roundtrip_witness :
  let vec := [true; false; true; true; false; false; false; false; true; false; false] in
  (exists s', Unserialize (CAutoBitSet 11) (DataStream.new [0; 13; 1; 77] 1 0) = (Ok vec, s') /\
    is_pending s' = [77]) /\
  (exists s', Unserialize CDynamicBitSet (DataStream.new [11; 13; 1; 77] 1 0) = (Ok vec, s') /\
    is_pending s' = [77]).
Proof.
  apply (bitset_roundtrip [true; false; true; true; false; false; false; false; true; false; false]
    (DataStream.new [0; 13; 1; 77] 1 0) (DataStream.new [11; 13; 1; 77] 1 0) [77]).
  - vm_compute. discriminate.
  - repeat split; simpl; try lia. unfold bytes, in_uint. repeat constructor; lia.
  - repeat split; simpl; try lia. unfold bytes, in_uint. repeat constructor; lia.
  - vm_compute. reflexivity.
  - vm_compute. reflexivity.
Defined.

(** Whatever bytes a peer sends, [CFixedVarIntsBitSet::Unserialize] ends, never
    assigns outside its vector even though the offsets are added in 32-bit arithmetic and
    the index is compared after conversion to [size_t], throws only the exceptions written
    in the code, and returns a vector of exactly [size] bits otherwise. *)
Theorem CFixedVarIntsBitSet_safe (size : Z) (s : CDataStream) :
  0 <= size < 2 ^ 63 -> is_ok s ->
  match (Unserialize (CFixedVarIntsBitSet size) s).1 with
  | Ok v => Z.of_nat (length v) = size
  | Throw msg => msg ∈ varints_exceptions
  end.
Proof.
  intros Hz Hs. apply offsets_read_safe; [rewrite length_replicate; lia|lia..|done].
Qed.

Lemma CFixedVarIntsBitSet_safe_witness :
  (Unserialize (CFixedVarIntsBitSet 4) (DataStream.new [0x8E; 0xFE; 0xFE; 0xFE; 0x7F; 0] 1 0)).1
    = Throw "out of bounds index" /\
  "out of bounds index"%string ∈ varints_exceptions.
Proof.
  split; [vm_compute; reflexivity|].
  exact (CFixedVarIntsBitSet_safe 4 (DataStream.new [0x8E; 0xFE; 0xFE; 0xFE; 0x7F; 0] 1 0)
    ltac:(lia) ltac:(repeat split; simpl; try lia; unfold bytes, in_uint; repeat constructor; lia)).
Defined.
