(* ===== verification/BitStream.v ===== *)
(** * Bit streams: BitStreamReader and BitStreamWriter of streams.h

    Fields of 0 to 64 bits packed most significant bit first into a byte stream, used
    by the Golomb-coded block filters.  Both classes are modelled over the stream
    interfaces and related to the sequence of bits they stand for. *)

From S2P Require Import Prelude Bytes Streams Serialize SerializeLaws.

(** ** The classes *)

Record BitStreamWriter (OS : Type) := mkBitStreamWriter {
  w_ostream : OS;
  w_buffer : Z; (* uint8_t *)
  w_offset : Z;
}.
Arguments mkBitStreamWriter {OS} _ _ _.
Arguments w_ostream {OS} _.
Arguments w_buffer {OS} _.
Arguments w_offset {OS} _.

Record BitStreamReader (I : Type) := mkBitStreamReader {
  r_istream : I;
  r_buffer : Z; (* uint8_t *)
  r_offset : Z;
}.
Arguments mkBitStreamReader {I} _ _ _.
Arguments r_istream {I} _.
Arguments r_buffer {I} _.
Arguments r_offset {I} _.

Module BitWriter.
Section ops.
Context {OS : Type} `{OStream OS}.

Definition new (ostream : OS) : BitStreamWriter OS := mkBitStreamWriter ostream 0 0.

Definition Flush : action (BitStreamWriter OS) unit := λ w,
  if w_offset w =? 0 then (Ok tt, w)
  else match ser_writedata8 (w_buffer w) (w_ostream w) with
       | (Ok _, o) => (Ok tt, mkBitStreamWriter o 0 0)
       | (Throw msg, o) => (Throw msg, mkBitStreamWriter o (w_buffer w) (w_offset w))
       end.

Fixpoint Write_loop (fuel : nat) (data nbits : Z) : action (BitStreamWriter OS) unit := λ w,
  if nbits <=? 0 then (Ok tt, w)
  else match fuel with
  | O => (Throw "out of fuel", w)
  | S fuel =>
      let bits := Z.min (8 - w_offset w) nbits in
      let buffer := u8 (w_buffer w ||| (u64 (data << (64 - nbits)) >> (64 - 8 + w_offset w))) in
      let w := mkBitStreamWriter (w_ostream w) buffer (w_offset w + bits) in
      ((if w_offset w =? 8 then Flush else mret tt) ≫= λ _,
        Write_loop fuel data (nbits - bits)) w
  end.

Definition Write (data nbits : Z) : action (BitStreamWriter OS) unit :=
  if (nbits <? 0) || (64 <? nbits) then throw "nbits must be between 0 and 64"
  else Write_loop (Z.to_nat nbits) data nbits.
End ops.
End BitWriter.

Module BitReader.
Section ops.
Context {I : Type} `{IStream I}.

Definition new (istream : I) : BitStreamReader I := mkBitStreamReader istream 0 8.

(** [m_istream >> m_buffer] when all bits of the buffer were used. *)
Definition refill : action (BitStreamReader I) unit := λ r,
  if r_offset r =? 8 then
    match ser_readdata8 (r_istream r) with
    | (Ok b, i) => (Ok tt, mkBitStreamReader i b 0)
    | (Throw msg, i) => (Throw msg, mkBitStreamReader i (r_buffer r) (r_offset r))
    end
  else (Ok tt, r).

Fixpoint Read_loop (fuel : nat) (data nbits : Z) : action (BitStreamReader I) Z := λ r,
  if nbits <=? 0 then (Ok data, r)
  else match fuel with
  | O => (Throw "out of fuel", r)
  | S fuel =>
      match refill r with
      | (Throw msg, r) => (Throw msg, r)
      | (Ok _, r) =>
          let bits := Z.min (8 - r_offset r) nbits in
          let data := u64 (data << bits) in
          let data := data ||| (u8 (r_buffer r << r_offset r) >> (8 - bits)) in
          Read_loop fuel data (nbits - bits)
            (mkBitStreamReader (r_istream r) (r_buffer r) (r_offset r + bits))
      end
  end.

Definition Read (nbits : Z) : action (BitStreamReader I) Z :=
  if (nbits <? 0) || (64 <? nbits) then throw "nbits must be between 0 and 64"
  else Read_loop (Z.to_nat nbits) 0 nbits.
End ops.
End BitReader.

(** ** Integers as bit strings, most significant bit first *)

Definition to_bits (n : nat) (x : Z) : list bool := (λ i : nat, Z.testbit x (n - 1 - i)) <$> seq 0 n.

Lemma length_to_bits n x : length (to_bits n x) = n.
Proof. unfold to_bits. by rewrite length_fmap, length_seq. Qed.

Lemma lookup_to_bits n x (i : nat) : (i < n)%nat -> to_bits n x !! i = Some (Z.testbit x (n - 1 - i)).
Proof. intros Hi. unfold to_bits. by rewrite list_lookup_fmap, lookup_seq_lt by done. Qed.

(** Two lists of [n] bits with the same bits. *)
Lemma bits_eq (n : nat) (l k : list bool) :
  length l = n -> length k = n -> (forall i, (i < n)%nat -> l !! i = k !! i) -> l = k.
Proof.
  intros Hl Hk H. apply list_eq. intros i. destruct (decide (i < n)%nat); [auto|].
  by rewrite !lookup_ge_None_2 by lia.
Qed.

Lemma to_bits_app (a b : nat) x : to_bits (a + b) x = to_bits a (x >> b) ++ to_bits b x.
Proof.
  apply (bits_eq (a + b)); [apply length_to_bits|by rewrite length_app, !length_to_bits|].
  intros i Hi. rewrite lookup_to_bits by done. destruct (decide (i < a)%nat).
  - rewrite lookup_app_l by (by rewrite length_to_bits). rewrite lookup_to_bits by done.
    rewrite Z.shiftr_spec by lia. do 2 f_equal. lia.
  - rewrite lookup_app_r, length_to_bits, lookup_to_bits by (rewrite ?length_to_bits; lia).
    do 2 f_equal. lia.
Qed.

Lemma to_bits_uint n x : to_bits n (uint n x) = to_bits n x.
Proof.
  apply (bits_eq n); [apply length_to_bits..|]. intros i Hi. rewrite !lookup_to_bits by done.
  rewrite testbit_uint by lia. destruct (Z.ltb_spec (n - 1 - i) n); [done|lia].
Qed.

Lemma to_bits_inj (n : nat) x y : in_uint n x -> in_uint n y -> to_bits n x = to_bits n y -> x = y.
Proof.
  intros Hx Hy E. apply (uint_bits_inj n); [lia|done..|]. intros i Hi.
  apply (f_equal (.!! (n - 1 - Z.to_nat i)%nat)) in E. rewrite !lookup_to_bits in E by lia.
  injection E as E. replace (Z.of_nat (n - 1 - Z.to_nat i)) with (n - 1 - i) in E by lia.
  by replace (n - 1 - (n - 1 - i)) with i in E by lia.
Qed.

(** The bits of a byte stream. *)
Definition bits_of (b : list Z) : list bool := concat (to_bits 8 <$> b).

Lemma bits_of_app b c : bits_of (b ++ c) = bits_of b ++ bits_of c.
Proof. unfold bits_of. by rewrite fmap_app, concat_app. Qed.

(** ** The writer appends bits *)

(** The bits written so far: the bytes already flushed, then the used bits of the buffer. *)
Definition writer_bits (w : BitStreamWriter CDataStream) : list bool :=
  bits_of (vch (w_ostream w)) ++ take (Z.to_nat (w_offset w)) (to_bits 8 (w_buffer w)).

(** The unused bits of the buffer are zero. *)
Definition writer_ok (w : BitStreamWriter CDataStream) : Prop :=
  0 <= w_offset w < 8 /\ is_byte (w_buffer w) /\
  drop (Z.to_nat (w_offset w)) (to_bits 8 (w_buffer w)) =
    replicate (8 - Z.to_nat (w_offset w)) false.

Lemma lookup_app3 {A} (l1 l2 l3 : list A) (i : nat) :
  (l1 ++ l2 ++ l3) !! i =
    if decide (i < length l1)%nat then l1 !! i
    else if decide (i < length l1 + length l2)%nat then l2 !! (i - length l1)%nat
    else l3 !! (i - length l1 - length l2)%nat.
Proof.
  repeat case_decide.
  - by rewrite lookup_app_l.
  - by rewrite lookup_app_r, lookup_app_l by lia.
  - by rewrite !lookup_app_r by lia.
Qed.

(** The or-ed in chunk of [data] lands right behind the used bits. *)
Lemma write_buffer (off : nat) buffer data nbits (bits : nat) :
  (off < 8)%nat -> is_byte buffer ->
  drop off (to_bits 8 buffer) = replicate (8 - off) false ->
  0 < nbits <= 64 -> Z.of_nat bits = Z.min (8 - off) nbits ->
  to_bits 8 (u8 (buffer ||| (u64 (data << (64 - nbits)) >> (64 - 8 + off)))) =
    take off (to_bits 8 buffer) ++ to_bits bits (data >> (nbits - bits)) ++
    replicate (8 - off - bits) false.
Proof.
  intros Hoff Hb Hz Hn Hbits. rewrite (to_bits_uint 8).
  apply (bits_eq 8); [apply length_to_bits| |].
  { rewrite !length_app, length_take, !length_to_bits, length_replicate. lia. }
  intros i Hi. rewrite lookup_to_bits, lookup_app3, length_take, !length_to_bits by done.
  rewrite Z.lor_spec, Z.shiftr_spec, testbit_uint, Z.shiftl_spec by lia.
  destruct (Z.ltb_spec (8%nat - 1 - i + (64 - 8 + off)) 64) as [Hge|Hlt].
  - (* behind the used bits: the buffer is zero there *)
    assert (Z.testbit buffer (8%nat - 1 - i) = false) as ->.
    { apply (f_equal (.!! (i - off)%nat)) in Hz.
      rewrite lookup_drop, lookup_to_bits, lookup_replicate_2 in Hz by lia.
      injection Hz as Hz. by replace (off + (i - off))%nat with i in Hz by lia. }
    rewrite decide_False by lia. case_decide.
    + rewrite lookup_to_bits, Z.shiftr_spec by lia. simpl. do 2 f_equal. lia.
    + rewrite lookup_replicate_2 by lia. simpl. f_equal. apply Z.testbit_neg_r. lia.
  - rewrite decide_True by lia. rewrite lookup_take_lt, lookup_to_bits by lia.
    by rewrite orb_false_r.
Qed.

Lemma Flush_spec (w : BitStreamWriter CDataStream) :
  0 <= w_offset w <= 8 -> is_byte (w_buffer w) ->
  exists w', BitWriter.Flush w = (Ok tt, w') /\
    vch (w_ostream w') = vch (w_ostream w) ++ (if w_offset w =? 0 then [] else [w_buffer w]) /\
    w_offset w' = 0 /\ (w_offset w <> 0 -> w_buffer w' = 0).
Proof.
  intros Ho Hb. unfold BitWriter.Flush. destruct (Z.eqb_spec (w_offset w) 0).
  - exists w. by rewrite app_nil_r.
  - simpl. eexists. split; [done|]. simpl. by rewrite uint_small.
Qed.

Lemma Write_loop_spec (fuel : nat) data nbits (w : BitStreamWriter CDataStream) :
  writer_ok w -> bytes (vch (w_ostream w)) -> 0 <= nbits <= 64 -> nbits <= fuel ->
  exists w', BitWriter.Write_loop fuel data nbits w = (Ok tt, w') /\
    writer_ok w' /\ bytes (vch (w_ostream w')) /\
    writer_bits w' = writer_bits w ++ to_bits (Z.to_nat nbits) data.
Proof.
  revert nbits w. induction fuel as [|fuel IH]; intros nbits w Hw Hv Hn Hf;
    cbn [BitWriter.Write_loop]; destruct (Z.leb_spec nbits 0); try lia.
  1,2: exists w; assert (nbits = 0) as -> by lia; by rewrite app_nil_r.
  destruct Hw as (Ho & Hb & Hz).
  set (bits := Z.min (8 - w_offset w) nbits). cbv zeta.
  set (buf := u8 _).
  assert (to_bits 8 buf = take (Z.to_nat (w_offset w)) (to_bits 8 (w_buffer w)) ++
    to_bits (Z.to_nat bits) (data >> (nbits - bits)) ++
    replicate (8 - Z.to_nat (w_offset w) - Z.to_nat bits) false) as Hbuf.
  { pose proof (write_buffer (Z.to_nat (w_offset w)) (w_buffer w) data nbits (Z.to_nat bits)) as H1.
    rewrite !Z2Nat.id in H1 by lia. apply H1; done || lia. }
  assert (is_byte buf) as Hbyte by (by apply uint_range).
  assert (to_bits (Z.to_nat nbits) data =
    to_bits (Z.to_nat bits) (data >> (nbits - bits)) ++ to_bits (Z.to_nat (nbits - bits)) data) as Hd.
  { replace (Z.to_nat nbits) with (Z.to_nat bits + Z.to_nat (nbits - bits))%nat by lia.
    rewrite to_bits_app. by rewrite Z2Nat.id by lia. }
  unfold mbind, action_bind. cbn [w_offset].
  destruct (Z.eqb_spec (w_offset w + bits) 8) as [E8|E8].
  - (* the byte is complete *)
    destruct (Flush_spec (mkBitStreamWriter (w_ostream w) buf (w_offset w + bits)))
      as (w1 & -> & Hv1 & Ho1 & Hb1); [simpl; lia|done|].
    simpl in Hv1, Hb1. rewrite (proj2 (Z.eqb_neq _ 0)) in Hv1 by lia.
    assert (w_buffer w1 = 0) as Hb0 by (apply Hb1; lia).
    destruct (IH (nbits - bits) w1) as (w' & E & Hw' & Hbw & Hbits); [..|lia|lia|].
    + split; [lia|]. rewrite Hb0, Ho1. by repeat split.
    + rewrite Hv1. apply Forall_app_2; [done|by constructor].
    + exists w'. rewrite E. do 3 (split; [done|]).
      assert (bits_of [buf] = take (Z.to_nat (w_offset w)) (to_bits 8 (w_buffer w)) ++
        to_bits (Z.to_nat bits) (data >> (nbits - bits))) as HB.
      { unfold bits_of. cbn [fmap list_fmap concat]. rewrite app_nil_r, Hbuf.
        replace (8 - _ - _)%nat with 0%nat by lia. by rewrite app_nil_r. }
      rewrite Hbits, Hd. unfold writer_bits. rewrite Hv1, Ho1, bits_of_app, HB.
      cbn [Z.to_nat take]. by rewrite app_nil_r, <- !app_assoc.
  - (* bits remain free, so the data is used up *)
    assert (bits = nbits) as Hall by lia.
    destruct (IH (nbits - bits) (mkBitStreamWriter (w_ostream w) buf (w_offset w + bits)))
      as (w' & E & Hw' & Hbw & Hbits); [|done|lia|lia|].
    + split; [simpl; lia|]. split; [done|]. simpl. rewrite Hbuf, app_assoc.
      rewrite drop_app_length' by (rewrite length_app, length_take, !length_to_bits; lia).
      f_equal. lia.
    + exists w'. unfold mret, action_ret. rewrite E. do 3 (split; [done|]).
      rewrite Hbits, Hd. unfold writer_bits. simpl. rewrite Hbuf, !app_assoc. f_equal.
      rewrite <- (app_assoc (bits_of _)). f_equal.
      by rewrite take_app_length' by (rewrite length_app, length_take, !length_to_bits; lia).
Qed.

(** ** The reader takes bits *)

Section reader.
Context {I : Type} `{HI : IStream I} {HL : IStreamLaws I}.

(** The bits not yet read: the rest of the buffer, then the bytes of the stream. *)
Definition reader_bits (r : BitStreamReader I) : list bool :=
  drop (Z.to_nat (r_offset r)) (to_bits 8 (r_buffer r)) ++ bits_of (is_pending (r_istream r)).

Definition reader_ok (r : BitStreamReader I) : Prop :=
  0 <= r_offset r <= 8 /\ is_byte (r_buffer r) /\ is_ok (r_istream r).

Lemma drop_to_bits_8 x : drop 8 (to_bits 8 x) = [].
Proof. apply drop_ge. rewrite length_to_bits. lia. Qed.

Lemma bit_refill_spec r :
  reader_ok r -> reader_bits r <> [] ->
  exists r', BitReader.refill r = (Ok tt, r') /\ reader_ok r' /\ r_offset r' < 8 /\
    reader_bits r' = reader_bits r.
Proof.
  intros (Ho & Hb & Hs) Hne. unfold BitReader.refill.
  destruct (Z.eqb_spec (r_offset r) 8) as [E|E].
  - unfold reader_bits in *. rewrite E in *. change (Z.to_nat 8) with 8%nat in *.
    rewrite drop_to_bits_8 in *. cbn [app] in *.
    destruct (is_pending (r_istream r)) as [|b rest] eqn:Hp; [done|].
    assert (is_byte b) as Hbb.
    { pose proof (is_ok_bytes _ Hs) as HB. rewrite Hp in HB. by inversion HB. }
    destruct (parses_readdata8 b Hbb (r_istream r) rest Hs Hp) as (i & -> & Hi & Hpi).
    eexists. split; [done|]. split; [split; simpl; [lia|done]|]. split; [simpl; lia|].
    simpl. by rewrite Hpi.
  - exists r. split; [done|]. split; [done|]. split; [lia|done].
Qed.

(** The chunk taken out of the buffer. *)
Lemma read_buffer (off bits : nat) buffer :
  (off + bits <= 8)%nat -> is_byte buffer ->
  to_bits bits (u8 (buffer << off) >> (8 - bits)) = take bits (drop off (to_bits 8 buffer)) /\
  in_uint bits (u8 (buffer << off) >> (8 - bits)).
Proof.
  intros Hob Hb. split.
  - apply (bits_eq bits); [apply length_to_bits| |].
    { rewrite length_take, length_drop, length_to_bits. lia. }
    intros i Hi. rewrite lookup_take_lt, lookup_drop, !lookup_to_bits by lia.
    rewrite Z.shiftr_spec, testbit_uint, Z.shiftl_spec by lia.
    rewrite (proj2 (Z.ltb_lt _ _)) by lia. simpl. do 2 f_equal. lia.
  - unfold in_uint. rewrite Z.shiftr_div_pow2 by lia.
    pose proof (uint_range 8 (buffer << off) ltac:(lia)) as Hu. unfold in_uint in Hu.
    split; [apply Z.div_pos; lia|]. apply Z.div_lt_upper_bound; [lia|].
    rewrite <- Z.pow_add_r by lia. replace (8 - bits + bits) with 8 by lia. apply Hu.
Qed.

Lemma Read_loop_spec (fuel : nat) (got nbits : nat) data r (b rest : list bool) :
  reader_ok r -> (nbits <= fuel)%nat -> (got + nbits <= 64)%nat -> in_uint got data ->
  reader_bits r = b ++ rest -> length b = nbits ->
  exists x r', BitReader.Read_loop fuel data nbits r = (Ok x, r') /\
    reader_ok r' /\ reader_bits r' = rest /\ in_uint (got + nbits)%nat x /\
    to_bits (got + nbits) x = to_bits got data ++ b.
Proof.
  revert got nbits data r b. induction fuel as [|fuel IH]; intros got nbits data r b Hr Hf Hg Hd Hrb Hb;
    cbn [BitReader.Read_loop]; destruct (Z.leb_spec nbits 0); try lia.
  1,2: assert (nbits = 0)%nat as -> by lia; apply nil_length_inv in Hb as ->;
    exists data, r; rewrite Nat.add_0_r, app_nil_r; done.
  destruct (bit_refill_spec r Hr) as (r1 & -> & Hr1 & Hlt & Hrb1).
  { rewrite Hrb. destruct b; [simpl in Hb; lia|done]. }
  destruct Hr1 as (Ho & Hbuf & Hs). rewrite <- Hrb1 in Hrb. clear Hrb1 Hr r.
  set (bits := Z.to_nat (Z.min (8 - r_offset r1) nbits)).
  replace (Z.min (8 - r_offset r1) nbits) with (Z.of_nat bits) by lia. cbv zeta.
  set (off := Z.to_nat (r_offset r1)). replace (r_offset r1) with (Z.of_nat off) by lia.
  destruct (read_buffer off bits (r_buffer r1)) as [Hchunk Hrange]; [lia|done|].
  set (y := u8 (r_buffer r1 << off) >> (8 - bits)) in *.
  set (data' := u64 (data << bits) ||| y).
  assert (data' = data * 2 ^ bits + y) as Hdata.
  { unfold data'. unfold in_uint in Hd, Hrange. rewrite u64_small.
    - apply lor_shiftl_add; [lia|done].
    - rewrite Z.shiftl_mul_pow2 by lia. split; [lia|].
      apply Z.lt_le_trans with (2 ^ got * 2 ^ bits); [nia|].
      rewrite <- Z.pow_add_r by lia. apply Z.pow_le_mono_r; lia. }
  assert (take bits b = take bits (drop off (to_bits 8 (r_buffer r1)))) as Htake.
  { assert (length (drop off (to_bits 8 (r_buffer r1))) = (8 - off)%nat) as Hl8
      by (rewrite length_drop, length_to_bits; lia).
    apply (f_equal (take bits)) in Hrb. unfold reader_bits in Hrb. fold off in Hrb.
    rewrite !take_app_le in Hrb by lia. done. }
  assert (in_uint (got + bits)%nat data') as Hd'.
  { rewrite Hdata. unfold in_uint in *. rewrite Nat2Z.inj_add, Z.pow_add_r by lia. nia. }
  assert (to_bits (got + bits) data' = to_bits got data ++ take bits b) as Hbits'.
  { rewrite to_bits_app, Htake, <- Hchunk. f_equal.
    - f_equal. rewrite Hdata, Z.shiftr_div_pow2, Z.div_add_l by lia.
      rewrite Z.div_small by done. lia.
    - rewrite <- (to_bits_uint bits data'), <- (to_bits_uint bits y). f_equal. rewrite Hdata.
      unfold uint. by rewrite Z.add_comm, Z.mod_add by lia. }
  replace (nbits - bits) with (Z.of_nat (nbits - bits)) by lia.
  destruct (IH (got + bits)%nat (nbits - bits)%nat data'
    (mkBitStreamReader (r_istream r1) (r_buffer r1) (off + bits)) (drop bits b))
    as (x & r' & E & Hr' & Hrest & Hx & Htb).
  - split; simpl; [lia|done].
  - lia.
  - lia.
  - done.
  - unfold reader_bits in *. cbn [r_offset r_buffer r_istream]. fold off in Hrb.
    replace (Z.to_nat (off + bits)) with (off + bits)%nat by lia.
    rewrite <- drop_drop.
    assert (length (drop off (to_bits 8 (r_buffer r1))) = (8 - off)%nat) as Hl8
      by (rewrite length_drop, length_to_bits; lia).
    apply (f_equal (drop bits)) in Hrb. rewrite !drop_app_le in Hrb by lia. done.
  - rewrite length_drop. lia.
  - exists x, r'. rewrite E. replace (got + nbits)%nat with (got + bits + (nbits - bits))%nat by lia.
    do 3 (split; [done|]). split; [done|]. by rewrite Htb, Hbits', <- app_assoc, take_drop.
Qed.

Lemma Read_spec (nbits : nat) data r rest :
  reader_ok r -> (nbits <= 64)%nat -> reader_bits r = to_bits nbits data ++ rest ->
  exists r', BitReader.Read nbits r = (Ok (uint nbits data), r') /\
    reader_ok r' /\ reader_bits r' = rest.
Proof.
  intros Hr Hn Hb. unfold BitReader.Read.
  rewrite (proj2 (Z.ltb_ge nbits 0)), (proj2 (Z.ltb_ge 64 nbits)), Nat2Z.id by lia. cbn [orb].
  destruct (Read_loop_spec nbits 0 nbits 0 r (to_bits nbits data) rest)
    as (x & r' & E & Hr' & Hrest & Hx & Htb); [done|lia..|unfold in_uint; lia|done|apply length_to_bits|].
  exists r'. rewrite E. split; [|done]. do 2 f_equal.
  apply (to_bits_inj nbits); [done|apply uint_range; lia|]. rewrite to_bits_uint. exact Htb.
Qed.
End reader.

(** ** Round trip *)

(** Writing a list of fields, and reading fields of given widths. *)
Fixpoint write_fields (l : list (Z * Z)) : action (BitStreamWriter CDataStream) unit :=
  match l with
  | [] => BitWriter.Flush
  | (data, nbits) :: l => BitWriter.Write data nbits ≫= λ _, write_fields l
  end.

Fixpoint read_fields {I} `{IStream I} (l : list Z) : action (BitStreamReader I) (list Z) :=
  match l with
  | [] => mret []
  | nbits :: l => x ← BitReader.Read nbits; xs ← read_fields l; mret (x :: xs)
  end.

Definition fields_bits (l : list (Z * Z)) : list bool :=
  concat ((λ f, to_bits (Z.to_nat f.2) f.1) <$> l).

Lemma write_fields_spec l (w : BitStreamWriter CDataStream) :
  Forall (λ f, 0 <= f.2 <= 64) l -> writer_ok w -> bytes (vch (w_ostream w)) ->
  exists w' pad, write_fields l w = (Ok tt, w') /\ bytes (vch (w_ostream w')) /\
    bits_of (vch (w_ostream w')) = writer_bits w ++ fields_bits l ++ pad.
Proof.
  intros Hl. revert w. induction Hl as [|[data n] l Hn Hl IH]; intros w Hw Hv; cbn [write_fields].
  - destruct Hw as (Ho & Hb & Hz). destruct (Flush_spec w) as (w' & -> & Hv' & _); [lia|done|].
    exists w', (if w_offset w =? 0 then [] else drop (Z.to_nat (w_offset w)) (to_bits 8 (w_buffer w))).
    split; [done|]. rewrite Hv', bits_of_app. unfold writer_bits. change (fields_bits []) with (@nil bool). cbn [app].
    destruct (Z.eqb_spec (w_offset w) 0) as [->|].
    + split; [by rewrite app_nil_r|]. by rewrite !app_nil_r.
    + split; [apply Forall_app_2; [done|by constructor]|].
      rewrite <- app_assoc. f_equal. unfold bits_of. cbn [fmap list_fmap concat].
      by rewrite app_nil_r, take_drop.
  - simpl in Hn. destruct (Write_loop_spec (Z.to_nat n) data n w) as (w1 & E & Hw1 & Hv1 & Hb1); [done..|lia|].
    destruct (IH w1 Hw1 Hv1) as (w' & pad & E' & Hv' & Hb').
    exists w', pad. unfold mbind, action_bind, BitWriter.Write.
    rewrite (proj2 (Z.ltb_ge n 0)), (proj2 (Z.ltb_ge 64 n)) by lia. cbn [orb]. rewrite E, E'.
    split; [done|]. split; [done|]. rewrite Hb', Hb1. unfold fields_bits.
    cbn [fmap list_fmap concat fst snd]. by rewrite <- !app_assoc.
Qed.

Lemma read_fields_spec {I} `{IStreamLaws I} l (r : BitStreamReader I) rest :
  Forall (λ f, 0 <= f.2 <= 64) l -> reader_ok r -> reader_bits r = fields_bits l ++ rest ->
  exists r', read_fields l.*2 r = (Ok ((λ f, uint f.2 f.1) <$> l), r').
Proof.
  intros Hl. revert r. induction Hl as [|[data n] l Hn Hl IH]; intros r Hr Hb; [by exists r|].
  unfold fields_bits in Hb. cbn [fmap list_fmap concat fst snd] in Hb. rewrite <- app_assoc in Hb.
  simpl in Hn. destruct (Read_spec (Z.to_nat n) data r _ Hr ltac:(lia) Hb) as (r1 & E & Hr1 & Hb1).
  destruct (IH r1 Hr1 Hb1) as (r' & E'). exists r'. rewrite Z2Nat.id in E by lia.
  cbn [fmap list_fmap read_fields fst snd]. unfold mbind, action_bind, mret, action_ret.
  rewrite E. cbn [fmap list_fmap] in E'. by rewrite E'.
Qed.

(** Fields of any widths from 0 to 64 bits written with [BitStreamWriter] and flushed
    are read back by [BitStreamReader] from any stream holding those bytes, each reduced to
    its width, although fields straddle byte boundaries and the last byte is padded. *)
Theorem bitstream_roundtrip (l : list (Z * Z)) {I} `{IStreamLaws I} (i : I) (rest : list Z) (o : BitStreamWriter CDataStream) :
  Forall (λ f, 0 <= f.2 <= 64) l -> is_ok i ->
  write_fields l (BitWriter.new (DataStream.new [] 0 0)) = (Ok tt, o) ->
  is_pending i = vch (w_ostream o) ++ rest ->
  exists r, read_fields l.*2 (BitReader.new i) = (Ok ((λ f, uint f.2 f.1) <$> l), r).
Proof.
  intros Hl Hi Hw Hp.
  destruct (write_fields_spec l (BitWriter.new (DataStream.new [] 0 0)) Hl)
    as (w' & pad & E & _ & Hb); [by repeat split|constructor|].
  rewrite Hw in E. injection E as <-.
  apply (read_fields_spec l _ (pad ++ bits_of rest) Hl).
  - split; [simpl; lia|]. by repeat split.
  - unfold reader_bits. cbn [BitReader.new r_offset r_buffer r_istream].
    change (Z.to_nat 8) with 8%nat. rewrite drop_to_bits_8, Hp, bits_of_app, Hb.
    change (writer_bits (BitWriter.new (DataStream.new [] 0 0))) with (@nil bool).
    cbn [app]. by rewrite <- app_assoc.
Qed.

Lemma bitstream_roundtrip_witness :
  exists r, read_fields [3; 13; 0; 64] (BitReader.new
      (DataStream.new [0xb2; 0x34; 0x12; 0x34; 0x56; 0x78; 0x9a; 0xbc; 0xde; 0xf1] 1 0))
    = (Ok [5; 0x1234; 0; 0x123456789abcdef1], r).
Proof.
  apply (bitstream_roundtrip [(5, 3); (0x1234, 13); (9, 0); (0x123456789abcdef1, 64)]
    (DataStream.new [0xb2; 0x34; 0x12; 0x34; 0x56; 0x78; 0x9a; 0xbc; 0xde; 0xf1] 1 0) []
    (write_fields [(5, 3); (0x1234, 13); (9, 0); (0x123456789abcdef1, 64)]
      (BitWriter.new (DataStream.new [] 0 0))).2).
  - repeat constructor; simpl; lia.
  - repeat split; simpl; try lia. unfold bytes, in_uint. repeat constructor; lia.
  - vm_compute. reflexivity.
  - vm_compute. reflexivity.
Defined.
