(* ===== verification/Files.v ===== *)
(** * File streams: CAutoFile and CBufferedFile of streams.h

    The C library's [FILE] is modelled by its contents, position and end-of-file flag.
    [CAutoFile] is shown to be an input stream in the sense of [Streams.v];
    [CBufferedFile], the ring buffer used to import blocks, is shown to deliver the bytes
    of the file in order through its buffer. *)

From S2P Require Import Prelude Bytes Streams.

(** ** The C library: a regular file open for reading *)

Record FILE := mkFILE { f_data : list Z; f_pos : Z; f_eof : bool }.

Definition fread (n : Z) (f : FILE) : list Z * FILE :=
  let got := take (Z.to_nat n) (drop (Z.to_nat (f_pos f)) (f_data f)) in
  (got, mkFILE (f_data f) (f_pos f + length got) (f_eof f || (Z.of_nat (length got) <? n))).

Definition fseek_set (pos : Z) (f : FILE) : bool * FILE :=
  if pos <? 0 then (false, f) else (true, mkFILE (f_data f) pos false).

(** ** CAutoFile *)

Record CAutoFile := mkCAutoFile { file : option FILE }.

Module AutoFile.
Definition fclose (s : CAutoFile) : CAutoFile := mkCAutoFile None.
Definition release (s : CAutoFile) : option FILE * CAutoFile := (file s, mkCAutoFile None).
Definition IsNull (s : CAutoFile) : bool := match file s with None => true | Some _ => false end.

Definition read (nSize : Z) : action CAutoFile (list Z) := λ s,
  match file s with
  | None => (Throw "CAutoFile::read: file handle is nullptr", s)
  | Some f =>
      let '(got, f) := fread nSize f in
      let s := mkCAutoFile (Some f) in
      if Z.of_nat (length got) =? nSize then (Ok got, s)
      else (Throw (if f_eof f then "CAutoFile::read: end of file" else "CAutoFile::read: fread failed"), s)
  end.

(** [fwrite] belongs to the C library and may write less than asked. *)
Definition write (fwrite : list Z -> FILE -> Z * FILE) (pch : list Z) : action CAutoFile unit := λ s,
  match file s with
  | None => (Throw "CAutoFile::write: file handle is nullptr", s)
  | Some f =>
      let '(n, f) := fwrite pch f in
      let s := mkCAutoFile (Some f) in
      if n =? length pch then (Ok tt, s) else (Throw "CAutoFile::write: write failed", s)
  end.

Fixpoint ignore_loop (fuel : nat) (nSize : Z) : action CAutoFile unit := λ s,
  if nSize <=? 0 then (Ok tt, s)
  else match fuel, file s with
  | S fuel, Some f =>
      let nNow := Z.min nSize 4096 in
      let '(got, f) := fread nNow f in
      let s := mkCAutoFile (Some f) in
      if Z.of_nat (length got) =? nNow then ignore_loop fuel (nSize - nNow) s
      else (Throw (if f_eof f then "CAutoFile::ignore: end of file" else "CAutoFile::read: fread failed"), s)
  | _, _ => (Throw "out of fuel", s)
  end.

(** Every round but the last skips 4096 bytes. *)
Definition ignore (nSize : Z) : action CAutoFile unit := λ s,
  match file s with
  | None => (Throw "CAutoFile::ignore: file handle is nullptr", s)
  | Some _ => ignore_loop (Z.to_nat (nSize / 4096) + 1) nSize s
  end.
End AutoFile.

(** ** CBufferedFile *)

Record CBufferedFile := mkCBufferedFile {
  src : FILE;
  nSrcPos : Z;     (* how many bytes have been read from source *)
  nReadPos : Z;    (* how many bytes have been read from this *)
  nReadLimit : Z;  (* up to which position we're allowed to read *)
  nRewind : Z;     (* how many bytes we guarantee to rewind *)
  vchBuf : list Z; (* the buffer *)
}.

Module BufferedFile.

Definition new (fileIn : FILE) (nBufSize nRewindIn : Z) : CBufferedFile :=
  mkCBufferedFile fileIn 0 0 (2 ^ 64 - 1) nRewindIn (replicate (Z.to_nat nBufSize) 0).

Definition bufsize (s : CBufferedFile) : Z := length (vchBuf s).
Definition set_read (s : CBufferedFile) (pos : Z) : CBufferedFile :=
  mkCBufferedFile (src s) (nSrcPos s) pos (nReadLimit s) (nRewind s) (vchBuf s).

Definition Fill : action CBufferedFile bool := λ s,
  let pos := u32 (nSrcPos s `mod` bufsize s) in
  let readNow := u32 (bufsize s - pos) in
  let nAvail := u32 (bufsize s - (nSrcPos s - nReadPos s) - nRewind s) in
  let readNow := if nAvail <? readNow then nAvail else readNow in
  if readNow =? 0 then (Ok false, s)
  else
    let '(got, f) := fread readNow (src s) in
    let s' := mkCBufferedFile f (u64 (nSrcPos s + length got)) (nReadPos s) (nReadLimit s) (nRewind s)
      (take (Z.to_nat pos) (vchBuf s) ++ got ++ drop (Z.to_nat pos + length got) (vchBuf s)) in
    if (length got =? 0)%nat then
      (Throw (if f_eof f then "CBufferedFile::Fill: end of file" else "CBufferedFile::Fill: fread failed"), s')
    else (Ok true, s').

Definition eof (s : CBufferedFile) : bool := (nReadPos s =? nSrcPos s) && f_eof (src s).

Fixpoint read_loop (fuel : nat) (nSize : Z) (pch : list Z) : action CBufferedFile (list Z) := λ s,
  if nSize <=? 0 then (Ok pch, s)
  else match fuel with
  | O => (Throw "out of fuel", s)
  | S fuel =>
      match (if nReadPos s =? nSrcPos s then Fill s else (Ok true, s)) with
      | (Throw msg, s) => (Throw msg, s)
      | (Ok _, s) =>
          let pos := u32 (nReadPos s `mod` bufsize s) in
          let nNow := nSize in
          let nNow := if bufsize s <? nNow + pos then bufsize s - pos else nNow in
          let nNow := if nSrcPos s <? nNow + nReadPos s then nSrcPos s - nReadPos s else nNow in
          let got := take (Z.to_nat nNow) (drop (Z.to_nat pos) (vchBuf s)) in
          read_loop fuel (nSize - nNow) (pch ++ got) (set_read s (u64 (nReadPos s + nNow)))
      end
  end.

(** Every round delivers at least one byte. *)
Definition read (nSize : Z) : action CBufferedFile (list Z) := λ s,
  if nReadLimit s <? u64 (nSize + nReadPos s) then (Throw "Read attempted past buffer limit", s)
  else if bufsize s <? u64 (nSize + nRewind s) then (Throw "Read larger than buffer size", s)
  else read_loop (Z.to_nat nSize) nSize [] s.

Definition GetPos (s : CBufferedFile) : Z := nReadPos s.

Definition SetPos (nPos : Z) (s : CBufferedFile) : bool * CBufferedFile :=
  if u64 (nPos + nRewind s) <? nSrcPos s then (false, set_read s (nSrcPos s - nRewind s))
  else if nSrcPos s <? nPos then (false, set_read s (nSrcPos s))
  else (true, set_read s nPos).

Definition Seek (nPos : Z) (s : CBufferedFile) : bool * CBufferedFile :=
  let nLongPos := i64 nPos in
  if negb (nPos =? u64 nLongPos) then (false, s)
  else match fseek_set nLongPos (src s) with
       | (false, f) => (false, mkCBufferedFile f (nSrcPos s) (nReadPos s) (nReadLimit s) (nRewind s) (vchBuf s))
       | (true, f) =>
           (true, mkCBufferedFile f (u64 (f_pos f)) (u64 (f_pos f)) (nReadLimit s) (nRewind s) (vchBuf s))
       end.

Definition SetLimit (nPos : Z) (s : CBufferedFile) : bool * CBufferedFile :=
  if nPos <? nReadPos s then (false, s)
  else (true, mkCBufferedFile (src s) (nSrcPos s) (nReadPos s) nPos (nRewind s) (vchBuf s)).

Fixpoint FindByte_loop (fuel : nat) (ch : Z) : action CBufferedFile unit := λ s,
  match fuel with
  | O => (Throw "out of fuel", s)
  | S fuel =>
      match (if nReadPos s =? nSrcPos s then Fill s else (Ok true, s)) with
      | (Throw msg, s) => (Throw msg, s)
      | (Ok _, s) =>
          if (vchBuf s !!! Z.to_nat (nReadPos s `mod` bufsize s)) =? ch then (Ok tt, s)
          else FindByte_loop fuel ch (set_read s (u64 (nReadPos s + 1)))
      end
  end.

(** The loop ends at the byte or, by an exception, at the end of the file. *)
Definition FindByte (ch : Z) : action CBufferedFile unit := λ s,
  FindByte_loop (Z.to_nat (length (f_data (src s)) - nReadPos s) + 1) ch s.

End BufferedFile.

(** ** CAutoFile is an input stream *)

#[export] Instance CAutoFile_istream : IStream CAutoFile := {|
  is_read := AutoFile.read;
  is_pending s := match file s with Some f => drop (Z.to_nat (f_pos f)) (f_data f) | None => [] end;
  is_ok s := match file s with
             | Some f => 0 <= f_pos f <= length (f_data f) /\ bytes (f_data f)
             | None => False
             end;
|}.

#[export] Instance CAutoFile_ilaws : IStreamLaws CAutoFile.
Proof.
  split; simpl; intros; destruct s as [[f|]]; simpl in *; try done.
  - destruct H as [Hp Hb]. rewrite length_drop in *. unfold AutoFile.read, fread; simpl.
    rewrite length_take, length_drop. rewrite (proj2 (Z.eqb_eq _ n)) by lia.
    eexists. split; [done|]. simpl. split; [split; [lia|done]|].
    rewrite drop_drop. f_equal. lia.
  - destruct H as [Hp Hb]. rewrite length_drop in *. unfold AutoFile.read, fread; simpl.
    rewrite length_take, length_drop. rewrite (proj2 (Z.eqb_neq _ n)) by lia. eauto.
  - destruct H as [Hp Hb]. by apply Forall_drop.
Qed.

(** ** The ring buffer

    [lo] is the position of the last [Seek] (0 for a fresh object): nothing before it
    was ever read into the buffer. *)

Record buf_inv (lo : Z) (s : CBufferedFile) : Prop := {
  bi_file : f_pos (src s) = nSrcPos s;
  bi_src : 0 <= nSrcPos s <= length (f_data (src s));
  bi_length : length (f_data (src s)) < 2 ^ 63;
  bi_read : 0 <= lo <= nReadPos s /\ nReadPos s <= nSrcPos s;
  bi_near : nSrcPos s - nReadPos s <= BufferedFile.bufsize s;
  bi_size : 0 < BufferedFile.bufsize s < 2 ^ 32;
  bi_rewind : 0 <= nRewind s < BufferedFile.bufsize s;
  bi_window p : lo <= p < nSrcPos s -> nSrcPos s - BufferedFile.bufsize s <= p ->
    vchBuf s !! Z.to_nat (p `mod` BufferedFile.bufsize s) = f_data (src s) !! Z.to_nat p;
}.

(** What no operation but [SetLimit] changes. *)
Definition same_file (s s' : CBufferedFile) : Prop :=
  f_data (src s') = f_data (src s) /\ nReadLimit s' = nReadLimit s /\ nRewind s' = nRewind s /\
  BufferedFile.bufsize s' = BufferedFile.bufsize s.

#[export] Instance same_file_trans : Transitive same_file.
Proof. intros s t u (? & ? & ? & ?) (? & ? & ? & ?). repeat split; congruence. Qed.
#[export] Instance same_file_refl : Reflexive same_file.
Proof. by intros s. Qed.

(** Moving on from a position whose residue is known. *)
Lemma mod_move a d n : 0 < n -> 0 <= a `mod` n + d < n -> (a + d) `mod` n = a `mod` n + d.
Proof.
  intros Hn Hd. symmetry. apply (Z.mod_unique _ _ (a / n)); [lia|].
  pose proof (Z.div_mod a n). lia.
Qed.

Lemma mod_move_wrap a d n :
  0 < n -> 0 <= a `mod` n + d + n < n -> (a + d) `mod` n = a `mod` n + d + n.
Proof.
  intros Hn Hd. symmetry. apply (Z.mod_unique _ _ (a / n - 1)); [lia|].
  pose proof (Z.div_mod a n). lia.
Qed.

Lemma splice_lookup_in {A} (v b : list A) (pos i : nat) :
  (pos + length b <= length v)%nat -> (pos <= i < pos + length b)%nat ->
  (take pos v ++ b ++ drop (pos + length b) v) !! i = b !! (i - pos)%nat.
Proof.
  intros Hl Hi. rewrite lookup_app_r, lookup_app_l; rewrite length_take; try lia.
  f_equal. lia.
Qed.

Lemma splice_lookup_out {A} (v b : list A) (pos i : nat) :
  (pos + length b <= length v)%nat -> (i < pos \/ pos + length b <= i)%nat ->
  (take pos v ++ b ++ drop (pos + length b) v) !! i = v !! i.
Proof.
  intros Hl [Hi|Hi].
  - rewrite lookup_app_l by (rewrite length_take; lia). by rewrite lookup_take_lt.
  - rewrite !lookup_app_r; rewrite ?length_take; try lia.
    rewrite lookup_drop. f_equal. lia.
Qed.

Lemma Fill_spec lo s :
  buf_inv lo s -> nReadPos s = nSrcPos s ->
  if nSrcPos s <? length (f_data (src s)) then
    exists s', BufferedFile.Fill s = (Ok true, s') /\ buf_inv lo s' /\ same_file s s' /\
      nReadPos s' = nReadPos s /\ nReadPos s < nSrcPos s'
  else exists s', BufferedFile.Fill s = (Throw "CBufferedFile::Fill: end of file", s').
Proof.
  intros [Hf Hsrc Hlen Hrd Hnear Hsize Hrw Hwin] Heq. unfold BufferedFile.Fill.
  set (n := BufferedFile.bufsize s) in *.
  pose proof (Z.mod_pos_bound (nSrcPos s) n ltac:(lia)) as Hpos.
  rewrite (u32_small (nSrcPos s `mod` n)) by lia. set (pos := nSrcPos s `mod` n) in *.
  rewrite (u32_small (n - pos)), Heq, Z.sub_diag, Z.sub_0_r, u32_small by lia.
  set (now := if n - nRewind s <? n - pos then n - nRewind s else n - pos).
  assert (0 < now <= n - pos /\ now <= n - nRewind s) as [Hnow1 Hnow2]
    by (unfold now; destruct (Z.ltb_spec (n - nRewind s) (n - pos)); lia).
  rewrite (proj2 (Z.eqb_neq now 0)) by lia. unfold fread. cbn [f_eof].
  rewrite Hf. set (got := take (Z.to_nat now) (drop (Z.to_nat (nSrcPos s)) (f_data (src s)))).
  assert (length got = Nat.min (Z.to_nat now) (length (f_data (src s)) - Z.to_nat (nSrcPos s))) as Hg
    by (unfold got; by rewrite length_take, length_drop).
  destruct (Z.ltb_spec (nSrcPos s) (length (f_data (src s)))) as [Hmore|Hend].
  - rewrite (proj2 (Nat.eqb_neq (length got) 0)) by lia. eexists. split; [done|].
    rewrite u64_small by lia. assert (n = length (vchBuf s)) as Hn by done.
    assert (length (take (Z.to_nat pos) (vchBuf s) ++ got ++
      drop (Z.to_nat pos + length got) (vchBuf s)) = length (vchBuf s)) as Hl.
    { rewrite !length_app, length_take, length_drop. lia. }
    split; [|split; [unfold same_file, BufferedFile.bufsize; simpl; by rewrite Hl|simpl; lia]].
    split; unfold BufferedFile.bufsize; simpl; rewrite ?Hl; fold (BufferedFile.bufsize s); fold n; try lia.
    intros p Hp Hw. destruct (Z.le_gt_cases (nSrcPos s) p).
    + replace p with (nSrcPos s + (p - nSrcPos s)) at 1 by lia.
      rewrite mod_move by (fold pos; lia). fold pos.
      rewrite splice_lookup_in by lia. unfold got.
      rewrite lookup_take_lt, lookup_drop by lia. f_equal. lia.
    + assert (p `mod` n < pos \/ pos + length got <= p `mod` n < n) as Hq.
      { replace p with (nSrcPos s + (p - nSrcPos s)) by lia.
        destruct (Z.le_gt_cases (nSrcPos s - p) pos).
        - rewrite mod_move by (fold pos; lia). fold pos. lia.
        - rewrite mod_move_wrap by (fold pos; lia). fold pos. lia. }
      pose proof (Z.mod_pos_bound p n ltac:(lia)).
      rewrite splice_lookup_out by lia. apply Hwin; lia.
  - rewrite (proj2 (Nat.eqb_eq (length got) 0)) by lia. eexists.
    rewrite (proj2 (Z.ltb_lt (length got) now)) by lia.
    rewrite orb_true_r. done.
Qed.

(** The bytes between two positions are read straight out of the buffer. *)
Lemma buffer_chunk lo s (now : nat) :
  buf_inv lo s -> nReadPos s + now <= nSrcPos s ->
  nReadPos s `mod` BufferedFile.bufsize s + now <= BufferedFile.bufsize s ->
  take now (drop (Z.to_nat (nReadPos s `mod` BufferedFile.bufsize s)) (vchBuf s)) =
  take now (drop (Z.to_nat (nReadPos s)) (f_data (src s))).
Proof.
  intros [Hf Hsrc Hlen Hrd Hnear Hsize Hrw Hwin] Hn Hb.
  set (n := BufferedFile.bufsize s) in *. assert (n = length (vchBuf s)) as En by done.
  pose proof (Z.mod_pos_bound (nReadPos s) n ltac:(lia)) as Hpos.
  apply (list_eq_same_length _ _ now); [rewrite length_take, length_drop; lia..|].
  intros i x y Hi Hx Hy. rewrite lookup_take_lt, lookup_drop in Hx, Hy by lia.
  specialize (Hwin (nReadPos s + i) ltac:(lia) ltac:(lia)).
  rewrite mod_move in Hwin by lia.
  replace (Z.to_nat (nReadPos s `mod` n + i)) with (Z.to_nat (nReadPos s `mod` n) + i)%nat in Hwin by lia.
  replace (Z.to_nat (nReadPos s + i)) with (Z.to_nat (nReadPos s) + i)%nat in Hwin by lia.
  congruence.
Qed.

Lemma set_read_inv lo s pos :
  buf_inv lo s -> lo <= pos <= nSrcPos s -> nSrcPos s - pos <= BufferedFile.bufsize s ->
  buf_inv lo (BufferedFile.set_read s pos).
Proof. intros [] Hp Hn. split; try done; simpl; lia. Qed.

(** What both loops do first: make a byte available, or hit the end of the file. *)
Definition refill (s : CBufferedFile) : result bool * CBufferedFile :=
  if nReadPos s =? nSrcPos s then BufferedFile.Fill s else (Ok true, s).

Lemma refill_spec lo s :
  buf_inv lo s ->
  if nReadPos s <? length (f_data (src s)) then
    exists s', refill s = (Ok true, s') /\ buf_inv lo s' /\ same_file s s' /\
      nReadPos s' = nReadPos s /\ nReadPos s < nSrcPos s'
  else exists s', refill s = (Throw "CBufferedFile::Fill: end of file", s').
Proof.
  intros Hs. unfold refill. destruct (Z.eqb_spec (nReadPos s) (nSrcPos s)) as [E|E].
  - rewrite E. pose proof (Fill_spec lo s Hs E) as HF. by rewrite E in HF.
  - destruct (bi_read _ _ Hs), (bi_src _ _ Hs). rewrite (proj2 (Z.ltb_lt _ _)) by lia.
    exists s. do 3 (split; [done|]). lia.
Qed.

Lemma read_loop_spec lo (fuel : nat) nSize pch s :
  buf_inv lo s -> 0 <= nSize <= fuel ->
  if nReadPos s + nSize <=? length (f_data (src s)) then
    exists s', BufferedFile.read_loop fuel nSize pch s =
        (Ok (pch ++ take (Z.to_nat nSize) (drop (Z.to_nat (nReadPos s)) (f_data (src s)))), s') /\
      buf_inv lo s' /\ same_file s s' /\ nReadPos s' = nReadPos s + nSize
  else exists s', BufferedFile.read_loop fuel nSize pch s =
    (Throw "CBufferedFile::Fill: end of file", s').
Proof.
  revert nSize pch s. induction fuel as [|fuel IH]; intros nSize pch s Hs Hn;
    cbn [BufferedFile.read_loop]; destruct (Z.leb_spec nSize 0); try lia.
  1,2: assert (nSize = 0) as -> by lia; destruct (bi_read _ _ Hs), (bi_src _ _ Hs);
    rewrite (proj2 (Z.leb_le _ _)) by lia; exists s; rewrite app_nil_r;
    split; [done|]; split; [done|]; split; [done|lia].
  fold (refill s). pose proof (refill_spec lo s Hs) as HR.
  destruct (Z.ltb_spec (nReadPos s) (length (f_data (src s)))) as [Hmore|Hend].
  2:{ destruct HR as (s' & ->). rewrite (proj2 (Z.leb_gt _ _)) by lia. eauto. }
  destruct HR as (s1 & -> & Hs1 & Hsame & Hr1 & Hlt).
  destruct (Hsame) as (Hdata & _ & _ & Hsz).
  destruct (bi_read _ _ Hs1), (bi_src _ _ Hs1), (bi_size _ _ Hs1).
  pose proof (bi_length _ _ Hs1). pose proof (bi_near _ _ Hs1).
  pose proof (Z.mod_pos_bound (nReadPos s1) (BufferedFile.bufsize s1) ltac:(lia)) as Hpos.
  rewrite u32_small by lia. cbv zeta.
  set (n := BufferedFile.bufsize s1) in *. set (pos := nReadPos s1 `mod` n) in *.
  set (now1 := if n <? nSize + pos then n - pos else nSize).
  set (now := if nSrcPos s1 <? now1 + nReadPos s1 then nSrcPos s1 - nReadPos s1 else now1).
  assert (0 < now <= nSize /\ nReadPos s1 + now <= nSrcPos s1 /\ pos + now <= n) as (Hnow & Hsrc & Hbuf).
  { unfold now, now1. destruct (Z.ltb_spec n (nSize + pos));
      [destruct (Z.ltb_spec (nSrcPos s1) (n - pos + nReadPos s1))
      |destruct (Z.ltb_spec (nSrcPos s1) (nSize + nReadPos s1))]; lia. }
  clearbody now. rewrite u64_small by lia.
  pose proof (buffer_chunk lo s1 (Z.to_nat now) Hs1 ltac:(lia) ltac:(fold n pos; lia)) as Hchunk.
  fold n pos in Hchunk. rewrite Hchunk.
  specialize (IH (nSize - now) (pch ++ take (Z.to_nat now) (drop (Z.to_nat (nReadPos s1)) (f_data (src s1))))
    (BufferedFile.set_read s1 (nReadPos s1 + now))).
  cbn [nReadPos src BufferedFile.set_read] in IH.
  replace (nReadPos s1 + now + (nSize - now)) with (nReadPos s + nSize) in IH by lia.
  rewrite Hdata in IH. destruct (Z.leb_spec (nReadPos s + nSize) (length (f_data (src s)))).
  - destruct IH as (s' & E & Hs' & Hsame' & Hr'); [apply set_read_inv; done || lia|lia|].
    exists s'. rewrite Hdata, E. split; [|split; [done|split; [by etransitivity|lia]]].
    rewrite <- app_assoc, Hr1. do 3 f_equal.
    replace (Z.to_nat (nReadPos s + now)) with (Z.to_nat (nReadPos s) + Z.to_nat now)%nat by lia.
    rewrite <- drop_drop.
    replace (Z.to_nat (nSize - now)) with (Z.to_nat nSize - Z.to_nat now)%nat by lia.
    symmetry. rewrite <- (take_drop (Z.to_nat now) (take (Z.to_nat nSize) _)).
    rewrite take_take, skipn_firstn_comm. do 2 f_equal. lia.
  - destruct IH as (s' & E); [apply set_read_inv; done || lia|lia|]. rewrite Hdata, E. eauto.
Qed.

Lemma new_inv f nBufSize nRewindIn :
  f_pos f = 0 -> length (f_data f) < 2 ^ 63 -> 0 <= nRewindIn < nBufSize -> nBufSize < 2 ^ 32 ->
  buf_inv 0 (BufferedFile.new f nBufSize nRewindIn).
Proof.
  intros. split; unfold BufferedFile.bufsize; simpl; rewrite ?length_replicate; try lia.
Qed.

Lemma Seek_inv lo nPos s :
  buf_inv lo s -> 0 <= nPos <= length (f_data (src s)) ->
  exists s', BufferedFile.Seek nPos s = (true, s') /\ buf_inv nPos s' /\ same_file s s' /\
    nReadPos s' = nPos.
Proof.
  intros [Hf Hsrc Hlen Hrd Hnear Hsize Hrw Hwin] Hn. unfold BufferedFile.Seek, fseek_set.
  rewrite sint_small by (done || unfold in_sint; lia).
  rewrite u64_small, Z.eqb_refl by lia. simpl. rewrite (proj2 (Z.ltb_ge _ _)) by lia. simpl.
  rewrite u64_small by lia. eexists. split; [done|]. split; [|done].
  split; unfold BufferedFile.bufsize in *; simpl; try done; lia.
Qed.

Lemma FindByte_loop_spec lo (fuel : nat) ch s :
  buf_inv lo s -> length (f_data (src s)) - nReadPos s < fuel ->
  match list_find (eq ch) (drop (Z.to_nat (nReadPos s)) (f_data (src s))) with
  | Some (i, _) => exists s', BufferedFile.FindByte_loop fuel ch s = (Ok tt, s') /\
      buf_inv lo s' /\ same_file s s' /\ nReadPos s' = nReadPos s + i
  | None => exists s', BufferedFile.FindByte_loop fuel ch s =
      (Throw "CBufferedFile::Fill: end of file", s')
  end.
Proof.
  revert s. induction fuel as [|fuel IH]; intros s Hs Hf.
  { destruct (bi_read _ _ Hs), (bi_src _ _ Hs). lia. }
  cbn [BufferedFile.FindByte_loop]. fold (refill s). pose proof (refill_spec lo s Hs) as HR.
  destruct (Z.ltb_spec (nReadPos s) (length (f_data (src s)))) as [Hmore|Hend].
  2:{ destruct HR as (s' & ->). rewrite drop_ge by lia. simpl. eauto. }
  destruct HR as (s1 & -> & Hs1 & Hsame & Hr1 & Hlt). destruct (Hsame) as (Hdata & _ & _ & Hsz).
  destruct (bi_read _ _ Hs1), (bi_src _ _ Hs1), (bi_size _ _ Hs1).
  pose proof (bi_length _ _ Hs1). pose proof (bi_near _ _ Hs1).
  destruct (lookup_lt_is_Some_2 (f_data (src s)) (Z.to_nat (nReadPos s))) as [x Hx]; [lia|].
  rewrite (drop_S _ _ _ Hx). cbn [list_find].
  assert (vchBuf s1 !!! Z.to_nat (nReadPos s1 `mod` BufferedFile.bufsize s1) = x) as ->.
  { apply list_lookup_total_correct. rewrite (bi_window _ _ Hs1) by lia. by rewrite Hdata, Hr1. }
  destruct (decide (ch = x)) as [<-|Hne].
  - rewrite Z.eqb_refl. exists s1. rewrite Hr1, Z.add_0_r. done.
  - rewrite (proj2 (Z.eqb_neq x ch)) by done. rewrite u64_small by lia.
    specialize (IH (BufferedFile.set_read s1 (nReadPos s1 + 1))).
    cbn [nReadPos src BufferedFile.set_read] in IH. rewrite Hdata, Hr1 in *.
    replace (Z.to_nat (nReadPos s + 1)) with (S (Z.to_nat (nReadPos s))) in IH by lia.
    assert (buf_inv lo (BufferedFile.set_read s1 (nReadPos s + 1))) as Hs2
      by (apply set_read_inv; done || lia).
    specialize (IH Hs2 ltac:(lia)). destruct (list_find _ _) as [[i y]|]; simpl; [|done].
    destruct IH as (s' & E & Hs' & Hsame' & Hr'). exists s'.
    do 2 (split; [done|]). split; [by etransitivity|lia].
Qed.

(** Reading [nSize] bytes from a [CBufferedFile] returns the next [nSize] bytes of
    the file, however they wrap around the ring buffer and however often it has to be
    refilled, and leaves the object in order; a read past the limit or larger than the
    buffer throws before anything is consumed, and one past the end of the file throws. *)
Theorem CBufferedFile_read_spec (lo nSize : Z) (s : CBufferedFile) :
  buf_inv lo s -> 0 <= nSize < 2 ^ 63 ->
  let data := f_data (src s) in
  let r := BufferedFile.read nSize s in
  if nReadLimit s <? nReadPos s + nSize then r = (Throw "Read attempted past buffer limit", s)
  else if BufferedFile.bufsize s <? nSize + nRewind s then r = (Throw "Read larger than buffer size", s)
  else if nReadPos s + nSize <=? length data then
    exists s', r = (Ok (take (Z.to_nat nSize) (drop (Z.to_nat (nReadPos s)) data)), s') /\
      buf_inv lo s' /\ same_file s s' /\ nReadPos s' = nReadPos s + nSize
  else exists s', r = (Throw "CBufferedFile::Fill: end of file", s').
Proof.
  intros Hs Hn. cbv zeta. unfold BufferedFile.read.
  destruct (bi_read _ _ Hs), (bi_src _ _ Hs), (bi_rewind _ _ Hs), (bi_size _ _ Hs).
  pose proof (bi_length _ _ Hs). rewrite !u64_small, (Z.add_comm nSize) by lia.
  destruct (_ <? _); [done|]. destruct (_ <? _); [done|].
  apply (read_loop_spec lo (Z.to_nat nSize) nSize [] s Hs). lia.
Qed.

Lemma CBufferedFile_read_spec_witness :
  exists s', BufferedFile.read 3 (BufferedFile.new (mkFILE [10; 11; 12; 13; 14] 0 false) 4 1)
    = (Ok [10; 11; 12], s') /\
  (BufferedFile.read 2 s').1 = Ok [13; 14].
Proof.
  destruct (CBufferedFile_read_spec 0 3 (BufferedFile.new (mkFILE [10; 11; 12; 13; 14] 0 false) 4 1)
    ltac:(apply new_inv; simpl; lia) ltac:(lia)) as (s' & E & _).
  exists s'. split; [exact E|].
  vm_compute in E. injection E as <-. vm_compute. reflexivity.
Defined.

(** [SetPos] succeeds exactly for the positions from [nSrcPos - nRewind] to [nSrcPos],
    the position up to which the file has been read into the buffer, and clamps other
    positions to that range.  The bound is not the current reading position: when the buffer
    has read ahead, going back even one byte can fail and move the position forward. *)
Theorem CBufferedFile_SetPos_spec (lo nPos : Z) (s : CBufferedFile) :
  buf_inv lo s -> 0 <= nPos < 2 ^ 63 -> lo + nRewind s <= nSrcPos s \/ lo <= nPos ->
  let '(ok, s') := BufferedFile.SetPos nPos s in
  ok = bool_decide (nSrcPos s - nRewind s <= nPos <= nSrcPos s) /\
  nReadPos s' = Z.max (nSrcPos s - nRewind s) (Z.min nPos (nSrcPos s)) /\
  buf_inv lo s' /\ same_file s s'.
Proof.
  intros Hs Hn Hlo. unfold BufferedFile.SetPos.
  destruct (bi_read _ _ Hs), (bi_src _ _ Hs), (bi_rewind _ _ Hs), (bi_size _ _ Hs).
  pose proof (bi_length _ _ Hs). rewrite u64_small by lia.
  destruct (Z.ltb_spec (nPos + nRewind s) (nSrcPos s)); [|destruct (Z.ltb_spec (nSrcPos s) nPos)];
    rewrite ?bool_decide_true, ?bool_decide_false by lia;
    (split; [done|]); (split; [simpl; lia|]); (split; [apply set_read_inv; done || lia|done]).
Qed.

(** After reading one byte, going back one byte moves the position from 1 to 4 although
    [nRewind] is 3. *)
Lemma CBufferedFile_SetPos_spec_witness :
  let s := (BufferedFile.read 1 (BufferedFile.new (mkFILE [0; 1; 2; 3; 4; 5; 6; 7; 8; 9] 0 false) 10 3)).2 in
  nReadPos s = 1 /\ nSrcPos s = 7 /\
  (BufferedFile.SetPos 0 s).1 = false /\ nReadPos (BufferedFile.SetPos 0 s).2 = 4.
Proof.
  split; [vm_compute; reflexivity|]. split; [vm_compute; reflexivity|].
  destruct (read_loop_spec 0 1 1 []
    (BufferedFile.new (mkFILE [0; 1; 2; 3; 4; 5; 6; 7; 8; 9] 0 false) 10 3)
    ltac:(apply new_inv; simpl; lia) ltac:(lia)) as (s1 & E & Hs1 & _).
  change (BufferedFile.read 1 _) with (BufferedFile.read_loop 1 1 []
    (BufferedFile.new (mkFILE [0; 1; 2; 3; 4; 5; 6; 7; 8; 9] 0 false) 10 3)).
  rewrite E. pose proof (CBufferedFile_SetPos_spec 0 0 s1 Hs1 ltac:(lia) ltac:(lia)) as H.
  vm_compute in E. injection E as <-.
  destruct H as (H1 & H2 & _). split; [exact H1|exact H2].
Defined.

(** [FindByte] stops at the first occurrence of the byte at or after the reading
    position, or throws at the end of the file when there is none; it always ends. *)
Theorem CBufferedFile_FindByte_spec (lo ch : Z) (s : CBufferedFile) :
  buf_inv lo s ->
  match list_find (eq ch) (drop (Z.to_nat (nReadPos s)) (f_data (src s))) with
  | Some (i, _) => exists s', BufferedFile.FindByte ch s = (Ok tt, s') /\
      buf_inv lo s' /\ same_file s s' /\ nReadPos s' = nReadPos s + i
  | None => exists s', BufferedFile.FindByte ch s = (Throw "CBufferedFile::Fill: end of file", s')
  end.
Proof. intros Hs. apply FindByte_loop_spec; [done|]. destruct (bi_read _ _ Hs), (bi_src _ _ Hs). lia. Qed.

Lemma CBufferedFile_FindByte_spec_witness :
  exists s', BufferedFile.FindByte 13 (BufferedFile.new (mkFILE [10; 11; 12; 13; 14] 0 false) 3 1)
    = (Ok tt, s') /\ nReadPos s' = 3.
Proof.
  destruct (CBufferedFile_FindByte_spec 0 13 (BufferedFile.new (mkFILE [10; 11; 12; 13; 14] 0 false) 3 1)
    ltac:(apply new_inv; simpl; lia)) as (s' & E & _ & _ & Hr).
  exists s'. split; [exact E|exact Hr].
Defined.

(** [Seek] keeps the old buffer: rewinding across it succeeds and reads stale bytes, here
    the initial zero instead of the byte 4 of the file. *)
Example Seek_SetPos_stale :
  let s := (BufferedFile.Seek 5 (BufferedFile.new (mkFILE [0; 1; 2; 3; 4; 5; 6; 7] 0 false) 4 1)).2 in
  let '(ok, s') := BufferedFile.SetPos 4 s in
  ok = true /\ (BufferedFile.read 1 s').1 = Ok [0].
Proof. vm_compute. split; reflexivity. Qed.
