(* ===== verification/ArithLaws.v ===== *)
(** * The big integers are integers modulo a power of two

    [value] evaluates the limbs; each operator of [ArithUint256.v] is related to the
    operation of [Z] it implements, and the compact format to the number it denotes. *)

From S2P Require Import Prelude Bytes ArithUint256.
Import BaseUint.

#[local] Arguments Nat.modulo : simpl never.
#[local] Arguments Nat.div : simpl never.

Fixpoint value (pn : base_uint) : Z :=
  match pn with
  | [] => 0
  | x :: pn => x + 2 ^ 32 * value pn
  end.

Definition wf (WIDTH : nat) (pn : base_uint) : Prop :=
  length pn = WIDTH /\ Forall (in_uint 32) pn.

(** ** Limbs and values *)

Lemma pow32_S n : 2 ^ (32 * S n) = 2 ^ 32 * 2 ^ (32 * n).
Proof. rewrite <- Z.pow_add_r by lia. f_equal. lia. Qed.

Lemma value_range pn : Forall (in_uint 32) pn -> 0 <= value pn < 2 ^ (32 * length pn).
Proof.
  induction 1 as [|x pn Hx Hpn IH]; [simpl; lia|].
  cbn [value length]. rewrite pow32_S. unfold in_uint in Hx. nia.
Qed.

Lemma value_app a b : value (a ++ b) = value a + 2 ^ (32 * length a) * value b.
Proof.
  induction a as [|x a IH]; cbn [app value length]; [change (2 ^ (32 * 0%nat)) with 1; lia|].
  rewrite IH, pow32_S. lia.
Qed.

Lemma value_zero W : value (zero W) = 0.
Proof. unfold zero. induction W as [|W IH]; simpl; [done|]. by rewrite IH. Qed.

Lemma wf_zero W : wf W (zero W).
Proof. split; [apply length_replicate|]. apply Forall_replicate. by split. Qed.

Lemma wf_lookup W pn i : wf W pn -> (i < W)%nat -> in_uint 32 (pn !!! i).
Proof. intros [Hl Hf] Hi. apply (Forall_lookup_total_1 _ _ i Hf). lia. Qed.

Lemma value_lookup_split W pn i :
  wf W pn -> (i < W)%nat ->
  value pn = value (take i pn) + 2 ^ (32 * i) * ((pn !!! i) + 2 ^ 32 * value (drop (S i) pn)).
Proof.
  intros [Hl Hf] Hi. destruct (lookup_lt_is_Some_2 pn i) as [x Hx]; [lia|].
  rewrite (list_lookup_total_correct _ _ _ Hx).
  rewrite <- (take_drop_middle pn i x Hx) at 1. rewrite value_app. cbn [value].
  by rewrite length_take, Nat.min_l by lia.
Qed.

(** The value is determined modulo [2^32] by the first limb, and so on up. *)
Lemma low_limb n : n &&& 0xffffffff = n `mod` 2 ^ 32.
Proof. exact (Z.land_ones n 32 ltac:(lia)). Qed.

Lemma in_uint32_mod n : in_uint 32 (n `mod` 2 ^ 32).
Proof. by apply uint_range. Qed.

(** One limb of a sum: the low part is stored, the high part carried. *)
Lemma carry_step n k (rest : Z) :
  0 <= k -> n `mod` 2 ^ 32 + 2 ^ 32 * ((n / 2 ^ 32 + rest) `mod` 2 ^ k) =
  (n + 2 ^ 32 * rest) `mod` (2 ^ 32 * 2 ^ k).
Proof.
  intros Hk. pose proof (Z.pow_pos_nonneg 2 k ltac:(lia) Hk).
  rewrite (Z.rem_mul_r (n + 2 ^ 32 * rest)) by lia.
  rewrite (Z.mul_comm (2 ^ 32) rest), Z.mod_add, Z.div_add by lia. done.
Qed.

Lemma bit_of_value pn (i : nat) :
  Forall (in_uint 32) pn ->
  Z.testbit (value pn) i = Z.testbit (default 0 (pn !! (i / 32)%nat)) (i mod 32)%nat.
Proof.
  intros Hf. revert i. induction Hf as [|x pn Hx Hpn IH]; intros i; cbn [value].
  { rewrite lookup_nil. simpl. by rewrite !Z.bits_0. }
  replace (x + 2 ^ 32 * value pn) with ((value pn << 32) ||| x)
    by (rewrite lor_shiftl_add by (done || lia); lia).
  rewrite Z.lor_spec, Z.shiftl_spec by lia. destruct (decide (i < 32)%nat) as [Hi|Hi].
  - replace (i / 32)%nat with 0%nat by lia_mod. replace (i mod 32)%nat with i by lia_mod.
    simpl. by rewrite Z.testbit_neg_r by lia.
  - rewrite (testbit_in_uint 32 x) by (done || lia). rewrite orb_false_r.
    replace (i - 32) with (Z.of_nat (i - 32)) by lia. rewrite IH.
    replace (i / 32)%nat with (S ((i - 32) / 32)) by lia_mod. cbn [lookup list_lookup].
    do 2 f_equal; lia_mod.
Qed.

(** Two values with the same limbs; used to compare results bit by bit. *)
Lemma value_bits_inj W pn x :
  wf W pn -> 0 <= x < 2 ^ (32 * W) ->
  (forall i : nat, (i < 32 * W)%nat ->
    Z.testbit (pn !!! (i / 32)%nat) (i mod 32)%nat = Z.testbit x i) ->
  value pn = x.
Proof.
  intros [Hl Hf] Hx H. apply (uint_bits_inj (32 * W)); [lia| |done|].
  { rewrite <- Hl. by apply value_range. }
  intros i Hi. rewrite <- (Z2Nat.id i) by lia. rewrite bit_of_value by done.
  rewrite list_lookup_lookup_total_lt by lia_mod. apply H. lia.
Qed.

(** ** Addition and subtraction *)

Lemma add_loop_value c a b :
  length a = length b -> Forall (in_uint 32) a -> Forall (in_uint 32) b -> 0 <= c < 2 ^ 32 ->
  wf (length a) (add_loop c a b) /\
  value (add_loop c a b) = (c + value a + value b) `mod` 2 ^ (32 * length a).
Proof.
  intros Hl Ha. revert c b Hl. induction Ha as [|x a Hx Ha IH]; intros c b Hl Hb Hc.
  { simpl. rewrite Z.mod_1_r. by repeat split. }
  destruct Hb as [|y b Hy Hb]; [done|]. cbn [add_loop value length]. unfold in_uint in Hx, Hy.
  rewrite u64_small, low_limb, Z.shiftr_div_pow2 by lia.
  destruct (IH ((c + x + y) / 2 ^ 32) b) as [[Hwl Hwf] Hv]; [simpl in Hl; lia|done|lia_mod|].
  split; [split; [simpl; lia|constructor; [apply in_uint32_mod|done]]|].
  rewrite Hv, <- (Z.add_assoc (_ / _)), carry_step, pow32_S by lia. f_equal. lia.
Qed.

Lemma wf_add W a b : wf W a -> wf W b -> wf W (add a b).
Proof.
  intros [Hl Ha] [Hl' Hb]. destruct (add_loop_value 0 a b) as [Hw _]; [congruence|done..|].
  by rewrite Hl in Hw.
Qed.

Lemma value_add W a b :
  wf W a -> wf W b -> value (add a b) = (value a + value b) `mod` 2 ^ (32 * W).
Proof.
  intros [Hl Ha] [Hl' Hb]. unfold add.
  destruct (add_loop_value 0 a b) as [_ ->]; [congruence|done..|]. by rewrite Hl.
Qed.

Lemma wf_bitnot W a : wf W a -> wf W (bitnot a).
Proof.
  intros [Hl Ha]. split; [unfold bitnot; by rewrite length_fmap|].
  apply Forall_fmap, Forall_true. intros. by apply uint_range.
Qed.

Lemma u32_lnot x : in_uint 32 x -> u32 (Z.lnot x) = 2 ^ 32 - 1 - x.
Proof. unfold in_uint, uint, Z.lnot. intros. lia_mod. Qed.

Lemma value_bitnot W a : wf W a -> value (bitnot a) = 2 ^ (32 * W) - 1 - value a.
Proof.
  intros [<- Ha]. induction Ha as [|x a Hx Ha IH]; [done|].
  cbn [bitnot fmap list_fmap value length]. unfold bitnot in IH. rewrite IH, u32_lnot, pow32_S by done.
  lia.
Qed.

Lemma wf_inc W a : wf W a -> wf W (inc a).
Proof.
  intros [<- Ha]. induction Ha as [|x a Hx Ha [IHl IHf]]; [by split|]. cbn [inc].
  destruct (_ =? 0); split; simpl; try lia; constructor; done || by apply uint_range.
Qed.

Lemma value_inc W a : wf W a -> value (inc a) = (value a + 1) `mod` 2 ^ (32 * W).
Proof.
  intros [<- Ha]. induction Ha as [|x a Hx Ha IH]; cbn [inc value length].
  { change (2 ^ (32 * 0%nat)) with 1. by rewrite Z.mod_1_r. }
  pose proof (value_range a Ha). unfold in_uint in Hx. rewrite pow32_S.
  destruct (Z.eqb_spec (u32 (x + 1)) 0) as [E|E]; cbn [value].
  - assert (x = 2 ^ 32 - 1) as -> by (unfold uint in E; lia_mod).
    rewrite IH, E. replace (2 ^ 32 - 1 + 2 ^ 32 * value a + 1) with (0 + 2 ^ 32 * (value a + 1)) by lia.
    rewrite <- carry_step by lia. f_equal.
  - assert (x <> 2 ^ 32 - 1) by (intros ->; apply E; reflexivity).
    rewrite uint_small by (unfold in_uint; lia). rewrite Z.mod_small by nia. lia.
Qed.

Lemma wf_dec W a : wf W a -> wf W (dec a).
Proof.
  intros [<- Ha]. induction Ha as [|x a Hx Ha [IHl IHf]]; [by split|]. cbn [dec].
  destruct (_ =? _); split; simpl; try lia; constructor; done || by apply uint_range.
Qed.

Lemma value_dec W a : wf W a -> value (dec a) = (value a - 1) `mod` 2 ^ (32 * W).
Proof.
  intros [<- Ha]. induction Ha as [|x a Hx Ha IH]; cbn [dec value length].
  { change (2 ^ (32 * 0%nat)) with 1. by rewrite Z.mod_1_r. }
  pose proof (value_range a Ha). unfold in_uint in Hx. rewrite pow32_S.
  change (u32 (-1)) with (2 ^ 32 - 1).
  destruct (Z.eqb_spec (u32 (x - 1)) (2 ^ 32 - 1)) as [E|E]; cbn [value].
  - assert (x = 0) as -> by (unfold uint in E; lia_mod).
    rewrite IH, E. replace (0 + 2 ^ 32 * value a - 1) with (2 ^ 32 - 1 + 2 ^ 32 * (value a - 1)) by lia.
    rewrite <- carry_step by lia. f_equal.
  - assert (x <> 0) by (intros ->; apply E; reflexivity).
    rewrite uint_small by (unfold in_uint; lia). rewrite Z.mod_small by nia. lia.
Qed.

Lemma wf_neg W a : wf W a -> wf W (neg a).
Proof. intros. by apply wf_inc, wf_bitnot. Qed.

Lemma value_neg W a : wf W a -> value (neg a) = (- value a) `mod` 2 ^ (32 * W).
Proof.
  intros Ha. unfold neg. rewrite (value_inc W) by (by apply wf_bitnot).
  rewrite (value_bitnot W) by done.
  replace (2 ^ (32 * W) - 1 - value a + 1) with (- value a + 1 * 2 ^ (32 * W)) by lia.
  apply Z.mod_add. pose proof (Z.pow_pos_nonneg 2 (32 * W)). lia.
Qed.

Lemma wf_sub W a b : wf W a -> wf W b -> wf W (sub a b).
Proof. intros. apply wf_add; [done|by apply wf_neg]. Qed.

Lemma value_sub W a b :
  wf W a -> wf W b -> value (sub a b) = (value a - value b) `mod` 2 ^ (32 * W).
Proof.
  intros Ha Hb. unfold sub. rewrite (value_add W), (value_neg W) by (done || by apply wf_neg).
  by rewrite Zplus_mod_idemp_r.
Qed.

Lemma wf_of_uint64 W b : (2 <= W)%nat -> wf W (of_uint64 W b).
Proof.
  intros HW. split; [simpl; rewrite length_replicate; lia|].
  do 2 (constructor; [by apply uint_range|]). apply Forall_replicate. by split.
Qed.

Lemma value_of_uint64 W b : in_uint 64 b -> value (of_uint64 W b) = b.
Proof.
  intros Hb. unfold of_uint64. fold (zero (W - 2)). cbn [value]. rewrite value_zero.
  unfold in_uint, uint in *. rewrite Z.shiftr_div_pow2 by lia. lia_mod.
Qed.

(** ** Multiplication *)

Lemma mul32_loop_value b c pn :
  in_uint 32 b -> Forall (in_uint 32) pn -> in_uint 32 c ->
  wf (length pn) (mul32_loop b c pn) /\
  value (mul32_loop b c pn) = (c + b * value pn) `mod` 2 ^ (32 * length pn).
Proof.
  unfold in_uint at 1 3. intros Hb Hpn. revert c. induction Hpn as [|x pn Hx Hpn IH]; intros c Hc.
  { simpl. rewrite Z.mod_1_r. by repeat split. }
  cbn [mul32_loop value length]. unfold in_uint in Hx.
  rewrite u64_small, low_limb, Z.shiftr_div_pow2 by nia.
  destruct (IH ((c + b * x) / 2 ^ 32)) as [[Hwl Hwf] Hv].
  { split; [apply Z.div_pos; nia|]. apply Z.div_lt_upper_bound; nia. }
  split; [split; [simpl; lia|constructor; [apply in_uint32_mod|done]]|].
  rewrite Hv, carry_step, pow32_S by lia. f_equal. lia.
Qed.

Lemma wf_mul32 W a b : wf W a -> in_uint 32 b -> wf W (mul32 a b).
Proof. intros [<- Ha] Hb. by apply mul32_loop_value. Qed.

Lemma value_mul32 W a b :
  wf W a -> in_uint 32 b -> value (mul32 a b) = (value a * b) `mod` 2 ^ (32 * W).
Proof.
  intros [<- Ha] Hb. unfold mul32. destruct (mul32_loop_value b 0 a) as [_ ->]; [done..|].
  f_equal. lia.
Qed.

Lemma mul_row_value x c a b :
  (length a <= length b)%nat -> in_uint 32 x -> Forall (in_uint 32) a -> Forall (in_uint 32) b ->
  in_uint 32 c ->
  wf (length a) (mul_row x c a b) /\
  value (mul_row x c a b) = (c + value a + x * value b) `mod` 2 ^ (32 * length a).
Proof.
  unfold in_uint at 1 4. intros Hl Hx Ha. revert c b Hl.
  induction Ha as [|y a Hy Ha IH]; intros c b Hl Hb Hc.
  { simpl. rewrite Z.mod_1_r. destruct b; by repeat split. }
  destruct Hb as [|z b Hz Hb]; [simpl in Hl; lia|]. cbn [mul_row value length].
  unfold in_uint in Hy, Hz. rewrite u64_small, low_limb, Z.shiftr_div_pow2 by nia.
  destruct (IH ((c + y + x * z) / 2 ^ 32) b) as [[Hwl Hwf] Hv]; [simpl in Hl; lia|done| |].
  { split; [apply Z.div_pos; nia|]. apply Z.div_lt_upper_bound; nia. }
  split; [split; [simpl; lia|constructor; [apply in_uint32_mod|done]]|].
  rewrite Hv, <- (Z.add_assoc (_ / _)), carry_step, pow32_S by lia. f_equal. lia.
Qed.

(** The low part of a modulus carried out above limb [j]. *)
Lemma mod_high_part lo x j m :
  0 <= j -> 0 <= m -> 0 <= lo < 2 ^ j ->
  lo + 2 ^ j * (x `mod` 2 ^ m) = (lo + 2 ^ j * x) `mod` 2 ^ (j + m).
Proof.
  intros Hj Hm Hlo. pose proof (Z.pow_pos_nonneg 2 j). pose proof (Z.pow_pos_nonneg 2 m).
  rewrite Z.pow_add_r, Z.rem_mul_r by lia.
  rewrite (Z.mul_comm (2 ^ j) x), Z.mod_add, Z.div_add by lia.
  by rewrite (Z.mod_small lo), (Z.div_small lo) by lia.
Qed.

Lemma mul_step W a b x j :
  wf W a -> wf W b -> in_uint 32 x -> (j < W)%nat ->
  let a' := take j a ++ mul_row x 0 (drop j a) b in
  wf W a' /\ value a' = (value a + 2 ^ (32 * j) * (x * value b)) `mod` 2 ^ (32 * W).
Proof.
  intros [Hal Ha] [Hbl Hb] Hx Hj a'.
  destruct (mul_row_value x 0 (drop j a) b) as [[Hl Hf] Hv];
    [rewrite length_drop; lia|done|by apply Forall_drop|done..|].
  assert (length (take j a) = j) as Hjl by (rewrite length_take; lia).
  rewrite length_drop in Hl, Hv. unfold a'. split.
  - split; [rewrite length_app; lia|]. apply Forall_app_2; [by apply Forall_take|done].
  - rewrite value_app, Hv, Hjl, mod_high_part; [|lia..|].
    + replace (32 * j + 32 * (length a - j)%nat) with (32 * W) by lia. f_equal.
      rewrite <- (take_drop j a) at 3. rewrite value_app, Hjl. lia.
    + pose proof (value_range (take j a)) as Hr. rewrite Hjl in Hr. apply Hr, Forall_take, Ha.
Qed.

Lemma value_take_S W pn j :
  wf W pn -> (j < W)%nat -> value (take (S j) pn) = value (take j pn) + 2 ^ (32 * j) * (pn !!! j).
Proof.
  intros [Hl Hf] Hj. destruct (lookup_lt_is_Some_2 pn j) as [x Hx]; [lia|].
  rewrite (list_lookup_total_correct _ _ _ Hx), (take_S_r _ _ _ Hx), value_app, length_take.
  rewrite Nat.min_l by lia. simpl. lia.
Qed.

Lemma mul_spec W a b :
  wf W a -> wf W b ->
  wf W (mul a b) /\ value (mul a b) = (value a * value b) `mod` 2 ^ (32 * W).
Proof.
  intros Ha Hb. unfold mul. rewrite (proj1 Ha).
  assert (forall n, (n <= W)%nat ->
    let r := foldl (λ a' j, take j a' ++ mul_row (a !!! j) 0 (drop j a') b) (zero W) (seq 0 n) in
    wf W r /\ value r = (value (take n a) * value b) `mod` 2 ^ (32 * W)) as H.
  { induction n as [|n IH]; intros Hn; cbv zeta.
    - split; [apply wf_zero|]. cbn [seq foldl]. rewrite value_zero. simpl. by rewrite Z.mod_0_l by lia.
    - rewrite seq_S, foldl_snoc, Nat.add_0_l. destruct (IH ltac:(lia)) as [Hw Hv].
      destruct (mul_step W _ b (a !!! n) n Hw Hb) as [Hw' Hv'];
        [apply (wf_lookup W); [done|lia]|lia|].
      split; [exact Hw'|]. rewrite Hv', Hv, Zplus_mod_idemp_l, (value_take_S W) by (done || lia).
      f_equal. lia. }
  destruct (H W ltac:(lia)) as [Hw Hv]. split; [exact Hw|].
  rewrite Hv, take_ge by (destruct Ha; lia). done.
Qed.

(** ** Shifts *)

Lemma alter_lookup_total (f : Z -> Z) (q r : nat) (l : base_uint) :
  (r < length l)%nat -> alter f q l !!! r = if decide (q = r) then f (l !!! r) else l !!! r.
Proof.
  intros Hr. case_decide as E; [subst; by apply list_lookup_total_alter_eq|].
  by apply list_lookup_total_alter_ne.
Qed.

(** An or-ed in contribution, or nothing. *)
Definition lor_when (b : bool) (x y : Z) : Z := if b then x ||| y else x.

Lemma length_shl_fold a k s W l :
  length (foldl (shl_step a k s) (zero W) l) = W.
Proof.
  revert W. induction l as [|i l IH] using rev_ind; intros W; [apply length_replicate|].
  rewrite foldl_snoc. unfold shl_step at 1. repeat case_match; rewrite ?length_alter; apply IH.
Qed.

Lemma shl_fold_lookup a k s W (n r : nat) :
  (r < W)%nat ->
  foldl (shl_step a k s) (zero W) (seq 0 n) !!! r =
    lor_when (bool_decide (k + 1 <= r < n + k + 1)%nat && negb (s =? 0))
      (if bool_decide (k <= r < n + k)%nat then u32 ((a !!! (r - k)%nat) << s) else 0)
      ((a !!! (r - k - 1)%nat) >> (32 - s)).
Proof.
  intros Hr. induction n as [|n IH].
  - rewrite !bool_decide_false by lia. apply lookup_total_replicate_2. lia.
  - rewrite seq_S, foldl_snoc, Nat.add_0_l. unfold shl_step at 1.
    set (l := foldl _ _ _) in *. assert (length l = W) as Hl by apply length_shl_fold.
    set (l1 := if _ && _ then _ else _). assert (length l1 = W) as Hl1
      by (unfold l1; destruct ((n + k + 1 <? length l)%nat && _); by rewrite ?length_alter).
    assert (l1 !!! r = if bool_decide (r = n + k + 1)%nat && negb (s =? 0)
      then (l !!! r) ||| ((a !!! n) >> (32 - s)) else l !!! r) as H1.
    { unfold l1. rewrite Hl. clear IH. destruct (Nat.ltb_spec (n + k + 1) W), (negb (s =? 0));
        rewrite ?andb_false_r; cbn [andb]; rewrite ?alter_lookup_total by lia;
        repeat case_decide; repeat case_bool_decide; done || lia. }
    rewrite Hl1.
    assert ((if (n + k <? W)%nat then alter (λ x, x ||| u32 ((a !!! n) << s)) (n + k)%nat l1 else l1) !!! r =
      if bool_decide (r = n + k)%nat then (l1 !!! r) ||| u32 ((a !!! n) << s) else l1 !!! r) as ->.
    { clear IH H1. destruct (Nat.ltb_spec (n + k) W); rewrite ?alter_lookup_total by lia;
        repeat case_decide; repeat case_bool_decide; done || lia. }
    rewrite H1, IH. clear H1 IH Hl1 Hl. clearbody l1 l. unfold lor_when.
    destruct (decide (r = n + k)%nat) as [->|]; [|destruct (decide (r = n + k + 1)%nat) as [->|]].
    + rewrite (bool_decide_true (n + k = n + k)%nat), (bool_decide_false (n + k = n + k + 1)%nat),
        (bool_decide_false (k <= n + k < n + k)%nat), (bool_decide_true (k <= n + k < S n + k)%nat) by lia.
      rewrite (bool_decide_ext (k + 1 <= n + k < S n + k + 1)%nat (k + 1 <= n + k < n + k + 1)%nat) by lia.
      replace (n + k - k)%nat with n by lia. cbn [andb].
      destruct (_ && _); rewrite Z.lor_0_l; [apply Z.lor_comm|done].
    + rewrite (bool_decide_false (n + k + 1 = n + k)%nat), (bool_decide_true (n + k + 1 = n + k + 1)%nat),
        (bool_decide_false (k <= n + k + 1 < n + k)%nat), (bool_decide_false (k <= n + k + 1 < S n + k)%nat),
        (bool_decide_false (k + 1 <= n + k + 1 < n + k + 1)%nat),
        (bool_decide_true (k + 1 <= n + k + 1 < S n + k + 1)%nat) by lia.
      by replace (n + k + 1 - k - 1)%nat with n by lia.
    + rewrite (bool_decide_false (r = n + k)%nat), (bool_decide_false (r = n + k + 1)%nat) by done.
      rewrite (bool_decide_ext (k + 1 <= r < S n + k + 1)%nat (k + 1 <= r < n + k + 1)%nat) by lia.
      by rewrite (bool_decide_ext (k <= r < S n + k)%nat (k <= r < n + k)%nat) by lia.
Qed.

Lemma wf_intro W l :
  length l = W -> (forall r : nat, (r < W)%nat -> in_uint 32 (l !!! r)) -> wf W l.
Proof.
  intros Hl H. split; [done|]. apply Forall_lookup. intros r x Hr.
  rewrite <- (list_lookup_total_correct _ _ _ Hr). apply H.
  apply lookup_lt_Some in Hr. lia.
Qed.

Lemma testbit_lor_when b x y i :
  Z.testbit (lor_when b x y) i = Z.testbit x i || (b && Z.testbit y i).
Proof. destruct b; simpl; [apply Z.lor_spec|by rewrite orb_false_r]. Qed.

(** A bit of the value at [32 q + j]. *)
Lemma bit_at W a (q j : nat) :
  wf W a -> (q < W)%nat -> (j < 32)%nat -> Z.testbit (value a) (32 * q + j) = Z.testbit (a !!! q) j.
Proof.
  intros [Hl Hf] Hq Hj. replace (32 * q + j) with (Z.of_nat (32 * q + j)) by lia.
  rewrite bit_of_value by done. replace ((32 * q + j) / 32)%nat with q by lia_mod.
  replace ((32 * q + j) mod 32)%nat with j by lia_mod.
  by rewrite list_lookup_lookup_total_lt by lia.
Qed.

Lemma shl_spec W a shift :
  wf W a -> 0 <= shift ->
  wf W (shl a shift) /\ value (shl a shift) = (value a * 2 ^ shift) `mod` 2 ^ (32 * W).
Proof.
  intros Ha Hs. pose proof Ha as [Hl Hf].
  set (k := Z.to_nat (shift / 32)). set (s := shift `mod` 32).
  assert (shift = 32 * k + s /\ 0 <= s < 32) as [Hshift Hs32] by (unfold k, s; lia_mod).
  assert (forall r : nat, (r < W)%nat -> shl a shift !!! r =
    lor_when (bool_decide (k + 1 <= r)%nat && negb (s =? 0))
      (if bool_decide (k <= r)%nat then u32 ((a !!! (r - k)%nat) << s) else 0)
      ((a !!! (r - k - 1)%nat) >> (32 - s))) as Hlimb.
  { intros r Hr. unfold shl. rewrite Hl. fold k s. rewrite shl_fold_lookup by done.
    rewrite (bool_decide_ext (k + 1 <= r < W + k + 1)%nat (k + 1 <= r)%nat) by lia.
    by rewrite (bool_decide_ext (k <= r < W + k)%nat (k <= r)%nat) by lia. }
  assert (wf W (shl a shift)) as Hw.
  { apply wf_intro; [unfold shl; rewrite Hl; apply length_shl_fold|]. intros r Hr. rewrite Hlimb by done.
    unfold lor_when. case_bool_decide; cbn [andb].
    - rewrite bool_decide_true by lia. destruct (negb _); [|by apply uint_range].
      apply in_uint_lor; [lia|by apply uint_range|].
      apply in_uint_shiftr; [lia|]. apply (wf_lookup W); done || lia.
    - case_bool_decide; [by apply uint_range|by split]. }
  split; [done|]. rewrite <- Z.shiftl_mul_pow2 by lia.
  apply (value_bits_inj W); [done|by apply (uint_range (32 * W)); lia|].
  intros i Hi. change (?x `mod` 2 ^ ?y) with (uint y x).
  rewrite testbit_uint, (proj2 (Z.ltb_lt _ _)), andb_true_l, Z.shiftl_spec by lia.
  set (r := (i / 32)%nat). set (j := (i mod 32)%nat).
  assert (i = 32 * r + j /\ j < 32)%nat as [Ei Hj] by (unfold r, j; lia_mod).
  clearbody r j. subst i.
  rewrite Hlimb, testbit_lor_when by lia.
  destruct (decide (s <= j)) as [Hsj|Hsj].
  - (* the bit comes from limb r - k *)
    assert (forall x, in_uint 32 x -> Z.testbit (x >> (32 - s)) j = false) as Hhi.
    { intros x Hx. rewrite Z.shiftr_spec by lia. apply (testbit_in_uint 32); done || lia. }
    case_bool_decide as Hkr.
    + rewrite testbit_uint, (proj2 (Z.ltb_lt _ _)), andb_true_l, Z.shiftl_spec by lia.
      replace ((32 * r + j)%nat - shift) with (32 * (r - k)%nat + (Z.to_nat (j - s))) by lia.
      rewrite (bit_at W) by (done || lia). rewrite Z2Nat.id by lia.
      destruct (decide (k + 1 <= r)%nat); [rewrite Hhi by (apply (wf_lookup W); done || lia)|
        rewrite (bool_decide_false (k + 1 <= r)%nat) by done]; by rewrite ?andb_false_r, orb_false_r.
    + rewrite (bool_decide_false (k + 1 <= r)%nat), Z.bits_0 by lia. cbn [andb orb].
      by rewrite Z.testbit_neg_r by lia.
  - (* the bit comes from limb r - k - 1 *)
    assert (Z.testbit (if bool_decide (k <= r)%nat then u32 ((a !!! (r - k)%nat) << s) else 0) j = false) as ->.
    { case_bool_decide; [|apply Z.bits_0]. rewrite testbit_uint, Z.shiftl_spec by lia.
      by rewrite (Z.testbit_neg_r _ (j - s)), andb_false_r by lia. }
    rewrite orb_false_l, (proj2 (Z.eqb_neq s 0)), andb_true_r by lia. case_bool_decide as Hkr; cbn [andb].
    + rewrite Z.shiftr_spec by lia.
      replace ((32 * r + j)%nat - shift) with (32 * (r - k - 1)%nat + (Z.to_nat (32 + j - s))) by lia.
      rewrite (bit_at W) by (done || lia). f_equal. lia.
    + by rewrite Z.testbit_neg_r by lia.
Qed.

Lemma length_shr_fold a k s W l :
  length (foldl (shr_step a k s) (zero W) l) = W.
Proof.
  revert W. induction l as [|i l IH] using rev_ind; intros W; [apply length_replicate|].
  rewrite foldl_snoc. unfold shr_step at 1. repeat case_match; rewrite ?length_alter; apply IH.
Qed.

Lemma shr_fold_lookup a k s W (n r : nat) :
  (r < W)%nat ->
  foldl (shr_step a k s) (zero W) (seq 0 n) !!! r =
    lor_when (bool_decide (r + k + 1 < n)%nat && negb (s =? 0))
      (if bool_decide (r + k < n)%nat then (a !!! (r + k)%nat) >> s else 0)
      (u32 ((a !!! (r + k + 1)%nat) << (32 - s))).
Proof.
  intros Hr. induction n as [|n IH].
  - rewrite !bool_decide_false by lia. apply lookup_total_replicate_2. lia.
  - rewrite seq_S, foldl_snoc, Nat.add_0_l. unfold shr_step at 1.
    set (l := foldl _ _ _) in *. assert (length l = W) as Hl by apply length_shr_fold.
    set (l1 := if _ && _ then _ else _). assert (length l1 = W) as Hl1
      by (unfold l1; destruct ((k + 1 <=? n)%nat && _); by rewrite ?length_alter).
    assert (l1 !!! r = if bool_decide (n = r + k + 1)%nat && negb (s =? 0)
      then (l !!! r) ||| u32 ((a !!! n) << (32 - s)) else l !!! r) as H1.
    { unfold l1. clear IH. destruct (Nat.leb_spec (k + 1) n), (negb (s =? 0));
        rewrite ?andb_false_r; cbn [andb]; rewrite ?alter_lookup_total by lia;
        repeat case_decide; repeat case_bool_decide; done || lia. }
    assert ((if (k <=? n)%nat then alter (λ x, x ||| ((a !!! n) >> s)) (n - k)%nat l1 else l1) !!! r =
      if bool_decide (n = r + k)%nat then (l1 !!! r) ||| ((a !!! n) >> s) else l1 !!! r) as ->.
    { clear IH H1. destruct (Nat.leb_spec k n); rewrite ?alter_lookup_total by lia;
        repeat case_decide; repeat case_bool_decide; done || lia. }
    rewrite H1, IH. clear H1 IH Hl1 Hl. clearbody l1 l. unfold lor_when.
    destruct (decide (n = r + k)%nat) as [->|]; [|destruct (decide (n = r + k + 1)%nat) as [->|]].
    + rewrite (bool_decide_false (r + k = r + k + 1)%nat), !(bool_decide_false (r + k < r + k)%nat),
        (bool_decide_false (r + k + 1 < r + k)%nat), (bool_decide_false (r + k + 1 < S (r + k))%nat),
        (bool_decide_true (r + k < S (r + k))%nat), (bool_decide_true (r + k = r + k)%nat) by lia.
      apply Z.lor_0_l.
    + rewrite (bool_decide_false (r + k + 1 = r + k)%nat), (bool_decide_true (r + k + 1 = r + k + 1)%nat),
        (bool_decide_false (r + k + 1 < r + k + 1)%nat), (bool_decide_true (r + k + 1 < S (r + k + 1))%nat),
        (bool_decide_true (r + k < r + k + 1)%nat), (bool_decide_true (r + k < S (r + k + 1))%nat) by lia.
      done.
    + rewrite (bool_decide_false (n = r + k)%nat), (bool_decide_false (n = r + k + 1)%nat) by done.
      rewrite (bool_decide_ext (r + k + 1 < S n)%nat (r + k + 1 < n)%nat) by lia.
      by rewrite (bool_decide_ext (r + k < S n)%nat (r + k < n)%nat) by lia.
Qed.

Lemma shr_spec W a shift :
  wf W a -> 0 <= shift -> wf W (shr a shift) /\ value (shr a shift) = value a / 2 ^ shift.
Proof.
  intros Ha Hs. pose proof Ha as [Hl Hf].
  set (k := Z.to_nat (shift / 32)). set (s := shift `mod` 32).
  assert (shift = 32 * k + s /\ 0 <= s < 32) as [Hshift Hs32] by (unfold k, s; lia_mod).
  assert (forall r : nat, (r < W)%nat -> shr a shift !!! r =
    lor_when (bool_decide (r + k + 1 < W)%nat && negb (s =? 0))
      (if bool_decide (r + k < W)%nat then (a !!! (r + k)%nat) >> s else 0)
      (u32 ((a !!! (r + k + 1)%nat) << (32 - s)))) as Hlimb.
  { intros r Hr. unfold shr. rewrite Hl. fold k s. by rewrite shr_fold_lookup. }
  assert (wf W (shr a shift)) as Hw.
  { apply wf_intro; [unfold shr; rewrite Hl; apply length_shr_fold|]. intros r Hr. rewrite Hlimb by done.
    unfold lor_when. case_bool_decide; cbn [andb].
    - rewrite bool_decide_true by lia.
      assert (in_uint 32 ((a !!! (r + k)%nat) >> s)).
      { apply in_uint_shiftr; [lia|]. apply (wf_lookup W); done || lia. }
      destruct (negb _); [|done]. apply in_uint_lor; [lia|done|by apply uint_range].
    - case_bool_decide; [|by split]. apply in_uint_shiftr; [lia|]. apply (wf_lookup W); done || lia. }
  split; [done|]. pose proof (value_range a Hf) as Hrange. rewrite Hl in Hrange.
  rewrite <- Z.shiftr_div_pow2 by lia.
  apply (value_bits_inj W); [done|apply (in_uint_shiftr (32 * W)); done|].
  intros i Hi. rewrite Z.shiftr_spec by lia.
  set (r := (i / 32)%nat). set (j := (i mod 32)%nat).
  assert (i = 32 * r + j /\ j < 32)%nat as [Ei Hj] by (unfold r, j; lia_mod).
  clearbody r j. subst i. rewrite Hlimb, testbit_lor_when by lia.
  assert (forall q : nat, (W <= q)%nat -> forall b : nat, Z.testbit (value a) (32 * q + b) = false) as Hout.
  { intros q Hq b. apply (testbit_in_uint (32 * W)); done || lia. }
  destruct (decide (j + s < 32)) as [Hsj|Hsj].
  - (* the bit comes from limb r + k *)
    assert (forall x, Z.testbit (u32 (x << (32 - s))) j = false) as Hhi.
    { intros x. rewrite testbit_uint, Z.shiftl_spec by lia.
      by rewrite (Z.testbit_neg_r _ (j - (32 - s))), andb_false_r by lia. }
    rewrite Hhi, andb_false_r, orb_false_r.
    replace ((32 * r + j)%nat + shift) with (32 * (r + k)%nat + (Z.to_nat (j + s))) by lia.
    case_bool_decide.
    + rewrite Z.shiftr_spec, (bit_at W) by (done || lia). f_equal. lia.
    + rewrite Hout by lia. apply Z.bits_0.
  - (* the bit comes from limb r + k + 1 *)
    assert (Z.testbit (if bool_decide (r + k < W)%nat then (a !!! (r + k)%nat) >> s else 0) j = false) as ->.
    { case_bool_decide; [|apply Z.bits_0]. rewrite Z.shiftr_spec by lia.
      apply (testbit_in_uint 32); [apply (wf_lookup W); done || lia|lia..]. }
    rewrite orb_false_l, (proj2 (Z.eqb_neq s 0)), andb_true_r by lia.
    replace ((32 * r + j)%nat + shift) with (32 * (r + k + 1)%nat + (Z.to_nat (j + s - 32))) by lia.
    case_bool_decide; cbn [andb].
    + rewrite testbit_uint, (proj2 (Z.ltb_lt _ _)), andb_true_l, Z.shiftl_spec by lia.
      rewrite (bit_at W) by (done || lia). f_equal. lia.
    + rewrite Hout by lia. done.
Qed.

(** ** Comparison *)

Lemma CompareTo_snoc a b x y :
  CompareTo (a ++ [x]) (b ++ [y]) = if x <? y then -1 else if y <? x then 1 else CompareTo a b.
Proof. unfold CompareTo. by rewrite !rev_app_distr. Qed.

Lemma CompareTo_spec W a b :
  wf W a -> wf W b ->
  CompareTo a b = if value a <? value b then -1 else if value b <? value a then 1 else 0.
Proof.
  intros [<- Ha] [Hl Hb]. revert b Hl Hb. induction a as [|x a IH] using rev_ind; intros b Hl Hb.
  { by destruct b. }
  destruct b as [|y b _] using rev_ind; [rewrite length_app in Hl; simpl in Hl; lia|].
  rewrite !length_app in Hl. simpl in Hl.
  apply Forall_app in Ha as [Ha Hx], Hb as [Hb Hy].
  apply Forall_singleton in Hx, Hy. rewrite CompareTo_snoc, IH by (done || lia).
  rewrite !value_app. cbn [value]. rewrite Z.mul_0_r, !Z.add_0_r.
  replace (length b) with (length a) by lia.
  pose proof (value_range a Ha). pose proof (value_range b Hb).
  replace (length b) with (length a) in * by lia. unfold in_uint in Hx, Hy.
  destruct (Z.ltb_spec x y); [|destruct (Z.ltb_spec y x)].
  - rewrite (proj2 (Z.ltb_lt _ _)) by nia. done.
  - rewrite (proj2 (Z.ltb_ge (_ + _) _)), (proj2 (Z.ltb_lt _ _)) by nia. done.
  - assert (x = y) as -> by lia.
    destruct (Z.ltb_spec (value a) (value b)); [by rewrite (proj2 (Z.ltb_lt _ _)) by lia|].
    rewrite (proj2 (Z.ltb_ge (value a + _) _)) by lia.
    destruct (Z.ltb_spec (value b) (value a)); [by rewrite (proj2 (Z.ltb_lt _ _)) by lia|].
    by rewrite (proj2 (Z.ltb_ge _ _)) by lia.
Qed.

Lemma CompareTo_ge W a b : wf W a -> wf W b -> (0 <=? CompareTo a b) = (value b <=? value a).
Proof.
  intros Ha Hb. rewrite (CompareTo_spec W) by done.
  destruct (Z.ltb_spec (value a) (value b)), (Z.ltb_spec (value b) (value a)),
    (Z.leb_spec (value b) (value a)); done || lia.
Qed.

Lemma limbs_zero l : Forall (in_uint 32) l -> forallb (λ x, x =? 0) l = (value l =? 0).
Proof.
  induction 1 as [|x l Hx Hl IH]; [done|]. cbn [forallb value]. rewrite IH.
  pose proof (value_range l Hl). unfold in_uint in Hx.
  destruct (Z.eqb_spec x 0), (Z.eqb_spec (value l) 0), (Z.eqb_spec (x + 2 ^ 32 * value l) 0);
    done || lia.
Qed.

Lemma EqualTo_spec W a b : (2 <= W)%nat -> wf W a -> in_uint 64 b -> EqualTo a b = (value a =? b).
Proof.
  intros HW [Hl Ha] Hb. destruct a as [|x [|y a]]; [simpl in Hl; lia..|].
  unfold EqualTo. cbn [drop lookup_total list_lookup_total]. rewrite drop_0.
  inversion Ha as [|?? Hx Ha1]; subst. inversion Ha1 as [|?? Hy Ha2]; subst.
  rewrite limbs_zero, low_limb, Z.shiftr_div_pow2 by (done || lia). cbn [value].
  pose proof (proj1 (value_range a Ha2)). unfold in_uint in Hx, Hy, Hb. clear -Hx Hy Hb H.
  pose proof (Z.div_mod b (2 ^ 32) ltac:(lia)). pose proof (Z.mod_pos_bound b (2 ^ 32) ltac:(lia)).
  assert (0 <= b / 2 ^ 32 < 2 ^ 32) by (split; [apply Z.div_pos|apply Z.div_lt_upper_bound]; lia).
  generalize dependent (b / 2 ^ 32). generalize dependent (b `mod` 2 ^ 32). intros bl ? bh ? ?.
  destruct (Z.eqb_spec (value a) 0), (Z.eqb_spec y bh), (Z.eqb_spec x bl),
    (Z.eqb_spec (x + 2 ^ 32 * (y + 2 ^ 32 * value a)) b); done || nia.
Qed.

(** ** The number of bits *)

Lemma high_bit_spec (n : nat) x : 0 < x < 2 ^ (n + 1) -> high_bit x n = Z.log2 x + 1.
Proof.
  induction n as [|n IH]; intros Hx; cbn [high_bit].
  { assert (x = 1) as -> by (simpl in Hx; lia). done. }
  rewrite land_bit_zero by lia.
  destruct (Z.testbit x (S n)) eqn:E; cbn [negb].
  - assert (Z.log2 x = S n) as ->; [|lia].
    apply Z.log2_unique; [lia|]. split.
    + apply Z.le_ngt. intros Hlt. by rewrite (testbit_in_uint (S n) x) in E by (unfold in_uint; lia).
    + replace (Z.succ (S n)) with (S n + 1) by lia. lia.
  - apply IH. split; [lia|]. replace (Z.of_nat n + 1) with (Z.of_nat (S n)) by lia.
    apply (in_uint_bits (S n)); [lia..|]. intros i Hi.
    destruct (decide (i = S n)) as [->|]; [done|]. apply (testbit_in_uint (S n + 1)); unfold in_uint; lia.
Qed.

Lemma bits_loop_spec W a (pos : nat) :
  wf W a -> (pos <= W)%nat ->
  bits_loop a pos = if value (take pos a) =? 0 then 0 else Z.log2 (value (take pos a)) + 1.
Proof.
  intros Ha. induction pos as [|p IH]; intros Hp; [done|]. cbn [bits_loop].
  rewrite (value_take_S W), IH by (done || lia).
  pose proof (wf_lookup W a p Ha ltac:(lia)) as Hx. unfold in_uint in Hx.
  pose proof (value_range (take p a) (Forall_take _ _ _ (proj2 Ha))) as Hr.
  rewrite length_take, Nat.min_l in Hr by (destruct Ha; lia).
  destruct (Z.eqb_spec (a !!! p) 0) as [->|Hne]; [by rewrite Z.mul_0_r, Z.add_0_r|].
  rewrite (proj2 (Z.eqb_neq _ 0)) by nia. rewrite high_bit_spec by (simpl; lia).
  assert (Z.log2 (value (take p a) + 2 ^ (32 * p) * (a !!! p)) = 32 * p + Z.log2 (a !!! p)) as ->; [|lia].
  apply Z.log2_unique; [pose proof (Z.log2_nonneg (a !!! p)); lia|].
  pose proof (Z.log2_spec (a !!! p) ltac:(lia)) as [Hlo Hhi].
  pose proof (Z.log2_nonneg (a !!! p)).
  replace (Z.succ (32 * p + Z.log2 (a !!! p))) with (32 * p + Z.succ (Z.log2 (a !!! p))) by lia.
  rewrite !Z.pow_add_r by lia. nia.
Qed.

Lemma bits_spec W a : wf W a -> bits a = if value a =? 0 then 0 else Z.log2 (value a) + 1.
Proof.
  intros Ha. unfold bits. rewrite (bits_loop_spec W) by (done || by destruct Ha; lia).
  by rewrite take_ge by lia.
Qed.

(** ** Division *)

(** Changing one limb changes the value by the difference at its weight. *)
Lemma value_alter W (f : Z -> Z) i q :
  wf W q -> (i < W)%nat -> value (alter f i q) = value q + 2 ^ (32 * i) * (f (q !!! i) - (q !!! i)).
Proof.
  intros [<- _]. revert i. induction q as [|x q IH]; intros i Hi; [simpl in Hi; lia|].
  destruct i as [|i].
  - change (2 ^ (32 * 0%nat)) with 1. change (alter f 0%nat (x :: q)) with (f x :: q).
    change ((x :: q) !!! 0%nat) with x. cbn [value]. lia.
  - change (alter f (S i) (x :: q)) with (x :: alter f i q).
    change ((x :: q) !!! S i) with (q !!! i). cbn [value].
    rewrite IH, pow32_S by (simpl in Hi; lia). lia.
Qed.

Lemma lor_new_bit x j :
  0 <= j -> Z.testbit x j = false -> x ||| (1 << j) = x + 2 ^ j.
Proof.
  intros Hj Hx. rewrite Z.shiftl_1_l.
  assert (Z.land x (2 ^ j) = 0) as Hl.
  { apply Z.bits_inj'. intros i Hi. rewrite Z.land_spec, Z.bits_0.
    destruct (decide (i = j)) as [->|]; [by rewrite Hx|].
    by rewrite Z.pow2_bits_false, andb_false_r by lia. }
  rewrite <- Z.lxor_lor, Z.add_nocarry_lxor by done. done.
Qed.

Lemma set_quotient_bit W q (s : nat) :
  wf W q -> (s < 32 * W)%nat -> Z.testbit (value q) s = false ->
  let q' := alter (λ x, u32 (x ||| (1 << (s `mod` 32)%nat))) (s / 32)%nat q in
  wf W q' /\ value q' = value q + 2 ^ s.
Proof.
  intros Hq Hs Hb q'. assert (s / 32 < W)%nat as Hi by lia_mod.
  pose proof (wf_lookup W q (s / 32)%nat Hq Hi) as Hx. split.
  - destruct Hq as [Hl Hf]. split; [unfold q'; by rewrite length_alter|].
    apply Forall_alter; [done|]. intros. by apply uint_range.
  - unfold q'. rewrite (value_alter W) by done. replace s with (32 * (s / 32) + s mod 32)%nat in Hb by lia_mod.
    rewrite Nat2Z.inj_add, Nat2Z.inj_mul in Hb. change (Z.of_nat 32) with 32 in Hb.
    rewrite (bit_at W) in Hb by (done || lia_mod).
    assert (2 ^ (s mod 32)%nat < 2 ^ 32) by (apply Z.pow_lt_mono_r; lia_mod).
    rewrite uint_small by (apply in_uint_lor; [lia|done|]; rewrite Z.shiftl_1_l; split; [lia|done]).
    rewrite lor_new_bit by (done || lia).
    replace (2 ^ s) with (2 ^ (32 * (s / 32)%nat) * 2 ^ (s mod 32)%nat); [lia|].
    rewrite <- Z.pow_add_r by lia. f_equal. lia_mod.
Qed.

Lemma div_loop_spec W (s : nat) num div q n d :
  wf W num -> wf W div -> wf W q -> (s < 32 * W)%nat -> 0 < d ->
  value div = d * 2 ^ s -> value num < d * 2 ^ (s + 1) ->
  (2 ^ (s + 1) | value q) -> n = value q * d + value num ->
  wf W (div_loop s num div q) /\ value (div_loop s num div q) = n / d.
Proof.
  intros Hnum Hdiv Hq Hs Hd. revert num div q Hnum Hdiv Hq Hs.
  induction s as [|s IH]; intros num div q Hnum Hdiv Hq Hs Ediv Hlt Hm En; cbn [div_loop];
    rewrite (CompareTo_ge W) by done.
  all: pose proof (value_range num (proj2 Hnum)) as Hrn; rewrite (proj1 Hnum) in Hrn.
  all: pose proof (value_range div (proj2 Hdiv)) as Hrd; rewrite (proj1 Hdiv) in Hrd.
  all: match type of Hlt with _ < _ * 2 ^ (Z.of_nat ?s + 1) =>
    assert (Z.testbit (value q) s = false) as Hb by
      (destruct Hm as [c ->]; rewrite Z.mul_pow2_bits_low by lia; done);
    replace (2 ^ (Z.of_nat s + 1)) with (2 * 2 ^ Z.of_nat s) in *
      by (rewrite <- Z.pow_succ_r by lia; f_equal; lia);
    destruct (set_quotient_bit W q s Hq ltac:(lia) Hb) as [Hq' Eq']
  end.
  all: pose proof (wf_sub W num div Hnum Hdiv) as Hsub.
  all: pose proof (value_sub W num div Hnum Hdiv) as Esub.
  - destruct (Z.leb_spec (value div) (value num)).
    + split; [done|]. rewrite Eq'. rewrite Z.mod_small in Esub by lia.
      apply (Z.div_unique _ _ _ (value (sub num div))); nia.
    + split; [done|]. apply (Z.div_unique _ _ _ (value num)); nia.
  - destruct (shr_spec W div 1 Hdiv ltac:(lia)) as [Hdiv' Ediv'].
    assert (value (shr div 1) = d * 2 ^ s) as Ediv2.
    { rewrite Ediv', Ediv. replace (2 ^ S s) with (2 ^ s * 2 ^ 1)
        by (rewrite <- Z.pow_add_r by lia; f_equal; lia).
      rewrite Z.mul_assoc. apply Z.div_mul. lia. }
    replace (2 ^ S s) with (2 ^ (s + 1)) in * by (f_equal; lia).
    destruct (Z.leb_spec (value div) (value num)).
    + rewrite Z.mod_small in Esub by lia. apply IH; try done; try lia.
      rewrite Eq'. apply Z.divide_add_r; [|apply Z.divide_refl].
      eapply Z.divide_trans; [|exact Hm]. apply Z.divide_factor_r.
    + apply IH; try done; try lia. eapply Z.divide_trans; [|exact Hm]. apply Z.divide_factor_r.
Qed.

Lemma bits_zero W b : wf W b -> bits b = 0 <-> value b = 0.
Proof.
  intros Hb. rewrite (bits_spec W) by done. destruct (Z.eqb_spec (value b) 0); [done|].
  pose proof (Z.log2_nonneg (value b)). lia.
Qed.

Lemma div_spec W a b :
  wf W a -> wf W b ->
  if value b =? 0 then div a b = Throw "Division by zero"
  else exists q, div a b = Ok q /\ wf W q /\ value q = value a / value b.
Proof.
  intros Ha Hb. unfold div. destruct (Z.eqb_spec (value b) 0) as [E|E].
  { by rewrite (proj2 (bits_zero W b Hb) E). }
  pose proof (value_range a (proj2 Ha)) as Hra. pose proof (value_range b (proj2 Hb)) as Hrb.
  rewrite (proj1 Ha), (proj1 Hb) in *.
  rewrite (bits_spec W a), (bits_spec W b) by done. rewrite (proj2 (Z.eqb_neq (value b) 0)) by done.
  pose proof (Z.log2_nonneg (value b)). rewrite (proj2 (Z.eqb_neq (_ + 1) 0)) by lia.
  pose proof (Z.log2_spec (value b) ltac:(lia)) as Hlb.
  destruct (Z.eqb_spec (value a) 0) as [Ea|Ea].
  { rewrite (proj2 (Z.ltb_lt _ _)) by lia. eexists; split; [done|]. split; [apply wf_zero|].
    by rewrite value_zero, Ea, Z.div_0_l. }
  pose proof (Z.log2_spec (value a) ltac:(lia)) as Hla. pose proof (Z.log2_nonneg (value a)).
  destruct (Z.ltb_spec (Z.log2 (value a) + 1) (Z.log2 (value b) + 1)) as [Hlt|Hge].
  { eexists; split; [done|]. split; [apply wf_zero|]. rewrite value_zero, Z.div_small; [done|].
    assert (2 ^ Z.succ (Z.log2 (value a)) <= 2 ^ Z.log2 (value b)) by (apply Z.pow_le_mono_r; lia). lia. }
  eexists; split; [done|].
  set (s := Z.log2 (value a) + 1 - (Z.log2 (value b) + 1)).
  assert (Z.log2 (value a) < 32 * W) as HW by (apply Z.log2_lt_pow2; lia).
  assert (2 ^ Z.succ (Z.log2 (value a)) <= 2 ^ (32 * W)) by (apply Z.pow_le_mono_r; lia).
  assert (2 ^ Z.succ (Z.log2 (value a)) = 2 ^ Z.succ (Z.log2 (value b)) * 2 ^ s) as Epow
    by (rewrite <- Z.pow_add_r by lia; f_equal; lia).
  assert (2 ^ Z.log2 (value a) = 2 ^ Z.log2 (value b) * 2 ^ s) as Epow'
    by (rewrite <- Z.pow_add_r by lia; f_equal; lia).
  pose proof (Z.pow_pos_nonneg 2 s ltac:(lia) ltac:(lia)).
  destruct (shl_spec W b s Hb ltac:(lia)) as [Hw Hv]. rewrite Z.mod_small in Hv by nia.
  apply div_loop_spec; try done; rewrite ?Z2Nat.id by lia; try lia.
  - apply wf_zero.
  - rewrite Z.add_1_r, Z.pow_succ_r by lia. rewrite Z.pow_succ_r in * by lia. nia.
  - rewrite value_zero. apply Z.divide_0_r.
  - by rewrite value_zero.
Qed.

(** ** The compact format *)

Lemma GetLow64_spec W a : (2 <= W)%nat -> wf W a -> GetLow64 a = value a `mod` 2 ^ 64.
Proof.
  intros HW [Hl Ha]. destruct a as [|x [|y a]]; [simpl in Hl; lia..|].
  inversion Ha as [|?? Hx Ha1]; subst. inversion Ha1 as [|?? Hy Ha2]; subst.
  unfold GetLow64. change ((x :: y :: a) !!! 0%nat) with x. change ((x :: y :: a) !!! 1%nat) with y.
  cbn [value]. unfold in_uint in *. rewrite Z.shiftl_mul_pow2, u64_small by lia.
  rewrite <- Z.shiftl_mul_pow2, Z.lor_comm, lor_shiftl_add by lia.
  symmetry. replace (x + 2 ^ 32 * (y + 2 ^ 32 * value a)) with (y * 2 ^ 32 + x + value a * 2 ^ 64) by lia.
  rewrite Z.mod_add by lia. apply Z.mod_small. lia.
Qed.

Lemma pow256 k : 0 <= k -> 256 ^ k = 2 ^ (8 * k).
Proof. intros. change 256 with (2 ^ 8). by rewrite <- Z.pow_mul_r by lia. Qed.

(** The number the compact form stands for, before truncation to 256 bits. *)
Definition compact_value (nSize nWord : Z) : Z :=
  if nSize <=? 3 then nWord / 256 ^ (3 - nSize) else nWord * 256 ^ (nSize - 3).

Lemma compact_value_nonneg nSize nWord : 0 <= nWord -> 0 <= compact_value nSize nWord.
Proof.
  intros Hw. unfold compact_value. destruct (Z.leb_spec nSize 3).
  - apply Z.div_pos; [done|]. apply Z.pow_pos_nonneg; lia.
  - apply Z.mul_nonneg_nonneg; [done|]. apply Z.pow_nonneg. lia.
Qed.

Lemma land_mantissa c : c &&& 0x007fffff = c `mod` 2 ^ 23.
Proof. exact (Z.land_ones c 23 ltac:(lia)). Qed.

Lemma land_sign c : ((c &&& 0x00800000) =? 0) = negb (Z.testbit c 23).
Proof. apply (land_bit_zero c 23). lia. Qed.

Lemma SetCompact_parts nCompact :
  in_uint 32 nCompact ->
  let nSize := nCompact / 2 ^ 24 in
  let nWord := nCompact `mod` 2 ^ 23 in
  let '(n, fNegative, fOverflow) := SetCompact nCompact in
  wf 8 n /\ value n = compact_value nSize nWord `mod` 2 ^ 256 /\
  fOverflow = (2 ^ 256 <=? compact_value nSize nWord) /\
  fNegative = Z.testbit nCompact 23 && negb (compact_value nSize nWord =? 0).
Proof.
  unfold in_uint. intros Hc. cbv zeta. unfold SetCompact.
  rewrite Z.shiftr_div_pow2, land_mantissa, land_sign, negb_involutive by lia.
  set (sz := nCompact / 2 ^ 24). set (w := nCompact `mod` 2 ^ 23).
  assert (0 <= sz < 256 /\ 0 <= w < 2 ^ 23) as [Hsz Hw] by (unfold sz, w; lia_mod).
  clearbody sz w. unfold compact_value. destruct (Z.leb_spec sz 3) as [H3|H3].
  - rewrite Z.shiftr_div_pow2, pow256 by lia.
    set (v := w / 2 ^ (8 * (3 - sz))).
    assert (0 <= v < 2 ^ 23) as Hv.
    { unfold v. pose proof (Z.pow_pos_nonneg 2 (8 * (3 - sz)) ltac:(lia) ltac:(lia)).
      split; [apply Z.div_pos; lia|]. apply Z.div_lt_upper_bound; nia. }
    clearbody v. rewrite value_of_uint64 by (unfold in_uint; lia).
    split; [apply wf_of_uint64; lia|]. split; [by rewrite Z.mod_small by lia|].
    rewrite (proj2 (Z.leb_gt (2 ^ 256) v)), (proj2 (Z.ltb_ge 34 sz)), (proj2 (Z.ltb_ge 33 sz)),
      (proj2 (Z.ltb_ge 32 sz)), !andb_false_r by lia. split; [done|].
    by rewrite andb_comm.
  - rewrite pow256 by lia.
    destruct (shl_spec 8 (of_uint64 8 w) (8 * (sz - 3))) as [Hwf Hv]; [apply wf_of_uint64; lia|lia|].
    rewrite value_of_uint64 in Hv by (unfold in_uint; lia).
    pose proof (Z.pow_pos_nonneg 2 (8 * (sz - 3)) ltac:(lia) ltac:(lia)).
    split; [done|]. split; [exact Hv|]. split; [|rewrite andb_comm; do 2 f_equal;
      destruct (Z.eqb_spec w 0), (Z.eqb_spec (w * 2 ^ (8 * (sz - 3))) 0); done || nia].
    clear Hwf Hv. destruct (Z.eqb_spec w 0) as [->|Hw0]; [done|]. cbn [negb andb].
    assert (2 ^ (8 * (sz - 3)) * 2 ^ (8 * (35 - sz)) = 2 ^ 256 \/ 35 < sz) as Hp.
    { destruct (decide (35 < sz)); [auto|left]. rewrite <- Z.pow_add_r by lia. f_equal. lia. }
    destruct (Z.ltb_spec 34 sz) as [H34|H34]; cbn [orb].
    + assert (2 ^ 256 <= 2 ^ (8 * (sz - 3))) by (apply Z.pow_le_mono_r; lia).
      symmetry. apply Z.leb_le. nia.
    + destruct Hp as [Hp|]; [|lia]. assert (0 < 2 ^ 256) as HM by lia.
      revert Hp HM. generalize (2 ^ 256) as M. intros M Hp HM.
      assert (sz = 34 /\ 2 ^ (8 * (35 - sz)) = 256 \/ sz = 33 /\ 2 ^ (8 * (35 - sz)) = 65536 \/
        sz <= 32 /\ 2 ^ 24 <= 2 ^ (8 * (35 - sz))) as Hcases.
      { assert (sz = 34 \/ sz = 33 \/ sz <= 32) as [->|[->|]] by lia; [by left|by right; left|].
        right; right. split; [done|]. apply Z.pow_le_mono_r; lia. }
      set (P := 2 ^ (8 * (sz - 3))) in *. set (Q := 2 ^ (8 * (35 - sz))) in *. clearbody P Q.
      destruct Hcases as [[-> ->]|[[-> ->]|[Hle HQ']]].
      * change (33 <? 34) with true. change (32 <? 34) with true. rewrite !andb_true_r.
        destruct (Z.ltb_spec 0xff w), (Z.ltb_spec 0xffff w), (Z.leb_spec M (w * P)); done || nia.
      * change (33 <? 33) with false. change (32 <? 33) with true.
        rewrite andb_false_r, andb_true_r, orb_false_l.
        destruct (Z.ltb_spec 0xffff w), (Z.leb_spec M (w * P)); done || nia.
      * rewrite (proj2 (Z.ltb_ge 33 sz)), (proj2 (Z.ltb_ge 32 sz)), !andb_false_r by lia.
        symmetry. cbn [orb]. apply Z.leb_gt. nia.
Qed.

(** The number of bytes of a value. *)
Definition byte_length (v : Z) : Z := ((if v =? 0 then 0 else Z.log2 v + 1) + 7) / 8.

Lemma byte_length_spec v :
  0 < v -> 0 < byte_length v /\ 256 ^ (byte_length v - 1) <= v < 256 ^ byte_length v.
Proof.
  intros Hv. unfold byte_length. rewrite (proj2 (Z.eqb_neq v 0)) by lia.
  pose proof (Z.log2_nonneg v). pose proof (Z.log2_spec v Hv) as [Hlo Hhi].
  set (l := Z.log2 v) in *. assert (0 < (l + 1 + 7) / 8) by lia_mod.
  split; [done|]. rewrite !pow256 by lia. split.
  - etransitivity; [|exact Hlo]. apply Z.pow_le_mono_r; lia_mod.
  - eapply Z.lt_le_trans; [exact Hhi|]. apply Z.pow_le_mono_r; lia_mod.
Qed.

(** The three leading bytes of a value, as an integer below [2^24]. *)
Definition leading (v : Z) : Z :=
  if byte_length v <=? 3 then v * 256 ^ (3 - byte_length v) else v / 256 ^ (byte_length v - 3).

Lemma byte_length_0 : byte_length 0 = 0.
Proof. done. Qed.

Lemma leading_range v : 0 <= v -> 0 <= leading v < 2 ^ 24 /\ (0 < v -> 2 ^ 16 <= leading v).
Proof.
  intros Hv. destruct (decide (v = 0)) as [->|Hne]; [by vm_compute|].
  destruct (byte_length_spec v ltac:(lia)) as (Hb & Hlo & Hhi). unfold leading.
  destruct (Z.leb_spec (byte_length v) 3).
  - assert (256 ^ byte_length v * 256 ^ (3 - byte_length v) = 2 ^ 24)
      by (rewrite <- Z.pow_add_r by lia; by replace (byte_length v + (3 - byte_length v)) with 3 by lia).
    assert (256 ^ (byte_length v - 1) * 256 ^ (3 - byte_length v) = 2 ^ 16)
      by (rewrite <- Z.pow_add_r by lia; by replace (byte_length v - 1 + (3 - byte_length v)) with 2 by lia).
    pose proof (Z.pow_pos_nonneg 256 (3 - byte_length v)). nia.
  - set (m := byte_length v - 3) in *. pose proof (Z.pow_pos_nonneg 256 m ltac:(lia) ltac:(lia)).
    assert (256 ^ byte_length v = 256 ^ m * 2 ^ 24)
      by (change (2 ^ 24) with (256 ^ 3); rewrite <- Z.pow_add_r by lia; f_equal; lia).
    assert (256 ^ (byte_length v - 1) = 256 ^ m * 2 ^ 16)
      by (change (2 ^ 16) with (256 ^ 2); rewrite <- Z.pow_add_r by lia; f_equal; lia).
    split; [split; [apply Z.div_pos; lia|apply Z.div_lt_upper_bound; lia]|].
    intros _. apply Z.div_le_lower_bound; lia.
Qed.

Lemma byte_length_max (W : nat) v : 0 <= v < 2 ^ (32 * W) -> 0 <= byte_length v <= 4 * W.
Proof.
  intros Hv. destruct (decide (v = 0)) as [->|]; [rewrite byte_length_0; lia|].
  unfold byte_length. rewrite (proj2 (Z.eqb_neq v 0)) by done.
  assert (Z.log2 v < 32 * W) by (apply Z.log2_lt_pow2; lia).
  pose proof (Z.log2_nonneg v). lia_mod.
Qed.

(** Mantissa and exponent [GetCompact] picks. *)
Definition compact_parts (v : Z) : Z * Z :=
  if leading v <? 2 ^ 23 then (byte_length v, leading v) else (byte_length v + 1, leading v / 256).

Lemma GetCompact_parts pn fNegative :
  wf 8 pn ->
  let '(nSize, nWord) := compact_parts (value pn) in
  GetCompact pn fNegative =
    Some (nSize * 2 ^ 24 + (if fNegative && negb (nWord =? 0) then 2 ^ 23 else 0) + nWord) /\
  0 <= nSize <= 33 /\ 0 <= nWord < 2 ^ 23.
Proof.
  intros Hpn. unfold GetCompact. pose proof (value_range pn (proj2 Hpn)) as Hr.
  rewrite (proj1 Hpn) in Hr. set (v := value pn) in *.
  replace ((bits pn + 7) / 8) with (byte_length v) by (by rewrite (bits_spec 8)).
  pose proof (byte_length_max 8 v Hr) as Hbl. pose proof (leading_range v ltac:(lia)) as [Hld _].
  assert ((if byte_length v <=? 3 then u32 (u64 (GetLow64 pn << (8 * (3 - byte_length v))))
           else u32 (GetLow64 (shr pn (8 * (byte_length v - 3))))) = leading v) as ->.
  { unfold leading in *. destruct (Z.leb_spec (byte_length v) 3) as [H3|H3].
    - rewrite (GetLow64_spec 8) by (done || lia). fold v.
      assert (v < 2 ^ 24) as Hv24.
      { destruct (decide (v = 0)) as [->|]; [lia|].
        destruct (byte_length_spec v ltac:(lia)) as (_ & _ & Hhi). eapply Z.lt_le_trans; [exact Hhi|].
        change (2 ^ 24) with (256 ^ 3). apply Z.pow_le_mono_r; lia. }
      rewrite (Z.mod_small v) by lia. rewrite Z.shiftl_mul_pow2, <- pow256 by lia.
      by rewrite u64_small, u32_small by lia.
    - destruct (shr_spec 8 pn (8 * (byte_length v - 3)) Hpn ltac:(lia)) as [Hw Hv].
      rewrite (GetLow64_spec 8), Hv by (done || lia). rewrite <- pow256 by lia. fold v.
      by rewrite Z.mod_small, u32_small by lia. }
  unfold compact_parts. rewrite land_sign.
  assert (Z.testbit (leading v) 23 = negb (leading v <? 2 ^ 23)) as ->.
  { destruct (Z.ltb_spec (leading v) (2 ^ 23)); cbn [negb].
    - apply (testbit_in_uint 23); unfold in_uint; lia.
    - apply Z.testbit_true; [lia|]. replace (leading v / 2 ^ 23) with 1 by lia_mod. done. }
  rewrite negb_involutive.
  assert (exists nSize nWord, (if leading v <? 2 ^ 23 then (leading v, byte_length v)
      else (leading v >> 8, byte_length v + 1)) = (nWord, nSize) /\
    (if leading v <? 2 ^ 23 then (byte_length v, leading v)
      else (byte_length v + 1, leading v / 256)) = (nSize, nWord) /\
    0 <= nSize <= 33 /\ 0 <= nWord < 2 ^ 23) as (sz & w & -> & -> & Hsz & Hw).
  { destruct (Z.ltb_spec (leading v) (2 ^ 23)); do 2 eexists; (split; [done|]);
      rewrite ?Z.shiftr_div_pow2 by lia; (split; [done|]); lia_mod. }
  assert (w &&& u32 (Z.lnot 8388607) = 0) as Hmask.
  { change (u32 (Z.lnot 8388607)) with (511 << 23). apply Z.bits_inj'. intros i Hi.
    rewrite Z.land_spec, Z.shiftl_spec, Z.bits_0 by lia. destruct (decide (i < 23)).
    - by rewrite (Z.testbit_neg_r _ (i - 23)), andb_false_r by lia.
    - by rewrite (testbit_in_uint 23 w) by (unfold in_uint; lia). }
  rewrite Hmask, (proj2 (Z.leb_gt 256 sz)) by lia. cbn [negb Z.eqb].
  rewrite (Z.lor_comm w), lor_shiftl_add, u32_small by lia.
  rewrite land_mantissa. replace ((sz * 2 ^ 24 + w) `mod` 2 ^ 23) with w by lia_mod.
  split; [|done]. f_equal. destruct (fNegative && _); [|rewrite Z.lor_0_r; lia].
  change 8388608 with (1 << 23). rewrite lor_new_bit; [lia..|].
  replace (sz * 2 ^ 24 + w) with (w + (2 * sz) * 2 ^ 23) by lia.
  apply Z.testbit_false; [lia|]. rewrite Z.div_add, Z.div_small by lia.
  rewrite Z.add_0_l, Z.mul_comm. apply Z.mod_mul. lia.
Qed.

Lemma byte_length_unique b v : 0 < b -> 256 ^ (b - 1) <= v < 256 ^ b -> byte_length v = b.
Proof.
  intros Hb [Hlo Hhi]. rewrite pow256 in Hlo, Hhi by lia.
  pose proof (Z.pow_pos_nonneg 2 (8 * (b - 1)) ltac:(lia) ltac:(lia)).
  assert (8 * (b - 1) <= Z.log2 v) by (apply Z.log2_le_pow2; lia).
  assert (Z.log2 v < 8 * b) by (apply Z.log2_lt_pow2; lia).
  unfold byte_length. rewrite (proj2 (Z.eqb_neq v 0)) by lia. lia_mod.
Qed.

(** Dropping the last [e] bytes. *)
Definition truncate (v e : Z) : Z := v - v `mod` 256 ^ e.

Lemma truncate_div v e : 0 <= e -> truncate v e = v / 256 ^ e * 256 ^ e.
Proof.
  intros He. unfold truncate. pose proof (Z.pow_pos_nonneg 256 e ltac:(lia) He).
  rewrite (Z.div_mod v (256 ^ e)) at 1 by lia. lia.
Qed.

Lemma truncate_0 v : truncate v 0 = v.
Proof. unfold truncate. change (256 ^ 0) with 1. rewrite Z.mod_1_r. lia. Qed.

Lemma compact_parts_value v :
  0 <= v -> let '(nSize, nWord) := compact_parts v in
  compact_value nSize nWord = truncate v (Z.max 0 (nSize - 3)).
Proof.
  intros Hv. unfold compact_parts, compact_value, leading.
  assert (0 <= byte_length v) as Hbl.
  { destruct (decide (v = 0)) as [->|]; [done|]. pose proof (byte_length_spec v). lia. }
  set (b := byte_length v) in *. clearbody b.
  destruct (Z.leb_spec b 3) as [H3|H3].
  - pose proof (Z.pow_pos_nonneg 256 (3 - b) ltac:(lia) ltac:(lia)).
    destruct (_ <? 2 ^ 23).
    + rewrite (proj2 (Z.leb_le b 3)), Z.max_l, truncate_0, Z.div_mul by lia. done.
    + destruct (decide (b = 3)) as [->|].
      * change (256 ^ (3 - 3)) with 1. rewrite Z.mul_1_r. change (3 + 1 <=? 3) with false.
        change (3 + 1 - 3) with 1. by rewrite truncate_div by lia.
      * rewrite (proj2 (Z.leb_le (b + 1) 3)), Z.max_l, truncate_0 by lia.
        replace (256 ^ (3 - b)) with (256 ^ (3 - (b + 1)) * 256)
          by (replace 256 with (256 ^ 1) at 2 by done; rewrite <- Z.pow_add_r by lia; f_equal; lia).
        rewrite Z.mul_assoc, Z.div_mul by lia. apply Z.div_mul.
        pose proof (Z.pow_pos_nonneg 256 (3 - (b + 1))). lia.
  - destruct (_ <? 2 ^ 23).
    + rewrite (proj2 (Z.leb_gt b 3)), Z.max_r, truncate_div by lia. done.
    + rewrite (proj2 (Z.leb_gt (b + 1) 3)), Z.max_r, truncate_div by lia.
      rewrite Z.div_div by (try apply Z.pow_nonzero; lia). do 2 f_equal.
      replace 256 with (256 ^ 1) at 2 by done. rewrite <- Z.pow_add_r by lia. f_equal. lia.
Qed.

(** The truncated value has the same compact form. *)
Lemma compact_parts_truncate v :
  0 <= v -> let '(nSize, nWord) := compact_parts v in
  compact_parts (truncate v (Z.max 0 (nSize - 3))) = (nSize, nWord).
Proof.
  intros Hv. destruct (decide (v = 0)) as [->|Hv0]; [by vm_compute|].
  destruct (byte_length_spec v ltac:(lia)) as (Hb & Hlo & Hhi).
  destruct (leading_range v Hv) as [_ Hl16]. specialize (Hl16 ltac:(lia)).
  unfold compact_parts at 1.
  assert (forall e m, 0 <= e -> truncate v e = m * 256 ^ e -> 256 ^ (byte_length v - 1) <= m * 256 ^ e ->
    byte_length (truncate v e) = byte_length v) as Hlen.
  { intros e m He Ht Hm. apply byte_length_unique; [done|]. rewrite Ht. split; [done|].
    rewrite <- Ht. unfold truncate. pose proof (Z.mod_pos_bound v (256 ^ e)).
    pose proof (Z.pow_pos_nonneg 256 e). lia. }
  destruct (Z.ltb_spec (leading v) (2 ^ 23)) as [Hlt|Hge].
  - destruct (decide (byte_length v <= 3)) as [H3|H3].
    + rewrite Z.max_l, truncate_0 by lia. unfold compact_parts. by rewrite (proj2 (Z.ltb_lt _ _)).
    + rewrite Z.max_r by lia. unfold leading in Hlt, Hl16. rewrite (proj2 (Z.leb_gt _ 3)) in Hlt, Hl16 by lia.
      set (e := byte_length v - 3) in *. pose proof (Z.pow_pos_nonneg 256 e ltac:(lia) ltac:(lia)).
      pose proof (truncate_div v e ltac:(lia)) as Ht.
      assert (byte_length (truncate v e) = byte_length v) as E.
      { apply (Hlen e (v / 256 ^ e)); [lia|done|].
        replace (byte_length v - 1) with (e + 2) by lia. rewrite Z.pow_add_r by lia. nia. }
      unfold compact_parts, leading. rewrite E, (proj2 (Z.leb_gt _ 3)) by lia. fold e.
      rewrite Ht, Z.div_mul, (proj2 (Z.ltb_lt _ _)) by lia. done.
  - unfold leading in Hge. destruct (Z.leb_spec (byte_length v) 3) as [H3|H3].
    + destruct (decide (byte_length v = 3)) as [E3|].
      * rewrite E3 in *. change (256 ^ (3 - 3)) with 1 in Hge. change (Z.max 0 (3 + 1 - 3)) with 1.
        pose proof (truncate_div v 1 ltac:(lia)) as Ht. change (256 ^ 1) with 256 in Ht.
        assert (byte_length (truncate v 1) = 3) as E.
        { apply (Hlen 1 (v / 256)); [lia|done|]. change (256 ^ (3 - 1)) with 65536.
          change (256 ^ 1) with 256. lia_mod. }
        unfold compact_parts, leading. rewrite E, E3. cbn [Z.leb Z.compare Pos.compare Pos.compare_cont].
        change (256 ^ (3 - 3)) with 1. rewrite !Z.mul_1_r, Ht.
        rewrite (proj2 (Z.ltb_ge _ _)), Z.div_mul by lia_mod. done.
      * rewrite Z.max_l, truncate_0 by lia. unfold compact_parts, leading.
        rewrite (proj2 (Z.leb_le _ 3)), (proj2 (Z.ltb_ge _ _)) by lia. done.
    + rewrite Z.max_r by lia. set (e := byte_length v - 3) in *.
      replace (byte_length v + 1 - 3) with (e + 1) by lia.
      pose proof (Z.pow_pos_nonneg 256 e ltac:(lia) ltac:(lia)).
      pose proof (truncate_div v (e + 1) ltac:(lia)) as Ht.
      assert (256 ^ (e + 1) = 256 * 256 ^ e) as Ep by (rewrite Z.pow_add_r by lia; change (256 ^ 1) with 256; lia).
      assert (v / 256 ^ (e + 1) = v / 256 ^ e / 256) as Ed
        by (rewrite Z.div_div by lia; f_equal; lia).
      assert (byte_length (truncate v (e + 1)) = byte_length v) as E.
      { apply (Hlen (e + 1) (v / 256 ^ (e + 1))); [lia|done|].
        replace (byte_length v - 1) with (e + 2) by lia. rewrite (Z.pow_add_r 256 e 2), Ed, Ep by lia.
        change (256 ^ 2) with 65536. assert (2 ^ 15 <= v / 256 ^ e / 256) by lia_mod. nia. }
      unfold compact_parts, leading. rewrite E, (proj2 (Z.leb_gt _ 3)) by lia. fold e.
      assert (truncate v (e + 1) / 256 ^ e = v / 256 ^ e / 256 * 256) as ->.
      { rewrite Ht, Ed, Ep, Z.mul_assoc. apply Z.div_mul. lia. }
      rewrite (proj2 (Z.ltb_ge _ _)), Z.div_mul by lia_mod. done.
Qed.

(** ** Properties *)

(** On integers of any number of limbs the operators [+ - * ++ -- ~ << >>] and unary
    minus are those of the integers modulo [2^BITS] (shifting right rounds down), and keep
    every limb within 32 bits. *)
Theorem arith_modular (W : nat) (a b : base_uint) (b32 shift : Z) :
  wf W a -> wf W b -> in_uint 32 b32 -> 0 <= shift ->
  let M := 2 ^ (32 * W) in
  (wf W (add a b) /\ value (add a b) = (value a + value b) `mod` M) /\
  (wf W (sub a b) /\ value (sub a b) = (value a - value b) `mod` M) /\
  (wf W (neg a) /\ value (neg a) = (- value a) `mod` M) /\
  (wf W (inc a) /\ value (inc a) = (value a + 1) `mod` M) /\
  (wf W (dec a) /\ value (dec a) = (value a - 1) `mod` M) /\
  (wf W (bitnot a) /\ value (bitnot a) = M - 1 - value a) /\
  (wf W (mul a b) /\ value (mul a b) = (value a * value b) `mod` M) /\
  (wf W (mul32 a b32) /\ value (mul32 a b32) = (value a * b32) `mod` M) /\
  (wf W (shl a shift) /\ value (shl a shift) = (value a * 2 ^ shift) `mod` M) /\
  (wf W (shr a shift) /\ value (shr a shift) = value a / 2 ^ shift).
Proof.
  intros Ha Hb H32 Hs M. unfold M.
  repeat match goal with
    | |- wf _ _ /\ _ => solve [apply mul_spec; done|apply shl_spec; done|apply shr_spec; done|
        split; eauto using wf_add, wf_sub, wf_neg, wf_inc, wf_dec, wf_bitnot, wf_mul32, value_add,
          value_sub, value_neg, value_inc, value_dec, value_bitnot, value_mul32]
    | |- _ /\ _ => split
    end.
Qed.

Lemma arith_modular_witness :
  let a := [0xffffffff; 1; 0; 0] in
  let b := [2; 0; 0; 0x80000000] in
  value (mul a b) = (value a * value b) `mod` 2 ^ (32 * 4%nat) /\ value (mul a b) <> value a * value b.
Proof.
  split; [|vm_compute; discriminate].
  apply (arith_modular 4 [0xffffffff; 1; 0; 0] [2; 0; 0; 0x80000000] 0 0);
    [split; [done|repeat constructor; simpl; lia]..|by split|done].
Defined.

(** [operator/=], shift-and-subtract long division, returns the quotient of the values
    rounded down, and throws exactly when the divisor is zero. *)
Theorem arith_division (W : nat) (a b : base_uint) :
  wf W a -> wf W b ->
  if value b =? 0 then div a b = Throw "Division by zero"
  else exists q, div a b = Ok q /\ wf W q /\ value q = value a / value b.
Proof. apply div_spec. Qed.

Lemma arith_division_witness :
  exists q, div [0; 0; 0; 1] [10; 0; 0; 0] = Ok q /\ wf 4 q /\ value q = 2 ^ 96 / 10.
Proof.
  apply (arith_division 4 [0; 0; 0; 1] [10; 0; 0; 0]); split; [done| |done|];
    repeat constructor; simpl; lia.
Defined.

(** [CompareTo] is the sign of the difference of the values, [EqualTo] compares with a
    64-bit integer, [operator!] tests for zero and [bits] is the position of the highest bit
    set plus one. *)
Theorem arith_compare (W : nat) (a b : base_uint) (n : Z) :
  (2 <= W)%nat -> wf W a -> wf W b -> in_uint 64 n ->
  CompareTo a b = Z.sgn (value a - value b) /\
  EqualTo a n = (value a =? n) /\
  is_zero a = (value a =? 0) /\
  bits a = (if value a =? 0 then 0 else Z.log2 (value a) + 1).
Proof.
  intros HW Ha Hb Hn. repeat apply conj.
  - rewrite (CompareTo_spec W) by done.
    destruct (Z.ltb_spec (value a) (value b)); [by rewrite Z.sgn_neg by lia|].
    destruct (Z.ltb_spec (value b) (value a)); [by rewrite Z.sgn_pos by lia|].
    by replace (value a - value b) with 0 by lia.
  - by apply (EqualTo_spec W).
  - apply limbs_zero, Ha.
  - by apply (bits_spec W).
Qed.

Lemma arith_compare_witness :
  CompareTo [5; 7; 0] [6; 7; 0] = -1 /\ bits [5; 7; 0] = 35.
Proof.
  destruct (arith_compare 3 [5; 7; 0] [6; 7; 0] 0) as (H1 & _ & _ & H4);
    [lia|split; [done|repeat constructor; simpl; lia]..|by split|].
  split; [exact H1|exact H4].
Defined.

(** [SetCompact] yields [mantissa * 256^(exponent - 3)] (rounded down for small
    exponents) modulo [2^256]; it reports overflow exactly when that number does not fit in
    256 bits, and negative exactly when the sign bit is set and the number is not zero. *)
Theorem SetCompact_spec (nCompact : Z) :
  in_uint 32 nCompact ->
  let N := compact_value (nCompact / 2 ^ 24) (nCompact `mod` 2 ^ 23) in
  let '(n, fNegative, fOverflow) := SetCompact nCompact in
  wf 8 n /\ value n = N `mod` 2 ^ 256 /\ fOverflow = (2 ^ 256 <=? N) /\
  fNegative = Z.testbit nCompact 23 && negb (N =? 0).
Proof. apply SetCompact_parts. Qed.

Lemma SetCompact_spec_witness :
  let '(n, fNegative, fOverflow) := SetCompact 0x1b0404cb in
  value n = 0x0404cb * 256 ^ 24 /\ fNegative = false /\ fOverflow = false.
Proof.
  pose proof (SetCompact_spec 0x1b0404cb ltac:(unfold in_uint; lia)) as H.
  destruct (SetCompact 0x1b0404cb) as [[n neg] ovf].
  destruct H as (_ & H1 & H2 & H3). split; [exact H1|]. split; [exact H3|exact H2].
Defined.

(** [GetCompact] never fails its assertions; the compact form it gives for a 256-bit
    value decodes, without sign or overflow, to the value with the bytes below its three
    byte mantissa cleared, and that value has the same compact form again. *)
Theorem compact_canonical (pn : base_uint) :
  wf 8 pn ->
  exists c, GetCompact pn false = Some c /\ in_uint 32 c /\
    let '(n, fNegative, fOverflow) := SetCompact c in
    value n = truncate (value pn) (Z.max 0 (c / 2 ^ 24 - 3)) /\
    fNegative = false /\ fOverflow = false /\ GetCompact n false = Some c.
Proof.
  intros Hpn. pose proof (value_range pn (proj2 Hpn)) as Hr. rewrite (proj1 Hpn) in Hr.
  pose proof (GetCompact_parts pn false Hpn) as HG.
  pose proof (compact_parts_value (value pn) ltac:(lia)) as HV.
  pose proof (compact_parts_truncate (value pn) ltac:(lia)) as HT.
  destruct (compact_parts (value pn)) as [sz w]. destruct HG as (HG & Hsz & Hw).
  cbn [andb] in HG. rewrite Z.add_0_r in HG. exists (sz * 2 ^ 24 + w).
  assert (in_uint 32 (sz * 2 ^ 24 + w)) as Hc by (unfold in_uint; lia).
  split; [done|]. split; [done|]. pose proof (SetCompact_parts _ Hc) as HS. cbv zeta in HS.
  replace ((sz * 2 ^ 24 + w) / 2 ^ 24) with sz in * by lia_mod.
  replace ((sz * 2 ^ 24 + w) `mod` 2 ^ 23) with w in HS by lia_mod.
  assert (Z.testbit (sz * 2 ^ 24 + w) 23 = false) as Hbit.
  { apply Z.testbit_false; [lia|]. replace ((sz * 2 ^ 24 + w) / 2 ^ 23) with (sz * 2) by lia_mod.
    apply Z.mod_mul. lia. }
  destruct (SetCompact (sz * 2 ^ 24 + w)) as [[n neg] ovf]. destruct HS as (Hn & Hval & Hovf & Hneg).
  rewrite HV in *. set (t := truncate (value pn) (Z.max 0 (sz - 3))) in *.
  assert (0 <= t < 2 ^ 256) as Ht.
  { unfold t. split.
    - rewrite truncate_div by lia. pose proof (Z.pow_pos_nonneg 256 (Z.max 0 (sz - 3))).
      pose proof (Z.div_pos (value pn) (256 ^ Z.max 0 (sz - 3))). nia.
    - unfold truncate. pose proof (Z.mod_pos_bound (value pn) (256 ^ Z.max 0 (sz - 3))).
      pose proof (Z.pow_pos_nonneg 256 (Z.max 0 (sz - 3))). change (32 * 8%nat) with 256 in Hr. lia. }
  rewrite Z.mod_small in Hval by done. split; [done|].
  split; [by rewrite Hneg, Hbit|]. split; [rewrite Hovf; apply Z.leb_gt, Ht|].
  pose proof (GetCompact_parts n false Hn) as HG'. rewrite Hval, HT in HG'.
  destruct HG' as [-> _]. cbn [andb]. by rewrite Z.add_0_r.
Qed.

Lemma compact_canonical_witness :
  exists c, GetCompact (of_uint64 8 0x123456789a) false = Some c /\ in_uint 32 c /\
    let '(n, fNegative, fOverflow) := SetCompact c in
    value n = truncate (value (of_uint64 8 0x123456789a)) (Z.max 0 (c / 2 ^ 24 - 3)) /\
    fNegative = false /\ fOverflow = false /\ GetCompact n false = Some c.
Proof. apply (compact_canonical (of_uint64 8 0x123456789a)). apply wf_of_uint64. lia. Defined.
