(* ===== verification/Uint256.v ===== *)
(** * Opaque blobs: uint256.h, uint256.cpp, and their conversions to arith_uint256

    [base_blob<BITS>] is an array of [BITS/8] bytes, least significant first; its hexadecimal
    form prints the most significant byte first.  Strings are lists of character codes, ended
    by an implicit zero. *)

From S2P Require Import Prelude Bytes ArithUint256 ArithLaws.
Import BaseUint.

(** ** Characters: utilstrencodings.cpp *)

Definition p_util_hexdigit : list Z :=
  replicate 48 (-1) ++ [0; 1; 2; 3; 4; 5; 6; 7; 8; 9] ++ replicate 7 (-1) ++
  [0xa; 0xb; 0xc; 0xd; 0xe; 0xf] ++ replicate 26 (-1) ++ [0xa; 0xb; 0xc; 0xd; 0xe; 0xf] ++
  replicate 153 (-1).
Definition HexDigit (c : Z) : Z := p_util_hexdigit !!! Z.to_nat (u8 c).

Definition hexmap : list Z := [48; 49; 50; 51; 52; 53; 54; 55; 56; 57; 97; 98; 99; 100; 101; 102].
Definition HexStr (it : list Z) : list Z :=
  concat ((λ val, [hexmap !!! Z.to_nat (val >> 4); hexmap !!! Z.to_nat (val &&& 15)]) <$> it).

(** [isspace] and [tolower] of the C locale. *)
Definition isspace (c : Z) : bool := (c =? 32) || ((9 <=? c) && (c <=? 13)).
Definition tolower (c : Z) : Z := if (65 <=? c) && (c <=? 90) then c + 32 else c.

(** ** base_blob *)

Module Blob.
Definition SetNull (WIDTH : nat) : list Z := replicate WIDTH 0.
(** The constructor from a vector; [None] when its assertion fails. *)
Definition of_vector (WIDTH : nat) (vch : list Z) : option (list Z) :=
  if (length vch =? WIDTH)%nat then Some vch else None.
Definition IsNull (data : list Z) : bool := forallb (λ x, x =? 0) data.

(** [memcmp]: the sign of the first difference. *)
Fixpoint Compare (data other : list Z) : Z :=
  match data, other with
  | x :: data, y :: other => if x <? y then -1 else if y <? x then 1 else Compare data other
  | _, _ => 0
  end.

Definition GetUint64 (pos : nat) (data : list Z) : Z :=
  let ptr := drop (pos * 8) data in
  ((((((((ptr !!! 0%nat) ||| ((ptr !!! 1%nat) << 8)) ||| ((ptr !!! 2%nat) << 16)) ||| ((ptr !!! 3%nat) << 24)) |||
    ((ptr !!! 4%nat) << 32)) ||| ((ptr !!! 5%nat) << 40)) ||| ((ptr !!! 6%nat) << 48)) ||| ((ptr !!! 7%nat) << 56)).

Definition GetHex (data : list Z) : list Z := HexStr (rev data).

Fixpoint skip_spaces (psz : list Z) : list Z :=
  match psz with
  | c :: psz' => if isspace c then skip_spaces psz' else psz
  | [] => []
  end.
Definition skip_0x (psz : list Z) : list Z :=
  match psz with
  | c0 :: c1 :: psz' => if (c0 =? 48) && (tolower c1 =? 120) then psz' else psz
  | _ => psz
  end.
Fixpoint hex_digits (psz : list Z) : list Z :=
  match psz with
  | c :: psz => if HexDigit c =? -1 then [] else c :: hex_digits psz
  | [] => []
  end.

(** The last loop: [ds] holds the digits from the last one back, two per byte of [data]. *)
Fixpoint SetHex_loop (WIDTH : nat) (ds : list Z) : list Z :=
  match WIDTH, ds with
  | O, _ => []
  | S W, [] => 0 :: SetHex_loop W []
  | S W, [c] => HexDigit c :: SetHex_loop W []
  | S W, c1 :: c2 :: ds => u8 (HexDigit c1 ||| u8 (u8 (HexDigit c2) << 4)) :: SetHex_loop W ds
  end.
Definition SetHex (WIDTH : nat) (psz : list Z) : list Z :=
  SetHex_loop WIDTH (rev (hex_digits (skip_0x (skip_spaces psz)))).

(** [uint256::GetNibble] and [GetCheapHash], [uint512::trim256]. *)
Definition GetNibble (index : Z) (data : list Z) : Z :=
  let index := 63 - index in
  if Z.rem index 2 =? 1 then (data !!! Z.to_nat (Z.quot index 2)) >> 4
  else (data !!! Z.to_nat (Z.quot index 2)) &&& 0x0F.
Definition GetCheapHash (data : list Z) : Z := ReadLE64 data.
Definition trim256 (data : list Z) : list Z := take 32 data.
End Blob.

(** ** Conversions *)

Definition ArithToUint (a : base_uint) : list Z := concat (WriteLE32 <$> a).
Definition UintToArith (WIDTH : nat) (a : list Z) : base_uint :=
  (λ x, ReadLE32 (drop (x * 4) a)) <$> seq 0 WIDTH.
Definition UintToArith256 (a : list Z) : base_uint := UintToArith 8 a.
Definition ArithToUint256 (a : base_uint) : list Z := ArithToUint a.

(** [arith_uint512(arith_uint256)] and [arith_uint512::trim256]. *)
Definition arith_uint512 (b : base_uint) : base_uint := b ++ replicate (16 - length b) 0.
Definition arith_trim256 (pn : base_uint) : base_uint := take 8 pn.

(** ** Laws *)

Lemma ArithToUint_cons x a : ArithToUint (x :: a) = WriteLE32 x ++ ArithToUint a.
Proof. done. Qed.

Lemma length_ArithToUint a : length (ArithToUint a) = (4 * length a)%nat.
Proof.
  induction a as [|x a IH]; [done|]. rewrite ArithToUint_cons, length_app, IH.
  unfold WriteLE32. rewrite length_le_bytes. simpl. lia.
Qed.

Lemma le_value_app b c : le_value (b ++ c) = le_value b + 256 ^ length b * le_value c.
Proof.
  induction b as [|x b IH]; [simpl; lia|]. cbn [app le_value length]. rewrite IH.
  replace (256 ^ S (length b)) with (256 * 256 ^ length b) by (rewrite <- Z.pow_succ_r by lia; f_equal; lia).
  lia.
Qed.

Lemma le_value_inj a b : bytes a -> bytes b -> length a = length b -> le_value a = le_value b -> a = b.
Proof.
  intros Ha Hb Hl Hv. rewrite <- (le_bytes_le_value a Ha), <- (le_bytes_le_value b Hb). congruence.
Qed.

Lemma UintToArith_cons W a :
  UintToArith (S W) a = ReadLE32 a :: UintToArith W (drop 4 a).
Proof.
  unfold UintToArith. simpl. rewrite drop_0. f_equal. rewrite <- fmap_S_seq, <- list_fmap_compose.
  apply list_fmap_ext. intros i x _. simpl. by rewrite drop_drop.
Qed.

Lemma UintToArith_spec W a :
  bytes a -> length a = (4 * W)%nat ->
  wf W (UintToArith W a) /\ value (UintToArith W a) = le_value a.
Proof.
  revert a. induction W as [|W IH]; intros a Ha Hl.
  { apply nil_length_inv in Hl. by subst. }
  rewrite UintToArith_cons. destruct a as [|b0 [|b1 [|b2 [|b3 a]]]]; simpl in Hl; try lia.
  unfold bytes in Ha. rewrite !Forall_cons in Ha. destruct Ha as (H0 & H1 & H2 & H3 & Ha).
  destruct (IH a Ha) as [[HlW HfW] Hv]; [lia|]. cbn [drop]. rewrite drop_0. unfold ReadLE32. cbn [take le_value]. rewrite take_0. cbn [le_value].
  unfold in_uint in *. split.
  - split; [simpl; lia|]. constructor; [|done]. unfold in_uint. lia.
  - cbn [value]. rewrite Hv. lia.
Qed.

Lemma ArithToUint_spec a :
  Forall (in_uint 32) a -> bytes (ArithToUint a) /\ le_value (ArithToUint a) = value a /\
  UintToArith (length a) (ArithToUint a) = a.
Proof.
  induction 1 as [|x a Hx Ha (IHb & IHv & IHu)]; [by repeat split; constructor|].
  rewrite ArithToUint_cons.
  assert (length (WriteLE32 x) = 4%nat) as Hl4 by apply length_le_bytes. split_and!.
  - apply Forall_app. split; [apply le_bytes_bytes|done].
  - rewrite le_value_app, IHv, Hl4. unfold WriteLE32. rewrite le_value_le_bytes_small by done.
    change (256 ^ 4%nat) with (2 ^ 32). done.
  - simpl length. rewrite UintToArith_cons. rewrite drop_app_length' by done. rewrite IHu. f_equal.
    unfold ReadLE32. rewrite take_app_length' by done. by apply (le_value_le_bytes_small 4).
Qed.

(** *** Hexadecimal *)

(** The number a string of digits denotes, most significant digit first. *)
Definition hex_number (ds : list Z) : Z := foldl (λ n c, 16 * n + HexDigit c) 0 ds.
Fixpoint hex_number_le (ds : list Z) : Z :=
  match ds with [] => 0 | c :: ds => HexDigit c + 16 * hex_number_le ds end.

Definition is_hex (c : Z) : Prop := 0 <= HexDigit c < 16.

Lemma hex_number_rev ds : hex_number ds = hex_number_le (rev ds).
Proof.
  induction ds as [|c ds IH] using rev_ind; [done|]. unfold hex_number in *.
  rewrite foldl_snoc, rev_unit, IH. simpl. lia.
Qed.

Lemma HexDigit_range c : HexDigit c = -1 \/ is_hex c.
Proof.
  unfold is_hex, HexDigit. pose proof (uint_range 8 c ltac:(lia)) as Hc.
  pose proof (byte_forall (λ x, let d := p_util_hexdigit !!! Z.to_nat x in
    (d =? -1) || ((0 <=? d) && (d <? 16))) ltac:(by vm_compute) (u8 c) Hc) as Hd. cbv beta zeta in Hd. lia.
Qed.

Lemma hex_digits_hex psz : Forall is_hex (Blob.hex_digits psz).
Proof.
  induction psz as [|c psz IH]; simpl; [constructor|]. destruct (Z.eqb_spec (HexDigit c) (-1)); [constructor|].
  constructor; [|done]. by destruct (HexDigit_range c).
Qed.

Lemma hex_digits_all l : Forall is_hex l -> Blob.hex_digits l = l.
Proof.
  induction 1 as [|c l Hc Hl IH]; simpl; [done|]. unfold is_hex in Hc.
  rewrite (proj2 (Z.eqb_neq _ _)) by lia. by rewrite IH.
Qed.

Lemma hex_byte d1 d2 : 0 <= d1 < 16 -> 0 <= d2 < 16 -> u8 (d1 ||| u8 (u8 d2 << 4)) = d1 + 16 * d2.
Proof.
  intros H1 H2. rewrite (uint_small 8 d2) by (unfold in_uint; lia).
  rewrite (uint_small 8 (d2 << 4)) by (rewrite Z.shiftl_mul_pow2 by lia; unfold in_uint; lia).
  rewrite Z.lor_comm, lor_shiftl_add by lia. rewrite uint_small by (unfold in_uint; lia). lia.
Qed.

Lemma SetHex_loop_spec W ds :
  Forall is_hex ds ->
  length (Blob.SetHex_loop W ds) = W /\ bytes (Blob.SetHex_loop W ds) /\
  le_value (Blob.SetHex_loop W ds) = hex_number_le ds `mod` 256 ^ W.
Proof.
  revert ds. induction W as [|W IH]; intros ds Hds.
  { simpl. split; [done|]. split; [constructor|]. by rewrite Z.mod_1_r. }
  assert (forall x n ds', is_byte x -> Forall is_hex ds' -> n = x + 256 * hex_number_le ds' ->
    length (x :: Blob.SetHex_loop W ds') = S W /\ bytes (x :: Blob.SetHex_loop W ds') /\
    le_value (x :: Blob.SetHex_loop W ds') = n `mod` 256 ^ S W) as Hstep.
  { intros x n ds' Hx Hds' ->. destruct (IH ds' Hds') as (Hl & Hb & Hv). split; [simpl; lia|].
    split; [by constructor|]. cbn [le_value]. rewrite Hv.
    replace (256 ^ S W) with (256 * 256 ^ W) by (rewrite <- Z.pow_succ_r by lia; f_equal; lia).
    rewrite Z.rem_mul_r by lia. unfold in_uint in Hx. f_equal; [|f_equal; f_equal]; lia_mod. }
  destruct ds as [|c1 [|c2 ds]]; cbn [Blob.SetHex_loop].
  - apply Hstep; [by split|constructor|done].
  - inversion Hds as [|?? H1 _]; subst. unfold is_hex in H1.
    apply Hstep; [unfold in_uint; lia|constructor|simpl; lia].
  - inversion Hds as [|?? H1 Hds1]; subst. inversion Hds1 as [|?? H2 Hds2]; subst. unfold is_hex in H1, H2.
    rewrite hex_byte by done. apply Hstep; [unfold in_uint; lia|done|simpl; lia].
Qed.

Lemma SetHex_value W psz :
  let digits := Blob.hex_digits (Blob.skip_0x (Blob.skip_spaces psz)) in
  length (Blob.SetHex W psz) = W /\ bytes (Blob.SetHex W psz) /\
  le_value (Blob.SetHex W psz) = hex_number digits `mod` 256 ^ W.
Proof.
  intros digits. rewrite hex_number_rev. apply SetHex_loop_spec. apply Forall_rev, hex_digits_hex.
Qed.

(** The two digits of a byte. *)
Lemma hexmap_digit d : 0 <= d < 16 ->
  let c := hexmap !!! Z.to_nat d in
  HexDigit c = d /\ isspace c = false /\ tolower c <> 120.
Proof. intros Hd. enum_Z d 0 16; by vm_compute. Qed.

Lemma GetHex_rev data :
  rev (Blob.GetHex data) =
    concat ((λ val, [hexmap !!! Z.to_nat (val &&& 15); hexmap !!! Z.to_nat (val >> 4)]) <$> data).
Proof.
  unfold Blob.GetHex, HexStr. induction data as [|x data IH]; [done|]. simpl rev at 2.
  rewrite fmap_app, concat_app, rev_app_distr, IH. done.
Qed.

Lemma GetHex_number data :
  bytes data -> Forall is_hex (Blob.GetHex data) /\ hex_number (Blob.GetHex data) = le_value data.
Proof.
  intros Hd. rewrite hex_number_rev. rewrite <- (rev_involutive (Blob.GetHex data)) at 1.
  rewrite GetHex_rev. enough (Forall is_hex (concat ((λ val, [hexmap !!! Z.to_nat (val &&& 15);
    hexmap !!! Z.to_nat (val >> 4)]) <$> data)) /\
    hex_number_le (concat ((λ val, [hexmap !!! Z.to_nat (val &&& 15); hexmap !!! Z.to_nat (val >> 4)]) <$> data))
      = le_value data) as [? ?] by (split; [by apply Forall_rev|done]).
  induction Hd as [|x data Hx Hd [IH1 IH2]]; [by split; constructor|].
  cbn [fmap list_fmap concat app hex_number_le le_value].
  assert (x &&& 15 = x `mod` 16) as -> by exact (Z.land_ones x 4 ltac:(lia)).
  rewrite Z.shiftr_div_pow2 by lia. unfold in_uint in Hx.
  destruct (hexmap_digit (x `mod` 16)) as (E1 & _); [lia_mod|].
  destruct (hexmap_digit (x / 2 ^ 4)) as (E2 & _); [lia_mod|]. split.
  - constructor; [unfold is_hex; rewrite E1; lia_mod|]. constructor; [unfold is_hex; rewrite E2; lia_mod|done].
  - rewrite E1, E2, IH2. lia_mod.
Qed.

Lemma GetHex_no_prefix data :
  bytes data -> Blob.skip_0x (Blob.skip_spaces (Blob.GetHex data)) = Blob.GetHex data.
Proof.
  unfold Blob.GetHex. intros Hd%Forall_rev. destruct Hd as [|x l Hx Hl]; [done|].
  unfold HexStr. cbn [fmap list_fmap concat app]. unfold in_uint in Hx.
  assert (x &&& 15 = x `mod` 16) as -> by exact (Z.land_ones x 4 ltac:(lia)).
  rewrite Z.shiftr_div_pow2 by lia.
  destruct (hexmap_digit (x / 2 ^ 4)) as (_ & Hs & _); [lia_mod|].
  destruct (hexmap_digit (x `mod` 16)) as (_ & _ & Hx'); [lia_mod|].
  cbn [Blob.skip_spaces]. rewrite Hs. cbn [Blob.skip_0x].
  rewrite (proj2 (Z.eqb_neq (tolower _) 120)) by done. by rewrite andb_false_r.
Qed.

(** [SetHex] skips leading spaces and an optional [0x], and stores the number the
    following hexadecimal digits denote, modulo the width of the blob; [GetHex] prints two
    digits per byte, and reading back what it prints gives the blob.  Converting a blob to
    [arith_uint256] keeps its value, and back its bytes. *)
Theorem uint256_hex_roundtrip (W : nat) (psz data : list Z) :
  bytes data -> length data = (4 * W)%nat ->
  le_value (Blob.SetHex (4 * W) psz) =
    hex_number (Blob.hex_digits (Blob.skip_0x (Blob.skip_spaces psz))) `mod` 2 ^ (32 * W) /\
  hex_number (Blob.GetHex data) = le_value data /\
  Blob.SetHex (4 * W) (Blob.GetHex data) = data /\
  value (UintToArith W data) = le_value data /\
  ArithToUint (UintToArith W data) = data.
Proof.
  intros Hd Hl. assert (256 ^ (4 * W)%nat = 2 ^ (32 * W)) as Hpow.
  { change 256 with (2 ^ 8). rewrite <- Z.pow_mul_r by lia. f_equal. lia. }
  destruct (GetHex_number data Hd) as [Hhex Hnum]. split_and!.
  - destruct (SetHex_value (4 * W) psz) as (_ & _ & ->). by rewrite Hpow.
  - done.
  - destruct (SetHex_value (4 * W) (Blob.GetHex data)) as (Hl' & Hb & Hv).
    rewrite GetHex_no_prefix, hex_digits_all, Hnum in Hv by done.
    apply le_value_inj; [done|done|congruence|]. rewrite Hv.
    pose proof (le_value_range data Hd) as Hr. unfold in_uint in Hr. rewrite Hl in Hr.
    rewrite Z.mod_small; [done|]. rewrite Hpow. by replace (32 * W) with (8 * (4 * W)%nat) by lia.
  - by apply UintToArith_spec.
  - destruct (UintToArith_spec W data Hd Hl) as [[Hlen Hf] Hv].
    destruct (ArithToUint_spec _ Hf) as (Hb & Hv' & _).
    apply le_value_inj; [done|done|by rewrite length_ArithToUint, Hlen|by rewrite Hv', Hv].
Qed.

Lemma uint256_hex_roundtrip_witness :
  Blob.SetHex 4 (Blob.GetHex [0x0a; 0; 0xff; 0x12]) = [0x0a; 0; 0xff; 0x12] /\
  Blob.SetHex 4 [32; 48; 88; 97; 98; 99; 122] = [0xbc; 0x0a; 0; 0].
Proof.
  split.
  - apply (uint256_hex_roundtrip 1 [] [0x0a; 0; 0xff; 0x12]); [|done].
    unfold bytes, in_uint. repeat constructor; lia.
  - vm_compute. reflexivity.
Defined.
