(* ===== verification/StdContainers.v ===== *)
(** * The standard containers the caches are built from

    [std::list] with the identity of its nodes: an iterator is the address of a node and stays
    valid until that node is erased, so that an index of iterators kept beside the list can
    dangle.  [std::map] operations that [gmap] does not have ([emplace], ordered traversal). *)

From S2P Require Import Prelude.
From stdpp Require Import sorting.

(** [emplace] leaves an existing entry alone. *)
Definition emplace {K A} `{Countable K} (k : K) (a : A) (m : gmap K A) : gmap K A :=
  match m !! k with Some _ => m | None => <[k := a]> m end.

Lemma emplace_new {K A} `{Countable K} (k : K) (a : A) (m : gmap K A) :
  m !! k = None -> emplace k a m = <[k := a]> m.
Proof. unfold emplace. by intros ->. Qed.

Lemma filter_ext_elem {A} (P Q : A -> Prop) `{forall x, Decision (P x), forall x, Decision (Q x)} (l : list A) :
  (forall x, x ∈ l -> P x <-> Q x) -> filter P l = filter Q l.
Proof.
  induction l as [|x l IH]; intros HPQ; [done|]. rewrite !filter_cons.
  rewrite (decide_ext (P x) (Q x)) by (apply HPQ; set_solver).
  rewrite IH by (intros; apply HPQ; set_solver). done.
Qed.

Lemma filter_all {A} (P : A -> Prop) `{forall x, Decision (P x)} (l : list A) :
  (forall x, x ∈ l -> P x) -> filter P l = l.
Proof.
  induction l as [|x l IH]; intros HP; [done|]. rewrite filter_cons_True by (apply HP; set_solver).
  by rewrite IH by (intros; apply HP; set_solver).
Qed.

Lemma elem_of_removelast {A} (x : A) (l : list A) : x ∈ removelast l -> x ∈ l.
Proof.
  destruct l as [|y l _] using rev_ind; [done|]. rewrite removelast_last, elem_of_app. auto.
Qed.

Lemma NoDup_removelast {A} (l : list A) : NoDup l -> NoDup (removelast l).
Proof.
  destruct l as [|y l _] using rev_ind; [done|]. rewrite removelast_last.
  by intros [? _]%NoDup_app.
Qed.

Module StdList.
Section StdList.
Context {T : Type}.

(** Nodes in order, each with its address; addresses are never reused. *)
Record t := mk { nodes : list (nat * T); next : nat }.

Definition nil : t := mk [] 1.
(** The past-the-end iterator. *)
Definition end_ : nat := 0.
Definition items (l : t) : list T := (nodes l).*2.
Definition size (l : t) : Z := length (nodes l).
Definition begin (l : t) : nat := match nodes l with [] => end_ | n :: _ => n.1 end.

Definition push_front (x : T) (l : t) : t := mk ((next l, x) :: nodes l) (S (next l)).
Definition back (l : t) : option T := snd <$> last (nodes l).
Definition pop_back (l : t) : t := mk (removelast (nodes l)) (next l).
Definition clear (l : t) : t := mk [] (next l).

(** Dereferencing or erasing through an iterator that is not valid is undefined: [None]. *)
Definition deref (it : nat) (l : t) : option T := (λ p, p.2.2) <$> list_find (λ n, n.1 = it) (nodes l).
Definition erase (it : nat) (l : t) : option t :=
  if decide (it ∈ (nodes l).*1) then Some (mk (filter (λ n, n.1 <> it) (nodes l)) (next l)) else None.

(** Assignment of another list's elements. *)
Definition assign (xs : list T) (l : t) : t :=
  mk (zip (seq (next l) (length xs)) xs) (next l + length xs)%nat.

Definition wf (l : t) : Prop :=
  (0 < next l)%nat /\ NoDup (nodes l).*1 /\ Forall (λ i, i < next l)%nat (nodes l).*1.

(** ** Laws *)

Lemma wf_nil : wf nil.
Proof. repeat split; simpl; [lia|constructor..]. Qed.

Lemma wf_clear l : wf l -> wf (clear l).
Proof. intros (? & _). repeat split; simpl; [lia|constructor..]. Qed.

Lemma wf_push_front x l : wf l -> wf (push_front x l).
Proof.
  intros (Hn & Hd & Hf). repeat split; simpl; [lia|constructor; [|done]|].
  - intros Hin. rewrite Forall_forall in Hf. specialize (Hf _ Hin). lia.
  - constructor; [lia|]. eapply Forall_impl; [done|]. simpl. lia.
Qed.

(** Removing a node anywhere. *)
Lemma wf_middle l1 x l2 n : wf (mk (l1 ++ x :: l2) n) -> wf (mk (l1 ++ l2) n).
Proof.
  unfold wf. cbn [nodes next]. rewrite !fmap_app, fmap_cons. intros (Hn & Hd & Hf).
  split; [done|]. rewrite <- Permutation_middle in Hd. apply NoDup_cons in Hd as [_ Hd].
  rewrite Forall_app, Forall_cons in Hf. rewrite Forall_app. naive_solver.
Qed.

Lemma filter_middle l1 i x l2 :
  NoDup (l1 ++ (i, x) :: l2).*1 -> filter (λ n : nat * T, n.1 <> i) (l1 ++ (i, x) :: l2) = l1 ++ l2.
Proof.
  intros Hd. rewrite fmap_app, fmap_cons in Hd. rewrite <- Permutation_middle in Hd.
  apply NoDup_cons in Hd as [Hi _]. rewrite <- fmap_app in Hi.
  assert (forall l, i ∉ l.*1 -> filter (λ n : nat * T, n.1 <> i) l = l) as Hall.
  { induction l as [|[j y] l IH]; [done|]. rewrite fmap_cons, not_elem_of_cons. simpl. intros [? ?].
    rewrite filter_cons_True by (simpl; congruence). by rewrite IH. }
  rewrite fmap_app, elem_of_app in Hi. rewrite filter_app, filter_cons_False by (simpl; auto).
  by rewrite !Hall by naive_solver.
Qed.

Lemma erase_middle l1 i x l2 n :
  wf (mk (l1 ++ (i, x) :: l2) n) -> erase i (mk (l1 ++ (i, x) :: l2) n) = Some (mk (l1 ++ l2) n).
Proof.
  intros (_ & Hd & _). unfold erase. cbn [nodes next]. rewrite decide_True.
  - by rewrite filter_middle.
  - rewrite fmap_app, fmap_cons. set_solver.
Qed.

Lemma node_unique l i x y : wf l -> (i, x) ∈ nodes l -> (i, y) ∈ nodes l -> x = y.
Proof.
  intros (_ & Hd & _) Hx Hy. apply list_elem_of_split in Hx as (l1 & l2 & E). rewrite E in *.
  rewrite fmap_app, fmap_cons, <- Permutation_middle, <- fmap_app in Hd.
  apply NoDup_cons in Hd as [Hi _]. rewrite elem_of_app, elem_of_cons in Hy.
  assert (forall z, (i, z) ∈ l1 ++ l2 -> False) as Hno.
  { intros z Hz. apply Hi. by apply (list_elem_of_fmap_2 fst) in Hz. }
  destruct Hy as [Hy|[Hy|Hy]]; [|by simplify_eq|]; exfalso; apply (Hno y); set_solver.
Qed.

Lemma deref_node l i x : wf l -> (i, x) ∈ nodes l -> deref i l = Some x.
Proof.
  intros Hw Hin. unfold deref.
  destruct (list_find_elem_of (λ n, n.1 = i) (nodes l) (i, x)) as [[j [i' y]] Hf]; [done..|].
  rewrite Hf. simpl. apply list_find_Some in Hf as (Hl & Hi & _). simpl in Hi. subst i'.
  f_equal. eapply node_unique; [done| |done]. by eapply list_elem_of_lookup_2.
Qed.

Lemma nodes_snoc l x : last (nodes l) = Some x -> nodes l = removelast (nodes l) ++ [x].
Proof.
  intros E. apply last_Some in E as [l' E]. rewrite E. by rewrite removelast_last.
Qed.

Lemma wf_pop_back l : wf l -> wf (pop_back l).
Proof.
  intros Hw. destruct (last (nodes l)) as [x|] eqn:E.
  - apply nodes_snoc in E. unfold pop_back. destruct l as [ns n]. cbn [nodes next] in *.
    rewrite <- (app_nil_r (removelast ns)). apply (wf_middle _ x). by rewrite <- E.
  - apply last_None in E. unfold pop_back, wf in *. by rewrite E in *.
Qed.

Lemma items_assign xs l : items (assign xs l) = xs.
Proof. unfold items, assign. simpl. apply snd_zip. rewrite length_seq. lia. Qed.

Lemma wf_assign xs l : wf l -> wf (assign xs l).
Proof.
  intros (? & _). unfold wf, assign. cbn [nodes next].
  rewrite fst_zip by (rewrite length_seq; lia). split; [lia|]. split; [apply NoDup_seq|].
  apply Forall_seq. lia.
Qed.
End StdList.
Arguments t : clear implicits.
End StdList.

(** ** Ordered traversal of a [std::map] *)

Definition key_le {K A} (le : relation K) : relation (K * A) := λ p q, le p.1 q.1.
#[export] Instance key_le_dec {K A} (le : relation K) `{!RelDecision le} :
  RelDecision (key_le (A:=A) le) := λ p q, decide (le p.1 q.1).

(** The entries from [begin()] to [end()]. *)
Definition ordered_elements {K A} `{Countable K} (le : relation K) `{!RelDecision le}
    (m : gmap K A) : list (K * A) := merge_sort (key_le le) (map_to_list m).

Section ordered_elements.
Context {K A : Type} `{Countable K} (le : relation K) `{!RelDecision le}.
Context `{!Transitive le, !AntiSymm (=) le, !Total le}.

Lemma elem_of_ordered (m : gmap K A) k a : (k, a) ∈ ordered_elements le m <-> m !! k = Some a.
Proof.
  unfold ordered_elements. by rewrite (merge_sort_Permutation (key_le le)), elem_of_map_to_list.
Qed.

Lemma NoDup_ordered_keys (m : gmap K A) : NoDup (ordered_elements le m).*1.
Proof.
  unfold ordered_elements. rewrite (merge_sort_Permutation (key_le le)). apply NoDup_fst_map_to_list.
Qed.

(** The keys in order are the sorted list of any enumeration of the keys. *)
Lemma ordered_keys (m : gmap K A) (l : list K) :
  NoDup l -> (forall k, is_Some (m !! k) <-> k ∈ l) -> (ordered_elements le m).*1 = merge_sort le l.
Proof.
  intros Hd Hl. apply (Sorted_unique le).
  - apply (Sorted_fmap fst (key_le le) le); [done|].
    apply Sorted_merge_sort. intros p q. apply (total le).
  - by apply Sorted_merge_sort.
  - rewrite (merge_sort_Permutation le). apply NoDup_Permutation; [apply NoDup_ordered_keys|done|].
    intros k. rewrite <- Hl. rewrite list_elem_of_fmap. split.
    + intros ([k' a] & -> & Hin). exists a. by apply elem_of_ordered.
    + intros [a Ha]. exists (k, a). split; [done|]. by apply elem_of_ordered.
Qed.
End ordered_elements.

(** ** Erasing several nodes of a list *)

Section erase_all.
Context {T : Type}.

Fixpoint erase_all (its : list nat) (l : StdList.t T) : option (StdList.t T) :=
  match its with
  | [] => Some l
  | it :: its => l ← StdList.erase it l; erase_all its l
  end.

Lemma erase_filter it (l : StdList.t T) :
  StdList.wf l -> it ∈ (StdList.nodes l).*1 ->
  exists l', StdList.erase it l = Some l' /\ StdList.wf l' /\
    StdList.nodes l' = filter (λ n, n.1 <> it) (StdList.nodes l).
Proof.
  intros (Hn & Hd & Hf) Hin. unfold StdList.erase. rewrite decide_True by done.
  eexists. split; [done|]. split; [|done]. split; [done|]. simpl.
  pose proof (sublist_filter (λ n : nat * T, n.1 <> it) (StdList.nodes l)) as Hsub.
  apply (fmap_sublist fst) in Hsub. split; [by eapply sublist_NoDup|].
  rewrite Forall_forall in *. intros i (n & -> & [_ Hi]%list_elem_of_filter)%list_elem_of_fmap.
  by apply Hf, list_elem_of_fmap_2.
Qed.

Lemma erase_all_spec its (l : StdList.t T) :
  StdList.wf l -> NoDup its -> (forall it, it ∈ its -> it ∈ (StdList.nodes l).*1) ->
  exists l', erase_all its l = Some l' /\ StdList.wf l' /\
    StdList.nodes l' = filter (λ n, n.1 ∉ its) (StdList.nodes l).
Proof.
  revert l. induction its as [|it its IH]; intros l Hw Hd Hin; simpl.
  { exists l. split; [done|]. split; [done|]. symmetry. apply filter_all.
    intros n _. apply not_elem_of_nil. }
  apply NoDup_cons in Hd as [Hi Hd].
  destruct (erase_filter it l Hw) as (l1 & -> & Hw1 & E1); [apply Hin; set_solver|]. simpl.
  destruct (IH l1 Hw1 Hd) as (l2 & -> & Hw2 & E2).
  { intros it' Hit'. rewrite E1.
    assert (it' ∈ (StdList.nodes l).*1) as (n & -> & Hn)%list_elem_of_fmap by (apply Hin; set_solver).
    apply list_elem_of_fmap_2, list_elem_of_filter. split; [congruence|done]. }
  exists l2. split; [done|]. split; [done|]. rewrite E2, E1, list_filter_filter.
  apply filter_ext_elem. intros n _. rewrite elem_of_cons. tauto.
Qed.
End erase_all.
