(* ===== verification/CacheMap.v ===== *)
(** * CacheMap: cachemap.h

    A bounded map that keeps the most recently added items: a [std::list] of items, newest
    first, and an index from keys to iterators into that list.  The index can only be followed
    while the nodes it points to exist, so reading or erasing through it is partial here
    ([None] is undefined behaviour); the refinement theorem shows that this never happens and
    that the container behaves as a plain list of items. *)

From S2P Require Import Prelude StdContainers Bytes Streams Serialize SerializeLaws SerializeCodecs.

#[local] Arguments Z.eqb : simpl never.

Lemma filter_key_absent {K V} `{EqDecision K} (k : K) (l : list (K * V)) :
  k ∉ l.*1 -> filter (λ i, i.1 <> k) l = l.
Proof.
  induction l as [|[k' v] l IH]; [done|]. rewrite fmap_cons, not_elem_of_cons. simpl. intros [? ?].
  rewrite filter_cons_True by (simpl; congruence). by rewrite IH.
Qed.

Section CacheMap.
Context {K V : Type} `{Countable K}.

Record CacheMap := mkCacheMap {
  nMaxSize : Z; (* uint32_t *)
  listItems : StdList.t (K * V);
  mapIndex : gmap K nat;
}.

(** ** Operations *)

Definition CacheMap_new (nMaxSizeIn : Z) : CacheMap := mkCacheMap nMaxSizeIn StdList.nil ∅.

Definition PruneLast (m : CacheMap) : CacheMap :=
  match StdList.back (listItems m) with
  | None => m
  | Some item => mkCacheMap (nMaxSize m) (StdList.pop_back (listItems m)) (delete item.1 (mapIndex m))
  end.

Definition RebuildIndex (m : CacheMap) : CacheMap :=
  mkCacheMap (nMaxSize m) (listItems m)
    (foldl (λ idx (n : nat * (K * V)), emplace n.2.1 n.1 idx) ∅ (StdList.nodes (listItems m))).

Definition Clear (m : CacheMap) : CacheMap := mkCacheMap (nMaxSize m) (StdList.clear (listItems m)) ∅.
Definition SetMaxSize (nMaxSizeIn : Z) (m : CacheMap) : CacheMap :=
  mkCacheMap nMaxSizeIn (listItems m) (mapIndex m).
Definition GetMaxSize (m : CacheMap) : Z := nMaxSize m.
Definition GetSize (m : CacheMap) : Z := u32 (StdList.size (listItems m)).
Definition GetItemList (m : CacheMap) : list (K * V) := StdList.items (listItems m).

Definition Insert (key : K) (value : V) (m : CacheMap) : bool * CacheMap :=
  match mapIndex m !! key with
  | Some _ => (false, m)
  | None =>
      let m := if StdList.size (listItems m) =? nMaxSize m then PruneLast m else m in
      let l := StdList.push_front (key, value) (listItems m) in
      (true, mkCacheMap (nMaxSize m) l (emplace key (StdList.begin l) (mapIndex m)))
  end.

Definition HasKey (key : K) (m : CacheMap) : bool := bool_decide (is_Some (mapIndex m !! key)).

(** The value found, or [Some None] when the key is absent. *)
Definition Get (key : K) (m : CacheMap) : option (option V) :=
  match mapIndex m !! key with
  | None => Some None
  | Some it => item ← StdList.deref it (listItems m); Some (Some item.2)
  end.

Definition Erase (key : K) (m : CacheMap) : option CacheMap :=
  match mapIndex m !! key with
  | None => Some m
  | Some it =>
      l ← StdList.erase it (listItems m);
      Some (mkCacheMap (nMaxSize m) l (delete key (mapIndex m)))
  end.

(** [operator=]; the copy constructor is the same on an empty list. *)
Definition Assign (other m : CacheMap) : CacheMap :=
  RebuildIndex (mkCacheMap (nMaxSize other)
    (StdList.assign (StdList.items (listItems other)) (listItems m)) (mapIndex m)).
Definition CacheMap_copy (other : CacheMap) : CacheMap :=
  RebuildIndex (mkCacheMap (nMaxSize other)
    (StdList.assign (StdList.items (listItems other)) StdList.nil) ∅).

(** [SerializationOp]: the size, then the items ([CacheItem] writes its key, then its value);
    reading rebuilds the index. *)
Definition codec_CacheItem (ck : codec K) (cv : codec V) : codec (K * V) := codec_pair ck cv.
Definition codec_CacheMap (ck : codec K) (cv : codec V) : codec CacheMap :=
  Codec
    (λ (S : Type) (_ : OStream S) (m : CacheMap),
      Serialize codec_uint32 (nMaxSize m) ≫= λ _,
      Serialize (codec_list (codec_CacheItem ck cv)) (StdList.items (listItems m)))
    (λ (S : Type) (_ : IStream S),
      n ← Unserialize codec_uint32;
      l ← Unserialize (codec_list (codec_CacheItem ck cv));
      mret (RebuildIndex (mkCacheMap n (StdList.assign l StdList.nil) ∅))).

(** ** The invariant: the index holds exactly the nodes of the list, one per key *)

Definition indexed (idx : gmap K nat) (ns : list (nat * (K * V))) : Prop :=
  forall k it, idx !! k = Some it <-> exists v, (it, (k, v)) ∈ ns.

Definition keys (ns : list (nat * (K * V))) : list K := ns.*2.*1.

Record cm_inv (m : CacheMap) : Prop := {
  inv_list : StdList.wf (listItems m);
  inv_keys : NoDup (keys (StdList.nodes (listItems m)));
  inv_index : indexed (mapIndex m) (StdList.nodes (listItems m));
}.

Lemma elem_of_keys k ns : k ∈ keys ns <-> exists it v, (it, (k, v)) ∈ ns.
Proof.
  unfold keys. rewrite list_elem_of_fmap. setoid_rewrite list_elem_of_fmap. split.
  - intros ([k' v] & -> & [it [k2 v2]] & [= -> ->] & ?). eauto.
  - intros (it & v & ?). by exists (k, v); split; [|exists (it, (k, v))].
Qed.

Lemma keys_middle l1 n l2 : keys (l1 ++ n :: l2) ≡ₚ n.2.1 :: keys (l1 ++ l2).
Proof. unfold keys. by rewrite <- Permutation_middle. Qed.

Lemma indexed_None idx ns k : indexed idx ns -> idx !! k = None <-> k ∉ keys ns.
Proof.
  intros Hi. rewrite elem_of_keys, eq_None_not_Some. unfold is_Some.
  setoid_rewrite (Hi k). naive_solver.
Qed.

(** Taking a node away and deleting its key. *)
Lemma indexed_middle idx l1 it k v l2 :
  NoDup (keys (l1 ++ (it, (k, v)) :: l2)) -> indexed idx (l1 ++ (it, (k, v)) :: l2) ->
  indexed (delete k idx) (l1 ++ l2).
Proof.
  rewrite keys_middle. intros [Hk Hd]%NoDup_cons Hi k' it'. simpl in Hk.
  rewrite lookup_delete_Some, (Hi k' it'). setoid_rewrite elem_of_app.
  setoid_rewrite elem_of_cons. split.
  - intros [Hne [v' Hv]]. exists v'. naive_solver.
  - intros [v' Hv]. split; [|exists v'; naive_solver].
    intros <-. apply Hk. rewrite elem_of_keys. exists it', v'. by rewrite elem_of_app.
Qed.

Lemma indexed_cons idx it k v ns :
  idx !! k = None -> indexed idx ns -> indexed (<[k := it]> idx) ((it, (k, v)) :: ns).
Proof.
  intros Hk Hi k' it'. setoid_rewrite elem_of_cons. destruct (decide (k' = k)) as [->|Hne].
  - rewrite lookup_insert_eq. split; [intros [= ->]; eauto|].
    intros [v' [?|Hin]]; [by simplify_eq|]. exfalso.
    apply (indexed_None _ _ k Hi) in Hk. apply Hk, elem_of_keys. eauto.
  - rewrite lookup_insert_ne by done. rewrite (Hi k' it'). naive_solver.
Qed.

(** [RebuildIndex] indexes any list without repeated keys. *)
Lemma foldl_emplace_indexed ns idx done_ :
  NoDup (keys (done_ ++ ns)) -> indexed idx done_ ->
  indexed (foldl (λ idx (n : nat * (K * V)), emplace n.2.1 n.1 idx) idx ns) (done_ ++ ns).
Proof.
  revert idx done_. induction ns as [|[it [k v]] ns IH]; intros idx done_ Hd Hi; simpl.
  { by rewrite app_nil_r. }
  rewrite (cons_middle _ _ ns), (assoc_L (++)). apply IH.
  { by rewrite <- (assoc_L (++)), <- cons_middle. }
  rewrite keys_middle in Hd. apply NoDup_cons in Hd as [Hk _]. simpl in Hk.
  assert (idx !! k = None) as Hnone.
  { apply (indexed_None _ _ _ Hi). intros [it' [v' Hin]]%elem_of_keys. apply Hk, elem_of_keys.
    exists it', v'. by apply elem_of_app; left. }
  rewrite emplace_new by done. intros k' it'. rewrite (indexed_cons _ it k v _ Hnone Hi k' it').
  setoid_rewrite elem_of_cons. setoid_rewrite elem_of_app. setoid_rewrite list_elem_of_singleton.
  naive_solver.
Qed.

Lemma RebuildIndex_inv m :
  StdList.wf (listItems m) -> NoDup (keys (StdList.nodes (listItems m))) -> cm_inv (RebuildIndex m).
Proof.
  intros Hw Hd. constructor; [done..|]. apply (foldl_emplace_indexed _ ∅ []); [done|].
  intros k it. rewrite lookup_empty. split; [done|]. intros [v []%not_elem_of_nil].
Qed.

(** ** The specification: a list of items, newest first *)

Definition spec : Type := Z * list (K * V).
Definition abs (m : CacheMap) : spec := (nMaxSize m, StdList.items (listItems m)).

Definition spec_lookup (k : K) (l : list (K * V)) : option V :=
  (λ p, p.2.2) <$> list_find (λ i, i.1 = k) l.

Definition spec_Insert (k : K) (v : V) (s : spec) : bool * spec :=
  if decide (k ∈ s.2.*1) then (false, s)
  else (true, (s.1, (k, v) :: if length s.2 =? s.1 then removelast s.2 else s.2)).

Lemma keys_items m : keys (StdList.nodes (listItems m)) = (abs m).2.*1.
Proof. done. Qed.

(** ** Each operation refines its specification *)

Lemma new_refines n : cm_inv (CacheMap_new n) /\ abs (CacheMap_new n) = (n, []).
Proof.
  split; [|done]. constructor; [apply StdList.wf_nil|constructor|].
  intros k it. simpl. rewrite lookup_empty. split; [done|]. intros [v []%not_elem_of_nil].
Qed.

Lemma PruneLast_refines m :
  cm_inv m -> cm_inv (PruneLast m) /\ abs (PruneLast m) = ((abs m).1, removelast (abs m).2).
Proof.
  intros Hm. pose proof Hm as [Hw Hd Hi]. unfold PruneLast, StdList.back.
  destruct (last (StdList.nodes (listItems m))) as [[it [k v]]|] eqn:E; simpl.
  - pose proof (StdList.nodes_snoc _ _ E) as En. split.
    + constructor; simpl; [by apply StdList.wf_pop_back|..].
      * rewrite En, keys_middle, app_nil_r in Hd. by apply NoDup_cons in Hd as [_ Hd].
      * rewrite <- (app_nil_r (removelast _)). rewrite En in Hd, Hi.
        by apply indexed_middle with it v.
    + unfold abs, StdList.items. simpl. rewrite En, fmap_app. simpl. by rewrite !removelast_last.
  - apply last_None in E. split; [done|]. unfold abs, StdList.items. by rewrite E.
Qed.

Lemma Insert_refines k v m :
  cm_inv m -> let '(r, m') := Insert k v m in cm_inv m' /\ spec_Insert k v (abs m) = (r, abs m').
Proof.
  intros Hm. unfold Insert, spec_Insert. pose proof Hm as [_ _ Hi].
  destruct (mapIndex m !! k) as [it|] eqn:Ek.
  { rewrite decide_True; [done|]. apply elem_of_keys. apply Hi in Ek as [v' ?]. eauto. }
  apply (indexed_None _ _ _ Hi) in Ek. rewrite keys_items in Ek. rewrite decide_False by done.
  assert ((length (abs m).2 =? (abs m).1) = (StdList.size (listItems m) =? nMaxSize m)) as ->.
  { unfold abs, StdList.items, StdList.size. simpl. by rewrite length_fmap. }
  assert (exists m0, (if StdList.size (listItems m) =? nMaxSize m then PruneLast m else m) = m0 /\
    cm_inv m0 /\ abs m0 = ((abs m).1, if StdList.size (listItems m) =? nMaxSize m
      then removelast (abs m).2 else (abs m).2)) as (m0 & -> & H0 & E0).
  { destruct (_ =? _); eexists; (split; [done|]); [by apply PruneLast_refines|done]. }
  assert (mapIndex m0 !! k = None) as Hk.
  { apply (indexed_None _ _ _ (inv_index _ H0)). rewrite keys_items, E0. simpl.
    destruct (_ =? _); [|done]. intros (x & -> & ?%elem_of_removelast)%list_elem_of_fmap.
    apply Ek. by apply list_elem_of_fmap_2. }
  destruct H0 as [Hw Hd Hi0]. split.
  - constructor; simpl; [by apply StdList.wf_push_front|..].
    + unfold keys. simpl. constructor; [|done]. by apply (indexed_None _ _ _ Hi0).
    + rewrite emplace_new by done. by apply indexed_cons.
  - transitivity (true, ((abs m0).1, (k, v) :: (abs m0).2)); [by rewrite E0|done].
Qed.

Lemma spec_lookup_None k (l : list (K * V)) : k ∉ l.*1 -> spec_lookup k l = None.
Proof.
  intros Hk. unfold spec_lookup.
  destruct (list_find (λ i, i.1 = k) l) as [[j i]|] eqn:E; [|done]. exfalso.
  apply list_find_Some in E as (Hl & <- & _). apply Hk.
  by apply list_elem_of_fmap_2, list_elem_of_lookup_2 with j.
Qed.

Lemma spec_lookup_Some k v (l : list (K * V)) : NoDup l.*1 -> (k, v) ∈ l -> spec_lookup k l = Some v.
Proof.
  intros Hd Hin. unfold spec_lookup.
  destruct (list_find_elem_of (λ i, i.1 = k) l (k, v)) as [[j [k' v']] Hf]; [done..|].
  rewrite Hf. apply list_find_Some in Hf as (Hl & Hk & _). simpl in *. subst k'. f_equal.
  apply list_elem_of_lookup in Hin as [j' Hj'].
  assert (j = j') as -> by (apply (NoDup_lookup l.*1 j j' k Hd); by rewrite list_lookup_fmap, ?Hl, ?Hj').
  congruence.
Qed.

Lemma HasKey_refines k m : cm_inv m -> HasKey k m = bool_decide (k ∈ (abs m).2.*1).
Proof.
  intros [_ _ Hi]. unfold HasKey. apply bool_decide_ext. rewrite <- keys_items, elem_of_keys.
  unfold is_Some. setoid_rewrite (Hi k). done.
Qed.

Lemma Get_refines k m : cm_inv m -> Get k m = Some (spec_lookup k (abs m).2).
Proof.
  intros [Hw Hd Hi]. unfold Get. destruct (mapIndex m !! k) as [it|] eqn:Ek.
  - apply Hi in Ek as [v Hin]. rewrite (StdList.deref_node _ _ _ Hw Hin). simpl. f_equal.
    symmetry. apply spec_lookup_Some; [exact Hd|].
    by apply (list_elem_of_fmap_2 snd) in Hin.
  - apply (indexed_None _ _ _ Hi) in Ek. rewrite keys_items in Ek. by rewrite spec_lookup_None.
Qed.

Lemma filter_key_middle k v (l1 l2 : list (K * V)) :
  NoDup (l1 ++ (k, v) :: l2).*1 -> filter (λ i, i.1 <> k) (l1 ++ (k, v) :: l2) = l1 ++ l2.
Proof.
  rewrite fmap_app, fmap_cons, <- Permutation_middle, <- fmap_app. intros [Hk _]%NoDup_cons.
  simpl in Hk. rewrite fmap_app, not_elem_of_app in Hk.
  rewrite filter_app, filter_cons_False by auto. by rewrite !filter_key_absent by naive_solver.
Qed.

Lemma Erase_refines k m :
  cm_inv m -> exists m', Erase k m = Some m' /\ cm_inv m' /\
    abs m' = ((abs m).1, filter (λ i, i.1 <> k) (abs m).2).
Proof.
  intros Hm. pose proof Hm as [Hw Hd Hi]. unfold Erase. destruct (mapIndex m !! k) as [it|] eqn:Ek.
  - apply Hi in Ek as [v Hin]. apply list_elem_of_split in Hin as (l1 & l2 & E).
    destruct m as [n [ns nx] idx]. cbn [listItems mapIndex nMaxSize StdList.nodes] in *. subst ns.
    rewrite StdList.erase_middle by done. eexists. split; [done|]. split.
    + constructor; simpl; [by apply StdList.wf_middle in Hw| |by apply indexed_middle with it v].
      rewrite keys_middle in Hd. by apply NoDup_cons in Hd as [_ ?].
    + unfold abs, StdList.items, keys in *. simpl. rewrite !fmap_app, fmap_cons in *. simpl in *.
      rewrite filter_key_middle; [done|]. by rewrite fmap_app, fmap_cons.
  - apply (indexed_None _ _ _ Hi) in Ek. rewrite keys_items in Ek.
    exists m. rewrite filter_key_absent by done. done.
Qed.

Lemma Clear_refines m : cm_inv m -> cm_inv (Clear m) /\ abs (Clear m) = ((abs m).1, []).
Proof.
  intros [Hw Hd Hi]. split; [|done]. constructor; simpl; [by apply StdList.wf_clear|constructor|].
  intros k it. rewrite lookup_empty. split; [done|]. intros [v []%not_elem_of_nil].
Qed.

Lemma assigned_inv n xs l idx :
  StdList.wf l -> NoDup xs.*1 ->
  let m := RebuildIndex (mkCacheMap n (StdList.assign xs l) idx) in cm_inv m /\ abs m = (n, xs).
Proof.
  intros Hw Hd. split.
  - apply RebuildIndex_inv; simpl; [by apply StdList.wf_assign|]. unfold keys.
    change (NoDup (StdList.items (StdList.assign xs l)).*1). by rewrite StdList.items_assign.
  - unfold abs, RebuildIndex. simpl. by rewrite StdList.items_assign.
Qed.

Lemma Assign_refines other m : cm_inv other -> cm_inv m ->
  cm_inv (Assign other m) /\ abs (Assign other m) = abs other.
Proof. intros Ho Hm. by apply assigned_inv; [apply Hm|apply Ho]. Qed.

Lemma copy_refines m : cm_inv m -> cm_inv (CacheMap_copy m) /\ abs (CacheMap_copy m) = abs m.
Proof. intros Hm. by apply assigned_inv; [apply StdList.wf_nil|apply Hm]. Qed.

(** ** Sequences of operations *)

Inductive cm_op :=
| op_Insert (k : K) (v : V) | op_HasKey (k : K) | op_Get (k : K) | op_Erase (k : K)
| op_Clear | op_SetMaxSize (n : Z) | op_GetItemList | op_Copy.

Inductive cm_out :=
| out_unit | out_bool (b : bool) | out_value (v : option V) | out_items (l : list (K * V)).

(** [None] when the operation's behaviour is undefined. *)
Definition cm_step (op : cm_op) (m : CacheMap) : option (cm_out * CacheMap) :=
  match op with
  | op_Insert k v => let '(r, m) := Insert k v m in Some (out_bool r, m)
  | op_HasKey k => Some (out_bool (HasKey k m), m)
  | op_Get k => v ← Get k m; Some (out_value v, m)
  | op_Erase k => m ← Erase k m; Some (out_unit, m)
  | op_Clear => Some (out_unit, Clear m)
  | op_SetMaxSize n => Some (out_unit, SetMaxSize n m)
  | op_GetItemList => Some (out_items (GetItemList m), m)
  | op_Copy => Some (out_unit, CacheMap_copy m)
  end.

Definition spec_step (op : cm_op) (s : spec) : cm_out * spec :=
  match op with
  | op_Insert k v => let '(r, s) := spec_Insert k v s in (out_bool r, s)
  | op_HasKey k => (out_bool (bool_decide (k ∈ s.2.*1)), s)
  | op_Get k => (out_value (spec_lookup k s.2), s)
  | op_Erase k => (out_unit, (s.1, filter (λ i, i.1 <> k) s.2))
  | op_Clear => (out_unit, (s.1, []))
  | op_SetMaxSize n => (out_unit, (n, s.2))
  | op_GetItemList => (out_items s.2, s)
  | op_Copy => (out_unit, s)
  end.

Fixpoint cm_run (ops : list cm_op) (m : CacheMap) : option (list cm_out * CacheMap) :=
  match ops with
  | [] => Some ([], m)
  | op :: ops =>
      '(o, m) ← cm_step op m;
      '(os, m) ← cm_run ops m;
      Some (o :: os, m)
  end.
Fixpoint spec_run (ops : list cm_op) (s : spec) : list cm_out * spec :=
  match ops with
  | [] => ([], s)
  | op :: ops => let '(o, s) := spec_step op s in let '(os, s) := spec_run ops s in (o :: os, s)
  end.

Lemma cm_step_refines op m :
  cm_inv m -> exists m', cm_step op m = Some ((spec_step op (abs m)).1, m') /\ cm_inv m' /\
    abs m' = (spec_step op (abs m)).2.
Proof.
  intros Hm. destruct op as [k v|k|k|k| |n| |]; cbn [cm_step spec_step fst snd].
  - pose proof (Insert_refines k v m Hm) as Hi. destruct (Insert k v m) as [r m'].
    destruct Hi as [? ->]. eauto.
  - rewrite HasKey_refines by done. eauto.
  - rewrite Get_refines by done. simpl. eauto.
  - destruct (Erase_refines k m Hm) as (m' & -> & ? & ?). simpl. eauto.
  - pose proof (Clear_refines m Hm). eauto.
  - eexists. split; [done|]. split; [by destruct Hm|done].
  - eauto.
  - pose proof (copy_refines m Hm). eauto.
Qed.

Lemma cm_run_refines ops m :
  cm_inv m -> exists m', cm_run ops m = Some ((spec_run ops (abs m)).1, m') /\ cm_inv m' /\
    abs m' = (spec_run ops (abs m)).2.
Proof.
  revert m. induction ops as [|op ops IH]; intros m Hm; simpl; [eauto|].
  destruct (cm_step_refines op m Hm) as (m1 & -> & H1 & E1). simpl.
  destruct (IH m1 H1) as (m2 & -> & H2 & E2). simpl. rewrite E1 in *.
  destruct (spec_step op (abs m)) as [o s]. simpl in *. destruct (spec_run ops s) as [os s']. eauto.
Qed.
End CacheMap.
Arguments CacheMap K V {_ _}.
Arguments cm_op K V : clear implicits.

(** ** Consequences *)

Section Properties.
Context {K V : Type} `{Countable K}.

Definition Insert_all (l : list (K * V)) (m : CacheMap K V) : CacheMap K V :=
  foldl (λ m i, (Insert i.1 i.2 m).2) m l.

Lemma spec_Insert_recent (N : nat) (k : K) (v : V) (l : list (K * V)) :
  (0 < N)%nat -> k ∉ l.*1 ->
  (spec_Insert k v (Z.of_nat N, take N l)).2 = (Z.of_nat N, take N ((k, v) :: l)).
Proof.
  intros HN Hk. unfold spec_Insert. cbn [fst snd]. rewrite decide_False; [cbn [snd]|].
  - do 2 f_equal. destruct N as [|N]; [lia|]. simpl take at 4. f_equal.
    rewrite length_take. destruct (Z.eqb_spec (S N `min` length l)%nat (S N)) as [Hl|Hl].
    + rewrite removelast_firstn by lia. done.
    + rewrite !take_ge by lia. done.
  - intros Hin. apply Hk. rewrite <- (take_drop N l), fmap_app. set_solver.
Qed.

Lemma Insert_all_refines (N : nat) (l done_ : list (K * V)) (m : CacheMap K V) :
  (0 < N)%nat -> NoDup (done_ ++ l).*1 -> cm_inv m -> abs m = (Z.of_nat N, take N (rev done_)) ->
  abs (Insert_all l m) = (Z.of_nat N, take N (rev (done_ ++ l))).
Proof.
  intros HN. revert done_ m. induction l as [|[k v] l IH]; intros done_ m Hd Hm E; simpl.
  { by rewrite app_nil_r. }
  pose proof (Insert_refines k v m Hm) as Hi. destruct (Insert k v m) as [r m'].
  destruct Hi as [Hm' Hs]. simpl. rewrite (cons_middle _ _ l), (assoc_L (++)).
  apply IH; [by rewrite <- (assoc_L (++))|done|].
  change (abs m') with ((r, abs m').2). rewrite <- Hs, E, spec_Insert_recent; [|done|].
  - by rewrite rev_app_distr.
  - rewrite fmap_app, fmap_cons, <- Permutation_middle in Hd. apply NoDup_cons in Hd as [Hk _].
    rewrite list_elem_of_fmap. intros ([k' v'] & Ek & Hin). simpl in *. subst k'.
    rewrite <- (rev_involutive done_), elem_of_app in Hk. apply Hk. left.
    apply list_elem_of_fmap. exists (k, v'). split; [done|].
    apply list_elem_of_In, in_rev. rewrite rev_involutive. by apply list_elem_of_In.
Qed.

Definition resizes (op : cm_op K V) : bool := if op is op_SetMaxSize _ then true else false.

Lemma spec_step_bounded (op : cm_op K V) (s : spec) :
  resizes op = false -> 0 < s.1 -> length s.2 <= s.1 ->
  (spec_step op s).2.1 = s.1 /\ length (spec_step op s).2.2 <= s.1.
Proof.
  intros Hop Hs Hl. destruct op as [k v|k|k|k| |n| |]; try done; cbn [spec_step fst snd].
  - unfold spec_Insert. case_decide; [done|]. cbn [fst snd length]. split; [done|].
    destruct (Z.eqb_spec (length s.2) s.1); [|lia].
    rewrite removelast_firstn_len, length_take. lia.
  - split; [done|]. pose proof (length_filter (λ i : K * V, i.1 <> k) s.2). lia.
  - split; [done|]. simpl. lia.
Qed.

Lemma spec_run_bounded (ops : list (cm_op K V)) (s : spec) :
  forallb (λ op, negb (resizes op)) ops = true -> 0 < s.1 -> length s.2 <= s.1 ->
  (spec_run ops s).2.1 = s.1 /\ length (spec_run ops s).2.2 <= s.1.
Proof.
  revert s. induction ops as [|op ops IH]; intros s Hops Hs Hl; simpl in *; [done|].
  apply andb_prop in Hops as [Hop%negb_true_iff Hops].
  destruct (spec_step_bounded op s Hop Hs Hl) as [E1 E2].
  destruct (spec_step op s) as [o s']. simpl in *. specialize (IH s' Hops). rewrite E1 in IH.
  destruct (spec_run ops s') as [os s'']. simpl in *. by apply IH.
Qed.

(** On every sequence of calls starting from an empty cache, [CacheMap] behaves as a
    list of its items, newest first: no call dereferences or erases through a dangling
    iterator, every call returns what the list returns, and the items at the end are those of
    the list. *)
Theorem CacheMap_refines_list (nMaxSizeIn : Z) (ops : list (cm_op K V)) :
  exists m, cm_run ops (CacheMap_new nMaxSizeIn) = Some ((spec_run ops (nMaxSizeIn, [])).1, m) /\
    abs m = (spec_run ops (nMaxSizeIn, [])).2.
Proof.
  destruct (new_refines (K:=K) (V:=V) nMaxSizeIn) as [Hn En].
  destruct (cm_run_refines ops _ Hn) as (m & E & _ & Em). rewrite En in *. eauto.
Qed.

(** [CacheMap] keeps the [nMaxSize] most recently added items: it never holds more than
    that in any sequence of calls that does not change the maximum (and the maximum is not
    zero), and after inserting items with different keys it holds exactly the newest ones. *)
Theorem CacheMap_keeps_recent (N : nat) (ops : list (cm_op K V)) (l : list (K * V)) :
  (0 < N)%nat -> forallb (λ op, negb (resizes op)) ops = true -> NoDup l.*1 ->
  (exists outs m, cm_run ops (CacheMap_new N) = Some (outs, m) /\ length (GetItemList m) <= N) /\
  GetItemList (Insert_all l (CacheMap_new N)) = take N (rev l).
Proof.
  intros HN Hops Hd. destruct (new_refines (K:=K) (V:=V) N) as [Hn En]. split.
  - destruct (cm_run_refines ops _ Hn) as (m & E & _ & Em). do 2 eexists. split; [done|].
    change (GetItemList m) with (abs m).2. rewrite Em, En.
    apply (spec_run_bounded ops (Z.of_nat N, [])); [done|simpl; lia..].
  - change (GetItemList ?m) with (abs m).2.
    rewrite (Insert_all_refines N l [] _ HN); [done|done|done|]. simpl. by rewrite En, take_nil.
Qed.

(** A cache written with [Serialize] and read back with [Unserialize] has the same
    maximum and the same items in the same order, and its rebuilt index is consistent: what
    was found before is found again. *)
Theorem CacheMap_roundtrip (ck : codec K) (cv : codec V) `{!CodecLaws ck, !CodecLaws cv}
    (m : CacheMap K V) {S} `{IStreamLaws S} (s : S) (rest : list Z) :
  cm_inv m -> in_uint 32 (nMaxSize m) -> length (GetItemList m) <= MAX_SIZE ->
  Forall (representable (codec_CacheItem ck cv)) (GetItemList m) ->
  is_ok s -> is_pending s = written (Serialize (codec_CacheMap ck cv) m) ++ rest ->
  exists m' s', Unserialize (codec_CacheMap ck cv) s = (Ok m', s') /\ is_pending s' = rest /\
    abs m' = abs m /\ forall k, Get k m' = Get k m.
Proof.
  intros Hm Hn Hl Hr Hs.
  assert (representable (codec_list (codec_CacheItem ck cv)) (GetItemList m)) as Hrl by done.
  assert (emits (Serialize (codec_CacheMap ck cv) (S:=CDataStream) m) (WriteLE32 (nMaxSize m) ++
    encoding (codec_list (codec_CacheItem ck cv)) (GetItemList m))) as He.
  { apply emits_bind; [exact (Serialize_emits (c:=codec_uint32) (S:=CDataStream) _ Hn)|by apply Serialize_emits]. }
  rewrite (emits_written _ _ He). intros Hp.
  destruct (assigned_inv (nMaxSize m) (GetItemList m) StdList.nil ∅ StdList.wf_nil (inv_keys _ Hm))
    as [Hm' Em'].
  set (m' := RebuildIndex _) in *.
  assert (parses (Unserialize (codec_CacheMap ck cv) (S:=S)) (WriteLE32 (nMaxSize m) ++
    encoding (codec_list (codec_CacheItem ck cv)) (GetItemList m)) m') as Hpar.
  { eapply parses_bind; [exact (Unserialize_parses (c:=codec_uint32) (S:=S) _ Hn)|].
    eapply parses_bind_all; [by apply Unserialize_parses|apply parses_ret]. }
  destruct (Hpar s rest Hs Hp) as (s' & E & _ & Hrest). exists m', s'. split; [done|].
  split; [done|]. split; [done|]. intros k. by rewrite !Get_refines, Em' by done.
Qed.
End Properties.

Lemma CacheMap_keeps_recent_witness :
  GetItemList (Insert_all [(1, true); (2, false); (3, true)] (CacheMap_new 2%nat)) = [(3, true); (2, false)].
Proof.
  apply (CacheMap_keeps_recent 2 [] [(1, true); (2, false); (3, true)]); [lia|done|].
  by apply (bool_decide_unpack _).
Defined.

Definition example_cache : CacheMap Z Z := (Insert 5 50 (Insert 4 40 (CacheMap_new 2)).2).2.

Lemma CacheMap_roundtrip_witness :
  exists m' s', Unserialize (codec_CacheMap codec_uint8 codec_uint16)
      (DataStream.new [2; 0; 0; 0; 2; 5; 50; 0; 4; 40; 0; 9] 1 70219) = (Ok m', s') /\
    is_pending s' = [9] /\ abs m' = (2, [(5, 50); (4, 40)]) /\ Get 4 m' = Some (Some 40).
Proof.
  assert (cm_inv example_cache) as Hi.
  { unfold example_cache.
    pose proof (Insert_refines 4 40 (CacheMap_new 2) (proj1 (new_refines 2))) as H1.
    destruct (Insert 4 40 (CacheMap_new 2)) as [r1 m1]. destruct H1 as [H1 _].
    pose proof (Insert_refines 5 50 m1 H1) as H2.
    cbn [snd]. destruct (Insert 5 50 m1) as [r2 m2]. apply H2. }
  destruct (CacheMap_roundtrip codec_uint8 codec_uint16 example_cache
    (DataStream.new [2; 0; 0; 0; 2; 5; 50; 0; 4; 40; 0; 9] 1 70219) [9]) as (m' & s' & E & Hp & Ha & Hg).
  - exact Hi.
  - vm_compute. by split.
  - vm_compute. discriminate.
  - repeat constructor; simpl; unfold in_uint; lia.
  - repeat split; simpl; try lia. unfold bytes, in_uint. repeat constructor; lia.
  - vm_compute. reflexivity.
  - exists m', s'. split; [exact E|]. split; [exact Hp|]. split; [exact Ha|exact (Hg 4)].
Defined.

(** Lowering the maximum below the current size switches the bound off: the size never equals
    the maximum again, and nothing is pruned any more. *)
Example SetMaxSize_unbounded :
  let m := SetMaxSize 1 (Insert_all [(1, 1); (2, 2)] (CacheMap_new 2)) in
  length (GetItemList (Insert_all [(3, 3); (4, 4)] m)) = 4%nat /\ GetMaxSize m = 1.
Proof. by vm_compute. Qed.
