(* ===== verification/CacheMultiMap.v ===== *)
(** * CacheMultiMap: cachemultimap.h

    Like [CacheMap], with several values per key: the index maps a key to a [std::map] from
    values to iterators into the list of items.  [Insert] holds a reference to the inner map
    across a call to [PruneLast], which may destroy it; the model makes that use of a
    destroyed map undefined ([None]), and the specification says exactly when it happens. *)

From S2P Require Import Prelude StdContainers.
From stdpp Require Import sorting.
#[local] Open Scope Z_scope.

Module MultiMap.
Section MultiMap.
Context {K V : Type} `{Countable K, Countable V}.
(** The orders of the two maps ([std::less]). *)
Context (leK : relation K) (leV : relation V) `{!RelDecision leK, !RelDecision leV}.

Record CacheMultiMap := mkCacheMultiMap {
  nMaxSize : Z; (* uint32_t *)
  listItems : StdList.t (K * V);
  mapIndex : gmap K (gmap V nat);
}.

(** ** Operations *)

Definition CacheMultiMap_new (nMaxSizeIn : Z) : CacheMultiMap := mkCacheMultiMap nMaxSizeIn StdList.nil ∅.

Definition PruneLast (m : CacheMultiMap) : CacheMultiMap :=
  match StdList.back (listItems m) with
  | None => m
  | Some item =>
      let idx :=
        match mapIndex m !! item.1 with
        | Some mapIt =>
            let mapIt := delete item.2 mapIt in
            if decide (mapIt = ∅) then delete item.1 (mapIndex m) else <[item.1 := mapIt]> (mapIndex m)
        | None => mapIndex m
        end in
      mkCacheMultiMap (nMaxSize m) (StdList.pop_back (listItems m)) idx
  end.

Definition Clear (m : CacheMultiMap) : CacheMultiMap :=
  mkCacheMultiMap (nMaxSize m) (StdList.clear (listItems m)) ∅.
Definition SetMaxSize (nMaxSizeIn : Z) (m : CacheMultiMap) : CacheMultiMap :=
  mkCacheMultiMap nMaxSizeIn (listItems m) (mapIndex m).
Definition GetMaxSize (m : CacheMultiMap) : Z := nMaxSize m.
Definition GetSize (m : CacheMultiMap) : Z := u32 (StdList.size (listItems m)).
Definition GetItemList (m : CacheMultiMap) : list (K * V) := StdList.items (listItems m).

(** [mapIt] is a reference to the entry of [key]; the last step stores through it. *)
Definition Insert (key : K) (value : V) (m : CacheMultiMap) : option (bool * CacheMultiMap) :=
  let idx := emplace key ∅ (mapIndex m) in
  let m := mkCacheMultiMap (nMaxSize m) (listItems m) idx in
  mapIt ← idx !! key;
  if decide (is_Some (mapIt !! value)) then Some (false, m)
  else
    let m := if StdList.size (listItems m) =? nMaxSize m then PruneLast m else m in
    let l := StdList.push_front (key, value) (listItems m) in
    mapIt ← mapIndex m !! key;
    Some (true, mkCacheMultiMap (nMaxSize m) l
      (<[key := emplace value (StdList.begin l) mapIt]> (mapIndex m))).

Definition HasKey (key : K) (m : CacheMultiMap) : bool := bool_decide (is_Some (mapIndex m !! key)).

(** The value found, or [Some None] when the key is absent. *)
Definition Get (key : K) (m : CacheMultiMap) : option (option V) :=
  match mapIndex m !! key with
  | None => Some None
  | Some mapIt =>
      it ← head (ordered_elements leV mapIt);
      item ← StdList.deref it.2 (listItems m);
      Some (Some item.2)
  end.

Fixpoint GetAll_loop (its : list (V * nat)) (l : StdList.t (K * V)) (vecValues : list V) : option (list V) :=
  match its with
  | [] => Some vecValues
  | it :: its => item ← StdList.deref it.2 l; GetAll_loop its l (vecValues ++ [item.2])
  end.
Definition GetAll (key : K) (vecValues : list V) (m : CacheMultiMap) : option (bool * list V) :=
  match mapIndex m !! key with
  | None => Some (false, vecValues)
  | Some mapIt => v ← GetAll_loop (ordered_elements leV mapIt) (listItems m) vecValues; Some (true, v)
  end.

Definition GetKeys (vecKeys : list K) (m : CacheMultiMap) : list K :=
  vecKeys ++ (ordered_elements leK (mapIndex m)).*1.

Definition Erase (key : K) (m : CacheMultiMap) : option CacheMultiMap :=
  match mapIndex m !! key with
  | None => Some m
  | Some mapIt =>
      l ← erase_all (ordered_elements leV mapIt).*2 (listItems m);
      Some (mkCacheMultiMap (nMaxSize m) l (delete key (mapIndex m)))
  end.

Definition Erase_value (key : K) (value : V) (m : CacheMultiMap) : option CacheMultiMap :=
  match mapIndex m !! key with
  | None => Some m
  | Some mapIt =>
      match mapIt !! value with
      | None => Some m
      | Some it =>
          l ← StdList.erase it (listItems m);
          let mapIt := delete value mapIt in
          Some (mkCacheMultiMap (nMaxSize m) l
            (if decide (mapIt = ∅) then delete key (mapIndex m) else <[key := mapIt]> (mapIndex m)))
      end
  end.

Definition RebuildIndex_step (idx : gmap K (gmap V nat)) (n : nat * (K * V)) : gmap K (gmap V nat) :=
  let idx := emplace n.2.1 ∅ idx in
  alter (emplace n.2.2 n.1) n.2.1 idx.
Definition RebuildIndex (m : CacheMultiMap) : CacheMultiMap :=
  mkCacheMultiMap (nMaxSize m) (listItems m)
    (foldl RebuildIndex_step ∅ (StdList.nodes (listItems m))).

(** ** The invariant *)

Definition indexed (idx : gmap K (gmap V nat)) (ns : list (nat * (K * V))) : Prop :=
  forall k v it, (exists mi, idx !! k = Some mi /\ mi !! v = Some it) <-> (it, (k, v)) ∈ ns.

(** Every inner map has an entry, except possibly that of [o]. *)
Definition no_empty (o : option K) (idx : gmap K (gmap V nat)) : Prop :=
  forall k mi, o <> Some k -> idx !! k = Some mi -> mi <> ∅.

Record mm_inv (m : CacheMultiMap) : Prop := {
  inv_list : StdList.wf (listItems m);
  inv_items : NoDup (StdList.items (listItems m));
  inv_index : indexed (mapIndex m) (StdList.nodes (listItems m));
  inv_no_empty : no_empty None (mapIndex m);
}.

Lemma elem_of_items ns k v : (k, v) ∈ (ns.*2 : list (K * V)) <-> exists it : nat, (it, (k, v)) ∈ ns.
Proof.
  rewrite list_elem_of_fmap. split.
  - intros ([it ?] & -> & ?). eauto.
  - intros (it & ?). by exists (it, (k, v)).
Qed.

Lemma elem_of_item_keys (l : list (K * V)) k : k ∈ l.*1 <-> exists v, (k, v) ∈ l.
Proof.
  rewrite list_elem_of_fmap. split.
  - intros ([k' v] & -> & ?). eauto.
  - intros (v & ?). by exists (k, v).
Qed.

(** A key is in the index exactly when some item has it. *)
Lemma indexed_key idx ns o k :
  indexed idx ns -> no_empty o idx -> o <> Some k -> is_Some (idx !! k) <-> k ∈ ns.*2.*1.
Proof.
  intros Hi He Ho. rewrite elem_of_item_keys. setoid_rewrite elem_of_items. split.
  - intros [mi Hmi]. destruct (map_choose mi) as (v & it & Hv); [by eapply He|].
    exists v, it. apply Hi. eauto.
  - intros (v & it & Hin). apply Hi in Hin as (mi & -> & _). eauto.
Qed.

(** Dropping one node of the list and its entry in the inner map. *)
Definition drop_entry (k : K) (v : V) (idx : gmap K (gmap V nat)) : gmap K (gmap V nat) :=
  match idx !! k with
  | Some mi => let mi := delete v mi in if decide (mi = ∅) then delete k idx else <[k := mi]> idx
  | None => idx
  end.

Lemma drop_entry_lookup k v idx k' v' it :
  (exists mi, drop_entry k v idx !! k' = Some mi /\ mi !! v' = Some it) <->
  (k, v) <> (k', v') /\ exists mi, idx !! k' = Some mi /\ mi !! v' = Some it.
Proof.
  unfold drop_entry. destruct (idx !! k) as [mi|] eqn:E; [|naive_solver]. cbv zeta.
  destruct (decide (k' = k)) as [->|Hne].
  - rewrite E. case_decide as Hd.
    + rewrite lookup_delete_eq. split; [naive_solver|]. intros (Hkv & mi' & [= <-] & Hv).
      assert (v <> v') by congruence.
      assert (delete v mi !! v' = Some it) as Hv' by (by rewrite lookup_delete_ne).
      by rewrite Hd, lookup_empty in Hv'.
    + rewrite lookup_insert_eq. split.
      * intros (mi' & [= <-] & [Hvv Hv]%lookup_delete_Some). split; [congruence|eauto].
      * intros (Hkv & mi' & [= <-] & Hv). eexists. split; [done|]. apply lookup_delete_Some.
        split; [congruence|done].
  - case_decide; rewrite ?lookup_delete_ne, ?lookup_insert_ne by done; naive_solver.
Qed.

Lemma drop_entry_other k v idx k' : k <> k' -> drop_entry k v idx !! k' = idx !! k'.
Proof.
  intros Hne. unfold drop_entry. destruct (idx !! k); [|done]. cbv zeta.
  case_decide; by rewrite ?lookup_delete_ne, ?lookup_insert_ne.
Qed.

Lemma drop_entry_no_empty o k v idx : no_empty o idx -> no_empty o (drop_entry k v idx).
Proof.
  intros He k' mi' Ho. destruct (decide (k = k')) as [<-|Hne].
  - unfold drop_entry. destruct (idx !! k) as [mi|] eqn:E; [|congruence]. cbv zeta.
    case_decide; [by rewrite lookup_delete_eq|]. rewrite lookup_insert_eq. congruence.
  - rewrite drop_entry_other by done. by apply He.
Qed.

Lemma drop_entry_indexed idx l1 it k v l2 :
  NoDup (l1 ++ (it, (k, v)) :: l2).*2 -> indexed idx (l1 ++ (it, (k, v)) :: l2) ->
  indexed (drop_entry k v idx) (l1 ++ l2).
Proof.
  intros Hd Hi k' v' it'. rewrite drop_entry_lookup, (Hi k' v' it').
  rewrite fmap_app, fmap_cons, <- Permutation_middle, <- fmap_app in Hd.
  apply NoDup_cons in Hd as [Hn _]. simpl in Hn. rewrite elem_of_items in Hn.
  rewrite !elem_of_app, elem_of_cons. setoid_rewrite elem_of_app in Hn.
  split; [naive_solver|]. intros Hin. split; [|tauto]. intros [= <- <-]. eauto.
Qed.

(** Adding a node at the front and its entry. *)
Lemma add_entry_indexed idx mi it k v ns :
  idx !! k = Some mi -> mi !! v = None -> indexed idx ns ->
  indexed (<[k := <[v := it]> mi]> idx) ((it, (k, v)) :: ns).
Proof.
  intros Hk Hv Hi k' v' it'. rewrite elem_of_cons, <- (Hi k' v' it').
  destruct (decide (k' = k)) as [->|Hne].
  - rewrite lookup_insert_eq, Hk. destruct (decide (v' = v)) as [->|Hnv].
    + split.
      * intros (mi' & [= <-] & Hl). rewrite lookup_insert_eq in Hl. naive_solver.
      * intros [[= ->]|(mi' & [= <-] & Hl)]; [|congruence]. eexists. by rewrite lookup_insert_eq.
    + split.
      * intros (mi' & [= <-] & Hl). rewrite lookup_insert_ne in Hl by done. eauto.
      * intros [?|(mi' & [= <-] & Hl)]; [naive_solver|]. eexists.
        by rewrite lookup_insert_ne.
  - rewrite lookup_insert_ne by done. naive_solver.
Qed.

Lemma add_entry_no_empty idx k v it mi :
  no_empty (Some k) idx -> no_empty None (<[k := <[v := it]> mi]> idx).
Proof.
  intros He k' mi' _. destruct (decide (k = k')) as [<-|Hne].
  - rewrite lookup_insert_eq. intros [= <-]. apply insert_non_empty.
  - rewrite lookup_insert_ne by done. apply He. congruence.
Qed.

(** ** The specification: a list of items, newest first *)

Definition spec : Type := Z * list (K * V).
Definition abs (m : CacheMultiMap) : spec := (nMaxSize m, StdList.items (listItems m)).

Definition values (k : K) (l : list (K * V)) : list V := (filter (λ i, i.1 = k) l).*2.

(** Undefined exactly when pruning removes the only item that has the key being inserted. *)
Definition spec_Insert (k : K) (v : V) (s : spec) : option (bool * spec) :=
  if decide ((k, v) ∈ s.2) then Some (false, s)
  else
    let kept := if length s.2 =? s.1 then removelast s.2 else s.2 in
    if decide (k ∈ s.2.*1 /\ k ∉ kept.*1) then None else Some (true, (s.1, (k, v) :: kept)).

Definition spec_Get (k : K) (l : list (K * V)) : option V := head (merge_sort leV (values k l)).
Definition spec_GetAll (k : K) (vec : list V) (l : list (K * V)) : bool * list V :=
  if decide (k ∈ l.*1) then (true, vec ++ merge_sort leV (values k l)) else (false, vec).
Definition spec_GetKeys (vec : list K) (l : list (K * V)) : list K :=
  vec ++ merge_sort leK (remove_dups l.*1).

(** ** Each operation refines its specification *)

Lemma mm_new_refines n : mm_inv (CacheMultiMap_new n) /\ abs (CacheMultiMap_new n) = (n, []).
Proof.
  split; [|done]. constructor; [apply StdList.wf_nil|constructor|..].
  - intros k v it. simpl. setoid_rewrite lookup_empty. split; [naive_solver|]. by intros ?%not_elem_of_nil.
  - intros k mi _. simpl. by rewrite lookup_empty.
Qed.

Lemma mm_Clear_refines m : mm_inv m -> mm_inv (Clear m) /\ abs (Clear m) = ((abs m).1, []).
Proof.
  intros [Hw _ _ _]. split; [|done]. constructor; simpl; [by apply StdList.wf_clear|constructor|..].
  - intros k v it. setoid_rewrite lookup_empty. split; [naive_solver|]. by intros ?%not_elem_of_nil.
  - intros k mi _. by rewrite lookup_empty.
Qed.

(** [PruneLast] when the inner map of [o] may be empty. *)
Lemma mm_PruneLast_refines o m :
  StdList.wf (listItems m) -> NoDup (StdList.items (listItems m)) ->
  indexed (mapIndex m) (StdList.nodes (listItems m)) -> no_empty o (mapIndex m) ->
  let m' := PruneLast m in
  StdList.wf (listItems m') /\ NoDup (StdList.items (listItems m')) /\
  indexed (mapIndex m') (StdList.nodes (listItems m')) /\ no_empty o (mapIndex m') /\
  abs m' = ((abs m).1, removelast (abs m).2) /\
  forall k, k ∉ (abs m).2.*1 -> mapIndex m' !! k = mapIndex m !! k.
Proof.
  intros Hw Hd Hi He. unfold PruneLast, StdList.back.
  destruct (last (StdList.nodes (listItems m))) as [[it [k v]]|] eqn:E; cbn [fmap option_fmap option_map snd fst].
  - pose proof (StdList.nodes_snoc _ _ E) as En.
    assert (StdList.items (StdList.pop_back (listItems m)) = removelast (StdList.items (listItems m))) as Ei.
    { unfold StdList.items, StdList.pop_back. cbn [StdList.nodes]. revert En.
      generalize (removelast (StdList.nodes (listItems m))). intros r ->.
      rewrite fmap_app. cbn [fmap list_fmap]. by rewrite removelast_last. }
    fold (drop_entry k v (mapIndex m)). cbn [listItems mapIndex nMaxSize].
    split; [by apply StdList.wf_pop_back|].
    split; [rewrite Ei; by apply NoDup_removelast|]. split.
    { simpl. rewrite <- (app_nil_r (removelast _)). unfold StdList.items in Hd. rewrite En in Hd, Hi.
      by apply drop_entry_indexed with it. }
    split; [by apply drop_entry_no_empty|]. split; [unfold abs; simpl; by rewrite Ei|].
    intros k' Hk'. apply drop_entry_other. intros ->. apply Hk'. apply elem_of_item_keys. exists v.
    apply elem_of_items. exists it. rewrite En. set_solver.
  - apply last_None in E. do 4 (split; [done|]). split; [|done].
    unfold abs, StdList.items. by rewrite E.
Qed.

(** Making sure the key has an inner map. *)
Lemma open_entry k idx0 ns :
  indexed idx0 ns -> no_empty None idx0 ->
  let idx := emplace k ∅ idx0 in
  exists mi, idx !! k = Some mi /\ indexed idx ns /\
    no_empty (Some k) idx /\ (k ∈ ns.*2.*1 -> idx = idx0).
Proof.
  intros Hi He idx. unfold idx, emplace. destruct (idx0 !! k) as [mi|] eqn:E.
  - exists mi. split; [done|]. split; [done|]. split; [|done]. intros k' mi' _. by apply He.
  - exists ∅. rewrite lookup_insert_eq. split; [done|]. split; [|split].
    + intros k' v' it'. rewrite <- (Hi k' v' it'). destruct (decide (k = k')) as [<-|Hne].
      * rewrite lookup_insert_eq, E. split; [|naive_solver].
        intros (mi & [= <-] & Hl). by rewrite lookup_empty in Hl.
      * by rewrite lookup_insert_ne.
    + intros k' mi' Hne. rewrite lookup_insert_ne by congruence. by apply He.
    + intros Hin. apply (indexed_key _ _ None k Hi He) in Hin; [|done]. rewrite E in Hin.
      by destruct Hin.
Qed.

(** Pushing the new item and storing its iterator in the inner map. *)
Lemma push_entry k v m mi :
  StdList.wf (listItems m) -> NoDup (StdList.items (listItems m)) ->
  indexed (mapIndex m) (StdList.nodes (listItems m)) -> no_empty (Some k) (mapIndex m) ->
  mapIndex m !! k = Some mi -> (k, v) ∉ (abs m).2 ->
  let l := StdList.push_front (k, v) (listItems m) in
  let m' := mkCacheMultiMap (nMaxSize m) l (<[k := emplace v (StdList.begin l) mi]> (mapIndex m)) in
  mm_inv m' /\ abs m' = ((abs m).1, (k, v) :: (abs m).2).
Proof.
  intros Hw Hd Hi He Hmi Hkv l m'. split; [|done].
  assert (mi !! v = None) as Hv.
  { destruct (mi !! v) as [it|] eqn:E; [|done]. exfalso. apply Hkv, elem_of_items. exists it.
    apply Hi. eauto. }
  unfold m'. rewrite emplace_new by done. constructor; simpl.
  - by apply StdList.wf_push_front.
  - constructor; [done|done].
  - by apply add_entry_indexed.
  - by apply add_entry_no_empty.
Qed.

Lemma mm_Insert_refines k v m :
  mm_inv m ->
  match Insert k v m with
  | Some (r, m') => mm_inv m' /\ spec_Insert k v (abs m) = Some (r, abs m')
  | None => spec_Insert k v (abs m) = None
  end.
Proof.
  intros [Hw Hd Hi He]. unfold Insert, spec_Insert. cbn [listItems mapIndex nMaxSize].
  destruct (open_entry k _ _ Hi He) as (mi & Hmi & Hi1 & He1 & Hk1).
  set (idx := emplace k ∅ (mapIndex m)) in *.
  rewrite Hmi. cbn [mbind option_bind].
  assert (is_Some (mi !! v) <-> (k, v) ∈ (abs m).2) as Hmem.
  { unfold abs. simpl. unfold StdList.items. rewrite elem_of_items. unfold is_Some.
    setoid_rewrite <- (Hi1 k v). rewrite Hmi. naive_solver. }
  destruct (decide (is_Some (mi !! v))) as [Hv|Hv].
  { rewrite decide_True by tauto. assert (idx = mapIndex m) as ->; [|by destruct m].
    apply Hk1, elem_of_item_keys. exists v. tauto. }
  rewrite decide_False by tauto. cbv zeta.
  assert ((length (abs m).2 =? (abs m).1) = (StdList.size (listItems m) =? nMaxSize m)) as ->.
  { unfold abs, StdList.items, StdList.size. simpl. by rewrite length_fmap. }
  set (m1 := mkCacheMultiMap (nMaxSize m) (listItems m) idx).
  set (full := StdList.size (listItems m) =? nMaxSize m).
  set (m2 := if full then PruneLast m1 else m1).
  set (kept := if full then removelast (abs m).2 else (abs m).2).
  assert (forall o, no_empty o idx ->
    StdList.wf (listItems m2) /\ NoDup (StdList.items (listItems m2)) /\
    indexed (mapIndex m2) (StdList.nodes (listItems m2)) /\ no_empty o (mapIndex m2) /\
    abs m2 = ((abs m).1, kept) /\ (k ∉ (abs m).2.*1 -> mapIndex m2 !! k = Some mi)) as Hm2.
  { intros o Ho. unfold m2, kept. destruct full; [|done].
    destruct (mm_PruneLast_refines o m1) as (?&?&?&?&?&Hlk); [done..|]. do 5 (split; [done|]).
    intros Hk. rewrite Hlk by done. exact Hmi. }
  destruct (Hm2 (Some k) He1) as (Hw2 & Hd2 & Hi2 & He2 & Ea & Hk2).
  assert ((k, v) ∉ (abs m2).2) as Hkv2.
  { rewrite Ea. simpl. rewrite Hmem in Hv. intros Hin. apply Hv. unfold kept in Hin.
    destruct full; [by apply elem_of_removelast|done]. }
  destruct (decide (k ∈ (abs m).2.*1)) as [Hk|Hk].
  - rewrite (Hk1 Hk) in Hm2. destruct (Hm2 None He) as (_ & _ & _ & He3 & _ & _).
    pose proof (indexed_key _ _ None k Hi2 He3 ltac:(done)) as Hik.
    change ((StdList.nodes (listItems m2)).*2) with (abs m2).2 in Hik. rewrite Ea in Hik. simpl in Hik.
    destruct (mapIndex m2 !! k) as [mi2|] eqn:E2; simpl.
    + rewrite decide_False by (intros [_ Hn]; apply Hn, Hik; eauto).
      destruct (push_entry k v m2 mi2) as [Hinv Habs]; [done..|]. split; [done|].
      rewrite Ea in Habs. by rewrite Habs.
    + rewrite decide_True; [done|]. split; [done|]. intros [? ?]%Hik. done.
  - rewrite (Hk2 Hk). simpl. rewrite decide_False by tauto.
    destruct (push_entry k v m2 mi) as [Hinv Habs]; [done..|by apply Hk2|done|]. split; [done|].
    rewrite Ea in Habs. by rewrite Habs.
Qed.

Lemma mm_HasKey_refines k m : mm_inv m -> HasKey k m = bool_decide (k ∈ (abs m).2.*1).
Proof.
  intros [_ _ Hi He]. unfold HasKey. apply bool_decide_ext. by apply (indexed_key _ _ None k Hi He).
Qed.

Lemma elem_of_values k v (l : list (K * V)) : v ∈ values k l <-> (k, v) ∈ l.
Proof.
  unfold values. rewrite list_elem_of_fmap. setoid_rewrite list_elem_of_filter. split.
  - intros ([k' v'] & -> & Hk & ?). simpl in *. by subst.
  - intros ?. by exists (k, v).
Qed.

Lemma NoDup_values k (l : list (K * V)) : NoDup l -> NoDup (values k l).
Proof.
  intros Hd. unfold values. apply NoDup_fmap_2_strong; [|by apply NoDup_filter].
  intros [k1 v1] [k2 v2] [? _]%list_elem_of_filter [? _]%list_elem_of_filter ?. simpl in *. congruence.
Qed.

Context `{!Transitive leK, !AntiSymm (=) leK, !Total leK}.
Context `{!Transitive leV, !AntiSymm (=) leV, !Total leV}.

(** The inner map in order: the values of the key, sorted. *)
Lemma inner_values k m mi :
  mm_inv m -> mapIndex m !! k = Some mi ->
  (ordered_elements leV mi).*1 = merge_sort leV (values k (abs m).2).
Proof.
  intros [_ Hd Hi _] Hmi. refine (ordered_keys leV mi _ (NoDup_values k _ Hd) _). intros v.
  rewrite elem_of_values. unfold abs. simpl. unfold StdList.items. rewrite elem_of_items.
  setoid_rewrite <- (Hi k v). rewrite Hmi. unfold is_Some. naive_solver.
Qed.

(** Following the iterators of the inner map gives the values back. *)
Lemma inner_deref k m mi v it :
  mm_inv m -> mapIndex m !! k = Some mi -> (v, it) ∈ ordered_elements leV mi ->
  StdList.deref it (listItems m) = Some (k, v).
Proof.
  intros [Hw _ Hi _] Hmi Hin%elem_of_ordered. apply StdList.deref_node; [done|].
  apply Hi. eauto.
Qed.

Lemma absent_key k m : mm_inv m -> mapIndex m !! k = None -> k ∉ (abs m).2.*1.
Proof.
  intros [_ _ Hi He] E Hin. apply (indexed_key _ _ None k Hi He) in Hin; [|done]. rewrite E in Hin.
  by destruct Hin.
Qed.

Lemma present_key k m mi : mm_inv m -> mapIndex m !! k = Some mi -> k ∈ (abs m).2.*1.
Proof. intros [_ _ Hi He] E. apply (indexed_key _ _ None k Hi He); [done|]. eauto. Qed.

Lemma values_absent k (l : list (K * V)) : k ∉ l.*1 -> values k l = [].
Proof.
  intros Hk. destruct (values k l) as [|v vs] eqn:E; [done|]. exfalso. apply Hk, elem_of_item_keys.
  exists v. apply elem_of_values. rewrite E. set_solver.
Qed.

Lemma mm_Get_refines k m : mm_inv m -> Get k m = Some (spec_Get k (abs m).2).
Proof.
  intros Hm. unfold Get, spec_Get. destruct (mapIndex m !! k) as [mi|] eqn:E.
  - rewrite <- (inner_values k m mi Hm E).
    pose proof (λ v it, inner_deref k m mi v it Hm E) as Hder.
    destruct (ordered_elements leV mi) as [|[v it] l] eqn:Eo.
    + exfalso. destruct (map_choose mi) as (v & it & Hv); [by eapply (inv_no_empty m Hm)|].
      apply (elem_of_ordered leV) in Hv. rewrite Eo in Hv. by apply not_elem_of_nil in Hv.
    + simpl. rewrite (Hder v it) by set_solver. done.
  - by rewrite (values_absent k) by (by apply absent_key).
Qed.

Lemma GetAll_loop_spec k l its vec :
  (forall v it, (v, it) ∈ its -> StdList.deref it l = Some (k, v)) ->
  GetAll_loop its l vec = Some (vec ++ its.*1).
Proof.
  revert vec. induction its as [|[v it] its IH]; intros vec Hd; simpl; [by rewrite app_nil_r|].
  rewrite (Hd v it) by set_solver. simpl. rewrite IH by set_solver. by rewrite <- (assoc_L (++)).
Qed.

Lemma GetAll_refines k vec m : mm_inv m -> GetAll k vec m = Some (spec_GetAll k vec (abs m).2).
Proof.
  intros Hm. unfold GetAll, spec_GetAll. destruct (mapIndex m !! k) as [mi|] eqn:E.
  - rewrite (GetAll_loop_spec k) by eauto using inner_deref. simpl.
    rewrite (inner_values k m mi Hm E), decide_True; [done|]. by apply (present_key k m mi).
  - rewrite decide_False by (by apply absent_key). done.
Qed.

Lemma GetKeys_refines vec m : mm_inv m -> GetKeys vec m = spec_GetKeys vec (abs m).2.
Proof.
  intros [_ _ Hi He]. unfold GetKeys, spec_GetKeys. f_equal.
  refine (ordered_keys leK _ _ (NoDup_remove_dups _) _). intros k. rewrite elem_of_remove_dups.
  by apply (indexed_key _ _ None k Hi He).
Qed.

Lemma filter_items (P : K * V -> Prop) `{!forall x, Decision (P x)}
    `{!forall n : nat * (K * V), Decision (P n.2)} (ns : list (nat * (K * V))) :
  (filter (λ n, P n.2) ns).*2 = filter P ns.*2.
Proof.
  induction ns as [|n ns IH]; [done|]. rewrite fmap_cons, !filter_cons. repeat case_decide; try done.
  by rewrite fmap_cons, IH.
Qed.

Lemma mm_Erase_refines k m :
  mm_inv m -> exists m', Erase k m = Some m' /\ mm_inv m' /\
    abs m' = ((abs m).1, filter (λ i, i.1 <> k) (abs m).2).
Proof.
  intros Hm. pose proof Hm as [Hw Hd Hi He]. unfold Erase. destruct (mapIndex m !! k) as [mi|] eqn:E.
  - assert (forall it, it ∈ (ordered_elements leV mi).*2 <-> exists v, (it, (k, v)) ∈ StdList.nodes (listItems m)) as Hits.
    { intros it. rewrite list_elem_of_fmap. setoid_rewrite <- (Hi k). rewrite E. split.
      - intros ([v it'] & -> & Hv%elem_of_ordered). eauto.
      - intros (v & mi' & [= <-] & Hv). exists (v, it). split; [done|]. by apply elem_of_ordered. }
    destruct (erase_all_spec (ordered_elements leV mi).*2 (listItems m) Hw) as (l & -> & Hwl & El).
    { apply NoDup_fmap_2_strong; [|eapply NoDup_fmap_1, NoDup_ordered_keys].
      intros [v1 i1] [v2 i2] H1%elem_of_ordered H2%elem_of_ordered ?. simpl in *. subst i2.
      assert ((k, v1) = (k, v2)) as [= ->]; [|done].
      apply (StdList.node_unique (listItems m) i1); [done|apply Hi; eauto..]. }
    { intros it [v Hv]%Hits. by apply (list_elem_of_fmap_2 fst) in Hv. }
    assert (StdList.nodes l = filter (λ n, n.2.1 <> k) (StdList.nodes (listItems m))) as El'.
    { rewrite El. apply filter_ext_elem. intros [it [k' v]] Hin. simpl. rewrite Hits. split.
      - intros Hn ->. eauto.
      - intros Hne [v' Hv']. apply Hne. by injection (StdList.node_unique _ _ _ _ Hw Hin Hv') as -> ->. }
    simpl. eexists. split; [done|]. split.
    + constructor; simpl; [done|..].
      * unfold StdList.items. rewrite El', (filter_items (λ i, i.1 <> k)). by apply NoDup_filter.
      * intros k' v' it'. rewrite El', list_elem_of_filter, <- (Hi k' v' it'). simpl.
        setoid_rewrite lookup_delete_Some. naive_solver.
      * intros k' mi' _ [_ ?]%lookup_delete_Some. by eapply He.
    + unfold abs, StdList.items. simpl. by rewrite El', (filter_items (λ i, i.1 <> k)).
  - exists m. split; [done|]. split; [done|]. rewrite filter_all; [done|]. intros [k' v'] Hin Hk.
    simpl in Hk. subst k'. apply (absent_key k m Hm E), elem_of_item_keys. eauto.
Qed.

Lemma Erase_value_refines k v m :
  mm_inv m -> exists m', Erase_value k v m = Some m' /\ mm_inv m' /\
    abs m' = ((abs m).1, filter (λ i, i <> (k, v)) (abs m).2).
Proof.
  intros Hm. pose proof Hm as [Hw Hd Hi He].
  assert ((k, v) ∉ (abs m).2 -> abs m = ((abs m).1, filter (λ i, i <> (k, v)) (abs m).2)) as Hno.
  { intros Hkv. rewrite filter_all; [done|]. by intros i Hin ->. }
  unfold Erase_value. destruct (mapIndex m !! k) as [mi|] eqn:E.
  2:{ exists m. split; [done|]. split; [done|]. apply Hno. intros Hin.
      apply (absent_key k m Hm E), elem_of_item_keys. eauto. }
  destruct (mi !! v) as [it|] eqn:Ev.
  2:{ exists m. split; [done|]. split; [done|]. apply Hno. intros [it Hin]%elem_of_items.
      apply Hi in Hin as (mi' & ? & ?). congruence. }
  assert ((it, (k, v)) ∈ StdList.nodes (listItems m)) as Hin by (apply Hi; eauto).
  apply list_elem_of_split in Hin as (l1 & l2 & El). destruct m as [n [ns nx] idx].
  cbn [listItems mapIndex nMaxSize StdList.nodes] in *. subst ns.
  rewrite StdList.erase_middle by done. cbn [mbind option_bind].
  exists (mkCacheMultiMap n (StdList.mk (l1 ++ l2) nx) (drop_entry k v idx)).
  split; [unfold drop_entry; by rewrite E|].
  unfold StdList.items in *. cbn [StdList.nodes] in *. split.
  - constructor; simpl; [by apply StdList.wf_middle in Hw|..].
    + unfold StdList.items. simpl. rewrite fmap_app, fmap_cons, <- Permutation_middle, <- fmap_app in Hd.
      by apply NoDup_cons in Hd as [_ ?].
    + by apply drop_entry_indexed with it.
    + by apply drop_entry_no_empty.
  - unfold abs, StdList.items. simpl. f_equal. rewrite !fmap_app, fmap_cons in *. simpl in *.
    rewrite <- Permutation_middle in Hd. apply NoDup_cons in Hd as [Hn _].
    rewrite filter_app, filter_cons_False by auto.
    rewrite !filter_all; [done|..]; intros i Hin ->; set_solver.
Qed.

(** [RebuildIndex] indexes any list without repeated items. *)
Lemma RebuildIndex_step_indexed idx done_ it k v :
  indexed idx done_ -> no_empty None idx -> (k, v) ∉ done_.*2 ->
  let idx' := RebuildIndex_step idx (it, (k, v)) in
  indexed idx' (done_ ++ [(it, (k, v))]) /\ no_empty None idx'.
Proof.
  intros Hi He Hkv. unfold RebuildIndex_step. cbn [fst snd].
  destruct (open_entry k idx done_ Hi He) as (mi & Hmi & Hi1 & He1 & _).
  set (idx1 := emplace k ∅ idx) in *.
  assert (mi !! v = None) as Hv.
  { destruct (mi !! v) as [it'|] eqn:E; [|done]. exfalso. apply Hkv, elem_of_items. exists it'.
    apply Hi1. eauto. }
  assert (alter (emplace v it) k idx1 = <[k := <[v := it]> mi]> idx1) as ->.
  { rewrite <- (insert_id idx1 k mi) at 1 by done. rewrite alter_insert_eq. by rewrite emplace_new. }
  split; [|by apply add_entry_no_empty]. intros k' v' it'.
  rewrite (add_entry_indexed idx1 mi it k v done_ Hmi Hv Hi1 k' v' it').
  rewrite elem_of_cons, elem_of_app, list_elem_of_singleton. tauto.
Qed.

Lemma foldl_RebuildIndex ns idx done_ :
  indexed idx done_ -> no_empty None idx -> NoDup (done_ ++ ns).*2 ->
  indexed (foldl RebuildIndex_step idx ns) (done_ ++ ns) /\ no_empty None (foldl RebuildIndex_step idx ns).
Proof.
  revert idx done_. induction ns as [|[it [k v]] ns IH]; intros idx done_ Hi He Hd; simpl.
  { by rewrite app_nil_r. }
  rewrite (cons_middle _ _ ns), (assoc_L (++)) in Hd |- *.
  destruct (RebuildIndex_step_indexed idx done_ it k v Hi He) as [Hi' He'].
  { rewrite !fmap_app in Hd. apply NoDup_app in Hd as [Hd _]. apply NoDup_app in Hd as (_ & Hd & _).
    intros Hin. apply (Hd _ Hin). set_solver. }
  by apply IH.
Qed.

Lemma mm_RebuildIndex_inv n xs l idx :
  StdList.wf l -> NoDup xs ->
  let m := RebuildIndex (mkCacheMultiMap n (StdList.assign xs l) idx) in mm_inv m /\ abs m = (n, xs).
Proof.
  intros Hw Hd. pose proof (StdList.items_assign xs l) as Ei.
  destruct (foldl_RebuildIndex (StdList.nodes (StdList.assign xs l)) ∅ []) as [Hi He].
  - intros k v it. setoid_rewrite lookup_empty. split; [naive_solver|]. by intros ?%not_elem_of_nil.
  - intros k mi _. by rewrite lookup_empty.
  - change (NoDup (StdList.items (StdList.assign xs l))). by rewrite Ei.
  - split; [|unfold abs; simpl; by rewrite Ei].
    constructor; [by apply StdList.wf_assign|simpl; by rewrite Ei|done|done].
Qed.

(** ** Sequences of operations *)

Inductive mm_op :=
| op_Insert (k : K) (v : V) | op_HasKey (k : K) | op_Get (k : K) | op_GetAll (k : K) | op_GetKeys
| op_Erase (k : K) | op_Erase_value (k : K) (v : V) | op_Clear | op_SetMaxSize (n : Z) | op_GetItemList.

Inductive mm_out :=
| out_unit | out_bool (b : bool) | out_value (v : option V) | out_values (b : bool) (vs : list V)
| out_keys (ks : list K) | out_items (l : list (K * V)).

(** [None] when the operation's behaviour is undefined. *)
Definition mm_step (op : mm_op) (m : CacheMultiMap) : option (mm_out * CacheMultiMap) :=
  match op with
  | op_Insert k v => '(r, m) ← Insert k v m; Some (out_bool r, m)
  | op_HasKey k => Some (out_bool (HasKey k m), m)
  | op_Get k => v ← Get k m; Some (out_value v, m)
  | op_GetAll k => '(b, vs) ← GetAll k [] m; Some (out_values b vs, m)
  | op_GetKeys => Some (out_keys (GetKeys [] m), m)
  | op_Erase k => m ← Erase k m; Some (out_unit, m)
  | op_Erase_value k v => m ← Erase_value k v m; Some (out_unit, m)
  | op_Clear => Some (out_unit, Clear m)
  | op_SetMaxSize n => Some (out_unit, SetMaxSize n m)
  | op_GetItemList => Some (out_items (GetItemList m), m)
  end.

Definition spec_step (op : mm_op) (s : spec) : option (mm_out * spec) :=
  match op with
  | op_Insert k v => '(r, s) ← spec_Insert k v s; Some (out_bool r, s)
  | op_HasKey k => Some (out_bool (bool_decide (k ∈ s.2.*1)), s)
  | op_Get k => Some (out_value (spec_Get k s.2), s)
  | op_GetAll k => let '(b, vs) := spec_GetAll k [] s.2 in Some (out_values b vs, s)
  | op_GetKeys => Some (out_keys (spec_GetKeys [] s.2), s)
  | op_Erase k => Some (out_unit, (s.1, filter (λ i, i.1 <> k) s.2))
  | op_Erase_value k v => Some (out_unit, (s.1, filter (λ i, i <> (k, v)) s.2))
  | op_Clear => Some (out_unit, (s.1, []))
  | op_SetMaxSize n => Some (out_unit, (n, s.2))
  | op_GetItemList => Some (out_items s.2, s)
  end.

(** The outputs of a sequence of calls and the final state. *)
Fixpoint run {S} (step : mm_op -> S -> option (mm_out * S)) (ops : list mm_op) (s : S) :
    option (list mm_out * S) :=
  match ops with
  | [] => Some ([], s)
  | op :: ops => '(o, s) ← step op s; '(os, s) ← run step ops s; Some (o :: os, s)
  end.

Lemma mm_step_refines op m :
  mm_inv m ->
  match mm_step op m with
  | Some (o, m') => mm_inv m' /\ spec_step op (abs m) = Some (o, abs m')
  | None => spec_step op (abs m) = None
  end.
Proof.
  intros Hm. destruct op as [k v|k|k|k| |k|k v| |n|]; cbn [mm_step spec_step].
  - pose proof (mm_Insert_refines k v m Hm) as Hi. destruct (Insert k v m) as [[r m']|]; simpl.
    + destruct Hi as [? ->]. done.
    + by rewrite Hi.
  - by rewrite mm_HasKey_refines.
  - rewrite mm_Get_refines by done. done.
  - rewrite GetAll_refines by done. simpl. by destruct (spec_GetAll k [] _).
  - by rewrite GetKeys_refines.
  - destruct (mm_Erase_refines k m Hm) as (m' & -> & ? & E). simpl. split; [done|]. by rewrite E.
  - destruct (Erase_value_refines k v m Hm) as (m' & -> & ? & E). simpl. split; [done|]. by rewrite E.
  - split; [by apply mm_Clear_refines|done].
  - by destruct Hm.
  - done.
Qed.

Lemma mm_run_refines ops m :
  mm_inv m -> prod_map id abs <$> run mm_step ops m = run spec_step ops (abs m).
Proof.
  revert m. induction ops as [|op ops IH]; intros m Hm; [done|]. cbn [run].
  pose proof (mm_step_refines op m Hm) as Hs. destruct (mm_step op m) as [[o m1]|].
  - destruct Hs as [H1 ->]. cbn [mbind option_bind]. rewrite <- (IH m1 H1).
    by destruct (run mm_step ops m1) as [[os m2]|].
  - by rewrite Hs.
Qed.

(** C38: On every sequence of calls starting from an empty cache, [CacheMultiMap] behaves as a
    list of distinct items, newest first ([Get] and [GetAll] give the values of a key in
    increasing order, [GetKeys] the keys in increasing order), and its behaviour is undefined
    exactly where the specification's is: when [Insert] has to prune and the item pruned is
    the only one with the key being inserted, in which case it stores through a reference to
    an inner map that pruning has just destroyed. *)
Theorem CacheMultiMap_refines_list (nMaxSizeIn : Z) (ops : list mm_op) :
  prod_map id abs <$> run mm_step ops (CacheMultiMap_new nMaxSizeIn) =
    run spec_step ops (nMaxSizeIn, []).
Proof.
  destruct (mm_new_refines nMaxSizeIn) as [Hn En]. rewrite <- En. by apply mm_run_refines.
Qed.
End MultiMap.

Lemma CacheMultiMap_refines_list_witness :
  let ops := [op_Insert 7 2; op_Insert 7 1; op_Insert 8 5; op_GetAll 7; op_GetKeys] in
  prod_map id abs <$> run (mm_step Z.le Z.le) ops (CacheMultiMap_new 2) =
    Some ([out_bool true; out_bool true; out_bool true; out_values true [1]; out_keys [7; 8]],
          (2, [(8, 5); (7, 1)])).
Proof.
  cbv zeta.
  rewrite (CacheMultiMap_refines_list Z.le Z.le 2
    [op_Insert 7 2; op_Insert 7 1; op_Insert 8 5; op_GetAll 7; op_GetKeys]).
  vm_compute. reflexivity.
Defined.

(** The undefined case: a cache of one item, and a second value for the same key. *)
Example Insert_dangling :
  let new := CacheMultiMap_new (K:=Z) (V:=Z) 1 in
  (Insert 7 1 new ≫= λ r, Insert 7 2 r.2) = None.
Proof. by vm_compute. Qed.
End MultiMap.
