(* ===== verification/LruCache.v ===== *)
(** * Size-limited hash maps: unordered_lru_cache.h and limitedmap.h

    [unordered_lru_cache] stamps every entry with an access counter and, when it has grown
    past its threshold, keeps the [maxSize] entries with the highest stamps;
    [unordered_limitedmap] drops the entries with the lowest values.  Both walk a hash map in
    an order the standard does not fix and sort with [std::sort], which may leave equal
    elements in any order: the two are arguments here, constrained only by what the standard
    promises of them. *)

From S2P Require Import Prelude StdContainers.
From stdpp Require Import sorting.
#[local] Open Scope Z_scope.

(** What [std::sort] with the comparison [comp] promises. *)
Class StdSort {A} (comp : A -> A -> Prop) (sort : list A -> list A) : Prop := {
  sort_Permutation l : sort l ≡ₚ l;
  sort_sorted l : StronglySorted (λ x y, ~ comp y x) (sort l);
}.

(** What iterating over a hash map from [begin()] to [end()] promises. *)
Class HashIteration {K A} `{Countable K} (iterate : gmap K A -> list (K * A)) : Prop :=
  iterate_Permutation m : iterate m ≡ₚ map_to_list m.

(** [map.erase(it)] for the given iterators, that is, their keys. *)
Definition erase_keys {K A} `{Countable K} (l : list (K * A)) (m : gmap K A) : gmap K A :=
  foldl (λ m p, delete p.1 m) m l.

Section erase_keys.
Context {K A : Type} `{Countable K}.
Implicit Types (m : gmap K A) (l : list (K * A)).

Lemma lookup_erase_keys l m k :
  erase_keys l m !! k = if decide (k ∈ l.*1) then None else m !! k.
Proof.
  unfold erase_keys. revert m. induction l as [|[k' a] l IH]; intros m; simpl; [done|].
  rewrite IH. destruct (decide (k ∈ l.*1)) as [Hin|Hin].
  - rewrite decide_True by set_solver. done.
  - destruct (decide (k = k')) as [->|Hne].
    + rewrite decide_True by set_solver. apply lookup_delete_eq.
    + rewrite decide_False by set_solver. by apply lookup_delete_ne.
Qed.

(** Erasing the tail of an enumeration leaves its head. *)
Lemma erase_keys_split m l1 l2 :
  l1 ++ l2 ≡ₚ map_to_list m -> erase_keys l2 m = list_to_map l1.
Proof.
  intros Hp. assert (NoDup (l1 ++ l2).*1) as Hd by (rewrite Hp; apply NoDup_fst_map_to_list).
  assert (forall k a, m !! k = Some a <-> (k, a) ∈ l1 ++ l2) as Hm.
  { intros k a. by rewrite Hp, elem_of_map_to_list. }
  rewrite fmap_app, NoDup_app in Hd. destruct Hd as (Hd1 & Hd12 & Hd2).
  apply map_eq. intros k. rewrite lookup_erase_keys. case_decide as Hin.
  - symmetry. apply not_elem_of_list_to_map_1. intros Hin'. by apply (Hd12 k).
  - apply option_eq. intros a. rewrite Hm, elem_of_app, <- elem_of_list_to_map by done. split; [|auto].
    intros [?|Hin2]; [done|]. exfalso. apply Hin. by apply (list_elem_of_fmap_2 fst) in Hin2.
Qed.
End erase_keys.

(** Sorted lists. *)
Section sorted.
Context {A : Type}.
Implicit Types (R : relation A) (l : list A).

Lemma StronglySorted_impl R R' l :
  (forall x y, R x y -> R' x y) -> StronglySorted R l -> StronglySorted R' l.
Proof.
  intros HR. induction 1 as [|x l Hs IH Hx]; constructor; [done|].
  eapply Forall_impl; [done|]. auto.
Qed.

Lemma StronglySorted_filter R (P : A -> Prop) `{forall x, Decision (P x)} l :
  StronglySorted R l -> StronglySorted R (filter P l).
Proof.
  induction 1 as [|x l Hs IH Hx]; [constructor|]. rewrite filter_cons. case_decide; [|done].
  constructor; [done|]. rewrite Forall_forall in *. intros y [_ ?]%list_elem_of_filter. auto.
Qed.

Lemma StronglySorted_take R (n : nat) l : StronglySorted R l -> StronglySorted R (take n l).
Proof. rewrite <- (take_drop n l) at 1. apply StronglySorted_app_1_l. Qed.
End sorted.

Section enumerations.
Context {K A : Type} `{Countable K}.
Implicit Types (m : gmap K A) (l : list (K * A)).

Lemma enumerates_iff l m :
  l ≡ₚ map_to_list m <-> NoDup l.*1 /\ forall k a, (k, a) ∈ l <-> m !! k = Some a.
Proof.
  split.
  - intros Hp. split; [rewrite Hp; apply NoDup_fst_map_to_list|].
    intros k a. by rewrite Hp, elem_of_map_to_list.
  - intros [Hd Hl]. apply NoDup_Permutation; [by eapply NoDup_fmap_1|apply NoDup_map_to_list|].
    intros [k a]. by rewrite Hl, elem_of_map_to_list.
Qed.

Lemma enumerates_delete l m k :
  l ≡ₚ map_to_list m -> filter (λ e, e.1 <> k) l ≡ₚ map_to_list (delete k m).
Proof.
  rewrite !enumerates_iff. intros [Hd Hl]. split.
  - eapply sublist_NoDup; [done|]. apply fmap_sublist, sublist_filter.
  - intros k' a. rewrite list_elem_of_filter, Hl, lookup_delete_Some. simpl. naive_solver.
Qed.

Lemma enumerates_insert l m k a :
  l ≡ₚ map_to_list m -> (k, a) :: filter (λ e, e.1 <> k) l ≡ₚ map_to_list (<[k := a]> m).
Proof.
  intros Hp%(enumerates_delete _ _ k). rewrite Hp, <- insert_delete_eq.
  symmetry. apply map_to_list_insert, lookup_delete_eq.
Qed.

Lemma enumerates_erase l1 l2 m : l1 ++ l2 ≡ₚ map_to_list m -> l1 ≡ₚ map_to_list (erase_keys l2 m).
Proof.
  intros Hp. rewrite (erase_keys_split m l1 l2 Hp). symmetry. apply map_to_list_to_map.
  apply enumerates_iff in Hp as [Hd _]. rewrite fmap_app in Hd. by apply NoDup_app in Hd as [? _].
Qed.

Lemma length_enumerates l m : l ≡ₚ map_to_list m -> length l = size m.
Proof. intros Hp. rewrite Hp. apply length_map_to_list. Qed.
End enumerations.

(** ** unordered_lru_cache *)

Module Lru.
Section Lru.
Context {Key Value : Type} `{Countable Key}.

(** [sort] is [std::sort] on the comparison of [truncate_if_needed]. *)
Abbreviation entry := (Key * (Value * Z))%type.
Definition later (x y : entry) : Prop := x.2.2 > y.2.2.

Context (iterate : gmap Key (Value * Z) -> list entry) (sort : list entry -> list entry).

Record unordered_lru_cache := mkLru {
  cacheMap : gmap Key (Value * Z);
  maxSize : Z; (* size_t *)
  truncateThreshold : Z; (* size_t *)
  accessCounter : Z; (* int64_t *)
}.

(** The constructor and [setMaxSize]; [None] when the assertion fails. *)
Definition threshold (_maxSize _truncateThreshold : Z) : Z :=
  if _truncateThreshold =? 0 then u64 (_maxSize * 2) else _truncateThreshold.
Definition new (_maxSize _truncateThreshold : Z) : option unordered_lru_cache :=
  if _maxSize =? 0 then None
  else Some (mkLru ∅ _maxSize (threshold _maxSize _truncateThreshold) 0).
Definition setMaxSize (_maxSize _truncateThreshold : Z) (c : unordered_lru_cache) :
    option unordered_lru_cache :=
  if _maxSize =? 0 then None
  else Some (mkLru (cacheMap c) _maxSize (threshold _maxSize _truncateThreshold) (accessCounter c)).

Definition getMaxSize (c : unordered_lru_cache) : Z := maxSize c.
Definition lru_size (c : unordered_lru_cache) : Z := i32 (size (cacheMap c)).

Definition truncate_if_needed (c : unordered_lru_cache) : unordered_lru_cache :=
  if size (cacheMap c) <=? truncateThreshold c then c
  else
    let vec := sort (iterate (cacheMap c)) in
    mkLru (erase_keys (drop (Z.to_nat (maxSize c)) vec) (cacheMap c))
      (maxSize c) (truncateThreshold c) (accessCounter c).

(** Store [v] under [key] with the current counter, and advance it. *)
Definition stamp (key : Key) (v : Value) (c : unordered_lru_cache) : unordered_lru_cache :=
  mkLru (<[key := (v, accessCounter c)]> (cacheMap c)) (maxSize c) (truncateThreshold c)
    (i64 (accessCounter c + 1)).

(** [emplace] and [insert]: the branches for a new and a present key both store the pair. *)
Definition _emplace (key : Key) (v : Value) (c : unordered_lru_cache) : unordered_lru_cache :=
  stamp key v (truncate_if_needed c).

Definition get (key : Key) (c : unordered_lru_cache) : option Value * unordered_lru_cache :=
  match cacheMap c !! key with
  | Some (v, _) => (Some v, stamp key v c)
  | None => (None, c)
  end.
Definition exists_ (key : Key) (c : unordered_lru_cache) : bool * unordered_lru_cache :=
  match cacheMap c !! key with
  | Some (v, _) => (true, stamp key v c)
  | None => (false, c)
  end.
Definition erase (key : Key) (c : unordered_lru_cache) : unordered_lru_cache :=
  mkLru (delete key (cacheMap c)) (maxSize c) (truncateThreshold c) (accessCounter c).
Definition clear (c : unordered_lru_cache) : unordered_lru_cache :=
  mkLru ∅ (maxSize c) (truncateThreshold c) (accessCounter c).

(** *** The specification: the entries in order of their last access, newest first *)

Record spec := mkSpec { s_max : Z; s_threshold : Z; s_recent : list (Key * Value) }.

Definition others (k : Key) (l : list (Key * Value)) : list (Key * Value) := filter (λ i, i.1 <> k) l.
Definition spec_lookup (k : Key) (l : list (Key * Value)) : option Value :=
  (λ p, p.2.2) <$> list_find (λ i, i.1 = k) l.
Definition touch (k : Key) (v : Value) (s : spec) : spec :=
  mkSpec (s_max s) (s_threshold s) ((k, v) :: others k (s_recent s)).
Definition spec_truncate (s : spec) : spec :=
  if length (s_recent s) <=? s_threshold s then s
  else mkSpec (s_max s) (s_threshold s) (take (Z.to_nat (s_max s)) (s_recent s)).

(** Entries in order of their stamps. *)
Definition unstamp (e : entry) : Key * Value := (e.1, e.2.1).
Definition lru_rel (c : unordered_lru_cache) (s : spec) : Prop :=
  exists es : list entry,
    es ≡ₚ map_to_list (cacheMap c) /\ StronglySorted later es /\
    Forall (λ e, e.2.2 < accessCounter c) es /\
    s = mkSpec (maxSize c) (truncateThreshold c) (unstamp <$> es).

Context `{!StdSort later sort, !HashIteration iterate}.

Lemma later_unique es x y :
  StronglySorted later es -> x ∈ es -> y ∈ es -> x.2.2 = y.2.2 -> x = y.
Proof.
  unfold later. induction 1 as [|e es Hs IH He]; [by intros ?%not_elem_of_nil|].
  rewrite Forall_forall in He. rewrite !elem_of_cons.
  intros [->|Hx] [->|Hy] E; [done|specialize (He y Hy); lia|specialize (He x Hx); lia|auto].
Qed.

(** The sorted iterators are the entries in order of their stamps, as stamps differ. *)
Lemma sort_recent es m :
  es ≡ₚ map_to_list m -> StronglySorted later es -> sort (iterate m) = es.
Proof.
  intros Hp Hs. apply (StronglySorted_unique_strong (λ x y, ~ later y x)).
  - intros x y Hx Hy Hxy Hyx. unfold later in *. apply (later_unique es); [done| |done|lia].
    by rewrite Hp, <- iterate_Permutation, <- (sort_Permutation (sort:=sort)).
  - apply sort_sorted.
  - eapply StronglySorted_impl; [|done]. unfold later. simpl. lia.
  - by rewrite (sort_Permutation (sort:=sort)), iterate_Permutation, Hp.
Qed.

Lemma truncate_refines c s : lru_rel c s -> lru_rel (truncate_if_needed c) (spec_truncate s).
Proof.
  intros (es & Hp & Hs & Hc & ->). unfold truncate_if_needed, spec_truncate. cbn [s_recent s_max s_threshold].
  rewrite length_fmap, (length_enumerates es _ Hp). destruct (_ <=? _) eqn:E; [by exists es|].
  rewrite (sort_recent es _ Hp Hs). exists (take (Z.to_nat (maxSize c)) es). simpl. split_and!.
  - apply enumerates_erase. by rewrite take_drop.
  - by apply StronglySorted_take.
  - by apply Forall_take.
  - by rewrite fmap_take.
Qed.

Lemma unstamp_others k es : unstamp <$> filter (λ e, e.1 <> k) es = others k (unstamp <$> es).
Proof.
  unfold others. induction es as [|[k' a] es IH]; [done|]. rewrite fmap_cons, !filter_cons.
  cbn [unstamp fst]. case_decide; [|done]. by rewrite fmap_cons, IH.
Qed.

Lemma stamp_refines k v c s :
  accessCounter c + 1 < 2 ^ 63 -> 0 <= accessCounter c -> lru_rel c s -> lru_rel (stamp k v c) (touch k v s).
Proof.
  intros Hb Hn (es & Hp & Hs & Hc & ->).
  exists ((k, (v, accessCounter c)) :: filter (λ e, e.1 <> k) es). unfold stamp. simpl.
  rewrite sint_small by (unfold in_sint; lia). split_and!.
  - by apply enumerates_insert.
  - constructor; [by apply StronglySorted_filter|]. rewrite Forall_forall in *.
    intros e [_ He]%list_elem_of_filter. specialize (Hc e He). unfold later. simpl. lia.
  - constructor; [simpl; lia|]. rewrite Forall_forall in *. intros e [_ He]%list_elem_of_filter.
    specialize (Hc e He). simpl in *. lia.
  - unfold touch. simpl. by rewrite unstamp_others.
Qed.

Lemma lookup_refines k c s : lru_rel c s -> spec_lookup k (s_recent s) = fst <$> cacheMap c !! k.
Proof.
  intros (es & Hp & _ & _ & ->). simpl. apply enumerates_iff in Hp as [Hd Hl]. unfold spec_lookup.
  destruct (list_find (λ i : Key * Value, i.1 = k) (unstamp <$> es)) as [[j i]|] eqn:E; simpl.
  - apply list_find_Some in E as (Hi & <- & _). apply list_lookup_fmap_Some in Hi as ([k' [v n]] & -> & Hin).
    simpl. apply list_elem_of_lookup_2, Hl in Hin. by rewrite Hin.
  - destruct (cacheMap c !! k) as [[v n]|] eqn:Em; [|done]. apply Hl in Em. exfalso.
    apply list_find_None in E. rewrite Forall_forall in E.
    apply (E (k, v)); [|done]. by apply (list_elem_of_fmap_2 unstamp) in Em.
Qed.

(** *** Sequences of operations *)

Inductive lru_op :=
| op_emplace (k : Key) (v : Value) | op_get (k : Key) | op_exists (k : Key) | op_erase (k : Key)
| op_clear | op_setMaxSize (m t : Z).

Inductive lru_out := out_unit | out_bool (b : bool) | out_value (v : option Value).

(** [None] when an assertion fails. *)
Definition lru_step (op : lru_op) (c : unordered_lru_cache) : option (lru_out * unordered_lru_cache) :=
  match op with
  | op_emplace k v => Some (out_unit, _emplace k v c)
  | op_get k => let '(v, c) := get k c in Some (out_value v, c)
  | op_exists k => let '(b, c) := exists_ k c in Some (out_bool b, c)
  | op_erase k => Some (out_unit, erase k c)
  | op_clear => Some (out_unit, clear c)
  | op_setMaxSize m t => c ← setMaxSize m t c; Some (out_unit, c)
  end.

Definition spec_step (op : lru_op) (s : spec) : option (lru_out * spec) :=
  match op with
  | op_emplace k v => Some (out_unit, touch k v (spec_truncate s))
  | op_get k =>
      let r := spec_lookup k (s_recent s) in
      Some (out_value r, if r is Some v then touch k v s else s)
  | op_exists k =>
      let r := spec_lookup k (s_recent s) in
      Some (out_bool (bool_decide (is_Some r)), if r is Some v then touch k v s else s)
  | op_erase k => Some (out_unit, mkSpec (s_max s) (s_threshold s) (others k (s_recent s)))
  | op_clear => Some (out_unit, mkSpec (s_max s) (s_threshold s) [])
  | op_setMaxSize m t =>
      if m =? 0 then None else Some (out_unit, mkSpec m (threshold m t) (s_recent s))
  end.

Fixpoint run {S} (step : lru_op -> S -> option (lru_out * S)) (ops : list lru_op) (s : S) :
    option (list lru_out * S) :=
  match ops with
  | [] => Some ([], s)
  | op :: ops => '(o, s) ← step op s; '(os, s) ← run step ops s; Some (o :: os, s)
  end.

(** The counter advances by at most one per call. *)
Definition counter_ok (n : Z) (c : unordered_lru_cache) : Prop :=
  0 <= accessCounter c /\ accessCounter c + n < 2 ^ 63.

Lemma stamp_counter n k v c : 0 <= n -> counter_ok (n + 1) c -> counter_ok n (stamp k v c).
Proof.
  unfold counter_ok. intros Hn Hc. simpl. rewrite sint_small by (unfold in_sint; lia). lia.
Qed.

Lemma truncate_counter n c : counter_ok n c -> counter_ok n (truncate_if_needed c).
Proof. unfold truncate_if_needed. by destruct (_ <=? _). Qed.

Lemma lru_step_refines n op c s :
  0 <= n -> counter_ok (n + 1) c -> lru_rel c s ->
  match lru_step op c with
  | Some (o, c') => counter_ok n c' /\ exists s', spec_step op s = Some (o, s') /\ lru_rel c' s'
  | None => spec_step op s = None
  end.
Proof.
  intros Hn Hc Hr. assert (counter_ok n c) as Hc' by (unfold counter_ok in *; lia).
  pose proof (λ k, lookup_refines k c s Hr) as Hlk.
  assert (forall k v, counter_ok n (stamp k v c) /\ lru_rel (stamp k v c) (touch k v s)) as Hst.
  { intros k v. split; [by apply stamp_counter|]. apply stamp_refines; [..|done]; unfold counter_ok in Hc; lia. }
  destruct op as [k v|k|k|k| |m t]; cbn [lru_step spec_step].
  - split; [by apply stamp_counter, truncate_counter|]. eexists. split; [done|].
    apply truncate_counter in Hc. unfold counter_ok in Hc. unfold _emplace.
    apply stamp_refines; [lia|lia|by apply truncate_refines].
  - rewrite Hlk. unfold get. destruct (cacheMap c !! k) as [[v t]|]; simpl; [|by eauto].
    split; [apply Hst|]. eexists. split; [done|apply Hst].
  - rewrite Hlk. unfold exists_. destruct (cacheMap c !! k) as [[v t]|]; simpl; [|by eauto].
    split; [apply Hst|]. eexists. split; [done|apply Hst].
  - split; [done|]. eexists. split; [done|]. destruct Hr as (es & Hp & Hs & Hf & ->).
    exists (filter (λ e, e.1 <> k) es). simpl. split_and!.
    + by apply enumerates_delete.
    + by apply StronglySorted_filter.
    + rewrite Forall_forall in *. intros e [_ ?]%list_elem_of_filter. auto.
    + by rewrite unstamp_others.
  - split; [done|]. eexists. split; [done|]. destruct Hr as (es & Hp & Hs & Hf & ->).
    exists []. simpl. rewrite map_to_list_empty. by repeat constructor.
  - unfold setMaxSize. destruct (m =? 0); simpl; [done|]. split; [done|]. eexists. split; [done|].
    destruct Hr as (es & Hp & Hs & Hf & ->). by exists es.
Qed.

Lemma lru_run_refines ops c s :
  counter_ok (length ops) c -> lru_rel c s ->
  match run lru_step ops c with
  | Some (os, c') => exists s', run spec_step ops s = Some (os, s') /\ lru_rel c' s'
  | None => run spec_step ops s = None
  end.
Proof.
  revert c s. induction ops as [|op ops IH]; intros c s Hc Hr; cbn [run]; [eauto|].
  pose proof (lru_step_refines (length ops) op c s) as Hst.
  destruct (lru_step op c) as [[o c']|]; cbn [mbind option_bind].
  - destruct Hst as (Hc' & s' & -> & Hr'); [lia|simpl in Hc; unfold counter_ok in *; lia|done|].
    cbn [mbind option_bind]. specialize (IH c' s' Hc' Hr').
    destruct (run lru_step ops c') as [[os c'']|]; cbn [mbind option_bind].
    + destruct IH as (s'' & -> & ?). simpl. eauto.
    + by rewrite IH.
  - rewrite Hst; [done|lia|simpl in Hc; unfold counter_ok in *; lia|done].
Qed.

Lemma lru_new_refines m t c : new m t = Some c -> m <> 0 /\ counter_ok 0 c /\ accessCounter c = 0 /\
  lru_rel c (mkSpec m (threshold m t) []).
Proof.
  unfold new. destruct (Z.eqb_spec m 0); [done|]. intros [= <-]. split; [done|].
  split; [unfold counter_ok; simpl; lia|]. split; [done|]. exists []. simpl.
  rewrite map_to_list_empty. by repeat constructor.
Qed.

(** For every sequence of fewer than [2^63] calls on a fresh cache, whatever order the
    hash map is walked in and however [std::sort] orders equal elements,
    [unordered_lru_cache] returns what a list of entries kept in order of last access
    returns: [get] and [exists] move an entry to the front, inserting puts it there, and
    truncation keeps the first [maxSize] entries of that list. *)
Theorem lru_refines_recency_list (m t : Z) (ops : list lru_op) (c : unordered_lru_cache) :
  length ops < 2 ^ 63 -> new m t = Some c ->
  match run lru_step ops c with
  | Some (os, c') => exists s', run spec_step ops (mkSpec m (threshold m t) []) = Some (os, s') /\
      lru_rel c' s'
  | None => run spec_step ops (mkSpec m (threshold m t) []) = None
  end.
Proof.
  intros Hl Hn. apply lru_new_refines in Hn as (_ & _ & Hc & Hr). apply lru_run_refines; [|done].
  unfold counter_ok. rewrite Hc. lia.
Qed.

Definition resizes (op : lru_op) : bool := if op is op_setMaxSize _ _ then true else false.

Definition spec_bounded (s : spec) : Prop :=
  0 <= s_max s /\ 0 <= s_threshold s /\
  NoDup (s_recent s).*1 /\ length (s_recent s) <= Z.max (s_max s) (s_threshold s) + 1.

Lemma others_bounded k l : NoDup l.*1 -> NoDup (others k l).*1 /\ k ∉ (others k l).*1 /\
  (length (others k l) <= length l)%nat /\
  (spec_lookup k l <> None -> (length (others k l) < length l)%nat).
Proof.
  intros Hd. unfold others. split_and!.
  - eapply sublist_NoDup; [done|]. apply fmap_sublist, sublist_filter.
  - intros (i & -> & [Hi _]%list_elem_of_filter)%list_elem_of_fmap. done.
  - apply length_filter.
  - unfold spec_lookup. destruct (list_find _ l) as [[j i]|] eqn:E; [|done]. intros _.
    apply list_find_Some in E as (Hi & Hk & _). apply (length_filter_lt _ _ i); [|auto].
    by apply list_elem_of_lookup_2 with j.
Qed.

Lemma lru_spec_step_bounded op s o s' :
  spec_bounded s -> resizes op = false -> spec_step op s = Some (o, s') ->
  spec_bounded s' /\ s_max s' = s_max s /\ s_threshold s' = s_threshold s.
Proof.
  intros (Hm & Ht & Hd & Hl) Hop. pose proof (λ k, others_bounded k _ Hd) as Ho.
  assert (forall k v, spec_lookup k (s_recent s) <> None -> spec_bounded (touch k v s)) as Htouch.
  { intros k v Hlk. destruct (Ho k) as (? & ? & _ & Hlt). specialize (Hlt Hlk).
    split_and!; simpl; [done..|by constructor|lia]. }
  destruct op as [k v|k|k|k| |m t]; cbn [spec_step]; [..|done]; intros [= <- <-].
  - unfold spec_truncate. destruct (Z.leb_spec (length (s_recent s)) (s_threshold s)) as [Hle|Hgt].
    + destruct (Ho k) as (? & ? & ? & _). split; [|done]. split_and!; simpl; [done..|by constructor|lia].
    + destruct (others_bounded k (take (Z.to_nat (s_max s)) (s_recent s))) as (? & ? & Hlt & _).
      { rewrite fmap_take. eapply sublist_NoDup; [done|]. apply sublist_take. }
      rewrite length_take in Hlt.
      split; [|done]. split_and!; simpl; [done..|by constructor|lia].
  - destruct (spec_lookup k (s_recent s)) as [v|] eqn:E; [|done].
    split; [|done]. apply Htouch. by rewrite E.
  - destruct (spec_lookup k (s_recent s)) as [v|] eqn:E; [|done].
    split; [|done]. apply Htouch. by rewrite E.
  - destruct (Ho k) as (? & ? & ? & _). split; [|done]. split_and!; simpl; [done..|lia].
  - split; [|done]. split_and!; simpl; [done..|constructor|lia].
Qed.

Lemma lru_spec_run_bounded ops s os s' :
  spec_bounded s -> forallb (λ op, negb (resizes op)) ops = true -> run spec_step ops s = Some (os, s') ->
  spec_bounded s' /\ s_max s' = s_max s /\ s_threshold s' = s_threshold s.
Proof.
  revert s os. induction ops as [|op ops IH]; intros s os Hs Hops; cbn [run]; [by intros [= _ <-]|].
  simpl in Hops. apply andb_prop in Hops as [Hop%negb_true_iff Hops].
  destruct (spec_step op s) as [[o s1]|] eqn:E; simpl; [|done].
  destruct (lru_spec_step_bounded op s o s1 Hs Hop E) as (H1 & Em & Et).
  destruct (run spec_step ops s1) as [[os1 s2]|] eqn:E2; simpl; [|done]. intros [= _ <-].
  destruct (IH s1 os1 H1 Hops E2) as (? & ? & ?). split_and!; [done|congruence..].
Qed.

(** A cache that is not resized never holds more than [max(maxSize, threshold) + 1]
    entries (it is truncated before an insertion, not after), and a value just inserted is
    found again. *)
Theorem lru_bounded (m t : Z) (ops : list lru_op) (c : unordered_lru_cache) (k : Key) (v : Value) :
  length ops + 2 < 2 ^ 63 -> in_uint 64 m -> in_uint 64 t -> new m t = Some c ->
  forallb (λ op, negb (resizes op)) ops = true ->
  exists os c', run lru_step ops c = Some (os, c') /\
    size (cacheMap c') <= Z.max m (threshold m t) + 1 /\
    (get k (_emplace k v c')).1 = Some v.
Proof.
  intros Hl Hm Ht Hn Hops. apply lru_new_refines in Hn as (_ & _ & Hc & Hr).
  pose proof (lru_run_refines ops c _ ltac:(unfold counter_ok; rewrite Hc; lia) Hr) as Hrun.
  assert (spec_bounded (mkSpec m (threshold m t) [])) as Hb.
  { unfold threshold. pose proof (uint_range 64 (m * 2) ltac:(lia)). unfold in_uint in *.
    split_and!; simpl; [lia|destruct (t =? 0); lia|constructor|destruct (t =? 0); lia]. }
  destruct (run lru_step ops c) as [[os c']|].
  - exists os, c'. split; [done|]. destruct Hrun as (s' & E & Hr').
    destruct (lru_spec_run_bounded ops _ _ _ Hb Hops E) as ((_ & _ & _ & Hlen) & Em & Et).
    simpl in Em, Et. rewrite Em, Et in Hlen. split.
    + destruct Hr' as (es & Hp & _ & _ & ->). rewrite <- (length_enumerates es _ Hp).
      simpl in Hlen. by rewrite length_fmap in Hlen.
    + unfold get, _emplace, stamp. simpl. by rewrite lookup_insert_eq.
  - exfalso. revert Hrun. generalize (mkSpec m (threshold m t) []). clear - Hops.
    induction ops as [|op ops IH]; intros s; cbn [run]; [done|].
    simpl in Hops. apply andb_prop in Hops as [Hop%negb_true_iff Hops].
    destruct (spec_step op s) as [[o s1]|] eqn:E; [|by destruct op]. simpl. specialize (IH Hops s1).
    destruct (run spec_step ops s1) as [[??]|]; [done|auto].
Qed.
End Lru.
End Lru.

(** ** unordered_limitedmap *)

Module LimitedMap.
Section LimitedMap.
Context {K V : Type} `{Countable K}.
(** [operator<] of the mapped type. *)
Context (ltV : relation V).

Definition smaller (x y : K * V) : Prop := ltV x.2 y.2.

Context (iterate : gmap K V -> list (K * V)) (sort : list (K * V) -> list (K * V)).

Record unordered_limitedmap := mkLimitedMap {
  map : gmap K V;
  nMaxSize : Z; (* size_t *)
  nPruneAfterSize : Z; (* size_t *)
}.

(** [None] when the assertion fails. *)
Definition prune (m : unordered_limitedmap) : option unordered_limitedmap :=
  if size (map m) <=? nPruneAfterSize m then Some m
  else
    let sortedIterators := sort (iterate (map m)) in
    let tooMuch := u64 (size (map m) - nMaxSize m) in
    if tooMuch <=? 0 then None
    else
      Some (mkLimitedMap (erase_keys (take (Z.to_nat tooMuch) sortedIterators) (map m))
        (nMaxSize m) (nPruneAfterSize m)).

Definition prune_after (nMaxSizeIn nPruneAfterSizeIn : Z) : Z :=
  if nPruneAfterSizeIn =? 0 then nMaxSizeIn else nPruneAfterSizeIn.

(** The constructor and the setter [max_size]. *)
Definition limitedmap_new (nMaxSizeIn nPruneAfterSizeIn : Z) : option unordered_limitedmap :=
  if nMaxSizeIn <=? 0 then None
  else if prune_after nMaxSizeIn nPruneAfterSizeIn <? nMaxSizeIn then None
  else Some (mkLimitedMap ∅ nMaxSizeIn (prune_after nMaxSizeIn nPruneAfterSizeIn)).
Definition set_max_size (nMaxSizeIn nPruneAfterSizeIn : Z) (m : unordered_limitedmap) :
    option unordered_limitedmap :=
  if nMaxSizeIn <=? 0 then None
  else if prune_after nMaxSizeIn nPruneAfterSizeIn <? nMaxSizeIn then None
  else prune (mkLimitedMap (map m) nMaxSizeIn (prune_after nMaxSizeIn nPruneAfterSizeIn)).

Definition limitedmap_insert (x : K * V) (m : unordered_limitedmap) : option unordered_limitedmap :=
  match map m !! x.1 with
  | Some _ => Some m
  | None => prune (mkLimitedMap (<[x.1 := x.2]> (map m)) (nMaxSize m) (nPruneAfterSize m))
  end.
Definition insert_or_update (x : K * V) (m : unordered_limitedmap) : option unordered_limitedmap :=
  match map m !! x.1 with
  | Some _ => Some (mkLimitedMap (<[x.1 := x.2]> (map m)) (nMaxSize m) (nPruneAfterSize m))
  | None => prune (mkLimitedMap (<[x.1 := x.2]> (map m)) (nMaxSize m) (nPruneAfterSize m))
  end.
Definition limitedmap_erase (k : K) (m : unordered_limitedmap) : unordered_limitedmap :=
  mkLimitedMap (delete k (map m)) (nMaxSize m) (nPruneAfterSize m).
(** The iterator is the key of an element, or [None] for [end()]. *)
Definition update (itIn : option K) (v : V) (m : unordered_limitedmap) : unordered_limitedmap :=
  match itIn with
  | None => m
  | Some k => mkLimitedMap (<[k := v]> (map m)) (nMaxSize m) (nPruneAfterSize m)
  end.

(** *** The invariant and what pruning does *)

Definition limited (m : unordered_limitedmap) : Prop :=
  0 < nMaxSize m <= nPruneAfterSize m /\ size (map m) <= nPruneAfterSize m.

Context `{!StdSort smaller sort, !HashIteration iterate}.

Lemma prune_spec m :
  0 < nMaxSize m <= nPruneAfterSize m -> size (map m) < 2 ^ 64 ->
  exists m', prune m = Some m' /\ limited m' /\
    nMaxSize m' = nMaxSize m /\ nPruneAfterSize m' = nPruneAfterSize m /\
    (size (map m) <= nPruneAfterSize m -> m' = m) /\
    (nPruneAfterSize m < size (map m) -> size (map m') = Z.to_nat (nMaxSize m) /\ map m' ⊆ map m /\
      forall k v k' v', map m' !! k = Some v -> map m !! k' = Some v' -> map m' !! k' = None -> ~ ltV v v').
Proof.
  intros Hsz Hs64. unfold prune. destruct (Z.leb_spec (size (map m)) (nPruneAfterSize m)) as [Hle|Hgt].
  { exists m. split_and!; try done; lia. }
  rewrite u64_small by lia. rewrite (proj2 (Z.leb_gt _ _)) by lia.
  set (es := sort (iterate (map m))).
  assert (es ≡ₚ map_to_list (map m)) as Hp.
  { unfold es. by rewrite (sort_Permutation (sort:=sort)), iterate_Permutation. }
  set (t := Z.to_nat (size (map m) - nMaxSize m)).
  assert (drop t es ≡ₚ map_to_list (erase_keys (take t es) (map m))) as Hk.
  { apply enumerates_erase. rewrite <- Hp, (comm (++)), take_drop. done. }
  assert (size (erase_keys (take t es) (map m)) = Z.to_nat (nMaxSize m)) as Hsize.
  { rewrite <- (length_enumerates _ _ Hk), length_drop, (length_enumerates _ _ Hp). unfold t. lia. }
  eexists. split; [done|]. unfold limited. cbn [map nMaxSize nPruneAfterSize]. rewrite Hsize.
  split_and!; try done; [lia..|]. intros _. split; [done|]. split.
  - apply map_subseteq_spec. intros k v. rewrite lookup_erase_keys. by case_decide.
  - intros k v k' v' Hkv Hk'v' Hk'. apply enumerates_iff in Hk as [_ Hk]. apply Hk in Hkv.
    assert ((k', v') ∈ take t es) as Hin.
    { apply enumerates_iff in Hp as [_ Hp]. apply Hp in Hk'v'. rewrite <- (take_drop t es), elem_of_app in Hk'v'.
      destruct Hk'v' as [?|Hd]; [done|]. apply Hk in Hd. congruence. }
    pose proof (sort_sorted (sort:=sort) (iterate (map m))) as Hsorted. fold es in Hsorted.
    rewrite <- (take_drop t es) in Hsorted.
    exact (StronglySorted_app_1_elem_of _ _ _ _ _ Hsorted Hin Hkv).
Qed.

(** Inserting keeps the map within its limits and never fails an assertion; a key
    already present is left alone ([insert]) or gets the new value ([insert_or_update]); when
    the map grows past [nPruneAfterSize] it is cut to exactly [nMaxSize] entries, none of
    which has a value smaller than that of an entry dropped, in whatever order the hash map
    is walked and equal values are sorted. *)
Theorem limitedmap_insert_spec (k : K) (v : V) (m : unordered_limitedmap) :
  limited m -> nPruneAfterSize m + 1 < 2 ^ 64 ->
  exists m1 m2, limitedmap_insert (k, v) m = Some m1 /\ insert_or_update (k, v) m = Some m2 /\
    limited m1 /\ limited m2 /\
    (is_Some (map m !! k) -> m1 = m /\ map m2 = <[k := v]> (map m)) /\
    (map m !! k = None -> size (map m) < nPruneAfterSize m ->
      m1 = m2 /\ map m1 = <[k := v]> (map m)) /\
    (map m !! k = None -> size (map m) = nPruneAfterSize m :> Z ->
      m1 = m2 /\ size (map m1) = Z.to_nat (nMaxSize m) /\ map m1 ⊆ <[k := v]> (map m) /\
      forall k1 v1 k2 v2, map m1 !! k1 = Some v1 -> <[k := v]> (map m) !! k2 = Some v2 ->
        map m1 !! k2 = None -> ~ ltV v1 v2).
Proof.
  intros [Hsz Hl] H64. unfold limitedmap_insert, insert_or_update. cbn [fst snd].
  destruct (map m !! k) as [v0|] eqn:E.
  - do 2 eexists. do 2 (split; [done|]). split; [done|]. split; [split; [done|]|].
    + cbn [map nPruneAfterSize]. rewrite map_size_insert_Some by eauto. done.
    + split; [done|]. split; by intros.
  - set (m' := mkLimitedMap _ _ _).
    assert (size (map m') = S (size (map m))) as Hsm by (by apply map_size_insert_None).
    destruct (prune_spec m') as (m1 & -> & Hm1 & _ & _ & Hsmall & Hlarge); [done|simpl in *; lia|].
    exists m1, m1. do 4 (split; [done|]). split; [by intros []|]. split.
    + intros _ Hlt. rewrite Hsmall by (simpl in *; lia). done.
    + intros _ Heq. destruct Hlarge as (? & ? & ?); [simpl in *; lia|]. done.
Qed.
End LimitedMap.
End LimitedMap.

(** ** The arguments can be instantiated *)

Definition sort_by {A} (f : A -> Z) : list A -> list A :=
  @merge_sort A (λ x y, f x <= f y) (λ x y, decide (f x <= f y)).

Lemma sort_by_StdSort {A} (comp : relation A) (f : A -> Z) :
  (forall x y, comp x y -> f x < f y) -> StdSort comp (sort_by f).
Proof.
  intros Hf. split; [apply merge_sort_Permutation|]. intros l.
  eapply StronglySorted_impl; [|apply StronglySorted_merge_sort; [intros x y z; lia|intros x y; lia]].
  simpl. intros x y Hxy Hc%Hf. lia.
Qed.

#[export] Instance map_to_list_iteration {K A} `{Countable K} : HashIteration (K:=K) (A:=A) map_to_list.
Proof. by intros m. Qed.

Definition lru_sort : list (Z * (Z * Z)) -> list (Z * (Z * Z)) := sort_by (λ e, - e.2.2).
#[export] Instance lru_sort_StdSort : StdSort Lru.later lru_sort.
Proof. apply sort_by_StdSort. unfold Lru.later. lia. Qed.

Definition limitedmap_sort : list (Z * Z) -> list (Z * Z) := sort_by snd.
#[export] Instance limitedmap_sort_StdSort : StdSort (LimitedMap.smaller Z.lt) limitedmap_sort.
Proof. by apply sort_by_StdSort. Qed.

Definition example_ops : list (Lru.lru_op (Key:=Z) (Value:=Z)) :=
  [Lru.op_emplace 1 10; Lru.op_emplace 2 20; Lru.op_get 1; Lru.op_emplace 3 30; Lru.op_emplace 4 40;
   Lru.op_exists 2; Lru.op_get 1].

Lemma lru_refines_recency_list_witness :
  exists c' s', Lru.run (Lru.lru_step map_to_list lru_sort) example_ops (Lru.mkLru ∅ 2 2 0) =
      Some ([Lru.out_unit; Lru.out_unit; Lru.out_value (Some 10); Lru.out_unit; Lru.out_unit;
             Lru.out_bool false; Lru.out_value (Some 10)], c') /\
    Lru.lru_rel c' s' /\ Lru.s_recent s' = [(1, 10); (4, 40); (3, 30)].
Proof.
  pose proof (Lru.lru_refines_recency_list map_to_list lru_sort 2 2 example_ops (Lru.mkLru ∅ 2 2 0)
    ltac:(vm_compute; reflexivity) ltac:(reflexivity)) as H.
  destruct (Lru.run (Lru.lru_step map_to_list lru_sort) example_ops (Lru.mkLru ∅ 2 2 0)) as [[os c']|].
  - destruct H as (s' & E & Hr). vm_compute in E. injection E as <- <-. by eexists _, _.
  - vm_compute in H. discriminate H.
Defined.

Lemma lru_bounded_witness :
  exists os c', Lru.run (Lru.lru_step map_to_list lru_sort) example_ops (Lru.mkLru ∅ 2 4 0) = Some (os, c') /\
    size (Lru.cacheMap c') <= 5 /\ (Lru.get 9 (Lru._emplace map_to_list lru_sort 9 90 c')).1 = Some 90.
Proof.
  apply (Lru.lru_bounded map_to_list lru_sort 2 0 example_ops (Lru.mkLru ∅ 2 4 0) 9 90);
    unfold in_uint; try lia; try reflexivity.
Defined.

Lemma limitedmap_insert_spec_witness :
  let m := LimitedMap.mkLimitedMap (list_to_map [(1, 5); (2, 3)]) 1 2 in
  exists m1, LimitedMap.limitedmap_insert map_to_list limitedmap_sort (7, 4) m = Some m1 /\
    size (LimitedMap.map m1) = 1%nat.
Proof.
  destruct (LimitedMap.limitedmap_insert_spec Z.lt map_to_list limitedmap_sort 7 4
    (LimitedMap.mkLimitedMap (list_to_map [(1, 5); (2, 3)]) 1 2)) as (m1 & m2 & E & _ & _ & _ & _ & _ & H).
  - split; vm_compute; [split; [reflexivity|discriminate]|discriminate].
  - reflexivity.
  - exists m1. split; [exact E|]. apply H; reflexivity.
Defined.
