(* ===== verification/Chain.v ===== *)
(** * The block index and the active chain: chain.h, chain.cpp

    Block index entries live in a store and point to each other: [pprev] to the parent,
    [pskip] to a further ancestor.  The reference for every query is the path of parents from
    the genesis block; the code's skip list, chain vector and fork searches are shown to agree
    with it. *)

From S2P Require Import Prelude ArithUint256.
Import BaseUint.

(** A pointer to a block index entry; [None] is [nullptr]. *)
Abbreviation ptr := nat.
Abbreviation uint256 := (list Z).

Record CBlockIndex := mkCBlockIndex {
  phashBlock : option uint256;
  pprev : option ptr;
  pskip : option ptr;
  nHeight : Z;
  nChainWork : base_uint;
  nStatus : Z;
  nVersion : Z;
  hashMerkleRoot : uint256;
  nTime : Z;
  nBits : Z;
  nNonce : Z;
  nSequenceId : Z;
  nTimeMax : Z;
}.

Abbreviation store := (gmap ptr CBlockIndex).

Definition GetBlockTime (b : CBlockIndex) : Z := nTime b.
Definition GetBlockTimeMax (b : CBlockIndex) : Z := nTimeMax b.

(** ** The skip list *)

Definition InvertLowestOne (n : Z) : Z := n &&& (n - 1).

Definition GetSkipHeight (height : Z) : Z :=
  if height <? 2 then 0
  else if negb ((height &&& 1) =? 0) then InvertLowestOne (InvertLowestOne (height - 1)) + 1
  else InvertLowestOne height.

(** [None] when the assertion on [pprev] fails. *)
Fixpoint GetAncestor_loop (fuel : nat) (st : store) (height : Z) (pindexWalk : ptr) (heightWalk : Z) :
    option ptr :=
  if heightWalk <=? height then Some pindexWalk
  else
    match fuel with
    | O => None
    | S fuel =>
        b ← st !! pindexWalk;
        let heightSkip := GetSkipHeight heightWalk in
        let heightSkipPrev := GetSkipHeight (heightWalk - 1) in
        let better := (heightSkip =? height) ||
          ((height <? heightSkip) &&
           negb ((heightSkipPrev <? heightSkip - 2) && (height <=? heightSkipPrev))) in
        match (if better then pskip b else None) with
        | Some q => GetAncestor_loop fuel st height q heightSkip
        | None => q ← pprev b; GetAncestor_loop fuel st height q (heightWalk - 1)
        end
    end.

(** The outer option is failure, the inner one [nullptr]. *)
Definition GetAncestor (st : store) (this : ptr) (height : Z) : option (option ptr) :=
  b ← st !! this;
  if (nHeight b <? height) || (height <? 0) then Some None
  else q ← GetAncestor_loop (Z.to_nat (nHeight b)) st height this (nHeight b); Some (Some q).

Definition set_pskip (b : CBlockIndex) (q : option ptr) : CBlockIndex :=
  mkCBlockIndex (phashBlock b) (pprev b) q (nHeight b) (nChainWork b) (nStatus b) (nVersion b)
    (hashMerkleRoot b) (nTime b) (nBits b) (nNonce b) (nSequenceId b) (nTimeMax b).

Definition BuildSkip (st : store) (this : ptr) : option store :=
  b ← st !! this;
  match pprev b with
  | None => Some st
  | Some q => s ← GetAncestor st q (GetSkipHeight (nHeight b)); Some (<[this := set_pskip b s]> st)
  end.

(** ** CChain *)

Abbreviation CChain := (list (option ptr)).

Definition chain_Genesis (vChain : CChain) : option ptr := mjoin (vChain !! 0%nat).
Definition chain_Tip (vChain : CChain) : option ptr := mjoin (vChain !! (length vChain - 1)%nat).
Definition chain_Height (vChain : CChain) : Z := length vChain - 1.
Definition chain_at (vChain : CChain) (h : Z) : option ptr :=
  if (h <? 0) || (length vChain <=? h) then None else mjoin (vChain !! Z.to_nat h).
Definition chain_Contains (vChain : CChain) (p : ptr) (b : CBlockIndex) : bool :=
  bool_decide (chain_at vChain (nHeight b) = Some p).
Definition chain_Next (vChain : CChain) (p : ptr) (b : CBlockIndex) : option ptr :=
  if chain_Contains vChain p b then chain_at vChain (nHeight b + 1) else None.

(** [None] when a pointer is invalid or an index out of range. *)
Fixpoint SetTip_loop (fuel : nat) (st : store) (pindex : option ptr) (vChain : CChain) : option CChain :=
  match pindex with
  | None => Some vChain
  | Some p =>
      b ← st !! p;
      cur ← vChain !! Z.to_nat (nHeight b);
      if decide (cur = Some p) then Some vChain
      else
        match fuel with
        | O => None
        | S fuel => SetTip_loop fuel st (pprev b) (<[Z.to_nat (nHeight b) := Some p]> vChain)
        end
  end.
Definition SetTip (st : store) (pindex : option ptr) (vChain : CChain) : option CChain :=
  match pindex with
  | None => Some []
  | Some p =>
      b ← st !! p;
      let n := Z.to_nat (nHeight b + 1) in
      SetTip_loop n st pindex (resize n None vChain)
  end.

Fixpoint FindFork_loop (fuel : nat) (st : store) (vChain : CChain) (pindex : option ptr) : option (option ptr) :=
  match pindex with
  | None => Some None
  | Some p =>
      b ← st !! p;
      if chain_Contains vChain p b then Some (Some p)
      else match fuel with O => None | S fuel => FindFork_loop fuel st vChain (pprev b) end
  end.
Definition FindFork (st : store) (vChain : CChain) (pindex : option ptr) : option (option ptr) :=
  match pindex with
  | None => Some None
  | Some p =>
      b ← st !! p;
      pindex ← (if chain_Height vChain <? nHeight b then GetAncestor st p (chain_Height vChain) else Some (Some p));
      FindFork_loop (Z.to_nat (nHeight b + 1)) st vChain pindex
  end.

(** [LastCommonAncestor]: the loop runs at most [safety] times. *)
Fixpoint LastCommonAncestor_loop (safety : nat) (st : store) (pa pb : option ptr) :
    option (option ptr * option ptr) :=
  match pa, pb with
  | Some a, Some b =>
      if decide (a = b) then Some (pa, pb)
      else
        match safety with
        | O => Some (pa, pb)
        | S safety => ba ← st !! a; bb ← st !! b; LastCommonAncestor_loop safety st (pprev ba) (pprev bb)
        end
  | _, _ => Some (pa, pb)
  end.

Definition LastCommonAncestor (st : store) (pa pb : option ptr) : option (option ptr) :=
  match pa, pb with
  | Some a, Some b =>
      ba ← st !! a;
      bb ← st !! b;
      '(pa, pb) ←
        (if nHeight bb <? nHeight ba then
           pa ← GetAncestor st a (nHeight bb); Some (if pa is None then pb else pa, pb)
         else if nHeight ba <? nHeight bb then
           pb ← GetAncestor st b (nHeight ba); Some (pa, if pb is None then pa else pb)
         else Some (pa, pb));
      '(pa, pb) ← LastCommonAncestor_loop (Z.to_nat 10000000) st pa pb;
      Some (if pa is None then pb else pa)
  | _, _ => Some None
  end.

(** ** The reference: paths of parents *)

(** The block [n] parents up. *)
Fixpoint walk (st : store) (p : ptr) (n : nat) : option ptr :=
  match n with
  | O => Some p
  | S n => b ← st !! p; q ← pprev b; walk st q n
  end.

(** The path from [n] parents up down to [p] itself. *)
Fixpoint path_from (st : store) (p : ptr) (n : nat) : list ptr :=
  match n with
  | O => [p]
  | S n =>
      match (b ← st !! p; pprev b) with
      | Some q => path_from st q n ++ [p]
      | None => [p]
      end
  end.
Definition path (st : store) (p : ptr) : list ptr :=
  match st !! p with Some b => path_from st p (Z.to_nat (nHeight b)) | None => [] end.

(** The longest common prefix of two paths. *)
Fixpoint common_prefix (l1 l2 : list ptr) : list ptr :=
  match l1, l2 with
  | x :: l1, y :: l2 => if decide (x = y) then x :: common_prefix l1 l2 else []
  | _, _ => []
  end.

(** Every entry's parent is one lower, and its skip pointer is the ancestor at the skip height. *)
Record linked_block (st : store) (p : ptr) (b : CBlockIndex) : Prop := {
  linked_nonneg : 0 <= nHeight b;
  linked_prev q : pprev b = Some q -> exists b', st !! q = Some b' /\ nHeight b = nHeight b' + 1;
  linked_root : pprev b = None -> nHeight b = 0;
  linked_skip q : pskip b = Some q ->
    walk st p (Z.to_nat (nHeight b - GetSkipHeight (nHeight b))) = Some q;
}.
Definition linked (st : store) : Prop := forall p b, st !! p = Some b -> linked_block st p b.

Lemma InvertLowestOne_range n : 0 < n -> 0 <= InvertLowestOne n < n.
Proof.
  intros Hn. unfold InvertLowestOne. split; [apply Z.land_nonneg; lia|].
  assert (n &&& (n - 1) <= n - 1); [|lia].
  rewrite <- (Z2N.id n), <- (Z2N.id (n - 1)) at 1 by lia. rewrite <- N2Z.inj_land.
  pose proof (N.land_le_r (Z.to_N n) (Z.to_N (n - 1))). lia.
Qed.

Lemma GetSkipHeight_range h : 0 < h -> 0 <= GetSkipHeight h < h.
Proof.
  intros Hh. unfold GetSkipHeight. destruct (Z.ltb_spec h 2); [lia|]. destruct (negb _).
  - pose proof (InvertLowestOne_range (h - 1) ltac:(lia)) as H1.
    destruct (decide (InvertLowestOne (h - 1) = 0)) as [E|E].
    + rewrite E. change (InvertLowestOne 0) with 0. lia.
    + pose proof (InvertLowestOne_range (InvertLowestOne (h - 1))). lia.
  - pose proof (InvertLowestOne_range h). lia.
Qed.

Section linked.
Context (st : store) (Hst : linked st).

Lemma linked_parent p b : st !! p = Some b -> 0 < nHeight b ->
  exists q b', pprev b = Some q /\ st !! q = Some b' /\ nHeight b = nHeight b' + 1.
Proof.
  intros Hb Hh. destruct (Hst p b Hb) as [_ Hprev Hroot _].
  destruct (pprev b) as [q|] eqn:E; [|specialize (Hroot eq_refl); lia].
  destruct (Hprev q eq_refl) as (b' & ? & ?). eauto.
Qed.

Lemma walk_add p n m q : walk st p n = Some q -> walk st p (n + m) = walk st q m.
Proof.
  revert p. induction n as [|n IH]; intros p; simpl; [by intros [= ->]|].
  destruct (st !! p) as [b|]; simpl; [|done]. destruct (pprev b) as [r|]; simpl; [|done]. apply IH.
Qed.

(** Walking up stays in the store, down to the genesis block. *)
Lemma walk_height p b (n : nat) :
  st !! p = Some b -> n <= nHeight b ->
  exists q b', walk st p n = Some q /\ st !! q = Some b' /\ nHeight b' = nHeight b - n.
Proof.
  revert p b. induction n as [|n IH]; intros p b Hb Hn; simpl.
  { exists p, b. split; [done|]. split; [done|lia]. }
  rewrite Hb. simpl. destruct (linked_parent p b Hb) as (q & b' & -> & Hb' & Hh); [lia|]. simpl.
  destruct (IH q b' Hb') as (r & b'' & ? & ? & ?); [lia|]. exists r, b''. split; [done|]. split; [done|lia].
Qed.

Lemma GetAncestor_loop_spec (fuel : nat) (height : Z) p b :
  st !! p = Some b -> 0 <= height <= nHeight b -> nHeight b - height <= fuel ->
  GetAncestor_loop fuel st height p (nHeight b) = walk st p (Z.to_nat (nHeight b - height)).
Proof.
  revert p b. induction fuel as [|fuel IH]; intros p b Hb Hh Hf; cbn [GetAncestor_loop];
    (destruct (Z.leb_spec (nHeight b) height) as [Hle|Hgt];
     [by replace (nHeight b - height) with 0 by lia|]); [lia|].
  rewrite Hb. cbn [mbind option_bind].
  set (skip := GetSkipHeight (nHeight b)). set (better := _ || _).
  assert (better = true -> height <= skip < nHeight b) as Hbetter.
  { unfold better. pose proof (GetSkipHeight_range (nHeight b)) as Hr. fold skip in Hr |- *.
    destruct (Z.eqb_spec skip height); [lia|]. destruct (Z.ltb_spec height skip); simpl; [lia|done]. }
  destruct (if better then pskip b else None) as [q|] eqn:E.
  - destruct better; [|done]. specialize (Hbetter eq_refl).
    pose proof (linked_skip _ _ _ (Hst p b Hb) q E) as Hq. fold skip in Hq.
    destruct (walk_height p b (Z.to_nat (nHeight b - skip)) Hb) as (q' & b' & Hw & Hb' & Hh'); [lia|].
    rewrite Hq in Hw. injection Hw as <-. replace skip with (nHeight b') by lia.
    rewrite IH by (done || lia). rewrite <- (walk_add _ _ _ _ Hq). f_equal. lia.
  - destruct (linked_parent p b Hb) as (q & b' & Hq & Hb' & Hh'); [lia|]. rewrite Hq. simpl.
    replace (nHeight b - 1) with (nHeight b') by lia. rewrite IH by (done || lia).
    replace (Z.to_nat (nHeight b - height)) with (S (Z.to_nat (nHeight b' - height))) by lia.
    cbn [walk]. rewrite Hb. cbn [mbind option_bind]. by rewrite Hq.
Qed.

Lemma GetAncestor_walk p b height :
  st !! p = Some b ->
  GetAncestor st p height =
    if (nHeight b <? height) || (height <? 0) then Some None
    else Some (walk st p (Z.to_nat (nHeight b - height))).
Proof.
  intros Hb. unfold GetAncestor. rewrite Hb. cbn [mbind option_bind].
  destruct (Z.ltb_spec (nHeight b) height), (Z.ltb_spec height 0); simpl; try done.
  rewrite GetAncestor_loop_spec by (done || lia).
  destruct (walk_height p b (Z.to_nat (nHeight b - height)) Hb) as (q & _ & -> & _); [lia|done].
Qed.

(** ** Paths *)

Lemma path_root p b : st !! p = Some b -> pprev b = None -> path st p = [p].
Proof.
  intros Hb Hp. unfold path. rewrite Hb, (linked_root _ _ _ (Hst p b Hb) Hp). done.
Qed.

Lemma path_snoc p b q : st !! p = Some b -> pprev b = Some q -> path st p = path st q ++ [p].
Proof.
  intros Hb Hq. destruct (linked_prev _ _ _ (Hst p b Hb) q Hq) as (b' & Hb' & Hh).
  pose proof (linked_nonneg _ _ _ (Hst q b' Hb')).
  unfold path. rewrite Hb, Hb'. replace (Z.to_nat (nHeight b)) with (S (Z.to_nat (nHeight b'))) by lia.
  cbn [path_from]. rewrite Hb. cbn [mbind option_bind]. by rewrite Hq.
Qed.

(** Induction on the height of a block. *)
Lemma block_ind (P : ptr -> CBlockIndex -> Prop) :
  (forall p b, st !! p = Some b -> pprev b = None -> P p b) ->
  (forall p b q b', st !! p = Some b -> pprev b = Some q -> st !! q = Some b' ->
    nHeight b = nHeight b' + 1 -> P q b' -> P p b) ->
  forall p b, st !! p = Some b -> P p b.
Proof.
  intros H0 HS p b Hb. remember (Z.to_nat (nHeight b)) as n eqn:En.
  revert p b Hb En. induction n as [|n IH]; intros p b Hb En.
  - pose proof (linked_nonneg _ _ _ (Hst p b Hb)). destruct (pprev b) as [q|] eqn:E; [|by apply H0].
    destruct (linked_prev _ _ _ (Hst p b Hb) q E) as (b' & Hb' & Hh).
    pose proof (linked_nonneg _ _ _ (Hst q b' Hb')). lia.
  - destruct (linked_parent p b Hb) as (q & b' & Hq & Hb' & Hh); [lia|].
    apply (HS p b q b'); [done..|]. apply IH; [done|lia].
Qed.

Lemma length_path p b : st !! p = Some b -> length (path st p) = S (Z.to_nat (nHeight b)).
Proof.
  revert p b. apply block_ind.
  - intros p b Hb Hp. by rewrite (path_root p b), (linked_root _ _ _ (Hst p b Hb) Hp).
  - intros p b q b' Hb Hq Hb' Hh IH. rewrite (path_snoc p b q), length_app, IH by done. simpl.
    pose proof (linked_nonneg _ _ _ (Hst q b' Hb')). lia.
Qed.

(** The entry of a path at index [i] is the ancestor at height [i], and the path up to it is
    its own path. *)
Lemma path_lookup p b (i : nat) :
  st !! p = Some b -> i <= nHeight b ->
  exists q bq, path st p !! i = Some q /\ st !! q = Some bq /\ nHeight bq = i /\
    walk st p (Z.to_nat (nHeight b - i)) = Some q /\ take (S i) (path st p) = path st q.
Proof.
  revert p b. refine (block_ind (λ p b, i <= nHeight b -> _) _ _).
  - intros p b Hb Hp Hi. pose proof (linked_root _ _ _ (Hst p b Hb) Hp) as H0.
    assert (i = 0%nat) as -> by lia. exists p, b. rewrite (path_root p b) by done.
    rewrite H0. split_and!; done.
  - intros p b q b' Hb Hq Hb' Hh IH Hi. pose proof (length_path q b' Hb') as Hl.
    pose proof (linked_nonneg _ _ _ (Hst q b' Hb')). rewrite (path_snoc p b q) by done.
    destruct (decide (i = nHeight b :> Z)) as [E|E].
    + exists p, b. split_and!; try done.
      * rewrite lookup_app_r by lia. replace (i - length (path st q))%nat with 0%nat by lia. done.
      * by replace (nHeight b - i) with 0 by lia.
      * rewrite (path_snoc p b q), take_ge by (done || (rewrite length_app; simpl; lia)). done.
    + destruct IH as (r & br & Hl1 & Hr & Hhr & Hw & Ht); [lia|]. exists r, br.
      rewrite lookup_app_l by lia. rewrite take_app_le by lia. split_and!; try done.
      replace (Z.to_nat (nHeight b - i)) with (S (Z.to_nat (nHeight b' - i))) by lia.
      cbn [walk]. rewrite Hb. cbn [mbind option_bind]. by rewrite Hq.
Qed.

Lemma path_last p b : st !! p = Some b -> last (path st p) = Some p.
Proof.
  intros Hb. destruct (pprev b) as [q|] eqn:E.
  - by rewrite (path_snoc p b q), last_snoc.
  - by rewrite (path_root p b).
Qed.
End linked.
