(* ===== verification/ChainLaws.v ===== *)
(** * The chain vector, forks and common ancestors

    [CChain::SetTip] rewrites only the part of the vector that differs, [FindFork] and
    [LastCommonAncestor] search with the skip list and the vector; all three agree with the
    paths of parents. *)

From S2P Require Import Prelude ArithUint256 Chain.

Lemma common_prefix_diag l : common_prefix l l = l.
Proof. induction l as [|x l IH]; simpl; [done|]. by rewrite decide_True, IH by done. Qed.

Lemma common_prefix_comm l1 l2 : common_prefix l1 l2 = common_prefix l2 l1.
Proof.
  revert l2. induction l1 as [|x l1 IH]; intros [|y l2]; simpl; [done..|].
  repeat case_decide; [by subst; rewrite IH|congruence..|done].
Qed.

(** Elements beyond the other list's length do not matter. *)
Lemma common_prefix_take l1 l2 (n : nat) :
  (length l2 <= n)%nat -> common_prefix (take n l1) l2 = common_prefix l1 l2.
Proof.
  revert l2 n. induction l1 as [|x l1 IH]; intros [|y l2] [|n] Hn; simpl in *; try done; [lia|].
  by rewrite IH by lia.
Qed.

Lemma common_prefix_prefix l1 l2 : common_prefix l1 (l1 ++ l2) = l1.
Proof. induction l1 as [|x l1 IH]; simpl; [done|]. by rewrite decide_True, IH by done. Qed.

(** A last element that differs from the one at its index does not matter. *)
Lemma common_prefix_snoc l1 l2 y :
  l1 !! length l2 <> Some y -> common_prefix l1 (l2 ++ [y]) = common_prefix l1 l2.
Proof.
  revert l1. induction l2 as [|z l2 IH]; intros [|x l1] Hy; simpl in *; try done.
  - rewrite decide_False by congruence. done.
  - case_decide; [|done]. by rewrite IH.
Qed.

Section chain.
Context (st : store) (Hst : linked st).

(** ** SetTip *)

(** A block in the vector has its whole path below it. *)
Definition consistent (v : CChain) : Prop :=
  forall (i : nat) r, v !! i = Some (Some r) -> take (S i) v = Some <$> path st r.

Lemma consistent_take v (n : nat) : consistent v -> consistent (take n v).
Proof.
  intros Hv i r. destruct (decide (i < n)%nat) as [Hi|Hi].
  - rewrite lookup_take_lt by done. intros E%Hv. rewrite take_take. by rewrite Nat.min_l by lia.
  - rewrite lookup_take_ge by lia. done.
Qed.

Lemma consistent_resize v (n : nat) : consistent v -> consistent (resize n None v).
Proof.
  intros Hv i r E. destruct (decide (i < n)%nat) as [Hi|Hi].
  2:{ rewrite lookup_ge_None_2 in E by (rewrite length_resize; lia). done. }
  destruct (decide (i < length v)%nat) as [Hl|Hl].
  - rewrite lookup_resize in E by done. apply Hv in E.
    rewrite <- E. apply list_eq. intros j. destruct (decide (j < S i)%nat).
    + rewrite !lookup_take_lt by done. apply lookup_resize; lia.
    + by rewrite !lookup_take_ge by lia.
  - rewrite lookup_resize_new in E by lia. done.
Qed.

Lemma consistent_path p b : st !! p = Some b -> consistent (Some <$> path st p).
Proof.
  intros Hb i r E. rewrite list_lookup_fmap in E.
  destruct (path st p !! i) as [r'|] eqn:Ei; [|done]. simpl in E. injection E as ->.
  pose proof (length_path st Hst p b Hb). pose proof (lookup_lt_Some _ _ _ Ei).
  pose proof (linked_nonneg _ _ _ (Hst p b Hb)).
  destruct (path_lookup st Hst p b i Hb) as (q & bq & E1 & _ & _ & _ & Ht); [lia|].
  rewrite E1 in Ei. injection Ei as ->. rewrite <- fmap_take. by rewrite Ht.
Qed.

Lemma SetTip_loop_spec (n : nat) q b (lo : CChain) (suf : list ptr) :
  st !! q = Some b -> length lo = S (Z.to_nat (nHeight b)) -> (Z.to_nat (nHeight b) < n)%nat ->
  consistent lo ->
  SetTip_loop n st (Some q) (lo ++ (Some <$> suf)) = Some (Some <$> (path st q ++ suf)).
Proof.
  revert q b lo suf. induction n as [|n IH]; intros q b lo suf Hb Hl Hn Hc; [lia|].
  cbn [SetTip_loop]. rewrite Hb. cbn [mbind option_bind].
  destruct (lookup_lt_is_Some_2 lo (Z.to_nat (nHeight b))) as [cur Hcur]; [lia|].
  rewrite lookup_app_l, Hcur by lia. cbn [mbind option_bind]. case_decide as Ecur.
  - subst cur. apply Hc in Hcur. rewrite take_ge in Hcur by lia. by rewrite Hcur, fmap_app.
  - assert (<[Z.to_nat (nHeight b) := Some q]> (lo ++ (Some <$> suf)) =
      take (Z.to_nat (nHeight b)) lo ++ (Some <$> (q :: suf))) as ->.
    { rewrite insert_app_l, insert_take_drop, drop_ge by lia. by rewrite <- (assoc_L (++)). }
    destruct (pprev b) as [r|] eqn:Er.
    + destruct (linked_prev _ _ _ (Hst q b Hb) r Er) as (b' & Hb' & Hh).
      pose proof (linked_nonneg _ _ _ (Hst r b' Hb')).
      rewrite (IH r b'); [|done|rewrite length_take; lia|lia|by apply consistent_take].
      rewrite (path_snoc st Hst q b r) by done. by rewrite <- (assoc_L (++)).
    + rewrite (linked_root _ _ _ (Hst q b Hb) Er). rewrite (path_root st Hst q b) by done.
      by destruct n.
Qed.

Lemma SetTip_path p b (v : CChain) :
  st !! p = Some b -> consistent v -> SetTip st (Some p) v = Some (Some <$> path st p).
Proof.
  intros Hb Hv. pose proof (linked_nonneg _ _ _ (Hst p b Hb)). unfold SetTip. rewrite Hb. cbn [mbind option_bind].
  pose proof (SetTip_loop_spec (Z.to_nat (nHeight b + 1)) p b
    (resize (Z.to_nat (nHeight b + 1)) None v) [] Hb) as Hloop.
  rewrite !app_nil_r in Hloop. apply Hloop; [rewrite length_resize; lia|lia|by apply consistent_resize].
Qed.

(** ** The vector of a path *)

Lemma chain_at_path t bt (h : Z) :
  st !! t = Some bt -> 0 <= h <= nHeight bt ->
  chain_at (Some <$> path st t) h = path st t !! Z.to_nat h.
Proof.
  intros Ht Hh. unfold chain_at. rewrite length_fmap, (length_path st Hst t bt Ht).
  destruct (Z.ltb_spec h 0), (Z.leb_spec (S (Z.to_nat (nHeight bt))) h); simpl; try lia.
  rewrite list_lookup_fmap. by destruct (path st t !! Z.to_nat h).
Qed.

Lemma Contains_path t bt p b :
  st !! t = Some bt -> st !! p = Some b ->
  chain_Contains (Some <$> path st t) p b = bool_decide (path st t !! Z.to_nat (nHeight b) = Some p).
Proof.
  intros Ht Hb. pose proof (linked_nonneg _ _ _ (Hst p b Hb)).
  pose proof (linked_nonneg _ _ _ (Hst t bt Ht)). unfold chain_Contains.
  apply bool_decide_ext. destruct (decide (nHeight b <= nHeight bt)) as [Hle|Hgt].
  - by rewrite (chain_at_path t bt) by (done || lia).
  - rewrite (lookup_ge_None_2 (path st t)) by (rewrite (length_path st Hst t bt Ht); lia).
    unfold chain_at. rewrite length_fmap, (length_path st Hst t bt Ht).
    rewrite (proj2 (Z.leb_le _ (nHeight b))), orb_true_r by lia. done.
Qed.

(** ** Forks *)

(** Dropping a block that the other path does not have at its height. *)
Lemma fork_step l p b :
  st !! p = Some b -> l !! Z.to_nat (nHeight b) <> Some p ->
  common_prefix l (path st p) =
    match pprev b with Some q => common_prefix l (path st q) | None => [] end.
Proof.
  intros Hb Hl. destruct (pprev b) as [q|] eqn:Eq.
  - destruct (linked_prev _ _ _ (Hst p b Hb) q Eq) as (b' & Hb' & Hh).
    pose proof (linked_nonneg _ _ _ (Hst q b' Hb')).
    rewrite (path_snoc st Hst p b q) by done. apply common_prefix_snoc.
    rewrite (length_path st Hst q b') by done.
    by replace (S (Z.to_nat (nHeight b'))) with (Z.to_nat (nHeight b)) by lia.
  - rewrite (path_root st Hst p b) by done. rewrite (linked_root _ _ _ (Hst p b Hb) Eq) in Hl.
    destruct l as [|x l]; [done|]. simpl in *. by rewrite decide_False by congruence.
Qed.

Lemma path_in_path t bt p b :
  st !! t = Some bt -> st !! p = Some b -> path st t !! Z.to_nat (nHeight b) = Some p ->
  common_prefix (path st t) (path st p) = path st p.
Proof.
  intros Ht Hb E. pose proof (linked_nonneg _ _ _ (Hst p b Hb)).
  pose proof (linked_nonneg _ _ _ (Hst t bt Ht)).
  pose proof (lookup_lt_Some _ _ _ E) as Hlt. rewrite (length_path st Hst t bt Ht) in Hlt.
  destruct (path_lookup st Hst t bt (Z.to_nat (nHeight b)) Ht) as (q & bq & E1 & _ & _ & _ & Htake); [lia|].
  rewrite E in E1. injection E1 as <-. rewrite <- (take_drop (S (Z.to_nat (nHeight b))) (path st t)), Htake.
  rewrite common_prefix_comm. apply common_prefix_prefix.
Qed.

Lemma FindFork_loop_spec (n : nat) t bt p b :
  st !! t = Some bt -> st !! p = Some b -> (Z.to_nat (nHeight b) < n)%nat ->
  FindFork_loop n st (Some <$> path st t) (Some p) = Some (last (common_prefix (path st t) (path st p))).
Proof.
  intros Ht. revert p b. induction n as [|n IH]; intros p b Hb Hn; [lia|].
  cbn [FindFork_loop]. rewrite Hb. cbn [mbind option_bind]. rewrite (Contains_path t bt) by done.
  case_bool_decide as Ec.
  - rewrite (path_in_path t bt p b) by done. by rewrite (path_last st Hst p b).
  - rewrite (fork_step _ p b) by done. destruct (pprev b) as [q|] eqn:Eq; [|by destruct n].
    destruct (linked_prev _ _ _ (Hst p b Hb) q Eq) as (b' & Hb' & Hh).
    pose proof (linked_nonneg _ _ _ (Hst q b' Hb')). apply (IH q b'); [done|lia].
Qed.

(** The ancestor at a height keeps the part of the path up to that height. *)
Lemma ancestor_path p b (h : Z) :
  st !! p = Some b -> 0 <= h < nHeight b ->
  exists q bq, GetAncestor st p h = Some (Some q) /\ st !! q = Some bq /\ nHeight bq = h /\
    path st q = take (S (Z.to_nat h)) (path st p).
Proof.
  intros Hb Hh. rewrite (GetAncestor_walk st Hst p b h Hb).
  rewrite (proj2 (Z.ltb_ge _ _)), (proj2 (Z.ltb_ge h 0)) by lia. simpl.
  destruct (path_lookup st Hst p b (Z.to_nat h) Hb) as (q & bq & _ & Hq & Hhq & Hw & Ht); [lia|].
  exists q, bq. rewrite Z2Nat.id in * by lia. rewrite Hw. split_and!; [done..|lia|done].
Qed.

Lemma FindFork_path t bt p b :
  st !! t = Some bt -> st !! p = Some b ->
  FindFork st (Some <$> path st t) (Some p) = Some (last (common_prefix (path st t) (path st p))).
Proof.
  intros Ht Hb. pose proof (linked_nonneg _ _ _ (Hst p b Hb)). pose proof (linked_nonneg _ _ _ (Hst t bt Ht)).
  unfold FindFork. rewrite Hb. cbn [mbind option_bind].
  unfold chain_Height. rewrite length_fmap, (length_path st Hst t bt Ht).
  destruct (Z.ltb_spec (S (Z.to_nat (nHeight bt)) - 1) (nHeight b)) as [Hlt|Hge].
  - destruct (ancestor_path p b (S (Z.to_nat (nHeight bt)) - 1) Hb) as (q & bq & -> & Hbq & Hhq & Hpq); [lia|].
    cbn [mbind option_bind]. rewrite (FindFork_loop_spec _ t bt q bq) by (done || lia). rewrite Hpq.
    rewrite common_prefix_comm, common_prefix_take, common_prefix_comm; [done|].
    rewrite (length_path st Hst t bt Ht). lia.
  - cbn [mbind option_bind]. by rewrite (FindFork_loop_spec _ t bt p b) by (done || lia).
Qed.

Lemma LastCommonAncestor_loop_spec (n : nat) pa pb a b :
  st !! pa = Some a -> st !! pb = Some b -> nHeight a = nHeight b -> nHeight a < n ->
  LastCommonAncestor_loop n st (Some pa) (Some pb) =
    let r := last (common_prefix (path st pa) (path st pb)) in Some (r, r).
Proof.
  revert pa pb a b. induction n as [|n IH]; intros pa pb a b Ha Hb Hh Hn.
  { pose proof (linked_nonneg _ _ _ (Hst pa a Ha)). lia. }
  cbn [LastCommonAncestor_loop]. case_decide as E.
  - subst pb. by rewrite common_prefix_diag, (path_last st Hst pa a).
  - rewrite Ha, Hb. cbn [mbind option_bind]. rewrite (fork_step _ pb b Hb).
    2:{ rewrite <- Hh. destruct (path_lookup st Hst pa a (Z.to_nat (nHeight a)) Ha) as (q & bq & E1 & _);
          [pose proof (linked_nonneg _ _ _ (Hst pa a Ha)); lia|].
        pose proof (path_last st Hst pa a Ha) as El. rewrite last_lookup, (length_path st Hst pa a Ha) in El.
        simpl in El. congruence. }
    destruct (pprev b) as [qb|] eqn:Eb, (pprev a) as [qa|] eqn:Ea.
    + destruct (linked_prev _ _ _ (Hst pb b Hb) qb Eb) as (b' & Hb' & Hhb).
      destruct (linked_prev _ _ _ (Hst pa a Ha) qa Ea) as (a' & Ha' & Hha).
      rewrite (IH qa qb a' b') by (done || lia). cbv zeta.
      rewrite (common_prefix_comm (path st pa)), (fork_step _ pa a Ha), Ea, common_prefix_comm; [done|].
      rewrite (lookup_ge_None_2 (path st qb)); [done|]. rewrite (length_path st Hst qb b' Hb').
      pose proof (linked_nonneg _ _ _ (Hst qb b' Hb')). lia.
    + destruct (linked_prev _ _ _ (Hst pb b Hb) qb Eb) as (b' & Hb' & Hhb).
      pose proof (linked_root _ _ _ (Hst pa a Ha) Ea). pose proof (linked_nonneg _ _ _ (Hst qb b' Hb')). lia.
    + destruct (linked_prev _ _ _ (Hst pa a Ha) qa Ea) as (a' & Ha' & Hha).
      pose proof (linked_root _ _ _ (Hst pb b Hb) Eb). pose proof (linked_nonneg _ _ _ (Hst qa a' Ha')). lia.
    + by destruct n.
Qed.

Lemma LastCommonAncestor_path pa pb a b :
  st !! pa = Some a -> st !! pb = Some b -> Z.min (nHeight a) (nHeight b) < 10000000 ->
  LastCommonAncestor st (Some pa) (Some pb) = Some (last (common_prefix (path st pa) (path st pb))).
Proof.
  intros Ha Hb Hmin. pose proof (linked_nonneg _ _ _ (Hst pa a Ha)). pose proof (linked_nonneg _ _ _ (Hst pb b Hb)).
  unfold LastCommonAncestor. rewrite Ha, Hb. cbn [mbind option_bind].
  pose proof (Z2Nat.id 10000000 ltac:(lia)) as Hsafety. revert Hsafety.
  generalize (Z.to_nat 10000000). intros safety Hsafety.
  assert (forall r : option ptr, (if r is None then r else r) = r) as Hr by (by intros [?|]).
  destruct (Z.ltb_spec (nHeight b) (nHeight a)) as [Hlt|Hge].
  - destruct (ancestor_path pa a (nHeight b) Ha) as (q & bq & -> & Hbq & Hhq & Hpq); [lia|].
    cbn [mbind option_bind]. rewrite (LastCommonAncestor_loop_spec _ q pb bq b) by (done || lia).
    cbn [mbind option_bind]. cbv zeta. rewrite Hr, Hpq, common_prefix_take; [done|].
    rewrite (length_path st Hst pb b Hb). done.
  - destruct (Z.ltb_spec (nHeight a) (nHeight b)) as [Hlt|Hge'].
    + destruct (ancestor_path pb b (nHeight a) Hb) as (q & bq & -> & Hbq & Hhq & Hpq); [lia|].
      cbn [mbind option_bind]. rewrite (LastCommonAncestor_loop_spec _ pa q a bq) by (done || lia).
      cbn [mbind option_bind]. cbv zeta.
      rewrite Hr, Hpq, common_prefix_comm, common_prefix_take, common_prefix_comm; [done|].
      rewrite (length_path st Hst pa a Ha). done.
    + cbn [mbind option_bind]. rewrite (LastCommonAncestor_loop_spec _ pa pb a b) by (done || lia).
      cbn [mbind option_bind]. cbv zeta. by rewrite Hr.
Qed.
End chain.

(** ** Properties *)

(** C35: [GetAncestor], which follows skip pointers where they help, returns the block at the
    given height on the path of parents, and [nullptr] for a height outside it; it never fails
    its assertion and needs at most [nHeight] steps. *)
Theorem GetAncestor_spec (st : store) (p : ptr) (b : CBlockIndex) (height : Z) :
  linked st -> st !! p = Some b ->
  GetAncestor st p height =
    Some (if decide (0 <= height <= nHeight b) then path st p !! Z.to_nat height else None) /\
  length (path st p) = S (Z.to_nat (nHeight b)) /\ last (path st p) = Some p.
Proof.
  intros Hst Hb. split; [|by split; [apply length_path|eapply path_last]].
  rewrite (GetAncestor_walk st Hst p b height Hb). case_decide as Hh.
  - rewrite (proj2 (Z.ltb_ge _ _)), (proj2 (Z.ltb_ge height 0)) by lia. simpl.
    destruct (path_lookup st Hst p b (Z.to_nat height) Hb) as (q & _ & -> & _ & _ & Hw & _); [lia|].
    rewrite Z2Nat.id in Hw by lia. by rewrite Hw.
  - destruct (Z.ltb_spec (nHeight b) height), (Z.ltb_spec height 0); simpl; done || lia.
Qed.

(** Successive tips. *)
Fixpoint SetTips (st : store) (tips : list (option ptr)) (vChain : CChain) : option CChain :=
  match tips with
  | [] => Some vChain
  | t :: tips => v ← SetTip st t vChain; SetTips st tips v
  end.

Lemma SetTips_path st tips v :
  linked st -> consistent st v -> (forall t, Some t ∈ tips -> is_Some (st !! t)) ->
  SetTips st tips v =
    Some (match last tips with
          | None => v
          | Some None => []
          | Some (Some t) => Some <$> path st t
          end).
Proof.
  intros Hst. revert v. induction tips as [|t tips IH]; intros v Hv Hin; cbn [SetTips]; [done|].
  destruct t as [t|].
  - destruct (Hin t) as [b Hb]; [set_solver|]. rewrite (SetTip_path st Hst t b) by done.
    cbn [mbind option_bind]. rewrite IH by (set_solver || by eapply consistent_path).
    destruct tips as [|t' tips]; [done|]. rewrite last_cons_cons.
    destruct (last (t' :: tips)) eqn:E; [done|]. by apply last_None in E.
  - simpl. rewrite IH by (set_solver || by intros ???).
    destruct tips as [|t' tips]; [done|]. rewrite last_cons_cons.
    destruct (last (t' :: tips)) eqn:E; [done|]. by apply last_None in E.
Qed.

(** After any sequence of [SetTip] calls, each of which rewrites the vector only down to
    the first entry that already agrees, the vector is the path of the last tip, from the
    genesis block on; no access is out of range and the loop ends within [nHeight + 1]
    rounds. *)
Theorem SetTip_spec (st : store) (tips : list (option ptr)) (t : ptr) :
  linked st -> (forall t', Some t' ∈ tips ++ [Some t] -> is_Some (st !! t')) ->
  exists v, SetTips st (tips ++ [Some t]) [] = Some v /\ v = Some <$> path st t /\
    chain_Tip v = Some t /\
    forall p b, st !! p = Some b -> chain_Contains v p b = bool_decide (p ∈ path st t).
Proof.
  intros Hst Hin. destruct (Hin t) as [bt Ht]; [set_solver|].
  pose proof (length_path st Hst t bt Ht) as Hlen. pose proof (linked_nonneg _ _ _ (Hst t bt Ht)).
  exists (Some <$> path st t). split; [|split; [done|split]].
  - rewrite SetTips_path by (done || by intros ???). by rewrite last_snoc.
  - unfold chain_Tip. rewrite length_fmap, list_lookup_fmap.
    pose proof (path_last st Hst t bt Ht) as El. rewrite last_lookup in El.
    replace (pred (length (path st t))) with (length (path st t) - 1)%nat in El by lia. by rewrite El.
  - intros p b Hb. rewrite (Contains_path st Hst t bt) by done. apply bool_decide_ext. split.
    + by apply list_elem_of_lookup_2.
    + intros [i Hi]%list_elem_of_lookup. pose proof (lookup_lt_Some _ _ _ Hi).
      destruct (path_lookup st Hst t bt i Ht) as (q & bq & Hq & Hbq & Hhq & _); [lia|].
      rewrite Hi in Hq. injection Hq as <-. rewrite Hb in Hbq. injection Hbq as <-.
      by rewrite Hhq, Nat2Z.id.
Qed.

(** [FindFork] (of a block and the chain ending in [t]) and [LastCommonAncestor] (of two
    blocks, for chains of less than ten million blocks) return the last block the two paths
    have in common, or [nullptr] when they have none. *)
Theorem fork_spec (st : store) (t p : ptr) (bt b : CBlockIndex) :
  linked st -> st !! t = Some bt -> st !! p = Some b ->
  let fork := last (common_prefix (path st t) (path st p)) in
  FindFork st (Some <$> path st t) (Some p) = Some fork /\
  (Z.min (nHeight bt) (nHeight b) < 10000000 -> LastCommonAncestor st (Some t) (Some p) = Some fork).
Proof.
  intros Hst Ht Hb fork. split; [by apply (FindFork_path st Hst t bt p b)|].
  intros Hmin. by apply (LastCommonAncestor_path st Hst t p bt b).
Qed.

(** *** A small tree: a genesis block with two children, one of which has a child. *)

Definition example_block (prev skip : option ptr) (h : Z) : CBlockIndex :=
  mkCBlockIndex None prev skip h [] 0 0 [] 0 0 0 0 0.
Definition example_store : store :=
  <[0%nat := example_block None None 0]> (<[1%nat := example_block (Some 0%nat) (Some 0%nat) 1]>
    (<[2%nat := example_block (Some 0%nat) (Some 0%nat) 1]>
      (<[3%nat := example_block (Some 2%nat) (Some 0%nat) 2]> ∅))).

Lemma example_linked : linked example_store.
Proof.
  intros p b Hb. unfold example_store in Hb.
  repeat (apply lookup_insert_Some in Hb as [[<- <-]|[_ Hb]]).
  5: by rewrite lookup_empty in Hb.
  all: constructor; simpl; [done|..|done|]; intros; simplify_eq; try (by vm_compute).
  all: by eexists; split; [vm_compute; reflexivity|].
Qed.

Lemma GetAncestor_spec_witness : GetAncestor example_store 3 1 = Some (Some 2%nat).
Proof.
  rewrite (proj1 (GetAncestor_spec example_store 3 (example_block (Some 2%nat) (Some 0%nat) 2) 1
    example_linked ltac:(reflexivity))). reflexivity.
Defined.

Lemma SetTip_spec_witness :
  exists v, SetTips example_store [Some 1%nat; Some 3%nat] [] = Some v /\
    v = [Some 0%nat; Some 2%nat; Some 3%nat].
Proof.
  destruct (SetTip_spec example_store [Some 1%nat] 3 example_linked) as (v & E & Ev & _).
  - intros t Ht. apply elem_of_cons in Ht as [[= ->]|Ht]; [by eexists|].
    apply list_elem_of_singleton in Ht as [= ->]. by eexists.
  - exists v. split; [exact E|exact Ev].
Defined.

Lemma fork_spec_witness :
  FindFork example_store (Some <$> path example_store 1) (Some 3%nat) = Some (Some 0%nat) /\
  LastCommonAncestor example_store (Some 1%nat) (Some 3%nat) = Some (Some 0%nat).
Proof.
  destruct (fork_spec example_store 1 3 (example_block (Some 0%nat) (Some 0%nat) 1)
    (example_block (Some 2%nat) (Some 0%nat) 2) example_linked ltac:(reflexivity) ltac:(reflexivity)) as [H1 H2].
  split; [exact H1|]. apply H2. reflexivity.
Defined.
