(* ===== verification/BlockIndex.v ===== *)
(** * Adding headers to the block index: GetBlockProof (chain.cpp) and AddToBlockIndex (validation.cpp)

    The tree of block index entries grows one header at a time.  [AddToBlockIndex] links the
    new entry to its parent, builds its skip pointer, and accumulates the work and the latest
    time of the chain below it; the invariant says that those are what they stand for. *)

From S2P Require Import Prelude ArithUint256 ArithLaws Chain ChainLaws.
Import BaseUint.

(** ** Work *)

(** [None] when the division throws. *)
Definition GetBlockProof (nBits : Z) : option base_uint :=
  let '(bnTarget, fNegative, fOverflow) := SetCompact nBits in
  if fNegative || fOverflow || EqualTo bnTarget 0 then Some (of_uint64 8 0)
  else
    match div (bitnot bnTarget) (add64 bnTarget 1) with
    | Ok q => Some (add64 q 1)
    | Throw _ => None
    end.

(** The number of hashes a block with this target stands for. *)
Definition block_work (nBits : Z) : Z :=
  let N := compact_value (nBits / 2 ^ 24) (nBits `mod` 2 ^ 23) in
  if (Z.testbit nBits 23) || (2 ^ 256 <=? N) || (N =? 0) then 0 else 2 ^ 256 / (N + 1).

(** ** The index *)

Module Header.
Record CBlockHeader := mkCBlockHeader {
  nVersion : Z;
  hashPrevBlock : uint256;
  hashMerkleRoot : uint256;
  nTime : Z;
  nBits : Z;
  nNonce : Z;
}.
End Header.

Definition BLOCK_VALID_TREE : Z := 2.
Definition BLOCK_VALID_MASK : Z := Z.lor 1 (Z.lor 2 (Z.lor 3 (Z.lor 4 5))).
Definition BLOCK_FAILED_MASK : Z := Z.lor 32 64.
Definition BLOCK_CONFLICT_CHAINLOCK : Z := 128.

Definition set_prev (b : CBlockIndex) (q : ptr) (h : Z) : CBlockIndex :=
  mkCBlockIndex (phashBlock b) (Some q) (pskip b) h (nChainWork b) (nStatus b) (nVersion b)
    (hashMerkleRoot b) (nTime b) (nBits b) (nNonce b) (nSequenceId b) (nTimeMax b).
Definition set_totals (b : CBlockIndex) (timeMax : Z) (work : base_uint) : CBlockIndex :=
  mkCBlockIndex (phashBlock b) (pprev b) (pskip b) (nHeight b) work (nStatus b) (nVersion b)
    (hashMerkleRoot b) (nTime b) (nBits b) (nNonce b) (nSequenceId b) timeMax.
Definition set_status (b : CBlockIndex) (status : Z) : CBlockIndex :=
  mkCBlockIndex (phashBlock b) (pprev b) (pskip b) (nHeight b) (nChainWork b) status (nVersion b)
    (hashMerkleRoot b) (nTime b) (nBits b) (nNonce b) (nSequenceId b) (nTimeMax b).

(** [None] when the assertion fails. *)
Definition RaiseValidity (nUpTo : Z) (b : CBlockIndex) : option (bool * CBlockIndex) :=
  if negb ((nUpTo &&& u32 (Z.lnot BLOCK_VALID_MASK)) =? 0) then None
  else if negb ((nStatus b &&& BLOCK_FAILED_MASK) =? 0) then Some (false, b)
  else if (nStatus b &&& BLOCK_VALID_MASK) <? nUpTo then
    Some (true, set_status b ((nStatus b &&& u32 (Z.lnot BLOCK_VALID_MASK)) ||| nUpTo))
  else Some (false, b).

Record BlockIndexState := mkBlockIndexState {
  blocks : store;
  next_block : ptr;
  mapBlockIndex : gmap uint256 ptr;
  pindexBestHeader : option ptr;
  setDirtyBlockIndex : gset ptr;
  mapPrevBlockIndex : list (uint256 * ptr);
}.

(** [CBlockIndex(block)], with the pointer to its hash. *)
Definition new_block_index (block : Header.CBlockHeader) (hash : uint256) : CBlockIndex :=
  mkCBlockIndex (Some hash) None None 0 (zero 8) 0 (Header.nVersion block) (Header.hashMerkleRoot block)
    (Header.nTime block) (Header.nBits block) (Header.nNonce block) 0 0.

Definition GetBlockHash (b : CBlockIndex) : uint256 :=
  match phashBlock b with Some h => h | None => replicate 32 0 end.

Section AddToBlockIndex.
(** [CBlockHeader::GetHash]. *)
Context (GetHash : Header.CBlockHeader -> uint256).

(** Links the new entry [pindexNew] to its parent, if the index has it. *)
Definition link_parent (blocks : store) (pindexNew : ptr) (b : CBlockIndex) (miPrev : option ptr) :
    option (store * option CBlockIndex) :=
  match miPrev with
  | None => Some (<[pindexNew := b]> blocks, None)
  | Some q =>
      prev ← <[pindexNew := b]> blocks !! q;
      st ← BuildSkip (<[pindexNew := set_prev b q (nHeight prev + 1)]> blocks) pindexNew;
      Some (st, Some prev)
  end.

(** [None] when an assertion fails. *)
Definition AddToBlockIndex (block : Header.CBlockHeader) (status : Z) (s : BlockIndexState) :
    option (ptr * BlockIndexState) :=
  if negb ((status &&& BLOCK_FAILED_MASK) =? 0) then None
  else
    let hash := GetHash block in
    match mapBlockIndex s !! hash with
    | Some p => Some (p, s)
    | None =>
        let pindexNew := next_block s in
        let map := <[hash := pindexNew]> (mapBlockIndex s) in
        '(st, prev) ← link_parent (blocks s) pindexNew (new_block_index block hash)
                        (map !! Header.hashPrevBlock block);
        b ← st !! pindexNew;
        proof ← GetBlockProof (nBits b);
        let timeMax := match prev with Some q => Z.max (nTimeMax q) (nTime b) | None => nTime b end in
        let work := add (match prev with Some q => nChainWork q | None => of_uint64 8 0 end) proof in
        let b := set_totals b timeMax work in
        '(b, best) ←
          (if negb ((status &&& BLOCK_VALID_MASK) =? 0) then
             '(_, b) ← RaiseValidity status b;
             match pindexBestHeader s with
             | None => Some (b, Some pindexNew)
             | Some h =>
                 bh ← st !! h;
                 Some (b, if CompareTo (nChainWork bh) (nChainWork b) <? 0 then Some pindexNew
                          else pindexBestHeader s)
             end
           else
             '(_, b) ← RaiseValidity BLOCK_VALID_TREE b;
             Some (set_status b (nStatus b ||| status), pindexBestHeader s));
        Some (pindexNew,
          mkBlockIndexState (<[pindexNew := b]> st) (S (next_block s)) map best
            ({[pindexNew]} ∪ setDirtyBlockIndex s)
            (match prev with
             | Some q => mapPrevBlockIndex s ++ [(GetBlockHash q, pindexNew)]
             | None => mapPrevBlockIndex s
             end))
    end.
End AddToBlockIndex.

(** ** GetBlockProof *)

Lemma compact_value_not_max nSize nWord :
  0 <= nWord < 2 ^ 23 -> 0 <= nSize -> compact_value nSize nWord <> 2 ^ 256 - 1.
Proof.
  intros Hw Hs. unfold compact_value. destruct (Z.leb_spec nSize 3).
  - assert (nWord / 256 ^ (3 - nSize) <= nWord); [|lia].
    pose proof (Z.pow_pos_nonneg 256 (3 - nSize)). apply Z.div_le_upper_bound; nia.
  - replace (nSize - 3) with (nSize - 4 + 1) by lia. rewrite Z.pow_add_r by lia. change (256 ^ 1) with 256.
    intros E. assert ((2 ^ 256 - 1) `mod` 256 = 0) as Hm; [|by vm_compute in Hm].
    rewrite <- E, Z.mul_assoc. apply Z.mod_mul. lia.
Qed.

Lemma block_work_range nBits : in_uint 32 nBits -> 0 <= block_work nBits < 2 ^ 256.
Proof.
  intros Hn. unfold block_work. set (N := compact_value _ _).
  assert (0 <= N) by (apply compact_value_nonneg; apply Z.mod_pos_bound; lia).
  destruct (Z.testbit nBits 23); simpl; [lia|]. destruct (2 ^ 256 <=? N); simpl; [lia|].
  destruct (Z.eqb_spec N 0); [lia|]. split; [apply Z.div_pos; lia|].
  apply Z.div_lt; lia.
Qed.

Lemma GetBlockProof_value nBits :
  in_uint 32 nBits -> exists p, GetBlockProof nBits = Some p /\ wf 8 p /\ value p = block_work nBits.
Proof.
  intros Hn. pose proof (SetCompact_parts nBits Hn) as HS. cbv zeta in HS. unfold GetBlockProof, block_work.
  set (N := compact_value _ _) in *. destruct (SetCompact nBits) as [[t neg] ovf].
  destruct HS as (Ht & Hv & -> & ->).
  assert (0 <= N) by (apply compact_value_nonneg; apply Z.mod_pos_bound; lia).
  assert (N <> 2 ^ 256 - 1) as Hmax.
  { apply compact_value_not_max; [apply Z.mod_pos_bound; lia|]. apply Z.div_pos; [apply Hn|lia]. }
  rewrite (EqualTo_spec 8) by (done || lia || by split). rewrite Hv.
  destruct (Z.leb_spec (2 ^ 256) N) as [Hov|Hov].
  { rewrite !orb_true_r. cbn [orb]. exists (of_uint64 8 0). split; [done|]. split; [apply wf_of_uint64; lia|done]. }
  rewrite Z.mod_small in * by lia. rewrite !orb_false_r.
  destruct (Z.eqb_spec N 0) as [E0|E0]; cbn [negb].
  { rewrite orb_true_r, orb_true_r. exists (of_uint64 8 0). split; [done|]. split; [apply wf_of_uint64; lia|done]. }
  rewrite !andb_true_r, !orb_false_r. destruct (Z.testbit nBits 23); cbn [orb].
  { exists (of_uint64 8 0). split; [done|]. split; [apply wf_of_uint64; lia|done]. }
  assert (wf 8 (of_uint64 8 1) /\ value (of_uint64 8 1) = 1) as [Hw1 Hv1].
  { split; [apply wf_of_uint64; lia|]. apply value_of_uint64. by split. }
  assert (forall a, wf 8 a -> value a + 1 < 2 ^ 256 -> wf 8 (add64 a 1) /\ value (add64 a 1) = value a + 1) as Hinc.
  { intros a Ha Hlt. unfold add64. rewrite (proj1 Ha). split; [by apply wf_add|].
    rewrite (value_add 8), Hv1 by done. pose proof (value_range a (proj2 Ha)).
    change (32 * 8%nat) with 256. rewrite Z.mod_small by lia. done. }
  destruct (Hinc t Ht) as [Hwt Hvt]; [lia|]. rewrite Hv in Hvt.
  pose proof (div_spec 8 (bitnot t) (add64 t 1) (wf_bitnot _ _ Ht) Hwt) as Hdiv.
  rewrite Hvt, (proj2 (Z.eqb_neq (N + 1) 0)) in Hdiv by lia. destruct Hdiv as (q & -> & Hq & Hvq).
  rewrite (value_bitnot 8), Hv in Hvq by done. change (32 * 8%nat) with 256 in Hvq.
  assert (2 ^ 256 / (N + 1) = value q + 1) as Ed.
  { rewrite Hvq. replace (2 ^ 256) with (2 ^ 256 - 1 - N + 1 * (N + 1)) at 1 by lia. by rewrite Z.div_add by lia. }
  assert (2 ^ 256 / (N + 1) < 2 ^ 256) by (apply Z.div_lt; lia).
  destruct (Hinc q Hq) as [? Hvq']; [lia|]. exists (add64 q 1). split; [done|]. split; [done|].
  by rewrite Hvq', Ed.
Qed.

(** ** The links survive an insertion *)

(** Two stores with the same links. *)
Definition links (b : CBlockIndex) : option ptr * option ptr * Z := (pprev b, pskip b, nHeight b).

Lemma walk_links (st st' : store) p n :
  (forall q, pprev <$> st !! q = pprev <$> st' !! q) -> walk st p n = walk st' p n.
Proof.
  intros Hl. revert p. induction n as [|n IH]; intros p; simpl; [done|]. specialize (Hl p).
  destruct (st !! p) as [b|], (st' !! p) as [b'|]; simplify_eq/=; [|done]. rewrite Hl.
  destruct (pprev b'); simpl; [apply IH|done].
Qed.

Lemma links_pprev (st st' : store) : (forall q, links <$> st !! q = links <$> st' !! q) ->
  forall q, pprev <$> st !! q = pprev <$> st' !! q.
Proof. intros Hl q. specialize (Hl q). destruct (st !! q), (st' !! q); simplify_eq/=; [|done]. unfold links in Hl. congruence. Qed.

Lemma linked_links (st st' : store) :
  (forall q, links <$> st !! q = links <$> st' !! q) -> linked st -> linked st'.
Proof.
  intros Hl Hst p b Hb. pose proof (Hl p) as Hp. rewrite Hb in Hp.
  destruct (st !! p) as [b0|] eqn:E; [|done]. unfold links in Hp. simpl in Hp. injection Hp as E1 E2 E3.
  destruct (Hst p b0 E) as [H0 Hprev Hroot Hskip]. rewrite E1, E2, E3 in *. constructor; [done| |done|].
  - intros q Hq. destruct (Hprev q Hq) as (b' & Hb' & Hh). specialize (Hl q). rewrite Hb' in Hl.
    destruct (st' !! q) as [b''|]; [|done]. unfold links in Hl. simpl in Hl. injection Hl as _ _ E4. eexists. split; [done|]. lia.
  - intros q Hq. rewrite <- (walk_links st st'); [by apply Hskip|by apply links_pprev].
Qed.

(** A fresh block does not change walks from old ones. *)
Lemma walk_fresh (st : store) p b : linked st -> st !! p = None ->
  forall n q, is_Some (st !! q) -> walk (<[p := b]> st) q n = walk st q n.
Proof.
  intros Hst Hp. induction n as [|n IH]; intros q [bq Hq]; simpl; [done|].
  rewrite lookup_insert_ne by congruence. rewrite Hq. simpl.
  destruct (pprev bq) as [r|] eqn:Er; simpl; [|done]. apply IH.
  destruct (linked_prev _ _ _ (Hst q bq Hq) r Er) as (b' & ? & _). eauto.
Qed.

(** Adding a block without a skip pointer. *)
Lemma linked_insert (st : store) p b :
  linked st -> st !! p = None -> pskip b = None ->
  match pprev b with
  | Some q => exists b', st !! q = Some b' /\ nHeight b = nHeight b' + 1
  | None => nHeight b = 0
  end -> linked (<[p := b]> st).
Proof.
  intros Hst Hp Hskip Hprev q bq. destruct (decide (p = q)) as [<-|Hne].
  - rewrite lookup_insert_eq. intros [= <-].
    destruct (pprev b) as [r|] eqn:Er.
    + destruct Hprev as (b' & Hb' & Hh). pose proof (linked_nonneg _ _ _ (Hst r b' Hb')).
      constructor; [lia| |congruence|congruence]. rewrite Er. intros ? [= <-]. exists b'.
      rewrite lookup_insert_ne by congruence. done.
    + constructor; [lia|congruence|done|congruence].
  - rewrite lookup_insert_ne by done. intros Hq. destruct (Hst q bq Hq) as [H0 H1 H2 H3].
    constructor; [done| |done|].
    + intros r Hr. destruct (H1 r Hr) as (b' & Hb' & Hh). exists b'.
      rewrite lookup_insert_ne by congruence. done.
    + intros r Hr. rewrite walk_fresh by eauto. by apply H3.
Qed.

Lemma BuildSkip_linked st p b q b' :
  linked st -> st !! p = Some b -> pprev b = Some q -> st !! q = Some b' -> nHeight b = nHeight b' + 1 ->
  exists s, BuildSkip st p = Some (<[p := set_pskip b (Some s)]> st) /\
    linked (<[p := set_pskip b (Some s)]> st).
Proof.
  intros Hst Hb Hq Hb' Hh. pose proof (linked_nonneg _ _ _ (Hst q b' Hb')).
  pose proof (GetSkipHeight_range (nHeight b) ltac:(lia)) as Hr.
  unfold BuildSkip. rewrite Hb. cbn [mbind option_bind]. rewrite Hq.
  rewrite (GetAncestor_walk st Hst q b') by done.
  rewrite (proj2 (Z.ltb_ge (nHeight b') _)), (proj2 (Z.ltb_ge _ 0)) by lia. cbn [orb mbind option_bind].
  destruct (walk_height st Hst q b' (Z.to_nat (nHeight b' - GetSkipHeight (nHeight b))) Hb')
    as (s & bs & Hw & _); [lia|]. rewrite Hw. exists s. split; [done|].
  assert (forall r, pprev <$> st !! r = pprev <$> <[p := set_pskip b (Some s)]> st !! r) as Hpp.
  { intros r. destruct (decide (p = r)) as [<-|]; [by rewrite lookup_insert_eq, Hb|by rewrite lookup_insert_ne]. }
  intros r br. destruct (decide (p = r)) as [<-|Hne].
  - rewrite lookup_insert_eq. intros [= <-]. destruct (Hst p b Hb) as [H0 H1 H2 _]. constructor; [done| |done|].
    + intros r Hr'. destruct (H1 r Hr') as (b'' & Hb'' & ?). exists b''. destruct (decide (p = r)) as [<-|].
      * rewrite Hb in Hb''. injection Hb'' as <-. lia.
      * by rewrite lookup_insert_ne.
    + intros r [= <-]. rewrite <- (walk_links st) by done. simpl nHeight.
      replace (Z.to_nat (nHeight b - GetSkipHeight (nHeight b)))
        with (S (Z.to_nat (nHeight b' - GetSkipHeight (nHeight b)))) by lia.
      cbn [walk]. rewrite Hb. cbn [mbind option_bind]. rewrite Hq. done.
  - rewrite lookup_insert_ne by done. intros Hbr. destruct (Hst r br Hbr) as [H0 H1 H2 H3]. constructor; [done| |done|].
    + intros t Ht. destruct (H1 t Ht) as (b'' & Hb'' & ?). destruct (decide (p = t)) as [<-|].
      * exists (set_pskip b (Some s)). rewrite lookup_insert_eq. split; [done|]. simpl. congruence.
      * exists b''. by rewrite lookup_insert_ne.
    + intros t Ht. rewrite <- (walk_links st) by done. by apply H3.
Qed.

(** ** The invariant of the index *)

(** An entry's totals, from its parent's. *)
Definition totals_ok (st : store) (b : CBlockIndex) : Prop :=
  in_uint 32 (nBits b) /\ wf 8 (nChainWork b) /\
  match pprev b with
  | Some q => exists b', st !! q = Some b' /\
      value (nChainWork b) = (value (nChainWork b') + block_work (nBits b)) `mod` 2 ^ 256 /\
      nTimeMax b = Z.max (nTimeMax b') (nTime b)
  | None => value (nChainWork b) = block_work (nBits b) /\ nTimeMax b = nTime b
  end.

Record index_inv (s : BlockIndexState) : Prop := {
  ii_linked : linked (blocks s);
  ii_fresh p : (next_block s <= p)%nat -> blocks s !! p = None;
  ii_map h p : mapBlockIndex s !! h = Some p -> exists b, blocks s !! p = Some b /\ phashBlock b = Some h;
  ii_totals p b : blocks s !! p = Some b -> totals_ok (blocks s) b;
  ii_skip p b : blocks s !! p = Some b -> is_Some (pskip b) <-> is_Some (pprev b);
  ii_best_valid q : pindexBestHeader s = Some q ->
    exists bq, blocks s !! q = Some bq /\ nStatus bq &&& BLOCK_CONFLICT_CHAINLOCK = 0;
  ii_best p b : blocks s !! p = Some b -> nStatus b &&& BLOCK_CONFLICT_CHAINLOCK = 0 ->
    exists q bq, pindexBestHeader s = Some q /\ blocks s !! q = Some bq /\
      value (nChainWork b) <= value (nChainWork bq);
}.

Definition empty_index : BlockIndexState := mkBlockIndexState ∅ 0 ∅ None ∅ [].

Lemma empty_index_inv : index_inv empty_index.
Proof. constructor; try done; intros ? ? Hb; simpl in *; by rewrite lookup_empty in Hb. Qed.

Lemma link_parent_spec s (b : CBlockIndex) (miPrev : option ptr) :
  index_inv s -> pprev b = None -> pskip b = None -> nHeight b = 0 ->
  (forall q, miPrev = Some q -> is_Some (blocks s !! q)) ->
  exists b1 prev, link_parent (blocks s) (next_block s) b miPrev = Some (<[next_block s := b1]> (blocks s), prev) /\
    linked (<[next_block s := b1]> (blocks s)) /\ pprev b1 = miPrev /\
    (phashBlock b1, nStatus b1, nTime b1, nBits b1) = (phashBlock b, nStatus b, nTime b, nBits b) /\
    (nVersion b1, hashMerkleRoot b1, nNonce b1) = (nVersion b, hashMerkleRoot b, nNonce b) /\
    (is_Some (pskip b1) <-> is_Some (pprev b1)) /\
    prev = (miPrev ≫= λ q, blocks s !! q).
Proof.
  intros Hs Hp Hsk Hh Hin. pose proof (ii_fresh s Hs (next_block s) ltac:(lia)) as Hnew.
  unfold link_parent. destruct miPrev as [q|].
  - destruct (Hin q eq_refl) as [prev Hq]. rewrite lookup_insert_ne by congruence. rewrite Hq. cbn [mbind option_bind].
    set (b0 := set_prev b q (nHeight prev + 1)).
    assert (linked (<[next_block s := b0]> (blocks s))) as Hl.
    { apply linked_insert; [apply Hs|done..|]. simpl. eauto. }
    destruct (BuildSkip_linked (<[next_block s := b0]> (blocks s)) (next_block s) b0 q prev) as (sk & -> & Hl');
      [done|by rewrite lookup_insert_eq|done|by rewrite lookup_insert_ne by congruence|done|].
    cbn [mbind option_bind]. rewrite insert_insert_eq in *. rewrite Hq.
    exists (set_pskip b0 (Some sk)), (Some prev). split_and!; try done.
  - exists b, None. split; [done|]. split; [apply linked_insert; [apply Hs|done..|]; by rewrite Hp|]. by rewrite Hp, Hsk.
Qed.

(** Replacing the newest entry by one with the same links and totals filled in. *)
Lemma index_inv_insert s (b1 b2 : CBlockIndex) h best :
  let st := <[next_block s := b2]> (blocks s) in
  index_inv s -> linked (<[next_block s := b1]> (blocks s)) -> links b2 = links b1 ->
  phashBlock b2 = Some h -> totals_ok (blocks s) b2 -> (is_Some (pskip b2) <-> is_Some (pprev b2)) ->
  (best = pindexBestHeader s /\ nStatus b2 &&& BLOCK_CONFLICT_CHAINLOCK <> 0 \/
   best = pindexBestHeader s /\ (exists q bq, best = Some q /\ blocks s !! q = Some bq /\
     value (nChainWork b2) <= value (nChainWork bq)) \/
   best = Some (next_block s) /\ nStatus b2 &&& BLOCK_CONFLICT_CHAINLOCK = 0 /\ (forall q bq, pindexBestHeader s = Some q -> blocks s !! q = Some bq ->
     value (nChainWork bq) <= value (nChainWork b2))) ->
  forall dirty prevs, index_inv (mkBlockIndexState st (S (next_block s)) (<[h := next_block s]> (mapBlockIndex s))
    best dirty prevs).
Proof.
  intros st Hs Hl Hlinks Hh Ht Hskip Hbest dirty prevs.
  pose proof (ii_fresh s Hs (next_block s) ltac:(lia)) as Hnew.
  assert (forall q bq, blocks s !! q = Some bq -> st !! q = Some bq) as Hold.
  { intros q bq Hq. unfold st. by rewrite lookup_insert_ne by congruence. }
  assert (forall b, totals_ok (blocks s) b -> totals_ok st b) as Htot.
  { intros b (? & ? & Hb). split; [done|]. split; [done|]. destruct (pprev b); [|done].
    destruct Hb as (b' & ? & ?). eauto. }
  constructor; simpl.
  - eapply linked_links; [|exact Hl]. intros q. unfold st. destruct (decide (next_block s = q)) as [<-|].
    + rewrite !lookup_insert_eq. simpl. by rewrite Hlinks.
    + by rewrite !lookup_insert_ne.
  - intros p Hp. unfold st. rewrite lookup_insert_ne by lia. apply (ii_fresh s Hs). lia.
  - intros h' p [[-> <-]|[? Hm]]%lookup_insert_Some; [exists b2; unfold st; by rewrite lookup_insert_eq|].
    destruct (ii_map s Hs h' p Hm) as (b & ? & ?). eauto.
  - intros p b [[<- <-]|[? Hp]]%lookup_insert_Some; [auto|]. apply Htot. by eapply (ii_totals s Hs).
  - intros p b [[<- <-]|[? Hp]]%lookup_insert_Some; [done|]. by apply (ii_skip s Hs p).
  - intros q Hq. destruct Hbest as [[-> _]|[[-> _]|(-> & ? & _)]].
    1,2: destruct (ii_best_valid s Hs q Hq) as (bq & ? & ?); eauto.
    injection Hq as <-. unfold st. rewrite lookup_insert_eq. eauto.
  - intros p b [[<- <-]|[? Hp]]%lookup_insert_Some Hstat.
    + destruct Hbest as [[_ ?]|[[-> (q & bq & ? & ? & ?)]|[-> _]]]; [done|eauto 6|].
      exists (next_block s), b2. unfold st. by rewrite lookup_insert_eq.
    + destruct (ii_best s Hs p b Hp Hstat) as (q & bq & Hq & Hbq & Hle).
      destruct Hbest as [[-> _]|[[-> _]|(-> & _ & Hmax)]]; [eauto 6..|].
      exists (next_block s), b2. unfold st. rewrite lookup_insert_eq. split; [done|]. split; [done|].
      specialize (Hmax q bq Hq Hbq). lia.
Qed.

Lemma RaiseValidity_new b : nStatus b = 0 -> RaiseValidity BLOCK_VALID_TREE b = Some (true, set_status b 2).
Proof. intros E. unfold RaiseValidity. rewrite E. done. Qed.

(** The totals [AddToBlockIndex] computes. *)
Lemma new_totals (st : store) (b : CBlockIndex) (prev : option CBlockIndex) proof status :
  (forall p b', st !! p = Some b' -> totals_ok st b') ->
  in_uint 32 (nBits b) -> prev = (pprev b ≫= λ q, st !! q) -> (forall q, pprev b = Some q -> is_Some (st !! q)) ->
  wf 8 proof -> value proof = block_work (nBits b) ->
  totals_ok st (set_status (set_totals b
    (match prev with Some q => Z.max (nTimeMax q) (nTime b) | None => nTime b end)
    (add (match prev with Some q => nChainWork q | None => of_uint64 8 0 end) proof)) status).
Proof.
  intros Htot Hbits -> Hin Hw Hv. unfold totals_ok. simpl. split; [done|].
  destruct (pprev b) as [q|] eqn:Eq; simpl.
  - destruct (Hin q eq_refl) as [b' Hb']. rewrite Hb'. destruct (Htot q b' Hb') as (_ & Hw' & _).
    split; [by apply wf_add|]. exists b'. split; [done|]. rewrite (value_add 8), Hv by done. done.
  - assert (wf 8 (of_uint64 8 0)) as Hw0 by (apply wf_of_uint64; lia). split; [by apply wf_add|].
    rewrite (value_add 8), Hv by done. change (value (of_uint64 8 0)) with 0.
    pose proof (block_work_range (nBits b) Hbits). change (32 * 8%nat) with 256.
    rewrite Z.mod_small by lia. split; [lia|done].
Qed.

(** The entry of a header that was added under [hash] as [status], with the parent [prev]. *)
Record entry_of (hash : uint256) (x : Header.CBlockHeader * Z) (prev : option ptr) (b : CBlockIndex) : Prop := {
  entry_hash : phashBlock b = Some hash;
  entry_fields : (nVersion b, hashMerkleRoot b, nTime b, nBits b, nNonce b) =
    (Header.nVersion x.1, Header.hashMerkleRoot x.1, Header.nTime x.1, Header.nBits x.1, Header.nNonce x.1);
  entry_prev : pprev b = prev;
  entry_status : nStatus b = if decide (x.2 = BLOCK_VALID_TREE) then 2 else 2 ||| x.2;
}.
(** What adding a header does: nothing when its hash is known, and else a new entry under a new pointer. *)
Definition added (hash : uint256) (x : Header.CBlockHeader * Z) (p : ptr) (s s' : BlockIndexState) : Prop :=
  mapBlockIndex s !! hash = Some p /\ s' = s \/
  mapBlockIndex s !! hash = None /\ p = next_block s /\ mapBlockIndex s' = <[hash := p]> (mapBlockIndex s) /\
    exists b, blocks s' = <[p := b]> (blocks s) /\ entry_of hash x (mapBlockIndex s !! Header.hashPrevBlock x.1) b.

Lemma AddToBlockIndex_inv GetHash x s :
  index_inv s -> in_uint 32 (Header.nBits x.1) -> Header.hashPrevBlock x.1 <> GetHash x.1 ->
  x.2 = BLOCK_VALID_TREE \/ x.2 = BLOCK_CONFLICT_CHAINLOCK ->
  exists p s', AddToBlockIndex GetHash x.1 x.2 s = Some (p, s') /\ index_inv s' /\ added (GetHash x.1) x p s s'.
Proof.
  destruct x as [block status]. cbn [fst snd]. intros Hs Hbits Hprev Hstatus. unfold AddToBlockIndex.
  assert (((status &&& BLOCK_FAILED_MASK) =? 0) = true) as -> by (by destruct Hstatus as [->| ->]).
  cbn [negb]. destruct (mapBlockIndex s !! GetHash block) as [p|] eqn:Em.
  { exists p, s. split; [done|]. split; [done|]. by left. }
  rewrite lookup_insert_ne by congruence. set (miPrev := mapBlockIndex s !! Header.hashPrevBlock block).
  assert (forall q, miPrev = Some q -> is_Some (blocks s !! q)) as Hin.
  { intros q Hq. destruct (ii_map s Hs _ _ Hq) as (b & ? & _). eauto. }
  destruct (link_parent_spec s (new_block_index block (GetHash block)) miPrev) as
    (b1 & prev & -> & Hl & Hp & Hfields & Hrest & Hskip & Eprev); [done..|].
  simpl in Hfields, Hrest. injection Hfields as Hhash Hst Htime Hnb. injection Hrest as Hv Hm Hno. cbn [mbind option_bind].
  rewrite lookup_insert_eq. cbn [mbind option_bind].
  destruct (GetBlockProof_value (nBits b1)) as (proof & -> & Hwp & Hvp); [by rewrite Hnb|]. cbn [mbind option_bind].
  pose proof (λ st, new_totals (blocks s) b1 prev proof st (ii_totals s Hs)
    ltac:(by rewrite Hnb) ltac:(by rewrite Hp) ltac:(by rewrite Hp) Hwp Hvp) as Htot.
  set (b2 := set_totals b1 _ _) in *.
  assert (forall b best dirty prevs, index_inv
      (mkBlockIndexState (<[next_block s := b]> (blocks s)) (S (next_block s))
        (<[GetHash block := next_block s]> (mapBlockIndex s)) best dirty prevs) ->
    entry_of (GetHash block) (block, status) miPrev b ->
    exists p s', Some (next_block s, mkBlockIndexState (<[next_block s := b]> (<[next_block s := b1]> (blocks s)))
        (S (next_block s)) (<[GetHash block := next_block s]> (mapBlockIndex s)) best dirty prevs) = Some (p, s') /\
      index_inv s' /\ added (GetHash block) (block, status) p s s') as Hfinish.
  { intros b best dirty prevs Hi He. rewrite insert_insert_eq. do 2 eexists. split; [done|]. split; [done|].
    right. split; [done|]. split; [done|]. split; [done|]. by exists b. }
  pose proof (λ st best, index_inv_insert s b1 (set_status b2 st) (GetHash block) best Hs Hl eq_refl Hhash (Htot st) Hskip) as Hinv.
  assert (forall st, st = (if decide (status = BLOCK_VALID_TREE) then 2 else 2 ||| status) ->
    entry_of (GetHash block) (block, status) miPrev (set_status b2 st)) as Hentry.
  { intros st ->. by split; simpl; [|congruence|..]. }
  destruct Hstatus as [-> | ->]; cbn [negb]; rewrite (RaiseValidity_new b2) by done; cbn [mbind option_bind fst snd].
  - change ((BLOCK_VALID_TREE &&& BLOCK_VALID_MASK) =? 0) with false. cbn [negb].
    destruct (pindexBestHeader s) as [q|] eqn:Ebest.
    + destruct (ii_best_valid s Hs q Ebest) as (bq & Hbq & _).
      rewrite lookup_insert_ne by (intros <-; by rewrite (ii_fresh s Hs) in Hbq by lia).
      rewrite Hbq. cbn [mbind option_bind]. destruct (ii_totals s Hs q bq Hbq) as (_ & Hwq & _).
      rewrite (CompareTo_spec 8) by (done || apply (Htot 0)). apply Hfinish; [apply Hinv|by apply Hentry].
      destruct (Z.ltb_spec (value (nChainWork bq)) (value (nChainWork (set_status b2 2)))) as [Hlt|Hge]; simpl.
      * right; right. split; [done|]. split; [done|]. intros q' bq' [= <-] Hq'. rewrite Hbq in Hq'. injection Hq' as <-. simpl in *. lia.
      * right; left. rewrite (proj2 (Z.ltb_ge (if _ <? _ then 1 else 0) 0)) by (destruct (_ <? _); lia).
        split; [done|]. exists q, bq. split; [done|]. split; [done|]. simpl in *. lia.
    + cbn [mbind option_bind]. apply Hfinish; [apply Hinv|by apply Hentry]. right; right. split; [done|]. split; [done|]. by intros ? ? [=].
  - change ((BLOCK_CONFLICT_CHAINLOCK &&& BLOCK_VALID_MASK) =? 0) with true. cbn [negb mbind option_bind].
    apply Hfinish; [apply (Hinv (2 ||| 128) (pindexBestHeader s)); by left|by apply Hentry].
Qed.

(** ** Totals along the path *)

Definition work_at (st : store) (q : ptr) : Z :=
  match st !! q with Some b => block_work (nBits b) | None => 0 end.
Definition path_work (st : store) (p : ptr) : Z := foldr (λ q w, work_at st q + w) 0 (path st p).

Lemma foldr_work_app st l1 l2 :
  foldr (λ q w, work_at st q + w) 0 (l1 ++ l2) =
    foldr (λ q w, work_at st q + w) 0 l1 + foldr (λ q w, work_at st q + w) 0 l2.
Proof. induction l1 as [|x l1 IH]; simpl; [lia|]. rewrite IH. lia. Qed.

Section totals.
Context (s : BlockIndexState) (Hs : index_inv s).

Lemma chain_work_path p b :
  blocks s !! p = Some b -> value (nChainWork b) = path_work (blocks s) p `mod` 2 ^ 256.
Proof.
  revert p b. apply (block_ind (blocks s) (ii_linked s Hs)).
  - intros p b Hb Hp. destruct (ii_totals s Hs p b Hb) as (Hbits & _ & Ht). rewrite Hp in Ht.
    destruct Ht as [-> _]. unfold path_work. rewrite (path_root _ (ii_linked s Hs) p b) by done. simpl.
    unfold work_at. rewrite Hb, Z.add_0_r. pose proof (block_work_range (nBits b) Hbits).
    by rewrite Z.mod_small by lia.
  - intros p b q b' Hb Hq Hb' _ IH. destruct (ii_totals s Hs p b Hb) as (_ & _ & Ht). rewrite Hq in Ht.
    destruct Ht as (b'' & Hb'' & -> & _). rewrite Hb' in Hb''. injection Hb'' as <-.
    rewrite IH. unfold path_work. rewrite (path_snoc _ (ii_linked s Hs) p b q), foldr_work_app by done.
    cbn [foldr]. assert (work_at (blocks s) p = block_work (nBits b)) as -> by (unfold work_at; by rewrite Hb).
    by rewrite Z.add_0_r, Zplus_mod_idemp_l.
Qed.

Lemma time_max_path p b :
  blocks s !! p = Some b ->
  (forall q bq, q ∈ path (blocks s) p -> blocks s !! q = Some bq -> nTime bq <= nTimeMax b) /\
  exists q bq, q ∈ path (blocks s) p /\ blocks s !! q = Some bq /\ nTime bq = nTimeMax b.
Proof.
  revert p b. apply (block_ind (blocks s) (ii_linked s Hs)).
  - intros p b Hb Hp. destruct (ii_totals s Hs p b Hb) as (_ & _ & Ht). rewrite Hp in Ht.
    destruct Ht as [_ ->]. rewrite (path_root _ (ii_linked s Hs) p b) by done. split.
    + intros q bq ->%list_elem_of_singleton Hbq. rewrite Hb in Hbq. by injection Hbq as <-.
    + exists p, b. rewrite list_elem_of_singleton. done.
  - intros p b q b' Hb Hq Hb' _ [IH1 (r & br & Hr & Hbr & Hmax)].
    destruct (ii_totals s Hs p b Hb) as (_ & _ & Ht). rewrite Hq in Ht.
    destruct Ht as (b'' & Hb'' & _ & ->). rewrite Hb' in Hb''. injection Hb'' as <-.
    rewrite (path_snoc _ (ii_linked s Hs) p b q) by done. split.
    + intros q' bq [Hin| ->%list_elem_of_singleton]%elem_of_app Hbq.
      * specialize (IH1 q' bq Hin Hbq). lia.
      * rewrite Hb in Hbq. injection Hbq as <-. lia.
    + destruct (decide (nTime b <= nTimeMax b')).
      * exists r, br. split; [set_solver|]. split; [done|]. lia.
      * exists p, b. split; [set_solver|]. split; [done|]. lia.
Qed.
End totals.

(** ** Properties *)

Fixpoint AddAll (GetHash : Header.CBlockHeader -> uint256) (l : list (Header.CBlockHeader * Z))
    (s : BlockIndexState) : option BlockIndexState :=
  match l with
  | [] => Some s
  | (block, status) :: l => '(_, s) ← AddToBlockIndex GetHash block status s; AddAll GetHash l s
  end.

Definition header_ok (GetHash : Header.CBlockHeader -> uint256) (x : Header.CBlockHeader * Z) : Prop :=
  in_uint 32 (Header.nBits x.1) /\ Header.hashPrevBlock x.1 <> GetHash x.1 /\
  (x.2 = BLOCK_VALID_TREE \/ x.2 = BLOCK_CONFLICT_CHAINLOCK).

(** Where the headers of a list are: the index has exactly their hashes, and the first header of each hash is
    the entry of the hash, below the entry of its parent's hash when a header before it has that hash. *)
Definition placed (GetHash : Header.CBlockHeader -> uint256) (l : list (Header.CBlockHeader * Z)) (s : BlockIndexState) : Prop :=
  let hash x := GetHash (fst x) in
  (forall h, is_Some (mapBlockIndex s !! h) <-> h ∈ hash <$> l) /\
  (forall p, is_Some (blocks s !! p) <-> exists h, mapBlockIndex s !! h = Some p) /\
  forall l1 x l2, l = l1 ++ x :: l2 -> hash x ∉ hash <$> l1 ->
    exists p b, mapBlockIndex s !! hash x = Some p /\ blocks s !! p = Some b /\
      entry_of (hash x) x (if decide (Header.hashPrevBlock x.1 ∈ hash <$> l1) then mapBlockIndex s !! Header.hashPrevBlock x.1 else None) b.

Lemma placed_same GetHash l x p s : placed GetHash l s -> mapBlockIndex s !! GetHash x.1 = Some p -> placed GetHash (l ++ [x]) s.
Proof.
  intros (H1 & H2 & H3) Hx. assert (GetHash x.1 ∈ (λ x, GetHash x.1) <$> l) as Hin by (apply H1; by eexists). split; [|split; [done|]].
  - intros h. rewrite fmap_app, elem_of_app, H1. cbn [fmap list_fmap]. rewrite list_elem_of_singleton. split; [by left|]. by intros [?| ->].
  - intros l1 y l2 E Hn. destruct l2 as [|z l2 _] using rev_ind.
    + apply app_inj_tail in E as [<- <-]. done.
    + rewrite app_comm_cons, app_assoc in E. apply app_inj_tail in E as [-> _]. by apply (H3 l1 y l2).
Qed.

Lemma placed_new GetHash l x p s s' b :
  placed GetHash l s -> index_inv s -> mapBlockIndex s !! GetHash x.1 = None -> Header.hashPrevBlock x.1 <> GetHash x.1 ->
  p = next_block s -> mapBlockIndex s' = <[GetHash x.1 := p]> (mapBlockIndex s) -> blocks s' = <[p := b]> (blocks s) ->
  entry_of (GetHash x.1) x (mapBlockIndex s !! Header.hashPrevBlock x.1) b -> placed GetHash (l ++ [x]) s'.
Proof.
  intros (H1 & H2 & H3) Hs Hx Hne Hp Em Eb He. pose proof (ii_fresh s Hs p ltac:(lia)) as Hnew.
  assert (forall h q, mapBlockIndex s !! h = Some q -> q <> p) as Hold.
  { intros h q Hq ->. destruct (ii_map s Hs h p Hq) as (bq & Hbq & _). congruence. }
  assert (forall h q, mapBlockIndex s !! h = Some q -> mapBlockIndex s' !! h = Some q) as Hkeep.
  { intros h q Hq. rewrite Em, lookup_insert_ne by congruence. done. }
  split; [|split].
  - intros h. rewrite fmap_app, elem_of_app, Em, lookup_insert_is_Some, H1. cbn [fmap list_fmap]. rewrite list_elem_of_singleton.
    destruct (decide (h = GetHash x.1)); naive_solver.
  - intros q. rewrite Eb, lookup_insert_is_Some, H2. split.
    + intros [<-|[Hq [h Hh]]]; [exists (GetHash x.1); by rewrite Em, lookup_insert_eq|]. exists h.
      rewrite Em, lookup_insert_ne; [done|]. congruence.
    + intros [h Hh]. rewrite Em in Hh. apply lookup_insert_Some in Hh as [[_ ->]|[_ Hh]]; [by left|right]. split; [|by exists h].
      intros <-. by apply (Hold h p).
  - intros l1 y l2 E Hn. destruct l2 as [|z l2 _] using rev_ind.
    + apply app_inj_tail in E as [<- <-]. exists p, b. rewrite Em, Eb, !lookup_insert_eq. split; [done|]. split; [done|].
      rewrite lookup_insert_ne by done. case_decide as Hd; [done|]. rewrite <- H1 in Hd. by apply eq_None_not_Some in Hd as <-.
    + rewrite app_comm_cons, app_assoc in E. apply app_inj_tail in E as [-> _]. destruct (H3 l1 y l2 eq_refl Hn) as (q & bq & Hq & Hbq & Hy).
      exists q, bq. split; [by apply Hkeep|]. split; [rewrite Eb, lookup_insert_ne; [done|]; intros <-; by apply (Hold _ _ Hq)|].
      case_decide as Hd; [|done]. destruct (proj2 (H1 (Header.hashPrevBlock y.1))) as [r Hr]; [rewrite fmap_app; apply elem_of_app; by left|].
      rewrite Hr in Hy. by rewrite (Hkeep _ r Hr).
Qed.

Lemma AddAll_inv GetHash l l0 s :
  index_inv s -> placed GetHash l0 s -> Forall (header_ok GetHash) l ->
  exists s', AddAll GetHash l s = Some s' /\ index_inv s' /\ placed GetHash (l0 ++ l) s'.
Proof.
  intros Hs Hpl Hl. revert l0 s Hs Hpl. induction Hl as [|x l (Hb & Hp & Hst) Hl IH]; intros l0 s Hs Hpl.
  { exists s. by rewrite app_nil_r. }
  destruct (AddToBlockIndex_inv GetHash x s) as (p & s1 & E & Hs1 & Hadd); [done..|]. destruct x as [block status]. cbn [AddAll fst snd] in *.
  rewrite E. cbn [mbind option_bind]. destruct (IH (l0 ++ [(block, status)]) s1 Hs1) as (s' & E' & Hs' & Hpl').
  - destruct Hadd as [[Hx ->]|(Hx & Ep & Em & b & Eb & He)]; [by eapply placed_same|by eapply placed_new].
  - exists s'. by rewrite <- app_assoc in Hpl'.
Qed.

(** C34: Whatever headers are added in whatever order to an empty index (a header does not
    contain its own hash, and is added as valid or as conflicting with a chain lock),
    [AddToBlockIndex] never fails an assertion.  At the end the index has an entry for every hash of a header and for nothing else:
    that of the first header with the hash, with the header's fields and status, below the entry of its
    [hashPrevBlock] when that was known when the header came, and a root otherwise.  The heights
    count from the roots, and the skip pointer of every entry with a parent is its ancestor at the skip height.  For
    every entry, [nChainWork] is the sum of the work of the blocks on its path modulo [2^256], and
    [nTimeMax] is the latest time on its path.  The best header is an entry that is not marked as conflicting, and has at least
    the work of every entry that is not. *)
Theorem AddToBlockIndex_spec (GetHash : Header.CBlockHeader -> uint256)
    (l : list (Header.CBlockHeader * Z)) :
  Forall (header_ok GetHash) l ->
  exists s, AddAll GetHash l empty_index = Some s /\ placed GetHash l s /\ linked (blocks s) /\
    (forall q, pindexBestHeader s = Some q -> exists bq, blocks s !! q = Some bq /\ nStatus bq &&& BLOCK_CONFLICT_CHAINLOCK = 0) /\
    forall p b, blocks s !! p = Some b ->
      pskip b = (if pprev b is Some _ then walk (blocks s) p (Z.to_nat (nHeight b - GetSkipHeight (nHeight b))) else None) /\
      (is_Some (pprev b) -> is_Some (pskip b)) /\
      value (nChainWork b) = path_work (blocks s) p `mod` 2 ^ 256 /\
      (forall q bq, q ∈ path (blocks s) p -> blocks s !! q = Some bq -> nTime bq <= nTimeMax b) /\
      (exists q bq, q ∈ path (blocks s) p /\ blocks s !! q = Some bq /\ nTime bq = nTimeMax b) /\
      (nStatus b &&& BLOCK_CONFLICT_CHAINLOCK = 0 ->
        exists q bq, pindexBestHeader s = Some q /\ blocks s !! q = Some bq /\
          value (nChainWork b) <= value (nChainWork bq)).
Proof.
  intros Hl. destruct (AddAll_inv GetHash l [] empty_index empty_index_inv) as (s & E & Hs & Hpl); [|done|].
  { split; [|split].
    - intros h. cbn. rewrite lookup_empty, elem_of_nil. split; [by intros [? [=]]|done].
    - intros p. cbn. rewrite lookup_empty. split; [by intros [? [=]]|]. intros [h Hh]. by rewrite lookup_empty in Hh.
    - intros [|? l1] x l2 [=]. }
  exists s. split; [done|]. split; [done|]. split; [apply Hs|]. split; [apply Hs|]. intros p b Hb.
  pose proof (ii_skip s Hs p b Hb) as Hsk. split; [|split; [apply Hsk|]].
  { destruct (pprev b) as [q|].
    - destruct (proj2 Hsk ltac:(by eexists)) as [k Hk]. rewrite Hk. symmetry. by apply (linked_skip _ _ _ (ii_linked s Hs p b Hb)).
    - destruct (pskip b) as [k|]; [|done]. destruct (proj1 Hsk ltac:(by eexists)) as [? [=]]. }
  split; [by apply chain_work_path|].
  destruct (time_max_path s Hs p b Hb) as [H1 H2]. split; [done|]. split; [done|]. by apply (ii_best s Hs p b).
Qed.

Definition example_headers : list (Header.CBlockHeader * Z) :=
  [(Header.mkCBlockHeader 1 [0] [] 100 0x207fffff 0, BLOCK_VALID_TREE);
   (Header.mkCBlockHeader 1 [1; 100; 0] [] 90 0x207fffff 1, BLOCK_VALID_TREE);
   (Header.mkCBlockHeader 1 [1; 100; 0] [] 120 0x1f00ffff 2, BLOCK_CONFLICT_CHAINLOCK)].
(** A stand-in for the hash of the example: a prefix, the time and the nonce. *)
Definition example_hash (h : Header.CBlockHeader) : uint256 := [1; Header.nTime h; Header.nNonce h].

Lemma AddToBlockIndex_spec_witness :
  exists s, AddAll example_hash example_headers empty_index = Some s /\ linked (blocks s).
Proof.
  destruct (AddToBlockIndex_spec example_hash example_headers) as (s & E & _ & Hl & _).
  - unfold example_headers, header_ok, example_hash, in_uint. split_Forall; simpl;
      (split; [lia|]); (split; [discriminate|]); auto.
  - exists s. split; [exact E|exact Hl].
Defined.

(** [GetBlockProof] never divides by zero and returns [2^256 / (target + 1)], computed
    without leaving 256 bits, or zero for a target that is negative, zero or too large. *)
Theorem GetBlockProof_spec (nBits : Z) :
  in_uint 32 nBits -> exists p, GetBlockProof nBits = Some p /\ wf 8 p /\ value p = block_work nBits.
Proof. apply GetBlockProof_value. Qed.

Lemma GetBlockProof_spec_witness :
  exists p, GetBlockProof 0x1d00ffff = Some p /\ wf 8 p /\ value p = 0x100010001.
Proof.
  destruct (GetBlockProof_spec 0x1d00ffff ltac:(unfold in_uint; lia)) as (p & E & Hw & Hv).
  exists p. split; [exact E|]. split; [exact Hw|]. rewrite Hv. vm_compute. reflexivity.
Defined.
