(* ===== verification/Pow.v ===== *)
(** * Difficulty and proof of work: pow.cpp

    [DarkGravityWave] sets the target of the next block from the last [DGWBlocksAvg] blocks,
    in 512-bit arithmetic; [CheckProofOfWork] compares a hash with the target of a block.
    [GetNextWorkRequiredBTC] is the retargeting rule used below [nPowDGWHeight]. *)

From S2P Require Import Prelude Bytes ArithUint256 ArithLaws Uint256 Chain ChainLaws.
Import BaseUint.

Record Params := mkParams {
  powLimit : uint256;
  fPowAllowMinDifficultyBlocks : bool;
  fPowNoRetargeting : bool;
  nPowTargetSpacing : Z; (* int64_t *)
  nPowTargetTimespan : Z; (* int64_t *)
  nPowDGWHeight : Z;
  DGWBlocksAvg : Z;
  nMinimumDifficultyBlocks : Z;
}.
Definition DifficultyAdjustmentInterval (params : Params) : Z :=
  Z.quot (nPowTargetTimespan params) (nPowTargetSpacing params).

Definition of_result {A} (r : result A) : option A :=
  match r with Ok a => Some a | Throw _ => None end.

(** ** DarkGravityWave *)

(** The loop over [nCountBlocks]; it ends with the average and the last block read.  [None]
    when an assertion fails or a division throws. *)
Fixpoint DarkGravityWave_loop (fuel : nat) (st : store) (nPastBlocks nCountBlocks : Z) (pindex : ptr)
    (bnPastTargetAvg : base_uint) : option (base_uint * ptr) :=
  if nPastBlocks <? nCountBlocks then Some (bnPastTargetAvg, pindex)
  else
    match fuel with
    | O => None
    | S fuel =>
        b ← st !! pindex;
        let bnTarget := arith_uint512 (SetCompact (nBits b)).1.1 in
        avg ← (if nCountBlocks =? 1 then Some bnTarget
               else of_result (div (add (mul32 bnPastTargetAvg nCountBlocks) bnTarget)
                                   (of_uint64 16 (u32 (nCountBlocks + 1)))));
        pindex ← (if negb (nCountBlocks =? nPastBlocks) then pprev b else Some pindex);
        DarkGravityWave_loop fuel st nPastBlocks (u32 (nCountBlocks + 1)) pindex avg
    end.

(** [nActualTimespan] is clamped to a factor of three; [*=] takes the 32-bit overload. *)
Definition clamp_timespan (nActualTimespan nTargetTimespan : Z) : Z :=
  let n := if nActualTimespan <? Z.quot nTargetTimespan 3 then Z.quot nTargetTimespan 3 else nActualTimespan in
  if nTargetTimespan * 3 <? n then nTargetTimespan * 3 else n.

Definition DarkGravityWave (st : store) (pindexLast : option ptr) (params : Params) : option Z :=
  let bnPowLimit := UintToArith256 (powLimit params) in
  let nPastBlocks := DGWBlocksAvg params in
  match pindexLast with
  | None => GetCompact bnPowLimit false
  | Some p =>
      last ← st !! p;
      if nHeight last <? nPastBlocks then GetCompact bnPowLimit false
      else
        '(bnNew, pindex) ← DarkGravityWave_loop (Z.to_nat nPastBlocks) st nPastBlocks 1 p (zero 16);
        first ← st !! pindex;
        let nTargetTimespan := nPastBlocks * nPowTargetSpacing params in
        let nActualTimespan := clamp_timespan (GetBlockTime last - GetBlockTime first) nTargetTimespan in
        bnNew ← of_result (div (mul32 bnNew (u32 nActualTimespan)) (of_uint64 16 (u64 nTargetTimespan)));
        let bnFinal := arith_trim256 bnNew in
        let bnFinal := if (CompareTo bnFinal (of_uint64 8 0) <=? 0) || (0 <? CompareTo bnFinal bnPowLimit)
                       then bnPowLimit else bnFinal in
        GetCompact bnFinal false
  end.

(** ** The Bitcoin rule *)

Definition CalculateNextWorkRequired (st : store) (pindexLast : ptr) (nFirstBlockTime : Z) (params : Params) :
    option Z :=
  last ← st !! pindexLast;
  if fPowNoRetargeting params then Some (nBits last)
  else
    let span := nPowTargetTimespan params in
    let nActualTimespan := GetBlockTime last - nFirstBlockTime in
    let nActualTimespan := if nActualTimespan <? Z.quot span 4 then Z.quot span 4 else nActualTimespan in
    let nActualTimespan := if span * 4 <? nActualTimespan then span * 4 else nActualTimespan in
    let bnPowLimit := UintToArith256 (powLimit params) in
    let bnNew := (SetCompact (nBits last)).1.1 in
    bnNew ← of_result (div (mul32 bnNew (u32 nActualTimespan)) (of_uint64 8 (u64 span)));
    GetCompact (if 0 <? CompareTo bnNew bnPowLimit then bnPowLimit else bnNew) false.

(** The walk back to the last block that does not have the special minimum difficulty. *)
Fixpoint last_non_special (fuel : nat) (st : store) (interval nProofOfWorkLimit : Z) (pindex : ptr) : option Z :=
  b ← st !! pindex;
  match pprev b with
  | Some q =>
      if negb (Z.rem (nHeight b) interval =? 0) && (nBits b =? nProofOfWorkLimit) then
        match fuel with O => None | S fuel => last_non_special fuel st interval nProofOfWorkLimit q end
      else Some (nBits b)
  | None => Some (nBits b)
  end.

Definition GetNextWorkRequiredBTC (st : store) (pindexLast : ptr) (blockTime : Z) (params : Params) : option Z :=
  last ← st !! pindexLast;
  nProofOfWorkLimit ← GetCompact (UintToArith256 (powLimit params)) false;
  let interval := DifficultyAdjustmentInterval params in
  if negb (Z.rem (nHeight last + 1) interval =? 0) then
    if fPowAllowMinDifficultyBlocks params then
      if GetBlockTime last + nPowTargetSpacing params * 2 <? blockTime then Some nProofOfWorkLimit
      else last_non_special (Z.to_nat (nHeight last)) st interval nProofOfWorkLimit pindexLast
    else Some (nBits last)
  else
    let nHeightFirst := nHeight last - (interval - 1) in
    if nHeightFirst <? 0 then None
    else
      pindexFirst ← GetAncestor st pindexLast nHeightFirst;
      p ← pindexFirst;
      first ← st !! p;
      CalculateNextWorkRequired st pindexLast (GetBlockTime first) params.

Definition GetNextWorkRequired (st : store) (pindexLast : option ptr) (blockTime : Z) (params : Params) :
    option Z :=
  p ← pindexLast;
  last ← st !! p;
  if nHeight last <? nMinimumDifficultyBlocks params then GetCompact (UintToArith256 (powLimit params)) false
  else if nHeight last + 1 <? nPowDGWHeight params then GetNextWorkRequiredBTC st p blockTime params
  else DarkGravityWave st pindexLast params.

(** ** CheckProofOfWork *)

Definition CheckProofOfWork (hash : uint256) (nBits : Z) (params : Params) : bool :=
  let '(bnTarget, fNegative, fOverflow) := SetCompact nBits in
  if fNegative || EqualTo bnTarget 0 || fOverflow ||
     (0 <? CompareTo bnTarget (UintToArith256 (powLimit params))) then false
  else negb (0 <? CompareTo (UintToArith256 hash) bnTarget).

(** ** Widening and narrowing *)

Lemma arith_uint512_spec b : wf 8 b -> wf 16 (arith_uint512 b) /\ value (arith_uint512 b) = value b.
Proof.
  intros [Hl Hb]. unfold arith_uint512. rewrite Hl. split.
  - split; [rewrite length_app, length_replicate; lia|]. apply Forall_app. split; [done|].
    apply Forall_replicate. by split.
  - rewrite value_app. fold (zero (16 - 8)). rewrite value_zero. lia.
Qed.

Lemma trim256_spec a : wf 16 a -> wf 8 (arith_trim256 a) /\ value (arith_trim256 a) = value a `mod` 2 ^ 256.
Proof.
  intros [Hl Ha]. unfold arith_trim256.
  assert (wf 8 (take 8 a)) as Hw by (split; [rewrite length_take; lia|by apply Forall_take]).
  split; [done|]. rewrite <- (take_drop 8 a) at 2. rewrite value_app, (proj1 Hw).
  pose proof (value_range _ (proj2 Hw)) as Hr. rewrite (proj1 Hw) in Hr.
  change (32 * 8%nat) with 256 in *. rewrite Z.mul_comm, Z.mod_add by lia. by rewrite Z.mod_small.
Qed.

(** The limit is a valid 256-bit integer. *)
Definition limit_ok (params : Params) : Prop :=
  bytes (powLimit params) /\ length (powLimit params) = 32%nat.

Lemma UintToArith256_spec a :
  bytes a -> length a = 32%nat -> wf 8 (UintToArith256 a) /\ value (UintToArith256 a) = le_value a.
Proof. intros. by apply (UintToArith_spec 8). Qed.

(** ** CheckProofOfWork *)

(** A hash passes [CheckProofOfWork] exactly when the compact target has no sign bit, is
    not zero, is at most the proof-of-work limit, and the hash, read as a little-endian
    integer, does not exceed it. *)
Theorem CheckProofOfWork_spec (hash : uint256) (nBits : Z) (params : Params) :
  bytes hash -> length hash = 32%nat -> limit_ok params -> in_uint 32 nBits ->
  let N := compact_value (nBits / 2 ^ 24) (nBits `mod` 2 ^ 23) in
  CheckProofOfWork hash nBits params =
    negb (Z.testbit nBits 23) && (0 <? N) && (N <=? le_value (powLimit params)) && (le_value hash <=? N).
Proof.
  intros Hh Hhl [Hp Hpl] Hn N. pose proof (SetCompact_parts nBits Hn) as HS. cbv zeta in HS.
  fold N in HS. unfold CheckProofOfWork. destruct (SetCompact nBits) as [[t neg] ovf].
  destruct HS as (Ht & Hv & -> & ->).
  destruct (UintToArith256_spec hash Hh Hhl) as [Hwh Hvh].
  destruct (UintToArith256_spec _ Hp Hpl) as [Hwp Hvp].
  pose proof (le_value_range _ Hp) as Hr. unfold in_uint in Hr. rewrite Hpl in Hr. change (8 * 32%nat) with 256 in Hr.
  assert (0 <= N) as HN0 by (apply compact_value_nonneg; apply Z.mod_pos_bound; lia).
  rewrite (EqualTo_spec 8) by (done || lia || by split). rewrite !(CompareTo_spec 8), Hvp, Hvh, Hv by done.
  destruct (Z.leb_spec (2 ^ 256) N) as [Hov|Hov].
  { rewrite (proj2 (Z.leb_gt N _)) by lia. rewrite !orb_true_r, !andb_false_r. done. }
  rewrite !Z.mod_small by lia.
  destruct (Z.testbit nBits 23), (Z.eqb_spec N 0), (Z.ltb_spec 0 N), (Z.leb_spec N (le_value (powLimit params))),
    (Z.leb_spec (le_value hash) N), (Z.ltb_spec N (le_value (powLimit params))),
    (Z.ltb_spec (le_value (powLimit params)) N), (Z.ltb_spec (le_value hash) N),
    (Z.ltb_spec N (le_value hash)); simpl; try done; lia.
Qed.

Definition example_params : Params :=
  mkParams (replicate 31 255 ++ [0]) false false 120 86400 60 60 0.

Lemma example_limit_ok : limit_ok example_params.
Proof. split; [|done]. unfold bytes, in_uint. simpl. repeat constructor; lia. Qed.

Lemma CheckProofOfWork_spec_witness :
  CheckProofOfWork (replicate 29 0 ++ [1; 0; 0]) 0x1e0fffff example_params = true.
Proof.
  rewrite (CheckProofOfWork_spec (replicate 29 0 ++ [1; 0; 0]) 0x1e0fffff example_params).
  - vm_compute. reflexivity.
  - unfold bytes, in_uint. simpl. repeat constructor; lia.
  - reflexivity.
  - apply example_limit_ok.
  - unfold in_uint. lia.
Defined.

(** ** DarkGravityWave *)

(** The target of a block. *)
Definition block_target (nBits : Z) : Z :=
  compact_value (nBits / 2 ^ 24) (nBits `mod` 2 ^ 23) `mod` 2 ^ 256.

Lemma SetCompact_target nBits :
  in_uint 32 nBits -> wf 8 (SetCompact nBits).1.1 /\ value (SetCompact nBits).1.1 = block_target nBits.
Proof.
  intros Hn. pose proof (SetCompact_parts nBits Hn) as HS. cbv zeta in HS.
  destruct (SetCompact nBits) as [[t neg] ovf]. destruct HS as (Ht & Hv & _). done.
Qed.

(** The average, in exact arithmetic: the [c]-th target is weighted against [c] times the
    average so far. *)
Definition average_step (c avg t : Z) : Z := if c =? 1 then t else (avg * c + t) / (c + 1).
Fixpoint average (c avg : Z) (ts : list Z) : Z :=
  match ts with
  | [] => avg
  | t :: ts => average (c + 1) (average_step c avg t) ts
  end.

Lemma average_step_bound L c avg t :
  1 <= c -> 0 <= avg <= L -> 0 <= t <= L -> 0 <= average_step c avg t <= L.
Proof.
  intros Hc Ha Ht. unfold average_step. destruct (c =? 1); [done|]. split.
  - apply Z.div_pos; nia.
  - apply Z.div_le_upper_bound; nia.
Qed.

Section DarkGravityWave.
Context (st : store) (Hst : linked st).
Context (Hbits : forall q b, st !! q = Some b -> in_uint 32 (nBits b)).

(** The target of the block [i] parents up from [p]. *)
Definition target_at (p : ptr) (i : nat) : Z :=
  match (q ← walk st p i; st !! q) with Some b => block_target (nBits b) | None => 0 end.

(** One step of the average in 512 bits. *)
Lemma average_limbs L c avg A t T :
  L < 2 ^ 256 -> 1 <= c < 2 ^ 31 -> wf 16 avg -> value avg = A -> 0 <= A <= L -> wf 8 t -> value t = T -> 0 <= T <= L ->
  exists r, (if c =? 1 then Some (arith_uint512 t)
    else of_result (div (add (mul32 avg c) (arith_uint512 t)) (of_uint64 16 (u32 (c + 1))))) = Some r /\
    wf 16 r /\ value r = average_step c A T.
Proof.
  intros HL Hc Havg HA HAL Ht HT HTL. destruct (arith_uint512_spec t Ht) as [Ht' HT'].
  unfold average_step. destruct (Z.eqb_spec c 1) as [->|Hc1].
  { exists (arith_uint512 t). rewrite HT', HT. done. }
  rewrite u32_small by lia.
  assert (in_uint 32 c) as Hc32 by (unfold in_uint; lia).
  assert (wf 16 (mul32 avg c)) as Hwm by (by apply wf_mul32).
  assert (value (mul32 avg c) = A * c) as Hvm.
  { rewrite (value_mul32 16), HA by done. apply Z.mod_small. change (32 * 16%nat) with 512. nia. }
  assert (value (add (mul32 avg c) (arith_uint512 t)) = A * c + T) as Hva.
  { rewrite (value_add 16), Hvm, HT', HT by done. apply Z.mod_small. change (32 * 16%nat) with 512. nia. }
  assert (value (of_uint64 16 (c + 1)) = c + 1) as Hvd by (apply value_of_uint64; unfold in_uint; lia).
  pose proof (div_spec 16 (add (mul32 avg c) (arith_uint512 t)) (of_uint64 16 (c + 1))
    (wf_add _ _ _ Hwm Ht') (wf_of_uint64 16 _ ltac:(lia))) as Hdiv.
  rewrite Hvd, (proj2 (Z.eqb_neq (c + 1) 0)) in Hdiv by lia. destruct Hdiv as (q & -> & Hq & Hvq).
  exists q. split; [done|]. split; [done|]. by rewrite Hvq, Hva.
Qed.

Lemma DarkGravityWave_loop_spec (L : Z) (k c n : nat) p b q avg A :
  L < 2 ^ 256 -> (forall q b, st !! q = Some b -> block_target (nBits b) <= L) ->
  st !! p = Some b -> (0 < n)%nat -> n <= nHeight b -> n < 2 ^ 31 -> (1 <= c)%nat -> (c + k = n + 1)%nat ->
  walk st p (Nat.min (c - 1) (n - 1)) = Some q -> wf 16 avg -> value avg = A -> 0 <= A <= L ->
  exists avg' q', DarkGravityWave_loop k st n c q avg = Some (avg', q') /\ wf 16 avg' /\
    value avg' = average c A (target_at p <$> seq (c - 1) k) /\ 0 <= value avg' <= L /\
    walk st p (n - 1) = Some q'.
Proof.
  intros HL HT Hb Hn Hh Hn31. revert c q avg A. induction k as [|k IH]; intros c q avg A Hc Hck Hw Havg HA HAL.
  - exists avg, q. cbn [DarkGravityWave_loop]. rewrite (proj2 (Z.ltb_lt _ _)) by lia.
    rewrite Nat.min_r in Hw by lia. simpl. split_and!; done || lia.
  - cbn [DarkGravityWave_loop]. rewrite (proj2 (Z.ltb_ge _ _)) by lia. rewrite Nat.min_l in Hw by lia.
    destruct (walk_height st Hst p b (c - 1) Hb) as (q1 & bq & Hw1 & Hbq & Hhq); [lia|].
    rewrite Hw in Hw1. injection Hw1 as <-. rewrite Hbq. cbn [mbind option_bind].
    destruct (SetCompact_target (nBits bq) (Hbits q bq Hbq)) as [Ht Hv].
    assert (0 <= block_target (nBits bq) <= L) as HtL by (split; [apply Z.mod_pos_bound; lia|by apply (HT q)]).
    destruct (average_limbs L c avg A (SetCompact (nBits bq)).1.1 (block_target (nBits bq)))
      as (r & -> & Hr & Hvr); [done|lia|done..|].
    cbn [mbind option_bind]. pose proof (average_step_bound L c A _ ltac:(lia) HAL HtL) as Hstep.
    assert (target_at p (c - 1) = block_target (nBits bq)) as Et.
    { unfold target_at. rewrite Hw. cbn [mbind option_bind]. by rewrite Hbq. }
    assert (exists q', (if negb (c =? n) then pprev bq else Some q) = Some q' /\
      walk st p (Nat.min (S c - 1) (n - 1)) = Some q') as (q' & -> & Hw').
    { destruct (Z.eqb_spec c n) as [E|E]; cbn [negb].
      - exists q. split; [done|]. rewrite Nat.min_r by lia. by replace (n - 1)%nat with (c - 1)%nat by lia.
      - destruct (linked_parent st Hst q bq Hbq) as (q' & b' & Hq' & _); [lia|].
        exists q'. split; [done|]. rewrite Nat.min_l by lia. replace (S c - 1)%nat with (c - 1 + 1)%nat by lia.
        rewrite (walk_add st p (c - 1) 1 q Hw). cbn [walk]. rewrite Hbq. cbn [mbind option_bind]. by rewrite Hq'. }
    cbn [mbind option_bind]. rewrite u32_small by lia. replace (c + 1) with (Z.of_nat (S c)) by lia.
    destruct (IH (S c) q' r (average_step c A (block_target (nBits bq)))) as (avg' & q'' & E & Hw'' & Hv'' & ? & ?);
      [lia|lia|done..|].
    exists avg', q''. split; [done|]. split; [done|]. split; [|done]. rewrite Hv''.
    cbn [seq fmap list_fmap average]. rewrite Et. replace (S c - 1)%nat with (S (c - 1)) by lia.
    by replace (c + 1) with (Z.of_nat (S c)) by lia.
Qed.
End DarkGravityWave.

(** The target the rule defines for a block after [p], over the integers. *)
Definition retarget (st : store) (p : ptr) (n spacing limit : Z) : Z :=
  let avg := average 1 0 (target_at st p <$> seq 0 (Z.to_nat n)) in
  let time_at i := match (q ← walk st p i; st !! q) with Some b => nTime b | None => 0 end in
  let span := clamp_timespan (time_at 0%nat - time_at (Z.to_nat n - 1)%nat) (n * spacing) in
  let new := avg * span / (n * spacing) in
  if (new =? 0) || (limit <? new) then limit else new.

Lemma clamp_timespan_range a T : 0 < T -> 0 <= clamp_timespan a T <= 3 * T.
Proof.
  intros HT. unfold clamp_timespan. rewrite Z.quot_div_nonneg by lia.
  pose proof (Z.div_pos T 3). assert (T / 3 <= T) by (apply Z.div_le_upper_bound; lia).
  destruct (Z.ltb_spec a (T / 3));
    [destruct (Z.ltb_spec (T * 3) (T / 3))|destruct (Z.ltb_spec (T * 3) a)]; lia.
Qed.

(** The last part of the function: scale, trim, and limit. *)
Lemma retarget_limbs L avg A span T (limit : base_uint) :
  3 * L < 2 ^ 256 -> wf 16 avg -> value avg = A -> 0 <= A <= L -> 0 <= span <= 3 * T -> 0 < T -> 3 * T < 2 ^ 32 ->
  wf 8 limit -> value limit = L ->
  exists r, of_result (div (mul32 avg (u32 span)) (of_uint64 16 (u64 T))) = Some r /\
    let bnFinal := arith_trim256 r in
    let bnFinal := if (CompareTo bnFinal (of_uint64 8 0) <=? 0) || (0 <? CompareTo bnFinal limit)
                   then limit else bnFinal in
    wf 8 bnFinal /\
    value bnFinal = (let new := A * span / T in if (new =? 0) || (L <? new) then L else new).
Proof.
  intros HL Havg HA HAL Hspan HT HT32 Hlim HvL. rewrite u32_small, u64_small by lia.
  assert (in_uint 32 span) as Hs32 by (unfold in_uint; lia).
  assert (wf 16 (mul32 avg span)) as Hwm by (by apply wf_mul32).
  assert (value (mul32 avg span) = A * span) as Hvm.
  { rewrite (value_mul32 16), HA by done. apply Z.mod_small. change (32 * 16%nat) with 512. nia. }
  assert (value (of_uint64 16 T) = T) as Hvd by (apply value_of_uint64; unfold in_uint; lia).
  pose proof (div_spec 16 (mul32 avg span) (of_uint64 16 T) Hwm (wf_of_uint64 16 _ ltac:(lia))) as Hdiv.
  rewrite Hvd, (proj2 (Z.eqb_neq T 0)) in Hdiv by lia. destruct Hdiv as (r & -> & Hr & Hvr).
  exists r. split; [done|]. rewrite Hvm in Hvr. destruct (trim256_spec r Hr) as [Htr Hvt].
  assert (0 <= A * span / T < 2 ^ 256) as Hnew.
  { split; [apply Z.div_pos; nia|]. apply Z.div_lt_upper_bound; nia. }
  rewrite Hvr, Z.mod_small in Hvt by done. cbv zeta.
  rewrite !(CompareTo_spec 8) by (done || apply wf_of_uint64; lia).
  change (value (of_uint64 8 0)) with 0. rewrite Hvt, HvL.
  destruct (Z.eqb_spec (A * span / T) 0) as [E|E].
  { rewrite E. simpl. done. }
  rewrite (proj2 (Z.ltb_ge (A * span / T) 0)), (proj2 (Z.ltb_lt 0 (A * span / T))) by lia. cbn [Z.leb Z.compare orb].
  destruct (Z.ltb_spec (A * span / T) L), (Z.ltb_spec L (A * span / T)); simpl; done || lia.
Qed.

(** C36: [DarkGravityWave] computes the retargeting rule over the integers: the running
    average of the last [DGWBlocksAvg] targets, times the clamped time they took, divided by
    the time they should have taken, limited by the proof-of-work limit.  Neither the 512-bit
    intermediate results nor the truncation to 256 bits lose anything as long as the targets
    and three times the limit fit; below [DGWBlocksAvg] blocks it returns the limit. *)
Theorem DarkGravityWave_spec (st : store) (p : ptr) (b : CBlockIndex) (params : Params) :
  let n := DGWBlocksAvg params in
  let L := le_value (powLimit params) in
  linked st -> st !! p = Some b -> limit_ok params -> 3 * L < 2 ^ 256 ->
  (forall q bq, st !! q = Some bq -> in_uint 32 (nBits bq) /\ block_target (nBits bq) <= L) ->
  0 < n < 2 ^ 31 -> 0 < nPowTargetSpacing params -> 3 * (n * nPowTargetSpacing params) < 2 ^ 32 ->
  exists bn c, DarkGravityWave st (Some p) params = Some c /\ GetCompact bn false = Some c /\ wf 8 bn /\
    value bn = if nHeight b <? n then L else retarget st p n (nPowTargetSpacing params) L.
Proof.
  intros n L Hst Hb [Hp Hpl] HL Hblocks Hn Hsp HT. destruct (UintToArith256_spec _ Hp Hpl) as [Hwp Hvp].
  assert (forall bn, wf 8 bn -> exists c, GetCompact bn false = Some c) as Hcompact.
  { intros bn Hbn. pose proof (GetCompact_parts bn false Hbn) as HG.
    destruct (compact_parts (value bn)) as [sz w]. destruct HG as [-> _]. eauto. }
  unfold DarkGravityWave. rewrite Hb. cbn [mbind option_bind]. fold n.
  destruct (Z.ltb_spec (nHeight b) n) as [Hlt|Hge].
  { destruct (Hcompact _ Hwp) as [c Hc]. exists (UintToArith256 (powLimit params)), c. done. }
  assert (wf 16 (zero 16) /\ value (zero 16) = 0) as [Hz Hvz] by (split; [apply wf_zero|apply value_zero]).
  destruct (DarkGravityWave_loop_spec st Hst (λ q bq H, proj1 (Hblocks q bq H)) L (Z.to_nat n) 1 (Z.to_nat n)
    p b p (zero 16) 0) as (avg & q & E & Hwa & Hva & HaL & Hwq);
    [pose proof (le_value_range _ Hp); unfold in_uint in *; lia|intros; by eapply Hblocks|done|lia..|done|done|done|
     pose proof (le_value_range _ Hp) as Hr; unfold in_uint in Hr; fold L in Hr; lia|].
  rewrite Z2Nat.id in E by lia. change (Z.of_nat 1) with 1 in E. rewrite E. cbn [mbind option_bind].
  destruct (walk_height st Hst p b (Z.to_nat n - 1) Hb) as (q1 & bq & Hw1 & Hbq & _); [lia|].
  rewrite Hwq in Hw1. injection Hw1 as <-. rewrite Hbq. cbn [mbind option_bind].
  set (span := clamp_timespan _ _). pose proof (clamp_timespan_range
    (GetBlockTime b - GetBlockTime bq) (n * nPowTargetSpacing params) ltac:(lia)) as Hspan. fold span in Hspan.
  destruct (retarget_limbs L avg (value avg) span (n * nPowTargetSpacing params) (UintToArith256 (powLimit params)))
    as (r & -> & Hbn & Hvbn); [done|done|done|done|done|lia|lia|done|done|].
  cbn [mbind option_bind]. set (bn := if _ || _ then _ else _) in *.
  destruct (Hcompact bn Hbn) as [c Hc]. exists bn, c. split; [done|]. split; [done|]. split; [done|].
  rewrite Hvbn. unfold retarget. rewrite Hva. cbn [walk mbind option_bind]. rewrite Hb, Hwq. cbn [mbind option_bind].
  by rewrite Hbq.
Qed.

(** *** A chain of three blocks *)

Definition dgw_block (prev skip : option ptr) (h time bits : Z) : CBlockIndex :=
  mkCBlockIndex None prev skip h [] 0 0 [] time bits 0 0 0.
Definition dgw_store (bits : Z) : store :=
  <[0%nat := dgw_block None None 0 1000 bits]> (<[1%nat := dgw_block (Some 0%nat) (Some 0%nat) 1 1100 bits]>
    (<[2%nat := dgw_block (Some 1%nat) (Some 0%nat) 2 1300 bits]> ∅)).
Definition dgw_params (limit_top : Z) : Params :=
  mkParams (replicate 31 255 ++ [limit_top]) false false 120 86400 0 2 0.

Lemma dgw_linked bits : linked (dgw_store bits).
Proof.
  intros p b Hb. unfold dgw_store in Hb.
  repeat (apply lookup_insert_Some in Hb as [[<- <-]|[_ Hb]]).
  4: by rewrite lookup_empty in Hb.
  all: constructor; simpl; [done|..|done|]; intros; simplify_eq; try done.
  all: eexists; split; [reflexivity|done].
Qed.

Lemma DarkGravityWave_spec_witness :
  exists bn c, DarkGravityWave (dgw_store 0x1e0ffff0) (Some 2%nat) (dgw_params 0) = Some c /\
    GetCompact bn false = Some c /\ wf 8 bn /\ value bn = 0x0ffff0 * 256 ^ 27 * 200 / 240.
Proof.
  destruct (DarkGravityWave_spec (dgw_store 0x1e0ffff0) 2 (dgw_block (Some 1%nat) (Some 0%nat) 2 1300 0x1e0ffff0)
    (dgw_params 0)) as (bn & c & E & Ec & Hw & Hv).
  - apply dgw_linked.
  - reflexivity.
  - split; [|reflexivity]. unfold bytes, in_uint. simpl. repeat constructor; lia.
  - vm_compute. reflexivity.
  - intros q bq Hq. unfold dgw_store in Hq.
    repeat (apply lookup_insert_Some in Hq as [[<- <-]|[_ Hq]]).
    1-3: split; [unfold in_uint; simpl; lia|vm_compute; discriminate].
    by rewrite lookup_empty in Hq.
  - simpl. lia.
  - simpl. lia.
  - simpl. lia.
  - exists bn, c. split; [exact E|]. split; [exact Ec|]. split; [exact Hw|]. rewrite Hv. vm_compute. reflexivity.
Defined.

(** With a limit above [2^256 / 3], as on the development networks, the truncation to 256 bits
    is not harmless: blocks that come too slowly should lower the difficulty, but here the
    scaled target loses its top bit and ends up below the previous one. *)
Example DarkGravityWave_truncation :
  let bits := 0x20666666 in
  let slow := <[2%nat := dgw_block (Some 1%nat) (Some 0%nat) 2 5000 bits]> (dgw_store bits) in
  exists c, DarkGravityWave slow (Some 2%nat) (dgw_params 0x7f) = Some c /\ block_target c < block_target bits.
Proof. eexists. split; [vm_compute; reflexivity|by vm_compute]. Qed.
