(* ===== verification/Script.v ===== *)
(** * Scripts: script/script.h and script/script.cpp

    A [CScript] is the list of its bytes (the container, [prevector<28, unsigned char>],
    only chooses where they are stored).  A [const_iterator] into a script is the list of
    the bytes from it to the end, so [pc < end()] reads [pc <> []] and [end - pc] is its
    length.  [valtype] and every [std::vector<unsigned char>] are lists of bytes. *)

From S2P Require Import Prelude Bytes.

Notation script := (list Z) (only parsing).
Notation valtype := (list Z) (only parsing).

Definition MAX_SCRIPT_ELEMENT_SIZE : Z := 520.
Definition MAX_OPS_PER_SCRIPT : Z := 201.
Definition MAX_PUBKEYS_PER_MULTISIG : Z := 20.
Definition MAX_SCRIPT_SIZE : Z := 10000.
Definition MAX_STACK_SIZE : Z := 1000.
Definition LOCKTIME_THRESHOLD : Z := 500000000.

(** ** Opcodes *)

Definition OP_0 : Z := 0x00.
Definition OP_FALSE : Z := OP_0.
Definition OP_PUSHDATA1 : Z := 0x4c.
Definition OP_PUSHDATA2 : Z := 0x4d.
Definition OP_PUSHDATA4 : Z := 0x4e.
Definition OP_1NEGATE : Z := 0x4f.
Definition OP_RESERVED : Z := 0x50.
Definition OP_1 : Z := 0x51.
Definition OP_TRUE : Z := OP_1.
Definition OP_2 : Z := 0x52.
Definition OP_3 : Z := 0x53.
Definition OP_4 : Z := 0x54.
Definition OP_5 : Z := 0x55.
Definition OP_6 : Z := 0x56.
Definition OP_7 : Z := 0x57.
Definition OP_8 : Z := 0x58.
Definition OP_9 : Z := 0x59.
Definition OP_10 : Z := 0x5a.
Definition OP_11 : Z := 0x5b.
Definition OP_12 : Z := 0x5c.
Definition OP_13 : Z := 0x5d.
Definition OP_14 : Z := 0x5e.
Definition OP_15 : Z := 0x5f.
Definition OP_16 : Z := 0x60.
Definition OP_NOP : Z := 0x61.
Definition OP_VER : Z := 0x62.
Definition OP_IF : Z := 0x63.
Definition OP_NOTIF : Z := 0x64.
Definition OP_VERIF : Z := 0x65.
Definition OP_VERNOTIF : Z := 0x66.
Definition OP_ELSE : Z := 0x67.
Definition OP_ENDIF : Z := 0x68.
Definition OP_VERIFY : Z := 0x69.
Definition OP_RETURN : Z := 0x6a.
Definition OP_TOALTSTACK : Z := 0x6b.
Definition OP_FROMALTSTACK : Z := 0x6c.
Definition OP_2DROP : Z := 0x6d.
Definition OP_2DUP : Z := 0x6e.
Definition OP_3DUP : Z := 0x6f.
Definition OP_2OVER : Z := 0x70.
Definition OP_2ROT : Z := 0x71.
Definition OP_2SWAP : Z := 0x72.
Definition OP_IFDUP : Z := 0x73.
Definition OP_DEPTH : Z := 0x74.
Definition OP_DROP : Z := 0x75.
Definition OP_DUP : Z := 0x76.
Definition OP_NIP : Z := 0x77.
Definition OP_OVER : Z := 0x78.
Definition OP_PICK : Z := 0x79.
Definition OP_ROLL : Z := 0x7a.
Definition OP_ROT : Z := 0x7b.
Definition OP_SWAP : Z := 0x7c.
Definition OP_TUCK : Z := 0x7d.
Definition OP_CAT : Z := 0x7e.
Definition OP_SPLIT : Z := 0x7f.
Definition OP_SIZE : Z := 0x82.
Definition OP_NUM2BIN : Z := 0x80.
Definition OP_BIN2NUM : Z := 0x81.
Definition OP_INVERT : Z := 0x83.
Definition OP_AND : Z := 0x84.
Definition OP_OR : Z := 0x85.
Definition OP_XOR : Z := 0x86.
Definition OP_EQUAL : Z := 0x87.
Definition OP_EQUALVERIFY : Z := 0x88.
Definition OP_RESERVED1 : Z := 0x89.
Definition OP_RESERVED2 : Z := 0x8a.
Definition OP_1ADD : Z := 0x8b.
Definition OP_1SUB : Z := 0x8c.
Definition OP_2MUL : Z := 0x8d.
Definition OP_2DIV : Z := 0x8e.
Definition OP_NEGATE : Z := 0x8f.
Definition OP_ABS : Z := 0x90.
Definition OP_NOT : Z := 0x91.
Definition OP_0NOTEQUAL : Z := 0x92.
Definition OP_ADD : Z := 0x93.
Definition OP_SUB : Z := 0x94.
Definition OP_MUL : Z := 0x95.
Definition OP_DIV : Z := 0x96.
Definition OP_MOD : Z := 0x97.
Definition OP_LSHIFT : Z := 0x98.
Definition OP_RSHIFT : Z := 0x99.
Definition OP_BOOLAND : Z := 0x9a.
Definition OP_BOOLOR : Z := 0x9b.
Definition OP_NUMEQUAL : Z := 0x9c.
Definition OP_NUMEQUALVERIFY : Z := 0x9d.
Definition OP_NUMNOTEQUAL : Z := 0x9e.
Definition OP_LESSTHAN : Z := 0x9f.
Definition OP_GREATERTHAN : Z := 0xa0.
Definition OP_LESSTHANOREQUAL : Z := 0xa1.
Definition OP_GREATERTHANOREQUAL : Z := 0xa2.
Definition OP_MIN : Z := 0xa3.
Definition OP_MAX : Z := 0xa4.
Definition OP_WITHIN : Z := 0xa5.
Definition OP_RIPEMD160 : Z := 0xa6.
Definition OP_SHA1 : Z := 0xa7.
Definition OP_SHA256 : Z := 0xa8.
Definition OP_HASH160 : Z := 0xa9.
Definition OP_HASH256 : Z := 0xaa.
Definition OP_CODESEPARATOR : Z := 0xab.
Definition OP_CHECKSIG : Z := 0xac.
Definition OP_CHECKSIGVERIFY : Z := 0xad.
Definition OP_CHECKMULTISIG : Z := 0xae.
Definition OP_CHECKMULTISIGVERIFY : Z := 0xaf.
Definition OP_NOP1 : Z := 0xb0.
Definition OP_CHECKLOCKTIMEVERIFY : Z := 0xb1.
Definition OP_NOP2 : Z := OP_CHECKLOCKTIMEVERIFY.
Definition OP_CHECKSEQUENCEVERIFY : Z := 0xb2.
Definition OP_NOP3 : Z := OP_CHECKSEQUENCEVERIFY.
Definition OP_NOP4 : Z := 0xb3.
Definition OP_NOP5 : Z := 0xb4.
Definition OP_NOP6 : Z := 0xb5.
Definition OP_NOP7 : Z := 0xb6.
Definition OP_NOP8 : Z := 0xb7.
Definition OP_NOP9 : Z := 0xb8.
Definition OP_NOP10 : Z := 0xb9.
Definition OP_CHECKDATASIG : Z := 0xba.
Definition OP_CHECKDATASIGVERIFY : Z := 0xbb.
Definition OP_SMALLINTEGER : Z := 0xfa.
Definition OP_PUBKEYS : Z := 0xfb.
Definition OP_PUBKEYHASH : Z := 0xfd.
Definition OP_PUBKEY : Z := 0xfe.
Definition OP_INVALIDOPCODE : Z := 0xff.
Definition MAX_OPCODE : Z := OP_CHECKDATASIGVERIFY.

(** ** Script numbers: class CScriptNum

    [m_value] is an [int64_t]; the class only wraps it, so a script number is its value.
    The constructor from bytes throws [scriptnum_error]; the compound assignments assert
    that they do not overflow. *)
Module ScriptNum.

Definition nDefaultMaxNumSize : Z := 4.

Fixpoint serialize_loop (fuel : nat) (absvalue : Z) (result : list Z) : list Z :=
  match fuel with
  | O => result
  | S fuel =>
      if absvalue =? 0 then result
      else serialize_loop fuel (absvalue >> 8) (result ++ [absvalue &&& 0xff])
  end.

(** [result.back()], which the loop leaves non-empty. *)
Definition back (v : list Z) : Z := default 0 (last v).
Definition set_back (v : list Z) (x : Z) : list Z := take (length v - 1) v ++ [x].

(** for a value other than [INT64_MIN], whose negation is undefined (see [getvch]) *)
Definition serialize (value : Z) : list Z :=
  if value =? 0 then []
  else
    let neg := value <? 0 in
    let absvalue := u64 (if neg then i64 (- value) else value) in
    let result := serialize_loop 8 absvalue [] in
    if negb ((back result &&& 0x80) =? 0) then result ++ [if neg then 0x80 else 0]
    else if neg then set_back result (back result ||| 0x80)
    else result.

Fixpoint set_vch_loop (vch : list Z) (i : Z) (result : Z) : Z :=
  match vch with
  | [] => result
  | x :: vch => set_vch_loop vch (i + 1) (result ||| i64 (x << (8 * i)))
  end.

Definition set_vch (vch : list Z) : Z :=
  if (length vch =? 0)%nat then 0
  else
    let result := set_vch_loop vch 0 0 in
    if negb ((back vch &&& 0x80) =? 0)
    then i64 (- i64 (u64 result &&& u64 (Z.lnot (u64 (0x80 << (8 * (length vch - 1)))))))
    else result.

Definition IsMinimallyEncoded (vch : list Z) (nMaxNumSize : Z) : bool :=
  if nMaxNumSize <? length vch then false
  else if (0 <? Z.of_nat (length vch)) && ((back vch &&& 0x7f) =? 0)
          && ((length vch <=? 1)%nat || (((vch !!! (length vch - 2)%nat) &&& 0x80) =? 0))
  then false
  else true.

(** The loop of [MinimallyEncode] from index [i] down; [None] when it falls through. *)
Fixpoint MinimallyEncode_loop (i : nat) (last : Z) (data : list Z) : option (list Z) :=
  match i with
  | O => None
  | S j =>
      let x := data !!! j in
      if negb (x =? 0) then
        if negb ((x &&& 0x80) =? 0) then Some (take (i + 1) (<[i := last]> data))
        else Some (take i (<[j := x ||| last]> data))
      else MinimallyEncode_loop j last data
  end.

Definition MinimallyEncode (data : list Z) : bool * list Z :=
  if (length data =? 0)%nat then (false, data)
  else
    let last := back data in
    if negb ((last &&& 0x7f) =? 0) then (false, data)
    else if (length data =? 1)%nat then (true, [])
    else if negb (((data !!! (length data - 2)%nat) &&& 0x80) =? 0) then (false, data)
    else match MinimallyEncode_loop (length data - 1) last data with
         | Some data => (true, data)
         | None => (true, [])
         end.

(** [CScriptNum(vch, fRequireMinimal, nMaxNumSize)]. *)
Definition of_vch (vch : list Z) (fRequireMinimal : bool) (nMaxNumSize : Z) : result Z :=
  if nMaxNumSize <? length vch then Throw "script number overflow"
  else if fRequireMinimal && negb (IsMinimallyEncoded vch nMaxNumSize)
  then Throw "non-minimally encoded script number"
  else Ok (set_vch vch).

(** [None]: the negation in [serialize] overflows *)
Definition getvch (m_value : Z) : option (list Z) := if m_value =? - 2 ^ 63 then None else Some (serialize m_value).

Definition INT_MAX : Z := 2 ^ 31 - 1.
Definition INT_MIN : Z := - 2 ^ 31.
Definition getint (m_value : Z) : Z :=
  if INT_MAX <? m_value then INT_MAX
  else if m_value <? INT_MIN then INT_MIN
  else m_value.

(** The arithmetic operators.  An overflow of [int64_t], a division by zero, and a failed [assert] are [None]. *)
Definition checked (x : Z) : option Z := if (- 2 ^ 63 <=? x) && (x <? 2 ^ 63) then Some x else None.
Definition add (a b : Z) : option Z := checked (a + b).
Definition sub (a b : Z) : option Z := checked (a - b).
Definition div (a b : Z) : option Z := if b =? 0 then None else checked (Z.quot a b).
(** [INT64_MIN % -1] overflows as the quotient does *)
Definition rem (a b : Z) : option Z := if b =? 0 then None else _ ← checked (Z.quot a b); Some (Z.rem a b).
Definition and (a b : Z) : Z := a &&& b.
Definition opp (a : Z) : option Z := if a =? - 2 ^ 63 then None else Some (- a).
Definition add_assign (a rhs : Z) : option Z :=
  if (rhs =? 0) || ((0 <? rhs) && (a <=? 2 ^ 63 - 1 - rhs)) || ((rhs <? 0) && (- 2 ^ 63 - rhs <=? a))
  then Some (a + rhs) else None.
Definition sub_assign (a rhs : Z) : option Z :=
  if (rhs =? 0) || ((0 <? rhs) && (- 2 ^ 63 + rhs <=? a)) || ((rhs <? 0) && (a <=? 2 ^ 63 - 1 + rhs))
  then Some (a - rhs) else None.

End ScriptNum.

(** ** Reading a script *)

(** [GetScriptOp]: whether an operation was read, the iterator after it, the opcode and
    the data pushed (empty when the caller passes no vector). *)
Definition GetScriptOp (pc : script) : bool * script * Z * valtype :=
  match pc with
  | [] => (false, pc, OP_INVALIDOPCODE, [])
  | opcode :: pc =>
      if opcode <=? OP_PUSHDATA4 then
        let read (n : nat) :=
          if (length pc <? n)%nat then None else Some (le_value (take n pc), drop n pc) in
        let operand :=
          if opcode <? OP_PUSHDATA1 then Some (opcode, pc)
          else if opcode =? OP_PUSHDATA1 then read 1%nat
          else if opcode =? OP_PUSHDATA2 then read 2%nat
          else read 4%nat in
        match operand with
        | None => (false, pc, OP_INVALIDOPCODE, [])
        | Some (nSize, pc) =>
            if length pc <? nSize then (false, pc, OP_INVALIDOPCODE, [])
            else (true, drop (Z.to_nat nSize) pc, opcode, take (Z.to_nat nSize) pc)
        end
      else (true, pc, opcode, [])
  end.

Module Script.

Definition GetOp (pc : script) : bool * script * Z * valtype := GetScriptOp pc.

(** ** Writing a script: the overloads of [operator<<] *)

Definition push_opcode (s : script) (opcode : Z) : result (list Z) :=
  if (opcode <? 0) || (0xff <? opcode) then Throw "CScript::operator<<(): invalid opcode"
  else Ok (s ++ [opcode]).

Definition push_data (s : script) (b : valtype) : script :=
  (if length b <? OP_PUSHDATA1 then s ++ [Z.of_nat (length b)]
   else if length b <=? 0xff then s ++ [OP_PUSHDATA1; Z.of_nat (length b)]
   else if length b <=? 0xffff then s ++ [OP_PUSHDATA2] ++ WriteLE16 (length b)
   else s ++ [OP_PUSHDATA4] ++ WriteLE32 (length b)) ++ b.

(** [None]: [serialize] overflows *)
Definition push_num (s : script) (b : Z) : option script := push_data s <$> ScriptNum.getvch b.
Definition push_int64 (s : script) (n : Z) : option script :=
  if (n =? -1) || ((1 <=? n) && (n <=? 16)) then Some (s ++ [u8 (n + (OP_1 - 1))])
  else if n =? 0 then Some (s ++ [OP_0])
  else push_num s n.

Definition DecodeOP_N (opcode : Z) : option Z :=
  if opcode =? OP_0 then Some 0
  else if (OP_1 <=? opcode) && (opcode <=? OP_16) then Some (opcode - (OP_1 - 1))
  else None.
Definition EncodeOP_N (n : Z) : option Z :=
  if (0 <=? n) && (n <=? 16) then Some (if n =? 0 then OP_0 else OP_1 + n - 1) else None.

(** ** Predicates *)

Definition IsPayToPublicKeyHash (s : script) : bool :=
  (length s =? 25)%nat && (s !!! 0%nat =? OP_DUP) && (s !!! 1%nat =? OP_HASH160) && (s !!! 2%nat =? 0x14)
  && (s !!! 23%nat =? OP_EQUALVERIFY) && (s !!! 24%nat =? OP_CHECKSIG).

Definition IsPayToScriptHash (s : script) : bool :=
  (length s =? 23)%nat && (s !!! 0%nat =? OP_HASH160) && (s !!! 1%nat =? 0x14) && (s !!! 22%nat =? OP_EQUAL).

Definition IsPayToPublicKey (s : script) : bool :=
  if (length s =? 35)%nat
  then ((s !!! 1%nat =? 0x02) || (s !!! 1%nat =? 0x03)) && (s !!! 34%nat =? OP_CHECKSIG)
  else if (length s =? 67)%nat then (s !!! 1%nat =? 0x04) && (s !!! 66%nat =? OP_CHECKSIG)
  else false.

(** The loops below read at least one byte a turn, so the length of the script is
    enough fuel ([GetScriptOp_progress]). *)
Fixpoint IsPushOnly_loop (fuel : nat) (pc : script) : bool :=
  match fuel, pc with
  | _, [] => true
  | O, _ => false
  | S fuel, _ =>
      let '(ok, pc, opcode, _) := GetOp pc in
      if negb ok then false else if OP_16 <? opcode then false else IsPushOnly_loop fuel pc
  end.
Definition IsPushOnly (s : script) : bool := IsPushOnly_loop (length s) s.

Definition IsUnspendable (s : script) : bool :=
  match s with x :: _ => x =? OP_RETURN | [] => false end || (MAX_SCRIPT_SIZE <? length s).

(** ** Counting signature operations *)

Fixpoint GetSigOpCount_loop (fuel : nat) (fAccurate : bool) (pc : script) (lastOpcode n : Z) : Z :=
  match fuel, pc with
  | _, [] | O, _ => n
  | S fuel, _ =>
      let '(ok, pc, opcode, _) := GetOp pc in
      if negb ok then n
      else
        let n :=
          if (opcode =? OP_CHECKSIG) || (opcode =? OP_CHECKSIGVERIFY) then u32 (n + 1)
          else if (opcode =? OP_CHECKMULTISIG) || (opcode =? OP_CHECKMULTISIGVERIFY) then
            if fAccurate && (OP_1 <=? lastOpcode) && (lastOpcode <=? OP_16)
            then u32 (n + default 0 (DecodeOP_N lastOpcode))
            else u32 (n + MAX_PUBKEYS_PER_MULTISIG)
          else n in
        GetSigOpCount_loop fuel fAccurate pc opcode n
  end.
Definition GetSigOpCount (s : script) (fAccurate : bool) : Z :=
  GetSigOpCount_loop (length s) fAccurate s OP_INVALIDOPCODE 0.

(** The last item a push-only [scriptSig] pushes; [None] where the source returns 0. *)
Fixpoint last_push (fuel : nat) (pc : script) (vData : valtype) : option (list Z) :=
  match fuel, pc with
  | _, [] => Some vData
  | O, _ => None
  | S fuel, _ =>
      let '(ok, pc, opcode, vData) := GetOp pc in
      if negb ok then None else if OP_16 <? opcode then None else last_push fuel pc vData
  end.

Definition GetSigOpCount_sig (s scriptSig : script) : Z :=
  if negb (IsPayToScriptHash s) then GetSigOpCount s true
  else match last_push (length scriptSig) scriptSig [] with
       | Some subscript => GetSigOpCount subscript true
       | None => 0
       end.

End Script.
