(* ===== verification/ScriptLaws.v ===== *)
(** * Laws of scripts: numbers, pushes, signature operation counts *)

From S2P Require Import Prelude Bytes Uint256 Script.
Import ScriptNum.

(** ** Signed magnitude

    [snum v] is the number a vector of bytes stands for: little endian, the top bit of
    the last byte being the sign. *)
Definition magnitude (w : list Z) (x : Z) : Z := le_value w + x `mod` 128 * 256 ^ length w.
Definition snum (v : list Z) : Z :=
  match v with
  | [] => 0
  | _ => let m := magnitude (take (length v - 1) v) (back v) in if back v <? 128 then m else - m
  end.

(** minimal encoding, of any size *)
Definition minimal (v : list Z) : bool := IsMinimallyEncoded v (length v).

Section snoc.
Context (w : list Z) (x : Z).

Lemma back_snoc : back (w ++ [x]) = x.
Proof. unfold back. by rewrite last_snoc. Qed.

Lemma take_snoc : take (length (w ++ [x]) - 1) (w ++ [x]) = w.
Proof. rewrite length_app; simpl. by rewrite take_app_le, take_ge by lia. Qed.

Lemma set_back_snoc y : set_back (w ++ [x]) y = w ++ [y].
Proof. unfold set_back. by rewrite take_snoc. Qed.

Lemma snum_snoc : snum (w ++ [x]) = if x <? 128 then magnitude w x else - magnitude w x.
Proof.
  unfold snum. rewrite back_snoc, take_snoc. by destruct w.
Qed.
End snoc.

Lemma land_7f x : x &&& 0x7f = x `mod` 128.
Proof. change 0x7f with (Z.ones 7). by rewrite Z.land_ones. Qed.

Lemma land_80 x : is_byte x -> ((x &&& 0x80) =? 0) = (x <? 128).
Proof.
  intros Hx. apply eqb_prop. revert x Hx. apply (byte_forall (λ x, eqb ((x &&& 0x80) =? 0) (x <? 128))).
  by vm_compute.
Qed.

Lemma magnitude_pos w x : bytes w -> is_byte x -> 0 <= magnitude w x < 2 ^ (8 * length w + 7).
Proof.
  intros Hw Hx. unfold magnitude. pose proof (le_value_range w Hw) as [H0 H1].
  pose proof (Z.mod_pos_bound x 128 ltac:(lia)).
  rewrite Z.pow_add_r by lia. change 256 with (2 ^ 8). rewrite <- Z.pow_mul_r by lia.
  split; [nia|]. change (2 ^ 7) with 128. nia.
Qed.

(** ** Decoding: [set_vch] *)

Lemma u64_i64 x : u64 (i64 x) = u64 x.
Proof.
  unfold u64, i64, uint, sint.
  rewrite Zminus_mod, Zmod_mod, <- Zminus_mod. f_equal. lia.
Qed.

Lemma set_vch_loop_snoc w x i r :
  bytes w -> 0 <= i -> i + length w <= 7 -> 0 <= r < 2 ^ (8 * i) ->
  set_vch_loop (w ++ [x]) i r = (r + 2 ^ (8 * i) * le_value w) ||| i64 (x << (8 * (i + length w))).
Proof.
  revert i r. induction w as [|y w IH]; intros i r Hw Hi Hl Hr.
  - cbn -[i64]. rewrite Z.add_0_r, Z.mul_0_r, Z.add_0_r. done.
  - apply Forall_cons in Hw as [Hy Hw]. cbn [app set_vch_loop length le_value] in *.
    assert (Hs : i64 (y << (8 * i)) = y * 2 ^ (8 * i)).
    { rewrite Z.shiftl_mul_pow2 by lia. apply sint_small; [done|].
      assert (2 ^ (8 * i) <= 2 ^ 48) by (apply Z.pow_le_mono_r; lia).
      unfold is_byte, in_uint in Hy. unfold in_sint. cbn in *. nia. }
    rewrite Hs, <- (Z.shiftl_mul_pow2 y) by lia.
    rewrite Z.lor_comm, lor_shiftl_add by lia.
    assert (Hp : 2 ^ (8 * (i + 1)) = 2 ^ (8 * i) * 256).
    { rewrite Z.mul_add_distr_l, Z.pow_add_r by lia. done. }
    rewrite IH; try done; try lia.
    2: { unfold is_byte, in_uint in Hy. rewrite Hp. cbn in Hy. nia. }
    rewrite Hp. f_equal; [nia|]. do 3 f_equal. lia.
Qed.

Lemma pow256_nat (n : nat) : 256 ^ n = 2 ^ (8 * n).
Proof. by rewrite Z.pow_mul_r by lia. Qed.

Lemma uint_lor k a b : 0 <= k -> uint k (a ||| b) = uint k a ||| uint k b.
Proof.
  intros Hk. apply Z.bits_inj'. intros i Hi. autorewrite with bits.
  by destruct (i <? k).
Qed.

(** masking a bit that is set subtracts it *)
Lemma clear_bit a n :
  0 <= n -> a `div` 2 ^ n = 1 -> a &&& Z.lnot (2 ^ n) = a - 2 ^ n.
Proof.
  intros Hn Ha. rewrite <- Z.ldiff_land, Z.sub_nocarry_ldiff; [done|].
  apply Z.bits_inj'. intros i Hi. rewrite Z.ldiff_spec, Z.pow2_bits_eqb, Z.bits_0 by lia.
  destruct (Z.eqb_spec n i) as [<-|]; [|done].
  by rewrite Z.testbit_odd, Z.shiftr_div_pow2, Ha by lia.
Qed.

Lemma land_u64_lnot a b : in_uint 64 a -> in_uint 64 b -> a &&& u64 (Z.lnot b) = a &&& Z.lnot b.
Proof.
  intros Ha Hb. apply Z.bits_inj'. intros i Hi. autorewrite with bits; [|lia..].
  destruct (Z.ltb_spec i 64); [done|]. by rewrite (testbit_in_uint 64 a) by (done || lia).
Qed.

Lemma set_vch_snum v : bytes v -> (length v <= 8)%nat -> set_vch v = snum v.
Proof.
  destruct v as [|x w _] using rev_ind; [done|].
  intros [Hw Hx]%Forall_app Hl. apply Forall_cons in Hx as [Hx _].
  rewrite length_app in Hl; simpl in Hl. unfold set_vch.
  rewrite set_vch_loop_snoc, back_snoc, snum_snoc, land_80 by (done || (simpl; lia)).
  rewrite length_app, Z.mul_0_r, Z.pow_0_r, Z.add_0_l, Z.mul_1_l, Z.add_0_l; simpl length.
  replace (length w + 1 =? 0)%nat with false by (symmetry; apply Nat.eqb_neq; lia).
  replace (8 * ((length w + 1)%nat - 1)) with (8 * length w) by lia.
  pose proof (le_value_range w Hw) as Hm. pose proof Hx as Hx'. unfold in_uint in Hm, Hx'.
  assert (Hk : 0 < 2 ^ (8 * length w) <= 2 ^ 56) by (split; [|apply Z.pow_le_mono_r]; lia).
  unfold magnitude; rewrite pow256_nat. set (k := 8 * length w) in *. set (m := le_value w) in *.
  assert (Hsplit : m ||| (x << k) = m + x * 2 ^ k).
  { rewrite Z.lor_comm, lor_shiftl_add by lia. lia. }
  assert (Hx64 : in_uint 64 (x << k)).
  { rewrite Z.shiftl_mul_pow2 by lia. unfold in_uint. cbn in *. nia. }
  destruct (Z.ltb_spec x 128) as [Hs|Hs]; cbn [negb].
  - rewrite sint_small, Hsplit, Z.mod_small; [done|lia|done|].
    rewrite Z.shiftl_mul_pow2 by lia. unfold in_sint. cbn in *. nia.
  - assert (Hxm : x `mod` 128 = x - 128) by (cbn in Hx'; lia_mod). rewrite Hxm.
    rewrite uint_lor, u64_i64, (uint_small _ _ Hx64), (u64_small m) by (cbn in *; lia).
    rewrite Hsplit.
    assert (Hb : 0x80 << k = 2 ^ (k + 7)).
    { rewrite Z.shiftl_mul_pow2, Z.pow_add_r by lia. lia. }
    assert (Hp : 2 ^ (k + 7) = 128 * 2 ^ k) by (rewrite Z.pow_add_r by lia; lia).
    rewrite Hb, (u64_small (2 ^ (k + 7))) by (rewrite Hp; cbn in *; lia).
    rewrite land_u64_lnot by (unfold in_uint; rewrite ?Hp; cbn in *; nia).
    assert (Hr : 0 <= m + x * 2 ^ k - 128 * 2 ^ k < 2 ^ 63) by nia.
    rewrite clear_bit, Hp.
    + assert (in_sint 64 (m + x * 2 ^ k - 128 * 2 ^ k)) by (unfold in_sint; lia).
      rewrite !sint_small; [lia|done..|unfold in_sint; rewrite sint_small by done; lia].
    + lia.
    + rewrite Hp. symmetry. apply (Z.div_unique _ _ _ (m + (x - 128) * 2 ^ k)); cbn in *; nia.
Qed.

(** ** Encoding: [serialize] *)

Lemma serialize_loop_spec (fuel : nat) a r :
  0 <= a < 256 ^ fuel ->
  exists d, serialize_loop fuel a r = r ++ d /\ bytes d /\ le_value d = a
    /\ (length d <= fuel)%nat /\ (d = [] \/ back d <> 0).
Proof.
  revert a r. induction fuel as [|fuel IH]; intros a r Ha.
  - exists []. simpl in *. rewrite app_nil_r. repeat split; try done; [constructor|lia|by left].
  - cbn [serialize_loop]. destruct (Z.eqb_spec a 0) as [->|Hnz].
    + exists []. rewrite app_nil_r. repeat split; simpl; try done; [constructor|lia|by left].
    + rewrite Z.shiftr_div_pow2 by lia. change (2 ^ 8) with 256.
      change 0xff with (Z.ones 8). rewrite Z.land_ones by lia. change (2 ^ 8) with 256.
      assert (Hp : 256 ^ S fuel = 256 * 256 ^ fuel) by (rewrite Nat2Z.inj_succ, Z.pow_succ_r; lia).
      destruct (IH (a / 256) (r ++ [a `mod` 256])) as (d & -> & Hd & Hv & Hl & Hb).
      { split; [apply Z.div_pos; lia|apply Z.div_lt_upper_bound; lia]. }
      exists (a `mod` 256 :: d). rewrite <- app_assoc. repeat split.
      * constructor; [|done]. pose proof (Z.mod_pos_bound a 256). unfold in_uint. cbn; lia.
      * cbn [le_value]. rewrite Hv. lia_mod.
      * simpl. lia.
      * right. destruct d as [|y d].
        -- cbn in Hv. unfold back. cbn. lia_mod.
        -- destruct Hb as [Hb|Hb]; [done|]. exact Hb.
Qed.

(** A minimal encoding: empty, or no shorter encoding has room for the magnitude. *)
Lemma minimal_snoc w x :
  bytes w -> is_byte x ->
  minimal (w ++ [x]) = negb ((x `mod` 128 =? 0) && (match w with [] => true | _ => back w <? 128 end)).
Proof.
  intros Hw Hx. unfold minimal, IsMinimallyEncoded.
  rewrite Z.ltb_irrefl, back_snoc, land_7f, length_app. simpl length.
  rewrite (proj2 (Z.ltb_lt 0 _)) by lia. rewrite andb_true_l.
  destruct w as [|y w' _] using rev_ind; [by destruct (x `mod` 128 =? 0)|].
  apply Forall_app in Hw as [Hw' Hy]. apply Forall_cons in Hy as [Hy _].
  rewrite back_snoc, length_app. simpl length.
  replace (length w' + 1 + 1 <=? 1)%nat with false by (symmetry; apply Nat.leb_gt; lia).
  replace (length w' + 1 + 1 - 2)%nat with (length w') by lia. rewrite orb_false_l.
  rewrite <- app_assoc. cbn [app]. rewrite list_lookup_total_middle, land_80 by done.
  assert (match w' ++ [y] with [] => true | _ => y <? 128 end = (y <? 128)) as -> by by destruct w'.
  by destruct (_ && _).
Qed.

Lemma minimal_magnitude w x :
  bytes w -> is_byte x -> minimal (w ++ [x]) = true ->
  2 ^ (8 * length w - 1) <= magnitude w x /\ 0 < magnitude w x.
Proof.
  intros Hw Hx Hm. rewrite minimal_snoc in Hm by done. unfold magnitude. rewrite pow256_nat.
  pose proof (le_value_range w Hw) as Hv. pose proof (Z.mod_pos_bound x 128 ltac:(lia)).
  unfold in_uint in Hv. destruct (Z.eqb_spec (x `mod` 128) 0) as [Hz|Hz].
  - destruct w as [|y w' _] using rev_ind; [done|].
    apply Forall_app in Hw as [Hw' Hy]. apply Forall_cons in Hy as [Hy _].
    rewrite back_snoc in Hm. assert (Hge : 128 <= y) by (destruct w'; simpl in Hm; lia).
    rewrite Hz, le_value_app, pow256_nat. cbn [le_value]. rewrite length_app. simpl length.
    pose proof (le_value_range w' Hw') as Hv'. unfold in_uint in Hv'.
    replace (8 * (length w' + 1)%nat - 1) with (8 * length w' + 7) by lia.
    rewrite Z.pow_add_r by lia. change (2 ^ 7) with 128. nia.
  - assert (Hle : 2 ^ (8 * length w - 1) <= 2 ^ (8 * length w)) by (apply Z.pow_le_mono_r; lia). nia.
Qed.

Lemma snum_abs w x : is_byte x -> bytes w -> Z.abs (snum (w ++ [x])) = magnitude w x.
Proof. intros. rewrite snum_snoc. pose proof (magnitude_pos w x). destruct (x <? 128); lia. Qed.

Lemma snum_range v : bytes v -> Z.abs (snum v) < 2 ^ (8 * length v - 1) \/ v = [].
Proof.
  destruct v as [|x w _] using rev_ind; [by right|]. intros [Hw Hx]%Forall_app.
  apply Forall_cons in Hx as [Hx _]. left. rewrite snum_abs by done.
  pose proof (magnitude_pos w x Hw Hx). rewrite length_app. simpl length.
  replace (8 * (length w + 1)%nat - 1) with (8 * length w + 7) by lia. lia.
Qed.

(** Two minimal encodings of one number are the same bytes. *)
Lemma snum_inj u v :
  bytes u -> bytes v -> minimal u = true -> minimal v = true -> snum u = snum v -> u = v.
Proof.
  destruct u as [|x u _] using rev_ind; destruct v as [|y v _] using rev_ind; [done|..].
  - intros _ [Hv Hy]%Forall_app _ Hm E. apply Forall_cons in Hy as [Hy _].
    apply minimal_magnitude in Hm; [|done..]. rewrite <- (snum_abs v y), <- E in Hm by done. cbn in Hm. lia.
  - intros [Hv Hy]%Forall_app _ Hm _ E. apply Forall_cons in Hy as [Hy _].
    apply minimal_magnitude in Hm; [|done..]. rewrite <- (snum_abs u x), E in Hm by done. cbn in Hm. lia.
  - intros [Hu Hx]%Forall_app [Hv Hy]%Forall_app Hmu Hmv E.
    apply Forall_cons in Hx as [Hx _]. apply Forall_cons in Hy as [Hy _].
    pose proof (snum_abs u x Hx Hu) as Eu. pose proof (snum_abs v y Hy Hv) as Ev.
    rewrite E in Eu. rewrite Eu in Ev. clear Eu.
    apply minimal_magnitude in Hmu, Hmv; [|done..].
    pose proof (magnitude_pos u x Hu Hx) as Bu. pose proof (magnitude_pos v y Hv Hy) as Bv.
    assert (Hlen : length u = length v).
    { destruct (lt_eq_lt_dec (length u) (length v)) as [[Hl|Hl]|Hl]; [exfalso|done|exfalso].
      - assert (2 ^ (8 * length u + 7) <= 2 ^ (8 * length v - 1)) by (apply Z.pow_le_mono_r; lia). lia.
      - assert (2 ^ (8 * length v + 7) <= 2 ^ (8 * length u - 1)) by (apply Z.pow_le_mono_r; lia). lia. }
    rewrite !snum_snoc in E. unfold magnitude in *. rewrite <- Hlen in *. rewrite pow256_nat in *.
    pose proof (le_value_range u Hu) as Ru. pose proof (le_value_range v Hv) as Rv.
    unfold in_uint in Ru, Rv. rewrite <- Hlen in Rv.
    pose proof (Z.mod_pos_bound x 128 ltac:(lia)). pose proof (Z.mod_pos_bound y 128 ltac:(lia)).
    assert (Exy : x `mod` 128 = y `mod` 128) by nia.
    assert (Euv : le_value u = le_value v) by (rewrite Exy in Ev; lia).
    apply le_value_inj in Euv; [|done..]. subst v. f_equal. f_equal.
    rewrite Exy in *. unfold in_uint in Hx, Hy. change (2 ^ 8) with 256 in *.
    destruct (Z.ltb_spec x 128), (Z.ltb_spec y 128); lia_mod.
Qed.

Lemma serialize_spec n :
  in_sint 64 n -> n <> - 2 ^ 63 ->
  snum (serialize n) = n /\ minimal (serialize n) = true
  /\ bytes (serialize n) /\ (length (serialize n) <= 8)%nat.
Proof.
  unfold in_sint. change (64 - 1) with 63. intros Hn Hmin. unfold serialize.
  destruct (Z.eqb_spec n 0) as [->|Hnz].
  { repeat split; [constructor|simpl; lia]. }
  assert (Ha : u64 (if n <? 0 then i64 (- n) else n) = Z.abs n).
  { destruct (Z.ltb_spec n 0); [rewrite sint_small|]; rewrite ?u64_small; try done; unfold in_sint; lia. }
  rewrite Ha. destruct (serialize_loop_spec 8 (Z.abs n) []) as (d & -> & Hd & Hv & Hl & Hb); [simpl; lia|].
  rewrite app_nil_l. destruct Hb as [->|Hb]; [cbn in Hv; lia|].
  destruct d as [|x w _] using rev_ind; [done|].
  apply Forall_app in Hd as [Hw Hx]. apply Forall_cons in Hx as [Hx _].
  rewrite back_snoc in Hb |- *. rewrite le_value_app in Hv. cbn [le_value] in Hv.
  rewrite length_app in Hl. simpl in Hl. rewrite land_80 by done.
  assert (Hx' : 0 <= x < 256) by apply Hx.
  pose proof (le_value_range w Hw) as Rw. unfold in_uint in Rw. rewrite <- pow256_nat in Rw.
  destruct (Z.ltb_spec x 128) as [Hs|Hs]; cbn [negb].
  - assert (Hor : is_byte (x ||| 0x80) /\ (x ||| 0x80) `mod` 128 = x /\ (x ||| 0x80) <? 128 = false).
    { assert (x ||| 0x80 = 128 + x) as ->.
      { rewrite Z.lor_comm. apply (lor_shiftl_add 1 7); simpl; lia. }
      unfold in_uint. change (2 ^ 8) with 256. split; [lia|]. split; lia_mod. }
    destruct Hor as (Hor & Hm & Hsg).
    destruct (Z.ltb_spec n 0).
    + rewrite set_back_snoc. repeat split.
      * rewrite snum_snoc, Hsg. unfold magnitude. rewrite Hm. lia.
      * rewrite minimal_snoc, Hm by done. by destruct (Z.eqb_spec x 0).
      * apply Forall_app; split; [done|by constructor].
      * rewrite length_app. simpl. lia.
    + repeat split.
      * rewrite snum_snoc. replace (x <? 128) with true by lia. unfold magnitude. rewrite Z.mod_small; lia.
      * rewrite minimal_snoc, Z.mod_small by (done || lia). by destruct (Z.eqb_spec x 0).
      * apply Forall_app; split; [done|by constructor].
      * rewrite length_app. simpl. lia.
  - assert (Hl7 : (length w <= 6)%nat).
    { destruct (decide (length w = 7%nat)) as [E|]; [|lia]. rewrite E in *. simpl in *. lia. }
    assert (Hsb : bytes (w ++ [x])) by (apply Forall_app; split; [done|by constructor]).
    assert (Hsg : is_byte (if n <? 0 then 0x80 else 0)) by (unfold in_uint; destruct (n <? 0); simpl; lia).
    repeat split.
    + rewrite snum_snoc. unfold magnitude. rewrite le_value_app. cbn [le_value].
      destruct (Z.ltb_spec n 0);
        [change (128 `mod` 128) with 0; change (128 <? 128) with false
        |change (0 `mod` 128) with 0; change (0 <? 128) with true]; lia.
    + rewrite minimal_snoc, back_snoc by done.
      replace (x <? 128) with false by lia. by destruct w; simpl; rewrite andb_false_r.
    + apply Forall_app; split; [done|by constructor].
    + rewrite !length_app. simpl. lia.
Qed.

Lemma IsMinimallyEncoded_minimal v k : IsMinimallyEncoded v k = (length v <=? k) && minimal v.
Proof.
  unfold minimal, IsMinimallyEncoded. rewrite Z.ltb_irrefl, Z.ltb_antisym.
  by destruct (length v <=? k).
Qed.

Lemma length_minimal v (k : Z) :
  bytes v -> minimal v = true -> 1 <= k -> (length v <=? k) = (Z.abs (snum v) <? 2 ^ (8 * k - 1)).
Proof.
  intros Hv Hm Hk. destruct v as [|x w _] using rev_ind.
  { cbn -[Z.pow]. rewrite (proj2 (Z.leb_le _ _)), (proj2 (Z.ltb_lt _ _)); [done|apply Z.pow_pos_nonneg; lia|lia]. }
  apply Forall_app in Hv as [Hw Hx]. apply Forall_cons in Hx as [Hx _].
  rewrite snum_abs, length_app by done. simpl length.
  apply minimal_magnitude in Hm; [|done..]. pose proof (magnitude_pos w x Hw Hx).
  destruct (Z.leb_spec (length w + 1)%nat k), (Z.ltb_spec (magnitude w x) (2 ^ (8 * k - 1))); try done.
  - assert (2 ^ (8 * length w + 7) <= 2 ^ (8 * k - 1)) by (apply Z.pow_le_mono_r; lia). lia.
  - assert (2 ^ (8 * k - 1) <= 2 ^ (8 * length w - 1)) by (apply Z.pow_le_mono_r; lia). lia.
Qed.

(** Script numbers have one minimal encoding each.  For every [int64_t] other than its
    minimum, reading back the bytes [getvch] writes gives the number exactly when it fits
    the operand size ([-2^(8k-1) + 1 .. 2^(8k-1) - 1] for [k] bytes, so plus or minus
    [2^31 - 1] for the default 4) and throws "script number overflow" otherwise; and the only
    bytes the strict constructor reads as the number are those [getvch] writes. *)
Theorem CScriptNum_canonical (n nMaxNumSize : Z) (fRequireMinimal : bool) :
  in_sint 64 n -> n <> - 2 ^ 63 -> 1 <= nMaxNumSize <= 8 ->
  exists b, getvch n = Some b
  /\ of_vch b fRequireMinimal nMaxNumSize
    = (if Z.abs n <? 2 ^ (8 * nMaxNumSize - 1) then Ok n else Throw "script number overflow")
  /\ forall vch, bytes vch -> of_vch vch true nMaxNumSize = Ok n -> vch = b.
Proof.
  intros Hn Hmin Hk. destruct (serialize_spec n Hn Hmin) as (Hs & Hm & Hb & Hl).
  exists (serialize n). unfold getvch. split; [by rewrite (proj2 (Z.eqb_neq _ _) Hmin)|].
  unfold of_vch. rewrite Z.ltb_antisym, length_minimal, Hs by (done || lia). split.
  - destruct (Z.abs n <? 2 ^ (8 * nMaxNumSize - 1)) eqn:E; [|done]. cbn [negb].
    rewrite IsMinimallyEncoded_minimal, Hm, length_minimal, Hs, E, andb_false_r by (done || lia).
    by rewrite set_vch_snum, Hs.
  - intros vch Hv. rewrite IsMinimallyEncoded_minimal.
    destruct (Z.ltb_spec nMaxNumSize (length vch)); [done|].
    destruct (length vch <=? nMaxNumSize) eqn:Hle; [|done].
    destruct (minimal vch) eqn:Hmv; [|done]. cbn. intros [= E].
    rewrite set_vch_snum in E by (done || lia). apply snum_inj; congruence.
Qed.

Lemma CScriptNum_canonical_witness :
  (exists b, getvch (-255) = Some b /\ of_vch b true 4 = Ok (-255))
  /\ (exists b, getvch (2 ^ 31) = Some b /\ of_vch b false 4 = Throw "script number overflow").
Proof.
  split.
  - destruct (CScriptNum_canonical (-255) 4 true ltac:(unfold in_sint; lia) ltac:(lia) ltac:(lia)) as (b & H1 & H2 & _). by exists b.
  - destruct (CScriptNum_canonical (2 ^ 31) 4 false ltac:(unfold in_sint; lia) ltac:(lia) ltac:(lia)) as (b & H1 & H2 & _). by exists b.
Defined.

(** ** [MinimallyEncode] *)

Lemma le_value_zeros (k : nat) : le_value (replicate k 0) = 0.
Proof. induction k as [|k IH]; [done|]. cbn [replicate le_value]. rewrite IH. lia. Qed.

(** zeros before a bare sign byte do not count *)
Lemma magnitude_zeros w (k : nat) l :
  l `mod` 128 = 0 -> magnitude (w ++ replicate k 0) l = le_value w.
Proof. intros Hl. unfold magnitude. rewrite Hl, le_value_app, le_value_zeros. lia. Qed.

Definition trimmed (d data : list Z) : Prop :=
  snum d = snum data /\ minimal d = true /\ bytes d /\ (length d < length data)%nat.

Lemma MinimallyEncode_loop_spec (i k : nat) w l :
  bytes w -> length w = i -> (l = 0 \/ l = 128) ->
  (k = 0%nat -> w = [] \/ back w < 128) ->
  trimmed (default [] (MinimallyEncode_loop i l (w ++ replicate k 0 ++ [l]))) (w ++ replicate k 0 ++ [l]).
Proof.
  intros Hw Hlen Hl. revert k w Hw Hlen. induction i as [|i IH]; intros k w Hw Hlen Hk.
  - apply nil_length_inv in Hlen as ->. cbn [MinimallyEncode_loop default app].
    split; [|split; [done|split; [constructor|rewrite length_app; simpl; lia]]].
    rewrite snum_snoc, <- (app_nil_l (replicate k 0)), magnitude_zeros by (destruct Hl as [-> | ->]; done).
    by destruct (l <? 128).
  - destruct w as [|x w _] using rev_ind; [done|]. rewrite length_app in Hlen. simpl in Hlen.
    apply Forall_app in Hw as [Hw Hx]. apply Forall_cons in Hx as [Hx _].
    assert (Hi : i = length w) by lia. subst i. cbn [MinimallyEncode_loop].
    rewrite <- app_assoc. cbn [app]. rewrite list_lookup_total_middle by done.
    assert (Hl' : is_byte l /\ l `mod` 128 = 0) by (unfold in_uint; destruct Hl as [-> | ->]; simpl; lia).
    destruct Hl' as [Hlb Hlm]. assert (Hx' : 0 <= x < 256) by apply Hx.
    assert (Hdata : forall m, snum (w ++ m :: replicate k 0 ++ [l])
      = if l <? 128 then le_value (w ++ [m]) else - le_value (w ++ [m])).
    { intros m.
      replace (w ++ m :: replicate k 0 ++ [l]) with (((w ++ [m]) ++ replicate k 0) ++ [l])
        by (by rewrite <- !app_assoc).
      rewrite snum_snoc, magnitude_zeros by done. done. }
    destruct (Z.eqb_spec x 0) as [->|Hnz]; cbn [negb].
    + replace (w ++ 0 :: replicate k 0 ++ [l]) with (w ++ replicate (S k) 0 ++ [l]) by done.
      apply IH; done.
    + rewrite land_80 by done. unfold trimmed. rewrite Hdata.
      destruct (Z.ltb_spec x 128) as [Hs|Hs]; cbn [negb].
      * assert (Hor : is_byte (x ||| l) /\ (x ||| l) `mod` 128 = x /\ (x ||| l <? 128) = (l <? 128)).
        { destruct Hl as [-> | ->]; [rewrite Z.lor_0_r, Z.mod_small by lia; split; [done|split; lia]|].
          assert (x ||| 128 = 128 + x) as ->.
          { rewrite Z.lor_comm. apply (lor_shiftl_add 1 7); simpl; lia. }
          unfold in_uint. change (2 ^ 8) with 256. split; [lia|]. split; lia_mod. }
        destruct Hor as (Hob & Hom & Hos).
        rewrite insert_app_r_alt, Nat.sub_diag by lia. cbn [list_insert insert].
        rewrite take_app, (take_ge w), (Nat.sub_succ_l (length w)), Nat.sub_diag by lia. cbn [take].
        rewrite take_0. cbn [from_option id]. split; [|split; [|split]].
        -- rewrite snum_snoc, Hos, le_value_app. unfold magnitude. rewrite Hom. cbn [le_value].
           destruct (l <? 128); lia.
        -- rewrite minimal_snoc, Hom by done. by destruct (Z.eqb_spec x 0).
        -- apply Forall_app; split; [done|by constructor].
        -- rewrite !length_app. simpl. rewrite length_app. simpl. lia.
      * destruct k as [|k].
        { destruct (Hk eq_refl) as [?|Hbk]; [by destruct w|]. rewrite back_snoc in Hbk. lia. }
        rewrite insert_app_r_alt by lia. replace (S (length w) - length w)%nat with 1%nat by lia.
        cbn [list_insert insert replicate app].
        rewrite take_app, (take_ge w) by lia. replace (S (length w) + 1 - length w)%nat with 2%nat by lia.
        cbn [take]. rewrite take_0.
        replace (w ++ [x; l]) with ((w ++ [x]) ++ [l]) by (by rewrite <- app_assoc).
        cbn [from_option id]. split; [|split; [|split]].
        -- rewrite snum_snoc. unfold magnitude. rewrite Hlm. destruct (l <? 128); lia.
        -- rewrite minimal_snoc, back_snoc by (done || (apply Forall_app; split; [done|by constructor])).
           replace (x <? 128) with false by lia. by destruct w; rewrite andb_false_r.
        -- repeat (apply Forall_app; split); try done; by constructor.
        -- repeat (rewrite !length_app; simpl). lia.
Qed.

Lemma last_cases l : is_byte l -> ((l &&& 0x7f) =? 0) = true -> l = 0 \/ l = 128.
Proof. rewrite land_7f. unfold in_uint. intros Hl H%Z.eqb_eq. change (2 ^ 8) with 256 in Hl. lia_mod. Qed.

(** [MinimallyEncode] turns any bytes into the minimal encoding of the number they stand
    for, of whatever length; it returns false exactly when it leaves them as they are, and
    what it rewrites gets shorter. *)
Theorem MinimallyEncode_spec (data : list Z) :
  bytes data ->
  let '(changed, d) := MinimallyEncode data in
  snum d = snum data /\ minimal d = true /\ bytes d
  /\ (if changed then (length d < length data)%nat else d = data).
Proof.
  intros Hd. destruct data as [|l w _] using rev_ind; [done|].
  pose proof Hd as Hd'. apply Forall_app in Hd' as [Hw Hl]. apply Forall_cons in Hl as [Hl _].
  unfold MinimallyEncode. rewrite back_snoc, length_app. simpl length.
  replace (length w + 1 =? 0)%nat with false by (symmetry; apply Nat.eqb_neq; lia).
  destruct ((l &&& 0x7f) =? 0) eqn:E; cbn [negb].
  2: { split; [done|]. rewrite minimal_snoc, <- land_7f, E by done. done. }
  destruct w as [|x w _] using rev_ind.
  { split; [|split; [done|split; [constructor|simpl; lia]]].
    destruct (last_cases l Hl E) as [-> | ->]; done. }
  replace (length (w ++ [x]) + 1 =? 1)%nat with false
    by (symmetry; apply Nat.eqb_neq; rewrite length_app; simpl; lia).
  apply Forall_app in Hw as [Hw Hx]. apply Forall_cons in Hx as [Hx _].
  rewrite length_app. simpl length. replace (length w + 1 + 1 - 2)%nat with (length w) by lia.
  rewrite <- (app_assoc w [x]). cbn [app]. rewrite list_lookup_total_middle, land_80 by done.
  replace (w ++ [x; l]) with ((w ++ [x]) ++ replicate 0 0 ++ [l]) by (by rewrite <- app_assoc).
  destruct (Z.ltb_spec x 128); cbn [negb].
  - replace (length w + 1 + 1 - 1)%nat with (length w + 1)%nat by lia.
    destruct (MinimallyEncode_loop_spec (length w + 1) 0 (w ++ [x]) l) as (H1 & H2 & H3 & H4).
    + apply Forall_app; split; [done|by constructor].
    + by rewrite length_app.
    + by apply last_cases.
    + intros _. right. by rewrite back_snoc.
    + rewrite !length_app in H4. simpl in H4.
      destruct (MinimallyEncode_loop _ _ _); cbn [from_option id] in *; repeat (split; [done|]); simpl in *; lia.
  - assert (Hwx : bytes (w ++ [x])) by (apply Forall_app; split; [done|by constructor]).
    split; [done|]. cbn [replicate app]. rewrite minimal_snoc, back_snoc by done.
    replace (x <? 128) with false by lia. split; [by destruct w; rewrite andb_false_r|].
    by split.
Qed.

Lemma MinimallyEncode_spec_witness :
  bytes [1; 0; 0; 128] /\
  let '(changed, d) := MinimallyEncode [1; 0; 0; 128] in
  snum d = snum [1; 0; 0; 128] /\ minimal d = true /\ bytes d
  /\ (if changed then (length d < length [1; 0; 0; 128])%nat else d = [1; 0; 0; 128]).
Proof.
  assert (H : bytes [1; 0; 0; 128]) by (repeat constructor; unfold in_uint; simpl; lia).
  split; [exact H|]. exact (MinimallyEncode_spec [1; 0; 0; 128] H).
Defined.

(** ** Reading and writing operations *)

(** An operation read is at least one byte. *)
Lemma GetScriptOp_progress pc ok pc' opcode vch :
  GetScriptOp pc = (ok, pc', opcode, vch) ->
  suffix pc' pc /\ (ok = true -> (length pc' < length pc)%nat).
Proof.
  destruct pc as [|x pc]; simpl; [intros [= <- <- <- <-]; split; [done|intros [=]]|].
  assert (Hcons : suffix pc (x :: pc)) by by exists [x].
  assert (Hdrop : forall k (l : list Z), suffix (drop k l) l).
  { intros k l. exists (take k l). by rewrite take_drop. }
  destruct (x <=? OP_PUSHDATA4); [|intros [= <- <- <- <-]; split; [done|lia]].
  set (read := λ n : nat, if (length pc <? n)%nat then None else Some (le_value (take n pc), drop n pc)).
  set (operand := if x <? OP_PUSHDATA1 then Some (x, pc) else _).
  assert (Hop : forall nSize q, operand = Some (nSize, q) -> suffix q pc).
  { intros nSize q. unfold operand, read. repeat case_match; intros [= _ <-]; eauto. }
  destruct operand as [[nSize q]|]; [|intros [= <- <- <- <-]; split; [done|intros [=]]].
  specialize (Hop _ _ eq_refl). pose proof (suffix_length _ _ Hop).
  destruct (length q <? nSize); intros [= <- <- <- <-].
  - split; [by etrans|intros [=]].
  - split; [by etrans; [apply Hdrop|etrans]|]. intros _. rewrite length_drop. simpl. lia.
Qed.

(** the opcode [operator<<] chooses for some data *)
Definition push_opcode_of (b : valtype) : Z :=
  if length b <? OP_PUSHDATA1 then length b
  else if length b <=? 0xff then OP_PUSHDATA1
  else if length b <=? 0xffff then OP_PUSHDATA2 else OP_PUSHDATA4.

Lemma push_data_app s b : Script.push_data s b = s ++ Script.push_data [] b.
Proof. unfold Script.push_data. repeat case_match; by rewrite ?app_nil_l, <- ?app_assoc. Qed.

Lemma GetScriptOp_push (b rest : list Z) :
  length b < 2 ^ 32 ->
  GetScriptOp (Script.push_data [] b ++ rest) = (true, rest, push_opcode_of b, b).
Proof.
  intros Hb. unfold Script.push_data, push_opcode_of.
  assert (Hsz : take (Z.to_nat (length b)) (b ++ rest) = b /\ drop (Z.to_nat (length b)) (b ++ rest) = rest
    /\ length (b ++ rest) <? length b = false).
  { rewrite Nat2Z.id, take_app_length, drop_app_length, length_app. repeat split. apply Z.ltb_ge. lia. }
  destruct Hsz as (Ht & Hd & Hlt). unfold OP_PUSHDATA1, OP_PUSHDATA2, OP_PUSHDATA4 in *.
  destruct (Z.ltb_spec (length b) 76) as [H1|H1].
  - cbn [app GetScriptOp]. replace (length b <=? OP_PUSHDATA4) with true by (unfold OP_PUSHDATA4; lia).
    replace (length b <? OP_PUSHDATA1) with true by (unfold OP_PUSHDATA1; lia). by rewrite Hlt, Ht, Hd.
  - destruct (Z.leb_spec (length b) 0xff) as [H2|H2].
    { cbn [app GetScriptOp]. change (0x4c <=? OP_PUSHDATA4) with true.
      change (0x4c <? OP_PUSHDATA1) with false. change (0x4c =? OP_PUSHDATA1) with true.
      cbn [length Nat.ltb Nat.leb take drop le_value]. rewrite take_0, drop_0. cbn [le_value].
      replace (length b + 256 * 0) with (Z.of_nat (length b)) by lia. by rewrite Hlt, Ht, Hd. }
    destruct (Z.leb_spec (length b) 0xffff) as [H3|H3].
    + cbn [app GetScriptOp]. unfold WriteLE16. rewrite <- app_assoc.
      change (0x4d <=? OP_PUSHDATA4) with true. change (0x4d <? OP_PUSHDATA1) with false.
      change (0x4d =? OP_PUSHDATA1) with false. change (0x4d =? OP_PUSHDATA2) with true. cbn match.
      rewrite (length_app (le_bytes 2 _)), length_le_bytes.
      replace (2 + _ <? 2)%nat with false by (symmetry; apply Nat.ltb_ge; lia).
      rewrite take_app_length', drop_app_length', le_value_le_bytes_small
        by (rewrite ?length_le_bytes; unfold in_uint; simpl; lia).
      by rewrite Hlt, Ht, Hd.
    + cbn [app GetScriptOp]. unfold WriteLE32. rewrite <- app_assoc.
      change (0x4e <=? OP_PUSHDATA4) with true. change (0x4e <? OP_PUSHDATA1) with false.
      change (0x4e =? OP_PUSHDATA1) with false. change (0x4e =? OP_PUSHDATA2) with false. cbn match.
      rewrite (length_app (le_bytes 4 _)), length_le_bytes.
      replace (4 + _ <? 4)%nat with false by (symmetry; apply Nat.ltb_ge; lia).
      rewrite take_app_length', drop_app_length', le_value_le_bytes_small
        by (rewrite ?length_le_bytes; unfold in_uint; simpl; lia).
      by rewrite Hlt, Ht, Hd.
Qed.

(** ** Scripts made of pushes *)

Definition push_all (items : list valtype) : script := foldl Script.push_data [] items.

Lemma push_all_concat items : push_all items = concat (Script.push_data [] <$> items).
Proof.
  unfold push_all. assert (H : forall s, foldl Script.push_data s items = s ++ concat (Script.push_data [] <$> items)).
  { induction items as [|b items IH]; intros s; cbn; [by rewrite app_nil_r|].
    by rewrite IH, push_data_app, <- app_assoc. }
  by rewrite H.
Qed.

Definition pushable (b : valtype) : Prop := length b < 2 ^ 32.

Lemma push_opcode_small b : (OP_16 <? push_opcode_of b) = false.
Proof.
  unfold push_opcode_of, OP_16, OP_PUSHDATA1, OP_PUSHDATA2, OP_PUSHDATA4.
  apply Z.ltb_ge. repeat case_match; try lia. 
Qed.

Lemma push_data_nonempty b : (0 < length (Script.push_data [] b))%nat.
Proof. unfold Script.push_data. rewrite length_app. repeat case_match; simpl; lia. Qed.

Lemma IsPushOnly_pushes items (fuel : nat) :
  Forall pushable items -> (length (concat (Script.push_data [] <$> items)) <= fuel)%nat ->
  Script.IsPushOnly_loop fuel (concat (Script.push_data [] <$> items)) = true.
Proof.
  revert fuel. induction items as [|b items IH]; intros fuel Hi Hf; [by destruct fuel|].
  apply Forall_cons in Hi as [Hb Hi]. cbn in *. rewrite length_app in Hf.
  pose proof (push_data_nonempty b) as Hne. destruct fuel as [|fuel]; [lia|].
  destruct (Script.push_data [] b ++ _) eqn:E; [done|]. cbn [Script.IsPushOnly_loop].
  unfold Script.GetOp. rewrite <- E, GetScriptOp_push, push_opcode_small by done. apply IH; [done|lia].
Qed.

Lemma last_push_pushes items (fuel : nat) vData :
  Forall pushable items -> (length (concat (Script.push_data [] <$> items)) <= fuel)%nat ->
  Script.last_push fuel (concat (Script.push_data [] <$> items)) vData = Some (default vData (last items)).
Proof.
  revert fuel vData. induction items as [|b items IH]; intros fuel vData Hi Hf; [by destruct fuel|].
  apply Forall_cons in Hi as [Hb Hi]. cbn in Hf |- *. rewrite length_app in Hf.
  pose proof (push_data_nonempty b) as Hne. destruct fuel as [|fuel]; [lia|].
  destruct (Script.push_data [] b ++ _) eqn:E.
  { apply (f_equal length) in E. rewrite length_app in E. simpl in E. lia. }
  cbn [Script.last_push]. unfold Script.GetOp.
  rewrite <- E, GetScriptOp_push, push_opcode_small by done. cbn [negb].
  rewrite IH by (done || lia). rewrite last_cons. by destruct (last items).
Qed.

(** ** Counting signature operations *)

Lemma GetSigOpCount_loop_bounds (fuel : nat) pc lastOpcode n1 n2 :
  0 <= n1 <= n2 -> n2 + 20 * length pc < 2 ^ 32 ->
  n1 <= Script.GetSigOpCount_loop fuel true pc lastOpcode n1
  <= Script.GetSigOpCount_loop fuel false pc lastOpcode n2
  /\ Script.GetSigOpCount_loop fuel false pc lastOpcode n2 <= n2 + 20 * length pc.
Proof.
  revert pc lastOpcode n1 n2. induction fuel as [|fuel IH]; intros pc lastOpcode n1 n2 Hn Hb.
  { destruct pc; cbn; lia. }
  destruct pc as [|x pc]; [cbn; lia|]. cbn [Script.GetSigOpCount_loop]. unfold Script.GetOp.
  destruct (GetScriptOp (x :: pc)) as [[[ok pc'] opcode] vch] eqn:E.
  destruct ok; cbn [negb]; [|lia]. apply GetScriptOp_progress in E as [_ Hlt]. specialize (Hlt eq_refl).
  set (m1 := if (opcode =? OP_CHECKSIG) || _ then u32 (n1 + 1) else _).
  set (m2 := if (opcode =? OP_CHECKSIG) || _ then u32 (n2 + 1) else _).
  assert (Hm : n1 <= m1 <= m2 /\ m2 <= n2 + 20).
  { unfold m1, m2, MAX_PUBKEYS_PER_MULTISIG, Script.DecodeOP_N, OP_1, OP_16, OP_0.
    repeat case_match; cbn [from_option id]; rewrite ?u32_small by lia; lia. }
  destruct (IH pc' opcode m1 m2) as [H1 H2]; [lia|lia|]. lia.
Qed.

(** What [operator<<] pushes, [GetOp] reads back: an operation at a time, with the opcode
    chosen for its size; a [scriptSig] of pushes is push-only, and for a pay-to-script-hash
    output the signature operations counted are those of the last item it pushes. *)
Theorem pushes_roundtrip (s : script) (items : list valtype) (sub rest : valtype) :
  Forall pushable items -> pushable sub -> Script.IsPayToScriptHash s = true ->
  Script.GetOp (Script.push_data [] sub ++ rest) = (true, rest, push_opcode_of sub, sub)
  /\ Script.IsPushOnly (push_all (items ++ [sub])) = true
  /\ Script.GetSigOpCount_sig s (push_all (items ++ [sub])) = Script.GetSigOpCount sub true.
Proof.
  intros Hi Hs Hp. assert (Hall : Forall pushable (items ++ [sub])) by (apply Forall_app; auto).
  split; [by apply GetScriptOp_push|]. rewrite push_all_concat. split.
  - by apply IsPushOnly_pushes.
  - unfold Script.GetSigOpCount_sig. rewrite Hp. cbn [negb].
    by rewrite last_push_pushes, last_snoc by done.
Qed.

Definition p2sh_example : script := OP_HASH160 :: 20 :: replicate 20 7 ++ [OP_EQUAL].

Lemma pushes_roundtrip_witness :
  Script.GetSigOpCount_sig p2sh_example (push_all [[1]; [OP_1; OP_CHECKMULTISIG; OP_CHECKSIG]]) = 2.
Proof.
  refine (eq_trans (proj2 (proj2 (pushes_roundtrip p2sh_example [[1]] [OP_1; OP_CHECKMULTISIG; OP_CHECKSIG] []
    _ _ _))) _).
  - repeat constructor; unfold pushable; simpl; lia.
  - unfold pushable; simpl; lia.
  - reflexivity.
  - reflexivity.
Defined.

(** The accurate count of signature operations never exceeds the coarse one, which is at most
    20 for each byte of the script; so neither wraps around for scripts below 2^27 bytes. *)
Theorem GetSigOpCount_bounds (s : script) :
  length s < 2 ^ 27 ->
  0 <= Script.GetSigOpCount s true <= Script.GetSigOpCount s false
  /\ Script.GetSigOpCount s false <= MAX_PUBKEYS_PER_MULTISIG * length s.
Proof.
  intros Hs. unfold Script.GetSigOpCount, MAX_PUBKEYS_PER_MULTISIG.
  destruct (GetSigOpCount_loop_bounds (length s) s OP_INVALIDOPCODE 0 0) as [H1 H2]; [lia|lia|]. lia.
Qed.

Lemma GetSigOpCount_bounds_witness :
  0 <= Script.GetSigOpCount [OP_1; OP_CHECKMULTISIG] true <= Script.GetSigOpCount [OP_1; OP_CHECKMULTISIG] false.
Proof. refine (proj1 (GetSigOpCount_bounds [OP_1; OP_CHECKMULTISIG] _)). simpl; lia. Defined.
