(* ===== verification/ShaSpec.v ===== *)
(** * The secure hash standard (FIPS 180-4)

    The reference the hash functions of src/crypto are compared with, written from the
    standard: the constants are computed from the primes, the message schedule is the
    recurrence, the eight working variables move one place a round, and a message is
    padded and hashed as a whole.  SHA-256 and SHA-512 are two instances. *)

From S2P Require Import Prelude Bytes.

Record sha2 := Sha2 {
  sha_w : Z;             (** bits in a word *)
  sha_rounds : nat;
  sha_Sigma0 : Z * Z * Z; (** ROTR, ROTR, ROTR *)
  sha_Sigma1 : Z * Z * Z;
  sha_sigma0 : Z * Z * Z; (** ROTR, ROTR, SHR *)
  sha_sigma1 : Z * Z * Z;
}.

Definition sha256_parameters : sha2 := Sha2 32 64 (2, 13, 22) (6, 11, 25) (7, 18, 3) (17, 19, 10).
Definition sha512_parameters : sha2 := Sha2 64 80 (28, 34, 39) (14, 18, 41) (1, 8, 7) (19, 61, 6).

(** ** Constants *)

Definition is_prime (n : Z) : bool := (1 <? n) && forallb (λ d, negb (n `mod` d =? 0)) (seqZ 2 (n - 2)).
Definition primes : list Z := base.filter (λ n : Z, is_prime n = true) (seqZ 0 410).

(** the integer cube root of [n], found bit by bit from bit [b - 1] down *)
Fixpoint icbrt (b : nat) (n r : Z) : Z :=
  match b with
  | O => r
  | S b => let r' := r + 2 ^ b in icbrt b n (if r' * r' * r' <=? n then r' else r)
  end.

Section sha2.
Context (P : sha2).
Let w : Z := sha_w P.

(** the first [w] bits of the fractional parts of the cube roots of the first primes, and of
    the square roots of the first eight *)
Definition sha_K : list Z :=
  (λ p, uint w (icbrt (Z.to_nat w + 4) (p * 2 ^ (3 * w)) 0)) <$> take (sha_rounds P) primes.
Definition sha_H0 : list Z := (λ p, uint w (Z.sqrt (p * 2 ^ (2 * w)))) <$> take 8 primes.

(** ** Functions *)

Definition ROTR (n x : Z) : Z := (x >> n) ||| uint w (x << (w - n)).
Definition fCh (x y z : Z) : Z := (x &&& y) ^^ (Z.lnot x &&& z).
Definition fMaj (x y z : Z) : Z := (x &&& y) ^^ (x &&& z) ^^ (y &&& z).
Definition rotations (r : Z * Z * Z) (x : Z) : Z :=
  let '(n1, n2, n3) := r in ROTR n1 x ^^ ROTR n2 x ^^ ROTR n3 x.
Definition rotations_shift (r : Z * Z * Z) (x : Z) : Z :=
  let '(n1, n2, n3) := r in ROTR n1 x ^^ ROTR n2 x ^^ (x >> n3).

(** ** One block *)

Definition working : Type := Z * Z * Z * Z * Z * Z * Z * Z.

Definition sha_round (v : working) (K W : Z) : working :=
  let '(a, b, c, d, e, f, g, h) := v in
  let T1 := uint w (h + rotations (sha_Sigma1 P) e + fCh e f g + K + W) in
  let T2 := uint w (rotations (sha_Sigma0 P) a + fMaj a b c) in
  (uint w (T1 + T2), a, b, c, uint w (d + T1), e, f, g).

(** the word after the sixteen words [ws] *)
Definition next_word (ws : list Z) : Z :=
  uint w (rotations_shift (sha_sigma1 P) (ws !!! 14%nat) + ws !!! 9%nat
          + rotations_shift (sha_sigma0 P) (ws !!! 1%nat) + ws !!! 0%nat).

(** rounds with the constants [Ks]; [fresh] are words of the block still to come, [ws] the last
    sixteen words used *)
Fixpoint sha_rounds_from (Ks fresh ws : list Z) (v : working) : working :=
  match Ks with
  | [] => v
  | K :: Ks =>
      let '(W, fresh) := match fresh with W :: fresh => (W, fresh) | [] => (next_word ws, []) end in
      sha_rounds_from Ks fresh (drop (length ws - 15) ws ++ [W]) (sha_round v K W)
  end.

Definition sha_add (v u : working) : working :=
  let '(a, b, c, d, e, f, g, h) := v in
  let '(a', b', c', d', e', f', g', h') := u in
  (uint w (a + a'), uint w (b + b'), uint w (c + c'), uint w (d + d'),
   uint w (e + e'), uint w (f + f'), uint w (g + g'), uint w (h + h')).

(** big-endian words of a block *)
Fixpoint be_words (n : nat) (block : list Z) : list Z :=
  match n with
  | O => []
  | S n => let k := Z.to_nat (w / 8) in le_value (rev (take k block)) :: be_words n (drop k block)
  end.

Definition sha_block (H : working) (block : list Z) : working :=
  sha_add H (sha_rounds_from sha_K (be_words 16 block) [] H).

(** ** A message *)

(** the whole blocks of [size] bytes of [m], folded with [f] *)
Fixpoint fold_blocks {S} (f : S -> list Z -> S) (size : nat) (fuel : nat) (s : S) (m : list Z) : S :=
  match fuel with
  | O => s
  | S fuel => if (length m <? size)%nat then s else fold_blocks f size fuel (f s (take size m)) (drop size m)
  end.

(** one bit, as few zeros as needed, the length in bits *)
Definition sha_pad (m : list Z) : list Z :=
  let size := 2 * w in
  m ++ [0x80] ++ replicate (Z.to_nat ((size - w / 4 - 1 - length m) `mod` size)) 0
    ++ rev (le_bytes (Z.to_nat (w / 4)) (8 * length m)).

Definition working_of (l : list Z) : working :=
  (l !!! 0%nat, l !!! 1%nat, l !!! 2%nat, l !!! 3%nat, l !!! 4%nat, l !!! 5%nat, l !!! 6%nat, l !!! 7%nat).
Definition working_list (v : working) : list Z :=
  let '(a, b, c, d, e, f, g, h) := v in [a; b; c; d; e; f; g; h].
Definition digest (v : working) : list Z :=
  concat ((λ x, rev (le_bytes (Z.to_nat (w / 8)) x)) <$> working_list v).

Definition sha_hash (m : list Z) : list Z :=
  let p := sha_pad m in
  digest (fold_blocks sha_block (Z.to_nat (2 * w)) (length p) (working_of sha_H0) p).

(** only the sixteen words of a block count *)
Lemma be_words_take (n m : nat) block :
  (Z.to_nat (w / 8) * n <= m)%nat -> be_words n (take m block) = be_words n block.
Proof.
  revert m block. induction n as [|n IH]; intros m block Hm; [done|]. cbn [be_words]. cbv zeta.
  rewrite take_take, Nat.min_l, skipn_firstn_comm by lia. f_equal. apply IH. lia.
Qed.

Lemma sha_block_take (m : nat) H block :
  (Z.to_nat (w / 8) * 16 <= m)%nat -> sha_block H (take m block) = sha_block H block.
Proof. intros Hm. unfold sha_block. by rewrite be_words_take. Qed.
End sha2.

Definition SHA256 : list Z -> list Z := sha_hash sha256_parameters.
Definition SHA512 : list Z -> list Z := sha_hash sha512_parameters.

(** the functions as the code writes them *)
Lemma fCh_select x y z : z ^^ (x &&& (y ^^ z)) = fCh x y z.
Proof.
  apply Z.bits_inj'. intros i Hi. unfold fCh. rewrite !Z.lxor_spec, !Z.land_spec, Z.lxor_spec, Z.lnot_spec by done.
  by destruct (Z.testbit x i), (Z.testbit y i), (Z.testbit z i).
Qed.

Lemma fMaj_or x y z : (x &&& y) ||| (z &&& (x ||| y)) = fMaj x y z.
Proof.
  apply Z.bits_inj'. intros i Hi. unfold fMaj. autorewrite with bits.
  by destruct (Z.testbit x i), (Z.testbit y i), (Z.testbit z i).
Qed.
