(* ===== verification/BlockHash.v ===== *)
(** * Hashers with a block buffer

    The four hashers of src/crypto (CSHA256, CSHA1, CRIPEMD160, CSHA512) keep a chaining state
    [s], a block buffer [buf] and a count [bytes], and have the same member functions up to the
    block size and the transformation; they are written once here, over a block size [B] and a
    transformation, and instantiated in the files of the hash functions.

    [represents h m]: the hasher [h] has been given the message [m]. *)

From S2P Require Import Prelude Bytes ShaSpec.

Record hasher (St : Type) := mkHasher {
  h_s : St;
  h_buf : list Z;
  h_bytes : Z;   (* uint64_t *)
}.
Arguments mkHasher {St} _ _ _.
Arguments h_s {St} _.
Arguments h_buf {St} _.
Arguments h_bytes {St} _.

(** [memcpy(dst + off, src, length src)] *)
Definition memcpy (dst : list Z) (off : nat) (src : list Z) : list Z :=
  take off dst ++ src ++ drop (off + length src) dst.

(** [while (blocks--) { body; chunk += B; }] *)
Fixpoint while_blocks {St} (B : nat) (body : St -> list Z -> St) (s : St) (chunk : list Z) (blocks : nat) : St :=
  match blocks with
  | O => s
  | S blocks => while_blocks B body (body s chunk) (drop B chunk) blocks
  end.

Section hasher.
Context {St : Type} (B : nat).

(** fill the buffer, and process it *)
Definition fill_buffer (transform : St -> list Z -> St) (h : hasher St) (data : list Z) : hasher St * list Z * nat :=
  let bufsize := Z.to_nat (h_bytes h `mod` B) in
  if negb (bufsize =? 0)%nat && (B <=? bufsize + length data)%nat then
    let buf := memcpy (h_buf h) bufsize (take (B - bufsize) data) in
    (mkHasher (transform (h_s h) buf) buf (u64 (h_bytes h + (B - bufsize)%nat)), drop (B - bufsize) data, 0%nat)
  else (h, data, bufsize).

(** fill the buffer with what remains *)
Definition keep_rest (h : hasher St) (data : list Z) (bufsize : nat) : hasher St :=
  if (0 <? length data)%nat then
    mkHasher (h_s h) (memcpy (h_buf h) bufsize data) (u64 (h_bytes h + length data))
  else h.

(** CSHA256::Write, whose transformation takes a number of blocks *)
Definition Write_blocks (Transform : St -> list Z -> nat -> St) (h : hasher St) (data : list Z) : hasher St :=
  let '(h, data, bufsize) := fill_buffer (λ s buf, Transform s buf 1%nat) h data in
  let '(h, data) :=
    if (B <=? length data)%nat then
      let blocks := (length data / B)%nat in
      (mkHasher (Transform (h_s h) data blocks) (h_buf h) (u64 (h_bytes h + (B * blocks)%nat)), drop (B * blocks) data)
    else (h, data) in
  keep_rest h data bufsize.

(** The other three process full chunks directly from the source one at a time. *)
Fixpoint Write_loop (Transform : St -> list Z -> St) (fuel : nat) (h : hasher St) (data : list Z) : hasher St * list Z :=
  match fuel with
  | O => (h, data)
  | S fuel =>
      if (B <=? length data)%nat then
        Write_loop Transform fuel (mkHasher (Transform (h_s h) data) (h_buf h) (u64 (h_bytes h + B))) (drop B data)
      else (h, data)
  end.

Definition Write (Transform : St -> list Z -> St) (h : hasher St) (data : list Z) : hasher St :=
  let '(h, data, bufsize) := fill_buffer Transform h data in
  let '(h, data) := Write_loop Transform (length data) h data in
  keep_rest h data bufsize.

(** [Finalize]: the padding, then [L] bytes of length, the last eight of them [sizedesc]. *)
Definition Finalize_pad (write : hasher St -> list Z -> hasher St) (L : nat) (sizedesc : list Z) (h : hasher St) : hasher St :=
  let pad := 0x80 :: replicate (B - 1) 0 in
  let h := write h (take (Z.to_nat (1 + (2 * B - L - 1 - h_bytes h `mod` B) `mod` B)) pad) in
  write h (replicate (L - 8) 0 ++ sizedesc).
End hasher.

(** ** Sums of words, up to the order and the places where they are reduced *)

Record eqmw (w a b : Z) : Prop := Eqmw { eqmw_eq : uint w a = uint w b }.

#[export] Instance eqmw_equivalence w : Equivalence (eqmw w).
Proof.
  split; [intros x; by constructor|intros x y [E]; by constructor|].
  intros x y z [E] [F]. constructor. congruence.
Qed.

#[export] Instance add_eqmw w : Proper (eqmw w ==> eqmw w ==> eqmw w) Z.add.
Proof. intros a b [E] c d [F]. constructor. unfold uint in *. rewrite Zplus_mod, E, F. symmetry. apply Zplus_mod. Qed.

Lemma uint_eqm w x : 0 <= w -> eqmw w (uint w x) x.
Proof. intros Hw. constructor. by apply uint_idemp. Qed.

Lemma uint_eqm32 x : eqmw 32 (uint 32 x) x.
Proof. by apply uint_eqm. Qed.
Lemma uint_eqm64 x : eqmw 64 (uint 64 x) x.
Proof. by apply uint_eqm. Qed.

Ltac sum_eq := apply eqmw_eq; rewrite ?uint_eqm32, ?uint_eqm64; constructor; f_equal; lia.

(** ** Laws *)

Lemma fold_blocks_ext {St} (f g : St -> list Z -> St) (B fuel : nat) s m :
  (forall s m, f s m = g s m) -> fold_blocks f B fuel s m = fold_blocks g B fuel s m.
Proof.
  intros E. revert s m. induction fuel as [|fuel IH]; intros s m; [done|].
  cbn [fold_blocks]. destruct (_ <? _)%nat; [done|]. by rewrite IH, E.
Qed.

Section while_blocks.
Context {St : Type} (B : nat) (body : St -> list Z -> St).

Lemma while_blocks_add s m (a b : nat) :
  while_blocks B body s m (a + b) = while_blocks B body (while_blocks B body s m a) (drop (B * a) m) b.
Proof.
  revert s m. induction a as [|a IH]; intros s m; cbn [while_blocks Nat.add].
  - by rewrite Nat.mul_0_r, drop_0.
  - rewrite IH, drop_drop. do 2 f_equal. lia.
Qed.

(** a body that reads one block only *)
Context (Hbody : forall s m, (B <= length m)%nat -> body s m = body s (take B m)).

Lemma while_blocks_app s m x (n : nat) :
  (B * n <= length m)%nat -> while_blocks B body s (m ++ x) n = while_blocks B body s m n.
Proof.
  revert s m. induction n as [|n IH]; intros s m Hl; [done|]. cbn [while_blocks].
  assert (Hm : (B <= length m)%nat) by nia.
  rewrite (Hbody s m), (Hbody s (m ++ x)), take_app_le, drop_app_le by (rewrite ?length_app; lia).
  apply IH. rewrite length_drop. nia.
Qed.

Lemma fold_blocks_while s m (fuel : nat) :
  (0 < B)%nat -> (length m / B <= fuel)%nat ->
  fold_blocks body B fuel s m = while_blocks B body s m (length m / B).
Proof.
  intros HB. revert s m. induction fuel as [|fuel IH]; intros s m Hf.
  - cbn [fold_blocks]. by replace (length m / B)%nat with 0%nat by lia.
  - cbn [fold_blocks]. destruct (Nat.ltb_spec (length m) B) as [Hl|Hl].
    + by rewrite Nat.div_small.
    + assert (E : (length m / B = S (length (drop B m) / B))%nat).
      { rewrite length_drop. replace (length m) with (length m - B + 1 * B)%nat at 1 by lia.
        rewrite Nat.div_add by lia. lia. }
      rewrite E in *. cbn [while_blocks]. rewrite IH by lia. by rewrite (Hbody s m).
Qed.
End while_blocks.

Section represents.
Context {St : Type} (B : nat) (init : St) (body : St -> list Z -> St).
Context (HB : (0 < B)%nat) (HB64 : Z.of_nat B < 2 ^ 32).
Context (Hbody : forall s m, (B <= length m)%nat -> body s m = body s (take B m)).

(** the state after the whole blocks of a message *)
Definition chain (m : list Z) : St := while_blocks B body init m (length m / B).

Lemma chain_fold m : chain m = fold_blocks body B (length m) init m.
Proof.
  unfold chain. rewrite fold_blocks_while; [done|done|done|].
  apply Nat.Div0.div_le_upper_bound. nia.
Qed.

Record represents (h : hasher St) (m : list Z) : Prop := {
  rep_s : h_s h = chain m;
  rep_length : length (h_buf h) = B;
  rep_buf : take (length m `mod` B) (h_buf h) = drop (B * (length m / B)) m;
  rep_bytes : h_bytes h = length m;
}.

Lemma chain_blocks m d (n : nat) :
  (length m `mod` B = 0)%nat -> (B * n <= length d)%nat ->
  chain (m ++ take (B * n) d) = while_blocks B body (chain m) d n.
Proof.
  intros Hm Hd. unfold chain. rewrite length_app, length_take, Nat.min_l by done.
  assert (E : (length m = B * (length m / B))%nat) by (apply Nat.div_exact in Hm; lia).
  replace ((length m + B * n) / B)%nat with (length m / B + n)%nat
    by (rewrite (Nat.mul_comm B n), Nat.div_add by lia; lia).
  rewrite while_blocks_add, while_blocks_app by (done || (rewrite <- E; lia)).
  rewrite <- E, drop_app_length.
  symmetry. rewrite <- (take_drop (B * n) d) at 1. apply while_blocks_app; [done|].
  rewrite length_take. lia.
Qed.

Lemma chain_short m d : (length m `mod` B + length d < B)%nat -> chain (m ++ d) = chain m.
Proof.
  intros Hl. unfold chain. rewrite length_app.
  pose proof (Nat.div_mod_eq (length m) B) as E.
  assert (Hq : (length m / B = (length m + length d) / B)%nat).
  { apply (Nat.div_unique _ _ _ (length m `mod` B + length d)%nat); [done|].
    rewrite Nat.add_assoc, <- E. done. }
  rewrite <- Hq. apply while_blocks_app; [done|].
  set (q := (length m / B)%nat) in *. set (r := (length m `mod` B)%nat) in *. lia.
Qed.

Lemma mod_bytes h m : represents h m -> Z.to_nat (h_bytes h `mod` B) = (length m `mod` B)%nat.
Proof. intros Hr. rewrite (rep_bytes _ _ Hr). rewrite <- Nat2Z.inj_mod, Nat2Z.id. done. Qed.

Lemma u64_bytes h m (n : nat) :
  represents h m -> length m + n < 2 ^ 64 -> u64 (h_bytes h + n) = length m + n.
Proof. intros Hr Hn. rewrite (rep_bytes _ _ Hr). apply u64_small. lia. Qed.

Lemma length_memcpy dst (off : nat) src :
  (off + length src <= length dst)%nat -> length (memcpy dst off src) = length dst.
Proof. intros Hl. unfold memcpy. rewrite !length_app, length_take, length_drop. lia. Qed.

(** the buffered bytes, the new ones after them *)
Lemma take_memcpy h m d :
  represents h m -> (length m `mod` B + length d <= B)%nat ->
  take (length m `mod` B + length d) (memcpy (h_buf h) (length m `mod` B) d) = drop (B * (length m / B)) m ++ d.
Proof.
  intros Hr Hl. unfold memcpy. rewrite app_assoc, (rep_buf _ _ Hr), take_app_length'; [done|].
  rewrite length_app. f_equal. rewrite <- (rep_buf _ _ Hr), length_take, (rep_length _ _ Hr). lia.
Qed.

Lemma keep_rest_spec h m data (k : nat) :
  represents h m -> k = (length m `mod` B)%nat -> (k + length data < B)%nat ->
  length m + length data < 2 ^ 64 -> represents (keep_rest h data k) (m ++ data).
Proof.
  intros Hr -> Hl H64. unfold keep_rest. destruct (Nat.ltb_spec 0 (length data)) as [Hd|Hd].
  2: { destruct data; [by rewrite app_nil_r|simpl in Hd; lia]. }
  pose proof (Nat.div_mod_eq (length m) B) as E.
  assert (Hq : (length m / B = length (m ++ data) / B)%nat /\ (length m `mod` B + length data = length (m ++ data) `mod` B)%nat).
  { rewrite length_app. split.
    - apply (Nat.div_unique _ _ _ (length m `mod` B + length data)%nat); [done|]. by rewrite Nat.add_assoc, <- E.
    - apply (Nat.mod_unique _ _ (length m / B)); [done|]. by rewrite Nat.add_assoc, <- E. }
  destruct Hq as [Hq Hm]. split; cbn [h_s h_buf h_bytes].
  - rewrite chain_short by done. apply (rep_s _ _ Hr).
  - rewrite length_memcpy, (rep_length _ _ Hr); [done|]. rewrite (rep_length _ _ Hr). lia.
  - rewrite <- Hm, <- Hq, take_memcpy by (done || lia). rewrite drop_app_le; [done|].
    set (q := (length m / B)%nat) in *. set (r := (length m `mod` B)%nat) in *. lia.
  - rewrite length_app, Nat2Z.inj_add. by apply u64_bytes.
Qed.

Lemma blocks_spec h m data (n : nat) :
  represents h m -> (length m `mod` B = 0)%nat -> (B * n <= length data)%nat ->
  length m + length data < 2 ^ 64 ->
  represents (mkHasher (while_blocks B body (h_s h) data n) (h_buf h) (u64 (h_bytes h + (B * n)%nat)))
    (m ++ take (B * n) data).
Proof.
  intros Hr Hm Hn H64. assert (Hl : length (m ++ take (B * n) data) = (length m + B * n)%nat)
    by (rewrite length_app, length_take; lia).
  assert (Hmod : ((length m + B * n) `mod` B = 0)%nat) by (rewrite (Nat.mul_comm B n), Nat.Div0.mod_add; done).
  split; cbn [h_s h_buf h_bytes].
  - rewrite chain_blocks by done. by rewrite (rep_s _ _ Hr).
  - apply (rep_length _ _ Hr).
  - rewrite Hl, Hmod, take_0. symmetry. apply nil_length_inv. rewrite length_drop, Hl.
    apply Nat.div_exact in Hmod; lia.
  - rewrite Hl, (u64_bytes _ m) by (done || lia). lia.
Qed.

Context (transform : St -> list Z -> St) (Htr : forall s m, (B <= length m)%nat -> transform s m = body s m).

Lemma fill_buffer_spec h m data :
  represents h m -> length m + length data < 2 ^ 64 ->
  exists d, let '(h', data', k) := fill_buffer B transform h data in
    data = d ++ data' /\ represents h' (m ++ d) /\ k = (length (m ++ d) `mod` B)%nat
    /\ (k = 0%nat \/ (k + length data' < B)%nat).
Proof.
  intros Hr H64. unfold fill_buffer. rewrite (mod_bytes h m Hr).
  pose proof (Nat.div_mod_eq (length m) B) as E. pose proof (Nat.mod_upper_bound (length m) B ltac:(lia)) as Hb.
  set (k := (length m `mod` B)%nat) in *. set (q := (length m / B)%nat) in *.
  destruct (Nat.eqb_spec k 0) as [Hk|Hk]; cbn [negb andb].
  { exists []. rewrite app_nil_r. repeat split; [by destruct Hr..|by left]. }
  destruct (Nat.leb_spec B (k + length data)) as [Hl|Hl].
  2: { exists []. rewrite app_nil_r. repeat split; [by destruct Hr..|by right]. }
  exists (take (B - k) data). set (d := take (B - k) data).
  assert (Hd : length d = (B - k)%nat) by (unfold d; rewrite length_take; lia).
  assert (Hlen : length (m ++ d) = (B * (q + 1))%nat) by (rewrite length_app, Hd; lia).
  assert (Hmod : (length (m ++ d) `mod` B = 0)%nat) by (rewrite Hlen, Nat.mul_comm; apply Nat.Div0.mod_mul).
  assert (Hbuf : memcpy (h_buf h) k d = drop (B * q) m ++ d).
  { unfold k at 1, q. rewrite <- (take_memcpy h m d) by (done || (fold k; lia)). fold k.
    rewrite take_ge; [done|]. rewrite length_memcpy; rewrite (rep_length _ _ Hr); lia. }
  assert (Hblk : length (memcpy (h_buf h) k d) = B) by (rewrite Hbuf, length_app, length_drop; lia).
  split; [unfold d; by rewrite take_drop|]. split; [|split; [done|by left]].
  split; cbn [h_s h_buf h_bytes].
  - rewrite Htr by lia. unfold chain. rewrite Hlen, (Nat.mul_comm B), Nat.div_mul by lia.
    rewrite while_blocks_add, while_blocks_app by (done || lia). cbn [while_blocks].
    rewrite Hbuf, (rep_s _ _ Hr), drop_app_le by lia. done.
  - done.
  - rewrite Hmod, take_0. symmetry. apply nil_length_inv. rewrite length_drop, Hlen, (Nat.mul_comm B (q + 1)), Nat.div_mul by lia. lia.
  - rewrite (u64_bytes _ m), Hlen by (done || lia). lia.
Qed.

Lemma Write_chunks_spec (fuel : nat) h m data :
  represents h m -> (length m `mod` B = 0)%nat -> (length data <= fuel)%nat ->
  length m + length data < 2 ^ 64 ->
  exists d, let '(h', data') := Write_loop B transform fuel h data in
    data = d ++ data' /\ represents h' (m ++ d) /\ (length (m ++ d) `mod` B = 0)%nat /\ (length data' < B)%nat.
Proof.
  revert h m data. induction fuel as [|fuel IH]; intros h m data Hr Hm Hf H64.
  - exists []. cbn. rewrite app_nil_r. repeat split; [by destruct Hr..|done|lia].
  - cbn [Write_loop]. destruct (Nat.leb_spec B (length data)) as [Hl|Hl].
    2: { exists []. rewrite app_nil_r. repeat split; [by destruct Hr..|done|done]. }
    pose proof (blocks_spec h m data 1 Hr Hm ltac:(lia) H64) as Hb.
    rewrite Nat.mul_1_r in Hb. cbn [while_blocks] in Hb. rewrite <- Htr in Hb by done.
    assert (Hlen : length (m ++ take B data) = (length m + B)%nat) by (rewrite length_app, length_take; lia).
    destruct (IH _ _ (drop B data) Hb) as [d Hd].
    + rewrite Hlen. rewrite <- (Nat.mul_1_l B) at 1. by rewrite Nat.Div0.mod_add.
    + rewrite length_drop. lia.
    + rewrite Hlen, length_drop. lia.
    + exists (take B data ++ d). destruct (Write_loop _ _ _ _ _) as [h' data'].
      destruct Hd as (E & Hr' & Hm' & Hl'). rewrite <- !app_assoc in *.
      split; [by rewrite <- E, take_drop|done].
Qed.

Lemma Write_spec h m data :
  represents h m -> length m + length data < 2 ^ 64 -> represents (Write B transform h data) (m ++ data).
Proof.
  intros Hr H64. unfold Write. destruct (fill_buffer_spec h m data Hr H64) as [d Hd].
  destruct (fill_buffer B transform h data) as [[h1 data1] k]. destruct Hd as (-> & Hr1 & Hk & Hc).
  rewrite length_app in H64. rewrite app_assoc. 
  destruct (decide (k = 0%nat)) as [Hk0|Hk0].
  - destruct (Write_chunks_spec (length data1) h1 (m ++ d) data1) as [e He]; [done|congruence|done|rewrite length_app; lia|].
    destruct (Write_loop _ _ _ _ _) as [h2 data2]. destruct He as (-> & Hr2 & Hm2 & Hl2).
    rewrite length_app in H64. rewrite app_assoc.
    apply keep_rest_spec; [done|congruence|lia|rewrite !length_app; lia].
  - destruct Hc as [Hc|Hc]; [done|].
    assert (Hloop : Write_loop B transform (length data1) h1 data1 = (h1, data1)).
    { destruct (length data1) eqn:E; [done|]. cbn [Write_loop]. rewrite E.
      by replace (B <=? S n)%nat with false by (symmetry; apply Nat.leb_gt; lia). }
    rewrite Hloop. apply keep_rest_spec; [done..|rewrite length_app; lia].
Qed.

Context (Transform : St -> list Z -> nat -> St).
Context (HT : forall s m (n : nat), (B * n <= length m)%nat -> Transform s m n = while_blocks B body s m n).

Lemma Write_blocks_spec h m data :
  represents h m -> length m + length data < 2 ^ 64 -> represents (Write_blocks B Transform h data) (m ++ data).
Proof.
  intros Hr H64. unfold Write_blocks. destruct (fill_buffer_spec h m data Hr H64) as [d Hd].
  assert (Hext : fill_buffer B (λ s buf, Transform s buf 1) h data = fill_buffer B transform h data).
  { unfold fill_buffer. destruct (_ && _) eqn:E; [|done]. rewrite HT; cbn [while_blocks]; [rewrite Htr; [done|]|].
    all: apply andb_prop in E as [E1 E2]; apply Nat.leb_le in E2; rewrite (mod_bytes h m Hr) in *.
    all: pose proof (Nat.mod_upper_bound (length m) B ltac:(lia)).
    all: rewrite length_memcpy; rewrite ?length_take, (rep_length _ _ Hr); lia. }
  rewrite Hext. destruct (fill_buffer B transform h data) as [[h1 data1] k]. destruct Hd as (-> & Hr1 & Hk & Hc).
  rewrite length_app in H64. rewrite app_assoc.
  destruct (Nat.leb_spec B (length data1)) as [Hl|Hl].
  - assert (Hk0 : k = 0%nat) by (destruct Hc; lia). rewrite Hk0 in *.
    pose proof (Nat.div_mod_eq (length data1) B) as E.
    pose proof (Nat.mod_upper_bound (length data1) B ltac:(lia)) as Hb.
    set (n := (length data1 / B)%nat) in *. set (r := (length data1 `mod` B)%nat) in *.
    rewrite HT by lia.
    replace ((m ++ d) ++ data1) with (((m ++ d) ++ take (B * n) data1) ++ drop (B * n) data1)
      by (by rewrite <- app_assoc, take_drop).
    assert (Hlen : length ((m ++ d) ++ take (B * n) data1) = (length (m ++ d) + B * n)%nat)
      by (rewrite length_app, length_take; lia).
    apply keep_rest_spec.
    + apply blocks_spec; [done|congruence|lia|rewrite length_app; lia].
    + rewrite Hlen, (Nat.mul_comm B n), Nat.Div0.mod_add. congruence.
    + rewrite length_drop. lia.
    + rewrite Hlen, length_drop, length_app. lia.
  - apply keep_rest_spec; [done..|destruct Hc; lia|rewrite length_app; lia].
Qed.
End represents.

(** ** Any hasher whose [Write] appends to the message *)
Section finish.
Context {St : Type} (B : nat) (init : St) (body : St -> list Z -> St) (HB : (0 < B)%nat).
Context (write : hasher St -> list Z -> hasher St).
Context (Hwrite : forall h m data, represents B init body h m -> length m + length data < 2 ^ 64 ->
                  represents B init body (write h data) (m ++ data)).

Lemma new_represents buf : length buf = B -> represents B init body (mkHasher init buf 0) [].
Proof.
  intros Hb. split; cbn [h_s h_buf h_bytes length].
  - unfold chain. cbn [length]. by rewrite Nat.Div0.div_0_l.
  - done.
  - by rewrite Nat.Div0.mod_0_l, take_0, drop_nil.
  - done.
Qed.

Lemma writes_represents chunks h m :
  represents B init body h m -> length m + length (concat chunks) < 2 ^ 64 ->
  represents B init body (foldl write h chunks) (m ++ concat chunks).
Proof.
  revert h m. induction chunks as [|c chunks IH]; intros h m Hr Hl; cbn [foldl concat] in *.
  - by rewrite app_nil_r.
  - rewrite length_app in Hl. rewrite app_assoc. apply IH; [apply Hwrite; [done|lia]|rewrite length_app; lia].
Qed.

(** the zeros of the padding *)
Definition pad_zeros (L : nat) (m : list Z) : nat := Z.to_nat ((B - L - 1 - length m) `mod` B).

Lemma Finalize_pad_represents (L : nat) sizedesc h m :
  (8 <= L)%nat -> (L + 1 <= B)%nat -> length sizedesc = 8%nat ->
  represents B init body h m -> length m + 2 * B + L < 2 ^ 64 ->
  represents B init body (Finalize_pad B write L sizedesc h)
    (m ++ [0x80] ++ replicate (pad_zeros L m) 0 ++ replicate (L - 8) 0 ++ sizedesc).
Proof.
  intros HL HLB Hs Hr H64. unfold Finalize_pad.
  assert (Hz : (2 * B - L - 1 - h_bytes h `mod` B) `mod` B = (B - L - 1 - length m) `mod` B).
  { rewrite (rep_bytes _ _ _ _ _ Hr), Zminus_mod_idemp_r.
    replace (2 * B - L - 1 - length m) with (B - L - 1 - length m + 1 * B) by lia. apply Z.mod_add. lia. }
  rewrite Hz. pose proof (Z.mod_pos_bound (B - L - 1 - length m) B ltac:(lia)) as Hb.
  rewrite Z2Nat.inj_add by lia. fold (pad_zeros L m). assert (HzB : (pad_zeros L m < B)%nat) by (unfold pad_zeros; lia).
  change (Z.to_nat 1 + pad_zeros L m)%nat with (S (pad_zeros L m)). cbn [take].
  rewrite take_replicate, Nat.min_l by lia.
  replace (m ++ [0x80] ++ replicate (pad_zeros L m) 0 ++ replicate (L - 8) 0 ++ sizedesc)
    with ((m ++ 0x80 :: replicate (pad_zeros L m) 0) ++ replicate (L - 8) 0 ++ sizedesc)
    by (by rewrite <- app_assoc).
  apply Hwrite; [apply Hwrite; [done|]|]; rewrite ?length_app; cbn [length]; rewrite ?length_replicate, ?Hs; lia.
Qed.
End finish.

(** the padding of SHA-1 and SHA-256, as [Finalize] writes it *)
Lemma sha_pad_Finalize m :
  length m < 2 ^ 61 ->
  m ++ [0x80] ++ replicate (pad_zeros 64 8 m) 0 ++ replicate (8 - 8) 0 ++ WriteBE64 (u64 (length m << 3))
  = sha_pad sha256_parameters m.
Proof.
  intros Hm. unfold sha_pad, WriteBE64. rewrite Z.shiftl_mul_pow2, u64_small by lia. cbn [replicate Nat.sub app].
  do 4 f_equal. f_equal. lia.
Qed.
