(* ===== verification/Sha256.v ===== *)
(** * SHA-256: crypto/sha256.h and crypto/sha256.cpp

    The round functions, the unrolled block transformation, the transformation specialised
    to double hashing of 64 bytes, the hasher object with its buffer, and the dispatch between
    implementations.  The state [s[8]] is a tuple of eight 32-bit words; the calls of [Round]
    with its arguments rotated come in groups of eight, and the assignments [w0 += ...] inside
    their last argument are made before the group that uses them. *)

From S2P Require Import Prelude Bytes BlockHash.

Module Sha256.

(** 32-bit addition, as [+] on [uint32_t] *)
Definition add32 (a b : Z) : Z := u32 (a + b).
#[local] Notation "a +. b" := (add32 a b) (at level 50, left associativity).

Definition Ch (x y z : Z) : Z := z ^^ (x &&& (y ^^ z)).
Definition Maj (x y z : Z) : Z := (x &&& y) ||| (z &&& (x ||| y)).
Definition Sigma0 (x : Z) : Z := ((x >> 2) ||| u32 (x << 30)) ^^ ((x >> 13) ||| u32 (x << 19)) ^^ ((x >> 22) ||| u32 (x << 10)).
Definition Sigma1 (x : Z) : Z := ((x >> 6) ||| u32 (x << 26)) ^^ ((x >> 11) ||| u32 (x << 21)) ^^ ((x >> 25) ||| u32 (x << 7)).
Definition sigma0 (x : Z) : Z := ((x >> 7) ||| u32 (x << 25)) ^^ ((x >> 18) ||| u32 (x << 14)) ^^ (x >> 3).
Definition sigma1 (x : Z) : Z := ((x >> 17) ||| u32 (x << 15)) ^^ ((x >> 19) ||| u32 (x << 13)) ^^ (x >> 10).

(** One round: the new values of [d] and [h]. *)
Definition Round (a b c d e f g h k : Z) : Z * Z :=
  let t1 := h +. Sigma1 e +. Ch e f g +. k in
  let t2 := Sigma0 a +. Maj a b c in
  (d +. t1, t1 +. t2).

Definition state : Type := Z * Z * Z * Z * Z * Z * Z * Z.

Definition Initialize : state :=
  (0x6a09e667, 0xbb67ae85, 0x3c6ef372, 0xa54ff53a, 0x510e527f, 0x9b05688c, 0x1f83d9ab, 0x5be0cd19).

(** The eight calls of [Round] after which the registers have their names again. *)
Definition Rounds8 (r : state) (k0 k1 k2 k3 k4 k5 k6 k7 : Z) : state :=
  let '(a, b, c, d, e, f, g, h) := r in
  let '(d, h) := Round a b c d e f g h k0 in
  let '(c, g) := Round h a b c d e f g k1 in
  let '(b, f) := Round g h a b c d e f k2 in
  let '(a, e) := Round f g h a b c d e k3 in
  let '(h, d) := Round e f g h a b c d k4 in
  let '(g, c) := Round d e f g h a b c k5 in
  let '(f, b) := Round c d e f g h a b k6 in
  let '(e, a) := Round b c d e f g h a k7 in
  (a, b, c, d, e, f, g, h).

(** The eight updates of the schedule between them: [w0] to [w7], or with the two halves
    exchanged [w8] to [w15].  (The last two words are passed on without being stored.) *)
Definition Expand8 (w0 w1 w2 w3 w4 w5 w6 w7 w8 w9 w10 w11 w12 w13 w14 w15 : Z) : state :=
  let w0 := w0 +. (sigma1 w14 +. w9 +. sigma0 w1) in
  let w1 := w1 +. (sigma1 w15 +. w10 +. sigma0 w2) in
  let w2 := w2 +. (sigma1 w0 +. w11 +. sigma0 w3) in
  let w3 := w3 +. (sigma1 w1 +. w12 +. sigma0 w4) in
  let w4 := w4 +. (sigma1 w2 +. w13 +. sigma0 w5) in
  let w5 := w5 +. (sigma1 w3 +. w14 +. sigma0 w6) in
  let w6 := w6 +. (sigma1 w4 +. w15 +. sigma0 w7) in
  let w7 := w7 +. (sigma1 w5 +. w0 +. sigma0 w8) in
  (w0, w1, w2, w3, w4, w5, w6, w7).

(** [s[0] += a; ...] *)
Definition add_state (s r : state) : state :=
  let '(s0, s1, s2, s3, s4, s5, s6, s7) := s in
  let '(a, b, c, d, e, f, g, h) := r in
  (s0 +. a, s1 +. b, s2 +. c, s3 +. d, s4 +. e, s5 +. f, s6 +. g, s7 +. h).

(** The body of the loop of [Transform]: one 64-byte chunk. *)
Definition Transform1 (s : state) (chunk : list Z) : state :=
  let w0 := ReadBE32 (drop 0 chunk) in
  let w1 := ReadBE32 (drop 4 chunk) in
  let w2 := ReadBE32 (drop 8 chunk) in
  let w3 := ReadBE32 (drop 12 chunk) in
  let w4 := ReadBE32 (drop 16 chunk) in
  let w5 := ReadBE32 (drop 20 chunk) in
  let w6 := ReadBE32 (drop 24 chunk) in
  let w7 := ReadBE32 (drop 28 chunk) in
  let w8 := ReadBE32 (drop 32 chunk) in
  let w9 := ReadBE32 (drop 36 chunk) in
  let w10 := ReadBE32 (drop 40 chunk) in
  let w11 := ReadBE32 (drop 44 chunk) in
  let w12 := ReadBE32 (drop 48 chunk) in
  let w13 := ReadBE32 (drop 52 chunk) in
  let w14 := ReadBE32 (drop 56 chunk) in
  let w15 := ReadBE32 (drop 60 chunk) in
  let r := s in
  let r := Rounds8 r (0x428a2f98 +. w0) (0x71374491 +. w1) (0xb5c0fbcf +. w2) (0xe9b5dba5 +. w3)
    (0x3956c25b +. w4) (0x59f111f1 +. w5) (0x923f82a4 +. w6) (0xab1c5ed5 +. w7) in
  let r := Rounds8 r (0xd807aa98 +. w8) (0x12835b01 +. w9) (0x243185be +. w10) (0x550c7dc3 +. w11)
    (0x72be5d74 +. w12) (0x80deb1fe +. w13) (0x9bdc06a7 +. w14) (0xc19bf174 +. w15) in
  let '(w0, w1, w2, w3, w4, w5, w6, w7) := Expand8 w0 w1 w2 w3 w4 w5 w6 w7 w8 w9 w10 w11 w12 w13 w14 w15 in
  let r := Rounds8 r (0xe49b69c1 +. w0) (0xefbe4786 +. w1) (0x0fc19dc6 +. w2) (0x240ca1cc +. w3)
    (0x2de92c6f +. w4) (0x4a7484aa +. w5) (0x5cb0a9dc +. w6) (0x76f988da +. w7) in
  let '(w8, w9, w10, w11, w12, w13, w14, w15) := Expand8 w8 w9 w10 w11 w12 w13 w14 w15 w0 w1 w2 w3 w4 w5 w6 w7 in
  let r := Rounds8 r (0x983e5152 +. w8) (0xa831c66d +. w9) (0xb00327c8 +. w10) (0xbf597fc7 +. w11)
    (0xc6e00bf3 +. w12) (0xd5a79147 +. w13) (0x06ca6351 +. w14) (0x14292967 +. w15) in
  let '(w0, w1, w2, w3, w4, w5, w6, w7) := Expand8 w0 w1 w2 w3 w4 w5 w6 w7 w8 w9 w10 w11 w12 w13 w14 w15 in
  let r := Rounds8 r (0x27b70a85 +. w0) (0x2e1b2138 +. w1) (0x4d2c6dfc +. w2) (0x53380d13 +. w3)
    (0x650a7354 +. w4) (0x766a0abb +. w5) (0x81c2c92e +. w6) (0x92722c85 +. w7) in
  let '(w8, w9, w10, w11, w12, w13, w14, w15) := Expand8 w8 w9 w10 w11 w12 w13 w14 w15 w0 w1 w2 w3 w4 w5 w6 w7 in
  let r := Rounds8 r (0xa2bfe8a1 +. w8) (0xa81a664b +. w9) (0xc24b8b70 +. w10) (0xc76c51a3 +. w11)
    (0xd192e819 +. w12) (0xd6990624 +. w13) (0xf40e3585 +. w14) (0x106aa070 +. w15) in
  let '(w0, w1, w2, w3, w4, w5, w6, w7) := Expand8 w0 w1 w2 w3 w4 w5 w6 w7 w8 w9 w10 w11 w12 w13 w14 w15 in
  let r := Rounds8 r (0x19a4c116 +. w0) (0x1e376c08 +. w1) (0x2748774c +. w2) (0x34b0bcb5 +. w3)
    (0x391c0cb3 +. w4) (0x4ed8aa4a +. w5) (0x5b9cca4f +. w6) (0x682e6ff3 +. w7) in
  let '(w8, w9, w10, w11, w12, w13, w14, w15) := Expand8 w8 w9 w10 w11 w12 w13 w14 w15 w0 w1 w2 w3 w4 w5 w6 w7 in
  let r := Rounds8 r (0x748f82ee +. w8) (0x78a5636f +. w9) (0x84c87814 +. w10) (0x8cc70208 +. w11)
    (0x90befffa +. w12) (0xa4506ceb +. w13) (0xbef9a3f7 +. w14) (0xc67178f2 +. w15) in
  add_state s r.

Definition Transform (s : state) (chunk : list Z) (blocks : nat) : state :=
  while_blocks 64 Transform1 s chunk blocks.

(** ** Double hashing of 64 bytes: [TransformD64]

    Its three transformations: the message, its padding (whose schedule is constant, so the
    constants added are sums), and the first hash with its padding. *)

Definition TransformD64_1 (inp : list Z) : state :=
  let w0 := ReadBE32 (drop 0 inp) in
  let w1 := ReadBE32 (drop 4 inp) in
  let w2 := ReadBE32 (drop 8 inp) in
  let w3 := ReadBE32 (drop 12 inp) in
  let w4 := ReadBE32 (drop 16 inp) in
  let w5 := ReadBE32 (drop 20 inp) in
  let w6 := ReadBE32 (drop 24 inp) in
  let w7 := ReadBE32 (drop 28 inp) in
  let w8 := ReadBE32 (drop 32 inp) in
  let w9 := ReadBE32 (drop 36 inp) in
  let w10 := ReadBE32 (drop 40 inp) in
  let w11 := ReadBE32 (drop 44 inp) in
  let w12 := ReadBE32 (drop 48 inp) in
  let w13 := ReadBE32 (drop 52 inp) in
  let w14 := ReadBE32 (drop 56 inp) in
  let w15 := ReadBE32 (drop 60 inp) in
  let r := Initialize in
  let r := Rounds8 r (0x428a2f98 +. w0) (0x71374491 +. w1) (0xb5c0fbcf +. w2) (0xe9b5dba5 +. w3)
    (0x3956c25b +. w4) (0x59f111f1 +. w5) (0x923f82a4 +. w6) (0xab1c5ed5 +. w7) in
  let r := Rounds8 r (0xd807aa98 +. w8) (0x12835b01 +. w9) (0x243185be +. w10) (0x550c7dc3 +. w11)
    (0x72be5d74 +. w12) (0x80deb1fe +. w13) (0x9bdc06a7 +. w14) (0xc19bf174 +. w15) in
  let '(w0, w1, w2, w3, w4, w5, w6, w7) := Expand8 w0 w1 w2 w3 w4 w5 w6 w7 w8 w9 w10 w11 w12 w13 w14 w15 in
  let r := Rounds8 r (0xe49b69c1 +. w0) (0xefbe4786 +. w1) (0x0fc19dc6 +. w2) (0x240ca1cc +. w3)
    (0x2de92c6f +. w4) (0x4a7484aa +. w5) (0x5cb0a9dc +. w6) (0x76f988da +. w7) in
  let '(w8, w9, w10, w11, w12, w13, w14, w15) := Expand8 w8 w9 w10 w11 w12 w13 w14 w15 w0 w1 w2 w3 w4 w5 w6 w7 in
  let r := Rounds8 r (0x983e5152 +. w8) (0xa831c66d +. w9) (0xb00327c8 +. w10) (0xbf597fc7 +. w11)
    (0xc6e00bf3 +. w12) (0xd5a79147 +. w13) (0x06ca6351 +. w14) (0x14292967 +. w15) in
  let '(w0, w1, w2, w3, w4, w5, w6, w7) := Expand8 w0 w1 w2 w3 w4 w5 w6 w7 w8 w9 w10 w11 w12 w13 w14 w15 in
  let r := Rounds8 r (0x27b70a85 +. w0) (0x2e1b2138 +. w1) (0x4d2c6dfc +. w2) (0x53380d13 +. w3)
    (0x650a7354 +. w4) (0x766a0abb +. w5) (0x81c2c92e +. w6) (0x92722c85 +. w7) in
  let '(w8, w9, w10, w11, w12, w13, w14, w15) := Expand8 w8 w9 w10 w11 w12 w13 w14 w15 w0 w1 w2 w3 w4 w5 w6 w7 in
  let r := Rounds8 r (0xa2bfe8a1 +. w8) (0xa81a664b +. w9) (0xc24b8b70 +. w10) (0xc76c51a3 +. w11)
    (0xd192e819 +. w12) (0xd6990624 +. w13) (0xf40e3585 +. w14) (0x106aa070 +. w15) in
  let '(w0, w1, w2, w3, w4, w5, w6, w7) := Expand8 w0 w1 w2 w3 w4 w5 w6 w7 w8 w9 w10 w11 w12 w13 w14 w15 in
  let r := Rounds8 r (0x19a4c116 +. w0) (0x1e376c08 +. w1) (0x2748774c +. w2) (0x34b0bcb5 +. w3)
    (0x391c0cb3 +. w4) (0x4ed8aa4a +. w5) (0x5b9cca4f +. w6) (0x682e6ff3 +. w7) in
  let '(w8, w9, w10, w11, w12, w13, w14, w15) := Expand8 w8 w9 w10 w11 w12 w13 w14 w15 w0 w1 w2 w3 w4 w5 w6 w7 in
  let r := Rounds8 r (0x748f82ee +. w8) (0x78a5636f +. w9) (0x84c87814 +. w10) (0x8cc70208 +. w11)
    (0x90befffa +. w12) (0xa4506ceb +. w13) (0xbef9a3f7 +. w14) (0xc67178f2 +. w15) in
  add_state r Initialize.

Definition TransformD64_2 (t : state) : state :=
  let r := t in
  let r := Rounds8 r 0xc28a2f98 0x71374491 0xb5c0fbcf 0xe9b5dba5 0x3956c25b 0x59f111f1 0x923f82a4 0xab1c5ed5 in
  let r := Rounds8 r 0xd807aa98 0x12835b01 0x243185be 0x550c7dc3 0x72be5d74 0x80deb1fe 0x9bdc06a7 0xc19bf374 in
  let r := Rounds8 r 0x649b69c1 0xf0fe4786 0x0fe1edc6 0x240cf254 0x4fe9346f 0x6cc984be 0x61b9411e 0x16f988fa in
  let r := Rounds8 r 0xf2c65152 0xa88e5a6d 0xb019fc65 0xb9d99ec7 0x9a1231c3 0xe70eeaa0 0xfdb1232b 0xc7353eb0 in
  let r := Rounds8 r 0x3069bad5 0xcb976d5f 0x5a0f118f 0xdc1eeefd 0x0a35b689 0xde0b7a04 0x58f4ca9d 0xe15d5b16 in
  let r := Rounds8 r 0x007f3e86 0x37088980 0xa507ea32 0x6fab9537 0x17406110 0x0d8cd6f1 0xcdaa3b6d 0xc0bbbe37 in
  let r := Rounds8 r 0x83613bda 0xdb48a363 0x0b02e931 0x6fd15ca7 0x521afaca 0x31338431 0x6ed41a95 0x6d437890 in
  let r := Rounds8 r 0xc39c91f2 0x9eccabbd 0xb5c9a0e6 0x532fb63c 0xd2c741c6 0x07237ea3 0xa4954b68 0x4c191d76 in
  add_state t r.

(** The words 16 to 31 of the last transformation, the constant words folded in. *)
Definition ExpandD64_lo (w0 w1 w2 w3 w4 w5 w6 w7 : Z) : state :=
  let w0 := w0 +. sigma0 w1 in
  let w1 := w1 +. (0xa00000 +. sigma0 w2) in
  let w2 := w2 +. (sigma1 w0 +. sigma0 w3) in
  let w3 := w3 +. (sigma1 w1 +. sigma0 w4) in
  let w4 := w4 +. (sigma1 w2 +. sigma0 w5) in
  let w5 := w5 +. (sigma1 w3 +. sigma0 w6) in
  let w6 := w6 +. (sigma1 w4 +. 0x100 +. sigma0 w7) in
  let w7 := w7 +. (sigma1 w5 +. w0 +. 0x11002000) in
  (w0, w1, w2, w3, w4, w5, w6, w7).

Definition ExpandD64_hi (w0 w1 w2 w3 w4 w5 w6 w7 : Z) : state :=
  let w8 := 0x80000000 +. sigma1 w6 +. w1 in
  let w9 := sigma1 w7 +. w2 in
  let w10 := sigma1 w8 +. w3 in
  let w11 := sigma1 w9 +. w4 in
  let w12 := sigma1 w10 +. w5 in
  let w13 := sigma1 w11 +. w6 in
  let w14 := sigma1 w12 +. w7 +. 0x400022 in
  let w15 := 0x100 +. sigma1 w13 +. w8 +. sigma0 w0 in
  (w8, w9, w10, w11, w12, w13, w14, w15).

Definition TransformD64_3 (w : state) : state :=
  let '(w0, w1, w2, w3, w4, w5, w6, w7) := w in
  let r := Initialize in
  let r := Rounds8 r (0x428a2f98 +. w0) (0x71374491 +. w1) (0xb5c0fbcf +. w2) (0xe9b5dba5 +. w3)
    (0x3956c25b +. w4) (0x59f111f1 +. w5) (0x923f82a4 +. w6) (0xab1c5ed5 +. w7) in
  let r := Rounds8 r 0x5807aa98 0x12835b01 0x243185be 0x550c7dc3 0x72be5d74 0x80deb1fe 0x9bdc06a7 0xc19bf274 in
  let '(w0, w1, w2, w3, w4, w5, w6, w7) := ExpandD64_lo w0 w1 w2 w3 w4 w5 w6 w7 in
  let r := Rounds8 r (0xe49b69c1 +. w0) (0xefbe4786 +. w1) (0x0fc19dc6 +. w2) (0x240ca1cc +. w3)
    (0x2de92c6f +. w4) (0x4a7484aa +. w5) (0x5cb0a9dc +. w6) (0x76f988da +. w7) in
  let '(w8, w9, w10, w11, w12, w13, w14, w15) := ExpandD64_hi w0 w1 w2 w3 w4 w5 w6 w7 in
  let r := Rounds8 r (0x983e5152 +. w8) (0xa831c66d +. w9) (0xb00327c8 +. w10) (0xbf597fc7 +. w11)
    (0xc6e00bf3 +. w12) (0xd5a79147 +. w13) (0x06ca6351 +. w14) (0x14292967 +. w15) in
  let '(w0, w1, w2, w3, w4, w5, w6, w7) := Expand8 w0 w1 w2 w3 w4 w5 w6 w7 w8 w9 w10 w11 w12 w13 w14 w15 in
  let r := Rounds8 r (0x27b70a85 +. w0) (0x2e1b2138 +. w1) (0x4d2c6dfc +. w2) (0x53380d13 +. w3)
    (0x650a7354 +. w4) (0x766a0abb +. w5) (0x81c2c92e +. w6) (0x92722c85 +. w7) in
  let '(w8, w9, w10, w11, w12, w13, w14, w15) := Expand8 w8 w9 w10 w11 w12 w13 w14 w15 w0 w1 w2 w3 w4 w5 w6 w7 in
  let r := Rounds8 r (0xa2bfe8a1 +. w8) (0xa81a664b +. w9) (0xc24b8b70 +. w10) (0xc76c51a3 +. w11)
    (0xd192e819 +. w12) (0xd6990624 +. w13) (0xf40e3585 +. w14) (0x106aa070 +. w15) in
  let '(w0, w1, w2, w3, w4, w5, w6, w7) := Expand8 w0 w1 w2 w3 w4 w5 w6 w7 w8 w9 w10 w11 w12 w13 w14 w15 in
  let r := Rounds8 r (0x19a4c116 +. w0) (0x1e376c08 +. w1) (0x2748774c +. w2) (0x34b0bcb5 +. w3)
    (0x391c0cb3 +. w4) (0x4ed8aa4a +. w5) (0x5b9cca4f +. w6) (0x682e6ff3 +. w7) in
  let '(w8, w9, w10, w11, w12, w13, w14, w15) := Expand8 w8 w9 w10 w11 w12 w13 w14 w15 w0 w1 w2 w3 w4 w5 w6 w7 in
  let r := Rounds8 r (0x748f82ee +. w8) (0x78a5636f +. w9) (0x84c87814 +. w10) (0x8cc70208 +. w11)
    (0x90befffa +. w12) (0xa4506ceb +. w13) (0xbef9a3f7 +. w14) (0xc67178f2 +. w15) in
  add_state r Initialize.

Definition WriteBE32_all (s : state) : list Z :=
  let '(a, b, c, d, e, f, g, h) := s in
  WriteBE32 a ++ WriteBE32 b ++ WriteBE32 c ++ WriteBE32 d ++ WriteBE32 e ++ WriteBE32 f ++ WriteBE32 g ++ WriteBE32 h.

Definition TransformD64 (inp : list Z) : list Z :=
  WriteBE32_all (TransformD64_3 (TransformD64_2 (TransformD64_1 inp))).

Definition padding1 : list Z := 0x80 :: replicate 61 0 ++ [2; 0].
Definition buffer2_tail : list Z := 0x80 :: replicate 29 0 ++ [1; 0].

(** [TransformD64Wrapper<tr>]: the same from any [Transform]. *)
Definition TransformD64Wrapper (tr : state -> list Z -> nat -> state) (inp : list Z) : list Z :=
  let s := tr (tr Initialize inp 1%nat) padding1 1%nat in
  WriteBE32_all (tr Initialize (WriteBE32_all s ++ buffer2_tail) 1%nat).

(** ** Dispatch

    The function pointers [SHA256AutoDetect] sets.  The 2, 4 and 8-way versions are vector
    code; without assembly they are null. *)
Record dispatch := Dispatch {
  d_Transform : state -> list Z -> nat -> state;
  d_TransformD64 : list Z -> list Z;
  d_2way : option (list Z -> list Z);
  d_4way : option (list Z -> list Z);
  d_8way : option (list Z -> list Z);
}.

Definition standard : dispatch := Dispatch Transform TransformD64 None None None.

(** One of the loops of [SHA256D64]: [n] blobs at a time while there are that many. *)
Fixpoint D64_loop (way : list Z -> list Z) (n : nat) (fuel : nat) (inp : list Z) (blocks : nat) :
    list Z * list Z * nat :=
  match fuel with
  | O => ([], inp, blocks)
  | S fuel =>
      if (n <=? blocks)%nat then
        let '(out, rest, blocks) := D64_loop way n fuel (drop (64 * n) inp) (blocks - n) in
        (way (take (64 * n) inp) ++ out, rest, blocks)
      else ([], inp, blocks)
  end.

Definition D64_way (way : option (list Z -> list Z)) (n : nat) (inp : list Z) (blocks : nat) :
    list Z * list Z * nat :=
  match way with
  | Some f => D64_loop f n blocks inp blocks
  | None => ([], inp, blocks)
  end.

(** The output is written at or before the input already read, so it may overwrite it. *)
Definition SHA256D64 (D : dispatch) (inp : list Z) (blocks : nat) : list Z :=
  let '(out8, inp, blocks) := D64_way (d_8way D) 8 inp blocks in
  let '(out4, inp, blocks) := D64_way (d_4way D) 4 inp blocks in
  let '(out2, inp, blocks) := D64_way (d_2way D) 2 inp blocks in
  let '(out1, _, _) := D64_way (Some (d_TransformD64 D)) 1 inp blocks in
  out8 ++ out4 ++ out2 ++ out1.

(** ** The hasher: class CSHA256 *)

Definition CSHA256 : Type := hasher state.

(** The constructor leaves [buf] as it finds it. *)
Definition new (uninitialized : list Z) : CSHA256 := mkHasher Initialize uninitialized 0.

Definition Write (D : dispatch) (h : CSHA256) (data : list Z) : CSHA256 := Write_blocks 64 (d_Transform D) h data.

(** the hash, and the hasher it is taken from *)
Definition Finalize (D : dispatch) (h : CSHA256) : list Z * CSHA256 :=
  let sizedesc := WriteBE64 (u64 (h_bytes h << 3)) in
  let h := Finalize_pad 64 (Write D) 8 sizedesc h in
  (WriteBE32_all (h_s h), h).

Definition Reset (h : CSHA256) : CSHA256 := mkHasher Initialize (h_buf h) 0.

End Sha256.
