(* ===== verification/Sha256Laws.v ===== *)
(** * SHA-256 computes the standard's hash

    The unrolled transformation is the standard's on every block, the specialised double
    hash is two applications of the hash, and the hasher, however the message is cut into
    writes, gives the hash of the whole message. *)

From S2P Require Import Prelude Bytes ShaSpec BlockHash Sha256.
Import Sha256.
#[local] Notation "a +. b" := (add32 a b) (at level 50, left associativity).

(** ** The round functions *)

Lemma Ch_fips x y z : Ch x y z = fCh x y z.
Proof. apply fCh_select. Qed.

Lemma Maj_fips x y z : Maj x y z = fMaj x y z.
Proof. apply fMaj_or. Qed.

Ltac add32_eq := unfold add32; sum_eq.

#[local] Abbreviation P := sha256_parameters.

Lemma round_fips a b c d e f g h K W :
  sha_round P (a, b, c, d, e, f, g, h) K W
  = let '(d', h') := Round a b c d e f g h (K +. W) in (h', a, b, c, d', e, f, g).
Proof.
  unfold sha_round, Round. rewrite Ch_fips, Maj_fips.
  change (rotations P (sha_Sigma1 P) e) with (Sigma1 e). change (rotations P (sha_Sigma0 P) a) with (Sigma0 a).
  change (sha_w P) with 32. cbv zeta. repeat f_equal; add32_eq.
Qed.

Lemma next_word_fips w0 w1 w2 w3 w4 w5 w6 w7 w8 w9 w10 w11 w12 w13 w14 w15 :
  next_word P [w0; w1; w2; w3; w4; w5; w6; w7; w8; w9; w10; w11; w12; w13; w14; w15]
  = w0 +. (sigma1 w14 +. w9 +. sigma0 w1).
Proof.
  unfold next_word. cbn [lookup_total list_lookup_total].
  change (rotations_shift P (sha_sigma1 P) w14) with (sigma1 w14).
  change (rotations_shift P (sha_sigma0 P) w1) with (sigma0 w1). change (sha_w P) with 32. add32_eq.
Qed.

Lemma rounds_fresh K Ks W fresh ws a b c d e f g h :
  sha_rounds_from P (K :: Ks) (W :: fresh) ws (a, b, c, d, e, f, g, h)
  = let '(d', h') := Round a b c d e f g h (K +. W) in
    sha_rounds_from P Ks fresh (drop (length ws - 15) ws ++ [W]) (h', a, b, c, d', e, f, g).
Proof. cbn [sha_rounds_from]. rewrite round_fips. by destruct (Round _ _ _ _ _ _ _ _ _). Qed.

Lemma rounds_next K Ks w0 w1 w2 w3 w4 w5 w6 w7 w8 w9 w10 w11 w12 w13 w14 w15 a b c d e f g h :
  sha_rounds_from P (K :: Ks) [] [w0; w1; w2; w3; w4; w5; w6; w7; w8; w9; w10; w11; w12; w13; w14; w15]
    (a, b, c, d, e, f, g, h)
  = let w := w0 +. (sigma1 w14 +. w9 +. sigma0 w1) in
    let '(d', h') := Round a b c d e f g h (K +. w) in
    sha_rounds_from P Ks [] [w1; w2; w3; w4; w5; w6; w7; w8; w9; w10; w11; w12; w13; w14; w15; w]
      (h', a, b, c, d', e, f, g).
Proof.
  cbn [sha_rounds_from]. rewrite next_word_fips, round_fips. cbv zeta. by destruct (Round _ _ _ _ _ _ _ _ _).
Qed.

(** ** Constants *)

(** the derived constants, as a list in normal form *)
Definition K256 : list Z := Eval vm_compute in sha_K P.

Lemma sha_K_K256 : sha_K P = K256.
Proof. vm_compute. reflexivity. Qed.

Lemma sha_H0_Initialize : working_of (sha_H0 P) = Initialize.
Proof. vm_compute. reflexivity. Qed.

(** ** One block

    Both sides are walked a round at a time; the results of a round and each new word of the
    schedule become variables, so that nothing is ever duplicated. *)

Lemma be_words_ReadBE32 chunk :
  be_words P 16 chunk = (λ i : nat, ReadBE32 (drop (4 * i) chunk)) <$> seq 0 16.
Proof.
  cbn [be_words fmap list_fmap seq]. change (Z.to_nat (sha_w P / 8)) with 4%nat.
  rewrite !skipn_skipn || rewrite !drop_drop. cbn [Nat.add Nat.mul]. done.
Qed.

Lemma sha_block_K256 H chunk :
  sha_block P H chunk
  = sha_add P H (sha_rounds_from P K256 ((λ i : nat, ReadBE32 (drop (4 * i) chunk)) <$> seq 0 16) [] H).
Proof. unfold sha_block. by rewrite sha_K_K256, be_words_ReadBE32. Qed.

(** ** Eight rounds at a time

    The rounds are walked one by one with their results, and each new word of the schedule,
    turned into variables, so that nothing is ever duplicated. *)

Ltac round_lhs :=
  lazymatch goal with
  | |- (let '(_, _) := Round ?a ?b ?c ?d ?e ?f ?g ?h ?k in _) = _ =>
      destruct (Round a b c d e f g h k) as [? ?]; cbv beta iota
  end.

Lemma fresh8 K0 K1 K2 K3 K4 K5 K6 K7 Ks w0 w1 w2 w3 w4 w5 w6 w7 fresh ws r :
  sha_rounds_from P (K0 :: K1 :: K2 :: K3 :: K4 :: K5 :: K6 :: K7 :: Ks) (w0 :: w1 :: w2 :: w3 :: w4 :: w5 :: w6 :: w7 :: fresh) ws r
  = sha_rounds_from P Ks fresh
      (foldl (λ ws W, drop (length ws - 15) ws ++ [W]) ws [w0; w1; w2; w3; w4; w5; w6; w7])
      (Rounds8 r (K0 +. w0) (K1 +. w1) (K2 +. w2) (K3 +. w3) (K4 +. w4) (K5 +. w5) (K6 +. w6) (K7 +. w7)).
Proof.
  destruct r as [[[[[[[a b] c] d] e] f] g] h]. cbn [foldl]. unfold Rounds8.
  do 8 (rewrite rounds_fresh; round_lhs).
  reflexivity.
Qed.

Lemma next8 K0 K1 K2 K3 K4 K5 K6 K7 Ks w0 w1 w2 w3 w4 w5 w6 w7 w8 w9 w10 w11 w12 w13 w14 w15 r :
  sha_rounds_from P (K0 :: K1 :: K2 :: K3 :: K4 :: K5 :: K6 :: K7 :: Ks) [] [w0; w1; w2; w3; w4; w5; w6; w7; w8; w9; w10; w11; w12; w13; w14; w15] r
  = let '(x0, x1, x2, x3, x4, x5, x6, x7) := Expand8 w0 w1 w2 w3 w4 w5 w6 w7 w8 w9 w10 w11 w12 w13 w14 w15 in
    sha_rounds_from P Ks [] [w8; w9; w10; w11; w12; w13; w14; w15; x0; x1; x2; x3; x4; x5; x6; x7]
      (Rounds8 r (K0 +. x0) (K1 +. x1) (K2 +. x2) (K3 +. x3) (K4 +. x4) (K5 +. x5) (K6 +. x6) (K7 +. x7)).
Proof.
  destruct r as [[[[[[[a b] c] d] e] f] g] h]. unfold Expand8, Rounds8.
  do 8 (rewrite rounds_next; lazymatch goal with
    |- (let w := ?x in _) = _ => generalize x; intros ?; cbv zeta end; round_lhs).
  reflexivity.
Qed.

(** ** Whole blocks *)

Lemma add_state_fips H v : sha_add P H v = add_state H v.
Proof. by destruct H as [[[[[[[? ?] ?] ?] ?] ?] ?] ?], v as [[[[[[[? ?] ?] ?] ?] ?] ?] ?]. Qed.

Lemma add_state_comm v u : add_state v u = add_state u v.
Proof.
  destruct u as [[[[[[[? ?] ?] ?] ?] ?] ?] ?], v as [[[[[[[? ?] ?] ?] ?] ?] ?] ?].
  unfold add_state, add32. by rewrite (Z.add_comm z), (Z.add_comm z0), (Z.add_comm z1), (Z.add_comm z2),
    (Z.add_comm z3), (Z.add_comm z4), (Z.add_comm z5), (Z.add_comm z6).
Qed.

(** a group of the right-hand side, matched by one of the left *)
Ltac group_fresh := rewrite fresh8; cbn [foldl length drop app Nat.sub].
Ltac group_next :=
  rewrite next8;
  lazymatch goal with
  | |- context [Expand8 ?x0 ?x1 ?x2 ?x3 ?x4 ?x5 ?x6 ?x7 ?x8 ?x9 ?x10 ?x11 ?x12 ?x13 ?x14 ?x15] =>
      destruct (Expand8 x0 x1 x2 x3 x4 x5 x6 x7 x8 x9 x10 x11 x12 x13 x14 x15)
        as [[[[[[[? ?] ?] ?] ?] ?] ?] ?]; cbv beta iota
  end.

Lemma sha_block_words H chunk :
  sha_block P H chunk
  = add_state H (sha_rounds_from P K256 [ReadBE32 (drop 0 chunk); ReadBE32 (drop 4 chunk);
      ReadBE32 (drop 8 chunk); ReadBE32 (drop 12 chunk); ReadBE32 (drop 16 chunk); ReadBE32 (drop 20 chunk);
      ReadBE32 (drop 24 chunk); ReadBE32 (drop 28 chunk); ReadBE32 (drop 32 chunk); ReadBE32 (drop 36 chunk);
      ReadBE32 (drop 40 chunk); ReadBE32 (drop 44 chunk); ReadBE32 (drop 48 chunk); ReadBE32 (drop 52 chunk);
      ReadBE32 (drop 56 chunk); ReadBE32 (drop 60 chunk)] [] H).
Proof. by rewrite sha_block_K256, add_state_fips. Qed.

Lemma Transform1_fips s chunk : Transform1 s chunk = sha_block P s chunk.
Proof.
  rewrite sha_block_words. unfold Transform1, K256. cbv zeta.
  do 2 group_fresh. do 6 group_next. cbn [sha_rounds_from]. reflexivity.
Qed.

(** ** Double hashing of 64 bytes *)

Lemma D64_1_fips inp : TransformD64_1 inp = sha_block P Initialize inp.
Proof.
  rewrite sha_block_words. unfold TransformD64_1, K256. cbv zeta.
  do 2 group_fresh. do 6 group_next. cbn [sha_rounds_from]. apply add_state_comm.
Qed.

(** the schedule of the padding block is constant *)
Ltac group_next_closed :=
  rewrite next8;
  lazymatch goal with
  | |- context [Expand8 ?x0 ?x1 ?x2 ?x3 ?x4 ?x5 ?x6 ?x7 ?x8 ?x9 ?x10 ?x11 ?x12 ?x13 ?x14 ?x15] =>
      let v := eval vm_compute in (Expand8 x0 x1 x2 x3 x4 x5 x6 x7 x8 x9 x10 x11 x12 x13 x14 x15) in
      change (Expand8 x0 x1 x2 x3 x4 x5 x6 x7 x8 x9 x10 x11 x12 x13 x14 x15) with v; cbv beta iota
  end.

Ltac closed_sums :=
  repeat match goal with
  | |- context [Zpos ?a +. Zpos ?b] => let v := eval vm_compute in (Zpos a +. Zpos b) in change (Zpos a +. Zpos b) with v
  | |- context [Zpos ?a +. 0] => change (Zpos a +. 0) with (Zpos a)
  end.

Lemma D64_2_fips t : TransformD64_2 t = sha_block P t padding1.
Proof.
  rewrite sha_block_words. unfold TransformD64_2, K256. cbv zeta. f_equal.
  lazymatch goal with |- _ = sha_rounds_from _ _ ?ws _ _ =>
    let v := eval vm_compute in ws in change ws with v end.
  do 2 group_fresh. do 6 group_next_closed. cbn [sha_rounds_from]. closed_sums. reflexivity.
Qed.

Ltac closed_sigmas :=
  repeat match goal with
  | |- context [sigma0 (Zpos ?k)] => let v := eval vm_compute in (sigma0 (Zpos k)) in change (sigma0 (Zpos k)) with v
  | |- context [sigma1 (Zpos ?k)] => let v := eval vm_compute in (sigma1 (Zpos k)) in change (sigma1 (Zpos k)) with v
  | |- context [sigma0 0] => change (sigma0 0) with 0
  | |- context [sigma1 0] => change (sigma1 0) with 0
  end.

(** the two specialised groups of the schedule of a 32-byte message *)
Ltac same_word :=
  lazymatch goal with
  | |- (let x := ?a in @?f x) = (let y := ?b in @?g y) =>
      let E := fresh in
      assert (E : a = b) by (closed_sigmas; add32_eq);
      change (f a = g b); rewrite E; clear E; generalize b; intros ?; cbv beta
  end.

Lemma Expand8_lo w0 w1 w2 w3 w4 w5 w6 w7 :
  Expand8 w0 w1 w2 w3 w4 w5 w6 w7 0x80000000 0 0 0 0 0 0 0x100 = ExpandD64_lo w0 w1 w2 w3 w4 w5 w6 w7.
Proof. cbv beta delta [Expand8 ExpandD64_lo]. do 8 same_word. reflexivity. Qed.

Lemma Expand8_hi w0 w1 w2 w3 w4 w5 w6 w7 :
  Expand8 0x80000000 0 0 0 0 0 0 0x100 w0 w1 w2 w3 w4 w5 w6 w7 = ExpandD64_hi w0 w1 w2 w3 w4 w5 w6 w7.
Proof. cbv beta delta [Expand8 ExpandD64_hi]. do 8 same_word. reflexivity. Qed.

(** words written and read back *)
Lemma ReadBE32_WriteBE32 x l : ReadBE32 (WriteBE32 x ++ l) = u32 x.
Proof.
  unfold ReadBE32, WriteBE32. rewrite take_app_length' by (by rewrite length_rev, length_le_bytes).
  by rewrite rev_involutive, le_value_le_bytes.
Qed.

Definition in_state (v : state) : Prop :=
  let '(a, b, c, d, e, f, g, h) := v in
  in_uint 32 a /\ in_uint 32 b /\ in_uint 32 c /\ in_uint 32 d
  /\ in_uint 32 e /\ in_uint 32 f /\ in_uint 32 g /\ in_uint 32 h.

Lemma add_state_in v u : in_state (add_state v u).
Proof.
  destruct v as [[[[[[[? ?] ?] ?] ?] ?] ?] ?], u as [[[[[[[? ?] ?] ?] ?] ?] ?] ?].
  repeat split; apply uint_range; lia.
Qed.

Lemma sha_block_in H chunk : in_state (sha_block P H chunk).
Proof. rewrite sha_block_words. apply add_state_in. Qed.

Lemma drop_WriteBE32 (n : nat) x l : drop (4 + n) (WriteBE32 x ++ l) = drop n l.
Proof. apply drop_app_add'. unfold WriteBE32. by rewrite length_rev, length_le_bytes. Qed.

Lemma D64_3_words v :
  in_state v ->
  (λ i : nat, ReadBE32 (drop (4 * i) (WriteBE32_all v ++ buffer2_tail))) <$> seq 0 16
  = let '(a, b, c, d, e, f, g, h) := v in [a; b; c; d; e; f; g; h; 0x80000000; 0; 0; 0; 0; 0; 0; 0x100].
Proof.
  destruct v as [[[[[[[a b] c] d] e] f] g] h]. intros (Ha & Hb & Hc & Hd & He & Hf & Hg & Hh).
  unfold WriteBE32_all. rewrite <- !app_assoc. cbn [fmap list_fmap seq Nat.mul Nat.add].
  repeat match goal with |- context [drop ?k (WriteBE32 _ ++ _)] =>
    lazymatch k with
    | S (S (S (S ?n))) => change (drop k) with (drop (A:=Z) (4 + n)%nat); rewrite (drop_WriteBE32 n)
    end end.
  rewrite !drop_0, !ReadBE32_WriteBE32, !uint_small by done. reflexivity.
Qed.

Lemma D64_3_fips v : in_state v -> TransformD64_3 v = sha_block P Initialize (WriteBE32_all v ++ buffer2_tail).
Proof.
  intros Hv. rewrite sha_block_K256, D64_3_words, add_state_fips by done.
  destruct v as [[[[[[[a b] c] d] e] f] g] h]. cbv beta delta [TransformD64_3 K256].
  do 2 group_fresh. rewrite next8, Expand8_lo.
  destruct (ExpandD64_lo a b c d e f g h) as [[[[[[[? ?] ?] ?] ?] ?] ?] ?]; cbv beta iota.
  rewrite next8, Expand8_hi.
  lazymatch goal with |- context [ExpandD64_hi ?a ?b ?c ?d ?e ?f ?g ?h] =>
    destruct (ExpandD64_hi a b c d e f g h) as [[[[[[[? ?] ?] ?] ?] ?] ?] ?]; cbv beta iota end.
  do 4 group_next. cbv zeta. closed_sums. cbn [sha_rounds_from]. apply add_state_comm.
Qed.

Lemma digest_WriteBE32_all v : digest P v = WriteBE32_all v.
Proof. destruct v as [[[[[[[a b] c] d] e] f] g] h]. unfold digest. cbn -[WriteBE32 le_bytes rev]. by rewrite app_nil_r. Qed.

Lemma fold_blocks_one {S} (f : S -> list Z -> S) (size fuel : nat) s b m :
  (0 < size)%nat -> length b = size ->
  fold_blocks f size (Datatypes.S fuel) s (b ++ m) = fold_blocks f size fuel (f s b) m.
Proof.
  intros Hs Hb. cbn [fold_blocks]. rewrite length_app.
  replace (_ <? size)%nat with false by (symmetry; apply Nat.ltb_ge; lia).
  by rewrite take_app_length', drop_app_length' by done.
Qed.

Lemma sha_pad_64 m : length m = 64%nat -> sha_pad P m = m ++ padding1.
Proof. intros Hm. unfold sha_pad. rewrite Hm. reflexivity. Qed.

Lemma sha_pad_32 m : length m = 32%nat -> sha_pad P m = m ++ buffer2_tail.
Proof. intros Hm. unfold sha_pad. rewrite Hm. reflexivity. Qed.

Lemma length_WriteBE32_all v : length (WriteBE32_all v) = 32%nat.
Proof.
  destruct v as [[[[[[[a b] c] d] e] f] g] h]. unfold WriteBE32_all, WriteBE32.
  by rewrite !length_app, !length_rev, !length_le_bytes.
Qed.

Lemma SHA256_64 m :
  length m = 64%nat ->
  SHA256 m = WriteBE32_all (sha_block P (sha_block P Initialize m) padding1).
Proof.
  intros Hm. unfold SHA256, sha_hash. rewrite sha_pad_64, sha_H0_Initialize, digest_WriteBE32_all by done.
  rewrite length_app, Hm. change (Z.to_nat (2 * sha_w P)) with 64%nat. change (64 + length padding1)%nat with 128%nat.
  rewrite fold_blocks_one by (done || lia).
  rewrite <- (app_nil_r padding1) at 1. rewrite fold_blocks_one by (done || lia). reflexivity.
Qed.

Lemma SHA256_32 m :
  length m = 32%nat -> SHA256 m = WriteBE32_all (sha_block P Initialize (m ++ buffer2_tail)).
Proof.
  intros Hm. unfold SHA256, sha_hash. rewrite sha_pad_32, sha_H0_Initialize, digest_WriteBE32_all by done.
  rewrite length_app, Hm. change (Z.to_nat (2 * sha_w P)) with 64%nat. change (32 + length buffer2_tail)%nat with 64%nat.
  rewrite <- (app_nil_r (m ++ buffer2_tail)) at 1.
  rewrite fold_blocks_one by (rewrite ?length_app, ?Hm; done || lia). reflexivity.
Qed.

Definition SHA256d (m : list Z) : list Z := SHA256 (SHA256 m).

Lemma TransformD64_SHA256d inp : length inp = 64%nat -> TransformD64 inp = SHA256d inp.
Proof.
  intros Hl. unfold TransformD64, SHA256d. rewrite (SHA256_64 inp), SHA256_32 by (exact Hl || apply length_WriteBE32_all).
  rewrite D64_1_fips, D64_2_fips, D64_3_fips by apply sha_block_in. reflexivity.
Qed.

(** ** Implementations that agree with the standard code *)

Fixpoint SHA256d_each (n : nat) (inp : list Z) : list Z :=
  match n with
  | O => []
  | S n => SHA256d (take 64 inp) ++ SHA256d_each n (drop 64 inp)
  end.

Definition way_ok (n : nat) (way : option (list Z -> list Z)) : Prop :=
  forall f, way = Some f -> forall inp, length inp = (64 * n)%nat -> f inp = SHA256d_each n inp.

(** what [SelfTest] samples: every pointer computes what its standard version does *)
Class GoodDispatch (D : dispatch) : Prop := {
  good_Transform s chunk (n : nat) : (64 * n <= length chunk)%nat -> d_Transform D s chunk n = Transform s chunk n;
  good_D64 : way_ok 1 (Some (d_TransformD64 D));
  good_2way : way_ok 2 (d_2way D);
  good_4way : way_ok 4 (d_4way D);
  good_8way : way_ok 8 (d_8way D);
}.

Lemma one_way_ok f : (forall inp, length inp = 64%nat -> f inp = SHA256d inp) -> way_ok 1 (Some f).
Proof.
  intros Hf g [= <-] inp Hl. cbn [SHA256d_each]. rewrite app_nil_r, take_ge by lia. by apply Hf.
Qed.

#[export] Instance standard_good : GoodDispatch standard.
Proof.
  split; [reflexivity|apply one_way_ok, TransformD64_SHA256d|..]; intros f [=].
Qed.

Lemma TransformD64Wrapper_SHA256d tr inp :
  (forall s chunk, (64 <= length chunk)%nat -> tr s chunk 1%nat = Transform s chunk 1) ->
  length inp = 64%nat -> TransformD64Wrapper tr inp = SHA256d inp.
Proof.
  intros Htr Hl. unfold TransformD64Wrapper, SHA256d.
  rewrite !Htr by (rewrite ?length_app, ?length_WriteBE32_all, ?Hl; simpl; lia).
  unfold Transform. cbn [while_blocks]. do 3 rewrite Transform1_fips.
  rewrite (SHA256_64 inp), SHA256_32 by (exact Hl || apply length_WriteBE32_all). reflexivity.
Qed.

(** any good [Transform] with its wrapper, as [SHA256AutoDetect] installs them *)
Lemma wrapper_good tr :
  (forall s chunk (n : nat), (64 * n <= length chunk)%nat -> tr s chunk n = Transform s chunk n) ->
  GoodDispatch (Dispatch tr (TransformD64Wrapper tr) None None None).
Proof.
  intros Htr. split; [exact Htr|apply one_way_ok|..]; [|intros f [=]..].
  intros inp Hl. apply TransformD64Wrapper_SHA256d; [|exact Hl]. intros s c Hc. apply Htr. lia.
Qed.

(** ** Many blobs at once *)

Lemma SHA256d_each_add (a b : nat) inp :
  SHA256d_each (a + b) inp = SHA256d_each a inp ++ SHA256d_each b (drop (64 * a) inp).
Proof.
  revert inp. induction a as [|a IH]; intros inp; cbn [SHA256d_each Nat.add]; [by rewrite Nat.mul_0_r, drop_0|].
  rewrite IH, drop_drop, app_assoc. do 3 f_equal. lia.
Qed.

Lemma SHA256d_each_take (n : nat) inp : SHA256d_each n (take (64 * n) inp) = SHA256d_each n inp.
Proof.
  revert inp. induction n as [|n IH]; intros inp; [done|]. cbn [SHA256d_each].
  rewrite take_take, Nat.min_l by lia. rewrite <- IH, skipn_firstn_comm. f_equal.
  replace (64 * S n - 64)%nat with (64 * n)%nat by lia. by rewrite IH.
Qed.

Lemma D64_loop_spec f (n : nat) : (0 < n)%nat -> way_ok n (Some f) -> forall (fuel blocks : nat) inp,
  (blocks <= fuel)%nat -> (64 * blocks <= length inp)%nat ->
  exists done rest : nat, D64_loop f n fuel inp blocks = (SHA256d_each done inp, drop (64 * done) inp, rest)
    /\ blocks = (done + rest)%nat /\ (rest < n)%nat.
Proof.
  intros Hn Hf. induction fuel as [|fuel IH]; intros blocks inp Hb Hl.
  - exists 0%nat, blocks. cbn. rewrite drop_0. repeat split; lia.
  - cbn [D64_loop]. destruct (Nat.leb_spec n blocks) as [Hle|Hle].
    2: { exists 0%nat, blocks. cbn. rewrite drop_0. repeat split; lia. }
    destruct (IH (blocks - n)%nat (drop (64 * n) inp)) as (d & r & -> & Hbr & Hr); [lia|rewrite length_drop; lia|].
    exists (n + d)%nat, r. rewrite (Hf f eq_refl) by (rewrite length_take; lia).
    replace (64 * (n + d))%nat with (64 * n + 64 * d)%nat by lia.
    rewrite SHA256d_each_take, SHA256d_each_add, drop_drop. repeat split; [lia|done].
Qed.

Lemma D64_way_spec way (n : nat) : (0 < n)%nat -> way_ok n way -> forall (blocks : nat) inp,
  (64 * blocks <= length inp)%nat ->
  exists done rest : nat, D64_way way n inp blocks = (SHA256d_each done inp, drop (64 * done) inp, rest)
    /\ blocks = (done + rest)%nat /\ (way <> None -> (rest < n)%nat).
Proof.
  intros Hn Hw blocks inp Hl. destruct way as [f|].
  - destruct (D64_loop_spec f n Hn Hw blocks blocks inp) as (d & r & E & Hbr & Hr); [done..|]. exists d, r. auto.
  - exists 0%nat, blocks. cbn. rewrite drop_0. done.
Qed.

(** [SHA256D64] on any number of 64-byte blobs gives the double SHA-256 of each, whatever
    implementation is dispatched to, provided each computes what its standard version does;
    the standard version itself, with its folded constants, is proved to compute it. *)
Theorem SHA256D64_spec (D : dispatch) `{!GoodDispatch D} (inp : list Z) (blocks : nat) :
  (64 * blocks <= length inp)%nat ->
  SHA256D64 D inp blocks = SHA256d_each blocks inp.
Proof.
  intros Hl. unfold SHA256D64.
  destruct (D64_way_spec (d_8way D) 8 ltac:(lia) good_8way blocks inp Hl) as (d8 & r8 & -> & E8 & _).
  destruct (D64_way_spec (d_4way D) 4 ltac:(lia) good_4way r8 (drop (64 * d8) inp)) as (d4 & r4 & -> & E4 & _);
    [rewrite length_drop; lia|].
  rewrite drop_drop.
  destruct (D64_way_spec (d_2way D) 2 ltac:(lia) good_2way r4 (drop (64 * d8 + 64 * d4) inp)) as (d2 & r2 & -> & E2 & _);
    [rewrite length_drop; lia|].
  rewrite drop_drop.
  destruct (D64_way_spec (Some (d_TransformD64 D)) 1 ltac:(lia) good_D64 r2
    (drop (64 * d8 + 64 * d4 + 64 * d2) inp)) as (d1 & r1 & -> & E1 & H1); [rewrite length_drop; lia|].
  specialize (H1 ltac:(done)). assert (r1 = 0%nat) by lia.
  replace blocks with (d8 + (d4 + (d2 + d1)))%nat by lia.
  rewrite !SHA256d_each_add, !drop_drop. done.
Qed.

Lemma SHA256D64_spec_witness :
  SHA256D64 standard (replicate 128 7) 2 = SHA256d_each 2 (replicate 128 7).
Proof. refine (SHA256D64_spec standard (replicate 128 7) 2 _). rewrite length_replicate. lia. Defined.

(** ** The hasher *)

Lemma Transform1_take s m : (64 <= length m)%nat -> Transform1 s m = Transform1 s (take 64 m).
Proof.
  intros _. rewrite (Transform1_fips s m), (Transform1_fips s (take 64 m)). symmetry. apply sha_block_take. change (Z.to_nat (sha_w P / 8)) with 4%nat. lia.
Qed.

#[local] Abbreviation represents := (represents 64 Initialize Transform1).

Lemma Write_represents D `{!GoodDispatch D} h m data :
  represents h m -> length m + length data < 2 ^ 64 -> represents (Write D h data) (m ++ data).
Proof.
  apply (Write_blocks_spec 64 Initialize Transform1 ltac:(lia) Transform1_take Transform1 ltac:(done)).
  intros s c n Hn. by apply good_Transform.
Qed.

Lemma chain_SHA256 m :
  length m < 2 ^ 61 ->
  WriteBE32_all (chain 64 Initialize Transform1
    (m ++ [0x80] ++ replicate (pad_zeros 64 8 m) 0 ++ replicate (8 - 8) 0 ++ WriteBE64 (u64 (length m << 3)))) = SHA256 m.
Proof.
  intros Hm. unfold SHA256, sha_hash. rewrite digest_WriteBE32_all, sha_H0_Initialize.
  rewrite sha_pad_Finalize by done. f_equal. change (Z.to_nat (2 * sha_w P)) with 64%nat.
  rewrite (chain_fold 64 Initialize Transform1 ltac:(lia) Transform1_take). apply fold_blocks_ext, Transform1_fips.
Qed.

Lemma Finalize_SHA256 D `{!GoodDispatch D} h m :
  represents h m -> length m < 2 ^ 61 -> (Finalize D h).1 = SHA256 m.
Proof.
  intros Hr Hm. unfold Finalize. cbn [fst]. rewrite (rep_bytes _ _ _ _ _ Hr).
  pose proof (Finalize_pad_represents 64 Initialize Transform1 ltac:(lia) (Write D) (Write_represents D) 8
    (WriteBE64 (u64 (length m << 3))) h m ltac:(lia) ltac:(lia) ltac:(by unfold WriteBE64; rewrite length_rev, length_le_bytes)
    Hr ltac:(lia)) as Hf.
  rewrite (rep_s _ _ _ _ _ Hf). by apply chain_SHA256.
Qed.

(** C14: Hashing with [CSHA256] is SHA-256: for a message below 2^61 bytes cut into any sequence of
    [Write]s, whatever the buffer held at first, [Finalize] returns the standard's hash of the
    whole message. *)
Theorem CSHA256_correct (D : dispatch) `{!GoodDispatch D} (uninitialized : list Z) (chunks : list (list Z)) :
  length uninitialized = 64%nat -> length (concat chunks) < 2 ^ 61 ->
  (Finalize D (foldl (Write D) (new uninitialized) chunks)).1 = SHA256 (concat chunks).
Proof.
  intros Hu Hl. apply (Finalize_SHA256 D); [|done].
  apply (writes_represents 64 Initialize Transform1 ltac:(lia) (Write D) (Write_represents D) chunks (new uninitialized) []);
    [by apply new_represents|simpl; lia].
Qed.

Lemma CSHA256_correct_witness :
  (Finalize standard (foldl (Write standard) (new (replicate 64 1)) [[97]; []; [98; 99]])).1 = SHA256 [97; 98; 99].
Proof. apply (CSHA256_correct standard (replicate 64 1) [[97]; []; [98; 99]]); simpl; [reflexivity|lia]. Defined.

(** ... and the standard's function is the one whose value on "abc" everyone knows *)
Example SHA256_abc : SHA256 [97; 98; 99] =
  [0xba; 0x78; 0x16; 0xbf; 0x8f; 0x01; 0xcf; 0xea; 0x41; 0x41; 0x40; 0xde; 0x5d; 0xae; 0x22; 0x23;
   0xb0; 0x03; 0x61; 0xa3; 0x96; 0x17; 0x7a; 0x9c; 0xb4; 0x10; 0xff; 0x61; 0xf2; 0x00; 0x15; 0xad].
Proof. vm_compute. reflexivity. Qed.
