(* ===== verification/Ripemd160.v ===== *)
(** * RIPEMD-160: crypto/ripemd160.h and crypto/ripemd160.cpp

    The five round functions, the two interleaved lines of eighty rounds, and the hasher object.
    The reference is the published description: the order in which the words of a block are
    used and the rotations come from its permutations and its table, the constants from square
    and cube roots. *)

From S2P Require Import Prelude Bytes ShaSpec BlockHash.

Module Ripemd160.

Definition f1 (x y z : Z) : Z := x ^^ y ^^ z.
Definition f2 (x y z : Z) : Z := (x &&& y) ||| (u32 (Z.lnot x) &&& z).
Definition f3 (x y z : Z) : Z := (x ||| u32 (Z.lnot y)) ^^ z.
Definition f4 (x y z : Z) : Z := (x &&& z) ||| (y &&& u32 (Z.lnot z)).
Definition f5 (x y z : Z) : Z := x ^^ (y ||| u32 (Z.lnot z)).

(** [s[5]] *)
Definition state : Type := Z * Z * Z * Z * Z.

Definition Initialize : state := (0x67452301, 0xEFCDAB89, 0x98BADCFE, 0x10325476, 0xC3D2E1F0).

Definition rol (x i : Z) : Z := u32 (x << i) ||| (x >> (32 - i)).

(** One round: the new values of [a] and [c]. *)
Definition Round (a b c d e f x k r : Z) : Z * Z := (u32 (rol (u32 (a + f + x + k)) r + e), rol c 10).

Definition R11 (a b c d e x r : Z) : Z * Z := Round a b c d e (f1 b c d) x 0 r.
Definition R21 (a b c d e x r : Z) : Z * Z := Round a b c d e (f2 b c d) x 0x5A827999 r.
Definition R31 (a b c d e x r : Z) : Z * Z := Round a b c d e (f3 b c d) x 0x6ED9EBA1 r.
Definition R41 (a b c d e x r : Z) : Z * Z := Round a b c d e (f4 b c d) x 0x8F1BBCDC r.
Definition R51 (a b c d e x r : Z) : Z * Z := Round a b c d e (f5 b c d) x 0xA953FD4E r.
Definition R12 (a b c d e x r : Z) : Z * Z := Round a b c d e (f5 b c d) x 0x50A28BE6 r.
Definition R22 (a b c d e x r : Z) : Z * Z := Round a b c d e (f4 b c d) x 0x5C4DD124 r.
Definition R32 (a b c d e x r : Z) : Z * Z := Round a b c d e (f3 b c d) x 0x6D703EF3 r.
Definition R42 (a b c d e x r : Z) : Z * Z := Round a b c d e (f2 b c d) x 0x7A6D76E9 r.
Definition R52 (a b c d e x r : Z) : Z * Z := Round a b c d e (f1 b c d) x 0 r.

(** The five groups of sixteen rounds of each line. *)
Definition Rounds1 (v1 v2 : state) (w0 w1 w2 w3 w4 w5 w6 w7 w8 w9 w10 w11 w12 w13 w14 w15 : Z) : state * state :=
  let '(a1, b1, c1, d1, e1) := v1 in
  let '(a2, b2, c2, d2, e2) := v2 in
  let '(a1, c1) := R11 a1 b1 c1 d1 e1 w0 11 in
  let '(a2, c2) := R12 a2 b2 c2 d2 e2 w5 8 in
  let '(e1, b1) := R11 e1 a1 b1 c1 d1 w1 14 in
  let '(e2, b2) := R12 e2 a2 b2 c2 d2 w14 9 in
  let '(d1, a1) := R11 d1 e1 a1 b1 c1 w2 15 in
  let '(d2, a2) := R12 d2 e2 a2 b2 c2 w7 9 in
  let '(c1, e1) := R11 c1 d1 e1 a1 b1 w3 12 in
  let '(c2, e2) := R12 c2 d2 e2 a2 b2 w0 11 in
  let '(b1, d1) := R11 b1 c1 d1 e1 a1 w4 5 in
  let '(b2, d2) := R12 b2 c2 d2 e2 a2 w9 13 in
  let '(a1, c1) := R11 a1 b1 c1 d1 e1 w5 8 in
  let '(a2, c2) := R12 a2 b2 c2 d2 e2 w2 15 in
  let '(e1, b1) := R11 e1 a1 b1 c1 d1 w6 7 in
  let '(e2, b2) := R12 e2 a2 b2 c2 d2 w11 15 in
  let '(d1, a1) := R11 d1 e1 a1 b1 c1 w7 9 in
  let '(d2, a2) := R12 d2 e2 a2 b2 c2 w4 5 in
  let '(c1, e1) := R11 c1 d1 e1 a1 b1 w8 11 in
  let '(c2, e2) := R12 c2 d2 e2 a2 b2 w13 7 in
  let '(b1, d1) := R11 b1 c1 d1 e1 a1 w9 13 in
  let '(b2, d2) := R12 b2 c2 d2 e2 a2 w6 7 in
  let '(a1, c1) := R11 a1 b1 c1 d1 e1 w10 14 in
  let '(a2, c2) := R12 a2 b2 c2 d2 e2 w15 8 in
  let '(e1, b1) := R11 e1 a1 b1 c1 d1 w11 15 in
  let '(e2, b2) := R12 e2 a2 b2 c2 d2 w8 11 in
  let '(d1, a1) := R11 d1 e1 a1 b1 c1 w12 6 in
  let '(d2, a2) := R12 d2 e2 a2 b2 c2 w1 14 in
  let '(c1, e1) := R11 c1 d1 e1 a1 b1 w13 7 in
  let '(c2, e2) := R12 c2 d2 e2 a2 b2 w10 14 in
  let '(b1, d1) := R11 b1 c1 d1 e1 a1 w14 9 in
  let '(b2, d2) := R12 b2 c2 d2 e2 a2 w3 12 in
  let '(a1, c1) := R11 a1 b1 c1 d1 e1 w15 8 in
  let '(a2, c2) := R12 a2 b2 c2 d2 e2 w12 6 in
  ((a1, b1, c1, d1, e1), (a2, b2, c2, d2, e2)).

Definition Rounds2 (v1 v2 : state) (w0 w1 w2 w3 w4 w5 w6 w7 w8 w9 w10 w11 w12 w13 w14 w15 : Z) : state * state :=
  let '(a1, b1, c1, d1, e1) := v1 in
  let '(a2, b2, c2, d2, e2) := v2 in
  let '(e1, b1) := R21 e1 a1 b1 c1 d1 w7 7 in
  let '(e2, b2) := R22 e2 a2 b2 c2 d2 w6 9 in
  let '(d1, a1) := R21 d1 e1 a1 b1 c1 w4 6 in
  let '(d2, a2) := R22 d2 e2 a2 b2 c2 w11 13 in
  let '(c1, e1) := R21 c1 d1 e1 a1 b1 w13 8 in
  let '(c2, e2) := R22 c2 d2 e2 a2 b2 w3 15 in
  let '(b1, d1) := R21 b1 c1 d1 e1 a1 w1 13 in
  let '(b2, d2) := R22 b2 c2 d2 e2 a2 w7 7 in
  let '(a1, c1) := R21 a1 b1 c1 d1 e1 w10 11 in
  let '(a2, c2) := R22 a2 b2 c2 d2 e2 w0 12 in
  let '(e1, b1) := R21 e1 a1 b1 c1 d1 w6 9 in
  let '(e2, b2) := R22 e2 a2 b2 c2 d2 w13 8 in
  let '(d1, a1) := R21 d1 e1 a1 b1 c1 w15 7 in
  let '(d2, a2) := R22 d2 e2 a2 b2 c2 w5 9 in
  let '(c1, e1) := R21 c1 d1 e1 a1 b1 w3 15 in
  let '(c2, e2) := R22 c2 d2 e2 a2 b2 w10 11 in
  let '(b1, d1) := R21 b1 c1 d1 e1 a1 w12 7 in
  let '(b2, d2) := R22 b2 c2 d2 e2 a2 w14 7 in
  let '(a1, c1) := R21 a1 b1 c1 d1 e1 w0 12 in
  let '(a2, c2) := R22 a2 b2 c2 d2 e2 w15 7 in
  let '(e1, b1) := R21 e1 a1 b1 c1 d1 w9 15 in
  let '(e2, b2) := R22 e2 a2 b2 c2 d2 w8 12 in
  let '(d1, a1) := R21 d1 e1 a1 b1 c1 w5 9 in
  let '(d2, a2) := R22 d2 e2 a2 b2 c2 w12 7 in
  let '(c1, e1) := R21 c1 d1 e1 a1 b1 w2 11 in
  let '(c2, e2) := R22 c2 d2 e2 a2 b2 w4 6 in
  let '(b1, d1) := R21 b1 c1 d1 e1 a1 w14 7 in
  let '(b2, d2) := R22 b2 c2 d2 e2 a2 w9 15 in
  let '(a1, c1) := R21 a1 b1 c1 d1 e1 w11 13 in
  let '(a2, c2) := R22 a2 b2 c2 d2 e2 w1 13 in
  let '(e1, b1) := R21 e1 a1 b1 c1 d1 w8 12 in
  let '(e2, b2) := R22 e2 a2 b2 c2 d2 w2 11 in
  ((a1, b1, c1, d1, e1), (a2, b2, c2, d2, e2)).

Definition Rounds3 (v1 v2 : state) (w0 w1 w2 w3 w4 w5 w6 w7 w8 w9 w10 w11 w12 w13 w14 w15 : Z) : state * state :=
  let '(a1, b1, c1, d1, e1) := v1 in
  let '(a2, b2, c2, d2, e2) := v2 in
  let '(d1, a1) := R31 d1 e1 a1 b1 c1 w3 11 in
  let '(d2, a2) := R32 d2 e2 a2 b2 c2 w15 9 in
  let '(c1, e1) := R31 c1 d1 e1 a1 b1 w10 13 in
  let '(c2, e2) := R32 c2 d2 e2 a2 b2 w5 7 in
  let '(b1, d1) := R31 b1 c1 d1 e1 a1 w14 6 in
  let '(b2, d2) := R32 b2 c2 d2 e2 a2 w1 15 in
  let '(a1, c1) := R31 a1 b1 c1 d1 e1 w4 7 in
  let '(a2, c2) := R32 a2 b2 c2 d2 e2 w3 11 in
  let '(e1, b1) := R31 e1 a1 b1 c1 d1 w9 14 in
  let '(e2, b2) := R32 e2 a2 b2 c2 d2 w7 8 in
  let '(d1, a1) := R31 d1 e1 a1 b1 c1 w15 9 in
  let '(d2, a2) := R32 d2 e2 a2 b2 c2 w14 6 in
  let '(c1, e1) := R31 c1 d1 e1 a1 b1 w8 13 in
  let '(c2, e2) := R32 c2 d2 e2 a2 b2 w6 6 in
  let '(b1, d1) := R31 b1 c1 d1 e1 a1 w1 15 in
  let '(b2, d2) := R32 b2 c2 d2 e2 a2 w9 14 in
  let '(a1, c1) := R31 a1 b1 c1 d1 e1 w2 14 in
  let '(a2, c2) := R32 a2 b2 c2 d2 e2 w11 12 in
  let '(e1, b1) := R31 e1 a1 b1 c1 d1 w7 8 in
  let '(e2, b2) := R32 e2 a2 b2 c2 d2 w8 13 in
  let '(d1, a1) := R31 d1 e1 a1 b1 c1 w0 13 in
  let '(d2, a2) := R32 d2 e2 a2 b2 c2 w12 5 in
  let '(c1, e1) := R31 c1 d1 e1 a1 b1 w6 6 in
  let '(c2, e2) := R32 c2 d2 e2 a2 b2 w2 14 in
  let '(b1, d1) := R31 b1 c1 d1 e1 a1 w13 5 in
  let '(b2, d2) := R32 b2 c2 d2 e2 a2 w10 13 in
  let '(a1, c1) := R31 a1 b1 c1 d1 e1 w11 12 in
  let '(a2, c2) := R32 a2 b2 c2 d2 e2 w0 13 in
  let '(e1, b1) := R31 e1 a1 b1 c1 d1 w5 7 in
  let '(e2, b2) := R32 e2 a2 b2 c2 d2 w4 7 in
  let '(d1, a1) := R31 d1 e1 a1 b1 c1 w12 5 in
  let '(d2, a2) := R32 d2 e2 a2 b2 c2 w13 5 in
  ((a1, b1, c1, d1, e1), (a2, b2, c2, d2, e2)).

Definition Rounds4 (v1 v2 : state) (w0 w1 w2 w3 w4 w5 w6 w7 w8 w9 w10 w11 w12 w13 w14 w15 : Z) : state * state :=
  let '(a1, b1, c1, d1, e1) := v1 in
  let '(a2, b2, c2, d2, e2) := v2 in
  let '(c1, e1) := R41 c1 d1 e1 a1 b1 w1 11 in
  let '(c2, e2) := R42 c2 d2 e2 a2 b2 w8 15 in
  let '(b1, d1) := R41 b1 c1 d1 e1 a1 w9 12 in
  let '(b2, d2) := R42 b2 c2 d2 e2 a2 w6 5 in
  let '(a1, c1) := R41 a1 b1 c1 d1 e1 w11 14 in
  let '(a2, c2) := R42 a2 b2 c2 d2 e2 w4 8 in
  let '(e1, b1) := R41 e1 a1 b1 c1 d1 w10 15 in
  let '(e2, b2) := R42 e2 a2 b2 c2 d2 w1 11 in
  let '(d1, a1) := R41 d1 e1 a1 b1 c1 w0 14 in
  let '(d2, a2) := R42 d2 e2 a2 b2 c2 w3 14 in
  let '(c1, e1) := R41 c1 d1 e1 a1 b1 w8 15 in
  let '(c2, e2) := R42 c2 d2 e2 a2 b2 w11 14 in
  let '(b1, d1) := R41 b1 c1 d1 e1 a1 w12 9 in
  let '(b2, d2) := R42 b2 c2 d2 e2 a2 w15 6 in
  let '(a1, c1) := R41 a1 b1 c1 d1 e1 w4 8 in
  let '(a2, c2) := R42 a2 b2 c2 d2 e2 w0 14 in
  let '(e1, b1) := R41 e1 a1 b1 c1 d1 w13 9 in
  let '(e2, b2) := R42 e2 a2 b2 c2 d2 w5 6 in
  let '(d1, a1) := R41 d1 e1 a1 b1 c1 w3 14 in
  let '(d2, a2) := R42 d2 e2 a2 b2 c2 w12 9 in
  let '(c1, e1) := R41 c1 d1 e1 a1 b1 w7 5 in
  let '(c2, e2) := R42 c2 d2 e2 a2 b2 w2 12 in
  let '(b1, d1) := R41 b1 c1 d1 e1 a1 w15 6 in
  let '(b2, d2) := R42 b2 c2 d2 e2 a2 w13 9 in
  let '(a1, c1) := R41 a1 b1 c1 d1 e1 w14 8 in
  let '(a2, c2) := R42 a2 b2 c2 d2 e2 w9 12 in
  let '(e1, b1) := R41 e1 a1 b1 c1 d1 w5 6 in
  let '(e2, b2) := R42 e2 a2 b2 c2 d2 w7 5 in
  let '(d1, a1) := R41 d1 e1 a1 b1 c1 w6 5 in
  let '(d2, a2) := R42 d2 e2 a2 b2 c2 w10 15 in
  let '(c1, e1) := R41 c1 d1 e1 a1 b1 w2 12 in
  let '(c2, e2) := R42 c2 d2 e2 a2 b2 w14 8 in
  ((a1, b1, c1, d1, e1), (a2, b2, c2, d2, e2)).

Definition Rounds5 (v1 v2 : state) (w0 w1 w2 w3 w4 w5 w6 w7 w8 w9 w10 w11 w12 w13 w14 w15 : Z) : state * state :=
  let '(a1, b1, c1, d1, e1) := v1 in
  let '(a2, b2, c2, d2, e2) := v2 in
  let '(b1, d1) := R51 b1 c1 d1 e1 a1 w4 9 in
  let '(b2, d2) := R52 b2 c2 d2 e2 a2 w12 8 in
  let '(a1, c1) := R51 a1 b1 c1 d1 e1 w0 15 in
  let '(a2, c2) := R52 a2 b2 c2 d2 e2 w15 5 in
  let '(e1, b1) := R51 e1 a1 b1 c1 d1 w5 5 in
  let '(e2, b2) := R52 e2 a2 b2 c2 d2 w10 12 in
  let '(d1, a1) := R51 d1 e1 a1 b1 c1 w9 11 in
  let '(d2, a2) := R52 d2 e2 a2 b2 c2 w4 9 in
  let '(c1, e1) := R51 c1 d1 e1 a1 b1 w7 6 in
  let '(c2, e2) := R52 c2 d2 e2 a2 b2 w1 12 in
  let '(b1, d1) := R51 b1 c1 d1 e1 a1 w12 8 in
  let '(b2, d2) := R52 b2 c2 d2 e2 a2 w5 5 in
  let '(a1, c1) := R51 a1 b1 c1 d1 e1 w2 13 in
  let '(a2, c2) := R52 a2 b2 c2 d2 e2 w8 14 in
  let '(e1, b1) := R51 e1 a1 b1 c1 d1 w10 12 in
  let '(e2, b2) := R52 e2 a2 b2 c2 d2 w7 6 in
  let '(d1, a1) := R51 d1 e1 a1 b1 c1 w14 5 in
  let '(d2, a2) := R52 d2 e2 a2 b2 c2 w6 8 in
  let '(c1, e1) := R51 c1 d1 e1 a1 b1 w1 12 in
  let '(c2, e2) := R52 c2 d2 e2 a2 b2 w2 13 in
  let '(b1, d1) := R51 b1 c1 d1 e1 a1 w3 13 in
  let '(b2, d2) := R52 b2 c2 d2 e2 a2 w13 6 in
  let '(a1, c1) := R51 a1 b1 c1 d1 e1 w8 14 in
  let '(a2, c2) := R52 a2 b2 c2 d2 e2 w14 5 in
  let '(e1, b1) := R51 e1 a1 b1 c1 d1 w11 11 in
  let '(e2, b2) := R52 e2 a2 b2 c2 d2 w0 15 in
  let '(d1, a1) := R51 d1 e1 a1 b1 c1 w6 8 in
  let '(d2, a2) := R52 d2 e2 a2 b2 c2 w3 13 in
  let '(c1, e1) := R51 c1 d1 e1 a1 b1 w15 5 in
  let '(c2, e2) := R52 c2 d2 e2 a2 b2 w9 11 in
  let '(b1, d1) := R51 b1 c1 d1 e1 a1 w13 6 in
  let '(b2, d2) := R52 b2 c2 d2 e2 a2 w11 11 in
  ((a1, b1, c1, d1, e1), (a2, b2, c2, d2, e2)).

(** One 64-byte chunk. *)
Definition Transform (s : state) (chunk : list Z) : state :=
  let '(s0, s1, s2, s3, s4) := s in
  let v1 := s in
  let v2 := v1 in
  let w0 := ReadLE32 (drop 0 chunk) in
  let w1 := ReadLE32 (drop 4 chunk) in
  let w2 := ReadLE32 (drop 8 chunk) in
  let w3 := ReadLE32 (drop 12 chunk) in
  let w4 := ReadLE32 (drop 16 chunk) in
  let w5 := ReadLE32 (drop 20 chunk) in
  let w6 := ReadLE32 (drop 24 chunk) in
  let w7 := ReadLE32 (drop 28 chunk) in
  let w8 := ReadLE32 (drop 32 chunk) in
  let w9 := ReadLE32 (drop 36 chunk) in
  let w10 := ReadLE32 (drop 40 chunk) in
  let w11 := ReadLE32 (drop 44 chunk) in
  let w12 := ReadLE32 (drop 48 chunk) in
  let w13 := ReadLE32 (drop 52 chunk) in
  let w14 := ReadLE32 (drop 56 chunk) in
  let w15 := ReadLE32 (drop 60 chunk) in
  let '(v1, v2) := Rounds1 v1 v2 w0 w1 w2 w3 w4 w5 w6 w7 w8 w9 w10 w11 w12 w13 w14 w15 in
  let '(v1, v2) := Rounds2 v1 v2 w0 w1 w2 w3 w4 w5 w6 w7 w8 w9 w10 w11 w12 w13 w14 w15 in
  let '(v1, v2) := Rounds3 v1 v2 w0 w1 w2 w3 w4 w5 w6 w7 w8 w9 w10 w11 w12 w13 w14 w15 in
  let '(v1, v2) := Rounds4 v1 v2 w0 w1 w2 w3 w4 w5 w6 w7 w8 w9 w10 w11 w12 w13 w14 w15 in
  let '(v1, v2) := Rounds5 v1 v2 w0 w1 w2 w3 w4 w5 w6 w7 w8 w9 w10 w11 w12 w13 w14 w15 in
  let '(a1, b1, c1, d1, e1) := v1 in
  let '(a2, b2, c2, d2, e2) := v2 in
  let t := s0 in
  (u32 (s1 + c1 + d2), u32 (s2 + d1 + e2), u32 (s3 + e1 + a2), u32 (s4 + a1 + b2), u32 (t + b1 + c2)).

(** ** The hasher: class CRIPEMD160 *)

Definition CRIPEMD160 : Type := hasher state.

Definition new (uninitialized : list Z) : CRIPEMD160 := mkHasher Initialize uninitialized 0.

Definition Write (h : CRIPEMD160) (data : list Z) : CRIPEMD160 := BlockHash.Write 64 Transform h data.

Definition WriteLE32_all (s : state) : list Z :=
  let '(a, b, c, d, e) := s in
  WriteLE32 a ++ WriteLE32 b ++ WriteLE32 c ++ WriteLE32 d ++ WriteLE32 e.

Definition Finalize (h : CRIPEMD160) : list Z * CRIPEMD160 :=
  let sizedesc := WriteLE64 (u64 (h_bytes h << 3)) in
  let h := Finalize_pad 64 Write 8 sizedesc h in
  (WriteLE32_all (h_s h), h).

Definition Reset (h : CRIPEMD160) : CRIPEMD160 := mkHasher Initialize (h_buf h) 0.

End Ripemd160.

(** ** The published description *)

Module RmdSpec.
Import Ripemd160 (state, rol).

(** the order of the words: the identity, then [rho] once more each round; the right line
    starts with [pi] *)
Definition rho : list nat := [7; 4; 13; 1; 10; 6; 15; 3; 12; 0; 9; 5; 2; 14; 11; 8]%nat.
Definition pi (i : nat) : nat := ((9 * i + 5) `mod` 16)%nat.
Definition order (start : list nat) (round : nat) : list nat := Nat.iter round (fmap (λ i : nat, rho !!! i)) start.

(** the rotation of word [i] in each round, the same in both lines *)
Definition shifts : list (list Z) :=
  [[11; 14; 15; 12; 5; 8; 7; 9; 11; 13; 14; 15; 6; 7; 9; 8];
   [12; 13; 11; 15; 6; 9; 9; 7; 12; 15; 11; 13; 7; 8; 7; 7];
   [13; 15; 14; 11; 7; 7; 6; 8; 13; 14; 13; 12; 5; 5; 6; 9];
   [14; 11; 12; 14; 8; 6; 5; 5; 15; 12; 15; 14; 9; 9; 8; 6];
   [15; 12; 13; 13; 9; 5; 8; 6; 14; 11; 12; 11; 8; 6; 5; 5]].

Definition f (round : nat) (x y z : Z) : Z :=
  match round with
  | 0%nat => x ^^ y ^^ z
  | 1%nat => (x &&& y) ||| (u32 (Z.lnot x) &&& z)
  | 2%nat => (x ||| u32 (Z.lnot y)) ^^ z
  | 3%nat => (x &&& z) ||| (y &&& u32 (Z.lnot z))
  | _ => x ^^ (y ||| u32 (Z.lnot z))
  end.

(** the integer parts of 2^30 times the square roots, and the cube roots, of 2, 3, 5 and 7 *)
Definition K (round : nat) : Z := [0; Z.sqrt (2 * 2 ^ 60); Z.sqrt (3 * 2 ^ 60); Z.sqrt (5 * 2 ^ 60); Z.sqrt (7 * 2 ^ 60)] !!! round.
Definition K' (round : nat) : Z :=
  [icbrt 32 (2 * 2 ^ 90) 0; icbrt 32 (3 * 2 ^ 90) 0; icbrt 32 (5 * 2 ^ 90) 0; icbrt 32 (7 * 2 ^ 90) 0; 0] !!! round.

(** round number, word and rotation of the eighty steps of a line *)
Definition steps (start : list nat) : list (nat * nat * Z) :=
  concat ((λ round : nat, (λ i : nat, (round, i, (shifts !!! round) !!! i)) <$> order start round) <$> seq 0 5).
Definition left_steps : list (nat * nat * Z) := steps (seq 0 16).
Definition right_steps : list (nat * nat * Z) := steps (pi <$> seq 0 16).

Definition step (fn : Z -> Z -> Z -> Z) (k x s : Z) (v : state) : state :=
  let '(A, B, C, D, E) := v in (E, u32 (rol (u32 (A + fn B C D + x + k)) s + E), B, rol C 10, D).
Definition left_step (v : state) (st : nat * Z * Z) : state :=
  let '(round, x, s) := st in step (f round) (K round) x s v.
Definition right_step (v : state) (st : nat * Z * Z) : state :=
  let '(round, x, s) := st in step (f (4 - round)) (K' round) x s v.

Definition with_words (X : list Z) (l : list (nat * nat * Z)) : list (nat * Z * Z) :=
  (λ '(round, i, s), (round, X !!! i, s)) <$> l.

Fixpoint le_words (n : nat) (block : list Z) : list Z :=
  match n with
  | O => []
  | S n => le_value (take 4 block) :: le_words n (drop 4 block)
  end.

Definition compress (h : state) (block : list Z) : state :=
  let '(h0, h1, h2, h3, h4) := h in
  let X := le_words 16 block in
  let '(A, B, C, D, E) := foldl left_step h (with_words X left_steps) in
  let '(A', B', C', D', E') := foldl right_step h (with_words X right_steps) in
  (u32 (h1 + C + D'), u32 (h2 + D + E'), u32 (h3 + E + A'), u32 (h4 + A + B'), u32 (h0 + B + C')).

Definition pad (m : list Z) : list Z :=
  m ++ [0x80] ++ replicate (Z.to_nat ((64 - 8 - 1 - length m) `mod` 64)) 0 ++ le_bytes 8 (8 * length m).

Definition hash (m : list Z) : list Z :=
  let p := pad m in
  let '(a, b, c, d, e) := fold_blocks compress 64 (length p)
    (0x67452301, 0xEFCDAB89, 0x98BADCFE, 0x10325476, 0xC3D2E1F0) p in
  concat (le_bytes 4 <$> [a; b; c; d; e]).
End RmdSpec.

(** ** The code computes it *)

Module RmdLaws.
Import Ripemd160 RmdSpec.

(** a round of the code is a step of the reference, with the register names moved *)
Lemma left_step_R (round : nat) rest x s a b c d e :
  foldl left_step (a, b, c, d, e) ((round, x, s) :: rest)
  = let '(a', c') := match round with
      | 0%nat => R11 a b c d e x s | 1%nat => R21 a b c d e x s | 2%nat => R31 a b c d e x s
      | 3%nat => R41 a b c d e x s | 4%nat => R51 a b c d e x s
      | _ => Round a b c d e (f5 b c d) x (K round) s
      end in
    foldl left_step (e, a', b, c', d) rest.
Proof. do 5 (destruct round as [|round]; [reflexivity|]). reflexivity. Qed.

Lemma right_step_R (round : nat) rest x s a b c d e :
  foldl right_step (a, b, c, d, e) ((round, x, s) :: rest)
  = let '(a', c') := match round with
      | 0%nat => R12 a b c d e x s | 1%nat => R22 a b c d e x s | 2%nat => R32 a b c d e x s
      | 3%nat => R42 a b c d e x s | 4%nat => R52 a b c d e x s
      | _ => Round a b c d e (f1 b c d) x (K' round) s
      end in
    foldl right_step (e, a', b, c', d) rest.
Proof. do 5 (destruct round as [|round]; [reflexivity|]). reflexivity. Qed.

(** the next call of a round on the right-hand side, made a pair of variables *)
Ltac next_round :=
  cbv beta iota;
  lazymatch goal with
  | |- context [let '(_, _) := ?r in foldl _ _ _] => destruct r as [? ?]
  end; cbv beta iota.

Lemma le_words_ReadLE32 chunk :
  le_words 16 chunk = (λ i : nat, ReadLE32 (drop (4 * i) chunk)) <$> seq 0 16.
Proof.
  cbn [le_words fmap list_fmap seq]. rewrite !drop_drop. cbn [Nat.add Nat.mul]. done.
Qed.

(** the steps of one group of rounds, with their words *)
Definition group (X : list Z) (start : list nat) (round : nat) : list (nat * Z * Z) :=
  with_words X ((λ i : nat, (round, i, (shifts !!! round) !!! i)) <$> order start round).

(** A group works on the registers [(a, b, c, d, e)] turned right by the number of groups before
    it, since sixteen rounds turn them by one. *)
Definition turn (v : state) : state := let '(a, b, c, d, e) := v in (e, a, b, c, d).

Ltac literal_group :=
  repeat match goal with |- context [group ?X ?s ?r] =>
    let l := eval vm_compute in (group X s r) in change (group X s r) with l end.
Ltac group_rounds :=
  literal_group; cbv beta iota zeta delta [Nat.iter nat_rect turn];
  do 16 (rewrite left_step_R; next_round; rewrite right_step_R; next_round); cbn [foldl]; reflexivity.

Lemma Rounds1_steps v1 v2 w0 w1 w2 w3 w4 w5 w6 w7 w8 w9 w10 w11 w12 w13 w14 w15 :
  let X := [w0; w1; w2; w3; w4; w5; w6; w7; w8; w9; w10; w11; w12; w13; w14; w15] in
  (λ '(u1, u2), (Nat.iter 1 turn u1, Nat.iter 1 turn u2)) (Rounds1 v1 v2 w0 w1 w2 w3 w4 w5 w6 w7 w8 w9 w10 w11 w12 w13 w14 w15)
  = (foldl left_step (Nat.iter 0 turn v1) (group X (seq 0 16) 0),
     foldl right_step (Nat.iter 0 turn v2) (group X (pi <$> seq 0 16) 0)).
Proof. destruct v1 as [[[[? ?] ?] ?] ?], v2 as [[[[? ?] ?] ?] ?]. cbv zeta. unfold Rounds1. group_rounds. Qed.

Lemma Rounds2_steps v1 v2 w0 w1 w2 w3 w4 w5 w6 w7 w8 w9 w10 w11 w12 w13 w14 w15 :
  let X := [w0; w1; w2; w3; w4; w5; w6; w7; w8; w9; w10; w11; w12; w13; w14; w15] in
  (λ '(u1, u2), (Nat.iter 2 turn u1, Nat.iter 2 turn u2)) (Rounds2 v1 v2 w0 w1 w2 w3 w4 w5 w6 w7 w8 w9 w10 w11 w12 w13 w14 w15)
  = (foldl left_step (Nat.iter 1 turn v1) (group X (seq 0 16) 1),
     foldl right_step (Nat.iter 1 turn v2) (group X (pi <$> seq 0 16) 1)).
Proof. destruct v1 as [[[[? ?] ?] ?] ?], v2 as [[[[? ?] ?] ?] ?]. cbv zeta. unfold Rounds2. group_rounds. Qed.

Lemma Rounds3_steps v1 v2 w0 w1 w2 w3 w4 w5 w6 w7 w8 w9 w10 w11 w12 w13 w14 w15 :
  let X := [w0; w1; w2; w3; w4; w5; w6; w7; w8; w9; w10; w11; w12; w13; w14; w15] in
  (λ '(u1, u2), (Nat.iter 3 turn u1, Nat.iter 3 turn u2)) (Rounds3 v1 v2 w0 w1 w2 w3 w4 w5 w6 w7 w8 w9 w10 w11 w12 w13 w14 w15)
  = (foldl left_step (Nat.iter 2 turn v1) (group X (seq 0 16) 2),
     foldl right_step (Nat.iter 2 turn v2) (group X (pi <$> seq 0 16) 2)).
Proof. destruct v1 as [[[[? ?] ?] ?] ?], v2 as [[[[? ?] ?] ?] ?]. cbv zeta. unfold Rounds3. group_rounds. Qed.

Lemma Rounds4_steps v1 v2 w0 w1 w2 w3 w4 w5 w6 w7 w8 w9 w10 w11 w12 w13 w14 w15 :
  let X := [w0; w1; w2; w3; w4; w5; w6; w7; w8; w9; w10; w11; w12; w13; w14; w15] in
  (λ '(u1, u2), (Nat.iter 4 turn u1, Nat.iter 4 turn u2)) (Rounds4 v1 v2 w0 w1 w2 w3 w4 w5 w6 w7 w8 w9 w10 w11 w12 w13 w14 w15)
  = (foldl left_step (Nat.iter 3 turn v1) (group X (seq 0 16) 3),
     foldl right_step (Nat.iter 3 turn v2) (group X (pi <$> seq 0 16) 3)).
Proof. destruct v1 as [[[[? ?] ?] ?] ?], v2 as [[[[? ?] ?] ?] ?]. cbv zeta. unfold Rounds4. group_rounds. Qed.

Lemma Rounds5_steps v1 v2 w0 w1 w2 w3 w4 w5 w6 w7 w8 w9 w10 w11 w12 w13 w14 w15 :
  let X := [w0; w1; w2; w3; w4; w5; w6; w7; w8; w9; w10; w11; w12; w13; w14; w15] in
  (λ '(u1, u2), (Nat.iter 5 turn u1, Nat.iter 5 turn u2)) (Rounds5 v1 v2 w0 w1 w2 w3 w4 w5 w6 w7 w8 w9 w10 w11 w12 w13 w14 w15)
  = (foldl left_step (Nat.iter 4 turn v1) (group X (seq 0 16) 4),
     foldl right_step (Nat.iter 4 turn v2) (group X (pi <$> seq 0 16) 4)).
Proof. destruct v1 as [[[[? ?] ?] ?] ?], v2 as [[[[? ?] ?] ?] ?]. cbv zeta. unfold Rounds5. group_rounds. Qed.

Lemma with_words_steps X start :
  with_words X (steps start) = group X start 0 ++ group X start 1 ++ group X start 2 ++ group X start 3 ++ group X start 4.
Proof.
  unfold steps, with_words, group. cbn [seq fmap list_fmap concat]. by rewrite !fmap_app, app_nil_r.
Qed.

Lemma turn_5 v : Nat.iter 5 turn v = v.
Proof. by destruct v as [[[[? ?] ?] ?] ?]. Qed.

Lemma Transform_compress s chunk : Transform s chunk = compress s chunk.
Proof.
  unfold Transform, compress, left_steps, right_steps. rewrite le_words_ReadLE32.
  cbn [fmap list_fmap seq Nat.mul Nat.add].
  generalize (ReadLE32 (drop 0 chunk)), (ReadLE32 (drop 4 chunk)), (ReadLE32 (drop 8 chunk)), (ReadLE32 (drop 12 chunk)),
    (ReadLE32 (drop 16 chunk)), (ReadLE32 (drop 20 chunk)), (ReadLE32 (drop 24 chunk)), (ReadLE32 (drop 28 chunk)),
    (ReadLE32 (drop 32 chunk)), (ReadLE32 (drop 36 chunk)), (ReadLE32 (drop 40 chunk)), (ReadLE32 (drop 44 chunk)),
    (ReadLE32 (drop 48 chunk)), (ReadLE32 (drop 52 chunk)), (ReadLE32 (drop 56 chunk)), (ReadLE32 (drop 60 chunk)).
  intros w0 w1 w2 w3 w4 w5 w6 w7 w8 w9 w10 w11 w12 w13 w14 w15. cbv zeta. rewrite !with_words_steps, !foldl_app.
  destruct s as [[[[h0 h1] h2] h3] h4]. set (v := (h0, h1, h2, h3, h4)).
  pose proof (Rounds1_steps v v w0 w1 w2 w3 w4 w5 w6 w7 w8 w9 w10 w11 w12 w13 w14 w15) as H1.
  destruct (Rounds1 v v w0 w1 w2 w3 w4 w5 w6 w7 w8 w9 w10 w11 w12 w13 w14 w15) as [u1 t1]; cbv beta iota zeta in H1; apply pair_eq in H1 as [E1 F1].
  pose proof (Rounds2_steps u1 t1 w0 w1 w2 w3 w4 w5 w6 w7 w8 w9 w10 w11 w12 w13 w14 w15) as H2.
  destruct (Rounds2 u1 t1 w0 w1 w2 w3 w4 w5 w6 w7 w8 w9 w10 w11 w12 w13 w14 w15) as [u2 t2]; cbv beta iota zeta in H2; apply pair_eq in H2 as [E2 F2].
  pose proof (Rounds3_steps u2 t2 w0 w1 w2 w3 w4 w5 w6 w7 w8 w9 w10 w11 w12 w13 w14 w15) as H3.
  destruct (Rounds3 u2 t2 w0 w1 w2 w3 w4 w5 w6 w7 w8 w9 w10 w11 w12 w13 w14 w15) as [u3 t3]; cbv beta iota zeta in H3; apply pair_eq in H3 as [E3 F3].
  pose proof (Rounds4_steps u3 t3 w0 w1 w2 w3 w4 w5 w6 w7 w8 w9 w10 w11 w12 w13 w14 w15) as H4.
  destruct (Rounds4 u3 t3 w0 w1 w2 w3 w4 w5 w6 w7 w8 w9 w10 w11 w12 w13 w14 w15) as [u4 t4]; cbv beta iota zeta in H4; apply pair_eq in H4 as [E4 F4].
  pose proof (Rounds5_steps u4 t4 w0 w1 w2 w3 w4 w5 w6 w7 w8 w9 w10 w11 w12 w13 w14 w15) as H5.
  destruct (Rounds5 u4 t4 w0 w1 w2 w3 w4 w5 w6 w7 w8 w9 w10 w11 w12 w13 w14 w15) as [u5 t5]; cbv beta iota zeta in H5; apply pair_eq in H5 as [E5 F5].
  cbn [Nat.iter nat_rect] in *. cbn [fmap list_fmap seq] in *.
  rewrite <- E1, <- E2, <- E3, <- E4, <- E5, <- F1, <- F2, <- F3, <- F4, <- F5.
  change (turn (turn (turn (turn (turn u5))))) with (Nat.iter 5 turn u5).
  change (turn (turn (turn (turn (turn t5))))) with (Nat.iter 5 turn t5). rewrite !turn_5.
  unfold v. cbv beta iota. destruct u5 as [[[[? ?] ?] ?] ?], t5 as [[[[? ?] ?] ?] ?]. reflexivity.
Qed.

Lemma le_words_take (n m : nat) block : (4 * n <= m)%nat -> le_words n (take m block) = le_words n block.
Proof.
  revert m block. induction n as [|n IH]; intros m block Hm; [done|]. cbn [le_words].
  rewrite take_take, Nat.min_l, skipn_firstn_comm by lia. f_equal. apply IH. lia.
Qed.

Lemma rmd_Transform_take s m : (64 <= length m)%nat -> Transform s m = Transform s (take 64 m).
Proof. intros _. rewrite !Transform_compress. unfold compress. by rewrite le_words_take by lia. Qed.

Lemma rmd_Write_represents h m data :
  represents 64 Initialize Transform h m -> length m + length data < 2 ^ 64 ->
  represents 64 Initialize Transform (Write h data) (m ++ data).
Proof. apply (Write_spec 64 Initialize Transform ltac:(lia) rmd_Transform_take Transform). done. Qed.

Lemma rmd_Finalize_represents h m :
  represents 64 Initialize Transform h m -> length m < 2 ^ 61 -> (Finalize h).1 = RmdSpec.hash m.
Proof.
  intros Hr Hm. unfold Finalize. cbn [fst]. rewrite (rep_bytes _ _ _ _ _ Hr).
  pose proof (Finalize_pad_represents 64 Initialize Transform ltac:(lia) Write rmd_Write_represents 8
    (WriteLE64 (u64 (length m << 3))) h m ltac:(lia) ltac:(lia) ltac:(by unfold WriteLE64; rewrite length_le_bytes)
    Hr ltac:(lia)) as Hf.
  rewrite (rep_s _ _ _ _ _ Hf), (chain_fold 64 Initialize Transform ltac:(lia) rmd_Transform_take).
  assert (Hp : m ++ [0x80] ++ replicate (pad_zeros 64 8 m) 0 ++ replicate (8 - 8) 0 ++ WriteLE64 (u64 (length m << 3)) = pad m).
  { unfold pad, WriteLE64. rewrite Z.shiftl_mul_pow2, u64_small by lia. cbn [replicate Nat.sub app].
    do 4 f_equal. lia. }
  rewrite Hp, (fold_blocks_ext _ compress) by apply Transform_compress.
  unfold hash. change (0x67452301, 0xEFCDAB89, 0x98BADCFE, 0x10325476, 0xC3D2E1F0) with Initialize.
  destruct (fold_blocks _ _ _ _ _) as [[[[? ?] ?] ?] ?]. cbn [WriteLE32_all fmap list_fmap concat].
  by rewrite app_nil_r.
Qed.
End RmdLaws.

Import Ripemd160.

(** Hashing with [CRIPEMD160] is RIPEMD-160, however the message is cut into writes. *)
Theorem CRIPEMD160_correct (uninitialized : list Z) (chunks : list (list Z)) :
  length uninitialized = 64%nat -> length (concat chunks) < 2 ^ 61 ->
  (Finalize (foldl Write (new uninitialized) chunks)).1 = RmdSpec.hash (concat chunks).
Proof.
  intros Hu Hl. apply RmdLaws.rmd_Finalize_represents; [|done].
  apply (writes_represents 64 Initialize Transform ltac:(lia) Write RmdLaws.rmd_Write_represents chunks (new uninitialized) []);
    [by apply new_represents|simpl; lia].
Qed.

Lemma CRIPEMD160_correct_witness :
  (Finalize (foldl Write (new (replicate 64 1)) [[97]; []; [98; 99]])).1 = RmdSpec.hash [97; 98; 99].
Proof. refine (CRIPEMD160_correct (replicate 64 1) [[97]; []; [98; 99]] _ _); simpl; [reflexivity|lia]. Defined.

Example RIPEMD160_abc : RmdSpec.hash [97; 98; 99] =
  [0x8e; 0xb2; 0x08; 0xf7; 0xe0; 0x5d; 0x98; 0x7a; 0x9b; 0x04; 0x4a; 0x8e; 0x98; 0xc6; 0xb0; 0x87; 0xf1; 0x5a; 0x0b; 0xfc].
Proof. vm_compute. reflexivity. Qed.
