(* ===== verification/Sha1.v ===== *)
(** * SHA-1: crypto/sha1.h and crypto/sha1.cpp

    The eighty unrolled rounds with the sixteen words of the schedule kept in place, and the
    hasher object.  The reference is the standard (FIPS 180-4): the constants are square
    roots, the schedule is the recurrence. *)

From S2P Require Import Prelude Bytes ShaSpec BlockHash.

Module Sha1.

(** [s[5]], and the schedule *)
Definition state : Type := Z * Z * Z * Z * Z.
Definition words : Type := Z * Z * Z * Z * Z * Z * Z * Z * Z * Z * Z * Z * Z * Z * Z * Z.

(** One round: the new values of [b] and [e]. *)
Definition Round (a b c d e f k w : Z) : Z * Z :=
  (u32 (b << 30) ||| (b >> 2), u32 (e + u32 ((u32 (a << 5) ||| (a >> 27)) + f + k + w))).

Definition f1 (b c d : Z) : Z := d ^^ (b &&& (c ^^ d)).
Definition f2 (b c d : Z) : Z := b ^^ c ^^ d.
Definition f3 (b c d : Z) : Z := (b &&& c) ||| (d &&& (b ||| c)).

Definition left (x : Z) : Z := u32 (x << 1) ||| (x >> 31).

Definition Initialize : state := (0x67452301, 0xEFCDAB89, 0x98BADCFE, 0x10325476, 0xC3D2E1F0).

Definition k1 : Z := 0x5A827999.
Definition k2 : Z := 0x6ED9EBA1.
Definition k3 : Z := 0x8F1BBCDC.
Definition k4 : Z := 0xCA62C1D6.

(** The five groups of sixteen rounds. *)
Definition Rounds1 (r : state) (chunk : list Z) : state * words :=
  let '(a, b, c, d, e) := r in
  let w0 := ReadBE32 (drop 0 chunk) in
  let '(b, e) := Round a b c d e (f1 b c d) k1 w0 in
  let w1 := ReadBE32 (drop 4 chunk) in
  let '(a, d) := Round e a b c d (f1 a b c) k1 w1 in
  let w2 := ReadBE32 (drop 8 chunk) in
  let '(e, c) := Round d e a b c (f1 e a b) k1 w2 in
  let w3 := ReadBE32 (drop 12 chunk) in
  let '(d, b) := Round c d e a b (f1 d e a) k1 w3 in
  let w4 := ReadBE32 (drop 16 chunk) in
  let '(c, a) := Round b c d e a (f1 c d e) k1 w4 in
  let w5 := ReadBE32 (drop 20 chunk) in
  let '(b, e) := Round a b c d e (f1 b c d) k1 w5 in
  let w6 := ReadBE32 (drop 24 chunk) in
  let '(a, d) := Round e a b c d (f1 a b c) k1 w6 in
  let w7 := ReadBE32 (drop 28 chunk) in
  let '(e, c) := Round d e a b c (f1 e a b) k1 w7 in
  let w8 := ReadBE32 (drop 32 chunk) in
  let '(d, b) := Round c d e a b (f1 d e a) k1 w8 in
  let w9 := ReadBE32 (drop 36 chunk) in
  let '(c, a) := Round b c d e a (f1 c d e) k1 w9 in
  let w10 := ReadBE32 (drop 40 chunk) in
  let '(b, e) := Round a b c d e (f1 b c d) k1 w10 in
  let w11 := ReadBE32 (drop 44 chunk) in
  let '(a, d) := Round e a b c d (f1 a b c) k1 w11 in
  let w12 := ReadBE32 (drop 48 chunk) in
  let '(e, c) := Round d e a b c (f1 e a b) k1 w12 in
  let w13 := ReadBE32 (drop 52 chunk) in
  let '(d, b) := Round c d e a b (f1 d e a) k1 w13 in
  let w14 := ReadBE32 (drop 56 chunk) in
  let '(c, a) := Round b c d e a (f1 c d e) k1 w14 in
  let w15 := ReadBE32 (drop 60 chunk) in
  let '(b, e) := Round a b c d e (f1 b c d) k1 w15 in
  ((a, b, c, d, e), (w0, w1, w2, w3, w4, w5, w6, w7, w8, w9, w10, w11, w12, w13, w14, w15)).

Definition Rounds2 (r : state) (w : words) : state * words :=
  let '(a, b, c, d, e) := r in
  let '(w0, w1, w2, w3, w4, w5, w6, w7, w8, w9, w10, w11, w12, w13, w14, w15) := w in
  let w0 := left (w0 ^^ w13 ^^ w8 ^^ w2) in
  let '(a, d) := Round e a b c d (f1 a b c) k1 w0 in
  let w1 := left (w1 ^^ w14 ^^ w9 ^^ w3) in
  let '(e, c) := Round d e a b c (f1 e a b) k1 w1 in
  let w2 := left (w2 ^^ w15 ^^ w10 ^^ w4) in
  let '(d, b) := Round c d e a b (f1 d e a) k1 w2 in
  let w3 := left (w3 ^^ w0 ^^ w11 ^^ w5) in
  let '(c, a) := Round b c d e a (f1 c d e) k1 w3 in
  let w4 := left (w4 ^^ w1 ^^ w12 ^^ w6) in
  let '(b, e) := Round a b c d e (f2 b c d) k2 w4 in
  let w5 := left (w5 ^^ w2 ^^ w13 ^^ w7) in
  let '(a, d) := Round e a b c d (f2 a b c) k2 w5 in
  let w6 := left (w6 ^^ w3 ^^ w14 ^^ w8) in
  let '(e, c) := Round d e a b c (f2 e a b) k2 w6 in
  let w7 := left (w7 ^^ w4 ^^ w15 ^^ w9) in
  let '(d, b) := Round c d e a b (f2 d e a) k2 w7 in
  let w8 := left (w8 ^^ w5 ^^ w0 ^^ w10) in
  let '(c, a) := Round b c d e a (f2 c d e) k2 w8 in
  let w9 := left (w9 ^^ w6 ^^ w1 ^^ w11) in
  let '(b, e) := Round a b c d e (f2 b c d) k2 w9 in
  let w10 := left (w10 ^^ w7 ^^ w2 ^^ w12) in
  let '(a, d) := Round e a b c d (f2 a b c) k2 w10 in
  let w11 := left (w11 ^^ w8 ^^ w3 ^^ w13) in
  let '(e, c) := Round d e a b c (f2 e a b) k2 w11 in
  let w12 := left (w12 ^^ w9 ^^ w4 ^^ w14) in
  let '(d, b) := Round c d e a b (f2 d e a) k2 w12 in
  let w13 := left (w13 ^^ w10 ^^ w5 ^^ w15) in
  let '(c, a) := Round b c d e a (f2 c d e) k2 w13 in
  let w14 := left (w14 ^^ w11 ^^ w6 ^^ w0) in
  let '(b, e) := Round a b c d e (f2 b c d) k2 w14 in
  let w15 := left (w15 ^^ w12 ^^ w7 ^^ w1) in
  let '(a, d) := Round e a b c d (f2 a b c) k2 w15 in
  ((a, b, c, d, e), (w0, w1, w2, w3, w4, w5, w6, w7, w8, w9, w10, w11, w12, w13, w14, w15)).

Definition Rounds3 (r : state) (w : words) : state * words :=
  let '(a, b, c, d, e) := r in
  let '(w0, w1, w2, w3, w4, w5, w6, w7, w8, w9, w10, w11, w12, w13, w14, w15) := w in
  let w0 := left (w0 ^^ w13 ^^ w8 ^^ w2) in
  let '(e, c) := Round d e a b c (f2 e a b) k2 w0 in
  let w1 := left (w1 ^^ w14 ^^ w9 ^^ w3) in
  let '(d, b) := Round c d e a b (f2 d e a) k2 w1 in
  let w2 := left (w2 ^^ w15 ^^ w10 ^^ w4) in
  let '(c, a) := Round b c d e a (f2 c d e) k2 w2 in
  let w3 := left (w3 ^^ w0 ^^ w11 ^^ w5) in
  let '(b, e) := Round a b c d e (f2 b c d) k2 w3 in
  let w4 := left (w4 ^^ w1 ^^ w12 ^^ w6) in
  let '(a, d) := Round e a b c d (f2 a b c) k2 w4 in
  let w5 := left (w5 ^^ w2 ^^ w13 ^^ w7) in
  let '(e, c) := Round d e a b c (f2 e a b) k2 w5 in
  let w6 := left (w6 ^^ w3 ^^ w14 ^^ w8) in
  let '(d, b) := Round c d e a b (f2 d e a) k2 w6 in
  let w7 := left (w7 ^^ w4 ^^ w15 ^^ w9) in
  let '(c, a) := Round b c d e a (f2 c d e) k2 w7 in
  let w8 := left (w8 ^^ w5 ^^ w0 ^^ w10) in
  let '(b, e) := Round a b c d e (f3 b c d) k3 w8 in
  let w9 := left (w9 ^^ w6 ^^ w1 ^^ w11) in
  let '(a, d) := Round e a b c d (f3 a b c) k3 w9 in
  let w10 := left (w10 ^^ w7 ^^ w2 ^^ w12) in
  let '(e, c) := Round d e a b c (f3 e a b) k3 w10 in
  let w11 := left (w11 ^^ w8 ^^ w3 ^^ w13) in
  let '(d, b) := Round c d e a b (f3 d e a) k3 w11 in
  let w12 := left (w12 ^^ w9 ^^ w4 ^^ w14) in
  let '(c, a) := Round b c d e a (f3 c d e) k3 w12 in
  let w13 := left (w13 ^^ w10 ^^ w5 ^^ w15) in
  let '(b, e) := Round a b c d e (f3 b c d) k3 w13 in
  let w14 := left (w14 ^^ w11 ^^ w6 ^^ w0) in
  let '(a, d) := Round e a b c d (f3 a b c) k3 w14 in
  let w15 := left (w15 ^^ w12 ^^ w7 ^^ w1) in
  let '(e, c) := Round d e a b c (f3 e a b) k3 w15 in
  ((a, b, c, d, e), (w0, w1, w2, w3, w4, w5, w6, w7, w8, w9, w10, w11, w12, w13, w14, w15)).

Definition Rounds4 (r : state) (w : words) : state * words :=
  let '(a, b, c, d, e) := r in
  let '(w0, w1, w2, w3, w4, w5, w6, w7, w8, w9, w10, w11, w12, w13, w14, w15) := w in
  let w0 := left (w0 ^^ w13 ^^ w8 ^^ w2) in
  let '(d, b) := Round c d e a b (f3 d e a) k3 w0 in
  let w1 := left (w1 ^^ w14 ^^ w9 ^^ w3) in
  let '(c, a) := Round b c d e a (f3 c d e) k3 w1 in
  let w2 := left (w2 ^^ w15 ^^ w10 ^^ w4) in
  let '(b, e) := Round a b c d e (f3 b c d) k3 w2 in
  let w3 := left (w3 ^^ w0 ^^ w11 ^^ w5) in
  let '(a, d) := Round e a b c d (f3 a b c) k3 w3 in
  let w4 := left (w4 ^^ w1 ^^ w12 ^^ w6) in
  let '(e, c) := Round d e a b c (f3 e a b) k3 w4 in
  let w5 := left (w5 ^^ w2 ^^ w13 ^^ w7) in
  let '(d, b) := Round c d e a b (f3 d e a) k3 w5 in
  let w6 := left (w6 ^^ w3 ^^ w14 ^^ w8) in
  let '(c, a) := Round b c d e a (f3 c d e) k3 w6 in
  let w7 := left (w7 ^^ w4 ^^ w15 ^^ w9) in
  let '(b, e) := Round a b c d e (f3 b c d) k3 w7 in
  let w8 := left (w8 ^^ w5 ^^ w0 ^^ w10) in
  let '(a, d) := Round e a b c d (f3 a b c) k3 w8 in
  let w9 := left (w9 ^^ w6 ^^ w1 ^^ w11) in
  let '(e, c) := Round d e a b c (f3 e a b) k3 w9 in
  let w10 := left (w10 ^^ w7 ^^ w2 ^^ w12) in
  let '(d, b) := Round c d e a b (f3 d e a) k3 w10 in
  let w11 := left (w11 ^^ w8 ^^ w3 ^^ w13) in
  let '(c, a) := Round b c d e a (f3 c d e) k3 w11 in
  let w12 := left (w12 ^^ w9 ^^ w4 ^^ w14) in
  let '(b, e) := Round a b c d e (f2 b c d) k4 w12 in
  let w13 := left (w13 ^^ w10 ^^ w5 ^^ w15) in
  let '(a, d) := Round e a b c d (f2 a b c) k4 w13 in
  let w14 := left (w14 ^^ w11 ^^ w6 ^^ w0) in
  let '(e, c) := Round d e a b c (f2 e a b) k4 w14 in
  let w15 := left (w15 ^^ w12 ^^ w7 ^^ w1) in
  let '(d, b) := Round c d e a b (f2 d e a) k4 w15 in
  ((a, b, c, d, e), (w0, w1, w2, w3, w4, w5, w6, w7, w8, w9, w10, w11, w12, w13, w14, w15)).

Definition Rounds5 (r : state) (w : words) : state :=
  let '(a, b, c, d, e) := r in
  let '(w0, w1, w2, w3, w4, w5, w6, w7, w8, w9, w10, w11, w12, w13, w14, w15) := w in
  let w0 := left (w0 ^^ w13 ^^ w8 ^^ w2) in
  let '(c, a) := Round b c d e a (f2 c d e) k4 w0 in
  let w1 := left (w1 ^^ w14 ^^ w9 ^^ w3) in
  let '(b, e) := Round a b c d e (f2 b c d) k4 w1 in
  let w2 := left (w2 ^^ w15 ^^ w10 ^^ w4) in
  let '(a, d) := Round e a b c d (f2 a b c) k4 w2 in
  let w3 := left (w3 ^^ w0 ^^ w11 ^^ w5) in
  let '(e, c) := Round d e a b c (f2 e a b) k4 w3 in
  let w4 := left (w4 ^^ w1 ^^ w12 ^^ w6) in
  let '(d, b) := Round c d e a b (f2 d e a) k4 w4 in
  let w5 := left (w5 ^^ w2 ^^ w13 ^^ w7) in
  let '(c, a) := Round b c d e a (f2 c d e) k4 w5 in
  let w6 := left (w6 ^^ w3 ^^ w14 ^^ w8) in
  let '(b, e) := Round a b c d e (f2 b c d) k4 w6 in
  let w7 := left (w7 ^^ w4 ^^ w15 ^^ w9) in
  let '(a, d) := Round e a b c d (f2 a b c) k4 w7 in
  let w8 := left (w8 ^^ w5 ^^ w0 ^^ w10) in
  let '(e, c) := Round d e a b c (f2 e a b) k4 w8 in
  let w9 := left (w9 ^^ w6 ^^ w1 ^^ w11) in
  let '(d, b) := Round c d e a b (f2 d e a) k4 w9 in
  let w10 := left (w10 ^^ w7 ^^ w2 ^^ w12) in
  let '(c, a) := Round b c d e a (f2 c d e) k4 w10 in
  let w11 := left (w11 ^^ w8 ^^ w3 ^^ w13) in
  let '(b, e) := Round a b c d e (f2 b c d) k4 w11 in
  let w12 := left (w12 ^^ w9 ^^ w4 ^^ w14) in
  let '(a, d) := Round e a b c d (f2 a b c) k4 w12 in
  let '(e, c) := Round d e a b c (f2 e a b) k4 (left (w13 ^^ w10 ^^ w5 ^^ w15)) in
  let '(d, b) := Round c d e a b (f2 d e a) k4 (left (w14 ^^ w11 ^^ w6 ^^ w0)) in
  let '(c, a) := Round b c d e a (f2 c d e) k4 (left (w15 ^^ w12 ^^ w7 ^^ w1)) in
  (a, b, c, d, e).

Definition Transform (s : state) (chunk : list Z) : state :=
  let '(s0, s1, s2, s3, s4) := s in
  let '(r, w) := Rounds1 s chunk in
  let '(r, w) := Rounds2 r w in
  let '(r, w) := Rounds3 r w in
  let '(r, w) := Rounds4 r w in
  let '(a, b, c, d, e) := Rounds5 r w in
  (u32 (s0 + a), u32 (s1 + b), u32 (s2 + c), u32 (s3 + d), u32 (s4 + e)).

(** ** The hasher: class CSHA1 *)

Definition CSHA1 : Type := hasher state.

Definition new (uninitialized : list Z) : CSHA1 := mkHasher Initialize uninitialized 0.

Definition Write (h : CSHA1) (data : list Z) : CSHA1 := BlockHash.Write 64 Transform h data.

Definition WriteBE32_all (s : state) : list Z :=
  let '(a, b, c, d, e) := s in
  WriteBE32 a ++ WriteBE32 b ++ WriteBE32 c ++ WriteBE32 d ++ WriteBE32 e.

Definition Finalize (h : CSHA1) : list Z * CSHA1 :=
  let sizedesc := WriteBE64 (u64 (h_bytes h << 3)) in
  let h := Finalize_pad 64 Write 8 sizedesc h in
  (WriteBE32_all (h_s h), h).

Definition Reset (h : CSHA1) : CSHA1 := mkHasher Initialize (h_buf h) 0.

End Sha1.

(** ** The standard *)

Module Sha1Spec.
Import Sha1 (state).

Definition ROTL (n x : Z) : Z := ROTR sha256_parameters (32 - n) x.

(** the functions and constants of the rounds [20 i] to [20 i + 19] *)
Definition f (i : nat) (x y z : Z) : Z :=
  match i with 0%nat => fCh x y z | 2%nat => fMaj x y z | _ => x ^^ y ^^ z end.
Definition K (i : nat) : Z := Z.sqrt ([2; 3; 5; 10] !!! i * 2 ^ 60).

Definition round (i : nat) (v : state) (W : Z) : state :=
  let '(a, b, c, d, e) := v in
  (u32 (ROTL 5 a + f i b c d + e + K i + W), a, ROTL 30 b, c, d).

Definition next_word (ws : list Z) : Z := ROTL 1 (ws !!! 13%nat ^^ ws !!! 8%nat ^^ ws !!! 2%nat ^^ ws !!! 0%nat).

(** [ts]: which twenty each round is in; [fresh], [ws] as in [sha_rounds_from] *)
Fixpoint rounds_from (ts : list nat) (fresh ws : list Z) (v : state) : state :=
  match ts with
  | [] => v
  | i :: ts =>
      let '(W, fresh) := match fresh with W :: fresh => (W, fresh) | [] => (next_word ws, []) end in
      rounds_from ts fresh (drop (length ws - 15) ws ++ [W]) (round i v W)
  end.

Definition schedule : list nat := replicate 20 0%nat ++ replicate 20 1%nat ++ replicate 20 2%nat ++ replicate 20 3%nat.

Definition block (H : state) (m : list Z) : state :=
  let '(a, b, c, d, e) := H in
  let '(a', b', c', d', e') := rounds_from schedule (be_words sha256_parameters 16 m) [] H in
  (u32 (a + a'), u32 (b + b'), u32 (c + c'), u32 (d + d'), u32 (e + e')).

Definition hash (m : list Z) : list Z :=
  let p := sha_pad sha256_parameters m in
  let '(a, b, c, d, e) := fold_blocks block 64 (length p)
    (0x67452301, 0xEFCDAB89, 0x98BADCFE, 0x10325476, 0xC3D2E1F0) p in
  concat ((λ x, rev (le_bytes 4 x)) <$> [a; b; c; d; e]).
End Sha1Spec.

(** ** The code computes it *)

Module Sha1Laws.
Import Sha1 Sha1Spec.

Definition fi (i : nat) : Z -> Z -> Z -> Z := match i with 0%nat => f1 | 2%nat => f3 | _ => f2 end.

Lemma f_fi i x y z : f i x y z = fi i x y z.
Proof.
  destruct i as [|[|[|i]]]; cbn [f fi]; [|done| |done]; symmetry; [apply fCh_select|apply fMaj_or].
Qed.

Lemma ROTL_lor n x : ROTL n x = u32 (x << n) ||| (x >> (32 - n)).
Proof.
  unfold ROTL, ROTR. change (sha_w sha256_parameters) with 32. rewrite Z.lor_comm. do 3 f_equal. lia.
Qed.

(** a round of the code is one of the standard, with the register names moved *)
Lemma round_code i a b c d e W :
  round i (a, b, c, d, e) W
  = let '(b', e') := Round a b c d e (fi i b c d) (K i) W in (e', a, b', c, d).
Proof.
  unfold round, Round. rewrite !ROTL_lor, f_fi. change (32 - 5) with 27. change (32 - 30) with 2.
  generalize (u32 (a << 5) ||| (a >> 27)) as x. intros x. do 4 (apply pair_eq; split; [|done]). sum_eq.
Qed.

Lemma next_word_code w0 w1 w2 w3 w4 w5 w6 w7 w8 w9 w10 w11 w12 w13 w14 w15 :
  next_word [w0; w1; w2; w3; w4; w5; w6; w7; w8; w9; w10; w11; w12; w13; w14; w15] = left (w0 ^^ w13 ^^ w8 ^^ w2).
Proof.
  unfold next_word, left. cbn [lookup_total list_lookup_total]. rewrite ROTL_lor. change (32 - 1) with 31.
  replace (w13 ^^ w8 ^^ w2 ^^ w0) with (w0 ^^ w13 ^^ w8 ^^ w2); [done|].
  by rewrite (Z.lxor_comm _ w0), !Z.lxor_assoc.
Qed.

Lemma rounds_fresh1 i ts W fresh ws a b c d e :
  rounds_from (i :: ts) (W :: fresh) ws (a, b, c, d, e)
  = let '(b', e') := Round a b c d e (fi i b c d) (K i) W in
    rounds_from ts fresh (drop (length ws - 15) ws ++ [W]) (e', a, b', c, d).
Proof. cbn [rounds_from]. rewrite round_code. by destruct (Round _ _ _ _ _ _ _ _). Qed.

Lemma rounds_next1 i ts w0 w1 w2 w3 w4 w5 w6 w7 w8 w9 w10 w11 w12 w13 w14 w15 a b c d e :
  rounds_from (i :: ts) [] [w0; w1; w2; w3; w4; w5; w6; w7; w8; w9; w10; w11; w12; w13; w14; w15] (a, b, c, d, e)
  = let w := left (w0 ^^ w13 ^^ w8 ^^ w2) in
    let '(b', e') := Round a b c d e (fi i b c d) (K i) w in
    rounds_from ts [] [w1; w2; w3; w4; w5; w6; w7; w8; w9; w10; w11; w12; w13; w14; w15; w] (e', a, b', c, d).
Proof. cbn [rounds_from]. rewrite next_word_code, round_code. cbv zeta. by destruct (Round _ _ _ _ _ _ _ _). Qed.

Lemma K_code : K 0 = k1 /\ K 1 = k2 /\ K 2 = k3 /\ K 3 = k4.
Proof. by vm_compute. Qed.

Definition turn (v : state) : state := let '(a, b, c, d, e) := v in (e, a, b, c, d).

Ltac code_constants :=
  cbn [fi]; rewrite ?(proj1 K_code), ?(proj1 (proj2 K_code)), ?(proj1 (proj2 (proj2 K_code))), ?(proj2 (proj2 (proj2 K_code))).

Ltac round_of_rhs :=
  code_constants;
  lazymatch goal with |- context [let '(_, _) := ?r in rounds_from _ _ _ _] => destruct r as [? ?] end; cbv beta iota.
Ltac word_of_rhs :=
  lazymatch goal with |- context [let w := ?x in let '(_, _) := _ in rounds_from _ _ _ _] => generalize x; intros ?; cbv zeta end.

Lemma Rounds1_code r chunk ts :
  (let '(r, (w0, w1, w2, w3, w4, w5, w6, w7, w8, w9, w10, w11, w12, w13, w14, w15)) := Rounds1 r chunk in rounds_from ts [] [w0; w1; w2; w3; w4; w5; w6; w7; w8; w9; w10; w11; w12; w13; w14; w15] (turn r))
  = rounds_from (replicate 16 0%nat ++ ts) (be_words sha256_parameters 16 chunk) [] r.
Proof.
  replace (be_words sha256_parameters 16 chunk)
    with ((λ i : nat, ReadBE32 (drop (4 * i) chunk)) <$> seq 0 16).
  2: { cbn [be_words fmap list_fmap seq]. change (Z.to_nat (sha_w sha256_parameters / 8)) with 4%nat.
       rewrite !drop_drop. cbn [Nat.add Nat.mul]. done. }
  destruct r as [[[[a b] c] d] e]. unfold Rounds1, turn. cbn [fmap list_fmap seq Nat.mul Nat.add replicate app].
  do 16 (rewrite rounds_fresh1; cbn [length Nat.sub drop app]; round_of_rhs). reflexivity.
Qed.

Lemma Rounds2_code r w0 w1 w2 w3 w4 w5 w6 w7 w8 w9 w10 w11 w12 w13 w14 w15 ts :
  (let '(r, (w0, w1, w2, w3, w4, w5, w6, w7, w8, w9, w10, w11, w12, w13, w14, w15)) := Rounds2 r (w0, w1, w2, w3, w4, w5, w6, w7, w8, w9, w10, w11, w12, w13, w14, w15) in rounds_from ts [] [w0; w1; w2; w3; w4; w5; w6; w7; w8; w9; w10; w11; w12; w13; w14; w15] (Nat.iter 2 turn r))
  = rounds_from (0%nat :: 0%nat :: 0%nat :: 0%nat :: 1%nat :: 1%nat :: 1%nat :: 1%nat :: 1%nat :: 1%nat :: 1%nat :: 1%nat :: 1%nat :: 1%nat :: 1%nat :: 1%nat :: ts) [] [w0; w1; w2; w3; w4; w5; w6; w7; w8; w9; w10; w11; w12; w13; w14; w15] (Nat.iter 1 turn r).
Proof.
  destruct r as [[[[a b] c] d] e]. cbv beta iota zeta delta [Rounds2 turn Nat.iter nat_rect].
  do 16 (rewrite rounds_next1; word_of_rhs; round_of_rhs). reflexivity.
Qed.

Lemma Rounds3_code r w0 w1 w2 w3 w4 w5 w6 w7 w8 w9 w10 w11 w12 w13 w14 w15 ts :
  (let '(r, (w0, w1, w2, w3, w4, w5, w6, w7, w8, w9, w10, w11, w12, w13, w14, w15)) := Rounds3 r (w0, w1, w2, w3, w4, w5, w6, w7, w8, w9, w10, w11, w12, w13, w14, w15) in rounds_from ts [] [w0; w1; w2; w3; w4; w5; w6; w7; w8; w9; w10; w11; w12; w13; w14; w15] (Nat.iter 3 turn r))
  = rounds_from (1%nat :: 1%nat :: 1%nat :: 1%nat :: 1%nat :: 1%nat :: 1%nat :: 1%nat :: 2%nat :: 2%nat :: 2%nat :: 2%nat :: 2%nat :: 2%nat :: 2%nat :: 2%nat :: ts) [] [w0; w1; w2; w3; w4; w5; w6; w7; w8; w9; w10; w11; w12; w13; w14; w15] (Nat.iter 2 turn r).
Proof.
  destruct r as [[[[a b] c] d] e]. cbv beta iota zeta delta [Rounds3 turn Nat.iter nat_rect].
  do 16 (rewrite rounds_next1; word_of_rhs; round_of_rhs). reflexivity.
Qed.

Lemma Rounds4_code r w0 w1 w2 w3 w4 w5 w6 w7 w8 w9 w10 w11 w12 w13 w14 w15 ts :
  (let '(r, (w0, w1, w2, w3, w4, w5, w6, w7, w8, w9, w10, w11, w12, w13, w14, w15)) := Rounds4 r (w0, w1, w2, w3, w4, w5, w6, w7, w8, w9, w10, w11, w12, w13, w14, w15) in rounds_from ts [] [w0; w1; w2; w3; w4; w5; w6; w7; w8; w9; w10; w11; w12; w13; w14; w15] (Nat.iter 4 turn r))
  = rounds_from (2%nat :: 2%nat :: 2%nat :: 2%nat :: 2%nat :: 2%nat :: 2%nat :: 2%nat :: 2%nat :: 2%nat :: 2%nat :: 2%nat :: 3%nat :: 3%nat :: 3%nat :: 3%nat :: ts) [] [w0; w1; w2; w3; w4; w5; w6; w7; w8; w9; w10; w11; w12; w13; w14; w15] (Nat.iter 3 turn r).
Proof.
  destruct r as [[[[a b] c] d] e]. cbv beta iota zeta delta [Rounds4 turn Nat.iter nat_rect].
  do 16 (rewrite rounds_next1; word_of_rhs; round_of_rhs). reflexivity.
Qed.

Lemma Rounds5_code r w0 w1 w2 w3 w4 w5 w6 w7 w8 w9 w10 w11 w12 w13 w14 w15 :
  Rounds5 r (w0, w1, w2, w3, w4, w5, w6, w7, w8, w9, w10, w11, w12, w13, w14, w15)
  = rounds_from (3%nat :: 3%nat :: 3%nat :: 3%nat :: 3%nat :: 3%nat :: 3%nat :: 3%nat :: 3%nat :: 3%nat :: 3%nat :: 3%nat :: 3%nat :: 3%nat :: 3%nat :: 3%nat :: []) [] [w0; w1; w2; w3; w4; w5; w6; w7; w8; w9; w10; w11; w12; w13; w14; w15] (Nat.iter 4 turn r).
Proof.
  destruct r as [[[[a b] c] d] e]. cbv beta iota zeta delta [Rounds5 turn Nat.iter nat_rect].
  do 16 (rewrite rounds_next1; word_of_rhs; round_of_rhs). reflexivity.
Qed.

Lemma rounds_of_Transform s chunk :
  (let '(r, w) := Rounds1 s chunk in
   let '(r, w) := Rounds2 r w in
   let '(r, w) := Rounds3 r w in
   let '(r, w) := Rounds4 r w in Rounds5 r w)
  = rounds_from schedule (be_words sha256_parameters 16 chunk) [] s.
Proof.
  change schedule with (replicate 16 0%nat ++ [0%nat; 0%nat; 0%nat; 0%nat; 1%nat; 1%nat; 1%nat; 1%nat; 1%nat; 1%nat; 1%nat; 1%nat; 1%nat; 1%nat; 1%nat; 1%nat; 1%nat; 1%nat; 1%nat; 1%nat; 1%nat; 1%nat; 1%nat; 1%nat; 2%nat; 2%nat; 2%nat; 2%nat; 2%nat; 2%nat; 2%nat; 2%nat; 2%nat; 2%nat; 2%nat; 2%nat; 2%nat; 2%nat; 2%nat; 2%nat; 2%nat; 2%nat; 2%nat; 2%nat; 3%nat; 3%nat; 3%nat; 3%nat; 3%nat; 3%nat; 3%nat; 3%nat; 3%nat; 3%nat; 3%nat; 3%nat; 3%nat; 3%nat; 3%nat; 3%nat; 3%nat; 3%nat; 3%nat; 3%nat]). rewrite <- Rounds1_code.
  destruct (Rounds1 s chunk) as [r1 [[[[[[[[[[[[[[[? ?] ?] ?] ?] ?] ?] ?] ?] ?] ?] ?] ?] ?] ?] ?]].
  change (turn r1) with (Nat.iter 1 turn r1). rewrite <- Rounds2_code.
  destruct (Rounds2 _ _) as [r2 [[[[[[[[[[[[[[[? ?] ?] ?] ?] ?] ?] ?] ?] ?] ?] ?] ?] ?] ?] ?]].
  rewrite <- Rounds3_code.
  destruct (Rounds3 _ _) as [r3 [[[[[[[[[[[[[[[? ?] ?] ?] ?] ?] ?] ?] ?] ?] ?] ?] ?] ?] ?] ?]].
  rewrite <- Rounds4_code.
  destruct (Rounds4 _ _) as [r4 [[[[[[[[[[[[[[[? ?] ?] ?] ?] ?] ?] ?] ?] ?] ?] ?] ?] ?] ?] ?]].
  by rewrite <- Rounds5_code.
Qed.

Lemma Transform_block s chunk : Transform s chunk = block s chunk.
Proof.
  unfold block. rewrite <- rounds_of_Transform. unfold Transform.
  destruct s as [[[[? ?] ?] ?] ?].
  destruct (Rounds1 _ _) as [r1 w1], (Rounds2 r1 w1) as [r2 w2], (Rounds3 r2 w2) as [r3 w3],
    (Rounds4 r3 w3) as [r4 w4], (Rounds5 r4 w4) as [[[[? ?] ?] ?] ?]. reflexivity.
Qed.

Lemma sha1_Transform_take s m : (64 <= length m)%nat -> Transform s m = Transform s (take 64 m).
Proof.
  intros _. rewrite !Transform_block. unfold block. rewrite be_words_take; [done|].
  change (Z.to_nat (sha_w sha256_parameters / 8)) with 4%nat. lia.
Qed.

Lemma sha1_Write_represents h m data :
  represents 64 Initialize Transform h m -> length m + length data < 2 ^ 64 ->
  represents 64 Initialize Transform (Write h data) (m ++ data).
Proof. apply (Write_spec 64 Initialize Transform ltac:(lia) sha1_Transform_take Transform). done. Qed.

Lemma sha1_Finalize_represents h m :
  represents 64 Initialize Transform h m -> length m < 2 ^ 61 -> (Finalize h).1 = Sha1Spec.hash m.
Proof.
  intros Hr Hm. unfold Finalize. cbn [fst]. rewrite (rep_bytes _ _ _ _ _ Hr).
  pose proof (Finalize_pad_represents 64 Initialize Transform ltac:(lia) Write sha1_Write_represents 8
    (WriteBE64 (u64 (length m << 3))) h m ltac:(lia) ltac:(lia) ltac:(by unfold WriteBE64; rewrite length_rev, length_le_bytes)
    Hr ltac:(lia)) as Hf.
  rewrite (rep_s _ _ _ _ _ Hf), (chain_fold 64 Initialize Transform ltac:(lia) sha1_Transform_take).
  rewrite sha_pad_Finalize, (fold_blocks_ext _ block) by (done || apply Transform_block).
  unfold hash. change (0x67452301, 0xEFCDAB89, 0x98BADCFE, 0x10325476, 0xC3D2E1F0) with Initialize.
  destruct (fold_blocks _ _ _ _ _) as [[[[? ?] ?] ?] ?]. cbn [WriteBE32_all fmap list_fmap concat].
  by rewrite app_nil_r.
Qed.
End Sha1Laws.

Import Sha1.

(** Hashing with [CSHA1] is SHA-1, however the message is cut into writes. *)
Theorem CSHA1_correct (uninitialized : list Z) (chunks : list (list Z)) :
  length uninitialized = 64%nat -> length (concat chunks) < 2 ^ 61 ->
  (Finalize (foldl Write (new uninitialized) chunks)).1 = Sha1Spec.hash (concat chunks).
Proof.
  intros Hu Hl. apply Sha1Laws.sha1_Finalize_represents; [|done].
  apply (writes_represents 64 Initialize Transform ltac:(lia) Write Sha1Laws.sha1_Write_represents chunks (new uninitialized) []);
    [by apply new_represents|simpl; lia].
Qed.

Lemma CSHA1_correct_witness :
  (Finalize (foldl Write (new (replicate 64 1)) [[97]; []; [98; 99]])).1 = Sha1Spec.hash [97; 98; 99].
Proof. refine (CSHA1_correct (replicate 64 1) [[97]; []; [98; 99]] _ _); simpl; [reflexivity|lia]. Defined.

Example SHA1_abc : Sha1Spec.hash [97; 98; 99] =
  [0xa9; 0x99; 0x3e; 0x36; 0x47; 0x06; 0x81; 0x6a; 0xba; 0x3e; 0x25; 0x71; 0x78; 0x50; 0xc2; 0x6c; 0x9c; 0xd0; 0xd8; 0x9d].
Proof. vm_compute. reflexivity. Qed.
