(* ===== verification/Sha512.v ===== *)
(** * SHA-512 and its keyed form: crypto/sha512.{h,cpp} and crypto/hmac_sha512.{h,cpp}

    As for SHA-256, with 64-bit words, 128-byte blocks and eighty rounds. *)

From S2P Require Import Prelude Bytes ShaSpec BlockHash.

Module Sha512.

Definition add64 (a b : Z) : Z := u64 (a + b).
#[local] Notation "a +. b" := (add64 a b) (at level 50, left associativity).

Definition Ch (x y z : Z) : Z := z ^^ (x &&& (y ^^ z)).
Definition Maj (x y z : Z) : Z := (x &&& y) ||| (z &&& (x ||| y)).
Definition Sigma0 (x : Z) : Z := ((x >> 28) ||| u64 (x << 36)) ^^ ((x >> 34) ||| u64 (x << 30)) ^^ ((x >> 39) ||| u64 (x << 25)).
Definition Sigma1 (x : Z) : Z := ((x >> 14) ||| u64 (x << 50)) ^^ ((x >> 18) ||| u64 (x << 46)) ^^ ((x >> 41) ||| u64 (x << 23)).
Definition sigma0 (x : Z) : Z := ((x >> 1) ||| u64 (x << 63)) ^^ ((x >> 8) ||| u64 (x << 56)) ^^ (x >> 7).
Definition sigma1 (x : Z) : Z := ((x >> 19) ||| u64 (x << 45)) ^^ ((x >> 61) ||| u64 (x << 3)) ^^ (x >> 6).

(** One round: the new values of [d] and [h]. *)
Definition Round (a b c d e f g h k w : Z) : Z * Z :=
  let t1 := h +. Sigma1 e +. Ch e f g +. k +. w in
  let t2 := Sigma0 a +. Maj a b c in
  (d +. t1, t1 +. t2).

Definition state : Type := Z * Z * Z * Z * Z * Z * Z * Z.
Definition words : Type := Z * Z * Z * Z * Z * Z * Z * Z * Z * Z * Z * Z * Z * Z * Z * Z.

Definition Initialize : state :=
  (0x6a09e667f3bcc908, 0xbb67ae8584caa73b, 0x3c6ef372fe94f82b, 0xa54ff53a5f1d36f1,
   0x510e527fade682d1, 0x9b05688c2b3e6c1f, 0x1f83d9abfb41bd6b, 0x5be0cd19137e2179).

(** The five groups of sixteen rounds. *)
Definition Rounds1 (r : state) (chunk : list Z) : state * words :=
  let '(a, b, c, d, e, f, g, h) := r in
  let w0 := ReadBE64 (drop 0 chunk) in
  let '(d, h) := Round a b c d e f g h 0x428a2f98d728ae22 w0 in
  let w1 := ReadBE64 (drop 8 chunk) in
  let '(c, g) := Round h a b c d e f g 0x7137449123ef65cd w1 in
  let w2 := ReadBE64 (drop 16 chunk) in
  let '(b, f) := Round g h a b c d e f 0xb5c0fbcfec4d3b2f w2 in
  let w3 := ReadBE64 (drop 24 chunk) in
  let '(a, e) := Round f g h a b c d e 0xe9b5dba58189dbbc w3 in
  let w4 := ReadBE64 (drop 32 chunk) in
  let '(h, d) := Round e f g h a b c d 0x3956c25bf348b538 w4 in
  let w5 := ReadBE64 (drop 40 chunk) in
  let '(g, c) := Round d e f g h a b c 0x59f111f1b605d019 w5 in
  let w6 := ReadBE64 (drop 48 chunk) in
  let '(f, b) := Round c d e f g h a b 0x923f82a4af194f9b w6 in
  let w7 := ReadBE64 (drop 56 chunk) in
  let '(e, a) := Round b c d e f g h a 0xab1c5ed5da6d8118 w7 in
  let w8 := ReadBE64 (drop 64 chunk) in
  let '(d, h) := Round a b c d e f g h 0xd807aa98a3030242 w8 in
  let w9 := ReadBE64 (drop 72 chunk) in
  let '(c, g) := Round h a b c d e f g 0x12835b0145706fbe w9 in
  let w10 := ReadBE64 (drop 80 chunk) in
  let '(b, f) := Round g h a b c d e f 0x243185be4ee4b28c w10 in
  let w11 := ReadBE64 (drop 88 chunk) in
  let '(a, e) := Round f g h a b c d e 0x550c7dc3d5ffb4e2 w11 in
  let w12 := ReadBE64 (drop 96 chunk) in
  let '(h, d) := Round e f g h a b c d 0x72be5d74f27b896f w12 in
  let w13 := ReadBE64 (drop 104 chunk) in
  let '(g, c) := Round d e f g h a b c 0x80deb1fe3b1696b1 w13 in
  let w14 := ReadBE64 (drop 112 chunk) in
  let '(f, b) := Round c d e f g h a b 0x9bdc06a725c71235 w14 in
  let w15 := ReadBE64 (drop 120 chunk) in
  let '(e, a) := Round b c d e f g h a 0xc19bf174cf692694 w15 in
  ((a, b, c, d, e, f, g, h), (w0, w1, w2, w3, w4, w5, w6, w7, w8, w9, w10, w11, w12, w13, w14, w15)).

Definition Rounds2 (r : state) (w : words) : state * words :=
  let '(a, b, c, d, e, f, g, h) := r in
  let '(w0, w1, w2, w3, w4, w5, w6, w7, w8, w9, w10, w11, w12, w13, w14, w15) := w in
  let w0 := w0 +. (sigma1 w14 +. w9 +. sigma0 w1) in
  let '(d, h) := Round a b c d e f g h 0xe49b69c19ef14ad2 w0 in
  let w1 := w1 +. (sigma1 w15 +. w10 +. sigma0 w2) in
  let '(c, g) := Round h a b c d e f g 0xefbe4786384f25e3 w1 in
  let w2 := w2 +. (sigma1 w0 +. w11 +. sigma0 w3) in
  let '(b, f) := Round g h a b c d e f 0x0fc19dc68b8cd5b5 w2 in
  let w3 := w3 +. (sigma1 w1 +. w12 +. sigma0 w4) in
  let '(a, e) := Round f g h a b c d e 0x240ca1cc77ac9c65 w3 in
  let w4 := w4 +. (sigma1 w2 +. w13 +. sigma0 w5) in
  let '(h, d) := Round e f g h a b c d 0x2de92c6f592b0275 w4 in
  let w5 := w5 +. (sigma1 w3 +. w14 +. sigma0 w6) in
  let '(g, c) := Round d e f g h a b c 0x4a7484aa6ea6e483 w5 in
  let w6 := w6 +. (sigma1 w4 +. w15 +. sigma0 w7) in
  let '(f, b) := Round c d e f g h a b 0x5cb0a9dcbd41fbd4 w6 in
  let w7 := w7 +. (sigma1 w5 +. w0 +. sigma0 w8) in
  let '(e, a) := Round b c d e f g h a 0x76f988da831153b5 w7 in
  let w8 := w8 +. (sigma1 w6 +. w1 +. sigma0 w9) in
  let '(d, h) := Round a b c d e f g h 0x983e5152ee66dfab w8 in
  let w9 := w9 +. (sigma1 w7 +. w2 +. sigma0 w10) in
  let '(c, g) := Round h a b c d e f g 0xa831c66d2db43210 w9 in
  let w10 := w10 +. (sigma1 w8 +. w3 +. sigma0 w11) in
  let '(b, f) := Round g h a b c d e f 0xb00327c898fb213f w10 in
  let w11 := w11 +. (sigma1 w9 +. w4 +. sigma0 w12) in
  let '(a, e) := Round f g h a b c d e 0xbf597fc7beef0ee4 w11 in
  let w12 := w12 +. (sigma1 w10 +. w5 +. sigma0 w13) in
  let '(h, d) := Round e f g h a b c d 0xc6e00bf33da88fc2 w12 in
  let w13 := w13 +. (sigma1 w11 +. w6 +. sigma0 w14) in
  let '(g, c) := Round d e f g h a b c 0xd5a79147930aa725 w13 in
  let w14 := w14 +. (sigma1 w12 +. w7 +. sigma0 w15) in
  let '(f, b) := Round c d e f g h a b 0x06ca6351e003826f w14 in
  let w15 := w15 +. (sigma1 w13 +. w8 +. sigma0 w0) in
  let '(e, a) := Round b c d e f g h a 0x142929670a0e6e70 w15 in
  ((a, b, c, d, e, f, g, h), (w0, w1, w2, w3, w4, w5, w6, w7, w8, w9, w10, w11, w12, w13, w14, w15)).

Definition Rounds3 (r : state) (w : words) : state * words :=
  let '(a, b, c, d, e, f, g, h) := r in
  let '(w0, w1, w2, w3, w4, w5, w6, w7, w8, w9, w10, w11, w12, w13, w14, w15) := w in
  let w0 := w0 +. (sigma1 w14 +. w9 +. sigma0 w1) in
  let '(d, h) := Round a b c d e f g h 0x27b70a8546d22ffc w0 in
  let w1 := w1 +. (sigma1 w15 +. w10 +. sigma0 w2) in
  let '(c, g) := Round h a b c d e f g 0x2e1b21385c26c926 w1 in
  let w2 := w2 +. (sigma1 w0 +. w11 +. sigma0 w3) in
  let '(b, f) := Round g h a b c d e f 0x4d2c6dfc5ac42aed w2 in
  let w3 := w3 +. (sigma1 w1 +. w12 +. sigma0 w4) in
  let '(a, e) := Round f g h a b c d e 0x53380d139d95b3df w3 in
  let w4 := w4 +. (sigma1 w2 +. w13 +. sigma0 w5) in
  let '(h, d) := Round e f g h a b c d 0x650a73548baf63de w4 in
  let w5 := w5 +. (sigma1 w3 +. w14 +. sigma0 w6) in
  let '(g, c) := Round d e f g h a b c 0x766a0abb3c77b2a8 w5 in
  let w6 := w6 +. (sigma1 w4 +. w15 +. sigma0 w7) in
  let '(f, b) := Round c d e f g h a b 0x81c2c92e47edaee6 w6 in
  let w7 := w7 +. (sigma1 w5 +. w0 +. sigma0 w8) in
  let '(e, a) := Round b c d e f g h a 0x92722c851482353b w7 in
  let w8 := w8 +. (sigma1 w6 +. w1 +. sigma0 w9) in
  let '(d, h) := Round a b c d e f g h 0xa2bfe8a14cf10364 w8 in
  let w9 := w9 +. (sigma1 w7 +. w2 +. sigma0 w10) in
  let '(c, g) := Round h a b c d e f g 0xa81a664bbc423001 w9 in
  let w10 := w10 +. (sigma1 w8 +. w3 +. sigma0 w11) in
  let '(b, f) := Round g h a b c d e f 0xc24b8b70d0f89791 w10 in
  let w11 := w11 +. (sigma1 w9 +. w4 +. sigma0 w12) in
  let '(a, e) := Round f g h a b c d e 0xc76c51a30654be30 w11 in
  let w12 := w12 +. (sigma1 w10 +. w5 +. sigma0 w13) in
  let '(h, d) := Round e f g h a b c d 0xd192e819d6ef5218 w12 in
  let w13 := w13 +. (sigma1 w11 +. w6 +. sigma0 w14) in
  let '(g, c) := Round d e f g h a b c 0xd69906245565a910 w13 in
  let w14 := w14 +. (sigma1 w12 +. w7 +. sigma0 w15) in
  let '(f, b) := Round c d e f g h a b 0xf40e35855771202a w14 in
  let w15 := w15 +. (sigma1 w13 +. w8 +. sigma0 w0) in
  let '(e, a) := Round b c d e f g h a 0x106aa07032bbd1b8 w15 in
  ((a, b, c, d, e, f, g, h), (w0, w1, w2, w3, w4, w5, w6, w7, w8, w9, w10, w11, w12, w13, w14, w15)).

Definition Rounds4 (r : state) (w : words) : state * words :=
  let '(a, b, c, d, e, f, g, h) := r in
  let '(w0, w1, w2, w3, w4, w5, w6, w7, w8, w9, w10, w11, w12, w13, w14, w15) := w in
  let w0 := w0 +. (sigma1 w14 +. w9 +. sigma0 w1) in
  let '(d, h) := Round a b c d e f g h 0x19a4c116b8d2d0c8 w0 in
  let w1 := w1 +. (sigma1 w15 +. w10 +. sigma0 w2) in
  let '(c, g) := Round h a b c d e f g 0x1e376c085141ab53 w1 in
  let w2 := w2 +. (sigma1 w0 +. w11 +. sigma0 w3) in
  let '(b, f) := Round g h a b c d e f 0x2748774cdf8eeb99 w2 in
  let w3 := w3 +. (sigma1 w1 +. w12 +. sigma0 w4) in
  let '(a, e) := Round f g h a b c d e 0x34b0bcb5e19b48a8 w3 in
  let w4 := w4 +. (sigma1 w2 +. w13 +. sigma0 w5) in
  let '(h, d) := Round e f g h a b c d 0x391c0cb3c5c95a63 w4 in
  let w5 := w5 +. (sigma1 w3 +. w14 +. sigma0 w6) in
  let '(g, c) := Round d e f g h a b c 0x4ed8aa4ae3418acb w5 in
  let w6 := w6 +. (sigma1 w4 +. w15 +. sigma0 w7) in
  let '(f, b) := Round c d e f g h a b 0x5b9cca4f7763e373 w6 in
  let w7 := w7 +. (sigma1 w5 +. w0 +. sigma0 w8) in
  let '(e, a) := Round b c d e f g h a 0x682e6ff3d6b2b8a3 w7 in
  let w8 := w8 +. (sigma1 w6 +. w1 +. sigma0 w9) in
  let '(d, h) := Round a b c d e f g h 0x748f82ee5defb2fc w8 in
  let w9 := w9 +. (sigma1 w7 +. w2 +. sigma0 w10) in
  let '(c, g) := Round h a b c d e f g 0x78a5636f43172f60 w9 in
  let w10 := w10 +. (sigma1 w8 +. w3 +. sigma0 w11) in
  let '(b, f) := Round g h a b c d e f 0x84c87814a1f0ab72 w10 in
  let w11 := w11 +. (sigma1 w9 +. w4 +. sigma0 w12) in
  let '(a, e) := Round f g h a b c d e 0x8cc702081a6439ec w11 in
  let w12 := w12 +. (sigma1 w10 +. w5 +. sigma0 w13) in
  let '(h, d) := Round e f g h a b c d 0x90befffa23631e28 w12 in
  let w13 := w13 +. (sigma1 w11 +. w6 +. sigma0 w14) in
  let '(g, c) := Round d e f g h a b c 0xa4506cebde82bde9 w13 in
  let w14 := w14 +. (sigma1 w12 +. w7 +. sigma0 w15) in
  let '(f, b) := Round c d e f g h a b 0xbef9a3f7b2c67915 w14 in
  let w15 := w15 +. (sigma1 w13 +. w8 +. sigma0 w0) in
  let '(e, a) := Round b c d e f g h a 0xc67178f2e372532b w15 in
  ((a, b, c, d, e, f, g, h), (w0, w1, w2, w3, w4, w5, w6, w7, w8, w9, w10, w11, w12, w13, w14, w15)).

Definition Rounds5 (r : state) (w : words) : state :=
  let '(a, b, c, d, e, f, g, h) := r in
  let '(w0, w1, w2, w3, w4, w5, w6, w7, w8, w9, w10, w11, w12, w13, w14, w15) := w in
  let w0 := w0 +. (sigma1 w14 +. w9 +. sigma0 w1) in
  let '(d, h) := Round a b c d e f g h 0xca273eceea26619c w0 in
  let w1 := w1 +. (sigma1 w15 +. w10 +. sigma0 w2) in
  let '(c, g) := Round h a b c d e f g 0xd186b8c721c0c207 w1 in
  let w2 := w2 +. (sigma1 w0 +. w11 +. sigma0 w3) in
  let '(b, f) := Round g h a b c d e f 0xeada7dd6cde0eb1e w2 in
  let w3 := w3 +. (sigma1 w1 +. w12 +. sigma0 w4) in
  let '(a, e) := Round f g h a b c d e 0xf57d4f7fee6ed178 w3 in
  let w4 := w4 +. (sigma1 w2 +. w13 +. sigma0 w5) in
  let '(h, d) := Round e f g h a b c d 0x06f067aa72176fba w4 in
  let w5 := w5 +. (sigma1 w3 +. w14 +. sigma0 w6) in
  let '(g, c) := Round d e f g h a b c 0x0a637dc5a2c898a6 w5 in
  let w6 := w6 +. (sigma1 w4 +. w15 +. sigma0 w7) in
  let '(f, b) := Round c d e f g h a b 0x113f9804bef90dae w6 in
  let w7 := w7 +. (sigma1 w5 +. w0 +. sigma0 w8) in
  let '(e, a) := Round b c d e f g h a 0x1b710b35131c471b w7 in
  let w8 := w8 +. (sigma1 w6 +. w1 +. sigma0 w9) in
  let '(d, h) := Round a b c d e f g h 0x28db77f523047d84 w8 in
  let w9 := w9 +. (sigma1 w7 +. w2 +. sigma0 w10) in
  let '(c, g) := Round h a b c d e f g 0x32caab7b40c72493 w9 in
  let w10 := w10 +. (sigma1 w8 +. w3 +. sigma0 w11) in
  let '(b, f) := Round g h a b c d e f 0x3c9ebe0a15c9bebc w10 in
  let w11 := w11 +. (sigma1 w9 +. w4 +. sigma0 w12) in
  let '(a, e) := Round f g h a b c d e 0x431d67c49c100d4c w11 in
  let w12 := w12 +. (sigma1 w10 +. w5 +. sigma0 w13) in
  let '(h, d) := Round e f g h a b c d 0x4cc5d4becb3e42b6 w12 in
  let w13 := w13 +. (sigma1 w11 +. w6 +. sigma0 w14) in
  let '(g, c) := Round d e f g h a b c 0x597f299cfc657e2a w13 in
  let '(f, b) := Round c d e f g h a b 0x5fcb6fab3ad6faec (w14 +. sigma1 w12 +. w7 +. sigma0 w15) in
  let '(e, a) := Round b c d e f g h a 0x6c44198c4a475817 (w15 +. sigma1 w13 +. w8 +. sigma0 w0) in
  (a, b, c, d, e, f, g, h).

Definition Transform (s : state) (chunk : list Z) : state :=
  let '(s0, s1, s2, s3, s4, s5, s6, s7) := s in
  let '(r, w) := Rounds1 s chunk in
  let '(r, w) := Rounds2 r w in
  let '(r, w) := Rounds3 r w in
  let '(r, w) := Rounds4 r w in
  let '(a, b, c, d, e, f, g, h) := Rounds5 r w in
  (s0 +. a, s1 +. b, s2 +. c, s3 +. d, s4 +. e, s5 +. f, s6 +. g, s7 +. h).

(** ** The hasher: class CSHA512 *)

Definition CSHA512 : Type := hasher state.

Definition new (uninitialized : list Z) : CSHA512 := mkHasher Initialize uninitialized 0.

Definition Write (h : CSHA512) (data : list Z) : CSHA512 := BlockHash.Write 128 Transform h data.

Definition WriteBE64_all (s : state) : list Z :=
  let '(a, b, c, d, e, f, g, h) := s in
  WriteBE64 a ++ WriteBE64 b ++ WriteBE64 c ++ WriteBE64 d ++ WriteBE64 e ++ WriteBE64 f ++ WriteBE64 g ++ WriteBE64 h.

Definition Finalize (h : CSHA512) : list Z * CSHA512 :=
  let sizedesc := WriteBE64 (u64 (h_bytes h << 3)) in
  let h := Finalize_pad 128 Write 16 sizedesc h in
  (WriteBE64_all (h_s h), h).

Definition Reset (h : CSHA512) : CSHA512 := mkHasher Initialize (h_buf h) 0.

End Sha512.

(** ** The code computes the standard's hash *)

Module Sha512Laws.
Import Sha512.
#[local] Notation "a +. b" := (add64 a b) (at level 50, left associativity).
#[local] Abbreviation P := sha512_parameters.

Ltac add64_eq := unfold add64; sum_eq.

Lemma round_code512 a b c d e f g h K W :
  sha_round P (a, b, c, d, e, f, g, h) K W
  = let '(d', h') := Round a b c d e f g h K W in (h', a, b, c, d', e, f, g).
Proof.
  unfold sha_round, Round. rewrite <- fCh_select, <- fMaj_or. fold (Ch e f g) (Maj a b c).
  change (rotations P (sha_Sigma1 P) e) with (Sigma1 e). change (rotations P (sha_Sigma0 P) a) with (Sigma0 a).
  change (sha_w P) with 64. cbv zeta. repeat f_equal; add64_eq.
Qed.

Lemma next_word_code512 w0 w1 w2 w3 w4 w5 w6 w7 w8 w9 w10 w11 w12 w13 w14 w15 :
  next_word P [w0; w1; w2; w3; w4; w5; w6; w7; w8; w9; w10; w11; w12; w13; w14; w15] = w0 +. (sigma1 w14 +. w9 +. sigma0 w1).
Proof.
  unfold next_word. cbn [lookup_total list_lookup_total].
  change (rotations_shift P (sha_sigma1 P) w14) with (sigma1 w14).
  change (rotations_shift P (sha_sigma0 P) w1) with (sigma0 w1). change (sha_w P) with 64. add64_eq.
Qed.

(** the same, as the last two rounds write it *)
Lemma next_word_last w0 w1 w9 w14 :
  w0 +. (sigma1 w14 +. w9 +. sigma0 w1) = w0 +. sigma1 w14 +. w9 +. sigma0 w1.
Proof. add64_eq. Qed.

Lemma rounds_fresh512 K Ks W fresh ws a b c d e f g h :
  sha_rounds_from P (K :: Ks) (W :: fresh) ws (a, b, c, d, e, f, g, h)
  = let '(d', h') := Round a b c d e f g h K W in
    sha_rounds_from P Ks fresh (drop (length ws - 15) ws ++ [W]) (h', a, b, c, d', e, f, g).
Proof. cbn [sha_rounds_from]. rewrite round_code512. by destruct (Round _ _ _ _ _ _ _ _ _ _). Qed.

Lemma rounds_next512 K Ks w0 w1 w2 w3 w4 w5 w6 w7 w8 w9 w10 w11 w12 w13 w14 w15 a b c d e f g h :
  sha_rounds_from P (K :: Ks) [] [w0; w1; w2; w3; w4; w5; w6; w7; w8; w9; w10; w11; w12; w13; w14; w15] (a, b, c, d, e, f, g, h)
  = let w := w0 +. (sigma1 w14 +. w9 +. sigma0 w1) in
    let '(d', h') := Round a b c d e f g h K w in
    sha_rounds_from P Ks [] [w1; w2; w3; w4; w5; w6; w7; w8; w9; w10; w11; w12; w13; w14; w15; w] (h', a, b, c, d', e, f, g).
Proof.
  cbn [sha_rounds_from]. rewrite next_word_code512, round_code512. cbv zeta. by destruct (Round _ _ _ _ _ _ _ _ _ _).
Qed.

Definition K512 : list Z :=
  [0x428a2f98d728ae22; 0x7137449123ef65cd; 0xb5c0fbcfec4d3b2f; 0xe9b5dba58189dbbc; 0x3956c25bf348b538;
   0x59f111f1b605d019; 0x923f82a4af194f9b; 0xab1c5ed5da6d8118; 0xd807aa98a3030242; 0x12835b0145706fbe;
   0x243185be4ee4b28c; 0x550c7dc3d5ffb4e2; 0x72be5d74f27b896f; 0x80deb1fe3b1696b1; 0x9bdc06a725c71235;
   0xc19bf174cf692694; 0xe49b69c19ef14ad2; 0xefbe4786384f25e3; 0x0fc19dc68b8cd5b5; 0x240ca1cc77ac9c65;
   0x2de92c6f592b0275; 0x4a7484aa6ea6e483; 0x5cb0a9dcbd41fbd4; 0x76f988da831153b5; 0x983e5152ee66dfab;
   0xa831c66d2db43210; 0xb00327c898fb213f; 0xbf597fc7beef0ee4; 0xc6e00bf33da88fc2; 0xd5a79147930aa725;
   0x06ca6351e003826f; 0x142929670a0e6e70; 0x27b70a8546d22ffc; 0x2e1b21385c26c926; 0x4d2c6dfc5ac42aed;
   0x53380d139d95b3df; 0x650a73548baf63de; 0x766a0abb3c77b2a8; 0x81c2c92e47edaee6; 0x92722c851482353b;
   0xa2bfe8a14cf10364; 0xa81a664bbc423001; 0xc24b8b70d0f89791; 0xc76c51a30654be30; 0xd192e819d6ef5218;
   0xd69906245565a910; 0xf40e35855771202a; 0x106aa07032bbd1b8; 0x19a4c116b8d2d0c8; 0x1e376c085141ab53;
   0x2748774cdf8eeb99; 0x34b0bcb5e19b48a8; 0x391c0cb3c5c95a63; 0x4ed8aa4ae3418acb; 0x5b9cca4f7763e373;
   0x682e6ff3d6b2b8a3; 0x748f82ee5defb2fc; 0x78a5636f43172f60; 0x84c87814a1f0ab72; 0x8cc702081a6439ec;
   0x90befffa23631e28; 0xa4506cebde82bde9; 0xbef9a3f7b2c67915; 0xc67178f2e372532b; 0xca273eceea26619c;
   0xd186b8c721c0c207; 0xeada7dd6cde0eb1e; 0xf57d4f7fee6ed178; 0x06f067aa72176fba; 0x0a637dc5a2c898a6;
   0x113f9804bef90dae; 0x1b710b35131c471b; 0x28db77f523047d84; 0x32caab7b40c72493; 0x3c9ebe0a15c9bebc;
   0x431d67c49c100d4c; 0x4cc5d4becb3e42b6; 0x597f299cfc657e2a; 0x5fcb6fab3ad6faec; 0x6c44198c4a475817].

Lemma sha_K_K512 : sha_K P = K512.
Proof. vm_compute. reflexivity. Qed.

Lemma sha_H0_Initialize512 : working_of (sha_H0 P) = Initialize.
Proof. vm_compute. reflexivity. Qed.

Ltac round_of_rhs512 :=
  lazymatch goal with |- context [let '(_, _) := ?r in sha_rounds_from _ _ _ _ _] => destruct r as [? ?] end; cbv beta iota.
Ltac word_of_rhs512 :=
  lazymatch goal with |- context [let w := ?x in let '(_, _) := _ in sha_rounds_from _ _ _ _ _] => generalize x; intros ?; cbv zeta end.

Lemma Rounds1_code512 r chunk Ks :
  (let '(r, (w0, w1, w2, w3, w4, w5, w6, w7, w8, w9, w10, w11, w12, w13, w14, w15)) := Rounds1 r chunk in sha_rounds_from P Ks [] [w0; w1; w2; w3; w4; w5; w6; w7; w8; w9; w10; w11; w12; w13; w14; w15] r)
  = sha_rounds_from P (0x428a2f98d728ae22 :: 0x7137449123ef65cd :: 0xb5c0fbcfec4d3b2f :: 0xe9b5dba58189dbbc :: 0x3956c25bf348b538 :: 0x59f111f1b605d019 :: 0x923f82a4af194f9b :: 0xab1c5ed5da6d8118 :: 0xd807aa98a3030242 :: 0x12835b0145706fbe :: 0x243185be4ee4b28c :: 0x550c7dc3d5ffb4e2 :: 0x72be5d74f27b896f :: 0x80deb1fe3b1696b1 :: 0x9bdc06a725c71235 :: 0xc19bf174cf692694 :: Ks) (be_words P 16 chunk) [] r.
Proof.
  replace (be_words P 16 chunk) with ((λ i : nat, ReadBE64 (drop (8 * i) chunk)) <$> seq 0 16).
  2: { cbn [be_words fmap list_fmap seq]. change (Z.to_nat (sha_w P / 8)) with 8%nat.
       rewrite !drop_drop. cbn [Nat.add Nat.mul]. done. }
  destruct r as [[[[[[[a b] c] d] e] f] g] h]. unfold Rounds1. cbn [fmap list_fmap seq Nat.mul Nat.add].
  do 16 (rewrite rounds_fresh512; cbn [length Nat.sub drop app]; round_of_rhs512). reflexivity.
Qed.

Lemma Rounds2_code512 r w0 w1 w2 w3 w4 w5 w6 w7 w8 w9 w10 w11 w12 w13 w14 w15 Ks :
  (let '(r, (w0, w1, w2, w3, w4, w5, w6, w7, w8, w9, w10, w11, w12, w13, w14, w15)) := Rounds2 r (w0, w1, w2, w3, w4, w5, w6, w7, w8, w9, w10, w11, w12, w13, w14, w15) in sha_rounds_from P Ks [] [w0; w1; w2; w3; w4; w5; w6; w7; w8; w9; w10; w11; w12; w13; w14; w15] r)
  = sha_rounds_from P (0xe49b69c19ef14ad2 :: 0xefbe4786384f25e3 :: 0x0fc19dc68b8cd5b5 :: 0x240ca1cc77ac9c65 :: 0x2de92c6f592b0275 :: 0x4a7484aa6ea6e483 :: 0x5cb0a9dcbd41fbd4 :: 0x76f988da831153b5 :: 0x983e5152ee66dfab :: 0xa831c66d2db43210 :: 0xb00327c898fb213f :: 0xbf597fc7beef0ee4 :: 0xc6e00bf33da88fc2 :: 0xd5a79147930aa725 :: 0x06ca6351e003826f :: 0x142929670a0e6e70 :: Ks) [] [w0; w1; w2; w3; w4; w5; w6; w7; w8; w9; w10; w11; w12; w13; w14; w15] r.
Proof.
  destruct r as [[[[[[[a b] c] d] e] f] g] h]. cbv beta iota zeta delta [Rounds2].
  do 16 (rewrite rounds_next512; word_of_rhs512; round_of_rhs512). reflexivity.
Qed.

Lemma Rounds3_code512 r w0 w1 w2 w3 w4 w5 w6 w7 w8 w9 w10 w11 w12 w13 w14 w15 Ks :
  (let '(r, (w0, w1, w2, w3, w4, w5, w6, w7, w8, w9, w10, w11, w12, w13, w14, w15)) := Rounds3 r (w0, w1, w2, w3, w4, w5, w6, w7, w8, w9, w10, w11, w12, w13, w14, w15) in sha_rounds_from P Ks [] [w0; w1; w2; w3; w4; w5; w6; w7; w8; w9; w10; w11; w12; w13; w14; w15] r)
  = sha_rounds_from P (0x27b70a8546d22ffc :: 0x2e1b21385c26c926 :: 0x4d2c6dfc5ac42aed :: 0x53380d139d95b3df :: 0x650a73548baf63de :: 0x766a0abb3c77b2a8 :: 0x81c2c92e47edaee6 :: 0x92722c851482353b :: 0xa2bfe8a14cf10364 :: 0xa81a664bbc423001 :: 0xc24b8b70d0f89791 :: 0xc76c51a30654be30 :: 0xd192e819d6ef5218 :: 0xd69906245565a910 :: 0xf40e35855771202a :: 0x106aa07032bbd1b8 :: Ks) [] [w0; w1; w2; w3; w4; w5; w6; w7; w8; w9; w10; w11; w12; w13; w14; w15] r.
Proof.
  destruct r as [[[[[[[a b] c] d] e] f] g] h]. cbv beta iota zeta delta [Rounds3].
  do 16 (rewrite rounds_next512; word_of_rhs512; round_of_rhs512). reflexivity.
Qed.

Lemma Rounds4_code512 r w0 w1 w2 w3 w4 w5 w6 w7 w8 w9 w10 w11 w12 w13 w14 w15 Ks :
  (let '(r, (w0, w1, w2, w3, w4, w5, w6, w7, w8, w9, w10, w11, w12, w13, w14, w15)) := Rounds4 r (w0, w1, w2, w3, w4, w5, w6, w7, w8, w9, w10, w11, w12, w13, w14, w15) in sha_rounds_from P Ks [] [w0; w1; w2; w3; w4; w5; w6; w7; w8; w9; w10; w11; w12; w13; w14; w15] r)
  = sha_rounds_from P (0x19a4c116b8d2d0c8 :: 0x1e376c085141ab53 :: 0x2748774cdf8eeb99 :: 0x34b0bcb5e19b48a8 :: 0x391c0cb3c5c95a63 :: 0x4ed8aa4ae3418acb :: 0x5b9cca4f7763e373 :: 0x682e6ff3d6b2b8a3 :: 0x748f82ee5defb2fc :: 0x78a5636f43172f60 :: 0x84c87814a1f0ab72 :: 0x8cc702081a6439ec :: 0x90befffa23631e28 :: 0xa4506cebde82bde9 :: 0xbef9a3f7b2c67915 :: 0xc67178f2e372532b :: Ks) [] [w0; w1; w2; w3; w4; w5; w6; w7; w8; w9; w10; w11; w12; w13; w14; w15] r.
Proof.
  destruct r as [[[[[[[a b] c] d] e] f] g] h]. cbv beta iota zeta delta [Rounds4].
  do 16 (rewrite rounds_next512; word_of_rhs512; round_of_rhs512). reflexivity.
Qed.

Lemma Rounds5_code512 r w0 w1 w2 w3 w4 w5 w6 w7 w8 w9 w10 w11 w12 w13 w14 w15 :
  Rounds5 r (w0, w1, w2, w3, w4, w5, w6, w7, w8, w9, w10, w11, w12, w13, w14, w15)
  = sha_rounds_from P (0xca273eceea26619c :: 0xd186b8c721c0c207 :: 0xeada7dd6cde0eb1e :: 0xf57d4f7fee6ed178 :: 0x06f067aa72176fba :: 0x0a637dc5a2c898a6 :: 0x113f9804bef90dae :: 0x1b710b35131c471b :: 0x28db77f523047d84 :: 0x32caab7b40c72493 :: 0x3c9ebe0a15c9bebc :: 0x431d67c49c100d4c :: 0x4cc5d4becb3e42b6 :: 0x597f299cfc657e2a :: 0x5fcb6fab3ad6faec :: 0x6c44198c4a475817 :: []) [] [w0; w1; w2; w3; w4; w5; w6; w7; w8; w9; w10; w11; w12; w13; w14; w15] r.
Proof.
  destruct r as [[[[[[[a b] c] d] e] f] g] h]. cbv beta iota zeta delta [Rounds5].
  do 14 (rewrite rounds_next512; word_of_rhs512; round_of_rhs512).
  do 2 (rewrite rounds_next512, next_word_last; word_of_rhs512; round_of_rhs512). reflexivity.
Qed.

Lemma rounds_of_Transform512 s chunk :
  (let '(r, w) := Rounds1 s chunk in
   let '(r, w) := Rounds2 r w in
   let '(r, w) := Rounds3 r w in
   let '(r, w) := Rounds4 r w in Rounds5 r w)
  = sha_rounds_from P K512 (be_words P 16 chunk) [] s.
Proof.
  unfold K512. rewrite <- Rounds1_code512. destruct (Rounds1 s chunk) as [r1 [[[[[[[[[[[[[[[? ?] ?] ?] ?] ?] ?] ?] ?] ?] ?] ?] ?] ?] ?] ?]].
  rewrite <- Rounds2_code512. destruct (Rounds2 _ _) as [r2 [[[[[[[[[[[[[[[? ?] ?] ?] ?] ?] ?] ?] ?] ?] ?] ?] ?] ?] ?] ?]].
  rewrite <- Rounds3_code512. destruct (Rounds3 _ _) as [r3 [[[[[[[[[[[[[[[? ?] ?] ?] ?] ?] ?] ?] ?] ?] ?] ?] ?] ?] ?] ?]].
  rewrite <- Rounds4_code512. destruct (Rounds4 _ _) as [r4 [[[[[[[[[[[[[[[? ?] ?] ?] ?] ?] ?] ?] ?] ?] ?] ?] ?] ?] ?] ?]].
  by rewrite <- Rounds5_code512.
Qed.

Lemma Transform_fips512 s chunk : Transform s chunk = sha_block P s chunk.
Proof.
  unfold sha_block. rewrite sha_K_K512, <- rounds_of_Transform512. unfold Transform.
  destruct s as [[[[[[[? ?] ?] ?] ?] ?] ?] ?].
  destruct (Rounds1 _ _) as [r1 w1], (Rounds2 r1 w1) as [r2 w2], (Rounds3 r2 w2) as [r3 w3],
    (Rounds4 r3 w3) as [r4 w4], (Rounds5 r4 w4) as [[[[[[[? ?] ?] ?] ?] ?] ?] ?]. reflexivity.
Qed.

Lemma sha512_Transform_take s m : (128 <= length m)%nat -> Transform s m = Transform s (take 128 m).
Proof.
  intros _. rewrite (Transform_fips512 s m), (Transform_fips512 s (take 128 m)). symmetry. apply sha_block_take.
  change (Z.to_nat (sha_w P / 8)) with 8%nat. lia.
Qed.

#[global] Abbreviation represents := (represents 128 Initialize Transform).

Lemma sha512_Write_represents h m data :
  represents h m -> length m + length data < 2 ^ 64 -> represents (Write h data) (m ++ data).
Proof. apply (Write_spec 128 Initialize Transform ltac:(lia) sha512_Transform_take Transform). done. Qed.

(** the sixteen bytes of the length *)
Lemma sha_pad_Finalize512 m :
  length m < 2 ^ 61 ->
  m ++ [0x80] ++ replicate (pad_zeros 128 16 m) 0 ++ replicate (16 - 8) 0 ++ WriteBE64 (u64 (length m << 3))
  = sha_pad P m.
Proof.
  intros Hm. unfold sha_pad, WriteBE64. rewrite Z.shiftl_mul_pow2, u64_small by lia.
  change (Z.to_nat (sha_w P / 4)) with (8 + 8)%nat. rewrite le_bytes_app, rev_app_distr.
  replace (rev (le_bytes 8 ((8 * length m) >> (8 * 8%nat)))) with (replicate (16 - 8) 0).
  2: { rewrite Z.shiftr_div_pow2, Z.div_small by lia. reflexivity. }
  replace (length m * 2 ^ 3) with (8 * length m) by lia. reflexivity.
Qed.

Lemma sha512_Finalize_represents h m :
  represents h m -> length m < 2 ^ 61 -> (Finalize h).1 = SHA512 m.
Proof.
  intros Hr Hm. unfold Finalize. cbn [fst]. rewrite (rep_bytes _ _ _ _ _ Hr).
  pose proof (Finalize_pad_represents 128 Initialize Transform ltac:(lia) Write sha512_Write_represents 16
    (WriteBE64 (u64 (length m << 3))) h m ltac:(lia) ltac:(lia) ltac:(by unfold WriteBE64; rewrite length_rev, length_le_bytes)
    Hr ltac:(lia)) as Hf.
  rewrite (rep_s _ _ _ _ _ Hf), (chain_fold 128 Initialize Transform ltac:(lia) sha512_Transform_take).
  rewrite sha_pad_Finalize512 by exact Hm. rewrite (fold_blocks_ext _ (sha_block P)) by apply Transform_fips512.
  unfold SHA512, sha_hash. rewrite sha_H0_Initialize512. change (Z.to_nat (2 * sha_w P)) with 128%nat.
  destruct (fold_blocks _ _ _ _ _) as [[[[[[[? ?] ?] ?] ?] ?] ?] ?].
  unfold digest. change (Z.to_nat (sha_w P / 8)) with 8%nat. cbn [WriteBE64_all working_list fmap list_fmap concat].
  by rewrite app_nil_r.
Qed.
End Sha512Laws.

Import Sha512.

(** Hashing with [CSHA512] is SHA-512, however the message is cut into writes. *)
Theorem CSHA512_correct (uninitialized : list Z) (chunks : list (list Z)) :
  length uninitialized = 128%nat -> length (concat chunks) < 2 ^ 61 ->
  (Finalize (foldl Write (new uninitialized) chunks)).1 = SHA512 (concat chunks).
Proof.
  intros Hu Hl. apply Sha512Laws.sha512_Finalize_represents; [|done].
  apply (writes_represents 128 Initialize Transform ltac:(lia) Write Sha512Laws.sha512_Write_represents chunks (new uninitialized) []);
    [by apply new_represents|simpl; lia].
Qed.

Lemma CSHA512_correct_witness :
  (Finalize (foldl Write (new (replicate 128 1)) [[97]; []; [98; 99]])).1 = SHA512 [97; 98; 99].
Proof. refine (CSHA512_correct (replicate 128 1) [[97]; []; [98; 99]] _ _); simpl; [reflexivity|lia]. Defined.
