(* ===== verification/Hash.v ===== *)
(** * Hashing of objects: hash.h, crypto/hmac_sha256, crypto/hmac_sha512

    The two compound hashers, the functions [Hash] and [Hash160], the stream that hashes what is
    serialized to it, the stream that hashes what is read from it, and the keyed hashers.

    [HashLaws] is what a hash function promises to its users: a relation between a hasher object
    and the message it was given.  The four hashers of src/crypto are instances. *)

From S2P Require Import Prelude Bytes Streams Serialize SerializeLaws SerializeCodecs ShaSpec BlockHash Sha256 Sha256Laws Ripemd160 Sha1 Sha512.

(** ** The interface of a hasher *)

Record hash_ops (T : Type) := HashOps {
  op_new : list Z -> T;               (** the constructor, over an uninitialised buffer *)
  op_Write : T -> list Z -> T;
  op_Finalize : T -> list Z * T;
  op_Reset : T -> T;
}.
Arguments HashOps {T} _ _ _ _.
Arguments op_new {T} _ _.
Arguments op_Write {T} _ _ _.
Arguments op_Finalize {T} _ _.
Arguments op_Reset {T} _ _.

Class HashLaws {T : Type} (ops : hash_ops T) (buffer : nat) (H : list Z -> list Z) := {
  hash_of : T -> list Z -> Prop;
  hash_of_new buf : length buf = buffer -> hash_of (op_new ops buf) [];
  hash_of_Write h m data :
    hash_of h m -> length m + length data < 2 ^ 64 -> hash_of (op_Write ops h data) (m ++ data);
  hash_of_Finalize h m : hash_of h m -> length m < 2 ^ 61 -> (op_Finalize ops h).1 = H m;
  hash_of_Reset h m : hash_of h m -> length m < 2 ^ 61 -> hash_of (op_Reset ops (op_Finalize ops h).2) [];
}.

Section use.
Context {T : Type} (ops : hash_ops T) (buffer : nat) (H : list Z -> list Z) `{HL : !HashLaws ops buffer H}.

Lemma hash_of_Writes h m chunks :
  hash_of h m -> length m + length (concat chunks) < 2 ^ 64 ->
  hash_of (foldl (op_Write ops) h chunks) (m ++ concat chunks).
Proof.
  revert h m. induction chunks as [|c chunks IH]; intros h m Hh Hl; cbn [foldl concat] in *.
  - by rewrite app_nil_r.
  - rewrite length_app in Hl. rewrite app_assoc.
    apply IH; [apply hash_of_Write; [done|lia]|rewrite length_app; lia].
Qed.
End use.

(** ** The hashers of src/crypto *)

Definition sha256_ops (D : Sha256.dispatch) : hash_ops Sha256.CSHA256 :=
  HashOps Sha256.new (Sha256.Write D) (Sha256.Finalize D) Sha256.Reset.
Definition sha512_ops : hash_ops Sha512.CSHA512 := HashOps Sha512.new Sha512.Write Sha512.Finalize Sha512.Reset.
Definition sha1_ops : hash_ops Sha1.CSHA1 := HashOps Sha1.new Sha1.Write Sha1.Finalize Sha1.Reset.
Definition ripemd160_ops : hash_ops Ripemd160.CRIPEMD160 :=
  HashOps Ripemd160.new Ripemd160.Write Ripemd160.Finalize Ripemd160.Reset.

(** a finished hasher still has a buffer of the right size, so [Reset] makes it new *)
Lemma Reset_represents {St} (B : nat) (init : St) body write (L : nat) sizedesc h m :
  (0 < B)%nat ->
  (forall h m data, represents B init body h m -> length m + length data < 2 ^ 64 ->
     represents B init body (write h data) (m ++ data)) ->
  (8 <= L)%nat -> (L + 1 <= B)%nat -> length sizedesc = 8%nat -> B < 2 ^ 32 ->
  represents B init body h m -> length m < 2 ^ 61 ->
  represents B init body (mkHasher init (h_buf (Finalize_pad B write L sizedesc h)) 0) [].
Proof.
  intros HB Hw HL HLB Hs HB32 Hr Hm. apply new_represents.
  eapply rep_length. apply (Finalize_pad_represents B init body HB write Hw L sizedesc h m); try done. lia.
Qed.

#[export] Instance sha256_laws D `{!GoodDispatch D} : HashLaws (sha256_ops D) 64 SHA256.
Proof.
  refine {| hash_of := BlockHash.represents 64 Sha256.Initialize Sha256.Transform1 : Sha256.CSHA256 -> _ |}.
  - intros buf Hb. by apply new_represents.
  - apply Write_represents, _.
  - intros h m. apply Finalize_SHA256, _.
  - intros h m Hh Hm. apply (Reset_represents 64 _ _ _ _ _ h m); try (done || lia).
    apply Write_represents, _.
Defined.

#[export] Instance sha512_laws : HashLaws sha512_ops 128 SHA512.
Proof.
  refine {| hash_of := BlockHash.represents 128 Sha512.Initialize Sha512.Transform : Sha512.CSHA512 -> _ |}.
  - intros buf Hb. by apply new_represents.
  - apply Sha512Laws.sha512_Write_represents.
  - intros h m. apply Sha512Laws.sha512_Finalize_represents.
  - intros h m Hh Hm. apply (Reset_represents 128 _ _ _ _ _ h m); try (done || lia).
    apply Sha512Laws.sha512_Write_represents.
Defined.

#[export] Instance sha1_laws : HashLaws sha1_ops 64 Sha1Spec.hash.
Proof.
  refine {| hash_of := BlockHash.represents 64 Sha1.Initialize Sha1.Transform : Sha1.CSHA1 -> _ |}.
  - intros buf Hb. by apply new_represents.
  - apply Sha1Laws.sha1_Write_represents.
  - intros h m. apply Sha1Laws.sha1_Finalize_represents.
  - intros h m Hh Hm. apply (Reset_represents 64 _ _ _ _ _ h m); try (done || lia).
    apply Sha1Laws.sha1_Write_represents.
Defined.

#[export] Instance ripemd160_laws : HashLaws ripemd160_ops 64 RmdSpec.hash.
Proof.
  refine {| hash_of := BlockHash.represents 64 Ripemd160.Initialize Ripemd160.Transform : Ripemd160.CRIPEMD160 -> _ |}.
  - intros buf Hb. by apply new_represents.
  - apply RmdLaws.rmd_Write_represents.
  - intros h m. apply RmdLaws.rmd_Finalize_represents.
  - intros h m Hh Hm. apply (Reset_represents 64 _ _ _ _ _ h m); try (done || lia).
    apply RmdLaws.rmd_Write_represents.
Defined.

(** ** The compound hashers

    A constructed hasher's buffer holds whatever was in memory; it is zero here, and
    [hash_of_new] shows that this does not matter. *)

Section hash.
Context (D : Sha256.dispatch).

(** class CHash256 *)
Definition CHash256 : Type := Sha256.CSHA256.
Definition CHash256_new : CHash256 := Sha256.new (replicate 64 0).
Definition CHash256_Write (sha : CHash256) (data : list Z) : CHash256 := Sha256.Write D sha data.
Definition CHash256_Finalize (sha : CHash256) : list Z * CHash256 :=
  let '(buf, sha) := Sha256.Finalize D sha in
  Sha256.Finalize D (Sha256.Write D (Sha256.Reset sha) buf).
Definition CHash256_Reset (sha : CHash256) : CHash256 := Sha256.Reset sha.

(** class CHash160 *)
Definition CHash160 : Type := Sha256.CSHA256.
Definition CHash160_new : CHash160 := Sha256.new (replicate 64 0).
Definition CHash160_Write (sha : CHash160) (data : list Z) : CHash160 := Sha256.Write D sha data.
Definition CHash160_Finalize (sha : CHash160) : list Z * CHash160 :=
  let '(buf, sha) := Sha256.Finalize D sha in
  ((Ripemd160.Finalize (Ripemd160.Write (Ripemd160.new (replicate 64 0)) buf)).1, sha).
Definition CHash160_Reset (sha : CHash160) : CHash160 := Sha256.Reset sha.

(** The overloads of [Hash] for one to six ranges. *)
Definition Hash (ranges : list (list Z)) : list Z :=
  (CHash256_Finalize (foldl CHash256_Write CHash256_new ranges)).1.
Definition Hash160 (range : list Z) : list Z := (CHash160_Finalize (CHash160_Write CHash160_new range)).1.

(** ** A stream that hashes what is written to it: class CHashWriter *)

Record CHashWriter := mkCHashWriter { ctx : CHash256; hw_nType : Z; hw_nVersion : Z }.

Definition CHashWriter_new (nTypeIn nVersionIn : Z) : CHashWriter := mkCHashWriter CHash256_new nTypeIn nVersionIn.
Definition CHashWriter_write (pch : list Z) (w : CHashWriter) : CHashWriter :=
  mkCHashWriter (CHash256_Write (ctx w) pch) (hw_nType w) (hw_nVersion w).
Definition CHashWriter_GetHash (w : CHashWriter) : list Z := (CHash256_Finalize (ctx w)).1.

Context `{HD : !GoodDispatch D}.

#[local] Abbreviation hashed := (hash_of (ops:=sha256_ops D)).

#[export] Instance CHashWriter_ostream : OStream CHashWriter := {|
  os_write b w := (Ok tt, CHashWriter_write b w);
  os_appends b w w' := forall m, hashed (ctx w) m -> length m + length b < 2 ^ 61 -> hashed (ctx w') (m ++ b);
  os_room b w := exists m, hashed (ctx w) m /\ length m + length b < 2 ^ 61;
|}.

(** [SerializeHash] *)
Definition SerializeHash {T} (c : codec T) (obj : T) (nType nVersion : Z) : list Z :=
  let '(_, ss) := Serialize c (S:=CHashWriter) obj (CHashWriter_new nType nVersion) in
  CHashWriter_GetHash ss.

(** ** A stream that hashes what is read from it: class CHashVerifier *)

Context {Source : Type} `{HS : IStream Source}.

Definition CHashVerifier : Type := CHashWriter * Source.

Definition CHashVerifier_read (nSize : Z) : action CHashVerifier (list Z) := λ '(w, source),
  match is_read nSize source with
  | (Ok pch, source) => (Ok pch, (CHashWriter_write pch w, source))
  | (Throw msg, source) => (Throw msg, (w, source))
  end.

(** Every round of the loop of [ignore] reads at least one byte, so [nSize] rounds are enough. *)
Fixpoint CHashVerifier_ignore_loop (fuel : nat) (nSize : Z) : action CHashVerifier unit :=
  match fuel with
  | O => mret tt
  | S fuel =>
      if 0 <? nSize then
        let now := Z.min nSize 1024 in
        _ ← CHashVerifier_read now; CHashVerifier_ignore_loop fuel (nSize - now)
      else mret tt
  end.
Definition CHashVerifier_ignore (nSize : Z) : action CHashVerifier unit :=
  CHashVerifier_ignore_loop (Z.to_nat nSize) nSize.

Definition CHashVerifier_GetHash (v : CHashVerifier) : list Z := CHashWriter_GetHash v.1.
End hash.

Arguments CHashVerifier Source : clear implicits.

(** ** Keyed hashing: CHMAC_SHA256 and CHMAC_SHA512

    The two classes have the same text up to the hasher, its block size [B] and its output size. *)

Section hmac.
Context {T : Type} (ops : hash_ops T) (B OUT : nat).

Record CHMAC := mkCHMAC { outer : T; inner : T }.

Definition CHMAC_new (key : list Z) : CHMAC :=
  let rkey :=
    if (length key <=? B)%nat then key ++ replicate (B - length key) 0
    else (op_Finalize ops (op_Write ops (op_new ops (replicate B 0)) key)).1 ++ replicate (B - OUT) 0 in
  let rkey := (λ x, x ^^ 0x5c) <$> rkey in
  let outer := op_Write ops (op_new ops (replicate B 0)) rkey in
  let rkey := (λ x, x ^^ (0x5c ^^ 0x36)) <$> rkey in
  let inner := op_Write ops (op_new ops (replicate B 0)) rkey in
  mkCHMAC outer inner.
Definition CHMAC_Write (h : CHMAC) (data : list Z) : CHMAC := mkCHMAC (outer h) (op_Write ops (inner h) data).
Definition CHMAC_Finalize (h : CHMAC) : list Z * CHMAC :=
  let '(temp, inner) := op_Finalize ops (inner h) in
  let '(hash, outer) := op_Finalize ops (op_Write ops (outer h) temp) in
  (hash, mkCHMAC outer inner).
End hmac.

Definition CHMAC_SHA256 (D : Sha256.dispatch) (key : list Z) : CHMAC := CHMAC_new (sha256_ops D) 64 32 key.
Definition CHMAC_SHA512 (key : list Z) : CHMAC := CHMAC_new sha512_ops 128 64 key.

(** [BIP32Hash] *)
Definition BIP32Hash (chainCode : list Z) (nChild header : Z) (data : list Z) : list Z :=
  let num := [(nChild >> 24) &&& 0xFF; (nChild >> 16) &&& 0xFF; (nChild >> 8) &&& 0xFF; (nChild >> 0) &&& 0xFF] in
  (CHMAC_Finalize sha512_ops (foldl (CHMAC_Write sha512_ops) (CHMAC_SHA512 chainCode) [[header]; data; num])).1.

(** HMAC (RFC 2104) over a hash with blocks of [B] bytes *)
Definition HMAC (H : list Z -> list Z) (B : nat) (key m : list Z) : list Z :=
  let k := if (length key <=? B)%nat then key else H key in
  let K0 := k ++ replicate (B - length k) 0 in
  H (((λ x, x ^^ 0x5c) <$> K0) ++ H (((λ x, x ^^ 0x36) <$> K0) ++ m)).

(** ** Laws *)

Lemma length_SHA256 m : length (SHA256 m) = 32%nat.
Proof. unfold SHA256, sha_hash. rewrite digest_WriteBE32_all. apply length_WriteBE32_all. Qed.

Lemma length_SHA512 m : length (SHA512 m) = 64%nat.
Proof.
  unfold SHA512, sha_hash, digest. destruct (fold_blocks _ _ _ _ _) as [[[[[[[? ?] ?] ?] ?] ?] ?] ?].
  reflexivity.
Qed.

Section laws.
Context (D : Sha256.dispatch) `{HD : !GoodDispatch D}.
#[local] Abbreviation hashed := (hash_of (ops:=sha256_ops D)).

Lemma hashed_new : hashed CHash256_new [].
Proof. by apply (hash_of_new (ops:=sha256_ops D)). Qed.

Lemma CHash256_Finalize_spec h m : hashed h m -> length m < 2 ^ 61 -> (CHash256_Finalize D h).1 = SHA256d m.
Proof.
  intros Hh Hm. unfold CHash256_Finalize, SHA256d.
  assert (E : (Sha256.Finalize D h).1 = SHA256 m) by exact (hash_of_Finalize (ops:=sha256_ops D) h m Hh Hm).
  assert (Hr : hashed (Sha256.Reset (Sha256.Finalize D h).2) []) by exact (hash_of_Reset (ops:=sha256_ops D) h m Hh Hm).
  destruct (Sha256.Finalize D h) as [buf sha]. cbn [fst snd] in *. rewrite E.
  pose proof (length_SHA256 m) as Hl.
  apply (hash_of_Finalize (ops:=sha256_ops D)); [|lia].
  apply (hash_of_Write (ops:=sha256_ops D) (Sha256.Reset sha) []); [done|simpl; lia].
Qed.

Lemma CHash160_Finalize_spec h m : hashed h m -> length m < 2 ^ 61 -> (CHash160_Finalize D h).1 = RmdSpec.hash (SHA256 m).
Proof.
  intros Hh Hm. unfold CHash160_Finalize.
  assert (E : (Sha256.Finalize D h).1 = SHA256 m) by exact (hash_of_Finalize (ops:=sha256_ops D) h m Hh Hm).
  destruct (Sha256.Finalize D h) as [buf sha]. cbn [fst snd] in *. rewrite E.
  pose proof (length_SHA256 m) as Hl.
  apply (hash_of_Finalize (ops:=ripemd160_ops)); [|lia].
  apply (hash_of_Write (ops:=ripemd160_ops) (Ripemd160.new (replicate 64 0)) []); [|simpl; lia].
  by apply (hash_of_new (ops:=ripemd160_ops)).
Qed.

(** [Hash] of any ranges is the double SHA-256 of their concatenation, and [Hash160] is RIPEMD-160
    of SHA-256. *)
Lemma Hash_spec ranges : length (concat ranges) < 2 ^ 61 -> Hash D ranges = SHA256d (concat ranges).
Proof.
  intros Hl. apply CHash256_Finalize_spec; [|done].
  apply (hash_of_Writes (sha256_ops D) 64 SHA256 CHash256_new []); [apply hashed_new|simpl; lia].
Qed.

Lemma Hash160_spec range : length range < 2 ^ 61 -> Hash160 D range = RmdSpec.hash (SHA256 range).
Proof.
  intros Hl. apply CHash160_Finalize_spec; [|done].
  apply (hash_of_Write (ops:=sha256_ops D) CHash160_new []); [apply hashed_new|simpl; lia].
Qed.

#[export] Instance CHashWriter_olaws : OStreamLaws CHashWriter.
Proof.
  split.
  - intros b w _. eexists. split; [done|]. intros m Hm Hl.
    apply (hash_of_Write (ops:=sha256_ops D)); [done|lia].
  - intros b c w (m & Hm & Hl). rewrite length_app in Hl. split; [exists m; split; [done|lia]|].
    intros w' Hw. exists (m ++ b). split; [apply Hw; [done|lia]|]. rewrite length_app. lia.
  - intros w _ m Hm _. by rewrite app_nil_r.
  - intros b c w w1 w2 _ H1 H2 m Hm Hl. rewrite length_app in Hl. rewrite app_assoc.
    apply H2; [apply H1; [done|lia]|rewrite length_app; lia].
Qed.

Lemma SerializeHash_spec {T} (c : codec T) `{!CodecLaws c} (obj : T) nType nVersion :
  representable c obj -> length (encoding c obj) < 2 ^ 61 ->
  SerializeHash D c obj nType nVersion = SHA256d (encoding c obj).
Proof.
  intros Hr Hl. unfold SerializeHash.
  destruct (Serialize_emits (c:=c) (S:=CHashWriter) obj Hr (CHashWriter_new nType nVersion)) as (w & -> & Hw).
  { exists []. split; [apply hashed_new|]. simpl. lia. }
  apply (CHash256_Finalize_spec (ctx w) (encoding c obj)); [|done].
  apply (Hw []); [apply hashed_new|]. simpl. lia.
Qed.
End laws.

(** ** Reading through a verifier *)

Section verifier.
Context (D : Sha256.dispatch) `{HD : !GoodDispatch D} {Source : Type} `{HS : IStream Source} {HSL : IStreamLaws Source}.
Context (total : list Z) (Htotal : length total < 2 ^ 61).
#[local] Abbreviation hashed := (hash_of (ops:=sha256_ops D)).

(** what was read so far is what was hashed, and [total] is that and what is still to be read *)
#[local] Instance CHashVerifier_istream : IStream (CHashVerifier Source) := {|
  is_read := CHashVerifier_read D;
  is_pending v := is_pending v.2;
  is_ok v := is_ok v.2 /\ exists m, hashed (ctx v.1) m /\ total = m ++ is_pending v.2;
|}.

#[local] Instance CHashVerifier_ilaws : IStreamLaws (CHashVerifier Source).
Proof.
  split.
  - intros n [w s] (Hs & m & Hm & Ht) Hn Hl. cbn [is_pending CHashVerifier_istream snd fst] in *.
    destruct (is_read_ok n s Hs Hn Hl) as (s' & E & Hs' & Hp'). eexists.
    cbn [is_read CHashVerifier_istream]. unfold CHashVerifier_read. rewrite E. split; [done|].
    cbn [snd fst is_ok is_pending CHashVerifier_istream]. split_and!; [done| |done].
    eexists. split; [apply (hash_of_Write (ops:=sha256_ops D)); [exact Hm|]|].
    + apply (f_equal length) in Ht. rewrite length_app in Ht. rewrite length_take. lia.
    + by rewrite Hp', <- app_assoc, take_drop.
  - intros n [w s] (Hs & _) Hn Hl. destruct (is_read_end n s Hs Hn Hl) as (msg & s' & E).
    cbn [is_read CHashVerifier_istream]. unfold CHashVerifier_read. rewrite E. eauto.
  - intros [w s] (Hs & _). by apply (is_ok_bytes (S:=Source)).
Qed.

Lemma verifier_reads {T} (c : codec T) `{!CodecLaws c} (obj : T) rest (s : Source) nType nVersion :
  representable c obj -> is_ok s -> is_pending s = encoding c obj ++ rest -> total = encoding c obj ++ rest ->
  exists v, Unserialize c (S:=CHashVerifier Source) (CHashWriter_new nType nVersion, s) = (Ok obj, v) /\
    is_pending v.2 = rest /\ CHashVerifier_GetHash D v = SHA256d (encoding c obj).
Proof.
  intros Hr Hs Hp Ht.
  destruct (Unserialize_parses (c:=c) (S:=CHashVerifier Source) obj Hr (CHashWriter_new nType nVersion, s) rest)
    as (v & E & (Hv & m & Hm & Hmt) & Hvp); [|done|].
  { split; [done|]. exists []. split; [apply (hashed_new D)|]. cbn. congruence. }
  exists v. split_and!; [done..|]. cbn [is_pending CHashVerifier_istream] in *.
  rewrite Hvp, Ht in Hmt. apply app_inv_tail in Hmt as <-.
  apply (CHash256_Finalize_spec D); [done|]. apply (f_equal length) in Ht. rewrite length_app in Ht. lia.
Qed.
End verifier.

(** An object hashes the same on its way out and on its way in.  For every lawful type
    [SerializeHash] is the double SHA-256 of the bytes [Serialize] writes to an ordinary stream, and
    reading those bytes back through a [CHashVerifier] returns the object, leaves what follows
    it unread, and has the same hash to offer; this whatever lawful implementation of SHA-256
    is dispatched to. *)
Theorem SerializeHash_verified (D : Sha256.dispatch) `{HD : !GoodDispatch D} {T} (c : codec T) `{!CodecLaws c}
    (obj : T) {Source} `{IStreamLaws Source} (s : Source) (rest : list Z) (nType nVersion : Z) :
  let b := written (Serialize c obj) in
  representable c obj -> length (b ++ rest) < 2 ^ 61 -> is_ok s -> is_pending s = b ++ rest ->
  SerializeHash D c obj nType nVersion = SHA256d b /\
  exists v, Unserialize c (H:=CHashVerifier_istream D (b ++ rest)) (CHashWriter_new nType nVersion, s) = (Ok obj, v) /\
    is_pending v.2 = rest /\ CHashVerifier_GetHash D v = SerializeHash D c obj nType nVersion.
Proof.
  intros b Hr Hl Hs Hp. assert (Hb : b = encoding c obj) by (by apply emits_written, Serialize_emits).
  rewrite Hb in *. assert (E : SerializeHash D c obj nType nVersion = SHA256d (encoding c obj)).
  { apply SerializeHash_spec; [done|]. rewrite length_app in Hl. lia. }
  rewrite E. split; [done|]. by apply verifier_reads.
Qed.

Lemma SerializeHash_verified_witness :
  SerializeHash Sha256.standard codec_uint16 0x0201 1 70219 = SHA256d [1; 2] /\
  exists v, Unserialize codec_uint16 (H:=CHashVerifier_istream Sha256.standard [1; 2; 9])
      (CHashWriter_new 1 70219, DataStream.new [1; 2; 9] 1 70219) = (Ok 0x0201, v) /\
    is_pending v.2 = [9] /\
    CHashVerifier_GetHash Sha256.standard v = SerializeHash Sha256.standard codec_uint16 0x0201 1 70219.
Proof.
  refine (SerializeHash_verified Sha256.standard codec_uint16 0x0201 (DataStream.new [1; 2; 9] 1 70219) [9] 1 70219 _ _ _ _).
  - simpl. unfold in_uint. lia.
  - vm_compute. reflexivity.
  - repeat split; simpl; try lia. unfold bytes, in_uint. repeat constructor; lia.
  - vm_compute. reflexivity.
Defined.

(** ** Keyed hashing *)

Section hmac_laws.
Context {T : Type} (ops : hash_ops T) (B OUT : nat) (H : list Z -> list Z) `{HL : !HashLaws ops B H}.
Context (HOUT : forall m, length (H m) = OUT) (HB : (OUT <= B)%nat) (HB32 : B < 2 ^ 32).

Lemma pads_agree x : (x ^^ 0x5c) ^^ (0x5c ^^ 0x36) = x ^^ 0x36.
Proof. rewrite Z.lxor_assoc, <- (Z.lxor_assoc 0x5c 0x5c), Z.lxor_nilpotent. done. Qed.

Lemma fresh_Write data :
  length data < 2 ^ 64 -> hash_of (op_Write ops (op_new ops (replicate B 0)) data) data.
Proof.
  intros Hd. apply (hash_of_Write (op_new ops (replicate B 0)) []); [|simpl; lia].
  apply hash_of_new. apply length_replicate.
Qed.

Lemma CHMAC_new_spec key :
  length key < 2 ^ 61 ->
  let k := if (length key <=? B)%nat then key else H key in
  let K0 := k ++ replicate (B - length k) 0 in
  hash_of (outer (CHMAC_new ops B OUT key)) ((λ x, x ^^ 0x5c) <$> K0) /\
  hash_of (inner (CHMAC_new ops B OUT key)) ((λ x, x ^^ 0x36) <$> K0) /\ length K0 = B.
Proof.
  intros Hk k K0.
  assert (E : (if (length key <=? B)%nat then key ++ replicate (B - length key) 0
    else (op_Finalize ops (op_Write ops (op_new ops (replicate B 0)) key)).1 ++ replicate (B - OUT) 0) = K0).
  { unfold K0, k. destruct (_ <=? _)%nat; [done|].
    rewrite (hash_of_Finalize _ key) by (done || apply fresh_Write; lia). by rewrite HOUT. }
  assert (HK : length K0 = B).
  { unfold K0, k. rewrite length_app, length_replicate.
    destruct (Nat.leb_spec (length key) B); rewrite ?HOUT; lia. }
  unfold CHMAC_new. rewrite E. cbn [outer inner]. split_and!; [| |done].
  - apply fresh_Write. rewrite length_fmap, HK. lia.
  - replace ((λ x, x ^^ 0x36) <$> K0) with ((λ x, x ^^ (0x5c ^^ 0x36)) <$> ((λ x, x ^^ 0x5c) <$> K0)).
    + apply fresh_Write. rewrite !length_fmap, HK. lia.
    + rewrite <- list_fmap_compose. apply list_fmap_ext. intros ???. apply pads_agree.
Qed.

Lemma CHMAC_Writes h m chunks :
  hash_of (inner h) m -> length m + length (concat chunks) < 2 ^ 64 ->
  hash_of (inner (foldl (CHMAC_Write ops) h chunks)) (m ++ concat chunks) /\
  outer (foldl (CHMAC_Write ops) h chunks) = outer h.
Proof.
  revert h m. induction chunks as [|c chunks IH]; intros h m Hh Hl; cbn [foldl concat] in *.
  - by rewrite app_nil_r.
  - rewrite length_app in Hl. rewrite app_assoc.
    destruct (IH (CHMAC_Write ops h c) (m ++ c)) as [IH1 IH2]; [|rewrite length_app; lia|done].
    cbn [inner CHMAC_Write]. apply hash_of_Write; [done|lia].
Qed.

Lemma CHMAC_spec key chunks :
  length key < 2 ^ 61 -> length (concat chunks) + B < 2 ^ 61 ->
  (CHMAC_Finalize ops (foldl (CHMAC_Write ops) (CHMAC_new ops B OUT key) chunks)).1 = HMAC H B key (concat chunks).
Proof.
  intros Hk Hl. destruct (CHMAC_new_spec key Hk) as (Ho & Hi & HK).
  destruct (CHMAC_Writes _ _ chunks Hi) as [Hi' Ho']; [rewrite length_fmap, HK; lia|].
  unfold CHMAC_Finalize, HMAC. rewrite <- Ho' in Ho. cbv zeta in *.
  set (K0 := _ ++ replicate _ 0) in *.
  pose proof (hash_of_Finalize _ _ Hi') as E. rewrite length_app, length_fmap, HK in E. specialize (E ltac:(lia)).
  destruct (op_Finalize ops (inner _)) as [temp inner']. cbn [fst] in E. subst temp.
  pose proof (HOUT (((λ x, x ^^ 0x36) <$> K0) ++ concat chunks)) as Hlen.
  pose proof (hash_of_Write _ _ (H (((λ x, x ^^ 0x36) <$> K0) ++ concat chunks)) Ho) as Hw.
  rewrite length_fmap, HK in Hw. specialize (Hw ltac:(lia)).
  pose proof (hash_of_Finalize _ _ Hw) as E. rewrite length_app, length_fmap, HK in E. specialize (E ltac:(lia)).
  destruct (op_Finalize ops (op_Write _ _ _)) as [hash outer']. done.
Qed.
End hmac_laws.

(** The keyed hashers compute HMAC, and [BIP32Hash] is HMAC-SHA512 of the header, the data
    and the child number in big-endian order, keyed by the chain code. *)
Theorem CHMAC_correct (D : Sha256.dispatch) `{HD : !GoodDispatch D} (key : list Z) (chunks : list (list Z))
    (chainCode : list Z) (nChild header : Z) (data : list Z) :
  length key < 2 ^ 61 -> length (concat chunks) < 2 ^ 60 ->
  length chainCode = 32%nat -> length data = 32%nat -> in_uint 32 nChild ->
  (CHMAC_Finalize (sha256_ops D) (foldl (CHMAC_Write (sha256_ops D)) (CHMAC_SHA256 D key) chunks)).1
    = HMAC SHA256 64 key (concat chunks) /\
  (CHMAC_Finalize sha512_ops (foldl (CHMAC_Write sha512_ops) (CHMAC_SHA512 key) chunks)).1
    = HMAC SHA512 128 key (concat chunks) /\
  BIP32Hash chainCode nChild header data = HMAC SHA512 128 chainCode ([header] ++ data ++ WriteBE32 nChild).
Proof.
  intros Hk Hl Hc Hd Hn. split_and!.
  - apply (CHMAC_spec (sha256_ops D) 64 32 SHA256); [apply length_SHA256|lia..].
  - apply (CHMAC_spec sha512_ops 128 64 SHA512); [apply length_SHA512|lia..].
  - unfold BIP32Hash, CHMAC_SHA512. rewrite (CHMAC_spec sha512_ops 128 64 SHA512);
      [|apply length_SHA512|lia|lia|lia|cbn [concat]; rewrite !length_app; simpl; lia].
    do 3 f_equal. cbn [concat]. rewrite app_nil_r. f_equal. unfold WriteBE32.
    cbn [le_bytes rev app]. change 0xFF with (Z.ones 8). rewrite !Z.land_ones by lia.
    rewrite !Z.shiftr_shiftr by lia. done.
Qed.

Lemma CHMAC_correct_witness :
  (CHMAC_Finalize sha512_ops (foldl (CHMAC_Write sha512_ops) (CHMAC_SHA512 [1; 2]) [[97]; [98]])).1
    = HMAC SHA512 128 [1; 2] [97; 98] /\
  BIP32Hash (replicate 32 5) 7 0 (replicate 32 6) = HMAC SHA512 128 (replicate 32 5) ([0] ++ replicate 32 6 ++ WriteBE32 7).
Proof.
  refine (proj2 (CHMAC_correct Sha256.standard [1; 2] [[97]; [98]] (replicate 32 5) 7 0 (replicate 32 6) _ _ _ _ _));
    unfold in_uint; simpl; lia.
Defined.
