(* ===== verification/SipHash.v ===== *)
(** * Keyed and unkeyed table hashes: hash.cpp

    [CSipHasher] and its two versions specialised to 256-bit values, and [MurmurHash3].  The
    reference is SipHash-2-4 of a byte string: whole words of eight bytes are mixed in as they
    come, the last word holds the bytes that remain and the length. *)

From S2P Require Import Prelude Bytes ShaSpec BlockHash Uint256.

(** ** The code *)

Definition ROTL (x b : Z) : Z := u64 (x << b) ||| (x >> (64 - b)).

(** [v[4]] *)
Definition sip : Type := Z * Z * Z * Z.

Definition SIPROUND (v : sip) : sip :=
  let '(v0, v1, v2, v3) := v in
  let v0 := u64 (v0 + v1) in let v1 := ROTL v1 13 in let v1 := v1 ^^ v0 in
  let v0 := ROTL v0 32 in
  let v2 := u64 (v2 + v3) in let v3 := ROTL v3 16 in let v3 := v3 ^^ v2 in
  let v0 := u64 (v0 + v3) in let v3 := ROTL v3 21 in let v3 := v3 ^^ v0 in
  let v2 := u64 (v2 + v1) in let v1 := ROTL v1 17 in let v1 := v1 ^^ v2 in
  let v2 := ROTL v2 32 in
  (v0, v1, v2, v3).

(** [v0 ^= d], [v2 ^= d] and [v3 ^= d] *)
Definition xor0 (v : sip) (d : Z) : sip := let '(v0, v1, v2, v3) := v in (v0 ^^ d, v1, v2, v3).
Definition xor2 (v : sip) (d : Z) : sip := let '(v0, v1, v2, v3) := v in (v0, v1, v2 ^^ d, v3).
Definition xor3 (v : sip) (d : Z) : sip := let '(v0, v1, v2, v3) := v in (v0, v1, v2, v3 ^^ d).

Record CSipHasher := mkCSipHasher {
  sip_v : sip;
  tmp : Z;     (* uint64_t *)
  count : Z;   (* int *)
}.

Definition sip_init (k0 k1 : Z) : sip :=
  (0x736f6d6570736575 ^^ k0, 0x646f72616e646f6d ^^ k1, 0x6c7967656e657261 ^^ k0, 0x7465646279746573 ^^ k1).
Definition CSipHasher_new (k0 k1 : Z) : CSipHasher := mkCSipHasher (sip_init k0 k1) 0 0.

(** [Write(uint64_t)]; [None] when its assertion fails *)
Definition CSipHasher_Write64 (h : CSipHasher) (data : Z) : option CSipHasher :=
  if Z.rem (count h) 8 =? 0 then
    let v := xor3 (sip_v h) data in
    let v := SIPROUND (SIPROUND v) in
    let v := xor0 v data in
    Some (mkCSipHasher v (tmp h) (i32 (count h + 8)))
  else None.

(** [Write(const unsigned char*, size_t)]: the loop *)
Fixpoint CSipHasher_Write (h : CSipHasher) (data : list Z) : CSipHasher :=
  match data with
  | [] => h
  | x :: data =>
      let t := tmp h ||| u64 (x << (8 * Z.rem (count h) 8)) in
      let c := i32 (count h + 1) in
      if c &&& 7 =? 0 then
        let v := xor3 (sip_v h) t in
        let v := SIPROUND (SIPROUND v) in
        let v := xor0 v t in
        CSipHasher_Write (mkCSipHasher v 0 c) data
      else CSipHasher_Write (mkCSipHasher (sip_v h) t c) data
  end.

Definition CSipHasher_Finalize (h : CSipHasher) : Z :=
  let t := tmp h ||| u64 (u64 (count h) << 56) in
  let v := xor3 (sip_v h) t in
  let v := SIPROUND (SIPROUND v) in
  let v := xor0 v t in
  let v := xor2 v 0xFF in
  let '(v0, v1, v2, v3) := SIPROUND (SIPROUND (SIPROUND (SIPROUND v))) in
  v0 ^^ v1 ^^ v2 ^^ v3.

(** [SipHashUint256] *)
Definition SipHashUint256 (k0 k1 : Z) (val : list Z) : Z :=
  let d := Blob.GetUint64 0 val in
  let v0 := 0x736f6d6570736575 ^^ k0 in
  let v1 := 0x646f72616e646f6d ^^ k1 in
  let v2 := 0x6c7967656e657261 ^^ k0 in
  let v3 := 0x7465646279746573 ^^ k1 ^^ d in
  let v := SIPROUND (SIPROUND (v0, v1, v2, v3)) in
  let v := xor0 v d in
  let d := Blob.GetUint64 1 val in
  let v := xor3 v d in
  let v := SIPROUND (SIPROUND v) in
  let v := xor0 v d in
  let d := Blob.GetUint64 2 val in
  let v := xor3 v d in
  let v := SIPROUND (SIPROUND v) in
  let v := xor0 v d in
  let d := Blob.GetUint64 3 val in
  let v := xor3 v d in
  let v := SIPROUND (SIPROUND v) in
  let v := xor0 v d in
  let v := xor3 v (u64 (4 << 59)) in
  let v := SIPROUND (SIPROUND v) in
  let v := xor0 v (u64 (4 << 59)) in
  let v := xor2 v 0xFF in
  let '(v0, v1, v2, v3) := SIPROUND (SIPROUND (SIPROUND (SIPROUND v))) in
  v0 ^^ v1 ^^ v2 ^^ v3.

(** [SipHashUint256Extra] *)
Definition SipHashUint256Extra (k0 k1 : Z) (val : list Z) (extra : Z) : Z :=
  let d := Blob.GetUint64 0 val in
  let v0 := 0x736f6d6570736575 ^^ k0 in
  let v1 := 0x646f72616e646f6d ^^ k1 in
  let v2 := 0x6c7967656e657261 ^^ k0 in
  let v3 := 0x7465646279746573 ^^ k1 ^^ d in
  let v := SIPROUND (SIPROUND (v0, v1, v2, v3)) in
  let v := xor0 v d in
  let d := Blob.GetUint64 1 val in
  let v := xor3 v d in
  let v := SIPROUND (SIPROUND v) in
  let v := xor0 v d in
  let d := Blob.GetUint64 2 val in
  let v := xor3 v d in
  let v := SIPROUND (SIPROUND v) in
  let v := xor0 v d in
  let d := Blob.GetUint64 3 val in
  let v := xor3 v d in
  let v := SIPROUND (SIPROUND v) in
  let v := xor0 v d in
  let d := u64 (36 << 56) ||| extra in
  let v := xor3 v d in
  let v := SIPROUND (SIPROUND v) in
  let v := xor0 v d in
  let v := xor2 v 0xFF in
  let '(v0, v1, v2, v3) := SIPROUND (SIPROUND (SIPROUND (SIPROUND v))) in
  v0 ^^ v1 ^^ v2 ^^ v3.

(** ** MurmurHash3 *)

Definition ROTL32 (x r : Z) : Z := u32 (x << r) ||| (x >> (32 - r)).
Definition murmur_c1 : Z := 0xcc9e2d51.
Definition murmur_c2 : Z := 0x1b873593.

(** the body's loop over the whole blocks of four bytes *)
Fixpoint MurmurHash3_body (nblocks : nat) (blocks : list Z) (h1 : Z) : Z :=
  match nblocks with
  | O => h1
  | S nblocks =>
      let k1 := ReadLE32 blocks in
      let k1 := u32 (k1 * murmur_c1) in
      let k1 := ROTL32 k1 15 in
      let k1 := u32 (k1 * murmur_c2) in
      let h1 := h1 ^^ k1 in
      let h1 := ROTL32 h1 13 in
      let h1 := u32 (h1 * 5 + 0xe6546b64) in
      MurmurHash3_body nblocks (drop 4 blocks) h1
  end.

Definition MurmurHash3 (nHashSeed : Z) (vDataToHash : list Z) : Z :=
  let nblocks := (length vDataToHash / 4)%nat in
  let h1 := MurmurHash3_body nblocks vDataToHash nHashSeed in
  let tail := drop (nblocks * 4) vDataToHash in
  let k1 := 0 in
  let case1 k1 :=
    let k1 := k1 ^^ tail !!! 0%nat in
    let k1 := u32 (k1 * murmur_c1) in
    let k1 := ROTL32 k1 15 in
    let k1 := u32 (k1 * murmur_c2) in
    h1 ^^ k1 in
  let case2 k1 := case1 (k1 ^^ u32 (tail !!! 1%nat << 8)) in
  let case3 k1 := case2 (k1 ^^ u32 (tail !!! 2%nat << 16)) in
  let h1 :=
    match (length vDataToHash `mod` 4)%nat with
    | 3%nat => case3 k1
    | 2%nat => case2 k1
    | 1%nat => case1 k1
    | _ => h1
    end in
  let h1 := h1 ^^ u32 (length vDataToHash) in
  let h1 := h1 ^^ (h1 >> 16) in
  let h1 := u32 (h1 * 0x85ebca6b) in
  let h1 := h1 ^^ (h1 >> 13) in
  let h1 := u32 (h1 * 0xc2b2ae35) in
  h1 ^^ (h1 >> 16).

(** ** The reference *)

(** one word *)
Definition compress (v : sip) (m : Z) : sip := xor0 (SIPROUND (SIPROUND (xor3 v m))) m.

Definition sip_block (v : sip) (b : list Z) : sip := compress v (le_value (take 8 b)).

(** SipHash-2-4 of a byte string *)
Definition SipHash24 (k0 k1 : Z) (m : list Z) : Z :=
  let v := fold_blocks sip_block 8 (length m) (sip_init k0 k1) m in
  let last := drop (8 * (length m / 8)) m in
  let v := compress v (le_value last + 2 ^ 56 * (length m `mod` 256)) in
  let '(v0, v1, v2, v3) := SIPROUND (SIPROUND (SIPROUND (SIPROUND (xor2 v 0xFF)))) in
  v0 ^^ v1 ^^ v2 ^^ v3.

(** ** Laws *)

Lemma sip_block_take v b : (8 <= length b)%nat -> sip_block v b = sip_block v (take 8 b).
Proof. intros _. unfold sip_block. by rewrite take_take. Qed.

Lemma bytes_snoc m x : bytes m -> is_byte x -> bytes (m ++ [x]).
Proof. intros Hm Hx. apply Forall_app. split; [done|]. by apply Forall_singleton. Qed.

Lemma le_value_snoc b x :
  bytes b -> is_byte x -> le_value b ||| (x << (8 * length b)) = le_value (b ++ [x]).
Proof.
  intros Hb Hx. rewrite le_value_app. cbn [le_value]. rewrite Z.mul_0_r, Z.add_0_r.
  pose proof (le_value_range b Hb) as Hr. unfold in_uint in Hr, Hx.
  assert (E : 256 ^ length b = 2 ^ (8 * length b)) by (rewrite (Z.pow_mul_r 2 8) by lia; reflexivity).
  rewrite Z.lor_comm, lor_shiftl_add, E by lia. lia.
Qed.

Lemma le_value_snoc_lor b x :
  bytes b -> is_byte x -> (length b < 8)%nat -> le_value b ||| u64 (x << (8 * length b)) = le_value (b ++ [x]).
Proof.
  intros Hb Hx Hl. rewrite <- le_value_snoc by done. f_equal. apply u64_small. unfold in_uint in Hx.
  split; [apply Z.shiftl_nonneg; lia|]. rewrite Z.shiftl_mul_pow2 by lia.
  replace (2 ^ 64) with (2 ^ (64 - 8 * length b) * 2 ^ (8 * length b)).
  - apply Z.mul_lt_mono_pos_r; [lia|]. apply Z.lt_le_trans with (2 ^ 8); [lia|]. apply Z.pow_le_mono_r; lia.
  - rewrite <- Z.pow_add_r by lia. f_equal. lia.
Qed.

(** the hasher [h] was given the bytes [m] under the keys [k0], [k1] *)
Record sip_rep (k0 k1 : Z) (h : CSipHasher) (m : list Z) : Prop := {
  sr_bytes : bytes m;
  sr_count : count h = length m;
  sr_split : exists m1 rest (n : nat), m = m1 ++ rest /\ length m1 = (8 * n)%nat /\ (length rest < 8)%nat /\
    sip_v h = chain 8 (sip_init k0 k1) sip_block m1 /\ tmp h = le_value rest;
}.

Lemma sip_rep_new k0 k1 : sip_rep k0 k1 (CSipHasher_new k0 k1) [].
Proof. split; [constructor|done|]. exists [], [], 0%nat. repeat split; simpl; lia. Qed.

(** eight bytes complete a word *)
Lemma chain_word k0 k1 m1 (n : nat) word :
  length m1 = (8 * n)%nat -> length word = 8%nat ->
  chain 8 (sip_init k0 k1) sip_block (m1 ++ word)
  = compress (chain 8 (sip_init k0 k1) sip_block m1) (le_value word).
Proof.
  intros Hm1 Hw.
  pose proof (chain_blocks 8 (sip_init k0 k1) sip_block ltac:(lia) sip_block_take m1 word 1) as E.
  rewrite take_ge in E by lia. rewrite E; [|rewrite Hm1, Nat.mul_comm; apply Nat.Div0.mod_mul|lia].
  cbn [while_blocks]. unfold sip_block. by rewrite take_ge by lia.
Qed.

Lemma sip_rep_byte k0 k1 h m x :
  sip_rep k0 k1 h m -> is_byte x -> length m + 1 < 2 ^ 31 ->
  sip_rep k0 k1 (CSipHasher_Write h [x]) (m ++ [x]).
Proof.
  intros [Hb Hc (m1 & rest & n & -> & Hm1 & Hrest & Hv & Ht)] Hx Hl.
  pose proof Hb as [Hb1 Hbr]%Forall_app. rewrite length_app in *. cbn [CSipHasher_Write].
  assert (Hrem : Z.rem (count h) 8 = length rest).
  { rewrite Hc, Z.rem_mod_nonneg, Nat2Z.inj_add, Hm1 by lia. symmetry. apply (Zmod_unique _ _ n); lia. }
  assert (Hi : i32 (count h + 1) = count h + 1) by (apply sint_small; [lia|unfold in_sint; lia]).
  rewrite Hrem, Ht, le_value_snoc_lor, Hi by done.
  assert (Hland : (count h + 1) &&& 7 = (length rest + 1) `mod` 8).
  { change 7 with (Z.ones 3). rewrite Z.land_ones, Hc by lia. change (2 ^ 3) with 8.
    rewrite Nat2Z.inj_add, Hm1, Nat2Z.inj_mul. replace (8%nat * n + length rest + 1) with (length rest + 1 + n * 8) by lia.
    apply Z.mod_add. lia. }
  rewrite Hland. destruct (Z.eqb_spec ((length rest + 1) `mod` 8) 0) as [E|E].
  - assert (Hr7 : length rest = 7%nat).
    { destruct (decide (length rest = 7%nat)); [done|]. rewrite Z.mod_small in E; lia. }
    split; cbn [count tmp sip_v].
    + by apply bytes_snoc.
    + rewrite Hc, !length_app. simpl. lia.
    + exists (m1 ++ (rest ++ [x])), [], (S n). rewrite app_nil_r. repeat split; [by rewrite app_assoc| |simpl; lia|].
      * rewrite !length_app. simpl. lia.
      * rewrite (chain_word k0 k1 m1 n) by (rewrite ?length_app; simpl; lia). by rewrite Hv.
  - assert (Hr7 : length rest <> 7%nat) by (intros Hr; apply E; by rewrite Hr).
    split; cbn [count tmp sip_v].
    + by apply bytes_snoc.
    + rewrite Hc, !length_app. simpl. lia.
    + exists m1, (rest ++ [x]), n. repeat split; [by rewrite app_assoc|done| |done].
      rewrite length_app. simpl. lia.
Qed.

Lemma CSipHasher_Write_app h a b : CSipHasher_Write h (a ++ b) = CSipHasher_Write (CSipHasher_Write h a) b.
Proof.
  revert h. induction a as [|x a IH]; intros h; [done|]. cbn [app CSipHasher_Write].
  destruct (_ =? 0); apply IH.
Qed.

Lemma sip_rep_Write k0 k1 h m data :
  sip_rep k0 k1 h m -> bytes data -> length m + length data < 2 ^ 31 ->
  sip_rep k0 k1 (CSipHasher_Write h data) (m ++ data).
Proof.
  revert h m. induction data as [|x data IH]; intros h m Hr Hb Hl; [by rewrite app_nil_r|].
  apply Forall_cons in Hb as [Hx Hb]. cbn [length] in Hl.
  change (x :: data) with ([x] ++ data). rewrite CSipHasher_Write_app, app_assoc.
  apply IH; [apply sip_rep_byte; [done..|lia]|done|rewrite length_app; simpl; lia].
Qed.

Lemma sip_rep_Write64 k0 k1 h m data :
  sip_rep k0 k1 h m -> (length m `mod` 8 = 0)%nat -> in_uint 64 data -> length m + 8 < 2 ^ 31 ->
  exists h', CSipHasher_Write64 h data = Some h' /\ sip_rep k0 k1 h' (m ++ WriteLE64 data).
Proof.
  intros [Hb Hc (m1 & rest & n & -> & Hm1 & Hrest & Hv & Ht)] Hm Hd Hl.
  assert (Hr0 : length rest = 0%nat).
  { rewrite length_app, Hm1, Nat.add_comm, Nat.mul_comm, Nat.Div0.mod_add, Nat.mod_small in Hm by lia. done. }
  apply nil_length_inv in Hr0 as ->. rewrite app_nil_r in *. unfold CSipHasher_Write64.
  assert (Hrem : Z.rem (count h) 8 = 0).
  { rewrite Hc, Z.rem_mod_nonneg, Hm1 by lia. rewrite Nat2Z.inj_mul, Z.mul_comm. apply Z.mod_mul. lia. }
  rewrite Hrem. eexists. split; [done|]. split; cbn [count tmp sip_v].
  - unfold bytes. apply Forall_app. split; [done|apply le_bytes_bytes].
  - rewrite Hc, length_app, sint_small; [|lia|unfold in_sint; lia]. unfold WriteLE64. rewrite length_le_bytes. lia.
  - exists (m1 ++ WriteLE64 data), [], (S n). rewrite app_nil_r.
    assert (Hw : length (WriteLE64 data) = 8%nat) by apply length_le_bytes.
    repeat split; [rewrite length_app; lia|simpl; lia| |done].
    rewrite (chain_word k0 k1 m1 n), <- Hv by done. unfold WriteLE64. by rewrite le_value_le_bytes_small.
Qed.

Lemma length_word t rest (c : Z) :
  bytes rest -> (length rest < 8)%nat -> t = le_value rest ->
  t ||| u64 (u64 c << 56) = le_value rest + 2 ^ 56 * (c `mod` 256).
Proof.
  intros Hb Hl ->. pose proof (le_value_range rest Hb) as Hr. unfold in_uint in Hr.
  assert (H56 : le_value rest < 2 ^ 56).
  { apply Z.lt_le_trans with (2 ^ (8 * length rest)); [lia|]. apply Z.pow_le_mono_r; lia. }
  assert (E : u64 (u64 c << 56) = (c `mod` 256) << 56).
  { unfold uint. rewrite !Z.shiftl_mul_pow2 by lia. change (2 ^ 64) with (2 ^ 8 * 2 ^ 56).
    rewrite Z.mul_mod_distr_r by lia. f_equal. change (2 ^ 8 * 2 ^ 56) with (256 * 2 ^ 56).
    symmetry. apply Znumtheory.Zmod_div_mod; [lia..|]. by exists (2 ^ 56). }
  rewrite E, Z.lor_comm, lor_shiftl_add by lia. lia.
Qed.

Lemma sip_rep_Finalize k0 k1 h m : sip_rep k0 k1 h m -> CSipHasher_Finalize h = SipHash24 k0 k1 m.
Proof.
  intros [Hb Hc (m1 & rest & n & -> & Hm1 & Hrest & Hv & Ht)].
  apply Forall_app in Hb as [_ Hbr]. unfold CSipHasher_Finalize, SipHash24.
  rewrite (length_word _ rest), Hc, Hv by done. cbv zeta.
  rewrite <- (chain_fold 8 (sip_init k0 k1) sip_block ltac:(lia) sip_block_take).
  rewrite (chain_short 8 (sip_init k0 k1) sip_block ltac:(lia) sip_block_take m1 rest)
    by (rewrite Hm1, Nat.mul_comm, Nat.Div0.mod_mul; lia).
  assert (Hq : (length (m1 ++ rest) / 8)%nat = n).
  { rewrite length_app, Hm1, Nat.add_comm, Nat.mul_comm, Nat.div_add, Nat.div_small by lia. lia. }
  rewrite Hq, <- Hm1, drop_app_length. reflexivity.
Qed.

Ltac small_bytes := unfold bytes; rewrite ?Forall_cons; done.

Lemma GetUint64_le_value (pos : nat) val :
  bytes val -> (8 * pos + 8 <= length val)%nat ->
  Blob.GetUint64 pos val = le_value (take 8 (drop (8 * pos) val)).
Proof.
  intros Hb Hl. unfold Blob.GetUint64. rewrite (Nat.mul_comm pos 8).
  assert (Hb' : bytes (drop (8 * pos) val)) by (by apply Forall_drop).
  assert (Hl' : (8 <= length (drop (8 * pos) val))%nat) by (rewrite length_drop; lia).
  destruct (drop (8 * pos) val) as [|b0 [|b1 [|b2 [|b3 [|b4 [|b5 [|b6 [|b7 ptr]]]]]]]]; cbn [length] in Hl'; try lia.
  cbn [take lookup_total list_lookup_total]. rewrite take_0. unfold bytes in Hb'. rewrite !Forall_cons in Hb'.
  destruct Hb' as (? & ? & ? & ? & ? & ? & ? & ? & _).
  change (le_value [b0; b1; b2; b3; b4; b5; b6; b7]) with (le_value ([b0; b1; b2; b3; b4; b5; b6] ++ [b7])); rewrite <- le_value_snoc by small_bytes.
  change (le_value [b0; b1; b2; b3; b4; b5; b6]) with (le_value ([b0; b1; b2; b3; b4; b5] ++ [b6])); rewrite <- le_value_snoc by small_bytes.
  change (le_value [b0; b1; b2; b3; b4; b5]) with (le_value ([b0; b1; b2; b3; b4] ++ [b5])); rewrite <- le_value_snoc by small_bytes.
  change (le_value [b0; b1; b2; b3; b4]) with (le_value ([b0; b1; b2; b3] ++ [b4])); rewrite <- le_value_snoc by small_bytes.
  change (le_value [b0; b1; b2; b3]) with (le_value ([b0; b1; b2] ++ [b3])); rewrite <- le_value_snoc by small_bytes.
  change (le_value [b0; b1; b2]) with (le_value ([b0; b1] ++ [b2])); rewrite <- le_value_snoc by small_bytes.
  change (le_value [b0; b1]) with (le_value ([b0] ++ [b1])); rewrite <- le_value_snoc by small_bytes.
  cbn [le_value length]. rewrite Z.mul_0_r, Z.add_0_r. reflexivity.
Qed.

(** the state after the four words of a 256-bit value *)
Lemma fold_four_words k0 k1 val tail :
  bytes val -> length val = 32%nat -> (length tail < 8)%nat ->
  fold_blocks sip_block 8 (length (val ++ tail)) (sip_init k0 k1) (val ++ tail)
  = compress (compress (compress (compress (sip_init k0 k1) (Blob.GetUint64 0 val)) (Blob.GetUint64 1 val))
      (Blob.GetUint64 2 val)) (Blob.GetUint64 3 val).
Proof.
  intros Hb Hl Ht. rewrite !GetUint64_le_value by (done || lia).
  rewrite <- (chain_fold 8 (sip_init k0 k1) sip_block ltac:(lia) sip_block_take).
  rewrite (chain_short 8 (sip_init k0 k1) sip_block ltac:(lia) sip_block_take val tail) by (rewrite Hl; simpl; lia).
  unfold chain. rewrite Hl. change (32 / 8)%nat with 4%nat. cbn [while_blocks]. unfold sip_block.
  rewrite !drop_drop. reflexivity.
Qed.

(** the two sides are the same calls *)
Ltac by_compress f :=
  cbv beta zeta delta [f compress]; change (xor3 (sip_init ?k0 ?k1) ?d) with
    (0x736f6d6570736575 ^^ k0, 0x646f72616e646f6d ^^ k1, 0x6c7967656e657261 ^^ k0, 0x7465646279746573 ^^ k1 ^^ d);
  reflexivity.

Lemma SipHashUint256_spec k0 k1 val :
  bytes val -> length val = 32%nat -> SipHashUint256 k0 k1 val = SipHash24 k0 k1 val.
Proof.
  intros Hb Hl. unfold SipHash24. pose proof (fold_four_words k0 k1 val [] Hb Hl ltac:(simpl; lia)) as E.
  rewrite app_nil_r in E. rewrite E, Hl. change (8 * (32 / 8))%nat with 32%nat. rewrite drop_ge by lia.
  change (le_value [] + 2 ^ 56 * (32%nat `mod` 256)) with (u64 (4 << 59)). by_compress SipHashUint256.
Qed.

Lemma SipHashUint256Extra_spec k0 k1 val extra :
  bytes val -> length val = 32%nat -> in_uint 32 extra ->
  SipHashUint256Extra k0 k1 val extra = SipHash24 k0 k1 (val ++ WriteLE32 extra).
Proof.
  intros Hb Hl He. assert (Hw : length (WriteLE32 extra) = 4%nat) by apply length_le_bytes.
  unfold SipHash24. rewrite (fold_four_words k0 k1 val (WriteLE32 extra) Hb Hl) by lia.
  rewrite length_app, Hl, Hw. change (8 * ((32 + 4) / 8))%nat with 32%nat. rewrite drop_app_length' by done.
  assert (E : le_value (WriteLE32 extra) + 2 ^ 56 * ((32 + 4)%nat `mod` 256) = u64 (36 << 56) ||| extra).
  { unfold WriteLE32. rewrite le_value_le_bytes_small by done. unfold in_uint in He.
    change (u64 (36 << 56)) with (36 << 56). rewrite lor_shiftl_add by lia. change ((32 + 4)%nat `mod` 256) with 36. lia. }
  rewrite E. by_compress SipHashUint256Extra.
Qed.

(** [CSipHasher] computes SipHash-2-4 of the bytes written to it, however they are cut into
    writes, and the two specialised functions compute it on a 256-bit value and on a 256-bit
    value followed by a 32-bit one: [SipHashUint256] gives what four 64-bit writes to a
    [CSipHasher] would, as its comment promises. *)
Theorem SipHash_correct (k0 k1 : Z) (chunks : list (list Z)) (val : list Z) (extra : Z) :
  bytes (concat chunks) -> length (concat chunks) < 2 ^ 31 ->
  bytes val -> length val = 32%nat -> in_uint 32 extra ->
  CSipHasher_Finalize (foldl CSipHasher_Write (CSipHasher_new k0 k1) chunks) = SipHash24 k0 k1 (concat chunks) /\
  SipHashUint256 k0 k1 val = SipHash24 k0 k1 val /\
  SipHashUint256Extra k0 k1 val extra = SipHash24 k0 k1 (val ++ WriteLE32 extra) /\
  (exists h, foldl (λ h pos, h ≫= λ h, CSipHasher_Write64 h (Blob.GetUint64 pos val)) (Some (CSipHasher_new k0 k1)) (seq 0 4) = Some h /\
     CSipHasher_Finalize h = SipHashUint256 k0 k1 val).
Proof.
  intros Hb Hl Hv Hvl He. split_and!.
  - apply sip_rep_Finalize.
    cut (forall h m, sip_rep k0 k1 h m -> length m + length (concat chunks) < 2 ^ 31 ->
           sip_rep k0 k1 (foldl CSipHasher_Write h chunks) (m ++ concat chunks)).
    { intros H. apply (H _ []); [apply sip_rep_new|simpl; lia]. }
    clear Hl. induction chunks as [|c chunks IH]; intros h m Hr Hl; cbn [foldl concat] in *; [by rewrite app_nil_r|].
    apply Forall_app in Hb as [Hc Hb]. rewrite length_app in Hl. rewrite app_assoc.
    apply IH; [done|apply sip_rep_Write; [done..|lia]|rewrite length_app; lia].
  - by apply SipHashUint256_spec.
  - by apply SipHashUint256Extra_spec.
  - rewrite SipHashUint256_spec by done.
    assert (Hw : forall pos : nat, (pos < 4)%nat -> Blob.GetUint64 pos val = le_value (take 8 (drop (8 * pos) val))).
    { intros pos Hp. apply GetUint64_le_value; [done|lia]. }
    cut (forall (n : nat), (n <= 4)%nat -> exists h, foldl (λ h pos, h ≫= λ h, CSipHasher_Write64 h (Blob.GetUint64 pos val))
       (Some (CSipHasher_new k0 k1)) (seq 0 n) = Some h /\ sip_rep k0 k1 h (take (8 * n) val)).
    { intros H. destruct (H 4%nat) as (h & E & Hr); [lia|]. exists h. split; [done|].
      rewrite take_ge in Hr by lia. by apply sip_rep_Finalize. }
    induction n as [|n IH]; intros Hn; [exists (CSipHasher_new k0 k1); split; [done|apply sip_rep_new]|].
    destruct IH as (h & E & Hr); [lia|]. rewrite seq_S, foldl_app, E. cbn [foldl mbind option_bind Nat.add].
    rewrite Hw by lia. set (w := take 8 (drop (8 * n) val)) in *.
    assert (Hwl : length w = 8%nat) by (unfold w; rewrite length_take, length_drop; lia).
    assert (Hwb : bytes w) by (by apply Forall_take, Forall_drop).
    pose proof (le_value_range w Hwb) as Hwr. rewrite Hwl in Hwr.
    destruct (sip_rep_Write64 k0 k1 h (take (8 * n) val) (le_value w)) as (h' & E' & Hr'); [done| |done| |].
    + rewrite length_take, Nat.min_l, Nat.mul_comm by lia. apply Nat.Div0.mod_mul.
    + rewrite length_take. lia.
    + exists h'. split; [done|]. replace (8 * S n)%nat with (8 * n + 8)%nat by lia. rewrite <- take_take_drop.
      assert (Ew : WriteLE64 (le_value w) = w) by (unfold WriteLE64; rewrite <- Hwl; by apply le_bytes_le_value).
      by rewrite Ew in Hr'.
Qed.

Lemma SipHash_correct_witness :
  CSipHasher_Finalize (foldl CSipHasher_Write (CSipHasher_new 1 2) [[7]; [8; 9]]) = SipHash24 1 2 [7; 8; 9].
Proof.
  refine (proj1 (SipHash_correct 1 2 [[7]; [8; 9]] (replicate 32 5) 6 _ _ _ _ _)); try (vm_compute; reflexivity).
  - unfold bytes, in_uint. repeat constructor; lia.
  - apply Forall_replicate. unfold in_uint. lia.
  - unfold in_uint. lia.
Defined.
