(* ===== verification/Merkle.v ===== *)
(** * Merkle trees: consensus/merkle.cpp, merkleblock.h, merkleblock.cpp

    [ComputeMerkleRoot] hashes a block's transaction ids level by level in place and reports
    whether two equal hashes met at the end of a level; [CPartialMerkleTree] is the proof that
    some of them are in the block, built and checked by recursion over the tree from its root.

    A [uint256] is a list of 32 bytes.  Positions in a tree are below its width and never
    wrap, and are not reduced. *)

From S2P Require Import Prelude Bytes Streams Serialize BitSets ShaSpec BlockHash Sha256 Sha256Laws Hash.

Definition zero256 : list Z := replicate 32 0.

#[export] Instance hash_eq_dec : EqDecision (list Z) := _.

Section merkle.
Context (D : Sha256.dispatch).

(** ** ComputeMerkleRoot *)

(** [for (pos = 0; pos + 1 < size; pos += 2) if (hashes[pos] == hashes[pos + 1]) mutation = true] *)
Fixpoint find_equal_pair (hashes : list (list Z)) : bool :=
  match hashes with
  | a :: b :: hashes => if decide (a = b) then true else find_equal_pair hashes
  | _ => false
  end.

(** the vector's memory, cut into its elements *)
Fixpoint blobs (n : nat) (memory : list Z) : list (list Z) :=
  match n with
  | O => []
  | S n => take 32 memory :: blobs n (drop 32 memory)
  end.

(** [if (size & 1) push_back(back())] *)
Definition push_back_back (hashes : list (list Z)) : list (list Z) :=
  if Nat.odd (length hashes) then hashes ++ option_list (last hashes) else hashes.

(** one round of the loop: [SHA256D64] overwrites the front of the vector, which is then cut *)
Definition merkle_level (hashes : list (list Z)) : list (list Z) :=
  let hashes := push_back_back hashes in
  let half := (length hashes / 2)%nat in
  blobs half (Sha256.SHA256D64 D (concat hashes) half).

Fixpoint ComputeMerkleRoot_loop (fuel : nat) (hashes : list (list Z)) (mutation : bool) : list (list Z) * bool :=
  match fuel with
  | O => (hashes, mutation)
  | S fuel =>
      if (1 <? length hashes)%nat then
        ComputeMerkleRoot_loop fuel (merkle_level hashes) (mutation || find_equal_pair hashes)
      else (hashes, mutation)
  end.

(** the root, and what [*mutated] is set to when the pointer is not null; every round about
    halves the vector, so its length is fuel enough *)
Definition ComputeMerkleRoot (hashes : list (list Z)) : list Z * bool :=
  let '(hashes, mutation) := ComputeMerkleRoot_loop (length hashes) hashes false in
  match hashes with
  | [] => (zero256, mutation)
  | h :: _ => (h, mutation)
  end.

(** [BlockMerkleRoot], from the ids of the block's transactions *)
Definition BlockMerkleRoot {Tx} (GetHash : Tx -> list Z) (vtx : list Tx) : list Z * bool :=
  ComputeMerkleRoot (GetHash <$> vtx).

(** ** CPartialMerkleTree *)

Record CPartialMerkleTree := mkPMT {
  nTransactions : Z;     (* unsigned int *)
  vBits : list bool;
  vHash : list (list Z);
  fBad : bool;
}.

Definition CalcTreeWidth (nTransactions : Z) (height : nat) : Z := u32 (nTransactions + (1 << height) - 1) >> height.

(** Both constructions find the height with the same loop; 32 rounds are enough for any
    number of transactions below 2^31. *)
Fixpoint CalcTreeHeight_loop (fuel : nat) (nTransactions : Z) (nHeight : nat) : nat :=
  match fuel with
  | O => nHeight
  | S fuel => if 1 <? CalcTreeWidth nTransactions nHeight then CalcTreeHeight_loop fuel nTransactions (S nHeight) else nHeight
  end.
Definition CalcTreeHeight (nTransactions : Z) : nat := CalcTreeHeight_loop 32 nTransactions 0.

(** the assertion that [vTxid] is not empty is made by the constructor below *)
Fixpoint CalcHash (nTransactions : Z) (height : nat) (pos : Z) (vTxid : list (list Z)) : list Z :=
  match height with
  | O => vTxid !!! Z.to_nat pos
  | S height =>
      let hleft := CalcHash nTransactions height (pos * 2) vTxid in
      let hright :=
        if pos * 2 + 1 <? CalcTreeWidth nTransactions height then CalcHash nTransactions height (pos * 2 + 1) vTxid
        else hleft in
      Hash D [hleft; hright]
  end.

(** [for (p = pos << height; p < (pos + 1) << height && p < nTransactions; p++) fParentOfMatch |= vMatch[p]] *)
Definition fParentOfMatch (nTransactions : Z) (height : nat) (pos : Z) (vMatch : list bool) : bool :=
  existsb (λ p, vMatch !!! Z.to_nat p)
    (seqZ (pos << height) (Z.min ((pos + 1) << height) nTransactions - (pos << height))).

(** what is appended to [vBits] and [vHash] *)
Fixpoint TraverseAndBuild (nTransactions : Z) (height : nat) (pos : Z) (vTxid : list (list Z)) (vMatch : list bool) :
    list bool * list (list Z) :=
  let f := fParentOfMatch nTransactions height pos vMatch in
  match height with
  | O => ([f], [CalcHash nTransactions 0 pos vTxid])
  | S h =>
      if negb f then ([f], [CalcHash nTransactions height pos vTxid])
      else
        let '(bits1, hashes1) := TraverseAndBuild nTransactions h (pos * 2) vTxid vMatch in
        let '(bits2, hashes2) :=
          if pos * 2 + 1 <? CalcTreeWidth nTransactions h
          then TraverseAndBuild nTransactions h (pos * 2 + 1) vTxid vMatch else ([], []) in
        (f :: bits1 ++ bits2, hashes1 ++ hashes2)
  end.

(** the constructor from ids and a mask; [None] when the assertion in [CalcHash] fails *)
Definition PMT_new (vTxid : list (list Z)) (vMatch : list bool) : option CPartialMerkleTree :=
  let nTransactions := u32 (length vTxid) in
  if (length vTxid =? 0)%nat then None
  else
    let '(bits, hashes) := TraverseAndBuild nTransactions (CalcTreeHeight nTransactions) 0 vTxid vMatch in
    Some (mkPMT nTransactions bits hashes false).

Definition PMT_default : CPartialMerkleTree := mkPMT 0 [] [] true.

(** the state of an extraction: the by-reference arguments and [fBad] *)
Record extraction := mkExtraction {
  nBitsUsed : nat;
  nHashUsed : nat;
  ex_vMatch : list (list Z);
  ex_vnIndex : list Z;
  ex_fBad : bool;
}.
Definition set_bad (st : extraction) : extraction :=
  mkExtraction (nBitsUsed st) (nHashUsed st) (ex_vMatch st) (ex_vnIndex st) true.

Section extract.
Context (t : CPartialMerkleTree).

(** use the stored hash at a leaf or an uninteresting node *)
Definition use_hash (height : nat) (pos : Z) (f : bool) (st : extraction) : list Z * extraction :=
  match vHash t !! nHashUsed st with
  | None => (zero256, set_bad st)
  | Some hash =>
      let matched := (height =? 0)%nat && f in
      (hash, mkExtraction (nBitsUsed st) (S (nHashUsed st))
               (if matched then ex_vMatch st ++ [hash] else ex_vMatch st)
               (if matched then ex_vnIndex st ++ [pos] else ex_vnIndex st) (ex_fBad st))
  end.

Fixpoint TraverseAndExtract (height : nat) (pos : Z) (st : extraction) : list Z * extraction :=
  match vBits t !! nBitsUsed st with
  | None => (zero256, set_bad st)
  | Some f =>
      let st := mkExtraction (S (nBitsUsed st)) (nHashUsed st) (ex_vMatch st) (ex_vnIndex st) (ex_fBad st) in
      match height with
      | O => use_hash 0 pos f st
      | S h =>
          if negb f then use_hash height pos f st
          else
            let '(hleft, st) := TraverseAndExtract h (pos * 2) st in
            if pos * 2 + 1 <? CalcTreeWidth (nTransactions t) h then
              let '(hright, st) := TraverseAndExtract h (pos * 2 + 1) st in
              let st := if decide (hright = hleft) then set_bad st else st in
              (Hash D [hleft; hright], st)
            else (Hash D [hleft; hleft], st)
      end
  end.

Definition MAX_DIP0001_BLOCK_SIZE : Z := 2000000.
Definition MAX_LEGACY_BLOCK_SIZE : Z := 1000000.
Definition MaxBlockSize (fDIP0001Active : bool) : Z :=
  if fDIP0001Active then MAX_DIP0001_BLOCK_SIZE else MAX_LEGACY_BLOCK_SIZE.

(** [vMatch] is cleared, [vnIndex] is appended to; the third component is [fBad] *)
Definition ExtractMatches (vMatch : list (list Z)) (vnIndex : list Z) : list Z * (list (list Z) * list Z * bool) :=
  let vMatch := [] in
  if nTransactions t =? 0 then (zero256, (vMatch, vnIndex, fBad t))
  else if MaxBlockSize true / 60 <? nTransactions t then (zero256, (vMatch, vnIndex, fBad t))
  else if nTransactions t <? length (vHash t) then (zero256, (vMatch, vnIndex, fBad t))
  else if (length (vBits t) <? length (vHash t))%nat then (zero256, (vMatch, vnIndex, fBad t))
  else
    let nHeight := CalcTreeHeight (nTransactions t) in
    let '(hashMerkleRoot, st) := TraverseAndExtract nHeight 0 (mkExtraction 0 0 vMatch vnIndex (fBad t)) in
    let out := (ex_vMatch st, ex_vnIndex st, ex_fBad st) in
    if ex_fBad st then (zero256, out)
    else if negb ((nBitsUsed st + 7) / 8 =? (length (vBits t) + 7) / 8)%nat then (zero256, out)
    else if negb (nHashUsed st =? length (vHash t))%nat then (zero256, out)
    else (hashMerkleRoot, out).
End extract.

(** ** Its serialization: the flag bits are packed, least significant first *)

(** [vBytes[p / 8] |= vBits[p] << (p % 8)] for every [p] *)
Definition pack_bits (vBits : list bool) : list Z :=
  foldl (set_bit vBits) (replicate ((length vBits + 7) / 8) 0) (seq 0 (length vBits)).
(** [vBits[p] = (vBytes[p / 8] & (1 << (p % 8))) != 0] for every [p] *)
Definition unpack_bits (vBytes : list Z) : list bool := get_bit vBytes <$> seq 0 (length vBytes * 8).

Definition codec_CPartialMerkleTree : codec CPartialMerkleTree := Codec
  (λ (S : Type) (_ : OStream S) t,
    _ ← Serialize codec_uint32 (nTransactions t);
    _ ← Serialize (codec_vector (codec_array 32) 32) (vHash t);
    Serialize codec_byte_vector (pack_bits (vBits t)))
  (λ (S : Type) (_ : IStream S),
    n ← Unserialize codec_uint32;
    hashes ← Unserialize (codec_vector (codec_array 32) 32);
    vBytes ← Unserialize codec_byte_vector;
    mret (mkPMT n (unpack_bits vBytes) hashes false)).
End merkle.
