(* ===== verification/MerkleLaws.v ===== *)
(** * Merkle trees: properties

    The level-by-level computation gives the hash the recursion from the root gives; lists that
    are not reported as mutated and have the same number of levels and the same root are the
    same list; a proof built for some transactions is accepted and yields exactly them; and an
    accepted proof never yields a transaction that is not in the block.  The last and the
    second hold unless two of the strings hashed on the way, which the theorems name, have the
    same double SHA-256. *)

From S2P Require Import Prelude Bytes Streams Serialize SerializeLaws SerializeCodecs BitSets ShaSpec BlockHash Sha256 Sha256Laws Hash Merkle.

(** no string of [xs] has the hash of a different string of [ys] *)
Definition no_collision (xs ys : list (list Z)) : Prop :=
  forall x y, x ∈ xs -> y ∈ ys -> SHA256d x = SHA256d y -> x = y.

Lemma no_collision_mono xs ys xs' ys' : xs' ⊆ xs -> ys' ⊆ ys -> no_collision xs ys -> no_collision xs' ys'.
Proof. intros Hx Hy H x y Hxs Hys. apply H; auto. Qed.

Definition is_hash (h : list Z) : Prop := length h = 32%nat.

(** the hash of an inner node *)
Definition node (l r : list Z) : list Z := SHA256d (l ++ r).

Lemma node_hash l r : is_hash (node l r).
Proof. apply length_SHA256. Qed.

Lemma node_inj xs ys a b c d :
  is_hash a -> is_hash c -> no_collision xs ys -> a ++ b ∈ xs -> c ++ d ∈ ys -> node a b = node c d -> a = c /\ b = d.
Proof.
  unfold is_hash. intros Ha Hc Hn Hx Hy E. apply app_inj_1; [lia|]. by apply Hn.
Qed.

(** ** One level *)

(** the next level: pairs, the last one with itself when it has no partner *)
Fixpoint pair_up (l : list (list Z)) : list (list Z) :=
  match l with
  | a :: b :: l => node a b :: pair_up l
  | [a] => [node a a]
  | [] => []
  end.

(** the strings hashed for it *)
Fixpoint pair_strings (l : list (list Z)) : list (list Z) :=
  match l with
  | a :: b :: l => (a ++ b) :: pair_strings l
  | [a] => [a ++ a]
  | [] => []
  end.

Lemma list_pair_ind {A} (P : list A -> Prop) :
  P [] -> (forall a, P [a]) -> (forall a b l, P l -> P (a :: b :: l)) -> forall l, P l.
Proof. intros H0 H1 H2. fix IH 1. intros [|a [|b l]]; [done|apply H1|apply H2, IH]. Qed.

Lemma length_pair_up l : length (pair_up l) = ((length l + 1) / 2)%nat.
Proof.
  induction l as [| |a b l IH] using list_pair_ind; [done..|]. cbn [pair_up length]. rewrite IH.
  replace (S (S (length l)) + 1)%nat with (length l + 1 + 1 * 2)%nat by lia. rewrite Nat.div_add by lia. lia.
Qed.

Lemma pair_up_hashes l : Forall is_hash (pair_up l).
Proof. induction l using list_pair_ind; simpl; auto using node_hash. Qed.

Lemma pair_up_lookup l (p : nat) x :
  pair_up l !! p = Some x ->
  exists a, l !! (2 * p)%nat = Some a /\ x = node a (default a (l !! (2 * p + 1)%nat)).
Proof.
  revert p. induction l as [|a|a b l IH] using list_pair_ind; intros p Hx; cbn [pair_up] in Hx.
  - done.
  - destruct p as [|p]; [|done]. injection Hx as <-. by exists a.
  - destruct p as [|p]; [injection Hx as <-; by exists a|]. destruct (IH p Hx) as (c & Hc & ->).
    replace (2 * S p)%nat with (S (S (2 * p))) by lia.
    replace (S (S (2 * p)) + 1)%nat with (S (S (2 * p + 1))) by lia. by exists c.
Qed.

Lemma pair_up_push_back l :
  pair_up (push_back_back l) = pair_up l /\ Nat.even (length (push_back_back l)) = true.
Proof.
  unfold push_back_back. induction l as [|a|a b l IH] using list_pair_ind; [done..|].
  cbn [length]. change (Nat.odd (S (S (length l)))) with (Nat.odd (length l)).
  destruct (Nat.odd (length l)) eqn:Hodd.
  - destruct IH as [IH1 IH2]. assert (Hl : last (a :: b :: l) = last l) by (destruct l as [|c l]; [done|]; by destruct l).
    rewrite Hl. cbn [app pair_up length]. rewrite IH1. done.
  - cbn [length]. split; [done|]. change (Nat.even (length l) = true). by rewrite <- Nat.negb_odd, Hodd.
Qed.

Section levels.
Context (D : Sha256.dispatch) `{HD : !GoodDispatch D}.

Lemma Hash_pair a b : is_hash a -> is_hash b -> Hash D [a; b] = node a b.
Proof.
  unfold is_hash. intros Ha Hb. assert (E : concat [a; b] = a ++ b) by (simpl; by rewrite app_nil_r).
  pose proof (Hash_spec D [a; b]) as H. rewrite E in H. apply H. rewrite length_app. lia.
Qed.

Lemma blobs_each (n : nat) l :
  length l = (2 * n)%nat -> Forall is_hash l -> blobs n (SHA256d_each n (concat l)) = pair_up l.
Proof.
  revert l. induction n as [|n IH]; intros l Hl Hh; [apply nil_length_inv in Hl as ->; done|].
  destruct l as [|a [|b l]]; cbn [length] in Hl; [lia..|].
  apply Forall_cons in Hh as [Ha Hh]. apply Forall_cons in Hh as [Hb Hh]. unfold is_hash in Ha, Hb.
  cbn [concat SHA256d_each blobs pair_up]. rewrite app_assoc.
  rewrite (take_app_length' (a ++ b)), (drop_app_length' (a ++ b)) by (rewrite length_app; lia).
  pose proof (node_hash a b) as Hn. unfold is_hash, node in Hn.
  rewrite take_app_length', drop_app_length' by done. rewrite IH by (done || lia). done.
Qed.

Lemma length_concat_hashes l : Forall is_hash l -> length (concat l) = (32 * length l)%nat.
Proof. induction 1 as [|a l Ha _ IH]; [done|]. cbn [concat length]. rewrite length_app, IH, Ha. lia. Qed.

Lemma push_back_hashes l : Forall is_hash l -> Forall is_hash (push_back_back l).
Proof.
  intros Hl. unfold push_back_back. destruct (Nat.odd _); [|done]. apply Forall_app. split; [done|].
  destruct (last l) as [x|] eqn:E; [|constructor]. apply Forall_singleton.
  rewrite Forall_forall in Hl. apply Hl. by apply last_Some_elem_of.
Qed.

Lemma merkle_level_spec l : Forall is_hash l -> merkle_level D l = pair_up l.
Proof.
  intros Hl. unfold merkle_level. destruct (pair_up_push_back l) as [E Hev].
  pose proof (push_back_hashes l Hl) as Hp. rewrite <- E. set (p := push_back_back l) in *.
  apply Nat.even_spec in Hev as [n Hn].
  assert (Hd : (length p / 2 = n)%nat) by (rewrite Hn, Nat.mul_comm; apply Nat.div_mul; lia).
  rewrite Hd, (SHA256D64_spec D).
  - apply blobs_each; [lia|done].
  - rewrite length_concat_hashes by done. lia.
Qed.
End levels.

(** ** All levels *)

Definition level (l : list (list Z)) (k : nat) : list (list Z) := Nat.iter k pair_up l.

(** the strings hashed for the levels up to [h] *)
Definition tree_strings (l : list (list Z)) (h : nat) : list (list Z) :=
  concat ((λ k, pair_strings (level l k)) <$> seq 0 h).

Lemma tree_strings_level l (h k : nat) : (k < h)%nat -> pair_strings (level l k) ⊆ tree_strings l h.
Proof.
  intros Hk x Hx. unfold tree_strings. apply list_elem_of_In, in_concat. exists (pair_strings (level l k)).
  split; [|by apply list_elem_of_In]. apply list_elem_of_In, list_elem_of_fmap. exists k. split; [done|].
  apply elem_of_seq. lia.
Qed.

Lemma pair_strings_lookup l (p : nat) a :
  l !! (2 * p)%nat = Some a -> a ++ default a (l !! (2 * p + 1)%nat) ∈ pair_strings l.
Proof.
  revert p. induction l as [|x|x y l IH] using list_pair_ind; intros p Ha.
  - done.
  - destruct p as [|p]; [|by replace (2 * S p)%nat with (S (S (2 * p))) in Ha by lia].
    injection Ha as ->. left.
  - destruct p as [|p]; [injection Ha as ->; left|].
    replace (2 * S p)%nat with (S (S (2 * p))) in * by lia.
    replace (S (S (2 * p)) + 1)%nat with (S (S (2 * p + 1))) by lia. right. by apply IH.
Qed.

Lemma level_S l k : level l (S k) = pair_up (level l k).
Proof. done. Qed.

Lemma level_hashes l k : Forall is_hash l -> Forall is_hash (level l k).
Proof. destruct k; [done|]. intros _. apply pair_up_hashes. Qed.

Lemma length_level l (k : nat) : Z.of_nat (length (level l k)) = (length l + 2 ^ k - 1) / 2 ^ k.
Proof.
  induction k as [|k IH]; [rewrite Z.div_1_r; simpl; lia|].
  rewrite level_S, length_pair_up, Nat2Z.inj_div, Nat2Z.inj_add, IH.
  assert (Hk : 0 < 2 ^ k) by lia.
  replace (2 ^ S k) with (2 ^ k * 2) by (rewrite Nat2Z.inj_succ, Z.pow_succ_r by lia; lia).
  change (Z.of_nat 1) with 1. change (Z.of_nat 2) with 2.
  rewrite <- Z.div_div by lia. f_equal. rewrite <- Z.div_add by lia. f_equal. lia.
Qed.

(** block sizes are far below this *)
Definition small (l : list (list Z)) : Prop := l <> [] /\ length l <= 2 ^ 30.

Lemma CalcTreeWidth_level l (k : nat) : small l -> (k <= 31)%nat -> CalcTreeWidth (length l) k = length (level l k).
Proof.
  intros [_ Hl] Hk. rewrite length_level. unfold CalcTreeWidth.
  assert (2 ^ k <= 2 ^ 31) by (apply Z.pow_le_mono_r; lia).
  rewrite Z.shiftl_1_l, u32_small by lia. by rewrite Z.shiftr_div_pow2 by lia.
Qed.

Lemma level_nonempty l k : l <> [] -> (0 < length (level l k))%nat.
Proof.
  intros Hl. induction k as [|k IH]; [destruct l; [done|simpl; lia]|].
  rewrite level_S, length_pair_up. apply Nat.div_str_pos. lia.
Qed.

Lemma level_single l (k : nat) : length l <= 2 ^ k -> (length (level l k) <= 1)%nat.
Proof.
  intros Hl. pose proof (length_level l k) as E.
  assert ((length l + 2 ^ k - 1) / 2 ^ k < 2) by (apply Z.div_lt_upper_bound; lia). lia.
Qed.

(** the height is where the first level of one hash is *)
Record is_height (l : list (list Z)) (h : nat) : Prop := {
  height_top : length (level l h) = 1%nat;
  height_below k : (k < h)%nat -> (1 < length (level l k))%nat;
  height_bound : (h <= 30)%nat;
}.

Lemma CalcTreeHeight_spec l : small l -> is_height l (CalcTreeHeight (length l)).
Proof.
  intros Hs. unfold CalcTreeHeight.
  cut (forall fuel k : nat, (k <= 30)%nat -> (30 < fuel + k)%nat ->
    (forall j, (j < k)%nat -> (1 < length (level l j))%nat) -> is_height l (CalcTreeHeight_loop fuel (length l) k)).
  { intros H. apply H; lia. }
  induction fuel as [|fuel IH]; intros k Hk Hf Hb; [lia|]. cbn [CalcTreeHeight_loop].
  rewrite CalcTreeWidth_level by (done || lia).
  destruct (Z.ltb_spec 1 (length (level l k))) as [Hw|Hw].
  - assert (k <> 30%nat). { intros ->. pose proof (level_single l 30 (proj2 Hs)). lia. }
    apply IH; [lia..|]. intros j Hj. destruct (decide (j = k)) as [->|]; [lia|apply Hb; lia].
  - split; [|done|done]. pose proof (level_nonempty l k (proj1 Hs)). lia.
Qed.

Lemma is_height_unique l h h' : is_height l h -> is_height l h' -> h = h'.
Proof.
  intros H H'. destruct (Nat.lt_trichotomy h h') as [Hlt|[?|Hlt]]; [|done|].
  - pose proof (height_below _ _ H' h Hlt). pose proof (height_top _ _ H). lia.
  - pose proof (height_below _ _ H h' Hlt). pose proof (height_top _ _ H'). lia.
Qed.

(** ** The root *)

(** no two partners are equal on the levels [k] to [h - 1] *)
Definition mutated_from (l : list (list Z)) (k n : nat) : bool := existsb (λ j, find_equal_pair (level l j)) (seq k n).

Section root.
Context (D : Sha256.dispatch) `{HD : !GoodDispatch D}.

Lemma ComputeMerkleRoot_loop_spec l h (fuel k : nat) m :
  is_height l h -> Forall is_hash l -> (k <= h)%nat -> (h - k <= fuel)%nat ->
  ComputeMerkleRoot_loop D fuel (level l k) m = (level l h, m || mutated_from l k (h - k)).
Proof.
  intros Hh Hl. revert k m. induction fuel as [|fuel IH]; intros k m Hk Hf; cbn [ComputeMerkleRoot_loop].
  - replace k with h by lia. by rewrite Nat.sub_diag, orb_false_r.
  - destruct (Nat.ltb_spec 1 (length (level l k))) as [Hw|Hw].
    + assert (k <> h) by (intros ->; pose proof (height_top _ _ Hh); lia).
      rewrite (merkle_level_spec D) by (by apply level_hashes). rewrite <- level_S, IH by lia.
      replace (h - k)%nat with (S (h - S k)) by lia. unfold mutated_from. cbn [seq existsb].
      by rewrite orb_assoc.
    + assert (k = h) as -> by (destruct (decide (k < h)%nat) as [Hlt|]; [pose proof (height_below _ _ Hh k Hlt)|]; lia).
      by rewrite Nat.sub_diag, orb_false_r.
Qed.

Lemma height_fuel l h : is_height l h -> (h <= length l)%nat.
Proof.
  intros Hh. destruct h as [|h]; [lia|]. pose proof (height_below _ _ Hh h ltac:(lia)) as Hw.
  destruct (decide (length l <= 2 ^ h)) as [Hle|Hgt]; [pose proof (level_single l h Hle); lia|].
  pose proof (Z.pow_gt_lin_r 2 h ltac:(lia) ltac:(lia)). lia.
Qed.

Definition root_of (l : list (list Z)) (h : nat) : list Z := level l h !!! 0%nat.

Lemma level_top l h : is_height l h -> level l h = [root_of l h].
Proof.
  intros Hh. pose proof (height_top _ _ Hh) as Ht. unfold root_of.
  destruct (level l h) as [|x [|y r]]; [done..|]. simpl in Ht. lia.
Qed.

Lemma ComputeMerkleRoot_spec l :
  small l -> Forall is_hash l ->
  let h := CalcTreeHeight (length l) in
  ComputeMerkleRoot D l = (root_of l h, mutated_from l 0 h).
Proof.
  intros Hs Hl h. pose proof (CalcTreeHeight_spec l Hs) as Hh. fold h in Hh.
  unfold ComputeMerkleRoot. change l with (level l 0) at 2.
  rewrite (ComputeMerkleRoot_loop_spec l h) by (done || lia || (pose proof (height_fuel l h Hh); lia)).
  rewrite (level_top l h Hh), Nat.sub_0_r. done.
Qed.

Lemma CalcHash_level l (k p : nat) :
  small l -> Forall is_hash l -> (k <= 31)%nat -> (p < length (level l k))%nat ->
  CalcHash D (length l) k p l = level l k !!! p.
Proof.
  intros Hs Hl. revert p. induction k as [|k IH]; intros p Hk Hp; cbn [CalcHash]; [by rewrite Nat2Z.id|].
  destruct (level l (S k) !! p) as [x|] eqn:Hx; [|apply lookup_ge_None in Hx; lia].
  rewrite (list_lookup_total_correct _ _ _ Hx). rewrite level_S in Hx.
  destruct (pair_up_lookup _ _ _ Hx) as (a & Ha & ->). pose proof (lookup_lt_Some _ _ _ Ha) as Hlt.
  pose proof (level_hashes l k Hl) as Hhk. rewrite Forall_lookup in Hhk.
  rewrite CalcTreeWidth_level by (done || lia).
  replace (p * 2) with (Z.of_nat (2 * p)) by lia. replace (Z.of_nat (2 * p) + 1) with (Z.of_nat (2 * p + 1)) by lia.
  rewrite IH, (list_lookup_total_correct _ _ _ Ha) by lia.
  destruct (level l k !! (2 * p + 1)%nat) as [b|] eqn:Hb; cbn [default from_option].
  - pose proof (lookup_lt_Some _ _ _ Hb) as Hlt'. rewrite (proj2 (Z.ltb_lt _ _)) by lia.
    rewrite IH, (list_lookup_total_correct _ _ _ Hb) by lia. apply Hash_pair; [done|eauto..].
  - apply lookup_ge_None in Hb. rewrite (proj2 (Z.ltb_ge _ _)) by lia. apply Hash_pair; [done|eauto..].
Qed.
End root.

(** The root [ComputeMerkleRoot] finds by hashing the vector level by level in place is the one
    [CPartialMerkleTree::CalcHash] finds by recursion from the top of the tree; the loop ends
    with the number of rounds the height loop counts. *)
Theorem ComputeMerkleRoot_CalcHash (D : Sha256.dispatch) `{HD : !GoodDispatch D} (l : list (list Z)) :
  l <> [] -> length l <= 2 ^ 30 -> Forall is_hash l ->
  (ComputeMerkleRoot D l).1 = CalcHash D (length l) (CalcTreeHeight (length l)) 0 l.
Proof.
  intros Hn Hb Hl. assert (Hs : small l) by done. rewrite (ComputeMerkleRoot_spec D) by done.
  pose proof (CalcTreeHeight_spec l Hs) as Hh. pose proof (height_top _ _ Hh). pose proof (height_bound _ _ Hh).
  change 0 with (Z.of_nat 0). rewrite (CalcHash_level D) by (done || lia). done.
Qed.

Lemma ComputeMerkleRoot_CalcHash_witness :
  let l := [replicate 32 1; replicate 32 2; replicate 32 3] in
  (ComputeMerkleRoot Sha256.standard l).1 = CalcHash Sha256.standard 3 2 0 l.
Proof.
  refine (ComputeMerkleRoot_CalcHash Sha256.standard [replicate 32 1; replicate 32 2; replicate 32 3] _ _ _).
  - discriminate.
  - simpl. lia.
  - repeat constructor.
Defined.

(** ** Mutations *)

(** lists of the same hashes on the next level, neither of them ending in two equal partners *)
Lemma pair_up_inj l1 l2 :
  Forall is_hash l1 -> Forall is_hash l2 -> no_collision (pair_strings l1) (pair_strings l2) ->
  pair_up l1 = pair_up l2 -> find_equal_pair l1 = false -> find_equal_pair l2 = false -> l1 = l2.
Proof.
  revert l2. induction l1 as [|a|a b l1 IH] using list_pair_ind; intros l2 H1 H2 Hn E M1 M2.
  - by destruct l2 as [|x [|y l2]].
  - destruct l2 as [|x [|y l2]]; [done|..]; apply Forall_cons in H1 as [Ha _]; apply Forall_cons in H2 as [Hx H2].
    + injection E as E. destruct (node_inj _ _ a a x x Ha Hx Hn) as [-> _]; [by left..|done|done].
    + injection E as E _. destruct (node_inj _ _ a a x y Ha Hx Hn) as [-> Hxy]; [by left..|done|].
      subst y. cbn in M2. by destruct (decide (x = x)).
  - apply Forall_cons in H1 as [Ha H1]. apply Forall_cons in H1 as [Hb H1].
    destruct l2 as [|x [|y l2]]; [done|..]; apply Forall_cons in H2 as [Hx H2].
    + injection E as E _. destruct (node_inj _ _ a b x x Ha Hx Hn) as [-> ->]; [by left..|done|].
      cbn in M1. by destruct (decide (x = x)).
    + apply Forall_cons in H2 as [Hy H2]. injection E as E E'. cbn in M1, M2.
      destruct (decide (a = b)), (decide (x = y)); [done..|].
      destruct (node_inj _ _ a b x y Ha Hx Hn) as [-> ->]; [by left..|done|].
      rewrite (IH l2); try done. eapply no_collision_mono; [..|exact Hn]; intros z Hz; by right.
Qed.

Lemma level_inj l1 l2 (h : nat) :
  Forall is_hash l1 -> Forall is_hash l2 -> no_collision (tree_strings l1 h) (tree_strings l2 h) ->
  level l1 h = level l2 h -> mutated_from l1 0 h = false -> mutated_from l2 0 h = false -> l1 = l2.
Proof.
  intros H1 H2 Hn.
  cut (forall k, (k <= h)%nat -> level l1 k = level l2 k -> mutated_from l1 0 k = false -> mutated_from l2 0 k = false -> l1 = l2).
  { intros H. apply H. lia. }
  induction k as [|k IH]; intros Hk E M1 M2; [done|].
  unfold mutated_from in M1, M2. rewrite seq_S, existsb_app in M1, M2. cbn [existsb Nat.add] in M1, M2.
  apply orb_false_elim in M1 as [M1 N1], M2 as [M2 N2]. apply orb_false_elim in N1 as [N1 _], N2 as [N2 _].
  apply IH; [lia| |done|done]. apply pair_up_inj; [by apply level_hashes..| |done|done|done].
  eapply no_collision_mono; [..|exact Hn]; apply tree_strings_level; lia.
Qed.

(** C17: [mutated] closes the door of CVE-2012-2459: two lists of transaction ids with trees of the same
    height and the same root, neither of them reported as mutated, are the same list, unless
    two of the strings hashed for their trees collide. *)
Theorem unmutated_roots (D : Sha256.dispatch) `{HD : !GoodDispatch D} (l1 l2 : list (list Z)) (root : list Z) :
  let h := CalcTreeHeight (length l1) in
  l1 <> [] -> l2 <> [] -> length l1 <= 2 ^ 30 -> length l2 <= 2 ^ 30 ->
  Forall is_hash l1 -> Forall is_hash l2 -> CalcTreeHeight (length l2) = h ->
  no_collision (tree_strings l1 h) (tree_strings l2 h) ->
  ComputeMerkleRoot D l1 = (root, false) -> ComputeMerkleRoot D l2 = (root, false) -> l1 = l2.
Proof.
  intros h N1 N2 B1 B2 H1 H2 Hh Hn. assert (S1 : small l1) by done. assert (S2 : small l2) by done.
  rewrite !(ComputeMerkleRoot_spec D) by done.
  pose proof (CalcTreeHeight_spec l1 S1) as Hh1. pose proof (CalcTreeHeight_spec l2 S2) as Hh2.
  rewrite Hh in *. fold h in Hh1 |- *. intros [= E1 M1] [= E2 M2].
  apply (level_inj l1 l2 h); [done..| |done|done]. rewrite (level_top _ _ Hh1), (level_top _ _ Hh2). congruence.
Qed.

Lemma unmutated_roots_witness :
  let l := [replicate 32 1; replicate 32 2] in
  exists root, ComputeMerkleRoot Sha256.standard l = (root, false) /\ l = l.
Proof.
  exists (ComputeMerkleRoot Sha256.standard [replicate 32 1; replicate 32 2]).1. split; [vm_compute; reflexivity|].
  refine (unmutated_roots Sha256.standard [replicate 32 1; replicate 32 2] [replicate 32 1; replicate 32 2]
    (ComputeMerkleRoot Sha256.standard [replicate 32 1; replicate 32 2]).1 _ _ _ _ _ _ _ _ _ _).
  1, 2: discriminate.
  1, 2: simpl; lia.
  1, 2: repeat constructor.
  1: reflexivity.
  1: intros x y Hx Hy _; apply list_elem_of_singleton in Hx as ->, Hy as ->; reflexivity.
  1, 2: vm_compute; reflexivity.
Defined.

(** ** Extracting from a partial tree *)

Section sound.
Context (D : Sha256.dispatch) `{HD : !GoodDispatch D} (t : CPartialMerkleTree) (l : list (list Z)).
Context (Ht : nTransactions t = length l) (Hv : Forall is_hash (vHash t)) (Hs : small l) (Hl : Forall is_hash l).

Lemma use_hash_hash k p f st : is_hash (use_hash t k p f st).1.
Proof.
  unfold use_hash. destruct (vHash t !! nHashUsed st) as [h|] eqn:E; [|done]. by apply (Forall_lookup_1 _ _ _ _ Hv E).
Qed.

Lemma extract_hash k p st : is_hash (TraverseAndExtract D t k p st).1.
Proof.
  revert p st. induction k as [|k IH]; intros p st; cbn [TraverseAndExtract];
    (destruct (vBits t !! nBitsUsed st) as [f|]; [|done]); [apply use_hash_hash|].
  destruct f; cbn [negb]; [|apply use_hash_hash].
  pose proof (IH (p * 2) (mkExtraction (S (nBitsUsed st)) (nHashUsed st) (ex_vMatch st) (ex_vnIndex st) (ex_fBad st))) as Hleft.
  destruct (TraverseAndExtract D t k (p * 2) _) as [hl st1]. cbn [fst] in Hleft.
  destruct (_ <? _).
  - pose proof (IH (p * 2 + 1) st1) as Hright. destruct (TraverseAndExtract D t k (p * 2 + 1) st1) as [hr st2].
    cbn [fst] in *. rewrite (Hash_pair D) by done. apply node_hash.
  - cbn [fst]. rewrite (Hash_pair D) by done. apply node_hash.
Qed.

(** every match appended on the way from [st] to [st'] is in the list where it says *)
Definition matches_ok (st st' : extraction) : Prop :=
  exists ms ps, ex_vMatch st' = ex_vMatch st ++ ms /\ ex_vnIndex st' = ex_vnIndex st ++ ps /\
    Forall2 (λ h i, 0 <= i /\ l !! Z.to_nat i = Some h) ms ps.

Lemma matches_ok_same st st' :
  ex_vMatch st' = ex_vMatch st -> ex_vnIndex st' = ex_vnIndex st -> matches_ok st st'.
Proof. intros E F. exists [], []. rewrite !app_nil_r. by repeat split. Qed.

Lemma matches_ok_trans st1 st2 st3 : matches_ok st1 st2 -> matches_ok st2 st3 -> matches_ok st1 st3.
Proof.
  intros (ms & ps & E & F & H) (ms' & ps' & E' & F' & H'). exists (ms ++ ms'), (ps ++ ps').
  rewrite E', F', E, F, <- !app_assoc. repeat split. by apply Forall2_app.
Qed.

Lemma use_hash_sound k (p : nat) f st h st' :
  use_hash t k p f st = (h, st') -> (k = 0%nat -> l !! p = Some h) -> matches_ok st st'.
Proof.
  unfold use_hash. intros E Hp. destruct (vHash t !! nHashUsed st) as [x|]; injection E as <- <-.
  - destruct ((k =? 0)%nat && f) eqn:Hm; [|by apply matches_ok_same]. apply andb_prop in Hm as [Hk _].
    apply Nat.eqb_eq in Hk. exists [x], [Z.of_nat p]. repeat split. constructor; [|constructor].
    split; [lia|]. rewrite Nat2Z.id. auto.
  - by apply matches_ok_same.
Qed.
(** the strings [TraverseAndExtract] hashes *)
Fixpoint extract_strings (k : nat) (p : Z) (st : extraction) : list (list Z) :=
  match vBits t !! nBitsUsed st with
  | Some true =>
      let st := mkExtraction (S (nBitsUsed st)) (nHashUsed st) (ex_vMatch st) (ex_vnIndex st) (ex_fBad st) in
      match k with
      | O => []
      | S k =>
          let '(hleft, st1) := TraverseAndExtract D t k (p * 2) st in
          if p * 2 + 1 <? CalcTreeWidth (nTransactions t) k then
            let '(hright, _) := TraverseAndExtract D t k (p * 2 + 1) st1 in
            (hleft ++ hright) :: extract_strings k (p * 2) st ++ extract_strings k (p * 2 + 1) st1
          else (hleft ++ hleft) :: extract_strings k (p * 2) st
      end
  | _ => []
  end.

Context (h : nat).

Lemma extract_sound (k p : nat) st x st' :
  (k <= h)%nat -> (h <= 30)%nat -> (p < length (level l k))%nat ->
  no_collision (extract_strings k p st) (tree_strings l h) ->
  TraverseAndExtract D t k p st = (x, st') -> level l k !! p = Some x -> matches_ok st st'.
Proof.
  revert p st x st'. induction k as [|k IH]; intros p st x st' Hk H30 Hp Hn E Hx;
    cbn [TraverseAndExtract extract_strings] in E, Hn;
    (destruct (vBits t !! nBitsUsed st) as [f|]; [|injection E as <- <-; by apply matches_ok_same]);
    set (st0 := mkExtraction (S (nBitsUsed st)) _ _ _ _) in E, Hn;
    assert (H0 : matches_ok st st0) by (by apply matches_ok_same).
  { eapply matches_ok_trans; [exact H0|]. eapply use_hash_sound; [exact E|]. done. }
  destruct f; cbn [negb] in E; [|eapply matches_ok_trans; [exact H0|]; eapply use_hash_sound; [exact E|done]].
  rewrite level_S in Hx. destruct (pair_up_lookup _ _ _ Hx) as (a & Ha & ->).
  pose proof (tree_strings_level l h k ltac:(lia) _ (pair_strings_lookup _ _ _ Ha)) as Hin.
  pose proof (lookup_lt_Some _ _ _ Ha) as Hlt. rewrite Ht, CalcTreeWidth_level in E, Hn by (done || lia).
  pose proof (level_hashes l k Hl) as Hhk. rewrite Forall_lookup in Hhk. pose proof (Hhk _ _ Ha) as Hah.
  replace (p * 2) with (Z.of_nat (2 * p)) in E, Hn by lia.
  replace (Z.of_nat (2 * p) + 1) with (Z.of_nat (2 * p + 1)) in E, Hn by lia.
  pose proof (extract_hash k (2 * p)%nat st0) as Hhl.
  destruct (TraverseAndExtract D t k (2 * p)%nat st0) as [hl st1] eqn:El. cbn [fst] in Hhl.
  destruct (level l k !! (2 * p + 1)%nat) as [b|] eqn:Hb; cbn [default from_option] in E, Hin.
  - pose proof (lookup_lt_Some _ _ _ Hb) as Hlt'. rewrite (proj2 (Z.ltb_lt _ _)) in E, Hn by lia.
    pose proof (extract_hash k (2 * p + 1)%nat st1) as Hhr.
    destruct (TraverseAndExtract D t k (2 * p + 1)%nat st1) as [hr st2] eqn:Er. cbn [fst] in Hhr.
    injection E as E E'. rewrite (Hash_pair D) in E by done.
    destruct (node_inj _ _ _ _ _ _ Hhl Hah Hn ltac:(left) Hin E) as [-> ->].
    pose proof (IH (2 * p)%nat st0 a st1 ltac:(lia) H30 Hlt) as H1. pose proof (IH (2 * p + 1)%nat st1 b st2 ltac:(lia) H30 Hlt') as H2.
    eapply matches_ok_trans; [exact H0|]. eapply matches_ok_trans; [apply H1; [|done|done]|].
    { eapply no_collision_mono; [..|exact Hn]; [|done]. intros z Hz. right. apply elem_of_app. by left. }
    eapply matches_ok_trans; [apply H2; [|done|done]|].
    { eapply no_collision_mono; [..|exact Hn]; [|done]. intros z Hz. right. apply elem_of_app. by right. }
    rewrite <- E'. destruct (decide (id b = a)); by apply matches_ok_same.
  - apply lookup_ge_None in Hb. rewrite (proj2 (Z.ltb_ge _ _)) in E, Hn by lia.
    injection E as E <-. rewrite (Hash_pair D) in E by done.
    destruct (node_inj _ _ _ _ _ _ Hhl Hah Hn ltac:(left) Hin E) as [-> _].
    eapply matches_ok_trans; [exact H0|]. apply (IH (2 * p)%nat st0 a st1); [lia|done|lia| |done|done].
    eapply no_collision_mono; [..|exact Hn]; [|done]. intros z Hz. by right.
Qed.
End sound.

(** C16: A partial tree proves no false membership, whoever made it: if [ExtractMatches] returns the root of
    a block's transaction ids, for a tree that claims as many transactions as the block has, then
    every id it reports is in the block at the position it reports, unless a string hashed
    for the proof collides with one hashed for the block. *)
Theorem ExtractMatches_sound (D : Sha256.dispatch) `{HD : !GoodDispatch D} (t : CPartialMerkleTree) (l : list (list Z))
    (vMatch vMatch' : list (list Z)) (vnIndex : list Z) (bad : bool) (root : list Z) :
  let h := CalcTreeHeight (length l) in
  l <> [] -> length l <= 2 ^ 30 -> Forall is_hash l -> Forall is_hash (vHash t) ->
  nTransactions t = length l -> root <> zero256 -> (ComputeMerkleRoot D l).1 = root ->
  no_collision (extract_strings D t h 0 (mkExtraction 0 0 [] [] (fBad t))) (tree_strings l h) ->
  ExtractMatches D t vMatch [] = (root, (vMatch', vnIndex, bad)) ->
  Forall2 (λ x i, 0 <= i /\ l !! Z.to_nat i = Some x) vMatch' vnIndex.
Proof.
  intros h Hne Hb Hl Hv Ht Hz Hroot Hn E. assert (Hs : small l) by done.
  rewrite (ComputeMerkleRoot_spec D) in Hroot by done. cbn [fst] in Hroot. unfold ExtractMatches in E. cbv zeta in E.
  do 4 (case_match; [by injection E as E _; symmetry in E|]). rewrite Ht in E.
  pose proof (CalcTreeHeight_spec l Hs) as Hh. fold h in Hh, E, Hroot.
  destruct (TraverseAndExtract D t h 0 _) as [r st] eqn:Ex. do 3 (case_match; [by injection E as E _; symmetry in E|]).
  injection E as -> <- <- <-.
  destruct (extract_sound D t l Ht Hv Hs Hl h h 0 _ _ _ ltac:(lia) (height_bound _ _ Hh)
    ltac:(rewrite (height_top _ _ Hh); lia) Hn Ex) as (ms & ps & E1 & E2 & Hm).
  - by rewrite (level_top _ _ Hh), <- Hroot.
  - cbn [ex_vMatch ex_vnIndex app] in E1, E2. by rewrite E1, E2.
Qed.

Lemma ExtractMatches_sound_witness :
  let l := [replicate 32 1; replicate 32 2] in
  let t := mkPMT 2 [true; true; false] l false in
  Forall2 (λ h i, 0 <= i /\ l !! Z.to_nat i = Some h) [replicate 32 1] [0].
Proof.
  refine (ExtractMatches_sound Sha256.standard (mkPMT 2 [true; true; false] [replicate 32 1; replicate 32 2] false)
    [replicate 32 1; replicate 32 2] [] [replicate 32 1] [0] false
    (ComputeMerkleRoot Sha256.standard [replicate 32 1; replicate 32 2]).1 _ _ _ _ _ _ _ _ _).
  - discriminate.
  - simpl. lia.
  - repeat constructor.
  - repeat constructor.
  - reflexivity.
  - vm_compute. discriminate.
  - reflexivity.
  - intros x y Hx Hy _. apply list_elem_of_singleton in Hx as ->, Hy as ->. reflexivity.
  - vm_compute. reflexivity.
Defined.

(** ** Building a partial tree and extracting from it *)

(** the positions below node [p] of level [k], and the matched ones among them *)
Definition below (n : Z) (k p : nat) : list Z := seqZ (p * 2 ^ k) (Z.min ((p + 1) * 2 ^ k) n - p * 2 ^ k).
Definition matched (vMatch : list bool) (ps : list Z) : list Z := base.filter (λ i, Is_true (vMatch !!! Z.to_nat i)) ps.

Section complete.
Context (D : Sha256.dispatch) `{HD : !GoodDispatch D} (l : list (list Z)) (vMatch : list bool).
Context (Hs : small l) (Hl : Forall is_hash l) (h : nat) (Hh : is_height l h) (Hm : mutated_from l 0 h = false).
#[local] Abbreviation n := (Z.of_nat (length l)).

Lemma in_level (k p : nat) : (p < length (level l k))%nat <-> p * 2 ^ k < n.
Proof.
  pose proof (length_level l k) as E. assert (Hk : 0 < 2 ^ k) by lia.
  split; intros H.
  - assert (p + 1 <= (n + 2 ^ k - 1) / 2 ^ k) as H1 by lia.
    apply (Z.mul_le_mono_nonneg_r _ _ (2 ^ k)) in H1; [|lia].
    pose proof (Z.mul_div_le (n + 2 ^ k - 1) (2 ^ k) Hk). lia.
  - assert (p < (n + 2 ^ k - 1) / 2 ^ k); [|lia].
    apply Z.lt_le_trans with (p + 1); [lia|]. apply Z.div_le_lower_bound; lia.
Qed.

Lemma fParentOfMatch_below (k p : nat) :
  fParentOfMatch n k p vMatch = negb (bool_decide (matched vMatch (below n k p) = [])).
Proof.
  unfold fParentOfMatch, below, matched. rewrite !Z.shiftl_mul_pow2 by lia.
  generalize (seqZ (p * 2 ^ k) (Z.min ((p + 1) * 2 ^ k) n - p * 2 ^ k)) as ps. intros ps.
  induction ps as [|i ps IH]; [done|]. cbn [existsb]. rewrite filter_cons.
  destruct (vMatch !!! Z.to_nat i) eqn:E; cbn [orb].
  - by rewrite decide_True by exact I.
  - rewrite decide_False by (intros []). done.
Qed.

(** a node's positions are its children's *)
Lemma below_children (k p : nat) :
  (p < length (level l (S k)))%nat ->
  below n (S k) p =
    below n k (2 * p) ++ (if decide (2 * p + 1 < length (level l k))%nat then below n k (2 * p + 1) else []).
Proof.
  intros Hp. apply in_level in Hp. unfold below.
  assert (E : 2 ^ S k = 2 * 2 ^ k) by (rewrite Nat2Z.inj_succ, Z.pow_succ_r by lia; done). rewrite E in *.
  assert (0 < 2 ^ k) by lia. set (w := 2 ^ k) in *.
  replace (p * (2 * w)) with ((2 * p)%nat * w) in * by lia.
  replace ((p + 1) * (2 * w)) with ((2 * p)%nat * w + w + w) by lia.
  replace (((2 * p)%nat + 1) * w) with ((2 * p)%nat * w + w) by lia.
  replace ((2 * p + 1)%nat * w) with ((2 * p)%nat * w + w) by lia.
  replace (((2 * p + 1)%nat + 1) * w) with ((2 * p)%nat * w + w + w) by lia.
  set (a := (2 * p)%nat * w) in *.
  destruct (decide (2 * p + 1 < length (level l k))%nat) as [Hr|Hr].
  - apply in_level in Hr. fold w in Hr. replace ((2 * p + 1)%nat * w) with (a + w) in Hr by (unfold a; lia).
    rewrite (Z.min_l (a + w) n) by lia. replace (a + w - a) with w by lia.
    replace (Z.min (a + w + w) n - a) with (w + (Z.min (a + w + w) n - (a + w))) by lia.
    rewrite seqZ_app by lia. done.
  - assert (n <= a + w).
    { destruct (decide (n <= a + w)); [done|]. exfalso. apply Hr, in_level. fold w. unfold a in *. lia. }
    rewrite app_nil_r, !Z.min_r by lia. done.
Qed.

Lemma matched_app ps qs : matched vMatch (ps ++ qs) = matched vMatch ps ++ matched vMatch qs.
Proof. apply filter_app. Qed.

Lemma find_equal_pair_lookup x (p : nat) a b :
  find_equal_pair x = false -> x !! (2 * p)%nat = Some a -> x !! (2 * p + 1)%nat = Some b -> a <> b.
Proof.
  revert p. induction x as [|c|c d x IH] using list_pair_ind; intros p Hx Ha Hb.
  - done.
  - destruct p; [done|]. by replace (2 * S p)%nat with (S (S (2 * p))) in Ha by lia.
  - cbn in Hx. destruct (decide (c = d)) as [|Hcd]; [done|]. destruct p as [|p]; [cbn in Ha, Hb; congruence|].
    replace (2 * S p)%nat with (S (S (2 * p))) in Ha by lia.
    replace (2 * S p + 1)%nat with (S (S (2 * p + 1))) in Hb by lia. by apply (IH p).
Qed.

Lemma unmutated_level k : (k < h)%nat -> find_equal_pair (level l k) = false.
Proof.
  intros Hk. unfold mutated_from in Hm.
  destruct (find_equal_pair (level l k)) eqn:E; [|done]. rewrite <- Hm. symmetry. apply existsb_exists.
  exists k. split; [apply in_seq; lia|done].
Qed.

(** a node and its children *)
Lemma level_children (k p : nat) :
  (p < length (level l (S k)))%nat ->
  (2 * p < length (level l k))%nat /\
  level l (S k) !!! p = node (level l k !!! (2 * p)%nat)
    (if decide (2 * p + 1 < length (level l k))%nat then level l k !!! (2 * p + 1)%nat else level l k !!! (2 * p)%nat).
Proof.
  intros Hp. destruct (lookup_lt_is_Some_2 _ _ Hp) as [x Hx]. rewrite (list_lookup_total_correct _ _ _ Hx).
  rewrite level_S in Hx. destruct (pair_up_lookup _ _ _ Hx) as (a & Ha & ->).
  split; [by apply lookup_lt_Some in Ha|]. rewrite (list_lookup_total_correct _ _ _ Ha). f_equal.
  destruct (level l k !! (2 * p + 1)%nat) as [b|] eqn:Hb; cbn [default from_option].
  - rewrite decide_True by (by apply lookup_lt_Some in Hb). symmetry. by apply list_lookup_total_correct.
  - apply lookup_ge_None in Hb. by rewrite decide_False by lia.
Qed.

Lemma level_lookup_hash k (p : nat) : (p < length (level l k))%nat -> is_hash (level l k !!! p).
Proof.
  intros Hp. pose proof (level_hashes l k Hl) as H. rewrite Forall_lookup in H.
  eapply H. by apply list_lookup_lookup_total_lt.
Qed.

Lemma below_leaf (p : nat) : (p < length l)%nat -> below n 0 p = [Z.of_nat p].
Proof.
  intros Hp. unfold below. change (2 ^ 0%nat) with 1. replace (Z.min ((p + 1) * 1) n - p * 1) with 1 by lia.
  by rewrite Z.mul_1_r.
Qed.

Definition build (k p : nat) : list bool * list (list Z) := TraverseAndBuild D n k p l vMatch.
Definition f_at (k p : nat) : bool := fParentOfMatch n k p vMatch.

Lemma build_leaf (k p : nat) :
  (k <= 31)%nat -> (p < length (level l k))%nat -> k = 0%nat \/ f_at k p = false ->
  build k p = ([f_at k p], [level l k !!! p]).
Proof.
  intros Hk Hp Hc. unfold build. pose proof (CalcHash_level D l k p Hs Hl Hk Hp) as E.
  destruct k as [|k]; cbn [TraverseAndBuild]; fold (f_at 0 p); [by rewrite <- E|]. fold (f_at (S k) p).
  destruct Hc as [|Hc]; [done|]. rewrite Hc. cbn [negb]. by rewrite E.
Qed.

Lemma build_inner (k p : nat) :
  (k <= 31)%nat -> f_at (S k) p = true ->
  build (S k) p =
    let r := if decide (2 * p + 1 < length (level l k))%nat then build k (2 * p + 1) else ([], []) in
    (true :: (build k (2 * p)).1 ++ r.1, (build k (2 * p)).2 ++ r.2).
Proof.
  intros Hk Hf. unfold build. cbn [TraverseAndBuild]. fold (f_at (S k) p). rewrite Hf. cbn [negb].
  rewrite CalcTreeWidth_level by (done || lia).
  replace (p * 2) with (Z.of_nat (2 * p)) by lia. replace (Z.of_nat (2 * p) + 1) with (Z.of_nat (2 * p + 1)) by lia.
  destruct (TraverseAndBuild D n k (2 * p)%nat l vMatch) as [b1 h1]. cbn [fst snd].
  destruct (decide (2 * p + 1 < length (level l k))%nat) as [Hr|Hr].
  - rewrite (proj2 (Z.ltb_lt _ _)) by lia. by destruct (TraverseAndBuild D n k (2 * p + 1)%nat l vMatch).
  - by rewrite (proj2 (Z.ltb_ge _ _)) by lia.
Qed.

(** no more hashes than positions, and no more than bits; a bit for each level and position at most *)
Lemma build_sizes (k p : nat) :
  (k <= 31)%nat -> (p < length (level l k))%nat ->
  (length (build k p).2 <= length (below n k p))%nat /\ (length (build k p).2 <= length (build k p).1)%nat /\
  (length (build k p).1 <= S k * length (below n k p))%nat /\ (0 < length (below n k p))%nat.
Proof.
  revert p. induction k as [|k IH]; intros p Hk Hp.
  - rewrite build_leaf, below_leaf by auto. cbn. lia.
  - assert (Hpos : (0 < length (below n (S k) p))%nat).
    { apply in_level in Hp. unfold below. rewrite length_seqZ. lia. }
    destruct (f_at (S k) p) eqn:Hf.
    + rewrite build_inner, below_children by (done || lia). cbn [fst snd].
      destruct (level_children k p Hp) as [Hlt _]. destruct (IH (2 * p)%nat ltac:(lia) Hlt) as (IH1 & IH2 & IH3 & IH4).
      rewrite length_app. cbn [length]. rewrite !length_app.
      destruct (decide _) as [Hr|Hr]; [destruct (IH (2 * p + 1)%nat ltac:(lia) Hr) as (? & ? & ? & ?)|]; cbn [length fst snd]; lia.
    + rewrite build_leaf by auto. cbn [fst snd length]. lia.
Qed.

(** extraction from a tree that contains what was built for node [p] of level [k] *)
Definition extracts (t : CPartialMerkleTree) (k p : nat) : Prop :=
  forall pre post hpre hpost st,
    vBits t = pre ++ (build k p).1 ++ post -> vHash t = hpre ++ (build k p).2 ++ hpost ->
    nBitsUsed st = length pre -> nHashUsed st = length hpre ->
    TraverseAndExtract D t k p st =
      (level l k !!! p,
       mkExtraction (length (pre ++ (build k p).1)) (length (hpre ++ (build k p).2))
         (ex_vMatch st ++ ((λ i, l !!! Z.to_nat i) <$> matched vMatch (below n k p)))
         (ex_vnIndex st ++ matched vMatch (below n k p)) (ex_fBad st)).

Lemma f_at_matched k p : f_at k p = false -> matched vMatch (below n k p) = [].
Proof.
  unfold f_at. rewrite fParentOfMatch_below. intros H. apply negb_false_iff in H.
  by apply bool_decide_eq_true in H.
Qed.

Lemma f_at_leaf (p : nat) :
  (p < length l)%nat -> matched vMatch (below n 0 p) = if f_at 0 p then [Z.of_nat p] else [].
Proof.
  intros Hp. unfold f_at. rewrite fParentOfMatch_below, below_leaf by done. unfold matched. rewrite filter_cons.
  by destruct (decide _).
Qed.

Lemma extracts_leaf t (k p : nat) :
  (k <= 31)%nat -> (p < length (level l k))%nat -> k = 0%nat \/ f_at k p = false -> extracts t k p.
Proof.
  intros Hk Hp Hc pre post hpre hpost st Eb Eh Hb Hu. rewrite (build_leaf k p Hk Hp Hc) in *. cbn [fst snd] in *.
  assert (Lb : vBits t !! nBitsUsed st = Some (f_at k p)) by (rewrite Eb, Hb; by apply list_lookup_middle).
  assert (Lh : vHash t !! nHashUsed st = Some (level l k !!! p)) by (rewrite Eh, Hu; by apply list_lookup_middle).
  assert (Hst : use_hash t k p (f_at k p) (mkExtraction (S (nBitsUsed st)) (nHashUsed st) (ex_vMatch st) (ex_vnIndex st) (ex_fBad st))
    = (level l k !!! p,
       mkExtraction (length (pre ++ [f_at k p])) (length (hpre ++ [level l k !!! p]))
         (ex_vMatch st ++ ((λ i, l !!! Z.to_nat i) <$> matched vMatch (below n k p)))
         (ex_vnIndex st ++ matched vMatch (below n k p)) (ex_fBad st))).
  { unfold use_hash. cbn [nHashUsed nBitsUsed ex_vMatch ex_vnIndex ex_fBad]. rewrite Lh, !length_app, Hb, Hu. cbn [length].
    rewrite !Nat.add_1_r. destruct k as [|k].
    - rewrite f_at_leaf by done. cbn [Nat.eqb andb]. destruct (f_at 0 p); cbn [fmap list_fmap]; rewrite ?app_nil_r, ?Nat2Z.id; done.
    - destruct Hc as [|Hc]; [done|]. rewrite (f_at_matched _ _ Hc), Hc, andb_false_r. by rewrite !app_nil_r. }
  destruct k as [|k]; cbn [TraverseAndExtract]; rewrite Lb; [exact Hst|].
  destruct Hc as [|Hc]; [done|]. rewrite Hc in *. exact Hst.
Qed.

Lemma extracts_inner t (k p : nat) :
  nTransactions t = n -> (S k <= h)%nat -> (p < length (level l (S k)))%nat -> f_at (S k) p = true ->
  (forall q, (q < length (level l k))%nat -> extracts t k q) -> extracts t (S k) p.
Proof.
  intros Ht Hk Hp Hf IH pre post hpre hpost st Eb Eh Hb Hu. pose proof (height_bound _ _ Hh) as H30.
  pose proof (build_inner k p ltac:(lia) Hf) as EB. cbv zeta in EB. rewrite EB in *.
  cbn [fst snd] in *. clear EB.
  assert (Lb : vBits t !! nBitsUsed st = Some true) by (rewrite Eb, Hb; by apply list_lookup_middle).
  cbn [TraverseAndExtract]. rewrite Lb. cbn [negb]. rewrite Ht, CalcTreeWidth_level by (done || lia).
  replace (p * 2) with (Z.of_nat (2 * p)) by lia. replace (Z.of_nat (2 * p) + 1) with (Z.of_nat (2 * p + 1)) by lia.
  destruct (level_children k p Hp) as [Hlt ->]. rewrite (below_children k p Hp), matched_app.
  set (r := if decide (2 * p + 1 < length (level l k))%nat then build k (2 * p + 1) else ([], [])) in *.
  rewrite (IH (2 * p)%nat Hlt (pre ++ [true]) (r.1 ++ post) hpre (r.2 ++ hpost))
    by (cbn [nBitsUsed nHashUsed]; rewrite ?length_app, ?Hb, ?Hu, ?Eb, ?Eh; cbn [app length]; rewrite <- ?app_assoc; done || lia).
  cbn [ex_vMatch ex_vnIndex ex_fBad].
  pose proof (level_lookup_hash k (2 * p) Hlt) as Hleft.
  destruct (decide (2 * p + 1 < length (level l k))%nat) as [Hr|Hr].
  - rewrite (proj2 (Z.ltb_lt _ _)) by lia. pose proof (level_lookup_hash k (2 * p + 1) Hr) as Hright. unfold r.
    rewrite (IH (2 * p + 1)%nat Hr (pre ++ [true] ++ (build k (2 * p)).1) post (hpre ++ (build k (2 * p)).2) hpost)
      by (cbn [nBitsUsed nHashUsed]; rewrite ?Eb, ?Eh; unfold r; cbn [app]; rewrite <- ?app_assoc; done).
    cbn [ex_vMatch ex_vnIndex ex_fBad].
    rewrite decide_False.
    2: { intros E. pose proof (unmutated_level k ltac:(lia)) as Hu'.
         refine (find_equal_pair_lookup _ p _ _ Hu' _ _ (eq_sym E)); by apply list_lookup_lookup_total_lt. }
    rewrite (Hash_pair D) by done. rewrite fmap_app, <- !app_assoc. done.
  - rewrite (proj2 (Z.ltb_ge _ _)) by lia. rewrite (Hash_pair D) by done. unfold r. cbn [fst snd].
    rewrite !app_nil_r, <- app_assoc. done.
Qed.

Lemma extract_built t (k p : nat) :
  nTransactions t = n -> (k <= h)%nat -> (p < length (level l k))%nat -> extracts t k p.
Proof.
  intros Ht. pose proof (height_bound _ _ Hh) as H30. revert p. induction k as [|k IH]; intros p Hk Hp.
  - apply extracts_leaf; auto with lia.
  - destruct (f_at (S k) p) eqn:Hf; [|apply extracts_leaf; auto with lia].
    apply extracts_inner; [done..|]. intros q Hq. apply IH; [lia|done].
Qed.
End complete.

(** ** The flag bits on the wire *)

Lemma length_pack_bits bits : length (pack_bits bits) = ((length bits + 7) / 8)%nat.
Proof. unfold pack_bits. by rewrite length_set_bits, length_replicate. Qed.

Lemma pack_bits_bytes bits : bytes (pack_bits bits).
Proof. apply set_bits_bytes, Forall_replicate. by split. Qed.

Lemma pack_bits_get bits (p : nat) :
  length bits < 2 ^ 63 -> (p < 8 * ((length bits + 7) / 8))%nat ->
  get_bit (pack_bits bits) p = bool_decide (p < length bits)%nat && (bits !!! p).
Proof.
  intros Hl Hp. rewrite get_bit_testbit. unfold pack_bits.
  assert (E : ((length bits + 7) / 8)%nat = Z.to_nat (u64 (length bits + 7) / 8)).
  { rewrite u64_small by lia. change (length bits + 7) with (Z.of_nat (length bits) + Z.of_nat 7).
    rewrite <- Nat2Z.inj_add. change 8 with (Z.of_nat 8). by rewrite <- Nat2Z.inj_div, Nat2Z.id. }
  pose proof (Nat.div_mod_eq p 8) as Ep. pose proof (Nat.mod_upper_bound p 8 ltac:(lia)) as Hr.
  rewrite E in *. rewrite (testbit_set_bits (length bits) bits (length bits) (p / 8) (p mod 8)).
  - by rewrite <- Ep.
  - done.
  - rewrite <- E. pose proof (Nat.div_mod_eq (length bits + 7) 8). pose proof (Nat.mod_upper_bound (length bits + 7) 8 ltac:(lia)). lia.
  - lia.
  - done.
Qed.

Lemma unpack_pack bits :
  length bits < 2 ^ 63 ->
  exists k : nat, unpack_bits (pack_bits bits) = bits ++ replicate k false /\
    ((length bits + k + 7) / 8 = (length bits + 7) / 8)%nat.
Proof.
  intros Hl. unfold unpack_bits. rewrite length_pack_bits.
  pose proof (Nat.div_mod_eq (length bits + 7) 8) as E.
  pose proof (Nat.mod_upper_bound (length bits + 7) 8 ltac:(lia)) as Hr.
  pose proof (pack_bits_get bits) as Hg.
  set (nb := ((length bits + 7) / 8)%nat) in *. exists (nb * 8 - length bits)%nat. split.
  - apply list_eq_same_length with (nb * 8)%nat;
      [rewrite length_app, length_replicate; lia|rewrite length_fmap, length_seq; lia|].
    intros p x y Hp Hx Hy. rewrite list_lookup_fmap, lookup_seq_lt in Hx by lia. cbn in Hx. injection Hx as <-.
    rewrite Hg by lia. case_bool_decide as Hlt.
    + rewrite lookup_app_l in Hy by done. cbn. by apply list_lookup_total_correct.
    + rewrite lookup_app_r, lookup_replicate_2 in Hy by lia. by injection Hy as <-.
  - replace (length bits + (nb * 8 - length bits) + 7)%nat with (7 + nb * 8)%nat by lia.
    rewrite Nat.div_add by lia. done.
Qed.

Lemma SHA256_bytes m : bytes (SHA256 m).
Proof.
  unfold SHA256, sha_hash. rewrite digest_WriteBE32_all.
  destruct (fold_blocks _ _ _ _ _) as [[[[[[[? ?] ?] ?] ?] ?] ?] ?]. unfold Sha256.WriteBE32_all, WriteBE32, bytes.
  rewrite !Forall_app. repeat split; apply Forall_rev, le_bytes_bytes.
Qed.

Lemma level_bytes l k : Forall bytes l -> Forall bytes (level l k).
Proof.
  destruct k as [|k]; [done|]. intros _. rewrite level_S.
  induction (level l k) using list_pair_ind; cbn [pair_up]; repeat constructor; try done; apply SHA256_bytes.
Qed.

Lemma build_bytes (D : Sha256.dispatch) `{HD : !GoodDispatch D} l vMatch (k p : nat) :
  small l -> Forall is_hash l -> Forall bytes l -> (k <= 31)%nat -> (p < length (level l k))%nat ->
  Forall (λ x, is_hash x /\ bytes x) (build D l vMatch k p).2.
Proof.
  intros Hs Hl Hb. revert p. induction k as [|k IH]; intros p Hk Hp.
  - rewrite build_leaf by auto. apply Forall_singleton. split; [by apply level_lookup_hash|].
    apply (Forall_lookup_total_1 _ _ _ (level_bytes l 0 Hb) Hp).
  - destruct (f_at l vMatch (S k) p) eqn:Hf.
    + rewrite build_inner by (done || lia). cbn [fst snd].
      destruct (level_children l k p Hp) as [Hlt _]. apply Forall_app. split; [apply IH; lia|].
      destruct (decide _) as [Hr|Hr]; [apply IH; lia|constructor].
    + rewrite build_leaf by auto. apply Forall_singleton. split; [by apply level_lookup_hash|].
      apply (Forall_lookup_total_1 _ _ _ (level_bytes l (S k) Hb) Hp).
Qed.

(** ** A proof made, sent, received and checked *)

(** what the reader has: the tree with its bits filled up to whole bytes *)
Lemma PMT_wire t {S} `{IStreamLaws S} (s : S) rest :
  in_uint 32 (nTransactions t) -> length (vHash t) <= MAX_SIZE -> Forall (λ x, is_hash x /\ bytes x) (vHash t) ->
  length (pack_bits (vBits t)) <= MAX_SIZE -> is_ok s ->
  is_pending s = written (Serialize codec_CPartialMerkleTree t) ++ rest ->
  exists s', Unserialize codec_CPartialMerkleTree s
    = (Ok (mkPMT (nTransactions t) (unpack_bits (pack_bits (vBits t))) (vHash t) false), s') /\ is_pending s' = rest.
Proof.
  intros Hn Hh Hv Hb Hs Hp.
  assert (Rh : representable (codec_vector (codec_array 32) 32) (vHash t)).
  { split; [split; [done|]|lia]. eapply Forall_impl; [exact Hv|]. intros x [Hx Hx']. unfold is_hash in Hx.
    split; [lia|]. split; [unfold MAX_SIZE; lia|done]. }
  assert (Rb : representable codec_byte_vector (pack_bits (vBits t))) by (split; [done|apply pack_bits_bytes]).
  assert (E : written (Serialize codec_CPartialMerkleTree t) = encoding codec_uint32 (nTransactions t) ++
    encoding (codec_vector (codec_array 32) 32) (vHash t) ++ encoding codec_byte_vector (pack_bits (vBits t))).
  { apply emits_written. apply emits_bind; [exact (Serialize_emits (c:=codec_uint32) (S:=CDataStream) _ Hn)|].
    apply emits_bind; by apply Serialize_emits. }
  rewrite E in Hp.
  assert (Hparse : parses (Unserialize codec_CPartialMerkleTree (S:=S))
    (encoding codec_uint32 (nTransactions t) ++
     encoding (codec_vector (codec_array 32) 32) (vHash t) ++ encoding codec_byte_vector (pack_bits (vBits t)))
    (mkPMT (nTransactions t) (unpack_bits (pack_bits (vBits t))) (vHash t) false)).
  { eapply parses_bind; [by apply (Unserialize_parses (c:=codec_uint32))|].
    eapply parses_bind; [by apply (Unserialize_parses (c:=codec_vector (codec_array 32) 32))|].
    eapply parses_bind_all; [by apply (Unserialize_parses (c:=codec_byte_vector))|]. apply parses_ret. }
  destruct (Hparse s rest Hs Hp) as (s' & E' & _ & ?). eauto.
Qed.

(** C18: A partial tree does its job: for the ids of a block that are not reported as mutated and any mask,
    the tree the constructor builds, written by its serialization to a stream and read back
    from it, gives from [ExtractMatches] the block's root, the masked ids in their order, and
    their positions. *)
Theorem partial_merkle_roundtrip (D : Sha256.dispatch) `{HD : !GoodDispatch D}
    (l : list (list Z)) (vMatch : list bool) (root : list Z) :
  l <> [] -> length l <= MaxBlockSize true / 60 -> Forall is_hash l -> Forall bytes l ->
  ComputeMerkleRoot D l = (root, false) ->
  exists t, PMT_new D l vMatch = Some t /\
  forall {S} `{IStreamLaws S} (s : S) (rest : list Z) (vMatchIn : list (list Z)),
    is_ok s -> is_pending s = written (Serialize codec_CPartialMerkleTree t) ++ rest ->
    exists t' s', Unserialize codec_CPartialMerkleTree s = (Ok t', s') /\ is_pending s' = rest /\
      let ps := matched vMatch (seqZ 0 (length l)) in
      ExtractMatches D t' vMatchIn [] = (root, ((λ i, l !!! Z.to_nat i) <$> ps, ps, false)).
Proof.
  intros Hn Hlen Hl Hb Hr. change (MaxBlockSize true / 60) with 33333 in Hlen.
  assert (Hs : small l) by (split; [done|lia]). pose proof (CalcTreeHeight_spec l Hs) as Hh.
  rewrite (ComputeMerkleRoot_spec D) in Hr by done. injection Hr as Hroot Hmut.
  set (h := CalcTreeHeight (length l)) in *. pose proof (height_bound _ _ Hh) as H30.
  assert (Hp : (0 < length (level l h))%nat) by (rewrite (height_top _ _ Hh); lia).
  destruct (build_sizes D l vMatch Hs Hl h 0 ltac:(lia) Hp) as (Sz1 & Sz2 & Sz3 & _).
  pose proof (build_bytes D l vMatch h 0 Hs Hl Hb ltac:(lia) Hp) as Hbb.
  assert (Hbelow : below (length l) h 0 = seqZ 0 (length l)).
  { destruct (decide (2 ^ h < length l)) as [Hlt|Hge].
    - exfalso. assert (1 < length (level l h))%nat; [|rewrite (height_top _ _ Hh) in *; lia].
      apply (in_level l h 1). lia.
    - unfold below. rewrite Z.mul_0_l, Z.min_r by lia. f_equal. lia. }
  rewrite Hbelow, length_seqZ in *.
  assert (E0 : (length l =? 0)%nat = false) by (by destruct l).
  unfold PMT_new. rewrite E0, u32_small by lia. fold h.
  change (TraverseAndBuild D (length l) h 0 l vMatch) with (build D l vMatch h 0).
  destruct (build D l vMatch h 0) as [bits hashes] eqn:Eb. cbn [fst snd] in *. eexists. split; [done|].
  intros S ?? s rest vMatchIn Hok Hpend.
  assert (Hbits : length bits <= 31 * 33333)
    by (apply Nat2Z.inj_le in Sz3; rewrite Nat2Z.inj_mul, Z2Nat.id in Sz3 by lia; nia).
  destruct (unpack_pack bits) as (k & Ek & Hk); [lia|].
  destruct (PMT_wire (mkPMT (length l) bits hashes false) s rest) as (s' & Es & Hs').
  - unfold in_uint. cbn. lia.
  - cbn. unfold MAX_SIZE. lia.
  - done.
  - cbn [vBits]. rewrite length_pack_bits. unfold MAX_SIZE. pose proof (Nat.Div0.div_le_upper_bound (length bits + 7) 8 (length bits + 7) ltac:(lia)). lia.
  - done.
  - done.
  - eexists _, s'. split; [exact Es|]. split; [done|]. cbn [vBits vHash nTransactions]. rewrite Ek. cbv zeta.
    unfold ExtractMatches. cbn [vBits vHash nTransactions fBad]. cbv zeta.
    rewrite (proj2 (Z.eqb_neq _ _)), (proj2 (Z.ltb_ge (MaxBlockSize true / 60) _)), (proj2 (Z.ltb_ge _ (length hashes)))
      by (change (MaxBlockSize true / 60) with 33333; destruct l; [done|]; cbn [length] in *; lia).
    rewrite length_app, length_replicate, (proj2 (Nat.ltb_ge _ _)) by lia. fold h.
    pose proof (extract_built D l vMatch Hs Hl h Hh Hmut (mkPMT (length l) (bits ++ replicate k false) hashes false) h 0 eq_refl
      ltac:(lia) Hp [] (replicate k false) [] [] (mkExtraction 0 0 [] [] false)) as Hex.
    unfold build in Hex, Eb. rewrite Eb in Hex. cbn [fst snd app vBits vHash length] in Hex. rewrite app_nil_r in Hex.
    rewrite Hbelow in Hex. change (Z.of_nat 0) with 0 in Hex. rewrite Hex by done.
    cbn [ex_fBad nBitsUsed nHashUsed ex_vMatch ex_vnIndex]. rewrite Hk, !Nat.eqb_refl. cbn [negb].
    rewrite <- Hroot. done.
Qed.

Lemma partial_merkle_roundtrip_witness :
  exists t, PMT_new Sha256.standard [replicate 32 1; replicate 32 2] [true; false] = Some t.
Proof.
  destruct (partial_merkle_roundtrip Sha256.standard [replicate 32 1; replicate 32 2] [true; false]
    (ComputeMerkleRoot Sha256.standard [replicate 32 1; replicate 32 2]).1) as (t & E & _).
  - discriminate.
  - vm_compute. discriminate.
  - repeat constructor.
  - rewrite !Forall_cons, Forall_nil. split_and!; [..|done]; apply Forall_replicate; unfold in_uint; lia.
  - vm_compute. reflexivity.
  - exists t. exact E.
Defined.
