(* ===== verification/Transaction.v ===== *)
(** * Transactions and blocks: primitives/transaction.{h,cpp}, primitives/block.{h,cpp}, amount.h

    The data of transactions and blocks with their serialization, and the hashes that name
    them.  A [CTransaction] and a [CMutableTransaction] have the same fields (the first caches
    its hash) and are one record here. *)

From S2P Require Import Prelude Bytes Streams Serialize SerializeLaws SerializeCodecs ShaSpec Sha256 Sha256Laws Hash Uint256 BlockIndex.

(** ** Amounts *)

Definition COIN : Z := 100000000.
Definition MAX_MONEY : Z := 21000000 * COIN.
Definition MoneyRange (nValue : Z) : bool := (0 <=? nValue) && (nValue <=? MAX_MONEY).

(** ** Outpoints *)

Definition TRANSACTION_NORMAL : Z := 0.
Definition TRANSACTION_FUTURE : Z := 7.

Record COutPoint := mkCOutPoint { hash : list Z; n : Z (* uint32_t *) }.

#[export] Instance COutPoint_eq_dec : EqDecision COutPoint.
Proof. solve_decision. Defined.
#[export] Instance COutPoint_countable : Countable COutPoint.
Proof.
  refine (inj_countable' (λ o, (hash o, n o)) (λ p, mkCOutPoint p.1 p.2) _). by intros [].
Defined.

Definition COutPoint_default : COutPoint := mkCOutPoint (Blob.SetNull 32) (u32 (-1)).
Definition COutPoint_IsNull (o : COutPoint) : bool := Blob.IsNull (hash o) && (n o =? u32 (-1)).
Definition COutPoint_lt (a b : COutPoint) : bool :=
  let cmp := Blob.Compare (hash a) (hash b) in (cmp <? 0) || ((cmp =? 0) && (n a <? n b)).

Definition codec_uint256 : codec (list Z) := codec_array 32.

Definition codec_COutPoint : codec COutPoint := Codec
  (λ (S : Type) (_ : OStream S) o, _ ← Serialize codec_uint256 (hash o); Serialize codec_uint32 (n o))
  (λ (S : Type) (_ : IStream S), hash ← Unserialize codec_uint256; n ← Unserialize codec_uint32; mret (mkCOutPoint hash n)).

(** ** Inputs *)

Definition SEQUENCE_FINAL : Z := 0xffffffff.
Definition SEQUENCE_LOCKTIME_DISABLE_FLAG : Z := 2 ^ 31.
Definition SEQUENCE_LOCKTIME_TYPE_FLAG : Z := 2 ^ 22.
Definition SEQUENCE_LOCKTIME_MASK : Z := 0x0000ffff.
Definition SEQUENCE_LOCKTIME_GRANULARITY : Z := 9.

Record CTxIn := mkCTxIn { prevout : COutPoint; scriptSig : list Z; nSequence : Z (* uint32_t *) }.

(** A script is serialized as the vector of its bytes. *)
Definition codec_script : codec (list Z) := codec_byte_prevector.

Definition codec_CTxIn : codec CTxIn := Codec
  (λ (S : Type) (_ : OStream S) i,
    _ ← Serialize codec_COutPoint (prevout i); _ ← Serialize codec_script (scriptSig i); Serialize codec_uint32 (nSequence i))
  (λ (S : Type) (_ : IStream S),
    prevout ← Unserialize codec_COutPoint; scriptSig ← Unserialize codec_script; nSequence ← Unserialize codec_uint32;
    mret (mkCTxIn prevout scriptSig nSequence)).

(** ** Outputs *)

Record CTxOut := mkCTxOut { nValue : Z (* CAmount *); scriptPubKey : list Z }.

Definition CTxOut_SetNull : CTxOut := mkCTxOut (-1) [].
Definition CTxOut_IsNull (o : CTxOut) : bool := nValue o =? -1.

Definition codec_CTxOut : codec CTxOut := Codec
  (λ (S : Type) (_ : OStream S) o, _ ← Serialize codec_int64 (nValue o); Serialize codec_script (scriptPubKey o))
  (λ (S : Type) (_ : IStream S),
    nValue ← Unserialize codec_int64; scriptPubKey ← Unserialize codec_script; mret (mkCTxOut nValue scriptPubKey)).

(** ** Transactions *)

Record CTransaction := mkCTransaction {
  vin : list CTxIn;
  vout : list CTxOut;
  tx_nVersion : Z;      (* uint16_t *)
  tx_nType : Z;         (* uint16_t *)
  nLockTime : Z;        (* uint32_t *)
  vExtraPayload : list Z;
}.

Definition CURRENT_VERSION : Z := 2.
Definition CTransaction_new : CTransaction := mkCTransaction [] [] CURRENT_VERSION TRANSACTION_NORMAL 0 [].
Definition IsNull (tx : CTransaction) : bool := (length (vin tx) =? 0)%nat && (length (vout tx) =? 0)%nat.
Definition IsCoinBase (tx : CTransaction) : bool :=
  match vin tx with [i] => COutPoint_IsNull (prevout i) | _ => false end.

(** whether the extra payload is serialized *)
Definition has_payload (nVersion nType : Z) : bool := (nVersion =? 3) && negb (nType =? TRANSACTION_NORMAL).

(** sizeof(CTxIn) and sizeof(CTxOut), which bound how far a vector grows before its elements are read *)
Definition sizeof_CTxIn : Z := 72.
Definition sizeof_CTxOut : Z := 40.

Definition codec_vin : codec (list CTxIn) := codec_vector codec_CTxIn sizeof_CTxIn.
Definition codec_vout : codec (list CTxOut) := codec_vector codec_CTxOut sizeof_CTxOut.

Definition codec_CTransaction : codec CTransaction := Codec
  (λ (S : Type) (_ : OStream S) tx,
    let n32bitVersion := i32 (tx_nVersion tx ||| (tx_nType tx << 16)) in
    _ ← Serialize codec_int32 n32bitVersion;
    _ ← Serialize codec_vin (vin tx);
    _ ← Serialize codec_vout (vout tx);
    _ ← Serialize codec_uint32 (nLockTime tx);
    if has_payload (tx_nVersion tx) (tx_nType tx) then Serialize codec_byte_vector (vExtraPayload tx) else mret tt)
  (λ (S : Type) (_ : IStream S),
    n32bitVersion ← Unserialize codec_int32;
    let nVersion := u16 (n32bitVersion &&& 0xffff) in
    let nType := u16 ((n32bitVersion >> 16) &&& 0xffff) in
    vin ← Unserialize codec_vin;
    vout ← Unserialize codec_vout;
    nLockTime ← Unserialize codec_uint32;
    vExtraPayload ← (if has_payload nVersion nType then Unserialize codec_byte_vector else mret []);
    mret (mkCTransaction vin vout nVersion nType nLockTime vExtraPayload)).

(** [for (const auto& tx_out : vout) ...] of [GetValueOut] *)
Fixpoint GetValueOut_loop (outs : list CTxOut) (nValueOut : Z) : result Z :=
  match outs with
  | [] => Ok nValueOut
  | tx_out :: outs =>
      let nValueOut := i64 (nValueOut + nValue tx_out) in
      if negb (MoneyRange (nValue tx_out)) || negb (MoneyRange nValueOut) then Throw "GetValueOut: value out of range"
      else GetValueOut_loop outs nValueOut
  end.
Definition GetValueOut (tx : CTransaction) : result Z := GetValueOut_loop (vout tx) 0.

(** the orderings of BIP 69 *)
Definition CompareInputBIP69 (a b : CTxIn) : bool :=
  if decide (hash (prevout a) = hash (prevout b)) then n (prevout a) <? n (prevout b)
  else Blob.Compare (rev (hash (prevout a))) (rev (hash (prevout b))) <? 0.

Definition SER_GETHASH : Z := 4.
Definition PROTOCOL_VERSION : Z := 70219.

Section hash.
Context (D : Sha256.dispatch) `{HD : !GoodDispatch D}.
(** [CMutableTransaction::GetHash] and [CTransaction::ComputeHash] *)
Definition GetHash (tx : CTransaction) : list Z := SerializeHash D codec_CTransaction tx SER_GETHASH PROTOCOL_VERSION.
End hash.

Definition GetTotalSize (tx : CTransaction) : Z := u32 (GetSerializeSize codec_CTransaction tx).

(** ** Blocks *)

Definition codec_CBlockHeader : codec Header.CBlockHeader := Codec
  (λ (S : Type) (_ : OStream S) h,
    _ ← Serialize codec_int32 (Header.nVersion h);
    _ ← Serialize codec_uint256 (Header.hashPrevBlock h);
    _ ← Serialize codec_uint256 (Header.hashMerkleRoot h);
    _ ← Serialize codec_uint32 (Header.nTime h);
    _ ← Serialize codec_uint32 (Header.nBits h);
    Serialize codec_uint32 (Header.nNonce h))
  (λ (S : Type) (_ : IStream S),
    nVersion ← Unserialize codec_int32;
    hashPrevBlock ← Unserialize codec_uint256;
    hashMerkleRoot ← Unserialize codec_uint256;
    nTime ← Unserialize codec_uint32;
    nBits ← Unserialize codec_uint32;
    nNonce ← Unserialize codec_uint32;
    mret (Header.mkCBlockHeader nVersion hashPrevBlock hashMerkleRoot nTime nBits nNonce)).

Definition CBlockHeader_SetNull : Header.CBlockHeader :=
  Header.mkCBlockHeader 0 (Blob.SetNull 32) (Blob.SetNull 32) 0 0 0.
Definition CBlockHeader_IsNull (h : Header.CBlockHeader) : bool := Header.nBits h =? 0.

(** [CBlock]: the header and the transactions ([txoutFounder] and [fChecked] stay in memory) *)
Record CBlock := mkCBlock { block_header : Header.CBlockHeader; vtx : list CTransaction }.
Definition GetBlockHeader (b : CBlock) : Header.CBlockHeader := block_header b.

(** sizeof(std::shared_ptr<const CTransaction>) *)
Definition sizeof_CTransactionRef : Z := 16.

Definition codec_CBlock : codec CBlock := Codec
  (λ (S : Type) (_ : OStream S) b,
    _ ← Serialize codec_CBlockHeader (block_header b);
    Serialize (codec_vector (codec_ptr codec_CTransaction) sizeof_CTransactionRef) (vtx b))
  (λ (S : Type) (_ : IStream S),
    header ← Unserialize codec_CBlockHeader;
    vtx ← Unserialize (codec_vector (codec_ptr codec_CTransaction) sizeof_CTransactionRef);
    mret (mkCBlock header vtx)).

Section block_hash.
Context (D : Sha256.dispatch) `{HD : !GoodDispatch D}.
(** [CBlockHeader::GetHash] *)
Definition CBlockHeader_GetHash (h : Header.CBlockHeader) : list Z :=
  SerializeHash D codec_CBlockHeader h SER_GETHASH PROTOCOL_VERSION.
End block_hash.

(** [CBlockLocator]; the stream's type and version are arguments *)
Definition codec_CBlockLocator (nType nVersion : Z) : codec (list (list Z)) := Codec
  (λ (S : Type) (_ : OStream S) vHave,
    _ ← (if (nType &&& SER_GETHASH) =? 0 then Serialize codec_int32 nVersion else mret tt);
    Serialize (codec_vector codec_uint256 32) vHave)
  (λ (S : Type) (_ : IStream S),
    _ ← (if (nType &&& SER_GETHASH) =? 0 then _ ← Unserialize codec_int32; mret tt else mret tt);
    Unserialize (codec_vector codec_uint256 32)).

(** ** Round trips *)

#[export] Instance codec_uint256_laws : CodecLaws codec_uint256 := codec_array_laws 32.
#[export] Instance codec_script_laws : CodecLaws codec_script := codec_byte_vector_laws.

(** one field after the other *)
Ltac emits_fields := repeat (apply emits_bind; [by apply Serialize_emits|]); by apply Serialize_emits.
Ltac parses_fields :=
  repeat (eapply parses_bind; [by apply Unserialize_parses|]);
  (eapply parses_bind_all; [by apply Unserialize_parses|]); apply parses_ret.

#[export, refine] Instance codec_COutPoint_laws : CodecLaws codec_COutPoint := {|
  encoding o := encoding codec_uint256 (hash o) ++ encoding codec_uint32 (n o);
  representable o := representable codec_uint256 (hash o) /\ representable codec_uint32 (n o) |}.
Proof.
  - intros S ?? o [H1 H2]. emits_fields.
  - intros S ?? [h m] [H1 H2]. parses_fields.
  - intros o [H1 H2]. apply Forall_app. split; by apply encoding_bytes.
Defined.

#[export, refine] Instance codec_CTxIn_laws : CodecLaws codec_CTxIn := {|
  encoding i := encoding codec_COutPoint (prevout i) ++ encoding codec_script (scriptSig i) ++ encoding codec_uint32 (nSequence i);
  representable i := representable codec_COutPoint (prevout i) /\ representable codec_script (scriptSig i) /\
    representable codec_uint32 (nSequence i) |}.
Proof.
  - intros S ?? i (H1 & H2 & H3). emits_fields.
  - intros S ?? [p s q] (H1 & H2 & H3). parses_fields.
  - intros i (H1 & H2 & H3). rewrite !Forall_app. split_and!; by apply encoding_bytes.
Defined.

#[export, refine] Instance codec_CTxOut_laws : CodecLaws codec_CTxOut := {|
  encoding o := encoding codec_int64 (nValue o) ++ encoding codec_script (scriptPubKey o);
  representable o := representable codec_int64 (nValue o) /\ representable codec_script (scriptPubKey o) |}.
Proof.
  - intros S ?? o [H1 H2]. emits_fields.
  - intros S ?? [v s] [H1 H2]. parses_fields.
  - intros o [H1 H2]. apply Forall_app. split; by apply encoding_bytes.
Defined.

#[export] Instance codec_vin_laws : CodecLaws codec_vin := codec_vector_laws codec_CTxIn sizeof_CTxIn.
#[export] Instance codec_vout_laws : CodecLaws codec_vout := codec_vector_laws codec_CTxOut sizeof_CTxOut.

(** the two halves of the 32-bit version *)
Lemma version_halves v t :
  in_uint 16 v -> in_uint 16 t ->
  let x := i32 (v ||| (t << 16)) in
  in_sint 32 x /\ u16 (x &&& 0xffff) = v /\ u16 ((x >> 16) &&& 0xffff) = t.
Proof.
  intros Hv Ht. cbv zeta. unfold in_uint in Hv, Ht.
  assert (E : v ||| (t << 16) = t * 2 ^ 16 + v) by (rewrite Z.lor_comm; apply lor_shiftl_add; lia).
  rewrite E. change 0xffff with (Z.ones 16). rewrite !Z.land_ones, Z.shiftr_div_pow2 by lia.
  split; [apply sint_range; lia|]. unfold sint, uint. change (2 ^ 16) with 65536. change (2 ^ 32) with 4294967296.
  change (2 ^ (32 - 1)) with 2147483648. lia_mod.
Qed.

#[export, refine] Instance codec_CTransaction_laws : CodecLaws codec_CTransaction := {|
  encoding tx := encoding codec_int32 (i32 (tx_nVersion tx ||| (tx_nType tx << 16))) ++ encoding codec_vin (vin tx) ++
    encoding codec_vout (vout tx) ++ encoding codec_uint32 (nLockTime tx) ++
    (if has_payload (tx_nVersion tx) (tx_nType tx) then encoding codec_byte_vector (vExtraPayload tx) else []);
  representable tx := in_uint 16 (tx_nVersion tx) /\ in_uint 16 (tx_nType tx) /\ representable codec_vin (vin tx) /\
    representable codec_vout (vout tx) /\ in_uint 32 (nLockTime tx) /\
    (if has_payload (tx_nVersion tx) (tx_nType tx) then representable codec_byte_vector (vExtraPayload tx)
     else vExtraPayload tx = []) |}.
Proof.
  - intros S ?? tx (H1 & H2 & H3 & H4 & H5 & H6). destruct (version_halves _ _ H1 H2) as [Hx _].
    do 4 (apply emits_bind; [by apply Serialize_emits|]).
    destruct (has_payload _ _); [by apply Serialize_emits|apply emits_ret].
  - intros S ?? [i o v t lt p] (H1 & H2 & H3 & H4 & H5 & H6). cbn [vin vout tx_nVersion tx_nType nLockTime vExtraPayload] in *.
    destruct (version_halves v t H1 H2) as (Hx & Ev & Et).
    eapply parses_bind; [by apply Unserialize_parses|]. cbv zeta. rewrite Ev, Et.
    do 3 (eapply parses_bind; [by apply Unserialize_parses|]).
    destruct (has_payload v t); [eapply parses_bind_all; [by apply Unserialize_parses|]; apply parses_ret|].
    subst p. eapply parses_bind_all; apply parses_ret.
  - intros tx (H1 & H2 & H3 & H4 & H5 & H6). destruct (version_halves _ _ H1 H2) as [Hx _]. rewrite !Forall_app.
    split_and!; try by apply encoding_bytes. destruct (has_payload _ _); [by apply encoding_bytes|constructor].
Defined.

#[export, refine] Instance codec_CBlockHeader_laws : CodecLaws codec_CBlockHeader := {|
  encoding h := encoding codec_int32 (Header.nVersion h) ++ encoding codec_uint256 (Header.hashPrevBlock h) ++
    encoding codec_uint256 (Header.hashMerkleRoot h) ++ encoding codec_uint32 (Header.nTime h) ++
    encoding codec_uint32 (Header.nBits h) ++ encoding codec_uint32 (Header.nNonce h);
  representable h := representable codec_int32 (Header.nVersion h) /\ representable codec_uint256 (Header.hashPrevBlock h) /\
    representable codec_uint256 (Header.hashMerkleRoot h) /\ representable codec_uint32 (Header.nTime h) /\
    representable codec_uint32 (Header.nBits h) /\ representable codec_uint32 (Header.nNonce h) |}.
Proof.
  - intros S ?? h (H1 & H2 & H3 & H4 & H5 & H6). emits_fields.
  - intros S ?? [] (H1 & H2 & H3 & H4 & H5 & H6). parses_fields.
  - intros h (H1 & H2 & H3 & H4 & H5 & H6). rewrite !Forall_app. split_and!; by apply encoding_bytes.
Defined.

#[export, refine] Instance codec_CBlock_laws : CodecLaws codec_CBlock := {|
  encoding b := encoding codec_CBlockHeader (block_header b) ++
    encoding (codec_vector (codec_ptr codec_CTransaction) sizeof_CTransactionRef) (vtx b);
  representable b := representable codec_CBlockHeader (block_header b) /\
    representable (codec_vector (codec_ptr codec_CTransaction) sizeof_CTransactionRef) (vtx b) |}.
Proof.
  - intros S ?? b [H1 H2]. emits_fields.
  - intros S ?? [] [H1 H2]. parses_fields.
  - intros b [H1 H2]. apply Forall_app. split; by apply encoding_bytes.
Defined.

(** ** Properties *)

(** C19: A transaction id names one transaction: of two transactions within what the format represents,
    whose serializations do not happen to collide under double SHA-256, the ids are equal
    exactly when the transactions are; the serialization itself loses nothing. *)
Theorem txid_binds (D : Sha256.dispatch) `{HD : !GoodDispatch D} (tx1 tx2 : CTransaction) :
  let b1 := written (Serialize codec_CTransaction tx1) in
  let b2 := written (Serialize codec_CTransaction tx2) in
  representable codec_CTransaction tx1 -> representable codec_CTransaction tx2 ->
  length b1 <= 2 ^ 31 -> length b2 <= 2 ^ 31 -> (SHA256d b1 = SHA256d b2 -> b1 = b2) ->
  GetHash D tx1 = GetHash D tx2 <-> tx1 = tx2.
Proof.
  intros b1 b2 R1 R2 L1 L2 Hc. split; [|by intros ->]. intros E.
  assert (E1 : b1 = encoding codec_CTransaction tx1) by (by apply emits_written, Serialize_emits).
  assert (E2 : b2 = encoding codec_CTransaction tx2) by (by apply emits_written, Serialize_emits).
  unfold GetHash in E. rewrite !(SerializeHash_spec D codec_CTransaction) in E by (done || (rewrite <- ?E1, <- ?E2; lia)).
  rewrite <- E1, <- E2 in E. specialize (Hc E).
  pose proof (Unserialize_parses (c:=codec_CTransaction) (S:=CDataStream) tx1 R1 (DataStream.new b1 0 0) []) as P1.
  pose proof (Unserialize_parses (c:=codec_CTransaction) (S:=CDataStream) tx2 R2 (DataStream.new b1 0 0) []) as P2.
  assert (Hok : is_ok (DataStream.new b1 0 0)).
  { split; [cbn; lia|]. split; [done|]. cbn [vch DataStream.new]. rewrite E1. by apply encoding_bytes. }
  assert (Hpend : is_pending (DataStream.new b1 0 0) = b1) by apply drop_0.
  destruct P1 as (s1 & Q1 & _); [done|by rewrite Hpend, app_nil_r|].
  destruct P2 as (s2 & Q2 & _); [done|by rewrite Hpend, app_nil_r, <- E2|].
  rewrite Q1 in Q2. by injection Q2.
Qed.

Lemma txid_binds_witness :
  let tx1 := mkCTransaction [] [] 2 0 0 [] in let tx2 := mkCTransaction [] [] 1 0 0 [] in
  GetHash Sha256.standard tx1 = GetHash Sha256.standard tx2 <-> tx1 = tx2.
Proof.
  assert (R : forall v, in_uint 16 v -> v <> 3 -> representable codec_CTransaction (mkCTransaction [] [] v 0 0 [])).
  { intros v Hv Hv3. repeat split; cbn; unfold in_uint, MAX_SIZE, sizeof_CTxIn, sizeof_CTxOut in *; try lia; try constructor.
    unfold has_payload. by destruct (v =? 3). }
  refine (txid_binds Sha256.standard (mkCTransaction [] [] 2 0 0 []) (mkCTransaction [] [] 1 0 0 []) _ _ _ _ _).
  - apply R; [unfold in_uint|]; lia.
  - apply R; [unfold in_uint|]; lia.
  - vm_compute. discriminate.
  - vm_compute. discriminate.
  - intros E. exfalso.
    assert (Hd : bool_decide (SHA256d (written (Serialize codec_CTransaction (mkCTransaction [] [] 2 0 0 [])))
      = SHA256d (written (Serialize codec_CTransaction (mkCTransaction [] [] 1 0 0 [])))) = false) by (vm_compute; reflexivity).
    apply bool_decide_eq_false in Hd. exact (Hd E).
Defined.

(** Blocks and everything in them survive the wire: a block within what the format represents, written
    to a stream and read back from any input stream that starts with those bytes, is the
    same block, and exactly its bytes are consumed. *)
Theorem block_roundtrip (b : CBlock) {S} `{IStreamLaws S} (s : S) (rest : list Z) :
  representable codec_CBlock b -> is_ok s -> is_pending s = written (Serialize codec_CBlock b) ++ rest ->
  exists s', Unserialize codec_CBlock s = (Ok b, s') /\ is_pending s' = rest.
Proof.
  intros Hr Hs. rewrite (emits_written _ _ (Serialize_emits (c:=codec_CBlock) b Hr)). intros Hp.
  destruct (Unserialize_parses (c:=codec_CBlock) b Hr s rest Hs Hp) as (s' & E & _ & ?). eauto.
Qed.

Definition sample_block : CBlock :=
  mkCBlock (Header.mkCBlockHeader 1 (replicate 32 0) (replicate 32 0) 7 8 9)
    [mkCTransaction [mkCTxIn COutPoint_default [1; 2] SEQUENCE_FINAL] [mkCTxOut 50 [3]] 3 5 0 [4]].

Ltac in_bounds := vm_compute; (split; [discriminate|reflexivity]).

Lemma sample_representable : representable codec_CBlock sample_block.
Proof.
  assert (H256 : representable codec_uint256 (replicate 32 0)).
  { split; [done|split; [vm_compute; discriminate|]]. apply Forall_replicate. unfold in_uint. lia. }
  refine (conj (conj _ (conj H256 (conj H256 (conj _ (conj _ _))))) (conj (conj _ _) _));
    [in_bounds|in_bounds..|vm_compute; discriminate| |unfold sizeof_CTransactionRef; lia].
  apply Forall_singleton. refine (conj _ (conj _ (conj (conj (conj _ _) _) (conj (conj (conj _ _) _) (conj _ (conj _ _))))));
    [in_bounds..|vm_compute; discriminate| |unfold sizeof_CTxIn; lia|vm_compute; discriminate| |unfold sizeof_CTxOut; lia|
     in_bounds|vm_compute; discriminate|].
  + apply Forall_singleton. refine (conj (conj H256 _) (conj (conj _ _) _));
      [in_bounds|vm_compute; discriminate| |in_bounds].
    cbn. unfold bytes. rewrite !Forall_cons, Forall_nil. unfold in_uint. lia.
  + apply Forall_singleton. refine (conj _ (conj _ _)); [in_bounds|vm_compute; discriminate|].
    cbn. unfold bytes. rewrite !Forall_cons, Forall_nil. unfold in_uint. lia.
  + cbn. unfold bytes. rewrite !Forall_cons, Forall_nil. unfold in_uint. lia.
Qed.

Lemma block_roundtrip_witness :
  let bytes := written (Serialize codec_CBlock sample_block) in
  exists s', Unserialize codec_CBlock (DataStream.new (bytes ++ [77]) 0 0) = (Ok sample_block, s') /\ is_pending s' = [77].
Proof.
  refine (block_roundtrip sample_block
    (DataStream.new (written (Serialize codec_CBlock sample_block) ++ [77]) 0 0) [77] sample_representable _ _).
  - split; [cbn; lia|]. split; [vm_compute; discriminate|]. apply Forall_app. split.
    + rewrite (emits_written _ _ (Serialize_emits (c:=codec_CBlock) sample_block sample_representable)).
      apply encoding_bytes, sample_representable.
    + apply Forall_singleton. unfold in_uint. lia.
  - cbn [is_pending CDataStream_istream]. apply drop_0.
Defined.

(** [GetValueOut] returns the sum of the outputs when they and every partial sum are amounts of money, and throws otherwise:
    it never returns a sum that wrapped around. *)
Lemma GetValueOut_loop_spec outs acc :
  Forall (λ o, in_sint 64 (nValue o)) outs -> 0 <= acc <= MAX_MONEY ->
  GetValueOut_loop outs acc =
    if forallb (λ o, MoneyRange (nValue o)) outs && (acc + foldr (λ o t, nValue o + t) 0 outs <=? MAX_MONEY)
    then Ok (acc + foldr (λ o t, nValue o + t) 0 outs) else Throw "GetValueOut: value out of range".
Proof.
  revert acc. induction outs as [|o outs IH]; intros acc Ho Hacc; cbn [GetValueOut_loop forallb foldr].
  - rewrite Z.add_0_r. by rewrite (proj2 (Z.leb_le _ _)) by lia.
  - apply Forall_cons in Ho as [Hv Ho].
    assert (Hpos : forall l, forallb (λ o, MoneyRange (nValue o)) l = true -> 0 <= foldr (λ o t, nValue o + t) 0 l).
    { induction l as [|x l IHl]; cbn; [lia|]. intros [Hx Hl]%andb_prop. unfold MoneyRange in Hx.
      apply andb_prop in Hx as [Hx _]. apply Z.leb_le in Hx. specialize (IHl Hl). lia. }
    destruct (MoneyRange (nValue o)) eqn:Hm; cbn [negb orb andb]; [|done].
    unfold MoneyRange in Hm. apply andb_prop in Hm as [Hm1 Hm2]. apply Z.leb_le in Hm1, Hm2.
    rewrite sint_small by (unfold MAX_MONEY, COIN, in_sint in *; lia).
    destruct (MoneyRange (acc + nValue o)) eqn:Hs; cbn [negb].
    + unfold MoneyRange in Hs. apply andb_prop in Hs as [Hs1 Hs2]. apply Z.leb_le in Hs1, Hs2.
      rewrite IH by (done || lia). by rewrite !Z.add_assoc.
    + destruct (forallb _ outs) eqn:Hf; [|done]. specialize (Hpos outs Hf).
      unfold MoneyRange in Hs. rewrite (proj2 (Z.leb_le 0 (acc + nValue o))) in Hs by lia. apply Z.leb_gt in Hs.
      cbn [andb]. rewrite (proj2 (Z.leb_gt _ _)); [done|]. lia.
Qed.

Lemma GetValueOut_spec tx :
  Forall (λ o, in_sint 64 (nValue o)) (vout tx) ->
  GetValueOut tx =
    if forallb (λ o, MoneyRange (nValue o)) (vout tx) && (foldr (λ o t, nValue o + t) 0 (vout tx) <=? MAX_MONEY)
    then Ok (foldr (λ o t, nValue o + t) 0 (vout tx)) else Throw "GetValueOut: value out of range".
Proof. intros Ho. apply (GetValueOut_loop_spec _ 0 Ho). unfold MAX_MONEY, COIN. lia. Qed.
