(* ===== verification/Compressor.v ===== *)
(** * Compact outputs: compressor.h and compressor.cpp, pubkey.h

    The compressed forms of amounts and of the usual scripts, in which the coins database and
    the undo files store outputs.

    Public keys are byte strings ([CPubKey]); what the code asks of the elliptic curve library is
    the class [Secp256k1]: whether a serialized key is a point, and its uncompressed form. *)

From S2P Require Import Prelude Bytes Streams Serialize SerializeLaws SerializeCodecs BlockHash Script Transaction.

(** ** Public keys: pubkey.h *)

Module PubKey.

(** the array [vch] of 65 bytes, whose first byte gives the length of the key *)
Definition CPubKey : Type := list Z.

Definition PUBLIC_KEY_SIZE : Z := 65.
Definition COMPRESSED_PUBLIC_KEY_SIZE : Z := 33.

Definition GetLen (chHeader : Z) : Z :=
  if (chHeader =? 2) || (chHeader =? 3) then COMPRESSED_PUBLIC_KEY_SIZE
  else if (chHeader =? 4) || (chHeader =? 6) || (chHeader =? 7) then PUBLIC_KEY_SIZE
  else 0.

Definition Invalidate (k : CPubKey) : CPubKey := <[0%nat := 0xFF]> k.

(** The constructor leaves the array uninitialised; it is zero here, and only its first byte is
    looked at before it is set. *)
Definition new : CPubKey := Invalidate (replicate 65 0).

Definition ValidSize (vch : list Z) : bool :=
  match vch with [] => false | h :: _ => GetLen h =? length vch end.

Definition Set_ (k : CPubKey) (data : list Z) : CPubKey :=
  let len := match data with [] => 0 | h :: _ => GetLen h end in
  if negb (len =? 0) && (len =? length data) then memcpy k 0 data else Invalidate k.
Definition of_bytes (data : list Z) : CPubKey := Set_ new data.

Definition size (k : CPubKey) : Z := GetLen (nth 0 k 0).
(** the bytes from [begin()] to [end()] *)
Definition bytes_of (k : CPubKey) : list Z := take (Z.to_nat (size k)) k.
Definition IsValid (k : CPubKey) : bool := 0 <? size k.
Definition IsCompressed (k : CPubKey) : bool := size k =? COMPRESSED_PUBLIC_KEY_SIZE.

(** What is used of the library: [secp256k1_ec_pubkey_parse] succeeds, and the result of
    [secp256k1_ec_pubkey_serialize] with SECP256K1_EC_UNCOMPRESSED on the parsed key. *)
Class Secp256k1 := {
  ec_pubkey_parse : list Z -> bool;
  ec_pubkey_uncompressed : list Z -> list Z;
}.

Section secp256k1.
Context `{Secp256k1}.
Definition IsFullyValid (k : CPubKey) : bool := if negb (IsValid k) then false else ec_pubkey_parse (bytes_of k).

(** the new key, and whether it succeeded *)
Definition Decompress (k : CPubKey) : CPubKey * bool :=
  if negb (IsValid k) then (k, false)
  else if negb (ec_pubkey_parse (bytes_of k)) then (k, false)
  else (Set_ k (ec_pubkey_uncompressed (bytes_of k)), true).
End secp256k1.

(** Serialization, as if this was a byte vector.  [Unserialize] skips a key that is too long. *)
Fixpoint skip_bytes {S} `{IStream S} (len : nat) : action S unit :=
  match len with
  | O => mret tt
  | Datatypes.S len => _ ← is_read 1; skip_bytes len
  end.

Definition Serialize_CPubKey {S} `{OStream S} (k : CPubKey) : action S unit :=
  let len := size k in _ ← WriteCompactSize len; os_write (bytes_of k).

(** [k] is the object read into; a key shorter than its header says keeps old bytes *)
Definition Unserialize_CPubKey {S} `{IStream S} (k : CPubKey) : action S CPubKey :=
  len ← ReadCompactSize;
  let len := u32 len in
  if len <=? PUBLIC_KEY_SIZE then vch ← is_read len; mret (memcpy k 0 vch)
  else _ ← skip_bytes (Z.to_nat len); mret (Invalidate k).
End PubKey.

(** The documented behaviour of the library that compressed scripts rely on: an uncompressed
    serialization is 65 bytes with header 4; the compressed form of a valid uncompressed key (its
    first coordinate, and the parity of its second in the header) is valid and decompresses to
    that key. *)
Class Secp256k1Laws `{PubKey.Secp256k1} : Prop := {
  ec_uncompressed_valid k :
    PubKey.ec_pubkey_parse k = true ->
    exists xy, PubKey.ec_pubkey_uncompressed k = 4 :: xy /\ length xy = 64%nat;
  ec_decompress x y :
    length x = 32%nat -> length y = 32%nat -> PubKey.ec_pubkey_parse (4 :: x ++ y) = true ->
    PubKey.ec_pubkey_parse ((2 + nth 31 y 0 `mod` 2) :: x) = true /\
    PubKey.ec_pubkey_uncompressed ((2 + nth 31 y 0 `mod` 2) :: x) = 4 :: x ++ y;
}.

(** ** Scripts: CScriptCompressor *)

Module ScriptCompressor.
Import PubKey.

Definition nSpecialScripts : Z := 6.

Section secp256k1.
Context `{Secp256k1}.

(** [script[i]] of an index that the size test before it guards *)
Definition at_ (script : list Z) (i : nat) : Z := nth i script 0.

Definition IsToKeyID (script : list Z) : option (list Z) :=
  if (length script =? 25)%nat && (at_ script 0 =? OP_DUP) && (at_ script 1 =? OP_HASH160)
     && (at_ script 2 =? 20) && (at_ script 23 =? OP_EQUALVERIFY) && (at_ script 24 =? OP_CHECKSIG)
  then Some (take 20 (drop 3 script)) else None.

Definition IsToScriptID (script : list Z) : option (list Z) :=
  if (length script =? 23)%nat && (at_ script 0 =? OP_HASH160) && (at_ script 1 =? 20) && (at_ script 22 =? OP_EQUAL)
  then Some (take 20 (drop 2 script)) else None.

Definition IsToPubKey (script : list Z) : option CPubKey :=
  if (length script =? 35)%nat && (at_ script 0 =? 33) && (at_ script 34 =? OP_CHECKSIG)
     && ((at_ script 1 =? 0x02) || (at_ script 1 =? 0x03))
  then Some (Set_ new (take 33 (drop 1 script)))
  else if (length script =? 67)%nat && (at_ script 0 =? 65) && (at_ script 66 =? OP_CHECKSIG) && (at_ script 1 =? 0x04)
  then let pubkey := Set_ new (take 65 (drop 1 script)) in if IsFullyValid pubkey then Some pubkey else None
  else None.

Definition Compress (script : list Z) : option (list Z) :=
  match IsToKeyID script with
  | Some keyID => Some (0x00 :: keyID)
  | None =>
  match IsToScriptID script with
  | Some scriptID => Some (0x01 :: scriptID)
  | None =>
  match IsToPubKey script with
  | Some pubkey =>
      let x := take 32 (drop 1 pubkey) in
      if (at_ pubkey 0 =? 0x02) || (at_ pubkey 0 =? 0x03) then Some (at_ pubkey 0 :: x)
      else if at_ pubkey 0 =? 0x04 then Some ((0x04 ||| (at_ pubkey 64 &&& 0x01)) :: x)
      else None
  | None => None
  end end end.

Definition GetSpecialSize (nSize : Z) : Z :=
  if (nSize =? 0) || (nSize =? 1) then 20
  else if (nSize =? 2) || (nSize =? 3) || (nSize =? 4) || (nSize =? 5) then 32
  else 0.

(** the new script, the old one when it fails; the assertion on the size is [None] *)
Definition Decompress_script (script : list Z) (nSize : Z) (inp : list Z) : option (list Z * bool) :=
  if nSize =? 0x00 then
    Some ([OP_DUP; OP_HASH160; 20] ++ take 20 inp ++ [OP_EQUALVERIFY; OP_CHECKSIG], true)
  else if nSize =? 0x01 then
    Some ([OP_HASH160; 20] ++ take 20 inp ++ [OP_EQUAL], true)
  else if (nSize =? 0x02) || (nSize =? 0x03) then
    Some ([33; nSize] ++ take 32 inp ++ [OP_CHECKSIG], true)
  else if (nSize =? 0x04) || (nSize =? 0x05) then
    let vch := (nSize - 2) :: take 32 inp in
    let '(pubkey, ok) := Decompress (of_bytes vch) in
    if negb ok then Some (script, false)
    else if size pubkey =? 65 then Some ([65] ++ take 65 pubkey ++ [OP_CHECKSIG], true)
    else None
  else Some (script, false).

Definition Serialize_script {S} `{OStream S} (script : list Z) : action S unit :=
  match Compress script with
  | Some compr => os_write compr
  | None =>
      let nSize := u32 (length script + nSpecialScripts) in
      _ ← WriteVarInt 32 nSize; os_write script
  end.

(** [s.ignore(n)]: the stream classes read and drop the bytes, in blocks of at most 4096 *)
Fixpoint ignore_loop {S} `{IStream S} (fuel : nat) (nSize : Z) : action S unit :=
  match fuel with
  | O => mret tt
  | Datatypes.S fuel =>
      if 0 <? nSize then
        let nNow := Z.min nSize 4096 in _ ← is_read nNow; ignore_loop fuel (nSize - nNow)
      else mret tt
  end.
Definition ignore {S} `{IStream S} (nSize : Z) : action S unit := ignore_loop (Z.to_nat nSize) nSize.

(** [script] is the script the compressor refers to, before the call *)
Definition Unserialize_script {S} `{IStream S} (script : list Z) : action S (list Z) :=
  nSize ← ReadVarInt 32;
  if nSize <? nSpecialScripts then
    vch ← is_read (GetSpecialSize nSize);
    match Decompress_script script nSize vch with
    | Some (script, _) => mret script
    | None => throw "assertion failed"
    end
  else
    let nSize := u32 (nSize - nSpecialScripts) in
    if MAX_SCRIPT_SIZE <? nSize then
      match Script.push_opcode script OP_RETURN with
      | Ok script => _ ← ignore nSize; mret script
      | Throw msg => throw msg
      end
    else is_read nSize.

(** as it is used, on the empty script of a new [CTxOut] *)
Definition CScriptCompressor : codec (list Z) := Codec
  (λ (S : Type) (_ : OStream S), Serialize_script) (λ (S : Type) (_ : IStream S), Unserialize_script []).
End secp256k1.
End ScriptCompressor.

(** ** Amounts and outputs: CTxOutCompressor *)

Fixpoint CompressAmount_loop (fuel : nat) (n e : Z) : Z * Z :=
  match fuel with
  | O => (n, e)
  | S fuel => if (n `mod` 10 =? 0) && (e <? 9) then CompressAmount_loop fuel (n / 10) (e + 1) else (n, e)
  end.

(** The loop ends after nine rounds; [None]: the assertion fails. *)
Definition CompressAmount (n : Z) : option Z :=
  if n =? 0 then Some 0
  else
    let '(n, e) := CompressAmount_loop 10 n 0 in
    if e <? 9 then
      let d := n `mod` 10 in
      if (1 <=? d) && (d <=? 9) then
        let n := n / 10 in Some (u64 (1 + (n * 9 + d - 1) * 10 + e))
      else None
    else Some (u64 (1 + (n - 1) * 10 + 9)).

Fixpoint DecompressAmount_loop (e : nat) (n : Z) : Z :=
  match e with O => n | S e => DecompressAmount_loop e (u64 (n * 10)) end.

Definition DecompressAmount (x : Z) : Z :=
  if x =? 0 then 0
  else
    let x := x - 1 in
    let e := x `mod` 10 in
    let x := x / 10 in
    let n := if e <? 9 then let d := x `mod` 9 + 1 in let x := x / 9 in u64 (x * 10 + d) else u64 (x + 1) in
    DecompressAmount_loop (Z.to_nat e) n.

Section txout.
Context `{PubKey.Secp256k1}.

Definition CTxOutCompressor : codec CTxOut := Codec
  (λ (S : Type) (_ : OStream S) txout,
    match CompressAmount (u64 (nValue txout)) with
    | Some nVal => _ ← WriteVarInt 64 nVal; Serialize ScriptCompressor.CScriptCompressor (scriptPubKey txout)
    | None => throw "assertion failed"
    end)
  (λ (S : Type) (_ : IStream S),
    nVal ← ReadVarInt 64;
    let nValue := i64 (DecompressAmount nVal) in
    scriptPubKey ← Unserialize ScriptCompressor.CScriptCompressor;
    mret (mkCTxOut nValue scriptPubKey)).
End txout.
