(* ===== verification/CompressorLaws.v ===== *)
(** * Properties of compressed outputs

    Amounts: [amount_of] is the number an encoding stands for; [CompressAmount] and [amount_of]
    are inverse to each other.  Scripts: what [Compress] shortens, [Decompress] restores, and the
    streams written are read back. *)

From S2P Require Import Prelude Bytes Streams Serialize SerializeLaws SerializeCodecs BlockHash Script Transaction Compressor.
Import PubKey ScriptCompressor.

(** ** Amounts *)

Lemma CompressAmount_loop_spec (fuel : nat) m e m' e' :
  0 < m -> 0 <= e <= 9 -> 9 - e < fuel -> CompressAmount_loop fuel m e = (m', e') ->
  m * 10 ^ e = m' * 10 ^ e' /\ e <= e' <= 9 /\ 0 < m' /\ (e' = 9 \/ m' `mod` 10 <> 0).
Proof.
  revert m e. induction fuel as [|fuel IH]; intros m e Hm He Hf; cbn [CompressAmount_loop]; [lia|].
  destruct (m `mod` 10 =? 0) eqn:E0; cbn [andb].
  - apply Z.eqb_eq in E0. destruct (e <? 9) eqn:E9.
    + apply Z.ltb_lt in E9. intros E. pose proof (Z_div_exact_full_2 m 10 ltac:(lia) E0) as Ed.
      apply IH in E; [|lia..]. destruct E as (E & H1 & H2 & H3). split; [|split; [lia|done]].
      rewrite <- E, Z.pow_add_r by lia. change (10 ^ 1) with 10. rewrite Ed at 1. lia.
    + apply Z.ltb_ge in E9. intros [= <- <-]. split_and!; try (done || lia); left; lia.
  - apply Z.eqb_neq in E0. intros [= <- <-]. split_and!; try (done || lia); by right.
Qed.

(** the amount an encoding stands for, before it is cut to 64 bits *)
Definition amount_of (x : Z) : Z :=
  if x =? 0 then 0
  else
    let e := (x - 1) `mod` 10 in
    let q := (x - 1) / 10 in
    (if e <? 9 then q / 9 * 10 + (q `mod` 9 + 1) else q + 1) * 10 ^ e.

Lemma DecompressAmount_loop_spec (e : nat) m :
  in_uint 64 m -> DecompressAmount_loop e m = u64 (m * 10 ^ e).
Proof.
  revert m. induction e as [|e IH]; intros m Hm; cbn [DecompressAmount_loop].
  - by rewrite Z.mul_1_r, uint_small.
  - rewrite IH by (apply uint_range; lia). unfold uint. rewrite Z.mul_mod_idemp_l by lia.
    f_equal. rewrite Nat2Z.inj_succ, Z.pow_succ_r by lia. lia.
Qed.

Lemma DecompressAmount_amount_of x : in_uint 64 x -> DecompressAmount x = u64 (amount_of x).
Proof.
  intros Hx. unfold DecompressAmount, amount_of. destruct (x =? 0); [done|]. cbv zeta.
  assert (He : 0 <= (x - 1) `mod` 10 < 10) by (apply Z.mod_pos_bound; lia).
  rewrite DecompressAmount_loop_spec by (case_match; apply uint_range; lia). rewrite Z2Nat.id by lia.
  case_match; unfold uint; by rewrite Z.mul_mod_idemp_l by lia.
Qed.

(** an encoding with exponent [e], from the digits *)
Lemma amount_of_small a d e :
  0 <= a -> 1 <= d <= 9 -> 0 <= e < 9 -> amount_of (1 + (a * 9 + d - 1) * 10 + e) = (a * 10 + d) * 10 ^ e.
Proof.
  intros Ha Hd He. unfold amount_of. rewrite (proj2 (Z.eqb_neq _ _)) by lia. cbv zeta.
  replace ((1 + (a * 9 + d - 1) * 10 + e - 1) `mod` 10) with e by lia_mod.
  replace ((1 + (a * 9 + d - 1) * 10 + e - 1) / 10) with (a * 9 + (d - 1)) by lia_mod.
  rewrite (proj2 (Z.ltb_lt e 9)) by lia. do 2 f_equal; [|]; lia_mod.
Qed.

Lemma amount_of_nine m : 0 < m -> amount_of (1 + (m - 1) * 10 + 9) = m * 10 ^ 9.
Proof.
  intros Hm. unfold amount_of. rewrite (proj2 (Z.eqb_neq _ _)) by lia. cbv zeta.
  replace ((1 + (m - 1) * 10 + 9 - 1) `mod` 10) with 9 by lia_mod.
  replace ((1 + (m - 1) * 10 + 9 - 1) / 10) with (m - 1) by lia_mod.
  change (9 <? 9) with false. cbv iota. f_equal. lia.
Qed.

(** every positive number is of exactly one of the two forms *)
Lemma CompressAmount_spec v :
  0 <= v <= (2 ^ 64 - 1) / 9 ->
  exists x, CompressAmount v = Some x /\ 0 <= x <= 9 * v + 9 /\ in_uint 64 x /\ amount_of x = v.
Proof.
  intros Hv. unfold CompressAmount. destruct (v =? 0) eqn:E0.
  { apply Z.eqb_eq in E0 as ->. exists 0. unfold in_uint. split_and!; (done || lia). }
  apply Z.eqb_neq in E0.
  destruct (CompressAmount_loop 10 v 0) as [m e] eqn:EL.
  apply CompressAmount_loop_spec in EL as (E & He & Hm & Hd); [|lia..].
  change (10 ^ 0) with 1 in E. rewrite Z.mul_1_r in E.
  assert (Hp : e < 10 ^ e) by (apply Z.pow_gt_lin_r; lia).
  destruct (e <? 9) eqn:E9.
  - apply Z.ltb_lt in E9. destruct Hd as [->|Hd]; [lia|].
    assert (Hd' : 1 <= m `mod` 10 <= 9) by lia_mod.
    rewrite (proj2 (Z.leb_le 1 _)), (proj2 (Z.leb_le _ 9)) by lia. cbn [andb]. cbv zeta.
    assert (Hdm : m = m / 10 * 10 + m `mod` 10) by lia_mod.
    assert (Hb : 1 + (m / 10 * 9 + m `mod` 10 - 1) * 10 + e <= 9 * v).
    { assert (m + (e - 1 + 1) * m <= v \/ e = 0) as [Hme| ->]; [| |].
      - destruct (decide (e = 0)) as [->|]; [by right|left]. rewrite E.
        assert (1 + e <= 10 ^ e) by lia. nia.
      - nia.
      - change (10 ^ 0) with 1 in E. lia. }
    eexists. split; [done|]. rewrite uint_small by (unfold in_uint; lia_mod).
    split; [lia_mod|]. split; [unfold in_uint; lia_mod|]. rewrite amount_of_small by lia. rewrite <- Hdm. lia.
  - apply Z.ltb_ge in E9. assert (e = 9) as -> by lia. eexists. split; [done|].
    rewrite uint_small by (unfold in_uint; lia). split; [lia|]. split; [unfold in_uint; lia|].
    rewrite amount_of_nine by lia. lia.
Qed.

(** a positive amount as digits and exponent, and back *)
Lemma amount_of_digits x :
  0 < x -> exists m e, amount_of x = m * 10 ^ e /\ 0 < m /\ 0 <= e <= 9 /\ (e = 9 \/ m `mod` 10 <> 0) /\ x = if e <? 9 then 1 + (m / 10 * 9 + m `mod` 10 - 1) * 10 + e else 1 + (m - 1) * 10 + 9.
Proof.
  intros Hx. unfold amount_of. rewrite (proj2 (Z.eqb_neq x 0)) by lia. cbv zeta.
  assert (He : 0 <= (x - 1) `mod` 10 < 10) by lia_mod.
  destruct ((x - 1) `mod` 10 <? 9) eqn:E9.
  - apply Z.ltb_lt in E9. set (q := (x - 1) / 10). exists (q / 9 * 10 + (q `mod` 9 + 1)), ((x - 1) `mod` 10).
    assert (0 <= q / 9 /\ 0 <= q `mod` 9 < 9) as [Hq1 Hq2] by (unfold q; lia_mod).
    assert (Em : (q / 9 * 10 + (q `mod` 9 + 1)) `mod` 10 = q `mod` 9 + 1) by lia_mod.
    assert (Ed : (q / 9 * 10 + (q `mod` 9 + 1)) / 10 = q / 9) by lia_mod.
    rewrite (proj2 (Z.ltb_lt _ 9) E9), Em, Ed. split_and!; try (done || lia); try (right; lia); unfold q in *; lia_mod.
  - apply Z.ltb_ge in E9. exists ((x - 1) / 10 + 1), 9. replace ((x - 1) `mod` 10) with 9 by lia.
    change (9 <? 9) with false. cbv iota. split_and!; first [done|by left|lia_mod].
Qed.

Lemma digits_unique m e m' e' :
  0 < m -> 0 < m' -> 0 <= e <= 9 -> 0 <= e' <= 9 -> (e = 9 \/ m `mod` 10 <> 0) -> m * 10 ^ e = m' * 10 ^ e' -> e' <= e.
Proof.
  intros Hm Hm' He He' Hd E. destruct (decide (e' <= e)) as [|Hlt]; [done|exfalso].
  destruct Hd as [->|Hd]; [lia|]. apply Hd.
  replace e' with (e + 1 + (e' - e - 1)) in E by lia. rewrite !Z.pow_add_r in E by lia. change (10 ^ 1) with 10 in E.
  assert (E' : m = m' * 10 ^ (e' - e - 1) * 10).
  { apply (Z.mul_reg_r _ _ (10 ^ e)); [apply Z.pow_nonzero; lia|]. rewrite E. ring. }
  rewrite E'. apply Z.mod_mul. lia.
Qed.

Lemma amount_of_inj x y : 0 <= x -> 0 <= y -> amount_of x = amount_of y -> x = y.
Proof.
  assert (Hpos : forall z, 0 < z -> 0 < amount_of z).
  { intros z Hz. destruct (amount_of_digits z Hz) as (m & e & -> & Hm & He & _).
    assert (0 < 10 ^ e) by (apply Z.pow_pos_nonneg; lia). nia. }
  intros Hx Hy E. destruct (decide (x = 0)) as [->|]; [destruct (decide (y = 0)) as [->|]; [done|]|].
  { specialize (Hpos y ltac:(lia)). change (amount_of 0) with 0 in E. lia. }
  destruct (decide (y = 0)) as [->|]. { specialize (Hpos x ltac:(lia)). change (amount_of 0) with 0 in E. lia. }
  destruct (amount_of_digits x ltac:(lia)) as (m & e & E1 & Hm & He & Hd & ->).
  destruct (amount_of_digits y ltac:(lia)) as (m' & e' & E2 & Hm' & He' & Hd' & ->).
  rewrite E1, E2 in E. assert (e = e') as <-.
  { apply Z.le_antisymm; [by eapply (digits_unique m' e' m e)|by eapply (digits_unique m e m' e')]. }
  assert (m = m') as <- by (apply (Z.mul_reg_r _ _ (10 ^ e)); [apply Z.pow_nonzero; lia|done]). done.
Qed.

(** ** Public keys *)

Lemma memcpy_0 k data : memcpy k 0 data = data ++ drop (length data) k.
Proof. done. Qed.

Lemma Set_bytes k data :
  length k = 65%nat -> PubKey.ValidSize data = true ->
  Set_ k data = data ++ drop (length data) k /\ size (Set_ k data) = length data /\ bytes_of (Set_ k data) = data.
Proof.
  intros Hk Hv. destruct data as [|h data]; [done|]. unfold PubKey.ValidSize in Hv. pose proof Hv as Hv'. apply Z.eqb_eq in Hv'.
  assert (E : Set_ k (h :: data) = (h :: data) ++ drop (length (h :: data)) k).
  { unfold Set_. rewrite Hv, andb_true_r. by rewrite (proj2 (Z.eqb_neq _ _)) by (rewrite Hv'; cbn; lia). }
  assert (Es : size (Set_ k (h :: data)) = length (h :: data)) by (rewrite E; exact Hv').
  split_and!; [done|done|]. unfold bytes_of. rewrite Es, Nat2Z.id, E. by rewrite take_app_length.
Qed.

Lemma of_bytes_valid data : PubKey.ValidSize data = true -> size (of_bytes data) = length data /\ bytes_of (of_bytes data) = data.
Proof. intros Hv. by destruct (Set_bytes PubKey.new data eq_refl Hv) as (_ & ? & ?). Qed.

(** A key written is read back into any key object, with the same bytes. *)
Lemma CPubKey_emits {S} `{OStreamLaws S} data :
  PubKey.ValidSize data = true -> emits (S:=S) (Serialize_CPubKey (of_bytes data)) (sized_block data).
Proof.
  intros Hv. destruct (of_bytes_valid data Hv) as [Es Eb]. unfold Serialize_CPubKey. cbv zeta. rewrite Es, Eb.
  apply emits_bind; [|apply emits_write]. apply emits_compact_size.
  destruct data as [|h data]; [done|]. unfold PubKey.ValidSize in Hv. apply Z.eqb_eq in Hv. rewrite <- Hv.
  unfold in_uint, GetLen, PUBLIC_KEY_SIZE, COMPRESSED_PUBLIC_KEY_SIZE. repeat case_match; lia.
Qed.

Lemma CPubKey_parses {S} `{IStreamLaws S} data k :
  PubKey.ValidSize data = true -> length k = 65%nat ->
  parses (S:=S) (Unserialize_CPubKey k) (sized_block data) (memcpy k 0 data) /\ bytes_of (memcpy k 0 data) = data.
Proof.
  intros Hv Hk. destruct (Set_bytes k data Hk Hv) as (E & _ & Eb).
  assert (Hl : length data <= 65).
  { destruct data as [|h data]; [done|]. unfold PubKey.ValidSize in Hv. apply Z.eqb_eq in Hv. rewrite <- Hv.
    unfold GetLen, PUBLIC_KEY_SIZE, COMPRESSED_PUBLIC_KEY_SIZE. repeat case_match; lia. }
  split; [|by rewrite memcpy_0, <- E].
  eapply parses_bind; [apply parses_compact_size; unfold MAX_SIZE; lia|]. cbv zeta.
  rewrite uint_small by (unfold in_uint; lia). unfold PUBLIC_KEY_SIZE. rewrite (proj2 (Z.leb_le _ 65)) by lia.
  eapply parses_bind_all; [apply parses_read; [by rewrite Nat2Z.id|unfold MAX_SIZE; lia]|apply parses_ret].
Qed.

(** ** Scripts *)

(** a list of a known length as its elements *)
Tactic Notation "as_elements" hyp(l) integer(n) := do n (destruct l as [|? l]; [discriminate|]); destruct l as [|? l]; [|discriminate].
Ltac split_tests H := repeat (let H' := fresh H in apply andb_prop in H as [H H']; try apply Z.eqb_eq in H').

Section secp256k1.
Context `{HL : Secp256k1Laws}.

Lemma IsToKeyID_spec script h :
  IsToKeyID script = Some h -> length h = 20%nat /\ script = [OP_DUP; OP_HASH160; 20] ++ h ++ [OP_EQUALVERIFY; OP_CHECKSIG].
Proof.
  unfold IsToKeyID. case_match eqn:E; [|done]. intros [= <-]. split_tests E. apply Nat.eqb_eq in E.
  as_elements script 25. cbn in *. by subst.
Qed.

Lemma IsToScriptID_spec script h :
  IsToScriptID script = Some h -> length h = 20%nat /\ script = [OP_HASH160; 20] ++ h ++ [OP_EQUAL].
Proof.
  unfold IsToScriptID. case_match eqn:E; [|done]. intros [= <-]. split_tests E. apply Nat.eqb_eq in E.
  as_elements script 23. cbn in *. by subst.
Qed.

(** the two forms of a key that is compressed *)
Definition compressed_key (k : list Z) : Prop := exists c x, (c = 2 \/ c = 3) /\ length x = 32%nat /\ k = c :: x.
Definition uncompressed_key (k : list Z) : Prop :=
  exists x y, length x = 32%nat /\ length y = 32%nat /\ k = 4 :: x ++ y /\ ec_pubkey_parse k = true.

Lemma IsToPubKey_spec script key :
  IsToPubKey script = Some key ->
  exists k, key = of_bytes k /\ script = [Z.of_nat (length k)] ++ k ++ [OP_CHECKSIG] /\ (compressed_key k \/ uncompressed_key k).
Proof.
  unfold IsToPubKey. case_match eqn:E.
  - intros [= <-]. apply andb_prop in E as [E Eh]. split_tests E. apply Nat.eqb_eq in E.
    exists (take 33 (drop 1 script)). split; [done|]. as_elements script 35. cbn in *. subst. split; [done|left].
    eexists _, _. split; [|split; [|done]]; [|done]. apply orb_prop in Eh as [Eh|Eh]; apply Z.eqb_eq in Eh; auto.
  - case_match eqn:E'; [|done]. cbv zeta. case_match eqn:EV; [|done]. intros [= <-]. split_tests E'. apply Nat.eqb_eq in E'.
    exists (take 65 (drop 1 script)). split; [done|].
    assert (Hv : PubKey.ValidSize (take 65 (drop 1 script)) = true).
    { clear EV. as_elements script 67. cbn in *. by subst. }
    destruct (of_bytes_valid _ Hv) as [_ Eb]. unfold IsFullyValid in EV. unfold of_bytes in Eb. rewrite Eb in EV.
    destruct (IsValid _); [|done]. cbn [negb] in EV. clear Eb. as_elements script 67. cbn in *. subst. split; [done|right].
    match goal with |- uncompressed_key (4 :: ?l) => exists (take 32 l), (drop 32 l) end. split_and!; done.
Qed.

Lemma compressed_key_size k : compressed_key k -> PubKey.ValidSize k = true.
Proof. intros (c & x & Hc & Hx & ->). unfold PubKey.ValidSize. cbn [length]. rewrite Hx. by destruct Hc as [-> | ->]. Qed.

Lemma uncompressed_key_size k : uncompressed_key k -> PubKey.ValidSize k = true.
Proof. intros (x & y & Hx & Hy & -> & _). unfold PubKey.ValidSize. cbn [length]. by rewrite length_app, Hx, Hy. Qed.

(** decompressing what the header and the first coordinate of a valid key are *)
Lemma Decompress_key x y :
  length x = 32%nat -> length y = 32%nat -> ec_pubkey_parse (4 :: x ++ y) = true ->
  let '(key, ok) := Decompress (of_bytes ((2 + nth 31 y 0 `mod` 2) :: x)) in
  ok = true /\ size key = 65 /\ take 65 key = 4 :: x ++ y.
Proof.
  intros Hx Hy Hp. destruct (ec_decompress x y Hx Hy Hp) as [Hc Hu].
  set (c := 2 + nth 31 y 0 `mod` 2) in *. assert (Hc23 : c = 2 \/ c = 3) by (unfold c; lia_mod).
  assert (Hv : PubKey.ValidSize (c :: x) = true) by (apply compressed_key_size; exists c, x; auto).
  destruct (of_bytes_valid _ Hv) as [Es Eb]. unfold Decompress, IsValid. rewrite Es, Eb, Hc.
  cbn [length]. rewrite Hx. cbn [negb]. rewrite Hu.
  destruct (Set_bytes (of_bytes (c :: x)) (4 :: x ++ y)) as (_ & Es' & Eb').
  { destruct (Set_bytes PubKey.new (c :: x) eq_refl Hv) as (E & _). unfold of_bytes. rewrite E, length_app. cbn [length].
    rewrite Hx. done. }
  { apply uncompressed_key_size. exists x, y. auto. }
  cbn [length] in Es'. rewrite length_app, Hx, Hy in Es'. split; [done|]. split; [exact Es'|].
  unfold bytes_of in Eb'. rewrite Es' in Eb'. exact Eb'.
Qed.

Lemma lor_4_bit b : 0x04 ||| (b &&& 0x01) = 4 + b `mod` 2.
Proof.
  change 0x01 with (Z.ones 1). rewrite Z.land_ones by lia. change (2 ^ 1) with 2.
  assert (b `mod` 2 = 0 \/ b `mod` 2 = 1) as [-> | ->] by lia_mod; done.
Qed.

Lemma Compress_spec script compr :
  Compress script = Some compr ->
  exists c v, compr = c :: v /\ 0 <= c < 6 /\ Z.of_nat (length v) = GetSpecialSize c /\
    (bytes script -> bytes v) /\ forall old, Decompress_script old c v = Some (script, true).
Proof.
  unfold Compress. destruct (IsToKeyID script) as [h|] eqn:E1.
  { intros [= <-]. apply IsToKeyID_spec in E1 as [Hl ->]. exists 0, h. split_and!; try (done || lia). { by rewrite Hl. } { unfold bytes. rewrite !Forall_app. tauto. }
    intros old. unfold Decompress_script. cbn [Z.eqb]. by rewrite take_ge by lia. }
  destruct (IsToScriptID script) as [h|] eqn:E2.
  { intros [= <-]. apply IsToScriptID_spec in E2 as [Hl ->]. exists 1, h. split_and!; try (done || lia). { by rewrite Hl. } { unfold bytes. rewrite !Forall_app. tauto. }
    intros old. unfold Decompress_script. cbn [Z.eqb]. by rewrite take_ge by lia. }
  destruct (IsToPubKey script) as [key|] eqn:E3; [|done].
  apply IsToPubKey_spec in E3 as (k & -> & -> & [Hk|Hk]).
  - destruct (Set_bytes PubKey.new k eq_refl (compressed_key_size _ Hk)) as (E & _).
    destruct Hk as (c & x & Hc & Hx & ->). unfold of_bytes. rewrite E.
    change (at_ ((c :: x) ++ drop (length (c :: x)) PubKey.new) 0) with c.
    cbn [app drop]. rewrite ?drop_0. rewrite take_app_length' by done.
    intros Ec. exists c, x. assert (Some (c :: x) = Some compr) as [= <-] by (destruct Hc as [-> | ->]; exact Ec).
    split; [done|]. split; [lia|]. split; [rewrite Hx; by destruct Hc as [-> | ->]|].
    split; [unfold bytes; cbn [app]; rewrite !Forall_cons, Forall_app; tauto|]. intros old. unfold Decompress_script. cbn [length]. rewrite Hx. rewrite (take_ge x 32) by lia. by destruct Hc as [-> | ->].
  - destruct (Set_bytes PubKey.new k eq_refl (uncompressed_key_size _ Hk)) as (E & _).
    destruct Hk as (x & y & Hx & Hy & -> & Hp). unfold of_bytes. rewrite E.
    assert (E0 : at_ ((4 :: x ++ y) ++ drop (length (4 :: x ++ y)) PubKey.new) 0 = 4) by done. rewrite E0.
    assert (E64 : at_ ((4 :: x ++ y) ++ drop (length (4 :: x ++ y)) PubKey.new) 64 = nth 31 y 0).
    { unfold at_. rewrite app_nth1 by (cbn [length]; rewrite length_app; lia). cbn [nth]. rewrite app_nth2 by lia. by rewrite Hx. }
    rewrite E64, lor_4_bit. cbn [app drop]. rewrite ?drop_0. rewrite <- app_assoc, take_app_length' by done. cbn [Z.eqb orb].
    intros [= <-]. exists (4 + nth 31 y 0 `mod` 2), x. split; [done|]. split; [lia_mod|].
    assert (Hb : nth 31 y 0 `mod` 2 = 0 \/ nth 31 y 0 `mod` 2 = 1) by lia_mod.
    split; [rewrite Hx; by destruct Hb as [-> | ->]|].
    split; [unfold bytes; cbn [app]; rewrite !Forall_cons, !Forall_app; tauto|]. intros old.
    pose proof (Decompress_key x y Hx Hy Hp) as HD. unfold Decompress_script. rewrite (take_ge x 32) by lia.
    replace (4 + nth 31 y 0 `mod` 2 - 2) with (2 + nth 31 y 0 `mod` 2) by lia.
    destruct (Decompress _) as [key ok]. destruct HD as (-> & -> & ->). cbn [length]. rewrite length_app, Hx, Hy.
    by destruct Hb as [-> | ->].
Qed.

Lemma varint_bytes_small c : 0 <= c < 128 -> varint_bytes c = [c].
Proof. intros Hc. unfold varint_bytes. rewrite Z.div_small, Z.mod_small by lia. done. Qed.

Lemma parses_ignore {S} `{IStreamLaws S} (b : list Z) : parses (S:=S) (ignore (length b)) b tt.
Proof.
  unfold ignore. rewrite Nat2Z.id.
  assert (Hloop : forall (fuel : nat) b, (length b <= fuel)%nat -> parses (S:=S) (ignore_loop fuel (length b)) b tt).
  { intros fuel. induction fuel as [|fuel IH]; intros b' Hf; cbn [ignore_loop].
    - assert (b' = []) as -> by (apply nil_length_inv; lia). apply parses_ret.
    - destruct (0 <? Z.of_nat (length b')) eqn:E0.
      + apply Z.ltb_lt in E0. set (nNow := Z.min (length b') 4096).
        eapply (parses_bind_eq (take (Z.to_nat nNow) b') (drop (Z.to_nat nNow) b'));
          [by rewrite take_drop|apply parses_read; [rewrite length_take; lia|unfold MAX_SIZE; lia]|].
        replace (length b' - nNow) with (Z.of_nat (length (drop (Z.to_nat nNow) b'))) by (rewrite length_drop; lia).
        apply IH. rewrite length_drop. lia.
      + apply Z.ltb_ge in E0. assert (b' = []) as -> by (apply nil_length_inv; lia). apply parses_ret. }
  by apply Hloop.
Qed.

(** the bytes of a script in the database *)
Definition script_encoding (script : list Z) : list Z :=
  match Compress script with
  | Some compr => compr
  | None => varint_bytes (length script + nSpecialScripts) ++ script
  end.

Lemma emits_script {S} `{OStreamLaws S} script :
  length script < 2 ^ 31 -> emits (S:=S) (Serialize_script script) (script_encoding script).
Proof.
  intros Hl. unfold Serialize_script, script_encoding. destruct (Compress script); [apply emits_write|]. cbv zeta.
  rewrite uint_small by (unfold in_uint, nSpecialScripts; lia).
  apply emits_bind; [|apply emits_write]. apply (emits_varint 32 ltac:(lia)). unfold imax, nSpecialScripts. lia.
Qed.

(** A script of legal size is restored, whatever was in the object before; a longer one, which
    cannot be spent, is replaced by an appended OP_RETURN.  Either way exactly its bytes are
    consumed. *)
Lemma parses_script {S} `{IStreamLaws S} script old :
  length script < 2 ^ 31 ->
  parses (S:=S) (Unserialize_script old) (script_encoding script)
    (if length script <=? MAX_SCRIPT_SIZE then script else old ++ [OP_RETURN]).
Proof.
  intros Hl. unfold Unserialize_script, script_encoding. destruct (Compress script) as [compr|] eqn:EC.
  - destruct (Compress_spec _ _ EC) as (c & v & -> & Hc & Hv & _ & HD).
    assert (Hs : length script <= MAX_SCRIPT_SIZE).
    { unfold Compress in EC. unfold MAX_SCRIPT_SIZE.
      destruct (IsToKeyID script) eqn:E1; [apply IsToKeyID_spec in E1 as [Hn ->]; cbn; rewrite length_app; cbn; lia|].
      destruct (IsToScriptID script) eqn:E2; [apply IsToScriptID_spec in E2 as [Hn ->]; cbn; rewrite length_app; cbn; lia|].
      destruct (IsToPubKey script) eqn:E3; [|done].
      apply IsToPubKey_spec in E3 as (k & _ & -> & [(? & x & _ & Hx & ->)|(x & y & Hx & Hy & -> & _)]);
        cbn; rewrite !length_app; cbn; lia. }
    rewrite (proj2 (Z.leb_le _ _) Hs). change (c :: v) with ([c] ++ v). rewrite <- (varint_bytes_small c) by lia.
    eapply parses_bind; [apply (parses_varint 32 ltac:(lia)); unfold imax; lia|].
    unfold nSpecialScripts. rewrite (proj2 (Z.ltb_lt c 6)) by lia.
    eapply parses_bind_all; [apply parses_read; [lia|]|].
    { rewrite <- Hv. unfold GetSpecialSize in Hv. unfold MAX_SIZE. repeat case_match; lia. }
    rewrite HD. apply parses_ret.
  - eapply parses_bind; [apply (parses_varint 32 ltac:(lia)); unfold imax, nSpecialScripts; lia|]. unfold nSpecialScripts.
    rewrite (proj2 (Z.ltb_ge _ 6)) by lia. cbv zeta. rewrite Z.add_simpl_r, uint_small by (unfold in_uint; lia).
    destruct (length script <=? MAX_SCRIPT_SIZE) eqn:Es.
    + apply Z.leb_le in Es. rewrite (proj2 (Z.ltb_ge _ _)) by lia.
      apply parses_read; [by rewrite Nat2Z.id|unfold MAX_SCRIPT_SIZE, MAX_SIZE in *; lia].
    + apply Z.leb_gt in Es. rewrite (proj2 (Z.ltb_lt _ _)) by lia.
      eapply parses_bind_all; [apply parses_ignore|apply parses_ret].
Qed.

#[export, refine] Instance CScriptCompressor_laws : CodecLaws CScriptCompressor := {|
  encoding := script_encoding; representable script := length script <= MAX_SCRIPT_SIZE /\ bytes script |}.
Proof.
  - intros S ?? script [Hl _]. apply emits_script. unfold MAX_SCRIPT_SIZE in Hl. lia.
  - intros S ?? script [Hl _]. pose proof (parses_script (S:=S) script []) as HP.
    rewrite (proj2 (Z.leb_le _ _) Hl) in HP. apply HP. unfold MAX_SCRIPT_SIZE in Hl. lia.
  - intros script [Hl Hb]. unfold script_encoding. destruct (Compress script) as [compr|] eqn:EC.
    + destruct (Compress_spec _ _ EC) as (c & v & -> & Hc & _ & Hv & _). constructor; [unfold in_uint; lia|by apply Hv].
    + apply Forall_app. split; [apply varint_bytes_bytes; unfold nSpecialScripts; lia|done].
Defined.

(** the encoding of an amount that is valid *)
Definition amount_code (v : Z) : Z := default 0 (CompressAmount v).

#[export, refine] Instance CTxOutCompressor_laws : CodecLaws CTxOutCompressor := {|
  encoding o := varint_bytes (amount_code (nValue o)) ++ script_encoding (scriptPubKey o);
  representable o := 0 <= nValue o < 2 ^ 60 /\ representable CScriptCompressor (scriptPubKey o) |}.
Proof.
  - intros S ?? [v s] [Hv Hs]. cbn [nValue scriptPubKey] in *. unfold Serialize at 1. cbn -[CompressAmount u64 Z.pow].
    rewrite uint_small by (unfold in_uint; lia).
    destruct (CompressAmount_spec v ltac:(lia)) as (x & E & Hx & Hx64 & _). unfold amount_code. rewrite E.
    apply emits_bind; [|exact (Serialize_emits (c:=CScriptCompressor) s Hs)].
    apply (emits_varint 64 ltac:(lia)). unfold in_uint in Hx64. unfold imax. cbn [default from_option id]. lia.
  - intros S ?? [v s] [Hv Hs]. cbn [nValue scriptPubKey] in *.
    destruct (CompressAmount_spec v ltac:(lia)) as (x & E & Hx & Hx64 & Ea). unfold amount_code. rewrite E. cbn [default from_option id].
    eapply parses_bind; [apply (parses_varint 64 ltac:(lia)); unfold imax; unfold in_uint in Hx64; lia|]. cbv zeta.
    rewrite DecompressAmount_amount_of, Ea by done. rewrite uint_small, sint_small by (unfold in_uint, in_sint; lia).
    eapply parses_bind_all; [exact (Unserialize_parses (c:=CScriptCompressor) s Hs)|apply parses_ret].
  - intros [v s] [Hv Hs]. cbn [nValue scriptPubKey] in *. apply Forall_app. split.
    + apply varint_bytes_bytes. destruct (CompressAmount_spec v ltac:(lia)) as (x & E & Hx & _). unfold amount_code. rewrite E. cbn. lia.
    + exact (encoding_bytes (c:=CScriptCompressor) s Hs).
Defined.
End secp256k1.

(** ** Properties *)

(** Amount compression is exact both ways: every amount up to a ninth of the 64-bit range (far above
    the money supply) is encoded without failing the assertion or wrapping around and decoded to
    itself, and an encoding of such an amount is the one [CompressAmount] produces. *)
Theorem amount_roundtrip :
  (forall v, 0 <= v <= (2 ^ 64 - 1) / 9 -> exists x, CompressAmount v = Some x /\ in_uint 64 x /\ DecompressAmount x = v) /\
  (forall x, in_uint 64 x -> amount_of x <= (2 ^ 64 - 1) / 9 -> CompressAmount (DecompressAmount x) = Some x).
Proof.
  split.
  - intros v Hv. destruct (CompressAmount_spec v Hv) as (x & E & _ & Hx & Ea). exists x. split_and!; [done..|].
    rewrite DecompressAmount_amount_of, Ea by done. apply uint_small. unfold in_uint. lia.
  - intros x Hx Ha. rewrite DecompressAmount_amount_of by done.
    assert (H0 : 0 <= amount_of x).
    { destruct (decide (x = 0)) as [->|]; [done|]. unfold in_uint in Hx.
      destruct (amount_of_digits x ltac:(lia)) as (m & e & -> & Hm & He & _).
      assert (0 < 10 ^ e) by (apply Z.pow_pos_nonneg; lia). nia. }
    rewrite uint_small by (unfold in_uint; lia).
    destruct (CompressAmount_spec (amount_of x) ltac:(lia)) as (y & E & Hy & Hy64 & Ey).
    rewrite E. f_equal. unfold in_uint in *. apply amount_of_inj; [lia..|done].
Qed.

Lemma amount_roundtrip_witness :
  (exists x, CompressAmount MAX_MONEY = Some x /\ in_uint 64 x /\ DecompressAmount x = MAX_MONEY) /\
  CompressAmount (DecompressAmount 50) = Some 50.
Proof.
  split.
  - exact (proj1 amount_roundtrip MAX_MONEY ltac:(vm_compute; split; discriminate)).
  - refine (proj2 amount_roundtrip 50 _ _); [unfold in_uint; lia|vm_compute; discriminate].
Defined.

(** C37: Outputs survive the database format: whatever the elliptic curve library, an output with a legal amount
    is read back, from any stream that starts with the bytes written for it, as the same output,
    or, when its script exceeds the maximum size and so can never be spent, with the script
    OP_RETURN; exactly the bytes written are consumed. *)
Theorem txout_compression_roundtrip `{HL : Secp256k1Laws} (o : CTxOut) {S} `{IStreamLaws S} (s : S) (rest : list Z) :
  0 <= nValue o < 2 ^ 60 -> length (scriptPubKey o) < 2 ^ 31 ->
  is_ok s -> is_pending s = written (Serialize CTxOutCompressor o) ++ rest ->
  exists s', Unserialize CTxOutCompressor s =
      (Ok (if length (scriptPubKey o) <=? MAX_SCRIPT_SIZE then o else mkCTxOut (nValue o) [OP_RETURN]), s') /\
    is_pending s' = rest.
Proof.
  destruct o as [v script]. cbn [nValue scriptPubKey]. intros Hv Hl Hs Hp.
  destruct (CompressAmount_spec v ltac:(lia)) as (x & E & Hx & Hx64 & Ea).
  rewrite (emits_written _ (varint_bytes x ++ script_encoding script)) in Hp.
  2: { cbn -[CompressAmount u64 Z.pow]. rewrite uint_small by (unfold in_uint; lia). rewrite E.
       apply emits_bind; [apply (emits_varint 64 ltac:(lia)); unfold imax, in_uint in *; lia|by apply emits_script]. }
  assert (HP : parses (S:=S) (Unserialize CTxOutCompressor) (varint_bytes x ++ script_encoding script)
    (mkCTxOut v (if length script <=? MAX_SCRIPT_SIZE then script else [OP_RETURN]))).
  { eapply parses_bind; [apply (parses_varint 64 ltac:(lia)); unfold imax, in_uint in *; lia|]. cbv zeta.
    rewrite DecompressAmount_amount_of, Ea by done. rewrite uint_small, sint_small by (unfold in_uint, in_sint; lia).
    eapply parses_bind_all; [by apply (parses_script script [])|apply parses_ret]. }
  destruct (HP s rest Hs Hp) as (s' & E' & _ & Hr). exists s'. split; [|done]. rewrite E'. by destruct (_ <=? _).
Qed.

(** A stand-in for the library, for examples: points whose second coordinate is 0 or 1. *)
#[local] Instance toy_curve : Secp256k1 := {|
  ec_pubkey_parse k :=
    match k with
    | c :: xy =>
        ((c =? 2) || (c =? 3)) && (length xy =? 32)%nat ||
        (c =? 4) && (length xy =? 64)%nat && (bool_decide (drop 32 xy = replicate 31 0 ++ [0]) || bool_decide (drop 32 xy = replicate 31 0 ++ [1]))
    | [] => false
    end;
  ec_pubkey_uncompressed k :=
    match k with
    | c :: xy => if c =? 4 then k else 4 :: xy ++ replicate 31 0 ++ [c - 2]
    | [] => []
    end;
|}.

#[local] Instance toy_curve_laws : Secp256k1Laws.
Proof.
  split.
  - intros [|c xy]; [done|]. cbn. intros Hp. destruct (c =? 4) eqn:E4.
    + apply Z.eqb_eq in E4 as ->. exists xy. split; [done|]. cbn in Hp. apply andb_prop in Hp as [Hp _]. by apply Nat.eqb_eq in Hp.
    + cbn in Hp. rewrite orb_false_r in Hp. apply andb_prop in Hp as [_ Hp]. apply Nat.eqb_eq in Hp.
      eexists. split; [done|]. by rewrite length_app, Hp.
  - intros x y Hx Hy Hp. cbn in Hp. apply andb_prop in Hp as [_ Hp]. rewrite drop_app_length' in Hp by done.
    assert (y = replicate 31 0 ++ [0] \/ y = replicate 31 0 ++ [1]) as Hy'
      by (apply orb_prop in Hp as [Hp|Hp]; apply bool_decide_eq_true in Hp; auto).
    destruct Hy' as [-> | ->]; cbn; rewrite Hx; done.
Qed.

Lemma txout_compression_roundtrip_witness :
  let o := mkCTxOut 150 ([65; 4] ++ replicate 63 0 ++ [1] ++ [OP_CHECKSIG]) in
  exists s', Unserialize CTxOutCompressor (DataStream.new (written (Serialize CTxOutCompressor o) ++ [7]) 0 0) = (Ok o, s') /\
    is_pending s' = [7].
Proof.
  refine (txout_compression_roundtrip (mkCTxOut 150 ([65; 4] ++ replicate 63 0 ++ [1] ++ [OP_CHECKSIG]))
    (DataStream.new (written (Serialize CTxOutCompressor _) ++ [7]) 0 0) [7] _ _ _ _).
  - cbn [nValue]. lia.
  - vm_compute. reflexivity.
  - split; [vm_compute; split; discriminate|]. split; [vm_compute; discriminate|]. vm_compute.
    repeat (constructor; [split; [discriminate|reflexivity]|]). constructor.
  - reflexivity.
Defined.
