(* ===== verification/Coins.v ===== *)
(** * The set of unspent outputs: coins.h, coins.cpp, future/utils.cpp

    [Coin] is one unspent output; [CoinsView] is the interface [CCoinsView] as a class of types of
    view objects; [CCoinsViewCache V] is the write-back cache over a base view of type [V].  The
    methods declared const in the source that fill the cache change the object, so every
    operation is an action on it.

    Two things come from outside the program: the order in which std::unordered_map enumerates
    its entries ([IterationOrder]) and the memory a script occupies ([ScriptUsage]). *)

From S2P Require Import Prelude Bytes Streams Serialize SerializeLaws SerializeCodecs Script Sha256 Sha256Laws Uint256 Transaction Merkle Compressor.

(** ** Coins *)

Record Coin := mkCoin {
  coin_out : CTxOut;
  fCoinBase : bool;
  coin_nHeight : Z;            (* uint32_t : 31 *)
  coin_nType : Z;              (* uint16_t *)
  coin_vExtraPayload : list Z;
}.

#[export] Instance CTxOut_eq_dec : EqDecision CTxOut.
Proof. solve_decision. Defined.
#[export] Instance Coin_eq_dec : EqDecision Coin.
Proof. solve_decision. Defined.

(** the empty constructor, and [Clear] *)
Definition Coin_empty : Coin := mkCoin CTxOut_SetNull false 0 0 [].
Definition Coin_Clear (c : Coin) : Coin := Coin_empty.
Definition IsSpent (c : Coin) : bool := CTxOut_IsNull (coin_out c).

Section codec.
Context `{PubKey.Secp256k1}.
Definition codec_Coin : codec Coin := Codec
  (λ (S : Type) (_ : OStream S) c,
    if IsSpent c then throw "assertion failed"
    else
      let code := u32 (coin_nHeight c * 2 + (if fCoinBase c then 1 else 0)) in
      _ ← Serialize (CVarInt 32) code;
      _ ← Serialize CTxOutCompressor (coin_out c);
      _ ← Serialize (CVarInt 16) (coin_nType c);
      Serialize codec_byte_vector (coin_vExtraPayload c))
  (λ (S : Type) (_ : IStream S),
    code ← Unserialize (CVarInt 32);
    let nHeight := code >> 1 in
    let fCoinBase := negb ((code &&& 1) =? 0) in
    out ← Unserialize CTxOutCompressor;
    nType ← Unserialize (CVarInt 16);
    vExtraPayload ← Unserialize codec_byte_vector;
    mret (mkCoin out fCoinBase nHeight nType vExtraPayload)).
End codec.

(** ** Cache entries *)

Record CCoinsCacheEntry := mkEntry { coin : Coin; flags : Z (* unsigned char *) }.

Definition DIRTY : Z := 1.
Definition FRESH : Z := 2.
Definition has (f : Z) (e : CCoinsCacheEntry) : bool := negb ((flags e &&& f) =? 0).
(** [entry.flags |= f] *)
Definition set_flags (f : Z) (e : CCoinsCacheEntry) : CCoinsCacheEntry := mkEntry (coin e) (flags e ||| f).

Abbreviation CCoinsMap := (gmap COutPoint CCoinsCacheEntry).

(** enumeration of an unordered map: every entry once, in some order *)
Class IterationOrder := {
  iterate : CCoinsMap -> list (COutPoint * CCoinsCacheEntry);
  iterate_perm m : iterate m ≡ₚ map_to_list m;
}.

(** [memusage::DynamicUsage] of a script; an empty one has no memory of its own *)
Class ScriptUsage := {
  DynamicUsage : list Z -> Z;
  DynamicUsage_nil : DynamicUsage [] = 0;
}.

Definition DynamicMemoryUsage `{ScriptUsage} (c : Coin) : Z := DynamicUsage (scriptPubKey (coin_out c)).

(** ** The interface CCoinsView

    [GetCoin] returns the coin when the source returns true.  [BatchWrite] gets the entries of the
    caller's map in iteration order and also returns those that are left in it. *)

Class CoinsView (V : Type) := {
  view_GetCoin : COutPoint -> action V (option Coin);
  view_HaveCoin : COutPoint -> action V bool;
  view_GetBestBlock : action V (list Z);
  view_GetHeadBlocks : action V (list (list Z));
  view_BatchWrite : list (COutPoint * CCoinsCacheEntry) -> list Z ->
    V -> result bool * list (COutPoint * CCoinsCacheEntry) * V;
}.

(** The base class itself: an empty view that accepts nothing. *)
#[export] Instance CCoinsView : CoinsView unit := {|
  view_GetCoin outpoint := mret None;
  view_HaveCoin outpoint := mret false;
  view_GetBestBlock := mret (Blob.SetNull 32);
  view_GetHeadBlocks := mret [];
  view_BatchWrite mapCoins hashBlock v := (Ok false, mapCoins, v);
|}.

(** A view that forwards to another. *)
Record CCoinsViewBacked (V : Type) := mkBacked { backed_base : V }.
Arguments mkBacked {V} _.
Arguments backed_base {V} _.

Definition on_backed {V A} (m : action V A) : action (CCoinsViewBacked V) A := λ v,
  let '(r, b) := m (backed_base v) in (r, mkBacked b).

#[export] Instance CCoinsViewBacked_view {V} `{CoinsView V} : CoinsView (CCoinsViewBacked V) := {|
  view_GetCoin outpoint := on_backed (view_GetCoin outpoint);
  view_HaveCoin outpoint := on_backed (view_HaveCoin outpoint);
  view_GetBestBlock := on_backed view_GetBestBlock;
  view_GetHeadBlocks := on_backed view_GetHeadBlocks;
  view_BatchWrite mapCoins hashBlock v :=
    let '(r, remaining, b) := view_BatchWrite mapCoins hashBlock (backed_base v) in (r, remaining, mkBacked b);
|}.

(** ** The cache *)

Record CCoinsViewCache (V : Type) := mkCache {
  base : V;
  hashBlock : list Z;
  cacheCoins : CCoinsMap;
  cachedCoinsUsage : Z;   (* size_t *)
}.
Arguments mkCache {V} _ _ _ _.
Arguments base {V} _.
Arguments hashBlock {V} _.
Arguments cacheCoins {V} _.
Arguments cachedCoinsUsage {V} _.

Section cache.
Context {V : Type} `{HV : CoinsView V} `{HO : IterationOrder} `{HU : ScriptUsage}.
#[local] Abbreviation Cache := (CCoinsViewCache V).

Definition CCoinsViewCache_new (baseIn : V) : Cache := mkCache baseIn (Blob.SetNull 32) ∅ 0.

Definition on_base {A} (m : action V A) : action Cache A := λ c,
  let '(r, b) := m (base c) in (r, mkCache b (hashBlock c) (cacheCoins c) (cachedCoinsUsage c)).
Definition set_cache (m : CCoinsMap) (usage : Z) (c : Cache) : Cache := mkCache (base c) (hashBlock c) m (u64 usage).

(** The iterator returned: the entry found, [None] for [end()]. *)
Definition FetchCoin (outpoint : COutPoint) : action Cache (option CCoinsCacheEntry) := λ c,
  match cacheCoins c !! outpoint with
  | Some e => (Ok (Some e), c)
  | None =>
      match on_base (view_GetCoin outpoint) c with
      | (Ok None, c) => (Ok None, c)
      | (Ok (Some tmp), c) =>
          let ret := mkEntry tmp 0 in
          let ret := if IsSpent (coin ret) then mkEntry (coin ret) FRESH else ret in
          (Ok (Some ret), set_cache (<[outpoint := ret]> (cacheCoins c)) (cachedCoinsUsage c + DynamicMemoryUsage (coin ret)) c)
      | (Throw msg, c) => (Throw msg, c)
      end
  end.

Definition GetCoin (outpoint : COutPoint) : action Cache (option Coin) :=
  it ← FetchCoin outpoint;
  mret (match it with Some e => if negb (IsSpent (coin e)) then Some (coin e) else None | None => None end).

Definition AddCoin (outpoint : COutPoint) (newcoin : Coin) (possible_overwrite : bool) : action Cache unit := λ c,
  if IsSpent newcoin then (Throw "assertion failed", c)
  else if Script.IsUnspendable (scriptPubKey (coin_out newcoin)) then (Ok tt, c)
  else
    let '(it, c) :=
      match cacheCoins c !! outpoint with
      | Some e => (e, set_cache (cacheCoins c) (cachedCoinsUsage c - DynamicMemoryUsage (coin e)) c)
      | None => let e := mkEntry Coin_empty 0 in (e, set_cache (<[outpoint := e]> (cacheCoins c)) (cachedCoinsUsage c) c)
      end in
    if negb possible_overwrite && negb (IsSpent (coin it)) then
      (Throw "Adding new coin that replaces non-pruned entry", c)
    else
      let fresh := negb possible_overwrite && negb (has DIRTY it) in
      let it := set_flags (DIRTY ||| (if fresh then FRESH else 0)) (mkEntry newcoin (flags it)) in
      (Ok tt, set_cache (<[outpoint := it]> (cacheCoins c)) (cachedCoinsUsage c + DynamicMemoryUsage newcoin) c).

(** whether a coin was spent, and the coin moved out *)
Definition SpendCoin (outpoint : COutPoint) : action Cache (option Coin) :=
  it ← FetchCoin outpoint;
  match it return action Cache (option Coin) with
  | None => mret None
  | Some e => λ c,
      let usage := cachedCoinsUsage c - DynamicMemoryUsage (coin e) in
      let moveout := coin e in
      if has FRESH e then (Ok (Some moveout), set_cache (delete outpoint (cacheCoins c)) usage c)
      else
        let e := set_flags DIRTY e in
        (Ok (Some moveout), set_cache (<[outpoint := mkEntry (Coin_Clear (coin e)) (flags e)]> (cacheCoins c)) usage c)
  end.

Definition coinEmpty : Coin := Coin_empty.

Definition AccessCoin (outpoint : COutPoint) : action Cache Coin :=
  it ← FetchCoin outpoint; mret (match it with None => coinEmpty | Some e => coin e end).

Definition HaveCoin (outpoint : COutPoint) : action Cache bool :=
  it ← FetchCoin outpoint; mret (match it with None => false | Some e => negb (IsSpent (coin e)) end).

Definition HaveCoinInCache (outpoint : COutPoint) (c : Cache) : bool :=
  match cacheCoins c !! outpoint with None => false | Some e => negb (IsSpent (coin e)) end.

Definition GetBestBlock : action Cache (list Z) := λ c,
  if Blob.IsNull (hashBlock c) then
    match on_base view_GetBestBlock c with
    | (Ok h, c) => (Ok h, mkCache (base c) h (cacheCoins c) (cachedCoinsUsage c))
    | (Throw msg, c) => (Throw msg, c)
    end
  else (Ok (hashBlock c), c).

Definition SetBestBlock (hashBlockIn : list Z) (c : Cache) : Cache :=
  mkCache (base c) hashBlockIn (cacheCoins c) (cachedCoinsUsage c).

(** One round of the loop of [BatchWrite], for the child's entry [e] at [o]. *)
Definition BatchWrite_step (o : COutPoint) (e : CCoinsCacheEntry) (c : Cache) : result unit * Cache :=
  if negb (has DIRTY e) then (Ok tt, c)
  else
    match cacheCoins c !! o with
    | None =>
        if negb (has FRESH e && IsSpent (coin e)) then
          let entry := mkEntry (coin e) DIRTY in
          let entry := if has FRESH e then set_flags FRESH entry else entry in
          (Ok tt, set_cache (<[o := entry]> (cacheCoins c)) (cachedCoinsUsage c + DynamicMemoryUsage (coin e)) c)
        else (Ok tt, c)
    | Some itUs =>
        if has FRESH e && negb (IsSpent (coin itUs)) then
          (Throw "FRESH flag misapplied to cache entry for base transaction with spendable outputs", c)
        else if has FRESH itUs && IsSpent (coin e) then
          (Ok tt, set_cache (delete o (cacheCoins c)) (cachedCoinsUsage c - DynamicMemoryUsage (coin itUs)) c)
        else
          (Ok tt, set_cache (<[o := set_flags DIRTY (mkEntry (coin e) (flags itUs))]> (cacheCoins c))
             (cachedCoinsUsage c - DynamicMemoryUsage (coin itUs) + DynamicMemoryUsage (coin e)) c)
    end.

Fixpoint BatchWrite_loop (mapCoins : list (COutPoint * CCoinsCacheEntry)) (c : Cache) :
    result unit * list (COutPoint * CCoinsCacheEntry) * Cache :=
  match mapCoins with
  | [] => (Ok tt, [], c)
  | (o, e) :: rest =>
      match BatchWrite_step o e c with
      | (Ok _, c) => BatchWrite_loop rest c
      | (Throw msg, c) => (Throw msg, mapCoins, c)
      end
  end.

Definition BatchWrite (mapCoins : list (COutPoint * CCoinsCacheEntry)) (hashBlockIn : list Z) (c : Cache) :
    result bool * list (COutPoint * CCoinsCacheEntry) * Cache :=
  match BatchWrite_loop mapCoins c with
  | (Ok _, remaining, c) => (Ok true, remaining, SetBestBlock hashBlockIn c)
  | (Throw msg, remaining, c) => (Throw msg, remaining, c)
  end.

Definition Flush : action Cache bool := λ c,
  match view_BatchWrite (iterate (cacheCoins c)) (hashBlock c) (base c) with
  | (Ok fOk, _, b) => (Ok fOk, mkCache b (hashBlock c) ∅ 0)
  | (Throw msg, remaining, b) => (Throw msg, mkCache b (hashBlock c) (list_to_map remaining) (cachedCoinsUsage c))
  end.

Definition Uncache (outpoint : COutPoint) (c : Cache) : Cache :=
  match cacheCoins c !! outpoint with
  | Some e =>
      if flags e =? 0
      then set_cache (delete outpoint (cacheCoins c)) (cachedCoinsUsage c - DynamicMemoryUsage (coin e)) c
      else c
  | None => c
  end.

Definition GetCacheSize (c : Cache) : Z := u32 (size (cacheCoins c)).

Fixpoint GetValueIn_loop (ins : list CTxIn) (nResult : Z) : action Cache Z :=
  match ins with
  | [] => mret nResult
  | i :: ins => cn ← AccessCoin (prevout i); GetValueIn_loop ins (i64 (nResult + nValue (coin_out cn)))
  end.
Definition GetValueIn (tx : CTransaction) : action Cache Z :=
  if IsCoinBase tx then mret 0 else GetValueIn_loop (vin tx) 0.

Fixpoint HaveInputs_loop (ins : list CTxIn) : action Cache bool :=
  match ins with
  | [] => mret true
  | i :: ins => b ← HaveCoin (prevout i); if negb b then mret false else HaveInputs_loop ins
  end.
Definition HaveInputs (tx : CTransaction) : action Cache bool :=
  if negb (IsCoinBase tx) then HaveInputs_loop (vin tx) else mret true.

(** [MAX_OUTPUTS_PER_BLOCK] *)
Definition MAX_OUTPUTS_PER_BLOCK : Z := MaxBlockSize true / GetSerializeSize codec_CTxOut CTxOut_SetNull.

(** The loop runs until [iter.n] reaches that bound. *)
Fixpoint AccessByTxid_loop (fuel : nat) (txid : list Z) (n : Z) : action Cache Coin :=
  match fuel with
  | O => mret coinEmpty
  | S fuel =>
      if n <? MAX_OUTPUTS_PER_BLOCK then
        alternate ← AccessCoin (mkCOutPoint txid n);
        if negb (IsSpent alternate) then mret alternate else AccessByTxid_loop fuel txid (u32 (n + 1))
      else mret coinEmpty
  end.
Definition AccessByTxid (txid : list Z) : action Cache Coin := AccessByTxid_loop (Z.to_nat MAX_OUTPUTS_PER_BLOCK) txid 0.
End cache.

(** A cache is itself a view, so caches stack.  [GetHeadBlocks] is inherited from
    [CCoinsViewBacked]. *)
#[export] Instance CCoinsViewCache_view {V} `{CoinsView V} `{IterationOrder} `{ScriptUsage} : CoinsView (CCoinsViewCache V) := {|
  view_GetCoin := GetCoin;
  view_HaveCoin := HaveCoin;
  view_GetBestBlock := GetBestBlock;
  view_GetHeadBlocks := on_base view_GetHeadBlocks;
  view_BatchWrite := BatchWrite;
|}.

(** ** Locked outputs of future transactions: evo/providertx.h, evo/specialtx.h, future/utils.cpp *)

Record CFutureTx := mkCFutureTx {
  ftx_nVersion : Z;              (* uint16_t *)
  maturity : Z;                  (* int32_t *)
  lockTime : Z;                  (* int32_t *)
  lockOutputIndex : Z;           (* uint16_t *)
  ftx_fee : Z;                   (* uint16_t *)
  updatableByDestination : bool;
  exChainType : Z;               (* uint16_t *)
  externalPayoutScript : list Z;
  externalTxid : list Z;
  externalConfirmations : Z;     (* uint16_t *)
  inputsHash : list Z;
}.

Definition codec_CFutureTx : codec CFutureTx := Codec
  (λ (S : Type) (_ : OStream S) t,
    _ ← Serialize codec_uint16 (ftx_nVersion t);
    _ ← Serialize codec_int32 (maturity t);
    _ ← Serialize codec_int32 (lockTime t);
    _ ← Serialize codec_uint16 (lockOutputIndex t);
    _ ← Serialize codec_uint16 (ftx_fee t);
    _ ← Serialize codec_bool (updatableByDestination t);
    _ ← Serialize codec_uint16 (exChainType t);
    _ ← Serialize codec_script (externalPayoutScript t);
    _ ← Serialize codec_uint256 (externalTxid t);
    _ ← Serialize codec_uint16 (externalConfirmations t);
    Serialize codec_uint256 (inputsHash t))
  (λ (S : Type) (_ : IStream S),
    nVersion ← Unserialize codec_uint16;
    maturity ← Unserialize codec_int32;
    lockTime ← Unserialize codec_int32;
    lockOutputIndex ← Unserialize codec_uint16;
    fee ← Unserialize codec_uint16;
    updatableByDestination ← Unserialize codec_bool;
    exChainType ← Unserialize codec_uint16;
    externalPayoutScript ← Unserialize codec_script;
    externalTxid ← Unserialize codec_uint256;
    externalConfirmations ← Unserialize codec_uint16;
    inputsHash ← Unserialize codec_uint256;
    mret (mkCFutureTx nVersion maturity lockTime lockOutputIndex fee updatableByDestination exChainType
      externalPayoutScript externalTxid externalConfirmations inputsHash)).

Definition SER_NETWORK : Z := 1.

(** [GetTxPayload]: the object when it can be read and nothing is left over *)
Definition GetTxPayload {T} (c : codec T) (payload : list Z) : option T :=
  match Unserialize c (DataStream.new payload SER_NETWORK PROTOCOL_VERSION) with
  | (Ok obj, ds) => if DataStream.empty ds then Some obj else None
  | (Throw _, _) => None
  end.

Definition maybeSetPayload (c : Coin) (outpoint : COutPoint) (nType : Z) (vExtraPayload : list Z) : Coin :=
  if nType =? TRANSACTION_FUTURE then
    match GetTxPayload codec_CFutureTx vExtraPayload with
    | Some futureTx =>
        if n outpoint =? lockOutputIndex futureTx
        then mkCoin (coin_out c) (fCoinBase c) (coin_nHeight c) nType vExtraPayload
        else c
    | None => c
    end
  else c.

(** ** Adding the outputs of a transaction *)

Section AddCoins.
Context (D : Sha256.dispatch) `{HD : !GoodDispatch D}.
Context {V : Type} `{HV : CoinsView V} `{HO : IterationOrder} `{HU : ScriptUsage}.

(** the coin made of output [i]; the height and the flag are stored in their bit fields *)
Definition coin_of (tx : CTransaction) (nHeight : Z) (i : Z) (o : CTxOut) : Coin :=
  let fCoinbase := IsCoinBase tx in
  let outpoint := mkCOutPoint (GetHash D tx) (u32 i) in
  let c := mkCoin o fCoinbase (uint 31 nHeight) 0 [] in
  let c := maybeSetPayload c outpoint (tx_nType tx) (vExtraPayload tx) in
  mkCoin o fCoinbase (uint 31 nHeight) (coin_nType c) (coin_vExtraPayload c).

Fixpoint AddCoins_loop (tx : CTransaction) (nHeight : Z) (check : bool) (outs : list CTxOut) (i : Z) :
    action (CCoinsViewCache V) unit :=
  match outs with
  | [] => mret tt
  | o :: outs =>
      let outpoint := mkCOutPoint (GetHash D tx) (u32 i) in
      overwrite ← (if check then HaveCoin outpoint else mret (IsCoinBase tx));
      _ ← AddCoin outpoint (coin_of tx nHeight i o) overwrite;
      AddCoins_loop tx nHeight check outs (i + 1)
  end.
Definition AddCoins (tx : CTransaction) (nHeight : Z) (check : bool) : action (CCoinsViewCache V) unit :=
  AddCoins_loop tx nHeight check (vout tx) 0.
End AddCoins.
