(* ===== verification/CoinsLaws.v ===== *)
(** * Properties of the coins views

    A view stands for a set of unspent outputs: [utxo v o] is the coin at [o].  [CoinsViewLaws] is
    what every view promises to the code above it; the cache's own promises are proved against
    that interface only, so a cache of caches of a database keeps them too. *)

From S2P Require Import Prelude Bytes Streams Serialize SerializeLaws SerializeCodecs Script Sha256 Sha256Laws Uint256 Transaction Merkle Compressor CompressorLaws Coins.

(** ** The abstract set of unspent outputs *)

(** A coin that is spent stands for no coin. *)
Definition unspent (r : option Coin) : option Coin :=
  match r with Some c => if IsSpent c then None else Some c | None => None end.

Definition utxo_set : Type := COutPoint -> option Coin.

(** the set after the entries of a batch are written *)
Definition after_batch (u : utxo_set) (m : CCoinsMap) : utxo_set := λ o,
  match m !! o with
  | Some e => if has DIRTY e then unspent (Some (coin e)) else u o
  | None => u o
  end.

(** What an entry of a cache says about the view below: unless it is dirty it agrees with it, and
    if it is fresh there is nothing below. *)
Definition entry_ok (u : option Coin) (e : CCoinsCacheEntry) : Prop :=
  (has DIRTY e = false -> unspent (Some (coin e)) = u) /\ (has FRESH e = true -> u = None).

Class CoinsSpec (V : Type) := {
  view_ok : V -> Prop;
  utxo : V -> utxo_set;
  best : V -> list Z;
}.

(** what reading may do to a view object *)
Definition unchanged {V} `{CoinsSpec V} (v v' : V) : Prop :=
  view_ok v' /\ (forall o, utxo v' o = utxo v o) /\ best v' = best v.

Class CoinsViewLaws (V : Type) `{CoinsView V} `{CoinsSpec V} : Prop := {
  law_unspent v o : view_ok v -> unspent (utxo v o) = utxo v o;
  law_GetCoin v o : view_ok v -> exists r v', view_GetCoin o v = (Ok r, v') /\ unspent r = utxo v o /\ unchanged v v';
  law_HaveCoin v o : view_ok v -> exists v', view_HaveCoin o v = (Ok (bool_decide (is_Some (utxo v o))), v') /\ unchanged v v';
  law_GetBestBlock v : view_ok v -> exists v', view_GetBestBlock v = (Ok (best v), v') /\ unchanged v v';
  law_BatchWrite v l h :
    view_ok v -> NoDup l.*1 -> Blob.IsNull h = false ->
    (forall o e, (o, e) ∈ l -> has DIRTY e = true -> has FRESH e = true -> utxo v o = None) ->
    exists v', view_BatchWrite l h v = (Ok true, [], v') /\ view_ok v' /\
      (forall o, utxo v' o = after_batch (utxo v) (list_to_map l) o) /\ best v' = h;
}.

(** ** Flags *)

Lemma has_DIRTY e : has DIRTY e = Z.testbit (flags e) 0.
Proof.
  unfold has, DIRTY. change 1 with (Z.ones 1). rewrite Z.land_ones by lia. change (2 ^ 1) with 2.
  rewrite <- Z.bit0_mod. by destruct (Z.testbit (flags e) 0).
Qed.

Lemma has_FRESH e : has FRESH e = Z.testbit (flags e) 1.
Proof.
  unfold has, FRESH. destruct (Z.testbit (flags e) 1) eqn:E.
  - apply negb_true_iff, Z.eqb_neq. intros E'. apply (f_equal (λ z, Z.testbit z 1)) in E'.
    rewrite Z.land_spec, E in E'. discriminate.
  - apply negb_false_iff, Z.eqb_eq, Z.bits_inj'. intros k Hk. rewrite Z.land_spec, Z.bits_0.
    destruct (decide (k = 1)) as [->|]; [by rewrite E|].
    change 2 with (2 ^ 1). rewrite Z.pow2_bits_false by lia. apply andb_false_r.
Qed.

Ltac flag_bits := rewrite ?has_DIRTY, ?has_FRESH; unfold set_flags; cbn [flags coin]; rewrite ?Z.lor_spec; done.

Lemma set_DIRTY f c : has DIRTY (set_flags (DIRTY ||| f) c) = true.
Proof. rewrite has_DIRTY. unfold set_flags. cbn [flags]. rewrite !Z.lor_spec. apply orb_true_r. Qed.
Lemma set_FRESH (b : bool) c : has FRESH (set_flags (DIRTY ||| (if b then FRESH else 0)) c) = has FRESH c || b.
Proof. rewrite !has_FRESH. unfold set_flags. cbn [flags]. rewrite !Z.lor_spec. by destruct b. Qed.
Lemma set_only_DIRTY c : has DIRTY (set_flags DIRTY c) = true /\ has FRESH (set_flags DIRTY c) = has FRESH c.
Proof.
  rewrite has_DIRTY, !has_FRESH. unfold set_flags. cbn [flags]. rewrite !Z.lor_spec.
  split; [apply orb_true_r|apply orb_false_r].
Qed.

(** ** Memory accounting *)

Section usage.
Context `{HU : ScriptUsage}.

Definition total_usage (m : CCoinsMap) : Z := map_fold (λ _ e t, DynamicMemoryUsage (coin e) + t) 0 m.

Lemma total_usage_insert m o e :
  m !! o = None -> total_usage (<[o := e]> m) = DynamicMemoryUsage (coin e) + total_usage m.
Proof. intros Hm. refine (map_fold_insert_L (M:=gmap COutPoint) (λ _ e t, DynamicMemoryUsage (coin e) + t) 0 o e m _ Hm). intros. cbv beta. lia. Qed.

Lemma total_usage_delete m o e :
  m !! o = Some e -> total_usage (delete o m) = total_usage m - DynamicMemoryUsage (coin e).
Proof.
  intros Hm. pose proof (total_usage_insert (delete o m) o e (lookup_delete_eq m o)) as E.
  rewrite insert_delete_id in E by done. lia.
Qed.

Lemma total_usage_replace m o e e' :
  m !! o = Some e ->
  total_usage (<[o := e']> m) = total_usage m - DynamicMemoryUsage (coin e) + DynamicMemoryUsage (coin e').
Proof.
  intros Hm. pose proof (total_usage_insert (delete o m) o e' (lookup_delete_eq m o)) as E.
  rewrite insert_delete_eq in E. rewrite (total_usage_delete m o e Hm) in E. lia.
Qed.

Lemma u64_add_l a b : u64 (u64 a + b) = u64 (a + b).
Proof. unfold uint. apply Zplus_mod_idemp_l. Qed.
Lemma u64_sub_l a b : u64 (u64 a - b) = u64 (a - b).
Proof. unfold uint. apply Zminus_mod_idemp_l. Qed.
End usage.

(** ** The cache *)

(** a set with the coin at one place replaced *)
Definition upd (u : utxo_set) (o : COutPoint) (r : option Coin) : utxo_set := λ o', if decide (o' = o) then r else u o'.

Section cache.
Context {V : Type} `{HV : CoinsView V} `{HS : !CoinsSpec V} `{HL : !CoinsViewLaws V} `{HO : IterationOrder} `{HU : ScriptUsage}.
#[local] Abbreviation Cache := (CCoinsViewCache V).

(** A cache is in order when the view below is, its entries are, and its memory count is exact.
    It stands for the set below with its entries on top. *)
#[export] Instance cache_spec : CoinsSpec Cache := {|
  view_ok c := view_ok (base c) /\ (forall o e, cacheCoins c !! o = Some e -> entry_ok (utxo (base c) o) e) /\
    cachedCoinsUsage c = u64 (total_usage (cacheCoins c));
  utxo c := λ o, match cacheCoins c !! o with Some e => unspent (Some (coin e)) | None => utxo (base c) o end;
  best c := if Blob.IsNull (hashBlock c) then best (base c) else hashBlock c;
|}.

Lemma unspent_idemp r : unspent (unspent r) = unspent r.
Proof. destruct r as [c|]; [|done]. cbn. destruct (IsSpent c) eqn:E; cbn; [done|by rewrite E]. Qed.

Lemma cache_unspent (c : Cache) o : view_ok c -> unspent (utxo c o) = utxo c o.
Proof. intros (Hb & _). cbn [utxo cache_spec]. destruct (cacheCoins c !! o); [apply unspent_idemp|by apply law_unspent]. Qed.

Lemma unchanged_refl (c : Cache) : view_ok c -> unchanged c c.
Proof. done. Qed.

Lemma unchanged_trans {W} `{CoinsSpec W} (a b c : W) : unchanged a b -> unchanged b c -> unchanged a c.
Proof. intros (_ & U1 & B1) (K & U2 & B2). split; [done|]. split; [intros o; by rewrite U2, U1|congruence]. Qed.

(** replacing the view below by one that stands for the same set *)
Lemma on_base_unchanged {A} (m : action V A) (c : Cache) r b :
  view_ok c -> m (base c) = (r, b) -> unchanged (base c) b ->
  exists c', on_base m c = (r, c') /\ unchanged c c' /\ cacheCoins c' = cacheCoins c /\ hashBlock c' = hashBlock c /\ base c' = b /\
    cachedCoinsUsage c' = cachedCoinsUsage c.
Proof.
  intros (Hb & He & Hu) E (Kb & Ub & Bb). unfold on_base. rewrite E. eexists. split; [done|]. split; [|done].
  unfold unchanged. cbn [view_ok utxo best cache_spec base hashBlock cacheCoins cachedCoinsUsage]. split; [|split].
  - split; [done|]. split; [|done]. intros o e Ho. rewrite Ub. by apply He.
  - intros o. by destruct (cacheCoins c !! o); [|rewrite Ub].
  - by rewrite Bb.
Qed.

(** an entry put in place of what was there *)
Lemma insert_ok (c : Cache) o e usage :
  view_ok c -> entry_ok (utxo (base c) o) e ->
  u64 usage = u64 (cachedCoinsUsage c - from_option (λ e, DynamicMemoryUsage (coin e)) 0 (cacheCoins c !! o) + DynamicMemoryUsage (coin e)) ->
  let c' := set_cache (<[o := e]> (cacheCoins c)) usage c in
  view_ok c' /\ (forall o', utxo c' o' = upd (utxo c) o (unspent (Some (coin e))) o') /\ best c' = best c.
Proof.
  intros (Hb & He & Hu) Hok Hus. cbv zeta. unfold set_cache.
  cbn [view_ok utxo best cache_spec base hashBlock cacheCoins cachedCoinsUsage]. split; [|split; [|done]].
  - split; [done|]. split.
    + intros o' e' [[<- <-]|[Hne Ho]]%lookup_insert_Some; [done|by apply He].
    + rewrite Hus, Hu. destruct (cacheCoins c !! o) as [e0|] eqn:E0; cbn [from_option].
      * rewrite (total_usage_replace _ _ e0 _ E0). unfold uint. rewrite <- Z.add_sub_swap, <- (Z.add_mod_idemp_l) by lia.
        unfold Z.sub. lia_mod.
      * rewrite total_usage_insert by done. rewrite Z.sub_0_r, u64_add_l. f_equal. lia.
  - intros o'. unfold upd. destruct (decide (o' = o)) as [->|Hne].
    + by rewrite lookup_insert_eq.
    + by rewrite lookup_insert_ne by done.
Qed.

(** an entry dropped: what is below shows again *)
Lemma delete_ok (c : Cache) o e usage :
  view_ok c -> cacheCoins c !! o = Some e -> usage = cachedCoinsUsage c - DynamicMemoryUsage (coin e) ->
  let c' := set_cache (delete o (cacheCoins c)) usage c in
  view_ok c' /\ (forall o', utxo c' o' = upd (utxo c) o (utxo (base c) o) o') /\ best c' = best c.
Proof.
  intros (Hb & He & Hu) Ho ->. cbv zeta. unfold set_cache.
  cbn [view_ok utxo best cache_spec base hashBlock cacheCoins cachedCoinsUsage]. split; [|split; [|done]].
  - split; [done|]. split.
    + intros o' e' [Hne Ho']%lookup_delete_Some. by apply He.
    + by rewrite (total_usage_delete _ _ e Ho), Hu, u64_sub_l.
  - intros o'. unfold upd. destruct (decide (o' = o)) as [->|Hne].
    + by rewrite lookup_delete_eq.
    + by rewrite lookup_delete_ne by done.
Qed.

Lemma new_ok (v : V) :
  view_ok v -> let c := CCoinsViewCache_new v in
  view_ok c /\ (forall o, utxo c o = utxo v o) /\ best c = best v.
Proof.
  intros Hv. cbv zeta. unfold CCoinsViewCache_new. cbn [view_ok utxo best cache_spec base hashBlock cacheCoins cachedCoinsUsage].
  split; [|split; [intros o; by rewrite lookup_empty|done]]. split; [done|]. split; [|done].
  intros o e. by rewrite lookup_empty.
Qed.

(** *** Reading *)

(** the view below stands for the same set as before, and a best block that was set stays *)
Definition below (c c' : Cache) : Prop :=
  unchanged (base c) (base c') /\ (Blob.IsNull (hashBlock c) = false -> hashBlock c' = hashBlock c).

Lemma below_refl (c : Cache) : view_ok c -> below c c.
Proof. by intros (Hb & _). Qed.
Lemma below_intro (c c' : Cache) b : unchanged (base c) b -> base c' = b -> hashBlock c' = hashBlock c -> below c c'.
Proof. intros H <- E. by split. Qed.

Lemma FetchCoin_ok (c : Cache) o :
  view_ok c -> exists it c', FetchCoin o c = (Ok it, c') /\ unchanged c c' /\ cacheCoins c' !! o = it /\
    unspent (coin <$> it) = utxo c o /\ below c c' /\ hashBlock c' = hashBlock c.
Proof.
  intros Hc. unfold FetchCoin. destruct (cacheCoins c !! o) as [e|] eqn:Ho.
  { exists (Some e), c. split_and!; try done; [cbn [utxo cache_spec]; by rewrite Ho|apply below_refl, Hc]. }
  destruct Hc as (Hb & He & Hu). destruct (law_GetCoin (base c) o Hb) as (r & b & E & Hr & Hun).
  destruct (on_base_unchanged (view_GetCoin o) c (Ok r) b) as (c1 & -> & Hun1 & Em & Eh & Eb & Eu); [done..|].
  assert (Hu0 : utxo c o = utxo (base c) o) by (cbn [utxo cache_spec]; by rewrite Ho).
  destruct r as [tmp|]; [|exists None, c1; split_and!; try done; [by rewrite Em|by rewrite Hu0, <- Hr|by eapply below_intro]].
  cbv zeta. cbn [coin]. set (ret := if IsSpent tmp then mkEntry tmp FRESH else mkEntry tmp 0).
  assert (Hret : coin ret = tmp) by (unfold ret; by destruct (IsSpent tmp)).
  assert (Hok : entry_ok (utxo (base c1) o) ret).
  { destruct Hun as (_ & Ub & _). rewrite Eb, Ub, <- Hr. unfold entry_ok, ret. rewrite has_FRESH.
    cbn [unspent]. destruct (IsSpent tmp) eqn:Es; cbn [coin flags unspent]; rewrite Es; done. }
  assert (Ho1 : cacheCoins c1 !! o = None) by (by rewrite Em).
  destruct (insert_ok c1 o ret (cachedCoinsUsage c1 + DynamicMemoryUsage (coin ret)) (proj1 Hun1) Hok) as (K & U & B).
  { rewrite Ho1. cbn [from_option]. f_equal. lia. }
  exists (Some ret). eexists. split; [done|]. split; [|split; [|split; [|split]]].
  - destruct Hun1 as (_ & U1 & B1). split; [done|]. split; [|by rewrite B, B1]. intros o'. rewrite U. unfold upd.
    destruct (decide (o' = o)) as [->|]; [|apply U1]. rewrite Hu0, Hret. done.
  - apply lookup_insert_eq.
  - cbn [fmap option_fmap option_map]. rewrite Hret, Hu0. done.
  - by eapply below_intro.
  - done.
Qed.

(** the coin found is what the view stands for *)
Lemma GetCoin_ok (c : Cache) o :
  view_ok c -> exists c', GetCoin o c = (Ok (utxo c o), c') /\ unchanged c c' /\ below c c'.
Proof.
  intros Hc. destruct (FetchCoin_ok c o Hc) as (it & c' & E & Hun & _ & Hit & Hbl & Hhb). exists c'. split; [|done].
  unfold GetCoin, mbind, action_bind. rewrite E. unfold mret, action_ret. do 2 f_equal. rewrite <- Hit.
  destruct it as [e|]; [|done]. cbn. by destruct (IsSpent (coin e)).
Qed.

Lemma HaveCoin_ok (c : Cache) o :
  view_ok c -> exists c', HaveCoin o c = (Ok (bool_decide (is_Some (utxo c o))), c') /\ unchanged c c' /\ below c c'.
Proof.
  intros Hc. destruct (FetchCoin_ok c o Hc) as (it & c' & E & Hun & _ & Hit & Hbl & Hhb). exists c'. split; [|done].
  unfold HaveCoin, mbind, action_bind. rewrite E. unfold mret, action_ret. do 2 f_equal. rewrite <- Hit.
  destruct it as [e|]; [|done]. cbn. by destruct (IsSpent (coin e)).
Qed.

(** [AccessCoin] returns the coin, or a spent one *)
Lemma AccessCoin_ok (c : Cache) o :
  view_ok c -> exists cn c', AccessCoin o c = (Ok cn, c') /\ unspent (Some cn) = utxo c o /\ unchanged c c' /\ below c c'.
Proof.
  intros Hc. destruct (FetchCoin_ok c o Hc) as (it & c' & E & Hun & _ & Hit & Hbl & Hhb).
  unfold AccessCoin, mbind, action_bind. rewrite E. eexists _, c'. split; [done|]. split; [|done]. rewrite <- Hit.
  by destruct it.
Qed.

Lemma GetBestBlock_ok (c : Cache) :
  view_ok c -> exists c', GetBestBlock c = (Ok (best c), c') /\ unchanged c c' /\ below c c' /\
    (Blob.IsNull (best c) = false -> Blob.IsNull (hashBlock c') = false).
Proof.
  intros Hc. unfold GetBestBlock. cbn [best cache_spec]. destruct (Blob.IsNull (hashBlock c)) eqn:En; [|exists c; split_and!; try done; apply below_refl, Hc].
  pose proof Hc as (Hb & _). destruct (law_GetBestBlock (base c) Hb) as (b & E & Hun).
  destruct (on_base_unchanged view_GetBestBlock c (Ok (best (base c))) b) as (c1 & -> & Hun1 & Em & Eh & Eb & Eu); [done..|].
  eexists. split; [done|]. split; [|split; [|done]; split; [cbn [base]; by rewrite Eb|congruence]].
  destruct Hun1 as (K & U & B). split; [done|]. split; [done|].
  cbn [best cache_spec hashBlock base]. rewrite En. destruct Hun as (_ & _ & Bb). rewrite Eb, Bb. by case_match.
Qed.

(** *** Changing *)

(** Adding a coin that can be spent puts it into the set, provided the caller does not deny an
    overwrite that takes place; an unspendable one is dropped. *)
Lemma AddCoin_ok (c : Cache) o cn ow :
  view_ok c -> IsSpent cn = false -> (ow = false -> utxo c o = None) ->
  exists c', AddCoin o cn ow c = (Ok tt, c') /\ view_ok c' /\ best c' = best c /\ base c' = base c /\ hashBlock c' = hashBlock c /\
    forall o', utxo c' o' = if Script.IsUnspendable (scriptPubKey (coin_out cn)) then utxo c o' else upd (utxo c) o (Some cn) o'.
Proof.
  intros Hc Hs How. unfold AddCoin. rewrite Hs.
  destruct (Script.IsUnspendable _). { exists c. split_and!; done. }
  assert (Hun : unspent (Some cn) = Some cn) by (cbn; by rewrite Hs).
  destruct (cacheCoins c !! o) as [e|] eqn:Ho.
  - assert (Hbe : entry_ok (utxo (base c) o) e) by (by apply Hc).
    assert (Huo : utxo c o = unspent (Some (coin e))) by (cbn [utxo cache_spec]; by rewrite Ho).
    assert (Hne : negb ow && negb (IsSpent (coin e)) = false).
    { destruct ow; [done|]. specialize (How eq_refl). rewrite Huo in How. cbn in How. by destruct (IsSpent (coin e)). }
    rewrite Hne. set (e' := set_flags _ (mkEntry cn (flags e))).
    assert (Hok : entry_ok (utxo (base c) o) e').
    { split; [intros Hd; unfold e' in Hd; rewrite set_DIRTY in Hd; discriminate|].
      unfold e'. rewrite set_FRESH. change (has FRESH (mkEntry cn (flags e))) with (has FRESH e). destruct Hbe as [Hd Hf].
      intros [Hf'|[Hw Hd']%andb_prop]%orb_prop; [by apply Hf|]. apply negb_true_iff in Hw, Hd'.
      rewrite <- Hd, <- Huo by done. by apply How. }
    destruct (insert_ok c o e' (cachedCoinsUsage c - DynamicMemoryUsage (coin e) + DynamicMemoryUsage cn) Hc Hok) as (K & U & B).
    { by rewrite Ho. }
    eexists. split; [reflexivity|]. unfold set_cache in *. cbn [cacheCoins cachedCoinsUsage base hashBlock] in *.
    rewrite u64_add_l. split; [done|]. split; [done|]. split; [done|]. split; [done|]. intros o'. rewrite U. unfold e'. cbn [set_flags coin]. by rewrite Hun.
  - assert (Huo : utxo c o = utxo (base c) o) by (cbn [utxo cache_spec]; by rewrite Ho).
    cbn [coin]. change (IsSpent Coin_empty) with true. rewrite andb_false_r. cbv zeta.
    set (e' := set_flags _ (mkEntry cn _)).
    assert (Hok : entry_ok (utxo (base c) o) e').
    { split; [intros Hd; unfold e' in Hd; rewrite set_DIRTY in Hd; discriminate|].
      unfold e'. rewrite set_FRESH. change (has FRESH (mkEntry cn _)) with false.
      intros [Hw _]%andb_prop. apply negb_true_iff in Hw. rewrite <- Huo. by apply How. }
    destruct (insert_ok c o e' (cachedCoinsUsage c + DynamicMemoryUsage cn) Hc Hok) as (K & U & B).
    { rewrite Ho. cbn [from_option]. f_equal. unfold e'. cbn [set_flags coin]. lia. }
    eexists. split; [reflexivity|]. unfold set_cache in *. cbn [cacheCoins cachedCoinsUsage base hashBlock flags] in *.
    rewrite u64_add_l, insert_insert_eq. split; [done|]. split; [done|]. split; [done|]. split; [done|]. intros o'. rewrite U. unfold e'. cbn [set_flags coin]. by rewrite Hun.
Qed.

(** Spending removes the coin and hands it out. *)
Lemma SpendCoin_ok (c : Cache) o :
  view_ok c -> exists r c', SpendCoin o c = (Ok r, c') /\ unspent r = utxo c o /\
    view_ok c' /\ best c' = best c /\ below c c' /\ hashBlock c' = hashBlock c /\ forall o', utxo c' o' = upd (utxo c) o None o'.
Proof.
  intros Hc. destruct (FetchCoin_ok c o Hc) as (it & c1 & E & Hun & Hlk & Hit & Hbl & Hhb).
  unfold SpendCoin, mbind, action_bind. rewrite E. pose proof Hun as (K1 & U1 & B1).
  destruct it as [e|].
  - assert (Hbe : entry_ok (utxo (base c1) o) e) by (by apply K1). cbv zeta. destruct (has FRESH e) eqn:Hf.
    + destruct (delete_ok c1 o e _ K1 Hlk eq_refl) as (K & U & B). eexists _, _. split; [done|]. split; [done|]. split; [done|].
      split; [by rewrite B|]. split; [done|]. split; [done|]. intros o'. rewrite U. destruct Hbe as [_ Hn]. rewrite (Hn Hf). unfold upd. case_decide; [done|apply U1].
    + destruct (set_only_DIRTY e) as [Hd Hf']. set (e' := mkEntry (Coin_Clear (coin (set_flags DIRTY e))) (flags (set_flags DIRTY e))).
      assert (Hok : entry_ok (utxo (base c1) o) e').
      { split; [change (has DIRTY e') with (has DIRTY (set_flags DIRTY e)); congruence|].
        change (has FRESH e') with (has FRESH (set_flags DIRTY e)). congruence. }
      destruct (insert_ok c1 o e' (cachedCoinsUsage c1 - DynamicMemoryUsage (coin e)) K1 Hok) as (K & U & B).
      { rewrite Hlk. cbn [from_option]. f_equal. change (DynamicMemoryUsage (coin e')) with (DynamicUsage []). rewrite DynamicUsage_nil. lia. }
      eexists _, _. split; [done|]. split; [done|]. split; [done|]. split; [by rewrite B|]. split; [done|]. split; [done|].
      intros o'. rewrite U. unfold upd. case_decide; [done|apply U1].
  - eexists _, c1. split; [done|]. split; [done|]. split; [done|]. split; [done|]. split; [done|]. split; [done|].
    intros o'. unfold upd. case_decide; [subst; by rewrite U1, <- Hit|apply U1].
Qed.

Lemma SetBestBlock_ok (c : Cache) h :
  view_ok c -> Blob.IsNull h = false ->
  view_ok (SetBestBlock h c) /\ best (SetBestBlock h c) = h /\ forall o, utxo (SetBestBlock h c) o = utxo c o.
Proof. intros Hc Hn. split; [done|]. split; [|done]. cbn [best cache_spec SetBestBlock hashBlock]. by rewrite Hn. Qed.

(** Dropping an unmodified entry changes nothing. *)
Lemma Uncache_ok (c : Cache) o : view_ok c -> unchanged c (Uncache o c).
Proof.
  intros Hc. unfold Uncache. destruct (cacheCoins c !! o) as [e|] eqn:Ho; [|done].
  destruct (flags e =? 0) eqn:Ef; [|done]. apply Z.eqb_eq in Ef.
  destruct (delete_ok c o e _ Hc Ho eq_refl) as (K & U & B). split; [done|]. split; [|done].
  intros o'. rewrite U. unfold upd. case_decide as Hd; [subst|done]. pose proof Hc as (_ & He & _).
  destruct (He o e Ho) as [Hcl _]. cbn [utxo cache_spec]. rewrite Ho. symmetry. apply Hcl. by rewrite has_DIRTY, Ef.
Qed.

(** *** Writing back *)

Lemma BatchWrite_step_ok (c : Cache) o e :
  view_ok c -> (has DIRTY e = true -> has FRESH e = true -> utxo c o = None) ->
  exists c', BatchWrite_step o e c = (Ok tt, c') /\ view_ok c' /\ hashBlock c' = hashBlock c /\
    forall o', utxo c' o' = if has DIRTY e then upd (utxo c) o (unspent (Some (coin e))) o' else utxo c o'.
Proof.
  intros Hc Hf. unfold BatchWrite_step. destruct (has DIRTY e) eqn:Hd; cbn [negb]; [|by exists c]. specialize (Hf eq_refl).
  destruct (cacheCoins c !! o) as [itUs|] eqn:Ho.
  - assert (Huo : utxo c o = unspent (Some (coin itUs))) by (cbn [utxo cache_spec]; by rewrite Ho).
    assert (Hbe : entry_ok (utxo (base c) o) itUs) by (by apply Hc).
    assert (Hno : has FRESH e && negb (IsSpent (coin itUs)) = false).
    { destruct (has FRESH e); [|done]. specialize (Hf eq_refl). rewrite Huo in Hf. cbn in Hf. by destruct (IsSpent (coin itUs)). }
    rewrite Hno. destruct (has FRESH itUs && IsSpent (coin e)) eqn:Hfs.
    + apply andb_prop in Hfs as [Hf1 Hs]. destruct (delete_ok c o itUs _ Hc Ho eq_refl) as (K & U & B).
      eexists. split; [done|]. split; [done|]. split; [done|]. intros o'. rewrite U. destruct Hbe as [_ Hn]. rewrite (Hn Hf1).
      cbn [unspent]. by rewrite Hs.
    + set (e' := set_flags DIRTY (mkEntry (coin e) (flags itUs))). destruct (set_only_DIRTY (mkEntry (coin e) (flags itUs))) as [Hd' Hf'].
      assert (Hok : entry_ok (utxo (base c) o) e').
      { split; [unfold e'; congruence|]. unfold e'. rewrite Hf'. apply Hbe. }
      destruct (insert_ok c o e' (cachedCoinsUsage c - DynamicMemoryUsage (coin itUs) + DynamicMemoryUsage (coin e)) Hc Hok) as (K & U & B).
      { by rewrite Ho. }
      eexists. split; [done|]. split; [done|]. split; [done|]. intros o'. by rewrite U.
  - assert (Huo : utxo c o = utxo (base c) o) by (cbn [utxo cache_spec]; by rewrite Ho).
    destruct (has FRESH e && IsSpent (coin e)) eqn:Hfs; cbn [negb].
    + exists c. split; [done|]. split; [done|]. split; [done|]. intros o'. apply andb_prop in Hfs as [Hf1 Hs]. unfold upd.
      cbn [unspent]. rewrite Hs. case_decide; [subst; by apply Hf|done].
    + set (e' := if has FRESH e then _ else _).
      assert (Ec : coin e' = coin e) by (unfold e'; by destruct (has FRESH e)).
      assert (Hok : entry_ok (utxo (base c) o) e').
      { rewrite <- Huo. split; unfold e'; destruct (has FRESH e); try done; rewrite ?has_DIRTY, ?has_FRESH; try done;
        intros _; by apply Hf. }
      destruct (insert_ok c o e' (cachedCoinsUsage c + DynamicMemoryUsage (coin e)) Hc Hok) as (K & U & B).
      { rewrite Ho, Ec. cbn [from_option]. f_equal. lia. }
      eexists. split; [done|]. split; [done|]. split; [done|]. intros o'. by rewrite U, Ec.
Qed.

Lemma BatchWrite_loop_ok l (c : Cache) :
  view_ok c -> NoDup l.*1 -> (forall o e, (o, e) ∈ l -> has DIRTY e = true -> has FRESH e = true -> utxo c o = None) ->
  exists c', BatchWrite_loop l c = (Ok tt, [], c') /\ view_ok c' /\ hashBlock c' = hashBlock c /\
    forall o, utxo c' o = after_batch (utxo c) (list_to_map l) o.
Proof.
  revert c. induction l as [|[o e] l IH]; intros c Hc Hnd Hf; cbn [BatchWrite_loop].
  { exists c. split; [done|]. split; [done|]. split; [done|]. intros o. unfold after_batch. cbn. by rewrite lookup_empty. }
  apply NoDup_cons in Hnd as [Hni Hnd].
  destruct (BatchWrite_step_ok c o e Hc) as (c1 & -> & K1 & H1 & U1). { apply Hf. by constructor. }
  destruct (IH c1 K1 Hnd) as (c2 & -> & K2 & H2 & U2).
  { intros o' e' Hin Hd Hfr. rewrite U1. unfold upd.
    assert (o' <> o) by (intros ->; apply Hni, list_elem_of_fmap; by exists (o, e')).
    assert (utxo c o' = None) by (apply (Hf o' e'); [by constructor|done..]).
    destruct (has DIRTY e); [by case_decide|done]. }
  exists c2. split; [done|]. split; [done|]. split; [congruence|]. intros o'. rewrite U2. unfold after_batch. cbn [list_to_map foldr fst snd].
  destruct (decide (o' = o)) as [->|Hne].
  - rewrite lookup_insert_eq, not_elem_of_list_to_map_1 by done. rewrite U1. destruct (has DIRTY e); [|done].
    unfold upd. by rewrite decide_True.
  - rewrite lookup_insert_ne by done. rewrite U1. destruct (has DIRTY e); [|done]. unfold upd. by rewrite decide_False.
Qed.

#[export] Instance cache_laws : CoinsViewLaws Cache.
Proof.
  split.
  - apply cache_unspent.
  - intros c o Hc. destruct (GetCoin_ok c o Hc) as (c' & E & Hun & _). eexists _, c'. split; [exact E|]. split; [by apply cache_unspent|done].
  - intros c o Hc. destruct (HaveCoin_ok c o Hc) as (c' & E & Hun & _). by exists c'.
  - intros c Hc. destruct (GetBestBlock_ok c Hc) as (c' & E & Hun & _). by exists c'.
  - intros c l h Hc Hnd Hn Hf. destruct (BatchWrite_loop_ok l c Hc Hnd Hf) as (c' & E & K & _ & U).
    exists (SetBestBlock h c'). destruct (SetBestBlock_ok c' h K Hn) as (K' & B' & U').
    split; [|split; [done|split; [|done]]].
    + cbn [view_BatchWrite CCoinsViewCache_view]. unfold BatchWrite. by rewrite E.
    + intros o. by rewrite U', U.
Qed.

(** [Flush] moves everything into the view below: cache and base then both stand for the set the
    cache stood for, and the cache is empty. *)
Lemma Flush_ok (c : Cache) :
  view_ok c -> Blob.IsNull (hashBlock c) = false ->
  exists c', Flush c = (Ok true, c') /\ unchanged c c' /\ cacheCoins c' = ∅ /\ hashBlock c' = hashBlock c /\
    view_ok (base c') /\ (forall o, utxo (base c') o = utxo c o) /\ best (base c') = best c.
Proof.
  intros (Hb & He & Hu) Hn. unfold Flush.
  assert (Hnd : NoDup (iterate (cacheCoins c)).*1) by (rewrite iterate_perm; apply NoDup_fst_map_to_list).
  assert (Hin : forall o e, (o, e) ∈ iterate (cacheCoins c) -> cacheCoins c !! o = Some e).
  { intros o e. rewrite iterate_perm. apply elem_of_map_to_list. }
  destruct (law_BatchWrite (base c) (iterate (cacheCoins c)) (hashBlock c) Hb Hnd Hn) as (b & E & Kb & Ub & Bb).
  { intros o e Hoe Hd Hf. by apply (He o e); [apply Hin|]. }
  rewrite E. eexists. split; [done|].
  assert (Hub : forall o, utxo b o = utxo c o).
  { intros o. rewrite Ub. unfold after_batch. rewrite (list_to_map_proper _ (map_to_list (cacheCoins c))); [|done|apply iterate_perm].
    rewrite list_to_map_to_list. cbn [utxo cache_spec]. destruct (cacheCoins c !! o) as [e|] eqn:Ho; [|done].
    destruct (has DIRTY e) eqn:Hd; [done|]. symmetry. by apply (He o e Ho). }
  unfold unchanged. cbn [view_ok utxo best cache_spec base hashBlock cacheCoins cachedCoinsUsage]. rewrite Hn.
  split_and!; done.
Qed.

(** Denying an overwrite of a cached coin is detected. *)
Lemma AddCoin_overwrite (c : Cache) o cn e :
  IsSpent cn = false -> Script.IsUnspendable (scriptPubKey (coin_out cn)) = false ->
  cacheCoins c !! o = Some e -> IsSpent (coin e) = false ->
  exists c', AddCoin o cn false c = (Throw "Adding new coin that replaces non-pruned entry", c').
Proof. intros H1 H2 H3 H4. unfold AddCoin. rewrite H1, H2, H3. cbn [negb andb]. rewrite H4. cbn [negb]. eauto. Qed.
End cache.

(** ** A cache as a transaction on a ledger

    [working] is the set as the user of the cache sees it, [committed] the set in the view below.
    Every operation works on the former; only [Flush] makes it the latter. *)

Record ledger := mkLedger { working : utxo_set; committed : utxo_set; tip : list Z; tip_known : bool }.

Inductive call :=
  | CGet (o : COutPoint)
  | CHave (o : COutPoint)
  | CAccess (o : COutPoint)
  | CAdd (o : COutPoint) (cn : Coin) (possible_overwrite : bool)
  | CSpend (o : COutPoint)
  | CBest
  | CSetBest (h : list Z)
  | CUncache (o : COutPoint)
  | CFlush.

Inductive answer := ACoin (r : option Coin) | ABool (b : bool) | ABlock (h : list Z) | ADone.

Definition ledger_call (k : call) (L : ledger) : answer * ledger :=
  match k with
  | CGet o | CAccess o => (ACoin (working L o), L)
  | CHave o => (ABool (bool_decide (is_Some (working L o))), L)
  | CAdd o cn _ =>
      (ADone, if Script.IsUnspendable (scriptPubKey (coin_out cn)) then L
              else mkLedger (upd (working L) o (Some cn)) (committed L) (tip L) (tip_known L))
  | CSpend o => (ACoin (working L o), mkLedger (upd (working L) o None) (committed L) (tip L) (tip_known L))
  | CBest => (ABlock (tip L), mkLedger (working L) (committed L) (tip L) (tip_known L || negb (Blob.IsNull (tip L))))
  | CSetBest h => (ADone, mkLedger (working L) (committed L) h true)
  | CUncache _ => (ADone, L)
  | CFlush => (ABool true, mkLedger (working L) (working L) (tip L) true)
  end.

(** what the callers must respect: no spent coin is added, no overwrite is denied that takes place,
    and a best block is known before flushing *)
Definition allowed (k : call) (L : ledger) : Prop :=
  match k with
  | CAdd o cn ow => IsSpent cn = false /\ (ow = false -> working L o = None)
  | CSetBest h => Blob.IsNull h = false
  | CFlush => tip_known L = true
  | _ => True
  end.

Fixpoint ledger_calls (ks : list call) (L : ledger) : list answer * ledger :=
  match ks with
  | [] => ([], L)
  | k :: ks => let '(a, L) := ledger_call k L in let '(l, L) := ledger_calls ks L in (a :: l, L)
  end.
Fixpoint all_allowed (ks : list call) (L : ledger) : Prop :=
  match ks with
  | [] => True
  | k :: ks => allowed k L /\ all_allowed ks (ledger_call k L).2
  end.

Section refinement.
Context {V : Type} `{HV : CoinsView V} `{HS : !CoinsSpec V} `{HL : !CoinsViewLaws V} `{HO : IterationOrder} `{HU : ScriptUsage}.
#[local] Abbreviation Cache := (CCoinsViewCache V).

(** the answers, a spent coin counting as none *)
Definition do_call (k : call) : action Cache answer :=
  match k with
  | CGet o => r ← GetCoin o; mret (ACoin r)
  | CHave o => b ← HaveCoin o; mret (ABool b)
  | CAccess o => r ← AccessCoin o; mret (ACoin (unspent (Some r)))
  | CAdd o cn ow => _ ← AddCoin o cn ow; mret ADone
  | CSpend o => r ← SpendCoin o; mret (ACoin (unspent r))
  | CBest => h ← GetBestBlock; mret (ABlock h)
  | CSetBest h => λ c, (Ok ADone, SetBestBlock h c)
  | CUncache o => λ c, (Ok ADone, Uncache o c)
  | CFlush => b ← Flush; mret (ABool b)
  end.
Fixpoint do_calls (ks : list call) : action Cache (list answer) :=
  match ks with
  | [] => mret []
  | k :: ks => a ← do_call k; l ← do_calls ks; mret (a :: l)
  end.

Definition stands_for (c : Cache) (L : ledger) : Prop :=
  view_ok c /\ (forall o, utxo c o = working L o) /\ (forall o, utxo (base c) o = committed L o) /\
  best c = tip L /\ (tip_known L = true -> Blob.IsNull (hashBlock c) = false).

Lemma stands_for_unchanged c c' L :
  stands_for c L -> unchanged c c' -> below c c' -> stands_for c' L.
Proof.
  intros (_ & U & C & B & T) (K' & U' & B') ((_ & C' & _) & H). split_and!; [done|..].
  - intros o. by rewrite U', U.
  - intros o. by rewrite C', C.
  - congruence.
  - intros Hk. specialize (T Hk). by rewrite H.
Qed.

Ltac run E := unfold mbind, action_bind, mret, action_ret; rewrite E.

Lemma do_call_ok k c L :
  stands_for c L -> allowed k L -> exists c', do_call k c = (Ok (ledger_call k L).1, c') /\ stands_for c' (ledger_call k L).2.
Proof.
  intros HR. pose proof HR as (K & U & C & B & T).
  destruct k as [o|o|o|o cn ow|o| |h|o|]; cbn [do_call ledger_call fst snd allowed]; intros Ha.
  - destruct (GetCoin_ok c o K) as (c' & E & Hun & Hbl). exists c'. run E. rewrite U. split; [done|by eapply stands_for_unchanged].
  - destruct (HaveCoin_ok c o K) as (c' & E & Hun & Hbl). exists c'. run E. rewrite U. split; [done|by eapply stands_for_unchanged].
  - destruct (AccessCoin_ok c o K) as (cn & c' & E & Hcn & Hun & Hbl). exists c'. run E. rewrite Hcn, U.
    split; [done|by eapply stands_for_unchanged].
  - destruct Ha as [Hs Ho]. destruct (AddCoin_ok c o cn ow K Hs) as (c' & E & K' & B' & Eb & Eh & U'); [by rewrite U|].
    exists c'. run E. split; [done|]. destruct (Script.IsUnspendable _); split_and!; cbn [working committed tip tip_known];
      rewrite ?Eb, ?Eh, ?B'; try done; intros o'; rewrite U'; unfold upd; try case_decide; done.
  - destruct (SpendCoin_ok c o K) as (r & c' & E & Hr & K' & B' & (Hbl & _) & Eh & U'). exists c'. run E. rewrite Hr, U. split; [done|].
    destruct Hbl as (_ & Ub & _). split_and!; cbn [working committed tip tip_known]; rewrite ?Eh, ?B'; try done.
    + intros o'. rewrite U'. unfold upd. by case_decide.
    + intros o'. by rewrite Ub.
  - destruct (GetBestBlock_ok c K) as (c' & E & Hun & Hbl & Hk). exists c'. run E. rewrite B. split; [done|].
    destruct (stands_for_unchanged _ _ _ HR Hun Hbl) as (K' & U' & C' & B' & T'). split_and!; try done. cbn [tip_known].
    intros [Ht|Ht]%orb_prop; [by apply T'|]. apply negb_true_iff in Ht. apply Hk. by rewrite B.
  - exists (SetBestBlock h c). split; [done|]. destruct (SetBestBlock_ok c h K Ha) as (K' & B' & U'). by split_and!.
  - exists (Uncache o c). split; [done|]. apply (stands_for_unchanged c); [done|by apply Uncache_ok|].
    unfold Uncache. repeat case_match; try by apply below_refl. by eapply below_intro; [apply below_refl|..].
  - destruct (Flush_ok c K (T Ha)) as (c' & E & (K' & U' & B') & _ & Eh & _ & Ub & _). exists c'. run E. split; [done|].
    split_and!; cbn [working committed tip tip_known]; rewrite ?Eh, ?B'; try done; intros o.
    + by rewrite U', U.
    + by rewrite Ub, U.
    + by apply T.
Qed.

(** C1: A coins cache is a transaction on the set of unspent outputs: over any base view that keeps its
    promises, any sequence of lookups, additions, spends, evictions and flushes that respects the
    rules for callers returns exactly what the same operations on a plain set would, never throws,
    leaves the base's set untouched until a flush makes it equal to the working set, and keeps the
    cache's invariants (the meaning of the dirty and fresh flags, the memory count). *)
Theorem coins_cache_refines (ks : list call) (c : CCoinsViewCache V) (L : ledger) :
  stands_for c L -> all_allowed ks L ->
  exists c', do_calls ks c = (Ok (ledger_calls ks L).1, c') /\ stands_for c' (ledger_calls ks L).2.
Proof.
  revert c L. induction ks as [|k ks IH]; intros c L HR Ha; [by exists c|].
  destruct Ha as [Hk Ha]. destruct (do_call_ok k c L HR Hk) as (c1 & E1 & HR1).
  destruct (IH c1 _ HR1 Ha) as (c2 & E2 & HR2). exists c2. cbn [do_calls ledger_calls].
  destruct (ledger_call k L) as [a L1]. cbn [fst snd] in *. destruct (ledger_calls ks L1) as [l L2]. cbn [fst snd] in *.
  split; [|done]. run E1. by rewrite E2.
Qed.
End refinement.
