(* ===== verification/CoinsDB.v ===== *)
(** * The coins database: CCoinsViewDB of txdb.h and txdb.cpp

    The database is a map with typed keys: a coin per outpoint ('C'), the best block ('B') and the
    head blocks ('H').  [codec_CoinEntry] and [codec_Coin] are the formats of a key and a value,
    and their laws say that the bytes stored name one outpoint and give back one coin.  A batch is
    written atomically, which is what LevelDB promises; between batches the process may stop. *)

From S2P Require Import Prelude Bytes Streams Serialize SerializeLaws SerializeCodecs Script Uint256 Transaction Compressor CompressorLaws Coins CoinsLaws.

(** ** Formats *)

Definition DB_COIN : Z := 67.
Definition DB_BEST_BLOCK : Z := 66.
Definition DB_HEAD_BLOCKS : Z := 72.

(** struct CoinEntry: the key read is returned with the outpoint *)
Definition codec_CoinEntry : codec (Z * COutPoint) := Codec
  (λ (S : Type) (_ : OStream S) '(key, o),
    _ ← Serialize codec_int8 key; _ ← Serialize codec_uint256 (hash o); Serialize (CVarInt 32) (n o))
  (λ (S : Type) (_ : IStream S),
    key ← Unserialize codec_int8; h ← Unserialize codec_uint256; i ← Unserialize (CVarInt 32);
    mret (key, mkCOutPoint h i)).

(** ** The database *)

Record CCoinsViewDB := mkDB {
  db_coins : gmap COutPoint Coin;
  db_best : option (list Z);
  db_heads : option (list (list Z));
}.

Inductive db_op :=
  | EraseCoin (o : COutPoint)
  | WriteCoin (o : COutPoint) (c : Coin)
  | EraseBest
  | WriteBest (h : list Z)
  | EraseHeads
  | WriteHeads (l : list (list Z)).

Definition apply_op (db : CCoinsViewDB) (op : db_op) : CCoinsViewDB :=
  match op with
  | EraseCoin o => mkDB (delete o (db_coins db)) (db_best db) (db_heads db)
  | WriteCoin o c => mkDB (<[o := c]> (db_coins db)) (db_best db) (db_heads db)
  | EraseBest => mkDB (db_coins db) None (db_heads db)
  | WriteBest h => mkDB (db_coins db) (Some h) (db_heads db)
  | EraseHeads => mkDB (db_coins db) (db_best db) None
  | WriteHeads l => mkDB (db_coins db) (db_best db) (Some l)
  end.

(** [db.WriteBatch(batch)] *)
Definition WriteBatch (db : CCoinsViewDB) (batch : list db_op) : CCoinsViewDB := foldl apply_op db batch.

Definition DB_GetBestBlock (db : CCoinsViewDB) : list Z := default (Blob.SetNull 32) (db_best db).
Definition DB_GetHeadBlocks (db : CCoinsViewDB) : list (list Z) := default [] (db_heads db).

(** [batch.SizeEstimate()], which depends on the serialized sizes, and the option -dbbatchsize *)
Class BatchLimit := { SizeEstimate : list db_op -> Z; batch_size : Z }.

Section db.
Context `{HB : BatchLimit}.

(** what the loop adds to the batch for one entry *)
Definition entry_ops (o : COutPoint) (e : CCoinsCacheEntry) : list db_op :=
  if has DIRTY e then (if IsSpent (coin e) then [EraseCoin o] else [WriteCoin o (coin e)]) else [].

(** The loop of [BatchWrite]: the batches written on the way, and the last, unwritten one. *)
Fixpoint BatchWrite_batches (mapCoins : list (COutPoint * CCoinsCacheEntry)) (batch : list db_op) :
    list (list db_op) * list db_op :=
  match mapCoins with
  | [] => ([], batch)
  | (o, e) :: rest =>
      let batch := batch ++ entry_ops o e in
      if batch_size <? SizeEstimate batch then
        let '(done, last) := BatchWrite_batches rest [] in (batch :: done, last)
      else BatchWrite_batches rest batch
  end.

(** the tip the change starts from; [None]: an assertion fails *)
Definition old_tip (hashBlock : list Z) (db : CCoinsViewDB) : option (list Z) :=
  let old_tip := DB_GetBestBlock db in
  if Blob.IsNull old_tip then
    match DB_GetHeadBlocks db with
    | [h0; h1] => if decide (h0 = hashBlock) then Some h1 else None
    | _ => Some old_tip
    end
  else Some old_tip.

(** The batches [BatchWrite] writes, in order; [None]: an assertion fails. *)
Definition all_batches (mapCoins : list (COutPoint * CCoinsCacheEntry)) (hashBlock : list Z) (db : CCoinsViewDB) :
    option (list (list db_op)) :=
  if Blob.IsNull hashBlock then None
  else
    match old_tip hashBlock db with
    | None => None
    | Some old_tip =>
        let '(done, last) := BatchWrite_batches mapCoins [EraseBest; WriteHeads [hashBlock; old_tip]] in
        Some (done ++ [last ++ [EraseHeads; WriteBest hashBlock]])
    end.

Definition DB_BatchWrite (mapCoins : list (COutPoint * CCoinsCacheEntry)) (hashBlock : list Z) (db : CCoinsViewDB) :
    result bool * list (COutPoint * CCoinsCacheEntry) * CCoinsViewDB :=
  match all_batches mapCoins hashBlock db with
  | Some batches => (Ok true, [], foldl WriteBatch db batches)
  | None => (Throw "assertion failed", mapCoins, db)
  end.

(** the database as it is found when the process stopped after [k] batches *)
Definition crash_after (k : nat) (mapCoins : list (COutPoint * CCoinsCacheEntry)) (hashBlock : list Z) (db : CCoinsViewDB) : CCoinsViewDB :=
  foldl WriteBatch db (take k (default [] (all_batches mapCoins hashBlock db))).

#[export] Instance CCoinsViewDB_view : CoinsView CCoinsViewDB := {|
  view_GetCoin outpoint := λ db, (Ok (db_coins db !! outpoint), db);
  view_HaveCoin outpoint := λ db, (Ok (bool_decide (is_Some (db_coins db !! outpoint))), db);
  view_GetBestBlock := λ db, (Ok (DB_GetBestBlock db), db);
  view_GetHeadBlocks := λ db, (Ok (DB_GetHeadBlocks db), db);
  view_BatchWrite := DB_BatchWrite;
|}.
End db.

(** ** Laws of the formats *)

#[export, refine] Instance codec_CoinEntry_laws : CodecLaws codec_CoinEntry := {|
  encoding '(key, o) := encoding codec_int8 key ++ encoding codec_uint256 (hash o) ++ encoding (CVarInt 32) (n o);
  representable '(key, o) := representable codec_int8 key /\ representable codec_uint256 (hash o) /\ representable (CVarInt 32) (n o) |}.
Proof.
  - intros S ?? [key o] (H1 & H2 & H3). emits_fields.
  - intros S ?? [key [h i]] (H1 & H2 & H3). parses_fields.
  - intros [key o] (H1 & H2 & H3). rewrite !Forall_app. split_and!; by apply encoding_bytes.
Defined.

(** the height and the flag in one number *)
Lemma coin_code_halves hgt (cb : bool) :
  0 <= hgt < 2 ^ 31 ->
  let code := u32 (hgt * 2 + (if cb then 1 else 0)) in
  0 <= code <= imax 32 /\ code >> 1 = hgt /\ negb ((code &&& 1) =? 0) = cb.
Proof.
  intros Hh. cbv zeta. rewrite uint_small by (unfold in_uint; destruct cb; lia). unfold imax.
  assert (EL : forall x, x &&& 1 = x `mod` 2) by (intros x; exact (Z.land_ones x 1 ltac:(lia))).
  rewrite EL, Z.shiftr_div_pow2 by lia. change (2 ^ 1) with 2.
  split; [destruct cb; lia|]. destruct cb.
  - split; [lia_mod|]. by replace ((hgt * 2 + 1) `mod` 2) with 1 by lia_mod.
  - split; [lia_mod|]. by replace ((hgt * 2 + 0) `mod` 2) with 0 by lia_mod.
Qed.

Section coin_codec.
Context `{HL : Secp256k1Laws}.

#[export, refine] Instance codec_Coin_laws : CodecLaws codec_Coin := {|
  encoding c := encoding (CVarInt 32) (u32 (coin_nHeight c * 2 + (if fCoinBase c then 1 else 0))) ++
    encoding CTxOutCompressor (coin_out c) ++ encoding (CVarInt 16) (coin_nType c) ++ encoding codec_byte_vector (coin_vExtraPayload c);
  representable c := 0 <= coin_nHeight c < 2 ^ 31 /\ representable CTxOutCompressor (coin_out c) /\
    representable (CVarInt 16) (coin_nType c) /\ representable codec_byte_vector (coin_vExtraPayload c) |}.
Proof.
  - intros S ?? c (H1 & H2 & H3 & H4). destruct (coin_code_halves _ (fCoinBase c) H1) as (Hc & _).
    assert (Hs : IsSpent c = false) by (destruct H2 as [H2 _]; apply Z.eqb_neq; lia).
    unfold Serialize at 1, codec_Coin. rewrite Hs. cbv zeta.
    apply emits_bind; [by apply Serialize_emits|]. emits_fields.
  - intros S ?? [o cb hgt t p] (H1 & H2 & H3 & H4). cbn [coin_out fCoinBase coin_nHeight coin_nType coin_vExtraPayload] in *.
    destruct (coin_code_halves hgt cb H1) as (Hc & E1 & E2).
    eapply parses_bind; [by apply Unserialize_parses|]. cbv zeta. rewrite E1, E2. parses_fields.
  - intros c (H1 & H2 & H3 & H4). destruct (coin_code_halves _ (fCoinBase c) H1) as (Hc & _). rewrite !Forall_app.
    split_and!; by apply encoding_bytes.
Defined.
End coin_codec.

(** ** Batches *)

Lemma WriteBatch_app db b1 b2 : WriteBatch db (b1 ++ b2) = WriteBatch (WriteBatch db b1) b2.
Proof. apply foldl_app. Qed.

Lemma WriteBatch_concat batches db : foldl WriteBatch db batches = WriteBatch db (concat batches).
Proof. revert db. induction batches as [|b bs IH]; intros db; [done|]. cbn [foldl concat]. by rewrite IH, WriteBatch_app. Qed.

Definition entries_ops (l : list (COutPoint * CCoinsCacheEntry)) : list db_op := concat ((λ '(o, e), entry_ops o e) <$> l).

(** the coins after the operations for a list of entries *)
Lemma entries_ops_spec l db :
  NoDup l.*1 ->
  let db' := WriteBatch db (entries_ops l) in
  db_best db' = db_best db /\ db_heads db' = db_heads db /\
  forall o, db_coins db' !! o = after_batch (λ o, db_coins db !! o) (list_to_map l) o.
Proof.
  revert db. induction l as [|[o e] l IH]; intros db Hnd; cbv zeta.
  { split; [done|]. split; [done|]. intros o. unfold after_batch. cbn. by rewrite lookup_empty. }
  apply NoDup_cons in Hnd as [Hni Hnd]. unfold entries_ops. cbn [fmap list_fmap concat]. rewrite WriteBatch_app.
  set (db1 := WriteBatch db (entry_ops o e)).
  assert (H1 : db_best db1 = db_best db /\ db_heads db1 = db_heads db /\ forall o',
    db_coins db1 !! o' = if has DIRTY e then upd (λ o, db_coins db !! o) o (unspent (Some (coin e))) o' else db_coins db !! o').
  { unfold db1, entry_ops, upd. cbn [unspent]. destruct (has DIRTY e); [|done].
    destruct (IsSpent (coin e)); split; try done; split; try done; intros o'; cbn [WriteBatch foldl apply_op db_coins];
      case_decide; subst; by rewrite ?lookup_delete_eq, ?lookup_insert_eq, ?lookup_delete_ne, ?lookup_insert_ne by done. }
  destruct H1 as (B1 & D1 & C1). destruct (IH db1 Hnd) as (B2 & D2 & C2). fold (entries_ops l).
  split; [congruence|]. split; [congruence|]. intros o'. rewrite C2. unfold after_batch. cbn [list_to_map foldr fst snd].
  destruct (decide (o' = o)) as [->|Hne].
  - rewrite lookup_insert_eq, not_elem_of_list_to_map_1 by done. rewrite C1. unfold upd. rewrite decide_True by done. done.
  - rewrite lookup_insert_ne by done. rewrite C1. unfold upd. rewrite decide_False by done. by destruct (has DIRTY e).
Qed.

Section batches.
Context `{HB : BatchLimit}.

(** After any number of batches a prefix of the entries has been written. *)
Lemma BatchWrite_batches_prefix l batch (k : nat) :
  let '(done, last) := BatchWrite_batches l batch in
  (k < length done)%nat -> exists m, concat (take (S k) done) = batch ++ entries_ops (take m l).
Proof.
  revert batch k. induction l as [|[o e] l IH]; intros batch k; cbn [BatchWrite_batches]; [cbn; lia|].
  destruct (batch_size <? SizeEstimate (batch ++ entry_ops o e)).
  - specialize (IH [] (k - 1)%nat). destruct (BatchWrite_batches l []) as [done last]. intros Hk. cbn [length] in Hk.
    destruct k as [|k].
    + exists 1%nat. cbn [take concat]. rewrite take_0. unfold entries_ops. cbn. by rewrite !app_nil_r.
    + destruct IH as [m IH]; [lia|]. replace (S (S k - 1)) with (S k) in IH by lia. exists (S m). cbn [take concat].
      cbn [take] in IH. rewrite IH. unfold entries_ops. cbn. by rewrite <- app_assoc.
  - specialize (IH (batch ++ entry_ops o e) k). destruct (BatchWrite_batches l _) as [done last]. intros Hk.
    destruct (IH Hk) as [m E]. exists (S m). rewrite E. unfold entries_ops. cbn. by rewrite <- app_assoc.
Qed.

Lemma BatchWrite_batches_all l batch :
  let '(done, last) := BatchWrite_batches l batch in concat done ++ last = batch ++ entries_ops l.
Proof.
  revert batch. induction l as [|[o e] l IH]; intros batch; cbn [BatchWrite_batches]; [by rewrite app_nil_r|].
  destruct (batch_size <? SizeEstimate (batch ++ entry_ops o e)).
  - specialize (IH []). destruct (BatchWrite_batches l []) as [done last]. cbn [concat]. rewrite <- app_assoc, IH.
    unfold entries_ops. cbn. by rewrite <- app_assoc.
  - specialize (IH (batch ++ entry_ops o e)). destruct (BatchWrite_batches l _) as [done last]. rewrite IH.
    unfold entries_ops. cbn. by rewrite <- app_assoc.
Qed.

(** A change that is allowed to run to its end, from a database at a block or in the middle of the
    same change. *)
Lemma DB_BatchWrite_ok l h db b :
  NoDup l.*1 -> Blob.IsNull h = false -> old_tip h db = Some b ->
  exists db', DB_BatchWrite l h db = (Ok true, [], db') /\ db_best db' = Some h /\ db_heads db' = None /\
    forall o, db_coins db' !! o = after_batch (λ o, db_coins db !! o) (list_to_map l) o.
Proof.
  intros Hnd Hh Ht. unfold DB_BatchWrite, all_batches. rewrite Hh, Ht.
  pose proof (BatchWrite_batches_all l [EraseBest; WriteHeads [h; b]]) as E.
  destruct (BatchWrite_batches l _) as [done last]. eexists. split; [reflexivity|].
  rewrite WriteBatch_concat, concat_app. cbn [concat]. rewrite app_nil_r, app_assoc, E, !WriteBatch_app.
  destruct (entries_ops_spec l (WriteBatch db [EraseBest; WriteHeads [h; b]]) Hnd) as (_ & _ & C).
  split; [done|]. split; [done|]. exact C.
Qed.

(** A database is consistent when it is at a block and holds unspent coins only. *)
#[export] Instance CCoinsViewDB_spec : CoinsSpec CCoinsViewDB := {|
  view_ok db := db_heads db = None /\ (forall o c, db_coins db !! o = Some c -> IsSpent c = false);
  utxo db := λ o, db_coins db !! o;
  best db := DB_GetBestBlock db;
|}.

Lemma unspent_coins db o : view_ok db -> unspent (db_coins db !! o) = db_coins db !! o.
Proof. intros [_ Hc]. destruct (db_coins db !! o) as [c|] eqn:E; [|done]. cbn. by rewrite (Hc o c E). Qed.

#[export] Instance CCoinsViewDB_laws : CoinsViewLaws CCoinsViewDB.
Proof.
  split.
  - apply unspent_coins.
  - intros db o Hok. eexists _, db. split; [done|]. split; [by apply unspent_coins|done].
  - intros db o Hok. by exists db.
  - intros db Hok. by exists db.
  - intros db l h Hok Hnd Hh _. pose proof Hok as [Hd Hc].
    assert (Ht : exists b, old_tip h db = Some b).
    { unfold old_tip, DB_GetHeadBlocks. rewrite Hd. cbn. case_match; eauto. }
    destruct Ht as [b Ht]. destruct (DB_BatchWrite_ok l h db b Hnd Hh Ht) as (db' & E & Hb & Hd' & C).
    exists db'. split; [done|]. split; [|split; [done|by cbn; unfold DB_GetBestBlock; rewrite Hb]].
    split; [done|]. intros o c. rewrite C. unfold after_batch. cbn [unspent].
    destruct (list_to_map l !! o) as [e|]; [|apply Hc]. destruct (has DIRTY e); [|apply Hc].
    destruct (IsSpent (coin e)) eqn:Es; [done|]. by intros [= <-].
Qed.

Lemma after_batch_ext (u u' : utxo_set) m o : (forall o, u o = u' o) -> after_batch u m o = after_batch u' m o.
Proof. intros E. unfold after_batch. by rewrite E. Qed.

(** Writing the same entries again, in the middle of the change, gives the same coins. *)
Lemma after_batch_again (u : utxo_set) (l : list (COutPoint * CCoinsCacheEntry)) m o :
  NoDup l.*1 ->
  after_batch (after_batch u (list_to_map (take m l))) (list_to_map l) o = after_batch u (list_to_map l) o.
Proof.
  intros Hnd. unfold after_batch. destruct ((list_to_map l : CCoinsMap) !! o) as [e|] eqn:E.
  - destruct (has DIRTY e) eqn:Hd; [done|]. destruct ((list_to_map (take m l) : CCoinsMap) !! o) as [e'|] eqn:E'; [|done].
    assert (e' = e) as ->; [|by rewrite Hd].
    apply elem_of_list_to_map_2 in E'. apply elem_of_list_to_map_2 in E.
    assert (E'' : (o, e') ∈ l) by (rewrite <- (take_drop m l); apply elem_of_app; by left).
    apply (elem_of_list_to_map_1 (M:=gmap COutPoint) l) in E; [|done]. apply (elem_of_list_to_map_1 (M:=gmap COutPoint) l) in E''; [|done].
    congruence.
  - destruct ((list_to_map (take m l) : CCoinsMap) !! o) as [e'|] eqn:E'; [|done]. exfalso.
    apply elem_of_list_to_map_2 in E'.
    assert (E'' : (o, e') ∈ l) by (rewrite <- (take_drop m l); apply elem_of_app; by left).
    apply (elem_of_list_to_map_1 (M:=gmap COutPoint) l) in E''; [|done]. congruence.
Qed.

(** C10: A stop of the process while coins are being written leaves a database that says so: after any number of
    batches the database is either untouched, or completely at the new block, or has no best
    block and names the change (new and old block) as its heads, every coin being the old or the
    new one; and writing the same changes again from there completes it, whatever the batch
    size and the order of the entries. *)
Theorem crash_consistent (l : list (COutPoint * CCoinsCacheEntry)) (h b : list Z) (db : CCoinsViewDB) (k : nat) :
  NoDup l.*1 -> Blob.IsNull h = false -> Blob.IsNull b = false -> db_best db = Some b -> db_heads db = None ->
  let new := after_batch (λ o, db_coins db !! o) (list_to_map l) in
  let complete db' := db_best db' = Some h /\ db_heads db' = None /\ forall o, db_coins db' !! o = new o in
  let db' := crash_after k l h db in
  (k = 0%nat /\ db' = db) \/ complete db' \/
  (db_best db' = None /\ db_heads db' = Some [h; b] /\
   (forall o, db_coins db' !! o = db_coins db !! o \/ db_coins db' !! o = new o) /\
   exists db'', DB_BatchWrite l h db' = (Ok true, [], db'') /\ complete db'').
Proof.
  intros Hnd Hh Hb Hbest Hheads. cbv zeta. destruct k as [|k]; [by left|right].
  assert (Ht : old_tip h db = Some b) by (unfold old_tip, DB_GetBestBlock; rewrite Hbest; cbn [default from_option id]; cbv zeta; by rewrite Hb).
  unfold crash_after, all_batches. rewrite Hh, Ht.
  pose proof (BatchWrite_batches_all l [EraseBest; WriteHeads [h; b]]) as Hall.
  pose proof (BatchWrite_batches_prefix l [EraseBest; WriteHeads [h; b]] k) as Hpre.
  destruct (BatchWrite_batches l _) as [done last]. cbn [default from_option id].
  destruct (decide (k < length done)%nat) as [Hk|Hk].
  - right. rewrite take_app_le by lia. destruct (Hpre Hk) as [m E]. rewrite WriteBatch_concat, E, WriteBatch_app.
    set (db1 := WriteBatch db [EraseBest; WriteHeads [h; b]]).
    destruct (entries_ops_spec (take m l) db1) as (B & D & C).
    { rewrite fmap_take. pose proof Hnd as Hnd'. rewrite <- (take_drop m (l.*1)) in Hnd'. by apply NoDup_app in Hnd' as [? _]. }
    set (db2 := WriteBatch db1 _) in *. split; [by rewrite B|]. split; [by rewrite D|].
    assert (Hc : forall o, db_coins db2 !! o = after_batch (λ o, db_coins db !! o) (list_to_map (take m l)) o) by done.
    split.
    + intros o. rewrite Hc. unfold after_batch.
      destruct ((list_to_map (take m l) : CCoinsMap) !! o) as [e|] eqn:E1; [|by left].
      apply elem_of_list_to_map_2 in E1. assert (E2 : (o, e) ∈ l) by (rewrite <- (take_drop m l); apply elem_of_app; by left).
      apply (elem_of_list_to_map_1 (M:=gmap COutPoint) l) in E2; [|done]. rewrite E2. destruct (has DIRTY e); auto.
    + assert (Ht2 : old_tip h db2 = Some b).
      { unfold old_tip, DB_GetBestBlock, DB_GetHeadBlocks. rewrite B, D. cbn. by rewrite decide_True. }
      destruct (DB_BatchWrite_ok l h db2 b Hnd Hh Ht2) as (db3 & E3 & B3 & D3 & C3). exists db3. split; [done|]. split; [done|]. split; [done|].
      intros o. rewrite C3, <- (after_batch_again (λ o, db_coins db !! o) l m o Hnd). apply after_batch_ext. exact Hc.
  - left. rewrite take_ge by (rewrite length_app; cbn; lia). rewrite WriteBatch_concat, concat_app. cbn [concat].
    rewrite app_nil_r, app_assoc, Hall, !WriteBatch_app.
    destruct (entries_ops_spec l (WriteBatch db [EraseBest; WriteHeads [h; b]]) Hnd) as (_ & _ & C). done.
Qed.
End batches.

(** ** Examples *)

Definition outpoint_a : COutPoint := mkCOutPoint (replicate 32 1) 0.
Definition outpoint_b : COutPoint := mkCOutPoint (replicate 32 2) 7.
Definition coin_a : Coin := mkCoin (mkCTxOut 50 [OP_1]) true 1 0 [].
Definition coin_b : Coin := mkCoin (mkCTxOut 70 [OP_2]) false 2 0 [].

#[local] Instance one_per_batch : BatchLimit := {| SizeEstimate b := length b; batch_size := 0 |}.
#[local] Instance some_order : IterationOrder.
Proof. refine {| iterate m := map_to_list m |}. done. Defined.
#[local] Instance some_usage : ScriptUsage.
Proof. refine {| DynamicUsage s := length s |}. done. Defined.

Lemma crash_consistent_witness :
  let db := mkDB {[outpoint_a := coin_a]} (Some (replicate 32 8)) None in
  let l := [(outpoint_a, mkEntry Coin_empty DIRTY); (outpoint_b, mkEntry coin_b (DIRTY ||| FRESH))] in
  let h := replicate 32 9 in
  let new := after_batch (λ o, db_coins db !! o) (list_to_map l) in
  let complete db' := db_best db' = Some h /\ db_heads db' = None /\ forall o, db_coins db' !! o = new o in
  let db' := crash_after 1 l h db in
  (1%nat = 0%nat /\ db' = db) \/ complete db' \/
  (db_best db' = None /\ db_heads db' = Some [h; replicate 32 8] /\
   (forall o, db_coins db' !! o = db_coins db !! o \/ db_coins db' !! o = new o) /\
   exists db'', DB_BatchWrite l h db' = (Ok true, [], db'') /\ complete db'').
Proof.
  refine (crash_consistent [(outpoint_a, mkEntry Coin_empty DIRTY); (outpoint_b, mkEntry coin_b (DIRTY ||| FRESH))]
    (replicate 32 9) (replicate 32 8) (mkDB {[outpoint_a := coin_a]} (Some (replicate 32 8)) None) 1 _ _ _ _ _);
    try reflexivity.
  cbn. apply NoDup_cons. split; [|apply NoDup_singleton]. rewrite list_elem_of_singleton. discriminate.
Defined.

(** two caches on top of a database *)
Definition stack : CCoinsViewCache (CCoinsViewCache CCoinsViewDB) :=
  CCoinsViewCache_new (CCoinsViewCache_new (mkDB {[outpoint_a := coin_a]} (Some (replicate 32 8)) None)).

Lemma stack_ok :
  stands_for stack (mkLedger (λ o, db_coins (mkDB {[outpoint_a := coin_a]} None None) !! o)
    (λ o, db_coins (mkDB {[outpoint_a := coin_a]} None None) !! o) (replicate 32 8) false).
Proof.
  set (db := mkDB {[outpoint_a := coin_a]} (Some (replicate 32 8)) None).
  assert (Hdb : view_ok db).
  { split; [done|]. intros o c. cbn [db_coins db]. intros [_ <-]%lookup_singleton_Some. done. }
  destruct (new_ok db Hdb) as (K1 & U1 & B1). destruct (new_ok _ K1) as (K2 & U2 & B2).
  split; [exact K2|]. split; [intros o; unfold stack; by rewrite U2, U1|]. split; [intros o; exact (U1 o)|].
  split; [exact (eq_trans B2 B1)|done].
Qed.

Lemma coins_cache_refines_witness :
  exists c', do_calls [CSpend outpoint_a; CAdd outpoint_b coin_b false; CSetBest (replicate 32 9); CFlush; CGet outpoint_b; CHave outpoint_a] stack =
    (Ok [ACoin (Some coin_a); ADone; ADone; ABool true; ACoin (Some coin_b); ABool false], c') /\
    utxo (base c') outpoint_b = Some coin_b.
Proof.
  destruct (coins_cache_refines
    [CSpend outpoint_a; CAdd outpoint_b coin_b false; CSetBest (replicate 32 9); CFlush; CGet outpoint_b; CHave outpoint_a]
    stack _ stack_ok) as (c' & E & HR).
  { cbn. split_and!; try done. }
  exists c'. split; [exact E|]. destruct HR as (_ & _ & C & _). exact (C outpoint_b).
Defined.
