(* ===== verification/SpentIndex.v ===== *)
(** * Records of the optional indexes: spentindex.h

    Keys and values of the spent, timestamp, address and unspent-output indexes with their
    formats.  Heights and times are written big-endian in keys that are searched by range. *)

From S2P Require Import Prelude Bytes Streams Serialize SerializeLaws SerializeCodecs Uint256 Transaction.

Definition codec_uint160 : codec (list Z) := codec_array 20.
#[export] Instance codec_uint160_laws : CodecLaws codec_uint160 := codec_array_laws 20.

(** one integer written by [ser_writedata32be] *)
Definition codec_uint32be : codec Z := Codec (λ _ _, ser_writedata32be) (λ (S : Type) (_ : IStream S), ser_readdata32be).

(** ** Which input spends an output *)

Record CSpentIndexKey := mkCSpentIndexKey { sk_txid : list Z; outputIndex : Z (* unsigned int *) }.
Definition CSpentIndexKey_SetNull : CSpentIndexKey := mkCSpentIndexKey (Blob.SetNull 32) 0.

Definition codec_CSpentIndexKey : codec CSpentIndexKey := Codec
  (λ (S : Type) (_ : OStream S) k, _ ← Serialize codec_uint256 (sk_txid k); Serialize codec_uint32 (outputIndex k))
  (λ (S : Type) (_ : IStream S),
    txid ← Unserialize codec_uint256; outputIndex ← Unserialize codec_uint32; mret (mkCSpentIndexKey txid outputIndex)).

Definition CSpentIndexKeyCompare (a b : CSpentIndexKey) : bool :=
  if decide (sk_txid a = sk_txid b) then outputIndex a <? outputIndex b
  else Blob.Compare (sk_txid a) (sk_txid b) <? 0.

Record CSpentIndexValue := mkCSpentIndexValue {
  sv_txid : list Z;
  inputIndex : Z;          (* unsigned int *)
  sv_blockHeight : Z;      (* int *)
  sv_satoshis : Z;         (* CAmount *)
  addressType : Z;         (* int *)
  addressHash : list Z;
}.
Definition CSpentIndexValue_SetNull : CSpentIndexValue :=
  mkCSpentIndexValue (Blob.SetNull 32) 0 0 0 0 (Blob.SetNull 20).
Definition CSpentIndexValue_IsNull (v : CSpentIndexValue) : bool := Blob.IsNull (sv_txid v).

Definition codec_CSpentIndexValue : codec CSpentIndexValue := Codec
  (λ (S : Type) (_ : OStream S) v,
    _ ← Serialize codec_uint256 (sv_txid v); _ ← Serialize codec_uint32 (inputIndex v);
    _ ← Serialize codec_int32 (sv_blockHeight v); _ ← Serialize codec_int64 (sv_satoshis v);
    _ ← Serialize codec_int32 (addressType v); Serialize codec_uint160 (addressHash v))
  (λ (S : Type) (_ : IStream S),
    txid ← Unserialize codec_uint256; inputIndex ← Unserialize codec_uint32;
    blockHeight ← Unserialize codec_int32; satoshis ← Unserialize codec_int64;
    addressType ← Unserialize codec_int32; addressHash ← Unserialize codec_uint160;
    mret (mkCSpentIndexValue txid inputIndex blockHeight satoshis addressType addressHash)).

(** ** Blocks by time *)

Definition codec_CTimestampIndexIteratorKey : codec Z := codec_uint32be.

Record CTimestampIndexKey := mkCTimestampIndexKey { timestamp : Z (* unsigned int *); ti_blockHash : list Z }.
Definition CTimestampIndexKey_SetNull : CTimestampIndexKey := mkCTimestampIndexKey 0 (Blob.SetNull 32).

Definition codec_CTimestampIndexKey : codec CTimestampIndexKey := Codec
  (λ (S : Type) (_ : OStream S) k, _ ← Serialize codec_uint32be (timestamp k); Serialize codec_uint256 (ti_blockHash k))
  (λ (S : Type) (_ : IStream S),
    timestamp ← Unserialize codec_uint32be; blockHash ← Unserialize codec_uint256; mret (mkCTimestampIndexKey timestamp blockHash)).

(** ** Unspent outputs by address *)

Record CAddressUnspentKey := mkCAddressUnspentKey {
  uk_type : Z;           (* unsigned int *)
  uk_hashBytes : list Z;
  uk_txhash : list Z;
  uk_index : Z;          (* size_t *)
}.
Definition CAddressUnspentKey_SetNull : CAddressUnspentKey := mkCAddressUnspentKey 0 (Blob.SetNull 20) (Blob.SetNull 32) 0.

Definition codec_CAddressUnspentKey : codec CAddressUnspentKey := Codec
  (λ (S : Type) (_ : OStream S) k,
    _ ← Serialize codec_uint8 (uk_type k); _ ← Serialize codec_uint160 (uk_hashBytes k);
    _ ← Serialize codec_uint256 (uk_txhash k); Serialize codec_uint32 (uk_index k))
  (λ (S : Type) (_ : IStream S),
    type ← Unserialize codec_uint8; hashBytes ← Unserialize codec_uint160;
    txhash ← Unserialize codec_uint256; index ← Unserialize codec_uint32;
    mret (mkCAddressUnspentKey type hashBytes txhash index)).

Record CAddressUnspentValue := mkCAddressUnspentValue {
  uv_satoshis : Z;         (* CAmount *)
  uv_script : list Z;
  uv_blockHeight : Z;      (* int *)
  fSpendableHeight : Z;    (* int *)
  fSpendableTime : Z;      (* int64_t *)
}.
(** The constructor takes the time as an [int]. *)
Definition CAddressUnspentValue_new (sats : Z) (scriptPubKey : list Z) (height spendableHeight spendableTime : Z) : CAddressUnspentValue :=
  mkCAddressUnspentValue sats scriptPubKey (i32 height) (i32 spendableHeight) (i32 spendableTime).
Definition CAddressUnspentValue_SetNull : CAddressUnspentValue := mkCAddressUnspentValue (-1) [] 0 0 0.
Definition CAddressUnspentValue_IsNull (v : CAddressUnspentValue) : bool := uv_satoshis v =? -1.

Definition codec_CAddressUnspentValue : codec CAddressUnspentValue := Codec
  (λ (S : Type) (_ : OStream S) v,
    _ ← Serialize codec_int64 (uv_satoshis v); _ ← Serialize codec_script (uv_script v);
    _ ← Serialize codec_int32 (uv_blockHeight v); _ ← Serialize codec_int32 (fSpendableHeight v);
    Serialize codec_int64 (fSpendableTime v))
  (λ (S : Type) (_ : IStream S),
    satoshis ← Unserialize codec_int64; script ← Unserialize codec_script;
    blockHeight ← Unserialize codec_int32; fSpendableHeight ← Unserialize codec_int32;
    fSpendableTime ← Unserialize codec_int64;
    mret (mkCAddressUnspentValue satoshis script blockHeight fSpendableHeight fSpendableTime)).

(** ** Activity by address *)

Record CAddressIndexKey := mkCAddressIndexKey {
  ak_type : Z;             (* unsigned int *)
  ak_hashBytes : list Z;
  ak_blockHeight : Z;      (* int *)
  txindex : Z;             (* unsigned int *)
  ak_txhash : list Z;
  ak_index : Z;            (* size_t *)
  spending : bool;
}.
Definition CAddressIndexKey_SetNull : CAddressIndexKey :=
  mkCAddressIndexKey 0 (Blob.SetNull 20) 0 0 (Blob.SetNull 32) 0 false.

Definition codec_CAddressIndexKey : codec CAddressIndexKey := Codec
  (λ (S : Type) (_ : OStream S) k,
    _ ← Serialize codec_uint8 (ak_type k); _ ← Serialize codec_uint160 (ak_hashBytes k);
    _ ← Serialize codec_uint32be (ak_blockHeight k); _ ← Serialize codec_uint32be (txindex k);
    _ ← Serialize codec_uint256 (ak_txhash k); _ ← Serialize codec_uint32 (ak_index k);
    let f := if spending k then 1 else 0 in Serialize codec_uint8 f)
  (λ (S : Type) (_ : IStream S),
    type ← Unserialize codec_uint8; hashBytes ← Unserialize codec_uint160;
    blockHeight ← Unserialize codec_uint32be; txindex ← Unserialize codec_uint32be;
    txhash ← Unserialize codec_uint256; index ← Unserialize codec_uint32;
    f ← Unserialize codec_uint8;
    mret (mkCAddressIndexKey type hashBytes (i32 blockHeight) txindex txhash index (negb (f =? 0)))).

(** the prefixes used to seek *)
Definition codec_CAddressIndexIteratorKey : codec (Z * list Z) := codec_pair codec_uint8 codec_uint160.

Definition codec_CAddressIndexIteratorHeightKey : codec (Z * list Z * Z) := Codec
  (λ (S : Type) (_ : OStream S) '(type, hashBytes, blockHeight),
    _ ← Serialize codec_uint8 type; _ ← Serialize codec_uint160 hashBytes; Serialize codec_uint32be blockHeight)
  (λ (S : Type) (_ : IStream S),
    type ← Unserialize codec_uint8; hashBytes ← Unserialize codec_uint160; blockHeight ← Unserialize codec_uint32be;
    mret (type, hashBytes, i32 blockHeight)).

(** ** Laws *)

#[export, refine] Instance codec_uint32be_laws : CodecLaws codec_uint32be := {|
  encoding x := WriteBE32 x; representable x := in_uint 32 x |}.
Proof.
  - intros S ?? x Hx. unfold Serialize, codec_uint32be, ser_writedata32be. rewrite uint_small by done. apply emits_write.
  - intros S ?? x Hx. by apply parses_readdata32be.
  - intros x _. apply List.Forall_rev, le_bytes_bytes.
Defined.

#[export, refine] Instance codec_CSpentIndexKey_laws : CodecLaws codec_CSpentIndexKey := {|
  encoding k := encoding codec_uint256 (sk_txid k) ++ encoding codec_uint32 (outputIndex k);
  representable k := representable codec_uint256 (sk_txid k) /\ representable codec_uint32 (outputIndex k) |}.
Proof.
  - intros S ?? k [H1 H2]. emits_fields.
  - intros S ?? [t i] [H1 H2]. parses_fields.
  - intros k [H1 H2]. apply Forall_app. split; by apply encoding_bytes.
Defined.

#[export, refine] Instance codec_CSpentIndexValue_laws : CodecLaws codec_CSpentIndexValue := {|
  encoding v := encoding codec_uint256 (sv_txid v) ++ encoding codec_uint32 (inputIndex v) ++ encoding codec_int32 (sv_blockHeight v) ++
    encoding codec_int64 (sv_satoshis v) ++ encoding codec_int32 (addressType v) ++ encoding codec_uint160 (addressHash v);
  representable v := representable codec_uint256 (sv_txid v) /\ representable codec_uint32 (inputIndex v) /\
    representable codec_int32 (sv_blockHeight v) /\ representable codec_int64 (sv_satoshis v) /\
    representable codec_int32 (addressType v) /\ representable codec_uint160 (addressHash v) |}.
Proof.
  - intros S ?? v (H1 & H2 & H3 & H4 & H5 & H6). emits_fields.
  - intros S ?? [a b c d e f] (H1 & H2 & H3 & H4 & H5 & H6). parses_fields.
  - intros v (H1 & H2 & H3 & H4 & H5 & H6). rewrite !Forall_app. split_and!; by apply encoding_bytes.
Defined.

#[export, refine] Instance codec_CAddressUnspentKey_laws : CodecLaws codec_CAddressUnspentKey := {|
  encoding k := encoding codec_uint8 (uk_type k) ++ encoding codec_uint160 (uk_hashBytes k) ++
    encoding codec_uint256 (uk_txhash k) ++ encoding codec_uint32 (uk_index k);
  representable k := representable codec_uint8 (uk_type k) /\ representable codec_uint160 (uk_hashBytes k) /\
    representable codec_uint256 (uk_txhash k) /\ representable codec_uint32 (uk_index k) |}.
Proof.
  - intros S ?? k (H1 & H2 & H3 & H4). emits_fields.
  - intros S ?? [a b c d] (H1 & H2 & H3 & H4). parses_fields.
  - intros k (H1 & H2 & H3 & H4). rewrite !Forall_app. split_and!; by apply encoding_bytes.
Defined.

#[export, refine] Instance codec_CAddressUnspentValue_laws : CodecLaws codec_CAddressUnspentValue := {|
  encoding v := encoding codec_int64 (uv_satoshis v) ++ encoding codec_script (uv_script v) ++ encoding codec_int32 (uv_blockHeight v) ++
    encoding codec_int32 (fSpendableHeight v) ++ encoding codec_int64 (fSpendableTime v);
  representable v := representable codec_int64 (uv_satoshis v) /\ representable codec_script (uv_script v) /\
    representable codec_int32 (uv_blockHeight v) /\ representable codec_int32 (fSpendableHeight v) /\
    representable codec_int64 (fSpendableTime v) |}.
Proof.
  - intros S ?? v (H1 & H2 & H3 & H4 & H5). emits_fields.
  - intros S ?? [a b c d e] (H1 & H2 & H3 & H4 & H5). parses_fields.
  - intros v (H1 & H2 & H3 & H4 & H5). rewrite !Forall_app. split_and!; by apply encoding_bytes.
Defined.

#[export, refine] Instance codec_CTimestampIndexKey_laws : CodecLaws codec_CTimestampIndexKey := {|
  encoding k := encoding codec_uint32be (timestamp k) ++ encoding codec_uint256 (ti_blockHash k);
  representable k := representable codec_uint32be (timestamp k) /\ representable codec_uint256 (ti_blockHash k) |}.
Proof.
  - intros S ?? k [H1 H2]. emits_fields.
  - intros S ?? [t i] [H1 H2]. parses_fields.
  - intros k [H1 H2]. apply Forall_app. split; by apply encoding_bytes.
Defined.

(** The height is not negative, so that its order is the order of the bytes. *)
#[export, refine] Instance codec_CAddressIndexKey_laws : CodecLaws codec_CAddressIndexKey := {|
  encoding k := encoding codec_uint8 (ak_type k) ++ encoding codec_uint160 (ak_hashBytes k) ++
    encoding codec_uint32be (ak_blockHeight k) ++ encoding codec_uint32be (txindex k) ++
    encoding codec_uint256 (ak_txhash k) ++ encoding codec_uint32 (ak_index k) ++ encoding codec_uint8 (if spending k then 1 else 0);
  representable k := representable codec_uint8 (ak_type k) /\ representable codec_uint160 (ak_hashBytes k) /\
    0 <= ak_blockHeight k < 2 ^ 31 /\ representable codec_uint32be (txindex k) /\
    representable codec_uint256 (ak_txhash k) /\ representable codec_uint32 (ak_index k) |}.
Proof.
  - intros S ?? k (H1 & H2 & H3 & H4 & H5 & H6).
    assert (representable codec_uint32be (ak_blockHeight k)) by (cbn; unfold in_uint; lia).
    assert (representable codec_uint8 (if spending k then 1 else 0)) by (cbn; unfold is_byte, in_uint; destruct (spending k); lia).
    emits_fields.
  - intros S ?? [a b c d e f g] (H1 & H2 & H3 & H4 & H5 & H6). cbn [ak_type ak_hashBytes ak_blockHeight txindex ak_txhash ak_index spending] in *.
    assert (representable codec_uint32be c) by (cbn; unfold in_uint; lia).
    assert (representable codec_uint8 (if g then 1 else 0)) by (cbn; unfold is_byte, in_uint; destruct g; lia).
    do 6 (eapply parses_bind; [by apply Unserialize_parses|]). eapply parses_bind_all; [by apply Unserialize_parses|].
    rewrite sint_small by (unfold in_sint; lia). destruct g; apply parses_ret.
  - intros k (H1 & H2 & H3 & H4 & H5 & H6).
    assert (representable codec_uint32be (ak_blockHeight k)) by (cbn; unfold in_uint; lia).
    assert (representable codec_uint8 (if spending k then 1 else 0)) by (cbn; unfold is_byte, in_uint; destruct (spending k); lia).
    rewrite !Forall_app. split_and!; by apply encoding_bytes.
Defined.
