(* ===== verification/Undo.v ===== *)
(** * Undo data, and moving the coins across a block: undo.h and validation.cpp

    The records that let a block be taken back ([CTxUndo], [CBlockUndo]), how they are written and
    read, how a transaction changes the coins ([UpdateCoins]), what [ConnectBlock] collects for the
    optional indexes while it walks over the transactions, and [DisconnectBlock].

    [DisconnectBlock] also calls the masternode database, the special transactions and the block
    tree database.  These are the interface [NodeServices]: operations on a state [W] that stands
    for the rest of the node. *)

From S2P Require Import Prelude Bytes Streams Serialize SerializeLaws SerializeCodecs Script Sha256 Sha256Laws Hash Uint256 Transaction Merkle Compressor Coins SpentIndex Chain BlockIndex.

(** ** Undo records *)

Definition CTxIn_new : CTxIn := mkCTxIn COutPoint_default [] SEQUENCE_FINAL.
Definition MAX_INPUTS_PER_BLOCK : Z := MaxBlockSize true / GetSerializeSize codec_CTxIn CTxIn_new.

(** the coins spent by the inputs of one transaction *)
Definition CTxUndo : Type := list Coin.
(** one record per transaction but the coinbase *)
Definition CBlockUndo : Type := list CTxUndo.

(** sizeof(CTxUndo) *)
Definition sizeof_CTxUndo : Z := 24.

Section codec.
Context `{PubKey.Secp256k1}.

(** [TxInUndoSerializer] and [TxInUndoDeserializer]; the coin read into is a new one *)
Definition codec_TxInUndo : codec Coin := Codec
  (λ (S : Type) (_ : OStream S) txout,
    _ ← Serialize (CVarInt 31) (i32 (coin_nHeight txout * 2 + (if fCoinBase txout then 1 else 0)));
    _ ← (if 0 <? coin_nHeight txout then Serialize codec_uint8 0 else mret tt);
    Serialize CTxOutCompressor (coin_out txout))
  (λ (S : Type) (_ : IStream S),
    nCode ← Unserialize (CVarInt 32);
    let nHeight := nCode / 2 in
    let fCoinBase := negb ((nCode &&& 1) =? 0) in
    _ ← (if 0 <? nHeight then _ ← Unserialize (CVarInt 32); mret tt else mret tt);
    out ← Unserialize CTxOutCompressor;
    mret (mkCoin out fCoinBase nHeight (coin_nType Coin_empty) (coin_vExtraPayload Coin_empty))).

Definition codec_CTxUndo : codec CTxUndo := Codec
  (λ (S : Type) (_ : OStream S) vprevout,
    _ ← Serialize CCompactSize (length vprevout); Serialize_each codec_TxInUndo vprevout)
  (λ (S : Type) (_ : IStream S),
    count ← Unserialize CCompactSize;
    if MAX_INPUTS_PER_BLOCK <? count then throw "Too many input undo records"
    else Unserialize_each codec_TxInUndo (Z.to_nat count)).

Definition codec_CBlockUndo : codec CBlockUndo := codec_vector codec_CTxUndo sizeof_CTxUndo.
End codec.

(** ** Undo data on disk *)

Section disk.
Context (D : Sha256.dispatch) `{HD : !GoodDispatch D} `{PubKey.Secp256k1}.

(** [UndoWriteToDisk]: what it writes before the position it returns, and from there on *)
Definition UndoWriteToDisk_header {S} `{OStream S} (messageStart : list Z) (blockundo : CBlockUndo) : action S unit :=
  let nSize := u32 (GetSerializeSize codec_CBlockUndo blockundo) in
  _ ← Serialize (codec_array 4) messageStart; Serialize codec_uint32 nSize.

Definition UndoWriteToDisk_checksum (hashBlock : list Z) (blockundo : CBlockUndo) : result (list Z) :=
  match (_ ← Serialize codec_uint256 hashBlock; Serialize codec_CBlockUndo blockundo) (CHashWriter_new SER_GETHASH PROTOCOL_VERSION) with
  | (Ok _, hasher) => Ok (CHashWriter_GetHash D hasher)
  | (Throw msg, _) => Throw msg
  end.

Definition UndoWriteToDisk {S} `{OStream S} (blockundo : CBlockUndo) (hashBlock : list Z) : action S unit :=
  _ ← Serialize codec_CBlockUndo blockundo;
  match UndoWriteToDisk_checksum hashBlock blockundo with
  | Ok h => Serialize codec_uint256 h
  | Throw msg => throw msg
  end.

(** [UndoReadFromDisk], from a file at that position; [hashPrev] is the hash of the previous block.
    [total] is bookkeeping of the verifier for proofs: what it hashes and what follows. *)
Definition UndoReadFromDisk {Source} `{IStream Source} (total : list Z) (hashPrev : list Z) : action Source (option CBlockUndo) := λ filein,
  let verifier := (CHashWriter_write D hashPrev (CHashWriter_new 0 0), filein) in
  match Unserialize codec_CBlockUndo (H:=CHashVerifier_istream D total) verifier with
  | (Throw _, verifier) => (Ok None, verifier.2)
  | (Ok blockundo, verifier) =>
      match Unserialize codec_uint256 verifier.2 with
      | (Throw _, filein) => (Ok None, filein)
      | (Ok hashChecksum, filein) =>
          if decide (hashChecksum = CHashVerifier_GetHash D verifier) then (Ok (Some blockundo), filein) else (Ok None, filein)
      end
  end.
End disk.

(** ** What a block does to the optional indexes *)

Record updates := mkUpdates {
  addressIndex : list (CAddressIndexKey * Z);
  addressUnspentIndex : list (CAddressUnspentKey * CAddressUnspentValue);
  spentIndex : list (CSpentIndexKey * CSpentIndexValue);
}.
Definition no_updates : updates := mkUpdates [] [] [].
Definition push_address (k : CAddressIndexKey) (amount : Z) (uk : CAddressUnspentKey) (uv : CAddressUnspentValue) (u : updates) : updates :=
  mkUpdates (addressIndex u ++ [(k, amount)]) (addressUnspentIndex u ++ [(uk, uv)]) (spentIndex u).
Definition push_spent (k : CSpentIndexKey) (v : CSpentIndexValue) (u : updates) : updates :=
  mkUpdates (addressIndex u) (addressUnspentIndex u) (spentIndex u ++ [(k, v)]).

(** the command line options -addressindex and -spentindex *)
Class IndexOptions := { fAddressIndex : bool; fSpentIndex : bool }.

Section index.
Context (D : Sha256.dispatch) `{HD : !GoodDispatch D} `{IndexOptions}.

(** [Hash160(script.begin()+1, script.end()-1)] *)
Definition pubkey_hash (s : list Z) : list Z := Hash160 D (take (length s - 2) (drop 1 s)).

(** type and hash of the address a script pays to *)
Definition script_address (s : list Z) : option (Z * list Z) :=
  if Script.IsPayToScriptHash s then Some (2, take 20 (drop 2 s))
  else if Script.IsPayToPublicKeyHash s then Some (1, take 20 (drop 3 s))
  else if Script.IsPayToPublicKey s then Some (1, pubkey_hash s)
  else None.

(** until when an output is locked: [getFutureMaturity] *)
Definition getFutureMaturity (tx : CTransaction) (lockOutputIndex0 spendableHeight spenableTime : Z) : Z * Z * Z :=
  if tx_nType tx =? TRANSACTION_FUTURE then
    match GetTxPayload codec_CFutureTx (vExtraPayload tx) with
    | Some ftx =>
        (lockOutputIndex ftx,
         if 0 <=? maturity ftx then i32 (spendableHeight + maturity ftx) else -1,
         if 0 <=? lockTime ftx then i64 (spenableTime + lockTime ftx) else -1)
    | None => (lockOutputIndex0, spendableHeight, spenableTime)
    end
  else (lockOutputIndex0, spendableHeight, spenableTime).

(** [ConnectBlock]: input [j] of transaction [i], which spends [prevout] *)
Definition connect_input (nHeight i : Z) (txhash : list Z) (j : Z) (input : CTxIn) (prev : CTxOut) (u : updates) : updates :=
  let '(addressType, hashBytes) := default (0, Blob.SetNull 20) (script_address (scriptPubKey prev)) in
  let u :=
    if fAddressIndex && (0 <? addressType) then
      push_address (mkCAddressIndexKey addressType hashBytes nHeight i txhash j true) (i64 (nValue prev * -1))
        (mkCAddressUnspentKey addressType hashBytes (hash (prevout input)) (n (prevout input))) CAddressUnspentValue_SetNull u
    else u in
  if fSpentIndex then
    push_spent (mkCSpentIndexKey (hash (prevout input)) (n (prevout input)))
      (mkCSpentIndexValue txhash (u32 j) nHeight (nValue prev) addressType hashBytes) u
  else u.

(** [ConnectBlock]: output [k] of transaction [i] *)
Definition connect_output (nHeight nTime i : Z) (txhash : list Z) (lock : Z * Z * Z) (k : Z) (out : CTxOut) (u : updates) : updates :=
  let '(lockOutputIndex, spendableHeight, spenableTime) := lock in
  let '(vSpendableHeight, vSpenableTime) :=
    if u32 lockOutputIndex =? k then (spendableHeight, spenableTime) else (nHeight, nTime) in
  match script_address (scriptPubKey out) with
  | Some (addressType, hashBytes) =>
      push_address (mkCAddressIndexKey addressType hashBytes nHeight i txhash k false) (nValue out)
        (mkCAddressUnspentKey addressType hashBytes txhash k)
        (CAddressUnspentValue_new (nValue out) (scriptPubKey out) nHeight vSpendableHeight vSpenableTime) u
  | None => u
  end.

Definition connect_outputs (nHeight nTime i : Z) (tx : CTransaction) (u : updates) : updates :=
  if fAddressIndex then
    let lock := getFutureMaturity tx (-1) nHeight nTime in
    foldl (λ u '(k, out), connect_output nHeight nTime i (GetHash D tx) lock (Z.of_nat k) out u) u (imap pair (vout tx))
  else u.

(** [DisconnectBlock]: output [k] of transaction [i] *)
Definition disconnect_output (nHeight i : Z) (txhash : list Z) (k : Z) (out : CTxOut) (u : updates) : updates :=
  match script_address (scriptPubKey out) with
  | Some (addressType, hashBytes) =>
      push_address (mkCAddressIndexKey addressType hashBytes nHeight i txhash k false) (nValue out)
        (mkCAddressUnspentKey addressType hashBytes txhash k) CAddressUnspentValue_SetNull u
  | None => u
  end.
(** from the last one to the first *)
Definition disconnect_outputs (nHeight i : Z) (tx : CTransaction) (u : updates) : updates :=
  if fAddressIndex then
    foldl (λ u '(k, out), disconnect_output nHeight i (GetHash D tx) (Z.of_nat k) out u) u (reverse (imap pair (vout tx)))
  else u.

(** [DisconnectBlock]: input [j] of transaction [i], once the coin is restored.  A coin paid to a
    public key is treated like an output of the transaction. *)
Definition disconnect_input (nHeight i : Z) (txhash : list Z) (j : Z) (input : CTxIn) (undoHeight : Z) (cn : Coin) (u : updates) : updates :=
  let prev := coin_out cn in
  let '(spendableHeight, spenableTime) :=
    if coin_nType cn =? TRANSACTION_FUTURE then
      match GetTxPayload codec_CFutureTx (coin_vExtraPayload cn) with
      | Some ftx => (if 0 <=? maturity ftx then i32 (coin_nHeight cn + maturity ftx) else -1,
                     if 0 <=? lockTime ftx then i64 (0 + lockTime ftx) else -1)
      | None => (coin_nHeight cn, 0)
      end
    else (coin_nHeight cn, 0) in
  let restore (addressType : Z) (hashBytes : list Z) :=
    push_address (mkCAddressIndexKey addressType hashBytes nHeight i txhash j true) (i64 (nValue prev * -1))
      (mkCAddressUnspentKey addressType hashBytes (hash (prevout input)) (n (prevout input)))
      (CAddressUnspentValue_new (nValue prev) (scriptPubKey prev) undoHeight spendableHeight spenableTime) u in
  if Script.IsPayToScriptHash (scriptPubKey prev) then restore 2 (take 20 (drop 2 (scriptPubKey prev)))
  else if Script.IsPayToPublicKeyHash (scriptPubKey prev) then restore 1 (take 20 (drop 3 (scriptPubKey prev)))
  else if Script.IsPayToPublicKey (scriptPubKey prev) then
    let hashBytes := pubkey_hash (scriptPubKey prev) in
    push_address (mkCAddressIndexKey 1 hashBytes nHeight i txhash j false) (nValue prev)
      (mkCAddressUnspentKey 1 hashBytes txhash j) CAddressUnspentValue_SetNull u
  else u.
End index.

(** ** The coins across a block *)

Inductive DisconnectResult := DISCONNECT_OK | DISCONNECT_UNCLEAN | DISCONNECT_FAILED.

(** the rest of the node, as [DisconnectBlock] uses it *)
Class NodeServices (W : Type) := {
  VerifyBestBlock : list Z -> W -> bool;
  WriteBestBlock : list Z -> W -> W;
  ReadUndo : CBlockIndex -> W -> option CBlockUndo;
  UndoSpecialTxsInBlock : CBlock -> CBlockIndex -> W -> bool * W;
  UpdateSpentIndex : list (CSpentIndexKey * CSpentIndexValue) -> W -> bool * W;
  EraseAddressIndex : list (CAddressIndexKey * Z) -> W -> bool * W;
  UpdateAddressUnspentIndex : list (CAddressUnspentKey * CAddressUnspentValue) -> W -> bool * W;
}.

Section blocks.
Context (D : Sha256.dispatch) `{HD : !GoodDispatch D} `{IndexOptions}.
Context {V : Type} `{HV : CoinsView V} `{HO : IterationOrder} `{HU : ScriptUsage}.
#[local] Abbreviation Cache := (CCoinsViewCache V).

(** *** Forward *)

Fixpoint UpdateCoins_inputs (ins : list CTxIn) (txundo : CTxUndo) : action Cache CTxUndo :=
  match ins with
  | [] => mret txundo
  | txin :: ins =>
      is_spent ← SpendCoin (prevout txin);
      match is_spent with
      | Some moveout => UpdateCoins_inputs ins (txundo ++ [moveout])
      | None => throw "assertion failed"
      end
  end.
Definition UpdateCoins (tx : CTransaction) (txundo : CTxUndo) (nHeight : Z) : action Cache CTxUndo :=
  txundo ← (if negb (IsCoinBase tx) then UpdateCoins_inputs (vin tx) txundo else mret txundo);
  _ ← AddCoins D tx nHeight false;
  mret txundo.

(** the inputs, in order, with the coins they spend *)
Fixpoint connect_inputs (nHeight i : Z) (txhash : list Z) (j : Z) (ins : list CTxIn) (u : updates) : action Cache updates :=
  match ins with
  | [] => mret u
  | input :: ins =>
      cn ← AccessCoin (prevout input);
      connect_inputs nHeight i txhash (j + 1) ins (connect_input D nHeight i txhash j input (coin_out cn) u)
  end.

(** The loop of [ConnectBlock] over the transactions: what it does to the coins, the undo data and
    the indexes (the checks of a transaction against the coins are made before). *)
Fixpoint ConnectBlock_txs (nHeight nTime i : Z) (txs : list CTransaction) (blockundo : CBlockUndo) (u : updates) :
    action Cache (CBlockUndo * updates) :=
  match txs with
  | [] => mret (blockundo, u)
  | tx :: txs =>
      u ← (if negb (IsCoinBase tx) && (fAddressIndex || fSpentIndex)
           then connect_inputs nHeight i (GetHash D tx) 0 (vin tx) u else mret u);
      let u := connect_outputs D nHeight nTime i tx u in
      txundo ← UpdateCoins tx [] nHeight;
      let blockundo := if 0 <? i then blockundo ++ [txundo] else blockundo in
      ConnectBlock_txs nHeight nTime (i + 1) txs blockundo u
  end.

(** *** Backward *)

Definition ApplyTxInUndo (undo : Coin) (out : COutPoint) : action Cache DisconnectResult :=
  have ← HaveCoin out;
  let fClean := negb have in
  undo ← (if coin_nHeight undo =? 0 then
            alternate ← AccessByTxid (hash out);
            mret (if negb (IsSpent alternate)
                  then Some (mkCoin (coin_out undo) (fCoinBase alternate) (coin_nHeight alternate) (coin_nType undo) (coin_vExtraPayload undo))
                  else None)
          else mret (Some undo));
  match undo with
  | None => mret DISCONNECT_FAILED
  | Some undo =>
      _ ← AddCoin out undo (negb fClean);
      mret (if fClean then DISCONNECT_OK else DISCONNECT_UNCLEAN)
  end.

(** outputs are taken out, the first one first; whether all were as they should be *)
Fixpoint Disconnect_outputs (txid : list Z) (is_coinbase : bool) (nHeight : Z) (o : Z) (outs : list CTxOut) (fClean : bool) : action Cache bool :=
  match outs with
  | [] => mret fClean
  | out :: outs =>
      fClean ← (if negb (Script.IsUnspendable (scriptPubKey out)) then
                  is_spent ← SpendCoin (mkCOutPoint txid (u32 o));
                  mret (match is_spent with
                        | None => false
                        | Some cn =>
                            if negb (bool_decide (out = coin_out cn)) || negb (nHeight =? coin_nHeight cn)
                               || negb (Bool.eqb is_coinbase (fCoinBase cn))
                            then false else fClean
                        end)
                else mret fClean);
      Disconnect_outputs txid is_coinbase nHeight (o + 1) outs fClean
  end.

(** inputs are restored, the last one first: [l] lists them in that order; [None]: failed *)
Fixpoint Disconnect_inputs (nHeight i : Z) (txhash : list Z) (l : list (nat * (CTxIn * Coin))) (fClean : bool) (u : updates) :
    action Cache (option (bool * updates)) :=
  match l with
  | [] => mret (Some (fClean, u))
  | (j, (input, undo)) :: l =>
      let undoHeight := coin_nHeight undo in
      res ← ApplyTxInUndo undo (prevout input);
      match res with
      | DISCONNECT_FAILED => mret None
      | _ =>
          let fClean := fClean && (match res with DISCONNECT_UNCLEAN => false | _ => true end) in
          let u := if fSpentIndex
                   then push_spent (mkCSpentIndexKey (hash (prevout input)) (n (prevout input))) CSpentIndexValue_SetNull u else u in
          u ← (if fAddressIndex then
                 cn ← AccessCoin (prevout input);
                 mret (disconnect_input D nHeight i txhash (Z.of_nat j) input undoHeight cn u)
               else mret u);
          Disconnect_inputs nHeight i txhash l fClean u
      end
  end.

Definition Disconnect_tx (nHeight : Z) (i : nat) (tx : CTransaction) (txundo : option CTxUndo) (fClean : bool) (u : updates) :
    action Cache (option (bool * updates)) :=
  let u := disconnect_outputs D nHeight i tx u in
  fClean ← Disconnect_outputs (GetHash D tx) (IsCoinBase tx) nHeight 0 (vout tx) fClean;
  match txundo with
  | None => mret (Some (fClean, u))
  | Some vprevout =>
      if negb (length vprevout =? length (vin tx))%nat then mret None
      else Disconnect_inputs nHeight i (GetHash D tx) (reverse (imap pair (zip (vin tx) vprevout))) fClean u
  end.

(** transactions are undone in reverse order: [l] lists them so, with their records *)
Fixpoint Disconnect_txs (nHeight : Z) (l : list (nat * (CTransaction * option CTxUndo))) (fClean : bool) (u : updates) :
    action Cache (option (bool * updates)) :=
  match l with
  | [] => mret (Some (fClean, u))
  | (i, (tx, txundo)) :: l =>
      r ← Disconnect_tx nHeight i tx txundo fClean u;
      match r with
      | None => mret None
      | Some (fClean, u) => Disconnect_txs nHeight l fClean u
      end
  end.

(** every transaction but the first has a record *)
Definition with_undo (txs : list CTransaction) (blockUndo : CBlockUndo) : list (CTransaction * option CTxUndo) :=
  zip txs (None :: (Some <$> blockUndo)).

Context {W : Type} `{NodeServices W}.

(** [pprev] is the entry [pindex->pprev] points to. *)
Definition DisconnectBlock (fDIP0003Active : bool) (block : CBlock) (pindex pprev : CBlockIndex) (view : Cache) (w : W) :
    result DisconnectResult * Cache * W :=
  if fDIP0003Active && negb (VerifyBestBlock (GetBlockHash pindex) w) then (Ok DISCONNECT_FAILED, view, w)
  else
    match ReadUndo pindex w with
    | None => (Ok DISCONNECT_FAILED, view, w)
    | Some blockUndo =>
        if negb (length blockUndo + 1 =? length (vtx block))%nat then (Ok DISCONNECT_FAILED, view, w)
        else
          let '(ok, w) := UndoSpecialTxsInBlock block pindex w in
          if negb ok then (Ok DISCONNECT_FAILED, view, w)
          else
            match Disconnect_txs (nHeight pindex) (reverse (imap pair (with_undo (vtx block) blockUndo))) true no_updates view with
            | (Throw msg, view) => (Throw msg, view, w)
            | (Ok None, view) => (Ok DISCONNECT_FAILED, view, w)
            | (Ok (Some (fClean, u)), view) =>
                let '(ok, w) := if fSpentIndex then UpdateSpentIndex (spentIndex u) w else (true, w) in
                if negb ok then (Ok DISCONNECT_FAILED, view, w)
                else
                  let '(ok, w) := if fAddressIndex then EraseAddressIndex (addressIndex u) w else (true, w) in
                  if negb ok then (Ok DISCONNECT_FAILED, view, w)
                  else
                    let '(ok, w) := if fAddressIndex then UpdateAddressUnspentIndex (addressUnspentIndex u) w else (true, w) in
                    if negb ok then (Ok DISCONNECT_FAILED, view, w)
                    else
                      (Ok (if fClean then DISCONNECT_OK else DISCONNECT_UNCLEAN),
                       SetBestBlock (GetBlockHash pprev) view, WriteBestBlock (GetBlockHash pprev) w)
            end
    end.
End blocks.
