(* ===== verification/UndoLaws.v ===== *)
(** * Taking a block back restores the coins

    Round trips of the undo data, and the composition of [ConnectBlock]'s loop with
    [DisconnectBlock]: the set of unspent outputs and the address index return to what they were. *)

From S2P Require Import Prelude Bytes Streams Serialize SerializeLaws SerializeCodecs Script Sha256 Sha256Laws Hash Uint256 Transaction Merkle Compressor CompressorLaws Coins CoinsLaws CoinsDB SpentIndex Chain BlockIndex Undo.

(** what an undo record keeps of a coin *)
Definition undo_view (c : Coin) : Coin := mkCoin (coin_out c) (fCoinBase c) (coin_nHeight c) 0 [].

(** ** The format *)

Section codec_laws.
Context `{HL : Secp256k1Laws}.

Definition undo_code (c : Coin) : Z := coin_nHeight c * 2 + (if fCoinBase c then 1 else 0).
Definition undo_bytes (c : Coin) : list Z :=
  varint_bytes (undo_code c) ++ (if 0 <? coin_nHeight c then [0] else []) ++ encoding CTxOutCompressor (coin_out c).
(** The code is computed in an int. *)
Definition undo_ok (c : Coin) : Prop := 0 <= coin_nHeight c < 2 ^ 30 /\ representable CTxOutCompressor (coin_out c).

Lemma undo_code_halves c : 0 <= coin_nHeight c < 2 ^ 30 ->
  0 <= undo_code c < 2 ^ 31 /\ undo_code c / 2 = coin_nHeight c /\ negb ((undo_code c &&& 1) =? 0) = fCoinBase c.
Proof.
  intros Hh. unfold undo_code. assert (EL : forall x, x &&& 1 = x `mod` 2) by (intros x; exact (Z.land_ones x 1 ltac:(lia))).
  rewrite EL. destruct (fCoinBase c).
  - split; [lia|]. split; [lia_mod|]. by replace ((coin_nHeight c * 2 + 1) `mod` 2) with 1 by lia_mod.
  - split; [lia|]. split; [lia_mod|]. by replace ((coin_nHeight c * 2 + 0) `mod` 2) with 0 by lia_mod.
Qed.

#[export, refine] Instance codec_TxInUndo_laws : CodecLaws codec_TxInUndo := {|
  encoding := undo_bytes; representable c := undo_ok c /\ undo_view c = c |}.
Proof.
  - intros S ?? c [[H1 H2] _]. destruct (undo_code_halves c H1) as (Hc & _). fold (undo_code c) in *.
    unfold Serialize at 1, codec_TxInUndo. fold (undo_code c). rewrite sint_small by (unfold in_sint; lia).
    apply emits_bind; [apply (emits_varint 31 ltac:(lia)); unfold imax; lia|].
    apply emits_bind; [|by apply Serialize_emits]. destruct (0 <? _); [|apply emits_ret].
    refine (Serialize_emits (c:=codec_uint8) 0 _). cbn. unfold in_uint. lia.
  - intros S ?? c [[H1 H2] Hv]. destruct (undo_code_halves c H1) as (Hc & E1 & E2). rewrite <- Hv at 2.
    eapply parses_bind; [apply (parses_varint 32 ltac:(lia)); unfold imax; lia|]. cbv zeta. rewrite E1, E2.
    eapply parses_bind.
    { destruct (0 <? _); [|apply parses_ret]. eapply parses_bind_all; [|apply parses_ret].
      exact (parses_varint 32 ltac:(lia) 0 ltac:(vm_compute; split; discriminate)). }
    eapply parses_bind_all; [by apply Unserialize_parses|]. apply parses_ret.
  - intros c [[H1 H2] _]. destruct (undo_code_halves c H1) as (Hc & _). unfold undo_bytes. rewrite !Forall_app. split_and!.
    + apply varint_bytes_bytes. lia.
    + destruct (0 <? _); repeat constructor; lia.
    + by apply encoding_bytes.
Defined.

#[export, refine] Instance codec_CTxUndo_laws : CodecLaws codec_CTxUndo := {|
  encoding v := encode_sequence codec_TxInUndo v;
  representable v := length v <= MAX_INPUTS_PER_BLOCK /\ Forall (representable codec_TxInUndo) v |}.
Proof.
  all: assert (HM : MAX_INPUTS_PER_BLOCK = 48780) by reflexivity; rewrite HM.
  - intros S ?? v [H1 H2]. apply (emits_sequence codec_TxInUndo). split; [unfold MAX_SIZE; lia|done].
  - intros S ?? v [H1 H2]. eapply parses_bind; [apply parses_compact_size; unfold MAX_SIZE; lia|].
    rewrite HM, (proj2 (Z.ltb_ge _ _)) by lia. rewrite Nat2Z.id. by apply parses_each.
  - intros v [H1 H2]. apply encode_sequence_bytes. split; [unfold MAX_SIZE; lia|done].
Defined.

#[export] Instance codec_CBlockUndo_laws : CodecLaws codec_CBlockUndo := codec_vector_laws codec_CTxUndo sizeof_CTxUndo.

Definition block_undo_view (b : CBlockUndo) : CBlockUndo := (λ v : list Coin, undo_view <$> v) <$> (b : list (list Coin)).
Definition block_undo_ok (b : CBlockUndo) : Prop :=
  length b <= MAX_SIZE /\ Forall (λ v, length v <= MAX_INPUTS_PER_BLOCK /\ Forall undo_ok v) b.

Lemma undo_view_idemp c : undo_view (undo_view c) = undo_view c.
Proof. done. Qed.

Lemma block_undo_view_ok b : block_undo_ok b -> representable codec_CBlockUndo (block_undo_view b).
Proof.
  intros [Hl Hb]. split; [|unfold sizeof_CTxUndo; lia]. unfold block_undo_view. split; [by rewrite length_fmap|].
  apply Forall_fmap. eapply Forall_impl; [exact Hb|]. intros v [Hv Hc]. cbn. rewrite length_fmap. split; [done|].
  apply Forall_fmap. eapply Forall_impl; [exact Hc|]. intros c Hu. by split.
Qed.

Lemma Serialize_each_view {S} `{OStream S} {T} (c : codec T) (f : T -> T) v :
  (forall x, Serialize c (S:=S) (f x) = Serialize c x) -> Serialize_each (S:=S) c (f <$> v) = Serialize_each c v.
Proof. intros E. induction v as [|x v IH]; [done|]. cbn [fmap list_fmap Serialize_each]. by rewrite E, IH. Qed.

(** What is not kept is not written either. *)
Lemma Serialize_block_view {S} `{OStream S} b : Serialize codec_CBlockUndo (S:=S) (block_undo_view b) = Serialize codec_CBlockUndo b.
Proof.
  unfold codec_CBlockUndo, codec_vector. cbn [Serialize]. unfold block_undo_view. rewrite length_fmap.
  rewrite (Serialize_each_view codec_CTxUndo); [done|]. intros v. unfold codec_CTxUndo. cbn [Serialize]. rewrite length_fmap.
  by rewrite (Serialize_each_view codec_TxInUndo).
Qed.

Lemma Serialize_block_emits {S} `{OStreamLaws S} b :
  block_undo_ok b -> emits (S:=S) (Serialize codec_CBlockUndo b) (encoding codec_CBlockUndo (block_undo_view b)).
Proof. intros Hb. rewrite <- Serialize_block_view. by apply Serialize_emits, block_undo_view_ok. Qed.
End codec_laws.

(** ** On disk *)

Section disk.
Context (D : Sha256.dispatch) `{HD : !GoodDispatch D} `{HL : Secp256k1Laws}.

Definition undo_checksum (hashBlock : list Z) (b : CBlockUndo) : list Z :=
  SHA256d (hashBlock ++ encoding codec_CBlockUndo (block_undo_view b)).

Lemma length_undo_checksum h b : length (undo_checksum h b) = 32%nat.
Proof. apply length_SHA256. Qed.

Lemma checksum_ok hashBlock b :
  block_undo_ok b -> representable codec_uint256 hashBlock ->
  length hashBlock + length (encoding codec_CBlockUndo (block_undo_view b)) < 2 ^ 61 ->
  UndoWriteToDisk_checksum D hashBlock b = Ok (undo_checksum hashBlock b).
Proof.
  intros Hb Hh Hl. unfold UndoWriteToDisk_checksum.
  assert (He : emits (S:=CHashWriter) (_ ← Serialize codec_uint256 hashBlock; Serialize codec_CBlockUndo b)
    (hashBlock ++ encoding codec_CBlockUndo (block_undo_view b))).
  { apply emits_bind; [exact (Serialize_emits (c:=codec_uint256) hashBlock Hh)|by apply Serialize_block_emits]. }
  destruct (He (CHashWriter_new SER_GETHASH PROTOCOL_VERSION)) as (w & E & Hw).
  { exists []. split; [apply (hashed_new D)|]. rewrite length_app. cbn [length]. lia. }
  rewrite E. f_equal. apply (CHash256_Finalize_spec D); [|rewrite length_app; lia].
  apply (Hw []); [apply (hashed_new D)|]. rewrite length_app. cbn [length]. lia.
Qed.

Lemma UndoWriteToDisk_written hashBlock b :
  block_undo_ok b -> representable codec_uint256 hashBlock ->
  length hashBlock + length (encoding codec_CBlockUndo (block_undo_view b)) < 2 ^ 61 ->
  written (UndoWriteToDisk D b hashBlock) = encoding codec_CBlockUndo (block_undo_view b) ++ undo_checksum hashBlock b.
Proof.
  intros Hb Hh Hl. apply emits_written. unfold UndoWriteToDisk. rewrite checksum_ok by done.
  apply emits_bind; [by apply Serialize_block_emits|]. apply emits_write.
Qed.

Lemma UndoReadFromDisk_spec {Source} `{IStreamLaws Source} (s : Source) hashPrev b h rest :
  block_undo_ok b -> length h = 32%nat -> is_ok s ->
  is_pending s = encoding codec_CBlockUndo (block_undo_view b) ++ h ++ rest ->
  length hashPrev + length (is_pending s) < 2 ^ 61 ->
  exists s', UndoReadFromDisk D (hashPrev ++ is_pending s) hashPrev s =
      (Ok (if decide (h = undo_checksum hashPrev b) then Some (block_undo_view b) else None), s') /\ is_pending s' = rest.
Proof.
  intros Hb Hh Hs Hp Hl. set (total := hashPrev ++ is_pending s).
  assert (Ht : length total < 2 ^ 61) by (unfold total; rewrite length_app; lia).
  assert (Hm0 : hash_of (ops:=sha256_ops D) (ctx (CHashWriter_write D hashPrev (CHashWriter_new 0 0))) hashPrev).
  { apply (hash_of_Write (ops:=sha256_ops D) CHash256_new []); [apply (hashed_new D)|cbn [length]; lia]. }
  unfold UndoReadFromDisk.
  pose proof (CHashVerifier_ilaws D (Source:=Source) total Ht) as HVL.
  destruct (Unserialize_parses (c:=codec_CBlockUndo) (S:=CHashVerifier Source) (H:=CHashVerifier_istream D total)
    (block_undo_view b) (block_undo_view_ok b Hb) (CHashWriter_write D hashPrev (CHashWriter_new 0 0), s) (h ++ rest))
    as (v & -> & (Hv & m & Hm & Hmt) & Hvp); [|done|].
  { split; [done|]. by exists hashPrev. }
  cbn [is_pending CHashVerifier_istream] in *.
  destruct (Unserialize_parses (c:=codec_uint256) (S:=Source) h) with (s := v.2) (rest := rest) as (s' & -> & _ & Hr); [|done|done|].
  { split; [by rewrite Hh|]. pose proof (is_ok_bytes _ Hv) as Hby. rewrite Hvp in Hby. by apply Forall_app in Hby as [? _]. }
  exists s'. split; [|done].
  assert (CHashVerifier_GetHash D v = undo_checksum hashPrev b) as ->; [|by destruct (decide _)].
  unfold undo_checksum, total in *. rewrite Hvp, Hp, app_assoc in Hmt. apply app_inv_tail in Hmt as <-.
  apply (CHash256_Finalize_spec D); [done|]. rewrite Hp in Hl. rewrite !length_app in *. lia.
Qed.

(** C26: Undo data survive the disk, apart from the type and payload of the coins: what [UndoWriteToDisk] wrote
    for a block is read back by [UndoReadFromDisk], given the same block hash, as the same coins
    without [nType] and [vExtraPayload]; and the same undo data followed by any other checksum than
    the double SHA-256 of block hash and data are refused. *)
Theorem undo_disk_roundtrip {Source} `{IStreamLaws Source} (s : Source) (b : CBlockUndo) (hashBlock rest : list Z) :
  block_undo_ok b -> representable codec_uint256 hashBlock -> is_ok s ->
  length hashBlock + length (is_pending s) < 2 ^ 61 -> length hashBlock + length (written (Serialize codec_CBlockUndo b)) < 2 ^ 61 ->
  (is_pending s = written (UndoWriteToDisk D b hashBlock) ++ rest ->
   exists s', UndoReadFromDisk D (hashBlock ++ is_pending s) hashBlock s = (Ok (Some (block_undo_view b)), s') /\ is_pending s' = rest) /\
  (forall h, length h = 32%nat -> h <> SHA256d (hashBlock ++ written (Serialize codec_CBlockUndo b)) ->
   is_pending s = written (Serialize codec_CBlockUndo b) ++ h ++ rest ->
   exists s', UndoReadFromDisk D (hashBlock ++ is_pending s) hashBlock s = (Ok None, s')).
Proof.
  intros Hb Hh Hs Hl Hsz.
  assert (E : written (Serialize codec_CBlockUndo b) = encoding codec_CBlockUndo (block_undo_view b)) by (by apply emits_written, Serialize_block_emits).
  split.
  - intros Hp. rewrite E in Hsz. rewrite UndoWriteToDisk_written, <- app_assoc in Hp by done.
    destruct (UndoReadFromDisk_spec s hashBlock b (undo_checksum hashBlock b) rest) as (s' & E' & Hr);
      [done|apply length_undo_checksum|done..|]. exists s'. rewrite E'. by rewrite decide_True.
  - intros h Hlh Hne Hp. rewrite E in Hne, Hp. destruct (UndoReadFromDisk_spec s hashBlock b h rest) as (s' & E' & Hr); [done..|].
    exists s'. rewrite E'. rewrite decide_False; done.
Qed.
End disk.

Lemma Forall2_impl_in {A B} (P Q : A -> B -> Prop) l k :
  Forall2 P l k -> (forall x y, x ∈ l -> P x y -> Q x y) -> Forall2 Q l k.
Proof.
  induction 1 as [|x y l k Hxy HF IH]; intros Himp; [constructor|]. constructor.
  - apply Himp; [by constructor|done].
  - apply IH. intros a b Ha. apply Himp. by constructor.
Qed.

(** ** One transaction, forward *)

(** A sequence of [below]-steps is not needed here: only the set, the order of the cache and its
    best block matter. *)
Definition moves {V} `{CoinsSpec V} (c c' : V) (u : utxo_set) : Prop := view_ok c' /\ best c' = best c /\ forall o, utxo c' o = u o.

Section blocks.
Context (D : Sha256.dispatch) `{HD : !GoodDispatch D} `{HI : IndexOptions}.
Context {V : Type} `{HV : CoinsView V} `{HS : !CoinsSpec V} `{HL : !CoinsViewLaws V} `{HO : IterationOrder} `{HU : ScriptUsage}.
#[local] Abbreviation Cache := (CCoinsViewCache V).

Lemma unchanged_moves (c c' : Cache) : unchanged c c' -> moves c c' (utxo c).
Proof. intros (K & U & B). done. Qed.
Lemma moves_trans (a b c : Cache) u u' : moves a b u -> (forall o, u o = utxo b o) -> moves b c u' -> moves a c u'.
Proof. intros (K & B & U) _ (K' & B' & U'). split; [done|]. split; [congruence|done]. Qed.

(** the coins a transaction makes, and the outpoints it spends *)
Definition created (tx : CTransaction) (h : Z) (o : COutPoint) : option Coin :=
  if decide (hash o = GetHash D tx /\ 0 <= n o) then
    match vout tx !! Z.to_nat (n o) with
    | Some out => if Script.IsUnspendable (scriptPubKey out) then None else Some (coin_of D tx h (n o) out)
    | None => None
    end
  else None.
Definition spends (tx : CTransaction) (o : COutPoint) : bool := negb (IsCoinBase tx) && bool_decide (o ∈ prevout <$> vin tx).
Definition connect_tx (u : utxo_set) (tx : CTransaction) (h : Z) : utxo_set := λ o,
  match created tx h o with Some c => Some c | None => if spends tx o then None else u o end.

(** the transaction spends coins that exist, each once, and makes coins that do not exist *)
Record tx_fits (u : utxo_set) (tx : CTransaction) (h : Z) : Prop := {
  fits_once : IsCoinBase tx = false -> NoDup (prevout <$> vin tx);
  fits_inputs : IsCoinBase tx = false -> Forall (λ i, is_Some (u (prevout i))) (vin tx);
  fits_outputs o : is_Some (created tx h o) -> u o = None;
  fits_values : Forall (λ out, nValue out <> -1) (vout tx);
  fits_size : length (vout tx) < 2 ^ 32;
}.

(** the set with what is done to the spendable ones of a list of outputs, numbered from [i], on top *)
Definition overlay (txid : list Z) (i : Z) (outs : list CTxOut) (f : Z -> CTxOut -> option Coin) (u : utxo_set) : utxo_set := λ o,
  if decide (hash o = txid /\ i <= n o) then
    match outs !! Z.to_nat (n o - i) with
    | Some out => if Script.IsUnspendable (scriptPubKey out) then u o else f (n o) out
    | None => u o
    end
  else u o.

Lemma overlay_cons txid i out outs f u u1 o :
  (forall o, u1 o = (if Script.IsUnspendable (scriptPubKey out) then u else upd u (mkCOutPoint txid i) (f i out)) o) ->
  overlay txid (i + 1) outs f u1 o = overlay txid i (out :: outs) f u o.
Proof.
  intros U1. unfold overlay.
  assert (Hne : o <> mkCOutPoint txid i -> u1 o = u o).
  { intros Ho. rewrite U1. destruct (Script.IsUnspendable _); [done|]. unfold upd. by rewrite decide_False. }
  destruct (decide (hash o = txid /\ i <= n o)) as [[Ho Hio]|Hno].
  - destruct (decide (n o = i)) as [Hni|Hni].
    + rewrite decide_False by lia. rewrite Hni, Z.sub_diag. change ((out :: outs) !! Z.to_nat 0) with (Some out). cbv iota beta.
      rewrite U1. destruct (Script.IsUnspendable (scriptPubKey out)); [done|]. unfold upd. rewrite decide_True; [done|].
      rewrite <- Ho, <- Hni. by destruct o.
    + rewrite decide_True by (split; [done|lia]). replace (Z.to_nat (n o - i)) with (S (Z.to_nat (n o - (i + 1)))) by lia.
      change ((out :: outs) !! S ?k) with (outs !! k). rewrite Hne; [done|]. by intros ->.
  - rewrite decide_False by (intros [? ?]; apply Hno; split; [done|lia]). apply Hne. intros ->. apply Hno. split; [done|]. cbn. lia.
Qed.

Lemma AddCoins_loop_ok tx h outs (i : Z) (c : Cache) :
  view_ok c -> Forall (λ out, nValue out <> -1) outs -> 0 <= i -> i + length outs < 2 ^ 32 ->
  (forall (k : nat) out, outs !! k = Some out -> Script.IsUnspendable (scriptPubKey out) = false ->
     utxo c (mkCOutPoint (GetHash D tx) (i + k)) = None) ->
  exists c', AddCoins_loop D tx h false outs i c = (Ok tt, c') /\
    moves c c' (overlay (GetHash D tx) i outs (λ k out, Some (coin_of D tx h k out)) (utxo c)).
Proof.
  revert i c. induction outs as [|out outs IH]; intros i c Hc Hv Hi Hl Hn; cbn [AddCoins_loop].
  { exists c. split; [done|]. split; [done|]. split; [done|]. intros o. unfold overlay. by case_decide. }
  apply Forall_cons in Hv as [Hv1 Hv]. cbn [length] in Hl. rewrite u32_small by lia.
  set (o0 := mkCOutPoint (GetHash D tx) i). set (cn := coin_of D tx h i out).
  assert (Hs : IsSpent cn = false) by (apply Z.eqb_neq; exact Hv1).
  assert (Hstep : exists c1, AddCoin o0 cn (IsCoinBase tx) c = (Ok tt, c1) /\
    moves c c1 (if Script.IsUnspendable (scriptPubKey out) then utxo c else upd (utxo c) o0 (Some cn))).
  { destruct (Script.IsUnspendable (scriptPubKey out)) eqn:Eu.
    - exists c. split; [|done]. unfold AddCoin. rewrite Hs. change (scriptPubKey (coin_out cn)) with (scriptPubKey out). by rewrite Eu.
    - destruct (AddCoin_ok c o0 cn (IsCoinBase tx) Hc Hs) as (c1 & E & K & B & _ & _ & U).
      { intros _. specialize (Hn 0%nat out eq_refl Eu). by rewrite Z.add_0_r in Hn. }
      change (scriptPubKey (coin_out cn)) with (scriptPubKey out) in U. rewrite Eu in U. by exists c1. }
  destruct Hstep as (c1 & E1 & K1 & B1 & U1).
  destruct (IH (i + 1) c1 K1 Hv) as (c2 & E2 & K2 & B2 & U2); [lia|lia| |].
  { intros k o Ho Hu. rewrite U1. assert (Hk : utxo c (mkCOutPoint (GetHash D tx) (i + 1 + k)) = None).
    { replace (i + 1 + k) with (i + S k) by lia. by apply (Hn (S k) o). }
    destruct (Script.IsUnspendable (scriptPubKey out)); [done|]. unfold upd. rewrite decide_False; [done|].
    unfold o0. intros [= Hx]. lia. }
  exists c2. unfold mbind, action_bind, mret, action_ret. rewrite E1. split; [exact E2|]. split; [done|]. split; [congruence|].
  intros o. rewrite U2. by apply overlay_cons.
Qed.

Lemma UpdateCoins_inputs_ok ins undo (c : Cache) :
  view_ok c -> NoDup (prevout <$> ins) -> Forall (λ i, is_Some (utxo c (prevout i))) ins ->
  exists coins c', UpdateCoins_inputs ins undo c = (Ok (undo ++ coins), c') /\
    Forall2 (λ i cn, utxo c (prevout i) = Some cn) ins coins /\
    moves c c' (λ o, if bool_decide (o ∈ prevout <$> ins) then None else utxo c o).
Proof.
  revert undo c. induction ins as [|i ins IH]; intros undo c Hc Hnd Hin; cbn [UpdateCoins_inputs].
  { exists [], c. rewrite app_nil_r. split_and!; [done|constructor|]. split; [done|]. split; [done|]. intros o. by rewrite bool_decide_false by inversion 1. }
  apply Forall_cons in Hin as [[cn Hi] Hin]. cbn [fmap list_fmap] in Hnd. apply NoDup_cons in Hnd as [Hni Hnd].
  destruct (SpendCoin_ok c (prevout i) Hc) as (r & c1 & E1 & Hr & K1 & B1 & _ & _ & U1).
  assert (r = Some cn) as ->.
  { rewrite Hi in Hr. destruct r as [x|]; [|done]. cbn in Hr. by destruct (IsSpent x). }
  assert (Hne : forall j, j ∈ ins -> utxo c1 (prevout j) = utxo c (prevout j)).
  { intros j Hj. rewrite U1. unfold upd. rewrite decide_False; [done|]. intros Hp. apply Hni. rewrite <- Hp.
    by apply list_elem_of_fmap_2. }
  destruct (IH (undo ++ [cn]) c1 K1 Hnd) as (coins & c2 & E2 & HF & K2 & B2 & U2).
  { apply Forall_forall. intros j Hj. rewrite Hne by done. revert j Hj. by apply Forall_forall. }
  exists (cn :: coins), c2. unfold mbind, action_bind. rewrite E1, E2, <- app_assoc. split; [done|]. split; [|split; [done|split; [congruence|]]].
  - constructor; [done|]. eapply Forall2_impl_in; [exact HF|]. intros j x Hj Hx. by rewrite <- Hne.
  - intros o. rewrite U2, U1. unfold upd. cbn [fmap list_fmap].
    destruct (decide (o = prevout i)) as [->|Ho].
    + rewrite (bool_decide_true (_ ∈ _ :: _)) by constructor. by case_bool_decide.
    + rewrite (bool_decide_ext (o ∈ prevout i :: (prevout <$> ins)) (o ∈ prevout <$> ins)); [done|].
      rewrite elem_of_cons. naive_solver.
Qed.

(** the undo record of a transaction holds the coins it spends *)
Definition undo_of (u : utxo_set) (tx : CTransaction) (coins : CTxUndo) : Prop :=
  if IsCoinBase tx then coins = [] else Forall2 (λ i cn, u (prevout i) = Some cn) (vin tx) coins.

Lemma UpdateCoins_ok tx h (c : Cache) :
  view_ok c -> tx_fits (utxo c) tx h ->
  exists coins c', UpdateCoins D tx [] h c = (Ok coins, c') /\ undo_of (utxo c) tx coins /\ moves c c' (connect_tx (utxo c) tx h).
Proof.
  intros Hc Hf.
  assert (H1 : exists coins c1, (if negb (IsCoinBase tx) then UpdateCoins_inputs (vin tx) [] else mret ([] : CTxUndo)) c = (Ok coins, c1) /\
    undo_of (utxo c) tx coins /\ moves c c1 (λ o, if spends tx o then None else utxo c o)).
  { unfold undo_of, spends. destruct (IsCoinBase tx) eqn:Ecb; cbn [negb andb].
    - by exists [], c.
    - destruct (UpdateCoins_inputs_ok (vin tx) [] c Hc (fits_once _ _ _ Hf Ecb) (fits_inputs _ _ _ Hf Ecb)) as (coins & c1 & E & HF & HM).
      by exists coins, c1. }
  destruct H1 as (coins & c1 & E1 & Hu & K1 & B1 & U1).
  destruct (AddCoins_loop_ok tx h (vout tx) 0 c1 K1 (fits_values _ _ _ Hf)) as (c2 & E2 & K2 & B2 & U2); [lia|apply Hf| |].
  { intros k out Hk Hus. rewrite U1. destruct (spends _ _); [done|]. apply (fits_outputs _ _ _ Hf). unfold created.
    rewrite Z.add_0_l. cbn [hash n]. rewrite decide_True, Nat2Z.id, Hk, Hus by (split; [done|lia]). by eexists. }
  exists coins, c2. split; [|split; [done|split; [done|split; [congruence|]]]].
  - unfold UpdateCoins, mbind, action_bind. rewrite E1. unfold AddCoins. rewrite E2. done.
  - intros o. rewrite U2. unfold overlay. rewrite U1. unfold connect_tx, created. rewrite Z.sub_0_r. case_decide; [|done].
    destruct (vout tx !! _) as [out|]; [|done]. by destruct (Script.IsUnspendable _).
Qed.

(** ** What goes into the indexes *)

Definition in_entry (h i : Z) (txid : list Z) (j : Z) (prev : CTxOut) : list (CAddressIndexKey * Z) :=
  if fAddressIndex then
    match script_address D (scriptPubKey prev) with
    | Some (t, a) => [(mkCAddressIndexKey t a h i txid j true, i64 (nValue prev * -1))]
    | None => []
    end
  else [].
Definition out_entry (h i : Z) (txid : list Z) (k : Z) (out : CTxOut) : list (CAddressIndexKey * Z) :=
  if fAddressIndex then
    match script_address D (scriptPubKey out) with
    | Some (t, a) => [(mkCAddressIndexKey t a h i txid k false, nValue out)]
    | None => []
    end
  else [].
Definition spent_key (i : CTxIn) : CSpentIndexKey := mkCSpentIndexKey (hash (prevout i)) (n (prevout i)).
Definition spent_entry (i : CTxIn) : list CSpentIndexKey := if fSpentIndex then [spent_key i] else [].

(** two sets of updates differ by what was added to the address index and the spent index *)
Definition adds (u u' : updates) (a : list (CAddressIndexKey * Z)) (s : list CSpentIndexKey) : Prop :=
  addressIndex u' = addressIndex u ++ a /\ (spentIndex u').*1 = (spentIndex u).*1 ++ s.

Lemma adds_nil u : adds u u [] [].
Proof. split; by rewrite app_nil_r. Qed.
Lemma adds_trans u1 u2 u3 a b s t : adds u1 u2 a s -> adds u2 u3 b t -> adds u1 u3 (a ++ b) (s ++ t).
Proof. intros [E1 E2] [E3 E4]. split; [by rewrite E3, E1, app_assoc|by rewrite E4, E2, app_assoc]. Qed.

Lemma script_address_type s t a : script_address D s = Some (t, a) -> 0 < t.
Proof. unfold script_address. repeat case_match; intros [= <- _]; lia. Qed.

Lemma connect_input_adds h i txid j input prev u :
  adds u (connect_input D h i txid j input prev u) (in_entry h i txid j prev) (spent_entry input).
Proof.
  unfold connect_input, in_entry, spent_entry. destruct (script_address D (scriptPubKey prev)) as [[t a]|] eqn:E; cbn [default from_option id].
  - apply script_address_type in E. rewrite (proj2 (Z.ltb_lt _ _) E), andb_true_r.
    destruct fAddressIndex, fSpentIndex; split; cbn; rewrite ?app_nil_r, ?fmap_app; done.
  - rewrite andb_false_r. destruct fAddressIndex, fSpentIndex; split; cbn; rewrite ?app_nil_r, ?fmap_app; done.
Qed.

Lemma fold_adds {X} (f : updates -> X -> updates) (a : X -> list (CAddressIndexKey * Z)) (s : X -> list CSpentIndexKey) l :
  (forall x u, adds u (f u x) (a x) (s x)) -> forall u, adds u (foldl f u l) (concat (a <$> l)) (concat (s <$> l)).
Proof.
  intros Hf. induction l as [|x l IH]; intros u; [apply adds_nil|]. cbn [foldl fmap list_fmap concat].
  eapply adds_trans; [apply Hf|apply IH].
Qed.

Definition out_entries (h i : Z) (tx : CTransaction) : list (CAddressIndexKey * Z) :=
  concat ((λ '(k, out), out_entry h i (GetHash D tx) (Z.of_nat k) out) <$> imap pair (vout tx)).
Definition in_entries (h i : Z) (txid : list Z) (f : nat -> nat) (l : list (CTxIn * Coin)) : list (CAddressIndexKey * Z) :=
  concat ((λ '(j, (_, cn)), in_entry h i txid (Z.of_nat j) (coin_out cn)) <$> imap (λ j, pair (f j)) l).
Definition spent_entries (ins : list CTxIn) : list CSpentIndexKey := concat (spent_entry <$> ins).

Lemma concat_nil {X Y} (l : list X) : concat ((λ _, @nil Y) <$> l) = [].
Proof. induction l; done. Qed.

Lemma connect_outputs_adds h t i tx u : adds u (connect_outputs D h t i tx u) (out_entries h i tx) [].
Proof.
  unfold connect_outputs, out_entries, out_entry. destruct fAddressIndex.
  - rewrite <- (concat_nil (Y:=CSpentIndexKey) (imap pair (vout tx))). apply fold_adds. intros [k out] w. unfold connect_output.
    destruct (getFutureMaturity _ _ _ _) as [[l1 l2] l3]. destruct (_ =? _); destruct (script_address _ _) as [[ty a]|];
      split; cbn; by rewrite ?app_nil_r.
  - assert (concat ((λ '(_, _), []) <$> imap pair (vout tx)) = @nil (CAddressIndexKey * Z)) as ->; [|apply adds_nil].
    generalize (imap pair (vout tx)). intros l. induction l as [|[k o] l IH]; done.
Qed.

(** Each output and each input adds at most one entry, so going backwards reverses the list. *)
Lemma concat_reverse {X Y} (f : X -> list Y) l :
  (forall x, (length (f x) <= 1)%nat) -> concat (f <$> reverse l) = reverse (concat (f <$> l)).
Proof.
  intros Hf. induction l as [|x l IH]; [done|]. rewrite reverse_cons, fmap_app, concat_app, IH. cbn [fmap list_fmap concat].
  rewrite app_nil_r, reverse_app.
  f_equal. specialize (Hf x). destruct (f x) as [|y [|]]; cbn in Hf; [done..|lia].
Qed.

Lemma disconnect_outputs_adds h i tx u : adds u (disconnect_outputs D h i tx u) (reverse (out_entries h i tx)) [].
Proof.
  unfold disconnect_outputs, out_entries, out_entry. destruct fAddressIndex.
  - rewrite <- concat_reverse by (intros [k o]; repeat case_match; cbn; lia).
    rewrite <- (concat_nil (Y:=CSpentIndexKey) (reverse (imap pair (vout tx)))). apply fold_adds. intros [k out] w. unfold disconnect_output.
    destruct (script_address _ _) as [[ty a]|]; split; cbn; by rewrite ?app_nil_r.
  - assert (concat ((λ '(_, _), []) <$> imap pair (vout tx)) = @nil (CAddressIndexKey * Z)) as ->; [|apply adds_nil].
    generalize (imap pair (vout tx)). intros l. induction l as [|[k o] l IH]; done.
Qed.

Lemma connect_inputs_ok h i txid ins coins (j : nat) u (c : Cache) :
  view_ok c -> Forall2 (λ i cn, utxo c (prevout i) = Some cn) ins coins ->
  exists u' c', connect_inputs D h i txid j ins u c = (Ok u', c') /\ unchanged c c' /\
    adds u u' (in_entries h i txid (Nat.add j) (zip ins coins)) (spent_entries ins).
Proof.
  intros Hc HF. revert j u c Hc HF. revert coins. induction ins as [|input ins IH]; intros coins j u c Hc HF.
  { apply Forall2_nil_inv_l in HF as ->. exists u, c. split; [done|]. split; [done|]. apply adds_nil. }
  apply Forall2_cons_inv_l in HF as (cn & coins' & Hi & HF & ->).
  destruct (AccessCoin_ok c (prevout input) Hc) as (x & c1 & E1 & Hx & Hun & _).
  assert (x = cn) as -> by (rewrite Hi in Hx; cbn in Hx; by destruct (IsSpent x); simplify_eq).
  pose proof Hun as (K1 & U1 & B1). set (u1 := connect_input D h i txid j input (coin_out cn) u).
  destruct (IH coins' (S j) u1 c1 K1) as (u' & c2 & E2 & Hun2 & Ha).
  { eapply Forall2_impl; [exact HF|]. intros a b Hab. cbv beta. by rewrite U1. }
  exists u', c2. cbn [connect_inputs]. unfold mbind, action_bind. rewrite E1. replace (j + 1) with (Z.of_nat (S j)) by lia.
  split; [done|]. split; [by eapply unchanged_trans|].
  unfold in_entries, spent_entries. cbn [zip zip_with imap fmap list_fmap concat]. rewrite Nat.add_0_r.
  eapply adds_trans; [apply connect_input_adds|]. revert Ha. unfold in_entries, spent_entries.
  erewrite imap_ext; [done|]. intros k [a b] _. cbn. by rewrite Nat.add_succ_r.
Qed.

(** ** One transaction, backward *)

(** what the coins restored must satisfy *)
Definition good_coin (cn : Coin) : Prop :=
  IsSpent cn = false /\ Script.IsUnspendable (scriptPubKey (coin_out cn)) = false /\ 0 < coin_nHeight cn.

Lemma ApplyTxInUndo_ok (c : Cache) o cn :
  view_ok c -> utxo c o = None -> good_coin cn ->
  exists c', ApplyTxInUndo cn o c = (Ok DISCONNECT_OK, c') /\ moves c c' (upd (utxo c) o (Some cn)).
Proof.
  intros Hc Ho (Hs & Hus & Hh). unfold ApplyTxInUndo, mbind, action_bind.
  destruct (HaveCoin_ok c o Hc) as (c1 & -> & (K1 & U1 & B1) & _). rewrite Ho, bool_decide_false by (by intros [? ?]).
  rewrite (proj2 (Z.eqb_neq _ _)) by lia. cbn [negb mret action_ret].
  destruct (AddCoin_ok c1 o cn false K1 Hs) as (c2 & E2 & K2 & B2 & _ & _ & U2); [by rewrite U1|].
  cbv [mret action_ret]. rewrite E2. exists c2. split; [done|]. split; [done|]. split; [congruence|].
  intros o'. rewrite U2, Hus. unfold upd. case_decide; [done|apply U1].
Qed.

Lemma disconnect_input_adds h i txid j input uh cn u :
  fAddressIndex = true -> Script.IsPayToPublicKey (scriptPubKey (coin_out cn)) = false ->
  adds u (disconnect_input D h i txid j input uh cn u) (in_entry h i txid j (coin_out cn)) [].
Proof.
  intros Ha Hp. unfold disconnect_input, in_entry, script_address. rewrite Ha, Hp.
  destruct (if coin_nType cn =? _ then _ else _) as [sh st].
  destruct (Script.IsPayToScriptHash _); [|destruct (Script.IsPayToPublicKeyHash _)]; split; cbn; by rewrite ?app_nil_r.
Qed.

Definition in_entry' (h i : Z) (txid : list Z) : nat * (CTxIn * Coin) -> list (CAddressIndexKey * Z) :=
  λ '(j, (_, cn)), in_entry h i txid (Z.of_nat j) (coin_out cn).
Definition out_of (x : nat * (CTxIn * Coin)) : COutPoint := prevout x.2.1.

Definition not_p2pk (cn : Coin) : Prop := Script.IsPayToPublicKey (scriptPubKey (coin_out cn)) = false.

Lemma Disconnect_inputs_ok h i txid l fc u (c : Cache) :
  view_ok c -> NoDup (out_of <$> l) -> Forall (λ x, utxo c (out_of x) = None /\ good_coin x.2.2) l ->
  exists u' c', Disconnect_inputs D h i txid l fc u c = (Ok (Some (fc, u')), c') /\ view_ok c' /\ best c' = best c /\
    Forall (λ x, utxo c' (out_of x) = Some x.2.2) l /\ (forall o, o ∉ out_of <$> l -> utxo c' o = utxo c o) /\
    (Forall (λ x, not_p2pk x.2.2) l -> adds u u' (concat (in_entry' h i txid <$> l)) (concat (spent_entry ∘ fst ∘ snd <$> l))).
Proof.
  revert fc u c. induction l as [|[j [input cn]] l IH]; intros fc u c Hc Hnd Hl; cbn [Disconnect_inputs].
  { exists u, c. split_and!; try done. intros _. apply adds_nil. }
  apply Forall_cons in Hl as [[Ho Hg] Hl]. cbn [fmap list_fmap] in Hnd. apply NoDup_cons in Hnd as [Hni Hnd].
  change (out_of (j, (input, cn))) with (prevout input) in *. cbn [snd] in Hg.
  destruct (ApplyTxInUndo_ok c (prevout input) cn Hc Ho Hg) as (c1 & E1 & K1 & B1 & U1).
  set (u1 := if fSpentIndex then push_spent (mkCSpentIndexKey (hash (prevout input)) (n (prevout input))) CSpentIndexValue_SetNull u else u).
  assert (Hu1 : adds u u1 [] (spent_entry input)).
  { unfold u1, spent_entry. destruct fSpentIndex; split; cbn; by rewrite ?app_nil_r, ?fmap_app. }
  assert (H2 : exists u2 c2, (if fAddressIndex then (x ← AccessCoin (prevout input); mret (disconnect_input D h i txid j input (coin_nHeight cn) x u1))
    else mret u1) c1 = (Ok u2, c2) /\ unchanged c1 c2 /\ (not_p2pk cn -> adds u u2 (in_entry h i txid j (coin_out cn)) (spent_entry input))).
  { unfold in_entry. destruct fAddressIndex eqn:Ea; [|by exists u1, c1].
    destruct (AccessCoin_ok c1 (prevout input) K1) as (x & c2 & E2 & Hx & Hun & _).
    assert (x = cn) as ->.
    { rewrite U1 in Hx. unfold upd in Hx. rewrite decide_True in Hx by done. cbn in Hx. by destruct (IsSpent x); simplify_eq. }
    eexists _, c2. unfold mbind, action_bind. rewrite E2. split; [done|]. split; [done|]. intros Hp.
    pose proof (disconnect_input_adds h i txid j input (coin_nHeight cn) cn u1 Ea Hp) as Hd. unfold in_entry in Hd. rewrite Ea in Hd.
    rewrite <- (app_nil_r (spent_entry input)). rewrite <- (app_nil_l (match script_address _ _ with Some _ => _ | None => _ end)). by eapply adds_trans. }
  destruct H2 as (u2 & c2 & E2 & (K2 & U2 & B2) & Hu2).
  destruct (IH fc u2 c2 K2 Hnd) as (u3 & c3 & E3 & K3 & B3 & HF & Hout & Ha).
  { apply Forall_forall. intros x Hx. rewrite Forall_forall in Hl. destruct (Hl x Hx) as [Hx1 Hx2]. split; [|done].
    rewrite U2, U1. unfold upd. rewrite decide_False; [done|]. intros Heq. apply Hni. rewrite <- Heq. by apply list_elem_of_fmap_2. }
  exists u3, c3. split_and!; [|done|congruence|..].
  - unfold mbind, action_bind in *. rewrite E1. cbv zeta. fold u1. rewrite E2. by rewrite andb_true_r.
  - constructor; [|done]. change (out_of (j, (input, cn))) with (prevout input). rewrite Hout by done. rewrite U2, U1. unfold upd. by rewrite decide_True.
  - intros o [Hno Hnl]%not_elem_of_cons. rewrite Hout, U2, U1 by done. unfold upd. by rewrite decide_False.
  - intros [Hp Hps]%Forall_cons. cbn [fmap list_fmap concat]. eapply adds_trans; [by apply Hu2|by apply Ha].
Qed.

Lemma Disconnect_outputs_ok txid cb h outs (i : Z) fc (c : Cache) :
  view_ok c -> 0 <= i -> i + length outs < 2 ^ 32 ->
  (forall (k : nat) out, outs !! k = Some out -> Script.IsUnspendable (scriptPubKey out) = false ->
     exists cn, utxo c (mkCOutPoint txid (i + k)) = Some cn /\ coin_out cn = out /\ coin_nHeight cn = h /\ fCoinBase cn = cb) ->
  exists c', Disconnect_outputs txid cb h i outs fc c = (Ok fc, c') /\ moves c c' (overlay txid i outs (λ _ _, None) (utxo c)).
Proof.
  revert i c. induction outs as [|out outs IH]; intros i c Hc Hi Hl Hn; cbn [Disconnect_outputs].
  { exists c. split; [done|]. split; [done|]. split; [done|]. intros o. unfold overlay. by case_decide. }
  cbn [length] in Hl. rewrite u32_small by lia. set (o0 := mkCOutPoint txid i).
  assert (Hstep : exists c1, (if negb (Script.IsUnspendable (scriptPubKey out)) then
      is_spent ← SpendCoin o0;
      mret (match is_spent with
            | None => false
            | Some cn => if negb (bool_decide (out = coin_out cn)) || negb (h =? coin_nHeight cn) || negb (Bool.eqb cb (fCoinBase cn)) then false else fc
            end)
    else mret fc) c = (Ok fc, c1) /\ moves c c1 (if Script.IsUnspendable (scriptPubKey out) then utxo c else upd (utxo c) o0 None)).
  { destruct (Script.IsUnspendable (scriptPubKey out)) eqn:Eu; cbn [negb]; [by exists c|].
    destruct (Hn 0%nat out eq_refl Eu) as (cn & Hcn & Eo & Eh & Ec). rewrite Z.add_0_r in Hcn.
    destruct (SpendCoin_ok c o0 Hc) as (r & c1 & E & Hr & K & B & _ & _ & U).
    exists c1. split; [|done]. unfold mbind, action_bind. rewrite E.
    assert (r = Some cn) as -> by (unfold o0 in Hr; rewrite Hcn in Hr; destruct r as [x|]; [|done]; cbn in Hr; by destruct (IsSpent x)).
    rewrite bool_decide_true by done. rewrite Eh, Z.eqb_refl, Ec, eqb_reflx. done. }
  destruct Hstep as (c1 & E1 & K1 & B1 & U1).
  destruct (IH (i + 1) c1 K1) as (c2 & E2 & K2 & B2 & U2); [lia|lia| |].
  { intros k o Ho Hu. rewrite U1. destruct (Hn (S k) o Ho Hu) as (cn & Hcn & Hrest). exists cn. split; [|done].
    replace (i + S k) with (i + 1 + k) in Hcn by lia. destruct (Script.IsUnspendable (scriptPubKey out)); [done|]. unfold upd.
    rewrite decide_False; [done|]. unfold o0. intros [= Hx]. lia. }
  exists c2. unfold mbind, action_bind in *. rewrite E1. split; [exact E2|]. split; [done|]. split; [congruence|].
  intros o. rewrite U2. by apply (overlay_cons _ _ _ _ (λ _ _, None)).
Qed.

(** The same coin, or what an undo record keeps of it. *)
Definition kept (c c' : Coin) : Prop := c' = c \/ c' = undo_view c.
Definition restored (u u' : utxo_set) : Prop := forall o, option_Forall2 kept (u o) (u' o).

Lemma restored_refl u u' : (forall o, u' o = u o) -> restored u u'.
Proof. intros E o. rewrite E. destruct (u o); constructor. by left. Qed.

Lemma kept_cases a b :
  option_Forall2 kept a b -> b = a \/ exists cn, a = Some cn /\ undo_view cn <> cn /\ b = Some (undo_view cn).
Proof.
  intros [x y [-> | ->]|]; [by left| |by left]. destruct (decide (undo_view x = x)) as [E|E]; [left; by rewrite E|right; by exists x].
Qed.

(** only coins that can be restored *)
Definition coins_ok (u : utxo_set) : Prop := forall o cn, u o = Some cn -> good_coin cn.

Definition numbered (tx : CTransaction) (coins : CTxUndo) : list (nat * (CTxIn * Coin)) := imap pair (zip (vin tx) coins).
Definition tx_entries (h i : Z) (tx : CTransaction) (coins : CTxUndo) : list (CAddressIndexKey * Z) :=
  concat (in_entry' h i (GetHash D tx) <$> numbered tx coins) ++ out_entries h i tx.
Definition tx_spent (tx : CTransaction) (coins : CTxUndo) : list CSpentIndexKey :=
  concat (spent_entry ∘ fst ∘ snd <$> numbered tx coins).

Lemma overlay_created tx h u o :
  overlay (GetHash D tx) 0 (vout tx) (λ _ _, None) u o = match created tx h o with Some _ => None | None => u o end.
Proof.
  unfold overlay, created. rewrite Z.sub_0_r. case_decide; [|done].
  destruct (vout tx !! _) as [out|]; [|done]. by destruct (Script.IsUnspendable _).
Qed.

(** the output is as the block says, whether or not it went through an undo record *)
Lemma created_kept tx h (k : nat) out (c : Cache) u0 :
  0 < h < 2 ^ 31 -> restored (connect_tx u0 tx h) (utxo c) -> vout tx !! k = Some out ->
  Script.IsUnspendable (scriptPubKey out) = false ->
  exists cn, utxo c (mkCOutPoint (GetHash D tx) (0 + k)) = Some cn /\ coin_out cn = out /\ coin_nHeight cn = h /\ fCoinBase cn = IsCoinBase tx.
Proof.
  intros Hh HR Hk Hus. specialize (HR (mkCOutPoint (GetHash D tx) (0 + k))). unfold connect_tx, created in HR.
  cbn [hash n] in HR. rewrite Z.add_0_l in *. rewrite decide_True, Nat2Z.id, Hk, Hus in HR by (split; [done|lia]).
  inversion HR as [x cn Hkept E1 E2|]; subst. exists cn. split; [done|].
  assert (Eh : uint 31 h = h) by (apply uint_small; unfold in_uint; lia).
  destruct Hkept as [-> | ->]; cbn; by rewrite Eh.
Qed.

Definition record_ok (u0 : utxo_set) (tx : CTransaction) (txundo : option CTxUndo) : Prop :=
  match txundo with
  | None => IsCoinBase tx = true
  | Some v => IsCoinBase tx = false /\ Forall2 (λ i cn, exists cn0, u0 (prevout i) = Some cn0 /\ cn = undo_view cn0) (vin tx) v
  end.

Lemma elem_of_numbered tx v x :
  x ∈ numbered tx v -> (x.2.1, x.2.2) ∈ zip (vin tx) v.
Proof.
  unfold numbered. intros Hx. apply elem_of_lookup_imap_1 in Hx as (k & [a b] & -> & Hk). by apply list_elem_of_lookup_2 in Hk.
Qed.

Lemma numbered_outs tx v : length v = length (vin tx) -> out_of <$> numbered tx v = prevout <$> vin tx.
Proof.
  intros Hl. unfold numbered. rewrite fmap_imap.
  transitivity (prevout <$> (zip (vin tx) v).*1); [|by rewrite fst_zip by lia].
  generalize (zip (vin tx) v). intros l. change (out_of ∘ pair _) with (prevout ∘ fst : CTxIn * Coin -> COutPoint).
  induction l as [|x l IH]; [done|]. cbn. f_equal. exact IH.
Qed.

Lemma Disconnect_tx_ok u0 tx h (i : nat) txundo fc u (c : Cache) :
  view_ok c -> 0 < h < 2 ^ 31 -> tx_fits u0 tx h -> coins_ok u0 -> restored (connect_tx u0 tx h) (utxo c) -> record_ok u0 tx txundo ->
  exists u' c', Disconnect_tx D h i tx txundo fc u c = (Ok (Some (fc, u')), c') /\ view_ok c' /\ best c' = best c /\
    restored u0 (utxo c') /\
    (Forall not_p2pk (default [] txundo) ->
     adds u u' (reverse (tx_entries h i tx (default [] txundo))) (reverse (tx_spent tx (default [] txundo)))).
Proof.
  intros Hc Hh Hf Hok HR Hrec. unfold Disconnect_tx.
  destruct (Disconnect_outputs_ok (GetHash D tx) (IsCoinBase tx) h (vout tx) 0 fc c Hc) as (c1 & E1 & K1 & B1 & U1);
    [lia|apply Hf|intros; by eapply created_kept|].
  pose proof (disconnect_outputs_adds h i tx u) as Hau. set (u1 := disconnect_outputs D h i tx u) in *.
  assert (U1' : forall o, utxo c1 o = match created tx h o with Some _ => None | None => utxo c o end)
    by (intros o; rewrite U1; apply overlay_created). clear U1.
  (* outside the inputs *)
  assert (Hrest : forall o, spends tx o = false -> option_Forall2 kept (u0 o) (utxo c1 o)).
  { intros o Hs. rewrite U1'. specialize (HR o). unfold connect_tx in HR. rewrite Hs in HR.
    destruct (created tx h o) eqn:Ec; [|done]. rewrite (fits_outputs _ _ _ Hf o) by (by eexists). constructor. }
  unfold mbind, action_bind. rewrite E1. destruct txundo as [v|].
  - destruct Hrec as [Hcb HF]. assert (Hlen : length v = length (vin tx)) by (symmetry; by eapply Forall2_length).
    rewrite (proj2 (Nat.eqb_eq _ _) Hlen). cbn [negb]. fold (numbered tx v).
    assert (Hin : forall x, x ∈ numbered tx v -> exists cn0, u0 (out_of x) = Some cn0 /\ x.2.2 = undo_view cn0).
    { intros x Hx%elem_of_numbered. apply list_elem_of_lookup_1 in Hx as [k Hk]. apply lookup_zip_with_Some in Hk as (a & b & [= E2 E3] & Ha & Hb).
      destruct (Forall2_lookup_lr _ _ _ _ _ _ HF Ha Hb) as (cn0 & ? & ?). exists cn0. unfold out_of. by rewrite E2, E3. }
    assert (Hsp : forall o, spends tx o = bool_decide (o ∈ out_of <$> numbered tx v)).
    { intros o. unfold spends. by rewrite Hcb, numbered_outs. }
    destruct (Disconnect_inputs_ok h i (GetHash D tx) (reverse (numbered tx v)) fc u1 c1 K1) as (u2 & c2 & E2 & K2 & B2 & HFi & Hout & Ha).
    { rewrite fmap_reverse, numbered_outs by done. rewrite reverse_Permutation. by apply Hf. }
    { apply Forall_reverse, Forall_forall. intros x Hx. destruct (Hin x Hx) as (cn0 & Hu & Ex). split.
      - rewrite U1'. assert (created tx h (out_of x) = None) as Hcr.
        { destruct (created tx h (out_of x)) eqn:Ec; [|done]. rewrite (fits_outputs _ _ _ Hf) in Hu by (by eexists). done. }
        rewrite Hcr. specialize (HR (out_of x)). unfold connect_tx in HR. rewrite Hcr, Hsp, bool_decide_true in HR
          by (by apply list_elem_of_fmap_2). by inversion HR.
      - rewrite Ex. destruct (Hok _ _ Hu) as (? & ? & ?). done. }
    exists u2, c2. split; [done|]. split; [done|]. split; [congruence|]. split.
    + intros o. destruct (spends tx o) eqn:Hs.
      * rewrite Hsp in Hs. apply bool_decide_eq_true, list_elem_of_fmap_1 in Hs as (x & -> & Hx).
        rewrite Forall_reverse, Forall_forall in HFi. rewrite (HFi x Hx). destruct (Hin x Hx) as (cn0 & -> & ->). constructor. by right.
      * rewrite Hout; [by apply Hrest|]. rewrite fmap_reverse, elem_of_reverse. rewrite Hsp in Hs. by apply bool_decide_eq_false in Hs.
    + intros Hp. unfold tx_entries, tx_spent. rewrite reverse_app.
      rewrite <- (app_nil_l (reverse (concat (spent_entry ∘ fst ∘ snd <$> numbered tx v)))).
      eapply adds_trans; [exact Hau|]. cbn [default from_option id]. rewrite <- !concat_reverse.
      * apply Ha. apply Forall_reverse, Forall_forall. intros x Hx%elem_of_numbered. cbn [default] in Hp. rewrite Forall_forall in Hp.
        apply Hp. by apply elem_of_zip_r in Hx.
      * intros x. cbn. unfold spent_entry. destruct fSpentIndex; cbn; lia.
      * intros [j [a b]]. unfold in_entry', in_entry. repeat case_match; cbn; lia.
  - exists u1, c1. split; [done|]. split; [done|]. split; [congruence|]. split.
    + intros o. apply Hrest. unfold spends. by rewrite Hrec.
    + intros _. unfold tx_entries, tx_spent, numbered. cbn [default]. rewrite zip_with_nil_r. cbn. exact Hau.
Qed.

(** ** A whole block *)

Definition connect_txs (u : utxo_set) (txs : list CTransaction) (h : Z) : utxo_set := foldl (λ u tx, connect_tx u tx h) u txs.

Fixpoint txs_fit (u : utxo_set) (txs : list CTransaction) (h : Z) : Prop :=
  match txs with [] => True | tx :: txs => tx_fits u tx h /\ txs_fit (connect_tx u tx h) txs h end.

Fixpoint records_ok (u : utxo_set) (txs : list CTransaction) (recs : list (option CTxUndo)) (h : Z) : Prop :=
  match txs, recs with
  | [], [] => True
  | tx :: txs, r :: recs => record_ok u tx r /\ records_ok (connect_tx u tx h) txs recs h
  | _, _ => False
  end.

Fixpoint block_entries (h : Z) (i : nat) (txs : list CTransaction) (recs : list (option CTxUndo)) : list (CAddressIndexKey * Z) :=
  match txs, recs with
  | tx :: txs, r :: recs => tx_entries h i tx (default [] r) ++ block_entries h (S i) txs recs
  | _, _ => []
  end.
Fixpoint block_spent (txs : list CTransaction) (recs : list (option CTxUndo)) : list CSpentIndexKey :=
  match txs, recs with
  | tx :: txs, r :: recs => tx_spent tx (default [] r) ++ block_spent txs recs
  | _, _ => []
  end.

Lemma connect_tx_ext u u' tx h o : (forall o, u o = u' o) -> connect_tx u tx h o = connect_tx u' tx h o.
Proof. intros E. unfold connect_tx. by rewrite E. Qed.
Lemma connect_txs_ext txs u u' h o : (forall o, u o = u' o) -> connect_txs u txs h o = connect_txs u' txs h o.
Proof.
  revert u u'. induction txs as [|tx txs IH]; intros u u' E; [apply E|]. apply IH. intros o'. by apply connect_tx_ext.
Qed.
Lemma tx_fits_ext u u' tx h : (forall o, u o = u' o) -> tx_fits u tx h -> tx_fits u' tx h.
Proof.
  intros E [H1 H2 H3 H4 H5]. split; [done| |intros o Ho; rewrite <- E; by apply H3|done..].
  intros Hcb. eapply Forall_impl; [by apply H2|]. intros i Hi. by rewrite <- E.
Qed.

(** coins stay restorable *)
Lemma coins_ok_connect u tx h : 0 < h < 2 ^ 31 -> tx_fits u tx h -> coins_ok u -> coins_ok (connect_tx u tx h).
Proof.
  intros Hh Hf Hok o cn. unfold connect_tx, created. case_decide as Ho; [|destruct (spends tx o); [done|apply Hok]].
  destruct (vout tx !! _) as [out|] eqn:Eo; [|destruct (spends tx o); [done|apply Hok]].
  destruct (Script.IsUnspendable _) eqn:Eu; [destruct (spends tx o); [done|apply Hok]|]. intros [= <-].
  assert (Eh : uint 31 h = h) by (apply uint_small; unfold in_uint; lia).
  split; [|split; [done|cbn; lia]]. apply Z.eqb_neq. pose proof (fits_values _ _ _ Hf) as Hv.
  rewrite Forall_lookup in Hv. exact (Hv _ _ Eo).
Qed.

Lemma concat_view {Y} (g : nat * (CTxIn * Coin) -> list Y) (f : nat -> nat) l (k : list Coin) :
  (forall j a b, g (j, (a, undo_view b)) = g (j, (a, b))) ->
  concat (g <$> imap (λ j, pair (f j)) (zip l (undo_view <$> k))) = concat (g <$> imap (λ j, pair (f j)) (zip l k)).
Proof.
  intros Hg. revert f k. induction l as [|a l IH]; intros f [|b k]; try done. cbn. rewrite Hg. f_equal. apply (IH (f ∘ S)).
Qed.

Lemma tx_entries_view h i tx coins : tx_entries h i tx (undo_view <$> coins) = tx_entries h i tx coins.
Proof. unfold tx_entries. f_equal. by apply (concat_view _ id). Qed.
Lemma tx_spent_view tx coins : tx_spent tx (undo_view <$> coins) = tx_spent tx coins.
Proof. by apply (concat_view _ id). Qed.

Lemma tx_spent_all tx coins : length coins = length (vin tx) -> tx_spent tx coins = spent_entries (vin tx).
Proof.
  intros Hl. unfold tx_spent, numbered, spent_entries. rewrite <- (fst_zip (vin tx) coins) at 2 by lia.
  generalize (zip (vin tx) coins). intros l.
  assert (Hg : forall f : nat -> nat, concat (spent_entry ∘ fst ∘ snd <$> imap (λ j, pair (f j)) l) = concat (spent_entry <$> l.*1)).
  { induction l as [|x l IH]; intros f; [done|]. cbn. f_equal. apply (IH (f ∘ S)). }
  apply (Hg id).
Qed.

Lemma undo_record u tx coins :
  IsCoinBase tx = false -> undo_of u tx coins -> length coins = length (vin tx) /\ record_ok u tx (Some (undo_view <$> coins)).
Proof.
  unfold undo_of. intros Hcb. rewrite Hcb. intros HF. split; [symmetry; by eapply Forall2_length|]. split; [done|].
  apply Forall2_fmap_r. eapply Forall2_impl; [exact HF|]. intros a b Hab. by exists b.
Qed.

(** one round of the loop, for a transaction that is not the coinbase *)
Lemma ConnectBlock_tx_ok h t (i : nat) tx txs bu u (c : Cache) :
  view_ok c -> (0 < i)%nat -> IsCoinBase tx = false -> tx_fits (utxo c) tx h ->
  exists coins u1 c1, ConnectBlock_txs D h t i (tx :: txs) bu u c = ConnectBlock_txs D h t (S i) txs (bu ++ [coins]) u1 c1 /\
    undo_of (utxo c) tx coins /\ view_ok c1 /\ best c1 = best c /\ (forall o, utxo c1 o = connect_tx (utxo c) tx h o) /\
    adds u u1 (tx_entries h i tx coins) (tx_spent tx coins).
Proof.
  intros Hc Hi Hcb Hf. destruct (UpdateCoins_ok tx h c Hc Hf) as (coins0 & _ & _ & Hu0 & _).
  destruct (undo_record _ _ _ Hcb Hu0) as [Hlen _]. pose proof Hu0 as HF. unfold undo_of in HF. rewrite Hcb in HF.
  assert (H1 : exists u1 c1, (if negb (IsCoinBase tx) && (fAddressIndex || fSpentIndex) then connect_inputs D h i (GetHash D tx) 0 (vin tx) u else mret u) c
    = (Ok u1, c1) /\ unchanged c c1 /\ adds u u1 (concat (in_entry' h i (GetHash D tx) <$> numbered tx coins0)) (tx_spent tx coins0)).
  { rewrite Hcb. cbn [negb andb]. destruct (fAddressIndex || fSpentIndex) eqn:Eopt.
    - destruct (connect_inputs_ok h i (GetHash D tx) (vin tx) coins0 0 u c Hc HF) as (u1 & c1 & E & Hun & Ha). exists u1, c1.
      split; [done|]. split; [done|]. by rewrite tx_spent_all.
    - apply orb_false_elim in Eopt as [Ea Es]. exists u, c. split; [done|]. split; [done|].
      rewrite tx_spent_all by done. unfold spent_entries, spent_entry. rewrite Es, concat_nil.
      assert (concat (in_entry' h i (GetHash D tx) <$> numbered tx coins0) = []) as ->; [|apply adds_nil].
      unfold in_entry', in_entry. rewrite Ea. generalize (numbered tx coins0). intros l. induction l as [|[? [? ?]] l IH]; done. }
  destruct H1 as (u1 & c1 & E1 & (K1 & U1 & B1) & Ha1).
  destruct (UpdateCoins_ok tx h c1 K1) as (coins & c2 & E2 & Hu & K2 & B2 & U2); [by apply (tx_fits_ext (utxo c))|].
  assert (coins = coins0) as ->.
  { unfold undo_of in Hu. rewrite Hcb in Hu. eapply Forall2_unique; [exact Hu| |congruence].
    eapply Forall2_impl; [exact HF|]. intros a b Hab. cbv beta. by rewrite U1. }
  exists coins0, (connect_outputs D h t i tx u1), c2. split.
  - cbn [ConnectBlock_txs]. unfold mbind, action_bind. rewrite E1. cbv zeta. rewrite E2, (proj2 (Z.ltb_lt _ _)) by lia.
    by replace (Z.of_nat i + 1) with (Z.of_nat (S i)) by lia.
  - split; [done|]. split; [done|]. split; [congruence|]. split; [intros o; rewrite U2; by apply connect_tx_ext|].
    rewrite <- (app_nil_r (tx_spent tx coins0)). eapply adds_trans; [exact Ha1|apply connect_outputs_adds].
Qed.

Definition records (undos : CBlockUndo) : list (option CTxUndo) := Some <$> block_undo_view undos.

Lemma records_ok_ext txs recs u u' h : (forall o, u o = u' o) -> records_ok u txs recs h -> records_ok u' txs recs h.
Proof.
  revert recs u u'. induction txs as [|tx txs IH]; intros [|r recs] u u' E; try done. intros [Hr Hrs]. split.
  - destruct r as [v|]; [|done]. destruct Hr as [Hcb HF]. split; [done|]. eapply Forall2_impl; [exact HF|].
    intros a b (cn & Hcn & Eb). exists cn. by rewrite <- E.
  - eapply IH; [|exact Hrs]. intros o. by apply connect_tx_ext.
Qed.
Lemma txs_fit_ext txs u u' h : (forall o, u o = u' o) -> txs_fit u txs h -> txs_fit u' txs h.
Proof.
  revert u u'. induction txs as [|tx txs IH]; intros u u' E; [done|]. intros [Hf Hfs]. split; [by eapply tx_fits_ext|].
  eapply IH; [|exact Hfs]. intros o. by apply connect_tx_ext.
Qed.

Lemma ConnectBlock_txs_ok h t (i : nat) txs bu u (c : Cache) :
  view_ok c -> (0 < i)%nat -> Forall (λ tx, IsCoinBase tx = false) txs -> txs_fit (utxo c) txs h ->
  exists undos u' c', ConnectBlock_txs D h t i txs bu u c = (Ok (bu ++ undos, u'), c') /\ length undos = length txs /\
    records_ok (utxo c) txs (records undos) h /\ view_ok c' /\ best c' = best c /\
    (forall o, utxo c' o = connect_txs (utxo c) txs h o) /\
    adds u u' (block_entries h i txs (records undos)) (block_spent txs (records undos)).
Proof.
  revert i bu u c. induction txs as [|tx txs IH]; intros i bu u c Hc Hi Hcb Hf.
  { exists [], u, c. rewrite app_nil_r. split_and!; try done. apply adds_nil. }
  apply Forall_cons in Hcb as [Hcb Hcbs]. destruct Hf as [Hf Hfs].
  destruct (ConnectBlock_tx_ok h t i tx txs bu u c Hc Hi Hcb Hf) as (coins & u1 & c1 & E1 & Hu & K1 & B1 & U1 & Ha1).
  destruct (IH (S i) (bu ++ [coins]) u1 c1 K1) as (undos & u2 & c2 & E2 & Hl & Hr & K2 & B2 & U2 & Ha2); [lia|done| |].
  { eapply txs_fit_ext; [|exact Hfs]. intros o. by rewrite U1. }
  destruct (undo_record _ _ _ Hcb Hu) as [Hlen Hrec].
  exists (coins :: undos), u2, c2. rewrite E1, E2, <- app_assoc. split; [done|]. split; [cbn; lia|]. split; [|split; [done|split; [congruence|split]]].
  - split; [exact Hrec|]. eapply records_ok_ext; [|exact Hr]. done.
  - intros o. rewrite U2. change (connect_txs (utxo c) (tx :: txs) h) with (connect_txs (connect_tx (utxo c) tx h) txs h).
    by apply connect_txs_ext.
  - change (records (coins :: undos)) with (Some (undo_view <$> coins) :: records undos). cbn [block_entries block_spent default from_option id].
    rewrite tx_entries_view, tx_spent_view. by eapply adds_trans.
Qed.

Lemma Disconnect_txs_app h l1 l2 fc u (c : Cache) :
  Disconnect_txs D h (l1 ++ l2) fc u c =
  match Disconnect_txs D h l1 fc u c with
  | (Ok (Some (fc, u)), c) => Disconnect_txs D h l2 fc u c
  | r => r
  end.
Proof.
  revert fc u c. induction l1 as [|[i [tx r]] l1 IH]; intros fc u c; [done|]. cbn [app Disconnect_txs]. unfold mbind, action_bind.
  destruct (Disconnect_tx D h i tx r fc u c) as [[[[fc1 u1]|]|msg] c1]; [|done..]. apply IH.
Qed.

Lemma Disconnect_txs_ok h (i : nat) txs recs fc u s (c : Cache) :
  view_ok c -> 0 < h < 2 ^ 31 -> txs_fit s txs h -> coins_ok s -> records_ok s txs recs h -> restored (connect_txs s txs h) (utxo c) ->
  exists u' c', Disconnect_txs D h (reverse (imap (λ k, pair (i + k)%nat) (zip txs recs))) fc u c = (Ok (Some (fc, u')), c') /\
    view_ok c' /\ best c' = best c /\ restored s (utxo c') /\
    (Forall (λ r, Forall not_p2pk (default [] r)) recs ->
     adds u u' (reverse (block_entries h i txs recs)) (reverse (block_spent txs recs))).
Proof.
  revert i recs fc u s c. induction txs as [|tx txs IH]; intros i [|r recs] fc u s c Hc Hh Hf Hok Hr HR; try done.
  { exists u, c. split_and!; try done. intros _. apply adds_nil. }
  destruct Hf as [Hf Hfs]. destruct Hr as [Hr Hrs].
  destruct (IH (S i) recs fc u (connect_tx s tx h) c Hc Hh Hfs) as (u1 & c1 & E1 & K1 & B1 & HR1 & Ha1);
    [by apply coins_ok_connect|done|done|].
  destruct (Disconnect_tx_ok s tx h i r fc u1 c1 K1 Hh Hf Hok HR1 Hr) as (u2 & c2 & E2 & K2 & B2 & HR2 & Ha2).
  exists u2, c2. split; [|split; [done|split; [congruence|split; [done|]]]].
  - change (zip (tx :: txs) (r :: recs)) with ((tx, r) :: zip txs recs). rewrite imap_cons, reverse_cons, Disconnect_txs_app, Nat.add_0_r.
    rewrite (imap_ext _ (λ k, pair (S i + k)%nat)) by (intros k x _; cbn; by rewrite Nat.add_succ_r). rewrite E1. cbn [Disconnect_txs]. unfold mbind, action_bind. by rewrite E2.
  - intros [Hp Hps]%Forall_cons. cbn [block_entries block_spent]. rewrite !reverse_app. eapply adds_trans; [by apply Ha1|by apply Ha2].
Qed.

Definition block_shape (txs : list CTransaction) : Prop :=
  match txs with cb :: txs => IsCoinBase cb = true /\ Forall (λ tx, IsCoinBase tx = false) txs | [] => False end.

Lemma ConnectBlock_ok h t txs (c : Cache) :
  view_ok c -> block_shape txs -> txs_fit (utxo c) txs h ->
  exists bu u c', ConnectBlock_txs D h t 0 txs [] no_updates c = (Ok (bu, u), c') /\ (length bu + 1 = length txs)%nat /\
    records_ok (utxo c) txs (None :: records bu) h /\ view_ok c' /\ best c' = best c /\
    (forall o, utxo c' o = connect_txs (utxo c) txs h o) /\
    addressIndex u = block_entries h 0 txs (None :: records bu) /\ (spentIndex u).*1 = block_spent txs (None :: records bu).
Proof.
  intros Hc Hs Hf. destruct txs as [|cb txs]; [done|]. destruct Hs as [Hcb Hcbs]. destruct Hf as [Hf Hfs].
  destruct (UpdateCoins_ok cb h c Hc Hf) as (coins & c1 & E1 & _ & K1 & B1 & U1).
  set (u1 := connect_outputs D h t 0 cb no_updates). pose proof (connect_outputs_adds h t 0 cb no_updates) as Ha1. fold u1 in Ha1.
  destruct (ConnectBlock_txs_ok h t 1 txs [] u1 c1 K1) as (undos & u2 & c2 & E2 & Hl & Hr & K2 & B2 & U2 & Ha2); [lia|done| |].
  { eapply txs_fit_ext; [|exact Hfs]. intros o. by rewrite U1. }
  exists undos, u2, c2. split; [|split; [cbn; lia|split; [|split; [done|split; [congruence|split]]]]].
  - cbn [ConnectBlock_txs]. rewrite Hcb. cbn [negb andb]. unfold mbind, action_bind, mret, action_ret. cbv zeta. fold u1. rewrite E1. exact E2.
  - split; [done|]. by eapply records_ok_ext; [|exact Hr].
  - intros o. rewrite U2. change (connect_txs (utxo c) (cb :: txs) h) with (connect_txs (connect_tx (utxo c) cb h) txs h).
    by apply connect_txs_ext.
  - cbn [block_entries block_spent default]. unfold tx_entries, tx_spent, numbered. rewrite zip_with_nil_r. cbn [imap fmap list_fmap concat app].
    exact (adds_trans _ _ _ _ _ _ _ Ha1 Ha2).
Qed.

Context {W : Type} `{HW : NodeServices W}.

(** the rest of the node does its part *)
Record services_ok (dip3 : bool) (block : CBlock) (pindex : CBlockIndex) (bu : CBlockUndo) (w : W) : Prop := {
  srv_verify : dip3 = true -> VerifyBestBlock (GetBlockHash pindex) w = true;
  srv_undo : ReadUndo pindex w = Some (block_undo_view bu);
  srv_special : (UndoSpecialTxsInBlock block pindex w).1 = true;
  srv_spent l w' : (UpdateSpentIndex l w').1 = true;
  srv_erase l w' : (EraseAddressIndex l w').1 = true;
  srv_unspent l w' : (UpdateAddressUnspentIndex l w').1 = true;
}.

Lemma DisconnectBlock_run dip3 block pindex pprev bu w u (c c' : Cache) :
  services_ok dip3 block pindex bu w -> (length bu + 1 = length (vtx block))%nat ->
  Disconnect_txs D (nHeight pindex) (reverse (imap pair (with_undo (vtx block) (block_undo_view bu)))) true no_updates c = (Ok (Some (true, u)), c') ->
  exists w', DisconnectBlock D dip3 block pindex pprev c w = (Ok DISCONNECT_OK, SetBestBlock (GetBlockHash pprev) c', w').
Proof.
  intros [H1 H2 H3 H4 H5 H6] Hl E. unfold DisconnectBlock.
  assert (dip3 && negb (VerifyBestBlock (GetBlockHash pindex) w) = false) as -> by (destruct dip3; [by rewrite H1|done]).
  assert (Hl' : (length (block_undo_view bu) + 1 =? length (vtx block))%nat = true)
    by (apply Nat.eqb_eq; unfold block_undo_view; rewrite length_fmap; exact Hl).
  rewrite H2, Hl'. cbn [negb].
  destruct (UndoSpecialTxsInBlock block pindex w) as [b w1]. cbn in H3. subst b. cbn [negb]. rewrite E.
  assert (Hi : forall (b : bool) (f : W -> bool * W) w, (forall w, (f w).1 = true) -> exists w', (if b then f w else (true, w)) = (true, w')).
  { intros b f w0 Hf. destruct b; [|eauto]. specialize (Hf w0). destruct (f w0) as [x w0']. cbn in Hf. subst. eauto. }
  destruct (Hi fSpentIndex (UpdateSpentIndex (spentIndex u)) w1) as [w2 ->]; [done|]. cbn [negb].
  destruct (Hi fAddressIndex (EraseAddressIndex (addressIndex u)) w2) as [w3 ->]; [done|]. cbn [negb].
  destruct (Hi fAddressIndex (UpdateAddressUnspentIndex (addressUnspentIndex u)) w3) as [w4 ->]; [done|]. cbn [negb]. eauto.
Qed.

(** C2: Taking a block back restores the coins: for a block whose transactions spend coins that exist and make coins
    that do not (as the checks before guarantee), the loop of [ConnectBlock] succeeds and produces
    undo data with which, once read back from disk, [DisconnectBlock] reports a clean result and
    sets the best block to the parent, and afterwards every outpoint has the coin it had before, except
    that a coin with a type or payload may have lost these; this over any lawful base view and
    whatever else happened to the cache in between. *)
Theorem connect_disconnect (c : CCoinsViewCache V) (block : CBlock) (pindex pprev : CBlockIndex) (dip3 : bool) :
  view_ok c -> block_shape (vtx block) -> 0 < nHeight pindex < 2 ^ 31 ->
  txs_fit (utxo c) (vtx block) (nHeight pindex) -> coins_ok (utxo c) -> Blob.IsNull (GetBlockHash pprev) = false ->
  exists bu u c1, ConnectBlock_txs D (nHeight pindex) (nTime pindex) 0 (vtx block) [] no_updates c = (Ok (bu, u), c1) /\
    (forall o, utxo c1 o = connect_txs (utxo c) (vtx block) (nHeight pindex) o) /\
    forall c2 w, view_ok c2 -> (forall o, utxo c2 o = utxo c1 o) -> services_ok dip3 block pindex bu w ->
    exists c3 w', DisconnectBlock D dip3 block pindex pprev c2 w = (Ok DISCONNECT_OK, c3, w') /\
      view_ok c3 /\ best c3 = GetBlockHash pprev /\
      forall o, utxo c3 o = utxo c o \/ exists cn, utxo c o = Some cn /\ undo_view cn <> cn /\ utxo c3 o = Some (undo_view cn).
Proof.
  intros Hc Hs Hh Hf Hok Hn.
  destruct (ConnectBlock_ok (nHeight pindex) (nTime pindex) (vtx block) c Hc Hs Hf) as (bu & u & c1 & E1 & Hl & Hr & K1 & B1 & U1 & _).
  exists bu, u, c1. split; [done|]. split; [done|]. intros c2 w K2 U2 Hsrv.
  destruct (Disconnect_txs_ok (nHeight pindex) 0 (vtx block) (None :: records bu) true no_updates (utxo c) c2 K2 Hh Hf Hok Hr)
    as (u' & c3 & E3 & K3 & B3 & HR & _).
  { apply restored_refl. intros o. by rewrite U2, U1. }
  destruct (DisconnectBlock_run dip3 block pindex pprev bu w u' c2 c3 Hsrv Hl E3) as [w' E]. exists (SetBestBlock (GetBlockHash pprev) c3), w'.
  destruct (SetBestBlock_ok c3 (GetBlockHash pprev) K3 Hn) as (K4 & B4 & U4). split; [done|]. split; [done|]. split; [done|].
  intros o. rewrite U4. by apply kept_cases.
Qed.

(** The address and spent indexes are undone too: if no coin spent by the block was paid to a bare public key,
    the entries [DisconnectBlock] erases from the address index are exactly those [ConnectBlock] wrote,
    last one first, and so are the keys of the spent index. *)
Theorem index_undone (c : CCoinsViewCache V) (txs : list CTransaction) (h t : Z) :
  view_ok c -> block_shape txs -> 0 < h < 2 ^ 31 -> txs_fit (utxo c) txs h -> coins_ok (utxo c) ->
  exists bu u c1, ConnectBlock_txs D h t 0 txs [] no_updates c = (Ok (bu, u), c1) /\
    forall c2, view_ok c2 -> (forall o, utxo c2 o = utxo c1 o) -> Forall (Forall not_p2pk) bu ->
    exists u' c3, Disconnect_txs D h (reverse (imap pair (with_undo txs (block_undo_view bu)))) true no_updates c2 = (Ok (Some (true, u')), c3) /\
      addressIndex u' = reverse (addressIndex u) /\ (spentIndex u').*1 = reverse (spentIndex u).*1.
Proof.
  intros Hc Hs Hh Hf Hok.
  destruct (ConnectBlock_ok h t txs c Hc Hs Hf) as (bu & u & c1 & E1 & Hl & Hr & K1 & B1 & U1 & Ea & Es).
  exists bu, u, c1. split; [done|]. intros c2 K2 U2 Hp.
  destruct (Disconnect_txs_ok h 0 txs (None :: records bu) true no_updates (utxo c) c2 K2 Hh Hf Hok Hr) as (u' & c3 & E3 & _ & _ & _ & Ha).
  { apply restored_refl. intros o. by rewrite U2, U1. }
  exists u', c3. split; [done|]. rewrite Ea, Es. apply Ha. constructor; [constructor|]. unfold records, block_undo_view.
  rewrite !Forall_fmap. eapply Forall_impl; [exact Hp|]. intros v Hv. cbn. by rewrite Forall_fmap.
Qed.
End blocks.

(** ** Examples *)

#[local] Instance ex_batch : BatchLimit := {| SizeEstimate b := length b; batch_size := 1000 |}.
#[local] Instance ex_order : IterationOrder.
Proof. refine {| iterate m := map_to_list m |}. done. Defined.
#[local] Instance ex_usage : ScriptUsage.
Proof. refine {| DynamicUsage s := length s |}. done. Defined.
#[local] Instance ex_options : IndexOptions := {| fAddressIndex := true; fSpentIndex := true |}.

(** a database with one coin, and a block that pays its miner and moves the coin to a script hash *)
Definition ex_out : COutPoint := mkCOutPoint (replicate 32 1) 0.
Definition ex_view (cn : Coin) : CCoinsViewCache CCoinsViewDB :=
  CCoinsViewCache_new (mkDB {[ex_out := cn]} (Some (replicate 32 8)) None).
Definition p2pkh : list Z := [OP_DUP; OP_HASH160; 20] ++ replicate 20 7 ++ [OP_EQUALVERIFY; OP_CHECKSIG].
Definition p2pk : list Z := [33; 2] ++ replicate 32 7 ++ [OP_CHECKSIG].
Definition p2sh : list Z := [OP_HASH160; 20] ++ replicate 20 9 ++ [OP_EQUAL].
Definition ex_coin : Coin := mkCoin (mkCTxOut 50 p2pkh) false 3 0 [].
Definition ex_coinbase : CTransaction := mkCTransaction [mkCTxIn COutPoint_default [] 0] [mkCTxOut 5 p2pkh] 2 0 0 [].
Definition ex_tx : CTransaction := mkCTransaction [mkCTxIn ex_out [] 0] [mkCTxOut 50 p2sh] 2 0 0 [].
Definition ex_index (hash : list Z) (height : Z) : CBlockIndex :=
  mkCBlockIndex (Some hash) None None height [] 0 1 (replicate 32 0) 77 0 0 0 0.
Definition ex_block : CBlock := mkCBlock CBlockHeader_SetNull [ex_coinbase; ex_tx].

Lemma ex_view_ok cn : IsSpent cn = false ->
  view_ok (ex_view cn) /\ forall o, utxo (ex_view cn) o = if decide (o = ex_out) then Some cn else None.
Proof.
  intros Hs. set (db := mkDB {[ex_out := cn]} (Some (replicate 32 8)) None).
  assert (Hdb : view_ok db) by (split; [done|]; intros o c; cbn [db_coins db]; intros [_ <-]%lookup_singleton_Some; done).
  destruct (new_ok db Hdb) as (K & U & _). split; [exact K|]. intros o. rewrite U. cbn [utxo CCoinsViewDB_spec db_coins db].
  case_decide; [subst; apply lookup_singleton_eq|by apply lookup_singleton_ne].
Qed.

Lemma created_hash D `{!GoodDispatch D} tx h o : is_Some (created D tx h o) -> hash o = GetHash D tx.
Proof. unfold created. case_decide as Hd; [intros _; apply Hd|by intros [? ?]]. Qed.

Lemma ex_fits cn :
  IsSpent cn = false -> txs_fit Sha256.standard (utxo (ex_view cn)) (vtx ex_block) 100.
Proof.
  intros Hs. destruct (ex_view_ok cn Hs) as [_ U]. split; [|split; [|done]].
  - split; [done|done| |repeat constructor; discriminate|cbn; lia].
    intros o Ho%created_hash. rewrite U, decide_False; [done|]. intros ->. revert Ho. vm_compute. discriminate.
  - split.
    + intros _. apply NoDup_singleton.
    + intros _. repeat constructor. unfold connect_tx.
      assert (created Sha256.standard ex_coinbase 100 (prevout (mkCTxIn ex_out [] 0)) = None) as -> by (vm_compute; reflexivity).
      change (spends ex_coinbase _) with false. cbv iota. rewrite U. by eexists.
    + intros o Ho%created_hash. unfold connect_tx.
      assert (created Sha256.standard ex_coinbase 100 o = None) as ->.
      { unfold created. rewrite decide_False; [done|]. intros [Ho' _]. rewrite Ho in Ho'. revert Ho'. vm_compute. discriminate. }
      change (spends ex_coinbase o) with false. cbv iota. rewrite U, decide_False; [done|]. intros ->. revert Ho. vm_compute. discriminate.
    + repeat constructor; discriminate.
    + cbn. lia.
Qed.

Lemma ex_coins_ok : coins_ok (utxo (ex_view ex_coin)).
Proof.
  destruct (ex_view_ok ex_coin eq_refl) as [_ U]. intros o cn. rewrite U. case_decide; [|done]. intros [= <-].
  split; [done|]. split; [vm_compute; reflexivity|cbn; lia].
Qed.

(** services that keep the undo data of one block *)
#[local] Instance ex_services : NodeServices CBlockUndo := {|
  VerifyBestBlock _ _ := true; WriteBestBlock _ w := w; ReadUndo _ w := Some w; UndoSpecialTxsInBlock _ _ w := (true, w);
  UpdateSpentIndex _ w := (true, w); EraseAddressIndex _ w := (true, w); UpdateAddressUnspentIndex _ w := (true, w);
|}.

Lemma connect_disconnect_witness :
  exists bu u c1 c3 w',
    ConnectBlock_txs Sha256.standard 100 77 0 (vtx ex_block) [] no_updates (ex_view ex_coin) = (Ok (bu, u), c1) /\
    DisconnectBlock Sha256.standard true ex_block (ex_index (replicate 32 9) 100) (ex_index (replicate 32 8) 99) c1 (block_undo_view bu)
      = (Ok DISCONNECT_OK, c3, w') /\ utxo c3 ex_out = Some ex_coin.
Proof.
  destruct (ex_view_ok ex_coin eq_refl) as [K U].
  destruct (connect_disconnect Sha256.standard (ex_view ex_coin) ex_block (ex_index (replicate 32 9) 100) (ex_index (replicate 32 8) 99) true)
    as (bu & u & c1 & E1 & U1 & Hback);
    [exact K|split; [reflexivity|repeat constructor]|cbn; lia|by apply ex_fits|apply ex_coins_ok|vm_compute; reflexivity|].
  exists bu, u, c1.
  destruct (ConnectBlock_ok Sha256.standard 100 77 (vtx ex_block) (ex_view ex_coin)) as (bu' & u' & c1' & E1' & _ & _ & K1 & _);
    [exact K|split; [reflexivity|repeat constructor]|by apply ex_fits|].
  cbn [nHeight nTime ex_index] in E1. rewrite E1 in E1'. injection E1' as <- <- <-.
  destruct (Hback c1 (block_undo_view bu) K1) as (c3 & w' & E3 & _ & _ & HR); [intros o; reflexivity|split; intros; reflexivity|].
  exists c3, w'. split; [exact E1|]. split; [exact E3|].
  destruct (HR ex_out) as [-> | (cn & Hcn & Hne & _)]; [rewrite U; apply decide_True; reflexivity|].
  exfalso. apply Hne. rewrite U, decide_True in Hcn by reflexivity. injection Hcn as <-. reflexivity.
Defined.

Lemma index_undone_witness :
  exists bu u c1 u' c3,
    ConnectBlock_txs Sha256.standard 100 77 0 (vtx ex_block) [] no_updates (ex_view ex_coin) = (Ok (bu, u), c1) /\
    Disconnect_txs Sha256.standard 100 (reverse (imap pair (with_undo (vtx ex_block) (block_undo_view bu)))) true no_updates c1
      = (Ok (Some (true, u')), c3) /\ addressIndex u' = reverse (addressIndex u).
Proof.
  destruct (ex_view_ok ex_coin eq_refl) as [K U].
  destruct (index_undone Sha256.standard (ex_view ex_coin) (vtx ex_block) 100 77) as (bu & u & c1 & E1 & Hback);
    [exact K|split; [reflexivity|repeat constructor]|lia|by apply ex_fits|apply ex_coins_ok|].
  destruct (ConnectBlock_ok Sha256.standard 100 77 (vtx ex_block) (ex_view ex_coin)) as (bu' & u' & c1' & E1' & _ & Hr & K1 & _);
    [exact K|split; [reflexivity|repeat constructor]|by apply ex_fits|].
  rewrite E1 in E1'. injection E1' as <- <- <-.
  destruct (Hback c1 K1) as (u2 & c3 & E3 & Ea & _); [intros o; reflexivity| |exists bu, u, c1, u2, c3; split; [exact E1|split; [exact E3|exact Ea]]].
  assert (E : fst <$> (match (ConnectBlock_txs Sha256.standard 100 77 0 (vtx ex_block) [] no_updates (ex_view ex_coin)).1 with Ok x => Some x | Throw _ => None end)
    = Some [[ex_coin]]) by (vm_compute; reflexivity).
  rewrite E1 in E. injection E as ->. repeat constructor.
Defined.

(** what becomes of the coin of the example's database when the block is connected and taken back *)
Definition after_return (cn : Coin) : option (Coin * updates * updates) :=
  match ConnectBlock_txs Sha256.standard 100 77 0 (vtx ex_block) [] no_updates (ex_view cn) with
  | (Ok (bu, u), c1) =>
      match Disconnect_txs Sha256.standard 100 (reverse (imap pair (with_undo (vtx ex_block) (block_undo_view bu)))) true no_updates c1 with
      | (Ok (Some (true, u')), c2) => match (AccessCoin ex_out c2).1 with Ok r => Some (r, u, u') | Throw _ => None end
      | _ => None
      end
  | _ => None
  end.

(** a locked coin comes back unlocked: a coin locked by a future transaction that is spent by a block is, after
    the block was disconnected with a clean result, an ordinary coin: its type and the payload that
    holds the lock are gone. *)
Theorem future_lock_lost :
  let cn := mkCoin (mkCTxOut 50 p2pkh) false 3 TRANSACTION_FUTURE (written (Serialize codec_CFutureTx
    (mkCFutureTx 1 1000 (-1) 0 0 false 0 [] (replicate 32 0) 0 (replicate 32 0)))) in
  fst ∘ fst <$> after_return cn = Some (mkCoin (mkCTxOut 50 p2pkh) false 3 0 []).
Proof. vm_compute. reflexivity. Qed.

(** bare public keys are left in the address index: when a coin paid to a public key is spent by a block and the
    block is disconnected, the entry [ConnectBlock] wrote for the spending is not among those erased. *)
Theorem pubkey_spend_not_undone :
  match after_return (mkCoin (mkCTxOut 50 p2pk) false 3 0 []) with
  | Some (_, u, u') =>
      exists e, addressIndex u !! 1%nat = Some e /\ spending e.1 = true /\ Forall (λ e', ak_hashBytes e'.1 = ak_hashBytes e.1 -> spending e'.1 = false) (addressIndex u')
  | None => False
  end.
Proof. vm_compute. eexists. split; [reflexivity|]. split; [reflexivity|]. repeat constructor; try discriminate. Qed.

Definition ex_undo : CBlockUndo := [[ex_coin]; []].
#[local] Existing Instance toy_curve.
#[local] Existing Instance toy_curve_laws.

Lemma undo_disk_roundtrip_witness :
  let h := replicate 32 3 in
  let b := written (UndoWriteToDisk Sha256.standard ex_undo h) in
  exists s', UndoReadFromDisk Sha256.standard (h ++ b ++ [5]) h (DataStream.new (b ++ [5]) 0 0) = (Ok (Some ex_undo), s') /\
    is_pending s' = [5].
Proof.
  cbv zeta. set (b := written _).
  refine (proj1 (undo_disk_roundtrip Sha256.standard (DataStream.new (b ++ [5]) 0 0) ex_undo (replicate 32 3) [5] _ _ _ _ _) _).
  - split; [vm_compute; discriminate|]. repeat constructor; vm_compute; try discriminate.
  - split; [done|]. split; [vm_compute; discriminate|]. vm_compute. repeat constructor; discriminate.
  - split; [vm_compute; split; discriminate|]. split; [vm_compute; discriminate|]. vm_compute.
    repeat (constructor; [split; [discriminate|reflexivity]|]). constructor.
  - vm_compute. reflexivity.
  - vm_compute. reflexivity.
  - reflexivity.
Defined.
