(* ===== verification/Interpreter.v ===== *)
(** * The script interpreter: script/interpreter.{h,cpp}, script/script_error.h

    [EvalScript] runs one script on a stack of byte strings, [VerifyScript] decides whether an
    input may spend an output.  Stacks are listed from their top, so that [stacktop(-i)] is element
    [i - 1]; an iterator into a script is the rest of the script from there, as in [Script.v].

    A computation is [Done], returns false with an error ([Fail]), or stops the process at a failed
    assertion ([Abort]).  Exceptions are caught in [EvalScript] and become
    SCRIPT_ERR_UNKNOWN_ERROR.  There is one [SigVersion], BASE, and no argument for it. *)

From S2P Require Import Prelude Bytes Script BlockHash Sha256 Sha256Laws Ripemd160 Sha1 Hash Transaction Compressor.

(** ** Errors and flags *)

Inductive ScriptError :=
  | SCRIPT_ERR_OK | SCRIPT_ERR_UNKNOWN_ERROR | SCRIPT_ERR_EVAL_FALSE | SCRIPT_ERR_OP_RETURN
  | SCRIPT_ERR_SCRIPT_SIZE | SCRIPT_ERR_PUSH_SIZE | SCRIPT_ERR_OP_COUNT | SCRIPT_ERR_STACK_SIZE
  | SCRIPT_ERR_SIG_COUNT | SCRIPT_ERR_PUBKEY_COUNT
  | SCRIPT_ERR_VERIFY | SCRIPT_ERR_EQUALVERIFY | SCRIPT_ERR_CHECKMULTISIGVERIFY
  | SCRIPT_ERR_CHECKSIGVERIFY | SCRIPT_ERR_CHECKDATASIGVERIFY | SCRIPT_ERR_NUMEQUALVERIFY
  | SCRIPT_ERR_BAD_OPCODE | SCRIPT_ERR_DISABLED_OPCODE | SCRIPT_ERR_INVALID_STACK_OPERATION
  | SCRIPT_ERR_INVALID_ALTSTACK_OPERATION | SCRIPT_ERR_UNBALANCED_CONDITIONAL
  | SCRIPT_ERR_INVALID_SPLIT_RANGE | SCRIPT_ERR_INVALID_OPERAND_SIZE | SCRIPT_ERR_INVALID_NUMBER_RANGE
  | SCRIPT_ERR_IMPOSSIBLE_ENCODING | SCRIPT_ERR_DIV_BY_ZERO | SCRIPT_ERR_MOD_BY_ZERO
  | SCRIPT_ERR_NEGATIVE_LOCKTIME | SCRIPT_ERR_UNSATISFIED_LOCKTIME
  | SCRIPT_ERR_SIG_HASHTYPE | SCRIPT_ERR_SIG_DER | SCRIPT_ERR_MINIMALDATA | SCRIPT_ERR_SIG_PUSHONLY
  | SCRIPT_ERR_SIG_HIGH_S | SCRIPT_ERR_SIG_NULLDUMMY | SCRIPT_ERR_PUBKEYTYPE | SCRIPT_ERR_CLEANSTACK
  | SCRIPT_ERR_SIG_NULLFAIL | SCRIPT_ERR_DISCOURAGE_UPGRADABLE_NOPS.

Definition SIGHASH_ALL : Z := 1.
Definition SIGHASH_NONE : Z := 2.
Definition SIGHASH_SINGLE : Z := 3.
Definition SIGHASH_ANYONECANPAY : Z := 0x80.

Definition SCRIPT_VERIFY_NONE : Z := 0.
Definition SCRIPT_VERIFY_P2SH : Z := 2 ^ 0.
Definition SCRIPT_VERIFY_STRICTENC : Z := 2 ^ 1.
Definition SCRIPT_VERIFY_DERSIG : Z := 2 ^ 2.
Definition SCRIPT_VERIFY_LOW_S : Z := 2 ^ 3.
Definition SCRIPT_VERIFY_NULLDUMMY : Z := 2 ^ 4.
Definition SCRIPT_VERIFY_SIGPUSHONLY : Z := 2 ^ 5.
Definition SCRIPT_VERIFY_MINIMALDATA : Z := 2 ^ 6.
Definition SCRIPT_VERIFY_DISCOURAGE_UPGRADABLE_NOPS : Z := 2 ^ 7.
Definition SCRIPT_VERIFY_CLEANSTACK : Z := 2 ^ 8.
Definition SCRIPT_VERIFY_CHECKLOCKTIMEVERIFY : Z := 2 ^ 9.
Definition SCRIPT_VERIFY_CHECKSEQUENCEVERIFY : Z := 2 ^ 10.
Definition SCRIPT_VERIFY_NULLFAIL : Z := 2 ^ 14.
Definition SCRIPT_ENABLE_DIP0020_OPCODES : Z := 2 ^ 15.

(** [(flags & f) != 0] *)
Definition flag (flags f : Z) : bool := negb ((flags &&& f) =? 0).

(** ** Outcomes *)

Inductive outcome (A : Type) := Done (a : A) | Fail (e : ScriptError) | Abort.
Arguments Done {A} _.
Arguments Fail {A} _.
Arguments Abort {A}.

#[export] Instance outcome_ret : MRet outcome := @Done.
#[export] Instance outcome_bind : MBind outcome := λ A B f m,
  match m with Done a => f a | Fail e => Fail e | Abort => Abort end.

(** [if (!b) return set_error(serror, e)] *)
Definition require (b : bool) (e : ScriptError) : outcome unit := if b then Done tt else Fail e.
(** an exception that reaches the handler of [EvalScript] *)
Definition caught {A} (r : result A) : outcome A := match r with Ok a => Done a | Throw _ => Fail SCRIPT_ERR_UNKNOWN_ERROR end.
Definition asserted {A} (r : option A) : outcome A := match r with Some a => Done a | None => Abort end.

Definition vchFalse : valtype := [].
Definition vchTrue : valtype := [1].
Definition of_bool (b : bool) : valtype := if b then vchTrue else vchFalse.

Fixpoint CastToBool (vch : valtype) : bool :=
  match vch with
  | [] => false
  | x :: vch =>
      if negb (x =? 0) then negb ((length vch =? 0)%nat && (x =? 0x80))
      else CastToBool vch
  end.

(** ** Encodings of keys and signatures *)

Definition at_ (v : valtype) (i : Z) : Z := default 0 (v !! Z.to_nat i).

Definition IsCompressedOrUncompressedPubKey (vchPubKey : valtype) : bool :=
  if length vchPubKey <? 33 then false
  else if at_ vchPubKey 0 =? 0x04 then Z.of_nat (length vchPubKey) =? 65
  else if (at_ vchPubKey 0 =? 0x02) || (at_ vchPubKey 0 =? 0x03) then Z.of_nat (length vchPubKey) =? 33
  else false.

Definition IsValidSignatureEncoding (sig : valtype) : bool :=
  if length sig <? 9 then false
  else if 73 <? length sig then false
  else if negb (at_ sig 0 =? 0x30) then false
  else if negb (at_ sig 1 =? length sig - 3) then false
  else
    let lenR := at_ sig 3 in
    if length sig <=? 5 + lenR then false
    else
      let lenS := at_ sig (5 + lenR) in
      if negb (lenR + lenS + 7 =? length sig) then false
      else if negb (at_ sig 2 =? 0x02) then false
      else if lenR =? 0 then false
      else if negb ((at_ sig 4 &&& 0x80) =? 0) then false
      else if (1 <? lenR) && (at_ sig 4 =? 0x00) && ((at_ sig 5 &&& 0x80) =? 0) then false
      else if negb (at_ sig (lenR + 4) =? 0x02) then false
      else if lenS =? 0 then false
      else if negb ((at_ sig (lenR + 6) &&& 0x80) =? 0) then false
      else if (1 <? lenS) && (at_ sig (lenR + 6) =? 0x00) && ((at_ sig (lenR + 7) &&& 0x80) =? 0) then false
      else true.

Definition IsDefinedHashtypeSignature (vchSig : valtype) : bool :=
  if (length vchSig =? 0)%nat then false
  else
    let nHashType := u8 (at_ vchSig (length vchSig - 1) &&& Z.lnot SIGHASH_ANYONECANPAY) in
    negb ((nHashType <? SIGHASH_ALL) || (SIGHASH_SINGLE <? nHashType)).

(** [BaseSignatureChecker]: what the interpreter asks about the transaction; and
    [CPubKey::CheckLowS], which is asked of the key library. *)
Record BaseSignatureChecker := mkChecker {
  VerifySignature : valtype -> PubKey.CPubKey -> list Z (* hash *) -> bool;
  CheckSig : valtype -> valtype -> script -> bool;
  CheckLockTime : Z -> bool;
  CheckSequence : Z -> bool;
}.
Class LowS := { CheckLowS : valtype -> bool }.

Section signatures.
Context `{LowS}.

Definition IsLowDERSignature (vchSig : valtype) : outcome unit :=
  _ ← require (IsValidSignatureEncoding vchSig) SCRIPT_ERR_SIG_DER;
  require (CheckLowS (take (length vchSig - 1) vchSig)) SCRIPT_ERR_SIG_HIGH_S.

Definition CheckSignatureEncoding (vchSig : valtype) (flags : Z) : outcome unit :=
  if (length vchSig =? 0)%nat then Done tt
  else if flag flags (SCRIPT_VERIFY_DERSIG ||| SCRIPT_VERIFY_LOW_S ||| SCRIPT_VERIFY_STRICTENC) && negb (IsValidSignatureEncoding vchSig)
  then Fail SCRIPT_ERR_SIG_DER
  else
    _ ← (if flag flags SCRIPT_VERIFY_LOW_S then IsLowDERSignature vchSig else Done tt);
    if flag flags SCRIPT_VERIFY_STRICTENC && negb (IsDefinedHashtypeSignature vchSig) then Fail SCRIPT_ERR_SIG_HASHTYPE
    else Done tt.

Definition CheckPubKeyEncoding (vchPubKey : valtype) (flags : Z) : outcome unit :=
  if flag flags SCRIPT_VERIFY_STRICTENC && negb (IsCompressedOrUncompressedPubKey vchPubKey) then Fail SCRIPT_ERR_PUBKEYTYPE
  else Done tt.
End signatures.

(** [None]: the assertion on the opcode fails *)
Definition CheckMinimalPush (data : valtype) (opcode : Z) : option bool :=
  if negb ((0 <=? opcode) && (opcode <=? OP_PUSHDATA4)) then None
  else Some (
    if (length data =? 0)%nat then opcode =? OP_0
    else if (length data =? 1)%nat && (1 <=? at_ data 0) && (at_ data 0 <=? 16) then false
    else if (length data =? 1)%nat && (at_ data 0 =? 0x81) then false
    else if length data <=? 75 then opcode =? length data
    else if length data <=? 255 then opcode =? OP_PUSHDATA1
    else if length data <=? 65535 then opcode =? OP_PUSHDATA2
    else true).

(** ** FindAndDelete *)

(** the inner loop: occurrences of [b] at [pc] are skipped; [b] is not empty, so the length of [pc]
    is enough fuel *)
Fixpoint skip_all (fuel : nat) (b pc : script) (nFound : Z) : script * Z :=
  match fuel with
  | O => (pc, nFound)
  | S fuel =>
      if (length b <=? length pc)%nat && bool_decide (take (length b) pc = b)
      then skip_all fuel b (drop (length b) pc) (nFound + 1) else (pc, nFound)
  end.

(** the outer loop, after at least one operation was read in every round *)
Fixpoint FindAndDelete_loop (fuel : nat) (b result pc2 pc : script) (nFound : Z) : script * script * Z :=
  let result := result ++ take (length pc2 - length pc) pc2 in
  let '(pc, nFound) := skip_all (length pc) b pc nFound in
  match fuel with
  | O => (result, pc, nFound)
  | S fuel =>
      let '(ok, pc', _, _) := Script.GetOp pc in
      if ok then FindAndDelete_loop fuel b result pc pc' nFound else (result, pc, nFound)
  end.

(** the number found and the script that is left *)
Definition FindAndDelete (s b : script) : Z * script :=
  if (length b =? 0)%nat then (0, s)
  else
    let '(result, pc2, nFound) := FindAndDelete_loop (length s) b [] s s 0 in
    if 0 <? nFound then (nFound, result ++ pc2) else (nFound, s).

(** the element that [CScriptNum(n).getvch()] pushes *)
Definition vch_of (n : Z) : outcome valtype := asserted (ScriptNum.getvch n).

(** ** Groups of operations on the stack

    Each returns [None] for an opcode of another group. *)

Definition stack_op (fRequireMinimal : bool) (opcode : Z) (s : list valtype) : option (outcome (list valtype)) :=
  let invalid := Some (Fail SCRIPT_ERR_INVALID_STACK_OPERATION) in
  if opcode =? OP_2DROP then match s with _ :: _ :: s => Some (Done s) | _ => invalid end
  else if opcode =? OP_2DUP then match s with x2 :: x1 :: s => Some (Done (x2 :: x1 :: x2 :: x1 :: s)) | _ => invalid end
  else if opcode =? OP_3DUP then
    match s with x3 :: x2 :: x1 :: s => Some (Done (x3 :: x2 :: x1 :: x3 :: x2 :: x1 :: s)) | _ => invalid end
  else if opcode =? OP_2OVER then
    match s with x4 :: x3 :: x2 :: x1 :: s => Some (Done (x2 :: x1 :: x4 :: x3 :: x2 :: x1 :: s)) | _ => invalid end
  else if opcode =? OP_2ROT then
    match s with
    | x6 :: x5 :: x4 :: x3 :: x2 :: x1 :: s => Some (Done (x2 :: x1 :: x6 :: x5 :: x4 :: x3 :: s))
    | _ => invalid
    end
  else if opcode =? OP_2SWAP then
    match s with x4 :: x3 :: x2 :: x1 :: s => Some (Done (x2 :: x1 :: x4 :: x3 :: s)) | _ => invalid end
  else if opcode =? OP_IFDUP then
    match s with vch :: s => Some (Done (if CastToBool vch then vch :: vch :: s else vch :: s)) | _ => invalid end
  else if opcode =? OP_DEPTH then Some (vch ← vch_of (length s); Done (vch :: s))
  else if opcode =? OP_DROP then match s with _ :: s => Some (Done s) | _ => invalid end
  else if opcode =? OP_DUP then match s with vch :: s => Some (Done (vch :: vch :: s)) | _ => invalid end
  else if opcode =? OP_NIP then match s with x2 :: _ :: s => Some (Done (x2 :: s)) | _ => invalid end
  else if opcode =? OP_OVER then match s with x2 :: x1 :: s => Some (Done (x1 :: x2 :: x1 :: s)) | _ => invalid end
  else if (opcode =? OP_PICK) || (opcode =? OP_ROLL) then
    match s with
    | x :: s =>
        if (length s <? 1)%nat then invalid
        else Some (
          bn ← caught (ScriptNum.of_vch x fRequireMinimal ScriptNum.nDefaultMaxNumSize);
          let n := ScriptNum.getint bn in
          if (n <? 0) || (length s <=? n) then Fail SCRIPT_ERR_INVALID_STACK_OPERATION
          else match s !! Z.to_nat n with
               | None => Fail SCRIPT_ERR_UNKNOWN_ERROR
               | Some vch => Done (vch :: (if opcode =? OP_ROLL then delete (Z.to_nat n) s else s))
               end)
    | _ => invalid
    end
  else if opcode =? OP_ROT then match s with x3 :: x2 :: x1 :: s => Some (Done (x1 :: x3 :: x2 :: s)) | _ => invalid end
  else if opcode =? OP_SWAP then match s with x2 :: x1 :: s => Some (Done (x1 :: x2 :: s)) | _ => invalid end
  else if opcode =? OP_TUCK then match s with x2 :: x1 :: s => Some (Done (x2 :: x1 :: x2 :: s)) | _ => invalid end
  else if opcode =? OP_SIZE then match s with x :: s => Some (vch ← vch_of (length x); Done (vch :: x :: s)) | _ => invalid end
  else None.

Definition logic_op (opcode : Z) (s : list valtype) : option (outcome (list valtype)) :=
  let invalid := Some (Fail SCRIPT_ERR_INVALID_STACK_OPERATION) in
  if (opcode =? OP_EQUAL) || (opcode =? OP_EQUALVERIFY) then
    match s with
    | vch2 :: vch1 :: s =>
        let fEqual := bool_decide (vch1 = vch2) in
        Some (if opcode =? OP_EQUALVERIFY then (if fEqual then Done s else Fail SCRIPT_ERR_EQUALVERIFY)
              else Done (of_bool fEqual :: s))
    | _ => invalid
    end
  else if (opcode =? OP_AND) || (opcode =? OP_OR) || (opcode =? OP_XOR) then
    match s with
    | vch2 :: vch1 :: s =>
        Some (if negb (length vch1 =? length vch2)%nat then Fail SCRIPT_ERR_INVALID_OPERAND_SIZE
              else
                let f := if opcode =? OP_AND then Z.land else if opcode =? OP_OR then Z.lor else Z.lxor in
                Done (zip_with f vch1 vch2 :: s))
    | _ => invalid
    end
  else None.

(** a number whose computation asserts that it does not overflow *)
Definition unary (opcode bn : Z) : outcome Z :=
  if opcode =? OP_1ADD then asserted (ScriptNum.add_assign bn 1)
  else if opcode =? OP_1SUB then asserted (ScriptNum.sub_assign bn 1)
  else if opcode =? OP_NEGATE then asserted (ScriptNum.opp bn)
  else if opcode =? OP_ABS then (if bn <? 0 then asserted (ScriptNum.opp bn) else Done bn)
  else if opcode =? OP_NOT then Done (if bn =? 0 then 1 else 0)
  else if opcode =? OP_0NOTEQUAL then Done (if bn =? 0 then 0 else 1)
  else Abort.

Definition Z_of_bool (b : bool) : Z := if b then 1 else 0.

Definition binary (opcode bn1 bn2 : Z) : outcome Z :=
  if opcode =? OP_ADD then asserted (ScriptNum.add bn1 bn2)
  else if opcode =? OP_SUB then asserted (ScriptNum.sub bn1 bn2)
  else if opcode =? OP_DIV then (if bn2 =? 0 then Fail SCRIPT_ERR_DIV_BY_ZERO else asserted (ScriptNum.div bn1 bn2))
  else if opcode =? OP_MOD then (if bn2 =? 0 then Fail SCRIPT_ERR_MOD_BY_ZERO else asserted (ScriptNum.rem bn1 bn2))
  else if opcode =? OP_BOOLAND then Done (Z_of_bool (negb (bn1 =? 0) && negb (bn2 =? 0)))
  else if opcode =? OP_BOOLOR then Done (Z_of_bool (negb (bn1 =? 0) || negb (bn2 =? 0)))
  else if opcode =? OP_NUMEQUAL then Done (Z_of_bool (bn1 =? bn2))
  else if opcode =? OP_NUMEQUALVERIFY then Done (Z_of_bool (bn1 =? bn2))
  else if opcode =? OP_NUMNOTEQUAL then Done (Z_of_bool (negb (bn1 =? bn2)))
  else if opcode =? OP_LESSTHAN then Done (Z_of_bool (bn1 <? bn2))
  else if opcode =? OP_GREATERTHAN then Done (Z_of_bool (bn2 <? bn1))
  else if opcode =? OP_LESSTHANOREQUAL then Done (Z_of_bool (bn1 <=? bn2))
  else if opcode =? OP_GREATERTHANOREQUAL then Done (Z_of_bool (bn2 <=? bn1))
  else if opcode =? OP_MIN then Done (if bn1 <? bn2 then bn1 else bn2)
  else if opcode =? OP_MAX then Done (if bn2 <? bn1 then bn1 else bn2)
  else Abort.

Definition is_unary (opcode : Z) : bool :=
  (opcode =? OP_1ADD) || (opcode =? OP_1SUB) || (opcode =? OP_NEGATE) || (opcode =? OP_ABS) || (opcode =? OP_NOT) || (opcode =? OP_0NOTEQUAL).
Definition is_binary (opcode : Z) : bool :=
  (opcode =? OP_ADD) || (opcode =? OP_SUB) || (opcode =? OP_DIV) || (opcode =? OP_MOD) || (opcode =? OP_BOOLAND) || (opcode =? OP_BOOLOR)
  || (opcode =? OP_NUMEQUAL) || (opcode =? OP_NUMEQUALVERIFY) || (opcode =? OP_NUMNOTEQUAL) || (opcode =? OP_LESSTHAN) || (opcode =? OP_GREATERTHAN)
  || (opcode =? OP_LESSTHANOREQUAL) || (opcode =? OP_GREATERTHANOREQUAL) || (opcode =? OP_MIN) || (opcode =? OP_MAX).

Definition num_op (fRequireMinimal : bool) (opcode : Z) (s : list valtype) : option (outcome (list valtype)) :=
  let invalid := Some (Fail SCRIPT_ERR_INVALID_STACK_OPERATION) in
  let number (vch : valtype) := caught (ScriptNum.of_vch vch fRequireMinimal ScriptNum.nDefaultMaxNumSize) in
  if is_unary opcode then
    match s with
    | x :: s => Some (bn ← number x; bn ← unary opcode bn; vch ← vch_of bn; Done (vch :: s))
    | _ => invalid
    end
  else if is_binary opcode then
    match s with
    | x2 :: x1 :: s => Some (
        bn1 ← number x1; bn2 ← number x2; bn ← binary opcode bn1 bn2; vch ← vch_of bn;
        if opcode =? OP_NUMEQUALVERIFY
        then (if CastToBool vch then Done s else Fail SCRIPT_ERR_NUMEQUALVERIFY)
        else Done (vch :: s))
    | _ => invalid
    end
  else if opcode =? OP_WITHIN then
    match s with
    | x3 :: x2 :: x1 :: s => Some (
        bn1 ← number x1; bn2 ← number x2; bn3 ← number x3;
        Done (of_bool ((bn2 <=? bn1) && (bn1 <? bn3)) :: s))
    | _ => invalid
    end
  else None.

Section interpreter.
Context (D : Sha256.dispatch) `{HD : !GoodDispatch D} `{HLow : LowS} (checker : BaseSignatureChecker).

Definition sha256_of (vch : valtype) : list Z := (Sha256.Finalize D (Sha256.Write D (Sha256.new (replicate 64 0)) vch)).1.

Definition hash_op (opcode : Z) (s : list valtype) : option (outcome (list valtype)) :=
  if (opcode =? OP_RIPEMD160) || (opcode =? OP_SHA1) || (opcode =? OP_SHA256) || (opcode =? OP_HASH160) || (opcode =? OP_HASH256) then
    match s with
    | vch :: s =>
        let vchHash :=
          if opcode =? OP_RIPEMD160 then (Ripemd160.Finalize (Ripemd160.Write (Ripemd160.new (replicate 64 0)) vch)).1
          else if opcode =? OP_SHA1 then (Sha1.Finalize (Sha1.Write (Sha1.new (replicate 64 0)) vch)).1
          else if opcode =? OP_SHA256 then sha256_of vch
          else if opcode =? OP_HASH160 then (CHash160_Finalize D (CHash160_Write D CHash160_new vch)).1
          else (CHash256_Finalize D (CHash256_Write D CHash256_new vch)).1 in
        Some (Done (vchHash :: s))
    | _ => Some (Fail SCRIPT_ERR_INVALID_STACK_OPERATION)
    end
  else None.

(** the last steps of OP_NUM2BIN: pad [rawnum] to [size] bytes *)
Definition pad_number (rawnum : valtype) (size : Z) : valtype :=
  let '(signbit, rawnum) :=
    if (0 <? length rawnum)%nat
    then (ScriptNum.back rawnum &&& 0x80, ScriptNum.set_back rawnum (ScriptNum.back rawnum &&& 0x7f))
    else (0, rawnum) in
  rawnum ++ replicate (Z.to_nat (size - 1) - length rawnum) 0 ++ [signbit].

Definition splice_op (fRequireMinimal : bool) (opcode : Z) (s : list valtype) : option (outcome (list valtype)) :=
  let invalid := Some (Fail SCRIPT_ERR_INVALID_STACK_OPERATION) in
  let number (vch : valtype) := caught (ScriptNum.of_vch vch fRequireMinimal ScriptNum.nDefaultMaxNumSize) in
  if opcode =? OP_CAT then
    match s with
    | vch2 :: vch1 :: s => Some (
        if MAX_SCRIPT_ELEMENT_SIZE <? length vch1 + length vch2 then Fail SCRIPT_ERR_PUSH_SIZE
        else Done ((vch1 ++ vch2) :: s))
    | _ => invalid
    end
  else if opcode =? OP_SPLIT then
    match s with
    | x :: vch :: s => Some (
        bn ← number x;
        let nPosition := ScriptNum.getint bn in
        if (nPosition <? 0) || (length vch <? nPosition) then Fail SCRIPT_ERR_INVALID_SPLIT_RANGE
        else if nPosition =? 0 then Done (vch :: [] :: s)
        else if nPosition =? length vch then Done ([] :: vch :: s)
        else Done (drop (Z.to_nat nPosition) vch :: take (Z.to_nat nPosition) vch :: s))
    | _ => invalid
    end
  else if opcode =? OP_NUM2BIN then
    match s with
    | x :: rawnum :: s => Some (
        bn ← number x;
        let size := u64 (ScriptNum.getint bn) in
        if MAX_SCRIPT_ELEMENT_SIZE <? size then Fail SCRIPT_ERR_PUSH_SIZE
        else
          let rawnum := (ScriptNum.MinimallyEncode rawnum).2 in
          if size <? length rawnum then Fail SCRIPT_ERR_IMPOSSIBLE_ENCODING
          else if Z.of_nat (length rawnum) =? size then Done (rawnum :: s)
          else Done (pad_number rawnum size :: s))
    | _ => invalid
    end
  else if opcode =? OP_BIN2NUM then
    match s with
    | n :: s => Some (
        let n := (ScriptNum.MinimallyEncode n).2 in
        if negb (ScriptNum.IsMinimallyEncoded n ScriptNum.nDefaultMaxNumSize) then Fail SCRIPT_ERR_INVALID_NUMBER_RANGE
        else Done (n :: s))
    | _ => invalid
    end
  else None.

(** ** Signature checks *)

(** [CheckSignatureEncoding(...) || CheckPubKeyEncoding(...)], and the error of the first that fails *)
Definition check_encodings (vchSig vchPubKey : valtype) (flags : Z) : outcome unit :=
  _ ← CheckSignatureEncoding vchSig flags; CheckPubKeyEncoding vchPubKey flags.

Definition op_checksig (flags opcode : Z) (pbegincodehash : script) (s : list valtype) : outcome (list valtype) :=
  match s with
  | vchPubKey :: vchSig :: s =>
      let scriptCode := (FindAndDelete pbegincodehash (Script.push_data [] vchSig)).2 in
      _ ← check_encodings vchSig vchPubKey flags;
      let fSuccess := CheckSig checker vchSig vchPubKey scriptCode in
      if negb fSuccess && flag flags SCRIPT_VERIFY_NULLFAIL && negb (length vchSig =? 0)%nat then Fail SCRIPT_ERR_SIG_NULLFAIL
      else if opcode =? OP_CHECKSIGVERIFY then (if fSuccess then Done s else Fail SCRIPT_ERR_CHECKSIGVERIFY)
      else Done (of_bool fSuccess :: s)
  | _ => Fail SCRIPT_ERR_INVALID_STACK_OPERATION
  end.

Definition op_checkdatasig (flags opcode : Z) (s : list valtype) : outcome (list valtype) :=
  match s with
  | vchPubKey :: vchMessage :: vchSig :: s =>
      _ ← check_encodings vchSig vchPubKey flags;
      let fSuccess :=
        if negb (length vchSig =? 0)%nat then VerifySignature checker vchSig (PubKey.of_bytes vchPubKey) (sha256_of vchMessage) else false in
      if negb fSuccess && flag flags SCRIPT_VERIFY_NULLFAIL && negb (length vchSig =? 0)%nat then Fail SCRIPT_ERR_SIG_NULLFAIL
      else if opcode =? OP_CHECKDATASIGVERIFY then (if fSuccess then Done s else Fail SCRIPT_ERR_CHECKDATASIGVERIFY)
      else Done (of_bool fSuccess :: s)
  | _ => Fail SCRIPT_ERR_INVALID_STACK_OPERATION
  end.

(** [stacktop(-i)] *)
Definition stacktop (s : list valtype) (i : Z) : outcome valtype :=
  match s !! (Z.to_nat i - 1)%nat with Some x => Done x | None => Fail SCRIPT_ERR_UNKNOWN_ERROR end.

(** the signatures are dropped from the script, the one on top first *)
Fixpoint drop_signatures (k : nat) (isig : Z) (s : list valtype) (scriptCode : script) : outcome script :=
  match k with
  | O => Done scriptCode
  | S k =>
      vchSig ← stacktop s isig;
      drop_signatures k (isig + 1) s (FindAndDelete scriptCode (Script.push_data [] vchSig)).2
  end.

(** the loop over signatures and keys; a key is used up in every round, so one more round than
    there are keys is enough *)
Fixpoint multisig_loop (fuel : nat) (flags : Z) (s : list valtype) (scriptCode : script) (isig ikey nSigsCount nKeysCount : Z) : outcome bool :=
  if 0 <? nSigsCount then
    match fuel with
    | O => Abort
    | S fuel =>
        vchSig ← stacktop s isig;
        vchPubKey ← stacktop s ikey;
        _ ← check_encodings vchSig vchPubKey flags;
        let fOk := CheckSig checker vchSig vchPubKey scriptCode in
        let isig := if fOk then isig + 1 else isig in
        let nSigsCount := if fOk then nSigsCount - 1 else nSigsCount in
        let ikey := ikey + 1 in
        let nKeysCount := nKeysCount - 1 in
        if nKeysCount <? nSigsCount then Done false
        else multisig_loop fuel flags s scriptCode isig ikey nSigsCount nKeysCount
    end
  else Done true.

(** the arguments are removed; [k] of them, the first [ikey2] of which are not signatures *)
Fixpoint multisig_cleanup (k : nat) (check : bool) (ikey2 : Z) (s : list valtype) : outcome (list valtype) :=
  match k with
  | O => Done s
  | S k =>
      match s with
      | [] => Fail SCRIPT_ERR_UNKNOWN_ERROR
      | x :: s =>
          if check && (ikey2 =? 0) && negb (length x =? 0)%nat then Fail SCRIPT_ERR_SIG_NULLFAIL
          else multisig_cleanup k check (if 0 <? ikey2 then ikey2 - 1 else ikey2) s
      end
  end.

(** the new stack and operation count *)
Definition op_checkmultisig (flags opcode : Z) (pbegincodehash : script) (nOpCount : Z) (s : list valtype) : outcome (list valtype * Z) :=
  let number (vch : valtype) := caught (ScriptNum.of_vch vch (flag flags SCRIPT_VERIFY_MINIMALDATA) ScriptNum.nDefaultMaxNumSize) in
  let i := 1 in
  if length s <? i then Fail SCRIPT_ERR_INVALID_STACK_OPERATION
  else
    x ← stacktop s i; bn ← number x;
    let nKeysCount := ScriptNum.getint bn in
    if (nKeysCount <? 0) || (MAX_PUBKEYS_PER_MULTISIG <? nKeysCount) then Fail SCRIPT_ERR_PUBKEY_COUNT
    else
      let nOpCount := nOpCount + nKeysCount in
      if MAX_OPS_PER_SCRIPT <? nOpCount then Fail SCRIPT_ERR_OP_COUNT
      else
        let i := i + 1 in
        let ikey := i in
        let ikey2 := nKeysCount + 2 in
        let i := i + nKeysCount in
        if length s <? i then Fail SCRIPT_ERR_INVALID_STACK_OPERATION
        else
          x ← stacktop s i; bn ← number x;
          let nSigsCount := ScriptNum.getint bn in
          if (nSigsCount <? 0) || (nKeysCount <? nSigsCount) then Fail SCRIPT_ERR_SIG_COUNT
          else
            let i := i + 1 in
            let isig := i in
            let i := i + nSigsCount in
            if length s <? i then Fail SCRIPT_ERR_INVALID_STACK_OPERATION
            else
              scriptCode ← drop_signatures (Z.to_nat nSigsCount) isig s pbegincodehash;
              fSuccess ← multisig_loop (Z.to_nat nKeysCount + 1) flags s scriptCode isig ikey nSigsCount nKeysCount;
              s ← multisig_cleanup (Z.to_nat (i - 1)) (negb fSuccess && flag flags SCRIPT_VERIFY_NULLFAIL) ikey2 s;
              match s with
              | [] => Fail SCRIPT_ERR_INVALID_STACK_OPERATION
              | dummy :: s =>
                  if flag flags SCRIPT_VERIFY_NULLDUMMY && negb (length dummy =? 0)%nat then Fail SCRIPT_ERR_SIG_NULLDUMMY
                  else if opcode =? OP_CHECKMULTISIGVERIFY
                  then (if (fSuccess : bool) then Done (s, nOpCount) else Fail SCRIPT_ERR_CHECKMULTISIGVERIFY)
                  else Done (of_bool fSuccess :: s, nOpCount)
              end.

(** ** The machine *)

Record machine := mkMachine {
  stack : list valtype;
  altstack : list valtype;
  vfExec : list bool;          (* innermost first *)
  pbegincodehash : script;
  nOpCount : Z;
}.
Definition set_stack (m : machine) (s : list valtype) : machine := mkMachine s (altstack m) (vfExec m) (pbegincodehash m) (nOpCount m).

(** OP_CHECKLOCKTIMEVERIFY and OP_CHECKSEQUENCEVERIFY leave the stack as it is *)
Definition op_locktime (flags : Z) (s : list valtype) : outcome unit :=
  if negb (flag flags SCRIPT_VERIFY_CHECKLOCKTIMEVERIFY) then Done tt
  else match s with
       | [] => Fail SCRIPT_ERR_INVALID_STACK_OPERATION
       | x :: _ =>
           nLockTime ← caught (ScriptNum.of_vch x (flag flags SCRIPT_VERIFY_MINIMALDATA) 5);
           if nLockTime <? 0 then Fail SCRIPT_ERR_NEGATIVE_LOCKTIME
           else require (CheckLockTime checker nLockTime) SCRIPT_ERR_UNSATISFIED_LOCKTIME
       end.
Definition op_sequence (flags : Z) (s : list valtype) : outcome unit :=
  if negb (flag flags SCRIPT_VERIFY_CHECKSEQUENCEVERIFY) then Done tt
  else match s with
       | [] => Fail SCRIPT_ERR_INVALID_STACK_OPERATION
       | x :: _ =>
           nSequence ← caught (ScriptNum.of_vch x (flag flags SCRIPT_VERIFY_MINIMALDATA) 5);
           if nSequence <? 0 then Fail SCRIPT_ERR_NEGATIVE_LOCKTIME
           else if negb ((ScriptNum.and nSequence SEQUENCE_LOCKTIME_DISABLE_FLAG) =? 0) then Done tt
           else require (CheckSequence checker nSequence) SCRIPT_ERR_UNSATISFIED_LOCKTIME
       end.

(** constants, control flow and what else needs more than the stack; [pc] is the iterator after
    the operation *)
Definition control_op (flags : Z) (fExec : bool) (opcode : Z) (pc : script) (m : machine) : option (outcome machine) :=
  let s := stack m in
  if (opcode =? OP_1NEGATE) || ((OP_1 <=? opcode) && (opcode <=? OP_16)) then
    Some (vch ← vch_of (opcode - (OP_1 - 1)); Done (set_stack m (vch :: s)))
  else if opcode =? OP_NOP then Some (Done m)
  else if opcode =? OP_CHECKLOCKTIMEVERIFY then Some (_ ← op_locktime flags s; Done m)
  else if opcode =? OP_CHECKSEQUENCEVERIFY then Some (_ ← op_sequence flags s; Done m)
  else if (opcode =? OP_NOP1) || ((OP_NOP4 <=? opcode) && (opcode <=? OP_NOP10)) then
    Some (if flag flags SCRIPT_VERIFY_DISCOURAGE_UPGRADABLE_NOPS then Fail SCRIPT_ERR_DISCOURAGE_UPGRADABLE_NOPS else Done m)
  else if (opcode =? OP_IF) || (opcode =? OP_NOTIF) then Some (
    if fExec then
      match s with
      | [] => Fail SCRIPT_ERR_UNBALANCED_CONDITIONAL
      | vch :: s =>
          let fValue := CastToBool vch in
          let fValue := if opcode =? OP_NOTIF then negb fValue else fValue in
          Done (mkMachine s (altstack m) (fValue :: vfExec m) (pbegincodehash m) (nOpCount m))
      end
    else Done (mkMachine s (altstack m) (false :: vfExec m) (pbegincodehash m) (nOpCount m)))
  else if opcode =? OP_ELSE then Some (
    match vfExec m with
    | [] => Fail SCRIPT_ERR_UNBALANCED_CONDITIONAL
    | b :: v => Done (mkMachine s (altstack m) (negb b :: v) (pbegincodehash m) (nOpCount m))
    end)
  else if opcode =? OP_ENDIF then Some (
    match vfExec m with
    | [] => Fail SCRIPT_ERR_UNBALANCED_CONDITIONAL
    | _ :: v => Done (mkMachine s (altstack m) v (pbegincodehash m) (nOpCount m))
    end)
  else if opcode =? OP_VERIFY then Some (
    match s with
    | [] => Fail SCRIPT_ERR_INVALID_STACK_OPERATION
    | x :: s => if CastToBool x then Done (set_stack m s) else Fail SCRIPT_ERR_VERIFY
    end)
  else if opcode =? OP_RETURN then Some (Fail SCRIPT_ERR_OP_RETURN)
  else if opcode =? OP_TOALTSTACK then Some (
    match s with
    | [] => Fail SCRIPT_ERR_INVALID_STACK_OPERATION
    | x :: s => Done (mkMachine s (x :: altstack m) (vfExec m) (pbegincodehash m) (nOpCount m))
    end)
  else if opcode =? OP_FROMALTSTACK then Some (
    match altstack m with
    | [] => Fail SCRIPT_ERR_INVALID_ALTSTACK_OPERATION
    | x :: a => Done (mkMachine (x :: s) a (vfExec m) (pbegincodehash m) (nOpCount m))
    end)
  else if opcode =? OP_CODESEPARATOR then Some (Done (mkMachine s (altstack m) (vfExec m) pc (nOpCount m)))
  else None.

(** The switch. *)
Definition execute (flags : Z) (fExec : bool) (opcode : Z) (pc : script) (m : machine) : outcome machine :=
  let fRequireMinimal := flag flags SCRIPT_VERIFY_MINIMALDATA in
  match control_op flags fExec opcode pc m with
  | Some r => r
  | None =>
      let on_stack (r : outcome (list valtype)) := s ← r; Done (set_stack m s) in
      match stack_op fRequireMinimal opcode (stack m) with
      | Some r => on_stack r
      | None =>
          match logic_op opcode (stack m) with
          | Some r => on_stack r
          | None =>
              match num_op fRequireMinimal opcode (stack m) with
              | Some r => on_stack r
              | None =>
                  match hash_op opcode (stack m) with
                  | Some r => on_stack r
                  | None =>
                      if (opcode =? OP_CHECKSIG) || (opcode =? OP_CHECKSIGVERIFY)
                      then on_stack (op_checksig flags opcode (pbegincodehash m) (stack m))
                      else if (opcode =? OP_CHECKDATASIG) || (opcode =? OP_CHECKDATASIGVERIFY)
                      then on_stack (op_checkdatasig flags opcode (stack m))
                      else if (opcode =? OP_CHECKMULTISIG) || (opcode =? OP_CHECKMULTISIGVERIFY)
                      then
                        '(s, nOpCount) ← op_checkmultisig flags opcode (pbegincodehash m) (nOpCount m) (stack m);
                        Done (mkMachine s (altstack m) (vfExec m) (pbegincodehash m) nOpCount)
                      else
                        match splice_op fRequireMinimal opcode (stack m) with
                        | Some r => on_stack r
                        | None => Fail SCRIPT_ERR_BAD_OPCODE
                        end
                  end
              end
          end
      end
  end.

Definition is_dip0020 (opcode : Z) : bool :=
  (opcode =? OP_CAT) || (opcode =? OP_SPLIT) || (opcode =? OP_AND) || (opcode =? OP_OR) || (opcode =? OP_XOR) || (opcode =? OP_DIV)
  || (opcode =? OP_MOD) || (opcode =? OP_NUM2BIN) || (opcode =? OP_BIN2NUM) || (opcode =? OP_CHECKDATASIG) || (opcode =? OP_CHECKDATASIGVERIFY).
Definition is_disabled (opcode : Z) : bool :=
  (opcode =? OP_INVERT) || (opcode =? OP_2MUL) || (opcode =? OP_2DIV) || (opcode =? OP_MUL) || (opcode =? OP_LSHIFT) || (opcode =? OP_RSHIFT).

(** One round of the loop, after the operation was read. *)
Definition round (flags opcode : Z) (vchPushValue : valtype) (pc : script) (m : machine) : outcome machine :=
  let fExec := forallb id (vfExec m) in
  _ ← require (length vchPushValue <=? MAX_SCRIPT_ELEMENT_SIZE) SCRIPT_ERR_PUSH_SIZE;
  let m := if OP_16 <? opcode
           then mkMachine (stack m) (altstack m) (vfExec m) (pbegincodehash m) (nOpCount m + 1) else m in
  _ ← require (negb ((OP_16 <? opcode) && (MAX_OPS_PER_SCRIPT <? nOpCount m))) SCRIPT_ERR_OP_COUNT;
  _ ← require (negb (negb (flag flags SCRIPT_ENABLE_DIP0020_OPCODES) && is_dip0020 opcode)) SCRIPT_ERR_DISABLED_OPCODE;
  _ ← require (negb (is_disabled opcode)) SCRIPT_ERR_DISABLED_OPCODE;
  m ← (if fExec && (0 <=? opcode) && (opcode <=? OP_PUSHDATA4) then
         minimal ← (if flag flags SCRIPT_VERIFY_MINIMALDATA then asserted (CheckMinimalPush vchPushValue opcode) else Done true);
         _ ← require minimal SCRIPT_ERR_MINIMALDATA;
         Done (set_stack m (vchPushValue :: stack m))
       else if fExec || ((OP_IF <=? opcode) && (opcode <=? OP_ENDIF)) then execute flags fExec opcode pc m
       else Done m);
  _ ← require (length (stack m) + length (altstack m) <=? MAX_STACK_SIZE) SCRIPT_ERR_STACK_SIZE;
  Done m.

(** Every round reads at least one byte, so the length of the script is enough fuel. *)
Fixpoint EvalScript_loop (fuel : nat) (flags : Z) (pc : script) (m : machine) : outcome machine :=
  match pc with
  | [] => Done m
  | _ =>
      match fuel with
      | O => Abort
      | S fuel =>
          let '(ok, pc, opcode, vchPushValue) := Script.GetOp pc in
          _ ← require ok SCRIPT_ERR_BAD_OPCODE;
          m ← round flags opcode vchPushValue pc m;
          EvalScript_loop fuel flags pc m
      end
  end.

(** the stack that is left when the result is true *)
Definition EvalScript (s : list valtype) (scr : script) (flags : Z) : outcome (list valtype) :=
  _ ← require (length scr <=? MAX_SCRIPT_SIZE) SCRIPT_ERR_SCRIPT_SIZE;
  m ← EvalScript_loop (length scr) flags scr (mkMachine s [] [] scr 0);
  _ ← require (match vfExec m with [] => true | _ => false end) SCRIPT_ERR_UNBALANCED_CONDITIONAL;
  Done (stack m).

(** [if (stack.empty()) ...; if (CastToBool(stack.back()) == false) ...] *)
Definition require_true (s : list valtype) : outcome unit :=
  require (match s with [] => false | x :: _ => CastToBool x end) SCRIPT_ERR_EVAL_FALSE.

Definition VerifyScript (scriptSig scriptPubKey : script) (flags : Z) : outcome unit :=
  _ ← require (negb (flag flags SCRIPT_VERIFY_SIGPUSHONLY && negb (Script.IsPushOnly scriptSig))) SCRIPT_ERR_SIG_PUSHONLY;
  stackCopy ← EvalScript [] scriptSig flags;
  s ← EvalScript stackCopy scriptPubKey flags;
  _ ← require_true s;
  s ← (if flag flags SCRIPT_VERIFY_P2SH && Script.IsPayToScriptHash scriptPubKey then
         _ ← require (Script.IsPushOnly scriptSig) SCRIPT_ERR_SIG_PUSHONLY;
         match stackCopy with
         | [] => Abort
         | pubKeySerialized :: stackCopy =>
             s ← EvalScript stackCopy pubKeySerialized flags;
             _ ← require_true s;
             Done s
         end
       else Done s);
  if flag flags SCRIPT_VERIFY_CLEANSTACK then
    if negb (flag flags SCRIPT_VERIFY_P2SH) then Abort
    else require (length s =? 1)%nat SCRIPT_ERR_CLEANSTACK
  else Done tt.
End interpreter.
