(* ===== verification/InterpreterLaws.v ===== *)
(** * Properties of the script interpreter

    Verification flags only restrict; no script makes the interpreter stop the process or leave its
    limits; the standard script that pays to a key hash accepts what it should. *)

From S2P Require Import Prelude Bytes Script ScriptLaws ShaSpec BlockHash Sha256 Sha256Laws Ripemd160 Sha1 Hash MerkleLaws Transaction Compressor Interpreter.

(** ** Flags only restrict *)

(** the second computation succeeds, with the same result, whenever the first does *)
Definition le {A} (o o' : outcome A) : Prop := forall a, o = Done a -> o' = Done a.

#[export] Instance le_refl {A} : Reflexive (@le A).
Proof. by intros o a. Qed.

Lemma le_bind {A B} (m m' : outcome A) (f f' : A -> outcome B) :
  le m m' -> (forall a, le (f a) (f' a)) -> le (m ≫= f) (m' ≫= f').
Proof.
  intros Hm Hf b. destruct m as [a|e|]; cbn; [|done..]. intros Hb. rewrite (Hm a eq_refl). cbn. by apply Hf.
Qed.
Lemma le_fail {A} e (o : outcome A) : le (Fail e) o.
Proof. by intros a. Qed.
Lemma le_abort {A} (o : outcome A) : le Abort o.
Proof. by intros a. Qed.

(** a check that is made less often *)
Lemma le_guard {A} (b b' : bool) e e' (k k' : outcome A) :
  (b' = true -> b = true) -> le k k' -> le (if b then Fail e else k) (if b' then Fail e' else k').
Proof. intros Hb Hk a. destruct b; [done|]. destruct b'; [by specialize (Hb eq_refl)|apply Hk]. Qed.
Lemma le_optional {A} (b b' : bool) (k k' k0 : outcome A) :
  (b' = true -> b = true) -> le k k' -> le k k0 -> le k0 k0 -> le (if b then k else k0) (if b' then k' else k0).
Proof. intros Hb Hk Hk0 _ a. destruct b, b'; [apply Hk|apply Hk0|by specialize (Hb eq_refl)|done]. Qed.

(** [F'] is a subset of the flags [F] *)
Definition flags_le (F' F : Z) : Prop := F' &&& F = F'.

Lemma flag_le F' F f : flags_le F' F -> flag F' f = true -> flag F f = true.
Proof.
  unfold flags_le, flag. intros <- H. apply negb_true_iff in H. apply negb_true_iff. apply Z.eqb_neq in H. apply Z.eqb_neq.
  intros E. apply H. by rewrite <- Z.land_assoc, E, Z.land_0_r.
Qed.

Lemma caught_le x (b b' : bool) k : (b' = true -> b = true) -> le (caught (ScriptNum.of_vch x b k)) (caught (ScriptNum.of_vch x b' k)).
Proof.
  intros Hb a. unfold ScriptNum.of_vch. destruct (k <? length x); [done|].
  destruct b, b'; cbn [andb]; try done; [|by specialize (Hb eq_refl)]. by destruct (ScriptNum.IsMinimallyEncoded x k).
Qed.

(** two groups of operations agree on which opcodes are theirs *)
Definition le_opt {A} (o o' : option (outcome A)) : Prop :=
  match o, o' with Some r, Some r' => le r r' | None, None => True | _, _ => False end.

Lemma le_opt_refl {A} (o : option (outcome A)) : le_opt o o.
Proof. destruct o; cbn; [reflexivity|done]. Qed.

(** *** The steps *)

Lemma stack_op_le (b b' : bool) opcode s : (b' = true -> b = true) -> le_opt (stack_op b opcode s) (stack_op b' opcode s).
Proof.
  intros Hb. unfold stack_op.
  repeat match goal with
  | |- le_opt (if ?c then _ else _) _ => destruct c eqn:?
  | |- le_opt (match ?l with [] => _ | _ => _ end) _ => destruct l as [|? ?]
  end; try apply le_opt_refl.
  all: cbn [le_opt]; apply le_bind; [by apply caught_le|intros; reflexivity].
Qed.

Lemma num_op_le (b b' : bool) opcode s : (b' = true -> b = true) -> le_opt (num_op b opcode s) (num_op b' opcode s).
Proof.
  intros Hb. unfold num_op.
  repeat match goal with
  | |- le_opt (if ?c then _ else _) _ => destruct c eqn:?
  | |- le_opt (match ?l with [] => _ | _ => _ end) _ => destruct l as [|? ?]
  end; try apply le_opt_refl; cbn [le_opt]; repeat (apply le_bind; [by apply caught_le|intros]); reflexivity.
Qed.

Lemma splice_op_le (b b' : bool) opcode s : (b' = true -> b = true) -> le_opt (splice_op b opcode s) (splice_op b' opcode s).
Proof.
  intros Hb. unfold splice_op.
  repeat match goal with
  | |- le_opt (if ?c then _ else _) _ => destruct c eqn:?
  | |- le_opt (match ?l with [] => _ | _ => _ end) _ => destruct l as [|? ?]
  end; try apply le_opt_refl; cbn [le_opt]; (apply le_bind; [by apply caught_le|intros; reflexivity]).
Qed.

Section softfork.
Context (D : Sha256.dispatch) `{HD : !GoodDispatch D} `{HLow : LowS} (checker : BaseSignatureChecker).
Context (F' F : Z) (HF : flags_le F' F).
Context (HDIP : flag F' SCRIPT_ENABLE_DIP0020_OPCODES = flag F SCRIPT_ENABLE_DIP0020_OPCODES).

Let fl f : flag F' f = true -> flag F f = true := flag_le F' F f HF.

Lemma guard_le f (c : bool) : flag F' f && c = true -> flag F f && c = true.
Proof. intros [Hf ->]%andb_prop. by rewrite (fl f Hf). Qed.

Lemma encodings_le sig key : le (check_encodings sig key F) (check_encodings sig key F').
Proof.
  unfold check_encodings. apply le_bind.
  - unfold CheckSignatureEncoding. destruct (length sig =? 0)%nat; [reflexivity|]. apply le_guard; [apply guard_le|].
    apply le_bind; [|intros _; apply le_guard; [apply guard_le|reflexivity]].
    apply le_optional; [apply fl|reflexivity| |reflexivity]. unfold IsLowDERSignature.
    intros a. unfold require. repeat case_match; cbn; try done.
  - intros _. unfold CheckPubKeyEncoding. apply le_guard; [apply guard_le|reflexivity].
Qed.

Lemma nullfail_le (ok : bool) (x : valtype) :
  negb ok && flag F' SCRIPT_VERIFY_NULLFAIL && negb (length x =? 0)%nat = true ->
  negb ok && flag F SCRIPT_VERIFY_NULLFAIL && negb (length x =? 0)%nat = true.
Proof. intros [[-> Hf]%andb_prop ->]%andb_prop. by rewrite (fl _ Hf). Qed.

Lemma op_checksig_le opcode code s : le (op_checksig checker F opcode code s) (op_checksig checker F' opcode code s).
Proof.
  unfold op_checksig. destruct s as [|key [|sig s]]; try reflexivity. apply le_bind; [apply encodings_le|intros _].
  apply le_guard; [apply nullfail_le|reflexivity].
Qed.

Lemma op_checkdatasig_le opcode s : le (op_checkdatasig D checker F opcode s) (op_checkdatasig D checker F' opcode s).
Proof.
  unfold op_checkdatasig. destruct s as [|key [|msg [|sig s]]]; try reflexivity. apply le_bind; [apply encodings_le|intros _].
  apply le_guard; [apply nullfail_le|reflexivity].
Qed.

Lemma multisig_loop_le (fuel : nat) s code isig ikey ns nk :
  le (multisig_loop checker fuel F s code isig ikey ns nk) (multisig_loop checker fuel F' s code isig ikey ns nk).
Proof.
  revert isig ikey ns nk. induction fuel as [|fuel IH]; intros isig ikey ns nk; cbn [multisig_loop]; [reflexivity|].
  destruct (0 <? ns); [|reflexivity]. apply le_bind; [reflexivity|intros sig]. apply le_bind; [reflexivity|intros key].
  apply le_bind; [apply encodings_le|intros _]. destruct (_ <? _); [reflexivity|apply IH].
Qed.

Lemma multisig_cleanup_le (k : nat) (ok : bool) ikey2 s :
  le (multisig_cleanup k (negb ok && flag F SCRIPT_VERIFY_NULLFAIL) ikey2 s) (multisig_cleanup k (negb ok && flag F' SCRIPT_VERIFY_NULLFAIL) ikey2 s).
Proof.
  revert ikey2 s. induction k as [|k IH]; intros ikey2 s; [reflexivity|]. cbn [multisig_cleanup]. destruct s as [|x s]; [reflexivity|].
  apply le_guard; [|apply IH]. intros [[[-> Hf]%andb_prop ->]%andb_prop ->]%andb_prop. by rewrite (fl _ Hf).
Qed.

Lemma op_checkmultisig_le opcode code nOp s :
  le (op_checkmultisig checker F opcode code nOp s) (op_checkmultisig checker F' opcode code nOp s).
Proof.
  unfold op_checkmultisig. destruct (_ <? _); [reflexivity|].
  apply le_bind; [reflexivity|intros x]. apply le_bind; [apply caught_le, fl|intros bn]. cbv zeta.
  destruct (_ || _); [reflexivity|]. destruct (_ <? _); [reflexivity|]. destruct (_ <? _); [reflexivity|].
  apply le_bind; [reflexivity|intros y]. apply le_bind; [apply caught_le, fl|intros bn2].
  destruct (_ || _); [reflexivity|]. destruct (_ <? _); [reflexivity|].
  apply le_bind; [reflexivity|intros sc]. apply le_bind; [apply multisig_loop_le|intros ok].
  apply le_bind; [apply multisig_cleanup_le|intros [|dummy s']]; [reflexivity|]. apply le_guard; [apply guard_le|reflexivity].
Qed.

Lemma op_locktime_le s : le (op_locktime checker F s) (op_locktime checker F' s).
Proof.
  unfold op_locktime. destruct (flag F' SCRIPT_VERIFY_CHECKLOCKTIMEVERIFY) eqn:E.
  - rewrite (fl _ E). cbn [negb]. destruct s as [|x s]; [reflexivity|]. apply le_bind; [apply caught_le, fl|reflexivity].
  - cbn [negb]. intros []. by intros _.
Qed.
Lemma op_sequence_le s : le (op_sequence checker F s) (op_sequence checker F' s).
Proof.
  unfold op_sequence. destruct (flag F' SCRIPT_VERIFY_CHECKSEQUENCEVERIFY) eqn:E.
  - rewrite (fl _ E). cbn [negb]. destruct s as [|x s]; [reflexivity|]. apply le_bind; [apply caught_le, fl|reflexivity].
  - cbn [negb]. intros []. by intros _.
Qed.

Lemma control_op_le fExec opcode pc m : le_opt (control_op checker F fExec opcode pc m) (control_op checker F' fExec opcode pc m).
Proof.
  unfold control_op.
  repeat match goal with |- le_opt (if ?c then _ else _) _ => destruct c eqn:? end; try apply le_opt_refl; cbn [le_opt].
  - apply le_bind; [apply op_locktime_le|reflexivity].
  - apply le_bind; [apply op_sequence_le|reflexivity].
  - apply le_guard; [apply fl|reflexivity].
Qed.

Lemma le_opt_case {A B} (o o' : option (outcome A)) (f f' : outcome A -> outcome B) (k k' : outcome B) :
  le_opt o o' -> (forall r r', le r r' -> le (f r) (f' r')) -> le k k' ->
  le (match o with Some r => f r | None => k end) (match o' with Some r => f' r | None => k' end).
Proof. destruct o, o'; cbn; try done; auto. Qed.

Lemma execute_le fExec opcode pc m : le (execute D checker F fExec opcode pc m) (execute D checker F' fExec opcode pc m).
Proof.
  unfold execute. cbv zeta.
  assert (Hon : forall r r', le r r' -> le (s ← r; Done (set_stack m s)) (s ← r'; Done (set_stack m s)))
    by (intros r r' Hr; by apply le_bind).
  apply le_opt_case; [apply control_op_le|done|]. apply le_opt_case; [apply stack_op_le, fl|done|].
  apply le_opt_case; [apply le_opt_refl|done|]. apply le_opt_case; [apply num_op_le, fl|done|].
  apply le_opt_case; [apply le_opt_refl|done|].
  destruct (_ || _); [apply Hon, op_checksig_le|]. destruct (_ || _); [apply Hon, op_checkdatasig_le|].
  destruct (_ || _); [apply le_bind; [apply op_checkmultisig_le|reflexivity]|].
  apply le_opt_case; [apply splice_op_le, fl|done|reflexivity].
Qed.

Lemma round_le opcode vch pc m : le (round D checker F opcode vch pc m) (round D checker F' opcode vch pc m).
Proof.
  unfold round. rewrite HDIP. do 4 (apply le_bind; [reflexivity|intros _]).
  apply le_bind; [|reflexivity]. destruct (_ && _).
  - destruct (flag F' SCRIPT_VERIFY_MINIMALDATA) eqn:E; [by rewrite (fl _ E)|].
    destruct (flag F SCRIPT_VERIFY_MINIMALDATA); [|reflexivity]. intros r. by destruct (CheckMinimalPush vch opcode) as [[]|].
  - destruct (_ || _); [apply execute_le|reflexivity].
Qed.

Lemma EvalScript_loop_le (fuel : nat) pc m : le (EvalScript_loop D checker fuel F pc m) (EvalScript_loop D checker fuel F' pc m).
Proof.
  revert pc m. induction fuel as [|fuel IH]; intros pc m; cbn [EvalScript_loop]; [reflexivity|]. destruct pc as [|b pc]; [reflexivity|].
  destruct (Script.GetOp (b :: pc)) as [[[ok pc'] opcode] vch]. apply le_bind; [reflexivity|intros _].
  apply le_bind; [apply round_le|intros m'; apply IH].
Qed.

Lemma EvalScript_le s scr : le (EvalScript D checker s scr F) (EvalScript D checker s scr F').
Proof.
  unfold EvalScript. apply le_bind; [reflexivity|intros _]. apply le_bind; [apply EvalScript_loop_le|intros m; reflexivity].
Qed.

Lemma VerifyScript_le sig pub :
  (flag F' SCRIPT_VERIFY_CLEANSTACK = true -> flag F' SCRIPT_VERIFY_P2SH = true) ->
  le (VerifyScript D checker sig pub F) (VerifyScript D checker sig pub F').
Proof.
  intros Hclean. unfold VerifyScript. apply le_bind.
  { unfold require. destruct (Script.IsPushOnly sig); rewrite ?andb_false_r; [reflexivity|]. cbn [negb]. rewrite !andb_true_r.
    intros r. destruct (flag F SCRIPT_VERIFY_SIGPUSHONLY) eqn:E; [done|].
    destruct (flag F' SCRIPT_VERIFY_SIGPUSHONLY) eqn:E'; [by rewrite (fl _ E') in E|done]. }
  intros _. apply le_bind; [apply EvalScript_le|intros cpy]. apply le_bind; [apply EvalScript_le|intros s].
  apply le_bind; [reflexivity|intros _]. destruct (flag F' SCRIPT_VERIFY_P2SH) eqn:Ep.
  - rewrite (fl _ Ep). cbn [negb andb]. apply le_bind.
    + destruct (Script.IsPayToScriptHash pub); [|reflexivity]. apply le_bind; [reflexivity|intros _]. destruct cpy as [|x cpy]; [reflexivity|].
      apply le_bind; [apply EvalScript_le|intros r; reflexivity].
    + intros r. destruct (flag F' SCRIPT_VERIFY_CLEANSTACK) eqn:Ec; [by rewrite (fl _ Ec)|].
      intros []. by intros _.
  - destruct (flag F' SCRIPT_VERIFY_CLEANSTACK) eqn:Ec; [by specialize (Hclean eq_refl)|]. cbn [andb mbind outcome_bind]. intros []. by intros _.
Qed.
End softfork.

(** C8: Verification flags are soft forks: whatever the transaction and the keys, a pair of scripts accepted under a set of
    flags is accepted under every subset of it that has the same SCRIPT_ENABLE_DIP0020_OPCODES bit (and
    does not ask for CLEANSTACK without P2SH); and a script that leaves some stack under the larger
    set leaves the same stack under the smaller one. *)
Theorem flags_are_softforks (D : Sha256.dispatch) `{HD : !GoodDispatch D} `{HLow : LowS} (checker : BaseSignatureChecker) (F' F : Z) :
  F' &&& F = F' -> flag F' SCRIPT_ENABLE_DIP0020_OPCODES = flag F SCRIPT_ENABLE_DIP0020_OPCODES ->
  (forall s scr r, EvalScript D checker s scr F = Done r -> EvalScript D checker s scr F' = Done r) /\
  ((flag F' SCRIPT_VERIFY_CLEANSTACK = true -> flag F' SCRIPT_VERIFY_P2SH = true) ->
   forall sig pub, VerifyScript D checker sig pub F = Done tt -> VerifyScript D checker sig pub F' = Done tt).
Proof.
  intros HF HDIP. split; [intros s scr r; by apply EvalScript_le|]. intros Hc sig pub. by apply VerifyScript_le.
Qed.

(** ** Limits *)

(** a computation that does not abort, and what it returns *)
Definition good {A} (P : A -> Prop) (o : outcome A) : Prop :=
  match o with Done a => P a | Fail _ => True | Abort => False end.

Lemma good_bind {A B} (P : A -> Prop) (Q : B -> Prop) m f : good P m -> (forall a, P a -> good Q (f a)) -> good Q (m ≫= f).
Proof. destruct m; cbn; auto. Qed.
Lemma good_require (b : bool) e : good (λ _, b = true) (require b e).
Proof. by destruct b. Qed.
Lemma good_weaken {A} (P Q : A -> Prop) o : good P o -> (forall a, P a -> Q a) -> good Q o.
Proof. destruct o; cbn; auto. Qed.

(** an element of the stack *)
Definition elem_ok (x : valtype) : Prop := bytes x /\ length x <= MAX_SCRIPT_ELEMENT_SIZE.
Definition good_opt (o : option (outcome (list valtype))) : Prop :=
  match o with Some r => good (Forall elem_ok) r | None => True end.

Lemma vch_of_ok n : in_sint 63 n -> good elem_ok (vch_of n).
Proof.
  intros Hn. unfold in_sint in Hn. change (2 ^ (63 - 1)) with (2 ^ 62) in Hn.
  unfold vch_of, ScriptNum.getvch. rewrite (proj2 (Z.eqb_neq n (- 2 ^ 63))) by lia. cbn [asserted good].
  destruct (serialize_spec n) as (_ & _ & Hb & Hl); [unfold in_sint; change (2 ^ (64 - 1)) with (2 ^ 63); lia|lia|].
  split; [done|]. unfold MAX_SCRIPT_ELEMENT_SIZE. lia.
Qed.
(** pushing a number *)
Lemma push_ok {B} (P : B -> Prop) n (f : valtype -> outcome B) : in_sint 63 n -> (forall x, elem_ok x -> good P (f x)) -> good P (vch ← vch_of n; f vch).
Proof. intros Hn Hf. eapply good_bind; [by apply vch_of_ok|done]. Qed.

Lemma of_bool_ok b : elem_ok (of_bool b).
Proof.
  destruct b; (split; [|cbn; unfold MAX_SCRIPT_ELEMENT_SIZE; lia]); repeat constructor; unfold in_uint; cbn; lia.
Qed.

(** numbers read with the default size *)
Definition num_ok (n : Z) : Prop := Z.abs n < 2 ^ 31.

Lemma number_ok x b : elem_ok x -> good num_ok (caught (ScriptNum.of_vch x b ScriptNum.nDefaultMaxNumSize)).
Proof.
  intros [Hb _]. unfold ScriptNum.of_vch, ScriptNum.nDefaultMaxNumSize. destruct (Z.ltb_spec 4 (length x)) as [Hl|Hl]; [done|].
  destruct (b && _); [done|]. cbn. unfold num_ok. rewrite set_vch_snum by (done || lia).
  destruct (snum_range x Hb) as [Hr|Hnil]; [|subst x; done].
  eapply Z.lt_le_trans; [exact Hr|]. apply Z.pow_le_mono_r; lia.
Qed.

Lemma number_ok5 x b : elem_ok x -> good (λ n, True) (caught (ScriptNum.of_vch x b 5)).
Proof. intros _. unfold ScriptNum.of_vch. by repeat case_match. Qed.

Lemma unary_ok opcode n : is_unary opcode = true -> num_ok n -> good (in_sint 63) (unary opcode n).
Proof.
  unfold is_unary, unary, num_ok, in_sint, ScriptNum.add_assign, ScriptNum.sub_assign, ScriptNum.opp. change (2 ^ (63 - 1)) with (2 ^ 62).
  intros Hop Hn.
  repeat match goal with |- good _ (if ?c then _ else _) => destruct c eqn:?; cbn [asserted good] end;
    try (cbn; lia); try (rewrite !orb_false_r in Hop; congruence).
  all: repeat match goal with |- context [if ?c then _ else _] => destruct c eqn:? end; cbn [asserted good]; try lia.
Qed.

Lemma num_sint n : num_ok n -> in_sint 63 n.
Proof. unfold num_ok, in_sint. change (2 ^ (63 - 1)) with (2 ^ 62). lia. Qed.
Lemma bool_sint b : in_sint 63 (Z_of_bool b).
Proof. by destruct b. Qed.
Lemma checked_ok z : Z.abs z < 2 ^ 40 -> good (in_sint 63) (asserted (ScriptNum.checked z)).
Proof.
  intros Hz. unfold ScriptNum.checked. rewrite (proj2 (Z.leb_le _ _)), (proj2 (Z.ltb_lt _ _)) by lia. cbn.
  unfold in_sint. change (2 ^ (63 - 1)) with (2 ^ 62). lia.
Qed.
Lemma quot_small n1 n2 : num_ok n1 -> n2 <> 0 -> Z.abs (Z.quot n1 n2) < 2 ^ 40.
Proof.
  unfold num_ok. intros H1 H2. assert (Z.abs (Z.quot n1 n2) <= Z.abs n1); [|lia].
  rewrite <- Z.quot_abs by done. apply Z.quot_le_upper_bound; [lia|nia].
Qed.

Lemma rem_ok n1 n2 : num_ok n1 -> num_ok n2 -> n2 <> 0 -> good (in_sint 63) (asserted (ScriptNum.rem n1 n2)).
Proof.
  intros H1 H2 Hn. unfold ScriptNum.rem. rewrite (proj2 (Z.eqb_neq _ _) Hn). pose proof (checked_ok _ (quot_small n1 n2 H1 Hn)) as Hq.
  destruct (ScriptNum.checked _); [|done]. cbn. unfold num_ok in *. pose proof (Z.rem_bound_abs n1 n2 Hn).
  unfold in_sint. change (2 ^ (63 - 1)) with (2 ^ 62). lia.
Qed.

Lemma binary_ok opcode n1 n2 : is_binary opcode = true -> num_ok n1 -> num_ok n2 -> good (in_sint 63) (binary opcode n1 n2).
Proof.
  unfold is_binary, binary. intros Hop H1 H2. pose proof H1 as H1'. pose proof H2 as H2'. unfold num_ok in H1', H2'.
  repeat match goal with |- good _ (if ?c then _ else _) => destruct c eqn:?; cbn [good] end;
    try apply bool_sint; try done; try (rewrite !orb_false_r in Hop; congruence); clear Hop;
    repeat match goal with H : (opcode =? _) = _ |- _ => clear H end.
  - apply checked_ok. lia.
  - apply checked_ok. lia.
  - unfold ScriptNum.div. destruct (Z.eqb_spec n2 0); [done|]. by apply checked_ok, quot_small.
  - apply rem_ok; [done|done|by apply Z.eqb_neq].
  - by destruct (n1 <? n2); apply num_sint.
  - by destruct (n2 <? n1); apply num_sint.
Qed.

(** *** The hash operations *)

Definition opcode_hash (opcode : Z) (m : list Z) : list Z :=
  if opcode =? OP_RIPEMD160 then RmdSpec.hash m
  else if opcode =? OP_SHA1 then Sha1Spec.hash m
  else if opcode =? OP_SHA256 then SHA256 m
  else if opcode =? OP_HASH160 then RmdSpec.hash (SHA256 m)
  else SHA256d m.

Lemma words_ok (f : Z -> list Z) (ws : list Z) :
  (forall x, bytes (f x)) -> (forall x, length (f x) = 4%nat) -> (length ws <= 8)%nat -> elem_ok (concat (f <$> ws)).
Proof.
  intros Hb Hl Hw. split.
  - induction ws as [|w ws IH]; [constructor|]. cbn. apply Forall_app. split; [apply Hb|apply IH; cbn in Hw; lia].
  - unfold MAX_SCRIPT_ELEMENT_SIZE.
    assert (length (concat (f <$> ws)) = (4 * length ws)%nat) as ->; [|lia].
    clear Hw. induction ws as [|w ws IH]; [done|]. cbn. rewrite length_app, Hl. cbn in IH. lia.
Qed.

Lemma opcode_hash_ok opcode m : elem_ok (opcode_hash opcode m).
Proof.
  assert (HS : forall m, elem_ok (SHA256 m))
    by (intros m'; split; [apply SHA256_bytes|rewrite length_SHA256; unfold MAX_SCRIPT_ELEMENT_SIZE; lia]).
  assert (HR : forall m, elem_ok (RmdSpec.hash m)).
  { intros m'. unfold RmdSpec.hash. destruct (fold_blocks _ _ _ _ _) as [[[[? ?] ?] ?] ?].
    apply words_ok; [intros; apply le_bytes_bytes|intros; apply length_le_bytes|cbn; lia]. }
  unfold opcode_hash, SHA256d. repeat case_match; auto.
  unfold Sha1Spec.hash. destruct (fold_blocks _ _ _ _ _) as [[[[? ?] ?] ?] ?].
  apply words_ok; [intros; apply Forall_rev, le_bytes_bytes|intros; rewrite length_rev; apply length_le_bytes|cbn; lia].
Qed.

Section digests.
Context (D : Sha256.dispatch) `{HD : !GoodDispatch D}.

Lemma sha256_of_spec m : length m < 2 ^ 61 -> sha256_of D m = SHA256 m.
Proof.
  intros Hm. unfold sha256_of. apply (hash_of_Finalize (ops:=sha256_ops D)); [|done].
  apply (hash_of_Write (ops:=sha256_ops D) _ []); [by apply (hash_of_new (ops:=sha256_ops D))|simpl; lia].
Qed.

(** the opcodes compute the hash functions they are named after *)
Lemma hash_op_spec opcode x s :
  length x < 2 ^ 61 ->
  hash_op D opcode (x :: s) =
    if (opcode =? OP_RIPEMD160) || (opcode =? OP_SHA1) || (opcode =? OP_SHA256) || (opcode =? OP_HASH160) || (opcode =? OP_HASH256)
    then Some (Done (opcode_hash opcode x :: s)) else None.
Proof.
  intros Hx. unfold hash_op, opcode_hash. destruct (_ || _) eqn:E; [|done]. do 3 f_equal.
  repeat match goal with |- (if ?c then _ else _) = _ => destruct c end.
  - pose proof (CRIPEMD160_correct (replicate 64 0) [x]) as H. cbn [foldl concat] in H. rewrite app_nil_r in H. by apply H.
  - pose proof (CSHA1_correct (replicate 64 0) [x]) as H. cbn [foldl concat] in H. rewrite app_nil_r in H. by apply H.
  - by apply sha256_of_spec.
  - apply (CHash160_Finalize_spec D (HD:=HD)); [|done]. by apply (hash_of_Write (ops:=sha256_ops D) CHash160_new []); [apply hashed_new|simpl; lia].
  - apply (CHash256_Finalize_spec D (HD:=HD)); [|done]. by apply (hash_of_Write (ops:=sha256_ops D) CHash256_new []); [apply hashed_new|simpl; lia].
Qed.

Lemma hash_op_ok opcode s : Forall elem_ok s -> good_opt (hash_op D opcode s).
Proof.
  intros Hs. destruct s as [|x s]; [by unfold hash_op; case_match|]. apply Forall_cons in Hs as [[Hx Hl] Hs].
  rewrite hash_op_spec by (unfold MAX_SCRIPT_ELEMENT_SIZE in Hl; lia).
  destruct (_ || _); [|done]. cbn. constructor; [apply opcode_hash_ok|done].
Qed.
End digests.

(** *** The operations on the stack *)

Create HintDb elems.
#[export] Hint Resolve Forall_cons_2 Forall_nil_2 of_bool_ok : elems.

(** split a stack whose elements are all within the limits *)
Ltac split_stack :=
  repeat match goal with H : Forall elem_ok (_ :: _) |- _ => apply Forall_cons in H as [? H] end.

(** an early return *)
Ltac good_if := match goal with |- good _ (if ?c then _ else _) => destruct c eqn:?; [exact I|] end.

Lemma nil_ok : elem_ok [].
Proof. split; [constructor|cbn; unfold MAX_SCRIPT_ELEMENT_SIZE; lia]. Qed.
Lemma size_sint n : 0 <= n < 2 ^ 32 -> in_sint 63 n.
Proof. unfold in_sint. change (2 ^ (63 - 1)) with (2 ^ 62). lia. Qed.
#[export] Hint Resolve nil_ok : elems.

Lemma stack_op_ok b opcode s : Forall elem_ok s -> length s <= MAX_STACK_SIZE -> good_opt (stack_op b opcode s).
Proof.
  intros Hs Hl. unfold stack_op, MAX_STACK_SIZE in *.
  repeat match goal with
  | |- good_opt (if ?c then _ else _) => destruct c eqn:?
  | |- good_opt (match ?l with [] => _ | _ => _ end) => destruct l as [|? ?]
  end; try exact I; split_stack; cbn [good_opt good]; auto 12 with elems.
  - case_match; auto with elems.
  - apply push_ok; [apply size_sint; lia|]. intros x Hx. cbn. by constructor.
  - eapply good_bind; [by apply number_ok|intros n _]. cbv zeta. good_if.
    destruct (s !! Z.to_nat (ScriptNum.getint n)) as [v|] eqn:Ev; [|exact I]. cbn. constructor.
    + by apply (Forall_lookup_1 _ _ _ _ Hs Ev).
    + case_match; [|done]. by apply Forall_delete.
  - apply push_ok; [apply size_sint; unfold elem_ok, MAX_SCRIPT_ELEMENT_SIZE in *; lia|]. intros x Hx. cbn. auto with elems.
Qed.

Lemma zip_bytes (f : Z -> Z -> Z) u v :
  (forall a b, is_byte a -> is_byte b -> is_byte (f a b)) -> bytes u -> bytes v -> bytes (zip_with f u v).
Proof.
  intros Hf. revert v. induction u as [|a u IH]; intros v Hu Hv; [constructor|]. destruct v as [|b v]; [constructor|].
  apply Forall_cons in Hu as [? ?]. apply Forall_cons in Hv as [? ?]. cbn. constructor; [by apply Hf|by apply IH].
Qed.

Lemma logic_op_ok opcode s : Forall elem_ok s -> good_opt (logic_op opcode s).
Proof.
  intros Hs. unfold logic_op.
  repeat match goal with
  | |- good_opt (if ?c then _ else _) => destruct c eqn:?
  | |- good_opt (match ?l with [] => _ | _ => _ end) => destruct l as [|? ?]
  end; try exact I; split_stack; cbn [good_opt good].
  - repeat case_match; cbn; auto with elems.
  - destruct (negb _) eqn:El; [exact I|]. cbv zeta. cbn [good]. constructor; [|done]. destruct H as [H1 L1], H0 as [H2 L2].
    split; [|rewrite length_zip_with; lia].
    apply zip_bytes; [|done..]. intros a c Ha Hc.
    destruct (opcode =? OP_AND); [|destruct (opcode =? OP_OR)]; auto with uints. apply in_uint_land; [lia|done|by destruct Hc].
Qed.

Lemma num_op_ok b opcode s : Forall elem_ok s -> good_opt (num_op b opcode s).
Proof.
  intros Hs. unfold num_op.
  repeat match goal with
  | |- good_opt (if ?c then _ else _) => destruct c eqn:?
  | |- good_opt (match ?l with [] => _ | _ => _ end) => destruct l as [|? ?]
  end; try exact I; split_stack; cbn [good_opt];
    repeat (eapply good_bind; [by apply number_ok|intros ? ?]).
  - eapply good_bind; [by apply unary_ok|intros n Hn]. apply push_ok; [done|]. intros x Hx. cbn. by constructor.
  - eapply good_bind; [by apply binary_ok|intros n Hn]. apply push_ok; [done|]. intros x Hx. repeat case_match; cbn; try done. by constructor.
  - cbn. auto with elems.
Qed.

Lemma MinimallyEncode_ok x : elem_ok x -> elem_ok (ScriptNum.MinimallyEncode x).2.
Proof.
  intros [Hx Hl]. pose proof (MinimallyEncode_spec x Hx) as H. destruct (ScriptNum.MinimallyEncode x) as [changed d].
  destruct H as (_ & _ & Hd & Hc). split; [done|]. cbn [snd]. destruct changed; [lia|by subst d].
Qed.

Lemma pad_number_ok x size : elem_ok x -> length x < size -> size <= MAX_SCRIPT_ELEMENT_SIZE -> elem_ok (pad_number x size).
Proof.
  intros [Hx Hl] Hsz Hm. unfold pad_number.
  destruct x as [|l w _] using rev_ind.
  - cbn [length Nat.ltb]. cbn. split.
    + apply Forall_app. split; [apply Forall_replicate; unfold in_uint; cbn; lia|]. repeat constructor; unfold in_uint; cbn; lia.
    + rewrite length_app, length_replicate. cbn. cbn in Hsz. lia.
  - rewrite length_app in *. cbn [length] in *. replace (0 <? length w + 1)%nat with true by (symmetry; apply Nat.ltb_lt; lia).
    cbv iota zeta. rewrite back_snoc, set_back_snoc. apply Forall_app in Hx as [Hw Hlast]. split.
    + apply Forall_cons in Hlast as [Hlast _]. unfold bytes. rewrite !Forall_app, !Forall_singleton. split_and!.
      * done.
      * rewrite land_7f. unfold in_uint. cbn. lia_mod.
      * apply Forall_replicate. unfold in_uint. cbn. lia.
      * apply in_uint_land; [lia|done|lia].
    + rewrite !length_app, length_replicate. cbn [length]. lia.
Qed.

Lemma splice_op_ok b opcode s : Forall elem_ok s -> good_opt (splice_op b opcode s).
Proof.
  intros Hs. unfold splice_op.
  repeat match goal with
  | |- good_opt (if ?c then _ else _) => destruct c eqn:?
  | |- good_opt (match ?l with [] => _ | _ => _ end) => destruct l as [|? ?]
  end; try exact I; split_stack; cbn [good_opt].
  - destruct (Z.ltb_spec MAX_SCRIPT_ELEMENT_SIZE (length l0 + length l)) as [|Hl]; [exact I|]. cbn. constructor; [|done].
    unfold elem_ok. rewrite length_app. split; [apply Forall_app; split; [apply H0|apply H]|lia].
  - eapply good_bind; [by apply number_ok|intros n _]. cbv zeta.
    repeat match goal with |- good _ (if ?c then _ else _) => destruct c; [try exact I|] end; cbn; auto with elems.
    destruct H0 as [Hb Hl]. repeat constructor; try done.
    + by apply Forall_drop.
    + rewrite length_drop. lia.
    + by apply Forall_take.
    + rewrite length_take. lia.
  - eapply good_bind; [by apply number_ok|intros n _]. cbv zeta. pose proof (MinimallyEncode_ok _ H0) as Hm.
    destruct (Z.ltb_spec MAX_SCRIPT_ELEMENT_SIZE (u64 (ScriptNum.getint n))) as [|Hl]; [exact I|].
    destruct (Z.ltb_spec (u64 (ScriptNum.getint n)) (length (ScriptNum.MinimallyEncode l0).2)) as [|Hl']; [exact I|].
    destruct (Z.eqb_spec (length (ScriptNum.MinimallyEncode l0).2) (u64 (ScriptNum.getint n))); cbn; (constructor; [|done]); [done|].
    apply pad_number_ok; [done|lia|done].
  - cbv zeta. good_if. cbn.
    constructor; [by apply MinimallyEncode_ok|done].
Qed.

(** *** Signatures *)

Section limits.
Context (D : Sha256.dispatch) `{HD : !GoodDispatch D} `{HLow : LowS} (checker : BaseSignatureChecker).

Lemma encodings_ok sig key flags : good (λ _, True) (check_encodings sig key flags).
Proof.
  unfold check_encodings, CheckSignatureEncoding, CheckPubKeyEncoding, IsLowDERSignature, require. repeat case_match; cbn; done.
Qed.

Lemma op_checksig_ok flags opcode code s : Forall elem_ok s -> good (Forall elem_ok) (op_checksig checker flags opcode code s).
Proof.
  intros Hs. unfold op_checksig. destruct s as [|key [|sig s]]; [exact I..|]. split_stack.
  eapply good_bind; [apply encodings_ok|intros _ _]. cbv zeta. repeat case_match; cbn; auto with elems.
Qed.
Lemma op_checkdatasig_ok flags opcode s : Forall elem_ok s -> good (Forall elem_ok) (op_checkdatasig D checker flags opcode s).
Proof.
  intros Hs. unfold op_checkdatasig. destruct s as [|key [|msg [|sig s]]]; [exact I..|]. split_stack.
  eapply good_bind; [apply encodings_ok|intros _ _]. cbv zeta. repeat case_match; cbn; auto with elems.
Qed.

Lemma stacktop_ok s i : Forall elem_ok s -> good elem_ok (stacktop s i).
Proof. intros Hs. unfold stacktop. destruct (s !! _) eqn:E; [|exact I]. by apply (Forall_lookup_1 _ _ _ _ Hs E). Qed.

Lemma drop_signatures_ok (k : nat) isig s code : good (λ _, True) (drop_signatures k isig s code).
Proof.
  revert isig code. induction k as [|k IH]; intros isig code; cbn [drop_signatures]; [done|].
  eapply good_bind; [|intros; apply IH]. unfold stacktop. instantiate (1 := λ _, True). by case_match.
Qed.

(** a key is used up in each round *)
Lemma multisig_loop_ok (fuel : nat) flags s code isig ikey ns nk :
  Forall elem_ok s -> ns <= nk -> nk < fuel -> good (λ _, True) (multisig_loop checker fuel flags s code isig ikey ns nk).
Proof.
  intros Hs. revert isig ikey ns nk. induction fuel as [|fuel IH]; intros isig ikey ns nk Hn Hf; cbn [multisig_loop].
  - destruct (Z.ltb_spec 0 ns); [lia|done].
  - destruct (Z.ltb_spec 0 ns); [|done]. do 2 (eapply good_bind; [by apply stacktop_ok|intros ? _]).
    eapply good_bind; [apply encodings_ok|intros _ _]. cbv zeta.
    match goal with |- good _ (if ?c then _ else _) => destruct c eqn:Ec; [done|] end. apply IH; lia.
Qed.

Lemma multisig_cleanup_ok (k : nat) check ikey2 s : Forall elem_ok s -> good (Forall elem_ok) (multisig_cleanup k check ikey2 s).
Proof.
  revert ikey2 s. induction k as [|k IH]; intros ikey2 s Hs; cbn [multisig_cleanup]; [done|]. destruct s as [|x s]; [done|].
  split_stack. case_match; [done|by apply IH].
Qed.

Lemma op_checkmultisig_ok flags opcode code nOp s :
  Forall elem_ok s -> good (λ '(s, n), Forall elem_ok s /\ n <= MAX_OPS_PER_SCRIPT) (op_checkmultisig checker flags opcode code nOp s).
Proof.
  intros Hs. unfold op_checkmultisig. good_if.
  eapply good_bind; [by apply stacktop_ok|intros x Hx]. eapply good_bind; [by apply number_ok|intros n _]. cbv zeta.
  do 3 good_if.
  eapply good_bind; [by apply stacktop_ok|intros y Hy]. eapply good_bind; [by apply number_ok|intros k _].
  do 2 good_if. eapply good_bind; [apply drop_signatures_ok|intros sc _].
  eapply good_bind; [apply multisig_loop_ok; [done|lia..]|intros ok _].
  eapply good_bind; [by apply multisig_cleanup_ok|intros [|dummy s'] Hs'; [done|]]. split_stack.
  repeat case_match; cbn; try done; (split; [auto with elems|lia]).
Qed.

(** *** The machine *)

Definition elems_ok (m : machine) : Prop :=
  Forall elem_ok (stack m) /\ Forall elem_ok (altstack m) /\ nOpCount m <= MAX_OPS_PER_SCRIPT.
(** the invariant of the loop *)
Definition within_limits (m : machine) : Prop :=
  elems_ok m /\ length (stack m) + length (altstack m) <= MAX_STACK_SIZE.

Lemma op_locktime_ok flags s : Forall elem_ok s -> good (λ _, True) (op_locktime checker flags s).
Proof.
  intros Hs. unfold op_locktime, require. good_if. destruct s as [|x s]; [done|]. split_stack.
  eapply good_bind; [by apply number_ok5|intros n _]. repeat case_match; done.
Qed.
Lemma op_sequence_ok flags s : Forall elem_ok s -> good (λ _, True) (op_sequence checker flags s).
Proof.
  intros Hs. unfold op_sequence, require. good_if. destruct s as [|x s]; [done|]. split_stack.
  eapply good_bind; [by apply number_ok5|intros n _]. repeat case_match; done.
Qed.

Lemma control_op_ok flags fExec opcode pc m :
  elems_ok m -> match control_op checker flags fExec opcode pc m with Some r => good elems_ok r | None => True end.
Proof.
  intros (Hs & Ha & Hn). destruct m as [s a v code n]. unfold elems_ok in *. cbn [stack altstack nOpCount] in *.
  unfold control_op. cbn [stack altstack vfExec pbegincodehash nOpCount set_stack].
  destruct (_ || _) eqn:E1.
  { apply push_ok; [|intros x Hx; cbn; split_and!; try done; by constructor].
    unfold in_sint, OP_1NEGATE, OP_1, OP_16 in *. change (2 ^ (63 - 1)) with (2 ^ 62). lia. }
  clear E1. repeat match goal with
  | |- match (if ?c then _ else _) with _ => _ end => destruct c
  end; try exact I; try (eapply good_bind; [by apply op_locktime_ok || by apply op_sequence_ok|intros _ _]); try done;
  repeat match goal with |- good _ (match ?l with [] => _ | _ => _ end) => destruct l as [|? ?]
  | |- good _ (if ?c then _ else _) => destruct c end; try exact I; split_stack; cbn; auto with elems.
Qed.

Lemma execute_ok flags fExec opcode pc m : within_limits m -> good elems_ok (execute D checker flags fExec opcode pc m).
Proof.
  intros [Hm Hl]. unfold execute. cbv zeta.
  pose proof (control_op_ok flags fExec opcode pc m Hm) as Hc. destruct (control_op _ _ _ _ _ _); [exact Hc|]. clear Hc.
  destruct Hm as (Hs & Ha & Hn).
  assert (Hon : forall r, good (Forall elem_ok) r -> good elems_ok (s ← r; Done (set_stack m s)))
    by (intros r Hr; eapply good_bind; [exact Hr|intros s' Hs'; by split_and!]).
  pose proof (stack_op_ok (flag flags SCRIPT_VERIFY_MINIMALDATA) opcode (stack m) Hs ltac:(lia)) as H1.
  destruct (stack_op _ _ _); [by apply Hon|]. clear H1.
  pose proof (logic_op_ok opcode (stack m) Hs) as H1. destruct (logic_op _ _); [by apply Hon|]. clear H1.
  pose proof (num_op_ok (flag flags SCRIPT_VERIFY_MINIMALDATA) opcode (stack m) Hs) as H1. destruct (num_op _ _ _); [by apply Hon|]. clear H1.
  pose proof (hash_op_ok D opcode (stack m) Hs) as H1. destruct (hash_op _ _ _); [by apply Hon|]. clear H1.
  destruct (_ || _); [by apply Hon, op_checksig_ok|]. destruct (_ || _); [by apply Hon, op_checkdatasig_ok|].
  destruct (_ || _).
  { eapply good_bind; [by apply op_checkmultisig_ok|]. intros [s' n'] [? ?]. by split_and!. }
  pose proof (splice_op_ok (flag flags SCRIPT_VERIFY_MINIMALDATA) opcode (stack m) Hs) as H1. destruct (splice_op _ _ _); [by apply Hon|done].
Qed.

Lemma GetOp_bytes pc ok pc' opcode vch : bytes pc -> Script.GetOp pc = (ok, pc', opcode, vch) -> bytes pc' /\ bytes vch.
Proof.
  intros Hb E. assert (Hb' : bytes pc').
  { apply GetScriptOp_progress in E as [[k ->] _]. by apply Forall_app in Hb as [_ ?]. }
  split; [done|]. clear Hb'. revert E. unfold Script.GetOp, GetScriptOp. destruct pc as [|x pc]; [by intros [= <- <- <- <-]; constructor|].
  apply Forall_cons in Hb as [_ Hb].
  repeat case_match; intros [= <- <- <- <-]; try constructor; apply Forall_take;
    repeat match goal with H : Some _ = Some _ |- _ => injection H as <- <- end; try done; by apply Forall_drop.
Qed.

Lemma round_ok flags opcode vch pc m : bytes vch -> within_limits m -> good within_limits (round D checker flags opcode vch pc m).
Proof.
  intros Hb [(Hs & Ha & Hn) Hl]. unfold round. eapply good_bind; [apply good_require|cbv beta; intros _ Hv]. cbv zeta.
  set (m1 := if OP_16 <? opcode then _ else m).
  assert (Hm1 : stack m1 = stack m /\ altstack m1 = altstack m) by (unfold m1; by case_match).
  destruct Hm1 as [E1 E2].
  eapply good_bind; [apply good_require|cbv beta; intros _ Hop].
  assert (Hm1 : within_limits m1).
  { unfold within_limits, elems_ok. rewrite E1, E2. split_and!; try done. unfold m1 in *. destruct (OP_16 <? opcode); [|done].
    apply negb_true_iff in Hop. cbn [andb nOpCount] in *. lia. }
  clearbody m1. do 2 (eapply good_bind; [apply good_require|cbv beta; intros _ _]).
  eapply (good_bind elems_ok).
  - match goal with |- good _ (if ?c then _ else _) => destruct c eqn:Ep end.
    + eapply (good_bind (λ _, True)).
      { case_match; [|done]. unfold CheckMinimalPush. replace ((0 <=? opcode) && (opcode <=? OP_PUSHDATA4)) with true by lia. done. }
      intros minimal _. eapply good_bind; [apply good_require|intros _ _]. cbn.
      destruct Hm1 as [(? & ? & ?) _]. unfold elems_ok. cbn. split_and!; try done. constructor; [|done]. split; [done|lia].
    + match goal with |- good _ (if ?c then _ else _) => destruct c end; [by apply execute_ok|apply Hm1].
  - intros m2 Hm2. eapply good_bind; [apply good_require|]. cbv beta. intros _ Hlen. split; [done|lia].
Qed.

Lemma EvalScript_loop_ok (fuel : nat) flags pc m :
  bytes pc -> (length pc <= fuel)%nat -> within_limits m -> good within_limits (EvalScript_loop D checker fuel flags pc m).
Proof.
  revert pc m. induction fuel as [|fuel IH]; intros pc m Hb Hf Hm; (destruct pc as [|b pc]; [done|]); cbn [EvalScript_loop]; [cbn in Hf; lia|].
  destruct (Script.GetOp (b :: pc)) as [[[ok pc'] opcode] vch] eqn:E. destruct (GetOp_bytes _ _ _ _ _ Hb E) as [Hb' Hv].
  eapply good_bind; [apply good_require|]. cbv beta. intros _ ->. apply GetScriptOp_progress in E as [_ Hlt].
  specialize (Hlt eq_refl). cbn [length] in *. eapply good_bind; [by apply round_ok|]. intros m' Hm'. apply IH; [done|lia|done].
Qed.

Definition stack_ok (s : list valtype) : Prop := Forall elem_ok s /\ length s <= MAX_STACK_SIZE.

Lemma EvalScript_ok s scr flags : bytes scr -> stack_ok s -> good stack_ok (EvalScript D checker s scr flags).
Proof.
  intros Hb [Hs Hl]. unfold EvalScript. eapply good_bind; [apply good_require|intros _ _].
  eapply good_bind; [apply EvalScript_loop_ok; [done|lia|]|].
  - split; cbn; [|lia]. unfold elems_ok. cbn. split_and!; [done|constructor|unfold MAX_OPS_PER_SCRIPT; lia].
  - intros m [(Hs' & _) Hl']. eapply good_bind; [apply good_require|intros _ _]. split; [done|lia].
Qed.

(** a script that pays to a script hash takes the script from the stack *)
Lemma p2sh_needs_script scr flags : Script.IsPayToScriptHash scr = true -> exists e, EvalScript D checker [] scr flags = Fail e.
Proof.
  unfold Script.IsPayToScriptHash. intros [[[Hl%Nat.eqb_eq H0%Z.eqb_eq]%andb_prop _]%andb_prop _]%andb_prop.
  destruct scr as [|x scr]; [done|]. cbn in H0. subst x. unfold EvalScript, require.
  replace (length (OP_HASH160 :: scr) <=? MAX_SCRIPT_SIZE) with true
    by (symmetry; apply Z.leb_le; rewrite Hl; unfold MAX_SCRIPT_SIZE; lia).
  cbn [mbind outcome_bind length EvalScript_loop]. unfold Script.GetOp, GetScriptOp. cbn. unfold round. cbn.
  destruct (flag flags SCRIPT_ENABLE_DIP0020_OPCODES); cbn; by eexists.
Qed.

Lemma VerifyScript_ok sig pub flags :
  bytes sig -> bytes pub -> (flag flags SCRIPT_VERIFY_CLEANSTACK = true -> flag flags SCRIPT_VERIFY_P2SH = true) ->
  good (λ _, True) (VerifyScript D checker sig pub flags).
Proof.
  intros Hsig Hpub Hc. unfold VerifyScript. eapply good_bind; [apply good_require|intros _ _].
  eapply good_bind; [apply EvalScript_ok; [done|split; [constructor|cbn; unfold MAX_STACK_SIZE; lia]]|intros cpy Hcpy].
  destruct (Script.IsPayToScriptHash pub) eqn:Ep; cycle 1.
  - eapply good_bind; [by apply EvalScript_ok|intros s _]. eapply good_bind; [apply good_require|intros _ _]. rewrite andb_false_r.
    cbn [mbind outcome_bind]. destruct (flag flags SCRIPT_VERIFY_CLEANSTACK); [|done]. rewrite Hc by done. cbn [negb]. eapply good_weaken; [apply good_require|done].
  - destruct cpy as [|x cpy]; [by destruct (p2sh_needs_script pub flags Ep) as [e ->]|]. eapply good_bind; [by apply EvalScript_ok|intros s _].
    eapply good_bind; [apply good_require|intros _ _]. eapply (good_bind (λ _, True)).
    + case_match; [|done]. eapply good_bind; [apply good_require|intros _ _]. destruct Hcpy as [Hcpy Hlen]. split_stack.
      eapply good_bind; [apply EvalScript_ok; [apply H0|split; [done|cbn in Hlen; lia]]|]. intros r _.
      eapply good_bind; [apply good_require|done].
    + intros r _. destruct (flag flags SCRIPT_VERIFY_CLEANSTACK); [|done]. rewrite Hc by done. cbn [negb]. eapply good_weaken; [apply good_require|done].
Qed.
End limits.

(** C4: No script stops the process or escapes the limits: for every byte string as
    script, every set of flags, whatever the answers about signatures and lock times, and every initial stack of at most 1000
    elements of at most 520 bytes, evaluation comes to an end (its assertions hold, the signed
    arithmetic never overflows and the loops have run out), and a stack it leaves is again of at
    most 1000 byte strings of at most 520 bytes.  [VerifyScript] always gives an answer, save that
    its own assertion fails when CLEANSTACK is asked for without P2SH. *)
Theorem interpreter_within_limits (D : Sha256.dispatch) `{HD : !GoodDispatch D} `{HLow : LowS} (checker : BaseSignatureChecker) (flags : Z) :
  (forall s scr, bytes scr -> Forall (λ x, bytes x /\ length x <= 520) s -> length s <= 1000 ->
    match EvalScript D checker s scr flags with
    | Done s' => Forall (λ x, bytes x /\ length x <= 520) s' /\ length s' <= 1000
    | Fail _ => True
    | Abort => False
    end) /\
  (forall sig pub, bytes sig -> bytes pub ->
    (flag flags SCRIPT_VERIFY_CLEANSTACK = true -> flag flags SCRIPT_VERIFY_P2SH = true) ->
    exists r, VerifyScript D checker sig pub flags = Done tt \/ VerifyScript D checker sig pub flags = Fail r).
Proof.
  split.
  { intros s scr Hb Hs Hl. pose proof (EvalScript_ok D checker s scr flags Hb (conj Hs Hl)) as H.
    destruct (EvalScript D checker s scr flags); exact H. }
  intros sig pub Hsig Hpub Hc. pose proof (VerifyScript_ok D checker sig pub flags Hsig Hpub Hc) as H.
  destruct (VerifyScript D checker sig pub flags) as [[]|e|]; [exists SCRIPT_ERR_OK; by left|exists e; by right|done].
Qed.

(** *** Examples *)

(** a checker that accepts every signature and every lock time, and one that accepts nothing *)
Definition yes_checker : BaseSignatureChecker := mkChecker (λ _ _ _, true) (λ _ _ _, true) (λ _, true) (λ _, true).
Definition no_checker : BaseSignatureChecker := mkChecker (λ _ _ _, false) (λ _ _ _, false) (λ _, false) (λ _, false).
Definition low_s : LowS := {| CheckLowS := λ _, true |}.

(** 2 3 ADD 5 NUMEQUAL *)
Definition sum_script : script := [0x52; 0x53; 0x93; 0x55; 0x9c].

Lemma flags_are_softforks_witness :
  VerifyScript Sha256.standard no_checker (HLow:=low_s) [0x52] [0x53; 0x93; 0x55; 0x9c] (SCRIPT_VERIFY_P2SH ||| SCRIPT_VERIFY_MINIMALDATA) = Done tt /\
  VerifyScript Sha256.standard no_checker (HLow:=low_s) [0x52] [0x53; 0x93; 0x55; 0x9c] SCRIPT_VERIFY_P2SH = Done tt.
Proof.
  assert (H : VerifyScript Sha256.standard no_checker (HLow:=low_s) [0x52] [0x53; 0x93; 0x55; 0x9c] (SCRIPT_VERIFY_P2SH ||| SCRIPT_VERIFY_MINIMALDATA) = Done tt)
    by (vm_compute; reflexivity).
  split; [exact H|].
  exact (proj2 (flags_are_softforks Sha256.standard (HLow:=low_s) no_checker SCRIPT_VERIFY_P2SH (SCRIPT_VERIFY_P2SH ||| SCRIPT_VERIFY_MINIMALDATA)
    eq_refl eq_refl) (λ _, eq_refl) [0x52] [0x53; 0x93; 0x55; 0x9c] H).
Defined.

Lemma interpreter_within_limits_witness :
  EvalScript Sha256.standard no_checker (HLow:=low_s) [] sum_script 0 = Done [[1]] /\
  match EvalScript Sha256.standard no_checker (HLow:=low_s) [] sum_script 0 with
  | Done s' => Forall (λ x, bytes x /\ length x <= 520) s' /\ length s' <= 1000
  | Fail _ => True
  | Abort => False
  end.
Proof.
  split; [vm_compute; reflexivity|].
  apply (proj1 (interpreter_within_limits Sha256.standard (HLow:=low_s) no_checker 0) [] sum_script).
  - repeat constructor; unfold in_uint; cbn; lia.
  - constructor.
  - cbn. lia.
Defined.

(** the flag of the DIP0020 opcodes is not a soft fork: a pair of scripts (which joins two
    strings by OP_CAT and compares the result) is accepted with the flag and rejected without it. *)
Theorem dip0020_not_softfork (D : Sha256.dispatch) `{HD : !GoodDispatch D} `{HLow : LowS} (checker : BaseSignatureChecker) :
  exists sig pub,
    VerifyScript D checker sig pub SCRIPT_ENABLE_DIP0020_OPCODES = Done tt /\
    VerifyScript D checker sig pub SCRIPT_VERIFY_NONE = Fail SCRIPT_ERR_DISABLED_OPCODE.
Proof. exists [1; 7; 1; 8], [OP_CAT; 2; 7; 8; OP_EQUAL]. split; vm_compute; reflexivity. Qed.
