(* ===== verification/SigHash.v ===== *)
(** * What a signature signs: the end of script/interpreter.cpp, and the verification of pubkey.cpp

    [SignatureHash] hashes a transaction as one of its inputs signs it: [SerializeSig] writes the
    transaction with the modifications done in place.  [TransactionSignatureChecker] is the
    [BaseSignatureChecker] that the interpreter is given for an input of a transaction.

    Signatures are parsed by [ecdsa_signature_parse_der_lax]; the rest of what the code asks of the
    elliptic curve library is the class [Ecdsa]. *)

From S2P Require Import Prelude Bytes Streams Serialize BlockHash Script Sha256 Sha256Laws Hash Uint256 Transaction Compressor Interpreter.

(** ** The serializer *)

Record CTransactionSignatureSerializer := mkSerializer {
  txTo : CTransaction;
  scriptCode : script;
  nIn : Z;              (* unsigned int *)
  fAnyoneCanPay : bool;
  fHashSingle : bool;
  fHashNone : bool;
}.

Definition CTransactionSignatureSerializer_new (txToIn : CTransaction) (scriptCodeIn : script) (nInIn nHashTypeIn : Z) :=
  mkSerializer txToIn scriptCodeIn nInIn
    (negb ((nHashTypeIn &&& SIGHASH_ANYONECANPAY) =? 0))
    ((nHashTypeIn &&& 0x1f) =? SIGHASH_SINGLE)
    ((nHashTypeIn &&& 0x1f) =? SIGHASH_NONE).

(** The first loop; every operation read shortens the rest of the script, so that its length is
    enough fuel for both. *)
Fixpoint count_separators (fuel : nat) (it : script) (nCodeSeparators : Z) : Z :=
  match fuel with
  | O => nCodeSeparators
  | S fuel =>
      let '(ok, it, opcode, _) := Script.GetOp it in
      if ok then count_separators fuel it (if opcode =? OP_CODESEPARATOR then nCodeSeparators + 1 else nCodeSeparators)
      else nCodeSeparators
  end.

(** indices at which the source reads are within the vectors: the input is one of the transaction's,
    and with SIGHASH_SINGLE so is the output *)
Definition CTxIn_default : CTxIn := mkCTxIn COutPoint_default [] SEQUENCE_FINAL.
Definition input (tx : CTransaction) (i : Z) : CTxIn := default CTxIn_default (vin tx !! Z.to_nat i).
Definition output (tx : CTransaction) (i : Z) : CTxOut := default CTxOut_SetNull (vout tx !! Z.to_nat i).

Section serializer.
Context {S : Type} `{OStream S}.

(** the second loop, and where it leaves [itBegin] and [it] *)
Fixpoint write_parts (fuel : nat) (itBegin it : script) : action S (script * script) :=
  match fuel with
  | O => mret (itBegin, it)
  | Datatypes.S fuel =>
      let '(ok, it, opcode, _) := Script.GetOp it in
      if ok then
        if opcode =? OP_CODESEPARATOR
        then _ ← os_write (take (length itBegin - length it - 1) itBegin); write_parts fuel it it
        else write_parts fuel itBegin it
      else mret (itBegin, it)
  end.

Definition SerializeScriptCode (t : CTransactionSignatureSerializer) : action S unit :=
  let code := scriptCode t in
  let fuel := Datatypes.S (length code) in
  let nCodeSeparators := u32 (count_separators fuel code 0) in
  _ ← WriteCompactSize (u32 (length code - nCodeSeparators));
  '(itBegin, it) ← write_parts fuel code code;
  if (length itBegin =? 0)%nat then mret tt else os_write (take (length itBegin - length it) itBegin).

Definition SerializeInput (t : CTransactionSignatureSerializer) (nInput : Z) : action S unit :=
  let nInput := if fAnyoneCanPay t then nIn t else nInput in
  _ ← Serialize codec_COutPoint (prevout (input (txTo t) nInput));
  _ ← (if negb (nInput =? nIn t) then Serialize codec_script [] else SerializeScriptCode t);
  if negb (nInput =? nIn t) && (fHashSingle t || fHashNone t) then Serialize codec_int32 0
  else Serialize codec_uint32 (nSequence (input (txTo t) nInput)).

Definition SerializeOutput (t : CTransactionSignatureSerializer) (nOutput : Z) : action S unit :=
  if fHashSingle t && negb (nOutput =? nIn t) then Serialize codec_CTxOut CTxOut_SetNull
  else Serialize codec_CTxOut (output (txTo t) nOutput).

(** [for (unsigned int i = ...; i < ...; i++) f(i)], [k] rounds from [i] *)
Fixpoint for_each (k : nat) (i : Z) (f : Z -> action S unit) : action S unit :=
  match k with O => mret tt | Datatypes.S k => _ ← f i; for_each k (i + 1) f end.

Definition SerializeSig (t : CTransactionSignatureSerializer) : action S unit :=
  let tx := txTo t in
  let n32bitVersion := i32 (tx_nVersion tx ||| (tx_nType tx << 16)) in
  _ ← Serialize codec_int32 n32bitVersion;
  let nInputs := if fAnyoneCanPay t then 1 else u32 (length (vin tx)) in
  _ ← WriteCompactSize nInputs;
  _ ← for_each (Z.to_nat nInputs) 0 (SerializeInput t);
  let nOutputs := if fHashNone t then 0 else if fHashSingle t then u32 (nIn t + 1) else u32 (length (vout tx)) in
  _ ← WriteCompactSize nOutputs;
  _ ← for_each (Z.to_nat nOutputs) 0 (SerializeOutput t);
  _ ← Serialize codec_uint32 (nLockTime tx);
  if has_payload (tx_nVersion tx) (tx_nType tx) then Serialize codec_byte_vector (vExtraPayload tx) else mret tt.
End serializer.

(** ** The hash *)

(** uint256S("00...01") *)
Definition uint256_one : list Z := 1 :: replicate 31 0.

Section sighash.
Context (D : Sha256.dispatch) `{HD : !GoodDispatch D}.

(** [None]: the assertion on the index fails.  (The amount, the version and the cached hashes are not
    used.) *)
Definition SignatureHash (scriptCode : script) (txTo : CTransaction) (nIn nHashType : Z) : option (list Z) :=
  if negb (nIn <? length (vin txTo)) then None
  else if ((nHashType &&& 0x1f) =? SIGHASH_SINGLE) && (length (vout txTo) <=? nIn) then Some uint256_one
  else
    let txTmp := CTransactionSignatureSerializer_new txTo scriptCode nIn nHashType in
    let '(_, ss) := (_ ← SerializeSig txTmp; Serialize codec_int32 nHashType) (CHashWriter_new SER_GETHASH 0) in
    Some (CHashWriter_GetHash D ss).

(** [PrecomputedTransactionData] *)
Definition hash_each {T} (c : codec T) (l : list T) : list Z :=
  CHashWriter_GetHash D (Serialize_each c l (CHashWriter_new SER_GETHASH 0)).2.
Definition GetPrevoutHash (txTo : CTransaction) : list Z := hash_each codec_COutPoint (prevout <$> vin txTo).
Definition GetSequenceHash (txTo : CTransaction) : list Z := hash_each codec_uint32 (nSequence <$> vin txTo).
Definition GetOutputsHash (txTo : CTransaction) : list Z := hash_each codec_CTxOut (vout txTo).
End sighash.

(** ** Parsing of signatures: pubkey.cpp *)

Section der.
Context (input : list Z).
#[local] Abbreviation inputlen := (Z.of_nat (length input)).

(** [while (lenbyte > 0 && input[pos] == 0) { pos++; lenbyte--; }], the new position and length *)
Fixpoint skip_zeros (lenbyte : nat) (pos : Z) : Z * Z :=
  match lenbyte with
  | O => (pos, 0)
  | S k => if at_ input pos =? 0 then skip_zeros k (pos + 1) else (pos, Z.of_nat lenbyte)
  end.

(** [while (lenbyte > 0) { rlen = (rlen << 8) + input[pos]; pos++; lenbyte--; }] *)
Fixpoint read_length (lenbyte : nat) (pos rlen : Z) : Z * Z :=
  match lenbyte with
  | O => (pos, rlen)
  | S k => read_length k (pos + 1) (u64 ((rlen << 8) + at_ input pos))
  end.

(** the tag and the length of an integer: where its content starts and how long it is *)
Definition der_integer (pos : Z) : option (Z * Z) :=
  if (pos =? inputlen) || negb (at_ input pos =? 0x02) then None
  else
    let pos := pos + 1 in
    if pos =? inputlen then None
    else
      let lenbyte := at_ input pos in
      let pos := pos + 1 in
      let checked '(pos, rlen) := if inputlen - pos <? rlen then None else Some (pos, rlen) in
      if negb ((lenbyte &&& 0x80) =? 0) then
        let lenbyte := lenbyte - 0x80 in
        if inputlen - pos <? lenbyte then None
        else
          let '(pos, lenbyte) := skip_zeros (Z.to_nat lenbyte) pos in
          if 4 <=? lenbyte then None else checked (read_length (Z.to_nat lenbyte) pos 0)
      else checked (pos, lenbyte).

(** the tag and the length of the sequence: where its content starts *)
Definition der_sequence : option Z :=
  let pos := 0 in
  if (pos =? inputlen) || negb (at_ input pos =? 0x30) then None
  else
    let pos := pos + 1 in
    if pos =? inputlen then None
    else
      let lenbyte := at_ input pos in
      let pos := pos + 1 in
      if negb ((lenbyte &&& 0x80) =? 0) then
        let lenbyte := lenbyte - 0x80 in
        if inputlen - pos <? lenbyte then None else Some (pos + lenbyte)
      else Some pos.

(** an integer without its leading zeroes, copied to the end of 32 bytes; [None]: it is longer *)
Definition der_value (rpos rlen : Z) : option (list Z) :=
  let '(rpos, rlen) := skip_zeros (Z.to_nat rlen) rpos in
  if 32 <? rlen then None
  else Some (replicate (Z.to_nat (32 - rlen)) 0 ++ take (Z.to_nat rlen) (drop (Z.to_nat rpos) input)).

(** [None]: the function returns 0; [Some None]: overflow *)
Definition der_lax : option (option (list Z)) :=
  match der_sequence with
  | None => None
  | Some pos =>
      match der_integer pos with
      | None => None
      | Some (rpos, rlen) =>
          match der_integer (rpos + rlen) with
          | None => None
          | Some (spos, slen) =>
              Some (match der_value rpos rlen, der_value spos slen with
                    | Some r, Some s => Some (r ++ s)
                    | _, _ => None
                    end)
          end
      end
  end.
End der.

(** What else is used of the library: [secp256k1_ecdsa_signature_parse_compact] (its return value and the
    signature it leaves), [secp256k1_ecdsa_signature_normalize] (whether the signature was not
    normalized, and its normal form) and [secp256k1_ecdsa_verify] for a serialized key that parses. *)
Class Ecdsa := {
  ec_signature : Type;
  ecdsa_signature_parse_compact : list Z -> bool * ec_signature;
  ecdsa_signature_normalize : ec_signature -> bool * ec_signature;
  ecdsa_verify : ec_signature -> list Z -> list Z -> bool;
}.

Section verify.
Context `{HE : Ecdsa} `{HP : PubKey.Secp256k1}.

Definition ecdsa_signature_parse_der_lax (input : list Z) : option ec_signature :=
  match der_lax input with
  | None => None
  | Some tmpsig =>
      let invalid := (ecdsa_signature_parse_compact (replicate 64 0)).2 in
      Some (match tmpsig with
            | None => invalid
            | Some tmpsig => let '(ok, sig) := ecdsa_signature_parse_compact tmpsig in if ok then sig else invalid
            end)
  end.

(** [CPubKey::Verify] *)
Definition CPubKey_Verify (k : PubKey.CPubKey) (hash : list Z) (vchSig : valtype) : bool :=
  if negb (PubKey.IsValid k) then false
  else if negb (PubKey.ec_pubkey_parse (PubKey.bytes_of k)) then false
  else
    match ecdsa_signature_parse_der_lax vchSig with
    | None => false
    | Some sig => ecdsa_verify (ecdsa_signature_normalize sig).2 hash (PubKey.bytes_of k)
    end.

(** [CPubKey::CheckLowS] *)
Definition CPubKey_CheckLowS (vchSig : valtype) : bool :=
  match ecdsa_signature_parse_der_lax vchSig with
  | None => false
  | Some sig => negb (ecdsa_signature_normalize sig).1
  end.
#[export] Instance CPubKey_LowS : LowS := {| CheckLowS := CPubKey_CheckLowS |}.

(** ** The checker for an input of a transaction *)

Section checker.
Context (D : Sha256.dispatch) `{HD : !GoodDispatch D} (txTo : CTransaction) (nIn : Z).

Definition BaseSignatureChecker_VerifySignature (vchSig : valtype) (pubkey : PubKey.CPubKey) (sighash : list Z) : bool :=
  CPubKey_Verify pubkey sighash vchSig.

(** The checker is made for one of the inputs, so the assertion of [SignatureHash] holds.  The
    virtual [VerifySignature] is an argument: it may consult a cache. *)
Definition TransactionSignatureChecker_CheckSig (verify : valtype -> PubKey.CPubKey -> list Z -> bool)
    (vchSigIn vchPubKey : valtype) (scriptCode : script) : bool :=
  let pubkey := PubKey.of_bytes vchPubKey in
  if negb (PubKey.IsValid pubkey) then false
  else if (length vchSigIn =? 0)%nat then false
  else
    let nHashType := at_ vchSigIn (length vchSigIn - 1) in
    let vchSig := take (length vchSigIn - 1) vchSigIn in
    match SignatureHash D scriptCode txTo nIn nHashType with
    | None => false
    | Some sighash => verify vchSig pubkey sighash
    end.

Definition TransactionSignatureChecker_CheckLockTime (nLockTime_ : Z) : bool :=
  if negb (((nLockTime txTo <? LOCKTIME_THRESHOLD) && (nLockTime_ <? LOCKTIME_THRESHOLD)) ||
           ((LOCKTIME_THRESHOLD <=? nLockTime txTo) && (LOCKTIME_THRESHOLD <=? nLockTime_))) then false
  else if nLockTime txTo <? nLockTime_ then false
  else if SEQUENCE_FINAL =? nSequence (input txTo nIn) then false
  else true.

Definition TransactionSignatureChecker_CheckSequence (nSequence_ : Z) : bool :=
  let txToSequence := nSequence (input txTo nIn) in
  if u32 (tx_nVersion txTo) <? 2 then false
  else if negb ((txToSequence &&& SEQUENCE_LOCKTIME_DISABLE_FLAG) =? 0) then false
  else
    let nLockTimeMask := SEQUENCE_LOCKTIME_TYPE_FLAG ||| SEQUENCE_LOCKTIME_MASK in
    let txToSequenceMasked := txToSequence &&& nLockTimeMask in
    let nSequenceMasked := ScriptNum.and nSequence_ nLockTimeMask in
    if negb (((txToSequenceMasked <? SEQUENCE_LOCKTIME_TYPE_FLAG) && (nSequenceMasked <? SEQUENCE_LOCKTIME_TYPE_FLAG)) ||
             ((SEQUENCE_LOCKTIME_TYPE_FLAG <=? txToSequenceMasked) && (SEQUENCE_LOCKTIME_TYPE_FLAG <=? nSequenceMasked))) then false
    else if txToSequenceMasked <? nSequenceMasked then false
    else true.

Definition TransactionSignatureChecker : BaseSignatureChecker :=
  mkChecker BaseSignatureChecker_VerifySignature
    (TransactionSignatureChecker_CheckSig BaseSignatureChecker_VerifySignature)
    TransactionSignatureChecker_CheckLockTime TransactionSignatureChecker_CheckSequence.
End checker.
End verify.
