(* ===== verification/SigHashLaws.v ===== *)
(** * What a signature signs: properties

    The in-place serializer writes the modified copy of the transaction that the original
    implementation made; a strictly encoded signature is parsed to the two numbers it encodes. *)

From S2P Require Import Prelude Bytes Streams Serialize SerializeLaws SerializeCodecs BlockHash Script ScriptLaws ShaSpec Sha256 Sha256Laws Hash Uint256 Transaction Compressor Interpreter SigHash.

(** ** Scripts without OP_CODESEPARATOR *)

(** every operation can be read *)
Inductive well_formed : script -> Prop :=
  | wf_nil : well_formed []
  | wf_op pc pc' opcode vch : Script.GetOp pc = (true, pc', opcode, vch) -> well_formed pc' -> well_formed pc.

Fixpoint without_separators (fuel : nat) (s : script) : script :=
  match fuel with
  | O => s
  | S fuel =>
      let '(ok, s', opcode, _) := Script.GetOp s in
      if ok then
        if opcode =? OP_CODESEPARATOR then without_separators fuel s'
        else take (length s - length s') s ++ without_separators fuel s'
      else s
  end.

(** what an operation reads *)
Lemma GetOp_cases pc ok pc' opcode vch :
  Script.GetOp pc = (ok, pc', opcode, vch) -> ok = true ->
  exists o, pc = o ++ pc' /\ o <> [] /\ (opcode = OP_CODESEPARATOR -> o = [OP_CODESEPARATOR]) /\ head o = Some opcode.
Proof.
  intros E ->. assert (Hs : suffix pc' pc) by by apply GetScriptOp_progress in E as [? _].
  destruct Hs as [o ->]. exists o. split; [done|].
  assert (Hlt : (length pc' < length (o ++ pc'))%nat) by (apply GetScriptOp_progress in E as [_ ?]; auto).
  destruct o as [|x o]; [cbn in Hlt; lia|]. split; [done|]. clear Hlt. revert E. unfold Script.GetOp, GetScriptOp. cbn [app head].
  destruct (Z.leb_spec x OP_PUSHDATA4) as [Hx|Hx].
  - repeat case_match; try done; intros [= _ <- _]; (split; [|done]); intros ->; by unfold OP_CODESEPARATOR, OP_PUSHDATA4 in Hx.
  - intros [= Ho <- _]. split; [|done]. intros ->. destruct o as [|y o]; [done|].
    apply (f_equal length) in Ho. rewrite length_app in Ho. cbn in Ho. lia.
Qed.

Lemma count_separators_spec it (fuel : nat) k :
  well_formed it -> (length it < fuel)%nat ->
  count_separators fuel it k = k + length it - length (without_separators fuel it)
  /\ (length (without_separators fuel it) <= length it)%nat.
Proof.
  intros Hw. revert fuel k. induction Hw as [|pc pc' opcode vch E Hw IH]; intros fuel k Hf; (destruct fuel as [|fuel]; [lia|]).
  - cbn. lia.
  - cbn [count_separators without_separators]. rewrite E. destruct (GetOp_cases _ _ _ _ _ E eq_refl) as (o & -> & Ho & Hsep & _).
    assert (Ho' : (0 < length o)%nat) by (destruct o; [done|cbn; lia]). rewrite length_app in *.
    destruct (Z.eqb_spec opcode OP_CODESEPARATOR) as [Hop|Hop].
    + rewrite (Hsep Hop) in *. cbn [length] in *. destruct (IH fuel (k + 1)); lia.
    + rewrite length_app, length_take, length_app. destruct (IH fuel k); lia.
Qed.

Lemma without_separators_bytes (fuel : nat) s : bytes s -> bytes (without_separators fuel s).
Proof.
  revert s. induction fuel as [|fuel IH]; intros s Hs; [done|]. cbn [without_separators].
  destruct (Script.GetOp s) as [[[ok s'] opcode] vch] eqn:E. destruct ok; [|done].
  assert (Hs' : bytes s').
  { apply GetScriptOp_progress in E as [[o ->] _]. by apply Forall_app in Hs as [_ ?]. }
  case_match; [by apply IH|]. apply Forall_app. split; [by apply Forall_take|by apply IH].
Qed.

(** [FindAndDelete] of OP_CODESEPARATOR removes the separators *)
Lemma skip_all_sep (fuel : nat) s k :
  skip_all (Datatypes.S fuel) [OP_CODESEPARATOR] s k =
  match s with x :: s' => if x =? OP_CODESEPARATOR then skip_all fuel [OP_CODESEPARATOR] s' (k + 1) else (s, k) | [] => (s, k) end.
Proof.
  destruct s as [|x s]; [done|]. cbn [skip_all length Nat.leb andb take drop]. rewrite take_0, drop_0.
  destruct (Z.eqb_spec x OP_CODESEPARATOR) as [->|Hx]; [by rewrite bool_decide_eq_true_2|].
  rewrite bool_decide_eq_false_2; [done|]. by intros [= ?].
Qed.

Lemma without_separators_fuel (f1 f2 : nat) s :
  (length s < f1)%nat -> (length s < f2)%nat -> without_separators f1 s = without_separators f2 s.
Proof.
  revert f2 s. induction f1 as [|f1 IH]; intros f2 s H1 H2; [lia|]. destruct f2 as [|f2]; [lia|]. cbn [without_separators].
  destruct (Script.GetOp s) as [[[ok s'] opcode] vch] eqn:E. destruct ok; [|done].
  apply GetScriptOp_progress in E as [_ Hlt]. specialize (Hlt eq_refl).
  by rewrite (IH f2 s') by lia.
Qed.

Definition strip (s : script) : script := without_separators (Datatypes.S (length s)) s.

Lemma strip_unfold s :
  strip s = let '(ok, s', opcode, _) := Script.GetOp s in
            if ok then (if opcode =? OP_CODESEPARATOR then strip s' else take (length s - length s') s ++ strip s') else s.
Proof.
  unfold strip at 1. cbn [without_separators]. destruct (Script.GetOp s) as [[[ok s'] opcode] vch] eqn:E. destruct ok; [|done].
  apply GetScriptOp_progress in E as [_ Hlt]. specialize (Hlt eq_refl).
  unfold strip. by rewrite (without_separators_fuel (length s) (Datatypes.S (length s')) s') by lia.
Qed.
Lemma strip_sep s : strip (OP_CODESEPARATOR :: s) = strip s.
Proof. by rewrite strip_unfold. Qed.
Lemma strip_op o s opcode vch :
  Script.GetOp (o ++ s) = (true, s, opcode, vch) -> opcode <> OP_CODESEPARATOR -> strip (o ++ s) = o ++ strip s.
Proof.
  intros E Hop. rewrite strip_unfold, E. destruct (Z.eqb_spec opcode OP_CODESEPARATOR); [done|].
  by rewrite length_app, take_app_le, take_ge by lia.
Qed.
Lemma strip_bad s s' opcode vch : Script.GetOp s = (false, s', opcode, vch) -> strip s = s.
Proof. intros E. by rewrite strip_unfold, E. Qed.

Lemma skip_all_strip (fuel : nat) pc k :
  (length pc <= fuel)%nat ->
  let '(q, k') := skip_all fuel [OP_CODESEPARATOR] pc k in
  strip pc = strip q /\ k <= k' /\ (k' = k -> q = pc) /\ head q <> Some OP_CODESEPARATOR /\ (length q <= length pc)%nat.
Proof.
  revert pc k. induction fuel as [|fuel IH]; intros pc k Hf.
  - destruct pc; [|cbn in Hf; lia]. cbn. split_and!; done || lia.
  - rewrite skip_all_sep. destruct pc as [|x pc]; [cbn; split_and!; done || lia|].
    destruct (Z.eqb_spec x OP_CODESEPARATOR) as [->|Hx].
    + specialize (IH pc (k + 1) ltac:(cbn in Hf; lia)). destruct (skip_all fuel _ pc (k + 1)) as [q k'].
      destruct IH as (H1 & H2 & H3 & H4 & H5). rewrite strip_sep. split_and!; try done; cbn; lia.
    + split_and!; try done; cbn; try lia. by intros [= ?].
Qed.

Lemma FindAndDelete_loop_strip (fuel : nat) res pc2 pc k :
  (length pc <= fuel)%nat ->
  let '(r, p, k') := FindAndDelete_loop fuel [OP_CODESEPARATOR] res pc2 pc k in
  r ++ p = res ++ take (length pc2 - length pc) pc2 ++ strip pc /\ k <= k' /\ (k' = k -> strip pc = pc).
Proof.
  revert res pc2 pc k. induction fuel as [|fuel IH]; intros res pc2 pc k Hf.
  - destruct pc; [|cbn in Hf; lia]. cbn. rewrite !app_nil_r. split_and!; done || lia.
  - cbn [FindAndDelete_loop]. pose proof (skip_all_strip (length pc) pc k ltac:(lia)) as Hs.
    destruct (skip_all (length pc) _ pc k) as [q k1]. destruct Hs as (H1 & H2 & H3 & H4 & H5).
    destruct (Script.GetOp q) as [[[ok q'] opcode] vch] eqn:E. destruct ok.
    + destruct (GetOp_cases _ _ _ _ _ E eq_refl) as (o & -> & Ho & _ & Hh).
      assert (Ho' : (0 < length o)%nat) by (destruct o; [done|cbn; lia]). rewrite length_app in *.
      specialize (IH (res ++ take (length pc2 - length pc) pc2) (o ++ q') q' k1 ltac:(lia)).
      destruct (FindAndDelete_loop fuel _ _ _ _ _) as [[r p] k']. destruct IH as (I1 & I2 & I3).
      replace (take (length (o ++ q') - length q') (o ++ q')) with o in I1
        by (rewrite length_app, take_app_le, take_ge by lia; done).
      assert (Es : strip (o ++ q') = o ++ strip q').
      { apply (strip_op _ _ _ _ E). intros ->. apply H4. destruct o; [done|]. cbn in *. congruence. }
      rewrite H1, Es, I1, <- app_assoc. split_and!; [done|lia|]. intros Hk. rewrite <- H3 by lia. by rewrite I3 by lia.
    + rewrite <- app_assoc, H1, (strip_bad _ _ _ _ E). split_and!; [done|lia|]. intros Hk. by apply H3.
Qed.

Lemma FindAndDelete_strip s : (FindAndDelete s [OP_CODESEPARATOR]).2 = strip s.
Proof.
  unfold FindAndDelete. cbn [length Nat.eqb]. pose proof (FindAndDelete_loop_strip (length s) [] s s 0 ltac:(lia)) as H.
  destruct (FindAndDelete_loop _ _ _ _ _ _) as [[r p] k]. destruct H as (H1 & H2 & H3).
  rewrite Nat.sub_diag, take_0 in H1. cbn [app] in H1.
  destruct (Z.ltb_spec 0 k); cbn [snd]; [done|]. symmetry. apply H3. lia.
Qed.

Section separators.
Context {S : Type} `{HS : OStreamLaws S}.

Lemma emits_ext (m m' : action S unit) b : (forall s, m s = m' s) -> emits m' b -> emits m b.
Proof. intros E Hm s Hs. rewrite E. by apply Hm. Qed.

Lemma emits_bind_assoc {A B} (m : action S A) (f : A -> action S B) (g : B -> action S unit) b :
  emits (m ≫= λ a, f a ≫= g) b -> emits ((m ≫= f) ≫= g) b.
Proof. intros Hm. apply (emits_ext _ _ _ (λ s, action_bind_assoc m f g s) Hm). Qed.

(** the loop that writes the parts between separators, and the last part *)
Lemma write_parts_emits it (fuel : nat) pre :
  well_formed it -> (length it < fuel)%nat ->
  emits ('(itBegin, it) ← write_parts fuel (pre ++ it) it;
         if (length itBegin =? 0)%nat then mret tt else os_write (take (length itBegin - length it) itBegin))
    (pre ++ without_separators fuel it).
Proof.
  intros Hw. revert fuel pre. induction Hw as [|pc pc' opcode vch E Hw IH]; intros fuel pre Hf; (destruct fuel as [|fuel]; [lia|]).
  - rewrite !app_nil_r. 
    destruct pre as [|x pre]; [apply emits_ret|].
    change (emits (os_write (take (length (x :: pre) - 0) (x :: pre))) (x :: pre)).
    rewrite take_ge by lia. apply emits_write.
  - cbn [write_parts without_separators]. rewrite E. destruct (GetOp_cases _ _ _ _ _ E eq_refl) as (o & -> & Ho & Hsep & _).
    assert (Ho' : (0 < length o)%nat) by (destruct o; [done|cbn; lia]).
    rewrite length_app in Hf. destruct (Z.eqb_spec opcode OP_CODESEPARATOR) as [Hop|Hop].
    + rewrite (Hsep Hop) in *. cbn [length app] in *.
      replace (take (length (pre ++ OP_CODESEPARATOR :: pc') - length pc' - 1) (pre ++ OP_CODESEPARATOR :: pc')) with pre
        by (rewrite length_app, take_app_le, take_ge by (cbn; lia); done).
      apply emits_bind_assoc, emits_bind; [apply emits_write|]. apply (IH fuel []); lia.
    + replace (take (length (o ++ pc') - length pc') (o ++ pc')) with o
        by (rewrite length_app, take_app_le, take_ge by lia; done).
      rewrite !app_assoc. apply IH. lia.
Qed.
End separators.

(** ** The original implementation: SignatureHashOld of test/sighash_tests.cpp *)

(** [if (i != nIn) txTmp.vin[i].nSequence = 0] *)
Definition relax_others (nIn : Z) (l : list CTxIn) : list CTxIn :=
  imap (λ (i : nat) x, if Z.of_nat i =? nIn then x else mkCTxIn (prevout x) (scriptSig x) 0) l.

(** the modified copy, or nothing when the result is [one] *)
Definition txTmp (scriptCode : script) (tx : CTransaction) (nIn nHashType : Z) : option CTransaction :=
  let set_vin t v := mkCTransaction v (vout t) (tx_nVersion t) (tx_nType t) (nLockTime t) (vExtraPayload t) in
  let set_vout t v := mkCTransaction (vin t) v (tx_nVersion t) (tx_nType t) (nLockTime t) (vExtraPayload t) in
  if length (vin tx) <=? nIn then None
  else
    let scriptCode := (FindAndDelete scriptCode [OP_CODESEPARATOR]).2 in
    let t := set_vin tx (imap (λ (i : nat) x, mkCTxIn (prevout x) (if Z.of_nat i =? nIn then scriptCode else []) (nSequence x)) (vin tx)) in
    t ← (if (nHashType &&& 0x1f) =? SIGHASH_NONE then
           let t := set_vout t [] in Some (set_vin t (relax_others nIn (vin t)))
         else if (nHashType &&& 0x1f) =? SIGHASH_SINGLE then
           if length (vout t) <=? nIn then None
           else
             let t := set_vout t (imap (λ (i : nat) o, if Z.of_nat i <? nIn then CTxOut_SetNull else o) (take (Z.to_nat (nIn + 1)) (vout t))) in
             Some (set_vin t (relax_others nIn (vin t)))
         else Some t);
    Some (if negb ((nHashType &&& SIGHASH_ANYONECANPAY) =? 0) then set_vin t (option_list (vin t !! Z.to_nat nIn)) else t).

Definition SignatureHashOld (D : Sha256.dispatch) `{HD : !GoodDispatch D} (scriptCode : script) (tx : CTransaction) (nIn nHashType : Z) : list Z :=
  match txTmp scriptCode tx nIn nHashType with
  | None => uint256_one
  | Some t =>
      let '(_, ss) := (_ ← Serialize codec_CTransaction t; Serialize codec_int32 nHashType) (CHashWriter_new SER_GETHASH 0) in
      CHashWriter_GetHash D ss
  end.

(** ** The serializer writes the modified copy *)

Section serializer_laws.
Context {S : Type} `{HS : OStreamLaws S}.

Lemma SerializeScriptCode_emits t :
  well_formed (scriptCode t) -> length (scriptCode t) <= MAX_SIZE ->
  emits (SerializeScriptCode t) (encoding codec_script (strip (scriptCode t))).
Proof.
  intros Hw Hl. unfold SerializeScriptCode. cbv zeta. unfold MAX_SIZE in Hl.
  destruct (count_separators_spec (scriptCode t) (Datatypes.S (length (scriptCode t))) 0 Hw ltac:(lia)) as [-> Hle].
  change (without_separators (Datatypes.S (length (scriptCode t))) (scriptCode t)) with (strip (scriptCode t)) in *.
  rewrite !u32_small by (rewrite ?u32_small; lia).
  replace (length (scriptCode t) - (0 + length (scriptCode t) - length (strip (scriptCode t)))) with (Z.of_nat (length (strip (scriptCode t)))) by lia.
  apply (emits_bind _ _ (compact_size_bytes (length (strip (scriptCode t))))); [apply emits_compact_size; unfold in_uint; lia|].
  exact (write_parts_emits (scriptCode t) (Datatypes.S (length (scriptCode t))) [] Hw ltac:(lia)).
Qed.

Lemma for_each_emits (k : nat) i (f : Z -> action S unit) (g : nat -> list Z) :
  (forall j : nat, (j < k)%nat -> emits (f (i + j)) (g j)) -> emits (for_each k i f) (concat (g <$> seq 0 k)).
Proof.
  revert i g. induction k as [|k IH]; intros i g Hf; [apply emits_ret|]. cbn [for_each seq fmap list_fmap concat].
  apply emits_bind; [replace i with (i + 0%nat) by lia; apply Hf; lia|].
  rewrite <- fmap_S_seq, <- list_fmap_compose. apply (IH (i + 1) (g ∘ Datatypes.S)).
  intros j Hj. replace (i + 1 + j) with (i + Datatypes.S j) by lia. apply Hf. lia.
Qed.

(** what is written for an input and an output *)
Definition sig_input (t : CTransactionSignatureSerializer) (j : nat) : CTxIn :=
  let i := if fAnyoneCanPay t then nIn t else Z.of_nat j in
  mkCTxIn (prevout (input (txTo t) i)) (if i =? nIn t then strip (scriptCode t) else [])
    (if negb (i =? nIn t) && (fHashSingle t || fHashNone t) then 0 else nSequence (input (txTo t) i)).
Definition sig_output (t : CTransactionSignatureSerializer) (j : nat) : CTxOut :=
  if fHashSingle t && negb (Z.of_nat j =? nIn t) then CTxOut_SetNull else output (txTo t) j.

Lemma input_representable tx i :
  representable codec_CTransaction tx -> 0 <= i < length (vin tx) -> representable codec_CTxIn (input tx i).
Proof.
  intros (_ & _ & [[_ Hv] _] & _) Hi. unfold input. destruct (lookup_lt_is_Some_2 (vin tx) (Z.to_nat i)) as [x Hx]; [lia|].
  rewrite Hx. by apply (Forall_lookup_1 _ _ _ _ Hv Hx).
Qed.
Lemma output_representable tx i :
  representable codec_CTransaction tx -> 0 <= i < length (vout tx) -> representable codec_CTxOut (output tx i).
Proof.
  intros (_ & _ & _ & [[_ Hv] _] & _) Hi. unfold output. destruct (lookup_lt_is_Some_2 (vout tx) (Z.to_nat i)) as [x Hx]; [lia|].
  rewrite Hx. by apply (Forall_lookup_1 _ _ _ _ Hv Hx).
Qed.
Lemma empty_script_representable : representable codec_script [].
Proof. split; [cbn; unfold MAX_SIZE; lia|constructor]. Qed.
Lemma null_output_representable : representable codec_CTxOut CTxOut_SetNull.
Proof. split; [cbn; unfold in_sint; cbn; lia|apply empty_script_representable]. Qed.

Lemma SerializeInput_emits t (j : nat) :
  well_formed (scriptCode t) -> length (scriptCode t) <= MAX_SIZE ->
  representable codec_CTxIn (input (txTo t) (if fAnyoneCanPay t then nIn t else Z.of_nat j)) ->
  emits (SerializeInput t j) (encoding codec_CTxIn (sig_input t j)).
Proof.
  intros Hw Hl (H1 & H2 & H3). unfold SerializeInput, sig_input. cbv zeta.
  set (i := if fAnyoneCanPay t then nIn t else Z.of_nat j) in *.
  apply emits_bind; [by apply Serialize_emits|]. apply emits_bind.
  - destruct (i =? nIn t); cbn [negb]; [by apply SerializeScriptCode_emits|]. apply Serialize_emits, empty_script_representable.
  - cbn [nSequence]. destruct (_ && _); [|by apply Serialize_emits].
    change (encoding codec_uint32 0) with (encoding codec_int32 0). apply Serialize_emits. cbn. unfold in_sint. cbn. lia.
Qed.

Lemma SerializeOutput_emits t (j : nat) :
  (fHashSingle t && negb (Z.of_nat j =? nIn t) = false -> representable codec_CTxOut (output (txTo t) j)) ->
  emits (SerializeOutput t j) (encoding codec_CTxOut (sig_output t j)).
Proof.
  intros Ho. unfold SerializeOutput, sig_output. destruct (_ && _); apply Serialize_emits; [apply null_output_representable|auto].
Qed.

Definition sig_tx (t : CTransactionSignatureSerializer) : CTransaction :=
  let tx := txTo t in
  mkCTransaction (sig_input t <$> seq 0 (if fAnyoneCanPay t then 1 else length (vin tx)))
    (sig_output t <$> seq 0 (if fHashNone t then 0 else if fHashSingle t then Z.to_nat (nIn t + 1) else length (vout tx)))
    (tx_nVersion tx) (tx_nType tx) (nLockTime tx) (vExtraPayload tx).

Lemma SerializeSig_emits t :
  representable codec_CTransaction (txTo t) -> well_formed (scriptCode t) -> length (scriptCode t) <= MAX_SIZE ->
  0 <= nIn t < length (vin (txTo t)) -> (fHashSingle t = true -> nIn t < length (vout (txTo t))) ->
  emits (SerializeSig t) (encoding codec_CTransaction (sig_tx t)).
Proof.
  intros Hr Hw Hl Hi Ho. pose proof Hr as (H1 & H2 & [[Hvin _] _] & [[Hvout _] _] & H5 & H6).
  destruct (version_halves _ _ H1 H2) as [Hx _]. unfold MAX_SIZE in Hvin, Hvout.
  unfold SerializeSig. cbv zeta. cbn [encoding codec_CTransaction_laws sig_tx vin vout tx_nVersion tx_nType nLockTime vExtraPayload].
  apply emits_bind; [by apply Serialize_emits|].
  change (encoding codec_vin ?l) with (compact_size_bytes (length l) ++ encode_each codec_CTxIn l).
  change (encoding codec_vout ?l) with (compact_size_bytes (length l) ++ encode_each codec_CTxOut l).
  rewrite !length_fmap, !length_seq, <- !app_assoc. unfold encode_each. rewrite <- !list_fmap_compose.
  apply emits_bind.
  { destruct (fAnyoneCanPay t); [apply emits_compact_size; unfold in_uint; lia|].
    rewrite u32_small by lia. apply emits_compact_size. unfold in_uint. lia. }
  apply emits_bind.
  { replace (Z.to_nat (if fAnyoneCanPay t then 1 else u32 (length (vin (txTo t))))) with (if fAnyoneCanPay t then 1 else length (vin (txTo t)))%nat
      by (destruct (fAnyoneCanPay t); [done|rewrite u32_small; lia]).
    apply for_each_emits. intros j Hj. apply SerializeInput_emits; [done..|]. apply input_representable; [done|].
    destruct (fAnyoneCanPay t); lia. }
  assert (Hn : (if fHashNone t then 0 else if fHashSingle t then u32 (nIn t + 1) else u32 (length (vout (txTo t)))) =
    Z.of_nat (if fHashNone t then 0 else if fHashSingle t then Z.to_nat (nIn t + 1) else length (vout (txTo t)))%nat).
  { destruct (fHashNone t); [done|]. destruct (fHashSingle t); [specialize (Ho eq_refl)|]; rewrite u32_small; lia. }
  rewrite Hn. apply emits_bind.
  { apply emits_compact_size. unfold in_uint. rewrite <- Hn. destruct (fHashNone t); [lia|].
    destruct (fHashSingle t); [specialize (Ho eq_refl)|]; rewrite u32_small; lia. }
  apply emits_bind.
  { rewrite Nat2Z.id. apply for_each_emits. intros j Hj. apply SerializeOutput_emits. intros Hs. apply output_representable; [done|].
    destruct (fHashNone t); [lia|]. destruct (fHashSingle t); [specialize (Ho eq_refl); cbn [andb] in Hs; lia|lia]. }
  apply emits_bind; [by apply Serialize_emits|]. destruct (has_payload _ _); [by apply Serialize_emits|apply emits_ret].
Qed.
End serializer_laws.

(** ** Both hash the same bytes *)

Section copy.
Context (code : script) (tx : CTransaction) (nIn nHashType : Z).
Context (Hi : 0 <= nIn < length (vin tx)) (Ho : (nHashType &&& 0x1f) = SIGHASH_SINGLE -> nIn < length (vout tx)).
#[local] Abbreviation ht := (nHashType &&& 0x1f).
#[local] Abbreviation t := (CTransactionSignatureSerializer_new tx code nIn nHashType).

(** the inputs of the copy before all but one are dropped *)
Definition copy_vin : list CTxIn :=
  let v := imap (λ (i : nat) x, mkCTxIn (prevout x) (if Z.of_nat i =? nIn then strip code else []) (nSequence x)) (vin tx) in
  if (ht =? SIGHASH_NONE) || (ht =? SIGHASH_SINGLE) then relax_others nIn v else v.
Definition copy_vout : list CTxOut :=
  if ht =? SIGHASH_NONE then []
  else if ht =? SIGHASH_SINGLE
  then imap (λ (i : nat) o, if Z.of_nat i <? nIn then CTxOut_SetNull else o) (take (Z.to_nat (nIn + 1)) (vout tx))
  else vout tx.

Lemma copy_vin_lookup (j : nat) :
  copy_vin !! j = (λ x, mkCTxIn (prevout x) (if Z.of_nat j =? nIn then strip code else [])
    (if negb (Z.of_nat j =? nIn) && ((ht =? SIGHASH_SINGLE) || (ht =? SIGHASH_NONE)) then 0 else nSequence x)) <$> vin tx !! j.
Proof.
  unfold copy_vin, relax_others. cbv zeta. rewrite (orb_comm (ht =? SIGHASH_SINGLE)). destruct (_ || _);
    rewrite ?list_lookup_imap; destruct (vin tx !! j); cbn; try done; by destruct (_ =? _).
Qed.

Lemma copy_vin_eq :
  (if negb ((nHashType &&& SIGHASH_ANYONECANPAY) =? 0) then option_list (copy_vin !! Z.to_nat nIn) else copy_vin) = vin (sig_tx t).
Proof.
  unfold sig_tx. cbn [vin txTo CTransactionSignatureSerializer_new fAnyoneCanPay].
  assert (Hsig : forall (j : nat) x, vin tx !! j = Some x ->
    negb ((nHashType &&& SIGHASH_ANYONECANPAY) =? 0) = false \/ Z.of_nat j = nIn ->
    exists j', j' = (if negb ((nHashType &&& SIGHASH_ANYONECANPAY) =? 0) then 0%nat else j) /\ copy_vin !! j = Some (sig_input t j')).
  { intros j x Hx Hj. eexists. split; [done|]. rewrite copy_vin_lookup, Hx. unfold sig_input, input.
    cbn [txTo CTransactionSignatureSerializer_new fAnyoneCanPay fHashNone fHashSingle SigHash.nIn scriptCode].
    destruct Hj as [->| <-]; [cbv iota; by rewrite Nat2Z.id, Hx|].
    destruct (negb ((nHashType &&& SIGHASH_ANYONECANPAY) =? 0)); by rewrite Nat2Z.id, Hx. }
  destruct (negb ((nHashType &&& SIGHASH_ANYONECANPAY) =? 0)) eqn:Ea.
  - destruct (lookup_lt_is_Some_2 (vin tx) (Z.to_nat nIn)) as [x Hx]; [lia|].
    destruct (Hsig _ x Hx) as (j' & -> & ->); [right; lia|done].
  - apply list_eq. intros j. rewrite list_lookup_fmap. destruct (vin tx !! j) as [x|] eqn:Hx.
    + destruct (Hsig j x Hx) as (j' & -> & ->); [by left|]. by rewrite lookup_seq_lt by (by apply lookup_lt_Some in Hx).
    + rewrite copy_vin_lookup, Hx, lookup_seq_ge; [done|]. by apply lookup_ge_None in Hx.
Qed.

Lemma copy_vout_eq : copy_vout = vout (sig_tx t).
Proof.
  unfold copy_vout, sig_tx. cbn [vout txTo CTransactionSignatureSerializer_new fHashNone fHashSingle SigHash.nIn].
  destruct (ht =? SIGHASH_NONE); [done|]. apply list_eq. intros j. rewrite list_lookup_fmap. unfold sig_output, output.
  cbn [txTo CTransactionSignatureSerializer_new fHashSingle SigHash.nIn].
  destruct (Z.eqb_spec ht SIGHASH_SINGLE) as [Hs|].
  - specialize (Ho Hs). rewrite list_lookup_imap. destruct (decide (j < Z.to_nat (nIn + 1))%nat) as [Hj|Hj].
    + rewrite lookup_take_lt, lookup_seq_lt by lia. cbn [fmap option_fmap option_map andb].
      destruct (lookup_lt_is_Some_2 (vout tx) j) as [x Hx]; [lia|]. cbn [Nat.add]. rewrite Nat2Z.id, Hx. cbn.
      replace (Z.of_nat j <? nIn) with (negb (Z.of_nat j =? nIn)) by lia. done.
    + by rewrite lookup_take_ge, lookup_seq_ge by lia.
  - cbn [andb]. destruct (vout tx !! j) as [x|] eqn:Hx.
    + rewrite lookup_seq_lt by (by apply lookup_lt_Some in Hx). cbn. by rewrite Nat2Z.id, Hx.
    + rewrite lookup_seq_ge; [done|]. by apply lookup_ge_None in Hx.
Qed.

Lemma txTmp_sig_tx : txTmp code tx nIn nHashType = Some (sig_tx t).
Proof.
  transitivity (Some (mkCTransaction (vin (sig_tx t)) (vout (sig_tx t)) (tx_nVersion tx) (tx_nType tx) (nLockTime tx) (vExtraPayload tx))); [|done].
  rewrite <- copy_vin_eq, <- copy_vout_eq. unfold txTmp, copy_vin, copy_vout. rewrite FindAndDelete_strip.
  destruct (Z.leb_spec (length (vin tx)) nIn); [lia|]. cbv zeta. cbn [vin vout tx_nVersion tx_nType nLockTime vExtraPayload].
  destruct (Z.eqb_spec ht SIGHASH_NONE); cbn [orb]; [cbn; by destruct (negb _)|].
  destruct (Z.eqb_spec ht SIGHASH_SINGLE) as [Hs|]; cbn [orb]; [|cbn; by destruct (negb _)].
  destruct (Z.leb_spec (length (vout tx)) nIn); [specialize (Ho Hs); lia|]. cbn. by destruct (negb _).
Qed.
End copy.

Lemma strip_length s : well_formed s -> (length (strip s) <= length s)%nat.
Proof. intros Hw. by apply (count_separators_spec s (Datatypes.S (length s)) 0 Hw); lia. Qed.

Lemma sig_tx_representable t :
  representable codec_CTransaction (txTo t) -> small_block (scriptCode t) -> well_formed (scriptCode t) ->
  0 <= nIn t < length (vin (txTo t)) -> (fHashSingle t = true -> nIn t < length (vout (txTo t))) ->
  representable codec_CTransaction (sig_tx t).
Proof.
  intros Hr [Hl Hb] Hw Hi Ho. pose proof Hr as (H1 & H2 & [[Hvin _] Hsz] & [[Hvout _] Hsz'] & H5 & H6).
  pose proof (strip_length _ Hw) as Hle. unfold sig_tx.
  split; [done|]. split; [done|]. split; [|split; [|by split]]; (split; [split|done]); cbn [vin vout].
  - rewrite length_fmap, length_seq. destruct (fAnyoneCanPay t); unfold MAX_SIZE in *; lia.
  - apply Forall_fmap, Forall_seq. intros j Hj. unfold compose, sig_input. cbv zeta.
    set (i := if fAnyoneCanPay t then nIn t else Z.of_nat j).
    destruct (input_representable (txTo t) i Hr) as (I1 & I2 & I3); [unfold i; destruct (fAnyoneCanPay t); lia|].
    split; [done|]. split.
    + cbn [scriptSig]. destruct (i =? nIn t); [|apply empty_script_representable].
      split; [lia|by apply without_separators_bytes].
    + cbn [nSequence]. destruct (_ && _); [|done]. cbn. unfold in_uint. lia.
  - rewrite length_fmap, length_seq. unfold MAX_SIZE in *. destruct (fHashNone t); [lia|].
    destruct (fHashSingle t); [specialize (Ho eq_refl)|]; lia.
  - apply Forall_fmap, Forall_seq. intros j Hj. unfold compose, sig_output. destruct (_ && _) eqn:E; [apply null_output_representable|].
    apply output_representable; [done|]. destruct (fHashNone t); [lia|].
    destruct (fHashSingle t); [specialize (Ho eq_refl); cbn [andb] in E; lia|lia].
Qed.

(** a transaction within what the format represents is smaller than what a hash takes *)
Lemma length_compact_size n : (length (compact_size_bytes n) <= 9)%nat.
Proof. unfold compact_size_bytes. repeat case_match; cbn; rewrite ?length_le_bytes; lia. Qed.
Lemma length_encode_each {T} (c : codec T) `{!CodecLaws c} k v :
  Forall (λ x, Z.of_nat (length (encoding c x)) <= k) v -> length (encode_each c v) <= length v * k.
Proof. unfold encode_each. induction 1 as [|x v Hx Hv IH]; [done|]. cbn [fmap list_fmap concat length]. rewrite length_app. cbn in IH. lia. Qed.
Lemma length_script s : small_block s -> length (encoding codec_script s) <= 2 ^ 25 + 9.
Proof.
  intros [Hl _]. change (encoding codec_script s) with (sized_block s). unfold sized_block, MAX_SIZE in *. rewrite length_app.
  pose proof (length_compact_size (length s)). lia.
Qed.
Lemma length_CTxIn i : representable codec_CTxIn i -> length (encoding codec_CTxIn i) <= 2 ^ 26.
Proof.
  intros (([H1 _] & _) & H2 & _). apply length_script in H2.
  change (encoding codec_CTxIn i) with ((hash (prevout i) ++ le_bytes 4 (n (prevout i))) ++ encoding codec_script (scriptSig i) ++ le_bytes 4 (nSequence i)).
  rewrite !length_app, !length_le_bytes. lia.
Qed.
Lemma length_CTxOut o : representable codec_CTxOut o -> length (encoding codec_CTxOut o) <= 2 ^ 26.
Proof.
  intros [_ H2]. apply length_script in H2.
  change (encoding codec_CTxOut o) with (le_bytes 8 (u64 (nValue o)) ++ encoding codec_script (scriptPubKey o)).
  rewrite length_app, length_le_bytes. lia.
Qed.
Lemma length_CTransaction tx : representable codec_CTransaction tx -> length (encoding codec_CTransaction tx) < 2 ^ 60.
Proof.
  intros (H1 & H2 & [[L3 H3] _] & [[L4 H4] _] & H5 & H6).
  change (encoding codec_CTransaction tx) with (le_bytes 4 (u32 (i32 (tx_nVersion tx ||| (tx_nType tx << 16)))) ++
    (compact_size_bytes (length (vin tx)) ++ encode_each codec_CTxIn (vin tx)) ++
    (compact_size_bytes (length (vout tx)) ++ encode_each codec_CTxOut (vout tx)) ++ le_bytes 4 (nLockTime tx) ++
    (if has_payload (tx_nVersion tx) (tx_nType tx) then sized_block (vExtraPayload tx) else [])).
  assert (B3 : length (encode_each codec_CTxIn (vin tx)) <= length (vin tx) * 2 ^ 26)
    by (apply length_encode_each; eapply Forall_impl; [exact H3|apply length_CTxIn]).
  assert (B4 : length (encode_each codec_CTxOut (vout tx)) <= length (vout tx) * 2 ^ 26)
    by (apply length_encode_each; eapply Forall_impl; [exact H4|apply length_CTxOut]).
  pose proof (length_compact_size (length (vin tx))). pose proof (length_compact_size (length (vout tx))). unfold MAX_SIZE in *.
  assert (B6 : length (if has_payload (tx_nVersion tx) (tx_nType tx) then sized_block (vExtraPayload tx) else []) <= 2 ^ 26).
  { destruct (has_payload _ _); [|cbn; lia]. apply length_script in H6. change (encoding codec_script ?s) with (sized_block s) in H6. lia. }
  rewrite !length_app, !length_le_bytes. lia.
Qed.

Section preimage.
Context (D : Sha256.dispatch) `{HD : !GoodDispatch D}.

(** the hash of what an action writes *)
Lemma hash_written (m : action CHashWriter unit) b :
  emits m b -> length b < 2 ^ 61 -> CHashWriter_GetHash D (m (CHashWriter_new SER_GETHASH 0)).2 = SHA256d b.
Proof.
  intros Hm Hl. destruct (Hm (CHashWriter_new SER_GETHASH 0)) as (w & -> & Hw).
  { exists []. split; [apply hashed_new|]. simpl. lia. }
  apply (CHash256_Finalize_spec D (HD:=HD) (ctx w) b); [|done]. apply (Hw []); [apply hashed_new|]. simpl. lia.
Qed.

Definition preimage (t : CTransactionSignatureSerializer) (nHashType : Z) : list Z :=
  encoding codec_CTransaction (sig_tx t) ++ encoding codec_int32 nHashType.

Context (code : script) (tx : CTransaction) (i ht : Z).
#[local] Abbreviation t := (CTransactionSignatureSerializer_new tx code i ht).
Context (Hr : representable codec_CTransaction tx) (Hc : small_block code) (Hw : well_formed code).
Context (Hi : 0 <= i < length (vin tx)) (Hht : in_sint 32 ht).
Context (Ho : (ht &&& 0x1f) = SIGHASH_SINGLE -> i < length (vout tx)).

Lemma single_in_range : fHashSingle t = true -> nIn t < length (vout (txTo t)).
Proof. cbn. intros Hs%Z.eqb_eq. by apply Ho. Qed.

Lemma preimage_length : length (preimage t ht) < 2 ^ 61.
Proof.
  unfold preimage. rewrite length_app.
  pose proof (length_CTransaction _ (sig_tx_representable t Hr Hc Hw Hi single_in_range)).
  change (encoding codec_int32 ht) with (le_bytes 4 (u32 ht)). rewrite length_le_bytes. lia.
Qed.

Lemma SignatureHash_preimage : SignatureHash D code tx i ht = Some (SHA256d (preimage t ht)).
Proof.
  unfold SignatureHash. replace (i <? length (vin tx)) with true by lia. cbn [negb].
  replace (((ht &&& 0x1f) =? SIGHASH_SINGLE) && (length (vout tx) <=? i)) with false
    by (destruct (Z.eqb_spec (ht &&& 0x1f) SIGHASH_SINGLE) as [Hs|]; [specialize (Ho Hs); lia|done]).
  cbv zeta. rewrite <- (hash_written (_ ← SerializeSig t; Serialize codec_int32 ht)).
  - by destruct ((_ ← SerializeSig t; Serialize codec_int32 ht) (CHashWriter_new SER_GETHASH 0)).
  - unfold preimage. apply emits_bind; [|by apply Serialize_emits].
    apply SerializeSig_emits; [done..|apply Hc|done|apply single_in_range].
  - apply preimage_length.
Qed.

Lemma SignatureHashOld_preimage : SignatureHashOld D code tx i ht = SHA256d (preimage t ht).
Proof.
  unfold SignatureHashOld. rewrite txTmp_sig_tx by done. rewrite <- (hash_written (_ ← Serialize codec_CTransaction (sig_tx t); Serialize codec_int32 ht)).
  - by destruct ((_ ← Serialize codec_CTransaction (sig_tx t); Serialize codec_int32 ht) (CHashWriter_new SER_GETHASH 0)).
  - unfold preimage. apply emits_bind; [|by apply Serialize_emits].
    apply Serialize_emits, sig_tx_representable; [done..|apply single_in_range].
  - apply preimage_length.
Qed.
End preimage.

(** C9: The hash that is signed is that of the original implementation, which made a copy of the
    transaction, cut it down as the hash type says and serialized it: for every transaction within
    what the format represents, every input of it and every hash type, with a script whose
    operations can all be read. *)
Theorem SignatureHash_is_old (D : Sha256.dispatch) `{HD : !GoodDispatch D} (code : script) (tx : CTransaction) (i ht : Z) :
  representable codec_CTransaction tx -> small_block code -> well_formed code -> 0 <= i < length (vin tx) -> in_sint 32 ht ->
  SignatureHash D code tx i ht = Some (SignatureHashOld D code tx i ht).
Proof.
  intros Hr Hc Hw Hi Hht.
  destruct (decide ((ht &&& 0x1f) = SIGHASH_SINGLE /\ length (vout tx) <= i)) as [[Hs Hv]|Hn].
  - unfold SignatureHash, SignatureHashOld, txTmp. rewrite Hs. replace (i <? length (vin tx)) with true by lia.
    replace (length (vout tx) <=? i) with true by lia. replace (length (vin tx) <=? i) with false by lia. cbn.
    by replace (length (vout tx) <=? i) with true by lia.
  - assert (Ho : (ht &&& 0x1f) = SIGHASH_SINGLE -> i < length (vout tx)) by (intros Hs; destruct (Z.le_gt_cases (length (vout tx)) i); [tauto|done]).
    by rewrite (SignatureHash_preimage D), (SignatureHashOld_preimage D) by done.
Qed.

(** ** What is committed to *)

(** no encoding is a prefix of another one *)
Lemma encoding_app_inj {T} (c : codec T) `{!CodecLaws c} x y r1 r2 :
  representable c x -> representable c y -> bytes r1 -> length (encoding c x ++ r1) <= 2 ^ 31 ->
  encoding c x ++ r1 = encoding c y ++ r2 -> x = y /\ r1 = r2.
Proof.
  intros Hx Hy Hb Hl E. set (s := DataStream.new (encoding c x ++ r1) 0 0).
  assert (Hok : is_ok s).
  { split; [cbn; lia|]. split; [done|]. cbn [vch s DataStream.new]. apply Forall_app. split; [by apply encoding_bytes|done]. }
  assert (Hp : is_pending s = encoding c x ++ r1) by apply drop_0.
  destruct (Unserialize_parses (c:=c) (S:=CDataStream) x Hx s r1) as (s1 & Q1 & _ & P1); [done..|].
  destruct (Unserialize_parses (c:=c) (S:=CDataStream) y Hy s r2) as (s2 & Q2 & _ & P2); [done|by rewrite <- E|].
  rewrite Q1 in Q2. injection Q2 as -> ->. by rewrite P1 in P2.
Qed.

(** an input of a transaction that can be signed for a script and a hash type *)
Record signable (code : script) (tx : CTransaction) (i ht : Z) : Prop := {
  sgn_tx : representable codec_CTransaction tx;
  sgn_code : small_block code;
  sgn_ops : well_formed code;
  sgn_input : 0 <= i < length (vin tx);
  sgn_type : in_sint 32 ht;
  sgn_single : (ht &&& 0x1f) = SIGHASH_SINGLE -> i < length (vout tx);
}.
#[local] Abbreviation signed_as code tx i ht := (CTransactionSignatureSerializer_new tx code i ht).

Lemma sig_tx_all code tx i :
  0 <= i < length (vin tx) ->
  sig_tx (signed_as code tx i SIGHASH_ALL) =
    mkCTransaction (imap (λ (j : nat) x, mkCTxIn (prevout x) (if Z.of_nat j =? i then strip code else []) (nSequence x)) (vin tx))
      (vout tx) (tx_nVersion tx) (tx_nType tx) (nLockTime tx) (vExtraPayload tx).
Proof.
  intros Hi.
  transitivity (mkCTransaction (vin (sig_tx (signed_as code tx i SIGHASH_ALL))) (vout (sig_tx (signed_as code tx i SIGHASH_ALL)))
    (tx_nVersion tx) (tx_nType tx) (nLockTime tx) (vExtraPayload tx)); [done|].
  rewrite <- (copy_vin_eq code tx i SIGHASH_ALL Hi), <- (copy_vout_eq code tx i SIGHASH_ALL); done.
Qed.

(** C15: A signature binds what it signs: when two inputs have the same signature hash, and the two
    strings that are hashed do not happen to collide, then the hash types are the same and so are the
    copies that are hashed; for SIGHASH_ALL this means the same version, type, lock time and
    payload, the same outputs, the same outpoints and sequence numbers of the inputs, and (unless
    the script is empty) the same input and the same script. *)
Theorem SignatureHash_binds (D : Sha256.dispatch) `{HD : !GoodDispatch D} code1 tx1 i1 ht1 code2 tx2 i2 ht2 :
  let p1 := preimage (signed_as code1 tx1 i1 ht1) ht1 in
  let p2 := preimage (signed_as code2 tx2 i2 ht2) ht2 in
  signable code1 tx1 i1 ht1 -> signable code2 tx2 i2 ht2 -> length p1 <= 2 ^ 31 -> (SHA256d p1 = SHA256d p2 -> p1 = p2) ->
  SignatureHash D code1 tx1 i1 ht1 = SignatureHash D code2 tx2 i2 ht2 ->
  ht1 = ht2 /\ sig_tx (signed_as code1 tx1 i1 ht1) = sig_tx (signed_as code2 tx2 i2 ht2) /\
  (ht1 = SIGHASH_ALL ->
    tx_nVersion tx1 = tx_nVersion tx2 /\ tx_nType tx1 = tx_nType tx2 /\ nLockTime tx1 = nLockTime tx2 /\
    vExtraPayload tx1 = vExtraPayload tx2 /\ vout tx1 = vout tx2 /\
    prevout <$> vin tx1 = prevout <$> vin tx2 /\ nSequence <$> vin tx1 = nSequence <$> vin tx2 /\
    (strip code1 <> [] -> i1 = i2 /\ strip code1 = strip code2)).
Proof.
  intros p1 p2 [R1 C1 W1 I1 T1 S1] [R2 C2 W2 I2 T2 S2] Hl Hcol E.
  rewrite !(SignatureHash_preimage D) in E by done. injection E as E. specialize (Hcol E). unfold p1, p2, preimage in *.
  apply encoding_app_inj in Hcol as [Et Eh]; [|by apply sig_tx_representable; try apply single_in_range..
    |by apply encoding_bytes|done].
  rewrite <- (app_nil_r (encoding codec_int32 ht1)), <- (app_nil_r (encoding codec_int32 ht2)) in Eh.
  apply encoding_app_inj in Eh as [-> _]; [|done..|constructor|change (encoding codec_int32 ht1) with (le_bytes 4 (u32 ht1)); rewrite length_app, length_le_bytes; cbn; lia].
  split; [done|]. split; [done|]. intros ->. rewrite !sig_tx_all in Et by done. injection Et as Ein Eout Ev Ety Elt Ep.
  assert (Ej : forall j : nat,
    (λ x, mkCTxIn (prevout x) (if Z.of_nat j =? i1 then strip code1 else []) (nSequence x)) <$> vin tx1 !! j =
    (λ x, mkCTxIn (prevout x) (if Z.of_nat j =? i2 then strip code2 else []) (nSequence x)) <$> vin tx2 !! j)
    by (intros j; apply (f_equal (.!! j)) in Ein; by rewrite !list_lookup_imap in Ein).
  split_and!; try done.
  - apply list_eq. intros j. specialize (Ej j). rewrite !list_lookup_fmap. destruct (vin tx1 !! j), (vin tx2 !! j); cbn in *; congruence.
  - apply list_eq. intros j. specialize (Ej j). rewrite !list_lookup_fmap. destruct (vin tx1 !! j), (vin tx2 !! j); cbn in *; congruence.
  - intros Hne. specialize (Ej (Z.to_nat i1)). rewrite Z2Nat.id, Z.eqb_refl in Ej by lia.
    destruct (lookup_lt_is_Some_2 (vin tx1) (Z.to_nat i1)) as [x Hx]; [lia|]. rewrite Hx in Ej.
    destruct (vin tx2 !! Z.to_nat i1); [|done]. cbn in Ej. injection Ej as _ Es _. revert Es. by destruct (Z.eqb_spec i1 i2).
Qed.

(** *** Examples *)

(** a transaction whose input has some script, and a script with a separator *)
Definition example_tx (sig : script) : CTransaction :=
  mkCTransaction [mkCTxIn (mkCOutPoint (replicate 32 7) 1) sig SEQUENCE_FINAL] [mkCTxOut 5 [OP_1]] 2 0 0 [].
Definition example_code : script := [OP_1; OP_CODESEPARATOR; OP_CHECKSIG].

Lemma example_signable (sig : script) : small_block sig -> signable example_code (example_tx sig) 0 SIGHASH_ALL.
Proof.
  intros Hs. split.
  - split; [cbn; unfold in_uint; cbn; lia|]. split; [cbn; unfold in_uint; cbn; lia|].
    split; [|split; [|split; [cbn; unfold in_uint; cbn; lia|done]]].
    + split; [|unfold sizeof_CTxIn; lia]. split; [cbn; unfold MAX_SIZE; lia|]. constructor; [|constructor].
      split; [split; [split; [done|split; [unfold MAX_SIZE; lia|apply Forall_replicate; unfold in_uint; cbn; lia]]|cbn; unfold in_uint; cbn; lia]|].
      split; [done|cbn; unfold in_uint, SEQUENCE_FINAL; cbn; lia].
    + split; [|unfold sizeof_CTxOut; lia]. split; [cbn; unfold MAX_SIZE; lia|]. constructor; [|constructor].
      split; [cbn; unfold in_sint; cbn; lia|]. split; [cbn; unfold MAX_SIZE; lia|]. apply Forall_singleton; unfold in_uint, OP_1; cbn; lia.
  - split; [cbn; unfold MAX_SIZE; lia|]. unfold example_code, OP_1, OP_CODESEPARATOR, OP_CHECKSIG. repeat constructor; unfold in_uint; cbn; lia.
  - do 3 (eapply wf_op; [vm_compute; reflexivity|]). constructor.
  - cbn. lia.
  - unfold in_sint, SIGHASH_ALL. cbn. lia.
  - done.
Qed.
Lemma small_sig : small_block [1; 2].
Proof. split; [cbn; unfold MAX_SIZE; lia|]. repeat constructor; unfold in_uint; cbn; lia. Qed.
Lemma small_nil : small_block [].
Proof. split; [cbn; unfold MAX_SIZE; lia|constructor]. Qed.

Lemma SignatureHash_is_old_witness :
  SignatureHash Sha256.standard example_code (example_tx []) 0 SIGHASH_ALL =
  Some (SignatureHashOld Sha256.standard example_code (example_tx []) 0 SIGHASH_ALL).
Proof.
  destruct (example_signable [] small_nil) as [R C W I T _].
  exact (SignatureHash_is_old Sha256.standard example_code (example_tx []) 0 SIGHASH_ALL R C W I T).
Defined.

(** two transactions that differ in the script of the input have the same hash *)
Lemma SignatureHash_binds_witness :
  SignatureHash Sha256.standard example_code (example_tx [1; 2]) 0 SIGHASH_ALL = SignatureHash Sha256.standard example_code (example_tx []) 0 SIGHASH_ALL /\
  sig_tx (signed_as example_code (example_tx [1; 2]) 0 SIGHASH_ALL) = sig_tx (signed_as example_code (example_tx []) 0 SIGHASH_ALL).
Proof.
  assert (E : SignatureHash Sha256.standard example_code (example_tx [1; 2]) 0 SIGHASH_ALL = SignatureHash Sha256.standard example_code (example_tx []) 0 SIGHASH_ALL)
    by (vm_compute; reflexivity).
  split; [exact E|].
  refine (proj1 (proj2 (SignatureHash_binds Sha256.standard example_code (example_tx [1; 2]) 0 SIGHASH_ALL example_code (example_tx []) 0 SIGHASH_ALL
    (example_signable _ small_sig) (example_signable _ small_nil) _ _ E))).
  - vm_compute. discriminate.
  - intros _. vm_compute. reflexivity.
Defined.

(** ** Signatures *)

Definition be_value (l : list Z) : Z := le_value (rev l).

Section der_laws.
Context (inp : list Z) (Hb : bytes inp).

Lemma at_lookup i : 0 <= i < length inp -> inp !! Z.to_nat i = Some (at_ inp i).
Proof. intros Hi. unfold at_. destruct (lookup_lt_is_Some_2 inp (Z.to_nat i)) as [x Hx]; [lia|]. by rewrite Hx. Qed.

Lemma skip_zeros_spec (k : nat) pos :
  0 <= pos -> pos + k <= length inp ->
  let '(pos', len) := skip_zeros inp k pos in
  0 <= len <= k /\ pos' = pos + (k - len) /\
  take k (drop (Z.to_nat pos) inp) = replicate (k - Z.to_nat len) 0 ++ take (Z.to_nat len) (drop (Z.to_nat pos') inp) /\
  (len = 0 \/ at_ inp pos' <> 0).
Proof.
  revert pos. induction k as [|k IH]; intros pos Hp Hl; [cbn; split_and!; (done || lia || by left)|].
  cbn [skip_zeros]. pose proof (at_lookup pos ltac:(lia)) as Hx. rewrite (drop_S _ _ _ Hx) in *.
  destruct (Z.eqb_spec (at_ inp pos) 0) as [E|E].
  - specialize (IH (pos + 1) ltac:(lia) ltac:(lia)). destruct (skip_zeros inp k (pos + 1)) as [pos' len].
    destruct IH as (H1 & H2 & H3 & H4). split_and!; [lia..| |done].
    rewrite E. cbn [take]. replace (S (Z.to_nat pos)) with (Z.to_nat (pos + 1)) by lia. rewrite H3.
    replace (S k - Z.to_nat len)%nat with (S (k - Z.to_nat len)) by lia. done.
  - split_and!; try lia. rewrite Nat2Z.id, Nat.sub_diag, (drop_S _ _ _ Hx). done.
Qed.

Lemma rev_zeros (k : nat) : rev (replicate k 0) = replicate k 0.
Proof. rewrite rev_alt. apply reverse_replicate. Qed.
Lemma be_value_zeros (k : nat) w : be_value (replicate k 0 ++ w) = be_value w.
Proof.
  unfold be_value. rewrite rev_app_distr, rev_zeros, le_value_app, le_value_zeros. lia.
Qed.
Lemma be_value_head x w : bytes (x :: w) -> x <> 0 -> 256 ^ length w <= be_value (x :: w).
Proof.
  intros Hw Hx. unfold be_value. cbn [rev]. rewrite le_value_app, length_rev. cbn [le_value].
  apply Forall_cons in Hw as [Hxb Hw]. unfold in_uint in Hxb.
  assert (0 <= le_value (rev w)) by (apply le_value_range; by apply Forall_rev). nia.
Qed.

(** an integer is copied when it fits in 32 bytes *)
Lemma der_value_spec pos (k : nat) :
  0 <= pos -> pos + k <= length inp ->
  let v := be_value (take k (drop (Z.to_nat pos) inp)) in
  der_value inp pos k = if v <? 2 ^ 256 then Some (rev (le_bytes 32 v)) else None.
Proof.
  intros Hp Hl. unfold der_value. rewrite Nat2Z.id. pose proof (skip_zeros_spec k pos Hp Hl) as Hs.
  destruct (skip_zeros inp k pos) as [pos' len]. destruct Hs as (H1 & H2 & -> & H4). cbv zeta. rewrite be_value_zeros.
  set (w := take (Z.to_nat len) (drop (Z.to_nat pos') inp)).
  assert (Hwl : length w = Z.to_nat len) by (unfold w; rewrite length_take, length_drop; lia).
  assert (Hwb : bytes w) by (by apply Forall_take, Forall_drop).
  assert (Hr : 0 <= be_value w < 256 ^ length w).
  { pose proof (le_value_range (rev w) (Forall_rev Hwb)) as Hr. rewrite length_rev in Hr. by rewrite pow256_nat. }
  destruct (Z.ltb_spec 32 len) as [Hlen|Hlen].
  - destruct H4 as [H4|H4]; [lia|]. pose proof (at_lookup pos' ltac:(lia)) as Hx.
    assert (Hw : w = at_ inp pos' :: take (Z.to_nat len - 1) (drop (S (Z.to_nat pos')) inp)).
    { unfold w. rewrite (drop_S _ _ _ Hx). by destruct (Z.to_nat len) eqn:E; [lia|]; cbn; rewrite Nat.sub_0_r. }
    pose proof (be_value_head _ _ ltac:(by rewrite Hw in Hwb) H4) as Hv. rewrite <- Hw in Hv.
    rewrite Hw in Hwl. cbn [length] in Hwl. 
    assert (2 ^ 256 <= 256 ^ length (take (Z.to_nat len - 1) (drop (S (Z.to_nat pos')) inp)))
      by (rewrite pow256_nat; apply Z.pow_le_mono_r; lia).
    destruct (Z.ltb_spec (be_value w) (2 ^ 256)); [lia|done].
  - assert (256 ^ length w <= 2 ^ 256) by (rewrite pow256_nat; apply Z.pow_le_mono_r; lia).
    destruct (Z.ltb_spec (be_value w) (2 ^ 256)); [|lia]. f_equal.
    set (u := rev w ++ replicate (Z.to_nat (32 - len)) 0).
    assert (Hu : length u = 32%nat) by (unfold u; rewrite length_app, length_rev, length_replicate; lia).
    assert (Hv : le_value u = be_value w) by (unfold u; rewrite le_value_app, le_value_zeros; unfold be_value; lia).
    assert (Hub : bytes u) by (apply Forall_app; split; [by apply Forall_rev|apply Forall_replicate; unfold in_uint; lia]).
    rewrite <- Hv. rewrite <- Hu, le_bytes_le_value by done. unfold u. rewrite rev_app_distr, rev_zeros, rev_involutive. done.
Qed.
End der_laws.

Lemma at_byte v i : bytes v -> is_byte (at_ v i).
Proof.
  intros Hv. unfold at_. destruct (v !! Z.to_nat i) eqn:E; [by apply (Forall_lookup_1 _ _ _ _ Hv E)|]. cbn. unfold in_uint. lia.
Qed.
Lemma at_take v (k : nat) i : 0 <= i < k -> at_ (take k v) i = at_ v i.
Proof. intros Hi. unfold at_. by rewrite lookup_take_lt by lia. Qed.
Lemma slice_take (v : list Z) (k p n : nat) : (p + n <= k)%nat -> take n (drop p (take k v)) = take n (drop p v).
Proof. intros H. rewrite skipn_firstn_comm, firstn_firstn. f_equal. lia. Qed.

(** the layout that [IsValidSignatureEncoding] accepts *)
Lemma valid_encoding sig :
  IsValidSignatureEncoding sig = true -> bytes sig ->
  let lenR := at_ sig 3 in let lenS := at_ sig (5 + lenR) in
  at_ sig 0 = 0x30 /\ at_ sig 1 = length sig - 3 /\ at_ sig 2 = 2 /\ at_ sig (lenR + 4) = 2 /\
  0 < lenR /\ 0 < lenS /\ lenR + lenS + 7 = length sig /\ length sig <= 73.
Proof.
  intros H Hb. unfold IsValidSignatureEncoding in H. pose proof (at_byte sig 3 Hb) as [? _].
  pose proof (at_byte sig (5 + at_ sig 3) Hb) as [? _].
  repeat match type of H with (if ?c then false else _) = true => destruct c eqn:?; [discriminate H|] end.
  cbv zeta. repeat match goal with E : negb _ = false |- _ => apply negb_false_iff, Z.eqb_eq in E end.
  split_and!; try done; lia.
Qed.

(** The parser of the elliptic curve checks reads a strictly encoded signature as it was meant: when
    [IsValidSignatureEncoding] accepts some bytes, then [ecdsa_signature_parse_der_lax] succeeds on
    them without the hash type, and what it gives the library is the two numbers of the encoding in 32
    big-endian bytes each (or an overflow when one of them does not fit). *)
Theorem strict_signature_parsed (sig : valtype) :
  bytes sig -> IsValidSignatureEncoding sig = true ->
  let lenR := at_ sig 3 in let lenS := at_ sig (5 + lenR) in
  let r := be_value (take (Z.to_nat lenR) (drop 4 sig)) in
  let s := be_value (take (Z.to_nat lenS) (drop (Z.to_nat (6 + lenR)) sig)) in
  lenR + lenS + 7 = length sig /\
  der_lax (take (length sig - 1) sig) =
    Some (if (r <? 2 ^ 256) && (s <? 2 ^ 256) then Some (rev (le_bytes 32 r) ++ rev (le_bytes 32 s)) else None).
Proof.
  intros Hb Hv lenR lenS r s. destruct (valid_encoding sig Hv Hb) as (E0 & E1 & E2 & E3 & HR & HS & Hlen & Hmax).
  fold lenR in E3, HR, HS, Hlen. fold lenS in HS, Hlen. split; [done|].
  set (inp := take (length sig - 1) sig).
  assert (Hl : length inp = (length sig - 1)%nat) by (unfold inp; rewrite length_take; lia).
  assert (Hbi : bytes inp) by (by apply Forall_take).
  assert (Hat : forall i, 0 <= i < length sig - 1 -> at_ inp i = at_ sig i) by (intros i Hi; apply at_take; lia).
  assert (H80 : forall i, 0 <= i < length sig - 1 -> at_ sig i < 128 -> ((at_ sig i &&& 0x80) =? 0) = true)
    by (intros i Hi Hlt; rewrite land_80 by (by apply at_byte); lia).
  unfold der_lax.
  replace (der_sequence inp) with (Some 2).
  2: { unfold der_sequence. change (0 + 1) with 1. rewrite !Hat, E0, H80 by lia. replace (0 =? length inp) with false by lia.
       by replace (1 =? length inp) with false by lia. }
  replace (der_integer inp 2) with (Some (4, lenR)).
  2: { unfold der_integer. change (2 + 1) with 3. rewrite !Hat, E2 by lia. replace (2 =? length inp) with false by lia.
       replace (3 =? length inp) with false by lia. rewrite H80 by (fold lenR; lia). fold lenR. cbn [negb orb].
       change (3 + 1) with 4.
       replace (length inp - 4 <? lenR) with false by lia. done. }
  replace (der_integer inp (4 + lenR)) with (Some (6 + lenR, lenS)).
  2: { unfold der_integer. rewrite !Hat by lia. rewrite (Z.add_comm 4 lenR), E3. replace (lenR + 4 =? length inp) with false by lia.
       replace (lenR + 4 + 1 =? length inp) with false by lia. replace (lenR + 4 + 1) with (5 + lenR) by lia.
       rewrite H80 by (fold lenS; lia). fold lenS. cbn [negb orb]. replace (5 + lenR + 1) with (6 + lenR) by lia.
       by replace (length inp - (6 + lenR) <? lenS) with false by lia. }
  pose proof (der_value_spec inp Hbi 4 (Z.to_nat lenR) ltac:(lia) ltac:(lia)) as DR.
  pose proof (der_value_spec inp Hbi (6 + lenR) (Z.to_nat lenS) ltac:(lia) ltac:(lia)) as DS.
  cbv zeta in DR, DS. unfold inp in DR, DS. rewrite slice_take in DR, DS by lia. rewrite Z2Nat.id in DR, DS by lia. fold inp in DR, DS.
  change (Z.to_nat 4) with 4%nat in DR. fold r in DR. fold s in DS. rewrite DR, DS.
  by destruct (r <? 2 ^ 256), (s <? 2 ^ 256).
Qed.

(** r = 1, s = 255 *)
Definition example_signature : valtype := [0x30; 7; 2; 1; 1; 2; 2; 0; 255; 1].
Lemma strict_signature_parsed_witness :
  IsValidSignatureEncoding example_signature = true /\
  der_lax (take 9 example_signature) = Some (Some (rev (le_bytes 32 1) ++ rev (le_bytes 32 255))).
Proof.
  assert (Hv : IsValidSignatureEncoding example_signature = true) by (vm_compute; reflexivity).
  split; [exact Hv|].
  refine (proj2 (strict_signature_parsed example_signature _ Hv)).
  unfold example_signature. repeat constructor; unfold in_uint; cbn; lia.
Defined.
