(* ===== verification/Standard.v ===== *)
(** * Standard scripts: script/standard.h and script/standard.cpp

    [Solver] recognises the usual output scripts by matching them against templates;
    destinations are turned into scripts and found in them. *)

From S2P Require Import Prelude Bytes BlockHash Script Sha256 Sha256Laws Hash Compressor Interpreter.

Definition MAX_OP_RETURN_RELAY : Z := 83.
Definition MANDATORY_SCRIPT_VERIFY_FLAGS : Z := SCRIPT_VERIFY_P2SH.

Inductive txnouttype := TX_NONSTANDARD | TX_PUBKEY | TX_PUBKEYHASH | TX_SCRIPTHASH | TX_MULTISIG | TX_NULL_DATA.
#[export] Instance txnouttype_eq_dec : EqDecision txnouttype.
Proof. solve_decision. Defined.

Definition GetTxnOutputType (t : txnouttype) : string :=
  match t with
  | TX_NONSTANDARD => "nonstandard"
  | TX_PUBKEY => "pubkey"
  | TX_PUBKEYHASH => "pubkeyhash"
  | TX_SCRIPTHASH => "scripthash"
  | TX_MULTISIG => "multisig"
  | TX_NULL_DATA => "nulldata"
  end.

(** boost::variant<CNoDestination, CKeyID, CScriptID> *)
Inductive CTxDestination := CNoDestination | CKeyID (id : list Z) | CScriptID (id : list Z).
Definition IsValidDestination (dest : CTxDestination) : bool := match dest with CNoDestination => false | _ => true end.

(** ** Matching *)

(** the multimap of templates, in the order of its keys *)
Definition mTemplates : list (txnouttype * script) :=
  [(TX_PUBKEY, [OP_PUBKEY; OP_CHECKSIG]);
   (TX_PUBKEYHASH, [OP_DUP; OP_HASH160; OP_PUBKEYHASH; OP_EQUALVERIFY; OP_CHECKSIG]);
   (TX_MULTISIG, [OP_SMALLINTEGER; OP_PUBKEYS; OP_SMALLINTEGER; OP_CHECKMULTISIG])].

(** [while (CPubKey::ValidSize(vch1)) ...]: every round reads an operation of [script1], so that its length is
    enough fuel *)
Fixpoint match_pubkeys (fuel : nat) (pc1 : script) (opcode1 : Z) (vch1 : valtype) (vSolutions : list valtype) :
  script * Z * valtype * list valtype :=
  match fuel with
  | O => (pc1, opcode1, vch1, vSolutions)
  | S fuel =>
      if PubKey.ValidSize vch1 then
        let vSolutions := vSolutions ++ [vch1] in
        let '(ok, pc1, opcode1, vch1) := Script.GetOp pc1 in
        if ok then match_pubkeys fuel pc1 opcode1 vch1 vSolutions else (pc1, opcode1, vch1, vSolutions)
      else (pc1, opcode1, vch1, vSolutions)
  end.

(** the solutions when the template matches; every round reads an operation of [script2] *)
Fixpoint match_template (fuel : nat) (pc1 pc2 : script) (vSolutions : list valtype) : option (list valtype) :=
  match fuel with
  | O => None
  | S fuel =>
      if (length pc1 =? 0)%nat && (length pc2 =? 0)%nat then Some vSolutions
      else
        let '(ok1, pc1, opcode1, vch1) := Script.GetOp pc1 in
        if negb ok1 then None
        else
          let '(ok2, pc2, opcode2, vch2) := Script.GetOp pc2 in
          if negb ok2 then None
          else
            let '(pc1, opcode1, vch1, vSolutions) :=
              if opcode2 =? OP_PUBKEYS then match_pubkeys (S (length pc1)) pc1 opcode1 vch1 vSolutions
              else (pc1, opcode1, vch1, vSolutions) in
            let '(ok2, pc2, opcode2, vch2) :=
              if opcode2 =? OP_PUBKEYS then Script.GetOp pc2 else (true, pc2, opcode2, vch2) in
            if negb ok2 then None
            else if opcode2 =? OP_PUBKEY then
              if negb (PubKey.ValidSize vch1) then None else match_template fuel pc1 pc2 (vSolutions ++ [vch1])
            else if opcode2 =? OP_PUBKEYHASH then
              if negb (length vch1 =? 20)%nat then None else match_template fuel pc1 pc2 (vSolutions ++ [vch1])
            else if opcode2 =? OP_SMALLINTEGER then
              match Script.DecodeOP_N opcode1 with
              | Some n => match_template fuel pc1 pc2 (vSolutions ++ [[n]])
              | None => None
              end
            else if negb (opcode1 =? opcode2) || negb (bool_decide (vch1 = vch2)) then None
            else match_template fuel pc1 pc2 vSolutions
  end.

Definition front (l : list valtype) : valtype := default [] (head l).
Definition back_ (l : list valtype) : valtype := default [] (last l).

(** the first template that matches; for TX_MULTISIG with more checks, which end the search *)
Fixpoint scan_templates (l : list (txnouttype * script)) (script1 : script) : bool * txnouttype * list valtype :=
  match l with
  | [] => (false, TX_NONSTANDARD, [])
  | (typeRet, script2) :: l =>
      match match_template (S (length script2)) script1 script2 [] with
      | Some vSolutions =>
          let m := at_ (front vSolutions) 0 in
          let n := at_ (back_ vSolutions) 0 in
          let bad := match typeRet with
                     | TX_MULTISIG => (m <? 1) || (n <? 1) || (n <? m) || negb (length vSolutions - 2 =? n)
                     | _ => false
                     end in
          (negb bad, typeRet, vSolutions)
      | None => scan_templates l script1
      end
  end.

(** the result, [typeRet] and [vSolutionsRet] *)
Definition Solver (scriptPubKey : script) : bool * txnouttype * list valtype :=
  if Script.IsPayToScriptHash scriptPubKey then (true, TX_SCRIPTHASH, [take 20 (drop 2 scriptPubKey)])
  else if (1 <=? length scriptPubKey) && (at_ scriptPubKey 0 =? OP_RETURN) && Script.IsPushOnly (drop 1 scriptPubKey)
  then (true, TX_NULL_DATA, [])
  else scan_templates mTemplates scriptPubKey.

(** ** Destinations *)

Section destinations.
Context (D : Sha256.dispatch).

(** [CPubKey::GetID] *)
Definition GetID (k : PubKey.CPubKey) : list Z := Hash160 D (PubKey.bytes_of k).
Definition CScriptID_new (inp : script) : list Z := Hash160 D inp.

Definition ExtractDestination (scriptPubKey : script) : option CTxDestination :=
  let '(ok, whichType, vSolutions) := Solver scriptPubKey in
  if negb ok then None
  else match whichType with
       | TX_PUBKEY =>
           let pubKey := PubKey.of_bytes (front vSolutions) in
           if negb (PubKey.IsValid pubKey) then None else Some (CKeyID (GetID pubKey))
       | TX_PUBKEYHASH => Some (CKeyID (front vSolutions))
       | TX_SCRIPTHASH => Some (CScriptID (front vSolutions))
       | _ => None
       end.

(** [for (unsigned int i = 1; i < vSolutions.size()-1; i++)] of a multisig script *)
Fixpoint key_destinations (keys : list valtype) : list CTxDestination :=
  match keys with
  | [] => []
  | k :: keys =>
      let pubKey := PubKey.of_bytes k in
      if negb (PubKey.IsValid pubKey) then key_destinations keys else CKeyID (GetID pubKey) :: key_destinations keys
  end.

(** the result, [typeRet], [addressRet] and [nRequiredRet] where it is set *)
Definition ExtractDestinations (scriptPubKey : script) : bool * txnouttype * list CTxDestination * option Z :=
  let '(ok, typeRet, vSolutions) := Solver scriptPubKey in
  if negb ok then (false, typeRet, [], None)
  else match typeRet with
       | TX_NULL_DATA => (false, typeRet, [], None)
       | TX_MULTISIG =>
           let nRequired := at_ (front vSolutions) 0 in
           let addressRet := key_destinations (take (length vSolutions - 2) (drop 1 vSolutions)) in
           (negb (length addressRet =? 0)%nat, typeRet, addressRet, Some nRequired)
       | _ =>
           match ExtractDestination scriptPubKey with
           | None => (false, typeRet, [], Some 1)
           | Some address => (true, typeRet, [address], Some 1)
           end
       end.
End destinations.

(** [operator<<] of an opcode, all of which here are bytes *)
Definition GetScriptForDestination (dest : CTxDestination) : script :=
  match dest with
  | CNoDestination => []
  | CKeyID keyID => Script.push_data [OP_DUP; OP_HASH160] keyID ++ [OP_EQUALVERIFY; OP_CHECKSIG]
  | CScriptID scriptID => Script.push_data [OP_HASH160] scriptID ++ [OP_EQUAL]
  end.

Definition GetScriptForRawPubKey (pubKey : PubKey.CPubKey) : script :=
  Script.push_data [] (PubKey.bytes_of pubKey) ++ [OP_CHECKSIG].

(** [None]: the assertion of [EncodeOP_N] fails *)
Definition GetScriptForMultisig (nRequired : Z) (keys : list PubKey.CPubKey) : option script :=
  m ← Script.EncodeOP_N nRequired;
  n ← Script.EncodeOP_N (length keys);
  Some (foldl Script.push_data [m] (PubKey.bytes_of <$> keys) ++ [n; OP_CHECKMULTISIG]).
