(* ===== verification/StandardLaws.v ===== *)
(** * Standard scripts: properties

    Destinations and multisig scripts survive the way to a script and back; an input that
    pays to a key hash or to a script hash is accepted exactly when it should be. *)

From S2P Require Import Prelude Bytes BlockHash Script ScriptLaws ShaSpec Sha256 Sha256Laws Ripemd160 Sha1 Hash Transaction Compressor CompressorLaws Interpreter InterpreterLaws Standard.

(** ** Running a script *)

Section run.
Context (D : Sha256.dispatch) `{HD : !GoodDispatch D} `{HLow : LowS} (checker : BaseSignatureChecker) (flags : Z).

(** the loop with as much fuel as it needs *)
Definition run (pc : script) (m : machine) : outcome machine := EvalScript_loop D checker (length pc) flags pc m.

Lemma loop_fuel (fuel : nat) pc m : (length pc <= fuel)%nat -> EvalScript_loop D checker fuel flags pc m = run pc m.
Proof.
  unfold run. assert (H : forall (f1 f2 : nat) pc m, (length pc <= f1)%nat -> (length pc <= f2)%nat ->
    EvalScript_loop D checker f1 flags pc m = EvalScript_loop D checker f2 flags pc m); [|intros; apply H; lia].
  clear. induction f1 as [|f1 IH]; intros f2 pc m H1 H2.
  - destruct pc; [|cbn in H1; lia]. by destruct f2.
  - destruct pc as [|b pc]; [by destruct f2|]. destruct f2 as [|f2]; [cbn in H2; lia|]. cbn [EvalScript_loop].
    destruct (Script.GetOp (b :: pc)) as [[[ok pc'] opcode] vch] eqn:E. destruct ok; [|done].
    apply GetScriptOp_progress in E as [_ Hlt]. specialize (Hlt eq_refl). cbn [length] in *. cbn [require mbind outcome_bind].
    destruct (round D checker flags opcode vch pc' m); [|done..]. apply IH; lia.
Qed.

Lemma run_step pc pc' opcode vch m :
  Script.GetOp pc = (true, pc', opcode, vch) -> run pc m = m ← round D checker flags opcode vch pc' m; run pc' m.
Proof.
  intros E. unfold run at 1. destruct pc as [|b pc]; [done|]. cbn [length EvalScript_loop]. rewrite E.
  apply GetScriptOp_progress in E as [_ Hlt]. specialize (Hlt eq_refl). cbn [length] in Hlt. cbn [require mbind outcome_bind].
  destruct (round D checker flags opcode vch pc' m); [|done..]. apply loop_fuel. lia.
Qed.

Lemma EvalScript_run s scr :
  length scr <= MAX_SCRIPT_SIZE ->
  EvalScript D checker s scr flags =
    m ← run scr (mkMachine s [] [] scr 0);
    _ ← require (match vfExec m with [] => true | _ => false end) SCRIPT_ERR_UNBALANCED_CONDITIONAL;
    Done (stack m).
Proof. intros Hl. unfold EvalScript. apply Z.leb_le in Hl. by rewrite Hl. Qed.

(** data that the interpreter accepts as a push *)
Definition pushed_ok (b : valtype) : Prop :=
  length b <= MAX_SCRIPT_ELEMENT_SIZE /\
  (flag flags SCRIPT_VERIFY_MINIMALDATA = true -> CheckMinimalPush b (push_opcode_of b) = Some true).

Lemma push_opcode_range b : 0 <= push_opcode_of b <= OP_PUSHDATA4.
Proof. unfold push_opcode_of, OP_PUSHDATA1, OP_PUSHDATA2, OP_PUSHDATA4. repeat case_match; lia. Qed.

Lemma not_special opcode : 0 <= opcode <= OP_PUSHDATA4 -> is_dip0020 opcode = false /\ is_disabled opcode = false.
Proof.
  unfold OP_PUSHDATA4. intros H. unfold is_dip0020, is_disabled.
  unfold OP_CAT, OP_SPLIT, OP_AND, OP_OR, OP_XOR, OP_DIV, OP_MOD, OP_NUM2BIN, OP_BIN2NUM, OP_CHECKDATASIG, OP_CHECKDATASIGVERIFY,
    OP_INVERT, OP_2MUL, OP_2DIV, OP_MUL, OP_LSHIFT, OP_RSHIFT.
  rewrite !(proj2 (Z.eqb_neq _ _)) by lia. done.
Qed.

Lemma run_push b rest s a code k :
  pushed_ok b -> length s + length a < MAX_STACK_SIZE ->
  run (Script.push_data [] b ++ rest) (mkMachine s a [] code k) = run rest (mkMachine (b :: s) a [] code k).
Proof.
  intros [Hl Hmin] Hs. unfold MAX_SCRIPT_ELEMENT_SIZE in Hl. rewrite (run_step _ rest (push_opcode_of b) b) by (apply GetScriptOp_push; lia).
  unfold round. pose proof (push_opcode_range b) as Hop. destruct (not_special _ Hop) as [-> ->]. rewrite push_opcode_small.
  replace (length b <=? MAX_SCRIPT_ELEMENT_SIZE) with true by (unfold MAX_SCRIPT_ELEMENT_SIZE; lia).
  rewrite andb_false_r. cbn [require mbind outcome_bind negb andb vfExec forallb].
  replace (0 <=? push_opcode_of b) with true by lia. replace (push_opcode_of b <=? OP_PUSHDATA4) with true by lia. cbn [andb].
  destruct (flag flags SCRIPT_VERIFY_MINIMALDATA); [rewrite Hmin by done|]; cbn [asserted require mbind outcome_bind set_stack stack altstack vfExec pbegincodehash nOpCount];
    (rewrite (proj2 (Z.leb_le (length (b :: s) + length a) MAX_STACK_SIZE)) by (cbn [length]; lia)); done.
Qed.

Lemma run_pushes items rest s a code k :
  Forall pushed_ok items -> length s + length a + length items <= MAX_STACK_SIZE ->
  run (push_all items ++ rest) (mkMachine s a [] code k) = run rest (mkMachine (rev items ++ s) a [] code k).
Proof.
  rewrite push_all_concat. intros Hi. revert s. induction Hi as [|b items Hb Hi IH]; intros s Hs; [done|].
  cbn [fmap list_fmap concat rev length] in *. rewrite <- app_assoc, run_push by (done || lia). rewrite IH by (cbn [length]; lia).
  by rewrite <- app_assoc.
Qed.

(** an operation outside of conditionals *)
Lemma run_op opcode rest s a code k :
  OP_16 < opcode -> is_dip0020 opcode = false -> is_disabled opcode = false -> k < MAX_OPS_PER_SCRIPT ->
  run (opcode :: rest) (mkMachine s a [] code k) =
    m ← execute D checker flags true opcode rest (mkMachine s a [] code (k + 1));
    _ ← require (length (stack m) + length (altstack m) <=? MAX_STACK_SIZE) SCRIPT_ERR_STACK_SIZE;
    run rest m.
Proof.
  intros Hop Hd Hdis Hk. unfold OP_16 in Hop. rewrite (run_step _ rest opcode []).
  2: { unfold Script.GetOp, GetScriptOp. by replace (opcode <=? OP_PUSHDATA4) with false by (unfold OP_PUSHDATA4; lia). }
  unfold round. rewrite Hd, Hdis. replace (OP_16 <? opcode) with true by (unfold OP_16; lia).
  cbn [nOpCount stack altstack vfExec pbegincodehash forallb length]. rewrite andb_false_r.
  replace (MAX_OPS_PER_SCRIPT <? k + 1) with false by lia. replace (opcode <=? OP_PUSHDATA4) with false by (unfold OP_PUSHDATA4; lia).
  rewrite andb_false_r. cbn [require mbind outcome_bind negb andb orb Z.leb].
  change (0%nat <=? MAX_SCRIPT_ELEMENT_SIZE) with true. cbn [require mbind outcome_bind].
  destruct (execute D checker flags true opcode rest _) as [m'|e|]; [|done..]. cbn [mbind outcome_bind].
  by destruct (require _ _).
Qed.

(** *** The operations of the standard scripts *)

Lemma execute_hash160 rest x s a code k :
  length x <= MAX_SCRIPT_ELEMENT_SIZE ->
  execute D checker flags true OP_HASH160 rest (mkMachine (x :: s) a [] code k) =
    Done (mkMachine (RmdSpec.hash (SHA256 x) :: s) a [] code k).
Proof.
  intros Hx. unfold MAX_SCRIPT_ELEMENT_SIZE in Hx. transitivity (match hash_op D OP_HASH160 (x :: s) with
    | Some r => s ← r; Done (mkMachine s a [] code k) | None => Abort end); [reflexivity|].
  rewrite (hash_op_spec D (HD:=HD)) by lia. reflexivity.
Qed.
Lemma execute_dup rest x s a code k :
  execute D checker flags true OP_DUP rest (mkMachine (x :: s) a [] code k) = Done (mkMachine (x :: x :: s) a [] code k).
Proof. reflexivity. Qed.
Lemma execute_equal rest x y s a code k :
  execute D checker flags true OP_EQUAL rest (mkMachine (y :: x :: s) a [] code k) = Done (mkMachine (of_bool (bool_decide (x = y)) :: s) a [] code k).
Proof. reflexivity. Qed.
Lemma execute_equalverify rest x y s a code k :
  execute D checker flags true OP_EQUALVERIFY rest (mkMachine (y :: x :: s) a [] code k) =
    if bool_decide (x = y) then Done (mkMachine s a [] code k) else Fail SCRIPT_ERR_EQUALVERIFY.
Proof.
  transitivity (s ← (if bool_decide (x = y) then Done s else Fail SCRIPT_ERR_EQUALVERIFY); Done (mkMachine s a [] code k)); [reflexivity|].
  by destruct (bool_decide (x = y)).
Qed.
Lemma execute_checksig rest s a code k :
  execute D checker flags true OP_CHECKSIG rest (mkMachine s a [] code k) =
    s ← op_checksig checker flags OP_CHECKSIG code s; Done (mkMachine s a [] code k).
Proof. reflexivity. Qed.

Lemma run_nil m : run [] m = Done m.
Proof. reflexivity. Qed.
Lemma hash_pushed h : length h = 20%nat -> pushed_ok h.
Proof.
  intros Hh. split; [rewrite Hh; unfold MAX_SCRIPT_ELEMENT_SIZE; lia|]. intros _. unfold CheckMinimalPush, push_opcode_of. rewrite Hh. reflexivity.
Qed.

Lemma length_push_hash h : length h = 20%nat -> length (Script.push_data [] h) = 21%nat.
Proof. intros Hh. unfold Script.push_data. by rewrite length_app, Hh. Qed.

(** a script that pays to a script hash compares the hash of the top element *)
Lemma eval_p2sh x s h :
  length h = 20%nat -> length x <= MAX_SCRIPT_ELEMENT_SIZE -> length s + 2 <= MAX_STACK_SIZE ->
  EvalScript D checker (x :: s) (GetScriptForDestination (CScriptID h)) flags =
    Done (of_bool (bool_decide (RmdSpec.hash (SHA256 x) = h)) :: s).
Proof.
  intros Hh Hx Hs. cbn [GetScriptForDestination]. rewrite push_data_app, <- app_assoc. cbn [app].
  assert (Hl : length (Script.push_data [] h) = 21%nat) by (by apply length_push_hash).
  rewrite EvalScript_run by (cbn [length]; rewrite length_app, Hl; unfold MAX_SCRIPT_SIZE; cbn; lia).
  rewrite run_op by (done || unfold MAX_OPS_PER_SCRIPT; lia). rewrite execute_hash160 by done. cbn [mbind outcome_bind stack altstack].
  rewrite (proj2 (Z.leb_le _ _)) by (cbn [length]; lia). cbn [require mbind outcome_bind].
  rewrite run_push by (apply hash_pushed || cbn [length]; done || lia).
  rewrite run_op by (done || unfold MAX_OPS_PER_SCRIPT; lia). rewrite execute_equal. cbn [mbind outcome_bind stack altstack].
  rewrite (proj2 (Z.leb_le _ _)) by (cbn [length]; lia). cbn [require mbind outcome_bind]. by rewrite run_nil.
Qed.

(** a script that pays to a key hash *)
Lemma eval_p2pkh key sig h :
  length h = 20%nat -> length key <= MAX_SCRIPT_ELEMENT_SIZE ->
  EvalScript D checker [key; sig] (GetScriptForDestination (CKeyID h)) flags =
    if bool_decide (RmdSpec.hash (SHA256 key) = h)
    then op_checksig checker flags OP_CHECKSIG (GetScriptForDestination (CKeyID h)) [key; sig]
    else Fail SCRIPT_ERR_EQUALVERIFY.
Proof.
  intros Hh Hx. set (pub := GetScriptForDestination (CKeyID h)).
  assert (Hl : length (Script.push_data [] h) = 21%nat) by (by apply length_push_hash).
  assert (E : pub = OP_DUP :: OP_HASH160 :: Script.push_data [] h ++ [OP_EQUALVERIFY; OP_CHECKSIG])
    by (unfold pub; cbn [GetScriptForDestination]; by rewrite push_data_app, <- app_assoc).
  rewrite EvalScript_run by (rewrite E; cbn [length]; rewrite length_app, Hl; unfold MAX_SCRIPT_SIZE; cbn; lia).
  rewrite E at 1.
  do 2 (rewrite run_op by (done || unfold MAX_OPS_PER_SCRIPT; lia); rewrite ?execute_dup, ?execute_hash160 by done; cbn [mbind outcome_bind stack altstack];
    rewrite (proj2 (Z.leb_le _ _)) by (unfold MAX_STACK_SIZE; cbn [length]; lia); cbn [require mbind outcome_bind]).
  rewrite run_push by (apply hash_pushed || (unfold MAX_STACK_SIZE; cbn [length]); done || lia).
  rewrite run_op by (done || unfold MAX_OPS_PER_SCRIPT; lia). rewrite execute_equalverify.
  destruct (bool_decide _); [|done]. cbn [mbind outcome_bind stack altstack].
  rewrite (proj2 (Z.leb_le _ _)) by (unfold MAX_STACK_SIZE; cbn [length]; lia). cbn [require mbind outcome_bind].
  rewrite run_op by (done || unfold MAX_OPS_PER_SCRIPT; lia). rewrite execute_checksig.
  destruct (op_checksig checker flags OP_CHECKSIG pub [key; sig]) as [s|e|] eqn:Eo; [|done..].
  cbn [mbind outcome_bind stack altstack].
  assert (Hs : length s <= 1).
  { unfold op_checksig in Eo. destruct (check_encodings sig key flags); [|done..]. cbn [mbind outcome_bind] in Eo.
    revert Eo. repeat case_match; intros [= <-]; cbn; lia. }
  rewrite (proj2 (Z.leb_le _ _)) by (unfold MAX_STACK_SIZE; cbn [length]; lia). by cbn [require mbind outcome_bind].
Qed.
End run.

(** ** Nothing to delete *)

(** no operation of the script starts with the byte *)
Inductive no_op_starts (c : Z) : script -> Prop :=
  | nos_end pc pc' opcode vch : Script.GetOp pc = (false, pc', opcode, vch) -> head pc <> Some c -> no_op_starts c pc
  | nos_op pc pc' opcode vch : Script.GetOp pc = (true, pc', opcode, vch) -> head pc <> Some c -> no_op_starts c pc' -> no_op_starts c pc.

Lemma skip_all_other (fuel : nat) c b pc k : head pc <> Some c -> skip_all fuel (c :: b) pc k = (pc, k).
Proof.
  intros Hh. destruct fuel as [|fuel]; [done|]. cbn [skip_all]. rewrite bool_decide_eq_false_2, andb_false_r; [done|].
  destruct pc as [|x pc]; [done|]. cbn. intros [= -> _]. done.
Qed.

Lemma FindAndDelete_none c b s : no_op_starts c s -> (FindAndDelete s (c :: b)).2 = s.
Proof.
  intros Hs. unfold FindAndDelete. cbn [length Nat.eqb].
  assert (H : forall (fuel : nat) res pc2 pc k, no_op_starts c pc -> (FindAndDelete_loop fuel (c :: b) res pc2 pc k).2 = k).
  { clear. induction fuel as [|fuel IH]; intros res pc2 pc k Hpc; cbn [FindAndDelete_loop].
    - inversion Hpc; by rewrite skip_all_other.
    - inversion Hpc as [? ? ? ? E Hh|? ? ? ? E Hh Hpc']; subst; rewrite skip_all_other, E by done; [done|by apply IH]. }
  specialize (H (length s) [] s s 0 Hs). destruct (FindAndDelete_loop _ _ _ _ _ _) as [[r p] k]. cbn in H. by subst k.
Qed.

Lemma push_data_cons b : exists rest, Script.push_data [] b = push_opcode_of b :: rest.
Proof. unfold Script.push_data, push_opcode_of. repeat case_match; by eexists. Qed.

(** the twenty bytes of a hash *)
Lemma length_20 (P : list Z -> Prop) :
  (forall a b c d e f g h i j k l m n o p q r s t, P [a; b; c; d; e; f; g; h; i; j; k; l; m; n; o; p; q; r; s; t]) ->
  forall x, length x = 20%nat -> P x.
Proof. intros H x Hx. do 20 (destruct x as [|? x]; [done|]). destruct x; [apply H|done]. Qed.

Lemma p2pkh_no_op h c :
  length h = 20%nat -> 0 <= c <= OP_PUSHDATA4 -> c <> 20 -> no_op_starts c (GetScriptForDestination (CKeyID h)).
Proof.
  intros Hh Hc Hn. unfold OP_PUSHDATA4 in Hc. revert h Hh. apply length_20. intros.
  do 5 (eapply nos_op; [reflexivity|cbn; intros [= ?]; unfold OP_DUP, OP_HASH160, OP_EQUALVERIFY, OP_CHECKSIG in *; lia|]).
  by eapply nos_end; [reflexivity|].
Qed.

Lemma p2sh_IsPayToScriptHash h : length h = 20%nat -> Script.IsPayToScriptHash (GetScriptForDestination (CScriptID h)) = true.
Proof. revert h. apply length_20. intros. reflexivity. Qed.
Lemma p2pkh_not_p2sh h : length h = 20%nat -> Script.IsPayToScriptHash (GetScriptForDestination (CKeyID h)) = false.
Proof. revert h. apply length_20. intros. reflexivity. Qed.

(** ** Inputs that spend standard outputs *)

Section spends.
Context (D : Sha256.dispatch) `{HD : !GoodDispatch D} `{HLow : LowS} (checker : BaseSignatureChecker) (flags : Z).

Lemma eval_pushes items :
  Forall (pushed_ok flags) items -> length (push_all items) <= MAX_SCRIPT_SIZE -> length items <= MAX_STACK_SIZE ->
  EvalScript D checker [] (push_all items) flags = Done (rev items).
Proof.
  intros Hi Hl Hn. rewrite EvalScript_run by done. rewrite <- (app_nil_r (push_all items)) at 1.
  rewrite run_pushes by (done || (cbn [length]; lia)). cbn. by rewrite app_nil_r.
Qed.

Lemma pushes_push_only items : Forall (pushed_ok flags) items -> Script.IsPushOnly (push_all items) = true.
Proof.
  intros Hi. unfold Script.IsPushOnly. rewrite push_all_concat. apply IsPushOnly_pushes; [|done].
  eapply Forall_impl; [exact Hi|]. intros x [Hx _]. unfold pushable, MAX_SCRIPT_ELEMENT_SIZE in *. lia.
Qed.
End spends.

(** C20: Paying to a script hash means running that script: an input that pushes some items and then a
    script of at most 520 bytes, spending an output that pays to the hash [h], is judged (with the
    P2SH flag) by running that script on those items when its HASH160 is [h], and is refused
    otherwise. *)
Theorem p2sh_runs_script (D : Sha256.dispatch) `{HD : !GoodDispatch D} `{HLow : LowS} (checker : BaseSignatureChecker) (flags : Z)
    (items : list valtype) (redeem : script) (h : list Z) :
  Forall (pushed_ok flags) items -> pushed_ok flags redeem -> length h = 20%nat ->
  length (push_all (items ++ [redeem])) <= MAX_SCRIPT_SIZE -> length items + 2 <= MAX_STACK_SIZE ->
  flag flags SCRIPT_VERIFY_P2SH = true ->
  VerifyScript D checker (push_all (items ++ [redeem])) (GetScriptForDestination (CScriptID h)) flags =
    if bool_decide (RmdSpec.hash (SHA256 redeem) = h) then
      s ← EvalScript D checker (rev items) redeem flags;
      _ ← require_true s;
      if flag flags SCRIPT_VERIFY_CLEANSTACK then require (length s =? 1)%nat SCRIPT_ERR_CLEANSTACK else Done tt
    else Fail SCRIPT_ERR_EVAL_FALSE.
Proof.
  intros Hi Hr Hh Hl Hn Hp. assert (Hall : Forall (pushed_ok flags) (items ++ [redeem])) by (apply Forall_app; auto).
  unfold VerifyScript. rewrite (pushes_push_only flags) by done. cbn [negb]. rewrite andb_false_r. cbn [negb require mbind outcome_bind].
  rewrite eval_pushes by (done || (rewrite length_app; cbn; lia)). rewrite rev_unit. cbn [mbind outcome_bind].
  rewrite eval_p2sh by (done || apply Hr || (rewrite length_rev; lia)). cbn [mbind outcome_bind].
  destruct (bool_decide (RmdSpec.hash (SHA256 redeem) = h)); [|done].
  rewrite Hp, p2sh_IsPayToScriptHash by done. cbn [of_bool require_true require vchTrue CastToBool mbind outcome_bind andb negb].
  change (negb (1 =? 0)) with true. change (negb ((length (@nil Z) =? 0)%nat && (1 =? 0x80))) with true. cbn [mbind outcome_bind].
  destruct (EvalScript D checker (rev items) redeem flags) as [s|e|]; [|done..]. cbn [mbind outcome_bind].
  by destruct (require_true s).
Qed.

(** C21: Paying to a key hash means a signature by a key with that hash: an input that pushes a signature
    and a key, spending an output that pays to the hash [h], is accepted exactly when the
    HASH160 of the key is [h], both are encoded as the flags demand and the signature is valid for the
    output's script; each way to fail has its error. *)
Theorem p2pkh_needs_signature (D : Sha256.dispatch) `{HD : !GoodDispatch D} `{HLow : LowS} (checker : BaseSignatureChecker) (flags : Z)
    (sig key : valtype) (h : list Z) :
  pushed_ok flags sig -> pushed_ok flags key -> length h = 20%nat -> length sig <> 20%nat ->
  (flag flags SCRIPT_VERIFY_CLEANSTACK = true -> flag flags SCRIPT_VERIFY_P2SH = true) ->
  VerifyScript D checker (push_all [sig; key]) (GetScriptForDestination (CKeyID h)) flags =
    if negb (bool_decide (RmdSpec.hash (SHA256 key) = h)) then Fail SCRIPT_ERR_EQUALVERIFY
    else
      _ ← check_encodings sig key flags;
      if CheckSig checker sig key (GetScriptForDestination (CKeyID h)) then Done tt
      else if flag flags SCRIPT_VERIFY_NULLFAIL && negb (length sig =? 0)%nat then Fail SCRIPT_ERR_SIG_NULLFAIL
      else Fail SCRIPT_ERR_EVAL_FALSE.
Proof.
  intros Hs Hk Hh Hn Hc. set (pub := GetScriptForDestination (CKeyID h)).
  assert (Hall : Forall (pushed_ok flags) [sig; key]) by (repeat constructor; apply Hs || apply Hk).
  assert (Hpush : forall b : valtype, length b <= MAX_SCRIPT_ELEMENT_SIZE -> length (Script.push_data [] b) <= 525).
  { intros b Hb. unfold Script.push_data, WriteLE16, WriteLE32, MAX_SCRIPT_ELEMENT_SIZE in *.
    repeat case_match; repeat (rewrite !length_app || rewrite length_le_bytes || cbn [length]); lia. }
  assert (Hl : length (push_all [sig; key]) <= MAX_SCRIPT_SIZE).
  { rewrite push_all_concat. cbn [fmap list_fmap concat]. rewrite !length_app. cbn [length]. unfold MAX_SCRIPT_SIZE.
    pose proof (Hpush sig (proj1 Hs)). pose proof (Hpush key (proj1 Hk)). lia. }
  unfold VerifyScript. rewrite (pushes_push_only flags) by done. cbn [negb]. rewrite andb_false_r. cbn [negb require mbind outcome_bind].
  rewrite eval_pushes by (done || (unfold MAX_STACK_SIZE; cbn; lia)). cbn [rev app mbind outcome_bind].
  rewrite (eval_p2pkh D checker flags key sig h Hh (proj1 Hk)). fold pub.
  destruct (bool_decide (RmdSpec.hash (SHA256 key) = h)); [|done]. cbn [negb].
  unfold op_checksig. destruct (push_data_cons sig) as [b ->].
  rewrite FindAndDelete_none.
  2: { apply p2pkh_no_op; [done|apply push_opcode_range|]. unfold push_opcode_of, OP_PUSHDATA1, OP_PUSHDATA2, OP_PUSHDATA4. repeat case_match; lia. }
  destruct (check_encodings sig key flags); [|done..]. cbn [mbind outcome_bind].
  replace (Script.IsPayToScriptHash pub) with false by (symmetry; by apply p2pkh_not_p2sh). rewrite andb_false_r. change (OP_CHECKSIG =? OP_CHECKSIGVERIFY) with false.
  destruct (CheckSig checker sig key pub); cbn [negb andb].
  - cbn. destruct (flag flags SCRIPT_VERIFY_CLEANSTACK); [|done]. by rewrite Hc.
  - by destruct (flag flags SCRIPT_VERIFY_NULLFAIL && _).
Qed.

(** ** Destinations *)

Lemma small_op opcode rest :
  OP_PUSHDATA4 < opcode -> Script.GetOp (opcode :: rest) = (true, rest, opcode, []).
Proof. intros Ho. unfold Script.GetOp, GetScriptOp. by replace (opcode <=? OP_PUSHDATA4) with false by lia. Qed.

Lemma valid_key_length k : PubKey.ValidSize k = true -> length k = 33%nat \/ length k = 65%nat.
Proof.
  intros Hv. destruct k as [|x k]; [done|]. cbn [PubKey.ValidSize] in *. apply Z.eqb_eq in Hv.
  unfold PubKey.GetLen, PubKey.COMPRESSED_PUBLIC_KEY_SIZE, PubKey.PUBLIC_KEY_SIZE in *. repeat case_match; cbn [length] in *; lia.
Qed.
Lemma key_of_bytes k : PubKey.ValidSize k = true -> PubKey.bytes_of (PubKey.of_bytes k) = k /\ PubKey.IsValid (PubKey.of_bytes k) = true.
Proof.
  intros Hv. destruct (CompressorLaws.of_bytes_valid k Hv) as [Es Eb]. split; [done|]. unfold PubKey.IsValid. rewrite Es.
  destruct (valid_key_length k Hv); lia.
Qed.

Lemma length_push_key k : PubKey.ValidSize k = true -> Script.push_data [] k = Z.of_nat (length k) :: k.
Proof. intros Hv. unfold Script.push_data, OP_PUSHDATA1. by destruct (valid_key_length k Hv) as [-> | ->]. Qed.

Lemma GetOp_push_key k rest : PubKey.ValidSize k = true -> Script.GetOp (Script.push_data [] k ++ rest) = (true, rest, push_opcode_of k, k).
Proof. intros Hv. apply GetScriptOp_push. destruct (valid_key_length k Hv); lia. Qed.

Section extract.
Context (D : Sha256.dispatch).

Lemma Solver_pubkey k :
  PubKey.ValidSize k = true -> Solver (Script.push_data [] k ++ [OP_CHECKSIG]) = (true, TX_PUBKEY, [k]).
Proof.
  intros Hv. unfold Solver.
  replace (Script.IsPayToScriptHash (Script.push_data [] k ++ [OP_CHECKSIG])) with false.
  2: { unfold Script.IsPayToScriptHash. rewrite length_push_key by done. cbn [app length]. rewrite length_app.
       by destruct (valid_key_length k Hv) as [-> | ->]. }
  replace (at_ (Script.push_data [] k ++ [OP_CHECKSIG]) 0 =? OP_RETURN) with false.
  2: { rewrite length_push_key by done. unfold at_. cbn. by destruct (valid_key_length k Hv) as [-> | ->]. }
  rewrite andb_false_r. cbn [andb mTemplates scan_templates].
  assert (E : match_template 3 (Script.push_data [] k ++ [OP_CHECKSIG]) [OP_PUBKEY; OP_CHECKSIG] [] = Some [k]).
  { cbn [match_template]. rewrite length_app. cbn [length]. rewrite (proj2 (Nat.eqb_neq _ _)) by lia. cbn [andb].
    unfold Script.GetOp. rewrite GetScriptOp_push by (destruct (valid_key_length k Hv); lia). cbn [negb].
    rewrite !small_op by done. cbn. by rewrite Hv. }
  change (length [OP_PUBKEY; OP_CHECKSIG]) with 2%nat. by rewrite E.
Qed.

Lemma match_pubkeys_spec keys (fuel : nat) n0 rest opcode k sols :
  OP_PUSHDATA4 < n0 -> Forall (λ k, PubKey.ValidSize k = true) (k :: keys) -> (length keys < fuel)%nat ->
  match_pubkeys (S fuel) (concat (Script.push_data [] <$> keys) ++ n0 :: rest) opcode k sols = (rest, n0, [], sols ++ k :: keys).
Proof.
  intros Hn. revert fuel opcode k sols. induction keys as [|k' keys IH]; intros fuel opcode k sols Hk Hf; apply Forall_cons in Hk as [Hk Hks];
    cbn [match_pubkeys]; rewrite Hk.
  - cbn [fmap list_fmap concat app]. rewrite small_op by done. by destruct fuel.
  - cbn [fmap list_fmap concat length] in *. rewrite <- app_assoc. unfold Script.GetOp. apply Forall_cons in Hks as [Hk' Hks].
    rewrite GetScriptOp_push by (destruct (valid_key_length k' Hk'); lia). destruct fuel as [|fuel]; [lia|].
    rewrite IH by (by constructor || lia). by rewrite <- app_assoc.
Qed.

Lemma decode_small n : 1 <= n <= 16 -> Script.DecodeOP_N (OP_1 + n - 1) = Some n.
Proof.
  intros Hn. unfold Script.DecodeOP_N, OP_0, OP_1, OP_16. rewrite (proj2 (Z.eqb_neq _ _)) by lia.
  rewrite !(proj2 (Z.leb_le _ _)) by lia. cbn [andb]. f_equal. lia.
Qed.

Lemma pushes_length (keys : list valtype) rest : (length keys <= length (concat (Script.push_data [] <$> keys) ++ rest))%nat.
Proof.
  induction keys as [|k keys IH]; [cbn; lia|]. cbn [fmap list_fmap concat length]. rewrite <- app_assoc, length_app.
  pose proof (push_data_nonempty k). lia.
Qed.

Section multisig.
Context (m : Z) (keys : list valtype) (Hk : Forall (λ k, PubKey.ValidSize k = true) keys).
Context (Hm : 1 <= m <= length keys) (Hn : length keys <= 16).
#[local] Abbreviation n := (Z.of_nat (length keys)).
#[local] Abbreviation m' := (OP_1 + m - 1).
#[local] Abbreviation n' := (OP_1 + n - 1).
#[local] Abbreviation body := (concat (Script.push_data [] <$> keys) ++ [n'; OP_CHECKMULTISIG]).

Lemma small_opcode i : 1 <= i <= 16 ->
  OP_PUSHDATA4 < OP_1 + i - 1 /\ (OP_1 + i - 1 =? OP_HASH160) = false /\ (OP_1 + i - 1 =? OP_RETURN) = false /\ (OP_1 + i - 1 =? OP_DUP) = false.
Proof. unfold OP_PUSHDATA4, OP_1, OP_HASH160, OP_RETURN, OP_DUP. intros Hi. split; [lia|]. by rewrite !(proj2 (Z.eqb_neq _ _)) by lia. Qed.

Lemma match_multisig_1 : match_template 3 (m' :: body) [OP_PUBKEY; OP_CHECKSIG] [] = None.
Proof. destruct (small_opcode m) as (M & _); [lia|]. cbn [match_template length Nat.eqb andb]. by rewrite !small_op by done. Qed.

Lemma match_multisig_2 : match_template 6 (m' :: body) [OP_DUP; OP_HASH160; OP_PUBKEYHASH; OP_EQUALVERIFY; OP_CHECKSIG] [] = None.
Proof.
  destruct (small_opcode m) as (M & _ & _ & M4); [lia|]. cbn [match_template length Nat.eqb andb]. rewrite !small_op by done. cbn [negb].
  change (OP_DUP =? OP_PUBKEYS) with false. cbn [negb]. change (OP_DUP =? OP_PUBKEY) with false.
  change (OP_DUP =? OP_PUBKEYHASH) with false. change (OP_DUP =? OP_SMALLINTEGER) with false. by rewrite M4.
Qed.

Lemma match_multisig_rest (fuel : nat) :
  match_template (S (S (S fuel))) body [OP_PUBKEYS; OP_SMALLINTEGER; OP_CHECKMULTISIG] [[m]] = Some ([m] :: keys ++ [[n]]).
Proof.
  destruct (small_opcode n) as (N & _); [lia|]. remember n as nn eqn:Enn.
  destruct keys as [|k ks]; [cbn in *; lia|]. apply Forall_cons in Hk as [Hk1 Hks].
  cbn [match_template fmap list_fmap concat]. rewrite <- app_assoc, length_app, (length_push_key k Hk1).
  cbn [length Nat.add Nat.eqb andb]. rewrite <- (length_push_key k Hk1).
  rewrite GetOp_push_key by done.
  rewrite !small_op by done. cbn [negb]. change (OP_PUBKEYS =? OP_PUBKEYS) with true. cbv iota.
  rewrite match_pubkeys_spec; [|done|by constructor|pose proof (pushes_length ks []); rewrite app_nil_r in *; rewrite length_app; cbn [length]; lia].
  rewrite !small_op by done. cbn [negb].
  change (OP_SMALLINTEGER =? OP_PUBKEY) with false. change (OP_SMALLINTEGER =? OP_PUBKEYHASH) with false.
  change (OP_SMALLINTEGER =? OP_SMALLINTEGER) with true. cbv iota. rewrite decode_small by lia. done.
Qed.

Lemma match_multisig_3 :
  match_template 5 (m' :: body) [OP_SMALLINTEGER; OP_PUBKEYS; OP_SMALLINTEGER; OP_CHECKMULTISIG] [] = Some ([m] :: keys ++ [[n]]).
Proof.
  destruct (small_opcode m) as (M & _); [lia|]. rewrite <- (match_multisig_rest 1).
  transitivity (match Script.DecodeOP_N m' with Some k => match_template 4 body [OP_PUBKEYS; OP_SMALLINTEGER; OP_CHECKMULTISIG] [[k]] | None => None end).
  - cbn [match_template length Nat.eqb andb]. rewrite (small_op m') by done. reflexivity.
  - by rewrite decode_small by lia.
Qed.

Lemma Solver_multisig : Solver (m' :: body) = (true, TX_MULTISIG, [m] :: keys ++ [[n]]).
Proof.
  destruct (small_opcode m) as (M1 & M2 & M3 & M4); [lia|].
  unfold Solver. replace (Script.IsPayToScriptHash (m' :: body)) with false.
  2: { unfold Script.IsPayToScriptHash. change ((m' :: body) !!! 0%nat) with m'. rewrite M2. by rewrite andb_false_r. }
  change (at_ (m' :: body) 0) with m'. rewrite M3, andb_false_r. cbn [andb mTemplates scan_templates].
  change (length [OP_PUBKEY; OP_CHECKSIG]) with 2%nat. change (length [OP_DUP; OP_HASH160; OP_PUBKEYHASH; OP_EQUALVERIFY; OP_CHECKSIG]) with 5%nat.
  change (length [OP_SMALLINTEGER; OP_PUBKEYS; OP_SMALLINTEGER; OP_CHECKMULTISIG]) with 4%nat.
  rewrite match_multisig_1, match_multisig_2, match_multisig_3. cbv zeta.
  change (front ([m] :: keys ++ [[n]])) with [m]. change (at_ [m] 0) with m.
  assert (Eb : back_ ([m] :: keys ++ [[n]]) = [n]) by (unfold back_; by rewrite app_comm_cons, last_snoc).
  rewrite Eb. change (at_ [n] 0) with n. cbn [length]. rewrite length_app. cbn [length].
  replace (m <? 1) with false by lia. replace (n <? 1) with false by lia. replace (n <? m) with false by lia.
  rewrite (proj2 (Z.eqb_eq _ _)) by lia. done.
Qed.
End multisig.
End extract.

Lemma key_destinations_valid D keys :
  Forall (λ k, PubKey.ValidSize k = true) keys -> key_destinations D keys = (λ k, CKeyID (Hash160 D k)) <$> keys.
Proof.
  induction 1 as [|k keys Hk Hks IH]; [done|]. cbn [key_destinations fmap list_fmap]. destruct (key_of_bytes k Hk) as [Eb ->].
  cbn [negb]. unfold GetID. by rewrite Eb, IH.
Qed.

Lemma multisig_script m (keys : list valtype) :
  1 <= m <= length keys -> length keys <= 16 -> Forall (λ k, PubKey.ValidSize k = true) keys ->
  GetScriptForMultisig m (PubKey.of_bytes <$> keys) =
    Some ((OP_1 + m - 1) :: concat (Script.push_data [] <$> keys) ++ [OP_1 + length keys - 1; OP_CHECKMULTISIG]).
Proof.
  intros Hm Hn Hk. unfold GetScriptForMultisig. rewrite length_fmap.
  assert (Ee : forall i, 1 <= i <= 16 -> Script.EncodeOP_N i = Some (OP_1 + i - 1)).
  { intros i Hi. unfold Script.EncodeOP_N. rewrite !(proj2 (Z.leb_le _ _)) by lia. cbn [andb]. by rewrite (proj2 (Z.eqb_neq _ _)) by lia. }
  rewrite !Ee by lia. cbn [mbind option_bind]. f_equal.
  assert (Ek : PubKey.bytes_of <$> (PubKey.of_bytes <$> keys) = keys).
  { rewrite <- list_fmap_compose. clear -Hk. induction Hk as [|k ks Hk Hks IH]; [done|]. cbn. rewrite IH. f_equal. by apply key_of_bytes. }
  rewrite Ek. assert (Ef : forall s, foldl Script.push_data s keys = s ++ concat (Script.push_data [] <$> keys)).
  { clear. induction keys as [|b keys IH]; intros s; cbn; [by rewrite app_nil_r|]. by rewrite IH, push_data_app, <- app_assoc. }
  by rewrite Ef.
Qed.

(** Destinations survive the way to a script and back: the script that pays to a key hash, to a
    script hash or to a key is recognised and its destination found again; and the script
    that asks for [m] signatures of some keys (at most 16) is recognised as such, with the
    destinations of all the keys in their order. *)
Theorem destinations_roundtrip (D : Sha256.dispatch) :
  (forall id, length id = 20%nat -> ExtractDestination D (GetScriptForDestination (CKeyID id)) = Some (CKeyID id)) /\
  (forall id, length id = 20%nat -> ExtractDestination D (GetScriptForDestination (CScriptID id)) = Some (CScriptID id)) /\
  (forall k, PubKey.ValidSize k = true ->
    ExtractDestination D (GetScriptForRawPubKey (PubKey.of_bytes k)) = Some (CKeyID (Hash160 D k))) /\
  (forall m keys, Forall (λ k, PubKey.ValidSize k = true) keys -> 1 <= m <= length keys -> length keys <= 16 ->
    exists s, GetScriptForMultisig m (PubKey.of_bytes <$> keys) = Some s /\
      ExtractDestinations D s = (true, TX_MULTISIG, (λ k, CKeyID (Hash160 D k)) <$> keys, Some m)).
Proof.
  split; [|split; [|split]].
  - apply length_20. intros. reflexivity.
  - apply length_20. intros. reflexivity.
  - intros k Hk. destruct (key_of_bytes k Hk) as [Eb Hv]. unfold ExtractDestination, GetScriptForRawPubKey. rewrite Eb, Solver_pubkey by done.
    change (front [k]) with k. cbn [negb]. cbv zeta. rewrite Hv. cbn [negb]. unfold GetID. by rewrite Eb.
  - intros m keys Hk Hm Hn. eexists. split; [by apply multisig_script|]. unfold ExtractDestinations. rewrite Solver_multisig by done.
    cbn [negb length drop]. rewrite length_app. cbn [length].
    replace (S (length keys + 1) - 2)%nat with (length keys) by lia. rewrite drop_0, take_app_length, key_destinations_valid by done.
    rewrite length_fmap, (proj2 (Nat.eqb_neq _ _)) by lia. done.
Qed.

(** *** Examples *)

Definition example_key : valtype := 2 :: replicate 32 9.

Lemma destinations_roundtrip_witness :
  ExtractDestination Sha256.standard (GetScriptForDestination (CKeyID (replicate 20 7))) = Some (CKeyID (replicate 20 7)).
Proof. exact (proj1 (destinations_roundtrip Sha256.standard) (replicate 20 7) eq_refl). Defined.

(** the script OP_1 OP_NOP *)
Lemma p2sh_runs_script_witness :
  exists h, VerifyScript Sha256.standard no_checker (HLow:=low_s) (push_all ([] ++ [[OP_1; OP_NOP]]))
    (GetScriptForDestination (CScriptID h)) (SCRIPT_VERIFY_P2SH ||| SCRIPT_VERIFY_CLEANSTACK) = Done tt.
Proof.
  exists (RmdSpec.hash (SHA256 [OP_1; OP_NOP])). etransitivity.
  - apply (p2sh_runs_script Sha256.standard (HD:=standard_good)).
    + apply Forall_nil_2.
    + split; [vm_compute; discriminate|]. intros H. vm_compute in H. discriminate H.
    + vm_compute. reflexivity.
    + vm_compute. discriminate.
    + vm_compute. discriminate.
    + vm_compute. reflexivity.
  - vm_compute. reflexivity.
Defined.

Lemma p2pkh_needs_signature_witness :
  exists h, VerifyScript Sha256.standard yes_checker (HLow:=low_s) (push_all [[1; 2; 3]; example_key])
    (GetScriptForDestination (CKeyID h)) SCRIPT_VERIFY_P2SH = Done tt.
Proof.
  exists (RmdSpec.hash (SHA256 example_key)). etransitivity.
  - apply (p2pkh_needs_signature Sha256.standard (HD:=standard_good)).
    + split; [vm_compute; discriminate|]. intros H. vm_compute in H. discriminate H.
    + split; [vm_compute; discriminate|]. intros H. vm_compute in H. discriminate H.
    + vm_compute. reflexivity.
    + discriminate.
    + reflexivity.
  - vm_compute. reflexivity.
Defined.
