(* ===== verification/TxVerify.v ===== *)
(** * Rules on transactions: consensus/tx_verify.cpp, consensus/validation.h, founder_payment.{h,cpp},
    the block subsidy of validation.cpp, and the median time of chain.h

    What a transaction must satisfy on its own ([CheckTransaction]), against the coins it spends
    ([CheckTxInputs]) and against the chain ([IsFinalTx], [SequenceLocks]); what a block pays.

    What the rules ask of the node is the class [TxServices]. *)

From stdpp Require Import sorting.
From S2P Require Import Prelude Bytes Chain Script Serialize Uint256 Transaction Merkle Coins Interpreter Standard.

(** ** The result of a check: consensus/validation.h *)

Definition REJECT_INVALID : Z := 0x10.

Inductive mode_state := MODE_VALID | MODE_INVALID | MODE_ERROR.

(** The message for the log is left out. *)
Record CValidationState := mkState {
  mode : mode_state;
  nDoS : Z;                  (* int *)
  strRejectReason : string;
  chRejectCode : Z;
  corruptionPossible : bool;
}.
Definition CValidationState_new : CValidationState := mkState MODE_VALID 0 "" 0 false.

(** the arguments of [DoS] *)
Record rejection := Reject { level : Z; code : Z; reason : string; corruption : bool }.

Definition DoS (r : rejection) (s : CValidationState) : CValidationState :=
  match mode s with
  | MODE_ERROR => mkState MODE_ERROR (nDoS s) (reason r) (code r) (corruption r)
  | _ => mkState MODE_INVALID (i32 (nDoS s + level r)) (reason r) (code r) (corruption r)
  end.
Definition Error (strRejectReasonIn : string) (s : CValidationState) : CValidationState :=
  mkState MODE_ERROR (nDoS s) (match mode s with MODE_VALID => strRejectReasonIn | _ => strRejectReason s end) (chRejectCode s) (corruptionPossible s).
Definition IsValid (s : CValidationState) : bool := match mode s with MODE_VALID => true | _ => false end.
Definition IsInvalid (s : CValidationState) : bool := match mode s with MODE_INVALID => true | _ => false end.
Definition IsError (s : CValidationState) : bool := match mode s with MODE_ERROR => true | _ => false end.

(** [return state.DoS(level, false, REJECT_INVALID, reason)] *)
Definition dos (level : Z) (reason : string) : option rejection := Some (Reject level REJECT_INVALID reason false).
(** [return state.Invalid(false, REJECT_INVALID, reason)] *)
Definition invalid (reason : string) : option rejection := dos 0 reason.
(** the first of two checks that fails *)
Definition orelse (a b : option rejection) : option rejection := match a with Some r => Some r | None => b end.
Definition when (b : bool) (r : option rejection) : option rejection := if b then r else None.

(** ** Block rewards *)

Module Subsidy.

(** [nSubsidy] is a double; every value it takes is a number of thousandths of a coin, and the product
    with COIN is exact. *)
Definition GetBlockSubsidy (nPrevHeight : Z) : Z :=
  let owlings : Z := 21262 in
  let h := nPrevHeight in
  let less (base start factor : Z) := 1000 * (5000 - (Z.quot (h - start) owlings * factor + base)) in
  let nSubsidy :=
    if h <? 720 then 4 * 1000
    else if (553531 <? h) && (h <? 2105657) then less 10 553532 10
    else if (2105657 <? h) && (h <? 5273695) then less 750 2105658 20
    else if (5273695 <? h) && (h <? 7378633) then less 3720 5273696 10
    else if (7378633 <? h) && (h <? 8399209) then less 4705 7378634 5
    else if (8399209 <? h) && (h <? 14735285) then 55 * 1000
    else if (14735285 <? h) && (h <? 15798385) then less 4946 14735286 1
    else if (15798385 <? h) && (h <? 25844304) then 5 * 1000
    else if 125844304 <? h then 1
    else 5000 * 1000 in
  nSubsidy * (COIN / 1000).
End Subsidy.

Module Founder.

Definition INT_MAX : Z := 2 ^ 31 - 1.
Record FounderRewardStructure := mkReward { reward_blockHeight : Z; rewardPercentage : Z }.
Record FounderAddressStructure := mkAddress { address_blockHeight : Z; address : string }.

Record FounderPayment := mkFounderPayment {
  founderAddresses : list FounderAddressStructure;
  startBlock : Z;
  rewardStructures : list FounderRewardStructure;
}.
(** the two constructors *)
Definition FounderPayment_one (rewardStructures : list FounderRewardStructure) (startBlock : Z) (address : string) : FounderPayment :=
  mkFounderPayment [mkAddress INT_MAX address] startBlock rewardStructures.
Definition FounderPayment_many (rewardStructures : list FounderRewardStructure) (startBlock : Z) (addresses : list FounderAddressStructure) : FounderPayment :=
  mkFounderPayment addresses startBlock rewardStructures.

(** [blockReward * rewardPercentage] is a [CAmount] *)
Fixpoint reward_of (l : list FounderRewardStructure) (blockHeight blockReward : Z) : Z :=
  match l with
  | [] => 0
  | r :: l =>
      if (reward_blockHeight r =? INT_MAX) || (blockHeight <=? reward_blockHeight r)
      then Z.quot (i64 (blockReward * rewardPercentage r)) 100
      else reward_of l blockHeight blockReward
  end.
Definition getFounderPaymentAmount (f : FounderPayment) (blockHeight blockReward : Z) : Z :=
  if blockHeight <=? startBlock f then 0 else reward_of (rewardStructures f) blockHeight blockReward.

Fixpoint address_of (l : list FounderAddressStructure) (blockHeight : Z) : string :=
  match l with
  | [] => ""
  | a :: l => if (address_blockHeight a =? INT_MAX) || (blockHeight <=? address_blockHeight a) then address a else address_of l blockHeight
  end.
Definition getFounderAddress (f : FounderPayment) (blockHeight : Z) : string := address_of (founderAddresses f) blockHeight.

Section payment.
(** key_io.cpp *)
Context (DecodeDestination : string -> CTxDestination).

(** the new transaction and the founder's output; the first output is the miner's.  [vout[0]] of a transaction without
    outputs and a value that is no [int64_t] are undefined. *)
Definition FillFounderPayment (f : FounderPayment) (txNew : CTransaction) (nBlockHeight blockReward : Z) : result (CTransaction * CTxOut) :=
  let founderPayment := getFounderPaymentAmount f nBlockHeight blockReward in
  let founderAddr := DecodeDestination (getFounderAddress f nBlockHeight) in
  if negb (IsValidDestination founderAddr) then Throw "Invalid Babacoin Founder Address"
  else
    let payee := GetScriptForDestination founderAddr in
    let txoutFounder := mkCTxOut founderPayment payee in
    match vout txNew with
    | [] => Throw "undefined: vout[0] of no outputs"
    | miner :: rest =>
        let nValue := nValue miner - founderPayment in
        if negb (bool_decide (in_sint 64 nValue)) then Throw "undefined: overflow"
        else
          Ok (mkCTransaction (vin txNew) (mkCTxOut nValue (scriptPubKey miner) :: rest ++ [txoutFounder]) (tx_nVersion txNew) (tx_nType txNew)
                (nLockTime txNew) (vExtraPayload txNew), txoutFounder)
    end.

Definition IsBlockPayeeValid (f : FounderPayment) (txNew : CTransaction) (height blockReward : Z) : bool :=
  let payee := GetScriptForDestination (DecodeDestination (getFounderAddress f height)) in
  let founderReward := getFounderPaymentAmount f height blockReward in
  existsb (λ out, bool_decide (scriptPubKey out = payee) && (founderReward <=? nValue out)) (vout txNew).
End payment.
End Founder.

(** ** Lock times *)

Definition IsFinalTx (tx : CTransaction) (nBlockHeight nBlockTime : Z) : bool :=
  if nLockTime tx =? 0 then true
  else if nLockTime tx <? (if nLockTime tx <? LOCKTIME_THRESHOLD then nBlockHeight else nBlockTime) then true
  else forallb (λ txin, nSequence txin =? SEQUENCE_FINAL) (vin tx).

Definition nMedianTimeSpan : nat := 11.

(** the times of at most [i] blocks, the last one first; [None]: a pointer that is not in the store *)
Fixpoint past_times (i : nat) (st : store) (pindex : option ptr) : option (list Z) :=
  match i, pindex with
  | O, _ | _, None => Some []
  | S i, Some p => b ← st !! p; l ← past_times i st (pprev b); Some (GetBlockTime b :: l)
  end.
Definition GetMedianTimePast (st : store) (this : ptr) : option Z :=
  l ← past_times nMedianTimeSpan st (Some this);
  let pbegin := merge_sort Z.le l in
  pbegin !! (length pbegin / 2)%nat.

Definition LOCKTIME_VERIFY_SEQUENCE : Z := 2 ^ 0.

(** the loop of [CalculateSequenceLocks] over the inputs and [prevHeights]: the two bounds and the new heights *)
Fixpoint sequence_locks_loop (st : store) (block : ptr) (ins : list CTxIn) (prevHeights : list Z) (nMinHeight nMinTime : Z) :
  option (Z * Z * list Z) :=
  match ins, prevHeights with
  | [], _ => Some (nMinHeight, nMinTime, prevHeights)
  | _ :: _, [] => None
  | txin :: ins, nCoinHeight :: prevHeights =>
      if negb ((nSequence txin &&& SEQUENCE_LOCKTIME_DISABLE_FLAG) =? 0) then
        '(h, t, l) ← sequence_locks_loop st block ins prevHeights nMinHeight nMinTime; Some (h, t, 0 :: l)
      else if negb ((nSequence txin &&& SEQUENCE_LOCKTIME_TYPE_FLAG) =? 0) then
        ancestor ← GetAncestor st block (Z.max (nCoinHeight - 1) 0);
        a ← ancestor;
        nCoinTime ← GetMedianTimePast st a;
        let nMinTime := Z.max nMinTime (nCoinTime + ((nSequence txin &&& SEQUENCE_LOCKTIME_MASK) << SEQUENCE_LOCKTIME_GRANULARITY) - 1) in
        '(h, t, l) ← sequence_locks_loop st block ins prevHeights nMinHeight nMinTime; Some (h, t, nCoinHeight :: l)
      else
        let nMinHeight := Z.max nMinHeight (i32 (nCoinHeight + (nSequence txin &&& SEQUENCE_LOCKTIME_MASK) - 1)) in
        '(h, t, l) ← sequence_locks_loop st block ins prevHeights nMinHeight nMinTime; Some (h, t, nCoinHeight :: l)
  end.

(** [None]: the assertion on the number of heights fails, or a pointer is null *)
Definition CalculateSequenceLocks (tx : CTransaction) (flags : Z) (prevHeights : list Z) (st : store) (block : ptr) : option (Z * Z * list Z) :=
  if negb (length prevHeights =? length (vin tx))%nat then None
  else
    let fEnforceBIP68 := (2 <=? u32 (tx_nVersion tx)) && negb ((flags &&& LOCKTIME_VERIFY_SEQUENCE) =? 0) in
    if negb fEnforceBIP68 then Some (-1, -1, prevHeights)
    else sequence_locks_loop st block (vin tx) prevHeights (-1) (-1).

Definition EvaluateSequenceLocks (st : store) (block : ptr) (lockPair : Z * Z) : option bool :=
  b ← st !! block;
  p ← pprev b;
  nBlockTime ← GetMedianTimePast st p;
  Some (negb ((Chain.nHeight b <=? lockPair.1) || (nBlockTime <=? lockPair.2))).

Definition SequenceLocks (tx : CTransaction) (flags : Z) (prevHeights : list Z) (st : store) (block : ptr) : option (bool * list Z) :=
  '(h, t, l) ← CalculateSequenceLocks tx flags prevHeights st block;
  ok ← EvaluateSequenceLocks st block (h, t);
  Some (ok, l).

(** ** What the node provides *)

Class TxServices := {
  NetworkIsMain : bool;                      (* Params().NetworkIDString() == MAIN *)
  nFutureForkBlock : Z;                      (* Params().GetConsensus() *)
  nFounderPayment : Founder.FounderPayment;
  SporkSpecialTxFee : bool * Z;              (* SPORK_22_SPECIAL_TX_FEE: whether active, and its value *)
  GetAdjustedTime : Z;
  DecodeDestination : string -> CTxDestination;
}.
(** the active chain *)
Record active_chain := mkActive { blocks : store; vChain : CChain }.

Section rules.
Context `{HT : TxServices} (chainActive : active_chain).

(** ** Fees of special transactions *)

(** [uint16_t] *)
Definition getFutureFees : Z := if negb (SporkSpecialTxFee.1) then 0 else u16 (SporkSpecialTxFee.2 &&& 0xff).
Definition getFutureFeesCoin : Z := getFutureFees * COIN.

(** [Params().IsFutureActive(chainActive.Tip())] *)
Definition IsFutureActive : bool :=
  let height := match b ← chain_Tip (vChain chainActive); blocks chainActive !! b with None => 0 | Some b => Chain.nHeight b end in
  nFutureForkBlock <=? height.

(** whether it succeeds, the fee that is left and the special fee *)
Definition checkSpecialTxFee (tx : CTransaction) (nFeeTotal specialTxFee : Z) (fFeeVerify : bool) : bool * Z * Z :=
  if (3 <=? tx_nVersion tx) && (tx_nType tx =? TRANSACTION_FUTURE) then
    match GetTxPayload codec_CFutureTx (vExtraPayload tx) with
    | Some ftx =>
        if negb IsFutureActive then (false, nFeeTotal, specialTxFee)
        else if SporkSpecialTxFee.1 && fFeeVerify && negb (ftx_fee ftx =? getFutureFees) then (false, nFeeTotal, specialTxFee)
        else let specialTxFee := ftx_fee ftx * COIN in (true, i64 (nFeeTotal - specialTxFee), specialTxFee)
    | None => (true, nFeeTotal, specialTxFee)
    end
  else (true, nFeeTotal, specialTxFee).

(** the reason why a locked output cannot be spent yet *)
Definition validateFutureCoin (cn : Coin) (nSpendHeight : Z) : option string :=
  if coin_nType cn =? TRANSACTION_FUTURE then
    match b ← chain_at (vChain chainActive) (coin_nHeight cn); blocks chainActive !! b with
    | Some confirmedBlockIndex =>
        let confirmedTime := u32 (GetBlockTime confirmedBlockIndex) in
        match GetTxPayload codec_CFutureTx (coin_vExtraPayload cn) with
        | Some futureTx =>
            let isBlockMature := (0 <? maturity futureTx) && (maturity futureTx <=? nSpendHeight - coin_nHeight cn) in
            let isTimeMature := (0 <? lockTime futureTx) && (lockTime futureTx <=? GetAdjustedTime - confirmedTime) in
            if negb (isBlockMature || isTimeMature) then Some "bad-txns-premature-spend-of-future" else None
        | None => Some "bad-txns-unable-to-parse-future"
        end
    | None => Some "bad-txns-unable-to-block-index-for-future"
    end
  else None.

(** ** Checks without context *)

Definition MAX_TX_EXTRA_PAYLOAD : Z := 10000.
Definition TRANSACTION_COINBASE : Z := 5.
Definition TRANSACTION_QUORUM_COMMITMENT : Z := 6.

Fixpoint check_outputs (outs : list CTxOut) (nValueOut : Z) : option rejection :=
  match outs with
  | [] => None
  | txout :: outs =>
      if nValue txout <? 0 then dos 100 "bad-txns-vout-negative"
      else if MAX_MONEY <? nValue txout then dos 100 "bad-txns-vout-toolarge"
      else
        let nValueOut := i64 (nValueOut + nValue txout) in
        if negb (MoneyRange nValueOut) then dos 100 "bad-txns-txouttotal-toolarge" else check_outputs outs nValueOut
  end.

Fixpoint check_duplicates (ins : list CTxIn) (vInOutPoints : gset COutPoint) : option rejection :=
  match ins with
  | [] => None
  | txin :: ins =>
      if bool_decide (prevout txin ∈ vInOutPoints) then dos 100 "bad-txns-inputs-duplicate"
      else check_duplicates ins ({[ prevout txin ]} ∪ vInOutPoints)
  end.

Definition check_coinbase (tx : CTransaction) (nHeight blockReward : Z) : option rejection :=
  let minCbSize := if tx_nType tx =? TRANSACTION_COINBASE then 1 else 2 in
  let scriptSize := match vin tx with i :: _ => length (scriptSig i) | [] => 0%nat end in
  if (scriptSize <? minCbSize) || (100 <? scriptSize) then dos 100 "bad-cb-length"
  else
    let founderReward := Founder.getFounderPaymentAmount nFounderPayment nHeight blockReward in
    let founderStartHeight := Founder.startBlock nFounderPayment in
    let enforceFounder := NetworkIsMain || (950000 <=? nHeight) in
    when ((founderStartHeight <? nHeight) && enforceFounder && negb (founderReward =? 0)
          && negb (Founder.IsBlockPayeeValid DecodeDestination nFounderPayment tx nHeight blockReward))
      (dos 100 "bad-cb-founder-payment-not-found").

Definition check_transaction (tx : CTransaction) (nHeight blockReward : Z) : option rejection :=
  let allowEmptyTxInOut := tx_nType tx =? TRANSACTION_QUORUM_COMMITMENT in
  orelse (when (negb allowEmptyTxInOut && (length (vin tx) =? 0)%nat) (dos 10 "bad-txns-vin-empty"))
  (orelse (when (negb allowEmptyTxInOut && (length (vout tx) =? 0)%nat) (dos 10 "bad-txns-vout-empty"))
  (orelse (when (MAX_LEGACY_BLOCK_SIZE <? GetSerializeSize codec_CTransaction tx) (dos 100 "bad-txns-oversize"))
  (orelse (when (MAX_TX_EXTRA_PAYLOAD <? length (vExtraPayload tx)) (dos 100 "bad-txns-payload-oversize"))
  (orelse (check_outputs (vout tx) 0)
  (orelse (check_duplicates (vin tx) ∅)
  (if IsCoinBase tx then check_coinbase tx nHeight blockReward
   else when (existsb (λ txin, COutPoint_IsNull (prevout txin)) (vin tx)) (dos 10 "bad-txns-prevout-null"))))))).

Definition CheckTransaction (tx : CTransaction) (state : CValidationState) (nHeight blockReward : Z) : bool * CValidationState :=
  match check_transaction tx nHeight blockReward with
  | Some r => (false, DoS r state)
  | None => (true, state)
  end.

(** ** Checks against the coins *)

Definition COINBASE_MATURITY : Z := 100.

Section coins.
Context {V : Type} `{HV : CoinsView V} `{HO : IterationOrder} `{HU : ScriptUsage}.
#[local] Abbreviation Cache := (CCoinsViewCache V).

(** [nSigOps] is an [unsigned int] *)
Definition GetLegacySigOpCount (tx : CTransaction) : Z :=
  let nSigOps := foldl (λ n i, u32 (n + Script.GetSigOpCount (scriptSig i) false)) 0 (vin tx) in
  foldl (λ n o, u32 (n + Script.GetSigOpCount (scriptPubKey o) false)) nSigOps (vout tx).

Fixpoint p2sh_sigops_loop (ins : list CTxIn) (nSigOps : Z) : action Cache Z :=
  match ins with
  | [] => mret nSigOps
  | i :: ins =>
      cn ← AccessCoin (prevout i);
      _ ← assert (negb (IsSpent cn));
      let s := scriptPubKey (coin_out cn) in
      p2sh_sigops_loop ins (if Script.IsPayToScriptHash s then u32 (nSigOps + Script.GetSigOpCount_sig s (scriptSig i)) else nSigOps)
  end.
Definition GetP2SHSigOpCount (tx : CTransaction) : action Cache Z := if IsCoinBase tx then mret 0 else p2sh_sigops_loop (vin tx) 0.
Definition GetTransactionSigOpCount (tx : CTransaction) (flags : Z) : action Cache Z :=
  let nSigOps := GetLegacySigOpCount tx in
  if IsCoinBase tx then mret nSigOps
  else if flag flags SCRIPT_VERIFY_P2SH then k ← GetP2SHSigOpCount tx; mret (u32 (nSigOps + k))
  else mret nSigOps.

(** the loop over the inputs: a rejection or the sum of the values *)
Fixpoint check_inputs (ins : list CTxIn) (nSpendHeight nValueIn : Z) : action Cache (rejection + Z) :=
  match ins with
  | [] => mret (inr nValueIn)
  | i :: ins =>
      cn ← AccessCoin (prevout i);
      _ ← assert (negb (IsSpent cn));
      if fCoinBase cn && (nSpendHeight - coin_nHeight cn <? COINBASE_MATURITY)
      then mret (inl (Reject 0 REJECT_INVALID "bad-txns-premature-spend-of-coinbase" false))
      else
        let nValueIn := i64 (nValueIn + nValue (coin_out cn)) in
        if negb (MoneyRange (nValue (coin_out cn))) || negb (MoneyRange nValueIn)
        then mret (inl (Reject 100 REJECT_INVALID "bad-txns-inputvalues-outofrange" false))
        else match validateFutureCoin cn nSpendHeight with
             | Some futureValidationError => mret (inl (Reject 100 REJECT_INVALID futureValidationError false))
             | None => check_inputs ins nSpendHeight nValueIn
             end
  end.

(** [GetValueOut] throws *)
Definition lift_result {S A} (r : result A) : action S A := λ s, (r, s).

(** a rejection, and the values that are left in [txfee] and [specialTxFee] *)
Definition check_tx_inputs (tx : CTransaction) (nSpendHeight txfee specialTxFee : Z) (fFeeVerify : bool) : action Cache (option rejection * Z * Z) :=
  have ← HaveInputs tx;
  if negb have then mret (Some (Reject 100 REJECT_INVALID "bad-txns-inputs-missingorspent" false), txfee, specialTxFee)
  else
    r ← check_inputs (vin tx) nSpendHeight 0;
    match r with
    | inl r => mret (Some r, txfee, specialTxFee)
    | inr nValueIn =>
        value_out ← lift_result (GetValueOut tx);
        if nValueIn <? value_out then mret (Some (Reject 100 REJECT_INVALID "bad-txns-in-belowout" false), txfee, specialTxFee)
        else
          let txfee_aux := nValueIn - value_out in
          if negb (MoneyRange txfee_aux) then mret (Some (Reject 100 REJECT_INVALID "bad-txns-fee-outofrange" false), txfee, specialTxFee)
          else
            let '(ok, txfee, specialTxFee) := checkSpecialTxFee tx txfee_aux specialTxFee fFeeVerify in
            if negb ok then mret (Some (Reject 100 REJECT_INVALID "bad-txns-wrong-future-fee-or-not-enable" false), txfee, specialTxFee)
            else if txfee <? 0 then mret (Some (Reject 100 REJECT_INVALID "bad-txns-fee-too-low" false), txfee, specialTxFee)
            else mret (None, txfee, specialTxFee)
    end.

(** the result, the new state, [txfee] and [specialTxFee] *)
Definition CheckTxInputs (tx : CTransaction) (state : CValidationState) (nSpendHeight txfee specialTxFee : Z) (fFeeVerify : bool) :
  action Cache (bool * CValidationState * Z * Z) :=
  '(r, txfee, specialTxFee) ← check_tx_inputs tx nSpendHeight txfee specialTxFee fFeeVerify;
  match r with
  | Some r => mret (false, DoS r state, txfee, specialTxFee)
  | None => mret (true, state, txfee, specialTxFee)
  end.
End coins.
End rules.
