(* ===== verification/TxVerifyLaws.v ===== *)
(** * Rules on transactions: properties

    The subsidy and its gaps; founder payments; lock times keep a transaction out of a block until
    they have passed; accepted transactions create no money. *)

From stdpp Require Import sorting.
From S2P Require Import Prelude Bytes Chain ChainLaws Script Streams Serialize SerializeLaws SerializeCodecs Sha256 Sha256Laws Uint256 Transaction Merkle Coins CoinsLaws CoinsDB UndoLaws Compressor Interpreter SigHash Standard TxVerify.

(** ** The subsidy *)

(** the heights between two periods, which belong to neither *)
Definition gap (h : Z) : bool :=
  (h =? 2105657) || (h =? 5273695) || (h =? 7378633) || (h =? 8399209) || (h =? 14735285) || (h =? 15798385)
  || ((25844304 <=? h) && (h <=? 125844304)).

(** the periods, and the subsidy in them in thousandths of a coin *)
Definition period (h : Z) : Z :=
  if h <? 720 then 0 else if h <=? 553531 then 1 else if h <? 2105657 then 2 else if h <? 5273695 then 3 else if h <? 7378633 then 4
  else if h <? 8399209 then 5 else if h <? 14735285 then 6 else if h <? 15798385 then 7 else if h <? 25844304 then 8 else 9.
Definition period_range (p : Z) : Z * Z :=
  if p =? 0 then (4000, 4000) else if p =? 1 then (5000000, 5000000) else if p =? 2 then (4260000, 4990000)
  else if p =? 3 then (1290000, 4250000) else if p =? 4 then (300000, 1280000) else if p =? 5 then (60000, 295000)
  else if p =? 6 then (55000, 55000) else if p =? 7 then (5000, 54000) else if p =? 8 then (5000, 5000) else (1, 1).

(** evaluate the comparisons that are known *)
Ltac decide_heights :=
  repeat match goal with
  | |- context [?a <? ?b] => first [rewrite (proj2 (Z.ltb_lt a b)) by lia | rewrite (proj2 (Z.ltb_ge a b)) by lia]
  | |- context [?a <=? ?b] => first [rewrite (proj2 (Z.leb_le a b)) by lia | rewrite (proj2 (Z.leb_gt a b)) by lia]
  end; cbn [andb].

(** the period of a height that is in no gap *)
Lemma period_cases (P : Z -> Prop) :
  (forall h, h < 720 -> P h) -> (forall h, 720 <= h <= 553531 -> P h) -> (forall h, 553531 < h < 2105657 -> P h) ->
  (forall h, 2105657 < h < 5273695 -> P h) -> (forall h, 5273695 < h < 7378633 -> P h) -> (forall h, 7378633 < h < 8399209 -> P h) ->
  (forall h, 8399209 < h < 14735285 -> P h) -> (forall h, 14735285 < h < 15798385 -> P h) -> (forall h, 15798385 < h < 25844304 -> P h) ->
  (forall h, 125844304 < h -> P h) -> forall h, gap h = false -> P h.
Proof.
  intros H0 H1 H2 H3 H4 H5 H6 H7 H8 H9 h Hg. unfold gap in Hg. rewrite !orb_false_iff, !Z.eqb_neq in Hg. destruct Hg as [[[[[[? ?] ?] ?] ?] ?] Hg].
  destruct (Z.lt_ge_cases h 720); [auto|]. destruct (Z.le_gt_cases h 553531); [auto|]. destruct (Z.lt_ge_cases h 2105657); [auto|].
  destruct (Z.lt_ge_cases h 5273695); [apply H3; lia|]. destruct (Z.lt_ge_cases h 7378633); [apply H4; lia|].
  destruct (Z.lt_ge_cases h 8399209); [apply H5; lia|]. destruct (Z.lt_ge_cases h 14735285); [apply H6; lia|].
  destruct (Z.lt_ge_cases h 15798385); [apply H7; lia|]. destruct (Z.lt_ge_cases h 25844304); [apply H8; lia|]. apply H9. lia.
Qed.

Lemma subsidy_range h : gap h = false ->
  let '(lo, hi) := period_range (period h) in
  lo * 100000 <= Subsidy.GetBlockSubsidy h <= hi * 100000.
Proof.
  revert h. apply period_cases; intros h Hh; unfold Subsidy.GetBlockSubsidy, period; cbv zeta; change (COIN / 1000) with 100000;
    decide_heights; cbn [period_range Z.eqb Pos.eqb]; lia.
Qed.

Lemma subsidy_in_gap h : gap h = true -> Subsidy.GetBlockSubsidy h = 5000 * COIN.
Proof.
  unfold gap. rewrite !orb_true_iff, andb_true_iff, !Z.eqb_eq, !Z.leb_le.
  intros [[[[[[->| ->]| ->]| ->]| ->]| ->]|Hh]; try reflexivity.
  unfold Subsidy.GetBlockSubsidy. cbv zeta. by decide_heights.
Qed.

Lemma subsidy_decreases h1 h2 : gap h1 = false -> gap h2 = false -> 720 <= h1 <= h2 -> Subsidy.GetBlockSubsidy h2 <= Subsidy.GetBlockSubsidy h1.
Proof.
  intros G1 G2. revert h1 G1.
  apply (period_cases (λ h1, 720 <= h1 <= h2 -> Subsidy.GetBlockSubsidy h2 <= Subsidy.GetBlockSubsidy h1)); intros h1 H1; [lia|..];
    revert h2 G2; apply (period_cases (λ h2, 720 <= h1 <= h2 -> Subsidy.GetBlockSubsidy h2 <= Subsidy.GetBlockSubsidy h1)); intros h2 H2 Hle; try lia;
    unfold Subsidy.GetBlockSubsidy; cbv zeta; change (COIN / 1000) with 100000; decide_heights; lia.
Qed.

(** The schedule of block rewards: every block pays more than nothing and at most 5000 coins; from height 720 on,
    and outside of the gaps between the periods of the schedule, the reward never grows. *)
Theorem subsidy_schedule :
  (forall h, 0 < Subsidy.GetBlockSubsidy h <= 5000 * COIN) /\
  (forall h1 h2, 720 <= h1 <= h2 -> gap h1 = false -> gap h2 = false -> Subsidy.GetBlockSubsidy h2 <= Subsidy.GetBlockSubsidy h1).
Proof.
  split; [|intros; by apply subsidy_decreases]. intros h. destruct (gap h) eqn:G.
  - rewrite subsidy_in_gap by done. unfold COIN. lia.
  - pose proof (subsidy_range h G) as H. change (5000 * COIN) with (5000000 * 100000).
    unfold period_range in H. repeat case_match; simplify_eq; lia.
Qed.

Lemma subsidy_schedule_witness :
  gap 800 = false /\ gap 5000000 = false /\ Subsidy.GetBlockSubsidy 5000000 <= Subsidy.GetBlockSubsidy 800.
Proof. split; [reflexivity|]. split; [reflexivity|]. apply (proj2 subsidy_schedule); [lia|reflexivity|reflexivity]. Defined.

(** The schedule has gaps: at each of the six heights that end a period the reward is 5000 coins again, for one
    block, although it is far less just before and just after; and so it is for the hundred million blocks from
    25844304 on, between rewards of 5 coins and of a thousandth of one. *)
Theorem subsidy_gaps :
  Forall (λ h, Subsidy.GetBlockSubsidy h = 5000 * COIN /\ Subsidy.GetBlockSubsidy (h - 1) < 4300 * COIN /\ Subsidy.GetBlockSubsidy (h + 1) < 4300 * COIN)
    [2105657; 5273695; 7378633; 8399209; 14735285; 15798385] /\
  Subsidy.GetBlockSubsidy 25844303 = 5 * COIN /\
  (forall h, 25844304 <= h <= 125844304 -> Subsidy.GetBlockSubsidy h = 5000 * COIN) /\
  Subsidy.GetBlockSubsidy 125844305 = COIN / 1000.
Proof.
  split; [repeat constructor|]. split; [reflexivity|]. split; [|reflexivity].
  intros h Hh. apply subsidy_in_gap. unfold gap. rewrite !orb_true_iff, andb_true_iff, !Z.leb_le. by right.
Qed.

Lemma subsidy_gaps_witness : Subsidy.GetBlockSubsidy 100000000 = 5000 * COIN.
Proof. apply (proj1 (proj2 (proj2 subsidy_gaps))). lia. Defined.

(** ** Founder payments *)

Definition total_out (outs : list CTxOut) : Z := foldr (λ o t, nValue o + t) 0 outs.

Lemma total_out_app a b : total_out (a ++ b) = total_out a + total_out b.
Proof. unfold total_out. induction a as [|o a IH]; [done|]. cbn [app foldr]. rewrite IH. lia. Qed.

(** A coinbase filled in by the miner passes the check of the payee, and pays the founder out of the
    miner's output: the sum of the outputs is what it was. *)
Theorem founder_payment_valid (decode : string -> CTxDestination) (f : Founder.FounderPayment) (tx tx' : CTransaction) (o : CTxOut) (h r : Z) :
  Founder.FillFounderPayment decode f tx h r = Ok (tx', o) ->
  Founder.IsBlockPayeeValid decode f tx' h r = true /\ nValue o = Founder.getFounderPaymentAmount f h r /\ vin tx' = vin tx /\
  vout tx <> [] /\ total_out (vout tx') = total_out (vout tx).
Proof.
  unfold Founder.FillFounderPayment. case_match; [done|]. destruct (vout tx) as [|miner rest]; [done|]. cbv zeta. case_match; [done|].
  intros [= <- <-]. cbn [vout vin nValue]. split_and!; [|done..|].
  - unfold Founder.IsBlockPayeeValid. cbn [vout existsb]. rewrite existsb_app. apply orb_true_iff. right. apply orb_true_iff. right. cbn.
    by rewrite bool_decide_eq_true_2, Z.leb_refl.
  - rewrite app_comm_cons, total_out_app. cbn [total_out foldr nValue]. fold (total_out rest). lia.
Qed.

(** *** What is due

    The entry in force at a height: the first of a schedule that ends at the height or above, or never. *)

Definition in_force {A} (last_height : A -> Z) (h : Z) (l : list A) : option A :=
  snd <$> list_find (λ s, last_height s = Founder.INT_MAX \/ h <= last_height s) l.
(** what a block of height [h] and reward [r] owes to the founder, and the address that it is owed to *)
Definition founder_due (f : Founder.FounderPayment) (h r : Z) : Z :=
  if decide (h <= Founder.startBlock f) then 0
  else match in_force Founder.reward_blockHeight h (Founder.rewardStructures f) with
       | Some s => r * Founder.rewardPercentage s / 100
       | None => 0
       end.
Definition founder_payee (f : Founder.FounderPayment) (h : Z) : string :=
  default "" (Founder.address <$> in_force Founder.address_blockHeight h (Founder.founderAddresses f)).
(** every share of the reward is computed without overflow *)
Definition shares_ok (f : Founder.FounderPayment) (r : Z) : Prop :=
  Forall (λ s, 0 <= r * Founder.rewardPercentage s < 2 ^ 63) (Founder.rewardStructures f).

Lemma in_force_cons {A} (k : A -> Z) h x l :
  in_force k h (x :: l) = if decide (k x = Founder.INT_MAX \/ h <= k x) then Some x else in_force k h l.
Proof. unfold in_force. cbn [list_find]. case_decide; [done|]. by destruct (list_find _ l) as [[]|]. Qed.
Lemma in_force_test k h : (k =? Founder.INT_MAX) || (h <=? k) = bool_decide (k = Founder.INT_MAX \/ h <= k).
Proof. case_bool_decide; lia. Qed.

Lemma due_amount f h r : shares_ok f r -> Founder.getFounderPaymentAmount f h r = founder_due f h r.
Proof.
  unfold shares_ok, Founder.getFounderPaymentAmount, founder_due. intros Hs. destruct (Z.leb_spec h (Founder.startBlock f)); case_decide; try lia.
  induction Hs as [|s l Hs _ IH]; [done|]. cbn [Founder.reward_of]. rewrite in_force_cons, in_force_test. case_bool_decide; case_decide; try done.
  rewrite sint_small by (unfold in_sint; cbn; lia). apply Z.quot_div_nonneg; lia.
Qed.
Lemma due_address f h : Founder.getFounderAddress f h = founder_payee f h.
Proof.
  unfold Founder.getFounderAddress, founder_payee. induction (Founder.founderAddresses f) as [|s l IH]; [done|].
  cbn [Founder.address_of]. rewrite in_force_cons, in_force_test. case_bool_decide; by case_decide.
Qed.

Definition example_founder : Founder.FounderPayment := Founder.FounderPayment_one [Founder.mkReward Founder.INT_MAX 5] 200 "founder".
Definition example_decode (s : string) : CTxDestination := CKeyID (replicate 20 1).
Definition example_coinbase : CTransaction := mkCTransaction [] [mkCTxOut (5000 * COIN) [OP_1]] 2 0 0 [].

Lemma founder_payment_valid_witness :
  exists tx' o, Founder.FillFounderPayment example_decode example_founder example_coinbase 1000 (5000 * COIN) = Ok (tx', o) /\
    nValue o = 250 * COIN /\ Founder.IsBlockPayeeValid example_decode example_founder tx' 1000 (5000 * COIN) = true.
Proof.
  eexists _, _. split; [reflexivity|]. split; [reflexivity|].
  exact (proj1 (founder_payment_valid example_decode example_founder example_coinbase _ _ 1000 (5000 * COIN) eq_refl)).
Defined.

(** ** Lock times *)

(** What CHECKLOCKTIMEVERIFY enforces: when a script asks for the lock time [k] and the check passes for some
    input, then a block that may contain the transaction is higher than [k] (or, for a time, comes after
    [k]).  [IsFinalTx] and [CheckLockTime] only agree on this because the input's sequence number is not final. *)
Theorem locktime_enforced (tx : CTransaction) (i k nBlockHeight nBlockTime : Z) :
  0 <= i < length (vin tx) -> 0 <= nLockTime tx -> 0 <= k -> 0 < nBlockHeight ->
  TransactionSignatureChecker_CheckLockTime tx i k = true -> IsFinalTx tx nBlockHeight nBlockTime = true ->
  if k <? LOCKTIME_THRESHOLD then k < nBlockHeight else k < nBlockTime.
Proof.
  intros Hi Hl Hk Hh Hc Hf. unfold TransactionSignatureChecker_CheckLockTime in Hc. unfold IsFinalTx in Hf.
  destruct (negb _) eqn:E1 in Hc; [done|]. apply negb_false_iff in E1.
  destruct (nLockTime tx <? k) eqn:E2; [done|]. destruct (SEQUENCE_FINAL =? _) eqn:E3; [done|].
  assert (Hall : forallb (λ txin, nSequence txin =? SEQUENCE_FINAL) (vin tx) = false).
  { destruct (forallb _ _) eqn:Ea; [|done]. rewrite forallb_forall in Ea. destruct (lookup_lt_is_Some_2 (vin tx) (Z.to_nat i)) as [x Hx]; [lia|].
    unfold input in E3. rewrite Hx in E3. change (default CTxIn_default (Some x)) with x in E3. specialize (Ea x). rewrite Z.eqb_sym, Ea in E3; [done|].
    by apply list_elem_of_In, (list_elem_of_lookup_2 _ (Z.to_nat i)). }
  rewrite Hall in Hf. unfold LOCKTIME_THRESHOLD in *.
  destruct (Z.eqb_spec (nLockTime tx) 0); repeat case_match; lia.
Qed.

Definition locktime_example : CTransaction := mkCTransaction [mkCTxIn COutPoint_default [] 0] [] 2 0 700 [].
Lemma locktime_enforced_witness : IsFinalTx locktime_example 701 0 = true /\ 650 < 701.
Proof.
  split; [reflexivity|].
  apply (locktime_enforced locktime_example 0 650 701 0); try (cbn; lia); reflexivity.
Defined.

(** the two parts of a relative lock time *)
Lemma locktime_parts x :
  exists t v, (x &&& SEQUENCE_LOCKTIME_TYPE_FLAG) = t /\ (t = 0 \/ t = 2 ^ 22) /\ (x &&& SEQUENCE_LOCKTIME_MASK) = v /\ 0 <= v < 2 ^ 16 /\
    (x &&& (SEQUENCE_LOCKTIME_TYPE_FLAG ||| SEQUENCE_LOCKTIME_MASK)) = t + v.
Proof.
  unfold SEQUENCE_LOCKTIME_TYPE_FLAG, SEQUENCE_LOCKTIME_MASK. change 0x0000ffff with (Z.ones 16).
  assert (Ht : x &&& 2 ^ 22 = 0 \/ x &&& 2 ^ 22 = 2 ^ 22).
  { destruct (Z.testbit x 22) eqn:E; [right|left]; apply Z.bits_inj'; intros j Hj; rewrite Z.land_spec, ?Z.bits_0, Z.pow2_bits_eqb by lia;
      (destruct (Z.eqb_spec 22 j) as [<-|]; [rewrite E|rewrite andb_false_r]; done). }
  assert (Hv : x &&& Z.ones 16 = x `mod` 2 ^ 16) by (apply Z.land_ones; lia).
  exists (x &&& 2 ^ 22), (x &&& Z.ones 16). split; [done|]. split; [done|]. split; [done|]. split; [rewrite Hv; apply Z.mod_pos_bound; lia|].
  rewrite Z.land_lor_distr_r. assert (Hb : 0 <= x &&& Z.ones 16 < 2 ^ 22) by (rewrite Hv; pose proof (Z.mod_pos_bound x (2 ^ 16)); lia).
  destruct Ht as [-> | ->]; [by rewrite Z.lor_0_l|]. apply (lor_shiftl_add 1 22); lia.
Qed.

Lemma sequence_locks_bound st block ins prevHeights mh mt h t l :
  sequence_locks_loop st block ins prevHeights mh mt = Some (h, t, l) ->
  mh <= h /\ mt <= t /\
  forall (i : nat) txin c, ins !! i = Some txin -> prevHeights !! i = Some c -> (nSequence txin &&& SEQUENCE_LOCKTIME_DISABLE_FLAG) = 0 ->
    if (nSequence txin &&& SEQUENCE_LOCKTIME_TYPE_FLAG) =? 0
    then i32 (c + (nSequence txin &&& SEQUENCE_LOCKTIME_MASK) - 1) <= h
    else exists a tc, GetAncestor st block (Z.max (c - 1) 0) = Some (Some a) /\ GetMedianTimePast st a = Some tc /\
      tc + ((nSequence txin &&& SEQUENCE_LOCKTIME_MASK) << SEQUENCE_LOCKTIME_GRANULARITY) - 1 <= t.
Proof.
  revert prevHeights mh mt l. induction ins as [|x ins IH]; intros prevHeights mh mt l E.
  { injection E as <- <- <-. split; [lia|]. split; [lia|]. by intros i ? ?. }
  destruct prevHeights as [|c0 prevHeights]; [done|]. cbn [sequence_locks_loop] in E.
  destruct (negb ((nSequence x &&& SEQUENCE_LOCKTIME_DISABLE_FLAG) =? 0)) eqn:Ed.
  - destruct (sequence_locks_loop st block ins prevHeights mh mt) as [[[h' t'] l']|] eqn:El; [|done]. injection E as <- <- <-.
    destruct (IH _ _ _ _ El) as (H1 & H2 & H3). split; [done|]. split; [done|]. intros [|i] txin c; [|by apply H3].
    intros [= <-] _ Hd. rewrite Hd in Ed. done.
  - destruct (negb ((nSequence x &&& SEQUENCE_LOCKTIME_TYPE_FLAG) =? 0)) eqn:Et.
    + destruct (GetAncestor st block (Z.max (c0 - 1) 0)) as [[a|]|] eqn:Ea; [|done..]. cbn [mbind option_bind] in E.
      destruct (GetMedianTimePast st a) as [tc|] eqn:Em; [|done]. cbn [mbind option_bind] in E.
      destruct (sequence_locks_loop st block ins prevHeights mh _) as [[[h' t'] l']|] eqn:El; [|done]. injection E as <- <- <-.
      destruct (IH _ _ _ _ El) as (H1 & H2 & H3). split; [done|]. split; [lia|]. intros [|i] txin c; [|by apply H3].
      intros [= <-] [= <-] _. apply negb_true_iff in Et. rewrite Et. exists a, tc. split; [done|]. split; [done|lia].
    + destruct (sequence_locks_loop st block ins prevHeights _ mt) as [[[h' t'] l']|] eqn:El; [|done]. injection E as <- <- <-.
      destruct (IH _ _ _ _ El) as (H1 & H2 & H3). split; [lia|]. split; [done|]. intros [|i] txin c; [|by apply H3].
      intros [= <-] [= <-] _. apply negb_false_iff in Et. rewrite Et. lia.
Qed.

(** C23: What CHECKSEQUENCEVERIFY enforces: when a script asks for the relative lock time [k] and the check passes for
    an input, then a block in which the sequence locks of the transaction hold is at least as many blocks above
    the coin that the input spends as [k] says; or, when [k] is a time, the median time before the block is at
    least that many units of 512 seconds after the median time before the coin. *)
Theorem sequence_enforced (tx : CTransaction) (i : nat) (k c : Z) (prevHeights l : list Z) (st : store) (block p : ptr) (b : CBlockIndex) :
  in_uint 16 (tx_nVersion tx) -> prevHeights !! i = Some c -> 0 <= c < 2 ^ 31 - 2 ^ 16 ->
  st !! block = Some b -> pprev b = Some p ->
  TransactionSignatureChecker_CheckSequence tx i k = true ->
  SequenceLocks tx LOCKTIME_VERIFY_SEQUENCE prevHeights st block = Some (true, l) ->
  if (k &&& SEQUENCE_LOCKTIME_TYPE_FLAG) =? 0 then c + (k &&& SEQUENCE_LOCKTIME_MASK) <= Chain.nHeight b
  else exists a tc tb, GetAncestor st block (Z.max (c - 1) 0) = Some (Some a) /\ GetMedianTimePast st a = Some tc /\
    GetMedianTimePast st p = Some tb /\ tc + (k &&& SEQUENCE_LOCKTIME_MASK) * 512 <= tb.
Proof.
  intros Hver Hc Hc31 Hb Hp Hcs Hsl. unfold SequenceLocks, CalculateSequenceLocks in Hsl.
  destruct (length prevHeights =? length (vin tx))%nat eqn:El; [|done]. apply Nat.eqb_eq in El. cbn [negb] in Hsl.
  unfold TransactionSignatureChecker_CheckSequence in Hcs. destruct (u32 (tx_nVersion tx) <? 2) eqn:E2; [done|].
  replace (2 <=? u32 (tx_nVersion tx)) with true in Hsl by lia. change ((LOCKTIME_VERIFY_SEQUENCE &&& LOCKTIME_VERIFY_SEQUENCE) =? 0) with false in Hsl.
  cbn [negb andb] in Hsl. destruct (sequence_locks_loop st block (vin tx) prevHeights (-1) (-1)) as [[[h t] l']|] eqn:Eloop; [|done].
  cbn [mbind option_bind] in Hsl. unfold EvaluateSequenceLocks in Hsl. rewrite Hb in Hsl. cbn [mbind option_bind] in Hsl. rewrite Hp in Hsl. cbn [mbind option_bind] in Hsl.
  destruct (GetMedianTimePast st p) as [tb|] eqn:Etb; [|done]. cbn [mbind option_bind fst snd] in Hsl. injection Hsl as Hok _.
  apply negb_true_iff, orb_false_iff in Hok as [Hh Ht].
  destruct (sequence_locks_bound _ _ _ _ _ _ _ _ _ Eloop) as (_ & _ & Hall).
  destruct (lookup_lt_is_Some_2 (vin tx) i) as [x Hx]; [rewrite <- El; by eapply lookup_lt_Some|].
  specialize (Hall i x c Hx Hc). unfold input in Hcs. rewrite Nat2Z.id, Hx in Hcs. change (default CTxIn_default (Some x)) with x in Hcs.
  destruct (negb ((nSequence x &&& SEQUENCE_LOCKTIME_DISABLE_FLAG) =? 0)) eqn:Ed; [done|]. apply negb_false_iff, Z.eqb_eq in Ed. specialize (Hall Ed).
  unfold ScriptNum.and in Hcs.
  destruct (locktime_parts (nSequence x)) as (tx1 & v1 & E1 & Ht1 & F1 & Hv1 & G1).
  destruct (locktime_parts k) as (tk & vk & Ek & Htk & Fk & Hvk & Gk).
  rewrite G1, Gk in Hcs. rewrite E1, F1 in Hall. rewrite Ek, Fk. unfold SEQUENCE_LOCKTIME_TYPE_FLAG in Hcs.
  destruct (negb _) eqn:Ekind in Hcs; [done|]. destruct (tx1 + v1 <? tk + vk) eqn:Ecmp; [done|]. apply negb_false_iff in Ekind.
  destruct Ht1 as [-> | ->], Htk as [-> | ->]; cbn [Z.eqb] in *; try lia.
  - rewrite sint_small in Hall by (unfold in_sint; cbn; lia). lia.
  - change (2 ^ 22 =? 0) with false in Hall |- *. cbv iota in Hall |- *. destruct Hall as (a & tc & Ha & Hm & Hle).
    exists a, tc, tb. split_and!; try done. unfold SEQUENCE_LOCKTIME_GRANULARITY in Hle. rewrite Z.shiftl_mul_pow2 in Hle by lia. lia.
Qed.

Definition example_block (pprev : option ptr) (h t : Z) : CBlockIndex := mkCBlockIndex None pprev None h [] 0 0 [] t 0 0 0 0.
Definition example_chain : store := {[ 0%nat := example_block None 0 100; 1%nat := example_block (Some 0%nat) 1 200 ]}.
(** an input that must wait for one block *)
Definition sequence_example : CTransaction := mkCTransaction [mkCTxIn COutPoint_default [] 1] [] 2 0 0 [].

Lemma sequence_enforced_witness :
  SequenceLocks sequence_example LOCKTIME_VERIFY_SEQUENCE [0] example_chain 1%nat = Some (true, [0]) /\ 0 + (1 &&& SEQUENCE_LOCKTIME_MASK) <= 1.
Proof.
  split; [vm_compute; reflexivity|].
  refine (sequence_enforced sequence_example 0 1 0 [0] [0] example_chain 1 0 (example_block (Some 0%nat) 1 200) _ _ _ _ _ _ _).
  - unfold in_uint. cbn. lia.
  - reflexivity.
  - lia.
  - vm_compute. reflexivity.
  - reflexivity.
  - vm_compute. reflexivity.
  - vm_compute. reflexivity.
Defined.

(** ** Checks without context *)

Lemma check_outputs_spec outs acc :
  0 <= acc <= MAX_MONEY ->
  check_outputs outs acc = None <-> Forall (λ o, 0 <= nValue o <= MAX_MONEY) outs /\ acc + total_out outs <= MAX_MONEY.
Proof.
  revert acc. induction outs as [|o outs IH]; intros acc Ha; cbn [check_outputs].
  { split; [|done]. intros _. split; [constructor|]. unfold total_out. cbn [foldr]. lia. }
  change (total_out (o :: outs)) with (nValue o + total_out outs). rewrite Forall_cons.
  destruct (Z.ltb_spec (nValue o) 0); [split; [done|lia]|]. destruct (Z.ltb_spec MAX_MONEY (nValue o)); [split; [done|lia]|]. cbv zeta.
  rewrite sint_small by (unfold in_sint, MAX_MONEY, COIN in *; cbn; lia). unfold MoneyRange.
  assert (Hpos : Forall (λ o, 0 <= nValue o <= MAX_MONEY) outs -> 0 <= total_out outs).
  { clear. unfold total_out. induction 1; cbn [foldr]; lia. }
  destruct (Z.leb_spec (acc + nValue o) MAX_MONEY); rewrite (proj2 (Z.leb_le 0 (acc + nValue o))) by lia; cbn [andb negb].
  - rewrite IH by lia. split; intros H'; (split; [|lia]); [split; [lia|]|]; apply H'.
  - split; [done|]. intros [[_ Hf] Ht]. specialize (Hpos Hf). lia.
Qed.

Lemma check_duplicates_spec ins (X : gset COutPoint) :
  check_duplicates ins X = None <-> NoDup (prevout <$> ins) /\ (forall o, o ∈ prevout <$> ins -> o ∉ X).
Proof.
  revert X. induction ins as [|x ins IH]; intros X; cbn [check_duplicates fmap list_fmap].
  { split; [|done]. intros _. split; [constructor|]. intros o Ho. by apply not_elem_of_nil in Ho. }
  rewrite NoDup_cons. case_bool_decide as Hin.
  - split; [done|]. intros [_ Hx]. exfalso. by apply (Hx (prevout x)); [left|].
  - rewrite IH. split.
    + intros [Hn Hx]. split.
      * split; [|done]. intros Hi. specialize (Hx _ Hi). set_solver.
      * intros o [->|Ho]%elem_of_cons; [done|]. specialize (Hx o Ho). set_solver.
    + intros [[Hni Hn] Hx]. split; [done|]. intros o Ho.
      assert (o <> prevout x) by congruence. specialize (Hx o). rewrite elem_of_cons in Hx. set_solver.
Qed.

Lemma orelse_None a b : orelse a b = None <-> a = None /\ b = None.
Proof. destruct a; cbn; [split; [done|by intros [? ?]]|tauto]. Qed.
Lemma when_dos_None (c : bool) k s : when c (dos k s) = None <-> c = false.
Proof. by destruct c. Qed.

(** every rejection of the check is of the kind REJECT_INVALID *)
Lemma check_transaction_code `{TxServices} tx h r rej : check_transaction tx h r = Some rej -> code rej = REJECT_INVALID /\ 0 < level rej.
Proof.
  assert (Ho : forall outs acc rej, check_outputs outs acc = Some rej -> code rej = REJECT_INVALID /\ 0 < level rej).
  { induction outs as [|o outs IH]; intros acc rej0; cbn [check_outputs]; [done|].
    repeat case_match; try (intros [= <-]; split; reflexivity). apply IH. }
  assert (Hd : forall ins X rej, check_duplicates ins X = Some rej -> code rej = REJECT_INVALID /\ 0 < level rej).
  { induction ins as [|x ins IH]; intros X rej0; cbn [check_duplicates]; [done|]. case_match; [intros [= <-]; split; reflexivity|apply IH]. }
  unfold check_transaction, check_coinbase, orelse, when. cbv zeta.
  repeat match goal with
  | |- context [if ?c then _ else _] => destruct c eqn:?
  | |- context [check_outputs ?a ?b] => destruct (check_outputs a b) eqn:?; [intros [= <-]; by eapply Ho|]
  | |- context [check_duplicates ?a ?b] => destruct (check_duplicates a b) eqn:?; [intros [= <-]; by eapply Hd|]
  end; try done; intros [= <-]; split; reflexivity.
Qed.

(** what a coinbase must satisfy: one input, with a script of an allowed size; and, on the main network
    from the founder's first block on, on the others from height 950000 on, an output that pays what is due to the founder *)
Definition coinbase_ok `{TxServices} (tx : CTransaction) (h r : Z) : Prop :=
  (exists i, vin tx = [i] /\ (if decide (tx_nType tx = TRANSACTION_COINBASE) then 1 else 2) <= length (scriptSig i) <= 100) /\
  (Founder.startBlock nFounderPayment < h -> NetworkIsMain = true \/ 950000 <= h -> founder_due nFounderPayment h r <> 0 ->
   exists o, o ∈ vout tx /\ scriptPubKey o = GetScriptForDestination (DecodeDestination (founder_payee nFounderPayment h)) /\
     founder_due nFounderPayment h r <= nValue o).

Lemma payee_valid decode f tx h r : shares_ok f r ->
  Founder.IsBlockPayeeValid decode f tx h r = true <->
  exists o, o ∈ vout tx /\ scriptPubKey o = GetScriptForDestination (decode (founder_payee f h)) /\ founder_due f h r <= nValue o.
Proof.
  intros Hs. unfold Founder.IsBlockPayeeValid. rewrite due_amount, due_address by done. rewrite existsb_exists.
  by setoid_rewrite list_elem_of_In; setoid_rewrite andb_true_iff; setoid_rewrite bool_decide_eq_true; setoid_rewrite Z.leb_le.
Qed.

Lemma check_coinbase_ok `{TxServices} tx h r : IsCoinBase tx = true -> shares_ok nFounderPayment r ->
  check_coinbase tx h r = None <-> coinbase_ok tx h r.
Proof.
  intros Hc Hs. assert (exists i, vin tx = [i]) as [i Hi] by (unfold IsCoinBase in Hc; destruct (vin tx) as [|i [|]]; [done| |done]; by exists i).
  unfold check_coinbase, coinbase_ok. rewrite Hi. cbv zeta. rewrite due_amount by done.
  replace (if tx_nType tx =? TRANSACTION_COINBASE then 1 else 2) with (if decide (tx_nType tx = TRANSACTION_COINBASE) then 1 else 2)
    by (case_decide; destruct (Z.eqb_spec (tx_nType tx) TRANSACTION_COINBASE); done).
  set (lo := if decide _ then 1 else 2).
  destruct ((length (scriptSig i) <? lo) || (100 <? length (scriptSig i))) eqn:El.
  { split; [done|]. intros [(j & [= <-] & Hj) _]. lia. }
  rewrite when_dos_None. split.
  - intros Hf. split; [exists i; split; [done|lia]|]. intros Hh Hn Hd. apply payee_valid; [done|].
    destruct (Founder.IsBlockPayeeValid _ _ _ _ _); [done|]. cbn [negb] in Hf. rewrite andb_true_r in Hf.
    destruct NetworkIsMain; destruct Hn; lia.
  - intros [_ Hf]. apply not_true_iff_false. rewrite !andb_true_iff, orb_true_iff, !negb_true_iff, Z.ltb_lt, Z.leb_le, Z.eqb_neq.
    intros [[[Hh Hn] Hd] Hv]. apply not_true_iff_false in Hv. apply Hv, payee_valid; auto.
Qed.

(** C22: A transaction passes the checks that need no context exactly when: it has inputs and outputs (unless it
    is a quorum commitment), its serialization and its payload are within their limits, every output and the sum
    of all outputs are amounts of money, no outpoint is spent twice; and, for a coinbase, the script of its input has
    between 2 (1 for a coinbase with a payload) and 100 bytes, and, above the founder's start height and on the main
    network or from height 950000 on, some output pays to the founder's address of that height at least the
    percentage of the block's reward that is due then, unless that is nothing; for any other transaction, no input
    is null.  When it does not pass, the state is that of an invalid transaction.  The founder's shares of the reward
    are assumed to be computed without overflow. *)
Theorem CheckTransaction_spec `{HT : TxServices} (tx : CTransaction) (state : CValidationState) (nHeight blockReward : Z) :
  shares_ok nFounderPayment blockReward ->
  let '(ok, state') := CheckTransaction tx state nHeight blockReward in
  (ok = true <->
    (tx_nType tx = TRANSACTION_QUORUM_COMMITMENT \/ (vin tx <> [] /\ vout tx <> [])) /\
    GetSerializeSize codec_CTransaction tx <= 1000000 /\ length (vExtraPayload tx) <= 10000 /\
    Forall (λ o, 0 <= nValue o <= MAX_MONEY) (vout tx) /\ total_out (vout tx) <= MAX_MONEY /\ NoDup (prevout <$> vin tx) /\
    if IsCoinBase tx then coinbase_ok tx nHeight blockReward
    else Forall (λ i, COutPoint_IsNull (prevout i) = false) (vin tx)) /\
  (if ok then state' = state
   else chRejectCode state' = REJECT_INVALID /\ (mode state <> MODE_ERROR -> mode state' = MODE_INVALID)).
Proof.
  intros Hs. unfold CheckTransaction. destruct (check_transaction tx nHeight blockReward) as [rej|] eqn:E.
  - split; [split; [done|]|].
    + intros (H1 & H2 & H3 & H4 & H5 & H6 & H7). exfalso. enough (check_transaction tx nHeight blockReward = None) by congruence. clear E rej.
      unfold check_transaction, MAX_LEGACY_BLOCK_SIZE, MAX_TX_EXTRA_PAYLOAD. cbv zeta. rewrite !orelse_None, !when_dos_None.
      rewrite check_outputs_spec by (unfold MAX_MONEY, COIN; lia). rewrite check_duplicates_spec.
      assert (Hq : forall b : bool, ((tx_nType tx = TRANSACTION_QUORUM_COMMITMENT) \/ b = false) -> negb (tx_nType tx =? TRANSACTION_QUORUM_COMMITMENT) && b = false).
      { intros b [-> | ->]; [done|apply andb_false_r]. }
      split_and!; try (lia || done || (rewrite Z.add_0_l; done)).
      * apply Hq. destruct H1 as [|[Hn _]]; [by left|right; by destruct (vin tx)].
      * apply Hq. destruct H1 as [|[_ Hn]]; [by left|right; by destruct (vout tx)].
      * destruct (IsCoinBase tx) eqn:Ec; [by apply check_coinbase_ok|]. rewrite when_dos_None. apply not_true_iff_false. rewrite existsb_exists.
        intros (i & Hi%list_elem_of_In & Hn). rewrite Forall_forall in H7. rewrite (H7 i Hi) in Hn. done.
    + destruct (check_transaction_code tx nHeight blockReward rej E) as [Hc _]. unfold DoS. destruct (mode state); done.
  - split; [|done]. split; [intros _|done].
    unfold check_transaction, MAX_LEGACY_BLOCK_SIZE, MAX_TX_EXTRA_PAYLOAD in E. cbv zeta in E. rewrite !orelse_None, !when_dos_None in E.
    rewrite check_outputs_spec in E by (unfold MAX_MONEY, COIN; lia). rewrite check_duplicates_spec, Z.add_0_l in E.
    destruct E as (E1 & E2 & E3 & E4 & [E5 E6] & [E7 _] & E8). split_and!; try (lia || done).
    + destruct (Z.eqb_spec (tx_nType tx) TRANSACTION_QUORUM_COMMITMENT); [by left|right]. cbn in E1, E2. split; intros Hn; by rewrite Hn in *.
    + destruct (IsCoinBase tx) eqn:Ec; [by apply check_coinbase_ok in E8|]. rewrite when_dos_None in E8. apply Forall_forall. intros i Hi%list_elem_of_In.
      apply not_true_iff_false. intros Hn. apply not_true_iff_false in E8. apply E8, existsb_exists. by exists i.
Qed.

(** *** The fee in a payload is a 16-bit number *)

Lemma bind_Ok_inv {S A B} (m : action S A) (f : A -> action S B) s b s' :
  (m ≫= f) s = (Ok b, s') -> exists a s1, m s = (Ok a, s1) /\ f a s1 = (Ok b, s').
Proof. unfold mbind, action_bind. destruct (m s) as [[a|e] s1]; [|done]. eauto. Qed.

Lemma payload_fee payload ftx :
  bytes payload -> length payload <= 2 ^ 31 -> GetTxPayload codec_CFutureTx payload = Some ftx -> in_uint 16 (ftx_fee ftx).
Proof.
  intros Hb Hl. unfold GetTxPayload. set (s := DataStream.new payload SER_NETWORK PROTOCOL_VERSION).
  assert (Hok : is_ok s) by (split; [cbn; lia|split; [done|exact Hb]]).
  destruct (Unserialize codec_CFutureTx s) as [[t|e] ds] eqn:E; [|done]. case_match; [|done]. intros [= <-].
  cbn [Unserialize codec_CFutureTx] in E.
  apply bind_Ok_inv in E as (v0 & s0 & E0 & E). destruct (consumes_readdata16 _ _ _ Hok E0) as [H0 _].
  apply bind_Ok_inv in E as (v1 & s1 & E1 & E). apply bind_Ok_inv in E1 as (w1 & r1 & E1 & [= <- <-]).
  destruct (consumes_readdata32 _ _ _ H0 E1) as [H1 _].
  apply bind_Ok_inv in E as (v2 & s2 & E2 & E). apply bind_Ok_inv in E2 as (w2 & r2 & E2 & [= <- <-]).
  destruct (consumes_readdata32 _ _ _ H1 E2) as [H2 _].
  apply bind_Ok_inv in E as (v3 & s3 & E3 & E). destruct (consumes_readdata16 _ _ _ H2 E3) as [H3 _].
  apply bind_Ok_inv in E as (v4 & s4 & E4 & E). destruct (consumes_readdata16 _ _ _ H3 E4) as (_ & ? & _ & Hfee & _).
  do 6 (apply bind_Ok_inv in E as (? & ? & _ & E)). injection E as <- _. exact Hfee.
Qed.

(** ** Checks against the coins *)

Definition total_in (coins : list Coin) : Z := foldr (λ cn t, nValue (coin_out cn) + t) 0 coins.

(** the fee a special transaction pays on top *)
Definition special_fee (tx : CTransaction) : Z :=
  if (3 <=? tx_nVersion tx) && (tx_nType tx =? TRANSACTION_FUTURE)
  then match GetTxPayload codec_CFutureTx (vExtraPayload tx) with Some ftx => ftx_fee ftx * COIN | None => 0 end
  else 0.

Section coins_laws.
Context `{HT : TxServices} (chainActive : active_chain).
Context {V : Type} `{HV : CoinsView V} `{HS : !CoinsSpec V} `{HL : !CoinsViewLaws V} `{HO : IterationOrder} `{HU : ScriptUsage}.
#[local] Abbreviation Cache := (CCoinsViewCache V).

(** a coin that may be spent at some height *)
Definition spendable (h : Z) (cn : Coin) : Prop :=
  IsSpent cn = false /\ (fCoinBase cn = true -> COINBASE_MATURITY <= h - coin_nHeight cn) /\ MoneyRange (nValue (coin_out cn)) = true /\
  validateFutureCoin chainActive cn h = None.

Lemma forallb_pointwise {A} (f g : A -> bool) l : (forall x, f x = g x) -> forallb f l = forallb g l.
Proof. intros E. induction l as [|x l IH]; [done|]. cbn. by rewrite E, IH. Qed.
Lemma mapM_pointwise {A B} (f g : A -> option B) l : (forall x, f x = g x) -> mapM f l = mapM g l.
Proof. intros E. induction l as [|x l IH]; [done|]. cbn. by rewrite E, IH. Qed.

Lemma HaveInputs_loop_ok (ins : list CTxIn) (c : Cache) :
  view_ok c -> exists c', HaveInputs_loop ins c = (Ok (forallb (λ i, bool_decide (is_Some (utxo c (prevout i)))) ins), c') /\ unchanged c c'.
Proof.
  revert c. induction ins as [|i ins IH]; intros c Hc; [exists c; split; [done|by apply unchanged_refl]|].
  cbn [HaveInputs_loop forallb]. destruct (HaveCoin_ok c (prevout i) Hc) as (c1 & E & Hu & _). unfold mbind, action_bind. rewrite E.
  destruct (bool_decide _) eqn:Eb; cbn [negb andb]; [|by exists c1].
  destruct (IH c1 (proj1 Hu)) as (c2 & E2 & Hu2). exists c2. split; [|by eapply unchanged_trans].
  rewrite E2. do 2 f_equal. apply forallb_pointwise. intros x. destruct Hu as (_ & U & _). by rewrite U.
Qed.

(** the loop over the inputs, when all of them are there *)
Lemma check_inputs_ok (ins : list CTxIn) h acc (c : Cache) :
  view_ok c -> 0 <= acc <= MAX_MONEY -> forallb (λ i, bool_decide (is_Some (utxo c (prevout i)))) ins = true ->
  exists r c', check_inputs chainActive ins h acc c = (Ok r, c') /\ unchanged c c' /\
    match r with
    | inl rej => code rej = REJECT_INVALID
    | inr v => 0 <= v <= MAX_MONEY /\ exists coins, mapM (λ i, utxo c (prevout i)) ins = Some coins /\ Forall (spendable h) coins /\ v = acc + total_in coins
    end.
Proof.
  revert acc c. induction ins as [|i ins IH]; intros acc c Hc Ha Hall.
  { exists (inr acc), c. split; [done|]. split; [by apply unchanged_refl|]. split; [done|]. exists []. split; [done|]. split; [constructor|]. cbn. lia. }
  cbn [forallb] in Hall. apply andb_prop in Hall as [Hi Hall]. apply bool_decide_eq_true in Hi as [cn Hcn]. cbn [check_inputs].
  destruct (AccessCoin_ok c (prevout i) Hc) as (cn' & c1 & E & Hcn' & Hu & _). unfold mbind, action_bind. rewrite E. rewrite Hcn in Hcn'.
  cbn [unspent] in Hcn'. destruct (IsSpent cn') eqn:Es; [done|]. injection Hcn' as ->. cbn [negb assert mret action_ret].
  destruct (fCoinBase cn && (h - coin_nHeight cn <? COINBASE_MATURITY)) eqn:Em; [by exists (inl (Reject 0 REJECT_INVALID "bad-txns-premature-spend-of-coinbase" false)), c1|].
  destruct (MoneyRange (nValue (coin_out cn))) eqn:Ev; cbn [negb orb]; cycle 1.
  { by exists (inl (Reject 100 REJECT_INVALID "bad-txns-inputvalues-outofrange" false)), c1. }
  assert (Hv : 0 <= nValue (coin_out cn) <= MAX_MONEY) by (unfold MoneyRange in Ev; lia).
  rewrite sint_small by (unfold in_sint, MAX_MONEY, COIN in *; cbn; lia).
  destruct (MoneyRange (acc + nValue (coin_out cn))) eqn:Er; cbn [negb]; cycle 1.
  { by exists (inl (Reject 100 REJECT_INVALID "bad-txns-inputvalues-outofrange" false)), c1. }
  destruct (validateFutureCoin chainActive cn h) as [e|] eqn:Ef; [by exists (inl (Reject 100 REJECT_INVALID e false)), c1|].
  destruct (IH (acc + nValue (coin_out cn)) c1 (proj1 Hu)) as (r & c2 & E2 & Hu2 & Hr).
  { unfold MoneyRange in Er. lia. }
  { rewrite <- Hall. apply forallb_pointwise. intros x. destruct Hu as (_ & U & _). by rewrite U. }
  exists r, c2. split; [done|]. split; [by eapply unchanged_trans|]. destruct r as [rej|v]; [done|].
  destruct Hr as (Hrange & coins & Ec & Hsp & Hv2). split; [done|]. exists (cn :: coins). split; [|split].
  - cbn [mapM]. rewrite Hcn. cbn [mbind option_bind]. rewrite (mapM_pointwise _ (λ i, utxo c1 (prevout i))); [by rewrite Ec|].
    intros x. destruct Hu as (_ & U & _). by rewrite U.
  - constructor; [|done]. split_and!; [done| |done|done]. intros Hcb. rewrite Hcb in Em. cbn [andb] in Em. lia.
  - change (total_in (cn :: coins)) with (nValue (coin_out cn) + total_in coins). lia.
Qed.

Lemma GetValueOut_ok tx :
  Forall (λ o, 0 <= nValue o <= MAX_MONEY) (vout tx) -> total_out (vout tx) <= MAX_MONEY -> GetValueOut tx = Ok (total_out (vout tx)).
Proof.
  unfold GetValueOut. assert (H : forall outs acc, 0 <= acc -> Forall (λ o, 0 <= nValue o <= MAX_MONEY) outs -> acc + total_out outs <= MAX_MONEY ->
    GetValueOut_loop outs acc = Ok (acc + total_out outs)); [|intros Hf Ht; rewrite H by (done || lia); done].
  induction outs as [|o outs IH]; intros acc Ha Hf Ht; cbn [GetValueOut_loop]; [cbn; by rewrite Z.add_0_r|].
  apply Forall_cons in Hf as [Ho Hf]. change (total_out (o :: outs)) with (nValue o + total_out outs) in *.
  assert (Hpos : 0 <= total_out outs) by (clear -Hf; unfold total_out; induction Hf; cbn [foldr]; lia).
  rewrite sint_small by (unfold in_sint, MAX_MONEY, COIN in *; cbn; lia). unfold MoneyRange.
  rewrite !(proj2 (Z.leb_le _ _)) by lia. cbn [andb negb orb]. rewrite IH by (done || lia). f_equal. lia.
Qed.

Lemma checkSpecialTxFee_ok tx fee sfee v :
  bytes (vExtraPayload tx) -> length (vExtraPayload tx) <= 2 ^ 31 -> 0 <= fee <= MAX_MONEY ->
  let '(ok, fee', _) := checkSpecialTxFee chainActive tx fee sfee v in ok = true -> fee' = fee - special_fee tx.
Proof.
  intros Hb Hl Hf. unfold checkSpecialTxFee, special_fee. destruct (_ && _); [|lia].
  destruct (GetTxPayload codec_CFutureTx (vExtraPayload tx)) as [ftx|] eqn:E; [|lia].
  pose proof (payload_fee _ _ Hb Hl E) as Hr. unfold in_uint in Hr. change (2 ^ 16) with 65536 in Hr.
  destruct (negb _); [done|]. destruct (_ && _); [done|]. cbv zeta. intros _.
  apply sint_small; [lia|]. unfold in_sint, MAX_MONEY, COIN in *. cbn. lia.
Qed.
End coins_laws.

(** C3: A transaction that passes the checks against the coins creates no money: on a lawful view, for a
    transaction that is not a coinbase and passed the checks without context, the check always comes to a result,
    and leaves the view as it was; when the result is positive, every input is an unspent coin that is an
    amount of money, is mature when it comes from a coinbase, and has reached its lock; and the sum of the
    inputs is the sum of the outputs plus the fee plus the special fee, neither the fee nor the sum being negative;
    when it is negative, the reject code is REJECT_INVALID. *)
Theorem CheckTxInputs_conserves `{HT : TxServices} (chainActive : active_chain) {V : Type} `{HV : CoinsView V} `{HS : !CoinsSpec V}
    `{HL : !CoinsViewLaws V} `{HO : IterationOrder} `{HU : ScriptUsage}
    (tx : CTransaction) (state : CValidationState) (h fee0 sfee0 : Z) (verify : bool) (c : CCoinsViewCache V) :
  view_ok c -> IsCoinBase tx = false -> bytes (vExtraPayload tx) -> length (vExtraPayload tx) <= MAX_TX_EXTRA_PAYLOAD ->
  Forall (λ o, 0 <= nValue o <= MAX_MONEY) (vout tx) -> total_out (vout tx) <= MAX_MONEY ->
  exists ok state' fee sfee c',
    CheckTxInputs chainActive tx state h fee0 sfee0 verify c = (Ok (ok, state', fee, sfee), c') /\ unchanged c c' /\
    (if (ok : bool) then
      state' = state /\ exists coins, mapM (λ i, utxo c (prevout i)) (vin tx) = Some coins /\ Forall (spendable chainActive h) coins /\
        total_in coins = total_out (vout tx) + fee + special_fee tx /\ 0 <= fee
    else chRejectCode state' = REJECT_INVALID).
Proof.
  intros Hc Hcb Hb Hl Ho Ht. unfold MAX_TX_EXTRA_PAYLOAD in Hl. unfold CheckTxInputs, check_tx_inputs, HaveInputs. rewrite Hcb. cbn [negb].
  assert (Hrej : forall rej, code rej = REJECT_INVALID -> chRejectCode (DoS rej state) = REJECT_INVALID)
    by (intros rej Hr; unfold DoS; by destruct (mode state)).
  destruct (HaveInputs_loop_ok (vin tx) c Hc) as (c1 & E1 & Hu1). unfold mbind, action_bind. rewrite E1.
  destruct (forallb _ _) eqn:Eall; cbn [negb]; [|eexists false, _, _, _, c1; split; [done|]; split; [done|]; by apply Hrej].
  destruct (check_inputs_ok chainActive (vin tx) h 0 c1 (proj1 Hu1)) as (r & c2 & E2 & Hu2 & Hr).
  { unfold MAX_MONEY, COIN. lia. }
  { rewrite <- Eall. apply forallb_pointwise. intros x. destruct Hu1 as (_ & U & _). by rewrite U. }
  rewrite E2. pose proof (unchanged_trans _ _ _ Hu1 Hu2) as Hu.
  destruct r as [rej|v]; [eexists false, _, _, _, c2; split; [done|]; split; [done|]; by apply Hrej|].
  destruct Hr as (Hv & coins & Ec & Hsp & Hsum). unfold lift_result. rewrite GetValueOut_ok by done.
  destruct (Z.ltb_spec v (total_out (vout tx))); [eexists false, _, _, _, c2; split; [done|]; split; [done|]; by apply Hrej|]. cbv zeta.
  destruct (MoneyRange (v - total_out (vout tx))) eqn:Er; cbn [negb]; [|eexists false, _, _, _, c2; split; [done|]; split; [done|]; by apply Hrej].
  pose proof (checkSpecialTxFee_ok chainActive tx (v - total_out (vout tx)) sfee0 verify Hb ltac:(lia)) as Hfee.
  destruct (checkSpecialTxFee chainActive tx (v - total_out (vout tx)) sfee0 verify) as [[ok fee] sfee].
  destruct ok; cbn [negb]; [|eexists false, _, _, _, c2; split; [done|]; split; [done|]; by apply Hrej].
  destruct (Z.ltb_spec fee 0); [eexists false, _, _, _, c2; split; [done|]; split; [done|]; by apply Hrej|].
  eexists true, _, _, _, c2. split; [done|]. split; [done|]. split; [done|]. exists coins. split; [|split; [done|]].
  - rewrite <- Ec. apply mapM_pointwise. intros x. destruct Hu1 as (_ & U & _). by rewrite U.
  - unfold MoneyRange in Er. rewrite Hfee by (done || lia). lia.
Qed.

(** *** Examples *)

Definition example_services : TxServices := {|
  NetworkIsMain := true; nFutureForkBlock := 0; nFounderPayment := example_founder; SporkSpecialTxFee := (false, 0);
  GetAdjustedTime := 0; DecodeDestination := example_decode |}.

#[local] Existing Instance ex_batch.
#[local] Existing Instance ex_order.
#[local] Existing Instance ex_usage.
#[local] Existing Instance example_services.

Lemma CheckTxInputs_conserves_witness :
  exists c', CheckTxInputs (mkActive ∅ []) ex_tx CValidationState_new 10 0 0 true (ex_view ex_coin) =
    (Ok (true, CValidationState_new, 0, 0), c') /\ unchanged (ex_view ex_coin) c'.
Proof.
  destruct (ex_view_ok ex_coin eq_refl) as [K U].
  destruct (CheckTxInputs_conserves (mkActive ∅ []) ex_tx CValidationState_new 10 0 0 true (ex_view ex_coin) K)
    as (ok & state' & fee & sfee & c' & E & Hu & _).
  - reflexivity.
  - constructor.
  - cbn. unfold MAX_TX_EXTRA_PAYLOAD. lia.
  - repeat constructor; vm_compute; discriminate.
  - vm_compute. discriminate.
  - exists c'. split; [|exact Hu]. rewrite E. f_equal. apply (f_equal fst) in E. cbn [fst] in E. rewrite <- E. vm_compute. reflexivity.
Defined.

(** the founder's share of a reward of 5000 coins, at height 300 on the main network *)
Definition paying_coinbase : CTransaction :=
  mkCTransaction [mkCTxIn COutPoint_default [1; 0] 0]
    [mkCTxOut (4750 * COIN) [OP_1]; mkCTxOut (250 * COIN) (GetScriptForDestination (example_decode "founder"))] 2 0 0 [].
Lemma CheckTransaction_spec_witness :
  CheckTransaction paying_coinbase CValidationState_new 300 (5000 * COIN) = (true, CValidationState_new) /\
  coinbase_ok paying_coinbase 300 (5000 * COIN) /\ founder_due example_founder 300 (5000 * COIN) = 250 * COIN.
Proof.
  pose proof (CheckTransaction_spec paying_coinbase CValidationState_new 300 (5000 * COIN)) as H.
  assert (E : CheckTransaction paying_coinbase CValidationState_new 300 (5000 * COIN) = (true, CValidationState_new)) by (vm_compute; reflexivity).
  rewrite E in H. split; [exact E|]. split; [|reflexivity]. destruct H as [H _]; [repeat constructor; vm_compute; discriminate|].
  apply (proj1 H). reflexivity.
Defined.
