(* ===== verification/VersionBits.v ===== *)
(** * Deployments by version bits: versionbits.h, versionbits.cpp, and the functions of
    validation.cpp that use them

    The state of a deployment changes only at the borders of periods of blocks; the code computes
    it for the parent of the first block of a period, from the state one period before, and keeps
    what it computed in a cache.  The cache is an argument of every query and returned by it;
    [None] is a failed assertion or the dereference of a null pointer. *)

From S2P Require Import Prelude Chain Interpreter TxVerify.

(** ** versionbits.h *)

Definition VERSIONBITS_LAST_OLD_BLOCK_VERSION : Z := 4.
Definition VERSIONBITS_TOP_BITS : Z := 0x20000000.
Definition VERSIONBITS_TOP_MASK : Z := i32 0xE0000000.
Definition VERSIONBITS_NUM_BITS : Z := 29.

Inductive ThresholdState := DEFINED | STARTED | LOCKED_IN | ACTIVE | FAILED.
#[export] Instance ThresholdState_eq : EqDecision ThresholdState.
Proof. solve_decision. Defined.

(** the parent of the first block of a period to the state of the period *)
Abbreviation ThresholdConditionCache := (gmap (option ptr) ThresholdState).

Record BIP9Stats := mkStats { period : Z; threshold : Z; elapsed : Z; count : Z; possible : bool }.

(** The virtual functions of a checker, for given consensus parameters. *)
Class AbstractThresholdConditionChecker := {
  Condition : CBlockIndex -> bool;
  BeginTime : Z;
  EndTime : Z;
  Period : Z;
  Threshold : Z -> Z;
}.

Definition int_max : Z := 2 ^ 31 - 1.

(** ** AbstractThresholdConditionChecker *)

Section checker.
Context {checker : AbstractThresholdConditionChecker}.

(** the parent of the first block of the period of the block after [pindex] *)
Definition period_start (st : store) (pindex : ptr) : option (option ptr) :=
  b ← st !! pindex; GetAncestor st pindex (nHeight b - Z.rem (nHeight b + 1) Period).

(** the loop that walks back: where it stops, the cache, and [vToCompute] with its back first *)
Fixpoint walk_back (fuel : nat) (st : store) (pindexPrev : option ptr) (cache : ThresholdConditionCache) (vToCompute : list ptr) :
  option (option ptr * ThresholdConditionCache * list ptr) :=
  match cache !! pindexPrev with
  | Some _ => Some (pindexPrev, cache, vToCompute)
  | None =>
      match pindexPrev with
      | None => Some (pindexPrev, <[pindexPrev := DEFINED]> cache, vToCompute)
      | Some p =>
          t ← GetMedianTimePast st p;
          if t <? BeginTime then Some (pindexPrev, <[pindexPrev := DEFINED]> cache, vToCompute)
          else
            match fuel with
            | O => None
            | S fuel =>
                b ← st !! p;
                q ← GetAncestor st p (nHeight b - Period);
                walk_back fuel st q cache (p :: vToCompute)
            end
      end
  end.

(** the loop over the cache for [nStartHeight] *)
Definition earlier_start (st : store) (key : option ptr) (state : ThresholdState) (nStartHeight : option Z) : option Z :=
  n ← nStartHeight;
  if decide (state = STARTED) then
    p ← key; b ← st !! p; Some (if nHeight b + 1 <? n then nHeight b + 1 else n)
  else Some n.
Definition start_height (st : store) (cache : ThresholdConditionCache) : option Z :=
  map_fold (earlier_start st) (Some int_max) cache.

(** the loop that counts: where it stops and the count *)
Fixpoint count_signals (n : nat) (st : store) (pindexCount : option ptr) (count : Z) : option (option ptr * Z) :=
  match n with
  | O => Some (pindexCount, count)
  | S n =>
      p ← pindexCount;
      b ← st !! p;
      count_signals n st (pprev b) (if Condition b then count + 1 else count)
  end.

(** one turn of the loop that walks forward *)
Definition next_state (st : store) (pindexPrev : ptr) (state : ThresholdState) (nStartHeight : Z) : option (ThresholdState * Z) :=
  b ← st !! pindexPrev;
  match state with
  | DEFINED =>
      t ← GetMedianTimePast st pindexPrev;
      if EndTime <=? t then Some (FAILED, nStartHeight)
      else if BeginTime <=? t then Some (STARTED, nHeight b + 1)
      else Some (DEFINED, nStartHeight)
  | STARTED =>
      t ← GetMedianTimePast st pindexPrev;
      if EndTime <=? t then Some (FAILED, nStartHeight)
      else
        '(pindexCount, count) ← count_signals (Z.to_nat Period) st (Some pindexPrev) 0;
        if (0 <? nStartHeight) && (nStartHeight <? int_max) then
          p ← pindexCount;
          c ← st !! p;
          let nAttempt := Z.quot (nHeight c + 1 - nStartHeight) Period in
          Some (if Threshold nAttempt <=? count then LOCKED_IN else STARTED, nStartHeight)
        else None
  | LOCKED_IN => Some (ACTIVE, nStartHeight)
  | FAILED | ACTIVE => Some (state, nStartHeight)
  end.

Fixpoint walk_forward (st : store) (vToCompute : list ptr) (state : ThresholdState) (nStartHeight : Z) (cache : ThresholdConditionCache) :
  option (ThresholdState * ThresholdConditionCache) :=
  match vToCompute with
  | [] => Some (state, cache)
  | p :: vToCompute =>
      '(stateNext, nStartHeight) ← next_state st p state nStartHeight;
      walk_forward st vToCompute stateNext nStartHeight (<[Some p := stateNext]> cache)
  end.

(** how many turns the walks along one chain can take *)
Definition turns (st : store) (pindex : option ptr) : nat :=
  match (p ← pindex; st !! p) with Some b => Z.to_nat (nHeight b + 1) | None => 0%nat end.

Definition GetStateFor (st : store) (pindexPrev : option ptr) (cache : ThresholdConditionCache) :
  option (ThresholdState * ThresholdConditionCache) :=
  pindexPrev ← match pindexPrev with Some p => period_start st p | None => Some None end;
  '(pindexPrev, cache, vToCompute) ← walk_back (turns st pindexPrev) st pindexPrev cache [];
  state ← cache !! pindexPrev;
  nStartHeight ← start_height st cache;
  walk_forward st vToCompute state nStartHeight cache.

(** the loop of [GetStateSinceHeightFor], where [previousPeriodParent] is computed at its head *)
Fixpoint since_loop (fuel : nat) (st : store) (initialState : ThresholdState) (pindexPrev : ptr) (cache : ThresholdConditionCache) :
  option (Z * ThresholdConditionCache) :=
  b ← st !! pindexPrev;
  previousPeriodParent ← GetAncestor st pindexPrev (nHeight b - Period);
  match previousPeriodParent with
  | None => Some (nHeight b + 1, cache)
  | Some q =>
      '(state, cache) ← GetStateFor st (Some q) cache;
      if decide (state = initialState) then
        match fuel with
        | O => None
        | S fuel => since_loop fuel st initialState q cache
        end
      else Some (nHeight b + 1, cache)
  end.

Definition GetStateSinceHeightFor (st : store) (pindexPrev : option ptr) (cache : ThresholdConditionCache) :
  option (Z * ThresholdConditionCache) :=
  '(initialState, cache) ← GetStateFor st pindexPrev cache;
  if decide (initialState = DEFINED) then Some (0, cache)
  else
    p ← pindexPrev;
    start ← period_start st p;
    pindexPrev ← start;
    since_loop (turns st start) st initialState pindexPrev cache.

(** the last loop of [GetStateStatisticsFor]: counts from the block back to the height given *)
Fixpoint count_back (fuel : nat) (st : store) (height : Z) (currentIndex : option ptr) (count : Z) : option Z :=
  p ← currentIndex;
  b ← st !! p;
  if height =? nHeight b then Some count
  else
    match fuel with
    | O => None
    | S fuel => count_back fuel st height (pprev b) (if Condition b then count + 1 else count)
    end.

Definition GetStateStatisticsFor (st : store) (pindex : option ptr) (cache : ThresholdConditionCache) :
  option (BIP9Stats * ThresholdConditionCache) :=
  match pindex with
  | None => Some (mkStats Period (Threshold 0) 0 0 false, cache)
  | Some p =>
      b ← st !! p;
      start ← period_start st p;
      e ← start;
      c ← st !! e;
      let elapsed := nHeight b - nHeight c in
      '(state, cache) ← GetStateFor st (Some e) cache;
      '(nAttempt, cache) ←
        (if decide (state = STARTED) then
           '(nStartHeight, cache) ← GetStateSinceHeightFor st (Some e) cache;
           Some (Z.quot (nHeight c + 1 - nStartHeight) Period, cache)
         else Some (0, cache));
      let threshold := Threshold nAttempt in
      count ← count_back (turns st pindex) st (nHeight c) (Some p) 0;
      Some (mkStats Period threshold elapsed count (elapsed - count <=? Period - threshold), cache)
  end.
End checker.

(** ** The deployments: consensus/params.h and VersionBitsConditionChecker *)

Inductive DeploymentPos := DEPLOYMENT_TESTDUMMY | DEPLOYMENT_V17.
Definition MAX_VERSION_BITS_DEPLOYMENTS : list DeploymentPos := [DEPLOYMENT_TESTDUMMY; DEPLOYMENT_V17].

Record BIP9Deployment := mkDeployment {
  bit : Z;
  nStartTime : Z;
  nTimeout : Z;
  nWindowSize : Z;
  nThresholdStart : Z;
  nThresholdMin : Z;
  nFalloffCoeff : Z;
}.

(** the fields of [Consensus::Params] that are used here *)
Record VBParams := mkVBParams {
  BIPCSVEnabled : bool;
  BIP147Enabled : bool;
  BIP65Enabled : bool;
  BIP66Enabled : bool;
  nRuleChangeActivationThreshold : Z;  (* uint32_t *)
  nMinerConfirmationWindow : Z;        (* uint32_t *)
  vDeployments : DeploymentPos -> BIP9Deployment;
}.

Definition Mask (params : VBParams) (id : DeploymentPos) : Z := u32 (1 << bit (vDeployments params id)).

Definition vb_Period (params : VBParams) (id : DeploymentPos) : Z :=
  let d := vDeployments params id in
  i32 (if negb (nWindowSize d =? 0) then nWindowSize d else nMinerConfirmationWindow params).

(** the square and its product are computed in [int] *)
Definition vb_Threshold (params : VBParams) (id : DeploymentPos) (nAttempt : Z) : Z :=
  let d := vDeployments params id in
  if nThresholdStart d =? 0 then i32 (nRuleChangeActivationThreshold params)
  else if (nThresholdMin d =? 0) || (nFalloffCoeff d =? 0) then i32 (nThresholdStart d)
  else
    let nThresholdCalc :=
      i64 (nThresholdStart d - Z.quot (Z.quot (i32 (i32 (nAttempt * nAttempt) * vb_Period params id)) 100) (nFalloffCoeff d)) in
    i32 (Z.max (nThresholdMin d) nThresholdCalc).

Definition vb_Condition (params : VBParams) (id : DeploymentPos) (b : CBlockIndex) : bool :=
  ((nVersion b &&& VERSIONBITS_TOP_MASK) =? VERSIONBITS_TOP_BITS) && negb ((u32 (nVersion b) &&& Mask params id) =? 0).

Definition VersionBitsConditionChecker (params : VBParams) (id : DeploymentPos) : AbstractThresholdConditionChecker :=
  {| Condition := vb_Condition params id;
     BeginTime := nStartTime (vDeployments params id);
     EndTime := nTimeout (vDeployments params id);
     Period := vb_Period params id;
     Threshold := vb_Threshold params id |}.

(** One cache per deployment. *)
Record VersionBitsCache := mkCaches { cache_testdummy : ThresholdConditionCache; cache_v17 : ThresholdConditionCache }.
Definition VersionBitsCache_Clear (cache : VersionBitsCache) : VersionBitsCache := mkCaches ∅ ∅.
Definition cache_at (cache : VersionBitsCache) (pos : DeploymentPos) : ThresholdConditionCache :=
  match pos with DEPLOYMENT_TESTDUMMY => cache_testdummy cache | DEPLOYMENT_V17 => cache_v17 cache end.
Definition set_cache (cache : VersionBitsCache) (pos : DeploymentPos) (c : ThresholdConditionCache) : VersionBitsCache :=
  match pos with
  | DEPLOYMENT_TESTDUMMY => mkCaches c (cache_v17 cache)
  | DEPLOYMENT_V17 => mkCaches (cache_testdummy cache) c
  end.

(** a query of one of the caches *)
Definition on_cache {A} (query : AbstractThresholdConditionChecker -> ThresholdConditionCache -> option (A * ThresholdConditionCache))
  (params : VBParams) (pos : DeploymentPos) (cache : VersionBitsCache) : option (A * VersionBitsCache) :=
  '(a, c) ← query (VersionBitsConditionChecker params pos) (cache_at cache pos);
  Some (a, set_cache cache pos c).

Definition VersionBitsState (st : store) (pindexPrev : option ptr) (params : VBParams) (pos : DeploymentPos) (cache : VersionBitsCache) :
  option (ThresholdState * VersionBitsCache) :=
  on_cache (λ checker, @GetStateFor checker st pindexPrev) params pos cache.
Definition VersionBitsStatistics (st : store) (pindexPrev : option ptr) (params : VBParams) (pos : DeploymentPos) (cache : VersionBitsCache) :
  option (BIP9Stats * VersionBitsCache) :=
  on_cache (λ checker, @GetStateStatisticsFor checker st pindexPrev) params pos cache.
Definition VersionBitsStateSinceHeight (st : store) (pindexPrev : option ptr) (params : VBParams) (pos : DeploymentPos) (cache : VersionBitsCache) :
  option (Z * VersionBitsCache) :=
  on_cache (λ checker, @GetStateSinceHeightFor checker st pindexPrev) params pos cache.
Definition VersionBitsMask (params : VBParams) (pos : DeploymentPos) : Z := Mask params pos.

(** ** validation.cpp: the version of a new block and the script flags of a block *)

Fixpoint block_version_loop (st : store) (pindexPrev : option ptr) (params : VBParams) (l : list DeploymentPos) (nVersion : Z) (cache : VersionBitsCache) :
  option (Z * VersionBitsCache) :=
  match l with
  | [] => Some (nVersion, cache)
  | pos :: l =>
      '(state, cache) ← VersionBitsState st pindexPrev params pos cache;
      let nVersion := if bool_decide (state = LOCKED_IN) || bool_decide (state = STARTED)
                      then i32 (u32 nVersion ||| VersionBitsMask params pos) else nVersion in
      block_version_loop st pindexPrev params l nVersion cache
  end.
Definition ComputeBlockVersion (st : store) (pindexPrev : option ptr) (params : VBParams) (cache : VersionBitsCache) : option (Z * VersionBitsCache) :=
  block_version_loop st pindexPrev params MAX_VERSION_BITS_DEPLOYMENTS VERSIONBITS_TOP_BITS cache.

Definition nBIP16SwitchTime : Z := 1333238400.
Definition GetBlockScriptFlags (st : store) (pindex : ptr) (params : VBParams) (cache : VersionBitsCache) : option (Z * VersionBitsCache) :=
  b ← st !! pindex;
  let flags := if nBIP16SwitchTime <=? GetBlockTime b then SCRIPT_VERIFY_P2SH else SCRIPT_VERIFY_NONE in
  let flags := if BIP66Enabled params then flags ||| SCRIPT_VERIFY_DERSIG else flags in
  let flags := if BIP65Enabled params then flags ||| SCRIPT_VERIFY_CHECKLOCKTIMEVERIFY else flags in
  let flags := if BIPCSVEnabled params then flags ||| SCRIPT_VERIFY_CHECKSEQUENCEVERIFY else flags in
  let flags := if BIP147Enabled params then flags ||| SCRIPT_VERIFY_NULLDUMMY else flags in
  '(state, cache) ← VersionBitsState st (pprev b) params DEPLOYMENT_V17 cache;
  Some (if decide (state = ACTIVE) then flags ||| SCRIPT_ENABLE_DIP0020_OPCODES else flags, cache).
