(* ===== verification/VersionBitsLaws.v ===== *)
(** * Version bits: the cache against the deployment state machine

    The reference is BIP9's state machine, stepped once per period along the path of parents
    ([bip9]); there is no cache in it.  Shown: queries on one chain, in any order, answer as the
    state machine does; deployments are decided; and an example where queries on two branches
    make the answer depend on what was asked before. *)

From stdpp Require Import sorting.
From S2P Require Import Prelude Chain ChainLaws Interpreter TxVerify VersionBits.

(** ** Medians *)

Section median.
Implicit Types (l s : list Z) (m v : Z).

(** how many elements are at least [m] *)
Definition at_least m l : nat := length (filter (λ x, m <= x) l).

Lemma at_least_cons m x l : at_least m (x :: l) = ((if decide (m <= x)%Z then 1 else 0) + at_least m l)%nat.
Proof. unfold at_least. rewrite filter_cons. by case_decide. Qed.

Lemma at_least_app m l1 l2 : at_least m (l1 ++ l2) = (at_least m l1 + at_least m l2)%nat.
Proof. unfold at_least. by rewrite filter_app, length_app. Qed.

Lemma at_least_length m l : (at_least m l <= length l)%nat.
Proof. apply length_filter. Qed.

Lemma at_least_all m l : Forall (λ x, m <= x) l -> at_least m l = length l.
Proof.
  induction 1 as [|x l Hx _ IH]; [done|]. rewrite at_least_cons, decide_True by done. simpl. lia.
Qed.

Lemma at_least_perm m l1 l2 : l1 ≡ₚ l2 -> at_least m l1 = at_least m l2.
Proof. intros H. unfold at_least. by rewrite H. Qed.

(** In a sorted list the element at [i] is at least [m] when at most [i] elements are below [m]. *)
Lemma sorted_at_least m s (i : nat) v :
  StronglySorted Z.le s -> s !! i = Some v -> m <= v <-> (length s - i <= at_least m s)%nat.
Proof.
  revert i. induction s as [|x s IH]; intros i Hs Hi; [done|].
  apply StronglySorted_inv in Hs as [Hs Hall]. rewrite at_least_cons. destruct i as [|i].
  - injection Hi as ->. case_decide as Hm.
    + split; [|done]. intros _. rewrite at_least_all; [simpl; lia|].
      eapply List.Forall_impl; [|exact Hall]. simpl. lia.
    + pose proof (at_least_length m s). simpl. lia.
  - simpl in Hi. specialize (IH i Hs Hi). apply lookup_lt_Some in Hi as Hl. case_decide as Hm.
    + rewrite at_least_all by (eapply List.Forall_impl; [|exact Hall]; simpl; lia).
      rewrite IH, at_least_all by (eapply List.Forall_impl; [|exact Hall]; simpl; lia). simpl. lia.
    + rewrite IH. simpl. lia.
Qed.

Definition median l : option Z := let s := merge_sort Z.le l in s !! (length s / 2)%nat.

Lemma median_at_least m l v : median l = Some v -> m <= v <-> (length l - length l / 2 <= at_least m l)%nat.
Proof.
  unfold median. intros Hv. rewrite <- (Permutation_length (merge_sort_Permutation Z.le l)).
  rewrite <- (at_least_perm m _ _ (merge_sort_Permutation Z.le l)).
  apply sorted_at_least; [apply StronglySorted_merge_sort; intros x y; lia|done].
Qed.

Lemma median_Some l : l <> [] -> is_Some (median l).
Proof.
  intros Hl. unfold median. apply lookup_lt_is_Some.
  rewrite (Permutation_length (merge_sort_Permutation Z.le l)).
  destruct l as [|x l]; [done|]. apply Nat.div_lt; simpl; lia.
Qed.

(** A new element above the median of a window, which may drop the oldest element, does not lower it. *)
Lemma median_window (w : nat) l m y v :
  (0 < w)%nat -> (length l <= S w)%nat -> median l = Some m -> m < y ->
  median (y :: take w l) = Some v -> m <= v.
Proof.
  intros Hw Hl Hm Hy Hv. rewrite (median_at_least m _ v Hv). pose proof (proj1 (median_at_least m l m Hm) ltac:(lia)) as Hc.
  rewrite at_least_cons, decide_True by lia. cbn [length]. rewrite length_take.
  assert (at_least m l <= at_least m (take w l) + (length l - w))%nat as Hd.
  { rewrite <- (take_drop w l) at 1. rewrite at_least_app. pose proof (at_least_length m (drop w l)) as Hb.
    rewrite length_drop in Hb. lia. }
  destruct (decide (length l <= w)%nat).
  - rewrite Nat.min_r by done. pose proof (Nat.div_mod_eq (length l) 2). pose proof (Nat.div_mod_eq (S (length l)) 2).
    pose proof (Nat.mod_upper_bound (length l) 2). pose proof (Nat.mod_upper_bound (S (length l)) 2). lia.
  - replace (length l) with (S w) in * by lia. rewrite Nat.min_l by lia. lia.
Qed.
End median.

(** ** The median time of the last blocks *)

(** what [ContextualCheckBlockHeader] asks of a block: its time is above the median time of its parent *)
Definition times_rule (st : store) : Prop := forall p b q,
  st !! p = Some b -> pprev b = Some q -> exists m, GetMedianTimePast st q = Some m /\ m < GetBlockTime b.

Section median_time.
Context (st : store) (Hst : linked st).

Lemma past_times_Some (n : nat) p b :
  st !! p = Some b -> exists l, past_times (S n) st (Some p) = Some (GetBlockTime b :: l) /\ (length l <= n)%nat.
Proof.
  revert p b. induction n as [|n IH]; intros p b Hb; cbn [past_times]; rewrite Hb; cbn [mbind option_bind].
  - by exists [].
  - destruct (pprev b) as [q|] eqn:Eq; [|exists []; simpl; split; [done|lia]].
    destruct (linked_prev _ _ _ (Hst p b Hb) q Eq) as (b' & Hb' & _).
    destruct (IH q b' Hb') as (l & Hl & Hn). cbn [past_times] in Hl. rewrite Hl. cbn [mbind option_bind].
    exists (GetBlockTime b' :: l). simpl. split; [done|lia].
Qed.

Lemma past_times_take (n : nat) o l : past_times (S n) st o = Some l -> past_times n st o = Some (take n l).
Proof.
  revert o l. induction n as [|n IH]; intros o l H; [by destruct l|].
  destruct o as [p|]; [|by injection H as <-]. cbn [past_times] in *. destruct (st !! p) as [b|]; [|done].
  cbn [mbind option_bind] in *. change (past_times (S n) st (pprev b) ≫= (λ l, Some (GetBlockTime b :: l)) = Some l) in H.
  destruct (past_times (S n) st (pprev b)) as [l'|] eqn:E; [|done]. injection H as <-.
  by rewrite (IH _ _ E).
Qed.

Lemma mtp_median p : GetMedianTimePast st p = past_times nMedianTimeSpan st (Some p) ≫= median.
Proof. done. Qed.

Lemma mtp_Some p b : st !! p = Some b -> exists m, GetMedianTimePast st p = Some m.
Proof.
  intros Hb. rewrite mtp_median. destruct (past_times_Some 10 p b Hb) as (l & Hl & _).
  unfold nMedianTimeSpan. rewrite Hl. by apply median_Some.
Qed.

Context (Htimes : times_rule st).

Lemma mtp_parent p b q m m' :
  st !! p = Some b -> pprev b = Some q -> GetMedianTimePast st q = Some m -> GetMedianTimePast st p = Some m' -> m <= m'.
Proof.
  intros Hb Hq Hm Hm'. destruct (Htimes p b q Hb Hq) as (m0 & Hm0 & Hlt). rewrite Hm in Hm0. injection Hm0 as <-.
  destruct (linked_prev _ _ _ (Hst p b Hb) q Hq) as (b' & Hb' & _).
  destruct (past_times_Some 10 q b' Hb') as (l & Hl & Hlen).
  rewrite mtp_median in Hm, Hm'. unfold nMedianTimeSpan in Hm, Hm'. rewrite Hl in Hm. cbn [mbind option_bind] in Hm.
  change (past_times 11 st (Some p)) with
    (b ← st !! p; l ← past_times 10 st (pprev b); Some (GetBlockTime b :: l)) in Hm'.
  rewrite Hb in Hm'. cbn [mbind option_bind] in Hm'. rewrite Hq, (past_times_take _ _ _ Hl) in Hm'.
  cbn [mbind option_bind] in Hm'.
  refine (median_window 10 (GetBlockTime b' :: l) m (GetBlockTime b) m' _ _ Hm Hlt Hm'); simpl; lia.
Qed.

Lemma mtp_walk (n : nat) p b q m m' :
  st !! p = Some b -> walk st p n = Some q -> GetMedianTimePast st q = Some m -> GetMedianTimePast st p = Some m' -> m <= m'.
Proof.
  revert p b m'. induction n as [|n IH]; intros p b m' Hb Hw Hm Hm'; cbn [walk] in Hw.
  { injection Hw as ->. rewrite Hm in Hm'. injection Hm' as ->. done. }
  rewrite Hb in Hw. cbn [mbind option_bind] in Hw. destruct (pprev b) as [r|] eqn:Er; [|done]. cbn [mbind option_bind] in Hw.
  destruct (linked_prev _ _ _ (Hst p b Hb) r Er) as (b' & Hb' & _). destruct (mtp_Some r b' Hb') as (m0 & Hm0).
  pose proof (IH r b' m0 Hb' Hw Hm Hm0). pose proof (mtp_parent p b r m0 m' Hb Er Hm0 Hm'). lia.
Qed.
End median_time.

(** ** The reference: BIP9's state machine *)

Section bip9.
Context {checker : AbstractThresholdConditionChecker} (st : store).
Implicit Types (p q : ptr) (b c : CBlockIndex) (o : option ptr).

(** the block one period above another *)
Definition period_parent p : option ptr := walk st p (Z.to_nat Period).
(** the last block of the period before that of the block after [p] *)
Definition anchor p : option ptr := b ← st !! p; walk st p (Z.to_nat ((nHeight b + 1) `mod` Period)).
Definition height p : Z := match st !! p with Some b => nHeight b | None => 0 end.

(** at most [n] blocks: one and its parents *)
Fixpoint last_blocks (n : nat) o : list CBlockIndex :=
  match n, o with
  | S n, Some p => match st !! p with Some b => b :: last_blocks n (pprev b) | None => [] end
  | _, _ => []
  end.
Definition signals (n : nat) p : Z := length (filter (λ b, Condition b = true) (last_blocks n (Some p))).

(** The state after the period that ends with [p], and the height of the first block of the first
    period in the state STARTED. *)
Definition bip9_next p (s : ThresholdState * Z) : ThresholdState * Z :=
  let t := default 0 (GetMedianTimePast st p) in
  match s.1 with
  | DEFINED => if EndTime <=? t then (FAILED, s.2) else if BeginTime <=? t then (STARTED, height p + 1) else s
  | STARTED =>
      if EndTime <=? t then (FAILED, s.2)
      else
        let attempt := (height p + 1 - Period - s.2) / Period in
        if Threshold attempt <=? signals (Z.to_nat Period) p then (LOCKED_IN, s.2) else s
  | LOCKED_IN => (ACTIVE, s.2)
  | ACTIVE | FAILED => s
  end.
Fixpoint bip9_periods (n : nat) o : ThresholdState * Z :=
  match n, o with
  | S n, Some p => bip9_next p (bip9_periods n (period_parent p))
  | _, _ => (DEFINED, 0)
  end.
Definition bip9 o : ThresholdState * Z :=
  match o with Some p => bip9_periods (Z.to_nat ((height p + 1) / Period)) o | None => (DEFINED, 0) end.
(** the state of the deployment for the block after [o] *)
Definition state_after o : ThresholdState := (bip9 (o ≫= anchor)).1.

(** the last block of a period *)
Definition anchored p b : Prop := st !! p = Some b /\ (nHeight b + 1) `mod` Period = 0.

Context (Hst : linked st) (Hperiod : 0 < Period).

Lemma walk_None p b (n : nat) : st !! p = Some b -> nHeight b < n -> walk st p n = None.
Proof.
  revert p b. induction n as [|n IH]; intros p b Hb Hn.
  { pose proof (linked_nonneg _ _ _ (Hst p b Hb)). lia. }
  cbn [walk]. rewrite Hb. cbn [mbind option_bind]. destruct (pprev b) as [q|] eqn:Eq; [|done].
  destruct (linked_prev _ _ _ (Hst p b Hb) q Eq) as (b' & Hb' & Hh). cbn [mbind option_bind]. apply (IH q b' Hb'). lia.
Qed.

Lemma ancestor_walk p b (n : Z) :
  st !! p = Some b -> 0 <= n -> GetAncestor st p (nHeight b - n) = Some (walk st p (Z.to_nat n)).
Proof.
  intros Hb Hn. rewrite (GetAncestor_walk st Hst p b) by done.
  rewrite (proj2 (Z.ltb_ge _ _)) by lia. cbn [orb].
  destruct (Z.ltb_spec (nHeight b - n) 0).
  - by rewrite (walk_None p b) by (done || lia).
  - do 3 f_equal. lia.
Qed.

Lemma period_start_anchor p b : st !! p = Some b -> period_start st p = Some (anchor p).
Proof.
  intros Hb. pose proof (linked_nonneg _ _ _ (Hst p b Hb)). unfold period_start, anchor. rewrite Hb.
  cbn [mbind option_bind]. rewrite Z.rem_mod_nonneg by lia.
  apply ancestor_walk; [done|]. apply Z.mod_pos_bound. done.
Qed.

Lemma anchor_anchored p b q : st !! p = Some b -> anchor p = Some q ->
  exists c, anchored q c /\ nHeight c = nHeight b - (nHeight b + 1) `mod` Period.
Proof.
  unfold anchor. intros Hb Hq. rewrite Hb in Hq. cbn [mbind option_bind] in Hq.
  pose proof (Z.mod_pos_bound (nHeight b + 1) Period Hperiod) as Hm.
  destruct (decide (nHeight b < (nHeight b + 1) `mod` Period)).
  { rewrite (walk_None p b) in Hq by (done || lia). done. }
  destruct (walk_height st Hst p b (Z.to_nat ((nHeight b + 1) `mod` Period)) Hb) as (q' & c & Hw & Hc & Hh); [lia|].
  rewrite Hq in Hw. injection Hw as <-. exists c. split; [|lia]. split; [done|].
  replace (nHeight c + 1) with (nHeight b + 1 - (nHeight b + 1) `mod` Period) by lia.
  replace (nHeight b + 1 - (nHeight b + 1) `mod` Period) with ((nHeight b + 1) / Period * Period)
    by (rewrite Z.mod_eq by lia; lia).
  apply Z.mod_mul. lia.
Qed.

Lemma anchored_self p b : anchored p b -> anchor p = Some p.
Proof. intros [Hb Hm]. unfold anchor. rewrite Hb. cbn [mbind option_bind]. by rewrite Hm. Qed.

Lemma anchored_height p b : anchored p b -> height p = nHeight b /\ Period <= nHeight b + 1.
Proof.
  intros [Hb Hm]. unfold height. rewrite Hb. split; [done|]. pose proof (linked_nonneg _ _ _ (Hst p b Hb)).
  apply Z.divide_pos_le; [lia|]. apply Z.mod_divide; [lia|done].
Qed.

Lemma parent_anchored p b :
  anchored p b ->
  match period_parent p with
  | Some q => exists c, anchored q c /\ nHeight c = nHeight b - Period
  | None => nHeight b + 1 = Period
  end.
Proof.
  intros Ha. pose proof (anchored_height p b Ha) as [_ Hge]. destruct Ha as [Hb Hm]. unfold period_parent.
  destruct (decide (Period <= nHeight b)).
  - destruct (walk_height st Hst p b (Z.to_nat Period) Hb) as (q & c & -> & Hc & Hh); [lia|].
    exists c. split; [|lia]. split; [done|]. replace (nHeight c + 1) with (nHeight b + 1 + (-1) * Period) by lia.
    rewrite Z.mod_add by lia. done.
  - rewrite (walk_None p b) by (done || lia). lia.
Qed.

Lemma bip9_eq p b : anchored p b -> bip9 (Some p) = bip9_next p (bip9 (period_parent p)).
Proof.
  intros Ha. destruct (anchored_height p b Ha) as [Hh Hge]. pose proof (parent_anchored p b Ha) as Hp.
  unfold bip9 at 1. rewrite Hh.
  replace (Z.to_nat ((nHeight b + 1) / Period)) with (S (Z.to_nat ((nHeight b + 1 - Period) / Period))).
  2:{ replace (nHeight b + 1 - Period) with (nHeight b + 1 + (-1) * Period) by lia. rewrite Z.div_add by lia.
      assert (1 <= (nHeight b + 1) / Period) by (apply Z.div_le_lower_bound; lia). lia. }
  cbn [bip9_periods]. f_equal. destruct (period_parent p) as [q|]; [|by destruct (Z.to_nat _)].
  destruct Hp as (c & Hc & Hhc). unfold bip9. rewrite (proj1 (anchored_height q c Hc)). do 3 f_equal. lia.
Qed.

(** Induction over the periods of a chain. *)
Lemma period_ind (P : ptr -> CBlockIndex -> Prop) :
  (forall p b, anchored p b -> (forall q c, period_parent p = Some q -> anchored q c -> P q c) -> P p b) ->
  forall p b, anchored p b -> P p b.
Proof.
  intros HP p b Ha. remember (Z.to_nat (nHeight b)) as n eqn:En. revert p b Ha En.
  induction n as [n IH] using lt_wf_ind. intros p b Ha En. apply (HP p b Ha). intros q c Hq Hc.
  pose proof (parent_anchored p b Ha) as Hp. rewrite Hq in Hp. destruct Hp as (c' & [Hc' _] & Hh).
  destruct Hc as [Hc Hm]. rewrite Hc in Hc'. injection Hc' as <-. pose proof (linked_nonneg _ _ _ (Hst q c Hc)).
  apply (IH (Z.to_nat (nHeight c))); [lia|done|done].
Qed.
End bip9.

(** ** Facts about the state machine *)

(** What is asked of the parameters and of the chain. *)
Record lawful `{AbstractThresholdConditionChecker} (st : store) : Prop := {
  lawful_linked : linked st;
  lawful_times : times_rule st;
  lawful_period : 0 < Period;
  lawful_begin : BeginTime <= EndTime;
  lawful_heights p b : st !! p = Some b -> nHeight b + 1 < int_max;
}.

Section machine.
Context {checker : AbstractThresholdConditionChecker} (st : store) (Hlaw : lawful st).
Implicit Types (p q : ptr) (b c : CBlockIndex) (o : option ptr).

Let Hst : linked st := lawful_linked st Hlaw.
Let Hper : 0 < Period := lawful_period st Hlaw.

(** A deployment that is DEFINED was DEFINED before. *)
Lemma next_DEFINED p s : (bip9_next st p s).1 = DEFINED -> s.1 = DEFINED.
Proof. unfold bip9_next. destruct s as [[] n]; simpl; repeat case_match; simpl; congruence. Qed.

Lemma next_STARTED p s n :
  bip9_next st p s = (STARTED, n) -> (s.1 = DEFINED /\ n = height st p + 1) \/ s = (STARTED, n).
Proof.
  unfold bip9_next. destruct s as [[] m]; simpl; repeat case_match; intros [=]; subst; auto.
Qed.

Lemma started_bounds p b n : anchored st p b -> bip9 st (Some p) = (STARTED, n) -> 0 < n <= nHeight b + 1.
Proof.
  intros Ha. revert n. revert p b Ha.
  refine (period_ind st Hst Hper (λ p b, forall n, bip9 st (Some p) = (STARTED, n) -> 0 < n <= nHeight b + 1) _).
  intros p b Ha IH n Hn. rewrite (bip9_eq st Hst Hper p b Ha) in Hn. pose proof (parent_anchored st Hst Hper p b Ha) as Hp.
  pose proof (anchored_height st Hst Hper p b Ha) as [Hh _]. pose proof Hper.
  pose proof (linked_nonneg _ _ _ (Hst p b (proj1 Ha))).
  apply next_STARTED in Hn as [[_ ->]|Hn]; [lia|]. destruct (period_parent st p) as [q|]; [|done].
  destruct Hp as (c & Hc & Hhc). specialize (IH q c eq_refl Hc n Hn). lia.
Qed.

(** Before the start time a deployment is DEFINED. *)
Lemma before_begin p b t :
  anchored st p b -> GetMedianTimePast st p = Some t -> t < BeginTime -> (bip9 st (Some p)).1 = DEFINED.
Proof.
  intros Ha. revert t. revert p b Ha.
  refine (period_ind st Hst Hper (λ p b, forall t, GetMedianTimePast st p = Some t -> t < BeginTime -> (bip9 st (Some p)).1 = DEFINED) _).
  intros p b Ha IH t Ht Hlt. rewrite (bip9_eq st Hst Hper p b Ha). pose proof (lawful_begin st Hlaw).
  assert ((bip9 st (period_parent st p)).1 = DEFINED) as Hd.
  { pose proof (parent_anchored st Hst Hper p b Ha) as Hp. destruct (period_parent st p) as [q|] eqn:Eq; [|done].
    destruct Hp as (c & Hc & _). destruct (mtp_Some st Hst q c (proj1 Hc)) as (t' & Ht').
    apply (IH q c eq_refl Hc t' Ht').
    pose proof (mtp_walk st Hst (lawful_times st Hlaw) _ p b q t' t (proj1 Ha) Eq Ht' Ht). lia. }
  unfold bip9_next. rewrite Ht. cbn [default]. unfold default, id. rewrite Hd.
  rewrite !(proj2 (Z.leb_gt _ _)) by lia. done.
Qed.

(** [p] is reached from [q] by going up whole periods. *)
Inductive period_above : ptr -> ptr -> Prop :=
  | above_refl p : period_above p p
  | above_step p q r : period_parent st q = Some r -> period_above p r -> period_above p q.

Lemma above_DEFINED p q c : period_above p q -> anchored st q c -> (bip9 st (Some q)).1 = DEFINED -> (bip9 st (Some p)).1 = DEFINED.
Proof.
  intros Hab. revert c. induction Hab as [p|p q r Hr _ IH]; intros c Hc Hd; [done|].
  rewrite (bip9_eq st Hst Hper q c Hc), Hr in Hd. apply next_DEFINED in Hd.
  pose proof (parent_anchored st Hst Hper q c Hc) as Hp. rewrite Hr in Hp. destruct Hp as (c' & Hc' & _). eauto.
Qed.

(** Along a chain there is one start. *)
Lemma above_start p q c n m :
  period_above p q -> anchored st q c -> bip9 st (Some p) = (STARTED, n) -> bip9 st (Some q) = (STARTED, m) -> n = m.
Proof.
  intros Hab. revert c. induction Hab as [p|p q r Hr Hab IH]; intros c Hc Hn Hm; [congruence|].
  rewrite (bip9_eq st Hst Hper q c Hc), Hr in Hm.
  pose proof (parent_anchored st Hst Hper q c Hc) as Hp. rewrite Hr in Hp. destruct Hp as (c' & Hc' & _).
  apply next_STARTED in Hm as [[Hd _]|Hm]; [|by eapply IH].
  apply (above_DEFINED p r c' Hab Hc') in Hd. by rewrite Hn in Hd.
Qed.

Lemma path_index t bt p b :
  st !! t = Some bt -> p ∈ path st t -> st !! p = Some b -> path st t !! Z.to_nat (nHeight b) = Some p /\ nHeight b <= nHeight bt.
Proof.
  intros Ht Hp Hb. apply list_elem_of_lookup in Hp as [i Hi]. apply lookup_lt_Some in Hi as Hl.
  rewrite (length_path st Hst t bt Ht) in Hl. pose proof (linked_nonneg _ _ _ (Hst t bt Ht)).
  destruct (path_lookup st Hst t bt i Ht) as (p' & b' & Hi' & Hb' & Hh & _); [lia|].
  rewrite Hi in Hi'. injection Hi' as <-. rewrite Hb in Hb'. injection Hb' as <-. rewrite Hh, Nat2Z.id. split; [done|lia].
Qed.

(** Two ends of periods on one path are above each other. *)
Lemma path_above t bt p b q c :
  st !! t = Some bt -> p ∈ path st t -> q ∈ path st t -> anchored st p b -> anchored st q c ->
  nHeight b <= nHeight c -> period_above p q.
Proof.
  intros Ht Hp Hq Hb Hc. revert Hq. revert q c Hc.
  refine (period_ind st Hst Hper (λ q c, q ∈ path st t -> nHeight b <= nHeight c -> period_above p q) _).
  intros q c Hc IH Hq Hle.
  pose proof (path_index t bt p b Ht Hp (proj1 Hb)) as [Hip _]. pose proof (path_index t bt q c Ht Hq (proj1 Hc)) as [Hiq Hqt].
  destruct (decide (nHeight b = nHeight c)) as [E|E].
  { rewrite E, Hiq in Hip. injection Hip as <-. constructor. }
  pose proof (parent_anchored st Hst Hper q c Hc) as Hr. pose proof Hper.
  pose proof (linked_nonneg _ _ _ (Hst p b (proj1 Hb))).
  assert (nHeight b + Period <= nHeight c) as Hfar.
  { destruct Hb as [_ Hb], Hc as [_ Hc]. apply Z.mod_divide in Hb as [i Hi]; [|lia]. apply Z.mod_divide in Hc as [j Hj]; [|lia].
    assert (i < j) by nia. nia. }
  destruct (period_parent st q) as [r|] eqn:Er; [|lia]. destruct Hr as (d & Hd & Hhd).
  apply (above_step p q r Er). apply (IH r d eq_refl Hd); [|lia].
  destruct (path_lookup st Hst t bt (Z.to_nat (nHeight c)) Ht) as (q' & c' & Hq' & _ & _ & _ & Htake);
    [lia|]. rewrite Hiq in Hq'. injection Hq' as <-.
  destruct (path_lookup st Hst q c (Z.to_nat (nHeight d)) (proj1 Hc)) as (r' & d' & Hr' & _ & _ & Hw & _);
    [pose proof (linked_nonneg _ _ _ (Hst r d (proj1 Hd))); lia|].
  rewrite <- Htake in Hr'. apply lookup_take_Some in Hr' as [Hr' _].
  apply list_elem_of_lookup. exists (Z.to_nat (nHeight d)). rewrite Hr'. unfold period_parent in Er.
  pose proof (linked_nonneg _ _ _ (Hst r d (proj1 Hd))).
  replace (Z.to_nat (nHeight c - Z.to_nat (nHeight d))) with (Z.to_nat Period) in Hw by lia. congruence.
Qed.

(** States do not come back. *)
Definition rank (s : ThresholdState) : Z :=
  match s with DEFINED => 0 | STARTED => 1 | LOCKED_IN => 2 | ACTIVE => 3 | FAILED => 4 end.
Lemma rank_inj s s' : rank s = rank s' -> s = s'.
Proof. by destruct s, s'. Qed.

Lemma next_rank p s : rank s.1 <= rank (bip9_next st p s).1.
Proof. unfold bip9_next. destruct s as [[] n]; simpl; repeat case_match; simpl; lia. Qed.

Lemma above_rank p q c : period_above p q -> anchored st q c -> rank (bip9 st (Some p)).1 <= rank (bip9 st (Some q)).1.
Proof.
  intros Hab. revert c. induction Hab as [p|p q r Hr _ IH]; intros c Hc; [done|].
  rewrite (bip9_eq st Hst Hper q c Hc), Hr. pose proof (next_rank q (bip9 st (Some r))).
  pose proof (parent_anchored st Hst Hper q c Hc) as Hp. rewrite Hr in Hp. destruct Hp as (c' & Hc' & _).
  specialize (IH c' Hc'). lia.
Qed.

Lemma above_total p q a : period_above p a -> period_above q a -> period_above p q \/ period_above q p.
Proof.
  intros Hp. revert q. induction Hp as [a|p a r Hr Hp IH]; intros q Hq; [by right|].
  inversion Hq as [|? ? r' Hr' Hq']; subst; [left; by eapply above_step|].
  rewrite Hr in Hr'. injection Hr' as <-. auto.
Qed.

Lemma above_height p b q c : period_above p q -> anchored st p b -> anchored st q c -> nHeight b <= nHeight c.
Proof.
  intros Hab Hb. revert c. induction Hab as [p|p q r Hr _ IH]; intros c Hc.
  { destruct Hb as [Hb _], Hc as [Hc _]. rewrite Hb in Hc. injection Hc as <-. done. }
  pose proof (parent_anchored st Hst Hper q c Hc) as Hp. rewrite Hr in Hp. destruct Hp as (d & Hd & Hh).
  specialize (IH Hb d Hd). pose proof Hper. lia.
Qed.
End machine.

(** ** The cache *)

Definition constant_threshold `{AbstractThresholdConditionChecker} : Prop := forall a, Threshold a = Threshold 0.

Section cache.
Context {checker : AbstractThresholdConditionChecker} (st : store) (Hlaw : lawful st).
Implicit Types (p q : ptr) (b c : CBlockIndex) (o : option ptr) (cache : ThresholdConditionCache).

(** The blocks that queries are about: closed under parents, and with one start. *)
Context (scope : ptr -> Prop).
Context (scope_walk : forall p (n : nat) q, scope p -> walk st p n = Some q -> scope q).
Context (scope_start : forall p b q c n m, scope p -> scope q -> anchored st p b -> anchored st q c ->
  bip9 st (Some p) = (STARTED, n) -> bip9 st (Some q) = (STARTED, m) -> n = m \/ constant_threshold).

Let Hst : linked st := lawful_linked st Hlaw.
Let Hper : 0 < Period := lawful_period st Hlaw.

Record cache_ok cache : Prop := {
  ok_state o s : cache !! o = Some s -> s = (bip9 st o).1;
  ok_anchored p s : cache !! Some p = Some s -> scope p /\ exists b, anchored st p b;
  ok_parent p s : cache !! Some p = Some s -> s <> DEFINED -> is_Some (cache !! period_parent st p);
}.

Lemma cache_ok_empty : cache_ok ∅.
Proof. split; intros *; rewrite lookup_empty; done. Qed.

Lemma cache_ok_insert cache p b :
  cache_ok cache -> scope p -> anchored st p b ->
  ((bip9 st (Some p)).1 = DEFINED \/ is_Some (cache !! period_parent st p)) ->
  cache_ok (<[Some p := (bip9 st (Some p)).1]> cache).
Proof.
  intros [Hs Ha Hp] Hsc Hb Hpar. split.
  - intros o s. destruct (decide (o = Some p)) as [->|E].
    + rewrite lookup_insert_eq. congruence.
    + rewrite lookup_insert_ne by done. apply Hs.
  - intros q s. destruct (decide (q = p)) as [->|E]; [eauto|].
    rewrite lookup_insert_ne by congruence. apply Ha.
  - intros q s. rewrite lookup_insert_is_Some. destruct (decide (q = p)) as [->|E].
    + rewrite lookup_insert_eq. intros [= <-] Hne. destruct Hpar as [|Hpar]; [done|].
      destruct (decide (Some p = period_parent st p)); [by left|by right].
    + rewrite lookup_insert_ne by congruence. intros Hq Hne.
      destruct (decide (Some p = period_parent st q)); [by left|right; split; [done|]]. by eapply Hp.
Qed.

Lemma cache_ok_insert_None cache : cache_ok cache -> cache_ok (<[None := DEFINED]> cache).
Proof.
  intros [Hs Ha Hp]. split.
  - intros [p|] s.
    + rewrite lookup_insert_ne by done. apply Hs.
    + rewrite lookup_insert_eq. by intros [= <-].
  - intros p s. rewrite lookup_insert_ne by done. apply Ha.
  - intros p s. rewrite lookup_insert_ne by done. intros Hq Hne. rewrite lookup_insert_is_Some.
    destruct (decide (None = period_parent st p)); [by left|right; split; [done|]]. by eapply Hp.
Qed.

(** The first STARTED period of a cached STARTED block is cached. *)
Lemma start_cached cache p b n :
  cache_ok cache -> anchored st p b -> cache !! Some p = Some STARTED -> bip9 st (Some p) = (STARTED, n) ->
  exists q c, cache !! Some q = Some STARTED /\ anchored st q c /\ nHeight c + 1 = n.
Proof.
  intros Hok Ha. revert n. revert p b Ha.
  refine (period_ind st Hst Hper (λ p b, forall n, cache !! Some p = Some STARTED -> bip9 st (Some p) = (STARTED, n) ->
    exists q c, cache !! Some q = Some STARTED /\ anchored st q c /\ nHeight c + 1 = n) _).
  intros p b Ha IH n Hc Hn. pose proof Hn as Hn'. rewrite (bip9_eq st Hst Hper p b Ha) in Hn'.
  pose proof (anchored_height st Hst Hper p b Ha) as [Hh _].
  apply next_STARTED in Hn' as [[_ ->]|Hn']; [exists p, b; rewrite Hh; done|].
  destruct (ok_parent cache Hok p STARTED Hc) as [s Hs]; [done|]. pose proof (ok_state cache Hok _ _ Hs) as ->.
  pose proof (parent_anchored st Hst Hper p b Ha) as Hp. destruct (period_parent st p) as [q|]; [|done].
  destruct Hp as (c & Hqc & _). rewrite Hn' in Hs. by apply (IH q c eq_refl Hqc).
Qed.

(** The loop over the cache finds the least start. *)
Definition least_start cache (n : Z) : Prop :=
  (forall p b, cache !! Some p = Some STARTED -> st !! p = Some b -> n <= nHeight b + 1) /\
  (n = int_max \/ exists p b, cache !! Some p = Some STARTED /\ st !! p = Some b /\ n = nHeight b + 1).

Lemma least_start_skip m o s n : m !! o = None -> s <> STARTED -> least_start m n -> least_start (<[o := s]> m) n.
Proof.
  intros Hm Hs [Hle Hex]. split.
  - intros q c. destruct (decide (o = Some q)) as [->|E]; [rewrite lookup_insert_eq; congruence|].
    rewrite lookup_insert_ne by done. apply Hle.
  - destruct Hex as [|(q & c & Hq & Hc & ->)]; [by left|right]. exists q, c. split; [|done].
    rewrite lookup_insert_ne; [done|]. intros ->. congruence.
Qed.

Lemma least_start_add m p b n :
  m !! Some p = None -> st !! p = Some b -> least_start m n ->
  least_start (<[Some p := STARTED]> m) (if nHeight b + 1 <? n then nHeight b + 1 else n).
Proof.
  intros Hm Hb [Hle Hex]. destruct (Z.ltb_spec (nHeight b + 1) n) as [Hlt|Hge]; split.
  - intros q c. destruct (decide (q = p)) as [->|E]; [intros _ Hc; rewrite Hb in Hc; injection Hc as <-; lia|].
    rewrite lookup_insert_ne by congruence. intros Hq Hc. specialize (Hle q c Hq Hc). lia.
  - right. exists p, b. by rewrite lookup_insert_eq.
  - intros q c. destruct (decide (q = p)) as [->|E]; [intros _ Hc; rewrite Hb in Hc; injection Hc as <-; lia|].
    rewrite lookup_insert_ne by congruence. apply Hle.
  - destruct Hex as [|(q & c & Hq & Hc & ->)]; [by left|right]. exists q, c. split; [|done].
    rewrite lookup_insert_ne; [done|]. intros [= ->]. congruence.
Qed.

Lemma start_height_spec cache : cache_ok cache -> exists n, start_height st cache = Some n /\ least_start cache n.
Proof.
  intros Hok. unfold start_height.
  assert (forall p, cache !! Some p = Some STARTED -> exists b, st !! p = Some b) as Hb.
  { intros p Hp. destruct (ok_anchored cache Hok p _ Hp) as (_ & b & Hb & _). eauto. }
  assert (cache !! None <> Some STARTED) as HN.
  { intros HN. apply (ok_state cache Hok) in HN. done. }
  clear Hok. revert Hb HN. apply (map_fold_weak_ind (λ acc (m : ThresholdConditionCache),
    (forall p, m !! Some p = Some STARTED -> exists b, st !! p = Some b) -> m !! None <> Some STARTED ->
    exists n, acc = Some n /\ least_start m n)).
  - intros _ _. exists int_max. split; [done|]. split; [|by left]. intros p b. by rewrite lookup_empty.
  - intros o s m acc Hm IH Hb HN.
    destruct IH as (n & -> & Hn).
    { intros p Hp. apply Hb. rewrite lookup_insert_ne; [done|]. intros ->. congruence. }
    { intros HN'. apply HN. rewrite lookup_insert_ne; [done|]. intros ->. congruence. }
    unfold earlier_start. cbn [mbind option_bind]. case_decide as Es; [|exists n; split; [done|by apply least_start_skip]].
    subst s. destruct o as [p|]; [|by rewrite lookup_insert_eq in HN].
    destruct (Hb p) as [b Hpb]; [by rewrite lookup_insert_eq|]. cbn [mbind option_bind]. rewrite Hpb. cbn [mbind option_bind].
    eexists. split; [done|]. by apply least_start_add.
Qed.

(** What [nStartHeight] has to be for the next step. *)
Definition start_ok (s : ThresholdState * Z) (n : Z) : Prop :=
  s.1 = STARTED -> 0 < n < int_max /\ (n = s.2 \/ constant_threshold).

Lemma cached_start cache o s n :
  cache_ok cache -> least_start cache n -> cache !! o = Some s -> start_ok (bip9 st o) n.
Proof.
  intros Hok [Hle Hex] Ho Hs. pose proof (ok_state cache Hok o s Ho) as E. rewrite Hs in E. subst s.
  destruct o as [p|]; [|done]. destruct (ok_anchored cache Hok p _ Ho) as (Hsp & b & Hb).
  destruct (bip9 st (Some p)) as [s m] eqn:Em. cbn [fst snd] in *. subst s.
  destruct (start_cached cache p b m Hok Hb Ho Em) as (q & c & Hq & Hc & <-).
  pose proof (Hle q c Hq (proj1 Hc)) as Hn. pose proof (lawful_heights st Hlaw q c (proj1 Hc)).
  destruct Hex as [->|(r & d & Hr & Hd & ->)]; [lia|]. pose proof (linked_nonneg _ _ _ (Hst r d Hd)).
  split; [lia|]. destruct (ok_anchored cache Hok r _ Hr) as (Hsr & d' & Hrd).
  pose proof (proj1 Hrd) as E. rewrite Hd in E. injection E as <-.
  pose proof (ok_state cache Hok _ _ Hr) as Er. destruct (bip9 st (Some r)) as [s k] eqn:Ek. cbn [fst] in Er. subst s.
  pose proof (started_bounds st Hlaw r d k Hrd Ek).
  destruct (scope_start p b r d _ _ Hsp Hsr Hb Hrd Em Ek) as [E|]; [left; lia|by right].
Qed.

(** ** Counting *)

Lemma count_signals_spec (n : nat) p b k :
  st !! p = Some b -> n <= nHeight b + 1 -> count_signals n st (Some p) k = Some (walk st p n, k + signals st n p).
Proof.
  revert p b k. induction n as [|n IH]; intros p b k Hb Hn.
  { cbn. by rewrite Z.add_0_r. }
  cbn [count_signals walk]. unfold signals. cbn [last_blocks]. cbn [mbind option_bind]. rewrite Hb. cbn [mbind option_bind].
  rewrite filter_cons.
  destruct (pprev b) as [q|] eqn:Eq.
  - destruct (linked_prev _ _ _ (Hst p b Hb) q Eq) as (b' & Hb' & Hh). rewrite (IH q b') by (done || lia).
    cbn [mbind option_bind]. unfold signals. destruct (Condition b); simpl; do 2 f_equal; lia.
  - pose proof (linked_root _ _ _ (Hst p b Hb) Eq). assert (n = 0%nat) as -> by lia.
    cbn. destruct (Condition b); simpl; do 2 f_equal; lia.
Qed.

Lemma next_state_spec p b n :
  anchored st p b -> start_ok (bip9 st (period_parent st p)) n ->
  exists n', next_state st p (bip9 st (period_parent st p)).1 n = Some ((bip9 st (Some p)).1, n') /\ start_ok (bip9 st (Some p)) n'.
Proof.
  intros Ha Hn. rewrite (bip9_eq st Hst Hper p b Ha). pose proof (parent_anchored st Hst Hper p b Ha) as Hp.
  pose proof (anchored_height st Hst Hper p b Ha) as [Hh Hge]. destruct (mtp_Some st Hst p b (proj1 Ha)) as (t & Ht).
  pose proof (lawful_heights st Hlaw p b (proj1 Ha)). pose proof (linked_nonneg _ _ _ (Hst p b (proj1 Ha))). pose proof Hper.
  unfold next_state, bip9_next. rewrite (proj1 Ha), Ht. cbn [mbind option_bind]. unfold default, id.
  destruct (bip9 st (period_parent st p)) as [s m] eqn:Es. unfold start_ok in *. cbn [fst snd] in *.
  destruct s; try (eexists; split; [done|done]).
  - destruct (Z.leb_spec EndTime t); [by eexists|]. destruct (Z.leb_spec BeginTime t); [|by eexists].
    eexists. split; [done|]. cbn [fst snd]. rewrite Hh. intros _. split; [lia|by left].
  - destruct (Z.leb_spec EndTime t); [by eexists|]. destruct (Hn eq_refl) as [Hr Heq].
    rewrite (count_signals_spec _ p b) by (apply Ha || lia). cbn [mbind option_bind].
    rewrite (proj2 (Z.ltb_lt 0 n)), (proj2 (Z.ltb_lt n _)) by lia. cbn [andb].
    fold (period_parent st p). destruct (period_parent st p) as [q|]; [|done].
    destruct Hp as (c & Hc & Hhc). cbn [mbind option_bind]. rewrite (proj1 Hc). cbn [mbind option_bind].
    pose proof (started_bounds st Hlaw q c m Hc Es) as Hm. rewrite Z.add_0_l.
    replace (Threshold (Z.quot (nHeight c + 1 - n) Period)) with (Threshold ((height st p + 1 - Period - m) / Period)).
    + destruct (_ <=? _); eexists; (split; [done|]); cbn [fst snd]; [done|]. intros _. split; [done|]. destruct Heq; auto.
    + destruct Heq as [->|Hconst]; [|by rewrite Hconst, (Hconst (Z.quot _ _))].
      rewrite Hh. rewrite Z.quot_div_nonneg by lia. do 2 f_equal. lia.
Qed.

(** ** The two walks of [GetStateFor] *)

(** a null pointer or the last block of a period in scope *)
Definition border o : Prop := forall p, o = Some p -> scope p /\ exists b, anchored st p b.

Lemma border_parent p b : scope p -> anchored st p b -> border (period_parent st p).
Proof.
  intros Hs Ha q Hq. split; [by eapply scope_walk|]. pose proof (parent_anchored st Hst Hper p b Ha) as Hp.
  rewrite Hq in Hp. destruct Hp as (c & Hc & _). eauto.
Qed.

(** [v] leads from [o] down to [top], one period at a time. *)
Fixpoint steps o (v : list ptr) (top : option ptr) : Prop :=
  match v with
  | [] => o = top
  | p :: v => period_parent st p = o /\ border (Some p) /\ steps (Some p) v top
  end.

Lemma walk_back_spec (fuel : nat) o cache v top :
  cache_ok cache -> border o -> steps o v top -> (forall p, o = Some p -> height st p + 1 <= fuel) ->
  exists o' cache' v', walk_back fuel st o cache v = Some (o', cache', v') /\ cache_ok cache' /\ is_Some (cache' !! o') /\ steps o' v' top.
Proof.
  intros Hok. revert o v. induction fuel as [|fuel IH]; intros o v Ho Hv Hf; cbn [walk_back];
    (destruct (cache !! o) as [s|] eqn:Eo; [by exists o, cache, v|]).
  all: destruct o as [p|];
    [|eexists _, _, _; split; [done|]; split; [by apply cache_ok_insert_None|]; split; [by rewrite lookup_insert_eq|done]].
  all: destruct (Ho p eq_refl) as (Hs & b & Ha); destruct (mtp_Some st Hst p b (proj1 Ha)) as (t & Ht);
    rewrite Ht; cbn [mbind option_bind]; pose proof (anchored_height st Hst Hper p b Ha) as [Hh Hge];
    specialize (Hf p eq_refl); destruct (Z.ltb_spec t BeginTime) as [Hlt|Hgt].
  1,3: eexists _, _, _; split; [done|]; pose proof (before_begin st Hlaw p b t Ha Ht Hlt) as Hd;
    rewrite <- Hd at 1; split; [by eapply cache_ok_insert; eauto|]; split; [by rewrite lookup_insert_eq|done].
  { pose proof (linked_nonneg _ _ _ (Hst p b (proj1 Ha))). lia. }
  rewrite (proj1 Ha). cbn [mbind option_bind]. pose proof Hper.
  rewrite (ancestor_walk st Hst p b) by (apply Ha || lia). cbn [mbind option_bind]. fold (period_parent st p).
  apply IH; [by eapply border_parent|by split|].
  intros q Hq. pose proof (parent_anchored st Hst Hper p b Ha) as Hp. rewrite Hq in Hp. destruct Hp as (c & Hc & Hhc).
  rewrite (proj1 (anchored_height st Hst Hper q c Hc)). lia.
Qed.

Lemma walk_forward_spec v o top n cache :
  steps o v top -> cache_ok cache -> is_Some (cache !! o) -> start_ok (bip9 st o) n ->
  exists cache', walk_forward st v (bip9 st o).1 n cache = Some ((bip9 st top).1, cache') /\ cache_ok cache'.
Proof.
  revert o n cache. induction v as [|p v IH]; intros o n cache Hv Hok Ho Hn; cbn [steps walk_forward] in *.
  { subst o. eauto. }
  destruct Hv as (<- & Hb & Hv). destruct (Hb p eq_refl) as (Hs & b & Ha).
  destruct (next_state_spec p b n Ha Hn) as (n' & -> & Hn'). cbn [mbind option_bind].
  apply IH; [done|by eapply cache_ok_insert; eauto|by rewrite lookup_insert_eq|done].
Qed.

(** a null pointer or a block of the store in scope *)
Definition query_ok o : Prop := forall p, o = Some p -> scope p /\ exists b, st !! p = Some b.

Lemma anchor_border o : query_ok o -> border (o ≫= anchor st).
Proof.
  intros Ho p Hp. destruct o as [q|]; [|done]. cbn [mbind option_bind] in Hp. destruct (Ho q eq_refl) as (Hs & b & Hb).
  destruct (anchor_anchored st Hst Hper q b p Hb Hp) as (c & Hc & _). split; [|eauto].
  unfold anchor in Hp. rewrite Hb in Hp. by eapply scope_walk.
Qed.

Lemma GetStateFor_spec o cache :
  cache_ok cache -> query_ok o ->
  exists cache', GetStateFor st o cache = Some (state_after st o, cache') /\ cache_ok cache'.
Proof.
  intros Hok Ho. unfold GetStateFor, state_after. pose proof (anchor_border o Ho) as Hb.
  assert (match o with Some p => period_start st p | None => Some None end = Some (o ≫= anchor st)) as ->.
  { destruct o as [p|]; [|done]. destruct (Ho p eq_refl) as (_ & b & Hpb). by apply (period_start_anchor st Hst Hper p b). }
  cbn [mbind option_bind]. set (a := o ≫= anchor st) in *.
  destruct (walk_back_spec (turns st a) a cache [] a Hok Hb eq_refl) as (q & cache1 & v & -> & Hok1 & [s Hs] & Hv).
  { intros p Hp. destruct (Hb p Hp) as (_ & b & Ha). rewrite Hp. unfold turns, height. cbn [mbind option_bind].
    rewrite (proj1 Ha). pose proof (linked_nonneg _ _ _ (Hst p b (proj1 Ha))). lia. }
  cbn [mbind option_bind]. rewrite Hs. cbn [mbind option_bind].
  destruct (start_height_spec cache1 Hok1) as (n & -> & Hn). cbn [mbind option_bind].
  pose proof (cached_start cache1 q s n Hok1 Hn Hs) as Hst'. rewrite (ok_state cache1 Hok1 q s Hs) in *.
  apply (walk_forward_spec v q a n cache1 Hv Hok1); eauto.
Qed.

(** ** [GetStateSinceHeightFor] *)

(** [r] is the height of the first block of the first period in the state of the block after [o]:
    of the periods before, exactly those from [r] on are in that state. *)
Definition since o (r : Z) : Prop :=
  if decide (state_after st o = DEFINED) then r = 0
  else exists a, o ≫= anchor st = Some a /\
    (exists q c, period_above st q a /\ anchored st q c /\ nHeight c + 1 = r) /\
    (forall p b, period_above st p a -> anchored st p b -> (bip9 st (Some p)).1 = state_after st o <-> r <= nHeight b + 1).

Lemma first_since a c q d :
  anchored st a c -> period_above st q a -> anchored st q d -> (bip9 st (Some q)).1 = (bip9 st (Some a)).1 ->
  (forall r, period_parent st q = Some r -> (bip9 st (Some r)).1 <> (bip9 st (Some a)).1) ->
  forall p b, period_above st p a -> anchored st p b -> (bip9 st (Some p)).1 = (bip9 st (Some a)).1 <-> nHeight d + 1 <= nHeight b + 1.
Proof.
  intros Ha Hq Hd Es Hfirst p b Hp Hb.
  pose proof (above_rank st Hlaw p a c Hp Ha) as Hpa. split.
  - intros Ep. destruct (above_total st p q a Hp Hq) as [Hpq|Hqp].
    + inversion Hpq as [|? ? r Hr Hpr]; subst.
      { destruct Hd as [Hd _], Hb as [Hb _]. rewrite Hd in Hb. injection Hb as <-. done. }
      exfalso. apply (Hfirst r Hr). pose proof (parent_anchored st Hst Hper q d Hd) as Hpar. rewrite Hr in Hpar.
      destruct Hpar as (e & He & _). pose proof (above_rank st Hlaw p r e Hpr He).
      pose proof (above_rank st Hlaw r q d (above_step st r q r Hr (above_refl st r)) Hd).
      apply rank_inj. rewrite Ep, Es in *. lia.
    + pose proof (above_height st Hlaw q d p b Hqp Hd Hb). lia.
  - intros Hle. destruct (above_total st p q a Hp Hq) as [Hpq|Hqp].
    + inversion Hpq as [|? ? r Hr Hpr]; subst; [done|]. exfalso.
      pose proof (parent_anchored st Hst Hper q d Hd) as Hpar. rewrite Hr in Hpar. destruct Hpar as (e & He & Hhe).
      pose proof (above_height st Hlaw p b r e Hpr Hb He). pose proof Hper. lia.
    + pose proof (above_rank st Hlaw q p b Hqp Hb). apply rank_inj. rewrite Es in *. lia.
Qed.

Lemma since_loop_spec (fuel : nat) s p b cache :
  cache_ok cache -> scope p -> anchored st p b -> (bip9 st (Some p)).1 = s -> nHeight b + 1 <= fuel ->
  exists q d cache', since_loop fuel st s p cache = Some (nHeight d + 1, cache') /\ cache_ok cache' /\
    period_above st q p /\ anchored st q d /\ (bip9 st (Some q)).1 = s /\
    (forall r, period_parent st q = Some r -> (bip9 st (Some r)).1 <> s).
Proof.
  revert p b cache. induction fuel as [|fuel IH]; intros p b cache Hok Hs Ha Es Hf;
    pose proof (linked_nonneg _ _ _ (Hst p b (proj1 Ha))); [lia|].
  cbn [since_loop]. rewrite (proj1 Ha). cbn [mbind option_bind]. pose proof Hper.
  rewrite (ancestor_walk st Hst p b) by (apply Ha || lia). cbn [mbind option_bind]. fold (period_parent st p).
  pose proof (parent_anchored st Hst Hper p b Ha) as Hp. destruct (period_parent st p) as [r|] eqn:Er.
  2:{ exists p, b, cache. split_and!; try done; [constructor|]. congruence. }
  destruct Hp as (c & Hc & Hh). destruct (border_parent p b Hs Ha r Er) as [Hsr _].
  destruct (GetStateFor_spec (Some r) cache Hok) as (cache1 & -> & Hok1).
  { intros ? [= <-]. split; [done|]. exists c. apply Hc. }
  cbn [mbind option_bind]. unfold state_after. cbn [mbind option_bind]. rewrite (anchored_self st r c Hc).
  case_decide as E.
  - destruct (IH r c cache1 Hok1 Hsr Hc E) as (q & d & cache' & -> & Hok' & Hab & Hd & Hq & Hfirst); [lia|].
    exists q, d, cache'. split_and!; try done. by eapply above_step.
  - exists p, b, cache1. split_and!; try done; [constructor|]. intros r' Hr'. congruence.
Qed.

Lemma GetStateSinceHeightFor_spec o cache :
  cache_ok cache -> query_ok o ->
  exists r cache', GetStateSinceHeightFor st o cache = Some (r, cache') /\ cache_ok cache' /\ since o r.
Proof.
  intros Hok Ho. unfold GetStateSinceHeightFor, since.
  destruct (GetStateFor_spec o cache Hok Ho) as (cache1 & -> & Hok1). cbn [mbind option_bind].
  case_decide as E; [eauto|]. destruct o as [p|]; [|done]. cbn [mbind option_bind].
  destruct (Ho p eq_refl) as (Hs & b & Hb). rewrite (period_start_anchor st Hst Hper p b Hb). cbn [mbind option_bind].
  unfold state_after in *. cbn [mbind option_bind] in *. pose proof (anchor_border (Some p) Ho) as Hbo. cbn [mbind option_bind] in Hbo.
  destruct (anchor st p) as [a|]; [|done]. cbn [mbind option_bind]. destruct (Hbo a eq_refl) as (Hsa & c & Ha).
  destruct (since_loop_spec (turns st (Some a)) _ a c cache1 Hok1 Hsa Ha eq_refl)
    as (q & d & cache' & -> & Hok' & Hab & Hd & Hq & Hfirst).
  { unfold turns. cbn [mbind option_bind]. rewrite (proj1 Ha). lia. }
  exists (nHeight d + 1), cache'. split; [done|]. split; [done|]. exists a. split; [done|]. split; [by exists q, d|].
  by apply (first_since a c q d).
Qed.

(** ** [GetStateStatisticsFor] *)

Lemma start_block p b n :
  anchored st p b -> bip9 st (Some p) = (STARTED, n) ->
  exists q c, period_above st q p /\ anchored st q c /\ (bip9 st (Some q)).1 = STARTED /\ nHeight c + 1 = n.
Proof.
  intros Ha. revert n. revert p b Ha.
  refine (period_ind st Hst Hper (λ p b, forall n, bip9 st (Some p) = (STARTED, n) ->
    exists q c, period_above st q p /\ anchored st q c /\ (bip9 st (Some q)).1 = STARTED /\ nHeight c + 1 = n) _).
  intros p b Ha IH n Hn. pose proof Hn as Hn'. rewrite (bip9_eq st Hst Hper p b Ha) in Hn'.
  pose proof (anchored_height st Hst Hper p b Ha) as [Hh _].
  apply next_STARTED in Hn' as [[_ ->]|Hn']; [exists p, b; rewrite Hh, Hn; split_and!; done || constructor|].
  pose proof (parent_anchored st Hst Hper p b Ha) as Hp. destruct (period_parent st p) as [q|] eqn:Eq; [|done].
  destruct Hp as (c & Hqc & _). destruct (IH q c eq_refl Hqc n Hn') as (r & d & Hab & Hrest).
  exists r, d. split; [by eapply above_step|done].
Qed.

Lemma since_start o a c r :
  o ≫= anchor st = Some a -> anchored st a c -> state_after st o = STARTED -> since o r -> r = (bip9 st (Some a)).2.
Proof.
  intros Ho Ha Hs. unfold since. rewrite Hs. rewrite decide_False by done. rewrite Ho.
  intros (a' & [= <-] & (q & d & Hq & Hd & <-) & Hall). unfold state_after in Hs. rewrite Ho in Hs.
  destruct (bip9 st (Some a)) as [s n] eqn:En. cbn [fst snd] in *. subst s.
  destruct (start_block a c n Ha En) as (x & e & Hx & He & Hxs & <-). pose proof (proj1 (Hall x e Hx He) Hxs) as Hle.
  pose proof (proj2 (Hall q d Hq Hd) ltac:(lia)) as Hqs. destruct (bip9 st (Some q)) as [s k] eqn:Ek. cbn [fst] in Hqs. subst s.
  pose proof (above_start st Hlaw q a c k _ Hq Ha Ek En). pose proof (started_bounds st Hlaw q d k Hd Ek). lia.
Qed.

Lemma count_back_spec (fuel : nat) h p b k :
  st !! p = Some b -> 0 <= h <= nHeight b -> nHeight b - h <= fuel ->
  count_back fuel st h (Some p) k = Some (k + signals st (Z.to_nat (nHeight b - h)) p).
Proof.
  revert p b k. induction fuel as [|fuel IH]; intros p b k Hb Hh Hf; cbn [count_back mbind option_bind]; rewrite Hb;
    cbn [mbind option_bind]; destruct (Z.eqb_spec h (nHeight b)) as [->|E]; try lia.
  1,2: rewrite Z.sub_diag; by rewrite Z.add_0_r.
  destruct (linked_parent st Hst p b Hb) as (q & b' & Hq & Hb' & Hh'); [lia|]. rewrite Hq, (IH q b') by (done || lia).
  replace (Z.to_nat (nHeight b - h)) with (S (Z.to_nat (nHeight b' - h))) by lia. unfold signals at 2. cbn [last_blocks].
  rewrite Hb, Hq, filter_cons. unfold signals. destruct (Condition b); simpl; f_equal; lia.
Qed.

(** the statistics of the period that [p] is in, up to [p] *)
Definition statistics p : BIP9Stats :=
  let attempt := match anchor st p with
                 | Some a => if decide ((bip9 st (Some a)).1 = STARTED) then (height st a + 1 - (bip9 st (Some a)).2) / Period else 0
                 | None => 0 end in
  let elapsed := (height st p + 1) `mod` Period in
  let count := signals st (Z.to_nat elapsed) p in
  mkStats Period (Threshold attempt) elapsed count (elapsed - count <=? Period - Threshold attempt).

Lemma GetStateStatisticsFor_spec p a cache :
  cache_ok cache -> query_ok (Some p) -> anchor st p = Some a ->
  exists cache', GetStateStatisticsFor st (Some p) cache = Some (statistics p, cache') /\ cache_ok cache'.
Proof.
  intros Hok Ho Hpa. destruct (Ho p eq_refl) as (Hs & b & Hb). unfold GetStateStatisticsFor, statistics.
  rewrite Hb. cbn [mbind option_bind]. rewrite (period_start_anchor st Hst Hper p b Hb), Hpa. cbn [mbind option_bind].
  destruct (anchor_anchored st Hst Hper p b a Hb Hpa) as (c & Ha & Hh). rewrite (proj1 Ha). cbn [mbind option_bind].
  assert (query_ok (Some a)) as Hoa.
  { intros ? [= <-]. unfold anchor in Hpa. rewrite Hb in Hpa. split; [by eapply scope_walk|]. exists c. apply Ha. }
  destruct (GetStateFor_spec (Some a) cache Hok Hoa) as (cache1 & -> & Hok1). cbn [mbind option_bind].
  assert (state_after st (Some a) = (bip9 st (Some a)).1) as Es
    by (unfold state_after; cbn [mbind option_bind]; by rewrite (anchored_self st a c Ha)).
  pose proof (Z.mod_pos_bound (nHeight b + 1) Period Hper). pose proof (linked_nonneg _ _ _ (Hst a c (proj1 Ha))).
  assert (height st p = nHeight b) as Ehp by (unfold height; by rewrite Hb).
  rewrite (proj1 (anchored_height st Hst Hper a c Ha)), Ehp.
  assert (count_back (turns st (Some p)) st (nHeight c) (Some p) 0 =
    Some (Z.of_nat 0 + signals st (Z.to_nat ((nHeight b + 1) `mod` Period)) p)) as Hcount.
  { rewrite (count_back_spec _ (nHeight c) p b 0); [do 4 f_equal; lia|done|lia|].
    unfold turns. cbn [mbind option_bind]. rewrite Hb. lia. }
  rewrite Z.add_0_l in Hcount. replace (nHeight b - nHeight c) with ((nHeight b + 1) `mod` Period) by lia.
  case_decide as E; rewrite Es in E.
  - destruct (GetStateSinceHeightFor_spec (Some a) cache1 Hok1 Hoa) as (r & cache2 & -> & Hok2 & Hr).
    cbn [mbind option_bind]. rewrite decide_True by done.
    apply (since_start (Some a) a c) in Hr; [|cbn [mbind option_bind]; by rewrite (anchored_self st a c Ha)|done|congruence].
    subst r. destruct (bip9 st (Some a)) as [s n] eqn:En. cbn [fst snd] in *. rewrite E in En.
    pose proof (started_bounds st Hlaw a c n Ha En). rewrite Z.quot_div_nonneg, Hcount by lia. eauto.
  - cbn [mbind option_bind]. rewrite decide_False, Hcount by done. eauto.
Qed.
End cache.
