(* ===== verification/Deployments.v ===== *)
(** * Deployments: what version bits guarantee

    Sequences of queries against the state machine, the decision of every deployment, the version
    of new blocks, and what happens across branches and in the first period. *)

From S2P Require Import Prelude Chain ChainLaws Interpreter TxVerify VersionBits VersionBitsLaws.

(** ** Sequences of queries *)

Inductive query := QState (o : option ptr) | QSince (o : option ptr) | QStatistics (p : ptr).
Inductive answer := AState (s : ThresholdState) | ASince (h : Z) | AStatistics (s : BIP9Stats).

Section queries.
Context {checker : AbstractThresholdConditionChecker} (st : store).

Definition block_of (q : query) : option ptr := match q with QState o | QSince o => o | QStatistics p => Some p end.

Definition do_query (q : query) (cache : ThresholdConditionCache) : option (answer * ThresholdConditionCache) :=
  match q with
  | QState o => '(s, cache) ← GetStateFor st o cache; Some (AState s, cache)
  | QSince o => '(h, cache) ← GetStateSinceHeightFor st o cache; Some (ASince h, cache)
  | QStatistics p => '(s, cache) ← GetStateStatisticsFor st (Some p) cache; Some (AStatistics s, cache)
  end.
Fixpoint do_queries (l : list query) (cache : ThresholdConditionCache) : option (list answer * ThresholdConditionCache) :=
  match l with
  | [] => Some ([], cache)
  | q :: l => '(a, cache) ← do_query q cache; '(al, cache) ← do_queries l cache; Some (a :: al, cache)
  end.

(** the answers of the state machine *)
Definition answers (q : query) (a : answer) : Prop :=
  match q, a with
  | QState o, AState s => s = state_after st o
  | QSince o, ASince h => since st o h
  | QStatistics p, AStatistics s => s = statistics st p
  | _, _ => False
  end.

(** a query about a block of the store, for statistics one after the first period *)
Definition legal (q : query) : Prop :=
  (forall p, block_of q = Some p -> exists b, st !! p = Some b) /\
  match q with QStatistics p => is_Some (anchor st p) | _ => True end.

Definition one_chain (l : list query) : Prop :=
  exists t bt, st !! t = Some bt /\ Forall (λ q, forall p, block_of q = Some p -> p ∈ path st t) l.

Context (Hlaw : lawful st).
Let Hst : linked st := lawful_linked st Hlaw.

Section scope.
Context (scope : ptr -> Prop).
Context (scope_walk : forall p (n : nat) q, scope p -> walk st p n = Some q -> scope q).
Context (scope_start : forall p b q c n m, scope p -> scope q -> anchored st p b -> anchored st q c ->
  bip9 st (Some p) = (STARTED, n) -> bip9 st (Some q) = (STARTED, m) -> n = m \/ constant_threshold).

Lemma do_query_spec q cache :
  cache_ok st scope cache -> legal q -> (forall p, block_of q = Some p -> scope p) ->
  exists a cache', do_query q cache = Some (a, cache') /\ answers q a /\ cache_ok st scope cache'.
Proof.
  intros Hok [Hl Hl'] Hs.
  assert (forall o, block_of q = o -> query_ok st scope o) as Hq by (intros o <- p Hp; auto).
  destruct q as [o|o|p]; cbn [do_query block_of] in *.
  - destruct (GetStateFor_spec st Hlaw scope scope_walk scope_start o cache Hok (Hq o eq_refl)) as (cache' & -> & Hok').
    exists (AState (state_after st o)), cache'. done.
  - destruct (GetStateSinceHeightFor_spec st Hlaw scope scope_walk scope_start o cache Hok (Hq o eq_refl)) as (r & cache' & -> & Hok' & Hr).
    exists (ASince r), cache'. done.
  - destruct Hl' as [a Ha].
    destruct (GetStateStatisticsFor_spec st Hlaw scope scope_walk scope_start p a cache Hok (Hq _ eq_refl) Ha) as (cache' & -> & Hok').
    exists (AStatistics (statistics st p)), cache'. done.
Qed.

Lemma do_queries_spec l cache :
  cache_ok st scope cache -> Forall legal l -> Forall (λ q, forall p, block_of q = Some p -> scope p) l ->
  exists al cache', do_queries l cache = Some (al, cache') /\ Forall2 answers l al /\ cache_ok st scope cache'.
Proof.
  intros Hok Hl. revert cache Hok. induction Hl as [|q l Hq _ IH]; intros cache Hok Hs; cbn [do_queries].
  { exists [], cache. split; [done|]. by split; [constructor|]. }
  apply Forall_cons in Hs as [Hsq Hs].
  destruct (do_query_spec q cache Hok Hq Hsq) as (a & cache1 & -> & Ha & Hok1). cbn [mbind option_bind].
  destruct (IH cache1 Hok1 Hs) as (al & cache2 & -> & Hal & Hok2). cbn [mbind option_bind].
  exists (a :: al), cache2. split; [done|]. by split; [constructor|].
Qed.
End scope.

Lemma path_walk t bt p (n : nat) q : st !! t = Some bt -> p ∈ path st t -> walk st p n = Some q -> q ∈ path st t.
Proof.
  intros Ht Hp Hq. apply list_elem_of_lookup in Hp as [i Hi]. apply lookup_lt_Some in Hi as Hlt.
  rewrite (length_path st Hst t bt Ht) in Hlt. pose proof (linked_nonneg _ _ _ (Hst t bt Ht)).
  destruct (path_lookup st Hst t bt i Ht) as (p' & b & Hi' & Hb & Hh & _ & Htake); [lia|].
  rewrite Hi in Hi'. injection Hi' as <-.
  destruct (decide (nHeight b < n)); [by rewrite (walk_None st Hst p b) in Hq by (done || lia)|].
  destruct (path_lookup st Hst p b (Z.to_nat (nHeight b - n)) Hb) as (q' & c & Hq' & _ & _ & Hw & _); [lia|].
  replace (Z.to_nat (nHeight b - Z.to_nat (nHeight b - n))) with n in Hw by lia.
  rewrite <- Htake in Hq'. apply lookup_take_Some in Hq' as [Hq' _]. apply list_elem_of_lookup. exists (Z.to_nat (nHeight b - n)). congruence.
Qed.

Lemma path_start t bt p b q c n m :
  st !! t = Some bt -> p ∈ path st t -> q ∈ path st t -> anchored st p b -> anchored st q c ->
  bip9 st (Some p) = (STARTED, n) -> bip9 st (Some q) = (STARTED, m) -> n = m.
Proof.
  intros Ht Hp Hq Hb Hc Hn Hm. destruct (decide (nHeight b <= nHeight c)) as [E|E].
  - apply (above_start st Hlaw p q c n m); [|done..]. by apply (path_above st Hlaw t bt p b q c).
  - symmetry. apply (above_start st Hlaw q p b m n); [|done..]. apply (path_above st Hlaw t bt q c p b); done || lia.
Qed.

Lemma queries_spec l : Forall legal l -> one_chain l \/ constant_threshold ->
  exists al cache, do_queries l ∅ = Some (al, cache) /\ Forall2 answers l al.
Proof.
  intros Hl [(t & bt & Ht & Hc)|Hc].
  - destruct (do_queries_spec (λ p, p ∈ path st t)) with (l := l) (cache := (∅ : ThresholdConditionCache))
      as (al & cache & ? & ? & _); eauto using cache_ok_empty, path_walk, path_start.
  - destruct (do_queries_spec (λ _, True)) with (l := l) (cache := (∅ : ThresholdConditionCache))
      as (al & cache & ? & ? & _); eauto using cache_ok_empty. apply Forall_true. done.
Qed.

(** a block is on its own path *)
Lemma state_spec p b : st !! p = Some b -> exists cache, GetStateFor st (Some p) ∅ = Some (state_after st (Some p), cache).
Proof.
  intros Hb. destruct (queries_spec [QState (Some p)]) as (al & cache & Hq & Ha).
  - constructor; [|constructor]. split; [|done]. intros ? [= <-]. eauto.
  - left. exists p, b. split; [done|]. constructor; [|constructor]. intros ? [= <-].
    pose proof (path_last st Hst p b Hb) as Hlast. apply last_Some in Hlast as [l' ->]. set_solver.
  - cbn [do_queries do_query] in Hq. destruct (GetStateFor st (Some p) ∅) as [[s c]|]; [|done].
    injection Hq as <- _. apply Forall2_cons in Ha as [Ha _]. simpl in Ha. subst s. eauto.
Qed.
End queries.

(** ** Later blocks *)

Section later.
Context {checker : AbstractThresholdConditionChecker} (st : store) (Hlaw : lawful st).
Let Hst : linked st := lawful_linked st Hlaw.
Let Hper : 0 < Period := lawful_period st Hlaw.

Lemma walk_source p (n : nat) q c : st !! q = Some c -> walk st p n = Some q -> exists b, st !! p = Some b /\ nHeight b = nHeight c + n.
Proof.
  intros Hc. revert p. induction n as [|n IH]; intros p Hw; cbn [walk] in Hw.
  { injection Hw as ->. exists c. split; [done|lia]. }
  destruct (st !! p) as [b|] eqn:Hb; [|done]. cbn [mbind option_bind] in Hw. destruct (pprev b) as [r|] eqn:Er; [|done].
  cbn [mbind option_bind] in Hw. destruct (IH r Hw) as (d & Hd & Hh).
  destruct (linked_prev _ _ _ (Hst p b Hb) r Er) as (d' & Hd' & Hh'). rewrite Hd in Hd'. injection Hd' as <-.
  exists b. split; [done|lia].
Qed.

(** The border of a block's period is at or above that of any later block. *)
Lemma anchor_above p b q (n : nat) a :
  st !! p = Some b -> walk st q n = Some p -> anchor st p = Some a ->
  exists a' c', anchor st q = Some a' /\ anchored st a' c' /\ period_above st a a'.
Proof.
  intros Hb Hw Ha. destruct (walk_source q n p b Hb Hw) as (d & Hd & Hh).
  destruct (anchor_anchored st Hst Hper p b a Hb Ha) as (c & Hc & Hhc).
  pose proof (Z.mod_pos_bound (nHeight b + 1) Period Hper). pose proof (Z.mod_pos_bound (nHeight d + 1) Period Hper).
  pose proof (linked_nonneg _ _ _ (Hst a c (proj1 Hc))).
  assert (nHeight b + 1 - (nHeight b + 1) `mod` Period <= nHeight d + 1 - (nHeight d + 1) `mod` Period) as Hle.
  { rewrite !Z.mod_eq by lia. assert ((nHeight b + 1) / Period <= (nHeight d + 1) / Period) by (apply Z.div_le_mono; lia). nia. }
  destruct (anchor st q) as [a'|] eqn:Ea'.
  - destruct (anchor_anchored st Hst Hper q d a' Hd Ea') as (c' & Hc' & Hhc'). exists a', c'. split; [done|]. split; [done|].
    apply (path_above st Hlaw q d a c a' c' Hd); [| |done|done|lia].
    + unfold anchor in Ha. rewrite Hb in Ha. cbn [mbind option_bind] in Ha.
      eapply (path_walk st Hlaw q d q (n + Z.to_nat ((nHeight b + 1) `mod` Period))); [done| |].
      * pose proof (path_last st Hst q d Hd) as Hlast. apply last_Some in Hlast as [l' ->]. set_solver.
      * by rewrite (walk_add st q n _ p Hw).
    + unfold anchor in Ea'. rewrite Hd in Ea'. cbn [mbind option_bind] in Ea'.
      eapply (path_walk st Hlaw q d q); [done| |exact Ea'].
      pose proof (path_last st Hst q d Hd) as Hlast. apply last_Some in Hlast as [l' ->]. set_solver.
  - unfold anchor in Ea'. rewrite Hd in Ea'. cbn [mbind option_bind] in Ea'.
    destruct (walk_height st Hst q d (Z.to_nat ((nHeight d + 1) `mod` Period)) Hd) as (x & _ & Hx & _); [lia|congruence].
Qed.

Lemma above_terminal p q c :
  period_above st p q -> anchored st q c -> (bip9 st (Some p)).1 = ACTIVE \/ (bip9 st (Some p)).1 = FAILED ->
  (bip9 st (Some q)).1 = (bip9 st (Some p)).1.
Proof.
  intros Hab. revert c. induction Hab as [p|p q r Hr Hab IH]; intros c Hc Ht; [done|].
  pose proof (parent_anchored st Hst Hper q c Hc) as Hp. rewrite Hr in Hp. destruct Hp as (d & Hd & _).
  rewrite (bip9_eq st Hst Hper q c Hc), Hr. specialize (IH d Hd Ht).
  unfold bip9_next. destruct (bip9 st (Some r)) as [s n]. cbn [fst] in *. subst s. by destruct Ht as [->| ->].
Qed.

(** the block one period later *)
Lemma anchor_shift p b q a :
  st !! p = Some b -> walk st q (Z.to_nat Period) = Some p -> anchor st p = Some a ->
  exists a' c', anchor st q = Some a' /\ anchored st a' c' /\ period_parent st a' = Some a.
Proof.
  intros Hb Hw Ha. destruct (anchor_above p b q _ a Hb Hw Ha) as (a' & c' & Ha' & Hc' & _). exists a', c'. split; [done|]. split; [done|].
  destruct (walk_source q _ p b Hb Hw) as (d & Hd & Hh). unfold anchor in Ha, Ha'. rewrite Hb in Ha. rewrite Hd in Ha'.
  cbn [mbind option_bind] in Ha, Ha'. unfold period_parent.
  rewrite <- (walk_add st q _ (Z.to_nat Period) a' Ha').
  replace (nHeight d + 1) with (nHeight b + 1 + 1 * Period) by lia. rewrite Z.mod_add by lia.
  by rewrite Nat.add_comm, (walk_add st q _ _ p Hw).
Qed.
End later.

(** ** Properties *)


(** C27: A deployment is decided: when the last block of a period has reached the end time, every later
    block sees the same state, ACTIVE or FAILED; and a deployment that is LOCKED_IN for a block is
    ACTIVE for the block one period later, whatever the blocks in between signal. *)
Theorem deployment_decided `{AbstractThresholdConditionChecker} (st : store) (p a : ptr) (b : CBlockIndex) :
  lawful st -> st !! p = Some b -> anchor st p = Some a ->
  (forall t, GetMedianTimePast st a = Some t -> EndTime <= t ->
    exists s, (s = ACTIVE \/ s = FAILED) /\
      forall q (n : nat), walk st q n = Some p -> exists cache, GetStateFor st (Some q) ∅ = Some (s, cache)) /\
  (forall cache q, GetStateFor st (Some p) ∅ = Some (LOCKED_IN, cache) -> walk st q (Z.to_nat Period) = Some p ->
    exists cache', GetStateFor st (Some q) ∅ = Some (ACTIVE, cache')).
Proof.
  intros Hlaw Hb Ha. pose proof (lawful_linked st Hlaw) as Hst. pose proof (lawful_period st Hlaw) as Hper.
  destruct (anchor_anchored st Hst Hper p b a Hb Ha) as (c & Hc & _). split.
  - intros t Ht Hend. exists (bip9 st (Some a)).1.
    assert ((bip9 st (Some a)).1 = ACTIVE \/ (bip9 st (Some a)).1 = FAILED) as Hs.
    { rewrite (bip9_eq st Hst Hper a c Hc). unfold bip9_next. rewrite Ht. unfold default, id.
      rewrite (proj2 (Z.leb_le _ _)) by done. destruct (bip9 st (period_parent st a)) as [[] ?]; simpl; auto. }
    split; [done|]. intros q n Hq. destruct (walk_source st Hlaw q n p b Hb Hq) as (d & Hd & _).
    destruct (anchor_above st Hlaw p b q n a Hb Hq Ha) as (a' & c' & Ha' & Hc' & Hab).
    destruct (state_spec st Hlaw q d Hd) as (cache & ->). unfold state_after. cbn [mbind option_bind]. rewrite Ha'.
    rewrite (above_terminal st Hlaw a a' c' Hab Hc' Hs). eauto.
  - intros cache q Hq Hw. destruct (state_spec st Hlaw p b Hb) as (cache1 & E). rewrite E in Hq. injection Hq as Hs _.
    unfold state_after in Hs. cbn [mbind option_bind] in Hs. rewrite Ha in Hs.
    destruct (walk_source st Hlaw q _ p b Hb Hw) as (d & Hd & _). destruct (state_spec st Hlaw q d Hd) as (cache2 & ->).
    destruct (anchor_shift st Hlaw p b q a Hb Hw Ha) as (a' & c' & Ha' & Hc' & Hpar).
    unfold state_after. cbn [mbind option_bind]. rewrite Ha', (bip9_eq st Hst Hper a' c' Hc'), Hpar.
    unfold bip9_next. rewrite Hs. eauto.
Qed.

(** [GetStateStatisticsFor] dereferences a null pointer for every block of the first period, with
    any cache; after a query that answers anything but DEFINED the block is not in the first period. *)
Theorem statistics_first_period `{AbstractThresholdConditionChecker} (st : store) (p : ptr) (b : CBlockIndex) :
  lawful st -> st !! p = Some b ->
  (nHeight b + 1 < Period -> forall cache, GetStateStatisticsFor st (Some p) cache = None) /\
  (forall s cache, GetStateFor st (Some p) ∅ = Some (s, cache) -> s <> DEFINED -> legal st (QStatistics p)).
Proof.
  intros Hlaw Hb. pose proof (lawful_linked st Hlaw) as Hst. pose proof (lawful_period st Hlaw) as Hper.
  pose proof (linked_nonneg _ _ _ (Hst p b Hb)). split.
  - intros Hlt cache. unfold GetStateStatisticsFor. rewrite Hb. cbn [mbind option_bind].
    rewrite (period_start_anchor st Hst Hper p b Hb). unfold anchor. rewrite Hb. cbn [mbind option_bind].
    rewrite Z.mod_small by lia. by rewrite (walk_None st Hst p b) by (done || lia).
  - intros s cache Hs Hne. destruct (state_spec st Hlaw p b Hb) as (cache' & E). rewrite E in Hs. injection Hs as <- _.
    split; [intros ? [= <-]; eauto|]. unfold state_after in Hne. cbn [mbind option_bind] in Hne.
    destruct (anchor st p); [eauto|done].
Qed.

(** ** The version of a new block *)

Lemma land_top v : 0 <= v -> v &&& VERSIONBITS_TOP_MASK = v / 2 ^ 29 * 2 ^ 29.
Proof.
  intros Hv. change VERSIONBITS_TOP_MASK with (- 2 ^ 29). rewrite <- Z.shiftl_mul_pow2, <- Z.shiftr_div_pow2 by lia.
  apply Z.bits_inj'. intros i Hi. rewrite Z.land_spec, Z.shiftl_spec by done.
  replace (- 2 ^ 29) with (Z.lnot (Z.ones 29)) by done. rewrite Z.lnot_spec by done.
  destruct (decide (i < 29)).
  - rewrite Z.ones_spec_low, andb_false_r, (Z.testbit_neg_r _ (i - 29)) by lia. done.
  - rewrite Z.ones_spec_high, andb_true_r, Z.shiftr_spec by lia. f_equal. lia.
Qed.

Lemma vb_Condition_bit params pos b :
  0 <= bit (vDeployments params pos) < 29 -> 2 ^ 29 <= nVersion b < 2 ^ 30 ->
  vb_Condition params pos b = Z.testbit (nVersion b) (bit (vDeployments params pos)).
Proof.
  intros Hk Hv. unfold vb_Condition, Mask. set (k := bit _) in *. rewrite land_top by lia.
  assert (nVersion b / 2 ^ 29 = 1) as -> by (symmetry; apply Z.div_unique with (nVersion b - 2 ^ 29); lia).
  change (1 * 2 ^ 29 =? VERSIONBITS_TOP_BITS) with true. cbn [andb].
  rewrite Z.shiftl_1_l, !u32_small.
  2:{ split; [lia|]. apply Z.pow_lt_mono_r; lia. }
  2: lia.
  destruct (Z.eqb_spec (nVersion b &&& 2 ^ k) 0) as [E|E]; cbn [negb].
  - apply (f_equal (λ x, Z.testbit x k)) in E. rewrite Z.land_spec, Z.pow2_bits_true, andb_true_r, Z.bits_0 in E by lia. done.
  - destruct (Z.testbit (nVersion b) k) eqn:Et; [done|]. exfalso. apply E. apply Z.bits_inj'. intros i Hi.
    rewrite Z.land_spec, Z.bits_0. destruct (decide (i = k)) as [->|Hne]; [by rewrite Et|].
    rewrite Z.pow2_bits_false by lia. apply andb_false_r.
Qed.

(** adding a signal to a version *)
Lemma version_bit params pos v :
  0 <= bit (vDeployments params pos) < 29 -> 2 ^ 29 <= v < 2 ^ 30 ->
  let v' := i32 (u32 v ||| VersionBitsMask params pos) in
  2 ^ 29 <= v' < 2 ^ 30 /\ forall j, Z.testbit v' j = Z.testbit v j || (j =? bit (vDeployments params pos)).
Proof.
  intros Hk Hv. unfold VersionBitsMask, Mask. set (k := bit _) in *. rewrite Z.shiftl_1_l, !u32_small.
  2:{ split; [lia|]. apply Z.pow_lt_mono_r; lia. }
  2: lia.
  assert (in_uint 30 (v ||| 2 ^ k)) as Hr.
  { apply in_uint_lor; [lia|unfold in_uint; lia|]. split; [lia|]. apply Z.pow_lt_mono_r; lia. }
  assert (2 ^ 29 <= v ||| 2 ^ k) as Hle.
  { destruct (decide (2 ^ 29 <= v ||| 2 ^ k)) as [|Hlt]; [done|exfalso].
    pose proof (testbit_in_uint 29 (v ||| 2 ^ k) 29 ltac:(unfold in_uint in *; lia) ltac:(lia) ltac:(lia)) as Hf.
    rewrite Z.lor_spec in Hf. apply orb_false_elim in Hf as [Hf _]. apply Z.testbit_false in Hf; [|lia].
    replace (v / 2 ^ 29) with 1 in Hf; [done|]. apply Z.div_unique with (v - 2 ^ 29); lia. }
  unfold in_uint in Hr. cbv zeta. rewrite sint_small by (lia || (unfold in_sint; lia)). split; [lia|].
  intros j. rewrite Z.lor_spec. f_equal. destruct (Z.eqb_spec j k) as [->|E]; [apply Z.pow2_bits_true|apply Z.pow2_bits_false]; lia.
Qed.

Lemma version_step params pos (d : bool) v :
  0 <= bit (vDeployments params pos) < 29 -> 2 ^ 29 <= v < 2 ^ 30 ->
  let v' := if d then i32 (u32 v ||| VersionBitsMask params pos) else v in
  2 ^ 29 <= v' < 2 ^ 30 /\ forall j, Z.testbit v' j = Z.testbit v j || (d && (j =? bit (vDeployments params pos))).
Proof.
  intros Hk Hv. destruct d; cbn [andb]; [by apply version_bit|]. split; [done|]. intros j. by rewrite orb_false_r.
Qed.

(** A new block signals for exactly the deployments that are STARTED or LOCKED_IN: counting the
    block with the version that [ComputeBlockVersion] gives it, [Condition] holds for these and no
    others. *)
Theorem block_version_signals (st : store) (pindexPrev : option ptr) (params : VBParams) (cache cache' : VersionBitsCache) (b : CBlockIndex) :
  (forall pos, 0 <= bit (vDeployments params pos) < VERSIONBITS_NUM_BITS) ->
  bit (vDeployments params DEPLOYMENT_TESTDUMMY) <> bit (vDeployments params DEPLOYMENT_V17) ->
  ComputeBlockVersion st pindexPrev params cache = Some (nVersion b, cache') ->
  forall pos, exists s c, VersionBitsState st pindexPrev params pos cache = Some (s, c) /\ cache_at c pos = cache_at cache' pos /\
    (vb_Condition params pos b = true <-> s = STARTED \/ s = LOCKED_IN).
Proof.
  intros Hbits Hne. unfold ComputeBlockVersion, MAX_VERSION_BITS_DEPLOYMENTS. cbn [block_version_loop].
  unfold VersionBitsState, on_cache. cbn [cache_at].
  pose proof (Hbits DEPLOYMENT_TESTDUMMY) as Hb1. pose proof (Hbits DEPLOYMENT_V17) as Hb2.
  unfold VERSIONBITS_NUM_BITS in Hb1, Hb2.
  destruct (@GetStateFor (VersionBitsConditionChecker params DEPLOYMENT_TESTDUMMY) _ _ _) as [[s1 c1]|] eqn:E1; [|done].
  cbn [mbind option_bind set_cache cache_at cache_v17 cache_testdummy].
  destruct (@GetStateFor (VersionBitsConditionChecker params DEPLOYMENT_V17) _ _ _) as [[s2 c2]|] eqn:E2; [|done].
  cbn [mbind option_bind set_cache cache_at cache_v17 cache_testdummy]. intros [= Hv <-].
  set (d1 := bool_decide (s1 = LOCKED_IN) || bool_decide (s1 = STARTED)) in *.
  set (d2 := bool_decide (s2 = LOCKED_IN) || bool_decide (s2 = STARTED)) in *.
  destruct (version_step params DEPLOYMENT_TESTDUMMY d1 VERSIONBITS_TOP_BITS Hb1) as [Hr1 Ht1]; [unfold VERSIONBITS_TOP_BITS; lia|].
  destruct (version_step params DEPLOYMENT_V17 d2 _ Hb2 Hr1) as [Hr2 Ht2]. rewrite Hv in Hr2, Ht2.
  assert (forall j, 0 <= j < 29 -> Z.testbit VERSIONBITS_TOP_BITS j = false) as Htop.
  { intros j Hj. change VERSIONBITS_TOP_BITS with (2 ^ 29). apply Z.pow2_bits_false. lia. }
  clear Hv.
  intros [|]; cbn [cache_at cache_v17 cache_testdummy]; rewrite ?E1, ?E2; cbn [mbind option_bind set_cache cache_at cache_v17 cache_testdummy];
    (eexists _, _; split; [done|]; split; [done|]); rewrite vb_Condition_bit, Ht2, Ht1, Htop by done; unfold d1, d2.
  - rewrite Z.eqb_refl, (proj2 (Z.eqb_neq _ _)) by done. rewrite !andb_false_r, andb_true_r, ?orb_false_r, ?orb_false_l.
    rewrite orb_true_iff, !bool_decide_eq_true. tauto.
  - rewrite Z.eqb_refl, (proj2 (Z.eqb_neq _ _)) by congruence. rewrite !andb_false_r, andb_true_r, ?orb_false_r, ?orb_false_l.
    rewrite orb_true_iff, !bool_decide_eq_true. tauto.
Qed.

(** The number of signals asked for falls with the attempts from [nThresholdStart] to
    [nThresholdMin] and never leaves that range, as long as the products fit an [int]. *)
Theorem threshold_falloff (params : VBParams) (pos : DeploymentPos) (a a' : Z) :
  let d := vDeployments params pos in
  0 < nThresholdMin d <= nThresholdStart d -> nThresholdStart d < 2 ^ 31 -> 0 < nFalloffCoeff d -> 0 < vb_Period params pos ->
  0 <= a <= a' -> a' * a' * vb_Period params pos < 2 ^ 31 ->
  nThresholdMin d <= vb_Threshold params pos a' <= vb_Threshold params pos a /\
  vb_Threshold params pos a <= nThresholdStart d /\ vb_Threshold params pos 0 = nThresholdStart d /\
  (nThresholdStart d - nThresholdMin d <= a' * a' * vb_Period params pos / (100 * nFalloffCoeff d) ->
   vb_Threshold params pos a' = nThresholdMin d).
Proof.
  intros d Hmin Hstart Hcoeff HP Ha Hfit. set (P := vb_Period params pos) in *.
  assert (forall x, 0 <= x <= a' -> vb_Threshold params pos x = Z.max (nThresholdMin d) (nThresholdStart d - x * x * P / (100 * nFalloffCoeff d)) /\
    0 <= x * x * P / (100 * nFalloffCoeff d)) as HT.
  { intros x Hx. unfold vb_Threshold. fold d. fold P. rewrite !(proj2 (Z.eqb_neq _ _)) by lia. cbn [orb].
    assert (x * x * P <= a' * a' * P) by (apply Z.mul_le_mono_nonneg_r; nia).
    assert (x * x <= x * x * P) by nia.
    rewrite (sint_small 32 (x * x)), (sint_small 32 (x * x * P)) by (lia || (unfold in_sint; nia)).
    assert (0 <= x * x * P) by nia.
    assert (0 <= x * x * P / 100) by (apply Z.div_pos; lia).
    rewrite (Z.quot_div_nonneg _ 100), Z.quot_div_nonneg by lia. rewrite Z.div_div by lia.
    assert (0 <= x * x * P / (100 * nFalloffCoeff d) <= x * x * P).
    { split; [apply Z.div_pos; lia|]. apply Z.div_le_upper_bound; nia. }
    rewrite (sint_small 64), sint_small by (lia || (unfold in_sint; lia)). lia. }
  assert (a * a * P / (100 * nFalloffCoeff d) <= a' * a' * P / (100 * nFalloffCoeff d)) as Hmono.
  { apply Z.div_le_mono; [lia|]. apply Z.mul_le_mono_nonneg_r; nia. }
  destruct (HT a) as [-> ?]; [lia|]. destruct (HT a') as [-> ?]; [lia|]. destruct (HT 0) as [-> _]; [lia|].
  change (0 * 0 * P) with 0. rewrite Z.div_0_l by lia.
  set (u := a * a * P / _) in *. set (v := a' * a' * P / _) in *. clearbody u v. clear HT Hfit. lia.
Qed.

(** ** Script flags *)

Lemma dip0020_flag (p2sh dersig cltv csv nulldummy : bool) (s : ThresholdState) :
  let flags := if p2sh then SCRIPT_VERIFY_P2SH else SCRIPT_VERIFY_NONE in
  let flags := if dersig then flags ||| SCRIPT_VERIFY_DERSIG else flags in
  let flags := if cltv then flags ||| SCRIPT_VERIFY_CHECKLOCKTIMEVERIFY else flags in
  let flags := if csv then flags ||| SCRIPT_VERIFY_CHECKSEQUENCEVERIFY else flags in
  let flags := if nulldummy then flags ||| SCRIPT_VERIFY_NULLDUMMY else flags in
  flag (if decide (s = ACTIVE) then flags ||| SCRIPT_ENABLE_DIP0020_OPCODES else flags) SCRIPT_ENABLE_DIP0020_OPCODES =
  bool_decide (s = ACTIVE).
Proof. destruct p2sh, dersig, cltv, csv, nulldummy, s; vm_compute; reflexivity. Qed.

(** Once the scripts of a block may use the opcodes of DIP0020, those of every later block may. *)
Theorem dip0020_stays_enabled (params : VBParams) (st : store) (p q : ptr) (n : nat) (b : CBlockIndex) (f : Z) (cache : VersionBitsCache) :
  @lawful (VersionBitsConditionChecker params DEPLOYMENT_V17) st -> st !! p = Some b -> walk st q n = Some p ->
  GetBlockScriptFlags st p params (mkCaches ∅ ∅) = Some (f, cache) -> flag f SCRIPT_ENABLE_DIP0020_OPCODES = true ->
  exists f' cache', GetBlockScriptFlags st q params (mkCaches ∅ ∅) = Some (f', cache') /\ flag f' SCRIPT_ENABLE_DIP0020_OPCODES = true.
Proof.
  set (checker := VersionBitsConditionChecker params DEPLOYMENT_V17). intros Hlaw Hb Hw Hf Ht.
  pose proof (lawful_linked st Hlaw) as Hst. pose proof (lawful_period st Hlaw) as Hper.
  destruct (walk_source st Hlaw q n p b Hb Hw) as (c & Hc & _).
  unfold GetBlockScriptFlags, VersionBitsState, on_cache in *. rewrite Hb in Hf. rewrite Hc. cbn [mbind option_bind cache_at cache_v17] in *.
  fold checker in Hf |- *.
  assert (forall r e, st !! r = Some e -> exists cache, GetStateFor st (pprev e) ∅ = Some (state_after st (pprev e), cache)) as Hstate.
  { intros r e He. destruct (pprev e) as [x|] eqn:Ex; [|by eexists].
    destruct (linked_prev _ _ _ (Hst r e He) x Ex) as (ex & Hex & _). by apply (state_spec st Hlaw x ex). }
  destruct (Hstate p b Hb) as (c1 & E1). destruct (Hstate q c Hc) as (c2 & E2). rewrite E1 in Hf. rewrite E2.
  cbn [mbind option_bind] in *. eexists _, _. split; [done|]. injection Hf as <- _. rewrite dip0020_flag in Ht |- *.
  apply bool_decide_eq_true in Ht. apply bool_decide_eq_true. unfold state_after in Ht |- *.
  destruct (pprev b) as [x|] eqn:Ex; [|done]. cbn [mbind option_bind] in Ht. destruct (anchor st x) as [a|] eqn:Ea; [|done].
  destruct (linked_prev _ _ _ (Hst p b Hb) x Ex) as (bx & Hbx & _).
  assert (walk st q (S n) = Some x) as Hwx.
  { replace (S n) with (n + 1)%nat by lia. rewrite (walk_add st q n 1 p Hw). cbn [walk]. rewrite Hb. cbn [mbind option_bind]. by rewrite Ex. }
  cbn [walk] in Hwx. rewrite Hc in Hwx. cbn [mbind option_bind] in Hwx. destruct (pprev c) as [y|]; [|done]. cbn [mbind option_bind] in Hwx |- *.
  destruct (anchor_above st Hlaw x bx y n a Hbx Hwx Ea) as (a' & c' & -> & Hc' & Hab).
  rewrite (above_terminal st Hlaw a a' c' Hab Hc'); auto.
Qed.

(** ** Two branches *)

(** The deployment V17 of the test network. *)
Definition testnet_params : VBParams :=
  mkVBParams true true true true 1512 2016 (λ pos,
    match pos with
    | DEPLOYMENT_TESTDUMMY => mkDeployment 28 1199145601 1230767999 0 0 0 0
    | DEPLOYMENT_V17 => mkDeployment 0 1643670001 1675206001 100 80 60 5
    end).
Definition v17 : AbstractThresholdConditionChecker := VersionBitsConditionChecker testnet_params DEPLOYMENT_V17.

Definition timed_block (prev : option ptr) (h time version : Z) : CBlockIndex :=
  mkCBlockIndex None prev None h [] 0 version [] time 0 0 0 time.

(** a chain of 500 blocks that reaches the start time after its block 380, in which 79 of the
    blocks from 400 on signal, and a branch of ten blocks from its block 89 that reaches it at once *)
Definition main_block (h : nat) : CBlockIndex :=
  timed_block (if decide (h = 0%nat) then None else Some (h - 1)%nat) h
    ((if decide (h <= 380)%nat then 1600000000 else 1643670001) + h)
    (if decide (400 <= h < 479)%nat then 0x20000001 else 0x20000000).
Definition branch_block (i : nat) : CBlockIndex :=
  timed_block (Some (if decide (i = 0%nat) then 89%nat else (1090 + i - 1)%nat)) (90 + i) (1643670001 + i) 0x20000000.
Definition branch_store : store :=
  list_to_map (((λ h, (h, main_block h)) <$> seq 0 500) ++ ((λ i, ((1090 + i)%nat, branch_block i)) <$> seq 0 10)).

(** the laws of a store without skip pointers, decided *)
Definition linked_bool (st : store) (b : CBlockIndex) : bool :=
  (0 <=? nHeight b) && bool_decide (pskip b = None) && (nHeight b + 1 <? int_max) &&
  match pprev b with
  | None => nHeight b =? 0
  | Some q =>
      match st !! q with Some c => nHeight b =? nHeight c + 1 | None => false end &&
      match GetMedianTimePast st q with Some m => m <? GetBlockTime b | None => false end
  end.
Lemma linked_bool_laws (st : store) :
  forallb (λ pb, linked_bool st pb.2) (map_to_list st) = true ->
  linked st /\ times_rule st /\ forall p b, st !! p = Some b -> nHeight b + 1 < int_max.
Proof.
  intros H. assert (forall p b, st !! p = Some b -> linked_bool st b = true) as Hb.
  { intros p b Hp. rewrite forallb_forall in H. apply (H (p, b)), list_elem_of_In, elem_of_map_to_list, Hp. }
  clear H. split_and!.
  - intros p b Hp. specialize (Hb p b Hp). unfold linked_bool in Hb.
    destruct (pprev b) as [q|] eqn:Eq; [destruct (st !! q) as [c|] eqn:Ec|]; rewrite ?andb_true_iff in Hb;
      destruct Hb as (((H1 & H2) & H3) & H4); apply bool_decide_eq_true in H2; try done.
    + split; [lia| |congruence|congruence]. intros q' Hq'. rewrite Eq in Hq'. injection Hq' as <-. exists c. split; [done|lia].
    + by destruct H4.
    + split; [lia|congruence|intros _; lia|congruence].
  - intros p b q Hp Hq. specialize (Hb p b Hp). unfold linked_bool in Hb. rewrite Hq in Hb.
    rewrite !andb_true_iff in Hb. destruct Hb as (_ & _ & Hm). destruct (GetMedianTimePast st q) as [m|]; [|done].
    exists m. split; [done|lia].
  - intros p b Hp. specialize (Hb p b Hp). unfold linked_bool in Hb. rewrite !andb_true_iff in Hb. lia.
Qed.

Lemma branch_store_lawful : @lawful v17 branch_store.
Proof.
  destruct (linked_bool_laws branch_store) as (H1 & H2 & H3); [vm_compute; reflexivity|].
  by split; [done|done|vm_compute|vm_compute|done].
Qed.

(** Queries about two branches, on a store and with parameters that satisfy every law: asked after
    the block 399 of its own branch, the deployment is STARTED for the block after 499; asked also
    after the block 1099 of another branch, it is LOCKED_IN, because the attempts are counted from
    the start of the deployment on the other branch. *)
Theorem branches_change_state :
  @lawful v17 branch_store /\
  fst <$> @do_queries v17 branch_store [QState (Some 399%nat); QState (Some 499%nat)] ∅ = Some [AState STARTED; AState STARTED] /\
  fst <$> @do_queries v17 branch_store [QState (Some 1099%nat); QState (Some 399%nat); QState (Some 499%nat)] ∅ =
    Some [AState STARTED; AState STARTED; AState LOCKED_IN].
Proof. split; [exact branch_store_lawful|]. split; vm_compute; reflexivity. Qed.

(** ** Examples *)




(** a chain of 16 blocks that all signal, with periods of two blocks *)
Definition short_params : VBParams :=
  mkVBParams true true true true 1512 2016 (λ pos,
    match pos with
    | DEPLOYMENT_TESTDUMMY => mkDeployment 28 0 1 0 0 0 0
    | DEPLOYMENT_V17 => mkDeployment 0 10 75 2 1 1 1
    end).
Definition short_checker : AbstractThresholdConditionChecker := VersionBitsConditionChecker short_params DEPLOYMENT_V17.
Definition short_block (h : nat) : CBlockIndex :=
  timed_block (if decide (h = 0%nat) then None else Some (h - 1)%nat) h (10 * h) 0x20000001.
Definition short_store : store := list_to_map ((λ h, (h, short_block h)) <$> seq 0 16).
Lemma short_store_lawful : @lawful short_checker short_store.
Proof.
  destruct (linked_bool_laws short_store) as (H1 & H2 & H3); [vm_compute; reflexivity|].
  by split; [done|done|vm_compute|vm_compute|done].
Qed.

Lemma deployment_decided_witness :
  (exists s cache, (s = ACTIVE \/ s = FAILED) /\ @GetStateFor short_checker short_store (Some 15%nat) ∅ = Some (s, cache)) /\
  exists cache, @GetStateFor short_checker short_store (Some 6%nat) ∅ = Some (ACTIVE, cache).
Proof.
  split.
  - destruct (@deployment_decided short_checker short_store 14 13 (short_block 14)) as [H _];
      [exact short_store_lawful|vm_compute; reflexivity..|].
    destruct (H 80) as (s & Hs & Hq); [vm_compute; reflexivity|vm_compute; discriminate|].
    destruct (Hq 15%nat 1%nat) as (cache & E); [vm_compute; reflexivity|]. exists s, cache. split; [exact Hs|exact E].
  - destruct (@deployment_decided short_checker short_store 4 3 (short_block 4)) as [_ H];
      [exact short_store_lawful|vm_compute; reflexivity..|].
    apply (H (default ∅ (snd <$> @GetStateFor short_checker short_store (Some 4%nat) ∅)) 6%nat); vm_compute; reflexivity.
Defined.

Lemma statistics_first_period_witness : @GetStateStatisticsFor short_checker short_store (Some 0%nat) ∅ = None.
Proof.
  apply (@statistics_first_period short_checker short_store 0 (short_block 0)); [exact short_store_lawful|vm_compute; reflexivity..].
Defined.

Lemma block_version_signals_witness :
  exists s c, VersionBitsState branch_store (Some 450%nat) testnet_params DEPLOYMENT_V17 (mkCaches ∅ ∅) = Some (s, c) /\
    (vb_Condition testnet_params DEPLOYMENT_V17 (timed_block None 0 0 0x20000001) = true <-> s = STARTED \/ s = LOCKED_IN).
Proof.
  destruct (block_version_signals branch_store (Some 450%nat) testnet_params (mkCaches ∅ ∅)
    (default (mkCaches ∅ ∅) (snd <$> ComputeBlockVersion branch_store (Some 450%nat) testnet_params (mkCaches ∅ ∅)))
    (timed_block None 0 0 0x20000001)) with (pos := DEPLOYMENT_V17) as (s & c & Hs & _ & Hc).
  - intros [|]; vm_compute; split; (discriminate || reflexivity).
  - vm_compute. discriminate.
  - vm_compute. reflexivity.
  - exists s, c. split; [exact Hs|exact Hc].
Defined.

Lemma threshold_falloff_witness :
  60 <= vb_Threshold testnet_params DEPLOYMENT_V17 10 <= vb_Threshold testnet_params DEPLOYMENT_V17 3 /\
  vb_Threshold testnet_params DEPLOYMENT_V17 10 = 60.
Proof.
  destruct (threshold_falloff testnet_params DEPLOYMENT_V17 3 10) as (H1 & _ & _ & H2);
    [vm_compute; split; (discriminate || reflexivity)|vm_compute; reflexivity..|lia|vm_compute; reflexivity|].
  split; [exact H1|]. apply H2. vm_compute. discriminate.
Defined.

Lemma dip0020_stays_enabled_witness :
  exists f' cache', GetBlockScriptFlags short_store 8 short_params (mkCaches ∅ ∅) = Some (f', cache') /\
    flag f' SCRIPT_ENABLE_DIP0020_OPCODES = true.
Proof.
  set (r := GetBlockScriptFlags short_store 6 short_params (mkCaches ∅ ∅)).
  apply (dip0020_stays_enabled short_params short_store 6 8 2 (short_block 6) (default 0 (fst <$> r)) (default (mkCaches ∅ ∅) (snd <$> r)));
    [exact short_store_lawful|vm_compute; reflexivity..].
Defined.
