(* ===== verification/Base58.v ===== *)
(** * Base58: base58.h, base58.cpp

    Byte vectors as strings of 58 characters, with and without a checksum.  Strings are lists of
    character codes.  The buffers [b256] and [b58] are kept in the order in which the loops walk
    them, from their end.  The outer option of a result is a failed assertion. *)

From Stdlib Require Import Ascii String.
From S2P Require Import Prelude Bytes BlockHash Uint256 Sha256 Hash.

Definition chars (s : string) : list Z := (λ a, Z.of_nat (nat_of_ascii a)) <$> list_ascii_of_string s.
(** [c_str()], up to the terminating zero *)
Fixpoint c_str (str : list Z) : list Z :=
  match str with c :: str => if c =? 0 then [] else c :: c_str str | [] => [] end.

Definition pszBase58 : list Z := chars "123456789ABCDEFGHJKLMNPQRSTUVWXYZabcdefghijkmnopqrstuvwxyz".
Definition mapBase58 : list Z :=
  replicate 49 (-1) ++ seqZ 0 9 ++ replicate 7 (-1) ++ seqZ 9 8 ++ [-1] ++ seqZ 17 5 ++ [-1] ++ seqZ 22 11 ++
  replicate 6 (-1) ++ seqZ 33 11 ++ [-1] ++ seqZ 44 14 ++ replicate 133 (-1).

(** the inner loop: [b = b * mul + carry] in digits of [base]; the new digits, the carry left and [i] *)
Fixpoint muladd (mul base : Z) (b : list Z) (carry i length : Z) : list Z * Z * Z :=
  match b with
  | [] => ([], carry, i)
  | x :: b' =>
      if negb (carry =? 0) || (i <? length) then
        let carry := carry + mul * x in
        let '(b', carry', i) := muladd mul base b' (carry / base) (i + 1) length in
        (carry `mod` base :: b', carry', i)
      else (b, carry, i)
  end.

Fixpoint skip_leading (c : Z) (l : list Z) : list Z :=
  match l with x :: l' => if x =? c then skip_leading c l' else l | [] => [] end.
(** the loops that skip and count: how many, and the rest *)
Fixpoint count_leading (c : Z) (l : list Z) : nat * list Z :=
  match l with
  | x :: l' => if x =? c then let '(n, l') := count_leading c l' in (S n, l') else (0%nat, l)
  | [] => (0%nat, [])
  end.

(** the loop over the characters: the buffer, its length and what follows *)
Fixpoint decode_loop (psz : list Z) (b256 : list Z) (length : Z) : option (option (list Z * Z * list Z)) :=
  match psz with
  | [] => Some (Some (b256, length, []))
  | c :: psz' =>
      if isspace c then Some (Some (b256, length, psz))
      else
        let carry := mapBase58 !!! Z.to_nat (u8 c) in
        if carry =? -1 then Some None
        else
          let '(b256, carry, i) := muladd 58 256 b256 carry 0 length in
          if carry =? 0 then decode_loop psz' b256 i else None
  end.

(** [psz] is the string up to its zero *)
Definition DecodeBase58 (psz : list Z) : option (option (list Z)) :=
  let psz := Blob.skip_spaces psz in
  let '(zeroes, psz) := count_leading 49 psz in
  let size := i32 (Z.of_nat (List.length psz) * 733 / 1000 + 1) in
  r ← decode_loop psz (replicate (Z.to_nat size) 0) 0;
  match r with
  | None => Some None
  | Some (b256, length, psz) =>
      match Blob.skip_spaces psz with
      | _ :: _ => Some None
      | [] => Some (Some (replicate zeroes 0 ++ skip_leading 0 (rev (take (Z.to_nat length) b256))))
      end
  end.

Fixpoint encode_loop (p : list Z) (b58 : list Z) (length : Z) : option (list Z * Z) :=
  match p with
  | [] => Some (b58, length)
  | x :: p =>
      let '(b58, carry, i) := muladd 256 58 b58 x 0 length in
      if carry =? 0 then encode_loop p b58 i else None
  end.

Definition EncodeBase58 (p : list Z) : option (list Z) :=
  let '(zeroes, p) := count_leading 0 p in
  let size := i32 (Z.of_nat (List.length p) * 138 / 100 + 1) in
  '(b58, length) ← encode_loop p (replicate (Z.to_nat size) 0) 0;
  Some (replicate zeroes 49 ++ ((λ x, pszBase58 !!! Z.to_nat x) <$> skip_leading 0 (rev (take (Z.to_nat length) b58)))).

Section check.
Context (D : Sha256.dispatch).

Definition EncodeBase58Check (vchIn : list Z) : option (list Z) :=
  let hash := Hash D [vchIn] in EncodeBase58 (vchIn ++ take 4 hash).

Definition DecodeBase58Check (psz : list Z) : option (option (list Z)) :=
  r ← DecodeBase58 psz;
  match r with
  | None => Some None
  | Some vchRet =>
      if (List.length vchRet <? 4)%nat then Some None
      else
        let hash := Hash D [take (List.length vchRet - 4) vchRet] in
        if decide (take 4 hash = drop (List.length vchRet - 4) vchRet)
        then Some (Some (take (List.length vchRet - 4) vchRet)) else Some None
  end.
End check.
