(* ===== verification/Base58Laws.v ===== *)
(** * Base58: decoding inverts encoding, and nothing else is accepted *)

From S2P Require Import Prelude Bytes BlockHash Uint256 ShaSpec Sha256 Sha256Laws Hash MerkleLaws Base58.

(** ** Numbers in a base *)

Lemma last_rev {A} (l : list A) : last (rev l) = head l.
Proof. rewrite List.rev_alt. apply last_reverse. Qed.

Section digits.
Context (B : Z) (HB : 1 < B).
Implicit Types l : list Z.

Definition digits l : Prop := Forall (λ x, 0 <= x < B) l.
(** least significant digit first, and most significant digit first *)
Fixpoint val l : Z := match l with [] => 0 | x :: l => x + B * val l end.
Definition be l : Z := foldl (λ a x, a * B + x) 0 l.

Lemma val_app l1 l2 : val (l1 ++ l2) = val l1 + B ^ length l1 * val l2.
Proof.
  induction l1 as [|x l1 IH]; cbn [app val length]; [lia|]. rewrite IH.
  rewrite Nat2Z.inj_succ, Z.pow_succ_r by lia. lia.
Qed.

Lemma be_snoc l x : be (l ++ [x]) = be l * B + x.
Proof. unfold be. by rewrite foldl_app. Qed.

Lemma be_val l : be l = val (rev l).
Proof.
  induction l as [|x l IH] using rev_ind; [done|]. rewrite be_snoc, rev_app_distr. cbn [rev app val]. lia.
Qed.

Lemma val_be l : val l = be (rev l).
Proof. by rewrite be_val, rev_involutive. Qed.

Lemma val_nonneg l : digits l -> 0 <= val l.
Proof. induction 1; cbn [val]; nia. Qed.

Lemma val_bound l : digits l -> val l < B ^ length l.
Proof.
  induction 1 as [|x l Hx _ IH]; cbn [val length]; [done|]. rewrite Nat2Z.inj_succ, Z.pow_succ_r by lia. nia.
Qed.

Lemma digits_rev l : digits l -> digits (rev l).
Proof. apply Forall_rev. Qed.

Lemma val_zeros l : Forall (λ x, x = 0) l -> val l = 0.
Proof. induction 1; cbn [val]; lia. Qed.

Lemma val_0 l : digits l -> val l = 0 -> Forall (λ x, x = 0) l.
Proof.
  induction 1 as [|x l Hx Hl IH]; cbn [val]; intros H0; [constructor|].
  pose proof (val_nonneg l Hl). constructor; [nia|apply IH; nia].
Qed.

(** Digits without a leading zero are determined by the number. *)
Lemma val_inj l1 l2 : digits l1 -> digits l2 -> last l1 <> Some 0 -> last l2 <> Some 0 -> val l1 = val l2 -> l1 = l2.
Proof.
  assert (forall l, digits l -> last l <> Some 0 -> val l = 0 -> l = []) as H0.
  { intros l Hl Hlast Hv. apply val_0 in Hv; [|done]. destruct (last l) as [x|] eqn:E; [|by apply last_None in E].
    apply last_Some in E as [l' ->]. apply Forall_app in Hv as [_ Hx]. inversion Hx; congruence. }
  assert (forall (x : Z) l, last (x :: l) <> Some 0 -> last l <> Some 0) as Htail.
  { intros x l H. destruct l; [done|]. exact H. }
  intros H1. revert l2. induction H1 as [|x l1 Hx H1 IH]; intros l2 H2 Hl1 Hl2 Hv.
  { symmetry. apply H0; done. }
  destruct H2 as [|y l2 Hy H2]; [apply H0; [by constructor|done|done]|]. cbn [val] in Hv.
  assert (x = y /\ val l1 = val l2) as [-> Hv'].
  { assert (x = y) by (apply (f_equal (λ z, z `mod` B)) in Hv; rewrite !(Z.mul_comm B), !Z.mod_add, !Z.mod_small in Hv by lia; done).
    split; [done|nia]. }
  f_equal. apply IH; eauto.
Qed.

Lemma skip_leading_split l : exists n, l = replicate n 0 ++ skip_leading 0 l /\ head (skip_leading 0 l) <> Some 0.
Proof.
  induction l as [|x l (n & Hl & Hh)]; [by exists 0%nat|]. cbn [skip_leading]. destruct (Z.eqb_spec x 0) as [->|Hx].
  - exists (S n). cbn [replicate app]. by rewrite <- Hl.
  - exists 0%nat. split; [done|]. simpl. congruence.
Qed.

Lemma be_skip_leading l : be (skip_leading 0 l) = be l.
Proof.
  destruct (skip_leading_split l) as (n & Hl & _). rewrite Hl at 2. rewrite !be_val, rev_app_distr, val_app.
  rewrite (val_zeros (rev (replicate _ _))); [by rewrite Z.mul_0_r, Z.add_0_r|]. apply Forall_rev, Forall_replicate. done.
Qed.

Lemma digits_skip_leading l : digits l -> digits (skip_leading 0 l).
Proof. destruct (skip_leading_split l) as (n & Hl & _). rewrite Hl at 1. intros H. by apply Forall_app in H as [_ H]. Qed.

Lemma be_lower l : digits l -> l <> [] -> head l <> Some 0 -> B ^ (length l - 1) <= be l.
Proof.
  intros Hl Hne Hh. destruct Hl as [|x l Hx Hl]; [done|]. rewrite be_val. cbn [rev]. rewrite val_app, length_rev.
  cbn [length val]. replace (S (length l) - 1) with (Z.of_nat (length l)) by lia. simpl in Hh.
  pose proof (val_nonneg (rev l) (digits_rev l Hl)). pose proof (Z.pow_pos_nonneg B (length l)).
  assert (x <> 0) by congruence. nia.
Qed.

Lemma be_inj l1 l2 : digits l1 -> digits l2 -> head l1 <> Some 0 -> head l2 <> Some 0 -> be l1 = be l2 -> l1 = l2.
Proof.
  intros H1 H2 Hh1 Hh2 Hv. rewrite !be_val in Hv. apply val_inj in Hv; [|by apply digits_rev|by apply digits_rev| |].
  - rewrite <- (rev_involutive l1), <- (rev_involutive l2). by f_equal.
  - by rewrite last_rev.
  - by rewrite last_rev.
Qed.
End digits.

(** A number without leading zeroes is at most twice as long in a base of at least the root. *)
Lemma be_length B B' l l' :
  1 < B -> B' <= B * B -> 1 < B' -> digits B l -> digits B' l' -> head l <> Some 0 -> be B l = be B' l' -> (length l <= 2 * length l')%nat.
Proof.
  intros HB HBB HB' Hl Hl' Hh E. destruct (decide (length l <= 2 * length l')%nat) as [|Hlt]; [done|exfalso].
  assert (l <> []) as Hne by (intros ->; simpl in Hlt; lia).
  pose proof (be_lower B HB l Hl Hne Hh) as H1. rewrite E, be_val in H1.
  pose proof (val_bound B' HB' (rev l') (digits_rev B' l' Hl')) as H2. rewrite length_rev in H2.
  assert (B' ^ length l' <= B ^ (length l - 1)) as H3; [|lia].
  etrans; [apply Z.pow_le_mono_l; split; [lia|exact HBB]|]. replace (B * B) with (B ^ 2) by lia.
  rewrite <- Z.pow_mul_r by lia. apply Z.pow_le_mono_r; lia.
Qed.

(** ** The inner loop *)

Definition zero_from (n : Z) (b : list Z) : Prop := Forall (λ x, x = 0) (drop (Z.to_nat n) b).

Lemma muladd_spec mul base b carry i len :
  0 <= mul -> 1 < base -> digits base b -> 0 <= carry -> zero_from (len - i) b ->
  mul * val base b + carry < base ^ length b ->
  exists b' i', muladd mul base b carry i len = (b', 0, i') /\ digits base b' /\ length b' = length b /\
    val base b' = mul * val base b + carry /\ 0 <= i' - i <= length b /\ zero_from (i' - i) b'.
Proof.
  intros Hmul Hbase Hb. revert carry i. induction Hb as [|x b Hx Hb IH]; intros carry i Hc Hz Hlt; cbn [muladd].
  { cbn in Hlt. exists [], i. assert (carry = 0) as -> by lia. unfold zero_from, digits. cbn [val length]. split_and!; try done; try lia. by rewrite drop_nil. }
  cbn [val length] in Hlt. rewrite Nat2Z.inj_succ, Z.pow_succ_r in Hlt by lia.
  destruct (negb (carry =? 0) || (i <? len)) eqn:E.
  - set (c := carry + mul * x). assert (0 <= c) by (unfold c; nia).
    pose proof (Z.div_mod c base ltac:(lia)) as Hdiv. pose proof (Z.mod_pos_bound c base ltac:(lia)) as Hmod.
    destruct (IH (c / base) (i + 1)) as (b' & i' & -> & Hb' & Hl & Hv & Hi & Hz').
    + apply Z.div_pos; lia.
    + unfold zero_from in *. destruct (decide (len - i <= 0)).
      * replace (Z.to_nat (len - (i + 1))) with 0%nat by lia. replace (Z.to_nat (len - i)) with 0%nat in Hz by lia.
        by apply Forall_cons in Hz as [_ Hz].
      * replace (Z.to_nat (len - i)) with (S (Z.to_nat (len - (i + 1)))) in Hz by lia. exact Hz.
    + assert (base * (mul * val base b + c / base) < base * base ^ length b) as Hlt'; [unfold c in *; nia|].
      apply Z.mul_lt_mono_pos_l in Hlt'; lia.
    + exists (c `mod` base :: b'), i'. cbn [length val]. split; [done|]. split; [by constructor|]. split; [congruence|].
      split; [unfold c in *; nia|]. split; [lia|]. unfold zero_from in *.
      replace (Z.to_nat (i' - i)) with (S (Z.to_nat (i' - (i + 1)))) by lia. exact Hz'.
  - apply orb_false_elim in E as [E1 E2]. apply negb_false_iff, Z.eqb_eq in E1. apply Z.ltb_ge in E2. subst carry.
    unfold zero_from in Hz. replace (Z.to_nat (len - i)) with 0%nat in Hz by lia. rewrite drop_0 in Hz.
    exists (x :: b), i. split; [done|]. split; [by constructor|]. split; [done|].
    pose proof (val_zeros base _ Hz) as ->. split; [lia|]. split; [lia|]. unfold zero_from. rewrite Z.sub_diag. exact Hz.
Qed.

(** the digits of a number fed into a buffer, one at a time *)
Fixpoint feed (mul base : Z) (ds b : list Z) (len : Z) : option (list Z * Z) :=
  match ds with
  | [] => Some (b, len)
  | d :: ds =>
      let '(b, carry, i) := muladd mul base b d 0 len in
      if carry =? 0 then feed mul base ds b i else None
  end.

Lemma feed_spec mul base ds b len :
  1 < mul -> 1 < base -> digits mul ds -> digits base b -> 0 <= len <= length b -> zero_from len b ->
  foldl (λ a x, a * mul + x) (val base b) ds < base ^ length b ->
  exists b' len', feed mul base ds b len = Some (b', len') /\ digits base b' /\ 0 <= len' <= length b' /\ zero_from len' b' /\
    val base b' = foldl (λ a x, a * mul + x) (val base b) ds.
Proof.
  intros Hmul Hbase Hds. revert b len. induction Hds as [|d ds Hd Hds IH]; intros b len Hb Hlen Hz Hlt; cbn [feed foldl] in *.
  { exists b, len. done. }
  pose proof (val_nonneg base Hbase b Hb).
  assert (val base b * mul + d <= foldl (λ a x, a * mul + x) (val base b * mul + d) ds) as Hmono.
  { assert (0 <= val base b * mul + d) as Hv0 by nia. revert Hv0. generalize (val base b * mul + d). clear - Hds Hmul.
    induction Hds as [|x ds Hx _ IH]; intros v Hv; cbn [foldl]; [lia|]. specialize (IH (v * mul + x) ltac:(nia)). nia. }
  destruct (muladd_spec mul base b d 0 len) as (b' & i' & -> & Hb' & Hl & Hv & Hi & Hz'); try lia; [done|by rewrite Z.sub_0_r|].
  rewrite Z.sub_0_r in *. cbn [Z.eqb]. rewrite <- Hl in Hi.
  destruct (IH b' i' Hb' Hi Hz') as (b2 & len2 & -> & H2 & Hl2 & Hz2 & Hv2).
  { rewrite Hv, Hl, (Z.mul_comm mul). done. }
  exists b2, len2. split_and!; try done; try lia. rewrite Hv2, Hv, (Z.mul_comm mul). done.
Qed.

(** Feeding into an empty buffer that is large enough gives the digits of the number. *)
Lemma feed_digits mul base ds (n : nat) :
  1 < mul -> 1 < base -> digits mul ds -> mul ^ length ds <= base ^ n ->
  exists b len, feed mul base ds (replicate n 0) 0 = Some (b, len) /\
    let r := skip_leading 0 (rev (take (Z.to_nat len) b)) in
    digits base r /\ head r <> Some 0 /\ be base r = be mul ds.
Proof.
  intros Hmul Hbase Hds Hfit.
  assert (val base (replicate n 0) = 0) as H0 by (apply val_zeros, Forall_replicate; done).
  destruct (feed_spec mul base ds (replicate n 0) 0) as (b & len & Hf & Hb & Hlen & Hz & Hv); try done.
  - apply Forall_replicate. lia.
  - rewrite length_replicate. lia.
  - unfold zero_from. rewrite drop_0. by apply Forall_replicate.
  - rewrite H0, length_replicate. change (be mul ds < base ^ n). rewrite be_val.
    pose proof (val_bound mul Hmul (rev ds) (digits_rev mul ds Hds)) as Hbd. rewrite length_rev in Hbd. lia.
  - exists b, len. split; [done|]. cbv zeta. rewrite H0 in Hv. change (val base b = be mul ds) in Hv.
    assert (digits base (rev (take (Z.to_nat len) b))) as Hr by (apply digits_rev, Forall_take, Hb).
    split; [by apply digits_skip_leading|]. split; [by destruct (skip_leading_split (rev (take (Z.to_nat len) b))) as (? & _ & ?)|].
    rewrite be_skip_leading, <- val_be, <- Hv. rewrite <- (take_drop (Z.to_nat len) b) at 2. rewrite val_app.
    rewrite (val_zeros base (drop _ _) Hz). lia.
Qed.

(** ** The buffers are large enough *)

Lemma pow_size a b p q (n : nat) :
  1 < a -> 1 < b -> 0 < q -> 0 <= p -> a ^ q <= b ^ p -> a ^ n <= b ^ (n * p / q + 1).
Proof.
  intros Ha Hb Hq Hp Hab. destruct (Z.le_gt_cases (a ^ n) (b ^ (n * p / q + 1))) as [|Hlt]; [done|exfalso].
  assert (0 <= n * p / q) as Hd by (apply Z.div_pos; nia).
  pose proof (Z.pow_nonneg b (n * p / q + 1) ltac:(lia)) as H0.
  pose proof (Z.pow_lt_mono_l _ _ q Hq (conj H0 Hlt)) as Hlt'. clear Hlt. rename Hlt' into Hlt.
  rewrite <- !Z.pow_mul_r in Hlt by lia.
  assert (b ^ (n * p) <= b ^ ((n * p / q + 1) * q)) as H1.
  { apply Z.pow_le_mono_r; [lia|]. pose proof (Z.mod_pos_bound (n * p) q Hq). pose proof (Z.div_mod (n * p) q ltac:(lia)). nia. }
  assert (a ^ (n * q) <= b ^ (n * p)) as H2.
  { rewrite (Z.mul_comm n q), (Z.mul_comm n p), !Z.pow_mul_r by lia. apply Z.pow_le_mono_l. split; [apply Z.pow_nonneg; lia|done]. }
  lia.
Qed.

Lemma size_256 (n : nat) : n < 2 ^ 30 ->
  exists k : nat, Z.to_nat (i32 (n * 733 / 1000 + 1)) = k /\ 58 ^ n <= 256 ^ k.
Proof.
  intros Hn. eexists. split; [done|]. assert (0 <= n * 733 / 1000 <= n) by (split; [apply Z.div_pos; lia|apply Z.div_le_upper_bound; lia]).
  rewrite sint_small by (lia || (unfold in_sint; lia)). rewrite Z2Nat.id by lia.
  apply pow_size; lia || (apply Z.leb_le; vm_compute; reflexivity).
Qed.

Lemma size_58 (n : nat) : n < 2 ^ 30 ->
  exists k : nat, Z.to_nat (i32 (n * 138 / 100 + 1)) = k /\ 256 ^ n <= 58 ^ k.
Proof.
  intros Hn. eexists. split; [done|]. assert (0 <= n * 138 / 100 <= n * 3 / 2) by (split; [apply Z.div_pos; lia|apply Z.div_le_lower_bound; [lia|]; lia_mod]).
  rewrite sint_small by (lia || (unfold in_sint; lia_mod)). rewrite Z2Nat.id by lia.
  apply pow_size; lia || (apply Z.leb_le; vm_compute; reflexivity).
Qed.

(** ** Characters *)

Definition ch (d : Z) : Z := pszBase58 !!! Z.to_nat d.
Definition dig (c : Z) : Z := mapBase58 !!! Z.to_nat (u8 c).
Definition valid (c : Z) : Prop := is_byte c /\ isspace c = false /\ dig c <> -1.

Lemma ch_spec d : 0 <= d < 58 -> dig (ch d) = d /\ isspace (ch d) = false /\ is_byte (ch d) /\ (ch d = 49 -> d = 0).
Proof.
  intros Hd. assert (forallb (λ d, (dig (ch d) =? d) && negb (isspace (ch d)) && ((0 <=? ch d) && (ch d <? 256)) &&
    (negb (ch d =? 49) || (d =? 0))) (seqZ 0 58) = true) as H by (vm_compute; reflexivity).
  rewrite forallb_forall in H. specialize (H d). rewrite <- list_elem_of_In, elem_of_seqZ in H. specialize (H ltac:(lia)).
  rewrite !andb_true_iff, orb_true_iff, !negb_true_iff in H. destruct H as (((H1 & H2) & H3) & H4).
  split; [lia|]. split; [done|]. split; [change (0 <= ch d < 256); lia|]. intros E. rewrite E in H4. simpl in H4. lia.
Qed.

Lemma dig_spec c : valid c -> 0 <= dig c < 58 /\ ch (dig c) = c.
Proof.
  intros (Hc & _ & Hd).
  pose proof (byte_forall (λ c, (dig c =? -1) || ((0 <=? dig c) && (dig c <? 58) && (ch (dig c) =? c))) ltac:(vm_compute; reflexivity) c Hc) as H.
  cbn beta in H. rewrite orb_true_iff, !andb_true_iff in H. lia.
Qed.

Lemma ch_valid d : 0 <= d < 58 -> valid (ch d).
Proof. intros Hd. destruct (ch_spec d Hd) as (H1 & H2 & H3 & _). split; [done|]. split; [done|]. rewrite H1. lia. Qed.

Lemma valid_bytes cs : Forall valid cs -> bytes cs.
Proof. intros H. eapply List.Forall_impl; [|exact H]. intros c Hc. apply Hc. Qed.

Lemma valid_nonzero cs : Forall valid cs -> Forall (λ c, c <> 0) cs.
Proof. intros H. eapply List.Forall_impl; [|exact H]. intros c (_ & _ & Hd) ->. by apply Hd. Qed.

Lemma digits_dig cs : Forall valid cs -> digits 58 (dig <$> cs).
Proof. intros H. apply Forall_fmap. eapply List.Forall_impl; [|exact H]. intros c Hc. by apply dig_spec. Qed.

Lemma ch_dig cs : Forall valid cs -> ch <$> (dig <$> cs) = cs.
Proof. induction 1 as [|c cs Hc _ IH]; [done|]. cbn [fmap list_fmap]. destruct (dig_spec c Hc) as [_ ->]. by f_equal. Qed.

Lemma dig_ch ds : digits 58 ds -> dig <$> (ch <$> ds) = ds.
Proof. induction 1 as [|d ds Hd _ IH]; [done|]. cbn [fmap list_fmap]. destruct (ch_spec d Hd) as [-> _]. by f_equal. Qed.

Lemma head_dig cs : Forall valid cs -> head cs <> Some 49 -> head (dig <$> cs) <> Some 0.
Proof.
  intros H Hh. destruct H as [|c cs Hc _]; [done|]. simpl in *. intros [= E]. apply Hh. f_equal.
  destruct (dig_spec c Hc) as [_ <-]. rewrite E. reflexivity.
Qed.

Lemma head_ch ds : digits 58 ds -> head ds <> Some 0 -> head (ch <$> ds) <> Some 49.
Proof.
  intros H Hh. destruct H as [|d ds Hd _]; [done|]. simpl in *. intros [= E]. apply Hh. f_equal. by apply ch_spec.
Qed.

(** ** The loops that skip *)

Definition spaces (l : list Z) : Prop := Forall (λ c, isspace c = true) l.

Lemma skip_spaces_app sp l : spaces sp -> Blob.skip_spaces (sp ++ l) = Blob.skip_spaces l.
Proof. induction 1 as [|c sp Hc _ IH]; [done|]. cbn [app Blob.skip_spaces]. by rewrite Hc. Qed.

Lemma skip_spaces_spec l : exists sp, l = sp ++ Blob.skip_spaces l /\ spaces sp /\ (forall c, head (Blob.skip_spaces l) = Some c -> isspace c = false).
Proof.
  induction l as [|c l (sp & Hl & Hsp & Hh)]; [by exists []; split; [|split; [constructor|]]|]. cbn [Blob.skip_spaces].
  destruct (isspace c) eqn:E; [exists (c :: sp)|exists []].
  - cbn [app]. rewrite <- Hl. split; [done|]. by split; [constructor|].
  - split; [done|]. split; [constructor|]. simpl. congruence.
Qed.

Lemma skip_spaces_all sp : spaces sp -> Blob.skip_spaces sp = [].
Proof. intros H. by rewrite <- (app_nil_r sp), (skip_spaces_app sp []). Qed.

Lemma count_leading_app c (n : nat) l : head l <> Some c -> count_leading c (replicate n c ++ l) = (n, l).
Proof.
  intros Hh. induction n as [|n IH]; cbn [replicate app].
  - destruct l as [|x l]; [done|]. cbn [count_leading]. destruct (Z.eqb_spec x c); [subst; done|done].
  - cbn [count_leading]. by rewrite Z.eqb_refl, IH.
Qed.

Lemma count_leading_spec c l : exists n r, count_leading c l = (n, r) /\ l = replicate n c ++ r /\ head r <> Some c.
Proof.
  induction l as [|x l (n & r & Hc & Hl & Hh)]; [by exists 0%nat, []|]. cbn [count_leading]. destruct (Z.eqb_spec x c) as [->|Hx].
  - rewrite Hc. exists (S n), r. cbn [replicate app]. by rewrite <- Hl.
  - exists 0%nat, (x :: l). split; [done|]. split; [done|]. simpl. congruence.
Qed.

(** ** The strings that are accepted *)

Lemma decode_loop_app cs rest b len :
  Forall valid cs ->
  decode_loop (cs ++ rest) b len = '(b, len) ← feed 58 256 (dig <$> cs) b len; decode_loop rest b len.
Proof.
  intros H. revert b len. induction H as [|c cs (Hc & Hs & Hd) _ IH]; intros b len; [done|].
  cbn [app decode_loop fmap list_fmap feed]. rewrite Hs. fold (dig c). rewrite (proj2 (Z.eqb_neq _ _)) by done.
  fold (@fmap list list_fmap). destruct (muladd 58 256 b (dig c) 0 len) as [[b' carry] i]. destruct (carry =? 0); [|done]. by rewrite IH.
Qed.

(** where the loop over the characters stops *)
Lemma split_valid psz : bytes psz -> exists cs rest, psz = cs ++ rest /\ Forall valid cs /\
  (forall c, head rest = Some c -> isspace c = true \/ dig c = -1).
Proof.
  induction 1 as [|c psz Hc _ (cs & rest & -> & Hcs & Hr)]; [by exists [], []|].
  destruct (isspace c) eqn:Es; [exists [], (c :: cs ++ rest)|destruct (decide (dig c = -1)) as [Ed|Ed]; [exists [], (c :: cs ++ rest)|exists (c :: cs), rest]].
  - split; [done|]. split; [constructor|]. intros ? [= <-]. by left.
  - split; [done|]. split; [constructor|]. intros ? [= <-]. by right.
  - split; [done|]. split; [by constructor|done].
Qed.

(** What decoding gives for a string of valid characters with spaces around it. *)
Lemma decode_valid sp1 (z : nat) cs sp2 :
  spaces sp1 -> spaces sp2 -> Forall valid cs -> head cs <> Some 49 ->
  length (replicate z 49 ++ cs ++ sp2) < 2 ^ 30 ->
  exists n, DecodeBase58 (sp1 ++ replicate z 49 ++ cs ++ sp2) = Some (Some (replicate z 0 ++ n)) /\
    digits 256 n /\ head n <> Some 0 /\ be 256 n = be 58 (dig <$> cs).
Proof.
  intros Hsp1 Hsp2 Hcs Hh Hlen. unfold DecodeBase58. rewrite skip_spaces_app by done.
  assert (exists sp3, Blob.skip_spaces (replicate z 49 ++ cs ++ sp2) = replicate z 49 ++ cs ++ sp3 /\ spaces sp3 /\ (length sp3 <= length sp2)%nat) as (sp3 & -> & Hsp3 & Hl3).
  { destruct z as [|z]; [|by exists sp2]. destruct cs as [|c cs].
    - exists []. cbn [replicate app]. rewrite skip_spaces_all by done. split; [done|]. split; [constructor|simpl; lia].
    - exists sp2. cbn [replicate app Blob.skip_spaces]. apply Forall_cons in Hcs as [(_ & -> & _) _]. done. }
  rewrite count_leading_app.
  2:{ destruct cs as [|c cs]; [|done]. simpl. destruct Hsp3 as [|c sp3 Hc _]; [done|]. simpl. intros [= ->]. done. }
  rewrite !length_app, length_replicate in Hlen.
  destruct (size_256 (length (cs ++ sp3))) as (k & -> & Hk); [rewrite length_app; lia|].
  rewrite decode_loop_app by done.
  destruct (feed_digits 58 256 (dig <$> cs) k) as (b & len & -> & Hd & Hhd & Hbe); [lia|lia|by apply digits_dig| |].
  { rewrite length_fmap. etrans; [|exact Hk]. apply Z.pow_le_mono_r; [lia|]. rewrite length_app. lia. }
  cbn [mbind option_bind].
  assert (decode_loop sp3 b len = Some (Some (b, len, sp3))) as ->.
  { destruct Hsp3 as [|c sp3 Hc _]; [done|]. cbn [decode_loop]. by rewrite Hc. }
  cbn [mbind option_bind]. rewrite skip_spaces_all by done. eexists. split; [done|]. done.
Qed.

Lemma decode_accepts s v :
  bytes s -> length s < 2 ^ 30 ->
  (exists r, DecodeBase58 s = Some r) /\
  (DecodeBase58 s = Some (Some v) -> exists sp1 z cs sp2, spaces sp1 /\ spaces sp2 /\ Forall valid cs /\ head cs <> Some 49 /\
    s = sp1 ++ replicate z 49 ++ cs ++ sp2).
Proof.
  intros Hs Hlen. destruct (skip_spaces_spec s) as (sp1 & E1 & Hsp1 & _). unfold DecodeBase58.
  destruct (count_leading_spec 49 (Blob.skip_spaces s)) as (z & psz & -> & E2 & Hh). rewrite E2 in E1. clear E2.
  assert (bytes psz) as Hp. { rewrite E1 in Hs. apply Forall_app in Hs as [_ Hs]. by apply Forall_app in Hs as [_ Hs]. }
  rewrite E1, !length_app in Hlen. clear Hs. subst s.
  destruct (size_256 (length psz)) as (k & -> & Hk); [lia|].
  destruct (split_valid psz Hp) as (cs & rest & -> & Hcs & Hrest). rewrite decode_loop_app by done.
  destruct (feed_digits 58 256 (dig <$> cs) k) as (b & len & -> & _); [lia|lia|by apply digits_dig| |].
  { rewrite length_fmap. etrans; [|exact Hk]. apply Z.pow_le_mono_r; [lia|]. rewrite length_app. lia. }
  cbn [mbind option_bind]. destruct rest as [|c rest]; cbn [decode_loop mbind option_bind].
  { split; [eauto|]. intros _. exists sp1, z, cs, []. split; [done|]. split; [constructor|]. rewrite app_nil_r in Hh. by rewrite app_nil_r. }
  destruct (isspace c) eqn:Ec.
  - cbn [mbind option_bind]. destruct (skip_spaces_spec (c :: rest)) as (sp2 & E2 & Hsp2 & _).
    destruct (Blob.skip_spaces (c :: rest)) as [|x r]; [|by split; [eauto|]].
    split; [eauto|]. intros _. rewrite app_nil_r in E2. rewrite E2 in *. exists sp1, z, cs, sp2. split_and!; try done.
    destruct cs; [by simpl in *|done].
  - destruct (Hrest c eq_refl) as [|Hd]; [congruence|]. fold (dig c). rewrite Hd. by split; [eauto|].
Qed.

Lemma encode_loop_feed p b len : encode_loop p b len = feed 256 58 p b len.
Proof.
  revert b len. induction p as [|x p IH]; intros b len; [done|]. cbn [encode_loop feed].
  destruct (muladd 256 58 b x 0 len) as [[b' carry] i]. by destruct (carry =? 0).
Qed.

Lemma encode_spec (z : nat) n :
  digits 256 n -> head n <> Some 0 -> length n < 2 ^ 30 ->
  exists ds, EncodeBase58 (replicate z 0 ++ n) = Some (replicate z 49 ++ (ch <$> ds)) /\
    digits 58 ds /\ head ds <> Some 0 /\ be 58 ds = be 256 n /\ (length ds <= 2 * length n)%nat.
Proof.
  intros Hn Hh Hlen. unfold EncodeBase58. rewrite count_leading_app by done.
  destruct (size_58 (length n) Hlen) as (k & -> & Hk). rewrite encode_loop_feed.
  destruct (feed_digits 256 58 n k) as (b & len & -> & Hd & Hhd & Hbe); [lia|lia|done|done|].
  cbn [mbind option_bind]. eexists. split; [done|]. split_and!; try done.
  apply (be_length 58 256); lia || done.
Qed.

(** The strings that decode to given bytes are the encoding of the bytes with spaces around it. *)
Lemma decode_iff v :
  bytes v -> length v < 2 ^ 30 ->
  exists E, EncodeBase58 v = Some E /\ Forall valid E /\ length E <= 2 * length v /\ forall s, bytes s -> length s < 2 ^ 30 ->
    DecodeBase58 s = Some (Some v) <-> exists sp1 sp2, spaces sp1 /\ spaces sp2 /\ s = sp1 ++ E ++ sp2.
Proof.
  intros Hv Hlen. destruct (count_leading_spec 0 v) as (z & n & _ & -> & Hh). apply Forall_app in Hv as [_ Hn].
  rewrite length_app, length_replicate in Hlen.
  destruct (encode_spec z n Hn Hh) as (ds & HE & Hds & Hhd & Hbe & Hlds); [lia|]. eexists. split; [exact HE|].
  split.
  { apply Forall_app. split; [apply Forall_replicate, (ch_valid 0); lia|]. apply Forall_fmap.
    eapply List.Forall_impl; [|exact Hds]. intros d Hd. by apply ch_valid. }
  split; [rewrite !length_app, !length_replicate, length_fmap; lia|].
  intros s Hs Hl. split.
  - intros HD. destruct (decode_accepts s (replicate z 0 ++ n) Hs Hl) as [_ Hacc].
    destruct (Hacc HD) as (sp1 & z' & cs & sp2 & Hsp1 & Hsp2 & Hcs & Hhc & ->).
    destruct (decode_valid sp1 z' cs sp2 Hsp1 Hsp2 Hcs Hhc) as (n' & HD' & Hn' & Hh' & Hbe'); [rewrite length_app in Hl; lia|].
    rewrite HD in HD'. injection HD' as E. apply (f_equal (count_leading 0)) in E. rewrite !count_leading_app in E by done.
    injection E as <- <-. assert (dig <$> cs = ds) as <-.
    { apply (be_inj 58); [lia|by apply digits_dig|done|by apply head_dig|done|congruence]. }
    exists sp1, sp2. rewrite ch_dig by done. by rewrite <- app_assoc.
  - intros (sp1 & sp2 & Hsp1 & Hsp2 & ->). rewrite <- (app_assoc (replicate z 49)) in *.
    destruct (decode_valid sp1 z (ch <$> ds) sp2) as (n' & HD' & Hn' & Hh' & Hbe'); [done|done| |by apply head_ch|rewrite length_app in Hl; lia|].
    { apply Forall_fmap. eapply List.Forall_impl; [|exact Hds]. intros d Hd. by apply ch_valid. }
    rewrite HD'. do 3 f_equal. rewrite dig_ch in Hbe' by done. apply (be_inj 256); lia || congruence || done.
Qed.

(** ** Leading characters *)

Lemma be_app B l1 l2 : be B (l1 ++ l2) = be B l1 * B ^ length l2 + be B l2.
Proof. rewrite !be_val, rev_app_distr, val_app, length_rev. lia. Qed.

Lemma be_bound B l : 1 < B -> digits B l -> 0 <= be B l < B ^ length l.
Proof.
  intros HB Hl. rewrite be_val. pose proof (val_nonneg B HB (rev l) (digits_rev B l Hl)).
  pose proof (val_bound B HB (rev l) (digits_rev B l Hl)) as H1. rewrite length_rev in H1. lia.
Qed.

(** The first bytes of a vector of known length decide the first characters of its encoding, when
    the least and the greatest number with these bytes agree on them. *)
Definition decides (pre : list Z) (n m : nat) (c : list Z) : bool :=
  let lo := be 256 pre * 256 ^ n in
  let hi := (be 256 pre + 1) * 256 ^ n - 1 in
  let k := Z.of_nat m - Z.of_nat (length c) in
  (58 ^ (m - 1) <=? lo) && (hi <? 58 ^ m) && (lo / 58 ^ k =? be 58 c) && (hi / 58 ^ k =? be 58 c).

Lemma leading_chars pre rest (m : nat) (c E : list Z) :
  digits 256 (pre ++ rest) -> head pre <> Some 0 -> head c <> Some 0 -> digits 58 c -> pre <> [] -> (0 < length c <= m)%nat ->
  length (pre ++ rest) < 2 ^ 30 -> decides pre (length rest) m c = true ->
  EncodeBase58 (pre ++ rest) = Some E -> take (length c) E = ch <$> c.
Proof.
  intros Hv Hh Hhc Hc Hne Hlc Hlen Hdec HE.
  destruct (encode_spec 0 (pre ++ rest) Hv) as (ds & HE' & Hds & Hhd & Hbe & _); [by destruct pre|done|].
  cbn [replicate app] in HE'. rewrite HE in HE'. injection HE' as ->.
  unfold decides in Hdec. rewrite !andb_true_iff in Hdec. destruct Hdec as (((H1 & H2) & H3) & H4).
  apply Forall_app in Hv as [_ Hr]. pose proof (be_bound 256 rest ltac:(lia) Hr) as Hbr. rewrite be_app in Hbe.
  pose proof (be_bound 58 ds ltac:(lia) Hds) as Hbd.
  assert (ds <> []) as Hdne by (intros ->; unfold be in Hbe at 1; simpl in Hbe; pose proof (Z.pow_pos_nonneg 58 (m - 1)); lia).
  pose proof (be_lower 58 ltac:(lia) ds Hds Hdne Hhd) as Hlow.
  assert (length ds = m) as Hm.
  { assert (Z.of_nat m - 1 < length ds) by (apply (Z.pow_lt_mono_r_iff 58); lia).
    assert (Z.of_nat (length ds) - 1 < m) by (apply (Z.pow_lt_mono_r_iff 58); lia). lia. }
  rewrite <- fmap_take. f_equal.
  assert (digits 58 (take (length c) ds)) as Ht by by apply Forall_take.
  apply (be_inj 58); [lia|done|done|by destruct ds, (length c)|done|].
  pose proof (be_app 58 (take (length c) ds) (drop (length c) ds)) as Hsplit. rewrite take_drop, length_drop, Hm in Hsplit.
  pose proof (be_bound 58 (drop (length c) ds) ltac:(lia) ltac:(by apply Forall_drop)) as Hdrop. rewrite length_drop, Hm in Hdrop.
  rewrite Nat2Z.inj_sub in Hsplit, Hdrop by lia.
  set (K := 58 ^ (m - length c)) in *. assert (be 58 (take (length c) ds) = be 58 ds / K) as ->
    by (apply Z.div_unique with (be 58 (drop (length c) ds)); lia).
  assert (0 < K) by lia. apply Z.eqb_eq in H3, H4. apply Z.le_antisymm.
  - rewrite <- H4. apply Z.div_le_mono; lia.
  - rewrite <- H3. apply Z.div_le_mono; lia.
Qed.

(** ** Strings up to their terminating zero *)

Lemma c_str_bytes s : bytes s -> bytes (c_str s) /\ (length (c_str s) <= length s)%nat.
Proof.
  induction 1 as [|c s Hc _ [IH1 IH2]]; [by split; [constructor|]|]. cbn [c_str length].
  destruct (c =? 0); [split; [constructor|simpl; lia]|split; [by constructor|simpl; lia]].
Qed.

(** a string without zeroes *)
Lemma c_str_id s : Forall (λ c, c <> 0) s -> c_str s = s.
Proof.
  induction 1 as [|c s Hc _ IH]; [done|]. cbn [c_str]. rewrite (proj2 (Z.eqb_neq _ _)) by done. by rewrite IH.
Qed.

(** ** With a checksum *)

Section check.
Context (D : Sha256.dispatch) `{HD : !GoodDispatch D}.

Lemma checksum_spec v : length v < 2 ^ 61 -> take 4 (Hash D [v]) = take 4 (SHA256d v).
Proof. assert (concat [v] = v) as E by apply app_nil_r. intros Hv. rewrite (Hash_spec D (HD:=HD)); by rewrite E. Qed.

Lemma length_checksum v : length (take 4 (SHA256d v)) = 4%nat.
Proof. rewrite length_take. unfold SHA256d. rewrite length_SHA256. done. Qed.

Lemma check_decode_iff v :
  bytes v -> length v < 2 ^ 28 ->
  exists E, EncodeBase58Check D v = Some E /\ Forall valid E /\ length E < 2 ^ 30 /\ forall s, bytes s -> length s < 2 ^ 30 ->
    DecodeBase58Check D s = Some (Some v) <-> exists sp1 sp2, spaces sp1 /\ spaces sp2 /\ s = sp1 ++ E ++ sp2.
Proof.
  intros Hv Hlen. unfold EncodeBase58Check, DecodeBase58Check. rewrite checksum_spec by lia.
  pose proof (length_checksum v) as Hc. assert (bytes (v ++ take 4 (SHA256d v))) as Hb.
  { apply Forall_app. split; [done|]. apply Forall_take, SHA256_bytes. }
  destruct (decode_iff (v ++ take 4 (SHA256d v)) Hb) as (E & HE & HbE & HlE & Hiff); [rewrite length_app; lia|].
  rewrite length_app in HlE. exists E. split; [done|]. split; [done|]. split; [lia|]. intros s Hs Hl. rewrite <- (Hiff s Hs Hl). split.
  - destruct (DecodeBase58 s) as [[w|]|] eqn:Ew; cbn [mbind option_bind]; [|done|done].
    destruct (Nat.ltb_spec (length w) 4) as [|Hw]; [done|]. case_decide as Ec; [|done]. intros [= Ev].
    do 2 f_equal. rewrite <- (take_drop (length w - 4) w), Ev. f_equal. rewrite <- Ec, Ev. apply checksum_spec. lia.
  - intros Ew. rewrite Ew. cbn [mbind option_bind]. rewrite length_app, Hc.
    rewrite (proj2 (Nat.ltb_ge _ _)) by lia. replace (length v + 4 - 4)%nat with (length v) by lia.
    rewrite take_app_length, drop_app_length, checksum_spec by lia. by rewrite decide_True.
Qed.

Lemma check_decode_total s : bytes s -> length s < 2 ^ 30 -> exists r, DecodeBase58Check D s = Some r.
Proof.
  intros Hs Hl. unfold DecodeBase58Check. destruct (decode_accepts s [] Hs Hl) as [[r ->] _]. cbn [mbind option_bind].
  destruct r as [w|]; [|eauto]. destruct (_ <? _)%nat; [eauto|]. case_decide; eauto.
Qed.
End check.

(** ** Properties *)

(** C40: Every byte vector of less than 2^28 bytes has one encoding, which decodes to it; a C string (the bytes before its zero)
    decodes to the vector exactly when it is that encoding with spaces before and after, and decoding any C string returns (the
    buffers, whose sizes are rounded logarithms, are always large enough for the assertion on the carry). *)
Theorem base58_unique (v : list Z) :
  bytes v -> length v < 2 ^ 28 ->
  exists E, EncodeBase58 v = Some E /\ DecodeBase58 E = Some (Some v) /\
    forall s, bytes s -> length s < 2 ^ 30 ->
      (exists r, DecodeBase58 s = Some r) /\
      (DecodeBase58 s = Some (Some v) <-> exists sp1 sp2, spaces sp1 /\ spaces sp2 /\ s = sp1 ++ E ++ sp2).
Proof.
  intros Hv Hlen. destruct (decode_iff v Hv ltac:(lia)) as (E & HE & HbE & HlE & Hiff). exists E. split; [done|]. split.
  - apply Hiff; [by apply valid_bytes|lia|]. exists [], []. split; [constructor|]. split; [constructor|]. by rewrite app_nil_r.
  - intros s Hs Hl. split; [by apply (decode_accepts s [])|by apply Hiff].
Qed.

Lemma base58_unique_witness : exists E, EncodeBase58 [0; 0; 97; 255] = Some E /\ DecodeBase58 E = Some (Some [0; 0; 97; 255]).
Proof.
  destruct (base58_unique [0; 0; 97; 255]) as (E & H1 & H2 & _); [split_Forall; unfold in_uint; lia|simpl; lia|].
  exists E. split; [exact H1|exact H2].
Defined.
