(* ===== verification/KeyIO.v ===== *)
(** * Addresses and keys as strings: key_io.cpp, and what it prints of key.h, key.cpp and pubkey.cpp

    A destination, a secret key or an extended key is a prefix of the network followed by its
    bytes, in base58 with a checksum.  The validity of a secret key is the library's
    [secp256k1_ec_seckey_verify], the class [SecKey].  The outer option of a result is a failed
    assertion. *)

From Stdlib Require Import Ascii String.
From S2P Require Import Prelude Bytes BlockHash Uint256 Sha256 Hash Compressor Standard TxVerify Base58.

(** ** Networks: chainparams.h, chainparams.cpp *)

Record Base58Prefix := mkPrefixes {
  PUBKEY_ADDRESS : list Z;
  SCRIPT_ADDRESS : list Z;
  SECRET_KEY : list Z;
  EXT_PUBLIC_KEY : list Z;
  EXT_SECRET_KEY : list Z;
}.
Definition main_prefixes : Base58Prefix := mkPrefixes [25] [102] [205] [0x04; 0x88; 0xAD; 0xE3] [0x04; 0x88; 0xB2; 0x1E].
Definition test_prefixes : Base58Prefix := mkPrefixes [26] [105] [206] [0x04; 0x35; 0x87; 0xCE] [0x04; 0x35; 0x87; 0xCE].
Definition dev_prefixes : Base58Prefix := mkPrefixes [140] [19] [239] [0x04; 0x35; 0x87; 0xCF] [0x04; 0x35; 0x83; 0x94].
Definition regtest_prefixes : Base58Prefix := mkPrefixes [140] [19] [239] [0x04; 0x35; 0x87; 0xCF] [0x04; 0x35; 0x83; 0x94].

(** ** Secret keys: key.h *)

Class SecKey := { ec_seckey_verify : list Z -> bool }.

Record CKey := mkKey { fValid : bool; fCompressed : bool; keydata : list Z }.
Definition CKey_new : CKey := mkKey false false (replicate 32 0).
Definition CKey_size (k : CKey) : Z := if fValid k then Z.of_nat (List.length (keydata k)) else 0.

Definition CKey_Set `{SecKey} (k : CKey) (data : list Z) (fCompressedIn : bool) : CKey :=
  if negb (List.length data =? List.length (keydata k))%nat then mkKey false (fCompressed k) (keydata k)
  else if ec_seckey_verify data then mkKey true fCompressedIn data
  else mkKey false (fCompressed k) (keydata k).

(** ** Extended keys: key.cpp, pubkey.cpp *)

Definition BIP32_EXTKEY_SIZE : nat := 74.

Record ext_key (A : Type) := mkExtKey {
  nDepth : Z;
  vchFingerprint : list Z;
  nChild : Z;
  chaincode : list Z;
  ext_of : A;
}.
Arguments mkExtKey {A}.
Arguments nDepth {A}.
Arguments vchFingerprint {A}.
Arguments nChild {A}.
Arguments chaincode {A}.
Arguments ext_of {A}.
Definition CExtKey : Type := ext_key CKey.
Definition CExtPubKey : Type := ext_key PubKey.CPubKey.

(** the first 41 bytes *)
Definition encode_head {A} (k : ext_key A) : list Z :=
  [nDepth k] ++ vchFingerprint k ++
  [(nChild k >> 24) &&& 0xFF; (nChild k >> 16) &&& 0xFF; (nChild k >> 8) &&& 0xFF; (nChild k >> 0) &&& 0xFF] ++ chaincode k.
Definition byte_at (code : list Z) (i : nat) : Z := nth i code 0.
Definition decode_child (code : list Z) : Z :=
  u32 ((((byte_at code 5 << 24) ||| (byte_at code 6 << 16)) ||| (byte_at code 7 << 8)) ||| byte_at code 8).

Definition CExtKey_Encode (k : CExtKey) : option (list Z) :=
  if CKey_size (ext_of k) =? 32 then Some (encode_head k ++ [0] ++ keydata (ext_of k)) else None.
Definition CExtKey_Decode `{SecKey} (code : list Z) : CExtKey :=
  mkExtKey (byte_at code 0) (take 4 (drop 1 code)) (decode_child code) (take 32 (drop 9 code)) (CKey_Set CKey_new (drop 42 code) true).

Definition CExtPubKey_Encode (k : CExtPubKey) : option (list Z) :=
  if PubKey.size (ext_of k) =? PubKey.COMPRESSED_PUBLIC_KEY_SIZE then Some (encode_head k ++ take 33 (ext_of k)) else None.
Definition CExtPubKey_Decode (code : list Z) : CExtPubKey :=
  mkExtKey (byte_at code 0) (take 4 (drop 1 code)) (decode_child code) (take 32 (drop 9 code)) (PubKey.Set_ PubKey.new (drop 41 code)).

(** ** key_io.cpp *)

Section key_io.
Context (D : Sha256.dispatch).

(** [data] has the prefix and [n] bytes after it *)
Definition has_prefix (prefix : list Z) (n : nat) (data : list Z) : bool :=
  (List.length data =? n + List.length prefix)%nat && bool_decide (take (List.length prefix) data = prefix).

Definition EncodeDestination (params : Base58Prefix) (dest : CTxDestination) : option (list Z) :=
  match dest with
  | CKeyID id => EncodeBase58Check D (PUBKEY_ADDRESS params ++ id)
  | CScriptID id => EncodeBase58Check D (SCRIPT_ADDRESS params ++ id)
  | CNoDestination => Some []
  end.

Definition DecodeDestination (params : Base58Prefix) (str : list Z) : option CTxDestination :=
  r ← DecodeBase58Check D (c_str str);
  match r with
  | Some data =>
      if has_prefix (PUBKEY_ADDRESS params) 20 data then Some (CKeyID (drop (List.length (PUBKEY_ADDRESS params)) data))
      else if has_prefix (SCRIPT_ADDRESS params) 20 data then Some (CScriptID (drop (List.length (SCRIPT_ADDRESS params)) data))
      else Some CNoDestination
  | None => Some CNoDestination
  end.

Definition IsValidDestinationString (params : Base58Prefix) (str : list Z) : option bool :=
  dest ← DecodeDestination params str; Some (IsValidDestination dest).

Context `{SecKey}.

Definition DecodeSecret (params : Base58Prefix) (str : list Z) : option CKey :=
  r ← DecodeBase58Check D (c_str str);
  match r with
  | Some data =>
      let p := SECRET_KEY params in
      let compressed := (List.length data =? 33 + List.length p)%nat in
      if ((List.length data =? 32 + List.length p)%nat || (compressed && bool_decide (last data = Some 1)))
         && bool_decide (take (List.length p) data = p)
      then Some (CKey_Set CKey_new (take 32 (drop (List.length p) data)) compressed)
      else Some CKey_new
  | None => Some CKey_new
  end.

Definition EncodeSecret (params : Base58Prefix) (key : CKey) : option (list Z) :=
  if fValid key then EncodeBase58Check D (SECRET_KEY params ++ keydata key ++ (if fCompressed key then [1] else [])) else None.

(** [None] as the result: the object as its constructor leaves it, with an invalid key *)
Definition DecodeExtPubKey (params : Base58Prefix) (str : list Z) : option (option CExtPubKey) :=
  r ← DecodeBase58Check D (c_str str);
  match r with
  | Some data =>
      if has_prefix (EXT_PUBLIC_KEY params) BIP32_EXTKEY_SIZE data
      then Some (Some (CExtPubKey_Decode (drop (List.length (EXT_PUBLIC_KEY params)) data))) else Some None
  | None => Some None
  end.
Definition EncodeExtPubKey (params : Base58Prefix) (key : CExtPubKey) : option (list Z) :=
  code ← CExtPubKey_Encode key; EncodeBase58Check D (EXT_PUBLIC_KEY params ++ code).

Definition DecodeExtKey (params : Base58Prefix) (str : list Z) : option (option CExtKey) :=
  r ← DecodeBase58Check D (c_str str);
  match r with
  | Some data =>
      if has_prefix (EXT_SECRET_KEY params) BIP32_EXTKEY_SIZE data
      then Some (Some (CExtKey_Decode (drop (List.length (EXT_SECRET_KEY params)) data))) else Some None
  | None => Some None
  end.
Definition EncodeExtKey (params : Base58Prefix) (key : CExtKey) : option (list Z) :=
  code ← CExtKey_Encode key; EncodeBase58Check D (EXT_SECRET_KEY params ++ code).
End key_io.

(** ** The founder of each network: founder_payment.h, chainparams.cpp *)

Definition DEFAULT_FOUNDER_ADDRESS : string := "B6uz2zqVRvL6RWw9w1vYmahiuQPRm9G8gT".
Definition nFounderAddressChangeHeight : Z := 1250000.
Definition founder_rewards : list Founder.FounderRewardStructure := [Founder.mkReward Founder.INT_MAX 5].
Definition main_founder : Founder.FounderPayment :=
  Founder.FounderPayment_many founder_rewards 250
    [Founder.mkAddress (nFounderAddressChangeHeight - 1) "BLbWwABzjJGsSeibe6oJvTK5aEq8Sx7rU9";
     Founder.mkAddress Founder.INT_MAX "B6uz2zqVRvL6RWw9w1vYmahiuQPRm9G8gT"].
Definition test_founder : Founder.FounderPayment := Founder.FounderPayment_one founder_rewards 200 "B9E9r1gMZW2Y6aCngZHKsps6wHPCzMd7un".
Definition dev_founder : Founder.FounderPayment := Founder.FounderPayment_one founder_rewards 200 DEFAULT_FOUNDER_ADDRESS.
Definition regtest_founder : Founder.FounderPayment := Founder.FounderPayment_one founder_rewards 200 "yNnMGV7d5fcrUMy7kGECY11CHR1uX8aJ4T".

(** [DecodeDestination] with the parameters of the selected network, on a string *)
Definition decode_address (D : Sha256.dispatch) (params : Base58Prefix) (s : string) : CTxDestination :=
  default CNoDestination (DecodeDestination D params (chars s)).
