(* ===== verification/KeyIOLaws.v ===== *)
(** * Addresses and keys as strings: round trips, and the configured networks *)

From Stdlib Require Import Ascii String.
From S2P Require Import Prelude Bytes BlockHash Uint256 ShaSpec Sha256 Sha256Laws Hash MerkleLaws Compressor Transaction Standard TxVerify Base58 Base58Laws KeyIO.

Lemma has_prefix_app prefix (n : nat) l : has_prefix prefix n (prefix ++ l) = (List.length l =? n)%nat.
Proof.
  unfold has_prefix. rewrite take_app_length, bool_decide_true, andb_true_r by done. rewrite length_app.
  destruct (Nat.eqb_spec (List.length l) n), (Nat.eqb_spec (List.length prefix + List.length l) (n + List.length prefix)); done || lia.
Qed.

Lemma has_prefix_true prefix (n : nat) data : has_prefix prefix n data = true ->
  data = prefix ++ drop (List.length prefix) data /\ List.length (drop (List.length prefix) data) = n.
Proof.
  unfold has_prefix. rewrite andb_true_iff, bool_decide_eq_true. intros [Hl Ht]. apply Nat.eqb_eq in Hl.
  split; [rewrite <- Ht at 1; by rewrite take_drop|]. rewrite length_drop. lia.
Qed.

(** Two prefixes do not match the same data. *)
Lemma has_prefix_other p q (n : nat) l : p <> q -> List.length l = n -> has_prefix p n (q ++ l) = false.
Proof.
  intros Hne Hl. apply not_true_iff_false. intros H. apply has_prefix_true in H as [E Hd]. apply Hne.
  apply (f_equal List.length) in E as El. rewrite !length_app, Hd in El.
  apply app_inj_1 in E as [-> _]; [done|lia].
Qed.

Section laws.
Context (D : Sha256.dispatch) `{HD : !GoodDispatch D}.

(** The strings whose data is [v]: up to the first zero, the encoding of [v] with spaces around it. *)
Definition prints (v s : list Z) : Prop :=
  exists E sp1 sp2, EncodeBase58Check D v = Some E /\ spaces sp1 /\ spaces sp2 /\ c_str s = sp1 ++ E ++ sp2.

Lemma check_prints v s :
  bytes v -> List.length v < 2 ^ 28 -> bytes s -> List.length s < 2 ^ 30 ->
  DecodeBase58Check D (c_str s) = Some (Some v) <-> prints v s.
Proof.
  intros Hv Hlv Hs Hls. destruct (c_str_bytes s Hs) as [Hb Hl].
  destruct (check_decode_iff D v Hv Hlv) as (E & HE & _ & _ & Hiff). rewrite Hiff by (done || lia). unfold prints. split.
  - intros (sp1 & sp2 & H1 & H2 & H3). eauto 8.
  - intros (E' & sp1 & sp2 & HE' & H1 & H2 & H3). rewrite HE in HE'. injection HE' as <-. eauto.
Qed.

Lemma check_roundtrip v : bytes v -> List.length v < 2 ^ 28 ->
  exists E, EncodeBase58Check D v = Some E /\ DecodeBase58Check D (c_str E) = Some (Some v).
Proof.
  intros Hv Hlv. destruct (check_decode_iff D v Hv Hlv) as (E & HE & HvE & HlE & Hiff). exists E. split; [done|].
  rewrite c_str_id by by apply valid_nonzero.
  apply Hiff; [by apply valid_bytes|done|]. exists [], []. split; [constructor|]. split; [constructor|]. by rewrite app_nil_r.
Qed.

(** ** Destinations *)

Definition dest_data (params : Base58Prefix) (d : CTxDestination) : list Z :=
  match d with CKeyID id => PUBKEY_ADDRESS params ++ id | CScriptID id => SCRIPT_ADDRESS params ++ id | CNoDestination => [] end.
Definition dest_ok (d : CTxDestination) : Prop :=
  match d with CKeyID id | CScriptID id => bytes id /\ List.length id = 20%nat | CNoDestination => False end.
(** prefixes of bytes, one for each kind of address *)
Definition prefixes_ok (params : Base58Prefix) : Prop :=
  bytes (PUBKEY_ADDRESS params) /\ bytes (SCRIPT_ADDRESS params) /\ PUBKEY_ADDRESS params <> SCRIPT_ADDRESS params /\
  List.length (PUBKEY_ADDRESS params) < 100 /\ List.length (SCRIPT_ADDRESS params) < 100.

Lemma dest_data_bytes params d : prefixes_ok params -> dest_ok d ->
  bytes (dest_data params d) /\ List.length (dest_data params d) < 2 ^ 28.
Proof.
  intros (Hp & Hs & _ & Hlp & Hls). destruct d as [|id|id]; cbn [dest_ok dest_data]; [done| |]; intros [Hid Hl];
    (split; [by apply Forall_app|]; rewrite length_app; lia).
Qed.

Lemma decode_dest_iff params d s :
  prefixes_ok params -> dest_ok d -> DecodeDestination D params s = Some d <-> DecodeBase58Check D (c_str s) = Some (Some (dest_data params d)).
Proof.
  intros Hpre Hd. destruct Hpre as (_ & _ & Hne & _). unfold DecodeDestination.
  destruct (DecodeBase58Check D (c_str s)) as [[data|]|]; cbn [mbind option_bind].
  2,3: split; [intros [= <-]; done || (destruct Hd)|done].
  split.
  - destruct (has_prefix (PUBKEY_ADDRESS params) 20 data) eqn:E1.
    { apply has_prefix_true in E1 as [-> _]. rewrite drop_app_length. intros [= <-]. done. }
    destruct (has_prefix (SCRIPT_ADDRESS params) 20 data) eqn:E2; intros [= <-]; [|done].
    apply has_prefix_true in E2 as [-> _]. by rewrite drop_app_length.
  - intros [= ->]. destruct d as [|id|id]; cbn [dest_ok dest_data] in *; [done| |]; destruct Hd as [_ Hl].
    + rewrite has_prefix_app, Hl, drop_app_length. done.
    + rewrite (has_prefix_other _ _ 20) by done. rewrite has_prefix_app, Hl, drop_app_length. done.
Qed.
End laws.


(** ** Extended keys *)

Lemma child_bytes n : in_uint 32 n ->
  u32 ((((((n >> 24) &&& 0xFF) << 24) ||| (((n >> 16) &&& 0xFF) << 16)) ||| (((n >> 8) &&& 0xFF) << 8)) ||| ((n >> 0) &&& 0xFF)) = n.
Proof.
  intros Hn. apply (uint_bits_inj 32); [lia|apply uint_range; lia|done|]. intros i Hi.
  autorewrite with bits. rewrite (proj2 (Z.ltb_lt i 32)) by lia. cbn [andb]. change 255 with (Z.ones 8).
  destruct (decide (i < 8)); [|destruct (decide (i < 16)); [|destruct (decide (i < 24))]].
  all: repeat first [rewrite (Z.testbit_neg_r _ (i - 24)) by lia | rewrite (Z.testbit_neg_r _ (i - 16)) by lia | rewrite (Z.testbit_neg_r _ (i - 8)) by lia].
  all: autorewrite with bits.
  all: repeat first [rewrite Z.ones_spec_low by lia | rewrite Z.ones_spec_high by lia].
  all: rewrite ?andb_false_r, ?andb_true_r, ?orb_false_r, ?orb_false_l.
  all: f_equal; lia.
Qed.

(** the fields of an extended key as the structure holds them *)
Definition head_ok {A} (k : ext_key A) : Prop :=
  is_byte (nDepth k) /\ bytes (vchFingerprint k) /\ List.length (vchFingerprint k) = 4%nat /\
  in_uint 32 (nChild k) /\ bytes (chaincode k) /\ List.length (chaincode k) = 32%nat.

Lemma encode_head_bytes {A} (k : ext_key A) : head_ok k -> bytes (encode_head k) /\ List.length (encode_head k) = 41%nat.
Proof.
  intros (Hd & Hf & Hlf & Hc & Hcc & Hlc). unfold encode_head. split.
  - apply Forall_app. split; [by split_Forall|]. apply Forall_app. split; [done|]. apply Forall_app. split; [|done].
    assert (forall x, is_byte (x &&& 0xFF)) as Hb.
    { intros x. change 0xFF with (Z.ones 8). rewrite Z.land_ones by lia. apply Z.mod_pos_bound. lia. }
    split_Forall; apply Hb.
  - rewrite !length_app, Hlf, Hlc. done.
Qed.

(** the fields read back from the code *)
Lemma decode_head {A} (k : ext_key A) l :
  head_ok k ->
  byte_at (encode_head k ++ l) 0 = nDepth k /\ take 4 (drop 1 (encode_head k ++ l)) = vchFingerprint k /\
  decode_child (encode_head k ++ l) = nChild k /\ take 32 (drop 9 (encode_head k ++ l)) = chaincode k /\
  drop 41 (encode_head k ++ l) = l.
Proof.
  intros (Hd & _ & Hlf & Hc & _ & Hlc). destruct k as [d f n cc x]. cbn [nDepth vchFingerprint nChild chaincode] in *.
  unfold encode_head, decode_child, byte_at. cbn [nDepth vchFingerprint nChild chaincode].
  destruct_list_length. cbn [app nth take drop]. split; [done|]. split; [done|]. split; [by apply child_bytes|].
  split; [|done]. done.
Qed.

Definition ext_params_ok (p : list Z) : Prop := bytes p /\ List.length p < 100.

Section ext_keys.
Context (D : Sha256.dispatch) `{HD : !GoodDispatch D} `{SecKey}.

(** a valid secret key, as [Set] makes it *)
Definition key_ok (k : CKey) : Prop :=
  fValid k = true /\ bytes (keydata k) /\ List.length (keydata k) = 32%nat /\ ec_seckey_verify (keydata k) = true.

Lemma CKey_Set_ok k : key_ok k -> CKey_Set CKey_new (keydata k) (fCompressed k) = k.
Proof.
  intros (Hv & _ & Hl & Hs). unfold CKey_Set. cbn [CKey_new keydata]. rewrite Hl, Hs. cbn. destruct k. simpl in *. by rewrite Hv.
Qed.

Lemma CExtKey_code k : head_ok k -> key_ok (ext_of k) -> fCompressed (ext_of k) = true ->
  exists code, CExtKey_Encode k = Some code /\ bytes code /\ List.length code = 74%nat /\ CExtKey_Decode code = k.
Proof.
  intros Hh Hk Hc. pose proof Hk as (Hv & Hb & Hl & Hs). unfold CExtKey_Encode, CKey_size. rewrite Hv, Hl. cbn [Z.eqb Z.of_nat].
  destruct (encode_head_bytes k Hh) as [Hhb Hhl]. eexists. split; [done|]. split.
  { apply Forall_app. split; [done|]. constructor; [unfold in_uint; lia|done]. }
  split; [rewrite !length_app, Hhl, Hl; done|].
  destruct (decode_head k ([0] ++ keydata (ext_of k)) Hh) as (H1 & H2 & H3 & H4 & H5). unfold CExtKey_Decode.
  rewrite H1, H2, H3, H4. replace 42%nat with (41 + 1)%nat by lia. rewrite <- drop_drop, H5. cbn [app drop].
  rewrite drop_0, <- Hc, (CKey_Set_ok (ext_of k) Hk). by destruct k.
Qed.

(** a valid compressed public key *)
Definition pubkey_ok (k : PubKey.CPubKey) : Prop :=
  bytes k /\ List.length k = 65%nat /\ PubKey.size k = PubKey.COMPRESSED_PUBLIC_KEY_SIZE.

Lemma CPubKey_Set_ok k : pubkey_ok k ->
  List.length (take 33 k) = 33%nat /\ PubKey.bytes_of (PubKey.Set_ PubKey.new (take 33 k)) = take 33 k /\ PubKey.bytes_of k = take 33 k.
Proof.
  intros (Hb & Hl & Hs). assert (List.length (take 33 k) = 33%nat) as H33 by (rewrite length_take; lia). split; [done|].
  unfold PubKey.size in Hs. split; [|unfold PubKey.bytes_of, PubKey.size; by rewrite Hs].
  destruct k as [|h k]; [done|]. cbn [nth] in Hs. cbn [take] in *. unfold PubKey.Set_. rewrite Hs, H33.
  change (negb (PubKey.COMPRESSED_PUBLIC_KEY_SIZE =? 0) && (PubKey.COMPRESSED_PUBLIC_KEY_SIZE =? 33%nat)) with true. cbn iota.
  unfold memcpy. cbn [take app Nat.add]. unfold PubKey.bytes_of, PubKey.size. rewrite take_0. cbn [nth app]. rewrite Hs.
  change (Z.to_nat PubKey.COMPRESSED_PUBLIC_KEY_SIZE) with 33%nat. rewrite <- H33 at 1. apply (take_app_length (h :: take 32 k)).
Qed.
Lemma CExtPubKey_code (y : CExtPubKey) : head_ok y -> pubkey_ok (ext_of y) ->
  exists code, CExtPubKey_Encode y = Some code /\ bytes code /\ List.length code = 74%nat /\ drop 41 code = take 33 (ext_of y) /\
    let y' := CExtPubKey_Decode code in
    PubKey.bytes_of (ext_of y') = PubKey.bytes_of (ext_of y) /\
    (nDepth y', vchFingerprint y', nChild y', chaincode y') = (nDepth y, vchFingerprint y, nChild y, chaincode y).
Proof.
  intros Hhy Hky. destruct (CPubKey_Set_ok (ext_of y) Hky) as (H33 & Hset & Hbytes). destruct (encode_head_bytes y Hhy) as [Hhb Hhl].
  destruct (decode_head y (take 33 (ext_of y)) Hhy) as (H1 & H2 & H3 & H4 & H5). destruct Hky as (Hb & Hl & Hs).
  exists (encode_head y ++ take 33 (ext_of y)). unfold CExtPubKey_Encode. rewrite Hs.
  change (PubKey.COMPRESSED_PUBLIC_KEY_SIZE =? PubKey.COMPRESSED_PUBLIC_KEY_SIZE) with true. split; [done|].
  split; [apply Forall_app; split; [done|]; by apply Forall_take|]. split; [rewrite length_app, Hhl, H33; done|]. split; [done|].
  unfold CExtPubKey_Decode. cbn [nDepth vchFingerprint nChild chaincode ext_of]. rewrite H1, H2, H3, H4, H5, Hset, Hbytes. done.
Qed.
End ext_keys.

(** ** Properties *)

(** C28: Every destination is read back from its address.  A string is read as the destination exactly
    when, up to its first zero byte, it is that address with spaces around it; every string is read
    as some destination or as none. *)
Theorem address_roundtrip (D : Sha256.dispatch) `{HD : !GoodDispatch D} (params : Base58Prefix) (d : CTxDestination) :
  prefixes_ok params -> dest_ok d ->
  (exists E, EncodeDestination D params d = Some E /\ DecodeDestination D params E = Some d) /\
  forall s, bytes s -> List.length s < 2 ^ 30 ->
    (exists d', DecodeDestination D params s = Some d') /\ (DecodeDestination D params s = Some d <-> prints D (dest_data params d) s).
Proof.
  intros Hpre Hd. destruct (dest_data_bytes params d Hpre Hd) as [Hb Hl]. split.
  - destruct (check_roundtrip D (dest_data params d) Hb Hl) as (E & HE & HDE). exists E. split; [by destruct d|].
    by apply decode_dest_iff.
  - intros s Hs Hls. rewrite decode_dest_iff, check_prints by done. split; [|done]. unfold DecodeDestination.
    destruct (c_str_bytes s Hs) as [Hcb Hcl]. destruct (check_decode_total D (c_str s) Hcb) as [[data|] ->]; [lia| |]; cbn [mbind option_bind];
      repeat case_match; eauto.
Qed.

(** A valid secret key, and an extended secret or public key, is read back from its string. *)
Theorem keys_roundtrip (D : Sha256.dispatch) `{HD : !GoodDispatch D} `{SecKey} (params : Base58Prefix) (k : CKey) (x : CExtKey) (y : CExtPubKey) :
  ext_params_ok (SECRET_KEY params) -> ext_params_ok (EXT_SECRET_KEY params) -> ext_params_ok (EXT_PUBLIC_KEY params) ->
  key_ok k -> head_ok x -> key_ok (ext_of x) -> fCompressed (ext_of x) = true -> head_ok y -> pubkey_ok (ext_of y) ->
  (exists E, EncodeSecret D params k = Some E /\ DecodeSecret D params E = Some k) /\
  (exists E, EncodeExtKey D params x = Some E /\ DecodeExtKey D params E = Some (Some x)) /\
  (exists E y', EncodeExtPubKey D params y = Some E /\ DecodeExtPubKey D params E = Some (Some y') /\
     PubKey.bytes_of (ext_of y') = PubKey.bytes_of (ext_of y) /\
     (nDepth y', vchFingerprint y', nChild y', chaincode y') = (nDepth y, vchFingerprint y, nChild y, chaincode y)).
Proof.
  intros [Hp Hpl] [Hx Hxl] [Hy Hyl] Hk Hhx Hkx Hcx Hhy Hky. split; [|split].
  - pose proof Hk as (Hv & Hb & Hl & _). set (tail := if fCompressed k then [1] else []).
    destruct (check_roundtrip D (SECRET_KEY params ++ keydata k ++ tail)) as (E & HE & HDE).
    { apply Forall_app. split; [done|]. apply Forall_app. split; [done|]. unfold tail. destruct (fCompressed k); split_Forall. unfold in_uint. lia. }
    { rewrite !length_app, Hl. unfold tail. destruct (fCompressed k); simpl; lia. }
    exists E. unfold EncodeSecret. rewrite Hv. split; [done|]. unfold DecodeSecret. rewrite HDE. cbn [mbind option_bind].
    rewrite !length_app, Hl, take_app_length, drop_app_length, (bool_decide_true (SECRET_KEY params = SECRET_KEY params)), andb_true_r by done.
    rewrite <- Hl, take_app_length, Hl. rewrite <- (CKey_Set_ok k Hk) at 4. unfold tail. destruct (fCompressed k); cbn [List.length].
    + rewrite (app_assoc _ _ [1]), last_snoc, bool_decide_true, andb_true_r by done.
      rewrite (proj2 (Nat.eqb_eq (List.length (SECRET_KEY params) + (32 + 1)) (33 + List.length (SECRET_KEY params)))) by lia. by rewrite orb_true_r.
    + rewrite (proj2 (Nat.eqb_eq (List.length (SECRET_KEY params) + (32 + 0)) (32 + List.length (SECRET_KEY params)))) by lia. cbn [orb].
      by rewrite (proj2 (Nat.eqb_neq (List.length (SECRET_KEY params) + (32 + 0)) (33 + List.length (SECRET_KEY params)))) by lia.
  - destruct (CExtKey_code x Hhx Hkx Hcx) as (code & Hcode & Hb & Hl & Hdec).
    destruct (check_roundtrip D (EXT_SECRET_KEY params ++ code)) as (E & HE & HDE); [by apply Forall_app|rewrite length_app; lia|].
    exists E. unfold EncodeExtKey, DecodeExtKey. rewrite Hcode, HDE. cbn [mbind option_bind]. split; [done|].
    rewrite has_prefix_app, Hl, drop_app_length. cbn. by rewrite Hdec.
  - destruct (CExtPubKey_code y Hhy Hky) as (code & Hcode & Hb & Hl & _ & Hdec).
    destruct (check_roundtrip D (EXT_PUBLIC_KEY params ++ code)) as (E & HE & HDE); [by apply Forall_app|rewrite length_app; lia|].
    exists E, (CExtPubKey_Decode code). unfold EncodeExtPubKey, DecodeExtPubKey. rewrite Hcode, HDE. cbn [mbind option_bind]. split; [done|].
    rewrite has_prefix_app, Hl, drop_app_length. split; [done|]. exact Hdec.
Qed.

(** What the configured addresses are read as. *)
Lemma founder_addresses :
  IsValidDestination (decode_address Sha256.standard main_prefixes "BLbWwABzjJGsSeibe6oJvTK5aEq8Sx7rU9") = true /\
  IsValidDestination (decode_address Sha256.standard main_prefixes DEFAULT_FOUNDER_ADDRESS) = true /\
  decode_address Sha256.standard regtest_prefixes "yNnMGV7d5fcrUMy7kGECY11CHR1uX8aJ4T" = decode_address Sha256.standard main_prefixes DEFAULT_FOUNDER_ADDRESS /\
  decode_address Sha256.standard test_prefixes "B9E9r1gMZW2Y6aCngZHKsps6wHPCzMd7un" = CNoDestination /\
  decode_address Sha256.standard dev_prefixes DEFAULT_FOUNDER_ADDRESS = CNoDestination.
Proof. split_and!; vm_compute; reflexivity. Qed.

Lemma main_address h : Founder.getFounderAddress main_founder h =
  if h <=? nFounderAddressChangeHeight - 1 then "BLbWwABzjJGsSeibe6oJvTK5aEq8Sx7rU9" else DEFAULT_FOUNDER_ADDRESS.
Proof. done. Qed.

(** The founder's address of the main network and of the regression-test network is read as a destination at every height.
    On the test network and on a development network it is not an address of that network: no coinbase is filled in,
    and the miner throws. *)
Theorem founder_configured (tx : CTransaction) (h r : Z) :
  IsValidDestination (decode_address Sha256.standard main_prefixes (Founder.getFounderAddress main_founder h)) = true /\
  IsValidDestination (decode_address Sha256.standard regtest_prefixes (Founder.getFounderAddress regtest_founder h)) = true /\
  Founder.FillFounderPayment (decode_address Sha256.standard test_prefixes) test_founder tx h r = Throw "Invalid Babacoin Founder Address" /\
  Founder.FillFounderPayment (decode_address Sha256.standard dev_prefixes) dev_founder tx h r = Throw "Invalid Babacoin Founder Address".
Proof.
  destruct founder_addresses as (H1 & H2 & H3 & H4 & H5).
  assert (forall decode f, decode (Founder.getFounderAddress f h) = CNoDestination ->
    Founder.FillFounderPayment decode f tx h r = Throw "Invalid Babacoin Founder Address") as Hno.
  { intros decode f H. unfold Founder.FillFounderPayment. by rewrite H. }
  split_and!.
  - rewrite main_address. case_match; assumption.
  - refine (eq_trans (f_equal IsValidDestination H3) H2).
  - apply Hno. exact H4.
  - apply Hno. exact H5.
Qed.

Lemma check_leading D `{HD : !GoodDispatch D} pre rest (m : nat) (c E : list Z) :
  bytes (pre ++ rest) -> head pre <> Some 0 -> head c <> Some 0 -> digits 58 c -> pre <> [] -> (0 < List.length c <= m)%nat ->
  List.length (pre ++ rest) < 2 ^ 20 -> decides pre (List.length rest + 4) m c = true ->
  EncodeBase58Check D (pre ++ rest) = Some E -> take (List.length c) E = ch <$> c.
Proof.
  intros Hb Hh Hc Hd Hne Hl Hlen Hdec HE. unfold EncodeBase58Check in HE. rewrite (checksum_spec D), <- app_assoc in HE by lia.
  pose proof (length_checksum (pre ++ rest)) as H4.
  apply (leading_chars pre (rest ++ take 4 (SHA256d (pre ++ rest))) m c E); try done.
  - rewrite app_assoc. apply Forall_app. split; [done|]. apply Forall_take, SHA256_bytes.
  - rewrite app_assoc, length_app, H4. lia.
  - by rewrite length_app, H4.
Qed.

(** the letters that the prefix of an extended key decides *)
Definition letters (pre c : list Z) : bool :=
  (List.length pre =? 4)%nat && negb (bool_decide (head pre = Some 0)) && (List.length c =? 4)%nat &&
  forallb (λ d, (0 <? d) && (d <? 58)) c && decides pre 78 111 c.

Lemma ext_leading D `{HD : !GoodDispatch D} pre code c (E : list Z) :
  bytes pre -> bytes code -> List.length code = 74%nat -> letters pre c = true ->
  EncodeBase58Check D (pre ++ code) = Some E -> take 4 E = ch <$> c.
Proof.
  unfold letters. rewrite !andb_true_iff, negb_true_iff, bool_decide_eq_false, !Nat.eqb_eq, forallb_forall.
  intros Hp Hb Hl ((((H4 & Hh) & Hc) & Hd) & Hdec) HE. rewrite <- Hc.
  assert (forall d, d ∈ c -> 0 < d < 58) as Hd' by (intros d ?%list_elem_of_In%Hd; lia).
  apply (check_leading D pre code 111 c E); try done.
  - by apply Forall_app.
  - destruct c as [|d c]; [done|]. intros [= ->]. specialize (Hd' 0 ltac:(left)). lia.
  - apply Forall_forall. intros d ?%Hd'. lia.
  - by intros ->.
  - rewrite Hc. lia.
  - rewrite length_app, H4, Hl. lia.
  - by rewrite Hl.
Qed.

(** The prefixes of the extended keys are swapped on the main network: an extended secret key is printed as
    "xpub..." and an extended public key as "xprv...".  On the test network the two prefixes are the same,
    and the string of an extended public key is read as an extended secret key: the one whose secret is
    the abscissa of the public key, when that is a valid secret. *)
Theorem ext_prefixes (D : Sha256.dispatch) `{HD : !GoodDispatch D} `{SecKey} (x : CExtKey) (y : CExtPubKey) :
  head_ok x -> key_ok (ext_of x) -> fCompressed (ext_of x) = true -> head_ok y -> pubkey_ok (ext_of y) ->
  (forall E, EncodeExtKey D main_prefixes x = Some E -> take 4 E = chars "xpub") /\
  (forall E, EncodeExtPubKey D main_prefixes y = Some E -> take 4 E = chars "xprv") /\
  (exists E x', EncodeExtPubKey D test_prefixes y = Some E /\ DecodeExtKey D test_prefixes E = Some (Some x') /\
     ext_of x' = CKey_Set CKey_new (drop 1 (take 33 (ext_of y))) true).
Proof.
  intros Hx Hkx Hcx Hy Hky. destruct (CExtKey_code x Hx Hkx Hcx) as (code & Hcode & Hb & Hl & _).
  destruct (CExtPubKey_code y Hy Hky) as (ycode & Hycode & Hyb & Hyl & Hyd & _). split; [|split].
  - intros E. unfold EncodeExtKey. rewrite Hcode. cbn [mbind option_bind]. intros HE.
    rewrite (ext_leading D (EXT_SECRET_KEY main_prefixes) code (dig <$> chars "xpub") E ltac:(split_Forall; unfold in_uint; simpl; lia) Hb Hl eq_refl HE). reflexivity.
  - intros E. unfold EncodeExtPubKey. rewrite Hycode. cbn [mbind option_bind]. intros HE.
    rewrite (ext_leading D (EXT_PUBLIC_KEY main_prefixes) ycode (dig <$> chars "xprv") E ltac:(split_Forall; unfold in_uint; simpl; lia) Hyb Hyl eq_refl HE). reflexivity.
  - unfold EncodeExtPubKey, DecodeExtKey. rewrite Hycode. cbn [mbind option_bind].
    destruct (check_roundtrip D (EXT_PUBLIC_KEY test_prefixes ++ ycode)) as (E & HE & HDE).
    { apply Forall_app. split; [|done]. split_Forall; unfold in_uint; simpl; lia. }
    { rewrite length_app, Hyl. simpl. lia. }
    rewrite HE. exists E, (CExtKey_Decode ycode). split; [done|]. rewrite HDE. cbn [mbind option_bind].
    change (EXT_PUBLIC_KEY test_prefixes) with (EXT_SECRET_KEY test_prefixes).
    rewrite has_prefix_app, Hyl, drop_app_length. cbn [Nat.eqb BIP32_EXTKEY_SIZE]. split; [done|].
    unfold CExtKey_Decode. cbn [ext_of]. replace 42%nat with (41 + 1)%nat by lia. by rewrite <- drop_drop, Hyd.
Qed.

(** ** Witnesses *)

(** a library that accepts the secrets other than zero *)
Definition example_seckey : SecKey := {| ec_seckey_verify k := negb (bool_decide (k = replicate 32 0)) |}.
Definition example_ext {A} (k : A) : ext_key A := mkExtKey 3 [1; 2; 3; 4] 2147483649 (replicate 32 9) k.
Definition example_key : CKey := mkKey true true (replicate 32 7).
Definition example_pubkey : PubKey.CPubKey := [2] ++ replicate 64 5.

Lemma example_head {A} (k : A) : head_ok (example_ext k).
Proof. split_and!; try done; cbn [example_ext vchFingerprint chaincode]; try (unfold in_uint; simpl; lia); split_Forall; unfold in_uint; lia. Qed.
Lemma example_key_ok : @key_ok example_seckey example_key.
Proof. split_and!; try done. cbn [example_key keydata]. by apply Forall_replicate. Qed.
Lemma example_pubkey_ok : pubkey_ok example_pubkey.
Proof. split_and!; try done. apply Forall_app. split; [split_Forall; unfold in_uint; lia|by apply Forall_replicate]. Qed.
Lemma main_ext_ok p : p ∈ [SECRET_KEY main_prefixes; EXT_SECRET_KEY main_prefixes; EXT_PUBLIC_KEY main_prefixes] -> ext_params_ok p.
Proof. revert p. apply Forall_forall. repeat (apply Forall_cons; split); try apply Forall_nil; try done; (split; [split_Forall; unfold in_uint; lia|simpl; lia]). Qed.

Lemma address_roundtrip_witness :
  exists E, EncodeDestination Sha256.standard main_prefixes (CScriptID (replicate 20 7)) = Some E /\
            DecodeDestination Sha256.standard main_prefixes E = Some (CScriptID (replicate 20 7)).
Proof.
  refine (proj1 (address_roundtrip Sha256.standard main_prefixes (CScriptID (replicate 20 7)) _ _)).
  - split_and!; try done; split_Forall; unfold in_uint; lia.
  - split; [by apply Forall_replicate|done].
Defined.

Lemma keys_roundtrip_witness :
  exists E, EncodeSecret Sha256.standard main_prefixes example_key = Some E /\
            @DecodeSecret Sha256.standard example_seckey main_prefixes E = Some example_key.
Proof.
  refine (proj1 (keys_roundtrip Sha256.standard (H:=example_seckey) main_prefixes example_key (example_ext example_key) (example_ext example_pubkey) _ _ _ _ _ _ _ _ _)).
  1-3: apply main_ext_ok; set_solver.
  1,3: apply example_key_ok. 1,3: apply example_head. 1: reflexivity. apply example_pubkey_ok.
Defined.

Lemma ext_prefixes_witness :
  exists E x', EncodeExtPubKey Sha256.standard test_prefixes (example_ext example_pubkey) = Some E /\
    @DecodeExtKey Sha256.standard example_seckey test_prefixes E = Some (Some x') /\
    ext_of x' = @CKey_Set example_seckey CKey_new (drop 1 (take 33 example_pubkey)) true.
Proof.
  refine (proj2 (proj2 (ext_prefixes Sha256.standard (H:=example_seckey) (example_ext example_key) (example_ext example_pubkey) _ _ _ _ _))).
  2: apply example_key_ok. 1,3: apply example_head. 1: reflexivity. apply example_pubkey_ok.
Defined.
