(* ===== verification/Strings.v ===== *)
(** * Strings: utilstrencodings.h, utilstrencodings.cpp, utilmoneystr.cpp

    Hexadecimal, base 64 and base 32, numbers and amounts of money as text.  A string is the list of
    its character codes; what takes a [const char*] takes the characters up to the terminating zero.
    An integer that a function stores through a pointer is returned beside its answer. *)

From Stdlib Require Import Ascii String.
From S2P Require Import Prelude Uint256 Base58 Transaction.

(** ** Character classes *)

Definition CHARS_ALPHA_NUM : list Z := chars "abcdefghijklmnopqrstuvwxyzABCDEFGHIJKLMNOPQRSTUVWXYZ0123456789".
Inductive SafeChars := SAFE_CHARS_DEFAULT | SAFE_CHARS_UA_COMMENT | SAFE_CHARS_FILENAME.
Definition SAFE_CHARS (rule : SafeChars) : list Z :=
  match rule with
  | SAFE_CHARS_DEFAULT => CHARS_ALPHA_NUM ++ chars " .,;-_/:?@()"
  | SAFE_CHARS_UA_COMMENT => CHARS_ALPHA_NUM ++ chars " .,;-_?@"
  | SAFE_CHARS_FILENAME => CHARS_ALPHA_NUM ++ chars ".-_"
  end.
Definition SanitizeString (str : list Z) (rule : SafeChars) : list Z := filter (λ c, c ∈ SAFE_CHARS rule) str.

Definition IsDigit (c : Z) : bool := (48 <=? c) && (c <=? 57).

(** ** Hexadecimal *)

Definition IsHex (str : list Z) : bool :=
  forallb (λ c, negb (HexDigit c <? 0)) str && ((0 <? List.length str) && (List.length str `mod` 2 =? 0)).

Definition IsHexNumber (str : list Z) : bool :=
  let starting_location := if bool_decide (2 < List.length str)%nat && bool_decide (take 2 str = [48; 120]) then 2%nat else 0%nat in
  forallb (λ c, negb (HexDigit c <? 0)) (drop starting_location str) && (starting_location <? List.length str)%nat.

(** A round reads a character at least; the terminating zero is not a digit. *)
Fixpoint ParseHex_loop (fuel : nat) (psz : list Z) : list Z :=
  match fuel with
  | O => []
  | S fuel =>
      match Blob.skip_spaces psz with
      | [] => []
      | c1 :: psz =>
          if HexDigit c1 =? -1 then []
          else match psz with
               | [] => []
               | c2 :: psz =>
                   if HexDigit c2 =? -1 then []
                   else u8 (u8 (HexDigit c1 << 4) ||| HexDigit c2) :: ParseHex_loop fuel psz
               end
      end
  end.
Definition ParseHex (psz : list Z) : list Z := ParseHex_loop (List.length psz) psz.

(** with spaces between the bytes *)
Fixpoint HexStr_spaced (it : list Z) : list Z :=
  match it with
  | [] => []
  | val :: it' =>
      [hexmap !!! Z.to_nat (val >> 4); hexmap !!! Z.to_nat (val &&& 15)] ++
      match it' with [] => [] | _ => 32 :: HexStr_spaced it' end
  end.

(** ** Between powers of two *)

(** the inner loop: what it gives out, and the bits left *)
Fixpoint emit_loop (fuel : nat) (tobits acc bits : Z) : list Z * Z :=
  match fuel with
  | O => ([], bits)
  | S fuel =>
      if tobits <=? bits then
        let bits := bits - tobits in
        let '(out, rest) := emit_loop fuel tobits acc bits in
        (((acc >> bits) &&& ((1 << tobits) - 1)) :: out, rest)
      else ([], bits)
  end.

Fixpoint convert_loop (frombits tobits : Z) (it : list Z) (acc bits : Z) : list Z * Z * Z :=
  match it with
  | [] => ([], acc, bits)
  | x :: it =>
      let acc := ((acc << frombits) ||| x) &&& ((1 << (frombits + tobits - 1)) - 1) in
      let '(out, bits) := emit_loop (Z.to_nat (bits + frombits)) tobits acc (bits + frombits) in
      let '(out', acc, bits) := convert_loop frombits tobits it acc bits in
      (out ++ out', acc, bits)
  end.

(** what is given out, and the result *)
Definition ConvertBits (frombits tobits : Z) (pad : bool) (it : list Z) : list Z * bool :=
  let maxv := (1 << tobits) - 1 in
  let '(out, acc, bits) := convert_loop frombits tobits it 0 0 in
  if pad then (if bits =? 0 then out else out ++ [(acc << (tobits - bits)) &&& maxv], true)
  else (out, negb ((frombits <=? bits) || negb (((acc << (tobits - bits)) &&& maxv) =? 0))).

Section radix.
(** the bits of a digit, the digits of a group, the alphabet and the table *)
Context (bits group : Z) (alphabet : list Z) (table : Z -> Z).

Definition pad_group (str : list Z) : list Z :=
  str ++ replicate (Z.to_nat ((- List.length str) `mod` group)) 61.
Definition encode_radix (pch : list Z) : list Z :=
  pad_group ((λ v, alphabet !!! Z.to_nat v) <$> (ConvertBits 8 bits true pch).1).

(** the digits up to the first character that is none, and the rest *)
Fixpoint radix_digits (p : list Z) : list Z * list Z :=
  match p with
  | [] => ([], [])
  | c :: p' => if table (u8 c) =? -1 then ([], p) else let '(val, rest) := radix_digits p' in (table (u8 c) :: val, rest)
  end.

(** the bytes, and whether the string is valid *)
Definition decode_radix (p : list Z) : list Z * bool :=
  let '(val, rest) := radix_digits p in
  let '(ret, valid) := ConvertBits bits 8 false val in
  (ret, valid && forallb (λ c, c =? 61) rest && (List.length p `mod` group =? 0) && (List.length rest <? group)).
End radix.

Definition pbase64 : list Z := chars "ABCDEFGHIJKLMNOPQRSTUVWXYZabcdefghijklmnopqrstuvwxyz0123456789+/".
Definition decode64_table : list Z :=
  replicate 43 (-1) ++ [62] ++ replicate 3 (-1) ++ [63] ++ seqZ 52 10 ++ replicate 7 (-1) ++ seqZ 0 26 ++ replicate 6 (-1) ++ seqZ 26 26 ++
  replicate 133 (-1).
Definition EncodeBase64 (pch : list Z) : list Z := encode_radix 6 4 pbase64 pch.
Definition DecodeBase64 (p : list Z) : list Z * bool := decode_radix 6 4 (λ c, decode64_table !!! Z.to_nat c) p.

Definition pbase32 : list Z := chars "abcdefghijklmnopqrstuvwxyz234567".
Definition decode32_table : list Z :=
  replicate 50 (-1) ++ seqZ 26 6 ++ replicate 9 (-1) ++ seqZ 0 26 ++ replicate 6 (-1) ++ seqZ 0 26 ++ replicate 133 (-1).
Definition EncodeBase32 (pch : list Z) : list Z := encode_radix 5 8 pbase32 pch.
Definition DecodeBase32 (p : list Z) : list Z * bool := decode_radix 5 8 (λ c, decode32_table !!! Z.to_nat c) p.

(** ** Numbers *)

(** the decimal digits of a number, and ["%d"] *)
Fixpoint decimal_loop (fuel : nat) (n : Z) (acc : list Z) : list Z :=
  match fuel with
  | O => acc
  | S fuel => let acc := 48 + n `mod` 10 :: acc in if n / 10 =? 0 then acc else decimal_loop fuel (n / 10) acc
  end.
Definition decimal (n : Z) : list Z := decimal_loop (S (Z.to_nat (Z.log2 n))) n [].
Definition i64tostr (n : Z) : list Z := if n <? 0 then 45 :: decimal (- n) else decimal n.

(** The digits at the head of a string, as [strtol] reads them, and the rest. *)
Fixpoint read_digits (s : list Z) (n : Z) : Z * list Z :=
  match s with
  | c :: s' => if IsDigit c then read_digits s' (10 * n + (c - 48)) else (n, s)
  | [] => (n, [])
  end.
(** the sign, and what follows it *)
Definition read_sign (s : list Z) : bool * list Z :=
  match s with c :: s' => if c =? 45 then (true, s') else if c =? 43 then (false, s') else (false, s) | [] => (false, []) end.

(** [strtol] and [strtoll] with base 10: the value, [endp] and whether [errno] is set.  Without digits nothing
    is read. *)
Definition strtoll (s : list Z) : Z * list Z * bool :=
  let '(neg, s') := read_sign (Blob.skip_spaces s) in
  let '(n, rest) := read_digits s' 0 in
  if (List.length rest =? List.length s')%nat then (0, s, false)
  else
    let n := if neg then - n else n in
    if n <? - 2 ^ 63 then (- 2 ^ 63, rest, true) else if 2 ^ 63 - 1 <? n then (2 ^ 63 - 1, rest, true) else (n, rest, false).
(** [strtoul] and [strtoull]: a sign negates in the unsigned type *)
Definition strtoull (s : list Z) : Z * list Z * bool :=
  let '(neg, s') := read_sign (Blob.skip_spaces s) in
  let '(n, rest) := read_digits s' 0 in
  if (List.length rest =? List.length s')%nat then (0, s, false)
  else if 2 ^ 64 - 1 <? n then (2 ^ 64 - 1, rest, true) else (u64 (if neg then - n else n), rest, false).

Definition ParsePrechecks (str : list Z) : bool :=
  match str with
  | [] => false
  | c :: _ =>
      negb (isspace c || isspace (List.last str 0)) && (List.length str =? List.length (c_str str))%nat
  end.

(** The answer and what is stored. *)
Definition ParseInt32 (str : list Z) : bool * option Z :=
  if negb (ParsePrechecks str) then (false, None)
  else let '(n, endp, errno) := strtoll str in
       ((List.length endp =? 0)%nat && negb errno && (- 2 ^ 31 <=? n) && (n <=? 2 ^ 31 - 1), Some (i32 n)).
Definition ParseInt64 (str : list Z) : bool * option Z :=
  if negb (ParsePrechecks str) then (false, None)
  else let '(n, endp, errno) := strtoll str in
       ((List.length endp =? 0)%nat && negb errno && (- 2 ^ 63 <=? n) && (n <=? 2 ^ 63 - 1), Some n).
Definition starts_minus (str : list Z) : bool := match str with c :: _ => c =? 45 | [] => false end.
Definition ParseUInt32 (str : list Z) : bool * option Z :=
  if negb (ParsePrechecks str) || starts_minus str then (false, None)
  else let '(n, endp, errno) := strtoull str in
       ((List.length endp =? 0)%nat && negb errno && (n <=? 2 ^ 32 - 1), Some (u32 n)).
Definition ParseUInt64 (str : list Z) : bool * option Z :=
  if negb (ParsePrechecks str) || starts_minus str then (false, None)
  else let '(n, endp, errno) := strtoull str in
       ((List.length endp =? 0)%nat && negb errno && (n <=? 2 ^ 64 - 1), Some n).

Definition atoi64 (psz : list Z) : Z := (strtoll psz).1.1.

(** ** Fixed-point numbers *)

Definition UPPER_BOUND : Z := 1000000000000000000 - 1.

Fixpoint scale_up (k : nat) (mantissa : Z) : option Z :=
  match k with
  | O => Some mantissa
  | S k => if UPPER_BOUND / 10 <? mantissa then None else scale_up k (mantissa * 10)
  end.
Definition ProcessMantissaDigit (ch mantissa mantissa_tzeros : Z) : option (Z * Z) :=
  if ch =? 48 then Some (mantissa, mantissa_tzeros + 1)
  else m ← scale_up (S (Z.to_nat mantissa_tzeros)) mantissa; Some (m + (ch - 48), 0).

(** the digits at the head: mantissa, trailing zeros, how many digits, and the rest *)
Fixpoint mantissa_loop (val : list Z) (mantissa mantissa_tzeros point_ofs : Z) : option (Z * Z * Z * list Z) :=
  match val with
  | c :: val' =>
      if IsDigit c then
        '(mantissa, mantissa_tzeros) ← ProcessMantissaDigit c mantissa mantissa_tzeros;
        mantissa_loop val' mantissa mantissa_tzeros (point_ofs + 1)
      else Some (mantissa, mantissa_tzeros, point_ofs, val)
  | [] => Some (mantissa, mantissa_tzeros, point_ofs, [])
  end.
Fixpoint exponent_loop (val : list Z) (exponent : Z) : option (Z * list Z) :=
  match val with
  | c :: val' =>
      if IsDigit c then (if UPPER_BOUND / 10 <? exponent then None else exponent_loop val' (exponent * 10 + (c - 48)))
      else Some (exponent, val)
  | [] => Some (exponent, [])
  end.
(** the last loop *)
Fixpoint scale_out (k : nat) (mantissa : Z) : option Z :=
  match k with
  | O => Some mantissa
  | S k => if (UPPER_BOUND / 10 <? mantissa) || (mantissa <? - (UPPER_BOUND / 10)) then None else scale_out k (mantissa * 10)
  end.

Definition starts_digit (val : list Z) : bool := match val with c :: _ => IsDigit c | [] => false end.

(** mantissa and its trailing zeros from the part before the point *)
Definition parse_whole (val : list Z) : option (Z * Z * list Z) :=
  match val with
  | [] => None
  | c :: val' =>
      if c =? 48 then Some (0, 0, val')
      else if (49 <=? c) && (c <=? 57) then '(m, z, _, rest) ← mantissa_loop val 0 0 0; Some (m, z, rest)
      else None
  end.
Definition parse_fraction (mantissa mantissa_tzeros : Z) (val : list Z) : option (Z * Z * Z * list Z) :=
  match val with
  | c :: val' =>
      if c =? 46 then (if starts_digit val' then mantissa_loop val' mantissa mantissa_tzeros 0 else None)
      else Some (mantissa, mantissa_tzeros, 0, val)
  | [] => Some (mantissa, mantissa_tzeros, 0, [])
  end.
Definition parse_exponent (val : list Z) : option (Z * list Z) :=
  match val with
  | c :: val' =>
      if (c =? 101) || (c =? 69) then
        let '(exponent_sign, val') := read_sign val' in
        if starts_digit val' then
          '(exponent, rest) ← exponent_loop val' 0; Some (if exponent_sign then - exponent else exponent, rest)
        else None
      else Some (0, val)
  | [] => Some (0, [])
  end.

(** [None]: the function returns false *)
Definition ParseFixedPoint (val : list Z) (decimals : Z) : option Z :=
  let '(mantissa_sign, val) :=
    match val with c :: val' => if c =? 45 then (true, val') else (false, val) | [] => (false, []) end in
  '(mantissa, mantissa_tzeros, val) ← parse_whole val;
  '(mantissa, mantissa_tzeros, point_ofs, val) ← parse_fraction mantissa mantissa_tzeros val;
  '(exponent, val) ← parse_exponent val;
  match val with
  | _ :: _ => None
  | [] =>
      let exponent := i64 (i64 (exponent - point_ofs + mantissa_tzeros) + decimals) in
      let mantissa := if mantissa_sign then - mantissa else mantissa in
      if exponent <? 0 then None
      else if 18 <=? exponent then None
      else
        m ← scale_out (Z.to_nat exponent) mantissa;
        if (UPPER_BOUND <? m) || (m <? - UPPER_BOUND) then None else Some m
  end.

(** ** Money: utilmoneystr.cpp *)

Definition CENT : Z := 1000000.

(** ["%08d"] *)
Definition pad8 (n : Z) : list Z := let d := i64tostr n in replicate (8 - List.length d) 48 ++ d.

(** the loop that trims: the characters from the last one back *)
Fixpoint trim_zeros (r : list Z) : list Z :=
  match r with
  | c :: r' => if (c =? 48) && match r' with _ :: c2 :: _ => IsDigit c2 | _ => false end then trim_zeros r' else r
  | [] => []
  end.

Definition FormatMoney (n : Z) : list Z :=
  let n_abs := i64 (if 0 <? n then n else - n) in
  let quotient := Z.quot n_abs COIN in
  let remainder := Z.rem n_abs COIN in
  let str := i64tostr quotient ++ [46] ++ pad8 remainder in
  let str := rev (trim_zeros (rev str)) in
  if n <? 0 then 45 :: str else str.

(** the digits after the point: units and the rest *)
Fixpoint money_units (p : list Z) (nUnits nMult : Z) : Z * list Z :=
  match p with
  | c :: p' => if IsDigit c && (0 <? nMult) then money_units p' (nUnits + nMult * (c - 48)) (nMult / 10) else (nUnits, p)
  | [] => (nUnits, [])
  end.
(** the loop over the whole coins: digits, units and the rest; [None] when another character is met *)
Fixpoint money_whole (p : list Z) : option (list Z * Z * list Z) :=
  match p with
  | [] => Some ([], 0, [])
  | c :: p' =>
      if c =? 46 then let '(nUnits, rest) := money_units p' 0 (CENT * 10) in Some ([], nUnits, rest)
      else if isspace c then Some ([], 0, p)
      else if negb (IsDigit c) then None
      else '(strWhole, nUnits, rest) ← money_whole p'; Some (c :: strWhole, nUnits, rest)
  end.

Definition ParseMoney (pszIn : list Z) : option Z :=
  '(strWhole, nUnits, rest) ← money_whole (Blob.skip_spaces pszIn);
  if negb (forallb isspace rest) then None
  else if (10 <? List.length strWhole)%nat then None
  else if (nUnits <? 0) || (COIN <? nUnits) then None
  else Some (i64 (i64 (atoi64 strWhole * COIN) + nUnits)).

(** ** Hosts and ports, comparison *)

(** before and after the last occurrence of [c] *)
Fixpoint split_last (c : Z) (s : list Z) : option (list Z * list Z) :=
  match s with
  | [] => None
  | x :: s' =>
      match split_last c s' with
      | Some (a, b) => Some (x :: a, b)
      | None => if x =? c then Some ([], s') else None
      end
  end.

(** the port and the host; [portOut] is kept when there is none *)
Definition SplitHostPort (str : list Z) (portOut : Z) : Z * list Z :=
  let '(portOut, str) :=
    match split_last 58 str with
    | Some (host, port) =>
        let fBracketed := bool_decide (head str = Some 91) && bool_decide (last host = Some 93) in
        let fMultiColon := bool_decide (58 ∈ host) in
        if (List.length host =? 0)%nat || fBracketed || negb fMultiColon then
          match ParseInt32 port with
          | (true, Some n) => if (0 <? n) && (n <? 0x10000) then (n, host) else (portOut, str)
          | _ => (portOut, str)
          end
        else (portOut, str)
    | None => (portOut, str)
    end in
  (portOut,
   if bool_decide (head str = Some 91) && bool_decide (last str = Some 93) then take (List.length str - 2) (drop 1 str) else str).

(** [a[i] ^ b[i % b.size()]], from index [i] on *)
Fixpoint accumulate (a b : list Z) (i : nat) (accumulator : Z) : Z :=
  match a with
  | [] => accumulator
  | x :: a => accumulate a b (S i) (accumulator ||| (x ^^ (b !!! (i `mod` List.length b)%nat)))
  end.
Definition TimingResistantEqual (a b : list Z) : bool :=
  if (List.length b =? 0)%nat then (List.length a =? 0)%nat
  else accumulate a b 0 (Z.of_nat (List.length a) ^^ Z.of_nat (List.length b)) =? 0.
