(* ===== verification/StringsLaws.v ===== *)
(** * Strings: canonical encodings, numbers and money *)

From Stdlib Require Import Ascii String.
From S2P Require Import Prelude Uint256 Base58 Base58Laws Transaction Strings.

(** ** Bits, the most significant first *)

Fixpoint bits_of (k : nat) (x : Z) : list bool :=
  match k with O => [] | S k => Z.testbit x k :: bits_of k x end.

Lemma length_bits_of k x : List.length (bits_of k x) = k.
Proof. induction k as [|k IH]; simpl; by rewrite ?IH. Qed.

Lemma bits_of_ext (k : nat) x y : (forall i, 0 <= i < k -> Z.testbit x i = Z.testbit y i) -> bits_of k x = bits_of k y.
Proof. induction k as [|k IH]; intros H; [done|]. simpl. rewrite (H k) by lia. f_equal. apply IH. intros i Hi. apply H. lia. Qed.

Lemma bits_of_inv (k : nat) x y : bits_of k x = bits_of k y -> forall i, 0 <= i < k -> Z.testbit x i = Z.testbit y i.
Proof.
  induction k as [|k IH]; intros H i Hi; [lia|]. injection H as H1 H2.
  destruct (decide (i = k)) as [->|]; [done|]. apply IH; [done|lia].
Qed.

Lemma bits_of_inj (k : nat) x y : in_uint k x -> in_uint k y -> bits_of k x = bits_of k y -> x = y.
Proof. intros Hx Hy H. apply (uint_bits_inj k); [lia|done|done|]. by apply bits_of_inv. Qed.

Lemma bits_of_add (a b : nat) x : bits_of (a + b) x = bits_of a (x >> b) ++ bits_of b x.
Proof.
  induction a as [|a IH]; [done|]. simpl. rewrite IH. f_equal. rewrite Z.shiftr_spec by lia. f_equal. lia.
Qed.

Lemma bits_of_ones (k : nat) m x : k <= m -> bits_of k (x &&& Z.ones m) = bits_of k x.
Proof.
  intros H. apply bits_of_ext. intros i Hi. rewrite Z.land_spec, Z.ones_spec_low by lia. apply andb_true_r.
Qed.

Lemma bits_of_zeros (k : nat) x : in_uint k x -> bits_of k x = replicate k false <-> x = 0.
Proof.
  intros Hx. assert (forall n, bits_of n 0 = replicate n false) as H0.
  { induction n as [|n IH]; [done|]. simpl. by rewrite IH, Z.testbit_0_l. }
  rewrite <- H0. split; [|by intros ->]. intros E. apply (bits_of_inj k); [done|split; [lia|]|done]. apply Z.pow_pos_nonneg; lia.
Qed.

Lemma ones_of tobits : (1 << tobits) - 1 = Z.ones tobits.
Proof. rewrite Z.ones_equiv, Z.shiftl_1_l. lia. Qed.

Lemma in_uint_ones k x : 0 <= k -> in_uint k (x &&& Z.ones k).
Proof. intros Hk. rewrite <- uint_land by done. by apply uint_range. Qed.

(** all the bits of a list of digits *)
Definition stream (k : nat) (l : list Z) : list bool := l ≫= bits_of k.

Lemma length_stream k l : List.length (stream k l) = (k * List.length l)%nat.
Proof. induction l as [|x l IH]; [simpl; lia|]. cbn [stream mbind list_bind List.length]. rewrite length_app, length_bits_of. fold (stream k l). rewrite IH. lia. Qed.

Lemma stream_app k l l' : stream k (l ++ l') = stream k l ++ stream k l'.
Proof. apply bind_app. Qed.

Lemma stream_inj (k : nat) l l' r r' : Forall (in_uint k) l -> Forall (in_uint k) l' -> List.length l = List.length l' ->
  stream k l ++ r = stream k l' ++ r' -> l = l' /\ r = r'.
Proof.
  intros Hl. revert l'. induction Hl as [|x l Hx _ IH]; intros [|x' l'] Hl' Hlen E; try done.
  apply Forall_cons in Hl' as [Hx' Hl']. unfold stream in E. cbn [mbind list_bind] in E. rewrite <- !(assoc_L app) in E.
  apply app_inj_1 in E as [E1 E2]; [|by rewrite !length_bits_of].
  apply bits_of_inj in E1 as ->; [|done..]. apply (IH l') in E2 as [-> ->]; [done|done|]. by injection Hlen.
Qed.

(** ** ConvertBits *)

Section convert.
Context (from to : nat) (Hfrom : (0 < from)%nat) (Hto : (0 < to)%nat).

Lemma emit_spec fuel acc (bits : nat) :
  (bits <= fuel)%nat ->
  exists out (r : nat), emit_loop fuel to acc bits = (out, Z.of_nat r) /\ (r < to)%nat /\ Forall (in_uint to) out /\
    bits_of bits acc = stream to out ++ bits_of r acc.
Proof.
  revert bits. induction fuel as [|fuel IH]; intros bits Hf; cbn [emit_loop].
  - exists [], bits. split; [done|]. split; [lia|]. split; [constructor|done].
  - destruct (Z.leb_spec to bits) as [Hge|]; [|exists [], bits; split; [done|]; split; [lia|]; split; [constructor|done]].
    destruct (IH (bits - to)%nat ltac:(lia)) as (out & r & E & Hr & Ho & Hb). rewrite Nat2Z.inj_sub in E by lia. rewrite E, ones_of.
    eexists _, r. split; [done|]. split; [done|]. split; [constructor; [apply in_uint_ones; lia|done]|].
    replace bits with (to + (bits - to))%nat at 1 by lia. rewrite bits_of_add, Hb, (assoc_L app). f_equal. unfold stream. cbn [mbind list_bind].
    f_equal. rewrite bits_of_ones by lia. f_equal. f_equal. lia.
Qed.

Lemma convert_spec it acc (bits : nat) :
  (bits < to)%nat -> Forall (in_uint from) it ->
  exists out acc' (r : nat), convert_loop from to it acc bits = (out, acc', Z.of_nat r) /\ (r < to)%nat /\ Forall (in_uint to) out /\
    bits_of bits acc ++ stream from it = stream to out ++ bits_of r acc'.
Proof.
  intros Hb Hit. revert acc bits Hb. induction Hit as [|x it Hx _ IH]; intros acc bits Hb; cbn [convert_loop].
  - exists [], acc, bits. repeat (split; [done || constructor|]). by rewrite app_nil_r.
  - rewrite ones_of. set (acc1 := ((acc << from) ||| x) &&& Z.ones (from + to - 1)).
    replace (bits + from) with (Z.of_nat (bits + from)) by lia. rewrite Nat2Z.id.
    destruct (emit_spec (bits + from) acc1 (bits + from) ltac:(lia)) as (out & r & -> & Hr & Ho & E).
    destruct (IH acc1 r Hr) as (out' & acc' & r' & -> & Hr' & Ho' & E').
    exists (out ++ out'), acc', r'. split; [done|]. split; [done|]. split; [by apply Forall_app|].
    unfold stream at 1. cbn [mbind list_bind]. fold (stream from it). rewrite (assoc_L app).
    assert (bits_of bits acc ++ bits_of from x = bits_of (bits + from) acc1) as ->.
    { subst acc1. rewrite bits_of_ones by lia. rewrite bits_of_add. f_equal.
      - apply bits_of_ext. intros i Hi. autorewrite with bits. rewrite (testbit_in_uint from x) by (done || lia).
        rewrite orb_false_r. f_equal. lia.
      - apply bits_of_ext. intros i Hi. autorewrite with bits. by rewrite (Z.testbit_neg_r acc) by lia. }
    rewrite E, <- (assoc_L app), E', stream_app, (assoc_L app). done.
Qed.

Lemma shifted_rest acc (r : nat) : (r <= to)%nat ->
  bits_of to ((acc << (to - r)) &&& Z.ones to) = bits_of r acc ++ replicate (to - r) false.
Proof.
  intros Hr. rewrite bits_of_ones by lia. replace to with (r + (to - r))%nat at 1 by lia. rewrite bits_of_add. f_equal.
  - apply bits_of_ext. intros i Hi. autorewrite with bits. f_equal. lia.
  - rewrite <- (proj2 (bits_of_zeros (to - r) 0 ltac:(split; [lia|apply Z.pow_pos_nonneg; lia])) eq_refl).
    apply bits_of_ext. intros i Hi. autorewrite with bits. rewrite Z.testbit_0_l. apply Z.testbit_neg_r. lia.
Qed.

Lemma ConvertBits_pad it : Forall (in_uint from) it ->
  exists out (z : nat), ConvertBits from to true it = (out, true) /\ Forall (in_uint to) out /\ (z < to)%nat /\
    stream to out = stream from it ++ replicate z false.
Proof.
  intros Hit. destruct (convert_spec it 0 0 Hto Hit) as (out & acc & r & E & Hr & Ho & Hs). unfold ConvertBits.
  change (Z.of_nat 0) with 0 in E. rewrite E, ones_of. cbn [bits_of app] in Hs. rewrite Hs. destruct (Z.eqb_spec r 0) as [Hz|Hz].
  - exists out, 0%nat. split; [done|]. split; [done|]. split; [lia|]. assert (r = 0%nat) as -> by lia. by rewrite !app_nil_r.
  - eexists _, (to - r)%nat. split; [done|]. split; [apply Forall_app; split; [done|]; constructor; [apply in_uint_ones; lia|constructor]|].
    split; [lia|]. rewrite stream_app, <- (assoc_L app). f_equal. unfold stream. cbn [mbind list_bind]. rewrite app_nil_r.
    apply shifted_rest. lia.
Qed.

Lemma ConvertBits_exact it : Forall (in_uint from) it ->
  exists out valid (r : nat) rest, ConvertBits from to false it = (out, valid) /\ Forall (in_uint to) out /\ (r < to)%nat /\
    List.length rest = r /\ stream from it = stream to out ++ rest /\ (valid = true <-> (r < from)%nat /\ rest = replicate r false).
Proof.
  intros Hit. destruct (convert_spec it 0 0 Hto Hit) as (out & acc & r & E & Hr & Ho & Hs). unfold ConvertBits.
  change (Z.of_nat 0) with 0 in E. rewrite E, ones_of. cbn [bits_of app] in Hs.
  eexists out, _, r, (bits_of r acc). split; [done|]. split; [done|]. split; [done|]. split; [apply length_bits_of|]. split; [done|].
  rewrite negb_true_iff, orb_false_iff, negb_false_iff, Z.leb_gt, Z.eqb_eq.
  rewrite <- (bits_of_zeros to) by (apply in_uint_ones; lia). rewrite shifted_rest by lia.
  assert (replicate to false = replicate r false ++ replicate (to - r) false) as -> by (rewrite <- replicate_add; f_equal; lia).
  split; intros [H1 H2]; (split; [lia|]).
  - by apply app_inv_tail in H2.
  - by rewrite H2.
Qed.
End convert.

Lemma ConvertBits_roundtrip (b : nat) v : (0 < b <= 8)%nat -> bytes v ->
  exists digits, ConvertBits 8 b true v = (digits, true) /\ Forall (in_uint b) digits /\ ConvertBits b 8 false digits = (v, true).
Proof.
  intros Hb Hv. destruct (ConvertBits_pad 8 b ltac:(lia) ltac:(lia) v Hv) as (d & z & E & Hd & Hz & Hs). exists d.
  split; [done|]. split; [done|].
  destruct (ConvertBits_exact b 8 ltac:(lia) ltac:(lia) d Hd) as (out & valid & r & rest & E' & Ho & Hr & Hlr & Hs' & Hval).
  change (Z.of_nat 8) with 8 in E'. rewrite E'. rewrite Hs in Hs'.
  assert (8 * length v + z = 8 * length out + r)%nat as Hlen.
  { apply (f_equal List.length) in Hs'. rewrite !length_app, !length_stream, length_replicate, Hlr in Hs'. done. }
  apply stream_inj in Hs' as [-> Hr0]; [|done..|lia]. f_equal. apply Hval. split; [lia|]. rewrite <- Hr0. f_equal. lia.
Qed.

Lemma ConvertBits_canonical (b : nat) digits v : (0 < b <= 8)%nat -> Forall (in_uint b) digits ->
  ConvertBits b 8 false digits = (v, true) -> bytes v /\ ConvertBits 8 b true v = (digits, true).
Proof.
  intros Hb Hd E. destruct (ConvertBits_exact b 8 ltac:(lia) ltac:(lia) digits Hd) as (out & valid & r & rest & E' & Ho & Hr & Hlr & Hs & Hval).
  change (Z.of_nat 8) with 8 in E'. rewrite E in E'. injection E' as <- <-. destruct (proj1 Hval eq_refl) as [Hrb ->]. split; [done|].
  destruct (ConvertBits_pad 8 b ltac:(lia) ltac:(lia) v Ho) as (d & z & Ed & Hdd & Hz & Hs'). change (Z.of_nat 8) with 8 in Ed. rewrite Ed.
  assert (b * length d + r = b * length digits + z)%nat as Hlen.
  { apply (f_equal List.length) in Hs, Hs'. rewrite !length_app, !length_stream, !length_replicate in Hs, Hs'. lia. }
  assert (length d = length digits) by nia. assert (r = z) as -> by nia. rewrite <- Hs in Hs'.
  rewrite <- (app_nil_r (stream b d)), <- (app_nil_r (stream b digits)) in Hs'. by apply stream_inj in Hs' as [-> _].
Qed.

(** ** Base 64 and base 32 *)

Section radix.
Context (b : nat) (group : Z) (alphabet : list Z) (table norm : Z -> Z).
Context (Hb : (0 < b <= 8)%nat) (Hg : 0 < group)
  (Hch : forall d, in_uint b d -> let c := alphabet !!! Z.to_nat d in is_byte c /\ table c = d)
  (Htab : forall c, is_byte c -> table c = -1 \/ in_uint b (table c) /\ norm c = alphabet !!! Z.to_nat (table c))
  (Hnorm : forall c, is_byte c -> is_byte (norm c) /\ table (norm c) = table c /\ (norm c =? 61) = (c =? 61))
  (Hpad : table 61 = -1 /\ norm 61 = 61).

Let enc := encode_radix b group alphabet.
Let dec := decode_radix b group table.
Let letter (d : Z) := alphabet !!! Z.to_nat d.

Lemma radix_digits_letters ds rest : Forall (in_uint b) ds -> head rest = Some 61 \/ rest = [] ->
  radix_digits table ((letter <$> ds) ++ rest) = (ds, rest).
Proof.
  intros Hds Hr. induction Hds as [|d ds Hd _ IH]; cbn [fmap list_fmap app radix_digits].
  - destruct Hr as [Hr| ->]; [|done]. destruct rest as [|c rest]; [done|]. injection Hr as ->. cbn [radix_digits].
    change (u8 61) with 61. by rewrite (proj1 Hpad).
  - destruct (Hch d Hd) as [Hbyte Ht]. assert (table (u8 (letter d)) = d) as -> by (rewrite uint_small; done).
    destruct (Z.eqb_spec d (-1)); [destruct Hd; lia|]. by rewrite IH.
Qed.

Lemma radix_digits_spec p ds rest : bytes p -> radix_digits table p = (ds, rest) ->
  exists cs, p = cs ++ rest /\ Forall (in_uint b) ds /\ norm <$> cs = letter <$> ds.
Proof.
  intros Hp. revert ds rest. induction Hp as [|c p Hc _ IH]; intros ds rest; cbn [radix_digits].
  - intros [= <- <-]. by exists [].
  - rewrite uint_small by done. destruct (Htab c Hc) as [E|[Hd Hn]].
    + rewrite E. intros [= <- <-]. by exists [].
    + destruct (Z.eqb_spec (table c) (-1)); [destruct Hd; lia|]. destruct (radix_digits table p) as [ds' rest'] eqn:E.
      intros [= <- <-]. destruct (IH ds' rest' eq_refl) as (cs & -> & Hds & Hm). exists (c :: cs). split; [done|].
      split; [by constructor|]. cbn [fmap list_fmap]. by rewrite Hn, Hm.
Qed.

Lemma all_pad rest : forallb (λ c, c =? 61) rest = true <-> rest = replicate (List.length rest) 61.
Proof.
  rewrite forallb_forall. split.
  - intros H. induction rest as [|c rest IH]; [done|]. cbn [List.length replicate]. f_equal; [apply Z.eqb_eq, H; by left|].
    apply IH. intros x Hx. apply H. by right.
  - intros -> x Hx%list_elem_of_In%elem_of_replicate_inv. lia.
Qed.

Lemma radix_roundtrip v : bytes v -> bytes (enc v) /\ dec (enc v) = (v, true).
Proof.
  intros Hv. destruct (ConvertBits_roundtrip b v Hb Hv) as (ds & E1 & Hds & E2).
  unfold enc, dec, encode_radix, decode_radix, pad_group. rewrite E1. cbn [fst].
  change ((λ v : Z, alphabet !!! Z.to_nat v) <$> ds) with (letter <$> ds). remember (letter <$> ds) as p eqn:Ep.
  set (k := Z.to_nat ((- List.length p) `mod` group)). pose proof (Z.mod_pos_bound (- List.length p) group Hg) as Hk. split.
  - subst p. apply Forall_app. split; [|apply Forall_replicate; unfold in_uint; lia]. apply Forall_fmap. eapply Forall_impl; [exact Hds|].
    intros d Hd. apply (Hch d Hd).
  - rewrite Ep at 1. rewrite radix_digits_letters; [|done|]. 2: { destruct k; [by right|by left]. }
    rewrite E2. f_equal. cbn [andb]. rewrite !andb_true_iff, all_pad, length_replicate, length_app, length_replicate.
    split; [split; [done|]|apply Z.ltb_lt; unfold k; lia]. apply Z.eqb_eq. unfold k. rewrite Nat2Z.inj_add, Z2Nat.id by lia.
    rewrite Z.add_mod_idemp_r by lia. by rewrite Z.add_opp_diag_r.
Qed.

Lemma radix_digits_norm p : bytes p ->
  radix_digits table (norm <$> p) = ((radix_digits table p).1, norm <$> (radix_digits table p).2).
Proof.
  induction 1 as [|c p Hc _ IH]; [done|]. destruct (Hnorm c Hc) as (Hn & Ht & _). cbn [fmap list_fmap radix_digits].
  rewrite !uint_small, Ht by done. destruct (_ =? -1); [done|]. fold (fmap (M:=list) norm p). rewrite IH.
  by destruct (radix_digits table p).
Qed.

Lemma decode_norm p : bytes p -> dec (norm <$> p) = dec p.
Proof.
  intros Hp. unfold dec, decode_radix. rewrite radix_digits_norm by done. destruct (radix_digits table p) as [ds rest] eqn:E. cbn [fst snd].
  rewrite !length_fmap. destruct (ConvertBits b 8 false ds). do 4 f_equal.
  destruct (radix_digits_spec p ds rest Hp E) as (cs & -> & _). apply Forall_app in Hp as [_ Hr]. clear E.
  induction Hr as [|c rest Hc _ IH]; [done|]. cbn. destruct (Hnorm c Hc) as (_ & _ & ->). f_equal. exact IH.
Qed.

Lemma radix_canonical p v : bytes p -> dec p = (v, true) -> bytes v /\ norm <$> p = enc v.
Proof.
  intros Hp. unfold dec, decode_radix, enc, encode_radix, pad_group. destruct (radix_digits table p) as [ds rest] eqn:E.
  destruct (radix_digits_spec p ds rest Hp E) as (cs & -> & Hds & Hm).
  destruct (ConvertBits b 8 false ds) as [ret valid] eqn:E2. intros [= -> H]. rewrite !andb_true_iff, all_pad in H.
  destruct H as (((-> & Hrest) & Hlen) & Hlt). apply Z.eqb_eq in Hlen. apply Z.ltb_lt in Hlt.
  destruct (ConvertBits_canonical b ds v Hb Hds E2) as [Hv ->]. split; [done|]. cbn [fst].
  change ((λ v : Z, alphabet !!! Z.to_nat v) <$> ds) with (letter <$> ds). rewrite <- Hm, fmap_app, length_fmap.
  f_equal. rewrite Hrest, fmap_replicate, (proj2 Hpad). f_equal. rewrite length_app in Hlen.
  assert (Z.of_nat (length rest) = (- Z.of_nat (length cs)) `mod` group) as ->%(f_equal Z.to_nat)%(eq_trans (eq_sym (Nat2Z.id _))); [|done].
  apply (Z.mod_unique_pos _ _ (- (Z.of_nat (length cs + length rest) / group))); [lia|].
  pose proof (Z.div_mod (Z.of_nat (length cs + length rest)) group ltac:(lia)). lia.
Qed.
End radix.

(** a table and an alphabet fit: decided by evaluation *)
Definition fits (b : nat) (alphabet : list Z) (table norm : Z -> Z) : bool :=
  forallb (λ d, let c := alphabet !!! Z.to_nat d in (0 <=? c) && (c <? 256) && (table c =? d)) (seqZ 0 (2 ^ b)) &&
  forallb (λ c, (table c =? -1) || ((0 <=? table c) && (table c <? 2 ^ b) && (norm c =? alphabet !!! Z.to_nat (table c)))) (seqZ 0 256) &&
  forallb (λ c, (0 <=? norm c) && (norm c <? 256) && (table (norm c) =? table c) && Bool.eqb (norm c =? 61) (c =? 61)) (seqZ 0 256) &&
  (table 61 =? -1) && (norm 61 =? 61).

Lemma fits_spec b alphabet table norm : fits b alphabet table norm = true ->
  (forall d, in_uint b d -> let c := alphabet !!! Z.to_nat d in is_byte c /\ table c = d) /\
  (forall c, is_byte c -> table c = -1 \/ in_uint b (table c) /\ norm c = alphabet !!! Z.to_nat (table c)) /\
  (forall c, is_byte c -> is_byte (norm c) /\ table (norm c) = table c /\ (norm c =? 61) = (c =? 61)) /\
  (table 61 = -1 /\ norm 61 = 61).
Proof.
  unfold fits. rewrite !andb_true_iff, !forallb_forall. intros [[[[H1 H2] H5] H3] H4]. split; [|split; [|split; [|split; lia]]].
  - intros d Hd. specialize (H1 d). cbn zeta in *. rewrite !andb_true_iff in H1.
    destruct H1 as [[Ha Hc] He]; [apply list_elem_of_In, elem_of_seqZ; destruct Hd; lia|]. split; [|lia].
    change (0 <= alphabet !!! Z.to_nat d < 256). lia.
  - intros c Hc. specialize (H2 c). rewrite orb_true_iff, !andb_true_iff in H2. unfold in_uint in *.
    destruct H2 as [Ha|[[Ha Hb'] He]]; [apply list_elem_of_In, elem_of_seqZ; lia|left; lia|right; lia].
  - intros c Hc. specialize (H5 c). rewrite !andb_true_iff, eqb_true_iff in H5.
    destruct H5 as [[[Ha Hb'] He] Hd]; [apply list_elem_of_In, elem_of_seqZ; unfold in_uint in Hc; lia|].
    split; [change (0 <= norm c < 256); lia|]. split; [lia|done].
Qed.

Lemma fits64 : fits 6 pbase64 (λ c, decode64_table !!! Z.to_nat c) id = true.
Proof. vm_compute. reflexivity. Qed.
Lemma fits32 : fits 5 pbase32 (λ c, decode32_table !!! Z.to_nat c) tolower = true.
Proof. vm_compute. reflexivity. Qed.

Lemma DecodeBase32_bytes p : bytes p -> bytes (DecodeBase32 p).1.
Proof.
  intros Hp. destruct (fits_spec _ _ _ _ fits32) as (_ & B2 & B5 & B3). unfold DecodeBase32, decode_radix.
  destruct (radix_digits _ p) as [ds rest] eqn:E. destruct (radix_digits_spec 5 8 pbase32 (λ c, decode32_table !!! Z.to_nat c) tolower ltac:(lia) B2 p ds rest Hp E) as (_ & _ & Hds & _).
  destruct (ConvertBits_exact 5 8 ltac:(lia) ltac:(lia) ds Hds) as (out & valid & _ & _ & E2 & Ho & _).
  change (Z.of_nat 5) with 5 in E2. change (Z.of_nat 8) with 8 in E2. by rewrite E2.
Qed.

(** C32: Every byte vector is read back from its base 64 and its base 32 form, and each of the decoders
    calls a string valid exactly when it is the form of the bytes it returns (in base 32, up to
    the case of the letters): there is no second spelling. *)
Theorem base64_base32_canonical (v p : list Z) :
  bytes v -> bytes p ->
  DecodeBase64 (EncodeBase64 v) = (v, true) /\ (DecodeBase64 p = (v, true) <-> p = EncodeBase64 v) /\
  DecodeBase32 (EncodeBase32 v) = (v, true) /\ (DecodeBase32 p = (v, true) <-> tolower <$> p = EncodeBase32 v).
Proof.
  intros Hv Hp.
  destruct (fits_spec _ _ _ _ fits64) as (A1 & A2 & A5 & A3).
  destruct (fits_spec _ _ _ _ fits32) as (B1 & B2 & B5 & B3).
  pose proof (radix_roundtrip 6 4 pbase64 (λ c, decode64_table !!! Z.to_nat c) id ltac:(lia) ltac:(lia) A1 A3 v Hv) as [_ A4].
  pose proof (radix_roundtrip 5 8 pbase32 (λ c, decode32_table !!! Z.to_nat c) tolower ltac:(lia) ltac:(lia) B1 B3 v Hv) as [_ B4].
  split; [exact A4|]. split; [split|split; [exact B4|split]].
  - intros E. destruct (radix_canonical 6 4 pbase64 (λ c, decode64_table !!! Z.to_nat c) id ltac:(lia) ltac:(lia) A2 A3 p v Hp E) as [_ E']. by rewrite list_fmap_id in E'.
  - intros ->. exact A4.
  - intros E. by destruct (radix_canonical 5 8 pbase32 (λ c, decode32_table !!! Z.to_nat c) tolower ltac:(lia) ltac:(lia) B2 B3 p v Hp E) as [_ E'].
  - intros E. refine (eq_trans (eq_sym (decode_norm 5 8 pbase32 (λ c, decode32_table !!! Z.to_nat c) tolower ltac:(lia) B2 B5 p Hp)) _). rewrite E. exact B4.
Qed.

(** ** Hexadecimal *)

Lemma hex_pair val : is_byte val ->
  let c1 := hexmap !!! Z.to_nat (val >> 4) in let c2 := hexmap !!! Z.to_nat (val &&& 15) in
  isspace c1 = false /\ isspace c2 = false /\ HexDigit c1 = val >> 4 /\ HexDigit c2 = val &&& 15 /\
  (val >> 4 =? -1) = false /\ (val &&& 15 =? -1) = false /\ (val >> 4 <? 0) = false /\ (val &&& 15 <? 0) = false /\
  u8 (u8 ((val >> 4) << 4) ||| (val &&& 15)) = val.
Proof.
  intros Hv. assert (0 <= val >> 4 < 16) as H1 by (destruct Hv; rewrite Z.shiftr_div_pow2 by lia; lia_mod).
  assert (0 <= val &&& 15 < 16) as H2 by (change 15 with (Z.ones 4); rewrite Z.land_ones by lia; lia_mod).
  destruct (hexmap_digit _ H1) as (E1 & S1 & _), (hexmap_digit _ H2) as (E2 & S2 & _).
  repeat (split; [done || lia|]).
  apply (byte_forall_eq (λ v, u8 (u8 ((v >> 4) << 4) ||| (v &&& 15))) (λ v, v)); [vm_compute; reflexivity|done].
Qed.

Lemma skip_spaces_cons c s : isspace c = false -> Blob.skip_spaces (c :: s) = c :: s.
Proof. intros H. cbn [Blob.skip_spaces]. by rewrite H. Qed.

Lemma ParseHex_pair fuel val s : is_byte val ->
  ParseHex_loop (S fuel) ([hexmap !!! Z.to_nat (val >> 4); hexmap !!! Z.to_nat (val &&& 15)] ++ s) = val :: ParseHex_loop fuel s /\
  ParseHex_loop (S fuel) (32 :: [hexmap !!! Z.to_nat (val >> 4); hexmap !!! Z.to_nat (val &&& 15)] ++ s) = val :: ParseHex_loop fuel s.
Proof.
  intros Hv. destruct (hex_pair val Hv) as (S1 & S2 & E1 & E2 & N1 & N2 & _ & _ & E). cbn [app ParseHex_loop].
  change (Blob.skip_spaces (32 :: ?s)) with (Blob.skip_spaces s). rewrite !skip_spaces_cons, E1, E2, N1, N2, E by done. done.
Qed.

Lemma ParseHex_loop_nil fuel : ParseHex_loop fuel [] = [].
Proof. by destruct fuel. Qed.

Lemma ParseHex_plain v fuel : bytes v -> (length v <= fuel)%nat -> ParseHex_loop fuel (HexStr v) = v.
Proof.
  intros Hv. revert fuel. induction Hv as [|x v Hx _ IH]; intros fuel Hf; [apply ParseHex_loop_nil|].
  destruct fuel as [|fuel]; [simpl in Hf; lia|]. unfold HexStr. cbn [fmap list_fmap concat].
  rewrite (proj1 (ParseHex_pair fuel x _ Hx)). f_equal. apply IH. simpl in Hf. lia.
Qed.

Lemma ParseHex_spaced v fuel : bytes v -> (length v <= fuel)%nat ->
  ParseHex_loop fuel (HexStr_spaced v) = v /\ ParseHex_loop fuel (32 :: HexStr_spaced v) = v.
Proof.
  intros Hv. revert fuel. induction Hv as [|x v Hx Hv IH]; intros fuel Hf; [by destruct fuel|].
  destruct fuel as [|fuel]; [simpl in Hf; lia|]. assert (length v <= fuel)%nat as Hf' by (simpl in Hf; lia).
  destruct (IH fuel Hf') as [_ IH2]. cbn [HexStr_spaced].
  split; [rewrite (proj1 (ParseHex_pair fuel x _ Hx))|rewrite (proj2 (ParseHex_pair fuel x _ Hx))];
    (f_equal; destruct v; [apply ParseHex_loop_nil|exact IH2]).
Qed.

Lemma length_HexStr v : length (HexStr v) = (2 * length v)%nat.
Proof. unfold HexStr. induction v as [|x v IH]; [done|]. cbn [fmap list_fmap concat]. rewrite length_app, IH. simpl. lia. Qed.
Lemma length_HexStr_spaced v : (length v <= length (HexStr_spaced v))%nat.
Proof. induction v as [|x v IH]; [done|]. cbn [HexStr_spaced]. destruct v; simpl in *; lia. Qed.

Lemma hex_digit_pair c1 c2 : is_byte c1 -> is_byte c2 -> HexDigit c1 <> -1 -> HexDigit c2 <> -1 ->
  let x := u8 (u8 (HexDigit c1 << 4) ||| HexDigit c2) in
  isspace c1 = false /\ hexmap !!! Z.to_nat (x >> 4) = tolower c1 /\ hexmap !!! Z.to_nat (x &&& 15) = tolower c2.
Proof.
  intros H1 H2 N1 N2 x.
  assert (forall c, is_byte c -> (HexDigit c =? -1) || ((0 <=? HexDigit c) && (HexDigit c <? 16) && negb (isspace c) &&
    (hexmap !!! Z.to_nat (HexDigit c) =? tolower c)) = true) as Hall by (apply byte_forall; vm_compute; reflexivity).
  pose proof (Hall c1 H1) as A1. pose proof (Hall c2 H2) as A2. clear Hall. cbn beta in A1, A2.
  rewrite orb_true_iff, !andb_true_iff, negb_true_iff in A1, A2. destruct A1 as [|[[[A1 B1] C1] D1]]; [lia|]. destruct A2 as [|[[[A2 B2] C2] D2]]; [lia|].
  assert (x = 16 * HexDigit c1 + HexDigit c2) as ->.
  { subst x. rewrite (uint_small 8 (HexDigit c1 << 4)) by (unfold in_uint; rewrite Z.shiftl_mul_pow2 by lia; lia).
    rewrite (lor_shiftl_add _ 4) by lia. rewrite uint_small by (unfold in_uint; lia). lia. }
  split; [done|]. rewrite Z.shiftr_div_pow2 by lia. change 15 with (Z.ones 4). rewrite Z.land_ones by lia. change (2 ^ 4) with 16.
  replace ((16 * HexDigit c1 + HexDigit c2) / 16) with (HexDigit c1) by lia_mod.
  replace ((16 * HexDigit c1 + HexDigit c2) `mod` 16) with (HexDigit c2) by lia_mod. lia.
Qed.

Lemma HexStr_ParseHex fuel s : bytes s -> forallb (λ c, negb (HexDigit c <? 0)) s = true -> (length s <= 2 * fuel)%nat -> Nat.Even (length s) ->
  HexStr (ParseHex_loop fuel s) = tolower <$> s.
Proof.
  revert s. induction fuel as [|fuel IH]; intros s Hs Hall Hl He.
  { by destruct s; [|simpl in Hl; lia]. }
  destruct s as [|c1 [|c2 s]]; [done|destruct He as [k Hk]; simpl in Hk; lia|].
  apply Forall_cons in Hs as [H1 [H2 Hs]%Forall_cons]. cbn [forallb] in Hall. rewrite !andb_true_iff, !negb_true_iff, !Z.ltb_ge in Hall.
  destruct Hall as (N1 & N2 & Hall). destruct (hex_digit_pair c1 c2 H1 H2 ltac:(lia) ltac:(lia)) as (S1 & E1 & E2).
  cbn [ParseHex_loop]. rewrite skip_spaces_cons by done. rewrite (proj2 (Z.eqb_neq (HexDigit c1) (-1))), (proj2 (Z.eqb_neq (HexDigit c2) (-1))) by lia.
  unfold HexStr. cbn [fmap list_fmap concat app]. rewrite E1, E2. do 2 f_equal. apply IH; [done|done|simpl in Hl; lia|].
  destruct He as [k Hk]. exists (k - 1)%nat. simpl in Hk. lia.
Qed.

(** Bytes are read back from their hexadecimal form, with spaces between them or without; and a string that
    [IsHex] accepts is, in lower case, the form of the bytes that [ParseHex] reads. *)
Theorem hex_roundtrip (v s : list Z) :
  bytes v -> bytes s ->
  ParseHex (HexStr v) = v /\ ParseHex (HexStr_spaced v) = v /\ IsHex (HexStr v) = negb (bool_decide (v = [])) /\
  (IsHex s = true -> HexStr (ParseHex s) = tolower <$> s).
Proof.
  intros Hv Hs. unfold ParseHex. split; [apply ParseHex_plain; [done|rewrite length_HexStr; lia]|].
  split; [apply (proj1 (ParseHex_spaced v _ Hv (length_HexStr_spaced v)))|]. split.
  - unfold IsHex. rewrite length_HexStr. replace (Z.of_nat (2 * length v) `mod` 2) with 0 by lia_mod. rewrite andb_true_r.
    assert (forallb (λ c, negb (HexDigit c <? 0)) (HexStr v) = true) as ->.
    { induction Hv as [|x v Hx _ IH]; [done|]. unfold HexStr. cbn [fmap list_fmap concat app forallb].
      destruct (hex_pair x Hx) as (_ & _ & -> & -> & _ & _ & -> & -> & _). cbn [negb andb]. exact IH. }
    cbn [andb]. destruct v; [done|]. cbn [length]. rewrite bool_decide_false by done. cbn. apply Z.ltb_lt. lia.
  - unfold IsHex. rewrite !andb_true_iff. intros [Hall [_ He]]. apply HexStr_ParseHex; [done|done|lia|].
    exists (Z.to_nat (length s / 2)). apply Z.eqb_eq in He. lia_mod.
Qed.

(** ** Integers *)

(** the value of decimal digits *)
Definition value_from (n : Z) (ds : list Z) : Z := foldl (λ n c, 10 * n + (c - 48)) n ds.
Definition digits_value (ds : list Z) : Z := value_from 0 ds.
Definition decimals (ds : list Z) : Prop := Forall (λ c, IsDigit c = true) ds.

Lemma value_from_spec n ds : value_from n ds = n * 10 ^ length ds + digits_value ds.
Proof.
  unfold digits_value, value_from. revert n. induction ds as [|c ds IH]; intros n; [simpl; lia|].
  cbn [foldl length]. rewrite IH, (IH (10 * 0 + (c - 48))). rewrite Nat2Z.inj_succ, Z.pow_succ_r by lia. lia.
Qed.
Lemma digits_value_app ds ds' : digits_value (ds ++ ds') = digits_value ds * 10 ^ length ds' + digits_value ds'.
Proof. unfold digits_value at 1. unfold value_from. rewrite foldl_app. apply value_from_spec. Qed.
Lemma digits_value_bound ds : decimals ds -> 0 <= digits_value ds < 10 ^ length ds.
Proof.
  induction 1 as [|c ds Hc _ IH]; [done|]. change (c :: ds) with ([c] ++ ds). rewrite digits_value_app, length_app.
  change (digits_value [c]) with (c - 48). cbn [length]. rewrite Nat2Z.inj_add, Z.pow_add_r by lia. unfold IsDigit in Hc.
  change (10 ^ Z.of_nat 1) with 10. nia.
Qed.

Lemma IsDigit_not c : IsDigit c = true -> isspace c = false /\ (c =? 45) = false /\ (c =? 43) = false /\ (c =? 0) = false /\ (c =? 46) = false /\
  (c =? 101) = false /\ (c =? 69) = false.
Proof. unfold IsDigit, isspace. intros H. repeat split; lia. Qed.

Lemma read_digits_app ds rest n : decimals ds -> (forall c, head rest = Some c -> IsDigit c = false) ->
  read_digits (ds ++ rest) n = (value_from n ds, rest).
Proof.
  intros Hds Hr. revert n. induction Hds as [|c ds Hc _ IH]; intros n.
  - cbn [app]. destruct rest as [|c rest]; [done|]. cbn [read_digits]. by rewrite (Hr c eq_refl).
  - cbn [app read_digits]. by rewrite Hc, IH.
Qed.
Lemma read_digits_spec s : exists ds rest, s = ds ++ rest /\ decimals ds /\ (forall c, head rest = Some c -> IsDigit c = false).
Proof.
  induction s as [|c s IH]; [exists [], []; split; [done|]; split; [constructor|done]|]. destruct (IsDigit c) eqn:E.
  - destruct IH as (ds & rest & -> & H1 & H2). exists (c :: ds), rest. split; [done|]. split; [by constructor|done].
  - exists [], (c :: s). split; [done|]. split; [constructor|]. by intros c' [= <-].
Qed.

(** an optional sign *)
Definition sign_of (sg : list Z) (neg : bool) : Prop := (sg = [] /\ neg = false) \/ (sg = [43] /\ neg = false) \/ (sg = [45] /\ neg = true).

Lemma read_sign_app sg neg s : sign_of sg neg -> (forall c, head s = Some c -> IsDigit c = true) -> s <> [] -> read_sign (sg ++ s) = (neg, s).
Proof.
  intros Hs Hd Hne. destruct s as [|c s]; [done|]. destruct (IsDigit_not c (Hd c eq_refl)) as (_ & E1 & E2 & _).
  destruct Hs as [[-> ->]|[[-> ->]|[-> ->]]]; cbn [app read_sign]; [by rewrite E1, E2|done|done].
Qed.
Lemma read_sign_spec s : exists sg neg s', s = sg ++ s' /\ sign_of sg neg /\ read_sign s = (neg, s').
Proof.
  destruct s as [|c s]; [exists [], false, []; split; [done|]; split; [by left|done]|]. cbn [read_sign].
  destruct (Z.eqb_spec c 45) as [->|]; [exists [45], true, s; split; [done|]; split; [by right; right|done]|].
  destruct (Z.eqb_spec c 43) as [->|]; [exists [43], false, s; split; [done|]; split; [by right; left|done]|].
  exists [], false, (c :: s). split; [done|]. split; [by left|done].
Qed.

(** the strings that stand for integers *)
Definition integer (s : list Z) (neg : bool) (ds : list Z) : Prop := exists sg, s = sg ++ ds /\ sign_of sg neg /\ decimals ds /\ ds <> [].
Definition signed (neg : bool) (n : Z) : Z := if neg then - n else n.

Lemma integer_checks s neg ds : integer s neg ds -> ParsePrechecks s = true /\ Blob.skip_spaces s = s /\ starts_minus s = neg.
Proof.
  intros (sg & -> & Hsg & Hds & Hne). assert (Forall (λ c, isspace c = false /\ (c =? 0) = false) (sg ++ ds)) as Hall.
  { apply Forall_app. split; [|eapply Forall_impl; [exact Hds|]; intros c Hc; destruct (IsDigit_not c Hc) as (? & _ & _ & ? & _); done].
    destruct Hsg as [[-> _]|[[-> _]|[-> _]]]; split_Forall; done. }
  assert (starts_minus (sg ++ ds) = neg) as Hm.
  { destruct Hsg as [[-> ->]|[[-> ->]|[-> ->]]]; [|done..]. destruct ds as [|c ds]; [done|]. cbn. apply Forall_cons in Hds as [Hc _].
    by destruct (IsDigit_not c Hc) as (_ & -> & _). }
  remember (sg ++ ds) as s eqn:Es. destruct s as [|c s]; [by destruct sg, ds|].
  split; [|split; [by apply skip_spaces_cons; apply Forall_cons in Hall as [[? _] _]|done]]. unfold ParsePrechecks.
  rewrite c_str_id by (eapply Forall_impl; [exact Hall|]; cbn; intros x [_ ?]; lia). rewrite Nat.eqb_refl, andb_true_r.
  apply negb_true_iff, orb_false_iff. rewrite Forall_forall in Hall. split; apply Hall; [by left|].
  apply list_elem_of_In. destruct (exists_last (l:=c :: s) ltac:(done)) as (l & x & ->). rewrite List.last_last. apply in_or_app. right. by left.
Qed.

(** Both readers, on the whole of a string without leading spaces, read its integer or stop before the end. *)
Lemma strtoll_integer s neg ds : integer s neg ds ->
  strtoll s = (let n := signed neg (digits_value ds) in
    if n <? - 2 ^ 63 then (- 2 ^ 63, [], true) else if 2 ^ 63 - 1 <? n then (2 ^ 63 - 1, [], true) else (n, [], false)) /\
  strtoull s = (if 2 ^ 64 - 1 <? digits_value ds then (2 ^ 64 - 1, [], true) else (u64 (signed neg (digits_value ds)), [], false)).
Proof.
  intros H. destruct (integer_checks s neg ds H) as (_ & Hsk & _). destruct H as (sg & -> & Hsg & Hds & Hne). unfold strtoll, strtoull. rewrite Hsk.
  assert (forall c, head ds = Some c -> IsDigit c = true) as Hh by (intros c E; destruct Hds; [done|]; by injection E as <-).
  rewrite (read_sign_app sg neg ds Hsg Hh Hne). pose proof (read_digits_app ds [] 0 Hds ltac:(done)) as E. rewrite app_nil_r in E. rewrite E.
  destruct ds as [|c ds]; [done|]. done.
Qed.

Lemma strtoll_whole s : ParsePrechecks s = true -> (exists n e, strtoll s = (n, [], e) \/ strtoull s = (n, [], e)) -> exists neg ds, integer s neg ds.
Proof.
  intros Hp He. destruct s as [|c s]; [done|]. unfold ParsePrechecks in Hp. rewrite andb_true_iff, negb_true_iff, orb_false_iff in Hp.
  destruct Hp as [[Hc _] _]. unfold strtoll, strtoull in He. rewrite skip_spaces_cons in He by done.
  destruct (read_sign_spec (c :: s)) as (sg & neg & s' & Es & Hsg & Er). rewrite Er in He.
  destruct (read_digits_spec s') as (ds & rest & -> & Hds & Hr). rewrite (read_digits_app ds rest 0 Hds Hr) in He.
  destruct (Nat.eqb_spec (length rest) (length (ds ++ rest))) as [E|E]; [destruct He as (n & e & [[=]|[=]])|].
  assert (rest = []) as -> by (destruct He as (n & e & He); repeat case_match; destruct He; congruence).
  exists neg, ds. exists sg. rewrite app_nil_r in Es. split; [done|]. split; [done|]. split; [done|]. by intros ->.
Qed.

Lemma integer_pos s neg ds : integer s neg ds -> 0 <= digits_value ds.
Proof. intros (sg & _ & _ & Hds & _). by apply digits_value_bound. Qed.

Lemma signed_core s n (conv : Z -> Z) w : 0 < w <= 64 -> (forall m, in_sint w m -> conv m = m) ->
  (if negb (ParsePrechecks s) then (false, None)
   else let '(m, endp, errno) := strtoll s in
        ((length endp =? 0)%nat && negb errno && (- 2 ^ (w - 1) <=? m) && (m <=? 2 ^ (w - 1) - 1), Some (conv m))) = (true, Some n)
  <-> exists neg ds, integer s neg ds /\ n = signed neg (digits_value ds) /\ in_sint w n.
Proof.
  intros Hw Hconv. assert (2 ^ (w - 1) <= 2 ^ 63) by (apply Z.pow_le_mono_r; lia). unfold in_sint in *. split.
  - destruct (ParsePrechecks s) eqn:Hp; cbn [negb]; [|done]. destruct (strtoll s) as [[m endp] e] eqn:E. intros [= H' <-].
    rewrite !andb_true_iff, negb_true_iff, Nat.eqb_eq in H'. destruct H' as [[[Hl ->] H1] H2]. apply nil_length_inv in Hl as ->.
    destruct (strtoll_whole s Hp ltac:(eauto)) as (neg & ds & Hi). exists neg, ds. split; [done|].
    rewrite (proj1 (strtoll_integer s neg ds Hi)) in E. cbn zeta in E. repeat case_match; try done. injection E as <-.
    rewrite Hconv by lia. split; [done|lia].
  - intros (neg & ds & Hi & -> & Hr). destruct (integer_checks s neg ds Hi) as (-> & _ & _). cbn [negb].
    rewrite (proj1 (strtoll_integer s neg ds Hi)). cbn zeta. rewrite !(proj2 (Z.ltb_ge _ _)) by lia. rewrite Hconv by lia.
    f_equal. rewrite !andb_true_iff. repeat split; lia.
Qed.

Lemma unsigned_core s n (conv : Z -> Z) w : 0 < w <= 64 -> (forall m, in_uint w m -> conv m = m) ->
  (if negb (ParsePrechecks s) || starts_minus s then (false, None)
   else let '(m, endp, errno) := strtoull s in
        ((length endp =? 0)%nat && negb errno && (m <=? 2 ^ w - 1), Some (conv m))) = (true, Some n)
  <-> exists ds, integer s false ds /\ n = digits_value ds /\ in_uint w n.
Proof.
  intros Hw Hconv. assert (2 ^ w <= 2 ^ 64) by (apply Z.pow_le_mono_r; lia). unfold in_uint in *. split.
  - destruct (ParsePrechecks s) eqn:Hp; cbn [negb orb]; [|done]. destruct (starts_minus s) eqn:Hm; [done|].
    destruct (strtoull s) as [[m endp] e] eqn:E. intros [= H' <-].
    rewrite !andb_true_iff, negb_true_iff, Nat.eqb_eq in H'. destruct H' as [[Hl ->] H2]. apply nil_length_inv in Hl as ->.
    destruct (strtoll_whole s Hp ltac:(eauto)) as (neg & ds & Hi). destruct (integer_checks s neg ds Hi) as (_ & _ & Hn).
    rewrite Hm in Hn. subst neg. exists ds. split; [done|]. pose proof (integer_pos s _ ds Hi).
    rewrite (proj2 (strtoll_integer s false ds Hi)) in E. case_match; [done|]. injection E as <-. cbn [signed] in *.
    rewrite uint_small in * by (unfold in_uint; lia). rewrite Hconv by lia. split; [done|lia].
  - intros (ds & Hi & -> & Hr). destruct (integer_checks s false ds Hi) as (-> & _ & ->). cbn [negb orb].
    rewrite (proj2 (strtoll_integer s false ds Hi)). rewrite (proj2 (Z.ltb_ge _ _)) by lia. cbn [signed].
    rewrite uint_small by (unfold in_uint; lia). rewrite Hconv by lia. f_equal. rewrite !andb_true_iff. repeat split; lia.
Qed.

(** *** Printing *)

Lemma decimal_loop_spec (fuel : nat) n acc : 0 <= n -> n < 10 ^ fuel -> (0 < fuel)%nat ->
  exists ds, decimal_loop fuel n acc = ds ++ acc /\ decimals ds /\ digits_value ds = n /\ ds <> [] /\
    (10 ^ (length ds - 1) <= n \/ n = 0 /\ ds = [48]).
Proof.
  revert n acc. induction fuel as [|fuel IH]; intros n acc Hn Hf H0; [lia|]. cbn [decimal_loop].
  assert (0 <= n `mod` 10 < 10) as Hm by (apply Z.mod_pos_bound; lia).
  assert (IsDigit (48 + n `mod` 10) = true) as Hd by (unfold IsDigit; lia).
  rewrite Nat2Z.inj_succ, Z.pow_succ_r in Hf by lia. destruct (Z.eqb_spec (n / 10) 0) as [Hz|Hz].
  - exists [48 + n `mod` 10]. split; [done|]. split; [by constructor|]. assert (n = n `mod` 10) as E by lia_mod.
    split; [change (10 * 0 + (48 + n `mod` 10 - 48) = n); lia|]. split; [done|]. rewrite <- E.
    destruct (decide (n = 0)) as [->|]; [by right|]. left. cbn [length]. change (10 ^ (Z.of_nat 1 - 1)) with 1. lia.
  - destruct fuel as [|fuel]; [simpl in Hf; lia_mod|].
    destruct (IH (n / 10) (48 + n `mod` 10 :: acc)) as (ds & E & H1 & H2 & H3 & H4); [lia_mod|apply Z.div_lt_upper_bound; lia|lia|].
    exists (ds ++ [48 + n `mod` 10]). split; [rewrite E, <- (assoc_L app); done|]. split; [apply Forall_app; split; [done|by constructor]|].
    split; [rewrite digits_value_app, H2; change (digits_value [48 + n `mod` 10]) with (48 + n `mod` 10 - 48); cbn [length]; lia_mod|].
    split; [by destruct ds|]. left. destruct H4 as [H4|[? _]]; [|lia]. rewrite length_app. cbn [length].
    replace (Z.of_nat (length ds + 1) - 1) with (Z.succ (length ds - 1)) by lia.
    assert (0 < length ds)%nat by (destruct ds; [done|simpl; lia]). rewrite Z.pow_succ_r by lia. lia_mod.
Qed.

Lemma decimal_spec n : 0 <= n ->
  decimals (decimal n) /\ digits_value (decimal n) = n /\ decimal n <> [] /\
  (10 ^ (length (decimal n) - 1) <= n \/ n = 0 /\ decimal n = [48]).
Proof.
  intros Hn. unfold decimal. destruct (decimal_loop_spec (S (Z.to_nat (Z.log2 n))) n []) as (ds & -> & H); [done| |lia|by rewrite app_nil_r].
  destruct (decide (n = 0)) as [->|]; [done|]. apply Z.lt_le_trans with (2 ^ Z.succ (Z.log2 n)); [apply Z.log2_spec; lia|].
  rewrite Nat2Z.inj_succ, Z2Nat.id by apply Z.log2_nonneg. apply Z.pow_le_mono_l. lia.
Qed.

(** An integer is read back as it was printed. *)
Lemma i64tostr_integer n : exists neg ds, integer (i64tostr n) neg ds /\ n = signed neg (digits_value ds).
Proof.
  unfold i64tostr. destruct (Z.ltb_spec n 0).
  - destruct (decimal_spec (- n)) as (H1 & H2 & H3 & _); [lia|]. exists true, (decimal (- n)). split; [|simpl; lia].
    exists [45]. split; [done|]. split; [by right; right|done].
  - destruct (decimal_spec n) as (H1 & H2 & H3 & _); [lia|]. exists false, (decimal n). split; [|simpl; lia].
    exists []. split; [done|]. split; [by left|done].
Qed.

(** [ParseInt32], [ParseInt64], [ParseUInt32] and [ParseUInt64] accept exactly the decimal integers of their range,
    with an optional sign (only a plus for the unsigned ones), and store their value: no spaces, no other
    character before or after, no silent overflow.  An integer is read back as it was printed. *)
Theorem integers_parsed (s : list Z) (n : Z) :
  (ParseInt32 s = (true, Some n) <-> exists neg ds, integer s neg ds /\ n = signed neg (digits_value ds) /\ in_sint 32 n) /\
  (ParseInt64 s = (true, Some n) <-> exists neg ds, integer s neg ds /\ n = signed neg (digits_value ds) /\ in_sint 64 n) /\
  (ParseUInt32 s = (true, Some n) <-> exists ds, integer s false ds /\ n = digits_value ds /\ in_uint 32 n) /\
  (ParseUInt64 s = (true, Some n) <-> exists ds, integer s false ds /\ n = digits_value ds /\ in_uint 64 n) /\
  (in_sint 64 n -> ParseInt64 (i64tostr n) = (true, Some n)).
Proof.
  assert (forall s n, ParseInt64 s = (true, Some n) <-> exists neg ds, integer s neg ds /\ n = signed neg (digits_value ds) /\ in_sint 64 n) as H64.
  { intros s' n'. apply (signed_core s' n' id 64); [lia|done]. }
  split_and!.
  - apply (signed_core s n i32 32); [lia|]. intros m Hm. by apply sint_small.
  - apply H64.
  - apply (unsigned_core s n u32 32); [lia|]. intros m Hm. by apply uint_small.
  - apply (unsigned_core s n id 64); [lia|done].
  - intros Hn. apply H64. destruct (i64tostr_integer n) as (neg & ds & Hi & E). eauto 6.
Qed.

(** ** Fixed-point numbers *)

(** a value that eighteen digits and a power of ten give *)
Definition digits18 (F : Z) : Prop := exists m t, F = m * 10 ^ t /\ 0 <= m < 10 ^ 18 /\ 0 <= t.
Definition stripped (m : Z) : Prop := m = 0 \/ m `mod` 10 <> 0.

Lemma digits18_step F d : 0 <= F -> 0 <= d < 10 -> digits18 (10 * F + d) -> digits18 F.
Proof.
  intros HF Hd (m & t & E & Hm & Ht). destruct (decide (t = 0)) as [->|].
  - exists F, 0. rewrite Z.pow_0_r in *. lia.
  - exists m, (t - 1). split; [|lia]. replace t with (Z.succ (t - 1)) in E by lia. rewrite Z.pow_succ_r in E by lia. nia.
Qed.
Lemma digits18_from F ds : 0 <= F -> decimals ds -> digits18 (value_from F ds) -> digits18 F.
Proof.
  intros HF Hds. revert F HF. induction Hds as [|c ds Hc _ IH]; intros F HF H; [done|]. unfold IsDigit in Hc.
  apply digits18_step with (c - 48); [lia|lia|]. apply IH; [lia|]. done.
Qed.

Lemma strip M : 0 < M -> exists m t, M = m * 10 ^ t /\ m `mod` 10 <> 0 /\ 0 < m /\ 0 <= t.
Proof.
  intros HM. pattern M. apply (Z_lt_induction (λ M, 0 < M -> exists m t, M = m * 10 ^ t /\ m `mod` 10 <> 0 /\ 0 < m /\ 0 <= t)); [|lia|done].
  clear M HM. intros M IH HM. destruct (decide (M `mod` 10 = 0)) as [E|]; [|exists M, 0; rewrite Z.pow_0_r; lia].
  destruct (IH (M / 10)) as (m & t & Em & Hm & Hp & Ht); [lia_mod|lia_mod|]. exists m, (Z.succ t). rewrite Z.pow_succ_r by done. split; [|lia].
  replace M with (10 * (M / 10)) by lia_mod. rewrite Em. ring.
Qed.

Lemma scale_up_spec (k : nat) m : 0 <= m < 10 ^ 18 -> scale_up (S k) m = if m * 10 ^ (S k) <? 10 ^ 18 then Some (m * 10 ^ (S k)) else None.
Proof.
  revert m. induction k as [|k IH]; intros m Hm.
  - cbn [scale_up]. change (10 ^ Z.of_nat 1) with 10. change (UPPER_BOUND / 10) with (10 ^ 17 - 1). repeat case_match; lia || done.
  - cbn [scale_up]. change (UPPER_BOUND / 10) with (10 ^ 17 - 1). rewrite (Nat2Z.inj_succ (S k)), Z.pow_succ_r by lia.
    assert (0 < 10 ^ Z.of_nat (S k)) as HP by (apply Z.pow_pos_nonneg; lia).
    destruct (Z.ltb_spec (10 ^ 17 - 1) m).
    + destruct (Z.ltb_spec (m * (10 * 10 ^ Z.of_nat (S k))) (10 ^ 18)); [nia|done].
    + change (scale_up (S k) (m * 10) = if m * (10 * 10 ^ Z.of_nat (S k)) <? 10 ^ 18 then Some (m * (10 * 10 ^ Z.of_nat (S k))) else None).
      rewrite IH by lia. by rewrite <- (Z.mul_assoc m 10).
Qed.

Lemma mantissa_digit c m tz : IsDigit c = true -> 0 <= m < 10 ^ 18 -> 0 <= tz -> stripped m ->
  match ProcessMantissaDigit c m tz with
  | Some (m', tz') => m' * 10 ^ tz' = 10 * (m * 10 ^ tz) + (c - 48) /\ 0 <= m' < 10 ^ 18 /\ 0 <= tz' <= tz + 1 /\ stripped m'
  | None => ~ digits18 (10 * (m * 10 ^ tz) + (c - 48))
  end.
Proof.
  unfold IsDigit, ProcessMantissaDigit, stripped. intros Hc Hm Htz Hs. destruct (Z.eqb_spec c 48) as [->|Hne].
  { rewrite Z.pow_add_r by lia. split; [lia|]. split; [done|]. split; [lia|done]. }
  rewrite scale_up_spec by done. rewrite Nat2Z.inj_succ, Z2Nat.id, Z.pow_succ_r by lia.
  replace (10 * (m * 10 ^ tz)) with (m * (10 * 10 ^ tz)) by ring. set (F := m * (10 * 10 ^ tz)).
  assert (F = 10 * (m * 10 ^ tz)) as HF by (unfold F; ring). assert (0 <= m * 10 ^ tz) by (pose proof (Z.pow_nonneg 10 tz); nia).
  destruct (Z.ltb_spec F (10 ^ 18)); cbn [mbind option_bind].
  - rewrite Z.pow_0_r. split; [lia|]. split; [lia_mod|]. split; [lia|]. right. lia_mod.
  - intros (m' & t & E & Hm' & Ht). destruct (decide (t = 0)) as [->|]; [rewrite Z.pow_0_r in E; lia|].
    replace t with (Z.succ (t - 1)) in E by lia. rewrite Z.pow_succ_r in E by lia. lia_mod.
Qed.

Lemma mantissa_loop_spec ds rest m tz ofs :
  decimals ds -> (forall c, head rest = Some c -> IsDigit c = false) -> 0 <= m < 10 ^ 18 -> 0 <= tz -> stripped m ->
  match mantissa_loop (ds ++ rest) m tz ofs with
  | Some (m', tz', ofs', rest') => rest' = rest /\ ofs' = ofs + length ds /\ m' * 10 ^ tz' = value_from (m * 10 ^ tz) ds /\
      0 <= m' < 10 ^ 18 /\ 0 <= tz' <= tz + length ds /\ stripped m'
  | None => ~ digits18 (value_from (m * 10 ^ tz) ds)
  end.
Proof.
  intros Hds Hr. revert m tz ofs. induction Hds as [|c ds Hc Hds IH]; intros m tz ofs Hm Htz Hs.
  - cbn [app]. destruct rest as [|c rest]; cbn [mantissa_loop]; [|rewrite (Hr c eq_refl)]; (split; [done|]; split; [simpl; lia|]; split; [done|]; split; [done|]; split; [simpl; lia|done]).
  - cbn [app mantissa_loop]. rewrite Hc. pose proof (mantissa_digit c m tz Hc Hm Htz Hs) as Hd.
    destruct (ProcessMantissaDigit c m tz) as [[m1 tz1]|]; cbn [mbind option_bind].
    + destruct Hd as (E & Hm1 & Htz1 & Hs1). specialize (IH m1 tz1 (ofs + 1) Hm1 ltac:(lia) Hs1).
      change (value_from (m * 10 ^ tz) (c :: ds)) with (value_from (10 * (m * 10 ^ tz) + (c - 48)) ds). rewrite <- E.
      destruct (mantissa_loop _ _ _ _) as [[[[m' tz'] ofs'] rest']|]; [|done].
      destruct IH as (-> & -> & E' & Hm' & Htz' & Hs'). cbn [length]. split; [done|]. split; [lia|]. split; [done|]. split; [done|]. split; [lia|done].
    + intros H. apply Hd. apply (digits18_from _ ds); [|done|done]. unfold IsDigit in Hc. pose proof (Z.pow_nonneg 10 tz). nia.
Qed.

Lemma exponent_loop_spec ds rest n : decimals ds -> (forall c, head rest = Some c -> IsDigit c = false) -> 0 <= n < 10 ^ 18 ->
  (exponent_loop (ds ++ rest) n = Some (value_from n ds, rest) /\ 0 <= value_from n ds < 10 ^ 18) \/
  (exponent_loop (ds ++ rest) n = None /\ 10 ^ 17 <= value_from n ds).
Proof.
  intros Hds Hr. revert n. induction Hds as [|c ds Hc Hds IH]; intros n Hn.
  - left. cbn [app]. split; [|done]. destruct rest as [|c rest]; cbn [exponent_loop]; [done|]. by rewrite (Hr c eq_refl).
  - cbn [app exponent_loop]. rewrite Hc. change (UPPER_BOUND / 10) with (10 ^ 17 - 1). unfold IsDigit in Hc.
    replace (n * 10 + (c - 48)) with (10 * n + (c - 48)) by ring. change (value_from n (c :: ds)) with (value_from (10 * n + (c - 48)) ds).
    destruct (Z.ltb_spec (10 ^ 17 - 1) n); [|apply IH; lia]. right. split; [done|]. rewrite value_from_spec.
    pose proof (digits_value_bound ds Hds). assert (1 <= 10 ^ length ds) by (pose proof (Z.pow_pos_nonneg 10 (length ds)); lia). nia.
Qed.

Lemma scale_out_spec (k : nat) m : - 10 ^ 18 < m < 10 ^ 18 ->
  (match scale_out k m with Some m' => m' = m * 10 ^ k /\ - 10 ^ 18 < m' < 10 ^ 18 | None => m * 10 ^ k <= - 10 ^ 18 \/ 10 ^ 18 <= m * 10 ^ k end).
Proof.
  revert m. induction k as [|k IH]; intros m Hm; cbn [scale_out]; [rewrite Z.pow_0_r; lia|].
  change (UPPER_BOUND / 10) with (10 ^ 17 - 1). rewrite Nat2Z.inj_succ, Z.pow_succ_r by lia.
  assert (0 < 10 ^ Z.of_nat k) by (apply Z.pow_pos_nonneg; lia).
  destruct (Z.ltb_spec (10 ^ 17 - 1) m); [right; nia|]. destruct (Z.ltb_spec m (- (10 ^ 17 - 1))); [left; nia|]. cbn [orb].
  specialize (IH (m * 10) ltac:(lia)). rewrite <- Z.mul_assoc in IH. exact IH.
Qed.

(** The texts of numbers: a sign, digits without superfluous zeros, a fraction, an exponent. *)
Definition whole (ip : list Z) : Prop := ip = [48] \/ exists c ds, ip = c :: ds /\ 49 <= c <= 57 /\ decimals ds.
Definition fraction (ft fp : list Z) : Prop := (ft = [] /\ fp = []) \/ (ft = 46 :: fp /\ decimals fp /\ fp <> []).
Definition exponent (et : list Z) (e : Z) : Prop :=
  (et = [] /\ e = 0) \/
  exists c sg neg ds, et = c :: sg ++ ds /\ (c = 101 \/ c = 69) /\ sign_of sg neg /\ decimals ds /\ ds <> [] /\ e = signed neg (digits_value ds).
Definition number (s : list Z) (neg : bool) (ip fp : list Z) (e : Z) : Prop :=
  exists ft et, s = (if neg then [45] else []) ++ ip ++ ft ++ et /\ whole ip /\ fraction ft fp /\ exponent et e.

(** what follows a part of a number *)
Definition not_digit_head (s : list Z) : Prop := forall c, head s = Some c -> IsDigit c = false.

Lemma exponent_head et e : exponent et e -> not_digit_head et.
Proof. intros [[-> _]|(c & sg & neg & ds & -> & [->| ->] & _)] c' [= <-]; done. Qed.
Lemma fraction_head ft fp et e : fraction ft fp -> exponent et e -> not_digit_head (ft ++ et).
Proof. intros [[-> _]|[-> _]] He; [by eapply exponent_head|]. by intros c [= <-]. Qed.
Lemma decimals_head ds s : decimals ds -> ds <> [] -> starts_digit (ds ++ s) = true.
Proof. intros Hds Hne. destruct ds as [|c ds]; [done|]. by apply Forall_cons in Hds as [Hc _]. Qed.

Lemma parse_exponent_number et e : exponent et e ->
  (parse_exponent et = Some (e, []) /\ - 10 ^ 18 < e < 10 ^ 18) \/ (parse_exponent et = None /\ (10 ^ 17 <= Z.abs e)).
Proof.
  intros [[-> ->]|(c & sg & neg & ds & -> & Hc & Hsg & Hds & Hne & ->)]; [left; split; [done|lia]|].
  cbn [parse_exponent]. assert ((c =? 101) || (c =? 69) = true) as -> by (destruct Hc as [->| ->]; done).
  rewrite (read_sign_app sg neg ds Hsg) by (done || (intros c' E; destruct Hds; [done|]; by injection E as <-)).
  pose proof (decimals_head ds [] Hds Hne) as Hst. rewrite app_nil_r in Hst. rewrite Hst.
  pose proof (exponent_loop_spec ds [] 0 Hds ltac:(done) ltac:(lia)) as He. rewrite app_nil_r in He. fold (digits_value ds) in He.
  destruct He as [[-> Hb]|[-> Hb]]; cbn [mbind option_bind]; [left; split; [by destruct neg|]; destruct neg; simpl; lia|].
  right. split; [done|]. destruct neg; simpl; lia.
Qed.

Lemma parse_whole_number ip rest : whole ip -> not_digit_head rest ->
  match parse_whole (ip ++ rest) with
  | Some (m, tz, rest') => rest' = rest /\ m * 10 ^ tz = digits_value ip /\ 0 <= m < 10 ^ 18 /\ 0 <= tz <= length ip /\ stripped m
  | None => ~ digits18 (digits_value ip)
  end.
Proof.
  intros Hw Hr. destruct Hw as [->|(c & ds & -> & Hc & Hds)].
  - cbn. split; [done|]. split; [done|]. split; [lia|]. split; [lia|by left].
  - cbn [app parse_whole]. rewrite (proj2 (Z.eqb_neq c 48)) by lia. assert ((49 <=? c) && (c <=? 57) = true) as -> by lia.
    assert (decimals (c :: ds)) as Hd by (constructor; [unfold IsDigit; lia|done]).
    pose proof (mantissa_loop_spec (c :: ds) rest 0 0 0 Hd Hr ltac:(lia) ltac:(lia) (or_introl eq_refl)) as H. cbn [app] in H.
    change (value_from (0 * 10 ^ 0) (c :: ds)) with (digits_value (c :: ds)) in H.
    destruct (mantissa_loop _ _ _ _) as [[[[m tz] o] r]|]; cbn [mbind option_bind]; [|done]. destruct H as (-> & _ & H1 & H2 & H3 & H4).
    split; [done|]. split; [done|]. split; [done|]. split; [lia|done].
Qed.

Lemma parse_fraction_number ft fp et e m tz : fraction ft fp -> exponent et e -> 0 <= m < 10 ^ 18 -> 0 <= tz -> stripped m ->
  match parse_fraction m tz (ft ++ et) with
  | Some (m', tz', ofs, rest) => rest = et /\ ofs = length fp /\ m' * 10 ^ tz' = value_from (m * 10 ^ tz) fp /\ 0 <= m' < 10 ^ 18 /\
      0 <= tz' <= tz + length fp /\ stripped m'
  | None => ~ digits18 (value_from (m * 10 ^ tz) fp)
  end.
Proof.
  intros Hf He Hm Htz Hs. destruct Hf as [[-> ->]|[-> [Hfp Hne]]].
  - cbn [app]. destruct et as [|c et]; cbn [parse_fraction].
    + split; [done|]. split; [done|]. split; [done|]. split; [done|]. split; [simpl; lia|done].
    + assert ((c =? 46) = false) as -> by (destruct He as [[[=] _]|(c' & ? & ? & ? & [= <- _] & [->| ->] & _)]; done).
      split; [done|]. split; [done|]. split; [done|]. split; [done|]. split; [simpl; lia|done].
  - cbn [app parse_fraction]. change (46 =? 46) with true. cbn iota. rewrite (decimals_head fp et Hfp Hne).
    pose proof (mantissa_loop_spec fp et m tz 0 Hfp (exponent_head et e He) Hm Htz Hs) as H.
    destruct (mantissa_loop _ _ _ _) as [[[[m' tz'] ofs'] rest']|]; [|done].
    destruct H as (-> & -> & H1 & H2 & H3 & H4). split_and!; try done; lia.
Qed.

(** [a] is the value of the number times [10 ^ dec] *)
Definition exact (a : Z) (neg : bool) (ip fp : list Z) (e dec : Z) : Prop :=
  a * 10 ^ length fp * 10 ^ Z.max 0 (- e) = signed neg (digits_value (ip ++ fp)) * 10 ^ dec * 10 ^ Z.max 0 e.

(** with a mantissa and its exponent *)
Lemma exact_scaled a neg ip fp e dec m tz : m * 10 ^ tz = digits_value (ip ++ fp) -> 0 <= tz -> 0 <= dec ->
  exact a neg ip fp e dec <->
  (if e - length fp + tz + dec <? 0 then a * 10 ^ (- (e - length fp + tz + dec)) = signed neg m
   else a = signed neg m * 10 ^ (e - length fp + tz + dec)).
Proof.
  intros Hm Htz Hdec. unfold exact. set (E := e - length fp + tz + dec).
  assert (signed neg (digits_value (ip ++ fp)) = signed neg m * 10 ^ tz) as -> by (destruct neg; simpl; lia). set (M := signed neg m).
  assert (forall a x y, 0 <= x -> 0 <= y -> a * 10 ^ x * 10 ^ y = a * 10 ^ (x + y)) as Hp by (intros; rewrite Z.pow_add_r by lia; ring).
  rewrite !Hp by lia. replace (tz + dec + Z.max 0 e) with (tz + (dec + Z.max 0 e)) by lia.
  set (x1 := length fp + Z.max 0 (- e)). set (x2 := tz + (dec + Z.max 0 e)). assert (x2 - x1 = E) as Hx by lia.
  assert (0 <= x1 /\ 0 <= x2) as [? ?] by lia. destruct (Z.ltb_spec E 0).
  - replace x1 with (x2 + - E) by lia. rewrite Z.pow_add_r by lia. assert (0 < 10 ^ x2) by (apply Z.pow_pos_nonneg; lia). split; [nia|intros <-; ring].
  - replace x2 with (x1 + E) by lia. rewrite Z.pow_add_r by lia. assert (0 < 10 ^ x1) by (apply Z.pow_pos_nonneg; lia). split; [nia|intros ->; ring].
Qed.

Lemma exact_nonneg a neg ip fp e dec m tz : m * 10 ^ tz = digits_value (ip ++ fp) -> 0 <= tz -> 0 <= dec -> m `mod` 10 <> 0 ->
  exact a neg ip fp e dec -> 0 <= e - length fp + tz + dec /\ a = signed neg m * 10 ^ (e - length fp + tz + dec).
Proof.
  intros Hm Htz Hdec Hs. rewrite (exact_scaled a neg ip fp e dec m tz) by done. set (E := e - length fp + tz + dec).
  destruct (Z.ltb_spec E 0); [|done]. intros Ha. exfalso. apply Hs. replace (- E) with (Z.succ (- E - 1)) in Ha by lia.
  rewrite Z.pow_succ_r in Ha by lia. destruct neg; simpl in Ha; [replace m with ((- (a * 10 ^ (- E - 1))) * 10) by lia|
    replace m with ((a * 10 ^ (- E - 1)) * 10) by lia]; apply Z.mod_mul; lia.
Qed.

Lemma exact_digits18 a neg ip fp e dec : 0 < digits_value (ip ++ fp) -> 0 <= dec ->
  exact a neg ip fp e dec -> Z.abs a < 10 ^ 18 -> digits18 (digits_value (ip ++ fp)).
Proof.
  intros Hpos Hdec Hex Ha. destruct (strip _ Hpos) as (m & t & Em & Hm & Hp & Ht).
  destruct (exact_nonneg a neg ip fp e dec m t (eq_sym Em) Ht Hdec Hm Hex) as [HE Hav]. exists m, t. split; [done|].
  assert (1 <= 10 ^ (e - length fp + t + dec)) by (pose proof (Z.pow_pos_nonneg 10 (e - length fp + t + dec)); lia).
  destruct neg; simpl in Hav; nia.
Qed.

Lemma exact_zero neg ip fp e dec : 0 <= dec -> exact 0 neg ip fp e dec -> digits_value (ip ++ fp) = 0.
Proof.
  unfold exact. intros Hd H. assert (0 < 10 ^ dec /\ 0 < 10 ^ Z.max 0 e) as [H1 H2] by (split; apply Z.pow_pos_nonneg; lia). destruct neg; simpl in H; nia.
Qed.
Lemma exact_zero_value a neg ip fp e dec : digits_value (ip ++ fp) = 0 -> exact a neg ip fp e dec -> a = 0.
Proof.
  unfold exact. intros ->. assert (0 < 10 ^ length fp /\ 0 < 10 ^ Z.max 0 (- e)) as [H1 H2] by (split; apply Z.pow_pos_nonneg; lia).
  destruct neg; simpl; nia.
Qed.

(** the last part of [ParseFixedPoint] *)
Lemma finish_number neg m x : - 10 ^ 18 < m < 10 ^ 18 -> forall a,
  (if x <? 0 then None else if 18 <=? x then None
   else m' ← scale_out (Z.to_nat x) (signed neg m); if (UPPER_BOUND <? m') || (m' <? - UPPER_BOUND) then None else Some m') = Some a <->
  0 <= x < 18 /\ a = signed neg m * 10 ^ x /\ Z.abs a < 10 ^ 18.
Proof.
  intros Hm a. destruct (Z.ltb_spec x 0); [split; [done|lia]|]. destruct (Z.leb_spec 18 x); [split; [done|lia]|].
  pose proof (scale_out_spec (Z.to_nat x) (signed neg m) ltac:(destruct neg; simpl; lia)) as Hs. rewrite Z2Nat.id in Hs by lia.
  unfold UPPER_BOUND. destruct (scale_out _ _) as [m'|]; cbn [mbind option_bind].
  - destruct Hs as [-> Hb]. rewrite (proj2 (Z.ltb_ge _ _)), (proj2 (Z.ltb_ge (_ * _) _)) by lia. cbn [orb].
    split; [intros [= <-]; lia|intros (_ & -> & _); done].
  - split; [done|]. intros (_ & -> & Ha). lia.
Qed.

Lemma parse_number s neg ip fp e dec : number s neg ip fp e -> length s < 2 ^ 31 -> 0 <= dec < 2 ^ 31 ->
  (forall a, ParseFixedPoint s dec = Some a -> exact a neg ip fp e dec /\ Z.abs a < 10 ^ 18) /\
  (forall a, digits_value (ip ++ fp) <> 0 -> exact a neg ip fp e dec -> Z.abs a < 10 ^ 18 -> ParseFixedPoint s dec = Some a).
Proof.
  intros (ft & et & -> & Hw & Hf & He) Hlen Hdec.
  assert (ParseFixedPoint ((if neg then [45] else []) ++ ip ++ ft ++ et) dec =
    ('(mantissa, mantissa_tzeros, val) ← parse_whole (ip ++ ft ++ et);
     '(mantissa, mantissa_tzeros, point_ofs, val) ← parse_fraction mantissa mantissa_tzeros val;
     '(exponent, val) ← parse_exponent val;
     match val with _ :: _ => None | [] =>
       let exponent := i64 (i64 (exponent - point_ofs + mantissa_tzeros) + dec) in
       let mantissa := if neg then - mantissa else mantissa in
       if exponent <? 0 then None else if 18 <=? exponent then None
       else m ← scale_out (Z.to_nat exponent) mantissa; if (UPPER_BOUND <? m) || (m <? - UPPER_BOUND) then None else Some m end)) as ->.
  { unfold ParseFixedPoint. destruct neg; [done|]. cbn [app]. destruct Hw as [->|(c & ds & -> & Hc & _)]; [done|]. cbn [app].
    by rewrite (proj2 (Z.eqb_neq c 45)) by lia. }
  pose proof (parse_whole_number ip (ft ++ et) Hw (fraction_head _ _ _ _ Hf He)) as H1.
  assert (digits_value (ip ++ fp) = value_from (digits_value ip) fp) as Hv by (unfold digits_value, value_from; by rewrite foldl_app).
  assert (decimals ip /\ decimals fp) as [Hip Hfp].
  { split; [destruct Hw as [->|(c & ds & -> & Hc & Hds)]; (constructor; [done || (unfold IsDigit; lia)|done || constructor])|].
    destruct Hf as [[_ ->]|(_ & ? & _)]; [constructor|done]. }
  assert (0 <= digits_value (ip ++ fp)) as Hpos by (apply digits_value_bound; by apply Forall_app).
  assert (length ip + length fp <= length ((if neg then [45%Z] else []) ++ ip ++ ft ++ et))%nat as Hll.
  { rewrite !length_app. destruct Hf as [[-> ->]|[-> _]]; simpl; lia. }
  destruct (parse_whole _) as [[[m tz] r]|]; cbn [mbind option_bind].
  2: { split; [done|]. intros a Hnz Hex Ha. exfalso. apply H1, (digits18_from _ fp); [by apply digits_value_bound|done|].
       rewrite <- Hv. apply (exact_digits18 a neg ip fp e dec); done || lia. }
  destruct H1 as (-> & Em & Hm & Htz & Hs). pose proof (parse_fraction_number ft fp et e m tz Hf He Hm ltac:(lia) Hs) as H2.
  rewrite Em, <- Hv in H2. destruct (parse_fraction _ _ _) as [[[[m' tz'] ofs] r]|]; cbn [mbind option_bind].
  2: { split; [done|]. intros a Hnz Hex Ha. exfalso. apply H2. apply (exact_digits18 a neg ip fp e dec); done || lia. }
  destruct H2 as (-> & -> & Em' & Hm' & Htz' & Hs'). assert (length ip + length fp < 2 ^ 31) as Hsm by lia. clear Hll Hlen.
  assert (forall a, digits_value (ip ++ fp) <> 0 -> exact a neg ip fp e dec -> Z.abs a < 10 ^ 18 ->
    0 <= e - length fp + tz' + dec < 18 /\ a = signed neg m' * 10 ^ (e - length fp + tz' + dec)) as Hfit.
  { intros a Hnz Hex Ha. assert (m' `mod` 10 <> 0) as Hmod by (destruct Hs' as [->|]; [lia|done]).
    destruct (exact_nonneg a neg ip fp e dec m' tz' Em' ltac:(lia) ltac:(lia) Hmod Hex) as [HE Hav]. split; [|done]. split; [done|].
    destruct (Z.lt_ge_cases (e - length fp + tz' + dec) 18) as [|Hge]; [done|]. exfalso.
    apply (Z.pow_le_mono_r 10) in Hge; [|lia]. assert (m' <> 0) by (intros ->; done). destruct neg; simpl in Hav; nia. }
  destruct (parse_exponent_number et e He) as [[-> Hb]|[-> Hb]]; cbn [mbind option_bind].
  2: { split; [done|]. intros a Hnz Hex Ha. destruct (Hfit a Hnz Hex Ha). lia. }
  cbn zeta. rewrite (sint_small 64 (e - length fp + tz')) by (unfold in_sint; lia). rewrite sint_small by (unfold in_sint; lia).
  pose proof (finish_number neg m' (e - length fp + tz' + dec) ltac:(lia)) as Hfin. unfold signed at 1 in Hfin. split; intros a.
  - rewrite Hfin. intros (Hx & -> & Ha). split; [|done]. rewrite (exact_scaled _ _ _ _ _ _ m' tz') by (done || lia).
    by rewrite (proj2 (Z.ltb_ge _ _)) by lia.
  - intros Hnz Hex Ha. rewrite Hfin. destruct (Hfit a Hnz Hex Ha). done.
Qed.

(** *** Zero *)

Lemma digits_value_zero ds : decimals ds -> digits_value ds = 0 -> ds = replicate (length ds) 48.
Proof.
  induction 1 as [|c ds Hc Hds IH]; [done|]. intros E. change (c :: ds) with ([c] ++ ds) in E. rewrite digits_value_app in E.
  pose proof (digits_value_bound ds Hds) as [Hp _]. unfold IsDigit in Hc. change (digits_value [c]) with (10 * 0 + (c - 48)) in E.
  assert (0 < 10 ^ length ds) by (apply Z.pow_pos_nonneg; lia). assert (c = 48) as -> by nia. cbn [length replicate]. f_equal. apply IH. lia.
Qed.
Lemma mantissa_loop_zeros (k : nat) rest tz ofs : not_digit_head rest -> mantissa_loop (replicate k 48 ++ rest) 0 tz ofs = Some (0, tz + k, ofs + k, rest).
Proof.
  intros Hr. revert tz ofs. induction k as [|k IH]; intros tz ofs.
  - cbn [replicate app]. rewrite !Z.add_0_r. destruct rest as [|c rest]; [done|]. cbn [mantissa_loop]. by rewrite (Hr c eq_refl).
  - cbn [replicate app mantissa_loop]. change (IsDigit 48) with true. change (ProcessMantissaDigit 48 0 tz) with (Some (0, tz + 1)). cbn [mbind option_bind].
    rewrite IH. replace (tz + 1 + k) with (tz + S k) by lia. by replace (ofs + 1 + k) with (ofs + S k) by lia.
Qed.

(** the text of zero is read when its exponent alone is in range *)
Lemma parse_zero s neg ip fp e dec : number s neg ip fp e -> length s < 2 ^ 31 -> 0 <= dec < 2 ^ 31 -> digits_value (ip ++ fp) = 0 ->
  ParseFixedPoint s dec = if decide (0 <= e + dec < 18) then Some 0 else None.
Proof.
  intros (ft & et & -> & Hw & Hf & He) Hlen Hdec Hz.
  assert (ip = [48]) as ->.
  { destruct Hw as [->|(c & ds & -> & Hc & Hds)]; [done|]. exfalso. rewrite <- app_comm_cons in Hz. change (c :: ds ++ fp) with ([c] ++ ds ++ fp) in Hz.
    assert (decimals (ds ++ fp)) as Hd by (apply Forall_app; split; [done|]; destruct Hf as [[_ ->]|(_ & ? & _)]; [constructor|done]).
    rewrite digits_value_app in Hz. pose proof (digits_value_bound _ Hd) as [Hp _]. change (digits_value [c]) with (10 * 0 + (c - 48)) in Hz.
    assert (0 < 10 ^ length (ds ++ fp)) by (apply Z.pow_pos_nonneg; lia). nia. }
  assert (decimals fp) as Hfp by (destruct Hf as [[_ ->]|(_ & ? & _)]; [constructor|done]).
  change ([48] ++ fp) with ([48] ++ fp) in Hz. rewrite digits_value_app, Z.mul_0_l, Z.add_0_l in Hz. apply digits_value_zero in Hz as Hrep; [|done].
  assert (length fp < 2 ^ 31) as Hfl by (rewrite !length_app in Hlen; destruct Hf as [[_ ->]|[-> _]]; simpl in *; lia).
  assert (parse_fraction 0 0 (ft ++ et) = Some (0, Z.of_nat (length fp), Z.of_nat (length fp), et)) as Epf.
  { destruct Hf as [[-> ->]|[-> [_ Hne]]].
    - cbn [app]. destruct et as [|c et]; [done|]. cbn [parse_fraction].
      assert ((c =? 46) = false) as -> by (destruct He as [[[=] _]|(c' & ? & ? & ? & [= <- _] & [->| ->] & _)]; done). done.
    - cbn [app parse_fraction]. change (46 =? 46) with true. cbn iota. rewrite (decimals_head fp et Hfp Hne), Hrep.
      rewrite mantissa_loop_zeros by (by eapply exponent_head). by rewrite length_replicate, Z.add_0_l. }
  assert (ParseFixedPoint ((if neg then [45] else []) ++ [48] ++ ft ++ et) dec =
    ('(exponent, val) ← parse_exponent et;
     match val with _ :: _ => None | [] =>
       let exponent := i64 (i64 (exponent - length fp + length fp) + dec) in
       if exponent <? 0 then None else if 18 <=? exponent then None
       else m ← scale_out (Z.to_nat exponent) 0; if (UPPER_BOUND <? m) || (m <? - UPPER_BOUND) then None else Some m end)) as ->.
  { assert (parse_whole (48 :: ft ++ et) = Some (0, 0, ft ++ et)) as Ew by reflexivity.
    unfold ParseFixedPoint. destruct neg; cbn [app]; [change (45 =? 45) with true|change (48 =? 45) with false]; cbn iota; rewrite Ew; cbn [mbind option_bind];
      rewrite Epf; cbn [mbind option_bind]; by rewrite Z.opp_0 || reflexivity. }
  destruct (parse_exponent_number et e He) as [[-> Hb]|[-> Hb]]; cbn [mbind option_bind]; [|by rewrite decide_False by lia]. cbn zeta.
  rewrite (sint_small 64 (e - length fp + length fp)) by (unfold in_sint; lia). rewrite sint_small by (unfold in_sint; lia).
  replace (e - length fp + length fp + dec) with (e + dec) by lia. pose proof (finish_number false 0 (e + dec) ltac:(lia)) as Hfin. cbn [signed] in Hfin.
  case_decide as Hd; [by apply Hfin|]. match goal with |- ?x = None => destruct x as [a|] end; [|done]. destruct (proj1 (Hfin a) eq_refl). lia.
Qed.

(** *** What is accepted is a number *)

Lemma parse_whole_text s m tz rest : parse_whole s = Some (m, tz, rest) -> exists ip, s = ip ++ rest /\ whole ip /\ 0 <= m < 10 ^ 18 /\ 0 <= tz /\ stripped m.
Proof.
  destruct s as [|c s]; [done|]. cbn [parse_whole]. destruct (Z.eqb_spec c 48) as [->|Hc].
  - intros [= <- <- <-]. exists [48]. split; [done|]. split; [by left|]. split; [lia|]. split; [lia|by left].
  - destruct ((49 <=? c) && (c <=? 57)) eqn:Hr; [|done].
    destruct (read_digits_spec (c :: s)) as (ds & rest' & E & Hds & Hh). rewrite E.
    pose proof (mantissa_loop_spec ds rest' 0 0 0 Hds Hh ltac:(lia) ltac:(lia) (or_introl eq_refl)) as H.
    destruct (mantissa_loop _ _ _ _) as [[[[m' tz'] o] r]|]; cbn [mbind option_bind]; [|done].
    destruct H as (-> & _ & _ & H1 & H2 & H3). intros [= <- <- <-].
    exists ds. split; [done|]. split; [|split; [done|]; split; [lia|done]]. right. destruct ds as [|c' ds].
    { cbn in E. subst rest'. specialize (Hh c eq_refl). unfold IsDigit in Hh. lia. }
    injection E as <- _. exists c, ds. split; [done|]. split; [lia|]. by apply Forall_cons in Hds as [_ ?].
Qed.

Lemma parse_fraction_text m tz s m' tz' ofs rest : 0 <= m < 10 ^ 18 -> 0 <= tz -> stripped m ->
  parse_fraction m tz s = Some (m', tz', ofs, rest) -> exists ft fp, s = ft ++ rest /\ fraction ft fp.
Proof.
  intros Hm Htz Hs. destruct s as [|c s]; cbn [parse_fraction]; [intros [= <- <- <- <-]; exists [], []; split; [done|by left]|].
  destruct (Z.eqb_spec c 46) as [->|]; [|intros [= <- <- <- <-]; exists [], []; split; [done|by left]].
  destruct (starts_digit s) eqn:Hst; [|done]. destruct (read_digits_spec s) as (ds & rest' & -> & Hds & Hh).
  pose proof (mantissa_loop_spec ds rest' m tz 0 Hds Hh Hm Htz Hs) as H. intros E. rewrite E in H. destruct H as (-> & _).
  exists (46 :: ds), ds. split; [done|]. right. split; [done|]. split; [done|]. intros ->. cbn in Hst. destruct rest' as [|c rest']; [done|].
  cbn in Hst. by rewrite (Hh c eq_refl) in Hst.
Qed.

Lemma parse_exponent_text s e : parse_exponent s = Some (e, []) -> exponent s e.
Proof.
  destruct s as [|c s]; cbn [parse_exponent]; [intros [= <-]; by left|].
  destruct ((c =? 101) || (c =? 69)) eqn:Hc; [|done]. destruct (read_sign_spec s) as (sg & neg & s' & -> & Hsg & ->).
  destruct (starts_digit s') eqn:Hst; [|done]. destruct (read_digits_spec s') as (ds & rest & -> & Hds & Hh).
  destruct (exponent_loop_spec ds rest 0 Hds Hh ltac:(lia)) as [[-> _]|[-> _]]; cbn [mbind option_bind]; [|done].
  intros [= <- ->]. right. exists c, sg, neg, ds. rewrite app_nil_r in *. split; [done|]. split; [lia|]. split; [done|]. split; [done|].
  split; [by intros ->|by destruct neg].
Qed.

Lemma ParseFixedPoint_text s dec a : ParseFixedPoint s dec = Some a -> exists neg ip fp e, number s neg ip fp e.
Proof.
  unfold ParseFixedPoint. assert (exists (neg : bool) (s' : list Z), s = (if neg then [45] else []) ++ s' /\
    match s with c :: val' => if c =? 45 then (true, val') else (false, s) | [] => (false, []) end = (neg, s')) as (neg & s' & Es & ->).
  { destruct s as [|c s]; [by exists false, []|]. destruct (Z.eqb_spec c 45) as [->|]; [by exists true, s|by exists false, (c :: s)]. }
  destruct (parse_whole s') as [[[m tz] r1]|] eqn:E1; cbn [mbind option_bind]; [|done].
  destruct (parse_whole_text s' m tz r1 E1) as (ip & -> & Hw & Hm & Htz & Hs).
  destruct (parse_fraction m tz r1) as [[[[m' tz'] ofs] r2]|] eqn:E2; cbn [mbind option_bind]; [|done].
  destruct (parse_fraction_text m tz r1 m' tz' ofs r2 Hm Htz Hs E2) as (ft & fp & -> & Hf).
  destruct (parse_exponent r2) as [[e r3]|] eqn:E3; cbn [mbind option_bind]; [|done]. destruct r3; [|done]. intros _.
  exists neg, ip, fp, e. exists ft, r2. split; [done|]. split; [done|]. split; [done|]. by apply parse_exponent_text.
Qed.

(** C31: [ParseFixedPoint] reads a text exactly when it is that of a number whose value times [10 ^ decimals] is an integer of at
    most eighteen digits, and returns that integer: nothing is rounded and nothing overflows.  Zero alone is read only
    when its written exponent plus [decimals] is at least 0 and below 18 ("0e10" with eight decimals is refused). *)
Theorem ParseFixedPoint_exact (s : list Z) (dec a : Z) :
  length s < 2 ^ 31 -> 0 <= dec < 2 ^ 31 ->
  ParseFixedPoint s dec = Some a <->
  exists neg ip fp e, number s neg ip fp e /\ exact a neg ip fp e dec /\ Z.abs a < 10 ^ 18 /\ (a = 0 -> 0 <= e + dec < 18).
Proof.
  intros Hl Hd. split.
  - intros Ha. destruct (ParseFixedPoint_text s dec a Ha) as (neg & ip & fp & e & Hn). exists neg, ip, fp, e. split; [done|].
    destruct (proj1 (parse_number s neg ip fp e dec Hn Hl Hd) a Ha) as [Hex Hb]. split; [done|]. split; [done|]. intros ->.
    apply exact_zero in Hex; [|lia]. rewrite (parse_zero s neg ip fp e dec Hn Hl Hd Hex) in Ha. by case_decide.
  - intros (neg & ip & fp & e & Hn & Hex & Hb & H0). destruct (decide (digits_value (ip ++ fp) = 0)) as [Hz|Hnz].
    + rewrite (parse_zero s neg ip fp e dec Hn Hl Hd Hz). apply exact_zero_value in Hex; [|done]. subst a. by rewrite decide_True by by apply H0.
    + by apply (parse_number s neg ip fp e dec Hn Hl Hd).
Qed.

(** ** Money *)

Lemma trim_zeros_spec F r : decimals F -> (2 <= length F)%nat ->
  exists F' k, F = F' ++ replicate k 48 /\ (2 <= length F')%nat /\ trim_zeros (rev F ++ 46 :: r) = rev F' ++ 46 :: r.
Proof.
  induction F as [|c F IH] using rev_ind; intros HF Hl; [simpl in Hl; lia|]. rewrite rev_unit. cbn [app trim_zeros].
  apply Forall_app in HF as [HF Hc]. rewrite length_app in Hl. cbn [length] in Hl.
  destruct ((c =? 48) && _) eqn:E.
  - apply andb_true_iff in E as [Ec E]. apply Z.eqb_eq in Ec as ->. destruct (decide (length F = 1%nat)) as [H1|H1].
    { destruct F as [|x [|]]; try done. }
    destruct IH as (F' & k & -> & H2 & Ht); [done|lia|]. exists F', (k + 1)%nat. rewrite Ht, replicate_add, (assoc_L app). done.
  - exists (F ++ [c]), 0%nat. rewrite app_nil_r, rev_unit, length_app. cbn [length]. split; [done|]. split; [lia|done].
Qed.

Lemma digits_value_zeros (k : nat) : digits_value (replicate k 48) = 0.
Proof. induction k as [|k IH]; [done|]. change (replicate (S k) 48) with ([48] ++ replicate k 48). by rewrite digits_value_app, IH. Qed.

Lemma pad8_spec n : 0 <= n < 10 ^ 8 -> decimals (pad8 n) /\ length (pad8 n) = 8%nat /\ digits_value (pad8 n) = n.
Proof.
  intros Hn. unfold pad8, i64tostr. rewrite (proj2 (Z.ltb_ge n 0)) by lia. destruct (decimal_spec n) as (H1 & H2 & H3 & H4); [lia|].
  assert (length (decimal n) <= 8)%nat as Hl.
  { destruct H4 as [H4|[_ ->]]; [|simpl; lia]. assert (length (decimal n) - 1 < 8) by (apply (Z.pow_lt_mono_r_iff 10); lia). lia. }
  split; [apply Forall_app; split; [by apply Forall_replicate|done]|]. rewrite length_app, length_replicate. split; [lia|].
  rewrite digits_value_app, digits_value_zeros, H2. lia.
Qed.

(** the parts of a formatted amount *)
Lemma FormatMoney_text n : Z.abs n < 2 ^ 63 ->
  exists F k, FormatMoney n = (if n <? 0 then [45] else []) ++ decimal (Z.abs n / COIN) ++ 46 :: F /\
    decimals F /\ (2 <= length F)%nat /\ (length F + k = 8)%nat /\ digits_value F * 10 ^ k = Z.abs n `mod` COIN.
Proof.
  intros Hn. unfold FormatMoney. assert (i64 (if 0 <? n then n else - n) = Z.abs n) as -> by (rewrite sint_small; [|lia|]; unfold in_sint; destruct (Z.ltb_spec 0 n); lia).
  rewrite Z.quot_div_nonneg, Z.rem_mod_nonneg by (unfold COIN; lia). set (q := Z.abs n / COIN). set (r := Z.abs n `mod` COIN).
  assert (0 <= q) by (apply Z.div_pos; unfold COIN; lia). assert (0 <= r < 10 ^ 8) as Hr by (apply Z.mod_pos_bound; done).
  destruct (pad8_spec r Hr) as (H1 & H2 & H3). unfold i64tostr. rewrite (proj2 (Z.ltb_ge q 0)) by lia.
  destruct (trim_zeros_spec (pad8 r) (rev (decimal q)) H1 ltac:(lia)) as (F & k & E & Hl & Ht). exists F, k.
  assert (rev (trim_zeros (rev (decimal q ++ [46] ++ pad8 r))) = decimal q ++ 46 :: F) as ->.
  { rewrite !rev_app_distr, <- (assoc_L app). cbn [rev app]. rewrite Ht, rev_app_distr. cbn [rev]. by rewrite !rev_involutive, <- (assoc_L app). }
  split; [by destruct (n <? 0)|]. rewrite E in H1, H2, H3. apply Forall_app in H1 as [H1 _]. split; [done|]. split; [done|].
  rewrite length_app, length_replicate in H2. split; [done|]. rewrite digits_value_app, length_replicate in H3.
  rewrite digits_value_zeros in H3. lia.
Qed.

Lemma money_units_spec F (k : nat) units : decimals F ->
  money_units F units (10 ^ (length F + k) / 10) = (units + digits_value F * 10 ^ k, []).
Proof.
  intros HF. revert units. induction HF as [|c F Hc _ IH]; intros units; [cbn; f_equal; lia|].
  cbn [money_units length]. rewrite Hc. replace (Z.of_nat (S (length F)) + Z.of_nat k) with (Z.succ (length F + k)) by lia.
  rewrite Z.pow_succ_r, (Z.mul_comm 10), Z.div_mul by lia. rewrite (proj2 (Z.ltb_lt 0 _)) by (apply Z.pow_pos_nonneg; lia). cbn [andb].
  rewrite IH. f_equal. replace (digits_value (c :: F)) with ((c - 48) * 10 ^ length F + digits_value F) by (change (c :: F) with ([c] ++ F); by rewrite digits_value_app).
  rewrite Z.pow_add_r by lia. ring.
Qed.

Lemma money_whole_spec q s : decimals q ->
  money_whole (q ++ 46 :: s) = Some (q, (money_units s 0 (CENT * 10)).1, (money_units s 0 (CENT * 10)).2).
Proof.
  induction 1 as [|c q Hc _ IH]; cbn [app money_whole]; [by destruct (money_units _ _ _)|].
  destruct (IsDigit_not c Hc) as (-> & _ & _ & _ & -> & _). rewrite Hc, IH. done.
Qed.

(** An amount is read back as it was printed: by [ParseFixedPoint] with eight decimals for every amount of up to
    eighteen digits, and by [ParseMoney] when it is not negative; [ParseMoney] refuses the text of
    a negative amount. *)
Theorem money_roundtrip (n : Z) :
  Z.abs n < 10 ^ 18 ->
  ParseFixedPoint (FormatMoney n) 8 = Some n /\ ParseMoney (FormatMoney n) = (if n <? 0 then None else Some n).
Proof.
  intros Hn. destruct (FormatMoney_text n ltac:(lia)) as (F & k & E & HF & Hl & Hk & Hv).
  assert (0 <= Z.abs n / COIN < 10 ^ 10) as Hq by (split; [apply Z.div_pos; unfold COIN; lia|apply Z.div_lt_upper_bound; unfold COIN; lia]).
  destruct (decimal_spec (Z.abs n / COIN) ltac:(lia)) as (Hq1 & Hq2 & Hq3 & Hq4). set (q := decimal (Z.abs n / COIN)) in *.
  assert (length q <= 10)%nat as Hlq.
  { destruct Hq4 as [H|[_ ->]]; [|simpl; lia]. assert (length q - 1 < 10) by (apply (Z.pow_lt_mono_r_iff 10); lia). lia. }
  assert (Z.abs n = Z.abs n / COIN * COIN + Z.abs n `mod` COIN) as Hdm by (rewrite Z.mul_comm; apply Z.div_mod; done). split.
  - destruct (decide (n = 0)) as [->|Hnz]; [done|].
    assert (number (FormatMoney n) (n <? 0) q F 0) as Hnum.
    { exists (46 :: F), []. split; [by rewrite app_nil_r|]. split; [|split; [right; split_and!; [done|done|intros ->; simpl in Hl; lia]|by left]].
      destruct Hq4 as [H|[_ ->]]; [|by left]. right. destruct q as [|c ds] eqn:Eq; [done|]. exists c, ds. split; [done|].
      pose proof Hq1 as [Hc Hds]%Forall_cons. split; [|done]. unfold IsDigit in Hc. destruct (decide (c = 48)) as [->|]; [exfalso|lia].
      rewrite <- Hq2 in H. change (48 :: ds) with ([48] ++ ds) in H at 2. rewrite digits_value_app in H. change (digits_value [48]) with 0 in H.
      pose proof (digits_value_bound ds Hds). cbn [length] in H. replace (Z.of_nat (S (length ds)) - 1) with (Z.of_nat (length ds)) in H by lia. lia. }
    assert (digits_value (q ++ F) * 10 ^ k = Z.abs n) as Hval.
    { rewrite digits_value_app, Hq2, Z.mul_add_distr_r, Hv, <- Z.mul_assoc, <- Z.pow_add_r by lia.
      replace (Z.of_nat (length F) + Z.of_nat k) with 8 by lia. done. }
    apply (proj2 (parse_number _ _ _ _ _ 8 Hnum ltac:(rewrite E, !length_app; destruct (n <? 0); simpl; lia) ltac:(lia))); [| |done].
    + intros Hz. rewrite Hz in Hval. lia.
    + unfold exact. change (Z.max 0 (- 0)) with 0. change (Z.max 0 0) with 0. rewrite !Z.pow_0_r, !Z.mul_1_r.
      replace 8 with (k + length F) by lia. rewrite Z.pow_add_r, Z.mul_assoc by lia. f_equal. destruct (Z.ltb_spec n 0); simpl; lia.
  - rewrite E. unfold ParseMoney. destruct q as [|c q'] eqn:Eq; [done|]. pose proof Hq1 as [Hc _]%Forall_cons.
    destruct (IsDigit_not c Hc) as (Hsp & _). destruct (Z.ltb_spec n 0); cbn [app]; [by rewrite skip_spaces_cons|].
    rewrite skip_spaces_cons by done. change (c :: q' ++ 46 :: F) with ((c :: q') ++ 46 :: F). rewrite money_whole_spec by done.
    cbn [mbind option_bind]. change (CENT * 10) with (10 ^ 8 / 10). replace 8 with (length F + k) by lia. rewrite money_units_spec by done.
    cbn [fst snd forallb negb]. rewrite (proj2 (Nat.ltb_ge 10 _)) by done. pose proof (Z.mod_pos_bound (Z.abs n) COIN eq_refl) as Hm.
    rewrite Z.add_0_l, Hv. rewrite (proj2 (Z.ltb_ge _ 0)), (proj2 (Z.ltb_ge COIN _)) by lia. cbn [orb].
    assert (integer (c :: q') false (c :: q')) as Hi by (exists []; split; [done|]; split; [by left|done]).
    unfold atoi64. rewrite (proj1 (strtoll_integer _ _ _ Hi)). cbn [signed]. cbn zeta. rewrite Hq2.
    rewrite !(proj2 (Z.ltb_ge _ _)) by lia. cbn [fst]. unfold COIN in *. rewrite (sint_small 64 (_ * _)) by (unfold in_sint; lia).
    rewrite sint_small by (unfold in_sint; lia). f_equal. lia.
Qed.

(** ** Comparison, hosts and ports *)

Lemma accumulate_zero a b i acc : accumulate a b i acc = 0 <->
  acc = 0 /\ forall j x, a !! j = Some x -> x = b !!! ((i + j) `mod` length b)%nat.
Proof.
  revert i acc. induction a as [|x a IH]; intros i acc; cbn [accumulate]; [split; [by intros ->|by intros [-> _]]|].
  rewrite IH, Z.lor_eq_0_iff, Z.lxor_eq_0_iff. split.
  - intros ((-> & Hx) & H). split; [done|]. intros [|j] y; cbn [lookup list_lookup]; [intros [= <-]; by rewrite Nat.add_0_r|].
    intros Hy. rewrite <- Nat.add_succ_comm. by apply H.
  - intros (-> & H). split; [split; [done|]|].
    + specialize (H 0%nat x eq_refl). by rewrite Nat.add_0_r in H.
    + intros j y Hy. rewrite Nat.add_succ_comm. by apply (H (S j)).
Qed.

(** [TimingResistantEqual] is equality. *)
Theorem TimingResistantEqual_spec (a b : list Z) : TimingResistantEqual a b = bool_decide (a = b).
Proof.
  unfold TimingResistantEqual. destruct (Nat.eqb_spec (length b) 0) as [Hb|Hb].
  { apply nil_length_inv in Hb as ->. by destruct a. }
  apply eq_bool_prop_intro. rewrite bool_decide_spec. rewrite Is_true_true, Z.eqb_eq, accumulate_zero, Z.lxor_eq_0_iff. split.
  - intros [Hl H]. apply Nat2Z.inj in Hl. apply list_eq_same_length with (length b); [done|done|]. intros i x y Hi Hx Hy.
    rewrite (H i x Hx), Nat.add_0_l, Nat.mod_small by done. by apply list_lookup_total_correct.
  - intros ->. split; [done|]. intros j x Hx. rewrite Nat.add_0_l, Nat.mod_small by by eapply lookup_lt_Some.
    symmetry. by apply list_lookup_total_correct.
Qed.

Lemma split_last_app c a b : c ∉ b -> split_last c (a ++ c :: b) = Some (a, b).
Proof.
  intros Hb. assert (forall l, c ∉ l -> split_last c l = None) as Hno.
  { induction l as [|x l IH]; [done|]. rewrite not_elem_of_cons. intros [Hx Hl]. cbn [split_last]. rewrite IH by done.
    by rewrite (proj2 (Z.eqb_neq x c)) by congruence. }
  induction a as [|x a IH]; cbn [app split_last]; [by rewrite Hno, Z.eqb_refl|]. by rewrite IH.
Qed.
Lemma split_last_none c l : c ∉ l -> split_last c l = None.
Proof.
  induction l as [|x l IH]; [done|]. rewrite not_elem_of_cons. intros [Hx Hl]. cbn [split_last]. rewrite IH by done.
  by rewrite (proj2 (Z.eqb_neq x c)) by congruence.
Qed.

(** A host and a port are found again: the host as it is when it has no colon, in brackets when it is an address
    with colons; without a port the default is kept.  An address with colons but without
    brackets is never cut. *)
Theorem SplitHostPort_spec (host : list Z) (port port0 : Z) :
  0 < port < 2 ^ 16 ->
  (58 ∉ host -> head host <> Some 91 ->
    SplitHostPort (host ++ 58 :: decimal port) port0 = (port, host) /\ SplitHostPort host port0 = (port0, host)) /\
  SplitHostPort ([91] ++ host ++ [93] ++ 58 :: decimal port) port0 = (port, host) /\
  (forall before, 58 ∈ before -> 58 ∉ host -> head before <> Some 91 ->
    SplitHostPort (before ++ 58 :: host) port0 = (port0, before ++ 58 :: host)).
Proof.
  intros Hp. destruct (decimal_spec port ltac:(lia)) as (Hd1 & Hd2 & Hd3 & _).
  assert (58 ∉ decimal port) as Hno.
  { intros H. unfold decimals in Hd1. rewrite Forall_forall in Hd1. by apply Hd1 in H. }
  assert (ParseInt32 (decimal port) = (true, Some port)) as HP.
  { apply (signed_core (decimal port) port i32 32); [lia|intros m Hm; by apply sint_small|]. exists false, (decimal port).
    split; [exists []; split; [done|]; split; [by left|done]|]. split; [done|unfold in_sint; lia]. }
  unfold SplitHostPort. split; [|split].
  - intros H1 H2. rewrite split_last_app, split_last_none by done.
    rewrite (bool_decide_false (58 ∈ host)) by done. cbn [negb]. rewrite orb_true_r, HP.
    rewrite (proj2 (Z.ltb_lt 0 port)), (proj2 (Z.ltb_lt port 0x10000)) by lia. cbn [andb].
    by rewrite (bool_decide_false (head host = Some 91)) by done.
  - rewrite (assoc_L app host), (assoc_L app [91]), split_last_app by done. cbn [app head].
    assert (last (91 :: host ++ [93]) = Some 93) as Hlast by apply (last_snoc 93 (91 :: host)). rewrite Hlast.
    rewrite (bool_decide_true (Some 91 = Some 91)), (bool_decide_true (Some 93 = Some 93)) by done. cbn [andb]. rewrite orb_true_r. cbn [orb]. rewrite HP.
    rewrite (proj2 (Z.ltb_lt 0 port)), (proj2 (Z.ltb_lt port 0x10000)) by lia. cbn [andb app head].
    rewrite Hlast, (bool_decide_true (Some 91 = Some 91)), (bool_decide_true (Some 93 = Some 93)) by done. cbn [andb]. f_equal. cbn [length drop]. rewrite length_app. cbn [length].
    replace (S (length host + 1) - 2)%nat with (length host) by lia. apply take_app_length.
  - intros before H1 H2 H3. rewrite split_last_app by done. assert (length before =? 0 = false)%nat as -> by (destruct before; [by inversion H1|done]).
    assert (head (before ++ 58 :: host) = head before) as -> by (destruct before; [by inversion H1|done]).
    rewrite (bool_decide_false (head before = Some 91)) by done. rewrite (bool_decide_true (58 ∈ before)) by done. cbn [negb andb orb].
    assert (head (before ++ 58 :: host) = head before) as -> by (destruct before; [by inversion H1|done]).
    by rewrite (bool_decide_false (head before = Some 91)) by done.
Qed.

(** ** Witnesses *)

Lemma base64_base32_canonical_witness : DecodeBase64 (EncodeBase64 [0; 255; 7; 8]) = ([0; 255; 7; 8], true).
Proof. apply (base64_base32_canonical [0; 255; 7; 8] []); split_Forall; unfold in_uint; lia. Defined.

Lemma hex_roundtrip_witness : ParseHex (HexStr [0; 255; 7]) = [0; 255; 7] /\ HexStr (ParseHex [48; 48; 70; 102]) = [48; 48; 102; 102].
Proof.
  assert (bytes [0; 255; 7]) as Hv by (split_Forall; unfold in_uint; lia).
  assert (bytes [48; 48; 70; 102]) as Hs by (split_Forall; unfold in_uint; lia).
  destruct (hex_roundtrip [0; 255; 7] [48; 48; 70; 102] Hv Hs) as (H1 & _ & _ & H2). split; [exact H1|exact (H2 eq_refl)].
Defined.

Lemma integers_parsed_witness : ParseInt64 (i64tostr (-1234567890123)) = (true, Some (-1234567890123)).
Proof. apply (proj2 (proj2 (proj2 (proj2 (integers_parsed [] (-1234567890123)))))). unfold in_sint. lia. Defined.

Lemma ParseFixedPoint_exact_witness : ParseFixedPoint (chars "-12.50e1") 8 = Some (-12500000000).
Proof.
  apply (proj2 (ParseFixedPoint_exact (chars "-12.50e1") 8 (-12500000000) ltac:(cbn; lia) ltac:(lia))).
  exists true, (chars "12"), (chars "50"), 1. split; [|split; [vm_compute; reflexivity|split; [vm_compute; reflexivity|discriminate]]].
  exists (chars ".50"), (chars "e1"). split; [reflexivity|]. split; [right; exists 49, (chars "2"); split; [reflexivity|]; split; [lia|repeat constructor]|].
  split; [right; split; [reflexivity|]; split; [repeat constructor|done]|]. right. exists 101, [], false, (chars "1").
  split; [reflexivity|]. split; [by left|]. split; [by left|]. split; [repeat constructor|]. split; [done|reflexivity].
Defined.

Lemma money_roundtrip_witness : ParseMoney (FormatMoney 123450000000) = Some 123450000000 /\ FormatMoney 123450000000 = chars "1234.50".
Proof. split; [exact (proj2 (money_roundtrip 123450000000 ltac:(lia)))|reflexivity]. Defined.

Lemma SplitHostPort_spec_witness : SplitHostPort (chars "[::1]:6678") 0 = (6678, chars "::1").
Proof. exact (proj1 (proj2 (SplitHostPort_spec (chars "::1") 6678 0 ltac:(lia)))). Defined.
