(* ===== verification/NetAddress.v ===== *)
(** * Network addresses: netaddress.h, netaddress.cpp

    Addresses of 16 bytes in network byte order with the network they belong to, services (an address and a
    port) and subnets.  [fAllowPrivateNet], a global of the program, is an argument of what reads it.
    What asks the operating system for a name is not modelled. *)

From Stdlib Require Import Ascii String.
From S2P Require Import Prelude Bytes BlockHash Uint256 Streams Serialize SerializeCodecs Sha256 Hash Base58 Strings Transaction.

Definition pchIPv4 : list Z := [0; 0; 0; 0; 0; 0; 0; 0; 0; 0; 0xff; 0xff].
Definition pchOnionCat : list Z := [0xFD; 0x87; 0xD8; 0x7E; 0xEB; 0x43].
Definition g_internal_prefix : list Z := [0xFD; 0x6B; 0x88; 0xC0; 0x87; 0x24].

Inductive Network := NET_UNROUTABLE | NET_IPV4 | NET_IPV6 | NET_ONION | NET_INTERNAL.
#[export] Instance Network_eq_dec : EqDecision Network.
Proof. solve_decision. Defined.
(** the value of the enumeration *)
Definition net_value (net : Network) : Z :=
  match net with NET_UNROUTABLE => 0 | NET_IPV4 => 1 | NET_IPV6 => 2 | NET_ONION => 3 | NET_INTERNAL => 4 end.
Definition NET_MAX : Z := 5.

(** ** CNetAddr *)

Record CNetAddr := mkNetAddr { m_net : Network; ip : list Z; scopeId : Z (* uint32_t *) }.
Definition CNetAddr_new : CNetAddr := mkNetAddr NET_IPV6 (replicate 16 0) 0.

(** [memcmp] of the first bytes *)
Definition has_bytes (pre l : list Z) : bool := bool_decide (take (List.length pre) l = pre).

Definition SetIP (a ipIn : CNetAddr) : CNetAddr := mkNetAddr (m_net ipIn) (ip ipIn) (scopeId a).
Definition legacy_net (ipv6 : list Z) : Network :=
  if has_bytes pchIPv4 ipv6 then NET_IPV4
  else if has_bytes pchOnionCat ipv6 then NET_ONION
  else if has_bytes g_internal_prefix ipv6 then NET_INTERNAL
  else NET_IPV6.
Definition SetLegacyIPv6 (a : CNetAddr) (ipv6 : list Z) : CNetAddr := mkNetAddr (legacy_net ipv6) ipv6 (scopeId a).

(** [None]: the assertion fails *)
Definition SetRaw (a : CNetAddr) (network : Network) (ip_in : list Z) : option CNetAddr :=
  match network with
  | NET_IPV4 => Some (mkNetAddr NET_IPV4 (pchIPv4 ++ take 4 ip_in) (scopeId a))
  | NET_IPV6 => Some (SetLegacyIPv6 a ip_in)
  | _ => None
  end.

Definition CNetAddr_ipv4 (ipv4Addr : list Z) : CNetAddr := mkNetAddr NET_IPV4 (pchIPv4 ++ take 4 ipv4Addr) 0.
Definition CNetAddr_ipv6 (ipv6Addr : list Z) (scope : Z) : CNetAddr := mkNetAddr (legacy_net ipv6Addr) ipv6Addr scope.

(** whether it succeeds, and the address after the call *)
Definition SetInternal (D : Sha256.dispatch) (a : CNetAddr) (name : list Z) : bool * CNetAddr :=
  match name with
  | [] => (false, a)
  | _ =>
      let hash := (Sha256.Finalize D (Sha256.Write D (Sha256.new (replicate 64 0)) name)).1 in
      (true, mkNetAddr NET_INTERNAL (g_internal_prefix ++ take (16 - List.length g_internal_prefix) hash) (scopeId a))
  end.

Definition SetSpecial (a : CNetAddr) (strName : list Z) : bool * CNetAddr :=
  let n := (List.length strName - 6)%nat in
  if (6 <? List.length strName)%nat && bool_decide (drop n strName = chars ".onion") then
    let vchAddr := (DecodeBase32 (c_str (take n strName))).1 in
    if negb (List.length vchAddr =? 16 - List.length pchOnionCat)%nat then (false, a)
    else (true, mkNetAddr NET_ONION (pchOnionCat ++ vchAddr) (scopeId a))
  else (false, a).

Definition GetByte (a : CNetAddr) (n : nat) : Z := ip a !!! (15 - n)%nat.

Definition IsIPv4 (a : CNetAddr) : bool := bool_decide (m_net a = NET_IPV4).
Definition IsIPv6 (a : CNetAddr) : bool := bool_decide (m_net a = NET_IPV6).
Definition IsTor (a : CNetAddr) : bool := bool_decide (m_net a = NET_ONION).
Definition IsInternal (a : CNetAddr) : bool := bool_decide (m_net a = NET_INTERNAL).

Definition IsBindAny (a : CNetAddr) : bool :=
  forallb (λ i, GetByte a i =? 0) (seq 0 (if IsIPv4 a then 4 else 16)).

Definition IsRFC1918 (a : CNetAddr) : bool :=
  IsIPv4 a && ((GetByte a 3 =? 10) || ((GetByte a 3 =? 192) && (GetByte a 2 =? 168))
    || ((GetByte a 3 =? 172) && ((16 <=? GetByte a 2) && (GetByte a 2 <=? 31)))).
Definition IsRFC2544 (a : CNetAddr) : bool := IsIPv4 a && (GetByte a 3 =? 198) && ((GetByte a 2 =? 18) || (GetByte a 2 =? 19)).
Definition IsRFC3927 (a : CNetAddr) : bool := IsIPv4 a && ((GetByte a 3 =? 169) && (GetByte a 2 =? 254)).
Definition IsRFC6598 (a : CNetAddr) : bool := IsIPv4 a && (GetByte a 3 =? 100) && (64 <=? GetByte a 2) && (GetByte a 2 <=? 127).
Definition IsRFC5737 (a : CNetAddr) : bool :=
  IsIPv4 a && (((GetByte a 3 =? 192) && (GetByte a 2 =? 0) && (GetByte a 1 =? 2))
    || ((GetByte a 3 =? 198) && (GetByte a 2 =? 51) && (GetByte a 1 =? 100))
    || ((GetByte a 3 =? 203) && (GetByte a 2 =? 0) && (GetByte a 1 =? 113))).
Definition IsRFC3849 (a : CNetAddr) : bool :=
  IsIPv6 a && (GetByte a 15 =? 0x20) && (GetByte a 14 =? 0x01) && (GetByte a 13 =? 0x0D) && (GetByte a 12 =? 0xB8).
Definition IsRFC3964 (a : CNetAddr) : bool := IsIPv6 a && (GetByte a 15 =? 0x20) && (GetByte a 14 =? 0x02).
Definition IsRFC6052 (a : CNetAddr) : bool := IsIPv6 a && has_bytes [0; 0x64; 0xFF; 0x9B; 0; 0; 0; 0; 0; 0; 0; 0] (ip a).
Definition IsRFC4380 (a : CNetAddr) : bool :=
  IsIPv6 a && (GetByte a 15 =? 0x20) && (GetByte a 14 =? 0x01) && (GetByte a 13 =? 0) && (GetByte a 12 =? 0).
Definition IsRFC4862 (a : CNetAddr) : bool := IsIPv6 a && has_bytes [0xFE; 0x80; 0; 0; 0; 0; 0; 0] (ip a).
Definition IsRFC4193 (a : CNetAddr) : bool := IsIPv6 a && ((GetByte a 15 &&& 0xFE) =? 0xFC).
Definition IsRFC6145 (a : CNetAddr) : bool := IsIPv6 a && has_bytes [0; 0; 0; 0; 0; 0; 0; 0; 0xFF; 0xFF; 0; 0] (ip a).
Definition IsRFC4843 (a : CNetAddr) : bool :=
  IsIPv6 a && (GetByte a 15 =? 0x20) && (GetByte a 14 =? 0x01) && (GetByte a 13 =? 0x00) && ((GetByte a 12 &&& 0xF0) =? 0x10).
Definition IsRFC7343 (a : CNetAddr) : bool :=
  IsIPv6 a && (GetByte a 15 =? 0x20) && (GetByte a 14 =? 0x01) && (GetByte a 13 =? 0x00) && ((GetByte a 12 &&& 0xF0) =? 0x20).

Definition IsLocal (a : CNetAddr) : bool :=
  if IsIPv4 a && ((GetByte a 3 =? 127) || (GetByte a 3 =? 0)) then true
  else if IsIPv6 a && has_bytes [0; 0; 0; 0; 0; 0; 0; 0; 0; 0; 0; 0; 0; 0; 0; 1] (ip a) then true
  else false.

Definition IsValid (a : CNetAddr) : bool :=
  if IsIPv6 a && has_bytes (drop 3 pchIPv4) (ip a) then false
  else if IsIPv6 a && has_bytes (replicate 16 0) (ip a) then false
  else if IsRFC3849 a then false
  else if IsInternal a then false
  else if IsIPv4 a then
    (if has_bytes [255; 255; 255; 255] (drop 12 (ip a)) then false
     else if has_bytes [0; 0; 0; 0] (drop 12 (ip a)) then false else true)
  else true.

Section options.
Context (fAllowPrivateNet : bool).

Definition IsRoutable (a : CNetAddr) : bool :=
  if negb (IsValid a) then false
  else if negb fAllowPrivateNet && IsRFC1918 a then false
  else negb (IsRFC2544 a || IsRFC3927 a || IsRFC4862 a || IsRFC6598 a || IsRFC5737 a || (IsRFC4193 a && negb (IsTor a))
             || IsRFC4843 a || IsRFC7343 a || IsLocal a || IsInternal a).

Definition GetNetwork (a : CNetAddr) : Network :=
  if IsInternal a then NET_INTERNAL else if negb (IsRoutable a) then NET_UNROUTABLE else m_net a.

(** the last loop: [nBits] bits from byte [nStartByte] on *)
Fixpoint group_bytes (fuel : nat) (a : CNetAddr) (nStartByte : nat) (nBits : Z) : list Z :=
  match fuel with
  | O => []
  | S fuel =>
      if 8 <=? nBits then GetByte a (15 - nStartByte) :: group_bytes fuel a (S nStartByte) (nBits - 8)
      else if 0 <? nBits then [u8 (GetByte a (15 - nStartByte) ||| ((1 << (8 - nBits)) - 1))] else []
  end.

(** class, first byte and number of bits; or the whole group.  At most ten bytes are taken. *)
Definition GetGroup (a : CNetAddr) : list Z :=
  let group nClass nStartByte nBits := nClass :: group_bytes 11 a nStartByte nBits in
  let '(nClass, nBits) := if IsLocal a then (255, 0) else (net_value NET_IPV6, 16) in
  if IsInternal a then group (net_value NET_INTERNAL) (List.length g_internal_prefix) ((16 - List.length g_internal_prefix) * 8)
  else if negb (IsRoutable a) then group (net_value NET_UNROUTABLE) 0%nat 0
  else if IsIPv4 a || IsRFC6145 a || IsRFC6052 a then group (net_value NET_IPV4) 12%nat nBits
  else if IsRFC3964 a then group (net_value NET_IPV4) 2%nat nBits
  else if IsRFC4380 a then [net_value NET_IPV4; GetByte a 3 ^^ 0xFF; GetByte a 2 ^^ 0xFF]
  else if IsTor a then group (net_value NET_ONION) 6%nat 4
  else if (GetByte a 15 =? 0x20) && (GetByte a 14 =? 0x01) && (GetByte a 13 =? 0x04) && (GetByte a 12 =? 0x70) then group nClass 0%nat 36
  else group nClass 0%nat 32.

(** *** Reachability *)

Inductive Reachability :=
  REACH_UNREACHABLE | REACH_DEFAULT | REACH_TEREDO | REACH_IPV6_WEAK | REACH_IPV4 | REACH_IPV6_STRONG | REACH_PRIVATE.
Inductive ExtNetwork := EXT (net : Network) | NET_UNKNOWN | NET_TEREDO.
Definition GetExtNetwork (addr : option CNetAddr) : ExtNetwork :=
  match addr with
  | None => NET_UNKNOWN
  | Some addr => if IsRFC4380 addr then NET_TEREDO else EXT (GetNetwork addr)
  end.
Definition GetReachabilityFrom (a : CNetAddr) (paddrPartner : option CNetAddr) : Reachability :=
  if negb (IsRoutable a) || IsInternal a then REACH_UNREACHABLE
  else
    let ourNet := GetExtNetwork (Some a) in
    let theirNet := GetExtNetwork paddrPartner in
    let fTunnel := IsRFC3964 a || IsRFC6052 a || IsRFC6145 a in
    match theirNet with
    | EXT NET_IPV4 => match ourNet with EXT NET_IPV4 => REACH_IPV4 | _ => REACH_DEFAULT end
    | EXT NET_IPV6 =>
        match ourNet with
        | NET_TEREDO => REACH_TEREDO
        | EXT NET_IPV4 => REACH_IPV4
        | EXT NET_IPV6 => if fTunnel then REACH_IPV6_WEAK else REACH_IPV6_STRONG
        | _ => REACH_DEFAULT
        end
    | EXT NET_ONION => match ourNet with EXT NET_IPV4 => REACH_IPV4 | EXT NET_ONION => REACH_PRIVATE | _ => REACH_DEFAULT end
    | NET_TEREDO =>
        match ourNet with
        | NET_TEREDO => REACH_TEREDO
        | EXT NET_IPV6 => REACH_IPV6_WEAK
        | EXT NET_IPV4 => REACH_IPV4
        | _ => REACH_DEFAULT
        end
    | _ =>
        match ourNet with
        | NET_TEREDO => REACH_TEREDO
        | EXT NET_IPV6 => REACH_IPV6_WEAK
        | EXT NET_IPV4 => REACH_IPV4
        | EXT NET_ONION => REACH_PRIVATE
        | _ => REACH_DEFAULT
        end
    end.
End options.

Definition CNetAddr_eqb (a b : CNetAddr) : bool := bool_decide (m_net a = m_net b) && (Blob.Compare (ip a) (ip b) =? 0).
Definition CNetAddr_ltb (a b : CNetAddr) : bool :=
  (net_value (m_net a) <? net_value (m_net b)) || (bool_decide (m_net a = m_net b) && (Blob.Compare (ip a) (ip b) <? 0)).

Definition GetInAddr (a : CNetAddr) : option (list Z) := if negb (IsIPv4 a) then None else Some (take 4 (drop 12 (ip a))).
Definition GetIn6Addr (a : CNetAddr) : option (list Z) := if negb (IsIPv6 a) then None else Some (ip a).
Definition CNetAddr_GetHash (D : Sha256.dispatch) (a : CNetAddr) : Z := le_value (take 8 (Hash D [ip a])).

Definition codec_CNetAddr : codec CNetAddr := Codec
  (λ (S : Type) (_ : OStream S) a, Serialize (codec_array 16) (ip a))
  (λ (S : Type) (_ : IStream S), ip_temp ← Unserialize (codec_array 16); mret (SetLegacyIPv6 CNetAddr_new ip_temp)).

(** ** CService *)

Record CService := mkService { svc_addr : CNetAddr; port : Z (* uint16_t *) }.
Definition CService_new : CService := mkService CNetAddr_new 0.
Definition CService_eqb (a b : CService) : bool := CNetAddr_eqb (svc_addr a) (svc_addr b) && (port a =? port b).
Definition CService_ltb (a b : CService) : bool :=
  CNetAddr_ltb (svc_addr a) (svc_addr b) || (CNetAddr_eqb (svc_addr a) (svc_addr b) && (port a <? port b)).
Definition GetKey (s : CService) : list Z := ip (svc_addr s) ++ [u8 (port s / 0x100); port s &&& 0x0FF].

Definition codec_CService : codec CService := Codec
  (λ (S : Type) (_ : OStream S) s, _ ← Serialize (codec_array 16) (ip (svc_addr s)); Serialize BigEndian (port s))
  (λ (S : Type) (_ : IStream S),
    ip_temp ← Unserialize (codec_array 16); port ← Unserialize BigEndian; mret (mkService (SetLegacyIPv6 CNetAddr_new ip_temp) port)).

(** ** CSubNet *)

Record CSubNet := mkSubNet { network : CNetAddr; netmask : list Z; valid : bool }.
Definition CSubNet_new : CSubNet := mkSubNet CNetAddr_new (replicate 16 0) false.

(** the loop that clears the bits [n..127] *)
Fixpoint clear_bits (k : nat) (n : Z) (netmask : list Z) : list Z :=
  match k with
  | O => netmask
  | S k => clear_bits k (n + 1) (alter (λ m, u8 (m &&& Z.lnot (1 << (7 - (n &&& 7))))) (Z.to_nat (n >> 3)) netmask)
  end.
Definition masked (a : CNetAddr) (netmask : list Z) : CNetAddr := mkNetAddr (m_net a) (zip_with Z.land (ip a) netmask) (scopeId a).
Definition astartofs (a : CNetAddr) : nat := if IsIPv4 a then 12 else 0.

(** with the length of the prefix *)
Definition CSubNet_prefix (addr : CNetAddr) (mask : Z) : CSubNet :=
  let ofs := astartofs addr in
  let '(netmask, valid) :=
    if (0 <=? mask) && (mask <=? 128 - ofs * 8)
    then let n := mask + ofs * 8 in (clear_bits (Z.to_nat (128 - n)) n (replicate 16 255), true)
    else (replicate 16 255, false) in
  mkSubNet (masked addr netmask) netmask valid.
(** with a mask *)
Definition CSubNet_mask (addr mask : CNetAddr) : CSubNet :=
  let ofs := astartofs addr in
  let netmask := replicate ofs 255 ++ drop ofs (ip mask) in
  mkSubNet (masked addr netmask) netmask true.
(** of a single address *)
Definition CSubNet_single (addr : CNetAddr) : CSubNet := mkSubNet addr (replicate 16 255) (IsValid addr).

Definition Match (s : CSubNet) (addr : CNetAddr) : bool :=
  if negb (valid s) || negb (IsValid addr) || negb (bool_decide (m_net (network s) = m_net addr)) then false
  else forallb (λ x, Z.land (ip addr !!! x) (netmask s !!! x) =? ip (network s) !!! x) (seq 0 16).

Definition NetmaskBits (x : Z) : Z :=
  if x =? 0x00 then 0 else if x =? 0x80 then 1 else if x =? 0xc0 then 2 else if x =? 0xe0 then 3 else if x =? 0xf0 then 4
  else if x =? 0xf8 then 5 else if x =? 0xfc then 6 else if x =? 0xfe then 7 else if x =? 0xff then 8 else -1.

(** the first loop of [ToString]: the full bytes, and the mask after them *)
Fixpoint full_bytes (m : list Z) (cidr : Z) : Z * list Z :=
  match m with x :: m' => if x =? 0xff then full_bytes m' (cidr + 8) else (cidr, m) | [] => (cidr, []) end.
(** the part of [ToString] that finds the length of the prefix; [None]: the mask is none *)
Definition cidr_of (s : CSubNet) : option Z :=
  let '(cidr, m) := full_bytes (drop (astartofs (network s)) (netmask s)) 0 in
  match m with
  | [] => Some cidr
  | x :: m =>
      let bits := NetmaskBits x in
      if bits <? 0 then None else if forallb (λ y, y =? 0) m then Some (cidr + bits) else None
  end.

Definition CSubNet_eqb (a b : CSubNet) : bool :=
  Bool.eqb (valid a) (valid b) && CNetAddr_eqb (network a) (network b) && (Blob.Compare (netmask a) (netmask b) =? 0).
Definition CSubNet_ltb (a b : CSubNet) : bool :=
  CNetAddr_ltb (network a) (network b) || (CNetAddr_eqb (network a) (network b) && (Blob.Compare (netmask a) (netmask b) <? 0)).

Definition codec_CSubNet : codec CSubNet := Codec
  (λ (S : Type) (_ : OStream S) s,
    _ ← Serialize codec_CNetAddr (network s); _ ← Serialize (codec_array 16) (netmask s); Serialize codec_bool (valid s))
  (λ (S : Type) (_ : IStream S),
    network ← Unserialize codec_CNetAddr; netmask ← Unserialize (codec_array 16); valid ← Unserialize codec_bool;
    mret (mkSubNet network netmask valid)).
