(* ===== verification/NetAddressLaws.v ===== *)
(** * Network addresses: well-formedness, round trips, subnets, groups and orders *)

From Stdlib Require Import Ascii String.
From S2P Require Import Prelude Bytes BlockHash Uint256 Streams Serialize SerializeLaws SerializeCodecs ShaSpec Sha256 Sha256Laws Hash MerkleLaws Base58 Base58Laws Strings StringsLaws Transaction NetAddress.

(** ** Well-formed addresses *)

(** The network is the one that the bytes say. *)
Definition addr_ok (a : CNetAddr) : Prop :=
  length (ip a) = 16%nat /\ bytes (ip a) /\ in_uint 32 (scopeId a) /\ m_net a = legacy_net (ip a).

Lemma has_bytes_app pre l : has_bytes pre (pre ++ l) = true.
Proof. unfold has_bytes. by rewrite take_app_length, bool_decide_true. Qed.
Lemma has_bytes_spec pre l : has_bytes pre l = true -> exists r, l = pre ++ r.
Proof. unfold has_bytes. rewrite bool_decide_eq_true. intros H. exists (drop (length pre) l). rewrite <- H at 1. by rewrite take_drop. Qed.

Lemma has_bytes_cons x pre y l : has_bytes (x :: pre) (y :: l) = (x =? y) && has_bytes pre l.
Proof.
  unfold has_bytes. cbn [length take]. apply eq_bool_prop_intro. rewrite bool_decide_spec, Is_true_true, andb_true_iff, bool_decide_eq_true, Z.eqb_eq.
  split; [by intros [= -> ->]|by intros [-> ->]].
Qed.
Lemma has_bytes_nil l : has_bytes [] l = true.
Proof. unfold has_bytes. cbn. by rewrite bool_decide_true. Qed.

Lemma legacy_ipv4 l : legacy_net (pchIPv4 ++ l) = NET_IPV4.
Proof. unfold legacy_net. by rewrite has_bytes_app. Qed.
Lemma legacy_onion l : legacy_net (pchOnionCat ++ l) = NET_ONION.
Proof. unfold legacy_net. by rewrite has_bytes_app. Qed.
Lemma legacy_internal l : legacy_net (g_internal_prefix ++ l) = NET_INTERNAL.
Proof. unfold legacy_net. by rewrite has_bytes_app. Qed.

Lemma legacy_spec l : legacy_net l <> NET_UNROUTABLE /\
  (legacy_net l = NET_IPV4 -> exists r, l = pchIPv4 ++ r) /\ (legacy_net l = NET_ONION -> exists r, l = pchOnionCat ++ r) /\
  (legacy_net l = NET_INTERNAL -> exists r, l = g_internal_prefix ++ r) /\ (legacy_net l = NET_IPV6 -> has_bytes pchIPv4 l = false).
Proof.
  unfold legacy_net. destruct (has_bytes pchIPv4 l) eqn:E1; [|destruct (has_bytes pchOnionCat l) eqn:E2; [|destruct (has_bytes g_internal_prefix l) eqn:E3]];
    split_and!; done || (intros _; by apply has_bytes_spec).
Qed.

(** C29: Every way to make an address gives a well-formed one: the constructors, the setters (on any address,
    when they succeed) and the bytes of a stream; an operation that fails leaves the address as
    it was. *)
Theorem addresses_well_formed (D : Sha256.dispatch) `{HD : !GoodDispatch D} (a b : CNetAddr) (l name : list Z) (scope : Z) :
  addr_ok a -> addr_ok b -> bytes l -> in_uint 32 scope -> bytes name -> length name < 2 ^ 61 ->
  addr_ok CNetAddr_new /\ addr_ok (SetIP a b) /\
  (length l = 4%nat -> addr_ok (CNetAddr_ipv4 l)) /\ (length l = 16%nat -> addr_ok (CNetAddr_ipv6 l scope) /\ addr_ok (SetLegacyIPv6 a l)) /\
  (forall net a', length l = (if decide (net = NET_IPV4) then 4 else 16)%nat -> SetRaw a net l = Some a' -> addr_ok a') /\
  (let r := SetInternal D a name in if r.1 then addr_ok r.2 /\ IsInternal r.2 = true else r.2 = a) /\
  (let r := SetSpecial a name in if r.1 then addr_ok r.2 /\ IsTor r.2 = true else r.2 = a).
Proof.
  intros Ha Hb Hl Hs Hn Hln. pose proof Ha as (_ & _ & Hsa & _).
  assert (Forall is_byte (pchIPv4) /\ Forall is_byte pchOnionCat /\ Forall is_byte g_internal_prefix) as (B1 & B2 & B3)
    by (split_and!; split_Forall; unfold in_uint; lia).
  assert (forall net r sc, bytes r -> length r = 4%nat -> in_uint 32 sc -> net = NET_IPV4 -> addr_ok (mkNetAddr net (pchIPv4 ++ take 4 r) sc)) as H4.
  { intros net r sc Hr Hlr Hsc ->. rewrite take_ge by lia. unfold addr_ok. cbn [ip m_net scopeId].
    split; [rewrite length_app, Hlr; done|]. split; [by apply Forall_app|]. split; [done|]. by rewrite legacy_ipv4. }
  assert (forall r sc, bytes r -> length r = 16%nat -> in_uint 32 sc -> addr_ok (mkNetAddr (legacy_net r) r sc)) as H16 by done.
  split_and!.
  - apply (H16 (replicate 16 0) 0); [by apply Forall_replicate|done|unfold in_uint; lia].
  - destruct Hb as (? & ? & _ & ?). done.
  - intros H. apply H4; [done..|unfold in_uint; lia|done].
  - intros H. split; by apply H16.
  - intros net a' H. destruct net; cbn [SetRaw]; [done|intros [= <-]; by apply H4|intros [= <-]; by apply H16|done|done].
  - unfold SetInternal. destruct name as [|c name]; [done|].
    pose proof (CSHA256_correct D (replicate 64 0) [c :: name] ltac:(done)) as Hh. cbn [foldl concat] in Hh. rewrite app_nil_r in Hh.
    rewrite Hh by done. cbn zeta. cbn [fst snd]. split; [|done]. change (16 - length g_internal_prefix)%nat with 10%nat.
    assert (length (take 10 (SHA256 (c :: name))) = 10%nat) as H10 by (rewrite length_take, length_SHA256; done).
    unfold addr_ok. cbn [ip m_net scopeId]. split; [rewrite length_app, H10; done|].
    split; [apply Forall_app; split; [done|apply Forall_take, SHA256_bytes]|]. split; [done|]. by rewrite legacy_internal.
  - unfold SetSpecial. destruct (_ && _); [|done].
    destruct (DecodeBase32 _) as [v q] eqn:E. cbn [fst]. destruct (Nat.eqb_spec (length v) (16 - length pchOnionCat)) as [Hv|]; cbn [negb]; [|done].
    cbn [fst snd]. split; [|done]. unfold addr_ok. cbn [ip m_net scopeId].
    split; [rewrite length_app, Hv; done|]. split; [|split; [done|by rewrite legacy_onion]]. apply Forall_app. split; [done|].
    enough (bytes (DecodeBase32 (c_str (take (length name - 6) name))).1) as Hd by (by rewrite E in Hd).
    apply DecodeBase32_bytes, c_str_bytes, Forall_take, Hn.
Qed.

(** ** Round trips *)

(** what a stream holds: the scope is not written *)
Definition plain (a : CNetAddr) : Prop := addr_ok a /\ scopeId a = 0.

Lemma plain_array a : plain a -> representable (codec_array 16) (ip a) /\ SetLegacyIPv6 CNetAddr_new (ip a) = a.
Proof.
  intros [(Hl & Hb & _ & Hn) Hs]. split; [split; [by rewrite Hl|split; [done|done]]|]. unfold SetLegacyIPv6. destruct a as [m i s]. simpl in *. by subst.
Qed.

#[export, refine] Instance codec_CNetAddr_laws : CodecLaws codec_CNetAddr := {|
  encoding a := encoding (codec_array 16) (ip a); representable := plain |}.
Proof.
  - intros S ?? a Ha. apply (Serialize_emits (c:=codec_array 16)), plain_array, Ha.
  - intros S ?? a Ha. destruct (plain_array a Ha) as [Hr Hp]. eapply parses_bind_all; [by apply Unserialize_parses|]. cbn beta. rewrite Hp. apply parses_ret.
  - intros a Ha. apply (encoding_bytes (c:=codec_array 16)), plain_array, Ha.
Defined.

#[export, refine] Instance codec_CService_laws : CodecLaws codec_CService := {|
  encoding s := encoding (codec_array 16) (ip (svc_addr s)) ++ encoding BigEndian (port s);
  representable s := plain (svc_addr s) /\ representable BigEndian (port s) |}.
Proof.
  - intros S ?? s [H1%plain_array H2]. destruct H1 as [H1 _]. emits_fields.
  - intros S ?? [a p] [H1%plain_array H2]. cbn [svc_addr port] in *. destruct H1 as [H1 Hp]. rewrite <- Hp at 2. cbn [svc_addr port ip]. parses_fields.
  - intros s [H1%plain_array H2]. apply Forall_app. split; [apply (encoding_bytes (c:=codec_array 16)), H1|by apply (encoding_bytes (c:=BigEndian))].
Defined.

#[export, refine] Instance codec_CSubNet_laws : CodecLaws codec_CSubNet := {|
  encoding s := encoding codec_CNetAddr (network s) ++ encoding (codec_array 16) (netmask s) ++ encoding codec_bool (valid s);
  representable s := plain (network s) /\ representable (codec_array 16) (netmask s) |}.
Proof.
  - intros S ?? s [H1 H2]. assert (representable codec_bool (valid s)) as H3 by done. assert (representable codec_CNetAddr (network s)) by done. emits_fields.
  - intros S ?? [a m v] [H1 H2]. cbn [network netmask valid] in *. assert (representable codec_bool v) as H3 by done.
    assert (representable codec_CNetAddr a) by done. parses_fields.
  - intros s [H1 H2]. rewrite !Forall_app. split_and!; [by apply (encoding_bytes (c:=codec_CNetAddr))|by apply (encoding_bytes (c:=codec_array 16))|by apply (encoding_bytes (c:=codec_bool))].
Defined.

(** ** Subnets *)

(** the mask of a prefix of [n] bits *)
Definition prefix_mask (n : Z) : list Z := clear_bits (Z.to_nat (128 - n)) n (replicate 16 255).

Lemma prefix_mask_all : forallb (λ n, bool_decide (stream 8 (prefix_mask n) = replicate (Z.to_nat n) true ++ replicate (Z.to_nat (128 - n)) false) &&
    (length (prefix_mask n) =? 16)%nat && forallb (λ x, (0 <=? x) && (x <? 256)) (prefix_mask n)) (seqZ 0 129) = true.
Proof. vm_compute. reflexivity. Qed.

Lemma prefix_mask_spec n : 0 <= n <= 128 ->
  stream 8 (prefix_mask n) = replicate (Z.to_nat n) true ++ replicate (Z.to_nat (128 - n)) false /\ length (prefix_mask n) = 16%nat /\ bytes (prefix_mask n).
Proof.
  intros Hn. pose proof prefix_mask_all as H. rewrite forallb_forall in H. specialize (H n). rewrite <- list_elem_of_In, elem_of_seqZ in H.
  specialize (H ltac:(lia)). rewrite !andb_true_iff, bool_decide_eq_true, Nat.eqb_eq, forallb_forall in H. destruct H as [[H1 H2] H3].
  split; [done|]. split; [done|]. apply Forall_forall. intros x Hx%list_elem_of_In%H3. change (0 <= x < 256). lia.
Qed.

Lemma bits_of_land k x y : bits_of k (Z.land x y) = zip_with andb (bits_of k x) (bits_of k y).
Proof. induction k as [|k IH]; [done|]. cbn [bits_of zip_with]. by rewrite Z.land_spec, IH. Qed.
Lemma stream_land k l l' : length l = length l' -> stream k (zip_with Z.land l l') = zip_with andb (stream k l) (stream k l').
Proof.
  revert l'. induction l as [|x l IH]; intros [|y l'] Hl; try done. unfold stream in *. cbn [zip_with mbind list_bind].
  rewrite zip_with_app by by rewrite !length_bits_of. rewrite bits_of_land. f_equal. apply IH. by injection Hl.
Qed.
Lemma and_mask (l : list bool) n k : length l = (n + k)%nat -> zip_with andb l (replicate n true ++ replicate k false) = take n l ++ replicate k false.
Proof.
  revert n. induction l as [|b l IH]; intros n Hl.
  - destruct n; [|done]. destruct k; [done|]. simpl in Hl. lia.
  - destruct n as [|n].
    + cbn [app replicate take]. clear IH. revert k Hl. cbn [Nat.add]. generalize (b :: l). clear.
      intros l. induction l as [|b l IH]; intros k Hl; [by destruct k|]. destruct k as [|k]; [done|]. cbn [replicate zip_with].
      rewrite andb_false_r. f_equal. apply IH. by injection Hl.
    + cbn [app replicate zip_with take]. rewrite andb_true_r. f_equal. apply IH. simpl in Hl. lia.
Qed.

(** the bits of an address, the most significant first *)
Definition address_bits (a : CNetAddr) : list bool := stream 8 (ip a).

Lemma land_bytes x y : is_byte x -> is_byte y -> is_byte (Z.land x y).
Proof. intros Hx [Hy _]. apply in_uint_land; [lia|done|done]. Qed.
Lemma zip_land_bytes l l' : bytes l -> bytes l' -> bytes (zip_with Z.land l l').
Proof. intros Hl. revert l'. induction Hl as [|x l Hx _ IH]; intros [|y l'] Hl'; try constructor; apply Forall_cons in Hl' as [? ?]; [by apply land_bytes|by apply IH]. Qed.

Lemma masked_equal l l' n : bytes l -> bytes l' -> length l = 16%nat -> length l' = 16%nat -> 0 <= n <= 128 ->
  zip_with Z.land l (prefix_mask n) = zip_with Z.land l' (prefix_mask n) <-> take (Z.to_nat n) (stream 8 l) = take (Z.to_nat n) (stream 8 l').
Proof.
  intros Hl Hl' H H' Hn. destruct (prefix_mask_spec n Hn) as (Hm & Hml & Hmb).
  assert (forall l, bytes l -> length l = 16%nat -> stream 8 (zip_with Z.land l (prefix_mask n)) = take (Z.to_nat n) (stream 8 l) ++ replicate (Z.to_nat (128 - n)) false) as Hs.
  { intros l0 _ H0. rewrite stream_land by congruence. rewrite Hm. apply and_mask. rewrite length_stream. lia. }
  split.
  - intros E. apply (f_equal (stream 8)) in E. rewrite !Hs in E by done. by apply app_inv_tail in E.
  - intros E. apply (stream_inj 8 _ _ [] []); [by apply zip_land_bytes|by apply zip_land_bytes|rewrite !length_zip_with; lia|].
    by rewrite !app_nil_r, !Hs, E.
Qed.

Lemma all_bytes_equal l m l' : length l = 16%nat -> length m = 16%nat -> length l' = 16%nat ->
  forallb (λ x, Z.land (l !!! x) (m !!! x) =? l' !!! x) (seq 0 16) = true <-> zip_with Z.land l m = l'.
Proof.
  intros H1 H2 H3. rewrite forallb_forall. split.
  - intros H. apply list_eq_same_length with 16%nat; [done|rewrite length_zip_with; lia|]. intros i x y Hi Hx Hy.
    specialize (H i). rewrite in_seq in H. specialize (H ltac:(lia)). apply Z.eqb_eq in H.
    apply lookup_zip_with_Some in Hx as (u & v & -> & Hu & Hv). rewrite (list_lookup_total_correct _ _ _ Hu), (list_lookup_total_correct _ _ _ Hv), (list_lookup_total_correct _ _ _ Hy) in H. done.
  - intros <- i Hi%in_seq. apply Z.eqb_eq. destruct (lookup_lt_is_Some_2 l i ltac:(lia)) as [u Hu]. destruct (lookup_lt_is_Some_2 m i ltac:(lia)) as [v Hv].
    rewrite (list_lookup_total_correct _ _ _ Hu), (list_lookup_total_correct _ _ _ Hv). symmetry. apply list_lookup_total_correct. by rewrite lookup_zip_with, Hu, Hv.
Qed.

(** C30: A subnet given by the length of its prefix is valid exactly when the length fits the kind of address; it then
    matches the valid addresses of the same network that agree with its own on that many bits (after
    the fixed 96 bits of an IPv4 address), and no others. *)
Theorem subnet_match (a b : CNetAddr) (mask : Z) :
  addr_ok a -> addr_ok b ->
  let off := if IsIPv4 a then 96 else 0 in
  (valid (CSubNet_prefix a mask) = true <-> 0 <= mask <= 128 - off) /\
  (Match (CSubNet_prefix a mask) b = true <->
    0 <= mask <= 128 - off /\ IsValid b = true /\ m_net a = m_net b /\
    take (Z.to_nat (off + mask)) (address_bits a) = take (Z.to_nat (off + mask)) (address_bits b)).
Proof.
  intros (Hla & Hba & _ & _) (Hlb & Hbb & _ & _) off. assert (astartofs a * 8 = off) as Hoff by (unfold off, astartofs; by destruct (IsIPv4 a)).
  unfold CSubNet_prefix. rewrite Hoff. assert (0 <= off) by (unfold off; destruct (IsIPv4 a); lia).
  destruct ((0 <=? mask) && (mask <=? 128 - off)) eqn:E.
  - assert (0 <= mask <= 128 - off) as Hm by lia. cbn [valid]. split; [done|]. unfold Match. cbn [valid network netmask].
    fold (prefix_mask (mask + off)). destruct (prefix_mask_spec (mask + off) ltac:(lia)) as (_ & Hml & _). cbn [negb orb masked m_net ip].
    destruct (IsValid b); cbn [negb orb]; [|split; [done|by intros (_ & ? & _)]]. case_bool_decide as Hn; cbn [negb]; [|split; [done|by intros (_ & _ & ? & _)]].
    rewrite all_bytes_equal by (try done; rewrite length_zip_with; lia). rewrite masked_equal by (done || lia). unfold address_bits.
    replace (off + mask) with (mask + off) by lia. split; [intros ->; done|intros (_ & _ & _ & ->); done].
  - cbn [valid]. split; [split; [done|lia]|]. unfold Match. cbn [valid negb orb]. split; [done|]. lia.
Qed.

(** a computed table of the masks of prefixes: full bytes, one byte of the table [NetmaskBits], zeros *)
Definition mask_shape (k : nat) (q : nat) (x : Z) : list Z := replicate q 255 ++ x :: replicate (k - q - 1) 0.

Lemma NetmaskBits_values x : let b := NetmaskBits x in b < 0 \/ (0 <= b <= 8 /\ x = Z.land (255 * 2 ^ (8 - b)) 255).
Proof.
  cbn zeta. unfold NetmaskBits.
  repeat match goal with |- context [?x =? ?y] => destruct (Z.eqb_spec x y) as [->|?]; [right; split; [lia|reflexivity]|] end. left. lia.
Qed.

Lemma full_bytes_spec m cidr : exists q m', m = replicate q 255 ++ m' /\ full_bytes m cidr = (cidr + 8 * q, m') /\ head m' <> Some 255.
Proof.
  revert cidr. induction m as [|x m IH]; intros cidr.
  - exists 0%nat, []. split; [done|]. split; [|done]. simpl. f_equal. lia.
  - simpl. destruct (Z.eqb_spec x 0xff) as [->|Hx].
    + destruct (IH (cidr + 8)) as (q & m' & -> & -> & H). exists (S q), m'. split; [done|]. split; [f_equal; lia|done].
    + exists 0%nat, (x :: m). split; [done|]. split; [f_equal; lia|]. intros [=]. done.
Qed.

Lemma zeros_forallb m : forallb (λ y, y =? 0) m = true -> m = replicate (length m) 0.
Proof. induction m as [|x m IH]; [done|]. simpl. intros [->%Z.eqb_eq H%IH]%andb_true_iff. by rewrite <- H. Qed.

(** the masks of whole prefixes by their shape, checked for all of them *)
Lemma prefix_shapes : forallb (λ ofs : nat, forallb (λ q : nat, bool_decide (drop ofs (prefix_mask (8 * ofs + 8 * q)) = replicate q 255 ++ replicate (16 - ofs - q) 0) &&
    (if decide (ofs + q < 16)%nat then forallb (λ b, bool_decide (drop ofs (prefix_mask (8 * ofs + 8 * q + b)) = mask_shape (16 - ofs) q (Z.land (255 * 2 ^ (8 - b)) 255))) (seqZ 0 8) else true)) (seq 0 (17 - ofs)))
  [0; 12]%nat = true.
Proof. vm_compute. reflexivity. Qed.

Lemma prefix_cidrs : forallb (λ ofs : nat, forallb (λ n, bool_decide (take ofs (prefix_mask (8 * ofs + n)) = replicate ofs 255) &&
    bool_decide ((let '(c, m) := full_bytes (drop ofs (prefix_mask (8 * ofs + n))) 0 in
      match m with [] => Some c | x :: m => if NetmaskBits x <? 0 then None else if forallb (λ y, y =? 0) m then Some (c + NetmaskBits x) else None end) = Some n)) (seqZ 0 (129 - 8 * ofs)))
  [0; 12]%nat = true.
Proof. vm_compute. reflexivity. Qed.

Lemma prefix_shape (ofs q : nat) b : In ofs [0; 12]%nat -> (ofs + q < 16)%nat -> 0 <= b < 8 ->
  drop ofs (prefix_mask (8 * ofs + 8 * q + b)) = mask_shape (16 - ofs) q (Z.land (255 * 2 ^ (8 - b)) 255).
Proof.
  intros Ho Hq Hb. pose proof prefix_shapes as H. rewrite forallb_forall in H. specialize (H ofs Ho). rewrite forallb_forall in H.
  specialize (H q). rewrite in_seq in H. specialize (H ltac:(lia)). apply andb_true_iff in H as [_ H]. rewrite decide_True in H by done.
  rewrite forallb_forall in H. specialize (H b). rewrite <- list_elem_of_In, elem_of_seqZ in H. by eapply bool_decide_eq_true, H.
Qed.
Lemma prefix_full (ofs q : nat) : In ofs [0; 12]%nat -> (ofs + q <= 16)%nat ->
  drop ofs (prefix_mask (8 * ofs + 8 * q)) = replicate q 255 ++ replicate (16 - ofs - q) 0.
Proof.
  intros Ho Hq. pose proof prefix_shapes as H. rewrite forallb_forall in H. specialize (H ofs Ho). rewrite forallb_forall in H.
  specialize (H q). rewrite in_seq in H. specialize (H ltac:(lia)). apply andb_true_iff in H as [H _]. by eapply bool_decide_eq_true, H.
Qed.
Lemma prefix_cidr (ofs : nat) n : In ofs [0; 12]%nat -> 0 <= n <= 128 - 8 * ofs ->
  take ofs (prefix_mask (8 * ofs + n)) = replicate ofs 255 /\
  (let '(c, m) := full_bytes (drop ofs (prefix_mask (8 * ofs + n))) 0 in
   match m with [] => Some c | x :: m => if NetmaskBits x <? 0 then None else if forallb (λ y, y =? 0) m then Some (c + NetmaskBits x) else None end) = Some n.
Proof.
  intros Ho Hn. pose proof prefix_cidrs as H. rewrite forallb_forall in H. specialize (H ofs Ho). rewrite forallb_forall in H.
  specialize (H n). rewrite <- list_elem_of_In, elem_of_seqZ in H. specialize (H ltac:(lia)). apply andb_true_iff in H as [H1 H2].
  split; [by eapply bool_decide_eq_true|]. exact (proj1 (bool_decide_eq_true _) H2).
Qed.

Lemma astartofs_cases a : In (astartofs a) [0; 12]%nat.
Proof. unfold astartofs. destruct (IsIPv4 a); simpl; auto. Qed.

(** The mask that is written as the length of a prefix is the mask of that prefix: a subnet given by a mask prints
    with the length [n] exactly when it is the subnet of the prefix of length [n]. *)
Theorem cidr_spec (a m : CNetAddr) (n : Z) :
  length (ip m) = 16%nat -> cidr_of (CSubNet_mask a m) = Some n <-> 0 <= n <= 128 - 8 * astartofs a /\ CSubNet_mask a m = CSubNet_prefix a n.
Proof.
  intros Hl. pose proof (astartofs_cases a) as Ho. assert (astartofs a <= 12)%nat as Hle by (unfold astartofs; destruct (IsIPv4 a); lia).
  set (ofs := astartofs a) in *.
  assert (forall k : Z, 0 <= k <= 128 - 8 * ofs -> CSubNet_prefix a k = mkSubNet (masked a (prefix_mask (8 * ofs + k))) (prefix_mask (8 * ofs + k)) true) as Hp.
  { intros k Hk. unfold CSubNet_prefix. fold ofs. replace ((0 <=? k) && (k <=? 128 - ofs * 8)) with true by (symmetry; lia). unfold prefix_mask.
    by replace (k + ofs * 8) with (8 * ofs + k) by lia. }
  assert (drop ofs (replicate ofs 255 ++ drop ofs (ip m)) = drop ofs (ip m)) as Hd by (rewrite drop_app_length'; [done|by rewrite length_replicate]).
  unfold cidr_of. cbn [network netmask CSubNet_mask]. change (astartofs (masked a (replicate (astartofs a) 255 ++ drop (astartofs a) (ip m)))) with ofs.
  fold ofs. unfold CSubNet_mask. fold ofs. cbn [netmask]. rewrite Hd. split.
  - destruct (full_bytes_spec (drop ofs (ip m)) 0) as (q & m' & Hm & -> & Hh). rewrite Hm. pose proof (f_equal length Hm) as Hlen.
    rewrite length_drop, length_app, length_replicate, Hl in Hlen. intros H.
    assert (0 <= n <= 128 - 8 * ofs /\ drop ofs (prefix_mask (8 * ofs + n)) = replicate q 255 ++ m') as [Hn Hpm].
    { destruct m' as [|x m'].
      - injection H as <-. simpl in Hlen. split; [lia|]. replace (8 * ofs + (0 + 8 * q)) with (8 * ofs + 8 * q) by lia. rewrite (prefix_full ofs q Ho) by lia. by replace (16 - ofs - q)%nat with 0%nat by lia.
      - pose proof (NetmaskBits_values x) as Hx. cbn zeta in Hx. destruct (Z.ltb_spec (NetmaskBits x) 0); [done|].
        destruct (forallb _ m') eqn:E; [|done]. injection H as <-. destruct Hx as [?|[Hb Hx]]; [lia|]. simpl in Hlen.
        assert (NetmaskBits x <> 8) as H8 by (intros E8; rewrite E8 in Hx; subst x; by apply Hh).
        split; [lia|]. replace (8 * ofs + (0 + 8 * q + NetmaskBits x)) with (8 * ofs + 8 * q + NetmaskBits x) by lia.
        rewrite prefix_shape by (done || lia). unfold mask_shape. rewrite <- Hx. rewrite (zeros_forallb m' E). repeat f_equal. lia. }
    split; [done|]. rewrite Hp by done. destruct (prefix_cidr ofs n Ho Hn) as [Ht _].
    assert (prefix_mask (8 * ofs + n) = replicate ofs 255 ++ replicate q 255 ++ m') as -> by (by rewrite <- Ht, <- Hpm, take_drop). done.
  - intros [Hn E]. rewrite Hp in E by done. destruct (prefix_cidr ofs n Ho Hn) as [_ Hc].
    pose proof (f_equal (λ s, drop ofs (netmask s)) E) as E'. cbn beta in E'. cbn [netmask] in E'. rewrite Hd in E'. by rewrite E'.
Qed.

(** ** Groups *)

Lemma routable_facts f a : IsRoutable f a = true -> IsLocal a = false /\ IsInternal a = false.
Proof.
  unfold IsRoutable. destruct (IsValid a); [|done]. cbn [negb]. destruct (negb f && IsRFC1918 a); [done|].
  rewrite negb_true_iff, !orb_false_iff. tauto.
Qed.

Lemma group_of_two (a : CNetAddr) (k : nat) : group_bytes 11 a k 16 = [GetByte a (15 - k); GetByte a (15 - S k)].
Proof. reflexivity. Qed.
Lemma lookup_of_take (l v : list Z) (k j : nat) : take 4 (drop k l) = v -> (j < 4)%nat -> l !!! (k + j)%nat = v !!! j.
Proof. intros <- Hj. by rewrite !list_lookup_total_alt, lookup_take_lt, lookup_drop by lia. Qed.
Lemma two_bytes a (k : nat) x y z w : (k <= 14)%nat -> take 4 (drop k (ip a)) = [x; y; z; w] -> [GetByte a (15 - k); GetByte a (15 - S k)] = [x; y].
Proof.
  intros Hk H. unfold GetByte. pose proof (lookup_of_take _ _ k 0 H ltac:(lia)) as H0. pose proof (lookup_of_take _ _ k 1 H ltac:(lia)) as H1. cbn in H0, H1.
  replace (15 - (15 - k))%nat with (k + 0)%nat by lia. replace (15 - (15 - S k))%nat with (k + 1)%nat by lia. by rewrite H0, H1.
Qed.

(** The group of an address that carries an IPv4 address (RFC 6145, RFC 6052, 6to4, Teredo) is the group of the
    address that it carries, so that tunnels do not give an attacker more groups than IPv4 has. *)
Theorem tunnel_groups (fAllowPrivateNet : bool) (a b : CNetAddr) (v4 : list Z) :
  length v4 = 4%nat -> b = CNetAddr_ipv4 v4 -> IsRoutable fAllowPrivateNet a = true -> IsRoutable fAllowPrivateNet b = true ->
  IsIPv6 a = true ->
  (IsRFC6145 a || IsRFC6052 a = true /\ take 4 (drop 12 (ip a)) = v4) \/
  (IsRFC3964 a = true /\ IsRFC6145 a || IsRFC6052 a = false /\ take 4 (drop 2 (ip a)) = v4) \/
  (IsRFC4380 a = true /\ IsRFC6145 a || IsRFC6052 a = false /\ IsRFC3964 a = false /\ take 4 (drop 12 (ip a)) = map (λ x, Z.lxor x 0xFF) v4) ->
  GetGroup fAllowPrivateNet a = GetGroup fAllowPrivateNet b /\ GetGroup fAllowPrivateNet b = net_value NET_IPV4 :: take 2 v4.
Proof.
  intros Hl -> Ha Hb H6 H. destruct v4 as [|a0 [|a1 [|a2 [|a3 [|??]]]]]; try done.
  assert (GetGroup fAllowPrivateNet (CNetAddr_ipv4 [a0; a1; a2; a3]) = [net_value NET_IPV4; a0; a1]) as Hg.
  { unfold GetGroup. destruct (routable_facts _ _ Hb) as [-> ->]. rewrite Hb. reflexivity. }
  split; [|done]. rewrite Hg. clear Hg Hb. unfold GetGroup. destruct (routable_facts _ _ Ha) as [-> ->]. rewrite Ha. cbn [negb].
  assert (IsIPv4 a = false) as -> by (unfold IsIPv6, IsIPv4 in *; apply bool_decide_eq_true in H6; by rewrite H6). cbn [orb].
  destruct H as [[-> H]|[(-> & -> & H)|(-> & -> & -> & H)]].
  - rewrite group_of_two. f_equal. eapply (two_bytes _ 12); [lia|done].
  - rewrite group_of_two. f_equal. eapply (two_bytes _ 2); [lia|done].
  - cbn [map] in H. pose proof (two_bytes _ 12 _ _ _ _ ltac:(lia) H) as E. injection E as E0 E1. change (ip a !!! 12%nat) with (GetByte a 3) in E0. change (ip a !!! 13%nat) with (GetByte a 2) in E1. rewrite E0, E1.
    by rewrite !Z.lxor_assoc, !Z.lxor_nilpotent, !Z.lxor_0_r.
Qed.

(** ** Orders *)

Lemma Compare_refl l : Blob.Compare l l = 0.
Proof. induction l as [|x l IH]; [done|]. cbn [Blob.Compare]. by rewrite Z.ltb_irrefl. Qed.
Lemma Compare_eq l l' : length l = length l' -> Blob.Compare l l' = 0 <-> l = l'.
Proof.
  intros Hl. split; [|intros ->; apply Compare_refl]. revert l' Hl. induction l as [|x l IH]; intros [|y l'] Hl; try done. cbn [Blob.Compare].
  destruct (Z.ltb_spec x y), (Z.ltb_spec y x); [done..|]. intros HC%IH; [|by injection Hl]. f_equal; [lia|done].
Qed.
Lemma Compare_opp l l' : Blob.Compare l' l = - Blob.Compare l l'.
Proof.
  revert l'. induction l as [|x l IH]; intros [|y l']; try done. cbn [Blob.Compare].
  destruct (Z.ltb_spec x y), (Z.ltb_spec y x); try lia. apply IH.
Qed.
Lemma Compare_trans l1 l2 l3 : length l1 = length l2 -> length l2 = length l3 ->
  Blob.Compare l1 l2 < 0 -> Blob.Compare l2 l3 < 0 -> Blob.Compare l1 l3 < 0.
Proof.
  revert l2 l3. induction l1 as [|x l1 IH]; intros [|y l2] [|z l3] H1 H2; try done. cbn [Blob.Compare].
  destruct (Z.ltb_spec x y), (Z.ltb_spec y x), (Z.ltb_spec y z), (Z.ltb_spec z y), (Z.ltb_spec x z), (Z.ltb_spec z x); try lia.
  intros. by eapply (IH l2); [injection H1|injection H2|..].
Qed.
Lemma Compare_app l1 l2 r1 r2 : length l1 = length l2 ->
  Blob.Compare (l1 ++ r1) (l2 ++ r2) = if Blob.Compare l1 l2 =? 0 then Blob.Compare r1 r2 else Blob.Compare l1 l2.
Proof.
  revert l2. induction l1 as [|x l1 IH]; intros [|y l2] H; try done. cbn [app Blob.Compare].
  destruct (x <? y), (y <? x); try done. apply IH. by injection H.
Qed.

(** an address is compared by its network, its bytes and its port *)
Definition service_key (s : CService) : list Z := net_value (m_net (svc_addr s)) :: ip (svc_addr s) ++ [port s].

Lemma net_value_inj x y : net_value x = net_value y -> x = y.
Proof. by destruct x, y. Qed.
Lemma service_compare a b : addr_ok (svc_addr a) -> addr_ok (svc_addr b) ->
  CService_ltb a b = (Blob.Compare (service_key a) (service_key b) <? 0) /\ CService_eqb a b = (Blob.Compare (service_key a) (service_key b) =? 0).
Proof.
  intros (Ha & _) (Hb & _). unfold CService_ltb, CService_eqb, CNetAddr_ltb, CNetAddr_eqb, service_key. cbn [Blob.Compare].
  rewrite Compare_app by congruence. cbn [Blob.Compare]. set (c := Blob.Compare (ip (svc_addr a)) (ip (svc_addr b))).
  destruct (Z.ltb_spec (net_value (m_net (svc_addr a))) (net_value (m_net (svc_addr b)))) as [H1|H1].
  { rewrite bool_decide_false by (intros E; rewrite E in H1; lia). done. }
  destruct (Z.ltb_spec (net_value (m_net (svc_addr b))) (net_value (m_net (svc_addr a)))) as [H2|H2].
  { rewrite bool_decide_false by (intros E; rewrite E in H2; lia). done. }
  rewrite bool_decide_true by (apply net_value_inj; lia). cbn [andb orb].
  destruct (Z.eqb_spec c 0) as [->|Hc]; cbn [andb orb]; [|rewrite orb_false_r; split; [done|by symmetry; apply Z.eqb_neq]].
  cbn. destruct (Z.ltb_spec (port a) (port b)), (Z.ltb_spec (port b) (port a)), (Z.eqb_spec (port a) (port b)); split; done || lia.
Qed.

(** Services are totally ordered, and two of them are equal exactly when their network, bytes and port are: the
    sets and maps of services have one entry for each. *)
Theorem services_ordered (a b c : CService) :
  addr_ok (svc_addr a) -> addr_ok (svc_addr b) -> addr_ok (svc_addr c) ->
  (CService_eqb a b = true <-> m_net (svc_addr a) = m_net (svc_addr b) /\ ip (svc_addr a) = ip (svc_addr b) /\ port a = port b) /\
  (CService_ltb a b = true \/ CService_eqb a b = true \/ CService_ltb b a = true) /\
  (CService_ltb a b = true -> CService_eqb a b = false /\ CService_ltb b a = false) /\
  (CService_ltb a b = true -> CService_ltb b c = true -> CService_ltb a c = true).
Proof.
  intros Ha Hb Hc. destruct (service_compare a b Ha Hb) as [-> ->], (service_compare b a Hb Ha) as [-> _], (service_compare b c Hb Hc) as [-> _], (service_compare a c Ha Hc) as [-> _].
  rewrite (Compare_opp (service_key a) (service_key b)).
  assert (forall x y, addr_ok (svc_addr x) -> addr_ok (svc_addr y) -> length (service_key x) = length (service_key y)) as Hl
    by (intros x y (Hx & _) (Hy & _); unfold service_key; simpl; rewrite !length_app, Hx, Hy; done).
  split_and!; [|lia..|rewrite !Z.ltb_lt; eapply Compare_trans; by apply Hl].
  rewrite Z.eqb_eq, Compare_eq by by apply Hl. unfold service_key. split.
  - intros [= H1%net_value_inj H2]. apply app_inj_2 in H2 as [? [= ?]]; done.
  - intros (-> & -> & ->). done.
Qed.

(** A subnet is saved without the kind of its network.  An onion subnet of less than 48 bits is read back as an
    IPv6 one, and the address that it had is not in it any more. *)
Theorem subnet_reclassified : exists (a : CNetAddr) (s' : CSubNet),
  let s := CSubNet_prefix a 8 in
  addr_ok a /\ addr_ok (network s') /\ Match s a = true /\
  encoding codec_CSubNet s' = ip (network s) ++ netmask s ++ [1] /\ Match s' a = false.
Proof.
  exists (mkNetAddr NET_ONION (pchOnionCat ++ replicate 10 7) 0), (mkSubNet (SetLegacyIPv6 CNetAddr_new (0xFD :: replicate 15 0)) (0xFF :: replicate 15 0) true).
  unfold addr_ok. split_and!; try reflexivity; try (unfold in_uint; cbn; lia); repeat constructor; unfold in_uint; lia.
Qed.

(** ** Witnesses *)

Lemma addresses_well_formed_witness :
  addr_ok (SetSpecial CNetAddr_new (chars "expyuzz4wqqyqhjn.onion")).2 /\ IsTor (SetSpecial CNetAddr_new (chars "expyuzz4wqqyqhjn.onion")).2 = true.
Proof.
  assert (addr_ok CNetAddr_new) as H0 by (split; [reflexivity|split; [by apply Forall_replicate|split; [unfold in_uint; cbn; lia|reflexivity]]]).
  assert (bytes (chars "expyuzz4wqqyqhjn.onion")) as Hb by (vm_compute; repeat constructor; done).
  assert (bytes []) as Hn by constructor. assert (in_uint 32 0) as Hz by (unfold in_uint; lia).
  pose proof (addresses_well_formed _ CNetAddr_new CNetAddr_new [] (chars "expyuzz4wqqyqhjn.onion") 0 H0 H0 Hn Hz Hb ltac:(done)) as (_ & _ & _ & _ & _ & _ & H).
  assert ((SetSpecial CNetAddr_new (chars "expyuzz4wqqyqhjn.onion")).1 = true) as E by (vm_compute; reflexivity).
  cbn zeta in H. rewrite E in H. exact H.
Defined.

Lemma subnet_match_witness :
  valid (CSubNet_prefix (CNetAddr_ipv4 [192; 168; 5; 1]) 16) = true /\ Match (CSubNet_prefix (CNetAddr_ipv4 [192; 168; 5; 1]) 16) (CNetAddr_ipv4 [192; 168; 9; 9]) = true.
Proof.
  assert (forall x y, is_byte x -> is_byte y -> addr_ok (CNetAddr_ipv4 [192; 168; x; y])) as Hok.
  { intros x y Hx Hy. split; [reflexivity|]. split; [|split; [unfold in_uint; cbn; lia|reflexivity]]. repeat constructor; done || unfold in_uint in *; lia. }
  destruct (subnet_match (CNetAddr_ipv4 [192; 168; 5; 1]) (CNetAddr_ipv4 [192; 168; 9; 9]) 16 (Hok 5 1 ltac:(done) ltac:(done)) (Hok 9 9 ltac:(done) ltac:(done))) as [H1 H2].
  split; [apply H1; done|]. apply H2. split_and!; try done; vm_compute; reflexivity.
Defined.

Lemma cidr_spec_witness :
  cidr_of (CSubNet_mask (CNetAddr_ipv4 [10; 1; 2; 3]) (CNetAddr_ipv4 [255; 240; 0; 0])) = Some 12 /\
  CSubNet_mask (CNetAddr_ipv4 [10; 1; 2; 3]) (CNetAddr_ipv4 [255; 240; 0; 0]) = CSubNet_prefix (CNetAddr_ipv4 [10; 1; 2; 3]) 12.
Proof.
  split; [reflexivity|]. apply (cidr_spec (CNetAddr_ipv4 [10; 1; 2; 3]) (CNetAddr_ipv4 [255; 240; 0; 0]) 12 eq_refl). reflexivity.
Defined.

Lemma tunnel_groups_witness :
  GetGroup false (CNetAddr_ipv6 [0x20; 0x02; 1; 2; 3; 4; 0; 0; 0; 0; 0; 0; 0; 0; 0; 9] 0) = GetGroup false (CNetAddr_ipv4 [1; 2; 3; 4]) /\
  GetGroup false (CNetAddr_ipv4 [1; 2; 3; 4]) = [1; 1; 2].
Proof.
  apply (tunnel_groups false (CNetAddr_ipv6 [0x20; 0x02; 1; 2; 3; 4; 0; 0; 0; 0; 0; 0; 0; 0; 0; 9] 0) _ [1; 2; 3; 4]); try reflexivity.
  right. left. split_and!; reflexivity.
Defined.

Lemma services_ordered_witness : exists a b c, CService_ltb a b = true /\ CService_ltb b c = true /\ CService_ltb a c = true.
Proof.
  exists (mkService CNetAddr_new 1), (mkService CNetAddr_new 2), (mkService (mkNetAddr NET_ONION (pchOnionCat ++ replicate 10 7) 0) 0).
  assert (addr_ok CNetAddr_new) as H0 by (split; [reflexivity|split; [by apply Forall_replicate|split; [unfold in_uint; cbn; lia|reflexivity]]]).
  assert (addr_ok (mkNetAddr NET_ONION (pchOnionCat ++ replicate 10 7) 0)) as H1.
  { split; [reflexivity|split; [|split; [unfold in_uint; cbn; lia|reflexivity]]]. repeat constructor; unfold in_uint; lia. }
  split; [reflexivity|]. split; [reflexivity|].
  apply (services_ordered (mkService CNetAddr_new 1) (mkService CNetAddr_new 2) (mkService (mkNetAddr NET_ONION (pchOnionCat ++ replicate 10 7) 0) 0) H0 H0 H1); reflexivity.
Defined.
