(* ===== verification/Bls.v ===== *)
(** * BLS objects: bls/bls.h

    [CBLSWrapper] gives public keys and signatures of the BLS library a fixed-size format, with an invalid
    object of zeros; [CBLSLazyWrapper] puts off the decoding of the bytes until the object is asked for.  The library itself
    is outside the repository: the class [BlsImpl] for one kind of object, with the laws [BlsImplLaws]. *)

From S2P Require Import Prelude Bytes Streams Serialize SerializeLaws SerializeCodecs Transaction Base58 Strings.

(** ** What the wrapper uses of the library *)

Class BlsImpl (SerSize : nat) := {
  ImplType : Type;
  #[global] impl_eq_dec :: EqDecision ImplType;
  (** the decoding in the old or the new format; [None]: it throws *)
  FromBytes : list Z -> bool -> option ImplType;
  impl_Serialize : ImplType -> bool -> list Z;
}.
Class BlsImplLaws (SerSize : nat) `{!BlsImpl SerSize} : Prop := {
  impl_length x fLegacy : List.length (impl_Serialize x fLegacy) = SerSize;
  impl_bytes x fLegacy : bytes (impl_Serialize x fLegacy);
  impl_decode x fLegacy : FromBytes (impl_Serialize x fLegacy) fLegacy = Some x;
  impl_nonzero x fLegacy : impl_Serialize x fLegacy <> replicate SerSize 0;
  impl_size : (0 < SerSize)%nat;
}.

Definition BLS_CURVE_PUBKEY_SIZE : nat := 48.
Definition BLS_CURVE_SIG_SIZE : nat := 96.
Definition fLegacyDefault : bool := true.

(** ** CBLSWrapper *)

Section wrapper.
Context {SerSize : nat} `{HB : !BlsImpl SerSize}.

(** [fValid] and [impl]: an object that is not valid holds the default of [ImplType].  The cached hash
    is left out. *)
Record CBLSWrapper := mkBls { fLegacy : bool; bls_impl : option ImplType }.
#[export] Instance CBLSWrapper_eq_dec : EqDecision CBLSWrapper.
Proof. solve_decision. Defined.

Definition CBLSWrapper_new : CBLSWrapper := mkBls fLegacyDefault None.
Definition bls_IsValid (w : CBLSWrapper) : bool := match bls_impl w with Some _ => true | None => false end.
Definition bls_eqb (a b : CBLSWrapper) : bool := bool_decide (bls_impl a = bls_impl b).
Definition bls_Reset (w : CBLSWrapper) : CBLSWrapper := mkBls (fLegacy w) None.

Definition SetByteVector (w : CBLSWrapper) (vecBytes : list Z) : CBLSWrapper :=
  if negb (List.length vecBytes =? SerSize)%nat then bls_Reset w
  else if forallb (λ c, c =? 0) vecBytes then bls_Reset w
  else match FromBytes vecBytes (fLegacy w) with
       | Some impl => mkBls (fLegacy w) (Some impl)
       | None => bls_Reset w
       end.
Definition ToByteVector (w : CBLSWrapper) : list Z :=
  match bls_impl w with None => replicate SerSize 0 | Some impl => impl_Serialize impl (fLegacy w) end.
Definition SetHexStr (w : CBLSWrapper) (str : list Z) : bool * CBLSWrapper :=
  if negb (IsHex str) then (false, bls_Reset w)
  else
    let b := ParseHex str in
    if negb (List.length b =? SerSize)%nat then (false, bls_Reset w)
    else let w := SetByteVector w b in (bls_IsValid w, w).

Definition CheckMalleable (w : CBLSWrapper) (vecBytes : list Z) : bool := bool_decide (vecBytes = ToByteVector w).

(** reading into [w] *)
Definition Unserialize_bls {S} `{IStream S} (w : CBLSWrapper) (checkMalleable : bool) : action S CBLSWrapper :=
  vecBytes ← is_read SerSize;
  let w := SetByteVector w vecBytes in
  if checkMalleable && negb (CheckMalleable w vecBytes) then throw "malleable BLS object" else mret w.
Definition codec_bls : codec CBLSWrapper := Codec
  (λ (S : Type) (_ : OStream S) w, os_write (ToByteVector w))
  (λ (S : Type) (_ : IStream S), Unserialize_bls CBLSWrapper_new true).

(** ** CBLSLazyWrapper

    The mutex and the cached hash are left out.  [Get], [Serialize] and the comparison change the object's mutable
    members, so they return it. *)

Record CBLSLazyWrapper := mkLazy {
  vecBytes : list Z;
  bufValid : bool;
  lazy_obj : CBLSWrapper;
  objInitialized : bool;
}.
Definition CBLSLazyWrapper_new : CBLSLazyWrapper := mkLazy (replicate SerSize 0) true CBLSWrapper_new false.
(** the assignment [*this = r] *)
Definition lazy_assign (w r : CBLSLazyWrapper) : CBLSLazyWrapper :=
  mkLazy (if bufValid r then vecBytes r else replicate (List.length (vecBytes w)) 0) (bufValid r)
    (if objInitialized r then lazy_obj r else bls_Reset (lazy_obj w)) (objInitialized r).

(** the copy constructor assigns to an object whose buffer is empty *)
Definition lazy_copy (r : CBLSLazyWrapper) : CBLSLazyWrapper := lazy_assign (mkLazy [] false CBLSWrapper_new false) r.

Definition lazy_Serialize {S} `{OStream S} (w : CBLSLazyWrapper) : action S CBLSLazyWrapper :=
  if negb (objInitialized w) && negb (bufValid w) then throw "obj and buf not initialized"
  else
    let w := if negb (bufValid w) then mkLazy (ToByteVector (lazy_obj w)) true (lazy_obj w) (objInitialized w) else w in
    _ ← os_write (vecBytes w); mret w.
(** [SerSize] bytes are written to the start of the buffer, which is not resized: past its end when it is shorter *)
Definition lazy_Unserialize {S} `{IStream S} (w : CBLSLazyWrapper) : action S CBLSLazyWrapper :=
  if (List.length (vecBytes w) <? SerSize)%nat then throw "undefined: write past the end of vecBytes"
  else b ← is_read SerSize; mret (mkLazy (b ++ drop SerSize (vecBytes w)) true (lazy_obj w) false).
Definition lazy_Set (w : CBLSLazyWrapper) (obj : CBLSWrapper) : CBLSLazyWrapper := mkLazy (vecBytes w) false obj true.

Definition lazy_Get (w : CBLSLazyWrapper) : CBLSWrapper * CBLSLazyWrapper :=
  let invalidObj := CBLSWrapper_new in
  if negb (bufValid w) && negb (objInitialized w) then (invalidObj, w)
  else if negb (objInitialized w) then
    let obj := SetByteVector (lazy_obj w) (vecBytes w) in
    if negb (CheckMalleable obj (vecBytes w)) then (invalidObj, mkLazy (vecBytes w) false invalidObj false)
    else (obj, mkLazy (vecBytes w) (bufValid w) obj true)
  else (lazy_obj w, w).

Definition lazy_eqb (w r : CBLSLazyWrapper) : bool :=
  if bufValid w && bufValid r then bool_decide (vecBytes w = vecBytes r)
  else if objInitialized w && objInitialized r then bls_eqb (lazy_obj w) (lazy_obj r)
  else bls_eqb (lazy_Get w).1 (lazy_Get r).1.

(** ** Lazy keys as bytes

    The rest of the program sees a lazy key through its bytes; what [Get] returns is a function of them. *)

Definition lazy_get (b : list Z) : CBLSWrapper :=
  let obj := SetByteVector CBLSWrapper_new b in if CheckMalleable obj b then obj else CBLSWrapper_new.
Definition canonical (b : list Z) : Prop := CheckMalleable (SetByteVector CBLSWrapper_new b) b = true.
Definition codec_lazy : codec (list Z) := codec_array SerSize.

(** ** Laws *)

Context `{HL : !BlsImplLaws SerSize}.

Lemma zeros_all k : forallb (λ c, c =? 0) (replicate k 0) = true.
Proof. by induction k. Qed.
Lemma all_zeros l : forallb (λ c, c =? 0) l = true -> l = replicate (List.length l) 0.
Proof. induction l as [|x l IH]; [done|]. simpl. intros [->%Z.eqb_eq H%IH]%andb_true_iff. by rewrite <- H. Qed.

Lemma ToByteVector_length w : List.length (ToByteVector w) = SerSize.
Proof. unfold ToByteVector. destruct (bls_impl w); [apply impl_length|apply length_replicate]. Qed.
Lemma ToByteVector_bytes w : bytes (ToByteVector w).
Proof. unfold ToByteVector. destruct (bls_impl w); [apply impl_bytes|]. apply Forall_replicate. unfold in_uint. lia. Qed.

Lemma SetByteVector_ToByteVector w k : fLegacy w = fLegacy k -> SetByteVector w (ToByteVector k) = k.
Proof.
  destruct w as [f i], k as [f' i']. cbn. intros ->. unfold SetByteVector. rewrite ToByteVector_length, Nat.eqb_refl. cbn [negb].
  unfold ToByteVector, bls_Reset. cbn [bls_impl fLegacy]. destruct i' as [i'|]; [|by rewrite zeros_all].
  destruct (forallb _ _) eqn:E.
  - apply all_zeros in E. rewrite impl_length in E. by apply impl_nonzero in E.
  - by rewrite impl_decode.
Qed.
Lemma SetByteVector_legacy w b : fLegacy (SetByteVector w b) = fLegacy w.
Proof. unfold SetByteVector. repeat (case_match; try done). Qed.

Lemma ToByteVector_inj a b : fLegacy a = fLegacy b -> ToByteVector a = ToByteVector b -> a = b.
Proof. intros Hl E. rewrite <- (SetByteVector_ToByteVector a a), E by done. by apply SetByteVector_ToByteVector. Qed.

Lemma canonical_spec b : canonical b <-> b = ToByteVector (lazy_get b).
Proof.
  unfold canonical, lazy_get. destruct (CheckMalleable _ b) eqn:E.
  - split; [|done]. intros _. by apply bool_decide_eq_true in E.
  - split; [done|]. intros Hb. rewrite Hb in E. change (fLegacy CBLSWrapper_new) with fLegacyDefault in E.
    unfold CheckMalleable in E. rewrite SetByteVector_ToByteVector in E by done. by rewrite bool_decide_true in E.
Qed.
Lemma canonical_key k : fLegacy k = fLegacyDefault -> canonical (ToByteVector k) /\ lazy_get (ToByteVector k) = k.
Proof.
  intros Hk. unfold canonical, lazy_get, CheckMalleable. rewrite !SetByteVector_ToByteVector by done. by rewrite bool_decide_true.
Qed.
Lemma canonical_length b : canonical b -> List.length b = SerSize.
Proof. intros ->%canonical_spec. apply ToByteVector_length. Qed.
Lemma lazy_get_legacy b : fLegacy (lazy_get b) = fLegacyDefault.
Proof. unfold lazy_get. case_match; [apply SetByteVector_legacy|done]. Qed.

#[export, refine] Instance codec_bls_laws : CodecLaws codec_bls := {|
  encoding := ToByteVector; representable w := fLegacy w = fLegacyDefault /\ SerSize <= MAX_SIZE |}.
Proof.
  - intros S ?? w _. apply emits_write.
  - intros S ?? w [Hw Hs]. cbn [Unserialize codec_bls]. unfold Unserialize_bls.
    eapply parses_bind_all; [apply parses_read; [by rewrite ToByteVector_length, Nat2Z.id|lia]|]. cbn zeta.
    rewrite SetByteVector_ToByteVector by done. unfold CheckMalleable. rewrite bool_decide_true by done. apply parses_ret.
  - intros w _. apply ToByteVector_bytes.
Defined.

(** the object [w] holds the key with the bytes [b] *)
Definition holds (w : CBLSLazyWrapper) (b : list Z) : Prop :=
  (bufValid w = true -> vecBytes w = b) /\ (objInitialized w = true -> lazy_obj w = lazy_get b) /\
  (bufValid w = true \/ objInitialized w = true) /\ fLegacy (lazy_obj w) = fLegacyDefault.

(** the buffer has the size of an encoding *)
Definition sized (w : CBLSLazyWrapper) : Prop := List.length (vecBytes w) = SerSize.
Lemma assign_holds w r c : holds r c -> fLegacy (lazy_obj w) = fLegacyDefault -> holds (lazy_assign w r) c.
Proof.
  intros (R1 & R2 & R3 & R4) W4. unfold lazy_assign, holds. cbn [vecBytes bufValid lazy_obj objInitialized].
  split; [intros E; rewrite E; by apply R1|]. split; [intros E; rewrite E; by apply R2|]. split; [done|]. by destruct (objInitialized r).
Qed.

Lemma holds_get w b : canonical b -> holds w b -> (lazy_Get w).1 = lazy_get b /\ holds (lazy_Get w).2 b.
Proof.
  intros Hc (H1 & H2 & H3 & H4). pose proof Hc as Hs%canonical_spec. unfold lazy_Get.
  destruct (objInitialized w) eqn:Eo; cbn [negb]; rewrite ?andb_false_r, ?andb_true_r.
  - split; [by apply H2|]. by repeat split; rewrite ?Eo; auto.
  - destruct (bufValid w) eqn:Eb; cbn [negb]; [|by destruct H3].
    assert (SetByteVector (lazy_obj w) b = lazy_get b) as Hg.
    { rewrite Hs at 1. apply SetByteVector_ToByteVector. by rewrite lazy_get_legacy. }
    rewrite (H1 eq_refl), Hg. unfold CheckMalleable. rewrite <- Hs, bool_decide_true by done. cbn [negb fst snd].
    split; [done|]. unfold holds. cbn. split_and!; auto. apply lazy_get_legacy.
Qed.

(** C33: A lazy key behaves as its bytes, as long as these are a canonical encoding (that of zeros, or of a point as the library
    writes it): decoding, setting, copying, assigning and comparing an object that holds one, writing it and reading into it return what the
    bytes say, write the bytes, and leave an object that holds the bytes; comparing two objects compares the bytes.  Reading into an object
    needs a buffer of the size of an encoding: a new object has one, assignment keeps it, and a copy has it exactly when it was made from an
    object with valid bytes. *)
Theorem lazy_refines_bytes (w r : CBLSLazyWrapper) (b c : list Z) (k : CBLSWrapper) :
  canonical b -> canonical c -> holds w b -> holds r c -> fLegacy k = fLegacyDefault -> SerSize <= MAX_SIZE ->
  (holds CBLSLazyWrapper_new (replicate SerSize 0) /\ sized CBLSLazyWrapper_new) /\
  (holds (lazy_Set w k) (ToByteVector k) /\ canonical (ToByteVector k) /\ lazy_get (ToByteVector k) = k) /\
  ((lazy_Get w).1 = lazy_get b /\ holds (lazy_Get w).2 b) /\
  lazy_eqb w r = bool_decide (b = c) /\
  (holds (lazy_assign w r) c /\ (sized w -> sized (lazy_assign w r))) /\
  (holds (lazy_copy r) c /\ (sized (lazy_copy r) <-> bufValid r = true)) /\
  (forall {S} `{OStreamLaws S} (s : S), os_room b s -> exists w' s', lazy_Serialize w s = (Ok w', s') /\ os_appends b s s' /\ holds w' b) /\
  (forall {S} `{IStreamLaws S} (s : S) (rest : list Z), sized w -> is_ok s -> is_pending s = c ++ rest ->
     exists w' s', lazy_Unserialize w s = (Ok w', s') /\ is_pending s' = rest /\ holds w' c /\ sized w').
Proof.
  intros Hb Hc Hw Hr Hk Hs. pose proof (holds_get w b Hb Hw) as [Hg1 Hg2]. pose proof (holds_get r c Hc Hr) as [Hr1 _].
  pose proof Hw as (W1 & W2 & W3 & W4). pose proof Hr as (R1 & R2 & R3 & R4). pose proof (canonical_key k Hk) as [Hk1 Hk2].
  assert (bls_eqb (lazy_get b) (lazy_get c) = bool_decide (b = c)) as Heq.
  { unfold bls_eqb. apply bool_decide_ext. split; [|by intros ->]. intros E.
    apply canonical_spec in Hb as ->. apply canonical_spec in Hc as ->. f_equal.
    pose proof (lazy_get_legacy b). pose proof (lazy_get_legacy c). destruct (lazy_get b), (lazy_get c). simpl in *. congruence. }
  split; [unfold holds, sized; cbn; rewrite length_replicate; split_and!; auto; done|]. split; [unfold holds; cbn; split_and!; auto; done|]. split; [done|].
  split; [|split; [|split; [|split]]].
  - unfold lazy_eqb. destruct (bufValid w && bufValid r) eqn:E1; [|destruct (objInitialized w && objInitialized r) eqn:E2].
    + apply andb_true_iff in E1 as [E1 E2]. by rewrite (W1 E1), (R1 E2).
    + apply andb_true_iff in E2 as [E2 E3]. by rewrite (W2 E2), (R2 E3).
    + by rewrite Hg1, Hr1.
  - split; [by apply assign_holds|]. unfold sized, lazy_assign. cbn [vecBytes]. intros Hl.
    destruct (bufValid r) eqn:E; [by rewrite (R1 eq_refl), canonical_length|by rewrite length_replicate].
  - split; [by apply assign_holds|]. unfold sized, lazy_copy, lazy_assign. cbn [vecBytes]. pose proof impl_size.
    destruct (bufValid r) eqn:E; [by rewrite (R1 eq_refl), canonical_length|]. cbn. split; [lia|done].
  - intros S ?? s Hroom. unfold lazy_Serialize. replace (negb (objInitialized w) && negb (bufValid w)) with false by (destruct W3 as [-> | ->]; by rewrite ?andb_false_r).
    set (w' := if negb (bufValid w) then _ else w). assert (holds w' b /\ vecBytes w' = b) as [Hw' Hv].
    { unfold w'. destruct (bufValid w) eqn:E; cbn [negb]; [by auto|]. destruct W3 as [?|Ho]; [done|]. unfold holds. cbn [vecBytes bufValid lazy_obj objInitialized].
      assert (ToByteVector (lazy_obj w) = b) as -> by (rewrite (W2 Ho); symmetry; by apply canonical_spec). rewrite Ho. by auto 10. }
    rewrite Hv. destruct (os_write_ok b s Hroom) as (s' & E & Ha). exists w', s'. unfold mbind, action_bind. rewrite E. done.
  - intros S ?? s rest Hsz Hok Hp. unfold lazy_Unserialize. unfold sized in Hsz. rewrite (proj2 (Nat.ltb_ge _ _)) by lia.
    destruct (is_read_ok SerSize s Hok) as (s' & E & _ & Hp'); [lia|rewrite Hp, length_app, canonical_length by done; lia|].
    rewrite Hp, Nat2Z.id in E, Hp'. rewrite take_app_length' in E by (symmetry; by apply canonical_length). rewrite drop_app_length' in Hp' by (symmetry; by apply canonical_length).
    exists (mkLazy c true (lazy_obj w) false), s'. unfold mbind, action_bind. rewrite E. rewrite drop_ge, app_nil_r by lia. split; [reflexivity|].
    split; [done|]. split; [unfold holds; cbn; split_and!; auto; done|by apply canonical_length].
Qed.

(** A lazy object whose bytes are no canonical encoding loses them when it is read: it can be written before [Get],
    and throws after. *)
Theorem lazy_get_destroys (w : CBLSLazyWrapper) {S} `{OStreamLaws S} (s : S) :
  bufValid w = true -> objInitialized w = false -> fLegacy (lazy_obj w) = fLegacyDefault -> ~ canonical (vecBytes w) -> os_room (vecBytes w) s ->
  (exists s', lazy_Serialize w s = (Ok w, s') /\ os_appends (vecBytes w) s s') /\
  bls_IsValid (lazy_Get w).1 = false /\ lazy_Serialize (lazy_Get w).2 s = (Throw "obj and buf not initialized", s).
Proof.
  intros Hb Ho Hf Hc Hr. split.
  - unfold lazy_Serialize. rewrite Hb, Ho. cbn [negb andb]. destruct (os_write_ok _ _ Hr) as (s' & E & Ha).
    exists s'. unfold mbind, action_bind. by rewrite E.
  - unfold lazy_Get. rewrite Hb, Ho. cbn [negb andb]. assert (lazy_obj w = mkBls fLegacyDefault (bls_impl (lazy_obj w))) as E by (destruct (lazy_obj w); simpl in *; by subst).
    assert (SetByteVector (lazy_obj w) (vecBytes w) = SetByteVector CBLSWrapper_new (vecBytes w)) as ->.
    { unfold SetByteVector, bls_Reset. by rewrite Hf. }
    unfold canonical in Hc. apply not_true_iff_false in Hc. rewrite Hc. done.
Qed.

(** The copy of a key that was set and not written yet has no buffer: reading into it writes past the end of an empty vector. *)
Theorem lazy_copy_overflows (w : CBLSLazyWrapper) (k : CBLSWrapper) {S} `{IStream S} (s : S) :
  vecBytes (lazy_copy (lazy_Set w k)) = [] /\ (lazy_Get (lazy_copy (lazy_Set w k))).1 = k /\
  lazy_Unserialize (lazy_copy (lazy_Set w k)) s = (Throw "undefined: write past the end of vecBytes", s).
Proof.
  split; [done|]. split; [done|]. unfold lazy_Unserialize. pose proof impl_size. cbn [vecBytes lazy_copy lazy_assign lazy_Set bufValid List.length replicate].
  by rewrite (proj2 (Nat.ltb_lt 0 SerSize)) by lia.
Qed.
End wrapper.
Arguments CBLSWrapper SerSize {_}.
Arguments codec_bls SerSize {_}.

(** ** The laws can be satisfied: a library with two keys *)

Definition two_keys (k : nat) : BlsImpl (S k) := {|
  ImplType := bool;
  FromBytes b _ := if decide (b = 1 :: replicate k 0) then Some true else if decide (b = 2 :: replicate k 0) then Some false else None;
  impl_Serialize x _ := (if x then 1 else 2) :: replicate k 0;
|}.
#[global] Instance two_keys_laws (k : nat) : BlsImplLaws (S k) (BlsImpl0:=two_keys k).
Proof.
  split; cbn [impl_Serialize two_keys FromBytes].
  - intros x _. cbn. by rewrite length_replicate.
  - intros x _. constructor; [by destruct x|]. by apply Forall_replicate.
  - intros [] _; [by rewrite decide_True|]. rewrite decide_False by done. by rewrite decide_True.
  - by intros [] _ [=].
  - lia.
Qed.

Lemma lazy_refines_bytes_witness :
  let b := 1 :: replicate 47 0 in let c := 2 :: replicate 47 0 in
  let w := mkLazy b true (CBLSWrapper_new (HB:=two_keys 47)) false in
  let r := mkLazy [] false (SetByteVector (HB:=two_keys 47) CBLSWrapper_new c) true in
  (lazy_Get w).1 = SetByteVector (HB:=two_keys 47) CBLSWrapper_new b /\ lazy_eqb w r = false.
Proof.
  intros b c w r. destruct (lazy_refines_bytes (HB:=two_keys 47) w r b c (SetByteVector CBLSWrapper_new b)) as (_ & _ & [H _] & He & _); [reflexivity..| | | | |].
  - repeat split; try done. by left.
  - repeat split; try done. by right.
  - reflexivity.
  - by vm_compute.
  - split; [rewrite H; reflexivity|rewrite He; reflexivity].
Defined.

Lemma lazy_get_destroys_witness :
  let w := mkLazy (3 :: replicate 47 0) true (CBLSWrapper_new (HB:=two_keys 47)) false in
  let s := mkCDataStream [] 0 0 0 in
  ((lazy_Serialize w s).1 = Ok w /\ lazy_Serialize (lazy_Get w).2 s = (Throw "obj and buf not initialized", s)).
Proof.
  intros w s. destruct (lazy_get_destroys (HB:=two_keys 47) w s) as ((s' & E & _) & _ & H); [reflexivity..| | |].
  - by vm_compute.
  - by vm_compute.
  - by rewrite E.
Defined.
