(* ===== verification/ProviderTx.v ===== *)
(** * Payloads of provider transactions: evo/providertx.h, evo/specialtx.{h,cpp}, llmq/quorums_commitment.h

    The payloads with their formats, their writing into a transaction and reading back, and the hash of a
    transaction's inputs that a payload commits to.  An object is read into a fresh one, so its format gives the
    value read; [nType] is the type of the stream, and a stream for hashing leaves the signature out. *)

From S2P Require Import Prelude Bytes Streams Serialize SerializeLaws SerializeCodecs BitSets Sha256 Sha256Laws Hash Uint256 Transaction Coins NetAddress NetAddressLaws Bls.

Definition CKeyID : Type := list Z.
Definition codec_CKeyID : codec CKeyID := codec_array 20.

(** primitives/transaction.h *)
Definition TRANSACTION_PROVIDER_REGISTER : Z := 1.
Definition TRANSACTION_PROVIDER_UPDATE_SERVICE : Z := 2.
Definition TRANSACTION_PROVIDER_UPDATE_REGISTRAR : Z := 3.
Definition TRANSACTION_PROVIDER_UPDATE_REVOKE : Z := 4.

Section payloads.
Context `{HK : !BlsImpl BLS_CURVE_PUBKEY_SIZE} `{HG : !BlsImpl BLS_CURVE_SIG_SIZE}.
Definition CBLSPublicKey : Type := CBLSWrapper BLS_CURVE_PUBKEY_SIZE.
Definition CBLSSignature : Type := CBLSWrapper BLS_CURVE_SIG_SIZE.
Definition codec_CBLSPublicKey : codec CBLSPublicKey := codec_bls BLS_CURVE_PUBKEY_SIZE.
Definition codec_CBLSSignature : codec CBLSSignature := codec_bls BLS_CURVE_SIG_SIZE.

Definition hashing (nType : Z) : bool := negb ((nType &&& SER_GETHASH) =? 0).

(** ** Registration *)

Record CProRegTx := mkProRegTx {
  reg_nVersion : Z; reg_nType : Z; reg_nMode : Z;      (* uint16_t *)
  reg_collateralOutpoint : COutPoint;
  reg_addr : CService;
  reg_keyIDOwner : CKeyID;
  reg_pubKeyOperator : CBLSPublicKey;
  reg_keyIDVoting : CKeyID;
  reg_nOperatorReward : Z;                             (* uint16_t *)
  reg_scriptPayout : list Z;
  reg_inputsHash : list Z;
  reg_vchSig : list Z;
}.
Definition codec_CProRegTx (nType : Z) : codec CProRegTx := Codec
  (λ (S : Type) (_ : OStream S) t,
    _ ← Serialize codec_uint16 (reg_nVersion t);
    _ ← Serialize codec_uint16 (reg_nType t);
    _ ← Serialize codec_uint16 (reg_nMode t);
    _ ← Serialize codec_COutPoint (reg_collateralOutpoint t);
    _ ← Serialize codec_CService (reg_addr t);
    _ ← Serialize codec_CKeyID (reg_keyIDOwner t);
    _ ← Serialize codec_CBLSPublicKey (reg_pubKeyOperator t);
    _ ← Serialize codec_CKeyID (reg_keyIDVoting t);
    _ ← Serialize codec_uint16 (reg_nOperatorReward t);
    _ ← Serialize codec_script (reg_scriptPayout t);
    _ ← Serialize codec_uint256 (reg_inputsHash t);
    if hashing nType then mret tt else Serialize codec_byte_vector (reg_vchSig t))
  (λ (S : Type) (_ : IStream S),
    nVersion ← Unserialize codec_uint16;
    ty ← Unserialize codec_uint16;
    nMode ← Unserialize codec_uint16;
    collateralOutpoint ← Unserialize codec_COutPoint;
    addr ← Unserialize codec_CService;
    keyIDOwner ← Unserialize codec_CKeyID;
    pubKeyOperator ← Unserialize codec_CBLSPublicKey;
    keyIDVoting ← Unserialize codec_CKeyID;
    nOperatorReward ← Unserialize codec_uint16;
    scriptPayout ← Unserialize codec_script;
    inputsHash ← Unserialize codec_uint256;
    vchSig ← if hashing nType then mret [] else Unserialize codec_byte_vector;
    mret (mkProRegTx nVersion ty nMode collateralOutpoint addr keyIDOwner pubKeyOperator keyIDVoting nOperatorReward
      scriptPayout inputsHash vchSig)).

(** ** Update of the service *)

Record CProUpServTx := mkProUpServTx {
  serv_nVersion : Z;                                   (* uint16_t *)
  serv_proTxHash : list Z;
  serv_addr : CService;
  serv_scriptOperatorPayout : list Z;
  serv_inputsHash : list Z;
  serv_sig : CBLSSignature;
}.
Definition codec_CProUpServTx (nType : Z) : codec CProUpServTx := Codec
  (λ (S : Type) (_ : OStream S) t,
    _ ← Serialize codec_uint16 (serv_nVersion t);
    _ ← Serialize codec_uint256 (serv_proTxHash t);
    _ ← Serialize codec_CService (serv_addr t);
    _ ← Serialize codec_script (serv_scriptOperatorPayout t);
    _ ← Serialize codec_uint256 (serv_inputsHash t);
    if hashing nType then mret tt else Serialize codec_CBLSSignature (serv_sig t))
  (λ (S : Type) (_ : IStream S),
    nVersion ← Unserialize codec_uint16;
    proTxHash ← Unserialize codec_uint256;
    addr ← Unserialize codec_CService;
    scriptOperatorPayout ← Unserialize codec_script;
    inputsHash ← Unserialize codec_uint256;
    sig ← if hashing nType then mret CBLSWrapper_new else Unserialize codec_CBLSSignature;
    mret (mkProUpServTx nVersion proTxHash addr scriptOperatorPayout inputsHash sig)).

(** ** Update by the registrar *)

Record CProUpRegTx := mkProUpRegTx {
  upreg_nVersion : Z;                                  (* uint16_t *)
  upreg_proTxHash : list Z;
  upreg_nMode : Z;                                     (* uint16_t *)
  upreg_pubKeyOperator : CBLSPublicKey;
  upreg_keyIDVoting : CKeyID;
  upreg_scriptPayout : list Z;
  upreg_inputsHash : list Z;
  upreg_vchSig : list Z;
}.
Definition codec_CProUpRegTx (nType : Z) : codec CProUpRegTx := Codec
  (λ (S : Type) (_ : OStream S) t,
    _ ← Serialize codec_uint16 (upreg_nVersion t);
    _ ← Serialize codec_uint256 (upreg_proTxHash t);
    _ ← Serialize codec_uint16 (upreg_nMode t);
    _ ← Serialize codec_CBLSPublicKey (upreg_pubKeyOperator t);
    _ ← Serialize codec_CKeyID (upreg_keyIDVoting t);
    _ ← Serialize codec_script (upreg_scriptPayout t);
    _ ← Serialize codec_uint256 (upreg_inputsHash t);
    if hashing nType then mret tt else Serialize codec_byte_vector (upreg_vchSig t))
  (λ (S : Type) (_ : IStream S),
    nVersion ← Unserialize codec_uint16;
    proTxHash ← Unserialize codec_uint256;
    nMode ← Unserialize codec_uint16;
    pubKeyOperator ← Unserialize codec_CBLSPublicKey;
    keyIDVoting ← Unserialize codec_CKeyID;
    scriptPayout ← Unserialize codec_script;
    inputsHash ← Unserialize codec_uint256;
    vchSig ← if hashing nType then mret [] else Unserialize codec_byte_vector;
    mret (mkProUpRegTx nVersion proTxHash nMode pubKeyOperator keyIDVoting scriptPayout inputsHash vchSig)).

(** ** Revocation *)

Definition REASON_NOT_SPECIFIED : Z := 0.
Definition REASON_LAST : Z := 3.
Record CProUpRevTx := mkProUpRevTx {
  rev_nVersion : Z;                                    (* uint16_t *)
  rev_proTxHash : list Z;
  rev_nReason : Z;                                     (* uint16_t *)
  rev_inputsHash : list Z;
  rev_sig : CBLSSignature;
}.
Definition codec_CProUpRevTx (nType : Z) : codec CProUpRevTx := Codec
  (λ (S : Type) (_ : OStream S) t,
    _ ← Serialize codec_uint16 (rev_nVersion t);
    _ ← Serialize codec_uint256 (rev_proTxHash t);
    _ ← Serialize codec_uint16 (rev_nReason t);
    _ ← Serialize codec_uint256 (rev_inputsHash t);
    if hashing nType then mret tt else Serialize codec_CBLSSignature (rev_sig t))
  (λ (S : Type) (_ : IStream S),
    nVersion ← Unserialize codec_uint16;
    proTxHash ← Unserialize codec_uint256;
    nReason ← Unserialize codec_uint16;
    inputsHash ← Unserialize codec_uint256;
    sig ← if hashing nType then mret CBLSWrapper_new else Unserialize codec_CBLSSignature;
    mret (mkProUpRevTx nVersion proTxHash nReason inputsHash sig)).

(** ** Quorum commitments *)

Record CFinalCommitment := mkFinalCommitment {
  qc_nVersion : Z;                                     (* uint16_t *)
  llmqType : Z;                                        (* an enumeration of uint8_t *)
  quorumHash : list Z;
  signers : list bool;
  validMembers : list bool;
  quorumPublicKey : CBLSPublicKey;
  quorumVvecHash : list Z;
  quorumSig : CBLSSignature;
  membersSig : CBLSSignature;
}.
Definition CountSigners (c : CFinalCommitment) : nat := List.length (filter (λ b, b = true) (signers c)).
Definition CountValidMembers (c : CFinalCommitment) : nat := List.length (filter (λ b, b = true) (validMembers c)).
Definition qc_IsNull (c : CFinalCommitment) : bool :=
  if negb (CountSigners c =? 0)%nat || negb (CountValidMembers c =? 0)%nat then false
  else if bls_IsValid (quorumPublicKey c) || negb (Blob.IsNull (quorumVvecHash c)) || bls_IsValid (membersSig c) || bls_IsValid (quorumSig c) then false
  else true.
Definition codec_CFinalCommitment : codec CFinalCommitment := Codec
  (λ (S : Type) (_ : OStream S) t,
    _ ← Serialize codec_uint16 (qc_nVersion t);
    _ ← Serialize codec_uint8 (llmqType t);
    _ ← Serialize codec_uint256 (quorumHash t);
    _ ← Serialize CDynamicBitSet (signers t);
    _ ← Serialize CDynamicBitSet (validMembers t);
    _ ← Serialize codec_CBLSPublicKey (quorumPublicKey t);
    _ ← Serialize codec_uint256 (quorumVvecHash t);
    _ ← Serialize codec_CBLSSignature (quorumSig t);
    Serialize codec_CBLSSignature (membersSig t))
  (λ (S : Type) (_ : IStream S),
    nVersion ← Unserialize codec_uint16;
    llmqType ← Unserialize codec_uint8;
    quorumHash ← Unserialize codec_uint256;
    signers ← Unserialize CDynamicBitSet;
    validMembers ← Unserialize CDynamicBitSet;
    quorumPublicKey ← Unserialize codec_CBLSPublicKey;
    quorumVvecHash ← Unserialize codec_uint256;
    quorumSig ← Unserialize codec_CBLSSignature;
    membersSig ← Unserialize codec_CBLSSignature;
    mret (mkFinalCommitment nVersion llmqType quorumHash signers validMembers quorumPublicKey quorumVvecHash quorumSig membersSig)).

Record CFinalCommitmentTxPayload := mkQcPayload { qcp_nVersion : Z; qcp_nHeight : Z; commitment : CFinalCommitment }.
Definition codec_CFinalCommitmentTxPayload : codec CFinalCommitmentTxPayload := Codec
  (λ (S : Type) (_ : OStream S) t,
    _ ← Serialize codec_uint16 (qcp_nVersion t); _ ← Serialize codec_uint32 (qcp_nHeight t); Serialize codec_CFinalCommitment (commitment t))
  (λ (S : Type) (_ : IStream S),
    nVersion ← Unserialize codec_uint16; nHeight ← Unserialize codec_uint32; commitment ← Unserialize codec_CFinalCommitment;
    mret (mkQcPayload nVersion nHeight commitment)).
End payloads.

(** ** Payloads in transactions *)

(** an exception leaves the payload as it was *)
Definition SetTxPayload {T} (c : codec T) (tx : CTransaction) (payload : T) : option CTransaction :=
  match Serialize c payload (DataStream.new [] SER_NETWORK PROTOCOL_VERSION) with
  | (Ok _, ds) => Some (mkCTransaction (vin tx) (vout tx) (tx_nVersion tx) (tx_nType tx) (nLockTime tx) (DataStream.contents ds))
  | (Throw _, _) => None
  end.

(** clientversion.h; the writer is built with the version and the type swapped, which changes nothing as
    outpoints do not look at them *)
Definition CLIENT_VERSION : Z := 1000000 * 2 + 10000 * 0 + 100 * 3 + 1 * 0.
Definition CalcTxInputsHash (D : Sha256.dispatch) `{HD : !GoodDispatch D} (tx : CTransaction) : list Z :=
  CHashWriter_GetHash D (Serialize_each codec_COutPoint (prevout <$> vin tx) (CHashWriter_new CLIENT_VERSION SER_GETHASH)).2.
