(* ===== verification/ProviderTxLaws.v ===== *)
(** * Payloads of provider transactions: formats and round trips *)

From S2P Require Import Prelude Bytes Streams Serialize SerializeLaws SerializeCodecs BitSets Sha256 Sha256Laws Hash Uint256 Transaction Coins NetAddress NetAddressLaws Bls ProviderTx.

Section laws.
Context `{HK : !BlsImpl BLS_CURVE_PUBKEY_SIZE} `{HG : !BlsImpl BLS_CURVE_SIG_SIZE}.
Context `{HKL : !BlsImplLaws BLS_CURVE_PUBKEY_SIZE} `{HGL : !BlsImplLaws BLS_CURVE_SIG_SIZE}.

#[export] Instance codec_CKeyID_laws : CodecLaws codec_CKeyID := codec_array_laws 20.
#[export] Instance codec_CBLSPublicKey_laws : CodecLaws codec_CBLSPublicKey := codec_bls_laws.
#[export] Instance codec_CBLSSignature_laws : CodecLaws codec_CBLSSignature := codec_bls_laws.

(** what is written unless the stream is for hashing *)
Lemma emits_unless {S} `{OStreamLaws S} (h : bool) (m : action S unit) b :
  (h = false -> emits m b) -> emits (if h then mret tt else m) (if h then [] else b).
Proof. destruct h; intros Hm; [apply emits_ret|by apply Hm]. Qed.
Lemma parses_unless {S} `{IStreamLaws S} {A} (h : bool) (m : action S A) b (a d : A) :
  (if h then a = d else parses m b a) -> parses (if h then mret d else m) (if h then [] else b) a.
Proof. destruct h; [intros ->; apply parses_ret|done]. Qed.
Lemma bytes_unless (h : bool) b : (h = false -> bytes b) -> bytes (if h then [] else b).
Proof. destruct h; [constructor|auto]. Qed.

(** the last field is the signature *)
Ltac emits_signed := repeat (apply emits_bind; [by apply Serialize_emits|]); apply emits_unless; intros E; rewrite E in *; by apply Serialize_emits.
Ltac parses_signed :=
  repeat (eapply parses_bind; [by apply Unserialize_parses|]);
  (eapply parses_bind_all; [apply parses_unless; case_match; [eassumption|by apply Unserialize_parses]|]); apply parses_ret.
Ltac bytes_signed := rewrite !Forall_app; split_and!; try (by apply encoding_bytes); apply bytes_unless; intros E; rewrite E in *; by apply encoding_bytes.

#[export, refine] Instance codec_CProRegTx_laws (nType : Z) : CodecLaws (codec_CProRegTx nType) := {|
  encoding t := encoding codec_uint16 (reg_nVersion t) ++ encoding codec_uint16 (reg_nType t) ++ encoding codec_uint16 (reg_nMode t) ++
    encoding codec_COutPoint (reg_collateralOutpoint t) ++ encoding codec_CService (reg_addr t) ++ encoding codec_CKeyID (reg_keyIDOwner t) ++
    encoding codec_CBLSPublicKey (reg_pubKeyOperator t) ++ encoding codec_CKeyID (reg_keyIDVoting t) ++ encoding codec_uint16 (reg_nOperatorReward t) ++
    encoding codec_script (reg_scriptPayout t) ++ encoding codec_uint256 (reg_inputsHash t) ++
    (if hashing nType then [] else encoding codec_byte_vector (reg_vchSig t));
  representable t := representable codec_uint16 (reg_nVersion t) /\ representable codec_uint16 (reg_nType t) /\ representable codec_uint16 (reg_nMode t) /\
    representable codec_COutPoint (reg_collateralOutpoint t) /\ representable codec_CService (reg_addr t) /\ representable codec_CKeyID (reg_keyIDOwner t) /\
    representable codec_CBLSPublicKey (reg_pubKeyOperator t) /\ representable codec_CKeyID (reg_keyIDVoting t) /\ representable codec_uint16 (reg_nOperatorReward t) /\
    representable codec_script (reg_scriptPayout t) /\ representable codec_uint256 (reg_inputsHash t) /\
    (if hashing nType then reg_vchSig t = [] else representable codec_byte_vector (reg_vchSig t)) |}.
Proof.
  - intros S ?? t (H1 & H2 & H3 & H4 & H5 & H6 & H7 & H8 & H9 & H10 & H11 & H12). emits_signed.
  - intros S ?? [] (H1 & H2 & H3 & H4 & H5 & H6 & H7 & H8 & H9 & H10 & H11 & H12). parses_signed.
  - intros t (H1 & H2 & H3 & H4 & H5 & H6 & H7 & H8 & H9 & H10 & H11 & H12). bytes_signed.
Defined.

#[export, refine] Instance codec_CProUpServTx_laws (nType : Z) : CodecLaws (codec_CProUpServTx nType) := {|
  encoding t := encoding codec_uint16 (serv_nVersion t) ++ encoding codec_uint256 (serv_proTxHash t) ++ encoding codec_CService (serv_addr t) ++
    encoding codec_script (serv_scriptOperatorPayout t) ++ encoding codec_uint256 (serv_inputsHash t) ++
    (if hashing nType then [] else encoding codec_CBLSSignature (serv_sig t));
  representable t := representable codec_uint16 (serv_nVersion t) /\ representable codec_uint256 (serv_proTxHash t) /\ representable codec_CService (serv_addr t) /\
    representable codec_script (serv_scriptOperatorPayout t) /\ representable codec_uint256 (serv_inputsHash t) /\
    (if hashing nType then serv_sig t = CBLSWrapper_new else representable codec_CBLSSignature (serv_sig t)) |}.
Proof.
  - intros S ?? t (H1 & H2 & H3 & H4 & H5 & H6). emits_signed.
  - intros S ?? [] (H1 & H2 & H3 & H4 & H5 & H6). parses_signed.
  - intros t (H1 & H2 & H3 & H4 & H5 & H6). bytes_signed.
Defined.

#[export, refine] Instance codec_CProUpRegTx_laws (nType : Z) : CodecLaws (codec_CProUpRegTx nType) := {|
  encoding t := encoding codec_uint16 (upreg_nVersion t) ++ encoding codec_uint256 (upreg_proTxHash t) ++ encoding codec_uint16 (upreg_nMode t) ++
    encoding codec_CBLSPublicKey (upreg_pubKeyOperator t) ++ encoding codec_CKeyID (upreg_keyIDVoting t) ++ encoding codec_script (upreg_scriptPayout t) ++
    encoding codec_uint256 (upreg_inputsHash t) ++ (if hashing nType then [] else encoding codec_byte_vector (upreg_vchSig t));
  representable t := representable codec_uint16 (upreg_nVersion t) /\ representable codec_uint256 (upreg_proTxHash t) /\ representable codec_uint16 (upreg_nMode t) /\
    representable codec_CBLSPublicKey (upreg_pubKeyOperator t) /\ representable codec_CKeyID (upreg_keyIDVoting t) /\ representable codec_script (upreg_scriptPayout t) /\
    representable codec_uint256 (upreg_inputsHash t) /\ (if hashing nType then upreg_vchSig t = [] else representable codec_byte_vector (upreg_vchSig t)) |}.
Proof.
  - intros S ?? t (H1 & H2 & H3 & H4 & H5 & H6 & H7 & H8). emits_signed.
  - intros S ?? [] (H1 & H2 & H3 & H4 & H5 & H6 & H7 & H8). parses_signed.
  - intros t (H1 & H2 & H3 & H4 & H5 & H6 & H7 & H8). bytes_signed.
Defined.

#[export, refine] Instance codec_CProUpRevTx_laws (nType : Z) : CodecLaws (codec_CProUpRevTx nType) := {|
  encoding t := encoding codec_uint16 (rev_nVersion t) ++ encoding codec_uint256 (rev_proTxHash t) ++ encoding codec_uint16 (rev_nReason t) ++
    encoding codec_uint256 (rev_inputsHash t) ++ (if hashing nType then [] else encoding codec_CBLSSignature (rev_sig t));
  representable t := representable codec_uint16 (rev_nVersion t) /\ representable codec_uint256 (rev_proTxHash t) /\ representable codec_uint16 (rev_nReason t) /\
    representable codec_uint256 (rev_inputsHash t) /\ (if hashing nType then rev_sig t = CBLSWrapper_new else representable codec_CBLSSignature (rev_sig t)) |}.
Proof.
  - intros S ?? t (H1 & H2 & H3 & H4 & H5). emits_signed.
  - intros S ?? [] (H1 & H2 & H3 & H4 & H5). parses_signed.
  - intros t (H1 & H2 & H3 & H4 & H5). bytes_signed.
Defined.

#[export, refine] Instance codec_CFinalCommitment_laws : CodecLaws codec_CFinalCommitment := {|
  encoding t := encoding codec_uint16 (qc_nVersion t) ++ encoding codec_uint8 (llmqType t) ++ encoding codec_uint256 (quorumHash t) ++
    encoding CDynamicBitSet (signers t) ++ encoding CDynamicBitSet (validMembers t) ++ encoding codec_CBLSPublicKey (quorumPublicKey t) ++
    encoding codec_uint256 (quorumVvecHash t) ++ encoding codec_CBLSSignature (quorumSig t) ++ encoding codec_CBLSSignature (membersSig t);
  representable t := representable codec_uint16 (qc_nVersion t) /\ representable codec_uint8 (llmqType t) /\ representable codec_uint256 (quorumHash t) /\
    representable CDynamicBitSet (signers t) /\ representable CDynamicBitSet (validMembers t) /\ representable codec_CBLSPublicKey (quorumPublicKey t) /\
    representable codec_uint256 (quorumVvecHash t) /\ representable codec_CBLSSignature (quorumSig t) /\ representable codec_CBLSSignature (membersSig t) |}.
Proof.
  - intros S ?? t (H1 & H2 & H3 & H4 & H5 & H6 & H7 & H8 & H9). emits_fields.
  - intros S ?? [] (H1 & H2 & H3 & H4 & H5 & H6 & H7 & H8 & H9). parses_fields.
  - intros t (H1 & H2 & H3 & H4 & H5 & H6 & H7 & H8 & H9). rewrite !Forall_app. split_and!; by apply encoding_bytes.
Defined.

#[export, refine] Instance codec_CFinalCommitmentTxPayload_laws : CodecLaws codec_CFinalCommitmentTxPayload := {|
  encoding t := encoding codec_uint16 (qcp_nVersion t) ++ encoding codec_uint32 (qcp_nHeight t) ++ encoding codec_CFinalCommitment (commitment t);
  representable t := representable codec_uint16 (qcp_nVersion t) /\ representable codec_uint32 (qcp_nHeight t) /\ representable codec_CFinalCommitment (commitment t) |}.
Proof.
  - intros S ?? t (H1 & H2 & H3). emits_fields.
  - intros S ?? [] (H1 & H2 & H3). parses_fields.
  - intros t (H1 & H2 & H3). rewrite !Forall_app. split_and!; by apply encoding_bytes.
Defined.
End laws.

(** A payload that is put into a transaction is read back from it, the rest of the transaction stays as it is, and nothing
    may follow the payload. *)
Theorem payload_roundtrip {T} (c : codec T) `{HC : !CodecLaws c} (tx : CTransaction) (p : T) :
  representable c p -> length (encoding c p) <= 2 ^ 30 ->
  exists tx', SetTxPayload c tx p = Some tx' /\ GetTxPayload c (vExtraPayload tx') = Some p /\
    (forall more, more <> [] -> bytes more -> length more <= 2 ^ 30 -> GetTxPayload c (vExtraPayload tx' ++ more) = None) /\
    vin tx' = vin tx /\ vout tx' = vout tx /\ tx_nType tx' = tx_nType tx.
Proof.
  intros Hp Hl. unfold SetTxPayload. pose proof (Serialize_emits (S:=CDataStream) p Hp) as Hs.
  destruct (Hs (DataStream.new [] SER_NETWORK PROTOCOL_VERSION) I) as (s' & -> & ->).
  eexists. split; [done|]. cbn [vExtraPayload vin vout tx_nType]. change (DataStream.contents _) with (encoding c p).
  pose proof (encoding_bytes (c:=c) p Hp) as Hb.
  assert (forall more, bytes more -> length more <= 2 ^ 30 -> exists ds,
    Unserialize c (DataStream.new (encoding c p ++ more) SER_NETWORK PROTOCOL_VERSION) = (Ok p, ds) /\ is_ok ds /\ DataStream.contents ds = more) as H.
  { intros more Hm Hml. pose proof (Unserialize_parses (S:=CDataStream) p Hp) as Hr.
    destruct (Hr (DataStream.new (encoding c p ++ more) SER_NETWORK PROTOCOL_VERSION) more) as (ds & E & Hok & Hc); [| |by exists ds].
    - cbn. rewrite length_app. split; [lia|]. split; [lia|]. by apply Forall_app.
    - done. }
  assert (forall ds, is_ok ds -> DataStream.empty ds = bool_decide (DataStream.contents ds = [])) as He.
  { intros ds (Hr & _ & _). unfold DataStream.empty, DataStream.contents. apply eq_bool_prop_intro. rewrite bool_decide_spec, Is_true_true, Z.eqb_eq, <- length_zero_iff_nil, length_drop. lia. }
  unfold GetTxPayload. split; [|split; [|done]].
  - destruct (H [] ltac:(constructor) ltac:(done)) as (ds & E & Hok & Hc). rewrite app_nil_r in E. by rewrite E, He, Hc.
  - intros more Hne Hm Hml. destruct (H more Hm Hml) as (ds & E & Hok & Hc). rewrite E, He, Hc by done. by rewrite bool_decide_false.
Qed.

Definition example_tx : CTransaction := mkCTransaction [] [] 3 TRANSACTION_PROVIDER_UPDATE_REVOKE 0 [].
Lemma payload_roundtrip_witness :
  let HK := two_keys 47 in let HG := two_keys 95 in
  let p := mkProUpRevTx 1 (replicate 32 3) 1 (replicate 32 4) (mkBls fLegacyDefault (Some true)) in
  exists tx', SetTxPayload (codec_CProUpRevTx SER_NETWORK) example_tx p = Some tx' /\ GetTxPayload (codec_CProUpRevTx SER_NETWORK) (vExtraPayload tx') = Some p.
Proof.
  intros HK HG p. pose proof (two_keys_laws 95 : BlsImplLaws BLS_CURVE_SIG_SIZE) as HGL.
  destruct (payload_roundtrip (codec_CProUpRevTx SER_NETWORK) (HC:=codec_CProUpRevTx_laws SER_NETWORK) example_tx p) as (tx' & E1 & E2 & _); [|by vm_compute|by exists tx'].
  split_and!; try by vm_compute. all: repeat split; try by vm_compute. all: by apply Forall_replicate.
Defined.
