(* ===== verification/MNState.v ===== *)
(** * Smartnodes: their state and its changes (evo/deterministicmns.h, smartnode/smartnode-collaterals.{h,cpp})

    [CDeterministicMNState] with the difference of two states, [CDeterministicMN], and the table of collaterals.  A
    lazy operator key is its bytes ([Bls]); states and nodes are shared but never changed in place, so a pointer is its
    value. *)

From S2P Require Import Prelude Bytes Streams Serialize SerializeLaws SerializeCodecs ShaSpec Sha256 Sha256Laws Hash Uint256 Transaction Coins NetAddress NetAddressLaws StdContainers Bls ProviderTx.

(** ** Collaterals *)

Module Collaterals.
Definition INT_MAX : Z := 2 ^ 31 - 1.
Record Collateral := mkCollateral { collateral_height : Z; amount : Z }.
Record RewardPercentage := mkRewardPercentage { reward_height : Z; percentage : Z }.
Record SmartnodeCollaterals := mkCollaterals {
  collaterals : list Collateral;
  rewardPercentages : list RewardPercentage;
  collateralsHeightMap : gmap Z Z;
}.
Definition SmartnodeCollaterals_new (collaterals : list Collateral) (rewardPercentages : list RewardPercentage) : SmartnodeCollaterals :=
  mkCollaterals collaterals rewardPercentages (foldl (λ m it, emplace (amount it) (collateral_height it) m) ∅ collaterals).

Fixpoint collateral_of (l : list Collateral) (height : Z) : Z :=
  match l with
  | [] => 0
  | it :: l => if (collateral_height it =? INT_MAX) || (height <=? collateral_height it) then amount it else collateral_of l height
  end.
Definition getCollateral (c : SmartnodeCollaterals) (height : Z) : Z := collateral_of (collaterals c) height.
Fixpoint percentage_of (l : list RewardPercentage) (height : Z) : Z :=
  match l with
  | [] => 0
  | it :: l => if (reward_height it =? INT_MAX) || (height <=? reward_height it) then percentage it else percentage_of l height
  end.
Definition getRewardPercentage (c : SmartnodeCollaterals) (height : Z) : Z := percentage_of (rewardPercentages c) height.
Definition isValidCollateral (c : SmartnodeCollaterals) (collateralAmount : Z) : bool := bool_decide (is_Some (collateralsHeightMap c !! collateralAmount)).
Definition isPayableCollateral (c : SmartnodeCollaterals) (height collateralAmount : Z) : bool :=
  if negb (isValidCollateral c collateralAmount) then false
  else
    let collateralEndHeight := default 0 (collateralsHeightMap c !! collateralAmount) in
    (collateralEndHeight =? INT_MAX) || (height <=? collateralEndHeight).

(** the main network: chainparams.cpp *)
Definition nCollateral2MHeight : Z := 1250000.
Definition main_collaterals : SmartnodeCollaterals :=
  SmartnodeCollaterals_new
    [mkCollateral 88720 (600000 * COIN); mkCollateral 132720 (800000 * COIN); mkCollateral 176720 (1000000 * COIN);
     mkCollateral 220720 (1250000 * COIN); mkCollateral 264720 (1500000 * COIN);
     mkCollateral (nCollateral2MHeight - 1) (1800000 * COIN); mkCollateral INT_MAX (2000000 * COIN)]
    [mkRewardPercentage 5761 0; mkRewardPercentage INT_MAX 20].
End Collaterals.

(** ** The state of a smartnode *)

Record CDeterministicMNState := mkMNState {
  nRegisteredHeight : Z;                    (* int *)
  nLastPaidHeight : Z;
  nPoSePenalty : Z;
  nPoSeRevivedHeight : Z;
  nPoSeBanHeight : Z;
  nRevocationReason : Z;                    (* uint16_t *)
  confirmedHash : list Z;
  confirmedHashWithProRegTxHash : list Z;
  keyIDOwner : CKeyID;
  pubKeyOperator : list Z;                  (* CBLSLazyPublicKey *)
  keyIDVoting : CKeyID;
  addr : CService;
  scriptPayout : list Z;
  scriptOperatorPayout : list Z;
}.

(** the null values *)
Definition null_key : CKeyID := replicate 20 0.
Definition null_pubkey : list Z := replicate BLS_CURVE_PUBKEY_SIZE 0.

Definition CDeterministicMNState_new : CDeterministicMNState :=
  mkMNState (-1) 0 0 (-1) (-1) REASON_NOT_SPECIFIED (Blob.SetNull 32) (Blob.SetNull 32) null_key null_pubkey null_key CService_new [] [].

Section state.
Context `{HK : !BlsImpl BLS_CURVE_PUBKEY_SIZE} `{HG : !BlsImpl BLS_CURVE_SIG_SIZE}.

Definition CDeterministicMNState_of (proTx : CProRegTx) : CDeterministicMNState :=
  mkMNState (-1) 0 0 (-1) (-1) REASON_NOT_SPECIFIED (Blob.SetNull 32) (Blob.SetNull 32)
    (reg_keyIDOwner proTx) (ToByteVector (reg_pubKeyOperator proTx)) (reg_keyIDVoting proTx) (reg_addr proTx) (reg_scriptPayout proTx) [].

Definition IsBanned (s : CDeterministicMNState) : bool := negb (nPoSeBanHeight s =? -1).
Definition set_ban (h : Z) (s : CDeterministicMNState) : CDeterministicMNState :=
  mkMNState (nRegisteredHeight s) (nLastPaidHeight s) (nPoSePenalty s) (nPoSeRevivedHeight s) h (nRevocationReason s) (confirmedHash s)
    (confirmedHashWithProRegTxHash s) (keyIDOwner s) (pubKeyOperator s) (keyIDVoting s) (addr s) (scriptPayout s) (scriptOperatorPayout s).
Definition BanIfNotBanned (height : Z) (s : CDeterministicMNState) : CDeterministicMNState := if negb (IsBanned s) then set_ban height s else s.
Definition ResetOperatorFields (s : CDeterministicMNState) : CDeterministicMNState :=
  mkMNState (nRegisteredHeight s) (nLastPaidHeight s) (nPoSePenalty s) (nPoSeRevivedHeight s) (nPoSeBanHeight s) REASON_NOT_SPECIFIED (confirmedHash s)
    (confirmedHashWithProRegTxHash s) (keyIDOwner s) (ToByteVector (CBLSWrapper_new (SerSize:=BLS_CURVE_PUBKEY_SIZE))) (keyIDVoting s) CService_new (scriptPayout s) [].
Definition Revive (nRevivedHeight : Z) (s : CDeterministicMNState) : CDeterministicMNState :=
  mkMNState (nRegisteredHeight s) (nLastPaidHeight s) 0 nRevivedHeight (-1) (nRevocationReason s) (confirmedHash s)
    (confirmedHashWithProRegTxHash s) (keyIDOwner s) (pubKeyOperator s) (keyIDVoting s) (addr s) (scriptPayout s) (scriptOperatorPayout s).
Definition UpdateConfirmedHash (D : Sha256.dispatch) (proTxHash confirmed : list Z) (s : CDeterministicMNState) : CDeterministicMNState :=
  let h := Sha256.Write D (Sha256.Write D (Sha256.new (replicate 64 0)) proTxHash) confirmed in
  mkMNState (nRegisteredHeight s) (nLastPaidHeight s) (nPoSePenalty s) (nPoSeRevivedHeight s) (nPoSeBanHeight s) (nRevocationReason s) confirmed
    (Sha256.Finalize D h).1 (keyIDOwner s) (pubKeyOperator s) (keyIDVoting s) (addr s) (scriptPayout s) (scriptOperatorPayout s).
(** the assignment made to a copy of a state elsewhere *)
Definition set_penalty (p : Z) (s : CDeterministicMNState) : CDeterministicMNState :=
  mkMNState (nRegisteredHeight s) (nLastPaidHeight s) p (nPoSeRevivedHeight s) (nPoSeBanHeight s) (nRevocationReason s) (confirmedHash s)
    (confirmedHashWithProRegTxHash s) (keyIDOwner s) (pubKeyOperator s) (keyIDVoting s) (addr s) (scriptPayout s) (scriptOperatorPayout s).
End state.

Definition codec_lazy_pubkey : codec (list Z) := codec_array BLS_CURVE_PUBKEY_SIZE.

Definition codec_CDeterministicMNState : codec CDeterministicMNState := Codec
  (λ (S : Type) (_ : OStream S) s,
    _ ← Serialize codec_int32 (nRegisteredHeight s);
    _ ← Serialize codec_int32 (nLastPaidHeight s);
    _ ← Serialize codec_int32 (nPoSePenalty s);
    _ ← Serialize codec_int32 (nPoSeRevivedHeight s);
    _ ← Serialize codec_int32 (nPoSeBanHeight s);
    _ ← Serialize codec_uint16 (nRevocationReason s);
    _ ← Serialize codec_uint256 (confirmedHash s);
    _ ← Serialize codec_uint256 (confirmedHashWithProRegTxHash s);
    _ ← Serialize codec_CKeyID (keyIDOwner s);
    _ ← Serialize codec_lazy_pubkey (pubKeyOperator s);
    _ ← Serialize codec_CKeyID (keyIDVoting s);
    _ ← Serialize codec_CService (addr s);
    _ ← Serialize codec_script (scriptPayout s);
    Serialize codec_script (scriptOperatorPayout s))
  (λ (S : Type) (_ : IStream S),
    nRegisteredHeight ← Unserialize codec_int32;
    nLastPaidHeight ← Unserialize codec_int32;
    nPoSePenalty ← Unserialize codec_int32;
    nPoSeRevivedHeight ← Unserialize codec_int32;
    nPoSeBanHeight ← Unserialize codec_int32;
    nRevocationReason ← Unserialize codec_uint16;
    confirmedHash ← Unserialize codec_uint256;
    confirmedHashWithProRegTxHash ← Unserialize codec_uint256;
    keyIDOwner ← Unserialize codec_CKeyID;
    pubKeyOperator ← Unserialize codec_lazy_pubkey;
    keyIDVoting ← Unserialize codec_CKeyID;
    addr ← Unserialize codec_CService;
    scriptPayout ← Unserialize codec_script;
    scriptOperatorPayout ← Unserialize codec_script;
    mret (mkMNState nRegisteredHeight nLastPaidHeight nPoSePenalty nPoSeRevivedHeight nPoSeBanHeight nRevocationReason confirmedHash
      confirmedHashWithProRegTxHash keyIDOwner pubKeyOperator keyIDVoting addr scriptPayout scriptOperatorPayout)).

(** *** Differences of states *)

Inductive Field :=
  | Field_nRegisteredHeight
  | Field_nLastPaidHeight
  | Field_nPoSePenalty
  | Field_nPoSeRevivedHeight
  | Field_nPoSeBanHeight
  | Field_nRevocationReason
  | Field_confirmedHash
  | Field_confirmedHashWithProRegTxHash
  | Field_keyIDOwner
  | Field_pubKeyOperator
  | Field_keyIDVoting
  | Field_addr
  | Field_scriptPayout
  | Field_scriptOperatorPayout.
#[export] Instance Field_eq_dec : EqDecision Field.
Proof. solve_decision. Defined.
Definition all_fields : list Field :=
  [Field_nRegisteredHeight; Field_nLastPaidHeight; Field_nPoSePenalty; Field_nPoSeRevivedHeight;
   Field_nPoSeBanHeight; Field_nRevocationReason; Field_confirmedHash; Field_confirmedHashWithProRegTxHash;
   Field_keyIDOwner; Field_pubKeyOperator; Field_keyIDVoting; Field_addr;
   Field_scriptPayout; Field_scriptOperatorPayout].
Definition field_bit (f : Field) : Z :=
  match f with
  | Field_nRegisteredHeight => 0x0001
  | Field_nLastPaidHeight => 0x0002
  | Field_nPoSePenalty => 0x0004
  | Field_nPoSeRevivedHeight => 0x0008
  | Field_nPoSeBanHeight => 0x0010
  | Field_nRevocationReason => 0x0020
  | Field_confirmedHash => 0x0040
  | Field_confirmedHashWithProRegTxHash => 0x0080
  | Field_keyIDOwner => 0x0100
  | Field_pubKeyOperator => 0x0200
  | Field_keyIDVoting => 0x0400
  | Field_addr => 0x0800
  | Field_scriptPayout => 0x1000
  | Field_scriptOperatorPayout => 0x2000
  end.
(** [a.f == b.f] *)
Definition field_eqb (f : Field) (a b : CDeterministicMNState) : bool :=
  match f with
  | Field_nRegisteredHeight => bool_decide (nRegisteredHeight a = nRegisteredHeight b)
  | Field_nLastPaidHeight => bool_decide (nLastPaidHeight a = nLastPaidHeight b)
  | Field_nPoSePenalty => bool_decide (nPoSePenalty a = nPoSePenalty b)
  | Field_nPoSeRevivedHeight => bool_decide (nPoSeRevivedHeight a = nPoSeRevivedHeight b)
  | Field_nPoSeBanHeight => bool_decide (nPoSeBanHeight a = nPoSeBanHeight b)
  | Field_nRevocationReason => bool_decide (nRevocationReason a = nRevocationReason b)
  | Field_confirmedHash => bool_decide (confirmedHash a = confirmedHash b)
  | Field_confirmedHashWithProRegTxHash => bool_decide (confirmedHashWithProRegTxHash a = confirmedHashWithProRegTxHash b)
  | Field_keyIDOwner => bool_decide (keyIDOwner a = keyIDOwner b)
  | Field_pubKeyOperator => bool_decide (pubKeyOperator a = pubKeyOperator b)
  | Field_keyIDVoting => bool_decide (keyIDVoting a = keyIDVoting b)
  | Field_addr => CService_eqb (addr a) (addr b)
  | Field_scriptPayout => bool_decide (scriptPayout a = scriptPayout b)
  | Field_scriptOperatorPayout => bool_decide (scriptOperatorPayout a = scriptOperatorPayout b)
  end.
(** [to.f = from.f] *)
Definition set_field (f : Field) (from to : CDeterministicMNState) : CDeterministicMNState :=
  match f with
  | Field_nRegisteredHeight =>
      mkMNState (nRegisteredHeight from) (nLastPaidHeight to) (nPoSePenalty to) (nPoSeRevivedHeight to) (nPoSeBanHeight to) (nRevocationReason to) (confirmedHash to) (confirmedHashWithProRegTxHash to) (keyIDOwner to) (pubKeyOperator to) (keyIDVoting to) (addr to) (scriptPayout to) (scriptOperatorPayout to)
  | Field_nLastPaidHeight =>
      mkMNState (nRegisteredHeight to) (nLastPaidHeight from) (nPoSePenalty to) (nPoSeRevivedHeight to) (nPoSeBanHeight to) (nRevocationReason to) (confirmedHash to) (confirmedHashWithProRegTxHash to) (keyIDOwner to) (pubKeyOperator to) (keyIDVoting to) (addr to) (scriptPayout to) (scriptOperatorPayout to)
  | Field_nPoSePenalty =>
      mkMNState (nRegisteredHeight to) (nLastPaidHeight to) (nPoSePenalty from) (nPoSeRevivedHeight to) (nPoSeBanHeight to) (nRevocationReason to) (confirmedHash to) (confirmedHashWithProRegTxHash to) (keyIDOwner to) (pubKeyOperator to) (keyIDVoting to) (addr to) (scriptPayout to) (scriptOperatorPayout to)
  | Field_nPoSeRevivedHeight =>
      mkMNState (nRegisteredHeight to) (nLastPaidHeight to) (nPoSePenalty to) (nPoSeRevivedHeight from) (nPoSeBanHeight to) (nRevocationReason to) (confirmedHash to) (confirmedHashWithProRegTxHash to) (keyIDOwner to) (pubKeyOperator to) (keyIDVoting to) (addr to) (scriptPayout to) (scriptOperatorPayout to)
  | Field_nPoSeBanHeight =>
      mkMNState (nRegisteredHeight to) (nLastPaidHeight to) (nPoSePenalty to) (nPoSeRevivedHeight to) (nPoSeBanHeight from) (nRevocationReason to) (confirmedHash to) (confirmedHashWithProRegTxHash to) (keyIDOwner to) (pubKeyOperator to) (keyIDVoting to) (addr to) (scriptPayout to) (scriptOperatorPayout to)
  | Field_nRevocationReason =>
      mkMNState (nRegisteredHeight to) (nLastPaidHeight to) (nPoSePenalty to) (nPoSeRevivedHeight to) (nPoSeBanHeight to) (nRevocationReason from) (confirmedHash to) (confirmedHashWithProRegTxHash to) (keyIDOwner to) (pubKeyOperator to) (keyIDVoting to) (addr to) (scriptPayout to) (scriptOperatorPayout to)
  | Field_confirmedHash =>
      mkMNState (nRegisteredHeight to) (nLastPaidHeight to) (nPoSePenalty to) (nPoSeRevivedHeight to) (nPoSeBanHeight to) (nRevocationReason to) (confirmedHash from) (confirmedHashWithProRegTxHash to) (keyIDOwner to) (pubKeyOperator to) (keyIDVoting to) (addr to) (scriptPayout to) (scriptOperatorPayout to)
  | Field_confirmedHashWithProRegTxHash =>
      mkMNState (nRegisteredHeight to) (nLastPaidHeight to) (nPoSePenalty to) (nPoSeRevivedHeight to) (nPoSeBanHeight to) (nRevocationReason to) (confirmedHash to) (confirmedHashWithProRegTxHash from) (keyIDOwner to) (pubKeyOperator to) (keyIDVoting to) (addr to) (scriptPayout to) (scriptOperatorPayout to)
  | Field_keyIDOwner =>
      mkMNState (nRegisteredHeight to) (nLastPaidHeight to) (nPoSePenalty to) (nPoSeRevivedHeight to) (nPoSeBanHeight to) (nRevocationReason to) (confirmedHash to) (confirmedHashWithProRegTxHash to) (keyIDOwner from) (pubKeyOperator to) (keyIDVoting to) (addr to) (scriptPayout to) (scriptOperatorPayout to)
  | Field_pubKeyOperator =>
      mkMNState (nRegisteredHeight to) (nLastPaidHeight to) (nPoSePenalty to) (nPoSeRevivedHeight to) (nPoSeBanHeight to) (nRevocationReason to) (confirmedHash to) (confirmedHashWithProRegTxHash to) (keyIDOwner to) (pubKeyOperator from) (keyIDVoting to) (addr to) (scriptPayout to) (scriptOperatorPayout to)
  | Field_keyIDVoting =>
      mkMNState (nRegisteredHeight to) (nLastPaidHeight to) (nPoSePenalty to) (nPoSeRevivedHeight to) (nPoSeBanHeight to) (nRevocationReason to) (confirmedHash to) (confirmedHashWithProRegTxHash to) (keyIDOwner to) (pubKeyOperator to) (keyIDVoting from) (addr to) (scriptPayout to) (scriptOperatorPayout to)
  | Field_addr =>
      mkMNState (nRegisteredHeight to) (nLastPaidHeight to) (nPoSePenalty to) (nPoSeRevivedHeight to) (nPoSeBanHeight to) (nRevocationReason to) (confirmedHash to) (confirmedHashWithProRegTxHash to) (keyIDOwner to) (pubKeyOperator to) (keyIDVoting to) (addr from) (scriptPayout to) (scriptOperatorPayout to)
  | Field_scriptPayout =>
      mkMNState (nRegisteredHeight to) (nLastPaidHeight to) (nPoSePenalty to) (nPoSeRevivedHeight to) (nPoSeBanHeight to) (nRevocationReason to) (confirmedHash to) (confirmedHashWithProRegTxHash to) (keyIDOwner to) (pubKeyOperator to) (keyIDVoting to) (addr to) (scriptPayout from) (scriptOperatorPayout to)
  | Field_scriptOperatorPayout =>
      mkMNState (nRegisteredHeight to) (nLastPaidHeight to) (nPoSePenalty to) (nPoSeRevivedHeight to) (nPoSeBanHeight to) (nRevocationReason to) (confirmedHash to) (confirmedHashWithProRegTxHash to) (keyIDOwner to) (pubKeyOperator to) (keyIDVoting to) (addr to) (scriptPayout to) (scriptOperatorPayout from)
  end.
Definition Serialize_field {S} `{OStream S} (f : Field) (s : CDeterministicMNState) : action S unit :=
  match f with
  | Field_nRegisteredHeight => Serialize codec_int32 (nRegisteredHeight s)
  | Field_nLastPaidHeight => Serialize codec_int32 (nLastPaidHeight s)
  | Field_nPoSePenalty => Serialize codec_int32 (nPoSePenalty s)
  | Field_nPoSeRevivedHeight => Serialize codec_int32 (nPoSeRevivedHeight s)
  | Field_nPoSeBanHeight => Serialize codec_int32 (nPoSeBanHeight s)
  | Field_nRevocationReason => Serialize codec_uint16 (nRevocationReason s)
  | Field_confirmedHash => Serialize codec_uint256 (confirmedHash s)
  | Field_confirmedHashWithProRegTxHash => Serialize codec_uint256 (confirmedHashWithProRegTxHash s)
  | Field_keyIDOwner => Serialize codec_CKeyID (keyIDOwner s)
  | Field_pubKeyOperator => Serialize codec_lazy_pubkey (pubKeyOperator s)
  | Field_keyIDVoting => Serialize codec_CKeyID (keyIDVoting s)
  | Field_addr => Serialize codec_CService (addr s)
  | Field_scriptPayout => Serialize codec_script (scriptPayout s)
  | Field_scriptOperatorPayout => Serialize codec_script (scriptOperatorPayout s)
  end.
(** reading into the field of [to] *)
Definition Unserialize_field {S} `{IStream S} (f : Field) (to : CDeterministicMNState) : action S CDeterministicMNState :=
  match f with
  | Field_nRegisteredHeight => x ← Unserialize codec_int32; mret (mkMNState x (nLastPaidHeight to) (nPoSePenalty to) (nPoSeRevivedHeight to) (nPoSeBanHeight to) (nRevocationReason to) (confirmedHash to) (confirmedHashWithProRegTxHash to) (keyIDOwner to) (pubKeyOperator to) (keyIDVoting to) (addr to) (scriptPayout to) (scriptOperatorPayout to))
  | Field_nLastPaidHeight => x ← Unserialize codec_int32; mret (mkMNState (nRegisteredHeight to) x (nPoSePenalty to) (nPoSeRevivedHeight to) (nPoSeBanHeight to) (nRevocationReason to) (confirmedHash to) (confirmedHashWithProRegTxHash to) (keyIDOwner to) (pubKeyOperator to) (keyIDVoting to) (addr to) (scriptPayout to) (scriptOperatorPayout to))
  | Field_nPoSePenalty => x ← Unserialize codec_int32; mret (mkMNState (nRegisteredHeight to) (nLastPaidHeight to) x (nPoSeRevivedHeight to) (nPoSeBanHeight to) (nRevocationReason to) (confirmedHash to) (confirmedHashWithProRegTxHash to) (keyIDOwner to) (pubKeyOperator to) (keyIDVoting to) (addr to) (scriptPayout to) (scriptOperatorPayout to))
  | Field_nPoSeRevivedHeight => x ← Unserialize codec_int32; mret (mkMNState (nRegisteredHeight to) (nLastPaidHeight to) (nPoSePenalty to) x (nPoSeBanHeight to) (nRevocationReason to) (confirmedHash to) (confirmedHashWithProRegTxHash to) (keyIDOwner to) (pubKeyOperator to) (keyIDVoting to) (addr to) (scriptPayout to) (scriptOperatorPayout to))
  | Field_nPoSeBanHeight => x ← Unserialize codec_int32; mret (mkMNState (nRegisteredHeight to) (nLastPaidHeight to) (nPoSePenalty to) (nPoSeRevivedHeight to) x (nRevocationReason to) (confirmedHash to) (confirmedHashWithProRegTxHash to) (keyIDOwner to) (pubKeyOperator to) (keyIDVoting to) (addr to) (scriptPayout to) (scriptOperatorPayout to))
  | Field_nRevocationReason => x ← Unserialize codec_uint16; mret (mkMNState (nRegisteredHeight to) (nLastPaidHeight to) (nPoSePenalty to) (nPoSeRevivedHeight to) (nPoSeBanHeight to) x (confirmedHash to) (confirmedHashWithProRegTxHash to) (keyIDOwner to) (pubKeyOperator to) (keyIDVoting to) (addr to) (scriptPayout to) (scriptOperatorPayout to))
  | Field_confirmedHash => x ← Unserialize codec_uint256; mret (mkMNState (nRegisteredHeight to) (nLastPaidHeight to) (nPoSePenalty to) (nPoSeRevivedHeight to) (nPoSeBanHeight to) (nRevocationReason to) x (confirmedHashWithProRegTxHash to) (keyIDOwner to) (pubKeyOperator to) (keyIDVoting to) (addr to) (scriptPayout to) (scriptOperatorPayout to))
  | Field_confirmedHashWithProRegTxHash => x ← Unserialize codec_uint256; mret (mkMNState (nRegisteredHeight to) (nLastPaidHeight to) (nPoSePenalty to) (nPoSeRevivedHeight to) (nPoSeBanHeight to) (nRevocationReason to) (confirmedHash to) x (keyIDOwner to) (pubKeyOperator to) (keyIDVoting to) (addr to) (scriptPayout to) (scriptOperatorPayout to))
  | Field_keyIDOwner => x ← Unserialize codec_CKeyID; mret (mkMNState (nRegisteredHeight to) (nLastPaidHeight to) (nPoSePenalty to) (nPoSeRevivedHeight to) (nPoSeBanHeight to) (nRevocationReason to) (confirmedHash to) (confirmedHashWithProRegTxHash to) x (pubKeyOperator to) (keyIDVoting to) (addr to) (scriptPayout to) (scriptOperatorPayout to))
  | Field_pubKeyOperator => x ← Unserialize codec_lazy_pubkey; mret (mkMNState (nRegisteredHeight to) (nLastPaidHeight to) (nPoSePenalty to) (nPoSeRevivedHeight to) (nPoSeBanHeight to) (nRevocationReason to) (confirmedHash to) (confirmedHashWithProRegTxHash to) (keyIDOwner to) x (keyIDVoting to) (addr to) (scriptPayout to) (scriptOperatorPayout to))
  | Field_keyIDVoting => x ← Unserialize codec_CKeyID; mret (mkMNState (nRegisteredHeight to) (nLastPaidHeight to) (nPoSePenalty to) (nPoSeRevivedHeight to) (nPoSeBanHeight to) (nRevocationReason to) (confirmedHash to) (confirmedHashWithProRegTxHash to) (keyIDOwner to) (pubKeyOperator to) x (addr to) (scriptPayout to) (scriptOperatorPayout to))
  | Field_addr => x ← Unserialize codec_CService; mret (mkMNState (nRegisteredHeight to) (nLastPaidHeight to) (nPoSePenalty to) (nPoSeRevivedHeight to) (nPoSeBanHeight to) (nRevocationReason to) (confirmedHash to) (confirmedHashWithProRegTxHash to) (keyIDOwner to) (pubKeyOperator to) (keyIDVoting to) x (scriptPayout to) (scriptOperatorPayout to))
  | Field_scriptPayout => x ← Unserialize codec_script; mret (mkMNState (nRegisteredHeight to) (nLastPaidHeight to) (nPoSePenalty to) (nPoSeRevivedHeight to) (nPoSeBanHeight to) (nRevocationReason to) (confirmedHash to) (confirmedHashWithProRegTxHash to) (keyIDOwner to) (pubKeyOperator to) (keyIDVoting to) (addr to) x (scriptOperatorPayout to))
  | Field_scriptOperatorPayout => x ← Unserialize codec_script; mret (mkMNState (nRegisteredHeight to) (nLastPaidHeight to) (nPoSePenalty to) (nPoSeRevivedHeight to) (nPoSeBanHeight to) (nRevocationReason to) (confirmedHash to) (confirmedHashWithProRegTxHash to) (keyIDOwner to) (pubKeyOperator to) (keyIDVoting to) (addr to) (scriptPayout to) x)
  end.

Record CDeterministicMNStateDiff := mkStateDiff { fields : Z (* uint32_t *); diff_state : CDeterministicMNState }.
Definition CDeterministicMNStateDiff_new : CDeterministicMNStateDiff := mkStateDiff 0 CDeterministicMNState_new.
Definition has_field (d : CDeterministicMNStateDiff) (f : Field) : bool := negb ((fields d &&& field_bit f) =? 0).

Definition CDeterministicMNStateDiff_of (a b : CDeterministicMNState) : CDeterministicMNStateDiff :=
  foldl (λ d f, if negb (field_eqb f a b) then mkStateDiff (fields d ||| field_bit f) (set_field f b (diff_state d)) else d)
    CDeterministicMNStateDiff_new all_fields.
Definition ApplyToState (d : CDeterministicMNStateDiff) (target : CDeterministicMNState) : CDeterministicMNState :=
  foldl (λ t f, if has_field d f then set_field f (diff_state d) t else t) target all_fields.

Fixpoint Serialize_fields {S} `{OStream S} (fs : list Field) (d : CDeterministicMNStateDiff) : action S unit :=
  match fs with
  | [] => mret tt
  | f :: fs => _ ← (if has_field d f then Serialize_field f (diff_state d) else mret tt); Serialize_fields fs d
  end.
Fixpoint Unserialize_fields {S} `{IStream S} (fs : list Field) (d : CDeterministicMNStateDiff) : action S CDeterministicMNStateDiff :=
  match fs with
  | [] => mret d
  | f :: fs =>
      st ← (if has_field d f then Unserialize_field f (diff_state d) else mret (diff_state d));
      Unserialize_fields fs (mkStateDiff (fields d) st)
  end.
Definition codec_CDeterministicMNStateDiff : codec CDeterministicMNStateDiff := Codec
  (λ (S : Type) (_ : OStream S) d, _ ← WriteVarInt 32 (fields d); Serialize_fields all_fields d)
  (λ (S : Type) (_ : IStream S), fields ← ReadVarInt 32; Unserialize_fields all_fields (mkStateDiff fields CDeterministicMNState_new)).

(** ** A smartnode *)

Record CDeterministicMN := mkMN {
  internalId : Z;                           (* uint64_t *)
  proTxHash : list Z;
  collateralOutpoint : COutPoint;
  nOperatorReward : Z;                      (* uint16_t *)
  pdmnState : CDeterministicMNState;
}.
Definition NO_ID : Z := 2 ^ 64 - 1.
(** [None]: the assertion fails *)
Definition GetInternalId (dmn : CDeterministicMN) : option Z := if internalId dmn =? NO_ID then None else Some (internalId dmn).
Definition set_state (st : CDeterministicMNState) (dmn : CDeterministicMN) : CDeterministicMN :=
  mkMN (internalId dmn) (proTxHash dmn) (collateralOutpoint dmn) (nOperatorReward dmn) st.

(** the format with the identifier; the old one, which the upgrade of a database reads, has none *)
Definition codec_CDeterministicMN : codec CDeterministicMN := Codec
  (λ (S : Type) (_ : OStream S) m,
    _ ← Serialize codec_uint256 (proTxHash m);
    _ ← WriteVarInt 64 (internalId m);
    _ ← Serialize codec_COutPoint (collateralOutpoint m);
    _ ← Serialize codec_uint16 (nOperatorReward m);
    Serialize codec_CDeterministicMNState (pdmnState m))
  (λ (S : Type) (_ : IStream S),
    proTxHash ← Unserialize codec_uint256;
    internalId ← ReadVarInt 64;
    collateralOutpoint ← Unserialize codec_COutPoint;
    nOperatorReward ← Unserialize codec_uint16;
    pdmnState ← Unserialize codec_CDeterministicMNState;
    mret (mkMN internalId proTxHash collateralOutpoint nOperatorReward pdmnState)).
