(* ===== verification/MNList.v ===== *)
(** * The list of smartnodes: evo/deterministicmns.{h,cpp}

    [CDeterministicMNList] with its three maps, the unique properties of its nodes, the choice of the payee and of the
    members of a quorum, the penalties, and the differences of two lists.

    [immer::map] is a third-party container: a finite map whose enumeration [mn_iterate] has every entry once, in an order
    of its own.  What the node asks of the chain state is the record [NodeView].  A method that throws is an [action] on
    the list; the state it leaves is the one the exception leaves. *)

From stdpp Require Import sorting.
From S2P Require Import Prelude Bytes Streams Serialize SerializeLaws SerializeCodecs ShaSpec Sha256 Sha256Laws Hash Uint256 ArithUint256 Transaction Coins NetAddress NetAddressLaws StdContainers LruCache SpentIndex Bls ProviderTx MNState.

(** ** The list *)

Record CDeterministicMNList := mkMNList {
  blockHash : list Z;
  nHeight : Z;                                              (* int *)
  nTotalRegisteredCount : Z;                                (* uint32_t *)
  mnMap : gmap (list Z) CDeterministicMN;
  mnInternalIdMap : gmap Z (list Z);
  mnUniquePropertyMap : gmap (list Z) (list Z * Z);
}.
Definition CDeterministicMNList_new : CDeterministicMNList := mkMNList (Blob.SetNull 32) (-1) 0 ∅ ∅ ∅.
Definition CDeterministicMNList_at (blockHash : list Z) (height totalRegisteredCount : Z) : CDeterministicMNList :=
  mkMNList blockHash height totalRegisteredCount ∅ ∅ ∅.
Definition SetBlockHash (h : list Z) (l : CDeterministicMNList) : CDeterministicMNList :=
  mkMNList h (nHeight l) (nTotalRegisteredCount l) (mnMap l) (mnInternalIdMap l) (mnUniquePropertyMap l).
Definition SetHeight (h : Z) (l : CDeterministicMNList) : CDeterministicMNList :=
  mkMNList (blockHash l) h (nTotalRegisteredCount l) (mnMap l) (mnInternalIdMap l) (mnUniquePropertyMap l).
Definition set_unique (m : gmap (list Z) (list Z * Z)) (l : CDeterministicMNList) : CDeterministicMNList :=
  mkMNList (blockHash l) (nHeight l) (nTotalRegisteredCount l) (mnMap l) (mnInternalIdMap l) m.
Definition set_mn (m : gmap (list Z) CDeterministicMN) (l : CDeterministicMNList) : CDeterministicMNList :=
  mkMNList (blockHash l) (nHeight l) (nTotalRegisteredCount l) m (mnInternalIdMap l) (mnUniquePropertyMap l).
Definition set_ids (m : gmap Z (list Z)) (l : CDeterministicMNList) : CDeterministicMNList :=
  mkMNList (blockHash l) (nHeight l) (nTotalRegisteredCount l) (mnMap l) m (mnUniquePropertyMap l).
Definition set_total (n : Z) (l : CDeterministicMNList) : CDeterministicMNList :=
  mkMNList (blockHash l) (nHeight l) n (mnMap l) (mnInternalIdMap l) (mnUniquePropertyMap l).

Class MnIteration := {
  mn_iterate : gmap (list Z) CDeterministicMN -> list (list Z * CDeterministicMN);
  mn_iterate_perm m : mn_iterate m ≡ₚ map_to_list m;
}.

(** ** What the node asks of the chain state: validation.cpp *)

Record NodeView := mkView {
  view_tip : option Z;                                      (* the height of chainActive.Tip() *)
  pcoinsTip_GetCoin : COutPoint -> option Coin;
  GetSpentIndex : CSpentIndexKey -> option CSpentIndexValue;
  nCollaterals : Collaterals.SmartnodeCollaterals;
  nSmartnodeCollateralUpgradeHeight : Z;
  is_main : bool;                                           (* NetworkIDString() == "main" *)
}.
Definition tipHeight (v : NodeView) : Z := default 0 (view_tip v).

(** the coin found, or the null coin, and whether it counts as unspent at the height *)
Definition GetUTXOCoin_at (v : NodeView) (outpoint : COutPoint) (height : Z) : bool * Coin :=
  let got := pcoinsTip_GetCoin v outpoint in
  let coin := default Coin_empty got in
  if negb (height =? tipHeight v) then
    match GetSpentIndex v (mkCSpentIndexKey (hash outpoint) (n outpoint)) with
    | Some value => (negb (sv_blockHeight value <=? height), coin)
    | None => (true, coin)
    end
  else match got with None => (false, coin) | Some c => (negb (IsSpent c), coin) end.
Definition GetUTXOCoin (v : NodeView) (outpoint : COutPoint) : option Coin :=
  match pcoinsTip_GetCoin v outpoint with Some c => if IsSpent c then None else Some c | None => None end.

Definition IsMNPoSeBanned (dmn : CDeterministicMN) : bool := IsBanned (pdmnState dmn).
Definition IsMNValid_at (v : NodeView) (dmn : CDeterministicMN) (height : Z) : bool :=
  let '(isValidUtxo, coin) := GetUTXOCoin_at v (collateralOutpoint dmn) height in
  let amount := nValue (coin_out coin) in
  let amount :=
    if negb (height =? tipHeight v) then
      match GetSpentIndex v (mkCSpentIndexKey (hash (collateralOutpoint dmn)) (u32 (i32 (n (collateralOutpoint dmn))))) with
      | Some value => if height <? sv_blockHeight value then sv_satoshis value else amount
      | None => amount
      end
    else amount in
  negb (IsMNPoSeBanned dmn) && (isValidUtxo && Collaterals.isPayableCollateral (nCollaterals v) height amount).
Definition IsMNValid (v : NodeView) (dmn : CDeterministicMN) : bool := IsMNValid_at v dmn (tipHeight v).

Section mn_list.
Context (D : Sha256.dispatch) `{HD : !GoodDispatch D} `{HK : !BlsImpl BLS_CURVE_PUBKEY_SIZE} `{HI : MnIteration}.
#[local] Abbreviation L := CDeterministicMNList.

Definition GetAllMNsCount (l : L) : Z := size (mnMap l).
Definition nodes (l : L) : list CDeterministicMN := (mn_iterate (mnMap l)).*2.
(** [ForEachMN]: the nodes that the callback is called with *)
Definition ForEachMN (v : NodeView) (onlyValid : bool) (l : L) : list CDeterministicMN :=
  filter (λ dmn, negb onlyValid || IsMNValid v dmn = true) (nodes l).
Definition GetValidMNsCount (v : NodeView) (l : L) : Z := length (filter (λ dmn, IsMNValid v dmn = true) (nodes l)).

Definition GetMN (l : L) (proTxHash : list Z) : option CDeterministicMN := mnMap l !! proTxHash.
Definition HasMN (l : L) (proTxHash : list Z) : bool := match GetMN l proTxHash with Some _ => true | None => false end.
Definition list_IsMNValid (v : NodeView) (l : L) (proTxHash : list Z) : bool :=
  match mnMap l !! proTxHash with Some dmn => IsMNValid v dmn | None => false end.
Definition list_IsMNPoSeBanned (l : L) (proTxHash : list Z) : bool :=
  match mnMap l !! proTxHash with Some dmn => IsMNPoSeBanned dmn | None => false end.
Definition GetValidMN (v : NodeView) (l : L) (proTxHash : list Z) : option CDeterministicMN :=
  match GetMN l proTxHash with Some dmn => if IsMNValid v dmn then Some dmn else None | None => None end.
Definition GetMNByInternalId (l : L) (id : Z) : option CDeterministicMN :=
  match mnInternalIdMap l !! id with Some h => GetMN l h | None => None end.
Definition GetMNByOperatorKey (l : L) (pubKey : CBLSPublicKey) : option CDeterministicMN :=
  head (filter (λ dmn, bls_eqb (lazy_get (pubKeyOperator (pdmnState dmn))) pubKey = true) (nodes l)).

(** *** Unique properties

    The templates are instantiated with four types. *)

Record property (T : Type) := Property { p_codec : codec T; p_null : T; p_eqb : T -> T -> bool }.
Arguments Property {T}. Arguments p_codec {T}. Arguments p_null {T}. Arguments p_eqb {T}.
Definition prop_outpoint : property COutPoint := Property codec_COutPoint COutPoint_default (λ a b, bool_decide (a = b)).
Definition prop_addr : property CService := Property codec_CService CService_new CService_eqb.
Definition prop_keyid : property CKeyID := Property codec_CKeyID null_key (λ a b, bool_decide (a = b)).
Definition prop_pubkey : property (list Z) := Property codec_lazy_pubkey null_pubkey (λ a b, bool_decide (a = b)).

Definition prop_hash {T} (p : property T) (v : T) : list Z := SerializeHash D (p_codec p) v SER_GETHASH PROTOCOL_VERSION.
Definition is_null {T} (p : property T) (v : T) : bool := p_eqb p v (p_null p).

Definition HasUniqueProperty {T} (p : property T) (l : L) (v : T) : bool :=
  match mnUniquePropertyMap l !! prop_hash p v with Some _ => true | None => false end.
Definition GetUniquePropertyMN {T} (p : property T) (l : L) (v : T) : option CDeterministicMN :=
  match mnUniquePropertyMap l !! prop_hash p v with Some e => GetMN l e.1 | None => None end.
Definition GetMNByCollateral (l : L) (c : COutPoint) : option CDeterministicMN := GetUniquePropertyMN prop_outpoint l c.
Definition GetValidMNByCollateral (v : NodeView) (l : L) (c : COutPoint) : option CDeterministicMN :=
  match GetMNByCollateral l c with Some dmn => if IsMNValid v dmn then Some dmn else None | None => None end.
Definition GetMNByService (l : L) (s : CService) : option CDeterministicMN := GetUniquePropertyMN prop_addr l s.

(** the map after the call; [None]: it returns false *)
Definition AddUniqueProperty {T} (p : property T) (dmn : CDeterministicMN) (v : T) (m : gmap (list Z) (list Z * Z)) : option (gmap (list Z) (list Z * Z)) :=
  if is_null p v then None
  else
    let h := prop_hash p v in
    match m !! h with
    | Some old => if negb (bool_decide (old.1 = proTxHash dmn)) then None else Some (<[h := (proTxHash dmn, u32 (old.2 + 1))]> m)
    | None => Some (<[h := (proTxHash dmn, 1)]> m)
    end.
Definition DeleteUniqueProperty {T} (p : property T) (dmn : CDeterministicMN) (oldValue : T) (m : gmap (list Z) (list Z * Z)) : option (gmap (list Z) (list Z * Z)) :=
  if is_null p oldValue then None
  else
    let oldHash := prop_hash p oldValue in
    match m !! oldHash with
    | Some e =>
        if negb (bool_decide (e.1 = proTxHash dmn)) then None
        else if e.2 =? 1 then Some (delete oldHash m) else Some (<[oldHash := (proTxHash dmn, u32 (e.2 - 1))]> m)
    | None => None
    end.
Definition UpdateUniqueProperty {T} (p : property T) (dmn : CDeterministicMN) (oldValue newValue : T) (m : gmap (list Z) (list Z * Z)) : option (gmap (list Z) (list Z * Z)) :=
  if p_eqb p oldValue newValue then Some m
  else
    match (if negb (is_null p oldValue) then DeleteUniqueProperty p dmn oldValue m else Some m) with
    | None => None
    | Some m => if negb (is_null p newValue) then AddUniqueProperty p dmn newValue m else Some m
    end.

(** [newValue != nullValue], [Get().IsValid()] *)
Definition has_addr (s : CDeterministicMNState) : bool := negb (CService_eqb (addr s) CService_new).
Definition has_operator (s : CDeterministicMNState) : bool := bls_IsValid (lazy_get (pubKeyOperator s)).

(** *** Adding, updating and removing nodes

    Each saves [mnUniquePropertyMap] and restores it before it throws. *)

Definition or_throw {A} (o : option A) (msg : string) : result A := match o with Some a => Ok a | None => Throw msg end.

Definition AddMN_unique (dmn : CDeterministicMN) (m : gmap (list Z) (list Z * Z)) : result (gmap (list Z) (list Z * Z)) :=
  let st := pdmnState dmn in
  match AddUniqueProperty prop_outpoint dmn (collateralOutpoint dmn) m with
  | None => Throw "AddMN: duplicate collateralOutpoint"
  | Some m =>
  match (if has_addr st then AddUniqueProperty prop_addr dmn (addr st) m else Some m) with
  | None => Throw "AddMN: duplicate address"
  | Some m =>
  match AddUniqueProperty prop_keyid dmn (keyIDOwner st) m with
  | None => Throw "AddMN: duplicate keyIDOwner"
  | Some m => or_throw (if has_operator st then AddUniqueProperty prop_pubkey dmn (pubKeyOperator st) m else Some m) "AddMN: duplicate pubKeyOperator"
  end end end.

Definition AddMN (dmn : CDeterministicMN) (fBumpTotalCount : bool) : action L unit := λ l,
  match mnMap l !! proTxHash dmn with
  | Some _ => (Throw "AddMN: duplicate proTxHash", l)
  | None =>
  match GetInternalId dmn with
  | None => (Throw "assertion failed", l)
  | Some id =>
  match mnInternalIdMap l !! id with
  | Some _ => (Throw "AddMN: duplicate internalId", l)
  | None =>
  match AddMN_unique dmn (mnUniquePropertyMap l) with
  | Throw e => (Throw e, l)
  | Ok m =>
      let l := set_ids (<[id := proTxHash dmn]> (mnInternalIdMap l)) (set_mn (<[proTxHash dmn := dmn]> (mnMap l)) (set_unique m l)) in
      (Ok tt, if fBumpTotalCount then set_total (u32 (Z.max (u64 (id + 1)) (nTotalRegisteredCount l))) l else l)
  end end end end.

Definition UpdateMN_unique (dmn : CDeterministicMN) (oldState newState : CDeterministicMNState) (m : gmap (list Z) (list Z * Z)) :
    result (gmap (list Z) (list Z * Z)) :=
  match UpdateUniqueProperty prop_addr dmn (addr oldState) (addr newState) m with
  | None => Throw "UpdateMN: duplicate address"
  | Some m =>
  match UpdateUniqueProperty prop_keyid dmn (keyIDOwner oldState) (keyIDOwner newState) m with
  | None => Throw "UpdateMN: duplicate keyIDOwner"
  | Some m => or_throw (UpdateUniqueProperty prop_pubkey dmn (pubKeyOperator oldState) (pubKeyOperator newState) m) "UpdateMN: duplicate pubKeyOperator"
  end end.

(** the three overloads *)
Definition UpdateMN_node (oldDmn : CDeterministicMN) (st : CDeterministicMNState) : action L unit := λ l,
  let dmn := set_state st oldDmn in
  match UpdateMN_unique dmn (pdmnState oldDmn) st (mnUniquePropertyMap l) with
  | Throw e => (Throw e, l)
  | Ok m => (Ok tt, set_mn (<[proTxHash oldDmn := dmn]> (mnMap l)) (set_unique m l))
  end.
Definition UpdateMN (h : list Z) (st : CDeterministicMNState) : action L unit := λ l,
  match mnMap l !! h with
  | None => (Throw "UpdateMN: Can't find a smartnode", l)
  | Some oldDmn => UpdateMN_node oldDmn st l
  end.
Definition UpdateMN_diff (oldDmn : option CDeterministicMN) (stateDiff : CDeterministicMNStateDiff) : action L unit :=
  match oldDmn with
  | None => throw "assertion failed"
  | Some oldDmn => UpdateMN_node oldDmn (ApplyToState stateDiff (pdmnState oldDmn))
  end.

Definition RemoveMN_unique (dmn : CDeterministicMN) (m : gmap (list Z) (list Z * Z)) : result (gmap (list Z) (list Z * Z)) :=
  let st := pdmnState dmn in
  match DeleteUniqueProperty prop_outpoint dmn (collateralOutpoint dmn) m with
  | None => Throw "RemoveMN: collateralOutpoint"
  | Some m =>
  match (if has_addr st then DeleteUniqueProperty prop_addr dmn (addr st) m else Some m) with
  | None => Throw "RemoveMN: address"
  | Some m =>
  match DeleteUniqueProperty prop_keyid dmn (keyIDOwner st) m with
  | None => Throw "RemoveMN: keyIDOwner"
  | Some m => or_throw (if has_operator st then DeleteUniqueProperty prop_pubkey dmn (pubKeyOperator st) m else Some m) "RemoveMN: pubKeyOperator"
  end end end.
Definition RemoveMN (h : list Z) : action L unit := λ l,
  match GetMN l h with
  | None => (Throw "RemoveMN: Can't find a smartnode", l)
  | Some dmn =>
  match RemoveMN_unique dmn (mnUniquePropertyMap l) with
  | Throw e => (Throw e, l)
  | Ok m =>
      let l := set_mn (delete h (mnMap l)) (set_unique m l) in
      match GetInternalId dmn with
      | None => (Throw "assertion failed", l)
      | Some id => (Ok tt, set_ids (delete id (mnInternalIdMap l)) l)
      end
  end end.

(** *** Payment *)

Definition CompareByLastPaid_GetHeight (dmn : CDeterministicMN) : Z :=
  let st := pdmnState dmn in
  let height := nLastPaidHeight st in
  if negb (nPoSeRevivedHeight st =? -1) && (height <? nPoSeRevivedHeight st) then nPoSeRevivedHeight st
  else if height =? 0 then nRegisteredHeight st else height.
Definition CompareByLastPaid (a b : CDeterministicMN) : bool :=
  let ah := CompareByLastPaid_GetHeight a in
  let bh := CompareByLastPaid_GetHeight b in
  if ah =? bh then Blob.Compare (proTxHash a) (proTxHash b) <? 0 else ah <? bh.
(** the loop that keeps the best *)
Definition best_of (dmns : list CDeterministicMN) : option CDeterministicMN :=
  foldl (λ best dmn, match best with None => Some dmn | Some b => if CompareByLastPaid dmn b then Some dmn else best end) None dmns.

Definition GetMNPayee (v : NodeView) (l : L) : option CDeterministicMN :=
  if (size (mnMap l) <=? 10)%nat && is_main v then None else best_of (ForEachMN v true l).
Definition payable_at (v : NodeView) (blockHeight : Z) (dmn : CDeterministicMN) : bool :=
  if IsMNPoSeBanned dmn then false
  else match GetUTXOCoin v (collateralOutpoint dmn) with
       | None => false
       | Some coin => Collaterals.isPayableCollateral (nCollaterals v) blockHeight (nValue (coin_out coin))
       end.
Definition GetMNPayeeForBlock (v : NodeView) (l : L) (blockHeight : Z) : option CDeterministicMN :=
  if (nSmartnodeCollateralUpgradeHeight v <=? 0) || (blockHeight <? nSmartnodeCollateralUpgradeHeight v) then GetMNPayee v l
  else if (size (mnMap l) <=? 10)%nat && is_main v then None
  else best_of (filter (λ dmn, payable_at v blockHeight dmn = true) (nodes l)).

(** [sort_paid] is [std::sort] with [CompareByLastPaid]; [None]: [resize] would have to make null pointers, or
    [reserve] is given a negative number *)
Context (sort_paid : list CDeterministicMN -> list CDeterministicMN).
Definition GetProjectedMNPayees (v : NodeView) (nCount : Z) (l : L) : option (list CDeterministicMN) :=
  let validMnCount := GetValidMNsCount v l in
  let nCount := if (validMnCount <? 10) && is_main v then 0 else if validMnCount <? nCount then validMnCount else nCount in
  if nCount <? 0 then None else
  let result := sort_paid (ForEachMN v true l) in
  if length result <? nCount then None else Some (take (Z.to_nat nCount) result).

(** *** Quorums *)

Definition mn_score (modifier : list Z) (dmn : CDeterministicMN) : base_uint :=
  let sha256 := Sha256.Write D (Sha256.Write D (Sha256.new (replicate 64 0)) (confirmedHashWithProRegTxHash (pdmnState dmn))) modifier in
  UintToArith256 (Sha256.Finalize D sha256).1.
Definition CalculateScores (v : NodeView) (modifier : list Z) (l : L) : list (base_uint * CDeterministicMN) :=
  omap (λ dmn, if Blob.IsNull (confirmedHash (pdmnState dmn)) then None else Some (mn_score modifier dmn, dmn)) (ForEachMN v true l).
(** the comparison of the sort *)
Definition score_lt (a b : base_uint * CDeterministicMN) : bool :=
  if BaseUint.CompareTo a.1 b.1 =? 0 then COutPoint_lt (collateralOutpoint a.2) (collateralOutpoint b.2) else BaseUint.CompareTo a.1 b.1 <? 0.
(** [sort_scores] is [std::sort] with [score_lt]; the range is given by reverse iterators *)
Context (sort_scores : list (base_uint * CDeterministicMN) -> list (base_uint * CDeterministicMN)).
Definition CalculateQuorum (v : NodeView) (maxSize : nat) (modifier : list Z) (l : L) : list CDeterministicMN :=
  let scores := rev (sort_scores (rev (CalculateScores v modifier l))) in
  (take (Nat.min maxSize (List.length scores)) scores).*2.

(** *** Proof of service *)

Definition CalcMaxPoSePenalty (l : L) : Z := Z.max 100 (i32 (GetAllMNsCount l)).
Definition CalcPenalty (percent : Z) (l : L) : option Z :=
  if 0 <? percent then Some (Z.quot (i32 (CalcMaxPoSePenalty l * percent)) 100) else None.

Definition punished (maxPenalty penalty height : Z) (st : CDeterministicMNState) : CDeterministicMNState :=
  let newState := set_penalty (i32 (nPoSePenalty st + penalty)) st in
  let newState := set_penalty (Z.min maxPenalty (nPoSePenalty newState)) newState in
  if (maxPenalty <=? nPoSePenalty newState) && negb (IsBanned newState) then BanIfNotBanned height newState else newState.
Definition PoSePunish (h : list Z) (penalty : Z) : action L unit := λ l,
  if negb (0 <? penalty) then (Throw "assertion failed", l)
  else match GetMN l h with
       | None => (Throw "PoSePunish: Can't find a smartnode", l)
       | Some dmn => UpdateMN h (punished (CalcMaxPoSePenalty l) penalty (nHeight l) (pdmnState dmn)) l
       end.
Definition PoSeDecrease (h : list Z) : action L unit := λ l,
  match GetMN l h with
  | None => (Throw "PoSeDecrease: Can't find a smartnode", l)
  | Some dmn =>
      let st := pdmnState dmn in
      if negb ((0 <? nPoSePenalty st) && negb (IsBanned st)) then (Throw "assertion failed", l)
      else UpdateMN h (set_penalty (i32 (nPoSePenalty st - 1)) st) l
  end.

Fixpoint each {A} (f : A -> action L unit) (l : list A) : action L unit :=
  match l with [] => mret tt | x :: l => _ ← f x; each f l end.

(** the loop over the valid nodes collects hashes; [IsSporkActive(SPORK_21_LOW_LLMQ_PARAMS)] says how often it runs *)
Definition isDecrease (spork : bool) (height : Z) : bool := if spork then Z.rem height 30 =? 0 else Z.rem height 2 =? 0.
Definition DecreasePoSePenalties (v : NodeView) : action L unit := λ mnList,
  let toDecrease := proTxHash <$> filter (λ dmn, (0 <? nPoSePenalty (pdmnState dmn)) && negb (IsBanned (pdmnState dmn)) = true) (ForEachMN v true mnList) in
  each PoSeDecrease toDecrease mnList.

(** [members] are those of the quorum ([CLLMQUtils::GetAllQuorumMembers]), [validMembers] the bits of the commitment *)
Definition punish_member (validMembers : list bool) (p : nat * CDeterministicMN) : action L unit := λ mnList,
  if negb (HasMN mnList (proTxHash p.2)) then (Ok tt, mnList)
  else match validMembers !! p.1 with
       | None => (Throw "undefined: validMembers[i]", mnList)
       | Some true => (Ok tt, mnList)
       | Some false =>
           match CalcPenalty 66 mnList with
           | None => (Throw "assertion failed", mnList)
           | Some penalty => PoSePunish (proTxHash p.2) penalty mnList
           end
       end.
Definition HandleQuorumCommitment (members : list CDeterministicMN) (validMembers : list bool) : action L unit :=
  each (punish_member validMembers) (imap pair members).

(** *** Differences of lists *)

(** [updatedMNs] and [removedMns] are ordered containers: lists in the order of the keys *)
Record CDeterministicMNListDiff := mkListDiff {
  addedMNs : list CDeterministicMN;
  updatedMNs : gmap Z CDeterministicMNStateDiff;
  removedMns : gset Z;
}.
Definition HasChanges (d : CDeterministicMNListDiff) : bool :=
  negb (bool_decide (addedMNs d = []) && bool_decide (updatedMNs d = ∅) && bool_decide (removedMns d = ∅)).

(** [sort_ids] is [std::sort] by internal identifiers.  A node whose pointers are the same in both lists has no
    differing field, so only the fields are compared.  The assertions of [GetInternalId] hold for nodes of a list. *)
Context (sort_ids : list CDeterministicMN -> list CDeterministicMN).
Definition BuildDiff (from to : L) : CDeterministicMNListDiff :=
  let added := filter (λ toPtr, GetMN from (proTxHash toPtr) = None) (nodes to) in
  let updated := foldl (λ m toPtr,
    match GetMN from (proTxHash toPtr) with
    | None => m
    | Some fromPtr =>
        let stateDiff := CDeterministicMNStateDiff_of (pdmnState fromPtr) (pdmnState toPtr) in
        if fields stateDiff =? 0 then m else emplace (internalId toPtr) stateDiff m
    end) ∅ (nodes to) in
  let removed := foldl (λ s fromPtr,
    match GetMN to (proTxHash fromPtr) with None => {[internalId fromPtr]} ∪ s | Some _ => s end) ∅ (nodes from) in
  mkListDiff (sort_ids added) updated removed.

(** the entries of a [std::map] and a [std::set] in order *)
Definition ids_in_order (s : gset Z) : list Z := merge_sort Z.le (elements s).
Definition ApplyDiff (pindex_hash : list Z) (pindex_nHeight : Z) (diff : CDeterministicMNListDiff) (l : L) : result L :=
  match (
    _ ← each (λ id : Z, λ result, match GetMNByInternalId result id with
              | None => (Throw "ApplyDiff: can't find a removed smartnode", result)
              | Some dmn => RemoveMN (proTxHash dmn) result
              end) (ids_in_order (removedMns diff));
    _ ← each (λ dmn, AddMN dmn true) (addedMNs diff);
    each (λ p : Z * CDeterministicMNStateDiff, λ result, UpdateMN_diff (GetMNByInternalId result p.1) p.2 result) (ordered_elements Z.le (updatedMNs diff)))
    (SetHeight pindex_nHeight (SetBlockHash pindex_hash l))
  with (Ok _, result) => Ok result | (Throw e, _) => Throw e end.
End mn_list.
