(* ===== verification/MNListLaws.v ===== *)
(** * The list of smartnodes: the unique properties, and what adding, updating and removing do *)

From stdpp Require Import sorting.
From S2P Require Import Prelude Bytes Streams Serialize SerializeLaws SerializeCodecs ShaSpec Sha256 Sha256Laws Hash Uint256 ArithUint256 Transaction Coins NetAddress NetAddressLaws StdContainers LruCache SpentIndex Bls ProviderTx MNState MNList.

(** ** Claims on properties

    A map of unique properties is right for a family of claims [f] (the properties of each node, by its hash) when it has every
    claimed property, with its one owner and the number of times it is claimed. *)

#[local] Abbreviation hmap := (gmap (list Z) (list Z * Z)).

Definition occ (h : list Z) (l : list (list Z)) : nat := length (filter (λ x, x = h) l).

Lemma occ_cons h x l : occ h (x :: l) = ((if decide (x = h) then 1 else 0) + occ h l)%nat.
Proof. unfold occ. rewrite filter_cons. by destruct (decide (x = h)). Qed.
Lemma occ_app h l k : occ h (l ++ k) = (occ h l + occ h k)%nat.
Proof. unfold occ. by rewrite filter_app, length_app. Qed.
Lemma occ_in h l : (0 < occ h l)%nat <-> h ∈ l.
Proof.
  induction l as [|x l IH]; [split; [unfold occ; simpl; lia|by intros ?%elem_of_nil]|]. rewrite occ_cons, elem_of_cons.
  destruct (decide (x = h)) as [->|]; [split; [by left|lia]|]. rewrite Nat.add_0_l, IH. naive_solver.
Qed.
Lemma occ_out h l : occ h l = 0%nat <-> h ∉ l.
Proof. rewrite <- occ_in. lia. Qed.
Lemma occ_perm h l k : l ≡ₚ k -> occ h l = occ h k.
Proof. unfold occ. intros E. by rewrite E. Qed.
Lemma occ_length h l : (occ h l <= length l)%nat.
Proof. unfold occ. apply length_filter. Qed.

Definition claims : Type := list Z -> list (list Z).
Definition set_claim (p : list Z) (l : list (list Z)) (f : claims) : claims := λ q, if decide (q = p) then l else f q.
Lemma set_claim_eq p l f : set_claim p l f p = l.
Proof. unfold set_claim. by rewrite decide_True. Qed.
Lemma set_claim_ne p q l f : q <> p -> set_claim p l f q = f q.
Proof. intros. unfold set_claim. by rewrite decide_False. Qed.

(** nobody but [p] claims [h] *)
Definition free_for (f : claims) (p h : list Z) : Prop := forall q, q <> p -> h ∉ f q.

Definition cell (f : claims) (h : list Z) (o : option (list Z * Z)) : Prop :=
  match o with
  | Some (p, c) => Z.of_nat (occ h (f p)) = c /\ 0 < c /\ free_for f p h
  | None => forall q, h ∉ f q
  end.
Definition Uniq (f : claims) (m : hmap) : Prop := forall h, cell f h (m !! h).

Lemma cell_ext f g h o : (forall q, occ h (f q) = occ h (g q)) -> cell f h o -> cell g h o.
Proof.
  intros E. unfold cell, free_for. destruct o as [[p c]|]; setoid_rewrite <- occ_out; [rewrite <- (E p)|]; setoid_rewrite E; done.
Qed.
Lemma Uniq_ext f g m : (forall q, f q ≡ₚ g q) -> Uniq f m -> Uniq g m.
Proof. intros E HU h. apply (cell_ext f); [|done]. intros q. by apply occ_perm. Qed.
Lemma Uniq_alter f g m h o : Uniq f m -> (forall h' q, h' <> h -> occ h' (f q) = occ h' (g q)) -> cell g h o -> Uniq g (partial_alter (λ _, o) h m).
Proof.
  intros HU E Ho h'. destruct (decide (h' = h)) as [->|Hne]; [by rewrite lookup_partial_alter_eq|].
  rewrite lookup_partial_alter_ne by done. apply (cell_ext f); [|done]. intros q. by apply E.
Qed.

(** the two operations without the test for the null value *)
Definition add1 (p h : list Z) (m : hmap) : option hmap :=
  match m !! h with
  | Some old => if negb (bool_decide (old.1 = p)) then None else Some (<[h := (p, u32 (old.2 + 1))]> m)
  | None => Some (<[h := (p, 1)]> m)
  end.
Definition del1 (p h : list Z) (m : hmap) : option hmap :=
  match m !! h with
  | Some e => if negb (bool_decide (e.1 = p)) then None else if e.2 =? 1 then Some (delete h m) else Some (<[h := (p, u32 (e.2 - 1))]> m)
  | None => None
  end.

Lemma occ_set_claim p h l f : (forall h', h' <> h -> occ h' (f p) = occ h' l) -> forall h' q, h' <> h -> occ h' (f q) = occ h' (set_claim p l f q).
Proof. intros E h' q Hh. destruct (decide (q = p)) as [->|]; [rewrite set_claim_eq; by apply E|by rewrite set_claim_ne]. Qed.

Lemma add1_spec f m p h : Uniq f m -> length (f p) < 2 ^ 31 ->
  match add1 p h m with
  | Some m' => free_for f p h /\ Uniq (set_claim p (h :: f p) f) m'
  | None => ~ free_for f p h
  end.
Proof.
  intros HU Hl. pose proof (HU h) as Hh. pose proof (occ_length h (f p)).
  assert (forall c, free_for f p h -> Z.of_nat (occ h (f p)) = c -> Uniq (set_claim p (h :: f p) f) (<[h := (p, c + 1)]> m)) as HUi.
  { intros c Hf Hc. apply (Uniq_alter f); [done| |].
    - apply occ_set_claim. intros h' Hne. by rewrite occ_cons, decide_False.
    - cbn. rewrite set_claim_eq, occ_cons, decide_True by done. split_and!; [lia..|]. intros q Hq. rewrite set_claim_ne by done. by apply Hf. }
  unfold add1. destruct (m !! h) as [[p' c]|]; cbn in Hh |- *.
  - destruct Hh as (Hc & Hpos & Hq). case_bool_decide as Hp; cbn [negb].
    + subst p'. split; [done|]. rewrite uint_small by (unfold in_uint; lia). by apply HUi.
    + intros Hf. specialize (Hf p' Hp). apply occ_out in Hf. lia.
  - split; [intros q _; apply Hh|]. apply (HUi 0); [intros q _; apply Hh|]. by rewrite (proj2 (occ_out h (f p))).
Qed.

Lemma del1_spec f m p h rest : Uniq f m -> length (f p) < 2 ^ 31 -> f p ≡ₚ h :: rest ->
  exists m', del1 p h m = Some m' /\ Uniq (set_claim p rest f) m'.
Proof.
  intros HU Hl E. pose proof (HU h) as Hh. pose proof (occ_length h (f p)).
  assert (occ h (f p) = S (occ h rest)) as Ho by (rewrite (occ_perm _ _ _ E), occ_cons, decide_True; done).
  assert (forall h', h' <> h -> occ h' (f p) = occ h' rest) as Ho' by (intros h' Hne; rewrite (occ_perm _ _ _ E), occ_cons, decide_False; done).
  unfold del1. destruct (m !! h) as [[p' c]|]; cbn in Hh |- *.
  - destruct Hh as (Hc & Hpos & Hq). assert (p' = p) as ->.
    { destruct (decide (p' = p)) as [|Hne]; [done|]. specialize (Hq p (not_eq_sym Hne)). apply occ_out in Hq. lia. }
    rewrite bool_decide_true by done. cbn [negb]. destruct (Z.eqb_spec c 1) as [->|Hc1].
    + exists (delete h m). split; [done|]. apply (Uniq_alter f); [done|by apply occ_set_claim|]. cbn. intros q.
      destruct (decide (q = p)) as [->|]; [rewrite set_claim_eq; apply occ_out; lia|]. rewrite set_claim_ne by done. by apply Hq.
    + eexists. split; [done|]. apply (Uniq_alter f); [done|by apply occ_set_claim|]. cbn. rewrite set_claim_eq, uint_small by (unfold in_uint; lia).
      split_and!; [lia..|]. intros q Hne. rewrite set_claim_ne by done. by apply Hq.
  - specialize (Hh p). apply occ_out in Hh. lia.
Qed.

(** several at once *)
Fixpoint adds (p : list Z) (hs : list (list Z)) (m : hmap) : option hmap :=
  match hs with [] => Some m | h :: hs => m ← add1 p h m; adds p hs m end.
Fixpoint dels (p : list Z) (hs : list (list Z)) (m : hmap) : option hmap :=
  match hs with [] => Some m | h :: hs => m ← del1 p h m; dels p hs m end.

Lemma free_set_claim f p l h : free_for (set_claim p l f) p h <-> free_for f p h.
Proof. split; intros H q Hq; specialize (H q Hq); [by rewrite set_claim_ne in H|by rewrite set_claim_ne]. Qed.
Lemma set_claim_twice p l k f q : set_claim p l (set_claim p k f) q = set_claim p l f q.
Proof. unfold set_claim. by destruct (decide (q = p)). Qed.

Lemma adds_spec f m p hs : Uniq f m -> (length (f p) + length hs)%nat < 2 ^ 31 ->
  match adds p hs m with
  | Some m' => (forall h, h ∈ hs -> free_for f p h) /\ Uniq (set_claim p (hs ++ f p) f) m'
  | None => ~ (forall h, h ∈ hs -> free_for f p h)
  end.
Proof.
  revert f m. induction hs as [|h hs IH]; intros f m HU Hl.
  - cbn. split; [by intros ? ?%elem_of_nil|]. eapply Uniq_ext; [|exact HU]. intros q. destruct (decide (q = p)) as [->|]; [by rewrite set_claim_eq|by rewrite set_claim_ne].
  - cbn [adds length] in *. pose proof (add1_spec f m p h HU ltac:(lia)) as Ha. destruct (add1 p h m) as [m1|]; cbn; [|by intros H; apply Ha, H; left].
    destruct Ha as [Hf HU1]. specialize (IH _ m1 HU1). rewrite set_claim_eq in IH. specialize (IH ltac:(simpl; lia)).
    destruct (adds p hs m1) as [m2|].
    + destruct IH as [IH1 IH2]. split.
      * intros h' [->|Hin]%elem_of_cons; [done|]. by eapply free_set_claim, IH1.
      * eapply Uniq_ext; [|exact IH2]. intros q. rewrite set_claim_twice. unfold set_claim. destruct (decide (q = p)); [|done]. symmetry. apply Permutation_middle.
    + intros H. apply IH. intros h' Hin. apply free_set_claim, H. by right.
Qed.

Lemma dels_spec f m p hs rest : Uniq f m -> length (f p) < 2 ^ 31 -> f p ≡ₚ hs ++ rest -> exists m', dels p hs m = Some m' /\ Uniq (set_claim p rest f) m'.
Proof.
  revert f m. induction hs as [|h hs IH]; intros f m HU Hl E.
  - exists m. split; [done|]. eapply Uniq_ext; [|exact HU]. intros q. destruct (decide (q = p)) as [->|]; [by rewrite set_claim_eq|by rewrite set_claim_ne].
  - cbn [dels app] in *. destruct (del1_spec f m p h (hs ++ rest) HU Hl E) as (m1 & -> & HU1). cbn.
    pose proof (Permutation_length E) as HE. simpl in HE.
    destruct (IH _ m1 HU1) as (m2 & -> & HU2); [rewrite set_claim_eq; lia|by rewrite set_claim_eq|]. exists m2. split; [done|].
    eapply Uniq_ext; [|exact HU2]. intros q. by rewrite set_claim_twice.
Qed.

(** ** The properties of a node *)

(** Services that were read from a stream are equal when the code says so. *)
Definition service_ok (s : CService) : Prop := plain (svc_addr s) /\ in_uint 16 (port s).
Lemma CService_eqb_spec a b : service_ok a -> service_ok b -> CService_eqb a b = true <-> a = b.
Proof.
  intros [[Ha Sa] _] [[Hb Sb] _]. destruct (service_compare a b Ha Hb) as [_ ->]. destruct Ha as (Ha & _), Hb as (Hb & _).
  rewrite Z.eqb_eq, Compare_eq by (unfold service_key; simpl; rewrite !length_app, Ha, Hb; done).
  destruct a as [[m i sc] p], b as [[m' i' sc'] p']. unfold service_key. cbn in *. split.
  - intros [= ->%net_value_inj E]. apply app_inj_2 in E as [-> [= ->]]; [by subst|done].
  - by intros [= -> -> -> ->].
Qed.
Lemma CService_new_ok : service_ok CService_new.
Proof.
  split; [split; [|done]|unfold in_uint; cbn; lia]. split; [done|]. split; [by apply Forall_replicate|]. split; [unfold in_uint; cbn; lia|done].
Qed.

Section laws.
Context (D : Sha256.dispatch) `{HD : !GoodDispatch D} `{HK : !BlsImpl BLS_CURVE_PUBKEY_SIZE} `{HKL : !BlsImplLaws BLS_CURVE_PUBKEY_SIZE}.
#[local] Abbreviation L := CDeterministicMNList.
Arguments p_eqb {T}. Arguments p_null {T}.

Definition prop_list {T} (p : property T) (v : T) : list (list Z) := if is_null p v then [] else [prop_hash D p v].
Definition props (dmn : CDeterministicMN) : list (list Z) :=
  prop_list prop_outpoint (collateralOutpoint dmn) ++ prop_list prop_addr (addr (pdmnState dmn)) ++
  prop_list prop_keyid (keyIDOwner (pdmnState dmn)) ++ prop_list prop_pubkey (pubKeyOperator (pdmnState dmn)).

Record state_ok (st : CDeterministicMNState) : Prop := {
  st_owner : keyIDOwner st <> null_key;
  st_addr : service_ok (addr st);
  st_operator : canonical (pubKeyOperator st);
}.
Record node_ok (dmn : CDeterministicMN) : Prop := {
  node_collateral : collateralOutpoint dmn <> COutPoint_default /\ length (hash (collateralOutpoint dmn)) = 32%nat;
  node_id : in_uint 64 (internalId dmn) /\ internalId dmn <> NO_ID;
  node_hash : length (proTxHash dmn) = 32%nat;
  node_state : state_ok (pdmnState dmn);
}.

Lemma prop_list_length {T} (p : property T) v : (length (prop_list p v) <= 1)%nat.
Proof. unfold prop_list. destruct (is_null p v); simpl; lia. Qed.
Lemma props_length dmn : (length (props dmn) <= 4)%nat.
Proof.
  unfold props. rewrite !length_app. pose proof (prop_list_length prop_outpoint (collateralOutpoint dmn)). pose proof (prop_list_length prop_addr (addr (pdmnState dmn))).
  pose proof (prop_list_length prop_keyid (keyIDOwner (pdmnState dmn))). pose proof (prop_list_length prop_pubkey (pubKeyOperator (pdmnState dmn))). lia.
Qed.

Lemma AddUniqueProperty_add1 {T} (p : property T) dmn v m : AddUniqueProperty D p dmn v m = if is_null p v then None else add1 (proTxHash dmn) (prop_hash D p v) m.
Proof. reflexivity. Qed.
Lemma DeleteUniqueProperty_del1 {T} (p : property T) dmn v m : DeleteUniqueProperty D p dmn v m = if is_null p v then None else del1 (proTxHash dmn) (prop_hash D p v) m.
Proof. reflexivity. Qed.

Lemma has_operator_spec st : canonical (pubKeyOperator st) -> has_operator st = negb (is_null prop_pubkey (pubKeyOperator st)).
Proof.
  intros Hc%canonical_spec. unfold has_operator, is_null.
  change (p_eqb prop_pubkey (pubKeyOperator st) (p_null prop_pubkey)) with (bool_decide (pubKeyOperator st = null_pubkey)).
  unfold ToByteVector in Hc. unfold bls_IsValid. destruct (bls_impl (lazy_get (pubKeyOperator st))).
  - rewrite bool_decide_false; [done|]. rewrite Hc. apply impl_nonzero.
  - by rewrite bool_decide_true.
Qed.

Lemma not_null_outpoint dmn : node_ok dmn -> is_null prop_outpoint (collateralOutpoint dmn) = false.
Proof. intros [[Hc _] _ _ _]. unfold is_null. cbn. by apply bool_decide_eq_false. Qed.
Lemma not_null_owner st : state_ok st -> is_null prop_keyid (keyIDOwner st) = false.
Proof. intros [Hc _ _]. unfold is_null. cbn. by apply bool_decide_eq_false. Qed.
Lemma has_addr_spec st : has_addr st = negb (is_null prop_addr (addr st)).
Proof. reflexivity. Qed.

(** the methods do one property after the other, and throw at the first that fails *)
Definition agree (r : result hmap) (o : option hmap) : Prop := match r with Ok m => o = Some m | Throw _ => o = None end.
Lemma agree_step (op : list Z -> list (list Z) -> hmap -> option hmap) (p : list Z) (hs hs' : list (list Z)) (m : hmap) (o : option hmap) (e : string) (k : hmap -> result hmap) :
  (forall (l l' : list (list Z)) (m : hmap), op p (l ++ l') m = op p l m ≫= op p l') -> o = op p hs m -> (forall m, agree (k m) (op p hs' m)) ->
  agree (match o with None => Throw e | Some m => k m end) (op p (hs ++ hs') m).
Proof. intros Happ -> Hk. rewrite Happ. destruct (op p hs m); [apply Hk|done]. Qed.
Lemma agree_last (o : option hmap) (o' : option hmap) (e : string) : o = o' -> agree (or_throw o e) o'.
Proof. intros ->. by destruct o'. Qed.
Lemma adds_app p l l' m : adds p (l ++ l') m = adds p l m ≫= adds p l'.
Proof. revert m. induction l as [|h l IH]; intros m; [done|]. cbn [app adds]. destruct (add1 p h m); [apply IH|done]. Qed.
Lemma dels_app p l l' m : dels p (l ++ l') m = dels p l m ≫= dels p l'.
Proof. revert m. induction l as [|h l IH]; intros m; [done|]. cbn [app dels]. destruct (del1 p h m); [apply IH|done]. Qed.

Lemma add_prop {T} (p : property T) dmn v m (b : bool) : b = negb (is_null p v) ->
  (if b then AddUniqueProperty D p dmn v m else Some m) = adds (proTxHash dmn) (prop_list p v) m.
Proof. intros ->. rewrite AddUniqueProperty_add1. unfold prop_list. destruct (is_null p v); [done|]. cbn. by destruct (add1 _ _ m). Qed.
Lemma del_prop {T} (p : property T) dmn v m (b : bool) : b = negb (is_null p v) ->
  (if b then DeleteUniqueProperty D p dmn v m else Some m) = dels (proTxHash dmn) (prop_list p v) m.
Proof. intros ->. rewrite DeleteUniqueProperty_del1. unfold prop_list. destruct (is_null p v); [done|]. cbn. by destruct (del1 _ _ m). Qed.

Lemma AddMN_unique_adds dmn m : node_ok dmn -> agree (AddMN_unique D dmn m) (adds (proTxHash dmn) (props dmn) m).
Proof.
  intros Hok. pose proof (node_state dmn Hok) as Hst.
  apply agree_step; [apply adds_app|apply (add_prop _ _ _ _ true); by rewrite not_null_outpoint|intros m1].
  apply agree_step; [apply adds_app|by apply add_prop|intros m2].
  apply agree_step; [apply adds_app|apply (add_prop _ _ _ _ true); by rewrite not_null_owner|intros m3].
  apply agree_last, add_prop, has_operator_spec, Hst.
Qed.
Lemma RemoveMN_unique_dels dmn m : node_ok dmn -> agree (RemoveMN_unique D dmn m) (dels (proTxHash dmn) (props dmn) m).
Proof.
  intros Hok. pose proof (node_state dmn Hok) as Hst.
  apply agree_step; [apply dels_app|apply (del_prop _ _ _ _ true); by rewrite not_null_outpoint|intros m1].
  apply agree_step; [apply dels_app|by apply del_prop|intros m2].
  apply agree_step; [apply dels_app|apply (del_prop _ _ _ _ true); by rewrite not_null_owner|intros m3].
  apply agree_last, del_prop, has_operator_spec, Hst.
Qed.

Lemma update1_spec {T} (p : property T) f dmn old new rest m :
  let q := proTxHash dmn in
  Uniq f m -> f q ≡ₚ prop_list p old ++ rest -> (length (f q) <= 4)%nat -> (p_eqb p old new = true -> old = new) ->
  match UpdateUniqueProperty D p dmn old new m with
  | Some m' => (forall h, h ∈ prop_list p new -> free_for f q h) /\ Uniq (set_claim q (prop_list p new ++ rest) f) m'
  | None => ~ (forall h, h ∈ prop_list p new -> free_for f q h)
  end.
Proof.
  intros q HU E Hl Heq. unfold UpdateUniqueProperty. destruct (p_eqb p old new) eqn:Ee.
  - rewrite <- (Heq eq_refl). split.
    + intros h Hin r Hr Hh. assert (h ∈ f q) as Hq by (rewrite E; apply elem_of_app; by left). apply occ_in in Hq.
      pose proof (HU h) as Hc. destruct (m !! h) as [[p' c]|]; cbn in Hc; [|by apply (Hc r)].
      destruct Hc as (Hc & _ & Hf). destruct (decide (q = p')) as [->|Hne]; [by apply (Hf r)|]. apply (Hf q) in Hne. apply occ_in in Hq. done.
    + eapply Uniq_ext; [|exact HU]. intros r. destruct (decide (r = q)) as [->|]; [by rewrite set_claim_eq|by rewrite set_claim_ne].
  - rewrite DeleteUniqueProperty_del1. unfold prop_list in *.
    assert (exists m1, (if negb (is_null p old) then (if is_null p old then None else del1 (proTxHash dmn) (prop_hash D p old) m) else Some m) = Some m1 /\ Uniq (set_claim q rest f) m1) as (m1 & -> & HU1).
    { destruct (is_null p old); cbn [negb app] in *.
      - exists m. split; [done|]. eapply Uniq_ext; [|exact HU]. intros r. destruct (decide (r = q)) as [->|]; [by rewrite set_claim_eq|by rewrite set_claim_ne].
      - apply (del1_spec f m q (prop_hash D p old) rest HU); [lia|done]. }
    rewrite AddUniqueProperty_add1. destruct (is_null p new); cbn [negb app].
    + split; [by intros ? ?%elem_of_nil|done].
    + pose proof (Permutation_length E) as HE. rewrite length_app in HE.
      pose proof (add1_spec _ m1 q (prop_hash D p new) HU1) as Ha. rewrite set_claim_eq in Ha. specialize (Ha ltac:(lia)).
      fold q. destruct (add1 q (prop_hash D p new) m1) as [m2|].
      * destruct Ha as [Hf HU2]. split; [intros h ->%list_elem_of_singleton; by eapply free_set_claim|].
        eapply Uniq_ext; [|exact HU2]. intros r. by rewrite set_claim_twice.
      * intros H. apply Ha, free_set_claim, H. by left.
Qed.

(** ** Well-formed lists *)

Definition claims_of (m : gmap (list Z) CDeterministicMN) : claims := λ q, match m !! q with Some dmn => props dmn | None => [] end.

(** The three maps agree: every node is under its hash and its identifier, and the unique properties are those of the nodes. *)
Record list_ok (l : L) : Prop := {
  list_node k dmn : mnMap l !! k = Some dmn -> proTxHash dmn = k /\ node_ok dmn /\ mnInternalIdMap l !! internalId dmn = Some k;
  list_ids id k : mnInternalIdMap l !! id = Some k -> exists dmn, mnMap l !! k = Some dmn /\ internalId dmn = id;
  list_unique : Uniq (claims_of (mnMap l)) (mnUniquePropertyMap l);
}.

(** no other node has one of the properties *)
Definition available (m : gmap (list Z) CDeterministicMN) (dmn : CDeterministicMN) : Prop :=
  forall h, h ∈ props dmn -> free_for (claims_of m) (proTxHash dmn) h.
Lemma available_spec m dmn : available m dmn <-> forall q o, m !! q = Some o -> q <> proTxHash dmn -> props dmn ## props o.
Proof.
  unfold available, free_for, claims_of. split.
  - intros H q o Hq Hne h H1 H2. specialize (H h H1 q Hne). by rewrite Hq in H.
  - intros H h Hh q Hne. destruct (m !! q) as [o|] eqn:E; [|apply not_elem_of_nil]. intros H2. by apply (H q o E Hne h).
Qed.

Lemma claims_insert m dmn q : set_claim (proTxHash dmn) (props dmn) (claims_of m) q = claims_of (<[proTxHash dmn := dmn]> m) q.
Proof.
  unfold set_claim, claims_of. destruct (decide (q = proTxHash dmn)) as [->|]; [by rewrite lookup_insert_eq|by rewrite lookup_insert_ne].
Qed.
Lemma claims_delete m k q : set_claim k [] (claims_of m) q = claims_of (delete k m) q.
Proof. unfold set_claim, claims_of. destruct (decide (q = k)) as [->|]; [by rewrite lookup_delete_eq|by rewrite lookup_delete_ne]. Qed.

Lemma list_ok_new : list_ok CDeterministicMNList_new.
Proof. split; [intros ?? H; cbn in H; by rewrite lookup_empty in H..|intros h]. cbn. rewrite lookup_empty. intros q. unfold claims_of. rewrite lookup_empty. apply not_elem_of_nil. Qed.

(** a list with other maps *)
Definition with_maps (l : L) (m : gmap (list Z) CDeterministicMN) (ids : gmap Z (list Z)) (u : hmap) (total : Z) : L :=
  mkMNList (blockHash l) (nHeight l) total m ids u.

Lemma AddMN_cases (dmn : CDeterministicMN) (fBump : bool) (l : L) : list_ok l -> node_ok dmn ->
  let good := mnMap l !! proTxHash dmn = None /\ mnInternalIdMap l !! internalId dmn = None /\ available (mnMap l) dmn in
  match AddMN D dmn fBump l with
  | (Ok _, l') => good /\ list_ok l' /\ exists u, l' = with_maps l (<[proTxHash dmn := dmn]> (mnMap l)) (<[internalId dmn := proTxHash dmn]> (mnInternalIdMap l)) u
      (if fBump then u32 (Z.max (u64 (internalId dmn + 1)) (nTotalRegisteredCount l)) else nTotalRegisteredCount l)
  | (Throw _, l') => l' = l /\ ~ good
  end.
Proof.
  intros Hl Hd good. unfold AddMN. destruct (mnMap l !! proTxHash dmn) as [o|] eqn:E1; [split; [done|by intros [? _]]|].
  unfold GetInternalId. rewrite (proj2 (Z.eqb_neq _ _) (proj2 (node_id dmn Hd))).
  destruct (mnInternalIdMap l !! internalId dmn) as [o|] eqn:E2; [split; [done|by intros (_ & ? & _)]|].
  pose proof (AddMN_unique_adds dmn (mnUniquePropertyMap l) Hd) as Ha. pose proof (props_length dmn).
  assert (claims_of (mnMap l) (proTxHash dmn) = []) as Hnil by (unfold claims_of; by rewrite E1).
  pose proof (adds_spec _ _ (proTxHash dmn) (props dmn) (list_unique l Hl)) as Hs. rewrite Hnil in Hs. specialize (Hs ltac:(simpl; lia)).
  destruct (AddMN_unique D dmn _) as [u|e]; cbn in Ha; rewrite Ha in Hs.
  - destruct Hs as [Hav HU]. split; [done|]. split; [|exists u; by destruct fBump].
    assert (list_ok (with_maps l (<[proTxHash dmn := dmn]> (mnMap l)) (<[internalId dmn := proTxHash dmn]> (mnInternalIdMap l)) u
      (if fBump then u32 (Z.max (u64 (internalId dmn + 1)) (nTotalRegisteredCount l)) else nTotalRegisteredCount l))) as Hok; [|by destruct fBump].
    split; cbn [with_maps mnMap mnInternalIdMap mnUniquePropertyMap].
    + intros k o. rewrite lookup_insert_Some. intros [[<- <-]|[Hne H1]]; [by rewrite lookup_insert_eq|].
      destruct (list_node l Hl _ _ H1) as (H2 & H3 & H4). split_and!; [done..|]. rewrite lookup_insert_ne; [done|]. intros He. rewrite He in E2. congruence.
    + intros id k. rewrite lookup_insert_Some. intros [[<- <-]|[Hne H1]]; [exists dmn; by rewrite lookup_insert_eq|].
      destruct (list_ids l Hl _ _ H1) as (o & H2 & H3). exists o. split; [|done]. rewrite lookup_insert_ne; [done|]. congruence.
    + eapply Uniq_ext; [|exact HU]. intros q. rewrite app_nil_r. by rewrite claims_insert.
  - split; [done|]. intros (_ & _ & Hav). by apply Hs.
Qed.

Lemma UpdateMN_unique_cases (f : claims) (oldDmn : CDeterministicMN) (st : CDeterministicMNState) (m : hmap) :
  let p := proTxHash oldDmn in
  Uniq f m -> f p = props oldDmn -> node_ok oldDmn -> state_ok st ->
  match UpdateMN_unique D (set_state st oldDmn) (pdmnState oldDmn) st m with
  | Ok m' => (forall h, h ∈ props (set_state st oldDmn) -> free_for f p h) /\ Uniq (set_claim p (props (set_state st oldDmn)) f) m'
  | Throw _ => ~ (forall h, h ∈ props (set_state st oldDmn) -> free_for f p h)
  end.
Proof.
  intros p HU Hf Ho Hst. pose proof (node_state _ Ho) as Hos. set (dmn := set_state st oldDmn). set (old := pdmnState oldDmn).
  unfold props in *. cbn [set_state collateralOutpoint pdmnState] in *. fold old in Hf.
  set (Pc := prop_list prop_outpoint (collateralOutpoint oldDmn)) in *.
  set (Pa := prop_list prop_addr (addr old)) in *. set (Pk := prop_list prop_keyid (keyIDOwner old)) in *. set (Po := prop_list prop_pubkey (pubKeyOperator old)) in *.
  set (Na := prop_list prop_addr (addr st)). set (Nk := prop_list prop_keyid (keyIDOwner st)). set (No := prop_list prop_pubkey (pubKeyOperator st)).
  assert ((length Pc <= 1 /\ length Pa <= 1 /\ length Pk <= 1 /\ length Po <= 1 /\ length Na <= 1 /\ length Nk <= 1)%nat) as (Lc & La & Lk & Lo & Na' & Nk') by (split_and!; apply prop_list_length).
  assert (forall h, h ∈ Pc -> free_for f p h) as Hcoll.
  { intros h Hin r Hr Hh. pose proof (HU h) as Hc. assert (h ∈ f p) as Hp by (rewrite Hf, elem_of_app; by left). destruct (m !! h) as [[p' c]|]; cbn in Hc; [|by apply (Hc p)].
    destruct Hc as (_ & _ & Hc). destruct (decide (p = p')) as [->|Hne]; [by apply (Hc r)|by apply (Hc p)]. }
  unfold UpdateMN_unique. fold old.
  pose proof (update1_spec prop_addr f dmn (addr old) (addr st) (Pc ++ Pk ++ Po) m HU) as H1. change (proTxHash dmn) with p in H1.
  specialize (H1 ltac:(rewrite Hf; fold Pa; solve_Permutation) ltac:(rewrite Hf, !length_app; lia) (λ E, proj1 (CService_eqb_spec _ _ (st_addr _ Hos) (st_addr _ Hst)) E)).
  destruct (UpdateUniqueProperty D prop_addr dmn (addr old) (addr st) m) as [m1|]; [|intros H; apply H1; intros h Hh; apply H; rewrite !elem_of_app; auto].
  destruct H1 as [F1 U1]. fold Na in F1, U1.
  pose proof (update1_spec prop_keyid _ dmn (keyIDOwner old) (keyIDOwner st) (Pc ++ Na ++ Po) m1 U1) as H2. change (proTxHash dmn) with p in H2.
  rewrite set_claim_eq in H2. specialize (H2 ltac:(fold Pk; solve_Permutation) ltac:(rewrite !length_app; lia) ltac:(intros E; by apply bool_decide_eq_true in E)).
  destruct (UpdateUniqueProperty D prop_keyid dmn _ _ m1) as [m2|].
  2:{ intros H. apply H2. intros h Hh. apply free_set_claim, H. rewrite !elem_of_app. auto. }
  destruct H2 as [F2 U2]. fold Nk in F2, U2.
  pose proof (update1_spec prop_pubkey _ dmn (pubKeyOperator old) (pubKeyOperator st) (Pc ++ Na ++ Nk) m2 U2) as H3. change (proTxHash dmn) with p in H3.
  rewrite set_claim_eq in H3. specialize (H3 ltac:(fold Po; solve_Permutation) ltac:(rewrite !length_app; lia) ltac:(intros E; by apply bool_decide_eq_true in E)).
  destruct (UpdateUniqueProperty D prop_pubkey dmn _ _ m2) as [m3|]; cbn [or_throw].
  - destruct H3 as [F3 U3]. fold No in F3, U3. split.
    + intros h. rewrite !elem_of_app. intros [H|[H|[H|H]]]; [by apply Hcoll|by apply F1|by apply free_set_claim with (l := Na ++ Pc ++ Pk ++ Po), F2|].
      specialize (F3 h H). by rewrite !free_set_claim in F3.
    + eapply Uniq_ext; [|exact U3]. intros q. unfold set_claim. destruct (decide (q = p)); [|done]. solve_Permutation.
  - intros H. apply H3. intros h Hh. apply free_set_claim, free_set_claim, H. rewrite !elem_of_app. auto.
Qed.

(** updating a node that is in the list, through its pointer *)
Lemma UpdateMN_node_cases (oldDmn : CDeterministicMN) (st : CDeterministicMNState) (l : L) :
  list_ok l -> state_ok st -> mnMap l !! proTxHash oldDmn = Some oldDmn ->
  match UpdateMN_node D oldDmn st l with
  | (Ok _, l') => available (mnMap l) (set_state st oldDmn) /\ list_ok l' /\
      exists u, l' = with_maps l (<[proTxHash oldDmn := set_state st oldDmn]> (mnMap l)) (mnInternalIdMap l) u (nTotalRegisteredCount l)
  | (Throw _, l') => l' = l /\ ~ available (mnMap l) (set_state st oldDmn)
  end.
Proof.
  intros Hl Hst E. destruct (list_node l Hl _ _ E) as (_ & Hok & Hid).
  pose proof (UpdateMN_unique_cases (claims_of (mnMap l)) oldDmn st (mnUniquePropertyMap l) (list_unique l Hl)) as Hu. cbn zeta in Hu.
  specialize (Hu ltac:(unfold claims_of; by rewrite E) Hok Hst). unfold UpdateMN_node, available. cbn zeta.
  destruct (UpdateMN_unique D _ _ _ _) as [u|e]; [|done]. destruct Hu as [Hav HU]. split; [done|].
  set (m' := <[proTxHash oldDmn := set_state st oldDmn]> (mnMap l)).
  assert (list_ok (with_maps l m' (mnInternalIdMap l) u (nTotalRegisteredCount l))) as Hok'; [|split; [exact Hok'|by exists u]].
  split; unfold m'; cbn [with_maps mnMap mnInternalIdMap mnUniquePropertyMap].
  - intros k o. rewrite lookup_insert_Some. intros [[<- <-]|[Hne H1]]; [|by apply (list_node l Hl)].
    split; [done|]. split; [|exact Hid]. destruct Hok. by split.
  - intros id k Hk. destruct (list_ids l Hl _ _ Hk) as (o & H2 & H3). destruct (decide (k = proTxHash oldDmn)) as [->|Hne].
    + rewrite E in H2. injection H2 as <-. exists (set_state st oldDmn). by rewrite lookup_insert_eq.
    + exists o. by rewrite lookup_insert_ne.
  - eapply Uniq_ext; [|exact HU]. intros q. pose proof (claims_insert (mnMap l) (set_state st oldDmn) q) as Ec. cbn [set_state proTxHash] in Ec. cbn [set_state proTxHash]. by rewrite Ec.
Qed.

Lemma UpdateMN_cases (k : list Z) (st : CDeterministicMNState) (l : L) : list_ok l -> state_ok st ->
  match UpdateMN D k st l with
  | (Ok _, l') => exists old, mnMap l !! k = Some old /\ available (mnMap l) (set_state st old) /\ list_ok l' /\
      exists u, l' = with_maps l (<[k := set_state st old]> (mnMap l)) (mnInternalIdMap l) u (nTotalRegisteredCount l)
  | (Throw _, l') => l' = l /\ forall old, mnMap l !! k = Some old -> ~ available (mnMap l) (set_state st old)
  end.
Proof.
  intros Hl Hst. unfold UpdateMN. destruct (mnMap l !! k) as [old|] eqn:E; [|split; [done|by intros ? ?]].
  destruct (list_node l Hl _ _ E) as (Hk & _ & _). subst k. pose proof (UpdateMN_node_cases old st l Hl Hst E) as Hc.
  destruct (UpdateMN_node D old st l) as [[[]|e] l'].
  - exists old. destruct Hc as (H1 & H2 & H3). done.
  - destruct Hc as [-> Hn]. split; [done|]. by intros ? [= <-].
Qed.

Lemma RemoveMN_cases (k : list Z) (l : L) : list_ok l ->
  match RemoveMN D k l with
  | (Ok _, l') => exists dmn, mnMap l !! k = Some dmn /\ list_ok l' /\
      exists u, l' = with_maps l (delete k (mnMap l)) (delete (internalId dmn) (mnInternalIdMap l)) u (nTotalRegisteredCount l)
  | (Throw _, l') => l' = l /\ mnMap l !! k = None
  end.
Proof.
  intros Hl. unfold RemoveMN, GetMN. destruct (mnMap l !! k) as [dmn|] eqn:E; [|done].
  destruct (list_node l Hl _ _ E) as (<- & Hok & Hid). set (k := proTxHash dmn) in *.
  assert (claims_of (mnMap l) k = props dmn) as Hf by (unfold claims_of; by rewrite E). pose proof (props_length dmn).
  destruct (dels_spec (claims_of (mnMap l)) (mnUniquePropertyMap l) k (props dmn) [] (list_unique l Hl)) as (u & Hu & HU);
    [rewrite Hf; lia|by rewrite Hf, app_nil_r|].
  pose proof (RemoveMN_unique_dels dmn (mnUniquePropertyMap l) Hok) as Ha. fold k in Ha. rewrite Hu in Ha.
  destruct (RemoveMN_unique D dmn _) as [u'|e]; [injection Ha as <-|done]. unfold GetInternalId. rewrite (proj2 (Z.eqb_neq _ _) (proj2 (node_id dmn Hok))).
  exists dmn. split; [done|].
  assert (list_ok (with_maps l (delete k (mnMap l)) (delete (internalId dmn) (mnInternalIdMap l)) u (nTotalRegisteredCount l))) as Hok'; [|split; [exact Hok'|by exists u]].
  split; cbn [with_maps mnMap mnInternalIdMap mnUniquePropertyMap].
  - intros q o. rewrite lookup_delete_Some. intros [Hne H1]. destruct (list_node l Hl _ _ H1) as (H2 & H3 & H4). split_and!; [done..|].
    rewrite lookup_delete_ne; [done|]. intros He. rewrite <- He in H4. congruence.
  - intros id q. rewrite lookup_delete_Some. intros [Hne H1]. destruct (list_ids l Hl _ _ H1) as (o & H2 & H3). exists o. split; [|done].
    rewrite lookup_delete_ne; [done|]. intros He. rewrite <- He in H2. congruence.
  - eapply Uniq_ext; [|exact HU]. intros q. by rewrite claims_delete.
Qed.

(** ** Looking nodes up by a property *)

Lemma unique_lookup (l : L) h : list_ok l ->
  match mnUniquePropertyMap l !! h with
  | Some e => exists dmn, mnMap l !! e.1 = Some dmn /\ h ∈ props dmn
  | None => forall k dmn, mnMap l !! k = Some dmn -> h ∉ props dmn
  end.
Proof.
  intros Hl. pose proof (list_unique l Hl h) as Hc. destruct (mnUniquePropertyMap l !! h) as [[p c]|]; cbn in Hc |- *.
  - destruct Hc as (Hc & Hpos & _). unfold claims_of in Hc. destruct (mnMap l !! p) as [dmn|] eqn:E; [|rewrite (proj2 (occ_out h [])) in Hc by apply not_elem_of_nil; lia]. exists dmn. split; [done|]. apply occ_in. lia.
  - intros k dmn E. specialize (Hc k). unfold claims_of in Hc. by rewrite E in Hc.
Qed.
(** two nodes with a common property are the same *)
Lemma unique_owner (l : L) k k' dmn dmn' h : list_ok l -> mnMap l !! k = Some dmn -> mnMap l !! k' = Some dmn' -> h ∈ props dmn -> h ∈ props dmn' -> k = k'.
Proof.
  intros Hl E E' H H'. destruct (decide (k = k')) as [|Hne]; [done|exfalso]. pose proof (list_unique l Hl h) as Hc.
  assert (forall q o, mnMap l !! q = Some o -> claims_of (mnMap l) q = props o) as Hf by (intros q o Hq; unfold claims_of; by rewrite Hq).
  destruct (mnUniquePropertyMap l !! h) as [[p c]|]; cbn in Hc; [|specialize (Hc k); rewrite (Hf _ _ E) in Hc; done].
  destruct Hc as (_ & _ & Hc). destruct (decide (k = p)) as [->|Hkp].
  - apply (Hc k'); [done|]. by rewrite (Hf _ _ E').
  - apply (Hc k); [done|]. by rewrite (Hf _ _ E).
Qed.
End laws.
