(* ===== verification/MNListProps.v ===== *)
(** * The list of smartnodes: its operations, penalties, payees and quorums *)

From stdpp Require Import sorting lexico.
From S2P Require Import Prelude Bytes Streams Serialize SerializeLaws SerializeCodecs ShaSpec Sha256 Sha256Laws Hash Uint256 ArithUint256 ArithLaws Transaction Coins NetAddress NetAddressLaws StdContainers LruCache SpentIndex Bls ProviderTx MNState MNList MNListLaws.

Section props.
Context (D : Sha256.dispatch) `{HD : !GoodDispatch D} `{HK : !BlsImpl BLS_CURVE_PUBKEY_SIZE} `{HKL : !BlsImplLaws BLS_CURVE_PUBKEY_SIZE}.
#[local] Abbreviation L := CDeterministicMNList.
#[local] Abbreviation list_ok := (list_ok D).
#[local] Abbreviation available := (available D).

(** ** States with the same properties *)

Definition same_props (a b : CDeterministicMNState) : Prop := addr a = addr b /\ keyIDOwner a = keyIDOwner b /\ pubKeyOperator a = pubKeyOperator b.
Lemma CService_eqb_refl a : CService_eqb a a = true.
Proof. unfold CService_eqb, CNetAddr_eqb. rewrite bool_decide_true, Compare_refl, !Z.eqb_refl by done. done. Qed.
Lemma same_props_ok a b : same_props a b -> state_ok a -> state_ok b.
Proof. intros (E1 & E2 & E3) [H1 H2 H3]. split; congruence. Qed.
Lemma same_props_props st dmn : same_props (pdmnState dmn) st -> props D (set_state st dmn) = props D dmn.
Proof. intros (E1 & E2 & E3). unfold props. cbn [set_state collateralOutpoint pdmnState]. by rewrite E1, E2, E3. Qed.

(** changing nothing that is unique leaves the map of properties as it is *)
Lemma UpdateMN_same (l : L) k old st : list_ok l -> mnMap l !! k = Some old -> same_props (pdmnState old) st ->
  UpdateMN D k st l = (Ok tt, set_mn (<[k := set_state st old]> (mnMap l)) l) /\ list_ok (set_mn (<[k := set_state st old]> (mnMap l)) l).
Proof.
  intros Hl E Hs. destruct (list_node D l Hl _ _ E) as (Hk & Hok & Hid).
  assert (UpdateMN D k st l = (Ok tt, set_mn (<[k := set_state st old]> (mnMap l)) l)) as Hu.
  { unfold UpdateMN. rewrite E. unfold UpdateMN_node, UpdateMN_unique, UpdateUniqueProperty. destruct Hs as (-> & -> & ->).
    cbn [p_eqb prop_addr prop_keyid prop_pubkey]. rewrite CService_eqb_refl, !bool_decide_true by done. cbn [or_throw]. rewrite Hk. by destruct l. }
  split; [done|]. pose proof (UpdateMN_cases D k st l Hl (same_props_ok _ _ Hs (node_state _ Hok))) as Hc. rewrite Hu in Hc.
  by destruct Hc as (? & _ & _ & ? & _).
Qed.

Lemma punished_same maxPenalty penalty h st : same_props st (punished maxPenalty penalty h st).
Proof. unfold punished, BanIfNotBanned. cbv zeta. by repeat case_match. Qed.

(** ** Operations *)

(** C6: Every operation keeps a list well-formed, whether it returns or throws: the maps of hashes, of identifiers
    and of unique properties always describe the same nodes. *)
Theorem list_invariant (l : L) (dmn : CDeterministicMN) (k : list Z) (st : CDeterministicMNState) (fBump : bool) (penalty : Z) (d : CDeterministicMNStateDiff) :
  list_ok l -> node_ok dmn -> state_ok st -> (forall old, mnMap l !! k = Some old -> state_ok (ApplyToState d (pdmnState old))) ->
  list_ok CDeterministicMNList_new /\ list_ok (AddMN D dmn fBump l).2 /\ list_ok (UpdateMN D k st l).2 /\ list_ok (RemoveMN D k l).2 /\
  list_ok (UpdateMN_diff D (GetMN l k) d l).2 /\ list_ok (PoSePunish D k penalty l).2 /\ list_ok (PoSeDecrease D k l).2.
Proof.
  intros Hl Hd Hst Hdiff. split; [apply list_ok_new|]. split; [|split; [|split; [|split; [|split]]]].
  - pose proof (AddMN_cases D dmn fBump l Hl Hd) as H. cbv zeta in H. destruct (AddMN D dmn fBump l) as [[[]|] l']; cbn [snd]; [apply H|by destruct H as [-> _]].
  - pose proof (UpdateMN_cases D k st l Hl Hst) as H. destruct (UpdateMN D k st l) as [[[]|] l']; cbn [snd]; [by destruct H as (? & _ & _ & H & _)|by destruct H as [-> _]].
  - pose proof (RemoveMN_cases D k l Hl) as H. destruct (RemoveMN D k l) as [[[]|] l']; cbn [snd]; [by destruct H as (? & _ & H & _)|by destruct H as [-> _]].
  - unfold GetMN, UpdateMN_diff. destruct (mnMap l !! k) as [old|] eqn:E; [|done]. destruct (list_node D l Hl _ _ E) as (Hk & _). rewrite <- Hk in E.
    pose proof (UpdateMN_node_cases D old _ l Hl (Hdiff _ eq_refl) E) as H. destruct (UpdateMN_node D old _ l) as [[[]|] l']; cbn [snd]; [apply H|by destruct H as [-> _]].
  - unfold PoSePunish, GetMN. destruct (negb (0 <? penalty)); [done|]. destruct (mnMap l !! k) as [old|] eqn:E; [|done].
    destruct (UpdateMN_same l k old (punished (CalcMaxPoSePenalty l) penalty (nHeight l) (pdmnState old))) as [-> H]; [done..| |exact H].
    apply punished_same.
  - unfold PoSeDecrease, GetMN. destruct (mnMap l !! k) as [old|] eqn:E; [|done]. cbv zeta. case_match; [done|].
    by destruct (UpdateMN_same l k old (set_penalty (i32 (nPoSePenalty (pdmnState old) - 1)) (pdmnState old))) as [-> H'].
Qed.

(** C24: What the operations do: a node is added exactly when its hash, its identifier and its properties are free, a state is
    updated exactly when its properties are free or its own, a node that is there is always removed; an operation that throws
    changes nothing. *)
Theorem list_operations (l : L) (dmn : CDeterministicMN) (k : list Z) (st : CDeterministicMNState) (fBump : bool) :
  list_ok l -> node_ok dmn -> state_ok st ->
  (let free := mnMap l !! proTxHash dmn = None /\ mnInternalIdMap l !! internalId dmn = None /\ available (mnMap l) dmn in
   match AddMN D dmn fBump l with
   | (Ok _, l') => free /\ mnMap l' = <[proTxHash dmn := dmn]> (mnMap l) /\ mnInternalIdMap l' = <[internalId dmn := proTxHash dmn]> (mnInternalIdMap l)
   | (Throw _, l') => ~ free /\ l' = l
   end) /\
  match UpdateMN D k st l with
  | (Ok _, l') => exists old, mnMap l !! k = Some old /\ available (mnMap l) (set_state st old) /\ mnMap l' = <[k := set_state st old]> (mnMap l) /\
      mnInternalIdMap l' = mnInternalIdMap l
  | (Throw _, l') => ~ (exists old, mnMap l !! k = Some old /\ available (mnMap l) (set_state st old)) /\ l' = l
  end /\
  match RemoveMN D k l with
  | (Ok _, l') => exists old, mnMap l !! k = Some old /\ mnMap l' = delete k (mnMap l) /\ mnInternalIdMap l' = delete (internalId old) (mnInternalIdMap l)
  | (Throw _, l') => mnMap l !! k = None /\ l' = l
  end.
Proof.
  intros Hl Hd Hst. split; [|split].
  - pose proof (AddMN_cases D dmn fBump l Hl Hd) as H. cbv zeta in H |- *. destruct (AddMN D dmn fBump l) as [[[]|] l']; [|tauto].
    destruct H as (H & _ & u & ->). done.
  - pose proof (UpdateMN_cases D k st l Hl Hst) as H. destruct (UpdateMN D k st l) as [[[]|] l'].
    + destruct H as (old & H1 & H2 & _ & u & ->). by exists old.
    + destruct H as [-> H]. split; [|done]. intros (old & H1 & H2). by apply (H old).
  - pose proof (RemoveMN_cases D k l Hl) as H. destruct (RemoveMN D k l) as [[[]|] l'].
    + destruct H as (old & H1 & _ & u & ->). by exists old.
    + destruct H as [-> H]. done.
Qed.

(** No two nodes of a list share a collateral, an address, an owner key or an operator key (up to the hash that stands for
    them), and a property that the list has is the property of a node that is there. *)
Theorem properties_unique (l : L) {T} (p : property T) (v : T) : list_ok l ->
  (HasUniqueProperty D p l v = true <-> exists k dmn, mnMap l !! k = Some dmn /\ prop_hash D p v ∈ props D dmn) /\
  (HasUniqueProperty D p l v = true <-> is_Some (GetUniquePropertyMN D p l v)) /\
  (forall dmn, GetUniquePropertyMN D p l v = Some dmn <-> mnMap l !! proTxHash dmn = Some dmn /\ prop_hash D p v ∈ props D dmn) /\
  (forall k k' dmn dmn', mnMap l !! k = Some dmn -> mnMap l !! k' = Some dmn' -> k <> k' -> props D dmn ## props D dmn').
Proof.
  intros Hl. pose proof (unique_lookup D l (prop_hash D p v) Hl) as Hu. unfold HasUniqueProperty, GetUniquePropertyMN, GetMN.
  destruct (mnUniquePropertyMap l !! prop_hash D p v) as [e|].
  - destruct Hu as (dmn & E & Hin). rewrite E. destruct (list_node D l Hl _ _ E) as (Hk & _). split; [|split; [|split]].
    + split; [|done]. intros _. by exists e.1, dmn.
    + by split.
    + intros o. split.
      * intros [= <-]. by rewrite Hk.
      * intros [E' H']. f_equal. assert (e.1 = proTxHash o) as Heq by (by eapply (unique_owner D l)). rewrite Heq in E. congruence.
    + intros k k' o o' H1 H2 Hne h Hh Hh'. by apply Hne, (unique_owner D l k k' o o' h).
  - split; [|split; [|split]].
    + split; [done|]. intros (k & dmn & E & Hin). by destruct (Hu k dmn E).
    + split; [done|]. by intros [? ?].
    + intros o. split; [done|]. intros [E Hin]. by destruct (Hu _ _ E).
    + intros k k' o o' H1 H2 Hne h Hh Hh'. by apply Hne, (unique_owner D l k k' o o' h).
Qed.

(** ** Payees *)

Definition paid_key (dmn : CDeterministicMN) : list Z := CompareByLastPaid_GetHeight dmn :: proTxHash dmn.
Lemma CompareByLastPaid_key a b : CompareByLastPaid a b = (Blob.Compare (paid_key a) (paid_key b) <? 0).
Proof.
  unfold CompareByLastPaid, paid_key. cbv zeta. cbn [Blob.Compare].
  destruct (Z.eqb_spec (CompareByLastPaid_GetHeight a) (CompareByLastPaid_GetHeight b)) as [->|Hne]; [by rewrite Z.ltb_irrefl|].
  destruct (Z.ltb_spec (CompareByLastPaid_GetHeight a) (CompareByLastPaid_GetHeight b)), (Z.ltb_spec (CompareByLastPaid_GetHeight b) (CompareByLastPaid_GetHeight a)); done || lia.
Qed.

(** the loop finds a node with the least key *)
Lemma best_of_spec (l : list CDeterministicMN) : (forall x, x ∈ l -> length (proTxHash x) = 32%nat) ->
  match best_of l with
  | None => l = []
  | Some b => b ∈ l /\ forall x, x ∈ l -> Blob.Compare (paid_key b) (paid_key x) <= 0
  end.
Proof.
  induction l as [|y l IH] using rev_ind; intros Hl; [done|]. unfold best_of in *. rewrite foldl_app. cbn [foldl].
  specialize (IH ltac:(intros; apply Hl; set_solver)). destruct (foldl _ None l) as [b|].
  - destruct IH as [Hb Hm]. rewrite CompareByLastPaid_key.
    assert (forall x z, x ∈ l ++ [y] -> z ∈ l ++ [y] -> length (paid_key x) = length (paid_key z)) as Hlen by (intros x z Hx Hz; unfold paid_key; simpl; by rewrite !Hl).
    destruct (Z.ltb_spec (Blob.Compare (paid_key y) (paid_key b)) 0) as [Hlt|Hge].
    + split; [set_solver|]. intros x [Hx|Hx%list_elem_of_singleton]%elem_of_app; [|subst x; by rewrite Compare_refl]. specialize (Hm x Hx).
      destruct (decide (Blob.Compare (paid_key b) (paid_key x) = 0)) as [E|E].
      * apply Compare_eq in E; [|apply Hlen; set_solver]. rewrite <- E. lia.
      * enough (Blob.Compare (paid_key y) (paid_key x) < 0) by lia. apply (Compare_trans _ (paid_key b)); [apply Hlen; set_solver..|done|lia].
    + split; [set_solver|]. intros x [Hx|Hx%list_elem_of_singleton]%elem_of_app; [by apply Hm|]. subst x. rewrite Compare_opp. lia.
  - subst l. split; [set_solver|]. intros x Hx%list_elem_of_singleton. subst x. by rewrite Compare_refl.
Qed.

Lemma elem_of_nodes `{HI : MnIteration} (l : L) dmn : list_ok l -> dmn ∈ nodes l <-> mnMap l !! proTxHash dmn = Some dmn.
Proof.
  intros Hl. unfold nodes. rewrite list_elem_of_fmap. split.
  - intros ([k o] & -> & Hin). cbn. rewrite mn_iterate_perm, elem_of_map_to_list in Hin. by destruct (list_node D l Hl _ _ Hin) as (-> & _).
  - intros H. exists (proTxHash dmn, dmn). split; [done|]. by rewrite mn_iterate_perm, elem_of_map_to_list.
Qed.
Lemma nodes_hash `{HI : MnIteration} (l : L) dmn : list_ok l -> dmn ∈ nodes l -> length (proTxHash dmn) = 32%nat.
Proof. intros Hl H%elem_of_nodes; [|done]. destruct (list_node D l Hl _ _ H) as (_ & Hok & _). apply Hok. Qed.

(** the nodes that may be paid for a block at the height *)
Definition eligible (v : NodeView) (blockHeight : Z) (dmn : CDeterministicMN) : bool :=
  if (nSmartnodeCollateralUpgradeHeight v <=? 0) || (blockHeight <? nSmartnodeCollateralUpgradeHeight v) then IsMNValid v dmn else payable_at v blockHeight dmn.
Lemma payee_best `{HI : MnIteration} (v : NodeView) (l : L) h :
  GetMNPayeeForBlock v l h = if (size (mnMap l) <=? 10)%nat && is_main v then None else best_of (filter (λ dmn, eligible v h dmn = true) (nodes l)).
Proof. unfold GetMNPayeeForBlock, GetMNPayee, ForEachMN, eligible. case_match; case_match; try done. Qed.

Lemma best_unique `{HI : MnIteration} (l : L) (P : CDeterministicMN -> Prop) `{!forall x, Decision (P x)} : list_ok l ->
  match best_of (filter P (nodes l)) with
  | Some b => mnMap l !! proTxHash b = Some b /\ P b /\
      forall x, mnMap l !! proTxHash x = Some x -> P x -> x <> b -> CompareByLastPaid b x = true
  | None => forall x, mnMap l !! proTxHash x = Some x -> ~ P x
  end.
Proof.
  intros Hl. pose proof (best_of_spec (filter P (nodes l))) as Hb. specialize (Hb ltac:(intros x [_ Hx]%list_elem_of_filter; by apply (nodes_hash l))).
  destruct (best_of _) as [b|].
  - destruct Hb as [[HPb Hb]%list_elem_of_filter Hm]. pose proof (nodes_hash l b Hl Hb) as Hlb. apply elem_of_nodes in Hb; [|done]. split; [done|]. split; [done|].
    intros x Hx HP Hne. assert (x ∈ nodes l) as Hin by by apply elem_of_nodes. pose proof (nodes_hash l x Hl Hin) as Hlx.
    specialize (Hm x ltac:(by apply list_elem_of_filter)). rewrite CompareByLastPaid_key. apply Z.ltb_lt.
    enough (Blob.Compare (paid_key b) (paid_key x) <> 0) by lia. rewrite Compare_eq by (unfold paid_key; simpl; congruence).
    unfold paid_key. intros [= _ E]. rewrite E in Hb. congruence.
  - intros x Hx HP. assert (x ∈ filter P (nodes l)) as Hin by (apply list_elem_of_filter; split; [done|by apply elem_of_nodes]). rewrite Hb in Hin. by apply elem_of_nil in Hin.
Qed.

(** C11: The payee of a block does not depend on the order in which the map is enumerated: it is the eligible node that has not been
    paid (or registered, or revived) for the longest time, the smaller hash deciding between equals, and there
    is one whenever a node is eligible, unless the main network has at most ten nodes. *)
Theorem payee_chosen (I1 I2 : MnIteration) (v : NodeView) (l : L) (h : Z) : list_ok l ->
  GetMNPayeeForBlock (HI:=I1) v l h = GetMNPayeeForBlock (HI:=I2) v l h /\
  match GetMNPayeeForBlock (HI:=I1) v l h with
  | Some b => ((10 < size (mnMap l))%nat \/ is_main v = false) /\ mnMap l !! proTxHash b = Some b /\ eligible v h b = true /\
      forall x, mnMap l !! proTxHash x = Some x -> eligible v h x = true -> x <> b -> CompareByLastPaid b x = true
  | None => ((size (mnMap l) <= 10)%nat /\ is_main v = true) \/ forall x, mnMap l !! proTxHash x = Some x -> eligible v h x = false
  end.
Proof.
  intros Hl. rewrite !payee_best. pose proof (best_unique (HI:=I1) l (λ dmn, eligible v h dmn = true) Hl) as H1.
  pose proof (best_unique (HI:=I2) l (λ dmn, eligible v h dmn = true) Hl) as H2. cbn beta in H1, H2.
  destruct ((size (mnMap l) <=? 10)%nat && is_main v) eqn:Em.
  { split; [done|left]. apply andb_true_iff in Em as [?%Nat.leb_le ?]. done. }
  assert ((10 < size (mnMap l))%nat \/ is_main v = false) as Hm by (apply andb_false_iff in Em as [?%Nat.leb_gt|?]; auto).
  destruct (best_of (filter _ (nodes (HI:=I1) l))) as [b|], (best_of (filter _ (nodes (HI:=I2) l))) as [c|].
  - destruct H1 as (B1 & B2 & B3), H2 as (C1 & C2 & C3). split; [|done]. f_equal. destruct (decide (paid_key b = paid_key c)) as [E|E].
    + unfold paid_key in E. injection E as _ E. rewrite E in B1. congruence.
    + exfalso. assert (c <> b) as Hne by congruence. pose proof (B3 c C1 C2 Hne) as X. pose proof (C3 b B1 B2 (not_eq_sym Hne)) as Y.
      rewrite !CompareByLastPaid_key, !Z.ltb_lt in X, Y. rewrite Compare_opp in Y. lia.
  - exfalso. destruct H1 as (B1 & B2 & _). by apply (H2 b B1).
  - exfalso. destruct H2 as (B1 & B2 & _). by apply (H1 c B1).
  - split; [done|right]. intros x Hx. apply not_true_iff_false. by apply H1.
Qed.

(** ** Quorums *)

Definition score_key (a : list Z * CDeterministicMN) : list Z := rev a.1 ++ hash (collateralOutpoint a.2) ++ [n (collateralOutpoint a.2)].
Lemma CompareTo_Compare a b : BaseUint.CompareTo a b = Blob.Compare (rev a) (rev b).
Proof. reflexivity. Qed.
Definition scored (a : list Z * CDeterministicMN) : Prop := length a.1 = 8%nat /\ length (hash (collateralOutpoint a.2)) = 32%nat.
Lemma score_lt_key a b : scored a -> scored b -> score_lt a b = (Blob.Compare (score_key a) (score_key b) <? 0).
Proof.
  intros [Ha Ha'] [Hb Hb']. unfold score_lt, score_key, COutPoint_lt. rewrite CompareTo_Compare. cbv zeta.
  rewrite Compare_app by (rewrite !length_rev; congruence). rewrite Compare_app by congruence.
  destruct (Z.eqb_spec (Blob.Compare (rev a.1) (rev b.1)) 0); [|done]. set (c := Blob.Compare (hash _) _).
  destruct (Z.eqb_spec c 0) as [->|Hc]; [|by rewrite orb_false_r]. cbn.
  destruct (Z.ltb_spec (n (collateralOutpoint a.2)) (n (collateralOutpoint b.2))), (Z.ltb_spec (n (collateralOutpoint b.2)) (n (collateralOutpoint a.2))); done || lia.
Qed.
Lemma score_key_length a b : scored a -> scored b -> length (score_key a) = length (score_key b).
Proof. intros [Ha Ha'] [Hb Hb']. unfold score_key. rewrite !length_app, !length_rev. simpl. lia. Qed.

(** the nodes a quorum is chosen from *)
Definition candidate (v : NodeView) (dmn : CDeterministicMN) : bool := IsMNValid v dmn && negb (Blob.IsNull (confirmedHash (pdmnState dmn))).

Lemma elem_of_scores `{HI : MnIteration} v modifier (l : L) s : list_ok l ->
  s ∈ CalculateScores D v modifier l <-> s = (mn_score D modifier s.2, s.2) /\ mnMap l !! proTxHash s.2 = Some s.2 /\ candidate v s.2 = true.
Proof.
  intros Hl. unfold CalculateScores, candidate, ForEachMN. rewrite list_elem_of_omap. setoid_rewrite list_elem_of_filter. setoid_rewrite (elem_of_nodes l); [|done].
  rewrite andb_true_iff. split.
  - intros (dmn & [Hv H] & E). destruct (Blob.IsNull _) eqn:En; [done|]. injection E as <-. cbn. rewrite En. done.
  - intros (E & H & Hv & Hc). exists s.2. split; [done|]. apply negb_true_iff in Hc. rewrite Hc. by rewrite <- E.
Qed.
Lemma scores_scored `{HI : MnIteration} v modifier (l : L) s : list_ok l -> s ∈ CalculateScores D v modifier l -> scored s.
Proof.
  intros Hl (E & H & _)%elem_of_scores; [|done]. destruct (list_node D l Hl _ _ H) as (_ & Hok & _). rewrite E. split; [|apply Hok].
  unfold mn_score, UintToArith256, UintToArith. cbn [fst]. by rewrite length_fmap, length_seq.
Qed.
Lemma scores_perm (I1 I2 : MnIteration) v modifier (l : L) : CalculateScores (HI:=I1) D v modifier l ≡ₚ CalculateScores (HI:=I2) D v modifier l.
Proof.
  unfold CalculateScores, ForEachMN, nodes. apply omap_Permutation, filter_Permutation, fmap_Permutation.
  etrans; [apply (mn_iterate_perm (MnIteration:=I1))|symmetry; apply (mn_iterate_perm (MnIteration:=I2))].
Qed.
(** scores with the same key are the same *)
Lemma score_key_inj `{HI : MnIteration} v modifier (l : L) s t : list_ok l ->
  s ∈ CalculateScores D v modifier l -> t ∈ CalculateScores D v modifier l -> score_key s = score_key t -> s = t.
Proof.
  intros Hl Hs Ht E. pose proof (scores_scored v modifier l s Hl Hs) as [S1 S2]. pose proof (scores_scored v modifier l t Hl Ht) as [T1 T2].
  apply elem_of_scores in Hs as (Es & Hs & _); [|done]. apply elem_of_scores in Ht as (Et & Ht & _); [|done].
  unfold score_key in E. apply app_inj_1 in E as [_ E]; [|rewrite !length_rev; congruence]. apply app_inj_1 in E as [E1 [= E2]]; [|congruence].
  assert (collateralOutpoint s.2 = collateralOutpoint t.2) as Ec by (destruct (collateralOutpoint s.2), (collateralOutpoint t.2); cbn in *; congruence).
  assert (proTxHash s.2 = proTxHash t.2) as Eh.
  { apply (unique_owner D l _ _ s.2 t.2 (prop_hash D prop_outpoint (collateralOutpoint s.2)) Hl Hs Ht).
    - unfold props, prop_list. rewrite not_null_outpoint by apply (list_node D l Hl _ _ Hs). set_solver.
    - rewrite Ec. unfold props, prop_list. rewrite not_null_outpoint by apply (list_node D l Hl _ _ Ht). set_solver. }
  rewrite Eh in Hs. assert (s.2 = t.2) as E2' by congruence. by rewrite Es, Et, E2'.
Qed.
Lemma NoDup_nodes `{HI : MnIteration} (l : L) : list_ok l -> NoDup (nodes l).
Proof.
  intros Hl. apply (NoDup_fmap_1 proTxHash). unfold nodes. rewrite <- list_fmap_compose.
  rewrite (list_fmap_ext _ fst) by (intros i [k o] Hi%list_elem_of_lookup_2; cbn; rewrite mn_iterate_perm, elem_of_map_to_list in Hi; by apply (list_node D l Hl) in Hi as [-> _]).
  rewrite mn_iterate_perm. apply NoDup_fst_map_to_list.
Qed.
Lemma omap_tagged {A B} (P : A -> bool) (f : A -> B) l : (omap (λ x, if P x then None else Some (f x, x)) l).*2 = filter (λ x, P x = false) l.
Proof.
  induction l as [|x l IH]; [done|]. rewrite filter_cons. cbn [omap list_omap]. destruct (P x); [by rewrite decide_False|]. rewrite decide_True by done.
  cbn. f_equal. exact IH.
Qed.
Lemma score_nodes `{HI : MnIteration} v modifier (l : L) :
  (CalculateScores D v modifier l).*2 = filter (λ dmn, Blob.IsNull (confirmedHash (pdmnState dmn)) = false) (ForEachMN v true l).
Proof. apply omap_tagged. Qed.
Lemma NoDup_scores `{HI : MnIteration} v modifier (l : L) : list_ok l -> NoDup (CalculateScores D v modifier l).*2.
Proof.
  intros Hl. rewrite score_nodes. apply NoDup_filter, NoDup_filter. by apply NoDup_nodes.
Qed.

Lemma StronglySorted_rev {A} (R : A -> A -> Prop) l : StronglySorted R l -> StronglySorted (flip R) (rev l).
Proof.
  induction 1 as [|x l Hl IH Hx]; [constructor|]. cbn [rev]. apply StronglySorted_app. split; [|split; [done|repeat constructor]].
  intros y z Hy Hz%list_elem_of_singleton. subst z. rewrite Forall_forall in Hx. apply Hx. by rewrite (Permutation_rev l).
Qed.

(** the scores in the order of the quorum *)
Definition ranked `{HI : MnIteration} (sort : list (list Z * CDeterministicMN) -> list (list Z * CDeterministicMN)) v modifier (l : L) : list (list Z * CDeterministicMN) :=
  rev (sort (rev (CalculateScores D v modifier l))).
#[local] Abbreviation by_score := (λ a b, score_lt a b = true).
(** What [std::sort] with the comparison promises, for scores and hashes of the sizes they have. *)
Class ScoreSort (sort : list (list Z * CDeterministicMN) -> list (list Z * CDeterministicMN)) : Prop := {
  score_sort_perm l : sort l ≡ₚ l;
  score_sort_sorted l : Forall scored l -> StronglySorted (λ x y, ~ by_score y x) (sort l);
}.

Lemma ranked_perm `{HI : MnIteration} sort `{!ScoreSort sort} v modifier (l : L) : ranked sort v modifier l ≡ₚ CalculateScores D v modifier l.
Proof. unfold ranked. by rewrite <- Permutation_rev, (score_sort_perm (sort:=sort)), <- Permutation_rev. Qed.
Lemma ranked_sorted `{HI : MnIteration} sort `{!ScoreSort sort} v modifier (l : L) : list_ok l ->
  StronglySorted (λ x y, ~ by_score y x) (sort (rev (CalculateScores D v modifier l))).
Proof.
  intros Hl. apply score_sort_sorted, Forall_forall. intros s Hs. rewrite <- (Permutation_rev (CalculateScores D v modifier l)) in Hs. by eapply scores_scored.
Qed.

Lemma ranked_unique (I1 I2 : MnIteration) sort1 sort2 `{!ScoreSort sort1} `{!ScoreSort sort2} v modifier (l : L) : list_ok l ->
  ranked (HI:=I1) sort1 v modifier l = ranked (HI:=I2) sort2 v modifier l.
Proof.
  intros Hl. unfold ranked. f_equal.
  assert (sort1 (rev (CalculateScores (HI:=I1) D v modifier l)) ≡ₚ CalculateScores (HI:=I1) D v modifier l) as P1 by (rewrite (score_sort_perm (sort:=sort1)); symmetry; apply Permutation_rev).
  assert (sort2 (rev (CalculateScores (HI:=I2) D v modifier l)) ≡ₚ CalculateScores (HI:=I1) D v modifier l) as P2.
  { rewrite (score_sort_perm (sort:=sort2)), <- Permutation_rev. apply scores_perm. }
  eapply (StronglySorted_unique_strong (λ x y, ~ by_score y x)); [|by apply ranked_sorted..|by rewrite P1, P2].
  intros x y Hx Hy Hxy Hyx. rewrite P1 in Hx. rewrite P2 in Hy. apply (score_key_inj (HI:=I1) v modifier l); [done..|].
  pose proof (scores_scored v modifier l x Hl Hx). pose proof (scores_scored v modifier l y Hl Hy).
  rewrite score_lt_key in Hxy, Hyx by done. rewrite Z.ltb_lt, Compare_opp in Hxy. rewrite Z.ltb_lt in Hyx.
  apply Compare_eq; [by apply score_key_length|lia].
Qed.

(** C12: The members of a quorum depend on the list and the modifier alone, not on the enumeration of the map or the sort:
    they are as many as asked for or all candidates (the valid, confirmed nodes), each once, and every candidate that
    is left out has a smaller score than every member. *)
Theorem quorum_chosen (I1 I2 : MnIteration) sort1 sort2 `{!ScoreSort sort1} `{!ScoreSort sort2}
    (v : NodeView) (maxSize : nat) (modifier : list Z) (l : L) : list_ok l ->
  let members := CalculateQuorum (HI:=I1) D sort1 v maxSize modifier l in
  members = CalculateQuorum (HI:=I2) D sort2 v maxSize modifier l /\ NoDup members /\
  length members = Nat.min maxSize (length (filter (λ dmn, candidate v dmn = true) (nodes (HI:=I1) l))) /\
  (forall m, m ∈ members -> mnMap l !! proTxHash m = Some m /\ candidate v m = true) /\
  (forall m c, m ∈ members -> mnMap l !! proTxHash c = Some c -> candidate v c = true -> c ∉ members ->
     score_lt (mn_score D modifier c, c) (mn_score D modifier m, m) = true).
Proof.
  intros Hl members. pose proof (ranked_perm (HI:=I1) sort1 v modifier l) as P.
  assert (members = (take (Nat.min maxSize (length (ranked (HI:=I1) sort1 v modifier l))) (ranked (HI:=I1) sort1 v modifier l)).*2) as Hm by reflexivity.
  set (R := ranked sort1 v modifier l) in *. set (k := Nat.min maxSize (length R)) in *.
  assert (NoDup R.*2) as Hnd by (rewrite P; by apply (NoDup_scores (HI:=I1))).
  assert (forall s, s ∈ R -> s = (mn_score D modifier s.2, s.2) /\ mnMap l !! proTxHash s.2 = Some s.2 /\ candidate v s.2 = true) as HR by (intros s Hs; rewrite P in Hs; by apply (elem_of_scores (HI:=I1)) in Hs).
  split; [|split; [|split; [|split]]].
  - rewrite Hm. unfold k, R. by rewrite (ranked_unique I1 I2 sort1 sort2).
  - rewrite Hm, fmap_take. rewrite <- (take_drop k R.*2), NoDup_app in Hnd. apply Hnd.
  - rewrite Hm, length_fmap, length_take. assert (length R = length (filter (λ dmn, candidate v dmn = true) (nodes (HI:=I1) l))) as <-; [|unfold k; lia].
    rewrite P, <- (length_fmap snd), (score_nodes (HI:=I1)). unfold ForEachMN, candidate. f_equal. rewrite list_filter_filter. apply list_filter_iff.
    intros x. cbn [negb orb]. rewrite andb_true_iff, negb_true_iff. tauto.
  - intros m Hin. rewrite Hm in Hin. apply list_elem_of_fmap in Hin as (s & -> & Hs%elem_of_take). destruct Hs as (i & Hi & _). apply list_elem_of_lookup_2 in Hi. by apply HR in Hi as (_ & ? & ?).
  - intros m c Hin Hc Hcand Hout. rewrite Hm in Hin, Hout. apply list_elem_of_fmap in Hin as (s & -> & Hs).
    assert ((mn_score D modifier c, c) ∈ R) as HcR by (rewrite P; apply (elem_of_scores (HI:=I1)); done).
    rewrite <- (take_drop k R), elem_of_app in HcR. destruct HcR as [H|H]; [exfalso; apply Hout; apply list_elem_of_fmap; by exists (mn_score D modifier c, c)|].
    assert (s ∈ R) as HsR by (rewrite <- (take_drop k R); apply elem_of_app; by left). destruct (HR s HsR) as (Es & _).
    assert (StronglySorted (flip (λ x y, ~ by_score y x)) R) as HSS by (by apply StronglySorted_rev, ranked_sorted).
    rewrite <- (take_drop k R), StronglySorted_app in HSS. destruct HSS as (Hlt & _). specialize (Hlt s _ Hs H). change (~ score_lt s (mn_score D modifier c, c) = true) in Hlt. rewrite <- Es.
    assert (scored s /\ scored (mn_score D modifier c, c)) as [Ss Sc].
    { split; [apply (scores_scored (HI:=I1) v modifier l); [done|by rewrite <- P]|]. apply (scores_scored (HI:=I1) v modifier l); [done|]. by apply (elem_of_scores (HI:=I1)). }
    rewrite (score_lt_key _ _ Ss Sc) in Hlt. rewrite (score_lt_key _ _ Sc Ss). apply Z.ltb_lt. apply not_true_iff_false, Z.ltb_ge in Hlt. rewrite Compare_opp in Hlt.
    set (c' := (mn_score D modifier c, c)) in *. enough (Blob.Compare (score_key c') (score_key s) <> 0) by lia.
    rewrite (Compare_eq _ _ (score_key_length _ _ Sc Ss)). intros E. apply (score_key_inj (HI:=I1) v modifier l) in E; [|exact Hl|rewrite <- P, <- (take_drop k R); apply elem_of_app; by right|by rewrite <- P].
    apply Hout, list_elem_of_fmap. exists s. split; [exact (f_equal snd E)|done].
Qed.

(** ** Proof of service *)

Lemma punished_eq maxPenalty penalty h st :
  punished maxPenalty penalty h st =
  let q := Z.min maxPenalty (i32 (nPoSePenalty st + penalty)) in
  if (maxPenalty <=? q) && negb (IsBanned st) then set_ban h (set_penalty q st) else set_penalty q st.
Proof.
  unfold punished, BanIfNotBanned. cbv zeta. cbn [set_penalty nPoSePenalty]. set (q := Z.min _ _).
  change (IsBanned (set_penalty q (set_penalty (i32 (nPoSePenalty st + penalty)) st))) with (IsBanned st).
  change (set_penalty q (set_penalty (i32 (nPoSePenalty st + penalty)) st)) with (set_penalty q st).
  destruct (_ <=? q); [|done]. by destruct (IsBanned st).
Qed.

(** the state after a punishment of a node that is not banned *)
Lemma punished_state maxPenalty penalty h st : IsBanned st = false -> 0 <= nPoSePenalty st -> 0 < penalty -> nPoSePenalty st + penalty < 2 ^ 31 ->
  let p := Z.min maxPenalty (nPoSePenalty st + penalty) in
  nPoSePenalty (punished maxPenalty penalty h st) = p /\ nPoSeBanHeight (punished maxPenalty penalty h st) = if decide (p = maxPenalty) then h else -1.
Proof.
  intros Hb H0 Hp Hlt p. rewrite punished_eq, sint_small by (done || unfold in_sint; lia). fold p. cbv zeta. rewrite Hb. cbn [negb]. rewrite andb_true_r.
  assert (nPoSeBanHeight st = -1) as Hn by (unfold IsBanned in Hb; lia).
  case_decide as Hd; [rewrite (proj2 (Z.leb_le _ _)) by lia|rewrite (proj2 (Z.leb_gt _ _)) by lia]; done.
Qed.

Lemma PoSePunish_ok (l : L) (k : list Z) (old : CDeterministicMN) (penalty : Z) : list_ok l -> mnMap l !! k = Some old -> 0 < penalty ->
  let new := set_state (punished (CalcMaxPoSePenalty l) penalty (nHeight l) (pdmnState old)) old in
  PoSePunish D k penalty l = (Ok tt, set_mn (<[k := new]> (mnMap l)) l) /\ list_ok (set_mn (<[k := new]> (mnMap l)) l).
Proof.
  intros Hl E Hp new. unfold PoSePunish, GetMN. replace (negb (0 <? penalty)) with false by lia. rewrite E.
  exact (UpdateMN_same l k old _ Hl E (punished_same _ _ _ _)).
Qed.
Lemma PoSeDecrease_ok (l : L) (k : list Z) (old : CDeterministicMN) : list_ok l -> mnMap l !! k = Some old ->
  0 < nPoSePenalty (pdmnState old) < 2 ^ 31 -> IsBanned (pdmnState old) = false ->
  let new := set_state (set_penalty (nPoSePenalty (pdmnState old) - 1) (pdmnState old)) old in
  PoSeDecrease D k l = (Ok tt, set_mn (<[k := new]> (mnMap l)) l) /\ list_ok (set_mn (<[k := new]> (mnMap l)) l).
Proof.
  intros Hl E Hp Hb new. unfold PoSeDecrease, GetMN. rewrite E. cbv zeta. rewrite Hb. replace (0 <? nPoSePenalty (pdmnState old)) with true by lia. cbn [andb negb].
  rewrite sint_small by (done || unfold in_sint; lia). apply UpdateMN_same; done.
Qed.
Lemma max_penalty (l : L) : GetAllMNsCount l < 2 ^ 31 -> CalcMaxPoSePenalty l = Z.max 100 (size (mnMap l)).
Proof. intros Hc. unfold CalcMaxPoSePenalty, GetAllMNsCount in *. rewrite sint_small; [done|lia|unfold in_sint; lia]. Qed.

(** C25: Punishing a node that is not banned adds the penalty, up to the maximum of the list (the number of its nodes, at least 100); the node
    is banned, at the height of the list, exactly when it reaches the maximum (and the height is not -1, which stands for no ban).  Decreasing takes
    one off the penalty of a node that is not banned and has one, and fails its assertion for any other node.  Nothing else in the list changes. *)
Theorem pose_penalties (l : L) (k : list Z) (old : CDeterministicMN) (penalty : Z) :
  list_ok l -> mnMap l !! k = Some old -> 0 < penalty -> 0 <= nPoSePenalty (pdmnState old) -> nPoSePenalty (pdmnState old) + penalty < 2 ^ 31 ->
  GetAllMNsCount l < 2 ^ 31 ->
  let max := Z.max 100 (size (mnMap l)) in
  let p := Z.min max (nPoSePenalty (pdmnState old) + penalty) in
  (IsBanned (pdmnState old) = false -> exists new l', PoSePunish D k penalty l = (Ok tt, l') /\ list_ok l' /\
     l' = set_mn (<[k := new]> (mnMap l)) l /\ new = set_state (pdmnState new) old /\ same_props (pdmnState old) (pdmnState new) /\
     nPoSePenalty (pdmnState new) = p /\ nPoSeBanHeight (pdmnState new) = (if decide (p = max) then nHeight l else -1) /\
     (IsBanned (pdmnState new) = true <-> max <= nPoSePenalty (pdmnState old) + penalty /\ nHeight l <> -1)) /\
  (if decide (0 < nPoSePenalty (pdmnState old) /\ IsBanned (pdmnState old) = false)
   then exists l', PoSeDecrease D k l = (Ok tt, l') /\ list_ok l' /\
     l' = set_mn (<[k := set_state (set_penalty (nPoSePenalty (pdmnState old) - 1) (pdmnState old)) old]> (mnMap l)) l
   else PoSeDecrease D k l = (Throw "assertion failed", l)).
Proof.
  intros Hl E Hp H0 Hb Hc max p. pose proof (max_penalty l Hc) as Hmax. split.
  - intros Hn. destruct (PoSePunish_ok l k old penalty Hl E Hp) as [Hpun Hok]. rewrite Hmax in *. eexists _, _. split; [exact Hpun|]. split; [exact Hok|].
    split; [reflexivity|]. cbn [set_state pdmnState]. split; [reflexivity|]. split; [apply punished_same|].
    destruct (punished_state max penalty (nHeight l) (pdmnState old) Hn H0 Hp Hb) as [Hq Hh]. fold p in Hq, Hh. split; [exact Hq|]. split; [exact Hh|].
    unfold IsBanned. fold max. rewrite Hh, negb_true_iff, Z.eqb_neq. case_decide; lia.
  - case_decide as Hd; [destruct (PoSeDecrease_ok l k old Hl E) as [Hdec Hok]; [lia|apply Hd|by eexists]|].
    unfold PoSeDecrease, GetMN. rewrite E. cbv zeta. destruct (Z.ltb_spec 0 (nPoSePenalty (pdmnState old))); cbn [andb negb]; [|done].
    destruct (IsBanned (pdmnState old)) eqn:Eb; [done|]. exfalso. by apply Hd.
Qed.

(** The penalty of a banned node rises as well. *)
Lemma banned_penalty_rises maxPenalty penalty h st : IsBanned st = true -> 0 <= nPoSePenalty st -> 0 < penalty -> nPoSePenalty st + penalty < 2 ^ 31 ->
  nPoSePenalty (punished maxPenalty penalty h st) = Z.min maxPenalty (nPoSePenalty st + penalty).
Proof. intros Hb H0 Hp Hlt. rewrite punished_eq, sint_small by (done || unfold in_sint; lia). cbv zeta. rewrite Hb. by rewrite andb_false_r. Qed.
End props.

(** ** The hypotheses can be met *)

#[export] Instance list_order : MnIteration.
Proof. refine {| mn_iterate := map_to_list |}. done. Defined.

(** a sort that keeps the promises *)
Definition key_le (a b : list Z * CDeterministicMN) : Prop := ~ lexico (score_key b) (score_key a).
#[export] Instance key_le_dec : RelDecision key_le.
Proof. intros a b. unfold key_le. apply not_dec, trichotomyT_dec; apply _. Defined.
Lemma Compare_lexico a b : length a = length b -> lexico a b <-> Blob.Compare a b < 0.
Proof.
  revert b. induction a as [|x a IH]; intros [|y b] Hlen; try done. injection Hlen as Hlen. specialize (IH b Hlen).
  change (lexico (x :: a) (y :: b)) with (x < y \/ x = y /\ lexico a b). cbn [Blob.Compare].
  destruct (Z.ltb_spec x y), (Z.ltb_spec y x); try lia. assert (x = y) as -> by lia. rewrite IH. lia.
Qed.
#[local] Instance key_le_total : Total key_le.
Proof.
  intros a b. unfold key_le. destruct (decide (lexico (score_key b) (score_key a))) as [H|]; [right|by left].
  intros H'. by apply (irreflexivity lexico (score_key a)), (transitivity (R:=lexico) H').
Qed.
#[local] Instance key_le_trans : Transitive key_le.
Proof.
  intros a b c Hab Hbc Hca. unfold key_le in *. destruct (trichotomy lexico (score_key a) (score_key b)) as [H|[H|H]]; [|by rewrite H in Hca|done].
  by apply Hbc, (transitivity (R:=lexico) Hca).
Qed.
Definition sort_by_key := merge_sort key_le.
#[export] Instance sort_by_key_sorts : ScoreSort sort_by_key.
Proof.
  split; [apply merge_sort_Permutation|]. intros l Hl.
  assert (forall s, s ∈ sort_by_key l -> scored s) as Hs by (intros s Hs; unfold sort_by_key in Hs; rewrite merge_sort_Permutation in Hs; by eapply Forall_forall).
  pose proof (StronglySorted_merge_sort key_le l) as H. fold sort_by_key in H. induction H as [|x r Hr IH Hx]; constructor.
  - apply IH. intros s Hin. apply Hs. by right.
  - rewrite Forall_forall in Hx |- *. intros y Hy Hlt. apply (Hx y Hy). assert (scored x) as Sx by (apply Hs; by left). assert (scored y) as Sy by (apply Hs; by right).
    rewrite score_lt_key, Z.ltb_lt in Hlt by done. apply Compare_lexico; [by apply score_key_length|done].
Qed.

(** two nodes with the same operator library, and a view in which both collaterals are unspent *)
#[local] Instance example_keys : BlsImpl BLS_CURVE_PUBKEY_SIZE := two_keys 47.
#[local] Instance example_laws : BlsImplLaws BLS_CURVE_PUBKEY_SIZE := two_keys_laws 47.
Definition example_state (owner key paid : Z) : CDeterministicMNState :=
  mkMNState 10 paid 0 (-1) (-1) REASON_NOT_SPECIFIED (replicate 32 owner) (replicate 32 owner) (replicate 20 owner) (key :: replicate 47 0) (replicate 20 owner)
    (mkService (CNetAddr_ipv4 [192; 168; 0; owner]) 10226) [0x51] [].
Definition example_node (id owner key paid : Z) : CDeterministicMN :=
  mkMN id (replicate 32 owner) (mkCOutPoint (replicate 32 owner) 0) 0 (example_state owner key paid).
Definition node_a : CDeterministicMN := example_node 0 5 1 30.
Definition node_b : CDeterministicMN := example_node 1 6 2 20.
Definition example_list : CDeterministicMNList := (AddMN Sha256.standard node_b true (AddMN Sha256.standard node_a true CDeterministicMNList_new).2).2.
Definition example_view : NodeView :=
  mkView (Some 2000000) (λ _, Some (mkCoin (mkCTxOut (2000000 * COIN) [0x51]) false 10 0 [])) (λ _, None) Collaterals.main_collaterals 0 false.

Lemma example_state_ok owner key paid : 0 < owner < 256 -> key = 1 \/ key = 2 -> state_ok (example_state owner key paid).
Proof.
  intros Ho Hk. split.
  - cbn. intros [= E]. lia.
  - split; [|unfold in_uint; cbn; lia]. split; [|reflexivity]. split; [reflexivity|]. split; [|split; [unfold in_uint; cbn; lia|reflexivity]].
    cbn. repeat constructor; unfold in_uint; lia.
  - by destruct Hk as [-> | ->].
Qed.
Lemma node_a_ok : node_ok node_a.
Proof. split; [by split|unfold in_uint; cbn; done|done|apply example_state_ok; [lia|by left]]. Qed.
Lemma node_b_ok : node_ok node_b.
Proof. split; [by split|unfold in_uint; cbn; done|done|apply example_state_ok; [lia|by right]]. Qed.
Lemma list_ok_AddMN dmn (l : CDeterministicMNList) : list_ok Sha256.standard l -> node_ok dmn -> list_ok Sha256.standard (AddMN Sha256.standard dmn true l).2.
Proof.
  intros Hl Hd. pose proof (AddMN_cases Sha256.standard dmn true l Hl Hd) as H. cbv zeta in H. destruct (AddMN Sha256.standard dmn true l) as [[[]|] l']; [apply H|].
  by destruct H as [-> _].
Qed.
Lemma example_list_ok : list_ok Sha256.standard example_list.
Proof. apply list_ok_AddMN; [apply list_ok_AddMN; [apply list_ok_new|apply node_a_ok]|apply node_b_ok]. Qed.
Lemma example_list_map : mnMap example_list = {[replicate 32 6 := node_b; replicate 32 5 := node_a]}.
Proof. vm_compute. reflexivity. Qed.

Lemma example_state_ok' : state_ok (example_state 9 1 0).
Proof. apply example_state_ok; [lia|by left]. Qed.
Lemma example_nodes old k : mnMap example_list !! k = Some old -> k = replicate 32 6 /\ old = node_b \/ k = replicate 32 5 /\ old = node_a.
Proof. rewrite example_list_map. intros [[<- <-]|[_ [<- <-]%lookup_singleton_Some]]%lookup_insert_Some; [by left|by right]. Qed.

Lemma list_invariant_witness : list_ok Sha256.standard (PoSePunish Sha256.standard (replicate 32 5) 7 example_list).2.
Proof.
  assert (forall old, mnMap example_list !! replicate 32 5 = Some old -> state_ok (ApplyToState CDeterministicMNStateDiff_new (pdmnState old))) as Hd.
  { intros old [[_ ->]|[_ ->]]%example_nodes; [exact (node_state _ node_b_ok)|exact (node_state _ node_a_ok)]. }
  pose proof (list_invariant Sha256.standard example_list node_a (replicate 32 5) (example_state 9 1 0) true 7 CDeterministicMNStateDiff_new
    example_list_ok node_a_ok example_state_ok' Hd) as H.
  exact (proj1 (proj2 (proj2 (proj2 (proj2 (proj2 H)))))).
Defined.

Lemma list_operations_witness :
  exists l', RemoveMN Sha256.standard (replicate 32 5) example_list = (Ok tt, l') /\ mnMap l' = delete (replicate 32 5) (mnMap example_list).
Proof.
  pose proof (list_operations Sha256.standard) as H. specialize (H example_list node_a (replicate 32 5) (example_state 9 1 0) true example_list_ok).
  specialize (H node_a_ok example_state_ok'). apply proj2, proj2 in H.
  destruct (RemoveMN Sha256.standard (replicate 32 5) example_list) as [[[]|e] l'].
  - destruct H as (old & _ & H & _). exists l'. split; [reflexivity|exact H].
  - destruct H as [H _]. rewrite example_list_map in H. vm_compute in H. discriminate H.
Defined.

Lemma properties_unique_witness : GetUniquePropertyMN Sha256.standard prop_outpoint example_list (mkCOutPoint (replicate 32 6) 0) = Some node_b.
Proof.
  pose proof (proj1 (proj2 (proj2 (properties_unique Sha256.standard example_list prop_outpoint (mkCOutPoint (replicate 32 6) 0) example_list_ok))) node_b) as H.
  apply (proj2 H). split; [rewrite example_list_map; reflexivity|]. unfold props. apply elem_of_app. left. vm_compute. left.
Defined.

Lemma payee_chosen_witness : GetMNPayeeForBlock example_view example_list 2000001 = Some node_b.
Proof.
  pose proof (payee_chosen Sha256.standard list_order list_order) as H. specialize (H example_view example_list 2000001 example_list_ok). apply proj2 in H.
  assert (mnMap example_list !! proTxHash node_b = Some node_b) as Hb by (rewrite example_list_map; reflexivity).
  assert (eligible example_view 2000001 node_b = true) as He by (vm_compute; reflexivity).
  assert (CompareByLastPaid node_a node_b = false) as Hab by (vm_compute; reflexivity).
  destruct (GetMNPayeeForBlock example_view example_list 2000001) as [b|].
  - destruct H as (_ & H1 & _ & H). apply example_nodes in H1 as [[_ ->]|[_ ->]]; [reflexivity|]. specialize (H node_b Hb He). rewrite Hab in H.
    exfalso. assert (node_b <> node_a) as Hne by (intros E; apply (f_equal internalId) in E; discriminate E). discriminate (H Hne).
  - exfalso. destruct H as [[_ H]|H]; [discriminate H|]. rewrite (H node_b Hb) in He. discriminate He.
Defined.

Lemma quorum_chosen_witness :
  let members := CalculateQuorum Sha256.standard sort_by_key example_view 1 (replicate 32 7) example_list in
  length members = 1%nat /\ forall m, m ∈ members -> mnMap example_list !! proTxHash m = Some m.
Proof.
  pose proof (quorum_chosen Sha256.standard list_order list_order sort_by_key sort_by_key) as H. specialize (H example_view 1%nat (replicate 32 7) example_list example_list_ok).
  cbv zeta in H |- *. apply proj2, proj2 in H. destruct H as (Hlen & Hin & _).
  split; [etrans; [exact Hlen|]; vm_compute; reflexivity|]. intros m Hm. exact (proj1 (Hin m Hm)).
Defined.

Lemma pose_penalties_witness : exists new l', PoSePunish Sha256.standard (replicate 32 5) 66 example_list = (Ok tt, l') /\
  mnMap l' = <[replicate 32 5 := new]> (mnMap example_list) /\ nPoSePenalty (pdmnState new) = 66.
Proof.
  assert (mnMap example_list !! replicate 32 5 = Some node_a) as Ha by (rewrite example_list_map; reflexivity).
  assert (size (mnMap example_list) = 2%nat) as Hs by (rewrite example_list_map; reflexivity).
  assert (GetAllMNsCount example_list < 2 ^ 31) as Hc by (unfold GetAllMNsCount; rewrite Hs; reflexivity).
  pose proof (pose_penalties Sha256.standard) as H. specialize (H example_list (replicate 32 5) node_a 66 example_list_ok Ha eq_refl). 
  specialize (H ltac:(discriminate) eq_refl Hc). apply proj1 in H. specialize (H eq_refl).
  destruct H as (new & l' & E & _ & Em & _ & _ & Ep & _). exists new, l'. split; [exact E|]. split; [rewrite Em; reflexivity|]. rewrite Ep, Hs. reflexivity.
Defined.
