(* ===== verification/MNPoSe.v ===== *)
(** * Proof of service over blocks: evo/deterministicmns.cpp

    What the two loops of the manager do to the list, and what the penalties come to: a node that fails its
    quorums twice in quick succession, or three times in the time in which every node is paid once, is banned. *)

From S2P Require Import Prelude Bytes ShaSpec Sha256 Sha256Laws Transaction Coins NetAddress Bls MNState MNList MNListLaws MNListProps.

Section pose.
Context (D : Sha256.dispatch) `{HD : !GoodDispatch D} `{HK : !BlsImpl BLS_CURVE_PUBKEY_SIZE} `{HKL : !BlsImplLaws BLS_CURVE_PUBKEY_SIZE} `{HI : MnIteration}.
#[local] Abbreviation L := CDeterministicMNList.
#[local] Abbreviation list_ok := (list_ok D).

(** ** Loops that update one node after the other *)

Lemma set_mn_twice m m' (l : L) : set_mn m (set_mn m' l) = set_mn m l.
Proof. done. Qed.

Lemma each_update {A} (key : A -> list Z) (f : A -> action L unit) (g : A -> CDeterministicMN -> CDeterministicMN) (h : Z) (xs : list A) :
  forall l : L, list_ok l -> nHeight l = h -> NoDup (key <$> xs) ->
  (forall x l' old, x ∈ xs -> list_ok l' -> nHeight l' = h -> dom (mnMap l') = dom (mnMap l) ->
     mnMap l' !! key x = Some old -> mnMap l !! key x = Some old ->
     f x l' = (Ok tt, set_mn (<[key x := g x old]> (mnMap l')) l') /\ list_ok (set_mn (<[key x := g x old]> (mnMap l')) l')) ->
  (forall x l', x ∈ xs -> mnMap l !! key x = None -> mnMap l' !! key x = None -> f x l' = (Ok tt, l')) ->
  exists m', each f xs l = (Ok tt, set_mn m' l) /\ list_ok (set_mn m' l) /\
    (forall x, x ∈ xs -> m' !! key x = g x <$> mnMap l !! key x) /\ (forall k, k ∉ key <$> xs -> m' !! k = mnMap l !! k).
Proof.
  induction xs as [|x xs IH]; intros l Hl Hh Hnd Hstep Hskip.
  { exists (mnMap l). destruct l. split; [done|]. split; [done|]. split; [|done]. by intros x ?%elem_of_nil. }
  cbn [fmap list_fmap] in Hnd. apply NoDup_cons in Hnd as [Hx Hnd].
  assert (forall y, y ∈ xs -> key y <> key x) as Hne by (intros y Hy Ek; apply Hx; rewrite <- Ek; by apply list_elem_of_fmap_2).
  assert (exists m1, f x l = (Ok tt, set_mn m1 l) /\ list_ok (set_mn m1 l) /\ dom m1 = dom (mnMap l) /\
    m1 !! key x = g x <$> mnMap l !! key x /\ (forall k, k <> key x -> m1 !! k = mnMap l !! k)) as (m1 & E1 & Hl1 & Hd1 & Hx1 & Ho1).
  { destruct (mnMap l !! key x) as [old|] eqn:E.
    - destruct (Hstep x l old) as [Ef Hok]; [left|done..|]. exists (<[key x := g x old]> (mnMap l)). split; [done|]. split; [done|].
      split; [apply dom_insert_lookup_L; by exists old|]. split; [by rewrite lookup_insert_eq|]. intros k Hk. by rewrite lookup_insert_ne.
    - exists (mnMap l). rewrite (Hskip x l) by (by left || done). destruct l. by rewrite E. }
  destruct (IH (set_mn m1 l) Hl1 Hh Hnd) as (m' & E2 & Hl2 & Hin & Hout).
  - intros y l' old Hy Hl' Hh' Hd' Ey Ey1. apply Hstep; [by right|done|done|by rewrite Hd'|done|]. cbn [set_mn mnMap] in Ey1. by rewrite <- Ho1 by auto.
  - intros y l' Hy Ey. apply Hskip; [by right|]. cbn [set_mn mnMap] in Ey. by rewrite <- Ho1 by auto.
  - exists m'. cbn [each]. unfold mbind, action_bind. rewrite E1, E2. split; [done|]. split; [done|]. cbn [set_mn mnMap] in Hin, Hout. split.
    + intros y [->|Hy]%elem_of_cons; [by rewrite Hout|]. rewrite Hin, Ho1 by auto. done.
    + intros k [Hk1 Hk2]%not_elem_of_cons. by rewrite Hout, Ho1.
Qed.

(** ** The loop over all nodes *)

Definition losing (v : NodeView) (dmn : CDeterministicMN) : bool := IsMNValid v dmn && ((0 <? nPoSePenalty (pdmnState dmn)) && negb (IsBanned (pdmnState dmn))).
Definition decreased (v : NodeView) (dmn : CDeterministicMN) : CDeterministicMN :=
  if losing v dmn then set_state (set_penalty (nPoSePenalty (pdmnState dmn) - 1) (pdmnState dmn)) dmn else dmn.
(** every penalty of the list is a number that can be counted with *)
Definition penalties_ok (l : L) : Prop := forall k dmn, mnMap l !! k = Some dmn -> 0 <= nPoSePenalty (pdmnState dmn) < 2 ^ 30.

(** The loop that decreases the penalties always comes to an end without failing an assertion, whatever the order of the nodes: it takes one off
    the penalty of every valid node that has one and is not banned, and changes nothing else. *)
Lemma DecreasePoSePenalties_ok (v : NodeView) (l : L) :
  list_ok l -> penalties_ok l ->
  exists l', DecreasePoSePenalties D v l = (Ok tt, l') /\ list_ok l' /\ l' = set_mn (mnMap l') l /\
    forall k, mnMap l' !! k = decreased v <$> mnMap l !! k.
Proof.
  intros Hl Hp. unfold DecreasePoSePenalties, ForEachMN. rewrite list_filter_filter. set (ns := filter _ (nodes l)).
  assert (forall dmn, dmn ∈ ns <-> mnMap l !! proTxHash dmn = Some dmn /\ losing v dmn = true) as Hns.
  { intros dmn. unfold ns. rewrite list_elem_of_filter, elem_of_nodes by done. unfold losing. cbn [negb orb]. rewrite !andb_true_iff. tauto. }
  assert (forall k dmn, mnMap l !! k = Some dmn -> k ∈ proTxHash <$> ns <-> losing v dmn = true) as Hk.
  { intros k dmn E. destruct (list_node D l Hl _ _ E) as (Ek & _). rewrite list_elem_of_fmap. split.
    - intros (n & -> & [En Hn]%Hns). congruence.
    - intros Hn. exists dmn. split; [done|]. apply Hns. by rewrite Ek. }
  destruct (each_update id (PoSeDecrease D) (λ _, decreased v) (nHeight l) (proTxHash <$> ns) l Hl eq_refl) as (m' & E & Hok & Hin & Hout).
  - rewrite list_fmap_id. apply NoDup_fmap_2_strong; [|by apply NoDup_filter, (NoDup_nodes D)].
    intros a b [Ea _]%Hns [Eb _]%Hns Hab. rewrite Hab in Ea. congruence.
  - intros k l' old Hkin Hl' _ _ Eold E0. unfold id in *. pose proof (proj1 (Hk k old E0) Hkin) as Hlose. pose proof (Hp _ _ E0) as Hb.
    assert (decreased v old = set_state (set_penalty (nPoSePenalty (pdmnState old) - 1) (pdmnState old)) old) as ->
      by (unfold decreased; by rewrite Hlose).
    unfold losing in Hlose. rewrite !andb_true_iff, negb_true_iff, Z.ltb_lt in Hlose. destruct Hlose as (_ & Hpos & Hban).
    apply PoSeDecrease_ok; [done|done|lia|done].
  - intros k l' (n & -> & [En _]%Hns)%list_elem_of_fmap E0 _. unfold id in E0. congruence.
  - exists (set_mn m' l). split; [exact E|]. split; [done|]. split; [done|]. intros k. cbn [set_mn mnMap]. rewrite list_fmap_id in Hout.
    destruct (decide (k ∈ proTxHash <$> ns)) as [Hkin|Hkout]; [by apply Hin|]. rewrite Hout by done.
    destruct (mnMap l !! k) as [dmn|] eqn:E0; [|done]. cbn. unfold decreased. destruct (losing v dmn) eqn:El; [|done].
    exfalso. by apply Hkout, (Hk k dmn E0).
Qed.

(** ** The loop over the members of a quorum *)

(** the member [k] failed *)
Definition fails (k : list Z) (c : list CDeterministicMN * list bool) : bool := bool_decide ((k, false) ∈ zip (proTxHash <$> c.1) c.2).
(** each member once, with its bit *)
Definition commitment_ok (c : list CDeterministicMN * list bool) : Prop := NoDup (proTxHash <$> c.1) /\ length c.2 = length c.1.
(** 66 of a hundred of the maximum *)
Definition share (l : L) : Z := Z.max 100 (size (mnMap l)) * 66 / 100.
Definition failed (l : L) (dmn : CDeterministicMN) : CDeterministicMN :=
  set_state (punished (Z.max 100 (size (mnMap l))) (share l) (nHeight l) (pdmnState dmn)) dmn.

Lemma share_penalty (l l' : L) : GetAllMNsCount l < 2 ^ 24 -> dom (mnMap l') = dom (mnMap l) ->
  CalcPenalty 66 l' = Some (share l) /\ CalcMaxPoSePenalty l' = Z.max 100 (size (mnMap l)) /\ 0 < share l.
Proof.
  intros Hc Hd. assert (size (mnMap l') = size (mnMap l)) as Hs by (by rewrite <- !size_dom, Hd).
  assert (CalcMaxPoSePenalty l' = Z.max 100 (size (mnMap l))) as Hm by (rewrite max_penalty, Hs by (unfold GetAllMNsCount in *; lia); done).
  unfold GetAllMNsCount in Hc. unfold CalcPenalty, share. rewrite Hm. cbn [Z.ltb Z.compare]. rewrite sint_small by (done || unfold in_sint; cbn; lia).
  rewrite Z.quot_div_nonneg by lia. split; [done|]. split; [done|]. apply Z.div_str_pos. lia.
Qed.

Lemma HandleQuorumCommitment_ok (c : list CDeterministicMN * list bool) (l : L) :
  list_ok l -> commitment_ok c -> GetAllMNsCount l < 2 ^ 24 ->
  exists l', HandleQuorumCommitment D c.1 c.2 l = (Ok tt, l') /\ list_ok l' /\ l' = set_mn (mnMap l') l /\
    forall k, mnMap l' !! k = (if fails k c then failed l else id) <$> mnMap l !! k.
Proof.
  destruct c as [members valid]. cbn [fst snd]. intros Hl [Hnd Hlen] Hc. cbn [fst snd] in Hnd, Hlen.
  set (key := λ p : nat * CDeterministicMN, proTxHash p.2).
  assert (key <$> imap pair members = proTxHash <$> members) as Hkey by (rewrite fmap_imap; apply imap_const).
  assert (forall i m, (i, m) ∈ imap pair members -> members !! i = Some m) as Him.
  { intros i m (j & x & [= -> ->] & Hx)%elem_of_lookup_imap. done. }
  assert (forall i m, members !! i = Some m -> exists b, valid !! i = Some b /\ fails (proTxHash m) (members, valid) = negb b) as Hbit.
  { intros i m Hi. destruct (lookup_lt_is_Some_2 valid i) as [b Hb]; [rewrite Hlen; by eapply lookup_lt_Some|]. exists b. split; [done|].
    unfold fails. cbn [fst snd]. destruct b; cbn [negb]; [apply bool_decide_false|apply bool_decide_true].
    - intros (j & (x & y & [= <- <-] & Hx & Hy)%lookup_zip_with_Some)%list_elem_of_lookup.
      assert (i = j) as <-; [|congruence]. eapply (NoDup_lookup (proTxHash <$> members)); [done|by rewrite list_lookup_fmap, Hi|done].
    - apply list_elem_of_lookup. exists i. apply lookup_zip_with_Some. exists (proTxHash m), false. by rewrite list_lookup_fmap, Hi. }
  destruct (each_update key (punish_member D valid) (λ p, if fails (proTxHash p.2) (members, valid) then failed l else id) (nHeight l) (imap pair members) l Hl eq_refl)
    as (m' & E & Hok & Hin & Hout).
  - by rewrite Hkey.
  - intros [i m] l' old Hx%Him Hl' Hh Hd Eold _. unfold key in *. cbn [snd] in *. destruct (Hbit i m Hx) as (b & Hb & Hf).
    unfold punish_member. cbn [fst snd]. unfold HasMN, GetMN. rewrite Eold, Hb. cbn [negb]. rewrite Hf. destruct b; cbn [negb id].
    + rewrite insert_id by done. by destruct l'.
    + destruct (share_penalty l l' Hc Hd) as (-> & Hmax & Hpos). unfold failed. rewrite <- Hh, <- Hmax. by apply PoSePunish_ok.
  - intros [i m] l' _ _ E0. unfold key in E0. cbn [snd] in E0. unfold punish_member, HasMN, GetMN. cbn [snd]. by rewrite E0.
  - exists (set_mn m' l). split; [exact E|]. split; [done|]. split; [done|]. intros k. cbn [set_mn mnMap].
    destruct (decide (k ∈ key <$> imap pair members)) as [Hk|Hk].
    + apply list_elem_of_fmap in Hk as ([i m] & -> & Hx). by apply (Hin (i, m)).
    + rewrite Hout by done. assert (fails k (members, valid) = false) as ->; [|by destruct (mnMap l !! k)].
      apply bool_decide_false. cbn [fst snd]. intros Hz%elem_of_zip_l. apply Hk. by rewrite Hkey.
Qed.
(** ** Blocks

    The part of [BuildNewListFromBlock] that changes penalties, in its order: the height is set, the penalties are decreased at the heights
    that ask for it, and the commitments of the block are handled. *)

Record block_events := mkEvents { height_of : Z; spork_active : bool; view_of : NodeView; commitments : list (list CDeterministicMN * list bool) }.
Definition block_penalties (b : block_events) : action L unit := λ l,
  (_ ← (if isDecrease (spork_active b) (height_of b) then DecreasePoSePenalties D (view_of b) else mret tt);
   each (λ c, HandleQuorumCommitment D c.1 c.2) (commitments b)) (SetHeight (height_of b) l).

(** blocks of consecutive heights, whose commitments were checked *)
Definition consecutive (h : Z) (bs : list block_events) : Prop :=
  (forall (i : nat) b, bs !! i = Some b -> height_of b = h + i) /\ Forall (λ b, Forall commitment_ok (commitments b)) bs.
(** how often the node failed *)
Definition failures_in (k : list Z) (cs : list (list CDeterministicMN * list bool)) : Z := length (filter (λ c, fails k c = true) cs).
Definition failures (k : list Z) (bs : list block_events) : Z := foldr (λ b t, failures_in k (commitments b) + t) 0 bs.

Lemma SetHeight_ok h (l : L) : list_ok l -> list_ok (SetHeight h l).
Proof. by intros [H1 H2 H3]. Qed.
Lemma size_pointwise (g : list Z -> CDeterministicMN -> CDeterministicMN) (m m' : gmap (list Z) CDeterministicMN) :
  (forall k, m' !! k = g k <$> m !! k) -> size m' = size m.
Proof.
  intros H. rewrite <- !size_dom. f_equal. apply set_eq. intros k. rewrite !elem_of_dom, H. by rewrite fmap_is_Some.
Qed.

(** the node [k] of a list of [n] nodes is banned, or has kept its penalties: [f] failures, of which at most [d] was taken off *)
Definition standing (n : nat) (k : list Z) (f d : Z) (l : L) : Prop :=
  list_ok l /\ penalties_ok l /\ size (mnMap l) = n /\ exists dmn, mnMap l !! k = Some dmn /\
    (IsBanned (pdmnState dmn) = true \/
     f * (Z.max 100 n * 66 / 100) <= nPoSePenalty (pdmnState dmn) + d /\ (f = 0 \/ nPoSePenalty (pdmnState dmn) < Z.max 100 n)).

Lemma standing_weaken n k f d d' l : d <= d' -> standing n k f d l -> standing n k f d' l.
Proof.
  intros Hd (H1 & H2 & H3 & dmn & E & H). split; [done|]. split; [done|]. split; [done|]. exists dmn. split; [done|]. destruct H as [H|[H4 H5]]; [by left|].
  right. split; [lia|done].
Qed.

Lemma standing_decrease n k f d v l : standing n k f d l ->
  exists l', DecreasePoSePenalties D v l = (Ok tt, l') /\ nHeight l' = nHeight l /\ standing n k f (d + 1) l'.
Proof.
  intros (Hl & Hp & Hn & dmn & E & H). destruct (DecreasePoSePenalties_ok v l Hl Hp) as (l' & Ed & Hl' & Heq & Hk). exists l'. split; [done|].
  split; [by rewrite Heq|]. split; [done|]. split; [|split; [|exists (decreased v dmn); split; [by rewrite Hk, E|]]].
  - intros q x. rewrite Hk. intros (y & Ey & ->)%fmap_Some. pose proof (Hp q y Ey). unfold decreased. destruct (losing v y) eqn:El; [|done].
    unfold losing in El. rewrite !andb_true_iff, Z.ltb_lt in El. cbn. lia.
  - rewrite <- Hn. by apply (size_pointwise (λ _, decreased v)).
  - pose proof (Hp k dmn E). unfold decreased. destruct (losing v dmn); [|destruct H as [H|[? ?]]; [by left|right; split; [lia|done]]].
    cbn [set_state pdmnState]. destruct H as [H|[? ?]]; [by left|right]. cbn [set_penalty nPoSePenalty]. split; lia.
Qed.

Lemma standing_commitment (n : nat) k f d c l : commitment_ok c -> n < 2 ^ 24 -> 0 <= nHeight l -> standing n k f d l ->
  exists l', HandleQuorumCommitment D c.1 c.2 l = (Ok tt, l') /\ nHeight l' = nHeight l /\ standing n k (if fails k c then f + 1 else f) d l'.
Proof.
  intros Hc Hn Hh (Hl & Hp & Hsz & dmn & E & H). destruct (HandleQuorumCommitment_ok c l Hl Hc) as (l' & Ed & Hl' & Heq & Hk); [unfold GetAllMNsCount; lia|].
  exists l'. split; [done|]. split; [by rewrite Heq|]. split; [done|].
  assert (0 < share l) as Hs by (unfold share; apply Z.div_str_pos; lia). assert (share l < 2 ^ 24) as Hs2 by (unfold share; apply Z.div_lt_upper_bound; lia).
  split; [|split; [|exists ((if fails k c then failed l else id) dmn); split; [by rewrite Hk, E|]]].
  - intros q x. rewrite Hk. intros (y & Ey & ->)%fmap_Some. pose proof (Hp q y Ey). destruct (fails q c); [|done].
    unfold failed. cbn [set_state pdmnState]. rewrite punished_eq, sint_small by (done || unfold in_sint; lia). cbv zeta.
    assert (0 <= Z.min (Z.max 100 (size (mnMap l))) (nPoSePenalty (pdmnState y) + share l) < 2 ^ 30) as Hb by lia.
    by destruct (_ && _).
  - rewrite <- Hsz. by apply (size_pointwise (λ q, if fails q c then failed l else id)).
  - destruct (fails k c); [|done]. unfold failed. cbn [set_state pdmnState]. pose proof (Hp k dmn E) as Hb.
    destruct (IsBanned (pdmnState dmn)) eqn:Eb.
    + left. rewrite punished_eq, Eb. cbv zeta. by rewrite andb_false_r.
    + destruct (punished_state (Z.max 100 (size (mnMap l))) (share l) (nHeight l) (pdmnState dmn) Eb) as [Hq Hban]; [lia|done|lia|].
      unfold IsBanned. rewrite Hban, Hq, Hsz. clear Hban Hq.
      case_decide as Hd; [left; rewrite negb_true_iff, Z.eqb_neq; lia|right].
      destruct H as [?|[H1 _]]; [done|]. fold (share l). assert (share l = Z.max 100 n * 66 / 100) as Hsh by (unfold share; by rewrite Hsz). rewrite <- Hsh in *. rewrite Z.mul_add_distr_r. split; [lia|right; lia].
Qed.

Lemma standing_commitments (n : nat) k d cs : Forall commitment_ok cs -> n < 2 ^ 24 -> forall f l, 0 <= nHeight l -> standing n k f d l ->
  exists l', each (λ c, HandleQuorumCommitment D c.1 c.2) cs l = (Ok tt, l') /\ standing n k (f + failures_in k cs) d l'.
Proof.
  intros Hcs Hn. induction Hcs as [|c cs Hc _ IH]; intros f l Hh Hs.
  { exists l. split; [done|]. by replace (f + failures_in k []) with f by (unfold failures_in, failures; cbn; lia). }
  destruct (standing_commitment n k f d c l Hc Hn Hh Hs) as (l1 & E1 & Hh1 & Hs1).
  destruct (IH _ l1 ltac:(lia) Hs1) as (l2 & E2 & Hs2). exists l2. cbn [each]. unfold mbind, action_bind. rewrite E1, E2. split; [done|].
  unfold failures_in in *. rewrite filter_cons. destruct (fails k c); cbn [length]; case_decide; try done; revert Hs2; match goal with |- standing _ _ ?a _ _ -> standing _ _ ?b _ _ => replace b with a by (cbn [length]; lia) end; done.
Qed.

Lemma decreases_even spork h : 0 <= h -> isDecrease spork h = true -> h mod 2 = 0.
Proof.
  unfold isDecrease. intros Hh. destruct spork; rewrite Z.eqb_eq, Z.rem_mod_nonneg by lia; [|done].
  intros Hm%Z.mod_divide; [|lia]. destruct Hm as [q ->]. replace (q * 30) with (q * 15 * 2) by lia. apply Z.mod_mul. lia.
Qed.

(** penalties are decreased in every second block at most *)
Lemma standing_blocks (n : nat) k bs : n < 2 ^ 24 -> forall h f d l, 0 <= h -> consecutive h bs -> standing n k f d l ->
  exists l', each block_penalties bs l = (Ok tt, l') /\ standing n k (f + failures k bs) (d + (length bs + (h + 1) mod 2) / 2) l'.
Proof.
  intros Hn. induction bs as [|b bs IH]; intros h f d l Hh [Hc1 Hc2] Hs.
  { exists l. split; [done|]. replace (f + failures k []) with f by (unfold failures; cbn; lia). eapply standing_weaken; [|done]. pose proof (Z.mod_pos_bound (h + 1) 2).
    pose proof (Z.div_pos (length (@nil block_events) + (h + 1) mod 2) 2). lia. }
  apply Forall_cons in Hc2 as [Hcs Hc2]. assert (height_of b = h) as Hbh by (rewrite (Hc1 0%nat b eq_refl); lia).
  assert (consecutive (h + 1) bs) as Hcons by (split; [intros i b' Hi; rewrite (Hc1 (S i) b' Hi); lia|done]).
  assert (standing n k f d (SetHeight h l)) as Hs0 by (destruct Hs as (H1 & H2); split; [by apply SetHeight_ok|done]).
  set (e := if isDecrease (spork_active b) h then 1 else 0).
  assert (exists l1, (if isDecrease (spork_active b) h then DecreasePoSePenalties D (view_of b) else mret tt) (SetHeight h l) = (Ok tt, l1) /\
    nHeight l1 = h /\ standing n k f (d + e) l1) as (l1 & E1 & Hh1 & Hs1).
  { unfold e. destruct (isDecrease _ _); [|exists (SetHeight h l); replace (d + 0) with d by lia; done].
    destruct (standing_decrease n k f d (view_of b) _ Hs0) as (l1 & E1 & Hh1 & Hs1). by exists l1. }
  destruct (standing_commitments n k (d + e) (commitments b) Hcs Hn f l1 ltac:(lia) Hs1) as (l2 & E2 & Hs2).
  destruct (IH (h + 1) _ _ l2 ltac:(lia) Hcons Hs2) as (l3 & E3 & Hs3). exists l3. cbn [each]. unfold mbind, action_bind.
  assert (block_penalties b l = (Ok tt, l2)) as ->.
  { unfold block_penalties. rewrite Hbh. unfold mbind, action_bind. by rewrite E1, E2. }
  rewrite E3. split; [done|]. replace (f + failures k (b :: bs)) with (f + failures_in k (commitments b) + failures k bs) by (cbn [failures foldr]; fold (failures k bs); lia).
  eapply standing_weaken; [|exact Hs3]. cbn [length]. rewrite Nat2Z.inj_succ.
  assert (e = 1 -> h mod 2 = 0) as He by (unfold e; destruct (isDecrease _ _) eqn:Ed; [intros _; by eapply decreases_even|done]).
  assert (e = 0 \/ e = 1) as He' by (unfold e; destruct (isDecrease _ _); auto). clear -He He' Hh.
  pose proof (Z.mod_pos_bound h 2). replace (h + 1 + 1) with (h + 1 * 2) by lia. rewrite Z.mod_add by lia.
  assert ((h + 1) mod 2 = 1 - h mod 2) as ->.
  { rewrite <- Z.add_mod_idemp_l by lia. assert (h mod 2 = 0 \/ h mod 2 = 1) as [-> | ->] by lia; done. }
  pose proof (Z.div_mod (length bs + h mod 2) 2). pose proof (Z.mod_pos_bound (length bs + h mod 2) 2).
  pose proof (Z.div_mod (Z.succ (length bs) + (1 - h mod 2)) 2). pose proof (Z.mod_pos_bound (Z.succ (length bs) + (1 - h mod 2)) 2). lia.
Qed.

(** C39: What the share of 66 percent is for: in a list that nothing else changes (of less than 2^24 nodes, with penalties below 2^30), a node
    that fails its quorums twice within half as many consecutive blocks as the maximum of the penalty, or three times within as many (the time in
    which every node is paid once), is banned at the end, whatever the order of the failures and decreases and whichever nodes are valid, and no
    assertion fails on the way.  The commitments of the blocks have each member once, with its bit. *)
Theorem failing_node_banned (l : L) (k : list Z) (dmn : CDeterministicMN) (h : Z) (bs : list block_events) :
  list_ok l -> penalties_ok l -> GetAllMNsCount l < 2 ^ 24 -> mnMap l !! k = Some dmn -> 0 <= h -> consecutive h bs ->
  let max := Z.max 100 (size (mnMap l)) in
  2 <= failures k bs /\ length bs <= max / 2 \/ 3 <= failures k bs /\ length bs <= max ->
  exists l' new, each block_penalties bs l = (Ok tt, l') /\ list_ok l' /\ mnMap l' !! k = Some new /\ IsBanned (pdmnState new) = true.
Proof.
  intros Hl Hp Hc E Hh Hbs max Hf. unfold GetAllMNsCount in Hc.
  assert (standing (size (mnMap l)) k 0 0 l) as Hs.
  { split; [done|]. split; [done|]. split; [done|]. exists dmn. split; [done|]. right. pose proof (Hp k dmn E). split; [lia|by left]. }
  destruct (standing_blocks (size (mnMap l)) k bs Hc h 0 0 l Hh Hbs Hs) as (l' & Er & Hl' & _ & _ & new & En & H).
  exists l', new. split; [done|]. split; [done|]. split; [done|]. destruct H as [H|[H1 H2]]; [done|exfalso]. fold max in H1, H2.
  set (p := max * 66 / 100) in *. assert (max * 66 - 99 <= 100 * p) as Hp100 by (unfold p; pose proof (Z.div_mod (max * 66) 100); pose proof (Z.mod_pos_bound (max * 66) 100); lia).
  pose proof (Z.mod_pos_bound (h + 1) 2). pose proof (Z.div_mod (length bs + (h + 1) mod 2) 2). pose proof (Z.mod_pos_bound (length bs + (h + 1) mod 2) 2).
  pose proof (Z.div_mod max 2). pose proof (Z.mod_pos_bound max 2). assert (100 <= max) by (unfold max; lia).
  destruct Hf as [[Hf Hb]|[Hf Hb]]; [assert (2 * p <= failures k bs * p) by (apply Z.mul_le_mono_nonneg_r; lia)|assert (3 * p <= failures k bs * p) by (apply Z.mul_le_mono_nonneg_r; lia)]; lia.
Qed.
End pose.

(** ** The hypotheses can be met: one of two nodes fails in two blocks that follow each other *)

#[local] Existing Instance example_keys.
#[local] Existing Instance example_laws.
Definition failing_block (h : Z) : block_events := mkEvents h false example_view [([node_b; node_a], [true; false])].
Lemma example_penalties_ok : penalties_ok example_list.
Proof. by intros k dmn [[-> ->]|[-> ->]]%example_nodes. Qed.

Lemma failing_node_banned_witness :
  failures (replicate 32 5) [failing_block 2000000; failing_block 2000001] = 2 /\
  exists l' new, each (block_penalties Sha256.standard) [failing_block 2000000; failing_block 2000001] example_list = (Ok tt, l') /\
    mnMap l' !! replicate 32 5 = Some new /\ IsBanned (pdmnState new) = true.
Proof.
  assert (mnMap example_list !! replicate 32 5 = Some node_a) as Ha by (rewrite example_list_map; reflexivity).
  assert (size (mnMap example_list) = 2%nat) as Hs by (rewrite example_list_map; reflexivity).
  assert (failures (replicate 32 5) [failing_block 2000000; failing_block 2000001] = 2) as Hf by (vm_compute; reflexivity).
  pose proof (failing_node_banned Sha256.standard) as H.
  specialize (H example_list (replicate 32 5) node_a 2000000 [failing_block 2000000; failing_block 2000001] example_list_ok example_penalties_ok).
  destruct H as (l' & new & E & _ & En & Hb); [unfold GetAllMNsCount; rewrite Hs; reflexivity|exact Ha|discriminate| | |].
  - split.
    + intros [|[|i]] b; [intros [= <-]; reflexivity..|discriminate].
    + assert (commitment_ok ([node_b; node_a], [true; false])) as Hc by (split; [apply (bool_decide_unpack _); vm_compute; exact I|reflexivity]).
      constructor; [constructor; [exact Hc|constructor]|]. constructor; [constructor; [exact Hc|constructor]|constructor].
  - left. rewrite Hf, Hs. split; [discriminate|vm_compute; discriminate].
  - split; [exact Hf|]. exists l', new. split; [exact E|]. split; [exact En|exact Hb].
Defined.
