(* ===== verification/MNDiff.v ===== *)
(** * Differences of states and of lists of smartnodes *)

From stdpp Require Import sorting.
From S2P Require Import Prelude Bytes Streams Serialize SerializeLaws SerializeCodecs ShaSpec Sha256 Sha256Laws Hash Uint256 Transaction Coins NetAddress NetAddressLaws StdContainers LruCache Bls ProviderTx ProviderTxLaws MNState MNList MNListLaws MNListProps.

(** ** Fields *)

Definition same_on (f : Field) (s t : CDeterministicMNState) : Prop :=
  match f with
  | Field_nRegisteredHeight => nRegisteredHeight s = nRegisteredHeight t
  | Field_nLastPaidHeight => nLastPaidHeight s = nLastPaidHeight t
  | Field_nPoSePenalty => nPoSePenalty s = nPoSePenalty t
  | Field_nPoSeRevivedHeight => nPoSeRevivedHeight s = nPoSeRevivedHeight t
  | Field_nPoSeBanHeight => nPoSeBanHeight s = nPoSeBanHeight t
  | Field_nRevocationReason => nRevocationReason s = nRevocationReason t
  | Field_confirmedHash => confirmedHash s = confirmedHash t
  | Field_confirmedHashWithProRegTxHash => confirmedHashWithProRegTxHash s = confirmedHashWithProRegTxHash t
  | Field_keyIDOwner => keyIDOwner s = keyIDOwner t
  | Field_pubKeyOperator => pubKeyOperator s = pubKeyOperator t
  | Field_keyIDVoting => keyIDVoting s = keyIDVoting t
  | Field_addr => addr s = addr t
  | Field_scriptPayout => scriptPayout s = scriptPayout t
  | Field_scriptOperatorPayout => scriptOperatorPayout s = scriptOperatorPayout t
  end.

Lemma same_on_all s t : (forall f, same_on f s t) -> s = t.
Proof.
  intros H. destruct s, t.
  pose proof (H Field_nRegisteredHeight). pose proof (H Field_nLastPaidHeight). pose proof (H Field_nPoSePenalty). pose proof (H Field_nPoSeRevivedHeight).
  pose proof (H Field_nPoSeBanHeight). pose proof (H Field_nRevocationReason). pose proof (H Field_confirmedHash). pose proof (H Field_confirmedHashWithProRegTxHash).
  pose proof (H Field_keyIDOwner). pose proof (H Field_pubKeyOperator). pose proof (H Field_keyIDVoting). pose proof (H Field_addr).
  pose proof (H Field_scriptPayout). pose proof (H Field_scriptOperatorPayout). cbn in *. by subst.
Qed.
Lemma same_on_set f from to : same_on f (set_field f from to) from.
Proof. by destruct f. Qed.
Lemma same_on_other f g from to : f <> g -> same_on f (set_field g from to) to.
Proof. destruct f, g; intros Hne; first [reflexivity|by destruct Hne]. Qed.
Lemma same_on_trans f s t u : same_on f s t -> same_on f t u -> same_on f s u.
Proof. destruct f; cbn; congruence. Qed.
Lemma same_on_refl f s : same_on f s s.
Proof. by destruct f. Qed.
Lemma field_eqb_same f a b : service_ok (addr a) -> service_ok (addr b) -> field_eqb f a b = true <-> same_on f a b.
Proof. intros Ha Hb. destruct f; cbn; rewrite ?bool_decide_eq_true; try done. by apply CService_eqb_spec. Qed.
Lemma all_fields_all f : f ∈ all_fields.
Proof. destruct f; unfold all_fields; set_solver. Qed.

Definition field_index (f : Field) : Z :=
  match f with
  | Field_nRegisteredHeight => 0 | Field_nLastPaidHeight => 1 | Field_nPoSePenalty => 2 | Field_nPoSeRevivedHeight => 3
  | Field_nPoSeBanHeight => 4 | Field_nRevocationReason => 5 | Field_confirmedHash => 6 | Field_confirmedHashWithProRegTxHash => 7
  | Field_keyIDOwner => 8 | Field_pubKeyOperator => 9 | Field_keyIDVoting => 10 | Field_addr => 11 | Field_scriptPayout => 12
  | Field_scriptOperatorPayout => 13
  end.
Lemma field_bit_pow f : field_bit f = 2 ^ field_index f.
Proof. by destruct f. Qed.
Lemma field_index_inj f g : field_index f = field_index g -> f = g.
Proof. destruct f, g; first [reflexivity|discriminate]. Qed.
Lemma field_index_range f : 0 <= field_index f < 14.
Proof. destruct f; cbn; lia. Qed.

Lemma has_field_testbit d f : has_field d f = Z.testbit (fields d) (field_index f).
Proof. unfold has_field. rewrite field_bit_pow, <- Z.shiftl_1_l, land_bit_zero by apply field_index_range. apply negb_involutive. Qed.

(** the difference has the fields that differ, with the values of the second state *)
Lemma diff_loop a b fs :
  let d := foldl (λ d f, if negb (field_eqb f a b) then mkStateDiff (fields d ||| field_bit f) (set_field f b (diff_state d)) else d) CDeterministicMNStateDiff_new fs in
  (forall f, has_field d f = bool_decide (f ∈ fs) && negb (field_eqb f a b)) /\
  (forall f, f ∈ fs -> field_eqb f a b = false -> same_on f (diff_state d) b) /\ 0 <= fields d.
Proof.
  induction fs as [|g fs IH] using rev_ind; cbn zeta.
  { split; [|split; [by intros f ?%elem_of_nil|done]]. intros f. rewrite has_field_testbit. cbn [foldl CDeterministicMNStateDiff_new fields]. by rewrite Z.bits_0. }
  rewrite foldl_app. cbn [foldl]. set (d := foldl _ _ fs) in *. destruct IH as (IH1 & IH2 & IH3).
  assert (forall f, bool_decide (f ∈ fs ++ [g]) = bool_decide (f ∈ fs) || bool_decide (f = g)) as Hin.
  { intros f. apply eq_bool_prop_intro. rewrite orb_True, !bool_decide_spec. set_solver. }
  destruct (field_eqb g a b) eqn:Eg; cbn [negb].
  - split; [|split; [|done]].
    + intros f. rewrite IH1, Hin. destruct (bool_decide_reflect (f = g)) as [->|]; [by rewrite Eg, !andb_false_r|by rewrite orb_false_r].
    + intros f [Hf|Hf%list_elem_of_singleton]%elem_of_app E; [by apply IH2|]. subst f. congruence.
  - split; [|split].
    + intros f. rewrite Hin, has_field_testbit. cbn [fields]. rewrite Z.lor_spec, <- has_field_testbit, IH1, field_bit_pow, Z.pow2_bits_eqb by apply field_index_range.
      destruct (bool_decide_reflect (f = g)) as [->|Hne].
      * rewrite Z.eqb_refl, Eg. by rewrite !orb_true_r.
      * rewrite (proj2 (Z.eqb_neq _ _)) by (intros E; by apply Hne, field_index_inj). by rewrite !orb_false_r.
    + intros f Hf E. cbn [diff_state]. destruct (decide (f = g)) as [->|Hne]; [apply same_on_set|].
      apply (same_on_trans _ _ (diff_state d)); [by apply same_on_other|]. apply IH2; [set_solver|done].
    + cbn [fields]. apply Z.lor_nonneg. split; [done|]. rewrite field_bit_pow. apply Z.pow_nonneg. lia.
Qed.

Lemma diff_spec a b :
  (forall f, has_field (CDeterministicMNStateDiff_of a b) f = negb (field_eqb f a b)) /\
  (forall f, field_eqb f a b = false -> same_on f (diff_state (CDeterministicMNStateDiff_of a b)) b).
Proof.
  destruct (diff_loop a b all_fields) as (H1 & H2 & _). split.
  - intros f. etrans; [exact (H1 f)|]. by rewrite bool_decide_true by apply all_fields_all.
  - intros f. apply H2, all_fields_all.
Qed.

Lemma apply_loop d target fs :
  let r := foldl (λ t f, if has_field d f then set_field f (diff_state d) t else t) target fs in
  forall f, same_on f r (if bool_decide (f ∈ fs) && has_field d f then diff_state d else target).
Proof.
  cbn zeta. induction fs as [|g fs IH] using rev_ind; intros f; [apply same_on_refl|]. rewrite foldl_app. cbn [foldl]. set (r := foldl _ _ fs) in *.
  specialize (IH f). destruct (decide (f = g)) as [->|Hne].
  - rewrite bool_decide_true by set_solver. cbn [andb]. destruct (has_field d g); [apply same_on_set|]. by rewrite andb_false_r in IH.
  - rewrite (bool_decide_ext (f ∈ fs ++ [g]) (f ∈ fs)) by set_solver. eapply same_on_trans; [|exact IH].
    destruct (has_field d g); [by apply same_on_other|apply same_on_refl].
Qed.

Lemma state_diff_apply a b : service_ok (addr a) -> service_ok (addr b) -> ApplyToState (CDeterministicMNStateDiff_of a b) a = b.
Proof.
  intros Ha Hb. destruct (diff_spec a b) as [H1 H2].
  apply same_on_all. intros f. eapply same_on_trans; [apply apply_loop|]. rewrite H1, bool_decide_true by apply all_fields_all. cbn [andb].
  destruct (field_eqb f a b) eqn:E; cbn [negb]; [by apply field_eqb_same|by apply H2].
Qed.
Lemma state_diff_fields a b : service_ok (addr a) -> service_ok (addr b) -> fields (CDeterministicMNStateDiff_of a b) = 0 <-> a = b.
Proof.
  intros Ha Hb. destruct (diff_spec a b) as [H1 _]. split.
  - intros H0. apply same_on_all. intros f. apply field_eqb_same; [done..|]. specialize (H1 f). rewrite has_field_testbit, H0, Z.bits_0 in H1.
    symmetry in H1. by apply negb_false_iff in H1.
  - intros ->. unfold CDeterministicMNStateDiff_of. assert (forall f, field_eqb f b b = true) as E by (intros f; apply field_eqb_same; [done..|apply same_on_refl]).
    generalize all_fields. intros fs. induction fs as [|g fs IH] using rev_ind; [done|]. rewrite foldl_app. cbn [foldl]. by rewrite E.
Qed.

(** ** Lists *)

Section lists.
Context (D : Sha256.dispatch) `{HD : !GoodDispatch D} `{HK : !BlsImpl BLS_CURVE_PUBKEY_SIZE} `{HKL : !BlsImplLaws BLS_CURVE_PUBKEY_SIZE} `{HI : MnIteration}.
#[local] Abbreviation L := CDeterministicMNList.
#[local] Abbreviation list_ok := (list_ok D).
#[local] Abbreviation props := (props D).

(** the map of the nodes determines the other two *)
Lemma list_determined (l l' : L) : list_ok l -> list_ok l' -> mnMap l = mnMap l' ->
  mnInternalIdMap l = mnInternalIdMap l' /\ mnUniquePropertyMap l = mnUniquePropertyMap l'.
Proof.
  intros Hl Hl' E. split.
  - apply map_eq. intros id. apply option_eq. intros k. split; intros H.
    + destruct (list_ids D l Hl _ _ H) as (dmn & H1 & <-). rewrite E in H1. by apply (list_node D l' Hl').
    + destruct (list_ids D l' Hl' _ _ H) as (dmn & H1 & <-). rewrite <- E in H1. by apply (list_node D l Hl).
  - apply map_eq. intros h. pose proof (list_unique D l Hl h) as H. pose proof (list_unique D l' Hl' h) as H'. rewrite <- E in H'.
    destruct (mnUniquePropertyMap l !! h) as [[p c]|], (mnUniquePropertyMap l' !! h) as [[p' c']|]; cbn in H, H'; [..|done].
    + destruct H as (H1 & H2 & H3), H' as (H1' & H2' & H3'). destruct (decide (p = p')) as [->|Hne]; [by subst c c'|].
      exfalso. specialize (H3' p Hne). apply occ_out in H3'. lia.
    + destruct H as (H1 & H2 & _). specialize (H' p). apply occ_out in H'. lia.
    + destruct H' as (H1 & H2 & _). specialize (H p'). apply occ_out in H. lia.
Qed.
Lemma id_inj (l : L) a b : list_ok l -> mnMap l !! proTxHash a = Some a -> mnMap l !! proTxHash b = Some b -> internalId a = internalId b -> a = b.
Proof.
  intros Hl Ha Hb E. destruct (list_node D l Hl _ _ Ha) as (_ & _ & Ia), (list_node D l Hl _ _ Hb) as (_ & _ & Ib). rewrite E, Ib in Ia. injection Ia as Ia. rewrite Ia in Hb. congruence.
Qed.
Lemma node_key (l : L) k dmn : list_ok l -> mnMap l !! k = Some dmn -> proTxHash dmn = k.
Proof. intros Hl H. by apply (list_node D l Hl) in H as [? _]. Qed.
Lemma by_id (l : L) dmn : list_ok l -> mnMap l !! proTxHash dmn = Some dmn -> GetMNByInternalId l (internalId dmn) = Some dmn.
Proof. intros Hl H. unfold GetMNByInternalId, GetMN. destruct (list_node D l Hl _ _ H) as (_ & _ & ->). done. Qed.

(** A list that may follow another: a node keeps its identifier, collateral and reward, and takes no property of another
    node that is still there. *)
Record follows (from to : L) : Prop := {
  follows_same k f t : mnMap from !! k = Some f -> mnMap to !! k = Some t ->
    internalId f = internalId t /\ collateralOutpoint f = collateralOutpoint t /\ nOperatorReward f = nOperatorReward t;
  follows_free k t q o : mnMap to !! k = Some t -> mnMap from !! q = Some o -> is_Some (mnMap to !! q) -> q <> k -> props t ## props o;
}.

(** *** The three loops of [ApplyDiff] *)

Section apply.
Context (from to : L) (Hfrom : list_ok from) (Hto : list_ok to) (Hft : follows from to).

Definition header_same (l l' : L) : Prop := blockHash l' = blockHash l /\ nHeight l' = nHeight l.
Definition mixed (l : L) : Prop := forall k o, mnMap l !! k = Some o -> is_Some (mnMap to !! k) /\ (mnMap to !! k = Some o \/ mnMap from !! k = Some o).

Lemma set_state_to f t k : mnMap from !! k = Some f -> mnMap to !! k = Some t -> set_state (pdmnState t) f = t.
Proof.
  intros Hf Ht. destruct (follows_same _ _ Hft _ _ _ Hf Ht) as (E1 & E2 & E3). pose proof (node_key _ _ _ Hfrom Hf). pose proof (node_key _ _ _ Hto Ht).
  destruct f, t. cbn in *. unfold set_state. cbn. by subst.
Qed.

(** a node of the new list has its properties and identifier to itself *)
Lemma mixed_available (l : L) k t : mixed l -> mnMap to !! k = Some t -> available D (mnMap l) t.
Proof.
  intros Hm Ht. pose proof (node_key _ _ _ Hto Ht) as Hk. apply available_spec. intros q o Hq Hne. rewrite Hk in Hne.
  destruct (Hm q o Hq) as [Hs [Ho|Ho]]; [|by apply (follows_free _ _ Hft k t q o)].
  intros h Hh Hh'. by apply Hne, (unique_owner D to q k o t h).
Qed.
Lemma mixed_id (l : L) k t q o : mixed l -> mnMap to !! k = Some t -> mnMap l !! q = Some o -> internalId o = internalId t -> q = k.
Proof.
  intros Hm Ht Hq E. destruct (Hm q o Hq) as [[o' Hs] Ho]. assert (internalId o' = internalId t) as E'.
  { destruct Ho as [Ho|Ho]; [rewrite Ho in Hs; by injection Hs as <-|]. by destruct (follows_same _ _ Hft _ _ _ Ho Hs) as (<- & _). }
  destruct (list_node D to Hto _ _ Ht) as (_ & _ & I1). destruct (list_node D to Hto _ _ Hs) as (_ & _ & I2). congruence.
Qed.

Lemma removals (ids : list Z) (l : L) : NoDup ids -> list_ok l ->
  (forall id, id ∈ ids -> exists f, mnMap l !! proTxHash f = Some f /\ internalId f = id) ->
  exists l', each (λ id : Z, λ result, match GetMNByInternalId result id with
      | None => (Throw "ApplyDiff: can't find a removed smartnode", result)
      | Some dmn => RemoveMN D (proTxHash dmn) result
      end) ids l = (Ok tt, l') /\ list_ok l' /\ header_same l l' /\
    forall k, mnMap l' !! k = match mnMap l !! k with Some f => if decide (internalId f ∈ ids) then None else Some f | None => None end.
Proof.
  revert l. induction ids as [|id ids IH]; intros l Hnd Hl Hin.
  - exists l. split; [done|]. split; [done|]. split; [done|]. intros k. destruct (mnMap l !! k); [|done]. rewrite decide_False by apply not_elem_of_nil. done.
  - apply NoDup_cons in Hnd as [Hid Hnd]. destruct (Hin id) as (f & Hf & Ef); [by left|]. cbn [each]. unfold mbind, action_bind.
    rewrite <- Ef, (by_id l f Hl Hf). pose proof (RemoveMN_cases D (proTxHash f) l Hl) as Hc. destruct (RemoveMN D (proTxHash f) l) as [[[]|e] l1]; [|by destruct Hc as [_ Hc]; rewrite Hf in Hc].
    destruct Hc as (f' & Hf' & Hl1 & u & El1). rewrite Hf in Hf'. injection Hf' as <-.
    assert (mnMap l1 = delete (proTxHash f) (mnMap l)) as Em by by rewrite El1.
    destruct (IH l1 Hnd Hl1) as (l' & E & Hl' & [Hh1 Hh2] & Hk).
    { intros id' Hin'. destruct (Hin id') as (g & Hg & Eg); [by right|]. exists g. split; [|done]. rewrite Em, lookup_delete_ne; [done|].
      intros E. rewrite <- E, Hf in Hg. injection Hg as <-. subst id'. by rewrite <- Ef in Hid. }
    exists l'. split; [exact E|]. split; [done|]. split; [split; [rewrite Hh1|rewrite Hh2]; by rewrite El1|]. intros k. rewrite Hk, Em.
    destruct (decide (k = proTxHash f)) as [->|Hne].
    + rewrite lookup_delete_eq, Hf, decide_True by (rewrite Ef; by left). done.
    + rewrite lookup_delete_ne by done. destruct (mnMap l !! k) as [g|] eqn:Eg; [|done]. 
      destruct (decide (internalId g ∈ ids)) as [Hd|Hd]; [by rewrite decide_True by by right|]. rewrite decide_False; [done|].
      intros [Ei|]%elem_of_cons; [|done]. apply Hne. pose proof (node_key _ _ _ Hl Eg) as <-. f_equal. by apply (id_inj l).
Qed.

Lemma additions (ts : list CDeterministicMN) (l : L) : NoDup ts -> list_ok l -> mixed l ->
  (forall t, t ∈ ts -> mnMap to !! proTxHash t = Some t /\ mnMap l !! proTxHash t = None) ->
  exists l', each (λ dmn, AddMN D dmn true) ts l = (Ok tt, l') /\ list_ok l' /\ mixed l' /\ header_same l l' /\
    forall k, mnMap l' !! k = if decide (k ∈ proTxHash <$> ts) then mnMap to !! k else mnMap l !! k.
Proof.
  revert l. induction ts as [|t ts IH]; intros l Hnd Hl Hm Hin.
  - exists l. split; [done|]. by split_and!.
  - apply NoDup_cons in Hnd as [Ht Hnd]. destruct (Hin t) as [Htt Htl]; [by left|]. cbn [each]. unfold mbind, action_bind.
    destruct (list_node D to Hto _ _ Htt) as (_ & Hok & _). pose proof (AddMN_cases D t true l Hl Hok) as Hc. cbv zeta in Hc.
    destruct (AddMN D t true l) as [[[]|e] l1].
    2:{ exfalso. destruct Hc as [_ Hc]. apply Hc. split; [done|]. split; [|by eapply mixed_available].
        destruct (mnInternalIdMap l !! internalId t) as [q|] eqn:Eq; [|done]. destruct (list_ids D l Hl _ _ Eq) as (o & Ho & Ei).
        rewrite (mixed_id l _ t q o Hm Htt Ho Ei) in Ho. congruence. }
    destruct Hc as (_ & Hl1 & u & El1). assert (mnMap l1 = <[proTxHash t := t]> (mnMap l)) as Em by by rewrite El1.
    destruct (IH l1 Hnd Hl1) as (l' & E & Hl' & Hm' & [Hh1 Hh2] & Hk).
    + intros k o. rewrite Em, lookup_insert_Some. intros [[<- <-]|[_ H]]; [rewrite Htt; split; [done|by left]|by apply Hm].
    + intros t' Ht'. destruct (Hin t') as [H1 H2]; [by right|]. split; [done|]. rewrite Em, lookup_insert_ne; [done|]. intros Ek. rewrite Ek in Htt. congruence.
    + exists l'. split; [exact E|]. split; [done|]. split; [done|]. split; [split; [rewrite Hh1|rewrite Hh2]; by rewrite El1|]. intros k. rewrite Hk, Em. rewrite fmap_cons.
      destruct (decide (k ∈ proTxHash <$> ts)); [by rewrite decide_True by by right|].
      destruct (decide (k = proTxHash t)) as [->|Hne]; [by rewrite decide_True, lookup_insert_eq by by left|].
      rewrite lookup_insert_ne, decide_False by (done || rewrite elem_of_cons; naive_solver). done.
Qed.

Lemma updates (ps : list (Z * CDeterministicMNStateDiff)) (l : L) : NoDup ps.*1 -> list_ok l -> mixed l ->
  (forall p, p ∈ ps -> exists f t, mnMap from !! proTxHash t = Some f /\ mnMap l !! proTxHash t = Some f /\ mnMap to !! proTxHash t = Some t /\ internalId t = p.1 /\
     p.2 = CDeterministicMNStateDiff_of (pdmnState f) (pdmnState t)) ->
  exists l', each (λ p : Z * CDeterministicMNStateDiff, λ result, UpdateMN_diff D (GetMNByInternalId result p.1) p.2 result) ps l = (Ok tt, l') /\
    list_ok l' /\ header_same l l' /\ nTotalRegisteredCount l' = nTotalRegisteredCount l /\
    forall k, mnMap l' !! k = match mnMap to !! k with Some t => if decide (internalId t ∈ ps.*1) then Some t else mnMap l !! k | None => mnMap l !! k end.
Proof.
  revert l. induction ps as [|[id d] ps IH]; intros l Hnd Hl Hm Hin.
  - exists l. split; [done|]. split_and!; try done. intros k. by destruct (mnMap to !! k).
  - apply NoDup_cons in Hnd as [Hid Hnd]. cbn [fst] in Hid. destruct (Hin (id, d)) as (f & t & Hf & Hfl & Ht & Ei & Ed); [by left|]. cbn [fst snd] in Ei, Ed.
    pose proof (set_state_to f t _ Hf Ht) as Est. pose proof (node_key _ _ _ Hfrom Hf) as Hkf.
    destruct (list_node D from Hfrom _ _ Hf) as (_ & Hokf & _). destruct (list_node D to Hto _ _ Ht) as (_ & Hokt & _).
    destruct (follows_same _ _ Hft _ _ _ Hf Ht) as (Eid & _).
    cbn [each fst snd]. unfold mbind, action_bind. rewrite <- Ei, <- Eid, (by_id l f) by (done || by rewrite Hkf). unfold UpdateMN_diff.
    rewrite Ed, state_diff_apply by (apply st_addr, node_state; done).
    pose proof (UpdateMN_node_cases D f (pdmnState t) l Hl (node_state _ Hokt) ltac:(by rewrite Hkf)) as Hc. rewrite Est in Hc.
    destruct (UpdateMN_node D f (pdmnState t) l) as [[[]|e] l1]; [|by destruct Hc as [_ Hc]; destruct Hc; eapply mixed_available].
    destruct Hc as (_ & Hl1 & u & El1). rewrite Hkf in El1. assert (mnMap l1 = <[proTxHash t := t]> (mnMap l)) as Em by by rewrite El1.
    destruct (IH l1 Hnd Hl1) as (l' & E & Hl' & [Hh1 Hh2] & Htot & Hk).
    + intros k o. rewrite Em, lookup_insert_Some. intros [[<- <-]|[_ H]]; [rewrite Ht; split; [done|by left]|by apply Hm].
    + intros p Hp. destruct (Hin p) as (f' & t' & H1 & H2 & H3 & H4 & H5); [by right|]. exists f', t'. split_and!; try done.
      rewrite Em, lookup_insert_ne; [done|]. intros Ek. rewrite Ek, H3 in Ht. injection Ht as <-. apply Hid. rewrite <- Ei, H4. apply list_elem_of_fmap. by exists p.
    + exists l'. split; [exact E|]. split; [done|]. split; [split; [rewrite Hh1|rewrite Hh2]; by rewrite El1|]. split; [rewrite Htot; by rewrite El1|]. intros k. rewrite Hk, Em, fmap_cons. cbn [fst].
      destruct (decide (k = proTxHash t)) as [->|Hne].
      * rewrite Ht, lookup_insert_eq. rewrite (decide_True (P := internalId t ∈ internalId f :: ps.*1)) by (rewrite Eid; by left). by destruct (decide _).
      * rewrite lookup_insert_ne by done. destruct (mnMap to !! k) as [t'|] eqn:Et'; [|done].
        destruct (decide (internalId t' ∈ ps.*1)) as [Hd|Hd]; [by rewrite decide_True by by right|]. rewrite decide_False; [done|].
        intros [E'|]%elem_of_cons; [|done]. apply Hne. pose proof (node_key _ _ _ Hto Et') as <-. f_equal.
        apply (id_inj to); try done; first [congruence|by rewrite (node_key _ _ _ Hto Et')].
Qed.
End apply.
(** *** What [BuildDiff] collects *)

Section build.
Context (sort_ids : list CDeterministicMN -> list CDeterministicMN) (Hsort : forall ns, sort_ids ns ≡ₚ ns).
Context (from to : L) (Hfrom : list_ok from) (Hto : list_ok to).
#[local] Abbreviation diff := (BuildDiff sort_ids from to).

Lemma emplaced {A} (g : A -> option (Z * CDeterministicMNStateDiff)) (xs : list A) :
  NoDup (omap g xs).*1 -> forall id d, foldl (λ m x, match g x with Some p => emplace p.1 p.2 m | None => m end) ∅ xs !! id = Some d <-> (id, d) ∈ omap g xs.
Proof.
  induction xs as [|x xs IH] using rev_ind; intros Hnd id d.
  { change (omap g []) with (@nil (Z * CDeterministicMNStateDiff)). cbn [foldl]. rewrite elem_of_nil. split; [intros H; by rewrite lookup_empty in H|done]. }
  rewrite foldl_app. cbn [foldl]. assert (omap g (xs ++ [x]) = omap g xs ++ omap g [x]) as E by apply omap_app. rewrite E in *. clear E. rewrite fmap_app in Hnd.
  apply NoDup_app in Hnd as (H1 & H2 & _). rewrite elem_of_app, <- IH by done. set (m := foldl _ ∅ xs) in *.
  change (omap g [x]) with (match g x with Some p => [p] | None => [] end) in *. destruct (g x) as [[i e]|]; [|by rewrite elem_of_nil; naive_solver]. cbn [fst snd].
  assert (m !! i = None) as Hi. { destruct (m !! i) as [e'|] eqn:Ei; [|done]. apply IH in Ei; [|done]. exfalso. apply (H2 i); [apply list_elem_of_fmap; by exists (i, e')|by left]. }
  rewrite emplace_new, lookup_insert_Some, list_elem_of_singleton by done. split; [intros [[-> ->]|[? ?]]; auto|].
  intros [H|[= -> ->]]; [|by left]. right. split; [|done]. intros ->. congruence.
Qed.

Lemma diff_added dmn : dmn ∈ addedMNs diff <-> mnMap to !! proTxHash dmn = Some dmn /\ mnMap from !! proTxHash dmn = None.
Proof. unfold BuildDiff. cbn [addedMNs]. rewrite (Hsort _), list_elem_of_filter, (elem_of_nodes D to dmn) by done. unfold GetMN. tauto. Qed.
Lemma NoDup_diff_added : NoDup (addedMNs diff).
Proof. unfold BuildDiff. cbn [addedMNs]. rewrite (Hsort _). apply NoDup_filter. by apply (NoDup_nodes D). Qed.

Lemma diff_removed id : id ∈ removedMns diff <-> exists f, mnMap from !! proTxHash f = Some f /\ mnMap to !! proTxHash f = None /\ internalId f = id.
Proof.
  unfold BuildDiff. cbn [removedMns]. setoid_rewrite <- (elem_of_nodes D from); [|done]. generalize (nodes from). intros ns.
  induction ns as [|f ns IH] using rev_ind; [cbn; split; [set_solver|intros (f & H & _); set_solver]|]. rewrite foldl_app. cbn [foldl].
  destruct (GetMN to (proTxHash f)) as [t|] eqn:E; unfold GetMN in E; [rewrite IH|rewrite elem_of_union, IH, elem_of_singleton].
  - setoid_rewrite elem_of_app. setoid_rewrite list_elem_of_singleton. split; [naive_solver|]. intros (g & [Hg| ->] & H & Hi); [naive_solver|congruence].
  - setoid_rewrite elem_of_app. setoid_rewrite list_elem_of_singleton. naive_solver.
Qed.

(** the entry of a node that is in both lists *)
Definition changed (toPtr : CDeterministicMN) : option (Z * CDeterministicMNStateDiff) :=
  match mnMap from !! proTxHash toPtr with
  | None => None
  | Some fromPtr =>
      let stateDiff := CDeterministicMNStateDiff_of (pdmnState fromPtr) (pdmnState toPtr) in
      if fields stateDiff =? 0 then None else Some (internalId toPtr, stateDiff)
  end.
Lemma changed_id t p : changed t = Some p -> p.1 = internalId t.
Proof. unfold changed. destruct (mnMap from !! proTxHash t); [|done]. cbv zeta. destruct (_ =? _); [done|]. by intros [= <-]. Qed.
Lemma NoDup_changed : NoDup (omap changed (nodes to)).*1.
Proof.
  assert (forall ns, NoDup ns -> (forall n, n ∈ ns -> mnMap to !! proTxHash n = Some n) -> NoDup (omap changed ns).*1) as H.
  - induction ns as [|n ns IH]; intros Hnd Hin; [constructor|]. apply NoDup_cons in Hnd as [Hn Hnd]. specialize (IH Hnd ltac:(intros; apply Hin; by right)).
    cbn. destruct (changed n) as [p|] eqn:E; [|exact IH]. apply NoDup_cons. split; [|exact IH]. intros ([q e] & Eq & Hq)%list_elem_of_fmap. apply list_elem_of_omap in Hq as (n' & Hn' & E').
    apply changed_id in E, E'. apply Hn. replace n with n'; [done|]. apply (id_inj to); try done; [by apply Hin; right|by apply Hin; left|congruence].
  - apply H; [by apply (NoDup_nodes D)|]. intros n Hn. by apply (elem_of_nodes D) in Hn.
Qed.
Lemma diff_updated id d : updatedMNs diff !! id = Some d <-> exists t, mnMap to !! proTxHash t = Some t /\ changed t = Some (id, d).
Proof.
  setoid_rewrite <- (elem_of_nodes D to); [|done]. rewrite <- list_elem_of_omap, <- (emplaced changed) by apply NoDup_changed. unfold BuildDiff. cbn [updatedMNs].
  match goal with |- foldl ?f ?a ?l !! _ = _ <-> foldl ?g _ _ !! _ = _ => assert (foldl f a l = foldl g a l) as ->; [|done] end.
  generalize (nodes to). intros ns. induction ns as [|n ns IH] using rev_ind; [done|]. rewrite !foldl_app, IH. cbn [foldl].
  unfold changed, GetMN. destruct (mnMap from !! proTxHash n) as [f|]; [|reflexivity]. cbv zeta.
  generalize (CDeterministicMNStateDiff_of (pdmnState f) (pdmnState n)). intros d'. destruct (fields d' =? 0); reflexivity.
Qed.
End build.
(** *** The round trip *)

Section roundtrip.
Context (sort_ids : list CDeterministicMN -> list CDeterministicMN) (Hsort : forall ns, sort_ids ns ≡ₚ ns).
Context (from to : L) (Hfrom : list_ok from) (Hto : list_ok to) (Hft : follows from to).
#[local] Abbreviation diff := (BuildDiff sort_ids from to).

Lemma removed_iff k f : mnMap from !! k = Some f -> internalId f ∈ removedMns diff <-> mnMap to !! k = None.
Proof.
  intros Hf. pose proof (node_key _ _ _ Hfrom Hf) as Hk. rewrite diff_removed by done. split; [|intros; exists f; by rewrite Hk].
  intros (g & Hg & Ht & E). assert (g = f) as ->; [|by rewrite <- Hk]. apply (id_inj from); try done. by rewrite Hk.
Qed.
Lemma updated_iff k f t : mnMap from !! k = Some f -> mnMap to !! k = Some t -> ~ is_Some (updatedMNs diff !! internalId t) -> f = t.
Proof.
  intros Hf Ht Hn. rewrite <- (set_state_to from to Hfrom Hto Hft f t k Hf Ht). pose proof (node_key _ _ _ Hto Ht) as Hk.
  destruct (list_node D from Hfrom _ _ Hf) as (_ & Hokf & _), (list_node D to Hto _ _ Ht) as (_ & Hokt & _).
  destruct (decide (fields (CDeterministicMNStateDiff_of (pdmnState f) (pdmnState t)) = 0)) as [E|E].
  - apply state_diff_fields in E; [|by apply st_addr, node_state..]. rewrite <- E. by destruct f.
  - exfalso. apply Hn. exists (CDeterministicMNStateDiff_of (pdmnState f) (pdmnState t)). apply (diff_updated sort_ids); [done..|]. exists t. rewrite Hk. split; [done|].
    unfold changed. rewrite Hk, Hf. cbv zeta. by rewrite (proj2 (Z.eqb_neq _ _) E).
Qed.

Lemma apply_diff h height : exists r, ApplyDiff D h height diff from = Ok r /\ list_ok r /\ mnMap r = mnMap to /\ blockHash r = h /\ nHeight r = height.
Proof.
  unfold ApplyDiff. set (l0 := SetHeight height (SetBlockHash h from)).
  assert (list_ok l0) as Hl0 by (destruct Hfrom; by constructor).
  destruct (removals (ids_in_order (removedMns diff)) l0) as (l1 & E1 & Hl1 & [Ha1 Hb1] & Hk1); [|done| |].
  { unfold ids_in_order. rewrite (merge_sort_Permutation _). apply NoDup_elements. }
  { intros id Hid. unfold ids_in_order in Hid. rewrite (merge_sort_Permutation _), elem_of_elements, diff_removed in Hid by done. destruct Hid as (f & Hf & _ & Ei). by exists f. }
  assert (forall k, mnMap l1 !! k = match mnMap to !! k with Some _ => mnMap from !! k | None => None end) as Hm1.
  { intros k. rewrite Hk1. change (mnMap l0) with (mnMap from). destruct (mnMap from !! k) as [f|] eqn:Ef; [|by destruct (mnMap to !! k)].
    unfold ids_in_order. pose proof (removed_iff k f Ef) as Hr. destruct (mnMap to !! k); [rewrite decide_False|rewrite decide_True]; try done;
    rewrite (merge_sort_Permutation _), elem_of_elements, Hr; done. }
  assert (mixed from to l1) as Hmix. { intros k o Ho. rewrite Hm1 in Ho. destruct (mnMap to !! k); [split; [done|by right]|done]. }
  pose proof (diff_added sort_ids Hsort from to Hto) as Had.
  destruct (additions from to Hto Hft (addedMNs diff) l1) as (l2 & E2 & Hl2 & Hmix2 & [Ha2 Hb2] & Hk2); [by apply NoDup_diff_added|done|done| |].
  { intros t Ht. apply Had in Ht as [Ht Hf]. split; [done|]. by rewrite Hm1, Ht. }
  assert (forall k, mnMap l2 !! k = match mnMap to !! k with Some t => Some (default t (mnMap from !! k)) | None => None end) as Hm2.
  { intros k. rewrite Hk2, Hm1. destruct (decide _) as [Hin|Hout].
    - apply list_elem_of_fmap in Hin as (t & -> & Ht). apply Had in Ht as [-> ->]. done.
    - destruct (mnMap to !! k) as [t|] eqn:Et; [|done]. destruct (mnMap from !! k) as [f|] eqn:Ef; [done|]. exfalso. apply Hout.
      pose proof (node_key _ _ _ Hto Et) as <-. apply list_elem_of_fmap. exists t. split; [done|]. by apply Had. }
  destruct (updates from to Hfrom Hto Hft (ordered_elements Z.le (updatedMNs diff)) l2) as (l3 & E3 & Hl3 & [Ha3 Hb3] & _ & Hk3); [apply NoDup_ordered_keys|done|done| |].
  { intros [id d] Hp. apply elem_of_ordered, diff_updated in Hp as (t & Ht & Hc); [|done..]. unfold changed in Hc. destruct (mnMap from !! proTxHash t) as [f|] eqn:Ef; [|done].
    cbv zeta in Hc. destruct (_ =? 0); [done|]. injection Hc as <- <-. exists f, t. rewrite Hm2, Ht, Ef. done. }
  exists l3. unfold mbind, action_bind. rewrite E1, E2, E3. split; [done|]. split; [done|]. split; [|by rewrite Ha3, Ha2, Ha1, Hb3, Hb2, Hb1].
  apply map_eq. intros k. rewrite Hk3, Hm2. destruct (mnMap to !! k) as [t|] eqn:Et; [|done]. destruct (decide _) as [|Hd]; [done|]. f_equal.
  destruct (mnMap from !! k) as [f|] eqn:Ef; [|done]. apply (updated_iff k f t Ef Et). intros [d Hu]. apply Hd, list_elem_of_fmap. exists (internalId t, d).
  split; [done|]. by apply elem_of_ordered.
Qed.
End roundtrip.

(** C7: The difference of two lists, of which the second may follow the first, applied to the first, always gives the nodes of the second, with
    its indexes by identifier and by property and the height and hash of the block: a list rebuilt from stored differences is the list that was
    computed.  The second may follow the first ([follows]) when a node in both keeps its identifier, collateral and reward, and no node of the second has
    a unique property that in the first belongs to another node that is still there: [ApplyDiff] updates one node after the
    other, and throws when two of them swap their addresses.  Blocks do not do that, as the special transactions of a block are checked against the list
    before it.  (The count of registered nodes may differ: the difference does not have the nodes that were added and removed between the two.) *)
Theorem list_diff_roundtrip (sort_ids : list CDeterministicMN -> list CDeterministicMN) (from to : L) (hash : list Z) (height : Z) :
  (forall ns, sort_ids ns ≡ₚ ns) -> list_ok from -> list_ok to -> follows from to ->
  exists r, ApplyDiff D hash height (BuildDiff sort_ids from to) from = Ok r /\ blockHash r = hash /\ nHeight r = height /\
    mnMap r = mnMap to /\ mnInternalIdMap r = mnInternalIdMap to /\ mnUniquePropertyMap r = mnUniquePropertyMap to.
Proof.
  intros Hs Hf Ht Hft. destruct (apply_diff sort_ids Hs from to Hf Ht Hft hash height) as (r & E & Hr & Em & Eh & Eg). exists r.
  destruct (list_determined r to Hr Ht Em) as [E1 E2]. done.
Qed.
End lists.

(** The difference of two states has the fields that differ, and applied to the first state gives the second; it is empty
    exactly when the states are equal. *)
Theorem state_diff_roundtrip `{HK : !BlsImpl BLS_CURVE_PUBKEY_SIZE} (a b : CDeterministicMNState) :
  service_ok (addr a) -> service_ok (addr b) ->
  ApplyToState (CDeterministicMNStateDiff_of a b) a = b /\ (fields (CDeterministicMNStateDiff_of a b) = 0 <-> a = b) /\
  (forall f, has_field (CDeterministicMNStateDiff_of a b) f = true <-> ~ same_on f a b).
Proof.
  intros Ha Hb. split; [by apply state_diff_apply|]. split; [by apply state_diff_fields|]. intros f.
  destruct (diff_spec a b) as [-> _]. rewrite negb_true_iff, <- not_true_iff_false. by rewrite field_eqb_same.
Qed.

(** ** The hypotheses can be met *)

#[local] Instance example_keys : BlsImpl BLS_CURVE_PUBKEY_SIZE := two_keys 47.
#[local] Instance example_laws : BlsImplLaws BLS_CURVE_PUBKEY_SIZE := two_keys_laws 47.
Definition node_c : CDeterministicMN := mkMN 2 (replicate 32 7) (mkCOutPoint (replicate 32 7) 0) 0
  (mkMNState 10 0 0 (-1) (-1) REASON_NOT_SPECIFIED (replicate 32 7) (replicate 32 7) (replicate 20 7) (replicate 48 0) (replicate 20 7) CService_new [] []).
(** one node leaves, one is punished and one is added *)
Definition next_list : CDeterministicMNList :=
  (AddMN Sha256.standard node_c true (PoSePunish Sha256.standard (replicate 32 5) 66 (RemoveMN Sha256.standard (replicate 32 6) example_list).2).2).2.
Definition node_a' : CDeterministicMN := set_state (set_penalty 66 (pdmnState node_a)) node_a.

Lemma node_c_ok : node_ok node_c.
Proof.
  split; [by split|unfold in_uint; cbn; done|done|]. split; [discriminate|apply CService_new_ok|]. reflexivity.
Qed.
Lemma next_list_ok : list_ok Sha256.standard next_list.
Proof.
  apply list_ok_AddMN; [|apply node_c_ok].
  generalize example_list_ok. generalize example_list. intros l0 Hl0.
  assert (list_ok Sha256.standard (RemoveMN Sha256.standard (replicate 32 6) l0).2) as Hl.
  { pose proof (RemoveMN_cases Sha256.standard (replicate 32 6) l0 Hl0) as H. destruct (RemoveMN Sha256.standard (replicate 32 6) l0) as [[[]|e] l']; cbn [snd]; [by destruct H as (f & _ & H & _)|].
    by destruct H as [-> _]. }
  revert Hl. generalize (RemoveMN Sha256.standard (replicate 32 6) l0).2. intros l Hl.
  unfold PoSePunish, GetMN. cbn [negb Z.ltb Z.compare]. destruct (mnMap l !! replicate 32 5) as [old|] eqn:E; [|exact Hl].
  destruct (UpdateMN_same Sha256.standard l (replicate 32 5) old (punished (CalcMaxPoSePenalty l) 66 (nHeight l) (pdmnState old)) Hl E (punished_same _ _ _ _)) as [-> H'].
  exact H'.
Qed.
Lemma next_list_map : mnMap next_list = {[replicate 32 5 := node_a'; replicate 32 7 := node_c]}.
Proof. vm_compute. reflexivity. Qed.
Lemma next_nodes k t : mnMap next_list !! k = Some t -> k = replicate 32 5 /\ t = node_a' \/ k = replicate 32 7 /\ t = node_c.
Proof. rewrite next_list_map. intros [[<- <-]|[_ [<- <-]%lookup_singleton_Some]]%lookup_insert_Some; [by left|by right]. Qed.
Lemma new_node_free : props Sha256.standard node_c ## props Sha256.standard node_a.
Proof.
  assert (Forall (λ h, h ∉ props Sha256.standard node_a) (props Sha256.standard node_c)) as H by (apply (bool_decide_unpack _); vm_compute; exact I).
  intros h H1 H2. rewrite Forall_forall in H. exact (H h H1 H2).
Qed.
Lemma example_follows : follows Sha256.standard example_list next_list.
Proof.
  split.
  - intros k f t [[-> ->]|[-> ->]]%example_nodes [[E ->]|[E ->]]%next_nodes; try discriminate E. split; [reflexivity|split; reflexivity].
  - intros k t q o Ht Hq [t' Ht'] Hne.
    apply example_nodes in Hq as [[-> ->]|[-> ->]]; apply next_nodes in Ht' as [[E _]|[E _]]; try discriminate E.
    apply next_nodes in Ht as [[-> ->]|[-> ->]]; [by destruct Hne|]. exact new_node_free.
Qed.

Lemma list_diff_roundtrip_witness : exists r,
  ApplyDiff Sha256.standard (replicate 32 9) 12 (BuildDiff (λ ns, ns) example_list next_list) example_list = Ok r /\ mnMap r = mnMap next_list /\ nHeight r = 12.
Proof.
  pose proof (list_diff_roundtrip Sha256.standard (λ ns, ns)) as H. specialize (H example_list next_list (replicate 32 9) 12 ltac:(intros ns; reflexivity)).
  specialize (H example_list_ok next_list_ok example_follows). destruct H as (r & E & _ & Hh & Hm & _). exists r. split; [exact E|]. split; [exact Hm|exact Hh].
Defined.

Lemma state_diff_roundtrip_witness :
  ApplyToState (CDeterministicMNStateDiff_of (pdmnState node_a) (pdmnState node_a')) (pdmnState node_a) = pdmnState node_a' /\
  has_field (CDeterministicMNStateDiff_of (pdmnState node_a) (pdmnState node_a')) Field_nPoSePenalty = true.
Proof.
  assert (service_ok (addr (pdmnState node_a))) as Ha by (apply st_addr, node_state, node_a_ok).
  pose proof (state_diff_roundtrip (pdmnState node_a) (pdmnState node_a') Ha Ha) as (H1 & _ & H2).
  split; [exact H1|]. apply H2. intros E. discriminate E.
Defined.
